(* ===== verification/_CoqProject ===== *)
-Q . S2P
Prelude.v
Bitmask.v
Common.v
Brick.v
BrickInv.v
BrickSpec.v
BrickApi.v
Burst.v
Hub.v
Graph.v
MacTable.v
Switch.v
Packets.v
Queue.v
Accumulator.v
Network.v
Antispoof.v
UdpFilter.v
Endpoints.v
Pmtud.v
Vtep.v
VtepSpec.v
VtepAdmin.v
GraphSplit.v
Firewall.v
Constructors.v
Stack.v
Thread.v
ThreadSpec.v
Devices.v
Nic.v
Tap.v
SysQueue.v
Vhost.v
VhostSpec.v
VhostSync.v
Packetsgen.v
MacText.v
PacketApi.v
Printer.v
Print.v
DeviceNew.v
Dot.v
Errors.v
Lifecycle.v
Lpm.v
LpmSpec.v
LpmBits.v
LpmTable.v
Bitops.v
VectorHash.v
Cdbr.v
Cdbw.v
CdbGraph.v
CdbPeel.v
CdbBuild.v
CdbAssign.v
CdbPrint.v
CdbOutput.v
CdbTable.v
CdbSpec.v
CdbRead.v
CdbStore.v
CdbWide.v
BpfInsn.v
Lir.v
BpfOpt.v
BpfJit.v
BpfFlow.v
BpfBounds.v
BpfSound.v
BpfBlock.v
BpfLayout.v
BpfRun.v
BpfSim.v
BpfCorrect.v
BpfSpec.v
BpfFlaws.v
