(* ===== verification/Prelude.v ===== *)
(** * Packetgraph: a verification development

    Packetgraph is a C library in which packets travel through a graph of bricks. A brick
    has a type (monopole, dipole, multipole), edges to its neighbours on its west and east
    sides, and callbacks; a burst is an array of packet pointers with a 64-bit mask of the
    valid ones, handed from brick to brick. Graphs collect bricks and poll them, threads
    poll graphs, queues carry bursts from one graph to another.

    ** How the code is modelled

    Code that changes the bricks is a function in the state monad [M] of this file over
    [Brick.state]: the store of bricks by address, the private states of the bricks (the
    world) and the error of the caller. Code on the data path is in the same monad over
    [Burst.flow]: the memory of packets, the packet counters, the error and the world.
    [None] is undefined behaviour or an abort: a read through a pointer that is not valid,
    an access out of an array, a failed assertion. Theorems stated with [wp], or with an
    equation whose right-hand side is [Some], say that this does not happen. A w-bit
    integer is a [Z] that wraps explicitly ([u8], [u16], [u32], [u64]); bytes are [Z]; maps
    are [gmap].

    The other bricks are seen through interfaces. [BrickInv.BrickLaws] is what [brick.c]
    relies on in the callbacks of a brick. [Burst.Dispatch] is the burst function that an
    edge leads to; [Accumulator.Recording], [Pmtud.Observing] and [Queue.Neighbours] are what a
    theorem assumes of it. A neighbour that calls back into the brick that sends is not
    modelled. DPDK is seen through [Packets.PktLib], [Endpoints.CloneLib] and the classes of
    laws next to them, NPF through [Firewall.NpfLib], GLib's hash table through
    [Graph.HashOrder] (some order of iteration). A reference count counts the references
    of the program; the offload flags of packets are not kept.

    ** The files

    - [Prelude], [Bitmask], [Common]: the monad, integers, lists; [utils/bitmask.h]; sides,
      types, errors and configurations ([common.h], [errors.c], [config.c]).
    - [Brick], [BrickInv], [BrickSpec], [BrickApi]: [brick.c] and [brick-int.h]: creation,
      reference counts, links, edge iterators, destruction; the invariant of the store; the
      store seen as a set of links ([BrickSpec.R]), which every operation refines; the
      states reachable through the interface.
    - [Burst], [Hub]: bursts, polls and counters of [brick.c]; [nop.c], [diode.c],
      [user-dipole.c] and [hub.c].
    - [Graph], [GraphSplit]: [graph.c]: exploration, push and pop, sanity, polling; split
      and merge, which compose bricks, queues and graphs.
    - [MacTable], [Switch]: [utils/mac-table.h] with its iterator and its allocation
      failures (the jumps of the C code are the values of a sum); [switch.c].
    - [Packets], [Queue], [Accumulator], [Endpoints]: [packets.c], [queue.c],
      [accumulator.c], [collect.c], [fail.c] and [rxtx.c].
    - [Network], [Antispoof], [UdpFilter], [Pmtud]: [utils/network.h] and [utils/ip.h],
      [antispoof.c], [udp-filter.c], [pmtud.c].
    - [Vtep], [VtepSpec], [VtepAdmin]: [vtep.c], [vtep6.c] and [vtep-impl.h] for IPv4 and
      IPv6, in a monad of its own for the jumps of a failed allocation: what the data path
      does, and the administration of networks and addresses.
    - [Firewall]: [firewall.c]. [Constructors], [DeviceNew]: the [pg_*_new] functions.
    - [Stack], [Thread], [ThreadSpec]: [utils/stack.h]; [thread.c] and [thread-impl.h],
      where a critical section is one step and a schedule tells how many turns the thread
      takes between the attempts of its client.
    - [Devices], [Nic], [Tap]: [nic.c] and [tap.c] with what they share; the ports and the
      kernel are the classes [Nic.EthLib], [Nic.EthCtl] and [Tap.TapLib].
    - [SysQueue], [Vhost], [VhostSpec], [VhostSync]: the lists of [sys/queue.h] as linked
      cells; [vhost.c]: sockets, callbacks of the vhost library, data path; and the lock
      between graph threads and the library as a step relation over all interleavings.
    - [Packetsgen], [PacketApi], [MacText]: [packetsgen.c], [packet.c], [utils/mac.c].
    - [Printer], [Print], [Dot]: the text of packets ([printer.c]), the brick that writes
      it ([print.c]), the drawing of a graph ([brick.c], [graph.c]).
    - [Errors], [Lifecycle]: errors and configurations as memory ([errors.c], [config.c]);
      [lifecycle.c], [mempool.c], and [seccomp.c] with the machine that runs its filter.
    - [Lpm], [LpmSpec], [LpmBits], [LpmTable]: [npf/liblpm/src/lpm.c]: hash maps per prefix
      length; what they hold; prefixes bit by bit; the table against a map of prefixes.
    - [Bitops], [VectorHash], [Cdbr], [Cdbw], [CdbGraph], [CdbPrint], [CdbOutput]: the
      constant databases of [npf/libcdb/src]: division by multiplication ([bitops.h]), the
      hash function ([mi_vector_hash.c]), the reader ([cdbr.c]) and the writer ([cdbw.c]):
      its records and keys with [malloc], the lists of its hash graph, its buffer and file.
      [CdbPeel], [CdbBuild], [CdbAssign] are about the graph, [CdbTable] about the table,
      [CdbSpec] about a run of the writer, [CdbRead] about its file, [CdbStore] composes
      writer and reader, [CdbWide] holds two behaviours outside of their hypotheses.
    - [BpfInsn], [Lir], [BpfOpt], [BpfJit]: the compiler of filter programs,
      [npf/bpfjit/bpfjit.c]: the encoding of programs ([bpf-compat.h]) with a machine that
      runs them ([BpfInsn.ref_run]); the instructions of the assembler with the machine that
      [sljitLir.h] documents ([Lir.lir_run]); the three passes of [optimize]; the generator
      [bpfjit_generate_code], in a monad with assertions and [goto fail]. [BpfFlow],
      [BpfBounds], [BpfSound] are about the optimizer, [BpfBlock], [BpfLayout] about the
      code of each instruction and where it stands, [BpfRun], [BpfSim], [BpfCorrect] about
      running it; [BpfSpec] states the theorems, [BpfFlaws] what the compiler gets wrong.

    ** What the theorems show

    - Bricks: no sequence of legal calls crashes or breaks the store; creation, link,
      unlink and destruction do to the set of links exactly what they should, errors
      included; exploring finds the connected component; splitting replaces one link by
      two queues and leaves two graphs that hold their components.
    - Switch and MAC table: a burst is forwarded, flooded, filtered and learned as a
      reference function says; the table is a map from addresses to entries, also when
      entries are removed while it is iterated.
    - Tunnels: what is sent is the frame with its headers, what is received goes to the
      ports of its network, one end undoes the other; a network is added once; tables lost
      by a failed allocation are rebuilt.
    - Queues, accumulator, stacks: order, bounds, references held, friends.
    - Filters (antispoof, firewall, UDP filter, path MTU): exactly the packets they should
      pass go on.
    - Threads: requests are answered under every schedule in which the thread takes a
      turn, slots and identifiers are handed out once, a stopped thread polls nothing, a
      graph that fails stops alone; and what an empty or a full queue does.
    - Devices: a burst hands the selected packets to the port, the kernel or the guest in
      order and keeps the reference counts; a poll forwards what was received and drops
      its references; a port is set up by one sequence of calls and every failure is
      reported; descriptors are closed on every error.
    - Vhost: the list of sockets and the bricks agree in every reachable state; in no
      interleaving does a graph thread use a device that the library has taken down, and
      the library is never stuck waiting.
    - Text: addresses print and parse back; an IPv6 packet with any chain of extension
      headers is printed header by header; a dump has a line per 16 bytes; the dot output
      ends and draws the connected bricks once.
    - Process: the filter allows exactly the listed system calls; errors and
      configurations are freed exactly once with their strings.
    - Prefixes: a lookup returns the value of the longest prefix that agrees with the
      address, after any calls and failed allocations.
    - Constant databases: what is written is read back, key by key and record by record;
      the graph of the keys is built exactly when it can be peeled; a table under
      construction is a map and a list, and owns exactly its memory; a file that opens is
      read inside, within bounds on its counts; hash and division equal their references.
    - Filter compiler: when code is generated it returns what the program returns, with the
      same external memory and the same effects of the coprocessor, whatever the processor
      leaves in the places that the assembler does not define; it returns when words,
      shifts and jumps of the program are in range; the length of a packet that is checked
      early is one below which the program returns 0 without effect. The theorems ask that
      calls keep the register X where the generated code does not save it, and that X is
      initialised before [COPX]; [BpfFlaws] has programs that fail without these conditions.
    - Helpers: checksums, the walk over IPv6 extension headers, lengths of packets.

    ** Fuel and bounds

    Loops with fuel have enough: [Brick.iterator_fuel] covers both sides of a brick;
    exploration takes one brick of the store per turn ([S (size bricks)]); a 64-bit mask has
    64 bits; the IPv6 walk stops after 7 headers as the code does; a switch burst restarts
    at most once per failed allocation; the flush of firewall rules restarts once per
    deleted rule (the square of their number); a poll of a tap reads at most as often as the
    kernel has frames; the printer takes one unit of fuel per header, and
    [Printer.print_l4_no_end] shows a header for which no fuel is enough; a system call
    filter only jumps forward, so its length is enough; a table of prefixes has 32 lengths
    per word and doubles at most 31 times; the writer of a database tries seeds without end, and
    has enough fuel when one of the seeds that the generator gives is good; filter programs
    jump forward, so the reference machine has enough with one unit per instruction, and the
    compiled code is shown to end with some fuel. The theorems on these functions give a
    result, not only a property of it. Schedules of threads are arbitrary finite lists.

    ** Not modelled

    Variants of the code that a build does not choose ([PG_NIC_STUB], [PG_NIC_BENCH],
    [PG_VHOST_FASTER_YET_BROKEN_POLL], [TAP_IGNORE_ERROR]); pcap dumps of packets in several
    segments, and the rounding of doubles in their time stamps; the offload flags of tunnel
    packets. [bench.c], [qemu.c], [tests.c] and the programs under [examples] drive the
    library and are not part of it. Of the filter compiler, the kernel variant, division by
    [SLJIT_UDIV], and the calls that make the code executable and free it. The back ends of
    the assembler ([npf/sljit]) are third-party code; NPF itself is a submodule. *)

From stdpp Require Export base tactics list gmap strings sorting.
From Stdlib Require Export ZArith Lia.

(** ** Machine integers

    A w-bit unsigned integer of the C code is a [Z]; every operation that can
    leave the range wraps explicitly with one of these functions. *)

Declare Scope pg_scope.
Delimit Scope pg_scope with pg.
Global Open Scope Z_scope.

Definition u8 (z : Z) : Z := z mod 2 ^ 8.
Definition u16 (z : Z) : Z := z mod 2 ^ 16.
Definition u32 (z : Z) : Z := z mod 2 ^ 32.
Definition u64 (z : Z) : Z := z mod 2 ^ 64.

(** Bitwise complement of a [uint64_t]. *)
Definition not64 (z : Z) : Z := u64 (Z.lnot z).

(** ** A state monad with crashes

    Code that mutates the brick store is written in this monad. [None] is
    undefined behaviour or an abort of the C program: a read through a freed
    or NULL pointer, an out-of-range access, [g_assert] or [pg_panic]. *)

Definition M (St A : Type) : Type := St → option (A * St).

Global Instance M_ret St : MRet (M St) := λ A a s, Some (a, s).
Global Instance M_bind St : MBind (M St) := λ A B f m s,
  match m s with
  | Some (a, s') => f a s'
  | None => None
  end.

Definition crash {St A} : M St A := λ _, None.
Definition gets {St A} (f : St → A) : M St A := λ s, Some (f s, s).
Definition modify {St} (f : St → St) : M St unit := λ s, Some (tt, f s).

(** A pointer dereference: crashes on [None]. *)
Definition unwrap {St A} (o : option A) : M St A :=
  match o with Some a => mret a | None => crash end.

(** [g_assert]. *)
Definition massert {St} (b : bool) : M St unit :=
  if b then mret tt else crash.

(** Total correctness: [m] started in [s] does not crash and its result and
    final state satisfy [Q]. *)
Definition wp {St A} (m : M St A) (Q : A → St → Prop) (s : St) : Prop :=
  match m s with
  | Some (a, s') => Q a s'
  | None => False
  end.

(** ** Lemmas on the monad *)

Lemma wp_ret {St A} (a : A) (Q : A → St → Prop) s :
  wp (mret a) Q s ↔ Q a s.
Proof. done. Qed.

Lemma wp_bind {St A B} (m : M St A) (k : A → M St B) Q s :
  wp (m ≫= k) Q s ↔ wp m (λ a, wp (k a) Q) s.
Proof. unfold wp, mbind, M_bind. by destruct (m s) as [[??]|]. Qed.

Lemma wp_gets {St A} (f : St → A) (Q : A → St → Prop) s :
  wp (gets f) Q s ↔ Q (f s) s.
Proof. done. Qed.

Lemma wp_modify {St} (f : St → St) (Q : unit → St → Prop) s :
  wp (modify f) Q s ↔ Q tt (f s).
Proof. done. Qed.

Lemma wp_unwrap_Some {St A} (a : A) (Q : A → St → Prop) s :
  wp (unwrap (Some a)) Q s ↔ Q a s.
Proof. done. Qed.

Lemma wp_massert_true {St} (Q : unit → St → Prop) s :
  wp (massert true) Q s ↔ Q tt s.
Proof. done. Qed.

Lemma mret_run {St A} (a : A) (s : St) : (mret a : M St A) s = Some (a, s).
Proof. done. Qed.

Lemma wp_mono {St A} (m : M St A) (P Q : A → St → Prop) s :
  wp m P s → (∀ a s', P a s' → Q a s') → wp m Q s.
Proof. unfold wp. destruct (m s) as [[??]|]; naive_solver. Qed.

Lemma wp_elim {St A} (m : M St A) Q s a s' :
  wp m Q s → m s = Some (a, s') → Q a s'.
Proof. unfold wp. intros H Hr. by rewrite Hr in H. Qed.

Lemma wp_run {St A} (m : M St A) (Q : A → St → Prop) s :
  wp m Q s ↔ ∃ a s', m s = Some (a, s') ∧ Q a s'.
Proof.
  unfold wp. destruct (m s) as [[a s']|]; [|split; [done|by intros (?&?&?&?)]].
  split; [by exists a, s'|]. intros (?&?&[= -> ->]&?). done.
Qed.

(** A run of a sequence that does not crash. *)
Lemma bind_run {St A B} (m : M St A) (k : A → M St B) s r :
  (m ≫= k) s = Some r → ∃ a s', m s = Some (a, s') ∧ k a s' = Some r.
Proof.
  unfold mbind, M_bind. destruct (m s) as [[a s']|]; [|done]. by exists a, s'.
Qed.

(** [inv_run H] inverts a run [H] of a sequence, step by step. *)
Ltac inv_run H :=
  repeat (let a := fresh "a" in let s := fresh "s" in let Ha := fresh "Hrun" in
          apply bind_run in H as (a & s & Ha & H)).

Create HintDb pg discriminated.
#[export] Hint Rewrite @wp_ret @wp_bind @wp_gets @wp_modify
  @wp_unwrap_Some @wp_massert_true : wp.

(** [wp_step] runs the monad's primitives. *)
Ltac wp_step := autorewrite with wp; simpl.

(** ** Integers *)

Lemma u64_small z : 0 ≤ z < 2 ^ 64 → u64 z = z.
Proof. apply Z.mod_small. Qed.

Lemma u16_small z : 0 ≤ z < 2 ^ 16 → u16 z = z.
Proof. apply Z.mod_small. Qed.

Lemma u32_idem x : u32 (u32 x) = u32 x.
Proof. unfold u32. apply Z.mod_mod. lia. Qed.

Lemma u32_add_l a b : u32 (u32 a + b) = u32 (a + b).
Proof. unfold u32. apply Zplus_mod_idemp_l. Qed.

Lemma u32_add_r a b : u32 (a + u32 b) = u32 (a + b).
Proof. unfold u32. apply Zplus_mod_idemp_r. Qed.

Lemma u64_bits z i : 0 ≤ i < 64 → Z.testbit (u64 z) i = Z.testbit z i.
Proof. intros. unfold u64. apply Z.mod_pow2_bits_low. lia. Qed.

Lemma not64_bits z i :
  0 ≤ i < 64 → Z.testbit (not64 z) i = negb (Z.testbit z i).
Proof. intros. unfold not64. rewrite u64_bits by lia. apply Z.lnot_spec. lia. Qed.

(** A value below [2 ^ n] has no bit at or above [n]. *)
Lemma testbit_high z n i :
  0 ≤ n → 0 ≤ z < 2 ^ n → n ≤ i → Z.testbit z i = false.
Proof.
  intros Hn Hz Hi. destruct (decide (z = 0)) as [->|]; [apply Z.bits_0|].
  apply Z.bits_above_log2; [lia|].
  assert (Z.log2 z < n) by (apply Z.log2_lt_pow2; lia). lia.
Qed.

(** Two unsigned words with the same bits are equal. *)
Lemma bits_ext n a b :
  0 ≤ n → 0 ≤ a < 2 ^ n → 0 ≤ b < 2 ^ n →
  (∀ i, 0 ≤ i < n → Z.testbit a i = Z.testbit b i) → a = b.
Proof.
  intros Hn Ha Hb H. apply Z.bits_inj'. intros i Hi.
  destruct (decide (i < n)); [apply H; lia|].
  by rewrite (testbit_high a n), (testbit_high b n) by lia.
Qed.

(** A value without bits at or above [n] is below [2 ^ n]. *)
Lemma bits_bound n z :
  0 ≤ n → 0 ≤ z → (∀ i, n ≤ i → Z.testbit z i = false) → 0 ≤ z < 2 ^ n.
Proof.
  intros Hn Hz H. assert (z = z mod 2 ^ n) as Heq.
  { apply Z.bits_inj'. intros i Hi. destruct (decide (i < n)).
    - by rewrite Z.mod_pow2_bits_low by lia.
    - rewrite Z.mod_pow2_bits_high by lia. apply H. lia. }
  pose proof (Z.mod_pos_bound z (2 ^ n)). lia.
Qed.

(** Bits stay below the word size under [land] and [lor]. *)
Lemma land_bound n a b :
  0 ≤ n → 0 ≤ a < 2 ^ n → 0 ≤ Z.land a b < 2 ^ n.
Proof.
  intros Hn Ha. apply bits_bound; [lia|apply Z.land_nonneg; lia|].
  intros i Hi. by rewrite Z.land_spec, (testbit_high a n) by lia.
Qed.

Lemma lor_bound n a b :
  0 ≤ n → 0 ≤ a < 2 ^ n → 0 ≤ b < 2 ^ n → 0 ≤ Z.lor a b < 2 ^ n.
Proof.
  intros Hn Ha Hb. apply bits_bound; [lia|apply Z.lor_nonneg; lia|].
  intros i Hi. by rewrite Z.lor_spec, (testbit_high a n), (testbit_high b n) by lia.
Qed.

(** ** Lists *)

(** Two strictly increasing lists with the same members are equal. *)
Lemma sorted_ext (l1 l2 : list nat) :
  StronglySorted lt l1 → StronglySorted lt l2 →
  (∀ i, i ∈ l1 ↔ i ∈ l2) → l1 = l2.
Proof.
  revert l2. induction l1 as [|x l1 IH]; intros l2 H1 H2 Heq.
  - destruct l2 as [|y l2]; [done|].
    exfalso. specialize (Heq y). set_solver.
  - destruct l2 as [|y l2]; [exfalso; specialize (Heq x); set_solver|].
    apply StronglySorted_inv in H1 as [H1 HF1].
    apply StronglySorted_inv in H2 as [H2 HF2].
    rewrite Forall_forall in HF1, HF2.
    assert (x = y) as ->.
    { pose proof (proj1 (Heq x) ltac:(set_solver)) as [Hx|Hx]%elem_of_cons; [done|].
      pose proof (proj2 (Heq y) ltac:(set_solver)) as [Hy|Hy]%elem_of_cons; [done|].
      apply HF1 in Hy. apply HF2 in Hx. lia. }
    f_equal. apply IH; [done..|]. intros i. split; intros Hi.
    + pose proof (proj1 (Heq i) ltac:(set_solver)) as [->|]%elem_of_cons; [|done].
      apply HF1 in Hi. lia.
    + pose proof (proj2 (Heq i) ltac:(set_solver)) as [->|]%elem_of_cons; [|done].
      apply HF2 in Hi. lia.
Qed.

Lemma filter_seq_sorted (P : nat → Prop) `{!∀ i, Decision (P i)} a n :
  StronglySorted lt (filter P (seq a n)).
Proof.
  revert a. induction n as [|n IH]; intros a; simpl; [constructor|].
  rewrite filter_cons. case_decide; [|apply IH].
  constructor; [apply IH|].
  apply Forall_forall. intros i Hi%list_elem_of_filter.
  destruct Hi as [_ Hi%elem_of_seq]. lia.
Qed.

Lemma seq_sorted a n : StronglySorted lt (seq a n).
Proof.
  revert a. induction n as [|n IH]; intros a; simpl; constructor; [apply IH|].
  apply Forall_forall. intros i Hi%elem_of_seq. lia.
Qed.

Lemma mapM_cons_Some {A B} (f : A → option B) x l k :
  mapM f (x :: l) = Some k ↔ ∃ y k', f x = Some y ∧ mapM f l = Some k' ∧ k = y :: k'.
Proof.
  cbn [mapM]. destruct (f x) as [y|]; cbn; [|naive_solver].
  destruct (mapM f l) as [k'|]; cbn; [|naive_solver]. unfold mret, option_ret. naive_solver.
Qed.
