(* ===== verification/Bitmask.v ===== *)
(** * Packet masks ([src/utils/bitmask.h])

    A burst of packets is an array of up to 64 packet pointers and a 64-bit
    mask telling which of them are present. This file models the mask helpers
    and the two loop macros over the set bits of a mask. *)

From S2P Require Import Prelude.

(** ** Definitions *)

Definition ONE64 : Z := 1.

Definition pg_mask_firsts (count : Z) : Z :=
  if 64 <=? count then 0xffffffffffffffff
  else u64 (Z.shiftl ONE64 count - 1).

(** [__builtin_popcountll]. *)
Fixpoint popcount_pos (p : positive) : Z :=
  match p with
  | xH => 1
  | xO q => popcount_pos q
  | xI q => 1 + popcount_pos q
  end.

Definition pg_mask_count (pkts_mask : Z) : Z :=
  match pkts_mask with Zpos p => popcount_pos p | _ => 0 end.

(** [__builtin_ctzll]; its result on 0 is undefined in C and 0 here: every
    caller guards it with a test of the mask. *)
Fixpoint ctz_pos (p : positive) : nat :=
  match p with
  | xO q => S (ctz_pos q)
  | _ => 0
  end.

Definition ctz64 (i : Z) : nat :=
  match i with Zpos p => ctz_pos p | _ => 0%nat end.

(** [__builtin_clzll] on a non-zero 64-bit word. *)
Definition clz64 (i : Z) : Z := 63 - Z.log2 i.

(** [pg_low_bit_iterate_full]: the mask without its lowest bit, that bit and
    its position. *)
Definition pg_low_bit_iterate_full (mask : Z) : Z * Z * nat :=
  let index := ctz64 mask in
  let bit := Z.shiftl ONE64 (Z.of_nat index) in
  (Z.land mask (not64 bit), bit, index).

Definition pg_low_bit_iterate (mask : Z) : Z * nat :=
  let '(mask', _, index) := pg_low_bit_iterate_full mask in (mask', index).

(** The sequence of positions visited by [PG_FOREACH_BIT] and by the loops
    [for (; mask; ) { pg_low_bit_iterate(mask, i); ... }]. The loop removes
    one bit per turn, so 64 turns are enough for a [uint64_t]. *)
Fixpoint foreach_bit (fuel : nat) (mask : Z) : list nat :=
  match fuel with
  | O => []
  | S fuel =>
      if mask =? 0 then []
      else let '(mask', index) := pg_low_bit_iterate mask in
           index :: foreach_bit fuel mask'
  end.

Definition PG_FOREACH_BIT (mask : Z) : list nat := foreach_bit 64 mask.

Definition pg_last_bit_pos (mask : Z) : Z := 64 - clz64 mask.

(** Constant byte swaps, on a little-endian host. *)
Definition PG_CPU_TO_BE_16 (i : Z) : Z :=
  u16 (Z.lor (Z.shiftl i 8) (Z.shiftr i 8)).

Definition PG_CPU_TO_BE_32 (i : Z) : Z :=
  u32 (Z.lor (PG_CPU_TO_BE_16 (Z.shiftr (Z.land i 0xffff0000) 16))
             (Z.shiftl (PG_CPU_TO_BE_16 (Z.land i 0x0000ffff)) 16)).

(** A 64-bit mask, and membership of a position in it. *)
Definition is_mask (m : Z) : Prop := 0 ≤ m < 2 ^ 64.
Definition mask_has (m : Z) (i : nat) : bool := Z.testbit m (Z.of_nat i).

(** ** Lowest set bit *)

Lemma ctz_pos_testbit p : Z.testbit (Zpos p) (Z.of_nat (ctz_pos p)) = true.
Proof.
  induction p as [p IH|p IH|]; simpl ctz_pos; [done| |done].
  rewrite Nat2Z.inj_succ, Pos2Z.inj_xO, Z.double_bits_succ. done.
Qed.

Lemma ctz_pos_lt p i :
  0 ≤ i < Z.of_nat (ctz_pos p) → Z.testbit (Zpos p) i = false.
Proof.
  revert i. induction p as [p IH|p IH|]; simpl ctz_pos; intros i Hi; [lia| |lia].
  rewrite Pos2Z.inj_xO. destruct (decide (i = 0)) as [->|]; [done|].
  replace i with (Z.succ (i - 1)) by lia.
  rewrite Z.double_bits_succ. apply IH. lia.
Qed.

Lemma ctz64_set m : is_mask m → m ≠ 0 → mask_has m (ctz64 m) = true.
Proof. intros [] ?. destruct m; [congruence| |lia]. apply ctz_pos_testbit. Qed.

Lemma ctz64_lowest m i : is_mask m → mask_has m i = true → (ctz64 m ≤ i)%nat.
Proof.
  intros [] Hi. destruct (decide (i < ctz64 m)%nat) as [Hlt|]; [|lia].
  unfold mask_has in Hi. destruct m; [by rewrite Z.bits_0 in Hi| |lia].
  rewrite ctz_pos_lt in Hi; [done|]. simpl in Hlt. lia.
Qed.

Lemma mask_has_high m i : is_mask m → (64 ≤ i)%nat → mask_has m i = false.
Proof. intros [] ?. apply (testbit_high m 64); lia. Qed.

Lemma mask_has_lt m i : is_mask m → mask_has m i = true → (i < 64)%nat.
Proof.
  intros Hm Hi. destruct (decide (64 ≤ i)%nat); [|lia].
  by rewrite mask_has_high in Hi.
Qed.

Lemma mask_ext m1 m2 :
  is_mask m1 → is_mask m2 →
  (∀ i, (i < 64)%nat → mask_has m1 i = mask_has m2 i) → m1 = m2.
Proof.
  intros H1 H2 H. apply (bits_ext 64); [lia|done..|]. intros i Hi.
  specialize (H (Z.to_nat i) ltac:(lia)). unfold mask_has in H.
  by rewrite Z2Nat.id in H by lia.
Qed.

Lemma mask_nonzero m : is_mask m → m ≠ 0 ↔ ∃ i, mask_has m i = true.
Proof.
  intros Hm. split; [intros; exists (ctz64 m); by apply ctz64_set|].
  intros [i Hi] ->. unfold mask_has in Hi. by rewrite Z.bits_0 in Hi.
Qed.

(** ** Mask algebra *)

Lemma is_mask_0 : is_mask 0.
Proof. unfold is_mask. lia. Qed.

Lemma is_mask_land m n : is_mask m → is_mask (Z.land m n).
Proof. intros. by apply land_bound. Qed.

Lemma is_mask_lor m n : is_mask m → is_mask n → is_mask (Z.lor m n).
Proof. intros. by apply lor_bound. Qed.

Lemma is_mask_bit i : (i < 64)%nat → is_mask (Z.shiftl ONE64 (Z.of_nat i)).
Proof.
  intros. unfold is_mask, ONE64. rewrite Z.shiftl_1_l. split.
  - apply Z.pow_nonneg. lia.
  - apply Z.pow_lt_mono_r; lia.
Qed.

Lemma mask_has_bit i j :
  mask_has (Z.shiftl ONE64 (Z.of_nat i)) j = bool_decide (i = j).
Proof.
  unfold mask_has, ONE64. rewrite Z.shiftl_1_l, Z.pow2_bits_eqb by lia.
  case_bool_decide; [subst; apply Z.eqb_refl|apply Z.eqb_neq; lia].
Qed.

Lemma mask_has_land m n i : mask_has (Z.land m n) i = mask_has m i && mask_has n i.
Proof. apply Z.land_spec. Qed.

Lemma mask_has_lor m n i : mask_has (Z.lor m n) i = mask_has m i || mask_has n i.
Proof. apply Z.lor_spec. Qed.

Lemma mask_has_not64 m i :
  (i < 64)%nat → mask_has (not64 m) i = negb (mask_has m i).
Proof. intros. apply not64_bits. lia. Qed.

Lemma mask_has_0 i : mask_has 0 i = false.
Proof. apply Z.bits_0. Qed.

(** Clearing: [m & ~n]. *)
Lemma mask_has_clear m n i :
  is_mask m → mask_has (Z.land m (not64 n)) i = mask_has m i && negb (mask_has n i).
Proof.
  intros Hm. rewrite mask_has_land.
  destruct (decide (i < 64)%nat); [by rewrite mask_has_not64|].
  by rewrite (mask_has_high m) by (done || lia).
Qed.

#[export] Hint Resolve is_mask_0 is_mask_land is_mask_lor is_mask_bit : pg.
#[export] Hint Rewrite mask_has_land mask_has_lor mask_has_bit mask_has_0 : mask.

(** ** The bit loops *)

Lemma foreach_bit_elem fuel m i :
  is_mask m → i ∈ foreach_bit fuel m → mask_has m i = true.
Proof.
  revert m. induction fuel as [|fuel IH]; intros m Hm; simpl; [set_solver|].
  destruct (Z.eqb_spec m 0); [set_solver|].
  intros [->|Hi]%elem_of_cons; [by apply ctz64_set|].
  apply IH in Hi; [|auto with pg].
  rewrite mask_has_clear in Hi by done. by apply andb_prop in Hi as [].
Qed.

Lemma foreach_bit_complete fuel m i :
  is_mask m → mask_has m i = true → (i < ctz64 m + fuel)%nat →
  i ∈ foreach_bit fuel m.
Proof.
  revert m. induction fuel as [|fuel IH]; intros m Hm Hi Hlt.
  { apply ctz64_lowest in Hi; [lia|done]. }
  simpl. destruct (Z.eqb_spec m 0) as [->|Hne]; [by rewrite mask_has_0 in Hi|].
  apply elem_of_cons. destruct (decide (i = ctz64 m)) as [|Hneq]; [by left|].
  right.
  set (m' := Z.land m (not64 (Z.shiftl ONE64 (Z.of_nat (ctz64 m))))).
  assert (is_mask m') as Hm' by (unfold m'; auto with pg).
  assert (mask_has m' i = true) as Hi'.
  { unfold m'. rewrite mask_has_clear, Hi, mask_has_bit by done.
    rewrite bool_decide_eq_false_2; [done|congruence]. }
  apply IH; [done..|].
  assert (m' ≠ 0) as Hne' by (apply mask_nonzero; eauto).
  pose proof (ctz64_set m' Hm' Hne') as Hset.
  unfold m' in Hset at 1. rewrite mask_has_clear, mask_has_bit in Hset by done.
  apply andb_prop in Hset as [Hset ?%negb_true_iff%bool_decide_eq_false].
  apply ctz64_lowest in Hset; [lia|done].
Qed.

Lemma foreach_bit_sorted fuel m :
  is_mask m → StronglySorted lt (foreach_bit fuel m).
Proof.
  revert m. induction fuel as [|fuel IH]; intros m Hm; simpl; [constructor|].
  destruct (Z.eqb_spec m 0); [constructor|].
  constructor; [apply IH; auto with pg|].
  apply Forall_forall. intros i Hi%foreach_bit_elem; [|auto with pg].
  rewrite mask_has_clear, mask_has_bit in Hi by done.
  apply andb_prop in Hi as [Hi ?%negb_true_iff%bool_decide_eq_false].
  apply ctz64_lowest in Hi; [lia|done].
Qed.

Lemma elem_of_foreach m i : is_mask m → i ∈ PG_FOREACH_BIT m ↔ mask_has m i = true.
Proof.
  intros Hm. split; [by apply foreach_bit_elem|].
  intros Hi. apply foreach_bit_complete; [done..|].
  apply mask_has_lt in Hi; [lia|done].
Qed.

Lemma foreach_eq_filter m :
  is_mask m →
  PG_FOREACH_BIT m = filter (λ i, mask_has m i = true) (seq 0 64).
Proof.
  intros Hm. apply sorted_ext.
  - by apply foreach_bit_sorted.
  - apply filter_seq_sorted.
  - intros i. rewrite elem_of_foreach, list_elem_of_filter, elem_of_seq by done.
    split; [|naive_solver]. intros Hi. split; [done|].
    apply mask_has_lt in Hi; [lia|done].
Qed.

Lemma foreach_NoDup m : is_mask m → NoDup (PG_FOREACH_BIT m).
Proof. intros. rewrite foreach_eq_filter by done. apply NoDup_filter, NoDup_seq. Qed.

Lemma foreach_0 : PG_FOREACH_BIT 0 = [].
Proof. done. Qed.

(** ** Counting *)

Lemma length_filter_fmap_S (P : nat → Prop) `{!∀ i, Decision (P i)} l :
  length (filter P (S <$> l)) = length (filter (λ i, P (S i)) l).
Proof.
  induction l as [|x l IH]; csimpl; [done|].
  rewrite !filter_cons. case_decide; simpl; congruence.
Qed.

Lemma popcount_pos_length p n :
  Zpos p < 2 ^ Z.of_nat n →
  popcount_pos p =
  Z.of_nat (length (filter (λ i, mask_has (Zpos p) i = true) (seq 0 n))).
Proof.
  assert (∀ q (b : bool) i, mask_has (if b then Zpos q~1 else Zpos q~0) (S i)
    = mask_has (Zpos q) i) as Hshift.
  { intros q b i. unfold mask_has. rewrite Nat2Z.inj_succ.
    destruct b; [rewrite Pos2Z.inj_xI, Z.testbit_odd_succ|
                 rewrite Pos2Z.inj_xO, Z.testbit_even_succ]; (done || lia). }
  revert n. induction p as [p IH|p IH|]; intros [|n] Hn; try (simpl in Hn; lia).
  all: rewrite Nat2Z.inj_succ, Z.pow_succ_r in Hn by lia.
  all: simpl seq; rewrite <- (fmap_S_seq 0), filter_cons; simpl popcount_pos.
  - rewrite decide_True by done. simpl length.
    rewrite length_filter_fmap_S, (IH n) by lia.
    rewrite (list_filter_iff (λ i, mask_has (Zpos p~1) (S i) = true)
      (λ i, mask_has (Zpos p) i = true)) by (intros; by rewrite (Hshift p true)). lia.
  - rewrite decide_False by done.
    rewrite length_filter_fmap_S, (IH n) by lia.
    by rewrite (list_filter_iff (λ i, mask_has (Zpos p~0) (S i) = true)
      (λ i, mask_has (Zpos p) i = true)) by (intros; by rewrite (Hshift p false)).
  - rewrite decide_True by done. simpl length.
    rewrite length_filter_fmap_S.
    replace (filter _ (seq 0 n)) with (@nil nat); [done|].
    symmetry. apply elem_of_nil_inv. intros i [Hi _]%list_elem_of_filter.
    unfold mask_has in Hi. by rewrite Z.bits_above_log2 in Hi by (simpl; lia).
Qed.

Lemma mask_count_foreach x :
  is_mask x → pg_mask_count x = Z.of_nat (length (PG_FOREACH_BIT x)).
Proof.
  intros Hx. rewrite foreach_eq_filter by done. destruct x as [|p|p]; [done| |].
  - apply (popcount_pos_length p 64). apply Hx.
  - unfold is_mask in Hx. lia.
Qed.

Lemma mask_count_range x : is_mask x → 0 ≤ pg_mask_count x < 2 ^ 16.
Proof.
  intros Hx. rewrite mask_count_foreach, foreach_eq_filter by done.
  pose proof (length_filter (λ i, mask_has x i = true) (seq 0 64)) as Hl.
  rewrite length_seq in Hl. lia.
Qed.

Lemma mask_firsts_has c i :
  0 ≤ c < 256 →
  mask_has (pg_mask_firsts c) i = bool_decide (Z.of_nat i < 64 ∧ Z.of_nat i < c).
Proof.
  intros Hc. unfold pg_mask_firsts. destruct (Z.leb_spec 64 c).
  - change 0xffffffffffffffff with (Z.ones 64). unfold mask_has.
    rewrite Z.testbit_ones by lia.
    case_bool_decide; lia.
  - unfold mask_has, ONE64. rewrite Z.shiftl_1_l.
    assert (2 ^ c < 2 ^ 64) by (apply Z.pow_lt_mono_r; lia).
    assert (0 < 2 ^ c) by (apply Z.pow_pos_nonneg; lia).
    rewrite u64_small by lia.
    replace (2 ^ c - 1) with (Z.ones c) by (rewrite Z.ones_equiv; lia).
    rewrite Z.testbit_ones by lia.
    case_bool_decide; lia.
Qed.

Lemma mask_firsts_is_mask c : is_mask (pg_mask_firsts c).
Proof.
  unfold is_mask, pg_mask_firsts. destruct (64 <=? c); [lia|].
  unfold u64. apply Z.mod_pos_bound. lia.
Qed.

Lemma foreach_firsts n :
  (n ≤ 64)%nat → PG_FOREACH_BIT (pg_mask_firsts (Z.of_nat n)) = seq 0 n.
Proof.
  intros Hn. rewrite foreach_eq_filter by apply mask_firsts_is_mask. apply sorted_ext.
  - apply filter_seq_sorted.
  - apply seq_sorted.
  - intros i. rewrite list_elem_of_filter, !elem_of_seq, mask_firsts_has by lia.
    rewrite bool_decide_eq_true. lia.
Qed.

(** ** Masks built bit by bit *)

(** The mask of the positions of [l] that satisfy [P]. *)
Fixpoint bits_of (P : nat → Prop) `{!∀ i, Decision (P i)} (l : list nat) : Z :=
  match l with
  | [] => 0
  | i :: l => if decide (P i) then Z.lor (Z.shiftl ONE64 (Z.of_nat i)) (bits_of P l)
              else bits_of P l
  end.

Lemma is_mask_bits_of P `{!∀ i, Decision (P i)} l :
  (∀ i, i ∈ l → (i < 64)%nat) → is_mask (bits_of P l).
Proof.
  induction l as [|i l IH]; intros Hl; simpl; [auto with pg|].
  case_decide; [apply is_mask_lor; [apply is_mask_bit|]|]; set_solver.
Qed.

Lemma mask_has_bits_of P `{!∀ i, Decision (P i)} l j :
  mask_has (bits_of P l) j = bool_decide (j ∈ l ∧ P j).
Proof.
  induction l as [|i l IH]; cbn [bits_of].
  - rewrite mask_has_0. symmetry. apply bool_decide_eq_false_2. set_solver.
  - destruct (decide (P i)) as [HP|HP].
    + rewrite mask_has_lor, mask_has_bit, IH. apply eq_bool_prop_intro.
      rewrite orb_True, !bool_decide_spec. set_solver.
    + rewrite IH. apply bool_decide_ext. set_solver.
Qed.

(** ** Byte order *)

Lemma be16_bits i j :
  0 ≤ i < 2 ^ 16 → 0 ≤ j < 16 →
  Z.testbit (PG_CPU_TO_BE_16 i) j = Z.testbit i (if j <? 8 then j + 8 else j - 8).
Proof.
  intros Hi Hj. unfold PG_CPU_TO_BE_16, u16.
  rewrite Z.mod_pow2_bits_low, Z.lor_spec, Z.shiftr_spec, Z.shiftl_spec by lia.
  destruct (Z.ltb_spec j 8).
  - by rewrite (Z.testbit_neg_r i (j - 8)) by lia.
  - by rewrite (testbit_high i 16 (j + 8)), orb_false_r by lia.
Qed.

Lemma be16_range i : 0 ≤ PG_CPU_TO_BE_16 i < 2 ^ 16.
Proof. unfold PG_CPU_TO_BE_16, u16. apply Z.mod_pos_bound. lia. Qed.

Lemma be16_involutive i :
  0 ≤ i < 2 ^ 16 → PG_CPU_TO_BE_16 (PG_CPU_TO_BE_16 i) = i.
Proof.
  intros Hi. apply (bits_ext 16); [lia|apply be16_range|done|].
  intros j Hj. pose proof (be16_range i).
  rewrite be16_bits by lia. destruct (Z.ltb_spec j 8).
  - rewrite be16_bits by lia. destruct (Z.ltb_spec (j + 8) 8); [lia|]. f_equal; lia.
  - rewrite be16_bits by lia. destruct (Z.ltb_spec (j - 8) 8); [|lia]. f_equal; lia.
Qed.

(** ** Properties of the mask helpers *)

(** Iterating over a mask visits the positions of its set bits, in
    increasing order and each exactly once; the 64 turns of the model's loop
    are enough for any [uint64_t]. *)
Theorem foreach_bit_visits_set_bits (m : Z) :
  is_mask m →
  PG_FOREACH_BIT m = filter (λ i, mask_has m i = true) (seq 0 64) ∧
  NoDup (PG_FOREACH_BIT m) ∧
  ∀ i, i ∈ PG_FOREACH_BIT m ↔ mask_has m i = true.
Proof.
  intros Hm. split_and!.
  - by apply foreach_eq_filter.
  - by apply foreach_NoDup.
  - intros i. by apply elem_of_foreach.
Qed.

Lemma foreach_bit_visits_set_bits_witness :
  is_mask 0x8000000000000005 ∧ PG_FOREACH_BIT 0x8000000000000005 = [0; 2; 63]%nat.
Proof.
  split; [unfold is_mask; lia|].
  rewrite (proj1 (foreach_bit_visits_set_bits 0x8000000000000005
    ltac:(unfold is_mask; lia))).
  vm_compute. reflexivity.
Defined.
