(* ===== verification/Common.v ===== *)
(** * Shared data: sides, errors and brick configurations

    [include/packetgraph/common.h], [src/utils/errors.c] and
    [src/utils/config.[ch]]. *)

From S2P Require Import Prelude.

(** ** Sides *)

(** [enum pg_side]. The bound [PG_MAX_SIDE] is not a side: the few places that
    use it as a value say so explicitly. *)
Inductive pg_side := PG_WEST_SIDE | PG_EAST_SIDE.

Global Instance pg_side_eq_dec : EqDecision pg_side.
Proof. solve_decision. Defined.

Definition PG_MAX_SIDE : nat := 2.

Definition pg_flip_side (side : pg_side) : pg_side :=
  match side with
  | PG_WEST_SIDE => PG_EAST_SIDE
  | PG_EAST_SIDE => PG_WEST_SIDE
  end.

Definition pg_side_to_string (side : pg_side) : string :=
  match side with
  | PG_WEST_SIDE => "PG_WEST_SIDE"
  | PG_EAST_SIDE => "PG_EAST_SIDE"
  end.

(** The C value of a side, and the side of an array index below
    [PG_MAX_SIDE]. *)
Definition side_index (side : pg_side) : nat :=
  match side with PG_WEST_SIDE => 0 | PG_EAST_SIDE => 1 end.

Definition side_of_index (i : nat) : option pg_side :=
  match i with
  | 0%nat => Some PG_WEST_SIDE
  | 1%nat => Some PG_EAST_SIDE
  | _ => None
  end.

(** The order of [for (i = 0; i < PG_MAX_SIDE; i++)]. *)
Definition all_sides : list pg_side := [PG_WEST_SIDE; PG_EAST_SIDE].

Definition PG_MAX_PKTS_BURST : nat := 64.

Lemma flip_flip s : pg_flip_side (pg_flip_side s) = s.
Proof. by destruct s. Qed.

Lemma flip_ne s : pg_flip_side s ≠ s.
Proof. by destruct s. Qed.

Lemma flip_inj s1 s2 : pg_flip_side s1 = pg_flip_side s2 → s1 = s2.
Proof. by destruct s1, s2. Qed.

(** ** Errors *)

(** [struct pg_error], without the source position it records. *)
Record pg_error := mk_error { err_no : Z; message : string }.

Global Instance pg_error_eq_dec : EqDecision pg_error.
Proof. solve_decision. Defined.

Definition pg_error_new_errno (no : Z) (msg : string) : pg_error :=
  {| err_no := no; message := msg |}.

Definition pg_error_new (msg : string) : pg_error := pg_error_new_errno 0 msg.

(** [*errp] is the option held by the caller. *)
Definition pg_error_is_set (errp : option pg_error) : bool :=
  match errp with Some _ => true | None => false end.

(** ** Brick configurations *)

Inductive pg_brick_type := PG_MULTIPOLE | PG_MONOPOLE | PG_DIPOLE.

Global Instance pg_brick_type_eq_dec : EqDecision pg_brick_type.
Proof. solve_decision. Defined.

Definition pg_brick_type_to_string (t : pg_brick_type) : string :=
  match t with
  | PG_MULTIPOLE => "PG_MULTIPOLE"
  | PG_MONOPOLE => "PG_MONOPOLE"
  | PG_DIPOLE => "PG_DIPOLE"
  end.

(** [brick_config] points to the private part of the configuration, whose type
    [C] depends on the brick. *)
Record pg_brick_config (C : Type) := mk_config {
  cfg_name : string;
  west_max : Z;
  east_max : Z;
  cfg_type : pg_brick_type;
  brick_config : C;
}.
Arguments mk_config {C}.
Arguments cfg_name {C}.
Arguments west_max {C}.
Arguments east_max {C}.
Arguments cfg_type {C}.
Arguments brick_config {C}.

(** The counts are [uint32_t] parameters. *)
Definition pg_brick_config_init {C} (priv : C) (name : string)
    (west east : Z) (type : pg_brick_type) : pg_brick_config C :=
  {| cfg_name := name; west_max := u32 west; east_max := u32 east;
     cfg_type := type; brick_config := priv |}.

Definition pg_brick_config_new {C} (null : C) (name : string)
    (west east : Z) (type : pg_brick_type) : pg_brick_config C :=
  pg_brick_config_init null name west east type.
