(* ===== verification/Brick.v ===== *)
(** * Bricks: life cycle, links and edge iteration

    [src/brick.c] and [src/brick-int.h]. A brick is a node of the packet graph.
    Its two sides hold edges; each end of a link stores the neighbour and the
    index of the paired edge in the neighbour.

    The control part of every brick ([struct pg_brick]) lives in a store indexed
    by brick pointers. The private state that follows it in memory, the packet
    counters and the packets belong to an abstract world [W], which the callbacks
    of [struct pg_brick_ops] read and write; they get the brick store read-only,
    because no callback of the code writes a [struct pg_brick]. *)

From S2P Require Import Prelude Common.

(** ** Data *)

(** Brick pointers; NULL is [None]. *)
Definition ptr := positive.
Bind Scope positive_scope with ptr.

(** [struct pg_brick_edge]. *)
Record pg_brick_edge := mk_edge { link : option ptr; pair_index : nat }.

(** The union of [struct pg_brick_side]: [edges] for multipoles (the empty list
    is the NULL array of a side that can have no edge), [edge] otherwise. *)
Inductive side_union :=
  | Edges (es : list pg_brick_edge)
  | Edge (e : pg_brick_edge).

(** [struct pg_brick_side]; [max] and [nb] are [uint16_t]. *)
Record pg_brick_side := mk_side {
  side_max : Z;
  side_nb : Z;
  side_edges : side_union;
}.

(** [struct pg_brick]. [ops] is an index in the list of registered bricks; the
    two function pointers are present or not. [side] of a monopole is the same
    memory as [sides[0]]. *)
Record pg_brick := mk_brick {
  ops : option nat;
  burst : bool;
  poll : bool;
  refcount : Z;
  name : string;
  type : pg_brick_type;
  west_side : pg_brick_side;
  east_side : pg_brick_side;
}.

Definition sides (b : pg_brick) (s : pg_side) : pg_brick_side :=
  match s with PG_WEST_SIDE => west_side b | PG_EAST_SIDE => east_side b end.

Definition set_sides (b : pg_brick) (s : pg_side) (v : pg_brick_side) : pg_brick :=
  match s with
  | PG_WEST_SIDE =>
      mk_brick (ops b) (burst b) (poll b) (refcount b) (name b) (type b) v (east_side b)
  | PG_EAST_SIDE =>
      mk_brick (ops b) (burst b) (poll b) (refcount b) (name b) (type b) (west_side b) v
  end.

Definition set_refcount (b : pg_brick) (n : Z) : pg_brick :=
  mk_brick (ops b) (burst b) (poll b) n (name b) (type b) (west_side b) (east_side b).

Definition set_nb (sd : pg_brick_side) (n : Z) : pg_brick_side :=
  mk_side (side_max sd) (u16 n) (side_edges sd).

Definition null_edge : pg_brick_edge := {| link := None; pair_index := 0 |}.

Definition UINT16_MAX : Z := 65535.

(** ** Edges of one brick *)

(** [get_side]: a monopole has only [side], which is [sides[0]]. *)
Definition get_side (b : pg_brick) (s : pg_side) : pg_side :=
  match type b with PG_MONOPOLE => PG_WEST_SIDE | _ => s end.

(** [pg_brick_get_edge]: [Some None] is the NULL pointer of an empty edge array,
    [None] a pointer that must not be read. *)
Definition pg_brick_get_edge (b : pg_brick) (s : pg_side) (edge : nat)
    : option (option pg_brick_edge) :=
  match type b with
  | PG_MULTIPOLE =>
      match side_edges (sides b s) with
      | Edges [] => match edge with O => Some None | S _ => None end
      | Edges es => Some <$> es !! edge
      | Edge _ => None
      end
  | PG_DIPOLE =>
      match side_edges (sides b s) with Edge e => Some (Some e) | Edges _ => None end
  | PG_MONOPOLE =>
      match side_edges (west_side b) with Edge e => Some (Some e) | Edges _ => None end
  end.

(** A write through the pointer [pg_brick_get_edge] returns. *)
Definition write_union (u : side_union) (edge : nat) (e : pg_brick_edge) : side_union :=
  match u with
  | Edges es => Edges (<[edge := e]> es)
  | Edge _ => Edge e
  end.

Definition write_edge (b : pg_brick) (s : pg_side) (edge : nat) (e : pg_brick_edge)
    : pg_brick :=
  let s := get_side b s in
  set_sides b s (mk_side (side_max (sides b s)) (side_nb (sides b s))
                         (write_union (side_edges (sides b s)) edge e)).

(** [pg_side_get_max] *)
Definition pg_side_get_max (b : pg_brick) (s : pg_side) : Z := side_max (sides b s).

(** [is_place_available] *)
Definition is_place_available (b : pg_brick) (s : pg_side) : bool :=
  match type b with
  | PG_MONOPOLE => side_nb (west_side b) <? side_max (west_side b)
  | PG_DIPOLE | PG_MULTIPOLE => side_nb (sides b s) <? side_max (sides b s)
  end.

(** [count_side] counts at most 65535 edges, so its [uint16_t] does not wrap. *)
Definition count_side (sd : pg_brick_side) (target : ptr) : nat :=
  match side_edges sd with
  | Edges es => length (filter (λ e, link e = Some target) es)
  | Edge _ => 0
  end.

(** ** The edge iterator *)

(** [struct pg_brick_edge_iterator]; the side is the C enum value, up to
    [PG_MAX_SIDE]. *)
Record edge_iterator := mk_it { it_edge : nat; it_side : nat; it_end : bool }.

Definition it_get (b : pg_brick) (it : edge_iterator) : option (option pg_brick_edge) :=
  s ← side_of_index (it_side it); pg_brick_get_edge b s (it_edge it).

(** The edge under the iterator is linked ([!e || !e->link] is false). *)
Definition it_linked (b : pg_brick) (it : edge_iterator) : option bool :=
  oe ← it_get b it;
  Some (match oe with Some e => bool_decide (is_Some (link e)) | None => false end).

Fixpoint iterator_next (fuel : nat) (b : pg_brick) (it : edge_iterator)
    : option edge_iterator :=
  match fuel with
  | O => None
  | S fuel =>
      if it_end it then Some it
      else match type b with
      | PG_MONOPOLE => Some (mk_it (it_edge it) (it_side it) true)
      | _ =>
          s ← side_of_index (it_side it);
          let edge := S (it_edge it) in
          let '(edge, side) :=
            if pg_side_get_max b s <=? Z.of_nat edge
            then (0%nat, S (it_side it)) else (edge, it_side it) in
          if decide (side = PG_MAX_SIDE) then Some (mk_it edge side true)
          else
            let it := mk_it edge side false in
            l ← it_linked b it;
            if (l : bool) then Some it else iterator_next fuel b it
      end
  end.

(** Enough turns to pass over every slot of the brick. *)
Definition iterator_fuel (b : pg_brick) : nat :=
  Z.to_nat (side_max (west_side b)) + Z.to_nat (side_max (east_side b)) + 3.

Definition pg_brick_edge_iterator_next (b : pg_brick) (it : edge_iterator)
    : option edge_iterator :=
  iterator_next (iterator_fuel b) b it.

Definition pg_brick_edge_iterator_init (b : pg_brick) : option edge_iterator :=
  let it := mk_it 0 0 false in
  l ← it_linked b it;
  if (l : bool) then Some it else pg_brick_edge_iterator_next b it.

(** [PG_BRICK_FOREACH_EDGES] over a brick that the body does not change: the
    slots visited. *)
Fixpoint foreach_edges_from (fuel : nat) (b : pg_brick) (it : edge_iterator)
    : option (list (pg_side * nat)) :=
  match fuel with
  | O => None
  | S fuel =>
      if it_end it then Some []
      else
        s ← side_of_index (it_side it);
        it' ← pg_brick_edge_iterator_next b it;
        l ← foreach_edges_from fuel b it';
        Some ((s, it_edge it) :: l)
  end.

Definition PG_BRICK_FOREACH_EDGES (b : pg_brick) : option (list (pg_side * nat)) :=
  it ← pg_brick_edge_iterator_init b;
  foreach_edges_from (iterator_fuel b) b it.

(** ** Operations *)

Section Ops.

Context {W C : Type}.

(** What [init] leaves: its return code, the fast-path pointers it set, the
    error and the world. *)
Record init_out := mk_init_out {
  io_ret : Z;
  io_burst : bool;
  io_poll : bool;
  io_errp : option pg_error;
  io_world : W;
}.

(** [struct pg_brick_ops]. [unlink] is [pg_brick_generic_unlink] in every brick
    that sets it. *)
Record pg_brick_ops := mk_ops {
  op_name : string;
  op_state_size : Z;
  op_init : ptr → pg_brick → pg_brick_config C → option pg_error → W → init_out;
  op_destroy : option (gmap ptr pg_brick → ptr → option pg_error → W →
                       option pg_error * W);
  op_unlink : bool;
  op_unlink_notify : option (gmap ptr pg_brick → ptr → pg_side → nat →
                             option pg_error → W → option pg_error * W);
  op_reset : option (ptr → option pg_error → W → Z * option pg_error * W);
  op_link_notify : option (ptr → pg_side → nat → W → W);
  op_get_side : option (ptr → W → pg_side);
  op_rx_bytes : option (ptr → W → Z);
  op_tx_bytes : option (ptr → W → Z);
}.

(** The state of the program: the brick store, the world and the caller's
    [*errp]. *)
Record state := mk_state {
  bricks : gmap ptr pg_brick;
  world : W;
  errp : option pg_error;
}.

(** [pg_all_bricks]: the registered operations, in registration order. *)
Context (pg_all_bricks : list pg_brick_ops).

Definition upd_bricks (f : gmap ptr pg_brick → gmap ptr pg_brick) (st : state) : state :=
  mk_state (f (bricks st)) (world st) (errp st).

Definition set_error (e : pg_error) : M state unit :=
  modify (λ st, mk_state (bricks st) (world st) (Some e)).

Definition error_is_set : M state bool := gets (λ st, pg_error_is_set (errp st)).

Definition load (p : ptr) : M state pg_brick :=
  ob ← gets (λ st, bricks st !! p); unwrap ob.

Definition store (p : ptr) (b : pg_brick) : M state unit :=
  modify (upd_bricks (λ h, <[p := b]> h)).

Definition brick_ops (b : pg_brick) : option pg_brick_ops :=
  ops b ≫= λ i, pg_all_bricks !! i.

(** *** Creation *)

Definition new_union (type : pg_brick_type) (max : Z) : side_union :=
  match type with
  | PG_MULTIPOLE => Edges (replicate (Z.to_nat max) null_edge)
  | _ => Edge null_edge
  end.

(** [alloc_edges]: [None] when both sides of a multipole are empty. *)
Definition alloc_edges (b : pg_brick) : option pg_brick :=
  match type b with
  | PG_MULTIPOLE =>
      if (side_max (west_side b) =? 0) && (side_max (east_side b) =? 0) then None
      else Some (mk_brick (ops b) (burst b) (poll b) (refcount b) (name b) (type b)
        (mk_side (side_max (west_side b)) 0
                 (new_union PG_MULTIPOLE (side_max (west_side b))))
        (mk_side (side_max (east_side b)) 0
                 (new_union PG_MULTIPOLE (side_max (east_side b)))))
  | _ =>
      Some (mk_brick (ops b) (burst b) (poll b) (refcount b) (name b) (type b)
        (mk_side (side_max (west_side b)) (side_nb (west_side b)) (Edge null_edge))
        (mk_side (side_max (east_side b)) (side_nb (east_side b)) (Edge null_edge)))
  end.

(** [pg_brick_set_max_edges]: the counts are narrowed to [uint16_t]. *)
Definition pg_brick_set_max_edges (b : pg_brick) (west_edges east_edges : Z) : pg_brick :=
  mk_brick (ops b) (burst b) (poll b) (refcount b) (name b) (type b)
    (mk_side (u16 west_edges) (side_nb (west_side b)) (side_edges (west_side b)))
    (mk_side (u16 east_edges) (side_nb (east_side b)) (side_edges (east_side b))).

Definition check_side_max (config : pg_brick_config C) : option pg_error :=
  let overedge := (UINT16_MAX <=? west_max config) || (UINT16_MAX <=? east_max config) in
  if bool_decide (cfg_type config = PG_MULTIPOLE) && overedge then
    let faulte := if UINT16_MAX <=? west_max config
                  then PG_WEST_SIDE else PG_EAST_SIDE in
    Some (pg_error_new ("A '" +:+ pg_brick_type_to_string (cfg_type config) +:+
      "' cannot have more than 65535 edge on " +:+ pg_side_to_string faulte))
  else if (bool_decide (cfg_type config = PG_MONOPOLE)
           || bool_decide (cfg_type config = PG_DIPOLE))
          && ((1 <? west_max config) || (1 <? east_max config)) then
    Some (pg_error_new ("A '" +:+ pg_brick_type_to_string (cfg_type config) +:+
      "' cannot have more than one neibour per side"))
  else None.

(** The zeroed brick of [g_malloc0] after its first assignments. *)
Definition blank_brick (i : nat) (type : pg_brick_type) : pg_brick :=
  let sd := mk_side 0 0 (new_union type 0) in
  mk_brick (Some i) false false 1 "" type sd sd.

Definition set_name (b : pg_brick) (n : string) : pg_brick :=
  mk_brick (ops b) (burst b) (poll b) (refcount b) n (type b) (west_side b) (east_side b).

Definition set_fast_path (b : pg_brick) (has_burst has_poll : bool) : pg_brick :=
  mk_brick (ops b) has_burst has_poll (refcount b) (name b) (type b)
    (west_side b) (east_side b).

Definition find_ops (n : string) : option (nat * pg_brick_ops) :=
  list_find (λ o, op_name o = n) pg_all_bricks.

(** [pg_brick_new]: on failure the new brick is freed again, but what [init]
    did to the world stays. *)
Definition pg_brick_new (nm : option string) (config : option (pg_brick_config C))
    : M state (option ptr) :=
  match config, nm with
  | None, _ => set_error (pg_error_new "Brick config not set");; mret None
  | _, None => set_error (pg_error_new "Brick name not set");; mret None
  | Some config, Some nm =>
    match find_ops nm with
    | None => set_error (pg_error_new ("Brick '" +:+ nm +:+ "' not found"));; mret None
    | Some (i, o) =>
      if op_state_size o <=? 0 then
        set_error (pg_error_new "Brick state size is not positive");; mret None
      else
        let b := blank_brick i (cfg_type config) in
        match check_side_max config with
        | Some e => set_error e;; mret None
        | None =>
          let b := set_name (pg_brick_set_max_edges b (west_max config) (east_max config))
                            (cfg_name config) in
          p ← gets (λ st, fresh (dom (bricks st)));
          out ← gets (λ st, op_init o p b config (errp st) (world st));
          modify (λ st, mk_state (bricks st) (io_world out) (io_errp out));;
          if io_ret out <? 0 then
            set ← error_is_set;
            (if (set : bool) then mret tt
             else set_error (pg_error_new ("Failed to init '" +:+ nm +:+ "' brick")));;
            mret None
          else
            let b := set_fast_path b (io_burst out) (io_poll out) in
            massert (burst b);;
            match alloc_edges b with
            | None =>
                set_error (pg_error_new ("Brick'" +:+ name b +:+ "',two sides empties"));;
                mret None
            | Some b => store p b;; mret (Some p)
            end
        end
    end
  end.

(** *** Reference counting *)

Definition pg_brick_incref (p : ptr) : M state unit :=
  b ← load p; store p (set_refcount b (refcount b + 1)).

Definition is_brick_valid (op : option ptr) : M state bool :=
  match op with
  | None => mret false
  | Some p => b ← load p; mret (bool_decide (is_Some (ops b)))
  end.

(** [pg_brick_decref]: the brick is removed from the store when its count falls
    to zero. *)
Definition pg_brick_decref (op : option ptr) : M state (option ptr) :=
  match op with
  | None => set_error (pg_error_new "NULL brick");; mret None
  | Some p =>
      b ← load p;
      let b := set_refcount b (refcount b - 1) in
      store p b;;
      if 0 <? refcount b then mret (Some p)
      else
        valid ← is_brick_valid (Some p);
        if negb valid then mret (Some p)
        else
          o ← unwrap (brick_ops b);
          match op_destroy o with
          | None => mret tt
          | Some destroy =>
              r ← gets (λ st, destroy (bricks st) p (errp st) (world st));
              modify (λ st, mk_state (bricks st) (snd r) (fst r))
          end;;
          modify (upd_bricks (delete p));;
          mret None
  end.

Definition pg_brick_reset (op : option ptr) : M state Z :=
  match op with
  | None => set_error (pg_error_new "brick is NULL");; mret (-1)
  | Some p =>
      b ← load p;
      match brick_ops b ≫= op_reset with
      | None => set_error (pg_error_new "brick do not support reset operation");; mret (-1)
      | Some reset =>
          r ← gets (λ st, reset p (errp st) (world st));
          modify (λ st, mk_state (bricks st) (snd r) (snd (fst r)));;
          mret (fst (fst r))
      end
  end.

Definition pg_brick_refcount (p : ptr) : M state Z :=
  b ← load p; massert (0 <? refcount b);; mret (refcount b).

(** *** Counting links *)

Definition edge_links_to (u : side_union) (target : ptr) : nat :=
  match u with
  | Edge e => if decide (link e = Some target) then 1 else 0
  | Edges _ => 0
  end.

Definition pg_brick_links_count_get (op : option ptr) (target : ptr) : M state Z :=
  match op with
  | None => set_error (pg_error_new "brick is NULL");; mret (-1)
  | Some p =>
      b ← load p;
      mret (Z.of_nat (match type b with
      | PG_MULTIPOLE => count_side (west_side b) target + count_side (east_side b) target
      | PG_DIPOLE => edge_links_to (side_edges (west_side b)) target
                     + edge_links_to (side_edges (east_side b)) target
      | PG_MONOPOLE => edge_links_to (side_edges (west_side b)) target
      end)%nat)
  end.

(** *** Linking *)

Definition set_edge (p : ptr) (s : pg_side) (edge index : nat) : M state Z :=
  b ← load p;
  oe ← unwrap (pg_brick_get_edge b s edge);
  match oe with
  | None => mret (-1)
  | Some e => store p (write_edge b s edge (mk_edge (link e) index));; mret 0
  end.

(** The first free slot of a multipole's side. *)
Definition find_free (es : list pg_brick_edge) : option nat :=
  fst <$> list_find (λ e, link e = None) es.

Definition insert_link (from to : ptr) (s : pg_side) : M state nat :=
  b ← load from;
  match type b with
  | PG_MULTIPOLE =>
      match side_edges (sides b s) with
      | Edges es =>
          i ← unwrap (find_free es);            (* pg_panic("can't find pair") *)
          e ← unwrap (es !! i);
          store from (set_sides b s (set_nb (sides b s) (side_nb (sides b s) + 1)));;
          pg_brick_incref to;;
          b ← load from;
          store from (write_edge b s i (mk_edge (Some to) (pair_index e)));;
          mret i
      | Edge _ => crash
      end
  | PG_DIPOLE =>
      match side_edges (sides b s) with
      | Edge e =>
          let b := write_edge b s 0 (mk_edge (Some to) (pair_index e)) in
          store from (set_sides b s (set_nb (sides b s) (side_nb (sides b s) + 1)));;
          pg_brick_incref to;;
          mret 0%nat
      | Edges _ => crash
      end
  | PG_MONOPOLE =>
      let w := PG_WEST_SIDE in
      store from (set_sides b w (set_nb (sides b w) (side_nb (sides b w) + 1)));;
      pg_brick_incref to;;
      b ← load from;
      match side_edges (west_side b) with
      | Edge e => store from (write_edge b w 0 (mk_edge (Some to) (pair_index e)));;
                  mret 0%nat
      | Edges _ => crash
      end
  end.

Definition link_notify (p : ptr) (s : pg_side) (index : nat) : M state unit :=
  b ← load p;
  o ← unwrap (brick_ops b);
  match op_link_notify o with
  | None => mret tt
  | Some f => modify (λ st, mk_state (bricks st) (f p s index (world st)) (errp st))
  end.

Definition pg_brick_link (west east : option ptr) : M state Z :=
  ve ← is_brick_valid east;
  vw ← (if (ve : bool) then is_brick_valid west else mret false);
  match west, east, (ve && vw) with
  | Some w, Some e, true =>
      if decide (w = e) then
        set_error (pg_error_new "Can not link a brick to itself");; mret (-1)
      else
        eb ← load e; wb ← load w;
        if negb (is_place_available eb PG_WEST_SIDE) then
          set_error (pg_error_new (name eb +:+ ":WEST side full"));; mret (-1)
        else if negb (is_place_available wb PG_EAST_SIDE) then
          set_error (pg_error_new (name wb +:+ ":EAST side full"));; mret (-1)
        else
          east_index ← insert_link e w PG_WEST_SIDE;
          link_notify e PG_WEST_SIDE east_index;;
          west_index ← insert_link w e PG_EAST_SIDE;
          link_notify w PG_EAST_SIDE west_index;;
          r ← set_edge e PG_WEST_SIDE east_index west_index;
          if r <? 0 then set_error (pg_error_new "Can't set edge");; mret (-1)
          else
            r ← set_edge w PG_EAST_SIDE west_index east_index;
            if r <? 0 then set_error (pg_error_new "Can't set edge");; mret (-1)
            else mret 0
  | _, _, _ => set_error (pg_error_new "Node is not valid");; mret (-1)
  end.

(** [pg_brick_chained_links_int]: the variable arguments up to the NULL. *)
Fixpoint chained_links (west : option ptr) (easts : list ptr) : M state Z :=
  match easts with
  | [] => mret 0
  | east :: easts =>
      ret ← pg_brick_link west (Some east);
      if ret <? 0 then mret ret
      else match easts with [] => mret ret | _ => chained_links (Some east) easts end
  end.

Definition pg_brick_chained_links_int (west : option ptr) (easts : list ptr) : M state Z :=
  match easts with
  | [] => set_error (pg_error_new "brick east not found");; mret (-1)
  | _ => chained_links west easts
  end.

(** *** Unlinking *)

(** [unlink_notify(edge, side, errp)] for the edge stored at [(p, s, i)]. *)
Definition unlink_notify (p : ptr) (s : pg_side) (i : nat) (array_side : pg_side)
    : M state unit :=
  b ← load p;
  oe ← unwrap (pg_brick_get_edge b s i);
  match oe with
  | None => mret tt
  | Some e =>
      match link e with
      | None => mret tt
      | Some q =>
          qb ← load q;
          match brick_ops qb ≫= op_unlink_notify with
          | None => mret tt
          | Some f =>
              r ← gets (λ st, f (bricks st) q (pg_flip_side array_side) (pair_index e)
                                (errp st) (world st));
              modify (λ st, mk_state (bricks st) (snd r) (fst r))
          end
      end
  end.

Definition reset_edge (p : ptr) (s : pg_side) (i : nat) : M state unit :=
  b ← load p; store p (write_edge b s i null_edge).

Definition decr_nb (p : ptr) (s : pg_side) : M state unit :=
  b ← load p;
  let s := get_side b s in
  store p (set_sides b s (set_nb (sides b s) (side_nb (sides b s) - 1))).

(** The side on which a brick sees the link it holds at [(s, _)]. *)
Definition real_side (p : ptr) (b : pg_brick) (s : pg_side) : M state pg_side :=
  match type b with
  | PG_MONOPOLE =>
      o ← unwrap (brick_ops b);
      f ← unwrap (op_get_side o);
      gets (λ st, f p (world st))
  | _ => mret s
  end.

Definition do_unlink (p : ptr) (side : pg_side) (index : nat) : M state unit :=
  b ← load p;
  oe ← unwrap (pg_brick_get_edge b side index);
  side' ← real_side p b side;
  e ← unwrap oe;
  match link e with
  | None => mret tt
  | Some q =>
      qb ← load q;
      ope ← unwrap (pg_brick_get_edge qb (pg_flip_side side') (pair_index e));
      match ope with
      | None => mret tt
      | Some _ =>
          let qs := pg_flip_side side' in
          let qi := pair_index e in
          unlink_notify p side index side';;
          err ← error_is_set;
          if (err : bool) then mret tt else
          unlink_notify q qs qi (pg_flip_side side');;
          err ← error_is_set;
          if (err : bool) then mret tt else
          pg_brick_decref (Some p);;
          err ← error_is_set;
          if (err : bool) then mret tt else
          b ← load p;
          oe ← unwrap (pg_brick_get_edge b side index);
          e ← unwrap oe;
          pg_brick_decref (link e);;
          err ← error_is_set;
          if (err : bool) then mret tt else
          reset_edge q qs qi;;
          reset_edge p side index;;
          decr_nb p side';;
          decr_nb q qs
      end
  end.

(** [pg_brick_generic_unlink]: the iterator reads the brick again after each
    [do_unlink]. *)
Fixpoint generic_unlink_loop (fuel : nat) (p : ptr) (it : edge_iterator) : M state unit :=
  match fuel with
  | O => crash
  | S fuel =>
      if it_end it then mret tt
      else
        s ← unwrap (side_of_index (it_side it));
        do_unlink p s (it_edge it);;
        err ← error_is_set;
        if (err : bool) then mret tt else
        b ← load p;
        it' ← unwrap (pg_brick_edge_iterator_next b it);
        generic_unlink_loop fuel p it'
  end.

Definition pg_brick_generic_unlink (p : ptr) : M state unit :=
  b ← load p;
  it ← unwrap (pg_brick_edge_iterator_init b);
  generic_unlink_loop (iterator_fuel b) p it.

Definition pg_brick_unlink (op : option ptr) : M state unit :=
  valid ← is_brick_valid op;
  match op, valid with
  | Some p, true =>
      b ← load p;
      o ← unwrap (brick_ops b);
      if op_unlink o then pg_brick_generic_unlink p
      else set_error (pg_error_new "Node unlink callback not set")
  | _, _ => set_error (pg_error_new "Node is not valid")
  end.

(** [pg_brick_destroy] uses an error variable of its own. *)
Definition pg_brick_destroy (op : option ptr) : M state unit :=
  saved ← gets errp;
  modify (λ st, mk_state (bricks st) (world st) None);;
  pg_brick_unlink op;;
  pg_brick_decref op;;
  modify (λ st, mk_state (bricks st) (world st) saved).

(** The search of [pg_brick_unlink_edge]: the first edge of [west] to [east];
    [None] when an edge is NULL. *)
Fixpoint find_edge_to (b : pg_brick) (east : ptr) (i n : nat)
    : M state (option (option nat)) :=
  match n with
  | O => mret (Some None)
  | S n =>
      oe ← unwrap (pg_brick_get_edge b PG_EAST_SIDE i);
      match oe with
      | None => mret None
      | Some e =>
          if decide (link e = Some east) then mret (Some (Some i))
          else find_edge_to b east (S i) n
      end
  end.

Definition pg_brick_unlink_edge (west east : option ptr) : M state Z :=
  vw ← is_brick_valid west;
  match west, vw with
  | Some w, true =>
      ve ← is_brick_valid east;
      match east, ve with
      | Some e, true =>
          wb ← load w; eb ← load e;
          let ws := sides wb (get_side wb PG_EAST_SIDE) in
          found ← find_edge_to wb e 0 (Z.to_nat (side_max ws));
          match found with
          | None => set_error (pg_error_new "can't get edge");; mret (-1)
          | Some None =>
              set_error (pg_error_new (name wb +:+ " does not seem to be linked with "
                                       +:+ name eb));; mret (-1)
          | Some (Some i) =>
              do_unlink w PG_EAST_SIDE i;;
              err ← error_is_set;
              mret (if (err : bool) then -1 else 0)
          end
      | _, _ => set_error (pg_error_new "East brick is not valid");; mret (-1)
      end
  | _, _ => set_error (pg_error_new "West brick is not valid");; mret (-1)
  end.

(** *** Accessors *)

Definition pg_brick_pollable (op : option ptr) : M state bool :=
  match op with None => mret false | Some p => b ← load p; mret (poll b) end.

Definition pg_brick_rx_bytes (op : option ptr) : M state Z :=
  match op with
  | None => mret 0
  | Some p =>
      b ← load p; o ← unwrap (brick_ops b);
      match op_rx_bytes o with None => mret 0 | Some f => gets (λ st, f p (world st)) end
  end.

Definition pg_brick_tx_bytes (op : option ptr) : M state Z :=
  match op with
  | None => mret 0
  | Some p =>
      b ← load p; o ← unwrap (brick_ops b);
      match op_tx_bytes o with None => mret 0 | Some f => gets (λ st, f p (world st)) end
  end.

End Ops.

Arguments pg_brick_ops : clear implicits.
Arguments state : clear implicits.
