(* ===== verification/BrickInv.v ===== *)
(** * The link structure: invariant and abstract view

    The invariant of the brick store kept by [src/brick.c], the view of the
    store as a set of links, and what creation, linking and unlinking do to
    them. The operations of each kind of brick are known here only through the
    interface [BrickLaws]. *)

From S2P Require Import Prelude Common Brick.

(** ** One brick *)

(** The edge at index [i] of a side. *)
Definition uslot (u : side_union) (i : nat) : option pg_brick_edge :=
  match u with
  | Edges es => es !! i
  | Edge e => match i with O => Some e | S _ => None end
  end.

Definition is_linked (e : pg_brick_edge) : Prop := is_Some (link e).

Global Instance is_linked_dec e : Decision (is_linked e).
Proof. unfold is_linked. apply _. Defined.

Definition edge_list (u : side_union) : list pg_brick_edge :=
  match u with Edges es => es | Edge e => [e] end.

(** The number of links of a side. *)
Definition ulinks (u : side_union) : nat := length (filter is_linked (edge_list u)).

(** The union member in use and its size agree with the type of the brick. *)
Definition union_ok (t : pg_brick_type) (sd : pg_brick_side) : Prop :=
  match t, side_edges sd with
  | PG_MULTIPOLE, Edges es => Z.of_nat (length es) = side_max sd
  | PG_MULTIPOLE, Edge _ => False
  | _, Edge _ => side_max sd ≤ 1
  | _, Edges _ => False
  end.

Record side_ok (t : pg_brick_type) (sd : pg_brick_side) : Prop := {
  so_union : union_ok t sd;
  so_max : 0 ≤ side_max sd < UINT16_MAX;
  so_nb : side_nb sd = Z.of_nat (ulinks (side_edges sd));
  so_room : side_nb sd ≤ side_max sd;
}.

(** [refcount] is the owner's reference plus one per link. The second side of a
    monopole stays empty. *)
Record brick_ok (b : pg_brick) : Prop := {
  bo_side : ∀ s, side_ok (type b) (sides b s);
  bo_ref : refcount b = 1 + side_nb (west_side b) + side_nb (east_side b);
  bo_mono : type b = PG_MONOPOLE → ulinks (side_edges (east_side b)) = 0%nat;
}.

(** ** Writing one slot *)

Lemma uslot_write u i e j :
  is_Some (uslot u i) →
  uslot (write_union u i e) j = if decide (i = j) then Some e else uslot u j.
Proof.
  intros [e0 He0]. destruct u as [es|e1]; simpl in *.
  - apply lookup_lt_Some in He0. rewrite list_lookup_insert.
    destruct (decide (i = j)) as [->|].
    + by rewrite decide_True.
    + rewrite decide_False; [done|naive_solver].
  - destruct i; [|done]. by destruct j.
Qed.

Lemma ulinks_write u i e0 e :
  uslot u i = Some e0 →
  (ulinks (write_union u i e) + (if decide (is_linked e0) then 1 else 0)
   = ulinks u + (if decide (is_linked e) then 1 else 0))%nat.
Proof.
  destruct u as [es|e1]; simpl; intros He0.
  - unfold ulinks. simpl. revert i He0.
    induction es as [|e2 es IH]; intros [|i] He0; try done; simpl in *.
    + injection He0 as ->. rewrite !filter_cons.
      repeat case_decide; simpl; lia.
    + specialize (IH _ He0). rewrite !filter_cons.
      repeat case_decide; simpl in *; lia.
  - destruct i; [|done]. injection He0 as ->. unfold ulinks. simpl.
    rewrite !filter_cons, !filter_nil. repeat case_decide; simpl; lia.
Qed.

Lemma ulinks_zero u i e :
  ulinks u = 0%nat → uslot u i = Some e → link e = None.
Proof.
  intros H0 He. destruct (link e) eqn:Hl; [|done]. exfalso.
  assert (e ∈ edge_list u) as Hin.
  { destruct u as [es|e1]; simpl in *.
    - by eapply list_elem_of_lookup_2.
    - destruct i; [|done]. injection He as ->. set_solver. }
  unfold ulinks in H0. apply nil_length_inv in H0.
  assert (e ∈ filter is_linked (edge_list u)) as Hf.
  { apply list_elem_of_filter. split; [|done]. unfold is_linked. rewrite Hl. eauto. }
  rewrite H0 in Hf. set_solver.
Qed.

Lemma union_ok_write t sd i e :
  union_ok t sd → union_ok t (mk_side (side_max sd) (side_nb sd)
                                 (write_union (side_edges sd) i e)).
Proof.
  unfold union_ok. destruct t, (side_edges sd) as [es|e1]; simpl; try done.
  by rewrite length_insert.
Qed.

Lemma union_ok_nb t sd n : union_ok t sd → union_ok t (set_nb sd n).
Proof. done. Qed.

Lemma length_filter_le {A} (P : A → Prop) `{!∀ x, Decision (P x)} (l : list A) :
  (length (filter P l) ≤ length l)%nat.
Proof.
  induction l as [|x l IH]; [done|]. rewrite filter_cons.
  case_decide; simpl; lia.
Qed.

Lemma ulinks_le t sd : side_ok t sd → (Z.of_nat (ulinks (side_edges sd)) ≤ 65534).
Proof.
  intros [Hu Hm Hn _]. unfold union_ok, UINT16_MAX, ulinks in *.
  destruct (side_edges sd) as [es|e]; simpl.
  - pose proof (length_filter_le is_linked es). destruct t; try done. lia.
  - rewrite filter_cons, filter_nil. case_decide; simpl; lia.
Qed.

(** ** Free slots *)

Definition free_slot (u : side_union) : option nat :=
  match u with
  | Edges es => find_free es
  | Edge e => match link e with None => Some 0%nat | Some _ => None end
  end.

Lemma find_free_Some es i :
  find_free es = Some i → ∃ e, es !! i = Some e ∧ link e = None.
Proof.
  unfold find_free. destruct (list_find _ es) as [[j e]|] eqn:Hf; [|done].
  intros [= <-]. apply list_find_Some in Hf as (?&?&_). eauto.
Qed.

Lemma find_free_None es : find_free es = None → Forall is_linked es.
Proof.
  unfold find_free. destruct (list_find _ es) eqn:Hf; [done|]. intros _.
  apply list_find_None in Hf. eapply Forall_impl; [exact Hf|].
  intros e He. unfold is_linked.
  destruct (link e) eqn:Hl; [eauto|]. by destruct (He Hl).
Qed.

Lemma free_slot_Some u i :
  free_slot u = Some i → ∃ e, uslot u i = Some e ∧ link e = None.
Proof.
  destruct u as [es|e]; simpl; [apply find_free_Some|].
  destruct (link e) eqn:?; [done|]. intros [= <-]. eauto.
Qed.

Lemma filter_all_length {A} (P : A → Prop) `{!∀ x, Decision (P x)} l :
  Forall P l → length (filter P l) = length l.
Proof. induction 1; [done|]. rewrite filter_cons, decide_True by done. simpl. lia. Qed.

(** A side with room has a free slot. *)
Lemma place_free t sd :
  side_ok t sd → side_nb sd < side_max sd → is_Some (free_slot (side_edges sd)).
Proof.
  intros [Hu Hm Hn _] Hlt. unfold union_ok in Hu.
  destruct (side_edges sd) as [es|e]; simpl.
  - destruct t; try done. destruct (find_free es) eqn:Hf; [eauto|].
    pose proof (filter_all_length is_linked es (find_free_None _ Hf)).
    unfold ulinks in Hn. simpl in Hn. lia.
  - unfold ulinks in Hn. simpl in Hn. rewrite filter_cons, filter_nil in Hn.
    destruct (link e) eqn:Hl; [|eauto].
    rewrite decide_True in Hn by (unfold is_linked; rewrite Hl; eauto).
    simpl in Hn. destruct t; try done; lia.
Qed.

(** ** Editing a slot: the net effect of linking and unlinking on one end *)

Definition own_side (b : pg_brick) (s : pg_side) : pg_brick_side :=
  sides b (get_side b s).

(** Slot [i] of side [s] gets edge [e], [n] links are added. *)
Definition edit_slot (b : pg_brick) (s : pg_side) (i : nat) (e : pg_brick_edge) (n : Z)
    : pg_brick :=
  set_refcount
    (set_sides b (get_side b s)
      (mk_side (side_max (own_side b s)) (u16 (side_nb (own_side b s) + n))
               (write_union (side_edges (own_side b s)) i e)))
    (refcount b + n).

(** What the slot [(s, i)] holds: the neighbour and the paired index. A
    monopole sees its edge on the side [ms] it was linked on. *)
Definition bslot (ms : pg_side) (b : pg_brick) (s : pg_side) (i : nat)
    : option (ptr * nat) :=
  if decide (type b = PG_MONOPOLE ∧ s ≠ ms) then None
  else e ← uslot (side_edges (own_side b s)) i; q ← link e; Some (q, pair_index e).

Lemma sides_set_sides b s v s2 :
  sides (set_sides b s v) s2 = if decide (s = s2) then v else sides b s2.
Proof. by destruct s, s2. Qed.

Lemma get_side_edit b s i e n s2 : get_side (edit_slot b s i e n) s2 = get_side b s2.
Proof. unfold get_side, edit_slot. by destruct (get_side b s). Qed.

Lemma type_edit b s i e n : type (edit_slot b s i e n) = type b.
Proof. unfold edit_slot. by destruct (get_side b s). Qed.

Lemma ops_edit b s i e n : ops (edit_slot b s i e n) = ops b.
Proof. unfold edit_slot. by destruct (get_side b s). Qed.

Lemma sides_edit b s i e n s2 :
  sides (edit_slot b s i e n) s2 =
  if decide (get_side b s = s2)
  then mk_side (side_max (own_side b s)) (u16 (side_nb (own_side b s) + n))
               (write_union (side_edges (own_side b s)) i e)
  else sides b s2.
Proof.
  unfold edit_slot. rewrite <- sides_set_sides.
  by destruct s2, (get_side b s).
Qed.

Definition edge_diff (e0 e : pg_brick_edge) : Z :=
  (if decide (is_linked e) then 1 else 0) - (if decide (is_linked e0) then 1 else 0).

Lemma edge_diff_link e0 e :
  link e0 = None → is_Some (link e) → edge_diff e0 e = 1.
Proof.
  intros Hl He. unfold edge_diff. rewrite decide_True, decide_False; [lia| |done].
  unfold is_linked. rewrite Hl. apply is_Some_None.
Qed.

Lemma edge_diff_unlink e0 : is_Some (link e0) → edge_diff e0 null_edge = -1.
Proof.
  intros Hl. unfold edge_diff. rewrite decide_False, decide_True; [lia|done|].
  apply is_Some_None.
Qed.

Lemma side_ok_write t sd i e0 e :
  side_ok t sd → uslot (side_edges sd) i = Some e0 →
  side_nb sd + edge_diff e0 e ≤ side_max sd →
  side_nb sd + edge_diff e0 e = Z.of_nat (ulinks (write_union (side_edges sd) i e)) ∧
  side_ok t (mk_side (side_max sd) (u16 (side_nb sd + edge_diff e0 e))
                     (write_union (side_edges sd) i e)).
Proof.
  intros Hsd He0 Hroom. pose proof (ulinks_write _ _ _ e He0) as Hw.
  assert (side_nb sd + edge_diff e0 e
    = Z.of_nat (ulinks (write_union (side_edges sd) i e))) as Hn.
  { rewrite (so_nb _ _ Hsd). unfold edge_diff. repeat case_decide; lia. }
  split; [done|].
  assert (side_ok t (mk_side (side_max sd)
    (Z.of_nat (ulinks (write_union (side_edges sd) i e)))
    (write_union (side_edges sd) i e))) as Hok.
  { split; [apply (union_ok_write t sd), Hsd|apply Hsd|done|simpl; lia]. }
  rewrite Hn, u16_small; [done|].
  pose proof (ulinks_le _ _ Hok) as Hle. simpl in Hle. lia.
Qed.

Lemma brick_ok_edit b s i e0 e :
  brick_ok b → uslot (side_edges (own_side b s)) i = Some e0 →
  side_nb (own_side b s) + edge_diff e0 e ≤ side_max (own_side b s) →
  brick_ok (edit_slot b s i e (edge_diff e0 e)).
Proof.
  intros Hb He0 Hroom. pose proof (bo_side _ Hb (get_side b s)) as Hsd.
  destruct (side_ok_write _ _ _ _ e Hsd He0 Hroom) as [Hn Hok]. fold (own_side b s) in *.
  split.
  - intros s2. rewrite type_edit, sides_edit. case_decide; [done|apply Hb].
  - assert (u16 (side_nb (own_side b s) + edge_diff e0 e)
      = side_nb (own_side b s) + edge_diff e0 e) as Hu.
    { rewrite Hn. apply u16_small. pose proof (ulinks_le _ _ Hok) as Hle.
      simpl in Hle. lia. }
    pose proof (bo_ref _ Hb) as Hr.
    unfold edit_slot, own_side in *. destruct (get_side b s); simpl in *; lia.
  - rewrite type_edit. intros Hm. change (east_side ?x) with (sides x PG_EAST_SIDE).
    rewrite sides_edit. rewrite decide_False; [by apply Hb|].
    unfold get_side. by rewrite Hm.
Qed.

Lemma bslot_edit ms b s i e n e0 s2 j :
  uslot (side_edges (own_side b s)) i = Some e0 →
  bslot ms (edit_slot b s i e n) s2 j =
  if decide (type b = PG_MONOPOLE ∧ s2 ≠ ms) then None
  else if decide (get_side b s = get_side b s2 ∧ i = j)
  then q ← link e; Some (q, pair_index e)
  else bslot ms b s2 j.
Proof.
  intros He0. unfold bslot. rewrite type_edit.
  destruct (decide (type b = PG_MONOPOLE ∧ s2 ≠ ms)); [done|].
  unfold own_side at 1. rewrite get_side_edit, sides_edit.
  destruct (decide (get_side b s = get_side b s2)) as [Hs|Hs].
  - simpl. rewrite uslot_write by eauto. destruct (decide (i = j)) as [->|].
    + by rewrite decide_True.
    + rewrite decide_False by naive_solver. unfold own_side. by rewrite Hs.
  - by rewrite decide_False by naive_solver.
Qed.

(** ** Pointers to edges *)

Lemma get_edge_uslot b s i e :
  union_ok (type b) (own_side b s) → uslot (side_edges (own_side b s)) i = Some e →
  pg_brick_get_edge b s i = Some (Some e).
Proof.
  intros Hu He.
  unfold pg_brick_get_edge, own_side, get_side, union_ok in *.
  destruct (type b) eqn:Ht; simpl in *.
  - destruct (side_edges (sides b s)) as [[|e1 es]|e1]; simpl in *; [done| |done].
    by rewrite He.
  - destruct (side_edges (west_side b)) as [es|e1]; [done|].
    simpl in He. destruct i; [by injection He as ->|done].
  - destruct (side_edges (sides b s)) as [es|e1]; [done|].
    simpl in He. destruct i; [by injection He as ->|done].
Qed.

(** ** Running the code *)

Section Run.

Context {W : Type}.
Implicit Types (st : state W) (p q : ptr) (b : pg_brick).

Lemma wp_load st p b (Q : pg_brick → state W → Prop) :
  bricks st !! p = Some b → Q b st → wp (load p) Q st.
Proof. intros Hp HQ. unfold load. wp_step. by rewrite Hp. Qed.

Lemma wp_store st p b (Q : unit → state W → Prop) :
  Q tt (mk_state (<[p := b]> (bricks st)) (world st) (errp st)) →
  wp (store p b) Q st.
Proof. done. Qed.

Lemma wp_error_is_set st (Q : bool → state W → Prop) :
  Q (pg_error_is_set (errp st)) st → wp error_is_set Q st.
Proof. done. Qed.

Lemma wp_incref st p b (Q : unit → state W → Prop) :
  bricks st !! p = Some b →
  Q tt (mk_state (<[p := set_refcount b (refcount b + 1)]> (bricks st))
                 (world st) (errp st)) →
  wp (pg_brick_incref p) Q st.
Proof.
  intros Hp HQ. unfold pg_brick_incref. rewrite wp_bind.
  eapply wp_load; [done|]. by apply wp_store.
Qed.

End Run.

(** Solves the lookups that running the code asks for. *)
Ltac store_lookup :=
  cbn [bricks]; first [eassumption | by simplify_map_eq
    | rewrite ?lookup_insert_ne, ?lookup_insert_eq by done; (reflexivity || eassumption)].

(** [wps] runs the code of the goal forward. *)
Ltac wp_one :=
  lazymatch goal with
  | |- wp (_ ≫= _) _ _ => rewrite wp_bind
  | |- wp (mret _) _ _ => rewrite wp_ret
  | |- wp (unwrap (Some _)) _ _ => rewrite wp_unwrap_Some
  | |- wp (massert true) _ _ => rewrite wp_massert_true
  | |- wp (gets _) _ _ => rewrite wp_gets
  | |- wp (modify _) _ _ => rewrite wp_modify
  | |- wp (store _ _) _ _ => apply wp_store
  | |- wp error_is_set _ _ => apply wp_error_is_set
  | |- wp (load _) _ _ => eapply wp_load; [store_lookup|]
  | |- wp (pg_brick_incref _) _ _ => eapply wp_incref; [store_lookup|]
  end.

Ltac wps := repeat (wp_one; cbn [bricks world errp upd_bricks]).

(** ** The interface between the brick infrastructure and the bricks

    What [brick.c] relies on in the callbacks of [struct pg_brick_ops]: a brick
    that answers [get_side] records the side given to [link_notify], no other
    callback changes what the other bricks answer, and a successful [init] sets
    the [burst] function. *)
Class BrickLaws {W C} (all : list (pg_brick_ops W C)) : Prop := {
  law_pair o f :
    o ∈ all → op_get_side o = Some f → is_Some (op_link_notify o);
  law_link_same o f g p s i w :
    o ∈ all → op_get_side o = Some f → op_link_notify o = Some g →
    f p (g p s i w) = s;
  law_link_other o o' f g p q s i w :
    o ∈ all → o' ∈ all → op_link_notify o = Some g → op_get_side o' = Some f →
    q ≠ p → f q (g p s i w) = f q w;
  law_unlink o o' f g h p q s i e w :
    o ∈ all → o' ∈ all → op_unlink_notify o = Some g → op_get_side o' = Some f →
    f q (snd (g h p s i e w)) = f q w;
  law_destroy o o' f g h p q e w :
    o ∈ all → o' ∈ all → op_destroy o = Some g → op_get_side o' = Some f →
    q ≠ p → f q (snd (g h p e w)) = f q w;
  law_init o o' f p q b c e w :
    o ∈ all → o' ∈ all → op_get_side o' = Some f →
    q ≠ p → f q (io_world (op_init o p b c e w)) = f q w;
  law_burst o p b c e w :
    o ∈ all → 0 ≤ io_ret (op_init o p b c e w) → io_burst (op_init o p b c e w) = true;
}.

Section Store.

Context {W C : Type} (all : list (pg_brick_ops W C)).
Implicit Types (st : state W) (p q : ptr) (b : pg_brick).

Local Abbreviation brick_ops := (brick_ops all).

(** The side a monopole is linked on. *)
Definition mside (w : W) p b : pg_side :=
  match brick_ops b ≫= op_get_side with
  | Some f => f p w
  | None => PG_WEST_SIDE
  end.

Definition slot st p s i : option (ptr * nat) :=
  b ← bricks st !! p; bslot (mside (world st) p b) b s i.

(** A brick of the store: well formed, registered, and able to say its side if
    it is a monopole. *)
Record valid_brick b : Prop := {
  vb_ok : brick_ok b;
  vb_ops : is_Some (brick_ops b);
  vb_mono : type b = PG_MONOPOLE → is_Some (brick_ops b ≫= op_get_side);
}.

(** The invariant of the store: every brick is well formed, no brick is linked to
    itself, and both ends of every link agree. *)
Record Inv st : Prop := {
  inv_brick p b : bricks st !! p = Some b → valid_brick b;
  inv_sym p s i q j :
    slot st p s i = Some (q, j) → p ≠ q ∧ slot st q (pg_flip_side s) j = Some (p, i);
}.

(** *** Running the primitives *)

Lemma wp_is_valid st p b (Q : bool → state W → Prop) :
  bricks st !! p = Some b → valid_brick b → Q true st →
  wp (is_brick_valid (Some p)) Q st.
Proof.
  intros Hp Hv HQ. unfold is_brick_valid. rewrite wp_bind. eapply wp_load; [done|].
  rewrite wp_ret. rewrite bool_decide_eq_true_2; [done|].
  destruct (vb_ops _ Hv) as [o Ho]. unfold Brick.brick_ops in Ho.
  destruct (ops b); [eauto|done].
Qed.

Lemma insert_twice (h : gmap ptr pg_brick) p q b1 b2 b3 :
  p ≠ q → <[p := b1]> (<[q := b2]> (<[p := b3]> h)) = <[q := b2]> (<[p := b1]> h).
Proof. intros. rewrite (insert_insert_ne _ p q) by done. by rewrite insert_insert_eq. Qed.

(** *** Inserting one end of a link *)

Definition half_link b (s : pg_side) (i : nat) (e : pg_brick_edge) : pg_brick :=
  set_sides b (get_side b s)
    (mk_side (side_max (own_side b s)) (u16 (side_nb (own_side b s) + 1))
             (write_union (side_edges (own_side b s)) i e)).

Lemma is_place_nb b s :
  is_place_available b s = (side_nb (own_side b s) <? side_max (own_side b s)).
Proof. unfold is_place_available, own_side, get_side. by destruct (type b). Qed.

Lemma wp_insert_link st from to s b tb i e0 (Q : nat → state W → Prop) :
  bricks st !! from = Some b → bricks st !! to = Some tb → from ≠ to →
  union_ok (type b) (own_side b s) →
  free_slot (side_edges (own_side b s)) = Some i →
  uslot (side_edges (own_side b s)) i = Some e0 →
  Q i (mk_state
    (<[to := set_refcount tb (refcount tb + 1)]>
      (<[from := half_link b s i (mk_edge (Some to) (pair_index e0))]> (bricks st)))
    (world st) (errp st)) →
  wp (insert_link from to s) Q st.
Proof.
  intros Hf Ht Hne Hu Hfree He0 HQ. unfold insert_link. wps.
  unfold own_side, half_link, own_side, get_side, union_ok in *.
  destruct (type b) eqn:Ht0; simpl in *.
  - destruct (side_edges (sides b s)) as [es|e1] eqn:He; [|done]. simpl in *.
    rewrite Hfree. wps. rewrite He0. wps.
    match goal with H : Q _ (mk_state ?a _ _) |- Q _ (mk_state ?b _ _) =>
      replace b with a; [done|] end.
    rewrite insert_twice by done. f_equal. f_equal.
    unfold write_edge, get_side. destruct s; simpl in *; rewrite Ht0; simpl; by rewrite He.
  - destruct (side_edges (west_side b)) as [es|e1] eqn:He; [done|]. simpl in *.
    destruct (link e1) eqn:Hl1; [done|]. injection Hfree as <-. injection He0 as ->.
    wps. simpl. rewrite He. wps.
    match goal with H : Q _ (mk_state ?a _ _) |- Q _ (mk_state ?b _ _) =>
      replace b with a; [done|] end.
    rewrite insert_twice by done. f_equal. f_equal.
    unfold write_edge, get_side. simpl; rewrite Ht0; simpl; by rewrite He.
  - destruct (side_edges (sides b s)) as [es|e1] eqn:He; [done|]. simpl in *.
    destruct (link e1) eqn:Hl1; [done|]. injection Hfree as <-. injection He0 as ->.
    wps.
    match goal with H : Q _ (mk_state ?a _ _) |- Q _ (mk_state ?b _ _) =>
      replace b with a; [done|] end.
    f_equal. f_equal. unfold write_edge, get_side. rewrite Ht0.
    destruct s; simpl in *; by rewrite He.
Qed.

(** *** Notifications *)

Definition notified b p (s : pg_side) (i : nat) (w : W) : W :=
  match brick_ops b ≫= op_link_notify with
  | Some g => g p s i w
  | None => w
  end.

Lemma wp_link_notify st p b s i (Q : unit → state W → Prop) :
  bricks st !! p = Some b → is_Some (brick_ops b) →
  Q tt (mk_state (bricks st) (notified b p s i (world st)) (errp st)) →
  wp (link_notify all p s i) Q st.
Proof.
  intros Hp [o Ho] HQ. unfold link_notify, notified in *. wps.
  rewrite Ho in *. wps. simpl in HQ.
  destruct (op_link_notify o); wps; [done|]. by destruct st.
Qed.

Lemma wp_set_edge st p b s i e j (Q : Z → state W → Prop) :
  bricks st !! p = Some b → pg_brick_get_edge b s i = Some (Some e) →
  Q 0 (mk_state (<[p := write_edge b s i (mk_edge (link e) j)]> (bricks st))
                (world st) (errp st)) →
  wp (set_edge p s i j) Q st.
Proof. intros Hp He HQ. unfold set_edge. wps. rewrite He. by wps. Qed.

Lemma brick_ops_elem b o : brick_ops b = Some o → o ∈ all.
Proof.
  unfold Brick.brick_ops. destruct (ops b) as [i|]; [|done]. simpl.
  apply list_elem_of_lookup_2.
Qed.

Lemma mside_ops w p b b' : ops b = ops b' → mside w p b = mside w p b'.
Proof. unfold mside, Brick.brick_ops. by intros ->. Qed.

Context `{!BrickLaws all}.

Lemma mside_notified_same w p b s i :
  valid_brick b → type b = PG_MONOPOLE → mside (notified b p s i w) p b = s.
Proof.
  intros Hv Hm. destruct (vb_mono _ Hv Hm) as [f Hf]. unfold mside, notified.
  rewrite Hf. destruct (brick_ops b) as [o|] eqn:Ho; [|done]. simpl in *.
  pose proof (brick_ops_elem _ _ Ho). destruct (law_pair o f) as [g Hg]; [done..|].
  rewrite Hg. by apply (law_link_same o).
Qed.

Lemma mside_notified_other w p b s i q c :
  q ≠ p → mside (notified b p s i w) q c = mside w q c.
Proof.
  intros Hne. unfold mside, notified.
  destruct (brick_ops b) as [o|] eqn:Ho; [|done]. simpl.
  destruct (op_link_notify o) as [g|] eqn:Hg; [|done].
  destruct (brick_ops c) as [o'|] eqn:Ho'; [|done]. simpl.
  destruct (op_get_side o') as [f|] eqn:Hf; [|done].
  by apply (law_link_other o o'); eauto using brick_ops_elem.
Qed.

(** *** Linking *)

Lemma write_union_twice u i e e' :
  write_union (write_union u i e) i e' = write_union u i e'.
Proof. destruct u; simpl; [|done]. f_equal. apply list_insert_insert_eq. Qed.

(** Both halves of the insertion, in either order with the reference taken by the
    other end, amount to one edit of the slot. *)
Lemma half_link_edit_after b s i e q j :
  write_edge (set_refcount (half_link b s i e) (refcount (half_link b s i e) + 1)) s i
    (mk_edge (Some q) j)
  = edit_slot b s i (mk_edge (Some q) j) 1.
Proof.
  unfold write_edge, half_link, edit_slot, own_side, get_side, set_refcount.
  destruct b as [? ? ? ? ? [] ? ?]; simpl; [destruct s| |destruct s]; simpl;
    by rewrite write_union_twice.
Qed.

Lemma half_link_edit_before b s i e q j :
  write_edge (half_link (set_refcount b (refcount b + 1)) s i e) s i (mk_edge (Some q) j)
  = edit_slot b s i (mk_edge (Some q) j) 1.
Proof.
  unfold write_edge, half_link, edit_slot, own_side, get_side, set_refcount.
  destruct b as [? ? ? ? ? [] ? ?]; simpl; [destruct s| |destruct s]; simpl;
    by rewrite write_union_twice.
Qed.

Lemma brick_ok_free_slot b s i e0 q j :
  brick_ok b → uslot (side_edges (own_side b s)) i = Some e0 → link e0 = None →
  side_nb (own_side b s) < side_max (own_side b s) →
  brick_ok (edit_slot b s i (mk_edge (Some q) j) 1).
Proof.
  intros Hb He0 Hl Hroom. assert (edge_diff e0 (mk_edge (Some q) j) = 1) as Hd
    by (apply edge_diff_link; [done|eauto]).
  rewrite <- Hd. apply brick_ok_edit; [done..|lia].
Qed.

(** The state after linking [w] (east slot [wi]) to [e] (west slot [ei]). *)
Definition linked st w wi wb e ei eb : state W :=
  mk_state
    (<[w := edit_slot wb PG_EAST_SIDE wi (mk_edge (Some e) ei) 1]>
      (<[e := edit_slot eb PG_WEST_SIDE ei (mk_edge (Some w) wi) 1]> (bricks st)))
    (notified wb w PG_EAST_SIDE wi (notified eb e PG_WEST_SIDE ei (world st)))
    (errp st).

Lemma ops_half_link b s i e : ops (half_link b s i e) = ops b.
Proof. unfold half_link. by destruct (get_side b s). Qed.

Lemma own_side_half_link b s i e :
  own_side (half_link b s i e) s
  = mk_side (side_max (own_side b s)) (u16 (side_nb (own_side b s) + 1))
            (write_union (side_edges (own_side b s)) i e).
Proof.
  unfold own_side at 1, half_link, get_side.
  destruct b as [? ? ? ? ? [] ? ?]; simpl; [destruct s| |destruct s]; done.
Qed.

Lemma get_edge_half b s i e e0 :
  union_ok (type b) (own_side b s) →
  uslot (side_edges (own_side b s)) i = Some e0 →
  pg_brick_get_edge (half_link b s i e) s i = Some (Some e).
Proof.
  intros Hu He0.
  apply get_edge_uslot; rewrite own_side_half_link.
  - replace (type (half_link b s i e)) with (type b);
      [by apply (union_ok_write _ (own_side b s))|].
    unfold half_link. by destruct (get_side b s).
  - simpl. rewrite uslot_write by eauto. by rewrite decide_True.
Qed.

Lemma own_union_ok b s : brick_ok b → union_ok (type b) (own_side b s).
Proof. intros Hb. apply (bo_side _ Hb (get_side b s)). Qed.

Lemma wp_pg_brick_link st w wb e eb wi ei ew ee (Q : Z → state W → Prop) :
  bricks st !! w = Some wb → bricks st !! e = Some eb → w ≠ e →
  valid_brick wb → valid_brick eb →
  is_place_available eb PG_WEST_SIDE = true → is_place_available wb PG_EAST_SIDE = true →
  free_slot (side_edges (own_side wb PG_EAST_SIDE)) = Some wi →
  uslot (side_edges (own_side wb PG_EAST_SIDE)) wi = Some ew →
  free_slot (side_edges (own_side eb PG_WEST_SIDE)) = Some ei →
  uslot (side_edges (own_side eb PG_WEST_SIDE)) ei = Some ee →
  Q 0 (linked st w wi wb e ei eb) →
  wp (pg_brick_link all (Some w) (Some e)) Q st.
Proof.
  intros Hw He Hne Hvw Hve Hpe Hpw Hfw Huw Hfe Hue HQ.
  pose proof (own_union_ok wb PG_EAST_SIDE (vb_ok _ Hvw)) as Hokw.
  pose proof (own_union_ok eb PG_WEST_SIDE (vb_ok _ Hve)) as Hoke.
  unfold pg_brick_link. wps. eapply wp_is_valid; [done..|]. wps.
  eapply wp_is_valid; [done..|]. simpl. rewrite decide_False by done. wps.
  rewrite Hpe, Hpw. simpl. wps.
  eapply wp_insert_link; [done..|]. wps.
  eapply wp_link_notify; [by simplify_map_eq|..].
  { unfold Brick.brick_ops. rewrite ops_half_link. apply Hve. }
  cbn [bricks world errp]. wps.
  eapply wp_insert_link; cbn [bricks]; [by simplify_map_eq|by simplify_map_eq|done..|].
  cbn [bricks world errp]. wps.
  eapply wp_link_notify; [by simplify_map_eq|..].
  { unfold Brick.brick_ops. rewrite ops_half_link. apply Hvw. }
  cbn [bricks world errp]. wps.
  eapply wp_set_edge; cbn [bricks]; [by simplify_map_eq|..].
  { change (pg_brick_get_edge (set_refcount ?x _) ?s ?i)
      with (pg_brick_get_edge x s i). by eapply get_edge_half. }
  cbn [bricks world errp]. change (0 <? 0) with false; cbv beta iota. wps.
  eapply wp_set_edge; cbn [bricks]; [by simplify_map_eq|..].
  { by eapply (get_edge_half (set_refcount wb _)). }
  cbn [bricks world errp]. change (0 <? 0) with false; cbv beta iota. wps.
  match goal with |- Q 0 ?x => replace x with (linked st w wi wb e ei eb); [done|] end.
  unfold linked. f_equal.
  - apply map_eq. intros k. destruct (decide (k = w)) as [->|]; [|destruct (decide (k = e)) as [->|]].
    + simplify_map_eq. f_equal. symmetry. apply half_link_edit_before.
    + simplify_map_eq. f_equal. symmetry. apply half_link_edit_after.
    + by simplify_map_eq.
  - unfold notified, Brick.brick_ops. by rewrite !ops_half_link.
Qed.

Lemma bslot_nonmono ms ms' b s i :
  type b ≠ PG_MONOPOLE → bslot ms b s i = bslot ms' b s i.
Proof. intros Hm. unfold bslot. rewrite !decide_False by naive_solver. done. Qed.

(** A monopole with a free slot has no link at all. *)
Lemma bslot_mono_free ms b s s2 j i :
  brick_ok b → type b = PG_MONOPOLE →
  free_slot (side_edges (own_side b s)) = Some j → bslot ms b s2 i = None.
Proof.
  intros Hb Hm Hf. unfold bslot. case_decide; [done|].
  pose proof (own_union_ok b s Hb) as Hu.
  unfold own_side, get_side, union_ok in *. rewrite Hm in *.
  destruct (side_edges (sides b PG_WEST_SIDE)) as [es|e1]; [done|]. simpl in *.
  destruct (link e1) eqn:Hl; [done|]. destruct i; simpl; [by rewrite Hl|done].
Qed.

(** The slots of one end after linking it on side [s]. *)
Lemma bslot_link ms ms' b s i e0 q j s2 i2 :
  valid_brick b → free_slot (side_edges (own_side b s)) = Some i →
  uslot (side_edges (own_side b s)) i = Some e0 →
  (type b = PG_MONOPOLE → ms' = s) →
  bslot ms' (edit_slot b s i (mk_edge (Some q) j) 1) s2 i2 =
  if decide (s2 = s ∧ i2 = i) then Some (q, j) else bslot ms b s2 i2.
Proof.
  intros Hv Hf He0 Hms. rewrite (bslot_edit _ _ _ _ _ _ _ _ _ He0).
  destruct (decide (type b = PG_MONOPOLE)) as [Hm|Hm].
  - rewrite (Hms Hm), (bslot_mono_free ms b s s2 i i2 (vb_ok _ Hv) Hm Hf).
    rewrite (bslot_mono_free s b s s2 i i2 (vb_ok _ Hv) Hm Hf).
    unfold get_side. rewrite Hm.
    repeat case_decide; try done; naive_solver.
  - rewrite (bslot_nonmono ms' ms) by done.
    assert (∀ s', get_side b s' = s') as Hgs by (intros; unfold get_side; by destruct (type b)).
    rewrite !Hgs. repeat case_decide; try done; naive_solver.
Qed.

Section Linking.

Context (st : state W) (w e : ptr) (wb eb : pg_brick) (wi ei : nat)
  (ew ee : pg_brick_edge).
Hypothesis Hinv : Inv st.
Hypothesis Hw : bricks st !! w = Some wb.
Hypothesis He : bricks st !! e = Some eb.
Hypothesis Hne : w ≠ e.
Hypothesis Hfw : free_slot (side_edges (own_side wb PG_EAST_SIDE)) = Some wi.
Hypothesis Huw : uslot (side_edges (own_side wb PG_EAST_SIDE)) wi = Some ew.
Hypothesis Hfe : free_slot (side_edges (own_side eb PG_WEST_SIDE)) = Some ei.
Hypothesis Hue : uslot (side_edges (own_side eb PG_WEST_SIDE)) ei = Some ee.
Hypothesis Hrw : is_place_available wb PG_EAST_SIDE = true.
Hypothesis Hre : is_place_available eb PG_WEST_SIDE = true.

Local Abbreviation st' := (linked st w wi wb e ei eb).

Lemma slot_linked p s i :
  slot st' p s i =
  if decide ((p, s, i) = (w, PG_EAST_SIDE, wi)) then Some (e, ei)
  else if decide ((p, s, i) = (e, PG_WEST_SIDE, ei)) then Some (w, wi)
  else slot st p s i.
Proof.
  pose proof (inv_brick _ Hinv _ _ Hw) as Hvw.
  pose proof (inv_brick _ Hinv _ _ He) as Hve.
  unfold slot, linked. cbn [bricks world].
  destruct (decide (p = w)) as [->|Hpw]; [|destruct (decide (p = e)) as [->|Hpe]].
  - rewrite Hw, lookup_insert_eq. simpl.
    rewrite (mside_ops _ _ _ wb) by apply ops_edit.
    rewrite (bslot_link (mside (world st) w wb) _ wb _ _ _ _ _ _ _ Hvw Hfw Huw)
      by (intros; by apply mside_notified_same).
    repeat case_decide; naive_solver.
  - rewrite He, lookup_insert_ne, lookup_insert_eq by done. simpl.
    rewrite (mside_ops _ _ _ eb) by apply ops_edit.
    rewrite mside_notified_other by done.
    rewrite (bslot_link (mside (world st) e eb) _ eb _ _ _ _ _ _ _ Hve Hfe Hue)
      by (intros; by apply mside_notified_same).
    repeat case_decide; naive_solver.
  - rewrite !lookup_insert_ne by done.
    rewrite !decide_False by naive_solver.
    destruct (bricks st !! p) as [b|]; [|done]. simpl.
    by rewrite !mside_notified_other.
Qed.

Lemma slot_free_w : slot st w PG_EAST_SIDE wi = None.
Proof.
  unfold slot, bslot. rewrite Hw. simpl. case_decide; [done|]. rewrite Huw. simpl.
  apply free_slot_Some in Hfw as (?&?&Hl). simplify_eq. by rewrite Hl.
Qed.

Lemma slot_free_e : slot st e PG_WEST_SIDE ei = None.
Proof.
  unfold slot, bslot. rewrite He. simpl. case_decide; [done|]. rewrite Hue. simpl.
  apply free_slot_Some in Hfe as (?&?&Hl). simplify_eq. by rewrite Hl.
Qed.

Lemma valid_edit b s i e0 q j :
  valid_brick b → uslot (side_edges (own_side b s)) i = Some e0 → link e0 = None →
  side_nb (own_side b s) < side_max (own_side b s) →
  valid_brick (edit_slot b s i (mk_edge (Some q) j) 1).
Proof.
  intros [Hok Ho Hm] He0 Hl Hroom. split.
  - by eapply brick_ok_free_slot.
  - unfold Brick.brick_ops in *. by rewrite ops_edit.
  - unfold Brick.brick_ops in *. by rewrite ops_edit, type_edit.
Qed.

Lemma linked_Inv : Inv st'.
Proof.
  split.
  - intros p b. simpl. intros Hp.
    destruct (free_slot_Some _ _ Hfw) as (ew'&Hew&?).
    destruct (free_slot_Some _ _ Hfe) as (ee'&Hee&?).
    apply lookup_insert_Some in Hp as [[<- <-]|[? Hp]];
      [|apply lookup_insert_Some in Hp as [[<- <-]|[? Hp]]].
    + eapply valid_edit; [by eapply inv_brick|exact Hew|done|].
      rewrite is_place_nb in Hrw. lia.
    + eapply valid_edit; [by eapply inv_brick|exact Hee|done|].
      rewrite is_place_nb in Hre. lia.
    + by eapply inv_brick.
  - intros p s i q j Hs. rewrite slot_linked in Hs. rewrite slot_linked.
    destruct (decide ((p, s, i) = (w, PG_EAST_SIDE, wi))) as [[= -> -> ->]|H1].
    { injection Hs as <- <-. split; [done|]. simpl.
      rewrite decide_False by congruence. by rewrite decide_True. }
    destruct (decide ((p, s, i) = (e, PG_WEST_SIDE, ei))) as [[= -> -> ->]|H2].
    { injection Hs as <- <-. split; [done|]. simpl. by rewrite decide_True. }
    pose proof (inv_sym _ Hinv _ _ _ _ _ Hs) as [Hpq Hqs].
    split; [done|]. rewrite decide_False, decide_False; [done| |].
    + intros [= -> Hf ->]. rewrite Hf, slot_free_e in Hqs. done.
    + intros [= -> Hf ->]. rewrite Hf, slot_free_w in Hqs. done.
Qed.

End Linking.

(** *** Unlinking *)

Definition same_sides (w w' : W) : Prop := ∀ k c, mside w' k c = mside w k c.

(** No brick refuses to be unlinked. *)
Definition quiet : Prop :=
  ∀ o f h p s i w, o ∈ all → op_unlink_notify o = Some f → fst (f h p s i None w) = None.

Lemma wp_unlink_notify st p b s i e q qb as_ (Q : unit → state W → Prop) :
  bricks st !! p = Some b → pg_brick_get_edge b s i = Some (Some e) →
  link e = Some q → bricks st !! q = Some qb →
  (∀ w' er, same_sides (world st) w' → (quiet → errp st = None → er = None) →
     Q tt (mk_state (bricks st) w' er)) →
  wp (unlink_notify all p s i as_) Q st.
Proof.
  intros Hp He Hl Hq HQ. unfold unlink_notify. wps. rewrite He. wps. rewrite Hl. wps.
  destruct (brick_ops qb) as [o|] eqn:Ho; simpl.
  - destruct (op_unlink_notify o) as [g|] eqn:Hg; simpl; wps.
    + apply HQ.
      * intros k c. unfold mside.
        destruct (brick_ops c) as [o'|] eqn:Ho'; [|done]. simpl.
        destruct (op_get_side o') as [f|] eqn:Hf; [|done].
        by apply (law_unlink o o'); eauto using brick_ops_elem.
      * intros Hqt ->. eapply Hqt; eauto using brick_ops_elem.
    + destruct st as [h w er]. by apply (HQ w er).
  - wps. destruct st as [h w er]. by apply (HQ w er).
Qed.

Lemma wp_decref_live st p b (Q : option ptr → state W → Prop) :
  bricks st !! p = Some b → 1 < refcount b →
  Q (Some p) (mk_state (<[p := set_refcount b (refcount b - 1)]> (bricks st))
                       (world st) (errp st)) →
  wp (pg_brick_decref all (Some p)) Q st.
Proof.
  intros Hp Hr HQ. unfold pg_brick_decref. wps. simpl.
  destruct (Z.ltb_spec 0 (refcount b - 1)); [|lia]. by wps.
Qed.

(** A linked slot keeps the reference count of its brick above the owner's. *)
Lemma linked_refcount b s i e0 :
  brick_ok b → uslot (side_edges (own_side b s)) i = Some e0 → is_Some (link e0) →
  1 < refcount b.
Proof.
  intros Hb He0 Hl. rewrite (bo_ref _ Hb).
  assert (∀ s, 0 ≤ side_nb (sides b s)) as Hnn.
  { intros s'. rewrite (so_nb _ _ (bo_side _ Hb s')). lia. }
  assert (0 < side_nb (own_side b s)) as Hpos.
  { unfold own_side in *. rewrite (so_nb _ _ (bo_side _ Hb _)).
    destruct (ulinks _) eqn:H0; [|lia].
    rewrite (ulinks_zero _ _ _ H0 He0) in Hl. by destruct Hl. }
  pose proof (Hnn PG_WEST_SIDE). pose proof (Hnn PG_EAST_SIDE).
  unfold own_side in *. destruct (get_side b s); simpl in *; lia.
Qed.

Lemma edit_null_slot b s s2 i :
  get_side b s = get_side b s2 →
  edit_slot b s i null_edge (-1) = edit_slot b s2 i null_edge (-1).
Proof. unfold edit_slot, own_side. by intros ->. Qed.

(** The four writes on one end of a removed link are one edit of the slot. *)
Lemma unlink_edit_r b s s2 i :
  get_side b s = get_side b s2 →
  let b1 := set_refcount b (refcount b - 1) in
  let b2 := write_edge b1 s i null_edge in
  set_sides b2 (get_side b2 s2)
    (set_nb (sides b2 (get_side b2 s2)) (side_nb (sides b2 (get_side b2 s2)) - 1))
  = edit_slot b s2 i null_edge (-1).
Proof.
  unfold write_edge, edit_slot, own_side, get_side, set_refcount, set_nb.
  destruct b as [? ? ? ? ? [] ? ?]; simpl; intros Hs; [destruct s, s2; try done| |
    destruct s, s2; try done]; simpl; done.
Qed.

(** The side on which [p] sees its slots of side [s]. *)
Definition rside st p b s : pg_side :=
  match type b with PG_MONOPOLE => mside (world st) p b | _ => s end.

Lemma wp_real_side st p b s (Q : pg_side → state W → Prop) :
  valid_brick b → Q (rside st p b s) st → wp (real_side all p b s) Q st.
Proof.
  intros Hv HQ. unfold real_side, rside in *.
  destruct (type b) eqn:Ht; [by wps| |by wps].
  destruct (vb_mono _ Hv Ht) as [f Hf]. unfold mside in HQ. rewrite Hf in HQ.
  destruct (brick_ops b) as [o|]; [|done]. simpl in Hf. wps. rewrite Hf. by wps.
Qed.

Lemma get_side_rside st p b s : get_side b (rside st p b s) = get_side b s.
Proof. unfold get_side, rside. by destruct (type b). Qed.

(** The state after removing the link between slots [(p, s, i)] and [(q, qs, j)]. *)
Definition unlinked (h : gmap ptr pg_brick) p s i b q qs j qb : gmap ptr pg_brick :=
  <[p := edit_slot b s i null_edge (-1)]>
    (<[q := edit_slot qb qs j null_edge (-1)]> h).

Lemma wp_do_unlink st p b s i q qb e e' (Q : unit → state W → Prop) :
  let rs := rside st p b s in
  bricks st !! p = Some b → bricks st !! q = Some qb → p ≠ q →
  valid_brick b → valid_brick qb →
  uslot (side_edges (own_side b s)) i = Some e → link e = Some q →
  uslot (side_edges (own_side qb (pg_flip_side rs))) (pair_index e) = Some e' →
  link e' = Some p →
  (∀ w' er, same_sides (world st) w' → pg_error_is_set er = true →
     ¬ (quiet ∧ errp st = None) → Q tt (mk_state (bricks st) w' er)) →
  (∀ w' er, same_sides (world st) w' → pg_error_is_set er = false →
     Q tt (mk_state (unlinked (bricks st) p s i b q (pg_flip_side rs) (pair_index e) qb)
                    w' er)) →
  wp (do_unlink all p s i) Q st.
Proof.
  intros rs Hp Hq Hpq Hv Hvq He Hl He' Hl' Herr HQ.
  assert (pg_brick_get_edge b s i = Some (Some e)) as Hge
    by (apply get_edge_uslot; [apply own_union_ok, Hv|done]).
  assert (pg_brick_get_edge qb (pg_flip_side rs) (pair_index e) = Some (Some e')) as Hge'
    by (apply get_edge_uslot; [apply own_union_ok, Hvq|done]).
  unfold do_unlink. wps. rewrite Hge. wps. eapply wp_real_side; [done|].
  change (rside st p b s) with rs. wps. rewrite Hl. wps. rewrite Hge'. wps.
  eapply wp_unlink_notify; [done..|]. intros w1 er1 Hw1 Hq1. wps.
  destruct (pg_error_is_set er1) eqn:Her1; wps.
  { apply Herr; [done..|]. intros [Hqt He0]. by rewrite Hq1 in Her1. }
  eapply wp_unlink_notify; cbn [bricks]; [done..|]. intros w2 er2 Hw2 Hq2. wps.
  assert (same_sides (world st) w2) as Hw12.
  { intros k c. rewrite (Hw2 k c). apply Hw1. }
  destruct (pg_error_is_set er2) eqn:Her2; wps.
  { apply Herr; [done..|]. intros [Hqt He0]. by rewrite Hq2 in Her2 by auto. }
  eapply wp_decref_live; cbn [bricks]; [done| |].
  { eapply linked_refcount; [apply Hv|done|by rewrite Hl]. }
  wps. rewrite Her2. wps.
  change (pg_brick_get_edge (set_refcount b ?n) s i) with (pg_brick_get_edge b s i).
  rewrite Hge. wps. rewrite Hl.
  eapply wp_decref_live; cbn [bricks]; [by simplify_map_eq| |].
  { eapply linked_refcount; [apply Hvq|done|by rewrite Hl']. }
  wps. rewrite Her2. unfold reset_edge, decr_nb. wps.
  match goal with |- Q tt (mk_state ?x _ _) =>
    replace x with (unlinked (bricks st) p s i b q (pg_flip_side rs) (pair_index e) qb);
      [by apply HQ|] end.
  unfold unlinked. apply map_eq. intros k.
  destruct (decide (k = p)) as [->|]; [|destruct (decide (k = q)) as [->|]];
    simplify_map_eq; [f_equal..|done].
  - rewrite (edit_null_slot b s rs) by (symmetry; apply get_side_rside).
    symmetry. apply unlink_edit_r. symmetry. apply get_side_rside.
  - symmetry. by apply unlink_edit_r.
Qed.

Lemma slot_Some st p s i q j :
  slot st p s i = Some (q, j) ↔
  ∃ b e, bricks st !! p = Some b ∧ uslot (side_edges (own_side b s)) i = Some e ∧
    link e = Some q ∧ pair_index e = j ∧
    (type b = PG_MONOPOLE → s = mside (world st) p b).
Proof.
  unfold slot, bslot. split.
  - destruct (bricks st !! p) as [b|]; [|done]. simpl. case_decide as Hd; [done|].
    destruct (uslot _ i) as [e|] eqn:He; [|done]. simpl.
    destruct (link e) eqn:Hl; [|done]. simpl. intros [= -> <-].
    exists b, e. split_and!; [done..|]. intros Hm.
    destruct (decide (s = mside (world st) p b)); naive_solver.
  - intros (b&e&->&He&Hl&<-&Hm). simpl. rewrite decide_False by naive_solver.
    rewrite He. simpl. by rewrite Hl.
Qed.

Lemma slot_rside st p b s i q j :
  bricks st !! p = Some b → slot st p (rside st p b s) i = Some (q, j) →
  ∃ e, uslot (side_edges (own_side b s)) i = Some e ∧ link e = Some q ∧ pair_index e = j.
Proof.
  intros Hp (b'&e&?&He&?&?&_)%slot_Some. simplify_eq. exists e.
  split; [|done]. unfold own_side in *. by rewrite get_side_rside in He.
Qed.

Lemma bslot_unlink ms b s i e0 rs s2 i2 :
  uslot (side_edges (own_side b s)) i = Some e0 →
  (if decide (type b = PG_MONOPOLE) then ms = rs else s = rs) →
  bslot ms (edit_slot b s i null_edge (-1)) s2 i2 =
  if decide (s2 = rs ∧ i2 = i) then None else bslot ms b s2 i2.
Proof.
  intros He0 Hms. rewrite (bslot_edit _ _ _ _ _ _ _ _ _ He0). simpl.
  destruct (decide (type b = PG_MONOPOLE)) as [Hm|Hm].
  - subst ms. assert (get_side b s = get_side b s2) as Hgs.
    { unfold get_side. by rewrite Hm. }
    destruct (decide (s2 = rs)) as [->|Hs].
    + repeat case_decide; try done; naive_solver.
    + rewrite decide_True by done. rewrite decide_False by naive_solver.
      unfold bslot. by rewrite decide_True.
  - subst s. assert (∀ s', get_side b s' = s') as Hgs
      by (intros; unfold get_side; by destruct (type b)).
    rewrite !Hgs. repeat case_decide; try done; naive_solver.
Qed.

Section Unlinking.

Context (st : state W) (p q : ptr) (b qb : pg_brick) (s : pg_side) (i j : nat) (w' : W)
  (er : option pg_error).
Hypothesis Hinv : Inv st.
Hypothesis Hp : bricks st !! p = Some b.
Hypothesis Hq : bricks st !! q = Some qb.
Local Abbreviation rs := (rside st p b s).
Hypothesis Hs : slot st p rs i = Some (q, j).
Hypothesis Hsides : same_sides (world st) w'.

Local Abbreviation st' :=
  (mk_state (unlinked (bricks st) p s i b q (pg_flip_side rs) j qb) w' er).

Lemma slot_unlinked k s2 i2 :
  slot st' k s2 i2 =
  if decide ((k, s2, i2) = (p, rs, i)) then None
  else if decide ((k, s2, i2) = (q, pg_flip_side rs, j)) then None
  else slot st k s2 i2.
Proof.
  destruct (inv_sym _ Hinv _ _ _ _ _ Hs) as [Hpq Hqs].
  destruct (slot_rside _ _ _ _ _ _ _ Hp Hs) as (e&He&_).
  apply slot_Some in Hqs as (qb'&e'&Hq'&He'&_&_&Hmq). simplify_eq.
  unfold slot at 1, unlinked. cbn [bricks world].
  destruct (decide (k = p)) as [->|Hkp]; [|destruct (decide (k = q)) as [->|Hkq]].
  - rewrite lookup_insert_eq. simpl. rewrite (mside_ops _ _ _ b) by apply ops_edit.
    rewrite (bslot_unlink _ b s i e rs _ _ He).
    + unfold slot. rewrite Hp. simpl. rewrite (Hsides p b).
      repeat case_decide; naive_solver.
    + rewrite (Hsides p b). unfold rside. case_decide as Hm; destruct (type b); done.
  - rewrite lookup_insert_ne, lookup_insert_eq by done. simpl.
    rewrite (mside_ops _ _ _ qb) by apply ops_edit.
    rewrite (bslot_unlink _ qb (pg_flip_side rs) j e' (pg_flip_side rs) _ _ He').
    + unfold slot. rewrite Hq. simpl. rewrite (Hsides q qb).
      repeat case_decide; naive_solver.
    + rewrite (Hsides q qb). case_decide as Hm; [by rewrite Hmq|done].
  - rewrite !lookup_insert_ne by done. rewrite !decide_False by naive_solver.
    unfold slot. destruct (bricks st !! k) as [c|]; [|done]. simpl.
    by rewrite (Hsides k c).
Qed.

Lemma valid_unlink c s2 i2 e0 :
  valid_brick c → uslot (side_edges (own_side c s2)) i2 = Some e0 → is_Some (link e0) →
  valid_brick (edit_slot c s2 i2 null_edge (-1)).
Proof.
  intros [Hok Ho Hm] He0 Hl. split.
  - pose proof (so_room _ _ (bo_side _ Hok (get_side c s2))) as Hr.
    fold (own_side c s2) in Hr. rewrite <- (edge_diff_unlink e0) by done.
    apply brick_ok_edit; [done..|]. rewrite edge_diff_unlink by done. lia.
  - unfold Brick.brick_ops in *. by rewrite ops_edit.
  - unfold Brick.brick_ops in *. by rewrite ops_edit, type_edit.
Qed.

Lemma unlinked_Inv : Inv st'.
Proof.
  destruct (inv_sym _ Hinv _ _ _ _ _ Hs) as [Hpq Hqs].
  split.
  - intros k c. simpl. intros Hk. unfold unlinked in Hk.
    apply lookup_insert_Some in Hk as [[<- <-]|[? Hk]];
      [|apply lookup_insert_Some in Hk as [[<- <-]|[? Hk]]].
    + destruct (slot_rside _ _ _ _ _ _ _ Hp Hs) as (e&He&Hl&_).
      eapply valid_unlink; [by eapply inv_brick|done|by rewrite Hl].
    + apply slot_Some in Hqs as (qb'&e'&Hq'&He'&Hl'&_). simplify_eq.
      eapply valid_unlink; [by eapply inv_brick|done|by rewrite Hl'].
    + by eapply inv_brick.
  - intros k s2 i2 k' i2' Hk. rewrite slot_unlinked in Hk. rewrite slot_unlinked.
    case_decide as H1; [done|]. case_decide as H2; [done|].
    pose proof (inv_sym _ Hinv _ _ _ _ _ Hk) as [Hkk' Hk'].
    split; [done|]. rewrite decide_False, decide_False; [done| |].
    + intros [= -> Hf ->]. apply H1. rewrite Hf in Hk'.
      rewrite Hqs in Hk'. injection Hk' as -> ->. apply flip_inj in Hf. by rewrite Hf.
    + intros [= -> Hf ->]. apply H2. rewrite Hf in Hk'.
      rewrite Hs in Hk'. injection Hk' as -> ->. rewrite <- Hf. by rewrite flip_flip.
Qed.

End Unlinking.

(** [do_unlink] on an occupied slot of a store that satisfies the invariant: it
    does not crash; it either removes exactly that link or, when a notified brick
    reports an error, leaves every link. *)
Lemma do_unlink_spec st p b s i q j :
  Inv st → bricks st !! p = Some b → slot st p (rside st p b s) i = Some (q, j) →
  wp (do_unlink all p s i) (λ _ st',
    Inv st' ∧ dom (bricks st') = dom (bricks st) ∧
    (∀ k c, bricks st !! k = Some c → ∃ c', bricks st' !! k = Some c' ∧
       type c' = type c ∧ ops c' = ops c ∧ mside (world st') k c' = mside (world st) k c
       ∧ ∀ s, side_max (sides c' s) = side_max (sides c s)) ∧
    if pg_error_is_set (errp st')
    then (∀ k s i, slot st' k s i = slot st k s i) ∧ ¬ (quiet ∧ errp st = None)
    else ∀ k s2 i2, slot st' k s2 i2 =
      if decide ((k, s2, i2) = (p, rside st p b s, i)) then None
      else if decide ((k, s2, i2) = (q, pg_flip_side (rside st p b s), j)) then None
      else slot st k s2 i2) st.
Proof.
  intros Hinv Hp Hs. destruct (inv_sym _ Hinv _ _ _ _ _ Hs) as [Hpq Hqs].
  destruct (slot_rside _ _ _ _ _ _ _ Hp Hs) as (e&He&Hl&<-).
  pose proof Hqs as (qb&e'&Hq&He'&Hl'&_)%slot_Some.
  eapply wp_do_unlink; [exact Hp|exact Hq|done|by eapply inv_brick|by eapply inv_brick|
    exact He|exact Hl|exact He'|exact Hl'|..].
  - intros w' er Hw' Her Hnq. simpl. rewrite Her.
    assert (∀ k s i, slot (mk_state (bricks st) w' er) k s i = slot st k s i) as Heq.
    { intros k s' i'. unfold slot. simpl. destruct (bricks st !! k) as [c|]; [|done].
      simpl. by rewrite (Hw' k c). }
    split_and!; [|done| |done..].
    + split; [apply Hinv|]. intros k s2 i2 k' i2'. rewrite !Heq. apply Hinv.
    + intros k c Hk. exists c. by split_and!.
  - intros w' er Hw' Her. simpl. rewrite Her. split_and!.
    + by eapply unlinked_Inv.
    + unfold unlinked. rewrite !dom_insert_L.
      apply elem_of_dom_2 in Hp, Hq. set_solver.
    + intros k c Hk. unfold unlinked.
      destruct (decide (k = p)) as [->|]; [|destruct (decide (k = q)) as [->|]];
        simplify_map_eq; eexists; (split; [done|]).
      * rewrite type_edit, ops_edit, (mside_ops _ _ _ b), (Hw' p b) by apply ops_edit.
        split_and!; [done..|]. intros s'. rewrite sides_edit.
        case_decide; [by subst s'|done].
      * rewrite type_edit, ops_edit, (mside_ops _ _ _ qb), (Hw' q qb) by apply ops_edit.
        split_and!; [done..|]. intros s'. rewrite sides_edit.
        case_decide; [by subst s'|done].
      * split_and!; [done..|apply Hw'|done].
    + intros k s2 i2. by apply slot_unlinked.
Qed.

End Store.

(** ** The edge iterator *)

(** The slots the iterator passes over: a side of a dipole or multipole has at
    least one, which may be the NULL edge of an empty side. *)
Definition cap (b : pg_brick) (s : pg_side) : nat :=
  Nat.max 1 (Z.to_nat (side_max (sides b s))).

Definition side_slots (b : pg_brick) (s : pg_side) (n : nat) : list (pg_side * nat) :=
  (λ i, (s, i)) <$> seq n (cap b s - n).

(** The slots after [(s, e)], in the order of the iterator. *)
Definition after (b : pg_brick) (s : pg_side) (e : nat) : list (pg_side * nat) :=
  side_slots b s (S e) ++
  match s with PG_WEST_SIDE => side_slots b PG_EAST_SIDE 0 | PG_EAST_SIDE => [] end.

Definition all_slots (b : pg_brick) : list (pg_side * nat) :=
  match type b with
  | PG_MONOPOLE => [(PG_WEST_SIDE, 0%nat)]
  | _ => (PG_WEST_SIDE, 0%nat) :: after b PG_WEST_SIDE 0
  end.

Definition linked_at (b : pg_brick) (si : pg_side * nat) : Prop :=
  ∃ e, uslot (side_edges (sides b (fst si))) (snd si) = Some e ∧ is_linked e.

Global Instance linked_at_dec b si : Decision (linked_at b si).
Proof.
  unfold linked_at. destruct (uslot _ _) as [e|].
  - destruct (decide (is_linked e)); [left; eauto|right; naive_solver].
  - right. naive_solver.
Defined.

Definition it_at (o : option (pg_side * nat)) : edge_iterator :=
  match o with
  | Some (s, e) => mk_it e (side_index s) false
  | None => mk_it 0 PG_MAX_SIDE true
  end.

Lemma it_linked_spec b s e :
  brick_ok b → type b ≠ PG_MONOPOLE → (e < cap b s)%nat →
  it_linked b (mk_it e (side_index s) false) = Some (bool_decide (linked_at b (s, e))).
Proof.
  intros Hb Hm He.
  enough (∃ l, it_linked b (mk_it e (side_index s) false) = Some l
    ∧ (l = true ↔ linked_at b (s, e))) as (l & -> & Hl).
  { f_equal. destruct l; symmetry;
      [apply bool_decide_eq_true_2|apply bool_decide_eq_false_2]; naive_solver. }
  unfold it_linked, it_get. cbn [it_side it_edge].
  replace (side_of_index (side_index s)) with (Some s) by (by destruct s). simpl.
  pose proof (so_union _ _ (bo_side _ Hb s)) as Hu.
  pose proof (so_max _ _ (bo_side _ Hb s)) as Hmx.
  unfold union_ok, pg_brick_get_edge, cap, linked_at, is_linked in *. simpl in *.
  destruct (type b) eqn:Ht; [|done|].
  - destruct (side_edges (sides b s)) as [[|e1 es]|e1] eqn:Hes; [| |done]; simpl in *.
    + destruct e; [|lia]. simpl. eexists; split; [done|]. naive_solver.
    + destruct ((e1 :: es) !! e) as [e2|] eqn:He2; simpl.
      * eexists; split; [done|]. rewrite bool_decide_eq_true. naive_solver.
      * apply lookup_ge_None in He2. simpl in He2. lia.
  - destruct (side_edges (sides b s)) as [es|e1] eqn:Hes; [done|]; simpl in *.
    destruct e; [|lia]. eexists; split; [done|]. rewrite bool_decide_eq_true. naive_solver.
Qed.

Lemma after_cons_same b s e :
  Z.of_nat (S e) < side_max (sides b s) → after b s e = (s, S e) :: after b s (S e).
Proof.
  intros H. unfold after, side_slots, cap.
  replace (Nat.max 1 (Z.to_nat (side_max (sides b s))) - S e)%nat
    with (S (Nat.max 1 (Z.to_nat (side_max (sides b s))) - S (S e)))%nat by lia.
  done.
Qed.

Lemma after_cons_next b e :
  side_max (west_side b) ≤ Z.of_nat (S e) →
  after b PG_WEST_SIDE e = (PG_EAST_SIDE, 0%nat) :: after b PG_EAST_SIDE 0.
Proof.
  intros H. unfold after, side_slots, cap. simpl sides.
  replace (Nat.max 1 (Z.to_nat (side_max (west_side b))) - S e)%nat with 0%nat by lia.
  replace (Nat.max 1 (Z.to_nat (side_max (east_side b))) - 0)%nat
    with (S (Nat.max 1 (Z.to_nat (side_max (east_side b))) - 1)) by lia.
  simpl. by rewrite app_nil_r.
Qed.

Lemma after_nil b e :
  side_max (east_side b) ≤ Z.of_nat (S e) → after b PG_EAST_SIDE e = [].
Proof.
  intros H. unfold after, side_slots, cap. simpl sides.
  replace (Nat.max 1 (Z.to_nat (side_max (east_side b))) - S e)%nat with 0%nat by lia.
  done.
Qed.

Lemma iterator_next_spec fuel b s e :
  brick_ok b → type b ≠ PG_MONOPOLE → (length (after b s e) < fuel)%nat →
  iterator_next fuel b (mk_it e (side_index s) false)
  = Some (it_at (head (filter (linked_at b) (after b s e)))).
Proof.
  intros Hb Hm. revert s e. induction fuel as [|fuel IH]; intros s e Hf; [lia|].
  cbn [iterator_next it_end it_side it_edge].
  replace (side_of_index (side_index s)) with (Some s) by (by destruct s).
  assert (∀ s' e', after b s e = (s', e') :: after b s' e' → (e' < cap b s')%nat →
    (l ← it_linked b (mk_it e' (side_index s') false);
     if (l : bool) then Some (mk_it e' (side_index s') false)
     else iterator_next fuel b (mk_it e' (side_index s') false))
    = Some (it_at (head (filter (linked_at b) (after b s e))))) as Hstep.
  { intros s' e' Ha Hc. rewrite it_linked_spec by done. rewrite Ha, filter_cons.
    rewrite Ha in Hf. simpl in Hf. simpl.
    destruct (decide (linked_at b (s', e'))) as [Hl|Hl].
    - by rewrite bool_decide_eq_true_2.
    - rewrite bool_decide_eq_false_2 by done. apply IH. lia. }
  unfold pg_side_get_max. simpl.
  destruct (type b) eqn:Ht; [|done|].
  all: destruct (Z.leb_spec (side_max (sides b s)) (Z.of_nat (S e))) as [Hle|Hlt].
  all: try (rewrite decide_False by (by destruct s); apply Hstep;
    [by apply after_cons_same|unfold cap; lia]).
  all: destruct s; simpl in *.
  all: try (apply (Hstep PG_EAST_SIDE 0%nat); [by apply after_cons_next|unfold cap; lia]).
  all: by rewrite after_nil.
Qed.

Lemma length_after b s e :
  (length (after b s e) < cap b PG_WEST_SIDE + cap b PG_EAST_SIDE)%nat.
Proof.
  assert (∀ s, 1 ≤ cap b s)%nat as Hc by (intros; unfold cap; lia).
  pose proof (Hc PG_WEST_SIDE). pose proof (Hc PG_EAST_SIDE).
  unfold after, side_slots. rewrite length_app, length_fmap, length_seq.
  destruct s; simpl length; rewrite ?length_fmap, ?length_seq; lia.
Qed.

Lemma next_spec b s e :
  brick_ok b → type b ≠ PG_MONOPOLE →
  pg_brick_edge_iterator_next b (mk_it e (side_index s) false)
  = Some (it_at (head (filter (linked_at b) (after b s e)))).
Proof.
  intros Hb Hm. apply iterator_next_spec; [done..|].
  pose proof (length_after b s e). unfold iterator_fuel, cap in *. simpl in *. lia.
Qed.

Lemma after_unfold b s e :
  after b s e = [] ∨
  ∃ s1 e1, after b s e = (s1, e1) :: after b s1 e1 ∧ (e1 < cap b s1)%nat.
Proof.
  destruct (decide (Z.of_nat (S e) < side_max (sides b s))) as [Hlt|Hge].
  - right. exists s, (S e). split; [by apply after_cons_same|unfold cap; lia].
  - destruct s; simpl in Hge.
    + right. exists PG_EAST_SIDE, 0%nat.
      split; [apply after_cons_next; lia|unfold cap; lia].
    + left. apply after_nil. lia.
Qed.

(** The first linked slot after a position, and the slots after that one. *)
Lemma filter_after b c s e s' e' :
  (∀ s0, cap b s0 = cap c s0) →
  head (filter (linked_at c) (after b s e)) = Some (s', e') →
  filter (linked_at c) (after b s e) = (s', e') :: filter (linked_at c) (after b s' e') ∧
  linked_at c (s', e') ∧ (length (after b s' e') < length (after b s e))%nat ∧
  (∀ si, si ∈ after b s e → linked_at c si → si = (s', e') ∨ si ∈ after b s' e').
Proof.
  intros Hcap. remember (length (after b s e)) as n eqn:Hn.
  revert s e Hn. induction (lt_wf n) as [n _ IH]. intros s e -> Hh.
  destruct (after_unfold b s e) as [Ha|(s1&e1&Ha&_)]; rewrite Ha in Hh |- *; [done|].
  rewrite filter_cons in Hh |- *. case_decide as Hl.
  - injection Hh as <- <-. split_and!; [done..|simpl; lia|]. set_solver.
  - destruct (IH (length (after b s1 e1))) with (s := s1) (e := e1)
      as (Hf & Hl' & Hlen & Hin); [rewrite Ha; simpl; lia|done..|].
    split_and!; [done..|simpl; lia|].
    intros si [->|Hsi]%elem_of_cons Hlsi; [done|]. by apply Hin.
Qed.

Lemma next_mono b e n :
  type b = PG_MONOPOLE →
  pg_brick_edge_iterator_next b (mk_it e n false) = Some (mk_it e n true).
Proof.
  intros Hm. unfold pg_brick_edge_iterator_next, iterator_fuel.
  rewrite Nat.add_comm. simpl. by rewrite Hm.
Qed.

Lemma init_spec b :
  brick_ok b →
  pg_brick_edge_iterator_init b =
  Some (match type b with
        | PG_MONOPOLE =>
            mk_it 0 0 (negb (bool_decide (linked_at b (PG_WEST_SIDE, 0%nat))))
        | _ => it_at (head (filter (linked_at b) (all_slots b)))
        end).
Proof.
  intros Hb. destruct (decide (type b = PG_MONOPOLE)) as [Hm|Hm].
  - rewrite Hm. unfold pg_brick_edge_iterator_init, it_linked, it_get. simpl.
    unfold pg_brick_get_edge. rewrite Hm.
    pose proof (so_union _ _ (bo_side _ Hb PG_WEST_SIDE)) as Hu.
    unfold union_ok in Hu. rewrite Hm in Hu. simpl in Hu.
    destruct (side_edges (west_side b)) as [es|e] eqn:He; [done|]. simpl.
    assert (linked_at b (PG_WEST_SIDE, 0%nat) ↔ is_Some (link e)) as Hl.
    { unfold linked_at, is_linked. simpl. rewrite He. simpl. naive_solver. }
    destruct (decide (is_Some (link e))).
    { rewrite !bool_decide_eq_true_2 by naive_solver. done. }
    rewrite !bool_decide_eq_false_2 by naive_solver.
    by rewrite next_mono.
  - pose proof (it_linked_spec b PG_WEST_SIDE 0 Hb Hm) as Hl.
    unfold pg_brick_edge_iterator_init, all_slots. simpl in Hl.
    rewrite Hl by (unfold cap; lia). simpl.
    assert (∀ A (x y : A), match type b with PG_MONOPOLE => x | _ => y end = y) as Hmt
      by (intros; by destruct (type b)).
    rewrite !Hmt, filter_cons.
    destruct (decide (linked_at b (PG_WEST_SIDE, 0%nat))).
    + by rewrite bool_decide_eq_true_2.
    + rewrite bool_decide_eq_false_2 by done. by apply (next_spec b PG_WEST_SIDE 0).
Qed.

Lemma foreach_from_spec fuel b s e :
  brick_ok b → type b ≠ PG_MONOPOLE →
  (length (filter (linked_at b) (after b s e)) + 1 < fuel)%nat →
  foreach_edges_from fuel b (mk_it e (side_index s) false)
  = Some ((s, e) :: filter (linked_at b) (after b s e)).
Proof.
  intros Hb Hm. revert s e. induction fuel as [|fuel IH]; intros s e Hf; [lia|].
  cbn [foreach_edges_from it_end it_side it_edge].
  replace (side_of_index (side_index s)) with (Some s) by (by destruct s).
  rewrite next_spec by done. simpl.
  destruct (head (filter (linked_at b) (after b s e))) as [[s' e']|] eqn:Hh; simpl.
  - destruct (filter_after b b s e s' e') as (Heq&_); [done..|].
    rewrite Heq in Hf |- *. simpl in Hf. rewrite IH by lia. done.
  - destruct fuel; [lia|]. simpl. by destruct (filter (linked_at b) (after b s e)).
Qed.

Lemma foreach_edges_spec b :
  brick_ok b →
  PG_BRICK_FOREACH_EDGES b = Some (filter (linked_at b) (all_slots b)).
Proof.
  intros Hb. unfold PG_BRICK_FOREACH_EDGES. rewrite init_spec by done. simpl.
  destruct (decide (type b = PG_MONOPOLE)) as [Hm|Hm].
  - unfold all_slots, iterator_fuel. rewrite Hm, filter_cons, filter_nil, Nat.add_comm.
    case_bool_decide; simpl; [|by rewrite decide_False].
    rewrite decide_True by done. by rewrite next_mono.
  - assert (∀ A (x y : A), match type b with PG_MONOPOLE => x | _ => y end = y) as Hmt
      by (intros; by destruct (type b)).
    unfold all_slots. rewrite !Hmt, filter_cons.
    assert (∀ s e, (length (filter (linked_at b) (after b s e)) + 1 < iterator_fuel b)%nat)
      as Hlen.
    { intros s e. pose proof (length_after b s e).
      pose proof (length_filter_le (linked_at b) (after b s e)).
      unfold iterator_fuel, cap in *. simpl in *. lia. }
    case_decide; simpl; [by apply (foreach_from_spec _ b PG_WEST_SIDE)|].
    destruct (head (filter (linked_at b) (after b PG_WEST_SIDE 0))) as [[s' e']|] eqn:Hh;
      simpl.
    + destruct (filter_after b b PG_WEST_SIDE 0 s' e') as (Heq&_); [done..|].
      rewrite Heq. by apply foreach_from_spec.
    + unfold iterator_fuel. rewrite Nat.add_comm. simpl.
      by destruct (filter (linked_at b) (after b PG_WEST_SIDE 0)).
Qed.

(** The edge iterator visits exactly the linked slots of a brick, west side
    first and by increasing index, and it ends. *)
Theorem foreach_edges_visits_links (b : pg_brick) :
  brick_ok b →
  PG_BRICK_FOREACH_EDGES b = Some (filter (linked_at b) (all_slots b)).
Proof. apply foreach_edges_spec. Qed.
