(* ===== verification/BrickSpec.v ===== *)
(** * Bricks: what the life-cycle and link operations promise

    The store of bricks seen as a set of links, and the theorems that the
    operations of [src/brick.c] implement the abstract operations on that set
    while keeping the invariant of the store. *)

From S2P Require Import Prelude Common Brick BrickInv.

(** ** The abstract view *)

(** A link joins the east slot [(w, wi)] to the west slot [(e, ei)]. *)
Record glink := mk_link { l_west : ptr; l_wi : nat; l_east : ptr; l_ei : nat }.

Global Instance glink_eq_dec : EqDecision glink.
Proof. solve_decision. Defined.

Global Instance glink_countable : Countable glink.
Proof.
  by apply (inj_countable' (λ l, (l_west l, l_wi l, l_east l, l_ei l))
    (λ '(a, b, c, d), mk_link a b c d)); intros [].
Defined.

Definition touches (p : ptr) (l : glink) : Prop := l_west l = p ∨ l_east l = p.

Global Instance touches_dec p l : Decision (touches p l).
Proof. unfold touches. apply _. Defined.

(** Linking [w] to [e] adds one link that shares no slot with another. *)
Inductive abs_link (L : gset glink) (w e : ptr) : gset glink → Prop :=
  | AbsLink wi ei :
      w ≠ e →
      (∀ l, l ∈ L → ¬ (l_west l = w ∧ l_wi l = wi)) →
      (∀ l, l ∈ L → ¬ (l_east l = e ∧ l_ei l = ei)) →
      abs_link L w e ({[mk_link w wi e ei]} ∪ L).

Definition removed_only_links (p : ptr) (L L' : gset glink) : Prop :=
  L' ⊆ L ∧ ∀ l, l ∈ L → ¬ touches p l → l ∈ L'.

(** ** From the store to the links *)

Section Spec.

Context {W C : Type} (all : list (pg_brick_ops W C)) `{!BrickLaws all}.
Implicit Types (st : state W) (p q : ptr) (b : pg_brick).

Local Abbreviation slot := (slot all).
Local Abbreviation Inv := (Inv all).
Local Abbreviation brick_ops := (brick_ops all).
Local Abbreviation mside := (mside all).

(** The refinement relation: the store is well formed and its links are [L]. *)
Record R st (L : gset glink) : Prop := {
  R_inv : Inv st;
  R_links w wi e ei :
    mk_link w wi e ei ∈ L ↔ slot st w PG_EAST_SIDE wi = Some (e, ei);
}.

(** What no link operation changes in a brick. *)
Definition frame st st' : Prop :=
  dom (bricks st') = dom (bricks st) ∧
  ∀ k c, bricks st !! k = Some c → ∃ c', bricks st' !! k = Some c' ∧
    type c' = type c ∧ ops c' = ops c ∧ mside (world st') k c' = mside (world st) k c ∧
    ∀ s, side_max (sides c' s) = side_max (sides c s).

Definition removed_only p st st' : Prop :=
  ∀ k s i, slot st' k s i = slot st k s i ∨
    (slot st' k s i = None ∧ (k = p ∨ ∃ j, slot st k s i = Some (p, j))).

Lemma frame_refl st : frame st st.
Proof. split; [done|]. intros k c Hk. exists c. by split_and!. Qed.

Lemma frame_trans st1 st2 st3 : frame st1 st2 → frame st2 st3 → frame st1 st3.
Proof.
  intros [Hd1 H1] [Hd2 H2]. split; [congruence|]. intros k c Hk.
  destruct (H1 k c Hk) as (c2&Hk2&?&?&?&Hm2).
  destruct (H2 k c2 Hk2) as (c3&Hk3&?&?&?&Hm3).
  exists c3. split_and!; [done|congruence..|]. intros s. by rewrite Hm3, Hm2.
Qed.

Lemma removed_only_refl p st : removed_only p st st.
Proof. by left. Qed.

Lemma removed_only_trans p st1 st2 st3 :
  removed_only p st1 st2 → removed_only p st2 st3 → removed_only p st1 st3.
Proof.
  intros H1 H2 k s i. destruct (H1 k s i) as [E1|[E1 D1]], (H2 k s i) as [E2|[E2 D2]].
  - left. congruence.
  - right. split; [done|]. destruct D2 as [|[j Hj]]; [by left|right; exists j; congruence].
  - right. split; [congruence|done].
  - by right.
Qed.

Lemma removed_only_None p st st' k s i :
  removed_only p st st' → slot st k s i = None → slot st' k s i = None.
Proof. intros H Hn. destruct (H k s i) as [->|[-> _]]; done. Qed.

Lemma do_unlink_only st p b s i q j :
  Inv st → bricks st !! p = Some b → slot st p (rside all st p b s) i = Some (q, j) →
  wp (do_unlink all p s i) (λ _ st',
    Inv st' ∧ frame st st' ∧ removed_only p st st' ∧
    (pg_error_is_set (errp st') = false → slot st' p (rside all st p b s) i = None) ∧
    (quiet all → errp st = None → errp st' = None)) st.
Proof.
  intros Hinv Hp Hs. eapply wp_mono; [by eapply do_unlink_spec|].
  intros [] st' (Hinv'&Hdom&Hfr&Hsl). split_and!; [done|done| | |].
  - intros k s2 i2. destruct (pg_error_is_set (errp st')); [left; apply Hsl|].
    rewrite Hsl. case_decide as H1; [right; split; [done|left; congruence]|].
    case_decide as H2; [|by left]. right. split; [done|]. right. exists i.
    injection H2 as -> -> ->. by apply (inv_sym _ _ Hinv).
  - intros Her. rewrite Her in Hsl. rewrite Hsl. by rewrite decide_True.
  - intros Hq He. destruct (errp st') eqn:He'; [|done]. simpl in Hsl. naive_solver.
Qed.

Lemma linked_at_slot st p b s i :
  bricks st !! p = Some b → type b ≠ PG_MONOPOLE →
  linked_at b (s, i) ↔ ∃ q j, slot st p s i = Some (q, j).
Proof.
  intros Hp Hm. assert (own_side b s = sides b s) as Hos.
  { unfold own_side, get_side. by destruct (type b). }
  unfold linked_at, is_linked. simpl. split.
  - intros (e&He&[q Hl]). exists q, (pair_index e). apply slot_Some.
    exists b, e. split_and!; [done|by rewrite Hos|done..].
  - intros (q&j&(b'&e&?&He&Hl&_)%slot_Some). simplify_eq.
    exists e. rewrite Hos in He. rewrite Hl. eauto.
Qed.

Lemma cap_frame b c :
  (∀ s, side_max (sides c s) = side_max (sides b s)) → ∀ s, cap c s = cap b s.
Proof. intros H s. unfold cap. by rewrite H. Qed.

Lemma after_frame b c s e :
  (∀ s, side_max (sides c s) = side_max (sides b s)) → after c s e = after b s e.
Proof. intros H. unfold after, side_slots. by rewrite !(cap_frame b c H). Qed.

Lemma unlink_loop_spec p n fuel st b s e :
  Inv st → bricks st !! p = Some b → type b ≠ PG_MONOPOLE → linked_at b (s, e) →
  length (after b s e) = n → (n + 1 < fuel)%nat →
  wp (generic_unlink_loop all fuel p (mk_it e (side_index s) false)) (λ _ st',
    Inv st' ∧ frame st st' ∧ removed_only p st st' ∧
    (pg_error_is_set (errp st') = false → ∀ s2 i2,
      (s2, i2) = (s, e) ∨ (s2, i2) ∈ after b s e → slot st' p s2 i2 = None) ∧
    (quiet all → errp st = None → errp st' = None)) st.
Proof.
  revert fuel st b s e. induction (lt_wf n) as [n _ IH].
  intros [|fuel] st b s e Hinv Hp Hm Hl Hn Hf; [lia|].
  apply (linked_at_slot st p b s e Hp Hm) in Hl as (q&j&Hs).
  assert (rside all st p b s = s) as Hrs by (unfold rside; by destruct (type b)).
  cbn [generic_unlink_loop it_end it_side it_edge].
  replace (side_of_index (side_index s)) with (Some s) by (by destruct s). wps.
  eapply wp_mono; [eapply do_unlink_only; [done..|by rewrite Hrs]|].
  intros [] st1 (Hinv1&Hfr1&Hrem1&Hnone&Hqt1). rewrite Hrs in Hnone. wps.
  destruct (pg_error_is_set (errp st1)) eqn:Her; wps.
  { split_and!; [done..|congruence|done]. }
  destruct (proj2 Hfr1 p b Hp) as (b1&Hp1&Ht1&_&_&Hmax1).
  assert (type b1 ≠ PG_MONOPOLE) as Hm1 by congruence.
  pose proof (after_frame b b1) as Haf.
  eapply wp_load; [done|].
  rewrite next_spec by (done || by eapply vb_ok, inv_brick). wps.
  rewrite (Haf s e Hmax1).
  destruct (head (filter (linked_at b1) (after b s e))) as [[s' e']|] eqn:Hh; simpl.
  - destruct (filter_after b b1 s e s' e') as (_&Hl'&Hlen&Hin); [|done|].
    { intros s0. symmetry. by apply cap_frame. }
    eapply wp_mono; [apply (IH (length (after b s' e')) ltac:(lia) fuel st1 b1)|];
      [done..|by rewrite Haf|lia|].
    intros [] st2 (Hinv2&Hfr2&Hrem2&Hall&Hqt2). split_and!;
      [done|by eapply frame_trans|by eapply removed_only_trans| |by auto].
    intros Her2 s2 i2 Hsi. specialize (Hall Her2).
    destruct (slot st1 p s2 i2) as [[q2 j2]|] eqn:Hsl; [|by eapply removed_only_None].
    assert (linked_at b1 (s2, i2)) as Hl2 by (eapply linked_at_slot; eauto).
    destruct Hsi as [[= -> ->]|Hsi]; [rewrite Hnone in Hsl; done|].
    rewrite Haf in Hall by done. apply Hall. by apply Hin.
  - destruct fuel; [lia|]. simpl. wps. split_and!; [done..| |by auto].
    intros _ s2 i2 [[= -> ->]|Hsi]; [by apply Hnone|].
    destruct (slot st1 p s2 i2) as [[q2 j2]|] eqn:Hsl; [|done]. exfalso.
    assert ((s2, i2) ∈ filter (linked_at b1) (after b s e)) as Hin.
    { apply list_elem_of_filter. split; [eapply linked_at_slot; eauto|done]. }
    destruct (filter _ _); [set_solver|done].
Qed.

Lemma in_all_slots b s i :
  type b ≠ PG_MONOPOLE → (i < cap b s)%nat → (s, i) ∈ all_slots b.
Proof.
  intros Hm Hi. unfold all_slots.
  assert (∀ A (x y : A), match type b with PG_MONOPOLE => x | _ => y end = y) as ->
    by (intros; by destruct (type b)).
  rewrite elem_of_cons. unfold after, side_slots. rewrite elem_of_app.
  destruct s.
  - destruct i; [by left|]. right. left.
    apply list_elem_of_fmap. exists (S i). split; [done|]. apply elem_of_seq. lia.
  - right. right. apply list_elem_of_fmap. exists i. split; [done|]. apply elem_of_seq. lia.
Qed.

Lemma uslot_cap b s i e :
  brick_ok b → uslot (side_edges (sides b s)) i = Some e → (i < cap b s)%nat.
Proof.
  intros Hb He. pose proof (so_union _ _ (bo_side _ Hb s)) as Hu.
  unfold union_ok, cap in *. destruct (side_edges (sides b s)) as [es|e1]; simpl in He.
  - apply lookup_lt_Some in He. destruct (type b); try done. lia.
  - destruct i; [lia|done].
Qed.

Lemma head_all_slots b s e :
  type b ≠ PG_MONOPOLE → head (filter (linked_at b) (all_slots b)) = Some (s, e) →
  linked_at b (s, e) ∧
  ∀ si, si ∈ all_slots b → linked_at b si → si = (s, e) ∨ si ∈ after b s e.
Proof.
  intros Hm. unfold all_slots.
  assert (∀ A (x y : A), match type b with PG_MONOPOLE => x | _ => y end = y) as ->
    by (intros; by destruct (type b)).
  rewrite filter_cons. case_decide as Hl.
  - intros [= <- <-]. split; [done|]. set_solver.
  - intros Hh. destruct (filter_after b b PG_WEST_SIDE 0 s e) as (_&Hl'&_&Hin); [done..|].
    split; [done|]. intros si [->|Hsi]%elem_of_cons Hlsi; [done|]. by apply Hin.
Qed.

(** The slots of [p] that hold a link after some were removed are among those of [b]. *)
Lemma remaining_slots st st' p b si :
  bricks st !! p = Some b → brick_ok b → type b ≠ PG_MONOPOLE → removed_only p st st' → slot st' p si.1 si.2 ≠ None →
  si ∈ all_slots b ∧ linked_at b si.
Proof.
  intros Hp Hb Hm. destruct si as [s i]. intros Hrem Hsl. simpl in *. destruct (slot st p s i) as [[q j]|] eqn:Hs;
    [|by rewrite (removed_only_None _ _ _ _ _ _ Hrem Hs) in Hsl].
  assert (linked_at b (s, i)) as Hl by (eapply linked_at_slot; eauto).
  split; [|done]. apply in_all_slots; [done|]. destruct Hl as (e&He&_).
  by eapply uslot_cap.
Qed.

(** All the links of [p] are gone, unless an error is reported. *)
Definition all_unlinked (p : ptr) (st st' : state W) : Prop :=
  Inv st' ∧ frame st st' ∧ removed_only p st st' ∧
  (pg_error_is_set (errp st') = false → ∀ s i, slot st' p s i = None) ∧
  (quiet all → errp st = None → errp st' = None).

Lemma unlink_monopole st p b :
  Inv st → bricks st !! p = Some b → type b = PG_MONOPOLE →
  wp (pg_brick_generic_unlink all p) (λ _ st', all_unlinked p st st') st.
Proof.
  intros Hinv Hp Hm. pose proof (vb_ok _ _ (inv_brick _ _ Hinv _ _ Hp)) as Hb.
  unfold pg_brick_generic_unlink, all_unlinked. wps. rewrite init_spec by done. wps.
  rewrite Hm. unfold iterator_fuel. rewrite Nat.add_comm. simpl. wps.
  case_bool_decide as Hl; simpl; wps.
  - destruct Hl as (e&He&q&Hq).
    eapply wp_mono; [eapply (do_unlink_only st p b PG_WEST_SIDE 0 q (pair_index e));
      [done..|]|].
    { apply slot_Some. exists b, e. unfold rside, own_side, get_side. rewrite Hm.
      by split_and!. }
    intros [] st1 (Hinv1&Hfr1&Hrem1&Hnone&Hqt). wps.
    destruct (pg_error_is_set (errp st1)) eqn:Her; wps.
    { split_and!; [done..|congruence|done]. }
    destruct (proj2 Hfr1 p b Hp) as (b1&Hp1&Ht1&_&Hms1&_).
    eapply wp_load; [done|]. rewrite next_mono by congruence. wps. simpl. wps.
    split_and!; [done..| |done]. intros _ s i. unfold rside in Hnone. rewrite Hm in Hnone.
    specialize (Hnone eq_refl).
    destruct (slot st1 p s i) as [[q2 j2]|] eqn:Hsl; [|done].
    pose proof Hsl as (b'&e'&?&He'&_&_&Hs)%slot_Some. simplify_eq.
    rewrite (Hs ltac:(congruence)), Hms1 in Hsl.
    assert (i = 0%nat) as ->; [|congruence].
    pose proof (own_union_ok b1 s (vb_ok _ _ (inv_brick _ _ Hinv1 _ _ Hp1))) as Hu.
    unfold union_ok in Hu. rewrite Ht1, Hm in Hu.
    destruct (side_edges (own_side b1 s)); [done|]. simpl in He'. by destruct i.
  - split_and!; [done|apply frame_refl|apply removed_only_refl| |done].
    intros _ s i. destruct (slot st p s i) as [[q j]|] eqn:Hs; [|done]. exfalso.
    apply slot_Some in Hs as (b'&e&?&He&Hq&_). simplify_eq. apply Hl.
    pose proof (own_union_ok b s Hb) as Hu. unfold union_ok in Hu.
    unfold own_side, get_side in *. rewrite Hm in *.
    exists e. simpl. destruct (side_edges (sides b PG_WEST_SIDE)) eqn:Hes; [done|].
    simpl in *. rewrite Hes. destruct i; [|done]. split; [done|]. unfold is_linked. eauto.
Qed.

Lemma unlink_multipole st p b :
  Inv st → bricks st !! p = Some b → type b ≠ PG_MONOPOLE →
  wp (pg_brick_generic_unlink all p) (λ _ st', all_unlinked p st st') st.
Proof.
  intros Hinv Hp Hm. pose proof (vb_ok _ _ (inv_brick _ _ Hinv _ _ Hp)) as Hb.
  unfold pg_brick_generic_unlink, all_unlinked. wps. rewrite init_spec by done. wps.
  assert (∀ A (x y : A), match type b with PG_MONOPOLE => x | _ => y end = y) as ->
    by (intros; by destruct (type b)).
  assert (∀ si, si ∈ all_slots b → linked_at b si → ∃ s e,
    head (filter (linked_at b) (all_slots b)) = Some (s, e)) as Hsome.
  { intros si Hin Hl. destruct (filter (linked_at b) (all_slots b)) as [|[s e] l] eqn:Hf.
    - assert (si ∈ filter (linked_at b) (all_slots b)) as H
        by (by apply list_elem_of_filter). rewrite Hf in H. set_solver.
    - simpl. eauto. }
  destruct (head (filter (linked_at b) (all_slots b))) as [[s e]|] eqn:Hh.
  - assert (linked_at b (s, e) ∧ ∀ si, si ∈ all_slots b → linked_at b si →
      si = (s, e) ∨ si ∈ after b s e) as [Hl Hin] by (by apply head_all_slots).
    pose proof (length_after b s e) as Hlen. unfold cap in Hlen. simpl in Hlen.
    eapply wp_mono; [eapply (unlink_loop_spec p _ _ st b s e); [done..|]|].
    { unfold iterator_fuel. lia. }
    intros [] st' (Hinv'&Hfr&Hrem&Hnone&Hqt). split_and!; [done..| |done].
    intros Her s2 i2. destruct (slot st' p s2 i2) eqn:Hs2; [|done]. exfalso.
    destruct (remaining_slots st st' p b (s2, i2)) as [Hal Hl2]; [done..|simpl; congruence|].
    destruct (Hin _ Hal Hl2) as [H|H]; by rewrite Hnone in Hs2 by auto.
  - unfold iterator_fuel. rewrite Nat.add_comm. simpl. wps.
    split_and!; [done|apply frame_refl|apply removed_only_refl| |done].
    intros _ s i. destruct (slot st p s i) eqn:Hs; [|done]. exfalso.
    destruct (remaining_slots st st p b (s, i)) as [Hal Hl];
      [done..|apply removed_only_refl|simpl; congruence|].
    by destruct (Hsome _ Hal Hl) as (?&?&?).
Qed.

Lemma generic_unlink_spec st p b :
  Inv st → bricks st !! p = Some b →
  wp (pg_brick_generic_unlink all p) (λ _ st',
    Inv st' ∧ frame st st' ∧ removed_only p st st' ∧
    (pg_error_is_set (errp st') = false → ∀ s i, slot st' p s i = None) ∧
    (quiet all → errp st = None → errp st' = None)) st.
Proof.
  intros Hinv Hp. destruct (decide (type b = PG_MONOPOLE)); [by eapply unlink_monopole|by eapply unlink_multipole].
Qed.

(** ** Linking *)

(** The conditions [pg_brick_link] checks. *)
Definition can_link (w : ptr) wb (e : ptr) eb : Prop :=
  w ≠ e ∧ is_place_available eb PG_WEST_SIDE = true
  ∧ is_place_available wb PG_EAST_SIDE = true.

Global Instance can_link_dec w wb e eb : Decision (can_link w wb e eb).
Proof. unfold can_link. apply _. Defined.

Lemma R_link st L w wb e eb wi ei ew ee :
  R st L → bricks st !! w = Some wb → bricks st !! e = Some eb → can_link w wb e eb →
  free_slot (side_edges (own_side wb PG_EAST_SIDE)) = Some wi →
  uslot (side_edges (own_side wb PG_EAST_SIDE)) wi = Some ew →
  free_slot (side_edges (own_side eb PG_WEST_SIDE)) = Some ei →
  uslot (side_edges (own_side eb PG_WEST_SIDE)) ei = Some ee →
  abs_link L w e ({[mk_link w wi e ei]} ∪ L) ∧
  R (linked all st w wi wb e ei eb) ({[mk_link w wi e ei]} ∪ L).
Proof.
  intros [Hinv HL] Hw He (Hne&Hae&Haw) Hfw Huw Hfe Hue. split.
  - constructor; [done| |].
    + intros [w' wi' e' ei'] Hl%HL [Heq1 Heq2]. simpl in Heq1, Heq2. subst.
      by erewrite slot_free_w in Hl by done.
    + intros [w' wi' e' ei'] Hl%HL%(inv_sym _ _ Hinv) [Heq1 Heq2]. simpl in Heq1, Heq2.
      subst. destruct Hl as [_ Hl]. simpl in Hl. by erewrite slot_free_e in Hl by done.
  - split; [by eapply linked_Inv|]. intros w' wi' e' ei'.
    rewrite elem_of_union, elem_of_singleton, HL. erewrite slot_linked by done.
    destruct (decide ((w', PG_EAST_SIDE, wi') = (w, PG_EAST_SIDE, wi))) as [[= -> ->]|Hn1].
    + erewrite slot_free_w by done. naive_solver.
    + rewrite decide_False by done. naive_solver.
Qed.

Lemma link_spec st L w wb e eb :
  R st L → bricks st !! w = Some wb → bricks st !! e = Some eb →
  wp (pg_brick_link all (Some w) (Some e)) (λ r st',
    if decide (can_link w wb e eb)
    then r = 0 ∧ errp st' = errp st ∧ ∃ L', abs_link L w e L' ∧ R st' L'
    else r = -1 ∧ bricks st' = bricks st ∧ world st' = world st ∧
         pg_error_is_set (errp st') = true) st.
Proof.
  intros HR Hw He. pose proof (R_inv _ _ HR) as Hinv.
  pose proof (inv_brick _ _ Hinv _ _ Hw) as Hvw.
  pose proof (inv_brick _ _ Hinv _ _ He) as Hve.
  destruct (decide (can_link w wb e eb)) as [(Hne&Hae&Haw)|Hn].
  - pose proof Hae as Hae'. pose proof Haw as Haw'. rewrite is_place_nb in Hae', Haw'.
    destruct (place_free (type wb) (own_side wb PG_EAST_SIDE)) as [wi Hwi];
      [apply Hvw|lia|].
    destruct (place_free (type eb) (own_side eb PG_WEST_SIDE)) as [ei Hei];
      [apply Hve|lia|].
    destruct (free_slot_Some _ _ Hwi) as (ew&Hew&_).
    destruct (free_slot_Some _ _ Hei) as (ee&Hee&_).
    eapply wp_pg_brick_link; [done..|]. split_and!; [done..|].
    eexists. by eapply (R_link st L w wb e eb).
  - unfold pg_brick_link. rewrite wp_bind. eapply wp_is_valid; [done..|].
    rewrite wp_bind. eapply wp_is_valid; [done..|]. simpl.
    destruct (decide (w = e)) as [->|Hne]; [by unfold set_error; wps|]. wps.
    destruct (is_place_available eb PG_WEST_SIDE) eqn:Hae; simpl;
      [|by unfold set_error; wps].
    destruct (is_place_available wb PG_EAST_SIDE) eqn:Haw; simpl;
      [|by unfold set_error; wps].
    by destruct Hn.
Qed.

(** ** Unlinking a brick *)

Definition without (p : ptr) (L : gset glink) : gset glink := filter (λ l, ¬ touches p l) L.

Lemma R_unlinked st L st' p :
  R st L → Inv st' → removed_only p st st' → (∀ s i, slot st' p s i = None) →
  R st' (without p L).
Proof.
  intros [Hinv HL] Hinv' Hrem Hnone. split; [done|]. intros w wi e ei.
  unfold without. rewrite elem_of_filter, HL. unfold touches. simpl. split.
  - intros [Ht Hs]. destruct (Hrem w PG_EAST_SIDE wi) as [->|[_ [->|[j Hj]]]];
      [done|naive_solver|]. rewrite Hj in Hs. naive_solver.
  - intros Hs. pose proof (inv_sym _ _ Hinv' _ _ _ _ _ Hs) as [_ Hs'].
    split; [intros [H|H]; subst; by rewrite Hnone in *|].
    destruct (Hrem w PG_EAST_SIDE wi) as [E|[E _]]; congruence.
Qed.

Lemma unlink_spec st L p b o :
  R st L → bricks st !! p = Some b → brick_ops b = Some o → op_unlink o = true →
  wp (pg_brick_unlink all (Some p)) (λ _ st',
    Inv st' ∧ frame st st' ∧ removed_only p st st' ∧
    (pg_error_is_set (errp st') = false →
       R st' (without p L) ∧ ∀ s i, slot st' p s i = None) ∧
    (quiet all → errp st = None → errp st' = None)) st.
Proof.
  intros HR Hp Ho Hu. pose proof (R_inv _ _ HR) as Hinv.
  unfold pg_brick_unlink. rewrite wp_bind.
  eapply wp_is_valid; [done|by eapply inv_brick|]. wps. rewrite Ho. wps. rewrite Hu.
  eapply wp_mono; [by eapply generic_unlink_spec|].
  intros [] st' (Hinv'&Hfr&Hrem&Hnone&Hq). split_and!; [done..| |done].
  intros Her. split; [|by apply Hnone]. eapply R_unlinked; eauto.
Qed.

(** ** Destruction *)

Lemma slot_delete st p w' er k s i :
  (∀ c, k ≠ p → mside w' k c = mside (world st) k c) →
  slot (mk_state (delete p (bricks st)) w' er) k s i =
  if decide (k = p) then None else slot st k s i.
Proof.
  intros Hw. unfold BrickInv.slot. simpl. case_decide as Hk.
  - subst. by rewrite lookup_delete_eq.
  - rewrite lookup_delete_ne by done. destruct (bricks st !! k) as [c|]; [|done].
    simpl. by rewrite Hw.
Qed.

Lemma unlinked_refcount st p b :
  Inv st → bricks st !! p = Some b → (∀ s i, slot st p s i = None) → refcount b = 1.
Proof.
  intros Hinv Hp Hnone. pose proof (inv_brick _ _ Hinv _ _ Hp) as Hv.
  pose proof (vb_ok _ _ Hv) as Hb. rewrite (bo_ref _ Hb).
  assert (∀ s, side_nb (sides b s) = 0) as H0.
  { intros s. rewrite (so_nb _ _ (bo_side _ Hb s)).
    destruct (ulinks (side_edges (sides b s))) as [|n] eqn:Hn; [done|]. exfalso.
    assert (∃ i e q, uslot (side_edges (sides b s)) i = Some e ∧ link e = Some q)
      as (i&e&q&He&Hq).
    { unfold ulinks in Hn. destruct (filter is_linked _) as [|e l] eqn:Hf; [done|].
      assert (e ∈ filter is_linked (edge_list (side_edges (sides b s)))) as Hin
        by (rewrite Hf; set_solver).
      apply list_elem_of_filter in Hin as [[q Hq] Hin].
      apply list_elem_of_lookup in Hin as [i Hi]. exists i, e, q. split; [|done].
      destruct (side_edges (sides b s)); [done|]. by destruct i. }
    destruct (decide (type b = PG_MONOPOLE)) as [Hm|Hm].
    - assert (s = PG_WEST_SIDE) as ->.
      { destruct s; [done|]. pose proof (bo_mono _ Hb Hm). simpl in Hn. lia. }
      assert (slot st p (mside (world st) p b) i = Some (q, pair_index e)) as Hs.
      { apply slot_Some. exists b, e. unfold own_side, get_side. rewrite Hm. by split_and!. }
      by rewrite Hnone in Hs.
    - assert (slot st p s i = Some (q, pair_index e)) as Hs.
      { apply slot_Some. exists b, e. unfold own_side, get_side.
        destruct (type b); by split_and!. }
      by rewrite Hnone in Hs. }
  pose proof (H0 PG_WEST_SIDE). pose proof (H0 PG_EAST_SIDE). simpl in *. lia.
Qed.

Lemma decref_last_spec st L p b :
  R st L → bricks st !! p = Some b → (∀ s i, slot st p s i = None) →
  wp (pg_brick_decref all (Some p)) (λ r st',
    r = None ∧ bricks st' = delete p (bricks st) ∧ R st' L) st.
Proof.
  intros HR Hp Hnone. pose proof (R_inv _ _ HR) as Hinv.
  pose proof (inv_brick _ _ Hinv _ _ Hp) as Hv.
  unfold pg_brick_decref. wps. rewrite (unlinked_refcount st p b) by done. simpl.
  destruct (vb_ops _ _ Hv) as [o Ho]. rewrite wp_bind. unfold is_brick_valid. wps. simpl.
  rewrite bool_decide_eq_true_2
    by (unfold Brick.brick_ops in Ho; by destruct (ops b); eauto). simpl.
  change (Brick.brick_ops all (set_refcount b (1 - 1))) with (brick_ops b).
  rewrite Ho. wps.
  assert (∀ w' er, (∀ k c, k ≠ p → mside w' k c = mside (world st) k c) →
    R (mk_state (delete p (bricks st)) w' er) L) as HRdel.
  { intros w' er Hw'. split.
    - split.
      + simpl. intros k c [_ Hk]%lookup_delete_Some. by eapply inv_brick.
      + intros k s i q j. rewrite slot_delete by auto. case_decide as Hkp; [done|].
        intros Hk. pose proof (inv_sym _ _ Hinv _ _ _ _ _ Hk) as [Hkq Hq].
        split; [done|]. rewrite slot_delete by auto.
        rewrite decide_False; [done|]. intros ->. by rewrite Hnone in Hq.
    - intros w wi e ei. rewrite (R_links _ _ HR), slot_delete by auto.
      case_decide as Hwp; [|done]. subst. by rewrite Hnone. }
  destruct (op_destroy o) as [f|] eqn:Hd; wps.
  - unfold upd_bricks. simpl. rewrite delete_insert_eq. split_and!; [done..|].
    apply HRdel. intros k c Hk. unfold BrickInv.mside.
    destruct (brick_ops c) as [o'|] eqn:Ho'; [|done]. simpl.
    destruct (op_get_side o') as [g|] eqn:Hg; [|done].
    by apply (law_destroy o o'); [eapply brick_ops_elem..| | |].
  - unfold upd_bricks. simpl. rewrite delete_insert_eq. split_and!; [done..|].
    by apply HRdel.
Qed.

Lemma R_errp st L er : R st L → R (mk_state (bricks st) (world st) er) L.
Proof. intros [[Hb Hs] HL]. split; [split|]; done. Qed.

Lemma destroy_spec st L p b o :
  R st L → bricks st !! p = Some b → brick_ops b = Some o → op_unlink o = true →
  quiet all →
  wp (pg_brick_destroy all (Some p)) (λ _ st',
    dom (bricks st') = dom (bricks st) ∖ {[p]} ∧ errp st' = errp st ∧
    R st' (without p L)) st.
Proof.
  intros HR Hp Ho Hu Hq. unfold pg_brick_destroy. wps.
  eapply wp_mono; [eapply unlink_spec; [by apply R_errp|done..]|].
  intros [] st1 (Hinv1&Hfr1&_&HR1&Herr). specialize (Herr Hq eq_refl).
  rewrite Herr in HR1. destruct (HR1 eq_refl) as [HR1' Hnone].
  destruct (proj2 Hfr1 p b Hp) as (b1&Hp1&_). wps.
  eapply wp_mono; [by eapply decref_last_spec|].
  intros r st2 (_&Hb2&HR2). wps. split_and!; [|done|by apply R_errp].
  rewrite Hb2, dom_delete_L. f_equal. apply Hfr1.
Qed.

(** ** Unlinking one edge *)

(** Reading a slot below the maximum of the side gives its edge. *)
Lemma get_edge_max b s i :
  brick_ok b → (i < Z.to_nat (side_max (own_side b s)))%nat →
  ∃ e, pg_brick_get_edge b s i = Some (Some e)
       ∧ uslot (side_edges (own_side b s)) i = Some e.
Proof.
  intros Hb Hi. pose proof (own_union_ok b s Hb) as Hu.
  assert (∃ e, uslot (side_edges (own_side b s)) i = Some e) as [e He].
  { unfold union_ok in Hu. destruct (side_edges (own_side b s)) as [es|e]; simpl.
    - destruct (type b); try done. apply lookup_lt_is_Some. lia.
    - destruct i; [eauto|]. destruct (type b); try done; lia. }
  exists e. split; [|done]. by apply get_edge_uslot.
Qed.

Lemma linked_below_max b s i e q :
  brick_ok b → uslot (side_edges (own_side b s)) i = Some e → link e = Some q →
  (i < Z.to_nat (side_max (own_side b s)))%nat.
Proof.
  intros Hb He Hl. pose proof (own_union_ok b s Hb) as Hu.
  pose proof (bo_side _ Hb (get_side b s)) as Hs. fold (own_side b s) in Hs.
  unfold union_ok in Hu. pose proof (so_room _ _ Hs) as Hr. rewrite (so_nb _ _ Hs) in Hr.
  destruct (side_edges (own_side b s)) as [es|e1] eqn:Hes; simpl in He.
  - apply lookup_lt_Some in He. destruct (type b); try done. lia.
  - destruct i; [|done]. injection He as ->. unfold ulinks in Hr. simpl in Hr.
    rewrite filter_cons, decide_True in Hr by (unfold is_linked; eauto). simpl in Hr. lia.
Qed.

(** The search stops at the first edge to [e], if there is one. *)
Lemma find_edge_spec st b e i n (Q : option (option nat) → state W → Prop) :
  brick_ok b → (i + n = Z.to_nat (side_max (own_side b PG_EAST_SIDE)))%nat →
  (∀ j ed, uslot (side_edges (own_side b PG_EAST_SIDE)) j = Some ed →
     link ed = Some e → Q (Some (Some j)) st) →
  ((∀ j ed, uslot (side_edges (own_side b PG_EAST_SIDE)) j = Some ed →
     (i ≤ j)%nat → link ed ≠ Some e) → Q (Some None) st) →
  wp (find_edge_to b e i n) Q st.
Proof.
  intros Hb. revert i. induction n as [|n IH]; intros i Hin Hs Hnone; simpl; wps.
  - apply Hnone. intros j ed Hj Hij Hl. pose proof (linked_below_max _ _ _ _ _ Hb Hj Hl). lia.
  - destruct (get_edge_max b PG_EAST_SIDE i Hb) as (ed&Hg&Hed); [lia|].
    rewrite Hg. wps. case_decide as Hl; wps; [by eapply Hs|].
    apply IH; [lia|done|]. intros Hall. apply Hnone. intros j ed' Hj Hij.
    destruct (decide (j = i)) as [->|]; [congruence|]. eapply Hall; [done|lia].
Qed.

(** Some link joins [w] to [e]; a monopole is looked up on both of its sides. *)
Definition joins b (w e : ptr) (l : glink) : Prop :=
  l_west l = w ∧ l_east l = e ∨ type b = PG_MONOPOLE ∧ l_west l = e ∧ l_east l = w.

(** The link held by slot [(k, s, i)]. *)
Definition link_of (s : pg_side) k i q j : glink :=
  match s with PG_EAST_SIDE => mk_link k i q j | PG_WEST_SIDE => mk_link q j k i end.

Lemma R_link_at st L k s i q j :
  R st L → slot st k s i = Some (q, j) →
  link_of s k i q j ∈ L.
Proof.
  intros HR Hs. destruct s; apply (R_links _ _ HR); [|done].
  by apply (inv_sym _ _ (R_inv _ _ HR)) in Hs as [_ Hs].
Qed.

Lemma R_removed st L st' p s i q j :
  R st L → Inv st' → slot st p s i = Some (q, j) →
  (∀ k s2 i2, slot st' k s2 i2 =
    if decide ((k, s2, i2) = (p, s, i)) then None
    else if decide ((k, s2, i2) = (q, pg_flip_side s, j)) then None
    else slot st k s2 i2) →
  R st' (L ∖ {[link_of s p i q j]}).
Proof.
  intros HR Hinv' Hs Hsl. split; [done|]. intros w wi e ei.
  pose proof (inv_sym _ _ (R_inv _ _ HR) _ _ _ _ _ Hs) as [_ Hs'].
  rewrite elem_of_difference, elem_of_singleton, (R_links _ _ HR), Hsl.
  destruct s; simpl in *; repeat case_decide; simplify_eq; naive_solver.
Qed.

Lemma unlink_edge_spec st L w wb e eb :
  R st L → bricks st !! w = Some wb → bricks st !! e = Some eb → errp st = None →
  wp (pg_brick_unlink_edge all (Some w) (Some e)) (λ r st',
    (r = 0 ∧ errp st' = None ∧ ∃ l, l ∈ L ∧ joins wb w e l ∧ R st' (L ∖ {[l]})) ∨
    (r = -1 ∧ pg_error_is_set (errp st') = true ∧ R st' L ∧
     ((∀ l, l ∈ L → ¬ joins wb w e l) ∨ ¬ quiet all))) st.
Proof.
  intros HR Hw He Hnoerr. pose proof (R_inv _ _ HR) as Hinv.
  pose proof (inv_brick _ _ Hinv _ _ Hw) as Hvw.
  unfold pg_brick_unlink_edge. wps. eapply wp_is_valid; [done..|]. wps.
  eapply wp_is_valid; [done|by eapply inv_brick|]. wps. fold (own_side wb PG_EAST_SIDE).
  apply find_edge_spec; [apply Hvw|lia|..].
  - intros i ed Hi Hl.
    assert (slot st w (rside all st w wb PG_EAST_SIDE) i = Some (e, pair_index ed)) as Hs.
    { apply slot_Some. exists wb, ed. unfold rside, own_side, get_side in *.
      destruct (type wb); by split_and!. }
    pose proof (R_link_at _ _ _ _ _ _ _ HR Hs) as Hin. wps.
    eapply wp_mono; [by eapply do_unlink_spec|].
    intros [] st' (Hinv'&_&_&Hsl). wps. destruct (errp st') eqn:Her; simpl in *.
    + right. destruct Hsl as [Hsl Hnq]. split_and!; [done..| |right; naive_solver].
      split; [done|]. intros *. rewrite Hsl. apply HR.
    + left. split_and!; [done..|]. eexists. split_and!; [exact Hin| |].
      * unfold joins, rside. destruct (type wb) eqn:Ht; simpl; [by left| |by left].
        destruct (BrickInv.mside _ _ _ _); simpl; [by right|by left].
      * by apply (R_removed st L st' w (rside all st w wb PG_EAST_SIDE) i).
  - intros Hno. unfold set_error. wps. right. split_and!; [done..|by apply R_errp|].
    left. intros [w' wi e' ei] Hin Hj. unfold joins in Hj. simpl in Hj.
    apply (R_links _ _ HR) in Hin.
    assert (∃ s i j, slot st w s i = Some (e, j) ∧ (type wb = PG_MONOPOLE ∨ s = PG_EAST_SIDE))
      as (s&i&j&Hs&Hor).
    { destruct Hj as [[E1 E2]|(Hm & E1 & E2)]; subst; [by eauto 8|].
      apply (inv_sym _ _ Hinv) in Hin as [_ Hin]. eauto 8. }
    apply slot_Some in Hs as (b'&ed&?&Hu&Hl&_). simplify_eq.
    eapply (Hno i ed); [|lia|done]. unfold own_side, get_side in *.
    destruct Hor as [Hm|E]; [by rewrite Hm in *|by subst s].
Qed.

(** ** Creation *)

(** The fields of a brick that [pg_brick_new] makes. *)
Definition new_brick (config : pg_brick_config C) (i : nat) b : Prop :=
  ops b = Some i ∧ burst b = true ∧ refcount b = 1 ∧ name b = cfg_name config ∧
  type b = cfg_type config ∧
  side_max (west_side b) = west_max config ∧ side_max (east_side b) = east_max config ∧
  side_nb (west_side b) = 0 ∧ side_nb (east_side b) = 0 ∧
  ∀ s i e, uslot (side_edges (sides b s)) i = Some e → e = null_edge.

Lemma check_side_max_None (config : pg_brick_config C) :
  check_side_max config = None → 0 ≤ west_max config → 0 ≤ east_max config →
  west_max config < UINT16_MAX ∧ east_max config < UINT16_MAX ∧
  (cfg_type config ≠ PG_MULTIPOLE → west_max config ≤ 1 ∧ east_max config ≤ 1).
Proof.
  unfold check_side_max, UINT16_MAX. intros H ? ?.
  destruct (Z.leb_spec 65535 (west_max config)), (Z.leb_spec 65535 (east_max config)),
    (Z.ltb_spec 1 (west_max config)), (Z.ltb_spec 1 (east_max config)),
    (cfg_type config); simpl in H; try done; split_and!; (lia || done).
Qed.

Lemma ulinks_new t n : ulinks (new_union t n) = 0%nat.
Proof.
  unfold new_union, ulinks.
  assert (∀ l, Forall (λ e, ¬ is_linked e) l → length (filter is_linked l) = 0%nat) as H.
  { induction 1; [done|]. rewrite filter_cons, decide_False by done. done. }
  assert (¬ is_linked null_edge) by (apply is_Some_None).
  destruct t; [|done..]. by apply H, Forall_replicate.
Qed.

Lemma uslot_new t n j e : uslot (new_union t n) j = Some e → e = null_edge.
Proof.
  destruct t; simpl; [by intros [? _]%lookup_replicate|by destruct j; intros [= <-]..].
Qed.

Lemma new_side_ok t n :
  0 ≤ n < UINT16_MAX → (t ≠ PG_MULTIPOLE → n ≤ 1) →
  side_ok t (mk_side n 0 (new_union t n)).
Proof.
  intros Hn Ht. split; simpl; [|done|by rewrite ulinks_new|lia].
  unfold union_ok. destruct t; simpl; [rewrite length_replicate; lia|by apply Ht..].
Qed.

Lemma alloc_edges_spec (config : pg_brick_config C) i ob op b :
  check_side_max config = None → 0 ≤ west_max config → 0 ≤ east_max config →
  alloc_edges (set_fast_path (set_name (pg_brick_set_max_edges
    (blank_brick i (cfg_type config)) (west_max config) (east_max config))
    (cfg_name config)) ob op) = Some b →
  ob = true → new_brick config i b ∧ brick_ok b.
Proof.
  intros Hc Hw He Ha ->. destruct (check_side_max_None _ Hc Hw He) as (Hw'&He'&Ht).
  unfold UINT16_MAX in *.
  assert (b = mk_brick (Some i) true op 1 (cfg_name config) (cfg_type config)
    (mk_side (west_max config) 0 (new_union (cfg_type config) (west_max config)))
    (mk_side (east_max config) 0 (new_union (cfg_type config) (east_max config)))) as ->.
  { unfold alloc_edges in Ha. simpl in Ha. rewrite !u16_small in Ha by lia.
    destruct (cfg_type config); simpl in Ha |- *; [case_match; [done|]|..]; by injection Ha as <-. }
  split.
  - unfold new_brick. split_and!; try done. intros []; apply uslot_new.
  - split; simpl.
    + intros []; apply new_side_ok; simpl; unfold UINT16_MAX; naive_solver lia.
    + done.
    + intros _. apply ulinks_new.
Qed.

Lemma R_insert st L p b w er :
  R st L → bricks st !! p = None → valid_brick all b →
  (∀ s i e, uslot (side_edges (sides b s)) i = Some e → e = null_edge) →
  (∀ k c, k ≠ p → mside w k c = mside (world st) k c) →
  R (mk_state (<[p := b]> (bricks st)) w er) L ∧
  ∀ s i, slot (mk_state (<[p := b]> (bricks st)) w er) p s i = None.
Proof.
  intros [Hinv HL] Hp Hv Hnull Hw.
  set (st' := mk_state (<[p := b]> (bricks st)) w er).
  assert (∀ k s i, slot st' k s i = slot st k s i) as Heq.
  { intros k s i. destruct (decide (k = p)) as [->|Hk].
    - assert (slot st p s i = None) as -> by (unfold BrickInv.slot; by rewrite Hp).
      destruct (slot st' p s i) as [[q j]|] eqn:Hs; [|done]. exfalso.
      apply slot_Some in Hs as (b'&e&Hb'&Hu&Hl&_). simpl in Hb'. simplify_map_eq.
      apply Hnull in Hu. by subst e.
    - unfold BrickInv.slot, st'. simpl. rewrite lookup_insert_ne by done.
      destruct (bricks st !! k) as [c|]; [|done]. simpl. by rewrite Hw. }
  split; [split; [split|]|].
  - simpl. intros k c [[_ <-]|[_ Hk]]%lookup_insert_Some; [done|by eapply inv_brick].
  - intros k s i q j. rewrite !Heq. apply Hinv.
  - intros *. rewrite Heq. apply HL.
  - intros s i. rewrite Heq. unfold BrickInv.slot. by rewrite Hp.
Qed.

Lemma R_world st L w er :
  R st L → (∀ k c, is_Some (bricks st !! k) → mside w k c = mside (world st) k c) →
  R (mk_state (bricks st) w er) L.
Proof.
  intros [Hinv HL] Hw.
  assert (∀ k s i, slot (mk_state (bricks st) w er) k s i = slot st k s i) as Heq.
  { intros k s i. unfold BrickInv.slot. simpl. destruct (bricks st !! k) as [c|] eqn:Hk; [|done].
    simpl. rewrite Hw by (rewrite Hk; eauto). done. }
  split; [split; [apply Hinv|]|].
  - intros k s i q j. rewrite !Heq. apply Hinv.
  - intros *. rewrite Heq. apply HL.
Qed.

Lemma mside_init o p b c er (w : W) k c' :
  o ∈ all → k ≠ p → mside (io_world (op_init o p b c er w)) k c' = mside w k c'.
Proof.
  intros Ho Hk. unfold BrickInv.mside. destruct (brick_ops c') as [o'|] eqn:Ho'; [|done].
  simpl. destruct (op_get_side o') as [g|] eqn:Hg; [|done].
  by apply (law_init o o'); [|eapply brick_ops_elem|..].
Qed.

Lemma new_spec st L nm config :
  R st L →
  (∀ c, config = Some c → 0 ≤ west_max c ∧ 0 ≤ east_max c) →
  (∀ c n i o, config = Some c → nm = Some n → find_ops all n = Some (i, o) →
     cfg_type c = PG_MONOPOLE → is_Some (op_get_side o)) →
  wp (pg_brick_new all nm config) (λ r st',
    R st' L ∧
    match r with
    | None => bricks st' = bricks st ∧ pg_error_is_set (errp st') = true
    | Some p => ∃ c n i o b, config = Some c ∧ nm = Some n ∧ find_ops all n = Some (i, o) ∧
        check_side_max c = None ∧ p ∉ dom (bricks st) ∧
        bricks st' = <[p := b]> (bricks st) ∧
        new_brick c i b ∧ ∀ s i, slot st' p s i = None
    end) st.
Proof.
  intros HR Hpos Hmono. unfold pg_brick_new.
  assert (∀ e, wp (set_error e;; mret (@None ptr)) (λ r st', R st' L ∧
    match r with None => bricks st' = bricks st ∧ pg_error_is_set (errp st') = true
    | Some _ => False end) st) as Hfail.
  { intros e. unfold set_error. wps. split; [by apply R_errp|done]. }
  destruct config as [c|]; [|eapply wp_mono; [apply Hfail|by intros [] ? [??]]].
  destruct nm as [n|]; [|eapply wp_mono; [apply Hfail|by intros [] ? [??]]].
  destruct (find_ops all n) as [[i o]|] eqn:Hf;
    [|eapply wp_mono; [apply Hfail|by intros [] ? [??]]].
  destruct (op_state_size o <=? 0); [eapply wp_mono; [apply Hfail|by intros [] ? [??]]|].
  destruct (check_side_max c) eqn:Hc; [eapply wp_mono; [apply Hfail|by intros [] ? [??]]|].
  clear Hfail. wps.
  set (p := fresh (dom (bricks st))). set (b0 := set_name _ _).
  set (out := op_init o p b0 c (errp st) (world st)).
  assert (p ∉ dom (bricks st)) as Hp by apply is_fresh.
  assert (all !! i = Some o) as Hio.
  { unfold find_ops in Hf. by apply list_find_Some in Hf as (?&_). }
  assert (o ∈ all) as Ho by (by eapply list_elem_of_lookup_2).
  assert (∀ er, R (mk_state (bricks st) (io_world out) er) L) as Hworld.
  { intros er. apply R_world; [done|]. intros k c' Hk. apply mside_init; [done|].
    intros ->. by apply Hp, elem_of_dom. }
  destruct (Z.ltb_spec (io_ret out) 0) as [Hret|Hret]; wps.
  - destruct (pg_error_is_set (io_errp out)) eqn:He; unfold set_error; wps; auto.
  - assert (io_burst out = true) as Hbu by (by apply law_burst). simpl.
    rewrite Hbu. wps.
    destruct (alloc_edges _) as [b|] eqn:Ha; [|unfold set_error; wps; auto]. wps.
    destruct (Hpos c eq_refl) as [Hw0 He0].
    destruct (alloc_edges_spec c i true (io_poll out) b) as [Hnb Hok]; [done..|].
    assert (brick_ops b = Some o) as Hbo.
    { unfold Brick.brick_ops. by rewrite (proj1 Hnb). }
    assert (valid_brick all b) as Hv.
    { split; [done|by rewrite Hbo|]. rewrite Hbo. simpl. intros Hm.
      apply (Hmono c n i o); [done..|]. destruct Hnb as (_&_&_&_&<-&_). done. }
    destruct (R_insert st L p b (io_world out) (io_errp out)) as [HR' Hnone];
      [done|by apply not_elem_of_dom|done|apply Hnb|by intros; apply mside_init|].
    split; [done|]. exists c, n, i, o, b. by split_and!.
Qed.

End Spec.
