(* ===== verification/BrickApi.v ===== *)
(** * Bricks: the theorems of the graph-construction interface

    The public operations of [src/brick.c] (creation, linking, unlinking,
    destruction) against the abstract set of links of [BrickSpec], the states
    reachable through them, and a small table of operations on which the
    theorems are instantiated. *)

From S2P Require Import Prelude Common Brick BrickInv BrickSpec.

(** ** A concrete table of operations

    The operations of the nop, hub and rxtx bricks as far as [brick.c] sees
    them: rxtx is a monopole that remembers the side it is linked on. *)

Local Abbreviation side_world := (gmap ptr pg_side).

Definition plain_init {W C} (p : ptr) (b : pg_brick) (c : pg_brick_config C)
    (er : option pg_error) (w : W) : init_out (W := W) := mk_init_out 0 true false er w.

Definition ops_nop : pg_brick_ops side_world () :=
  mk_ops "nop" 64 plain_init None true None None None None None None.

Definition ops_hub : pg_brick_ops side_world () :=
  mk_ops "hub" 64 plain_init None true None None None None None None.

Definition ops_rxtx : pg_brick_ops side_world () :=
  mk_ops "rxtx" 64 plain_init None true None None
    (Some (λ p s _ w, <[p := pg_flip_side s]> w))
    (Some (λ p w, pg_flip_side (default PG_WEST_SIDE (w !! p)))) None None.

Definition demo_ops : list (pg_brick_ops side_world ()) := [ops_nop; ops_hub; ops_rxtx].

Lemma demo_cases o : o ∈ demo_ops → o = ops_nop ∨ o = ops_hub ∨ o = ops_rxtx.
Proof. unfold demo_ops. rewrite !elem_of_cons. set_solver. Qed.

Ltac demo_case :=
  repeat match goal with
  | H : _ ∈ demo_ops |- _ => apply demo_cases in H as [H|[H|H]]; subst
  end; simplify_eq/=.

Global Instance demo_laws : BrickLaws demo_ops.
Proof.
  split.
  - intros. demo_case. eauto.
  - intros. demo_case. rewrite lookup_insert_eq. apply flip_flip.
  - intros. demo_case. by rewrite lookup_insert_ne.
  - intros. demo_case.
  - intros. demo_case.
  - intros. by demo_case.
  - intros. by demo_case.
Qed.

Lemma demo_quiet : quiet demo_ops.
Proof. unfold quiet. intros. demo_case. Qed.

Definition demo_config (n : string) (west east : Z) (t : pg_brick_type)
    : pg_brick_config () := pg_brick_config_new tt n west east t.

Definition demo_brick (i : nat) (c : pg_brick_config ()) : pg_brick :=
  mk_brick (Some i) true false 1 (cfg_name c) (cfg_type c)
    (mk_side (west_max c) 0 (new_union (cfg_type c) (west_max c)))
    (mk_side (east_max c) 0 (new_union (cfg_type c) (east_max c))).

Definition demo_nop := demo_brick 0 (demo_config "nop1" 1 1 PG_DIPOLE).
Definition demo_hub := demo_brick 1 (demo_config "hub1" 3 2 PG_MULTIPOLE).
Definition demo_rxtx := demo_brick 2 (demo_config "rxtx1" 1 1 PG_MONOPOLE).

(** Three unlinked bricks: a nop at 1, a hub at 2 and an rxtx at 3. *)
Definition demo_state : state side_world :=
  mk_state (<[3%positive := demo_rxtx]> (<[2%positive := demo_hub]>
    (<[1%positive := demo_nop]> ∅))) ∅ None.

Lemma R_empty {W C} (all : list (pg_brick_ops W C)) w er : R all (mk_state ∅ w er) ∅.
Proof.
  split; [split|]; simpl.
  - intros p b. by rewrite lookup_empty.
  - intros p s i q j. unfold slot. simpl. by rewrite lookup_empty.
  - intros. unfold slot. simpl. rewrite lookup_empty. set_solver.
Qed.

Lemma demo_valid i c :
  check_side_max c = None → 0 ≤ west_max c → 0 ≤ east_max c →
  is_Some (demo_ops !! i) →
  (cfg_type c = PG_MONOPOLE → i = 2%nat) →
  valid_brick demo_ops (demo_brick i c).
Proof.
  intros Hc Hw He [o Ho] Hm. destruct (check_side_max_None _ Hc Hw He) as (?&?&?).
  split.
  - split; simpl; [|done|intros _; apply ulinks_new].
    intros []; apply new_side_ok; unfold UINT16_MAX in *; naive_solver lia.
  - unfold brick_ops. simpl. rewrite Ho. eauto.
  - unfold brick_ops. simpl. intros ->%Hm. simpl. eauto.
Qed.

Lemma demo_R : R demo_ops demo_state ∅.
Proof.
  unfold demo_state.
  pose proof (R_empty demo_ops ∅ None) as H0.
  assert (∀ i c s j e, uslot (side_edges (sides (demo_brick i c) s)) j = Some e →
    e = null_edge) as Hnull by (intros i c []; apply uslot_new).
  eapply (R_insert _ _ _ 1%positive demo_nop ∅ None) in H0 as [H1 _];
    [|done|by apply demo_valid; eauto|apply Hnull|done].
  eapply (R_insert _ _ _ 2%positive demo_hub ∅ None) in H1 as [H2 _];
    [|done|by apply demo_valid; eauto|apply Hnull|done].
  eapply (R_insert _ _ _ 3%positive demo_rxtx ∅ None) in H2 as [H3 _];
    [|done|by apply demo_valid; eauto|apply Hnull|done].
  exact H3.
Qed.

(** ** The states reachable through the interface *)

Section Api.

Context {W C : Type} (all : list (pg_brick_ops W C)).

Inductive api_call :=
  | New (nm : option string) (config : option (pg_brick_config C))
  | Link (west east : ptr)
  | Unlink (p : ptr)
  | UnlinkEdge (west east : ptr)
  | Destroy (p : ptr).

Definition run_call (c : api_call) : M (state W) unit :=
  match c with
  | New nm config => pg_brick_new all nm config;; mret tt
  | Link w e => pg_brick_link all (Some w) (Some e);; mret tt
  | Unlink p => pg_brick_unlink all (Some p)
  | UnlinkEdge w e => pg_brick_unlink_edge all (Some w) (Some e);; mret tt
  | Destroy p => pg_brick_destroy all (Some p)
  end.

(** A call is legal when the bricks it names are alive; the counts of a
    configuration are unsigned and a monopole is made only of a kind of brick
    that answers [get_side]. *)
Definition unlinkable (st : state W) (p : ptr) : Prop :=
  ∃ b o, bricks st !! p = Some b ∧ brick_ops all b = Some o ∧ op_unlink o = true.

Definition call_ok (st : state W) (c : api_call) : Prop :=
  match c with
  | New nm config =>
      (∀ c, config = Some c → 0 ≤ west_max c ∧ 0 ≤ east_max c) ∧
      (∀ c n i o, config = Some c → nm = Some n → find_ops all n = Some (i, o) →
         cfg_type c = PG_MONOPOLE → is_Some (op_get_side o))
  | Link w e | UnlinkEdge w e => is_Some (bricks st !! w) ∧ is_Some (bricks st !! e)
  | Unlink p | Destroy p => unlinkable st p
  end.

(** The caller passes a fresh error variable. *)
Definition no_error (st : state W) : state W := mk_state (bricks st) (world st) None.

Inductive reachable : state W → Prop :=
  | reach_start w : reachable (mk_state ∅ w None)
  | reach_step st c st' :
      reachable st → call_ok st c → run_call c (no_error st) = Some (tt, st') →
      reachable st'.

Lemma run_call_R `{!BrickLaws all} st L c :
  quiet all → R all st L → call_ok st c →
  wp (run_call c) (λ _ st', ∃ L', R all st' L') (no_error st).
Proof.
  intros Hq HR Hok. apply (R_errp all _ _ None) in HR. fold (no_error st) in HR.
  destruct c as [nm config|w e|p|w e|p]; simpl in *.
  - destruct Hok. wps. eapply wp_mono; [by eapply new_spec|].
    intros r st' [HR' _]. wps. eauto.
  - destruct Hok as [[wb Hw] [eb He]]. wps. eapply wp_mono; [by eapply link_spec|].
    intros r st' Hr. wps. case_decide; [naive_solver|]. exists L.
    destruct Hr as (_&Hb&Hwd&_). apply (R_errp all _ _ (errp st')) in HR.
    destruct st'. simpl in *. by subst.
  - destruct Hok as (b&o&Hp&Ho&Hu). eapply wp_mono; [by eapply unlink_spec|].
    intros [] st' (_&_&_&HR'&He). rewrite (He Hq eq_refl) in HR'. naive_solver.
  - destruct Hok as [[wb Hw] [eb He]]. wps. eapply wp_mono; [by eapply unlink_edge_spec|].
    intros r st' Hr. wps. naive_solver.
  - destruct Hok as (b&o&Hp&Ho&Hu). eapply wp_mono; [by eapply destroy_spec|].
    naive_solver.
Qed.

Lemma reachable_R `{!BrickLaws all} st : quiet all → reachable st → ∃ L, R all st L.
Proof.
  intros Hq. induction 1 as [w|st c st' _ [L IH] Hok Hrun]; [eauto using R_empty|].
  exact (wp_elim _ _ _ _ _ (run_call_R _ _ _ Hq IH Hok) Hrun).
Qed.

End Api.

(** ** Properties *)

Section Properties.

Context {W C : Type} (all : list (pg_brick_ops W C)) `{!BrickLaws all}.

(** C5: [pg_brick_new] either fails, sets the error and leaves the brick store as
    it was, or adds one brick at a fresh address that has one reference, no link
    and exactly the numbers of edges of the configuration (no truncation to
    [uint16_t]); the links of the other bricks are untouched in both cases. *)
Theorem pg_brick_new_correct (st : state W) (L : gset glink) nm config :
  R all st L →
  (∀ c, config = Some c → 0 ≤ west_max c ∧ 0 ≤ east_max c) →
  (∀ c n i o, config = Some c → nm = Some n → find_ops all n = Some (i, o) →
     cfg_type c = PG_MONOPOLE → is_Some (op_get_side o)) →
  wp (pg_brick_new all nm config) (λ r st',
    R all st' L ∧
    match r with
    | None => bricks st' = bricks st ∧ pg_error_is_set (errp st') = true
    | Some p => ∃ c n i o b, config = Some c ∧ nm = Some n ∧ find_ops all n = Some (i, o) ∧
        check_side_max c = None ∧ p ∉ dom (bricks st) ∧
        bricks st' = <[p := b]> (bricks st) ∧
        new_brick c i b ∧ ∀ s i, slot all st' p s i = None
    end) st.
Proof. apply new_spec; done. Qed.

(** C2: linking refines the abstract operation. [pg_brick_link] succeeds exactly
    when the bricks are distinct and both have a free place; it then adds one
    link between two slots that were free, on both ends. Otherwise it returns -1
    with an error and changes neither the bricks nor their private state. *)
Theorem pg_brick_link_refines (st : state W) (L : gset glink) w wb e eb :
  R all st L → bricks st !! w = Some wb → bricks st !! e = Some eb →
  wp (pg_brick_link all (Some w) (Some e)) (λ r st',
    if decide (can_link w wb e eb)
    then r = 0 ∧ errp st' = errp st ∧ ∃ L', abs_link L w e L' ∧ R all st' L'
    else r = -1 ∧ bricks st' = bricks st ∧ world st' = world st ∧
         pg_error_is_set (errp st') = true) st.
Proof. apply link_spec; done. Qed.

(** C3: [pg_brick_unlink] removes exactly the links of the brick when no notified
    brick reports an error; in every case the store stays well formed and no
    link between two other bricks changes. *)
Theorem pg_brick_unlink_refines (st : state W) (L : gset glink) p b o :
  R all st L → bricks st !! p = Some b → brick_ops all b = Some o → op_unlink o = true →
  wp (pg_brick_unlink all (Some p)) (λ _ st',
    Inv all st' ∧ frame all st st' ∧ removed_only all p st st' ∧
    (pg_error_is_set (errp st') = false →
       R all st' (without p L) ∧ ∀ s i, slot all st' p s i = None) ∧
    (quiet all → errp st = None → errp st' = None)) st.
Proof. apply unlink_spec; done. Qed.

(** [pg_brick_unlink_edge] removes exactly one link that joins the two bricks,
    on both ends, and returns 0; it returns -1, with an error and all links kept,
    only when no such link exists or a notified brick refuses. *)
Theorem pg_brick_unlink_edge_refines (st : state W) (L : gset glink) w wb e eb :
  R all st L → bricks st !! w = Some wb → bricks st !! e = Some eb → errp st = None →
  wp (pg_brick_unlink_edge all (Some w) (Some e)) (λ r st',
    (r = 0 ∧ errp st' = None ∧
       ∃ l, l ∈ L ∧ joins wb w e l ∧ R all st' (L ∖ {[l]})) ∨
    (r = -1 ∧ pg_error_is_set (errp st') = true ∧ R all st' L ∧
     ((∀ l, l ∈ L → ¬ joins wb w e l) ∨ ¬ quiet all))) st.
Proof. apply unlink_edge_spec; done. Qed.

(** C4: when no brick refuses to be unlinked, [pg_brick_destroy] removes the
    brick and all its links: no neighbour keeps a reference to the freed brick,
    the other links stay, and the caller's error is not touched. *)
Theorem pg_brick_destroy_refines (st : state W) (L : gset glink) p b o :
  R all st L → bricks st !! p = Some b → brick_ops all b = Some o → op_unlink o = true →
  quiet all →
  wp (pg_brick_destroy all (Some p)) (λ _ st',
    dom (bricks st') = dom (bricks st) ∖ {[p]} ∧ errp st' = errp st ∧
    R all st' (without p L)) st.
Proof. apply destroy_spec; done. Qed.

(** Linking two bricks that no link joins and unlinking them again restores
    the set of links. *)
Theorem link_unlink_edge_roundtrip (st : state W) (L : gset glink) w wb e eb :
  R all st L → bricks st !! w = Some wb → bricks st !! e = Some eb → errp st = None →
  can_link w wb e eb → (∀ l, l ∈ L → ¬ (touches w l ∧ touches e l)) → quiet all →
  wp (pg_brick_link all (Some w) (Some e);; pg_brick_unlink_edge all (Some w) (Some e))
    (λ r st', r = 0 ∧ R all st' L) st.
Proof.
  intros HR Hw He Hnoerr Hcan Hno Hq. wps.
  eapply wp_mono; [by eapply link_spec|]. intros r st1 Hr.
  simpl in Hr. rewrite decide_True in Hr by done. destruct Hr as (_&Herr&L'&Habs&HR1).
  destruct Habs as [wi ei Hne Hfw Hfe]. set (l0 := mk_link w wi e ei) in *.
  assert (l0 ∉ L) as Hl0 by (intros H; by apply (Hfw _ H)).
  assert (slot all st1 w PG_EAST_SIDE wi = Some (e, ei)) as Hs
    by (apply (R_links _ _ _ HR1); set_solver).
  pose proof Hs as (wb1&_&Hw1&_)%slot_Some.
  pose proof (inv_sym _ _ (R_inv _ _ _ HR1) _ _ _ _ _ Hs) as [_ (eb1&_&He1&_)%slot_Some].
  eapply wp_mono; [eapply unlink_edge_spec; [done..|congruence]|].
  intros r2 st2 [(->&_&l&Hin&Hj&HR2)|(_&_&_&[Hn|Hn])]; [|exfalso|done].
  - split; [done|]. assert (l = l0) as ->.
    { apply elem_of_union in Hin as [?%elem_of_singleton|Hin]; [done|].
      destruct (Hno l Hin). unfold joins, touches in *. naive_solver. }
    by replace L with (({[l0]} ∪ L) ∖ {[l0]}) by set_solver.
  - apply (Hn l0); [set_solver|]. by left.
Qed.

(** C1: every state reached from the empty graph by legal calls of the interface
    is well formed, and in every such state no legal call can crash. *)
Theorem reachable_safe (st : state W) :
  quiet all → reachable all st →
  (∃ L, R all st L) ∧ ∀ c, call_ok all st c → is_Some (run_call all c (no_error st)).
Proof.
  intros Hq Hr. destruct (reachable_R all st Hq Hr) as [L HR]. split; [eauto|].
  intros c Hok. pose proof (run_call_R all st L c Hq HR Hok) as Hw.
  apply wp_run in Hw as (?&?&->&_). eauto.
Qed.

End Properties.

(** ** Witnesses *)

Lemma pg_brick_new_correct_witness : ∃ st',
  pg_brick_new demo_ops (Some "rxtx") (Some (demo_config "rxtx2" 1 1 PG_MONOPOLE)) demo_state
  = Some (Some 4%positive, st') ∧ R demo_ops st' ∅.
Proof.
  assert (wp (pg_brick_new demo_ops (Some "rxtx")
    (Some (demo_config "rxtx2" 1 1 PG_MONOPOLE))) (λ _ st', R demo_ops st' ∅) demo_state) as H.
  { eapply wp_mono; [apply (pg_brick_new_correct demo_ops demo_state ∅ _ _ demo_R)|].
    - intros c [= <-]. vm_compute. by split.
    - intros c n i o [= <-] [= <-] Ho _. vm_compute in Ho. injection Ho as <- <-. eauto.
    - intros r st' [HR _]. exact HR. }
  apply wp_run in H as (r&st'&Hr&HR). exists st'. split; [|exact HR].
  rewrite Hr. vm_compute in Hr. injection Hr as <- _. reflexivity.
Defined.

Lemma pg_brick_link_refines_witness : ∃ st' L',
  pg_brick_link demo_ops (Some 1%positive) (Some 2%positive) demo_state = Some (0, st') ∧
  abs_link ∅ 1 2 L' ∧ R demo_ops st' L'.
Proof.
  pose proof (pg_brick_link_refines demo_ops demo_state ∅ 1 demo_nop 2 demo_hub
    demo_R eq_refl eq_refl) as H.
  apply wp_run in H as (r&st'&Hr&H). cbv beta in H.
  rewrite decide_True in H by (vm_compute; split_and!; done).
  destruct H as (->&_&L'&Ha&HR). exists st', L'. split_and!; assumption.
Defined.

(** The monopole linked to the hub, east of it. *)
Definition demo_linked : state (gmap ptr pg_side) :=
  match pg_brick_link demo_ops (Some 2%positive) (Some 3%positive) demo_state with
  | Some (_, st) => st
  | None => demo_state
  end.

Lemma demo_linked_R : R demo_ops demo_linked {[mk_link 2 0 3 0]}.
Proof.
  assert (can_link 2 demo_hub 3 demo_rxtx) as Hc by (vm_compute; split_and!; done).
  pose proof (R_link demo_ops demo_state ∅ 2 demo_hub 3 demo_rxtx 0 0 null_edge null_edge
    demo_R eq_refl eq_refl Hc eq_refl eq_refl eq_refl eq_refl) as [_ H].
  by rewrite (right_id_L ∅ (∪)) in H.
Qed.

Lemma pg_brick_unlink_refines_witness : ∃ st',
  pg_brick_unlink demo_ops (Some 3%positive) demo_linked = Some (tt, st') ∧
  R demo_ops st' (without 3 {[mk_link 2 0 3 0]}).
Proof.
  assert (is_Some (bricks demo_linked !! 3%positive)) as [b Hb] by (vm_compute; eauto).
  pose proof Hb as Hb'. vm_compute in Hb'. injection Hb' as <-.
  pose proof (pg_brick_unlink_refines demo_ops demo_linked _ 3 _ ops_rxtx demo_linked_R
    Hb eq_refl eq_refl) as H.
  apply wp_run in H as ([]&st'&Hr&_&_&_&HR&Hq). exists st'. split; [exact Hr|].
  apply HR. rewrite (Hq demo_quiet eq_refl). reflexivity.
Defined.

Lemma pg_brick_unlink_edge_refines_witness : ∃ st' l,
  pg_brick_unlink_edge demo_ops (Some 2%positive) (Some 3%positive) demo_linked
  = Some (0, st') ∧ l ∈ ({[mk_link 2 0 3 0]} : gset glink) ∧
  R demo_ops st' ({[mk_link 2 0 3 0]} ∖ {[l]}).
Proof.
  assert (is_Some (bricks demo_linked !! 3%positive)) as [eb He] by (vm_compute; eauto).
  assert (is_Some (bricks demo_linked !! 2%positive)) as [wb Hw] by (vm_compute; eauto).
  pose proof (pg_brick_unlink_edge_refines demo_ops demo_linked _ 2 wb 3 eb demo_linked_R
    Hw He eq_refl) as H.
  apply wp_run in H as (r&st'&Hr&[(->&_&l&Hl&_&HR)|(->&_)]); [|vm_compute in Hr; done].
  exists st', l. split_and!; assumption.
Defined.

Lemma pg_brick_destroy_refines_witness : ∃ st',
  pg_brick_destroy demo_ops (Some 2%positive) demo_linked = Some (tt, st') ∧
  R demo_ops st' (without 2 {[mk_link 2 0 3 0]}).
Proof.
  assert (is_Some (bricks demo_linked !! 2%positive)) as [b Hb] by (vm_compute; eauto).
  pose proof Hb as Hb'. vm_compute in Hb'. injection Hb' as <-.
  pose proof (pg_brick_destroy_refines demo_ops demo_linked _ 2 _ ops_hub demo_linked_R
    Hb eq_refl eq_refl demo_quiet) as H.
  apply wp_run in H as ([]&st'&Hr&_&_&HR). exists st'. split; assumption.
Defined.

Lemma link_unlink_edge_roundtrip_witness : ∃ st',
  (pg_brick_link demo_ops (Some 1%positive) (Some 3%positive);;
   pg_brick_unlink_edge demo_ops (Some 1%positive) (Some 3%positive)) demo_state
  = Some (0, st') ∧ R demo_ops st' ∅.
Proof.
  pose proof (link_unlink_edge_roundtrip demo_ops demo_state ∅ 1 demo_nop 3 demo_rxtx
    demo_R eq_refl eq_refl eq_refl) as H.
  apply wp_run in H as (r&st'&Hr&->&HR); [exists st'; split; assumption|..].
  - vm_compute. split_and!; done.
  - intros l Hl. set_solver.
  - apply demo_quiet.
Defined.

Lemma reachable_safe_witness :
  reachable demo_ops (mk_state ∅ ∅ None) ∧
  is_Some (run_call demo_ops (New (Some "hub") (Some (demo_config "h" 3 2 PG_MULTIPOLE)))
    (no_error (mk_state ∅ ∅ None))).
Proof.
  split; [apply reach_start|].
  apply (reachable_safe demo_ops (mk_state ∅ ∅ None) demo_quiet);
    [apply reach_start|]. split.
  - intros c [= <-]. vm_compute. by split.
  - intros c n i o [= <-] [= <-] Ho. by intros ?.
Defined.

Lemma foreach_edges_visits_links_witness : ∃ b,
  bricks demo_linked !! 2%positive = Some b ∧
  PG_BRICK_FOREACH_EDGES b = Some [(PG_EAST_SIDE, 0%nat)].
Proof.
  assert (is_Some (bricks demo_linked !! 2%positive)) as [b Hb] by (vm_compute; eauto).
  exists b. split; [exact Hb|].
  rewrite (foreach_edges_visits_links b
    (vb_ok _ _ (inv_brick _ _ (R_inv _ _ _ demo_linked_R) _ _ Hb))).
  vm_compute in Hb. injection Hb as <-. vm_compute. reflexivity.
Defined.
