(* ===== verification/Burst.v ===== *)
(** * Packet bursts between bricks

    The data-flow part of [src/brick.c]. A burst is an array of packet pointers
    and a 64-bit mask of the valid ones; it travels from brick to brick through
    the [burst] function pointers. The function a brick pointer leads to is the
    operation of the class [Dispatch]: the handler of one kind of brick is
    verified against any behaviour of its neighbours. *)

From S2P Require Import Prelude Bitmask Common Brick BrickInv.

(** ** Packets and the data-flow state *)

(** Pointers to [struct rte_mbuf]. *)
Definition mptr := positive.
Bind Scope positive_scope with mptr.

(** The fields of a one-segment [struct rte_mbuf] that the bricks use; [data] is
    the memory at [rte_pktmbuf_mtod]. *)
Record mbuf := mk_mbuf {
  data : list Z;
  pkt_len : Z;
  l2_len : Z;
  l3_len : Z;
  l4_len : Z;
  udata64 : Z;
  refcnt : Z;
}.

Global Instance pg_side_countable : Countable pg_side.
Proof.
  by apply (inj_countable' (λ s, bool_decide (s = PG_WEST_SIDE))
    (λ b : bool, if b then PG_WEST_SIDE else PG_EAST_SIDE)); intros [].
Defined.

(** The memory of packets, the packet counters of the brick sides, the caller's
    [*errp] and the private state of the other bricks. *)
Record flow (W : Type) := mk_flow {
  fl_mem : gmap mptr mbuf;
  fl_count : gmap (ptr * pg_side) Z;
  fl_errp : option pg_error;
  fl_world : W;
}.
Arguments mk_flow {W}.
Arguments fl_mem {W}.
Arguments fl_count {W}.
Arguments fl_errp {W}.
Arguments fl_world {W}.

(** The [pkts] array of a burst. *)
Abbreviation pkts_t := (list mptr).

(** [brick->burst(brick, from, edge_index, pkts, pkts_mask, errp)] of the brick at
    the given address. *)
Class Dispatch (W : Type) :=
  brick_burst : ptr → pg_side → nat → pkts_t → Z → M (flow W) Z.

Section Burst.

Context {W : Type} `{D : !Dispatch W}.
Implicit Types (s : pg_side) (pkts : pkts_t) (m : Z) (b : pg_brick).

Definition flow_error (e : pg_error) : M (flow W) unit :=
  modify (λ fl, mk_flow (fl_mem fl) (fl_count fl) (Some e) (fl_world fl)).

Definition load_pkt (p : mptr) : M (flow W) mbuf :=
  o ← gets (λ fl, fl_mem fl !! p); unwrap o.

Definition store_pkt (p : mptr) (v : mbuf) : M (flow W) unit :=
  modify (λ fl, mk_flow (<[p := v]> (fl_mem fl)) (fl_count fl) (fl_errp fl) (fl_world fl)).

(** [PG_PKTS_COUNT_ADD] on a [uint64_t] counter. *)
Definition count_add (p : ptr) s (n : Z) : M (flow W) unit :=
  modify (λ fl, mk_flow (fl_mem fl)
    (<[(p, s) := u64 (default 0 (fl_count fl !! (p, s)) + n)]> (fl_count fl))
    (fl_errp fl) (fl_world fl)).

(** ** Sending *)

Definition pg_brick_burst (brick : option ptr) (from : pg_side) (edge_index : nat)
    pkts (pkts_mask : Z) : M (flow W) Z :=
  match brick with
  | None => mret 0
  | Some p =>
      count_add p (pg_flip_side from) (pg_mask_count pkts_mask);;
      brick_burst p from edge_index pkts pkts_mask
  end.

Definition pg_brick_burst_to_east (brick : option ptr) (edge_index : nat) pkts m
    : M (flow W) Z := pg_brick_burst brick PG_WEST_SIDE edge_index pkts m.

Definition pg_brick_burst_to_west (brick : option ptr) (edge_index : nat) pkts m
    : M (flow W) Z := pg_brick_burst brick PG_EAST_SIDE edge_index pkts m.

(** [pg_brick_poll]; [poll] is the function pointer of the brick. *)
Definition pg_brick_poll (brick : option (option (M (flow W) (Z * Z))))
    : M (flow W) (Z * Z) :=
  match brick with
  | None => flow_error (pg_error_new "Brick is NULL");; mret (-1, 0)
  | Some None => flow_error (pg_error_new "No poll callback");; mret (-1, 0)
  | Some (Some poll) => poll
  end.

(** [pg_brick_west_burst_get] and [pg_brick_east_burst_get]; [burst_get] is the
    callback of the brick's operations. *)
Definition brick_burst_get (s : pg_side)
    (brick : option (option (pg_side → M (flow W) (option pkts_t * Z))))
    : M (flow W) (option pkts_t * Z) :=
  match brick with
  | None => flow_error (pg_error_new "NULL brick");; mret (None, 0)
  | Some None => flow_error (pg_error_new "No burst_get callback");; mret (None, 0)
  | Some (Some get) => get s
  end.

Definition pg_brick_west_burst_get := brick_burst_get PG_WEST_SIDE.
Definition pg_brick_east_burst_get := brick_burst_get PG_EAST_SIDE.

Definition pg_brick_pkts_count_get (brick : option ptr) s : M (flow W) Z :=
  match brick with
  | None => mret 0
  | Some p => gets (λ fl, default 0 (fl_count fl !! (p, s)))
  end.

(** Reading [side->edges[i]] and [side->edge]. *)
Definition edges_at (sd : pg_brick_side) (i : nat) : M (flow W) pg_brick_edge :=
  match side_edges sd with
  | Edges es => unwrap (es !! i)
  | Edge _ => crash
  end.

Definition edge_of (sd : pg_brick_side) : M (flow W) pg_brick_edge :=
  match side_edges sd with
  | Edge e => mret e
  | Edges _ => crash
  end.

(** [pg_brick_side_forward]: [ret] keeps the last result over free slots. *)
Fixpoint side_forward_loop (sd : pg_brick_side) (from : pg_side) pkts m
    (i n : nat) (ret : Z) : M (flow W) Z :=
  match n with
  | O => mret 0
  | S n =>
      e ← edges_at sd i;
      ret ← match link e with
            | Some q => pg_brick_burst (Some q) from (pair_index e) pkts m
            | None => mret ret
            end;
      if ret <? 0 then mret (-1) else side_forward_loop sd from pkts m (S i) n ret
  end.

Definition pg_brick_side_forward (sd : pg_brick_side) (from : pg_side) pkts m
    : M (flow W) Z :=
  side_forward_loop sd from pkts m 0 (Z.to_nat (side_nb sd)) 1.

(** ** Sequences of calls *)

(** One call of [pg_brick_burst]. *)
Record burst_call := mk_call {
  bc_to : option ptr;
  bc_from : pg_side;
  bc_edge : nat;
  bc_pkts : pkts_t;
  bc_mask : Z;
}.

Definition do_call (c : burst_call) : M (flow W) Z :=
  pg_brick_burst (bc_to c) (bc_from c) (bc_edge c) (bc_pkts c) (bc_mask c).

(** The calls in order, up to the first that fails. *)
Fixpoint run_calls (cs : list burst_call) : M (flow W) Z :=
  match cs with
  | [] => mret 0
  | c :: cs => r ← do_call c; if r <? 0 then mret (-1) else run_calls cs
  end.

(** The call that sends a burst over an edge. *)
Definition edge_call (from : pg_side) pkts m (e : pg_brick_edge) : burst_call :=
  mk_call (link e) from (pair_index e) pkts m.

Lemma M_bind_ret {A B} (a : A) (k : A → M (flow W) B) fl : (mret a ≫= k) fl = k a fl.
Proof. done. Qed.

Lemma M_bind_ext {A B} (m1 : M (flow W) A) (k1 k2 : A → M (flow W) B) fl :
  (∀ a fl', k1 a fl' = k2 a fl') → (m1 ≫= k1) fl = (m1 ≫= k2) fl.
Proof.
  intros H. unfold mbind, M_bind. destruct (m1 fl) as [[??]|]; [apply H|done].
Qed.

Lemma M_bind_assoc {A B B'} (m1 : M (flow W) A) (k : A → M (flow W) B)
    (k' : B → M (flow W) B') fl :
  ((m1 ≫= k) ≫= k') fl = (m1 ≫= λ a, k a ≫= k') fl.
Proof. unfold mbind, M_bind. by destruct (m1 fl) as [[??]|]. Qed.

Lemma run_calls_app cs1 cs2 fl :
  run_calls (cs1 ++ cs2) fl =
  (r ← run_calls cs1; if r <? 0 then mret (-1) else run_calls cs2) fl.
Proof.
  revert fl. induction cs1 as [|c cs1 IH]; intros fl; [done|]. simpl.
  rewrite M_bind_assoc. apply M_bind_ext. intros r fl'.
  destruct (r <? 0); [done|apply IH].
Qed.

(** [run_calls] answers 0 or -1. *)
Lemma run_calls_ret cs fl r fl' :
  run_calls cs fl = Some (r, fl') → r = 0 ∨ r = -1.
Proof.
  revert fl. induction cs as [|c cs IH]; intros fl; simpl; [by intros [= <- _]; left|].
  unfold mbind, M_bind. destruct (do_call c fl) as [[r1 fl1]|]; [|done].
  destruct (r1 <? 0); [by intros [= <- _]; right|apply IH].
Qed.

End Burst.

(** ** Side forwarding

    [pg_brick_side_forward] reads the first [nb] slots. They are all the links of
    the side only when the links occupy a prefix of the slots. *)

Section Forward.

Context {W : Type} `{D : !Dispatch W}.

Definition prefix_linked (sd : pg_brick_side) : Prop :=
  match side_edges sd with
  | Edges es => Forall is_linked (take (Z.to_nat (side_nb sd)) es)
  | Edge _ => False
  end.

Lemma side_forward_loop_spec sd es from pkts m i n ret fl :
  side_edges sd = Edges es → (i + n ≤ length es)%nat → 0 ≤ ret →
  side_forward_loop sd from pkts m i n ret fl =
  run_calls (edge_call from pkts m <$> filter is_linked (take n (drop i es))) fl.
Proof.
  intros Hes. revert i ret fl. induction n as [|n IH]; intros i ret fl Hn Hret; [done|].
  destruct (lookup_lt_is_Some_2 es i) as [e He]; [lia|].
  rewrite (drop_S _ _ _ He). cbn [take side_forward_loop].
  unfold edges_at. rewrite Hes, He, filter_cons. cbn [unwrap].
  rewrite M_bind_ret. destruct (link e) as [q|] eqn:Hl.
  - rewrite decide_True by (unfold is_linked; rewrite Hl; eauto). cbn [fmap list_fmap run_calls].
    unfold do_call, edge_call. simpl bc_to. rewrite Hl. simpl.
    apply M_bind_ext. intros r fl'. destruct (Z.ltb_spec r 0); [done|]. apply IH; lia.
  - rewrite decide_False by (unfold is_linked; rewrite Hl; apply is_Some_None).
    rewrite M_bind_ret. destruct (Z.ltb_spec ret 0); [lia|]. apply IH; lia.
Qed.

End Forward.

(** A neighbourhood in which every brick accepts its bursts and the world records
    them. *)
Definition recorder : Dispatch (list burst_call) := λ p from i pkts m,
  modify (λ fl, mk_flow (fl_mem fl) (fl_count fl) (fl_errp fl)
    (fl_world fl ++ [mk_call (Some p) from i pkts m]));; mret 0.

Definition recorded {A} (r : option (A * flow (list burst_call))) : list burst_call :=
  match r with Some (_, fl) => fl_world fl | None => [] end.

Definition flow_start : flow (list burst_call) := mk_flow ∅ ∅ None [].

(** In that neighbourhood the calls with a destination all arrive, in order. *)
Lemma run_calls_recorder cs fl :
  ∃ fl', run_calls (D := recorder) cs fl = Some (0, fl') ∧
    fl_world fl' = fl_world fl ++ filter (λ c, is_Some (bc_to c)) cs ∧
    fl_mem fl' = fl_mem fl.
Proof.
  revert fl. induction cs as [|[[q|] from i pkts m] cs IH]; intros fl.
  - exists fl. rewrite filter_nil, app_nil_r. done.
  - simpl. unfold mbind, M_bind. simpl.
    match goal with |- context [run_calls cs ?f] => destruct (IH f) as (fl'&->&Hw&Hm) end.
    exists fl'. split; [done|]. split; [|done]. rewrite Hw. simpl.
    rewrite <- app_assoc. done.
  - simpl. destruct (IH fl) as (fl'&Hr&Hw&Hm). exists fl'. split; [done|]. done.
Qed.

Lemma filter_take_prefix {A} (P : A → Prop) `{!∀ x, Decision (P x)} (l : list A) n :
  Forall P (take n l) → n = length (filter P l) → filter P (take n l) = filter P l.
Proof.
  intros HF Hn. rewrite <- (take_drop n l) at 2. rewrite filter_app.
  assert (length (filter P (take n l)) = n) as Hlen.
  { rewrite filter_all_length by done. rewrite length_take.
    pose proof (length_filter_le P l). lia. }
  rewrite <- (take_drop n l), filter_app, length_app in Hn.
  destruct (filter P (drop n l)); [by rewrite app_nil_r|]. simpl in Hn. lia.
Qed.

(** When the links of a side occupy its first slots, [pg_brick_side_forward]
    sends the burst once over each of its links, in slot order, and stops with -1
    at the first neighbour that fails. *)
Theorem side_forward_reaches_links {W} `{!Dispatch W} (sd : pg_brick_side) es from pkts m
    (fl : flow W) :
  side_ok PG_MULTIPOLE sd → side_edges sd = Edges es → prefix_linked sd →
  pg_brick_side_forward sd from pkts m fl =
  run_calls (edge_call from pkts m <$> filter is_linked es) fl.
Proof.
  intros [Hu Hm Hn Hr] Hes Hpre. unfold pg_brick_side_forward.
  unfold union_ok, prefix_linked, ulinks in *. rewrite Hes in *. simpl in *.
  pose proof (length_filter_le is_linked es).
  rewrite (side_forward_loop_spec sd es) by (done || lia).
  rewrite drop_0, (filter_take_prefix is_linked); [done|done|]. lia.
Qed.

(** A side with three slots of which the first two are linked. *)
Definition demo_side : pg_brick_side :=
  mk_side 3 2 (Edges [mk_edge (Some 7%positive) 0; mk_edge (Some 8%positive) 4; null_edge]).

Lemma demo_side_ok : side_ok PG_MULTIPOLE demo_side.
Proof. split; by vm_compute. Qed.

Lemma side_forward_reaches_links_witness :
  pg_brick_side_forward (D := recorder) demo_side PG_WEST_SIDE [5%positive] 1 flow_start =
  run_calls (D := recorder) [mk_call (Some 7%positive) PG_WEST_SIDE 0 [5%positive] 1;
                             mk_call (Some 8%positive) PG_WEST_SIDE 4 [5%positive] 1]
    flow_start.
Proof.
  apply (side_forward_reaches_links (Dispatch0 := recorder) demo_side
    [mk_edge (Some 7%positive) 0; mk_edge (Some 8%positive) 4; null_edge]
    PG_WEST_SIDE [5%positive] 1 flow_start demo_side_ok eq_refl).
  repeat constructor; eexists; reflexivity.
Defined.

(** After the first of two links is removed, the burst no longer reaches the
    neighbour that is still linked: [nb] is 1 but the link is in the second slot. *)
Theorem side_forward_misses_after_hole :
  let sd := mk_side 3 1 (Edges [null_edge; mk_edge (Some 8%positive) 4; null_edge]) in
  side_ok PG_MULTIPOLE sd ∧
  pg_brick_side_forward (D := recorder) sd PG_WEST_SIDE [5%positive] 1 flow_start
  = Some (0, flow_start).
Proof. split; [split; by vm_compute|]. vm_compute. reflexivity. Qed.
