(* ===== verification/Hub.v ===== *)
(** * Forwarding bricks: nop, diode, user dipole and hub

    [src/nop.c], [src/diode.c], [src/user-dipole.c] and [src/hub.c]: the bricks
    whose data path only chooses edges. Each handler takes its own brick and is
    run among arbitrary neighbours ([Dispatch]). *)

From S2P Require Import Prelude Bitmask Common Brick BrickInv Burst.

(** ** Constructors

    The [void *] private configurations are embedded in the type [C] of the
    registered operations. *)

Record pg_diode_config := mk_diode_config { dc_output : pg_side }.
Record pg_diode_state := mk_diode_state { ds_output : pg_side }.

Section Constructors.

Context {W C : Type} (all : list (pg_brick_ops W C)).
Context (null_config : C) (diode_cast : pg_diode_config → C).

Definition pg_nop_new (nm : string) : M (state W) (option ptr) :=
  pg_brick_new all (Some "nop")
    (Some (pg_brick_config_new null_config nm 1 1 PG_DIPOLE)).

Definition diode_config_new (nm : string) (output : pg_side) : pg_brick_config C :=
  pg_brick_config_init (diode_cast (mk_diode_config output)) nm 1 1 PG_DIPOLE.

Definition pg_diode_new (nm : string) (output : pg_side) : M (state W) (option ptr) :=
  pg_brick_new all (Some "diode") (Some (diode_config_new nm output)).

Definition pg_hub_new (nm : string) (west_max east_max : Z) : M (state W) (option ptr) :=
  pg_brick_new all (Some "hub")
    (Some (pg_brick_config_new null_config nm west_max east_max PG_MULTIPOLE)).

End Constructors.

(** [diode_init]: -1 when the caller's error is already set. *)
Definition diode_init (config : pg_diode_config) (errp : option pg_error)
    : Z * pg_diode_state :=
  ((if pg_error_is_set errp then -1 else 0), mk_diode_state (dc_output config)).

(** ** Data path *)

Local Arguments sides : simpl never.

Section Handlers.

Context {W : Type} `{D : !Dispatch W}.
Implicit Types (b : pg_brick) (pkts : pkts_t) (m : Z).

Definition nop_burst b (from : pg_side) (edge_index : nat) pkts m : M (flow W) Z :=
  e ← edge_of (sides b (pg_flip_side from));
  pg_brick_burst (link e) from (pair_index e) pkts m.

Definition diode_burst (st : pg_diode_state) b (from : pg_side) (edge_index : nat) pkts m
    : M (flow W) Z :=
  if decide (ds_output st = from) then mret 0
  else e ← edge_of (sides b (pg_flip_side from));
       pg_brick_burst (link e) from (pair_index e) pkts m.

(** The user's callback gets the side it sends to and returns the mask to send;
    it may touch the packets. *)
Definition user_dipole_burst (callback : pg_side → pkts_t → Z → M (flow W) Z)
    b (from : pg_side) (edge_index : nat) pkts m : M (flow W) Z :=
  let output := pg_flip_side from in
  m' ← callback output pkts m;
  e ← edge_of (sides b output);
  pg_brick_burst (link e) from (pair_index e) pkts m'.

(** The loops of the hub over [edges[j]], [j < max]; [skip] is the slot the burst
    came from. *)
Fixpoint hub_loop (sd : pg_brick_side) (skip : option nat) (flip_i : pg_side) pkts m
    (j n : nat) : M (flow W) Z :=
  match n with
  | O => mret 0
  | S n =>
      e ← edges_at sd j;
      if negb (bool_decide (is_Some (link e))) || bool_decide (Some j = skip)
      then hub_loop sd skip flip_i pkts m (S j) n
      else
        ret ← pg_brick_burst (link e) flip_i (pair_index e) pkts m;
        if ret <? 0 then mret (-1) else hub_loop sd skip flip_i pkts m (S j) n
  end.

Definition hub_burst_one_side b (from : pg_side) (edge_index : nat) pkts m
    : M (flow W) Z :=
  let i := PG_WEST_SIDE in
  let flip_i := PG_WEST_SIDE in
  let '(i, flip_i) := if decide (from = i) then (i, pg_flip_side i)
                      else (pg_flip_side i, flip_i) in
  let flip_i := pg_flip_side flip_i in
  let i := pg_flip_side i in
  let s := sides b i in
  hub_loop s None flip_i pkts m 0 (Z.to_nat (side_max s)).

Definition hub_burst b (from : pg_side) (edge_index : nat) pkts m : M (flow W) Z :=
  let i := PG_WEST_SIDE in
  let flip_i := PG_WEST_SIDE in
  let '(i, flip_i) := if decide (from = i) then (i, pg_flip_side i)
                      else (pg_flip_side i, flip_i) in
  let s := sides b i in
  ret ← hub_loop s (Some edge_index) flip_i pkts m 0 (Z.to_nat (side_max s));
  if ret <? 0 then mret (-1)
  else
    let flip_i := pg_flip_side flip_i in
    let i := pg_flip_side i in
    let s := sides b i in
    hub_loop s None flip_i pkts m 0 (Z.to_nat (side_max s)).

(** [pg_hub_set_no_backward] chooses the handler. *)
Definition pg_hub_set_no_backward (val : bool)
    : pg_brick → pg_side → nat → pkts_t → Z → M (flow W) Z :=
  if val then hub_burst_one_side else hub_burst.

(** ** What the hub sends *)

(** The linked slots of a side, in order, except [skip]. *)
Definition links_except (sd : pg_brick_side) (skip : option nat) : list pg_brick_edge :=
  match side_edges sd with
  | Edges es => snd <$> filter (λ je, is_linked (snd je) ∧ Some (fst je) ≠ skip)
                               (imap pair es)
  | Edge _ => []
  end.

Lemma hub_loop_spec sd es skip flip_i pkts m j n fl :
  side_edges sd = Edges es → (j + n = length es)%nat →
  hub_loop sd skip flip_i pkts m j n fl =
  run_calls (edge_call flip_i pkts m <$> (snd <$>
    filter (λ je, is_linked (snd je) ∧ Some (fst je) ≠ skip)
           (imap (λ k e, ((j + k)%nat, e)) (drop j es)))) fl.
Proof.
  intros Hes. revert j fl. induction n as [|n IH]; intros j fl Hn.
  { rewrite drop_ge by lia. done. }
  destruct (lookup_lt_is_Some_2 es j) as [e He]; [lia|].
  rewrite (drop_S _ _ _ He). cbn [hub_loop]. unfold edges_at. rewrite Hes, He.
  cbn [unwrap]. rewrite M_bind_ret. rewrite imap_cons, filter_cons. simpl snd. simpl fst.
  rewrite Nat.add_0_r.
  assert (imap ((λ (k : nat) (e0 : pg_brick_edge), ((j + k)%nat, e0)) ∘ S) (drop (S j) es)
    = imap (λ k e0, ((S j + k)%nat, e0)) (drop (S j) es)) as ->.
  { apply imap_ext. intros k e0 _. simpl. f_equal. lia. }
  destruct (decide (is_linked e ∧ Some j ≠ skip)) as [[Hl Hsk]|Hn'].
  - rewrite bool_decide_eq_true_2, bool_decide_eq_false_2 by done.
    cbn [negb orb fmap list_fmap run_calls snd]. unfold do_call, edge_call.
    apply M_bind_ext. intros r fl'. destruct (r <? 0); [done|]. apply IH. lia.
  - assert (negb (bool_decide (is_Some (link e))) || bool_decide (Some j = skip) = true)
      as ->. { repeat case_bool_decide; unfold is_linked in Hn'; naive_solver. }
    apply IH. lia.
Qed.

Lemma hub_loop_all b s skip flip_i pkts m fl :
  brick_ok b → type b = PG_MULTIPOLE →
  hub_loop (sides b s) skip flip_i pkts m 0 (Z.to_nat (side_max (sides b s))) fl =
  run_calls (edge_call flip_i pkts m <$> links_except (sides b s) skip) fl.
Proof.
  intros Hb Ht. pose proof (so_union _ _ (bo_side _ Hb s)) as Hu.
  unfold union_ok in Hu. rewrite Ht in Hu. unfold links_except.
  destruct (side_edges (sides b s)) as [es|] eqn:Hes; [|done].
  rewrite (hub_loop_spec _ es) by (done || lia). done.
Qed.

Definition hub_calls b (from : pg_side) (edge_index : nat) pkts m : list burst_call :=
  (edge_call (pg_flip_side from) pkts m <$> links_except (sides b from) (Some edge_index))
  ++ (edge_call from pkts m <$> links_except (sides b (pg_flip_side from)) None).

(** The hub sends a burst once to every neighbour except the one it came
    from, first on the side it came from and then on the other, each time naming
    the side the neighbour receives it on; it stops at the first failure. *)
Theorem hub_burst_floods b from edge_index pkts m (fl : flow W) :
  brick_ok b → type b = PG_MULTIPOLE →
  hub_burst b from edge_index pkts m fl = run_calls (hub_calls b from edge_index pkts m) fl.
Proof.
  intros Hb Ht. unfold hub_burst, hub_calls. rewrite run_calls_app.
  destruct from; simpl.
  all: unfold mbind, M_bind; rewrite !hub_loop_all by done; simpl.
  all: destruct (run_calls _ fl) as [[r fl']|]; [|done].
  all: destruct (r <? 0); [done|]; by rewrite !hub_loop_all by done.
Qed.

(** With [pg_hub_set_no_backward] the hub sends a burst only to the bricks of
    the opposite side, once over each link. *)
Theorem hub_no_backward_one_side b from edge_index pkts m (fl : flow W) :
  brick_ok b → type b = PG_MULTIPOLE →
  pg_hub_set_no_backward true b from edge_index pkts m fl =
  run_calls (edge_call from pkts m <$> links_except (sides b (pg_flip_side from)) None) fl.
Proof.
  intros Hb Ht. unfold pg_hub_set_no_backward, hub_burst_one_side.
  destruct from; simpl; by apply (hub_loop_all b).
Qed.

End Handlers.

(** A hub with two west neighbours, at slots 0 and 2, and one east neighbour. *)
Definition demo_hub_brick : pg_brick :=
  mk_brick (Some 0%nat) true false 4 "hub" PG_MULTIPOLE
    (mk_side 3 2 (Edges [mk_edge (Some 7%positive) 0; null_edge; mk_edge (Some 8%positive) 4]))
    (mk_side 1 1 (Edges [mk_edge (Some 9%positive) 1])).

Lemma demo_hub_brick_ok : brick_ok demo_hub_brick.
Proof. split; [intros []; split|..]; by vm_compute. Qed.

Lemma hub_burst_floods_witness :
  recorded (hub_burst (D := recorder) demo_hub_brick PG_WEST_SIDE 0 [5%positive] 1 flow_start)
  = [mk_call (Some 8%positive) PG_EAST_SIDE 4 [5%positive] 1;
     mk_call (Some 9%positive) PG_WEST_SIDE 1 [5%positive] 1].
Proof.
  rewrite (hub_burst_floods (D := recorder) demo_hub_brick PG_WEST_SIDE 0 [5%positive] 1
    flow_start demo_hub_brick_ok eq_refl).
  vm_compute. reflexivity.
Defined.

Lemma hub_no_backward_one_side_witness :
  recorded (pg_hub_set_no_backward (D := recorder) true demo_hub_brick PG_WEST_SIDE 0
    [5%positive] 1 flow_start) = [mk_call (Some 9%positive) PG_WEST_SIDE 1 [5%positive] 1].
Proof.
  rewrite (hub_no_backward_one_side (D := recorder) demo_hub_brick PG_WEST_SIDE 0
    [5%positive] 1 flow_start demo_hub_brick_ok eq_refl).
  vm_compute. reflexivity.
Defined.

(** A diode is one-way: a burst that comes in on its output side is dropped
    with no effect at all, any other burst takes the path a nop gives it. *)
Theorem diode_one_way {W} `{D : !Dispatch W} st b from edge_index pkts m (fl : flow W) :
  diode_burst st b from edge_index pkts m fl =
  if decide (from = ds_output st) then Some (0, fl)
  else nop_burst b from edge_index pkts m fl.
Proof. unfold diode_burst. by repeat case_decide; subst. Qed.
