(* ===== verification/Graph.v ===== *)
(** * Graphs of bricks

    [src/graph.c]: a graph is a table of bricks by name and the list of those
    that can be polled. The operations that explore follow the links of the
    brick store. *)

From S2P Require Import Prelude Common Brick BrickInv BrickSpec BrickApi Burst.

(** [struct pg_graph]. *)
Record pg_graph := mk_graph {
  g_name : string;
  g_all : gmap string ptr;
  g_pollable : list ptr;
}.

(** The order in which a [GHashTable] is iterated: some enumeration of it. *)
Class HashOrder := {
  hash_order : gmap string ptr → list ptr;
  hash_order_perm m : hash_order m ≡ₚ snd <$> map_to_list m;
}.

Section Graph.

Context {W C : Type} (all : list (pg_brick_ops W C)) `{HO : !HashOrder}.
Implicit Types (g : pg_graph) (p : ptr).

Definition empty_graph g : pg_graph := mk_graph (g_name g) ∅ [].

Definition pg_graph_name g : string := g_name g.

Definition pg_graph_count g : Z := Z.of_nat (size (g_all g)).

Definition pg_graph_get g (brick_name : string) : option ptr := g_all g !! brick_name.

(** [pg_graph_push]: the return code and the graph. *)
Definition pg_graph_push g p : M (state W) (Z * pg_graph) :=
  b ← load p;
  if decide (is_Some (g_all g !! name b)) then
    set_error (pg_error_new ("A brick named " +:+ name b +:+ " already in graph "
                             +:+ g_name g));; mret (-1, g)
  else mret (0, mk_graph (g_name g) (<[name b := p]> (g_all g))
                  (if poll b then p :: g_pollable g else g_pollable g)).

(** [g_slist_remove]: the first occurrence. *)
Fixpoint slist_remove p (l : list ptr) : list ptr :=
  match l with
  | [] => []
  | q :: l => if decide (q = p) then l else q :: slist_remove p l
  end.

Definition graph_pop g (op : option ptr) : M (state W) (option ptr * pg_graph) :=
  match op with
  | None => mret (None, g)
  | Some p =>
      b ← load p;
      mret (Some p, mk_graph (g_name g) (delete (name b) (g_all g))
        (if poll b then slist_remove p (g_pollable g) else g_pollable g))
  end.

Definition pg_graph_unsafe_pop g (brick_name : string)
    : M (state W) (option ptr * pg_graph) :=
  graph_pop g (pg_graph_get g brick_name).

Definition pg_graph_brick_destroy g (brick_name : string) : M (state W) (Z * pg_graph) :=
  r ← pg_graph_unsafe_pop g brick_name;
  match r with
  | (None, g') =>
      set_error (pg_error_new ("Brick " +:+ brick_name +:+ " not found"));; mret (-1, g')
  | (Some p, g') => pg_brick_destroy all (Some p);; mret (0, g')
  end.

(** [pg_graph_destroy]: the table's destructor destroys every brick. *)
Fixpoint destroy_bricks (l : list ptr) : M (state W) unit :=
  match l with
  | [] => mret tt
  | p :: l => pg_brick_destroy all (Some p);; destroy_bricks l
  end.

Definition pg_graph_destroy g : M (state W) unit := destroy_bricks (hash_order (g_all g)).

(** ** Exploration *)

Fixpoint add_neighbours (b : pg_brick) (l : list (pg_side * nat)) (todo done : list ptr)
    : option (list ptr) :=
  match l with
  | [] => Some todo
  | (s, i) :: l =>
      oe ← pg_brick_get_edge b s i;
      e ← oe;
      match link e with
      | Some n =>
          if decide (n ∉ todo ∧ n ∉ done) then add_neighbours b l (n :: todo) done
          else add_neighbours b l todo done
      | None => add_neighbours b l todo done
      end
  end.

Definition explore_add_neighbours (todo done : list ptr) (b : pg_brick)
    : option (list ptr) :=
  l ← PG_BRICK_FOREACH_EDGES b; add_neighbours b l todo done.

Definition get_any_brick g : option ptr :=
  match g_pollable g with
  | p :: _ => Some p
  | [] => head (hash_order (g_all g))
  end.

Fixpoint explore_loop (fuel : nat) (todo done : list ptr) : M (state W) (list ptr) :=
  match fuel with
  | O => crash
  | S fuel =>
      match todo with
      | [] => mret done
      | p :: todo =>
          b ← load p;
          todo' ← unwrap (explore_add_neighbours todo (p :: done) b);
          explore_loop fuel todo' (p :: done)
      end
  end.

Fixpoint push_all g (l : list ptr) : M (state W) (Z * pg_graph) :=
  match l with
  | [] => mret (0, g)
  | p :: l =>
      r ← pg_graph_push g p;
      if fst r <? 0 then mret (-1, snd r) else push_all (snd r) l
  end.

(** [pg_graph_explore_ptr]: each turn moves one brick of the store to [done]. *)
Definition pg_graph_explore_ptr g (brick : option ptr) : M (state W) (Z * pg_graph) :=
  match (match brick with Some p => Some p | None => get_any_brick g end) with
  | None => mret (0, g)
  | Some p =>
      b ← load p;
      todo ← unwrap (explore_add_neighbours [] [] b);
      fuel ← gets (λ st, S (size (bricks st)));
      found ← match todo with [] => mret [p] | _ => explore_loop fuel todo [] end;
      push_all (empty_graph g) found
  end.

Definition pg_graph_explore g (brick_name : option string) : M (state W) (Z * pg_graph) :=
  match brick_name with
  | None => pg_graph_explore_ptr g None
  | Some n =>
      match pg_graph_get g n with
      | None => set_error (pg_error_new ("brick " +:+ n +:+ " not found"));; mret (-1, g)
      | Some p => pg_graph_explore_ptr g (Some p)
      end
  end.

(** [pg_graph_new]: [None] is the NULL result. *)
Definition pg_graph_new (nm : string) (explore : option ptr)
    : M (state W) (option pg_graph) :=
  let ret := mk_graph nm ∅ [] in
  match explore with
  | None => mret (Some ret)
  | Some p =>
      r ← pg_graph_explore_ptr ret (Some p);
      if fst r <? 0 then pg_graph_destroy (empty_graph (snd r));; mret None
      else mret (Some (snd r))
  end.

Definition pg_graph_sanity g : M (state W) Z :=
  match get_any_brick g with
  | None => mret 0
  | Some p =>
      og ← pg_graph_new "-" (Some p);
      match og with
      | None => mret (-1)
      | Some g' =>
          ret ← (if pg_graph_count g <? pg_graph_count g' then
                   set_error (pg_error_new "Graph not fully explored");; mret (-1)
                 else if pg_graph_count g' <? pg_graph_count g then
                   set_error (pg_error_new "Graph looks splitted");; mret (-1)
                 else mret 0);
          pg_graph_destroy (empty_graph g');;
          mret ret
      end
  end.

End Graph.

(** ** Exploration finds the connected component *)

Section Explore.

Context {W C : Type} (all : list (pg_brick_ops W C)) `{HO : !HashOrder}.
Implicit Types (st : state W) (g : pg_graph) (p q x : ptr).

Definition neighbour st p q : Prop := ∃ s i j, slot all st p s i = Some (q, j).

Definition connected st : ptr → ptr → Prop := rtc (neighbour st).

Lemma neighbour_sym st p q : Inv all st → neighbour st p q → neighbour st q p.
Proof. intros Hinv (s&i&j&Hs). apply (inv_sym _ _ Hinv) in Hs as [_ Hs]. by do 3 eexists. Qed.

Lemma neighbour_live st p q : Inv all st → neighbour st p q → is_Some (bricks st !! q).
Proof.
  intros Hinv (s&i&j&Hs). apply (inv_sym _ _ Hinv) in Hs as [_ Hs].
  apply slot_Some in Hs as (b&_&Hb&_). eauto.
Qed.

Lemma connected_live st p q :
  Inv all st → is_Some (bricks st !! p) → connected st p q → is_Some (bricks st !! q).
Proof. intros Hinv Hp. induction 1; [done|]. eauto using neighbour_live. Qed.

(** The neighbour a visited slot leads to. *)
Definition slot_target (b : pg_brick) (si : pg_side * nat) : option ptr :=
  uslot (side_edges (own_side b (fst si))) (snd si) ≫= link.

Lemma add_neighbours_spec b l todo done :
  brick_ok b → Forall (λ si, is_Some (slot_target b si)) l →
  ∃ todo', add_neighbours b l todo done = Some todo' ∧
    (∀ x, x ∈ todo' ↔ x ∈ todo ∨ x ∉ done ∧ ∃ si, si ∈ l ∧ slot_target b si = Some x) ∧
    (NoDup todo → NoDup todo').
Proof.
  intros Hb. revert todo. induction l as [|[s i] l IH]; intros todo HF.
  { exists todo. split_and!; [done| |done]. intros x. split; [by left|].
    intros [?|(_&?&?&_)]; [done|set_solver]. }
  apply Forall_cons in HF as [[q Hq] HF]. unfold slot_target in Hq. simpl in Hq.
  destruct (uslot (side_edges (own_side b s)) i) as [e|] eqn:He; [|done]. simpl in Hq.
  cbn [add_neighbours].
  rewrite (get_edge_uslot b s i e) by (done || by apply own_union_ok).
  simpl. rewrite Hq.
  assert (∀ x, (∃ si, si ∈ (s, i) :: l ∧ slot_target b si = Some x) ↔
    x = q ∨ ∃ si, si ∈ l ∧ slot_target b si = Some x) as Hcons.
  { assert (slot_target b (s, i) = Some q) as Ht by (unfold slot_target; simpl; by rewrite He).
    intros x. setoid_rewrite elem_of_cons. split; [|set_solver].
    intros (si&[->|?]&?); [left; congruence|eauto]. }
  case_decide as Hd.
  - destruct (IH (q :: todo) HF) as (todo'&->&Hin&Hnd). exists todo'. split_and!; [done| |].
    + intros x. rewrite Hin, Hcons, elem_of_cons. naive_solver.
    + intros Hn. apply Hnd. constructor; naive_solver.
  - destruct (IH todo HF) as (todo'&->&Hin&Hnd). exists todo'. split_and!; [done| |done].
    intros x. rewrite Hin, Hcons.
    destruct (decide (q ∈ todo)), (decide (q ∈ done)); naive_solver.
Qed.

Lemma neighbour_slots st p b x :
  Inv all st → bricks st !! p = Some b →
  neighbour st p x ↔
  ∃ si, si ∈ filter (linked_at b) (all_slots b) ∧ slot_target b si = Some x.
Proof.
  intros Hinv Hp. pose proof (vb_ok _ _ (inv_brick _ _ Hinv _ _ Hp)) as Hb.
  setoid_rewrite list_elem_of_filter. unfold slot_target, neighbour.
  destruct (decide (type b = PG_MONOPOLE)) as [Hm|Hm].
  - unfold all_slots. rewrite Hm. split.
    + intros (s&i&j&(b'&e&?&He&Hl&_&_)%slot_Some). simplify_eq.
      pose proof (own_union_ok b s Hb) as Hu. unfold union_ok in Hu.
      unfold own_side, get_side in He, Hu. rewrite Hm in He, Hu.
      destruct (side_edges (sides b PG_WEST_SIDE)) as [|e1] eqn:Hes; [done|].
      destruct i; [|done]. simpl in He. injection He as ->.
      exists (PG_WEST_SIDE, 0%nat). unfold own_side, get_side. rewrite Hm. simpl in *.
      rewrite Hes. simpl. split; [|done]. split; [|set_solver].
      exists e. simpl. rewrite Hes. simpl. split; [done|]. unfold is_linked. eauto.
    + intros (si&[_ ->%list_elem_of_singleton]&Hx). simpl in Hx.
      destruct (uslot _ _) as [e|] eqn:He; [|done]. simpl in Hx.
      exists (mside all (world st) p b), 0%nat, (pair_index e). apply slot_Some.
      exists b, e. unfold own_side, get_side in *. rewrite Hm in *. by split_and!.
  - assert (∀ s, own_side b s = sides b s) as Hos
      by (intros; unfold own_side, get_side; by destruct (type b)).
    split.
    + intros (s&i&j&Hs). exists (s, i).
      pose proof Hs as (b'&e&?&He&Hl&_&_)%slot_Some. simplify_eq. simpl.
      rewrite He. simpl. split_and!; [|apply in_all_slots; [done|]|done].
      * eapply linked_at_slot; eauto.
      * eapply uslot_cap; [done|]. by rewrite <- Hos.
    + intros ([s i]&[Hl _]&Hx). simpl in Hx.
      apply (linked_at_slot all st p b s i Hp Hm) in Hl as (q&j&Hs).
      exists s, i, j. pose proof Hs as (b'&e&?&He&Hl&_)%slot_Some. simplify_eq.
      rewrite He in Hx. simpl in Hx. congruence.
Qed.

Lemma explore_add_spec st p b todo done :
  Inv all st → bricks st !! p = Some b →
  ∃ todo', explore_add_neighbours todo done b = Some todo' ∧
    (∀ x, x ∈ todo' ↔ x ∈ todo ∨ x ∉ done ∧ neighbour st p x) ∧
    (NoDup todo → NoDup todo').
Proof.
  intros Hinv Hp. pose proof (vb_ok _ _ (inv_brick _ _ Hinv _ _ Hp)) as Hb.
  unfold explore_add_neighbours. rewrite foreach_edges_spec by done. simpl.
  destruct (add_neighbours_spec b (filter (linked_at b) (all_slots b)) todo done)
    as (todo'&->&Hin&Hnd); [done| |].
  { apply Forall_forall. intros [s i] [(e&He&[q Hq]) Hal]%list_elem_of_filter.
    unfold slot_target, own_side, get_side. simpl in *.
    unfold all_slots in Hal. destruct (type b) eqn:Ht.
    2: apply list_elem_of_singleton in Hal as [= -> ->]; simpl in *.
    all: rewrite He; simpl; rewrite Hq; eauto. }
  exists todo'. split_and!; [done| |done]. intros x.
  rewrite Hin, (neighbour_slots st p b) by done. done.
Qed.

(** The loop ends with everything that the work list reaches. *)
Lemma explore_loop_spec st p fuel todo done :
  Inv all st → is_Some (bricks st !! p) →
  NoDup (todo ++ done) → (∀ x, x ∈ todo ++ done → connected st p x) →
  (∀ x y, x ∈ done → neighbour st x y → y ∈ todo ++ done) →
  (size (bricks st) < fuel + length done)%nat →
  wp (explore_loop fuel todo done) (λ found st',
    st' = st ∧ NoDup found ∧ (∀ x, x ∈ todo ++ done → x ∈ found) ∧
    (∀ x, x ∈ found → connected st p x) ∧
    (∀ x y, x ∈ found → neighbour st x y → y ∈ found)) st.
Proof.
  intros Hinv Hp. revert todo done.
  induction fuel as [|fuel IH]; intros todo done Hnd Hcon Hclo Hf.
  { exfalso. apply NoDup_app in Hnd as (_&_&Hnd).
    assert (list_to_set done ⊆ dom (bricks st)) as Hsub.
    { intros x Hx%elem_of_list_to_set. apply elem_of_dom.
      eapply connected_live; [done..|]. apply Hcon. set_solver. }
    apply subseteq_size in Hsub. rewrite size_list_to_set, size_dom in Hsub by done. lia. }
  destruct todo as [|q todo]; cbn [explore_loop].
  { rewrite wp_ret. split_and!; [done|done|set_solver..]. }
  destruct (connected_live st p q Hinv Hp) as [b Hb]; [apply Hcon; set_solver|].
  destruct (explore_add_spec st q b todo (q :: done) Hinv Hb) as (todo'&He&Hin&Hnd').
  wps. rewrite He. wps. simpl in Hnd.
  apply NoDup_cons in Hnd as [Hq Hnd]. apply NoDup_app in Hnd as (Hnt&Hdis&Hndone).
  eapply wp_mono; [apply IH|].
  - apply NoDup_app. split_and!; [by apply Hnd'| |constructor; set_solver].
    intros x Hx Hx'. apply Hin in Hx as [Hx|[Hx _]]; [|done].
    apply elem_of_cons in Hx' as [->|Hx']; [set_solver|by apply (Hdis x)].
  - intros x. rewrite elem_of_app, Hin, elem_of_cons.
    intros [[Hx|[_ Hx]]|[->|Hx]]; [apply Hcon; set_solver| |apply Hcon; set_solver..].
    eapply rtc_r; [|exact Hx]. apply Hcon. set_solver.
  - intros x y. rewrite elem_of_cons, elem_of_app, Hin.
    destruct (decide (y ∈ q :: done)) as [|Hy]; [by right|].
    intros [->|Hx] Hxy; [by left; right|]. left. left.
    specialize (Hclo x y Hx Hxy). set_solver.
  - simpl. lia.
  - intros found st' (->&Hnf&Hall&Hc&Hcl). split_and!; [done..| |done|done].
    intros x Hx. apply Hall. rewrite elem_of_app, Hin, elem_of_cons. set_solver.
Qed.

Lemma explore_found_spec st p b :
  Inv all st → bricks st !! p = Some b →
  ∃ todo, explore_add_neighbours [] [] b = Some todo ∧
  wp (match todo with [] => mret [p] | _ => explore_loop (S (size (bricks st))) todo [] end)
    (λ found st', st' = st ∧ NoDup found ∧ ∀ x, x ∈ found ↔ connected st p x) st.
Proof.
  intros Hinv Hp. destruct (explore_add_spec st p b [] [] Hinv Hp) as (todo&He&Hin&Hnd).
  exists todo. split; [done|]. specialize (Hnd ltac:(constructor)).
  assert (∀ x, x ∈ todo ↔ neighbour st p x) as Hin' by set_solver. clear Hin.
  destruct todo as [|q todo].
  { rewrite wp_ret. split_and!; [done|apply NoDup_singleton|]. intros x.
    rewrite list_elem_of_singleton. split; [intros ->; apply rtc_refl|].
    intros Hx. inversion Hx as [|? y ? Hy]; [done|]. apply Hin' in Hy. set_solver. }
  eapply wp_mono; [apply (explore_loop_spec st p)|]; rewrite ?app_nil_r; [done|eauto|done|..].
  - intros x Hx%Hin'. by apply rtc_once.
  - set_solver.
  - simpl. lia.
  - intros found st' (->&Hnf&Hall&Hc&Hcl). split_and!; [done..|].
    intros x. split; [apply Hc|].
    assert (q ∈ found) as Hq by (apply Hall; set_solver).
    assert (neighbour st q p) as Hqp by (apply neighbour_sym; [done|]; apply Hin'; set_solver).
    assert (p ∈ found) as Hpf by (by eapply Hcl).
    revert x. apply rtc_ind_r; eauto.
Qed.

Definition name_at st p : option string := name <$> bricks st !! p.
Definition pollable_at st p : Prop := ∃ b, bricks st !! p = Some b ∧ poll b = true.

(** The graph holds exactly the bricks of [D], each under its name, and lists once
    those that can be polled. *)
Record graph_of st (D : ptr → Prop) g : Prop := {
  go_all n x : g_all g !! n = Some x ↔ D x ∧ name_at st x = Some n;
  go_nodup : NoDup (g_pollable g);
  go_poll x : x ∈ g_pollable g ↔ D x ∧ pollable_at st x;
}.

Definition distinct_names st (D : ptr → Prop) : Prop :=
  ∀ x y, D x → D y → name_at st x = name_at st y → x = y.

Lemma graph_of_ext st D D' g : (∀ x, D x ↔ D' x) → graph_of st D g → graph_of st D' g.
Proof. intros Hext [H1 H2 H3]. split; [|done|]; intros *; rewrite ?H1, ?H3, Hext; done. Qed.

Lemma distinct_ext st D D' :
  (∀ x, D x ↔ D' x) → distinct_names st D → distinct_names st D'.
Proof. intros Hext Hd x y Hx Hy. apply Hd; by apply Hext. Qed.

Lemma graph_of_empty st g : graph_of st (λ _, False) (empty_graph g).
Proof. split; simpl; [|constructor|]; set_solver. Qed.

Lemma graph_of_push st D g p b :
  graph_of st D g → ¬ D p → bricks st !! p = Some b → g_all g !! name b = None →
  graph_of st (λ x, x = p ∨ D x)
    (mk_graph (g_name g) (<[name b := p]> (g_all g))
       (if poll b then p :: g_pollable g else g_pollable g)).
Proof.
  intros [Hall Hnd Hpoll] HDp Hp Hfree.
  assert (name_at st p = Some (name b)) as Hnp by (unfold name_at; by rewrite Hp).
  split; simpl.
  - intros n x. rewrite lookup_insert_Some, Hall.
    assert (∀ y, D y → name_at st y ≠ Some (name b)) as Hno.
    { intros y Hy Hn. assert (g_all g !! name b = Some y) by (by apply Hall). congruence. }
    split; [intros [[<- <-]|(_&?&?)]; split; auto|].
    intros [[->|Hx] Hn]; [left; split; congruence|].
    right. split; [|done]. intros <-. by eapply Hno.
  - destruct (poll b); [|done]. constructor; [|done]. by intros [? _]%Hpoll.
  - intros x. destruct (poll b) eqn:Hpb.
    + rewrite elem_of_cons, Hpoll. split.
      * intros [->|[? ?]]; [|auto]. split; [auto|]. by exists b.
      * intros [[->|?] ?]; auto.
    + rewrite Hpoll. split; [intros [? ?]; auto|]. intros [[->|?] Hx]; [|done].
      destruct Hx as (b'&?&?). congruence.
Qed.

Lemma push_all_spec st0 st l D g :
  bricks st = bricks st0 → graph_of st0 D g → NoDup l → (∀ x, x ∈ l → ¬ D x) →
  (∀ x, x ∈ l → is_Some (bricks st0 !! x)) →
  wp (push_all g l) (λ r st',
    bricks st' = bricks st ∧ world st' = world st ∧
    (distinct_names st0 (λ x, x ∈ l ∨ D x) →
       fst r = 0 ∧ errp st' = errp st ∧ graph_of st0 (λ x, x ∈ l ∨ D x) (snd r)) ∧
    (¬ distinct_names st0 (λ x, x ∈ l ∨ D x) ∧ distinct_names st0 D →
       fst r = -1 ∧ pg_error_is_set (errp st') = true)) st.
Proof.
  intros Hst. revert g D. induction l as [|p l IH]; intros g D Hg Hnd Hdis Hlive;
    cbn [push_all].
  { rewrite wp_ret. split_and!; [done..| |].
    - intros _. split_and!; [done..|]. eapply graph_of_ext; [|done]. set_solver.
    - intros [Hn Hd]. destruct Hn. eapply distinct_ext; [|exact Hd]. set_solver. }
  apply NoDup_cons in Hnd as [Hpl Hnd].
  destruct (Hlive p) as [b Hb]; [set_solver|].
  assert (name_at st0 p = Some (name b)) as Hnp by (unfold name_at; by rewrite Hb).
  unfold pg_graph_push. wps. eapply wp_load; [by rewrite Hst|]. case_decide as Htaken.
  - unfold set_error. wps. simpl. wps. split_and!; [done..| |done].
    intros Hd. exfalso. destruct Htaken as [y Hy]. apply (go_all _ _ _ Hg) in Hy as [Hy Hny].
    assert (y = p) as ->; [|set_solver]. apply Hd; [set_solver..|]. congruence.
  - wps. simpl. assert (g_all g !! name b = None) as Hfree
      by (by apply eq_None_not_Some).
    eapply wp_mono; [apply (IH _ (λ x, x = p ∨ D x))|].
    + apply graph_of_push; [done| |done..]. apply Hdis. set_solver.
    + done.
    + intros x Hx [->|HDx]; [done|]. by apply (Hdis x); [set_solver|].
    + set_solver.
    + intros r st' (Hbr&Hw&Hok&Hko). split_and!; [done..| |].
      * intros Hd. destruct Hok as (?&?&?);
          [eapply distinct_ext; [|exact Hd]; set_solver|].
        split_and!; [done..|]. eapply graph_of_ext; [|done]. set_solver.
      * intros [Hnd' Hd]. apply Hko. split.
        { intros Hd'. apply Hnd'. eapply distinct_ext; [|exact Hd']. set_solver. }
        intros x y [->|Hx] [->|Hy] Hxy; [done| | |by apply Hd].
        -- exfalso. apply Htaken. exists y. apply (go_all _ _ _ Hg). split; congruence.
        -- exfalso. apply Htaken. exists x. apply (go_all _ _ _ Hg). split; congruence.
Qed.

Lemma explore_spec st g p b :
  Inv all st → bricks st !! p = Some b →
  wp (pg_graph_explore_ptr g (Some p)) (λ r st',
    bricks st' = bricks st ∧ world st' = world st ∧
    (distinct_names st (connected st p) →
       fst r = 0 ∧ errp st' = errp st ∧ graph_of st (connected st p) (snd r)) ∧
    (¬ distinct_names st (connected st p) →
       fst r = -1 ∧ pg_error_is_set (errp st') = true)) st.
Proof.
  intros Hinv Hp. destruct (explore_found_spec st p b Hinv Hp) as (todo&He&Hf).
  unfold pg_graph_explore_ptr. wps. rewrite He. wps.
  eapply wp_mono; [exact Hf|]. intros found st' (->&Hnd&Hin).
  assert (∀ x, connected st p x ↔ x ∈ found ∨ False) as Heq by (intros x; rewrite Hin; tauto).
  eapply wp_mono; [apply (push_all_spec st st found (λ _, False))|].
  - done.
  - apply graph_of_empty.
  - done.
  - set_solver.
  - intros x Hx%Hin. by eapply connected_live; eauto.
  - intros r st' (?&?&Hok&Hko). split_and!; [done..| |].
    + intros Hd. destruct Hok as (?&?&?); [eapply distinct_ext; [|exact Hd]; intros x; by rewrite Heq|].
      split_and!; [done..|]. eapply graph_of_ext; [|done]. intros x. by rewrite Heq.
    + intros Hd. apply Hko. split; [|by intros ? ? []]. intros Hd'. apply Hd.
      eapply distinct_ext; [|exact Hd']. intros x. by rewrite Heq.
Qed.

End Explore.

(** ** Polling a graph *)

Section Poll.

Context {W : Type} (poll_of : ptr → option (M (flow W) (Z * Z))) (name_of : ptr → string).

(** [pg_graph_poll]: [poll_of] is the [poll] pointer of a brick, [name_of] its
    name. *)
Fixpoint poll_list (l : list ptr) : M (flow W) Z :=
  match l with
  | [] => mret 0
  | p :: l =>
      r ← pg_brick_poll (Some (poll_of p));
      if fst r <? 0 then
        e ← gets fl_errp;
        match (e : option pg_error) with
        | None => flow_error (pg_error_new ("Cannot poll " +:+ name_of p))
        | Some _ => mret tt
        end;;
        mret (-1)
      else poll_list l
  end.

Definition pg_graph_poll (g : pg_graph) : M (flow W) Z := poll_list (g_pollable g).

End Poll.

(** ** Properties *)

Section Properties.

Context {W C : Type} (all : list (pg_brick_ops W C)) `{HO : !HashOrder}.
Implicit Types (st : state W) (g : pg_graph) (p : ptr).

(** C6: exploring from a brick of a well-formed store terminates without a crash,
    changes no brick, and when the bricks of its connected component have distinct
    names leaves the graph holding exactly that component, with each pollable
    brick listed once; with a repeated name it returns -1 and an error. *)
Theorem explore_finds_component st g p b :
  Inv all st → bricks st !! p = Some b →
  wp (pg_graph_explore_ptr g (Some p)) (λ r st',
    bricks st' = bricks st ∧ world st' = world st ∧
    (distinct_names st (connected all st p) →
       fst r = 0 ∧ errp st' = errp st ∧ graph_of st (connected all st p) (snd r)) ∧
    (¬ distinct_names st (connected all st p) →
       fst r = -1 ∧ pg_error_is_set (errp st') = true)) st.
Proof. apply explore_spec. Qed.

Lemma connected_sym st p q : Inv all st → connected all st p q → connected all st q p.
Proof.
  intros Hinv. induction 1 as [|x y z Hxy _ IH]; [apply rtc_refl|].
  eapply rtc_r; [exact IH|]. by apply neighbour_sym.
Qed.

Lemma connected_trans_iff st p q x :
  Inv all st → connected all st p q → connected all st q x ↔ connected all st p x.
Proof.
  intros Hinv Hpq. split; intros Hx; (etrans; [|exact Hx]); [done|by apply connected_sym].
Qed.

Lemma hash_order_empty : hash_order ∅ = [].
Proof. apply Permutation_nil. rewrite hash_order_perm, map_to_list_empty. done. Qed.

Lemma any_brick_member st D g q :
  graph_of st D g → get_any_brick g = Some q → D q.
Proof.
  intros [Hall _ Hpoll]. unfold get_any_brick. destruct (g_pollable g) as [|x l].
  - intros Hq. assert (q ∈ hash_order (g_all g)) as Hin.
    { destruct (hash_order (g_all g)); simplify_eq/=. set_solver. }
    rewrite hash_order_perm in Hin. apply list_elem_of_fmap in Hin as ([n x]&->&Hin).
    apply elem_of_map_to_list in Hin. by apply Hall in Hin as [? _].
  - intros [= <-]. by apply (Hpoll x); set_solver.
Qed.

Lemma graph_of_all_unique st D g g' :
  graph_of st D g → graph_of st D g' → g_all g = g_all g'.
Proof.
  intros [H1 _ _] [H2 _ _]. apply map_eq. intros n. apply option_eq. intros x.
  by rewrite H1, H2.
Qed.

(** A graph that holds exactly one connected component passes
    [pg_graph_sanity], which then changes nothing. *)
Theorem sanity_of_component st g p :
  Inv all st → is_Some (bricks st !! p) → distinct_names st (connected all st p) →
  graph_of st (connected all st p) g →
  wp (pg_graph_sanity all g) (λ r st',
    r = 0 ∧ bricks st' = bricks st ∧ world st' = world st ∧ errp st' = errp st) st.
Proof.
  intros Hinv Hp Hd Hg. unfold pg_graph_sanity.
  destruct (get_any_brick g) as [q|] eqn:Hq; [|by wps].
  pose proof (any_brick_member _ _ _ _ Hg Hq) as Hpq.
  destruct (connected_live all st p q Hinv Hp Hpq) as [b Hb].
  pose proof (connected_trans_iff st p q) as Hiff. unfold pg_graph_new. wps.
  eapply wp_mono; [by eapply explore_spec|]. intros r st' (Hbr&Hw&Hok&_).
  destruct Hok as (Hr&He&Hg').
  { eapply distinct_ext; [|exact Hd]. intros x. symmetry. by apply Hiff. }
  assert (g_all (snd r) = g_all g) as Hall.
  { eapply graph_of_all_unique; [exact Hg'|]. eapply graph_of_ext; [|exact Hg].
    intros x. symmetry. by apply Hiff. }
  rewrite Hr. simpl. wps. unfold pg_graph_count. rewrite Hall, Z.ltb_irrefl. wps.
  unfold pg_graph_destroy. simpl. rewrite hash_order_empty. simpl. by wps.
Qed.

(** A brick pushed in a graph under a free name is the one its name gives, and
    popping it again restores the graph; a name already taken makes the push fail
    with an error and leaves the graph as it was. *)
Theorem push_pop_roundtrip st g p b :
  bricks st !! p = Some b →
  wp (pg_graph_push g p) (λ r st',
    match g_all g !! name b with
    | None =>
        fst r = 0 ∧ st' = st ∧ pg_graph_get (snd r) (name b) = Some p ∧
        pg_graph_count (snd r) = pg_graph_count g + 1 ∧
        pg_graph_unsafe_pop (snd r) (name b) st' = Some ((Some p, g), st)
    | Some _ => fst r = -1 ∧ snd r = g ∧ pg_error_is_set (errp st') = true
    end) st.
Proof.
  intros Hp. unfold pg_graph_push. wps.
  destruct (g_all g !! name b) as [q|] eqn:Hn.
  - rewrite decide_True by eauto. unfold set_error. by wps.
  - rewrite decide_False by (apply is_Some_None). wps. simpl.
    unfold pg_graph_get, pg_graph_count, pg_graph_unsafe_pop, pg_graph_get. simpl.
    rewrite lookup_insert_eq, map_size_insert_None by done.
    split_and!; [done..|lia|]. unfold graph_pop, load, mbind, M_bind, gets. simpl.
    rewrite Hp. simpl. rewrite delete_insert_id by done.
    destruct g as [nm ga gp]. simpl in *.
    destruct (poll b); simpl; [by rewrite decide_True|done].
Qed.

End Properties.

(** Polling a graph polls its bricks in order and stops at the first failure;
    a failure always leaves an error, the brick's own or one naming the brick. *)
Theorem graph_poll_error {W} (poll_of : ptr → option (M (flow W) (Z * Z))) name_of g fl r fl' :
  pg_graph_poll poll_of name_of g fl = Some (r, fl') →
  r = 0 ∨ r = -1 ∧ is_Some (fl_errp fl').
Proof.
  unfold pg_graph_poll. generalize (g_pollable g). intros l. revert fl.
  induction l as [|p l IH]; intros fl; cbn [poll_list]; [by intros [= <- _]; left|].
  unfold mbind, M_bind. destruct (pg_brick_poll _ fl) as [[[r0 n] fl1]|]; [|done].
  cbn [fst]. destruct (r0 <? 0); [|apply IH]. intros Hr. right.
  unfold gets in Hr. destruct (fl_errp fl1) eqn:He; simpl in Hr; injection Hr as <- <-;
    (split; [done|]); [by rewrite He|eauto].
Qed.

(** ** Witnesses *)

Definition demo_hash : HashOrder.
Proof. refine {| hash_order m := snd <$> map_to_list m |}. done. Defined.

Definition demo_graph : pg_graph := mk_graph "g" ∅ [].

(** In the linked example the hub and the rxtx brick form one component. *)
Lemma demo_linked_Inv : Inv demo_ops demo_linked.
Proof. apply (R_inv _ _ _ demo_linked_R). Qed.

(** Distinct names can be checked by computation. *)
Lemma distinct_names_check {W} (st : state W) (D : ptr → Prop) :
  (∀ x, D x → is_Some (bricks st !! x)) →
  NoDup ((λ kb, name (snd kb)) <$> map_to_list (bricks st)) →
  distinct_names st D.
Proof.
  intros Hlive Hnd x y Hx Hy Hn. unfold name_at in Hn.
  destruct (Hlive x Hx) as [bx Hbx], (Hlive y Hy) as [by_ Hby].
  rewrite Hbx, Hby in Hn. simpl in Hn. injection Hn as Hn.
  apply elem_of_map_to_list, list_elem_of_lookup in Hbx as [i Hi].
  apply elem_of_map_to_list, list_elem_of_lookup in Hby as [j Hj].
  assert (i = j) as ->; [|congruence].
  eapply (NoDup_lookup _ i j (name bx)); [done|..]; rewrite list_lookup_fmap.
  - by rewrite Hi.
  - by rewrite Hj, Hn.
Qed.

Lemma demo_names p :
  is_Some (bricks demo_linked !! p) →
  distinct_names demo_linked (connected demo_ops demo_linked p).
Proof.
  intros Hp. apply distinct_names_check.
  - intros x. apply connected_live; [apply demo_linked_Inv|done].
  - apply (bool_decide_unpack _). vm_compute. exact I.
Qed.

Lemma explore_finds_component_witness : ∃ g' st',
  pg_graph_explore_ptr (HO := demo_hash) demo_graph (Some 2%positive) demo_linked
  = Some ((0, g'), st') ∧ g_all g' !! "rxtx1" = Some 3%positive ∧
  g_all g' !! "nop1" = None ∧
  graph_of demo_linked (connected demo_ops demo_linked 2) g'.
Proof.
  assert (is_Some (bricks demo_linked !! 2%positive)) as [b Hb] by (vm_compute; eauto).
  pose proof (explore_finds_component (HO := demo_hash) demo_ops demo_linked
    demo_graph 2 b demo_linked_Inv Hb) as H.
  apply wp_run in H as ([r g']&st'&Hr&_&_&Hok&_).
  destruct (Hok (demo_names 2 ltac:(eauto))) as (Hr0&_&Hg). simpl in Hr0, Hg. subst r.
  exists g', st'. split; [exact Hr|]. vm_compute in Hr. injection Hr as <- _.
  split_and!; [reflexivity|reflexivity|exact Hg].
Defined.

Lemma sanity_of_component_witness : ∃ g' st',
  graph_of demo_linked (connected demo_ops demo_linked 2) g' ∧
  pg_graph_sanity (HO := demo_hash) demo_ops g' demo_linked = Some (0, st').
Proof.
  assert (is_Some (bricks demo_linked !! 2%positive)) as [b Hb] by (vm_compute; eauto).
  pose proof (explore_spec (HO := demo_hash) demo_ops demo_linked
    demo_graph 2 b demo_linked_Inv Hb) as H.
  apply wp_run in H as ([r g']&st1&_&_&_&Hok&_).
  destruct (Hok (demo_names 2 ltac:(eauto))) as (_&_&Hg). simpl in Hg.
  pose proof (sanity_of_component (HO := demo_hash) demo_ops demo_linked g' 2
    demo_linked_Inv ltac:(eauto) (demo_names 2 ltac:(eauto)) Hg) as Hs.
  apply wp_run in Hs as (r'&st'&Hrun&->&_). exists g', st'. split; [exact Hg|exact Hrun].
Defined.

Lemma push_pop_roundtrip_witness : ∃ g' st',
  pg_graph_push (W := gmap ptr pg_side) demo_graph 3 demo_linked = Some ((0, g'), st') ∧
  pg_graph_unsafe_pop g' "rxtx1" st' = Some ((Some 3%positive, demo_graph), demo_linked).
Proof.
  assert (is_Some (bricks demo_linked !! 3%positive)) as [b Hb] by (vm_compute; eauto).
  pose proof (push_pop_roundtrip demo_linked demo_graph 3 b Hb) as H.
  apply wp_run in H as ([r g']&st'&Hr&H).
  vm_compute in Hb. injection Hb as <-. destruct H as (Hr0&_&_&_&Hpop).
  simpl in Hr0, Hpop. subst r. exists g', st'. split; [exact Hr|exact Hpop].
Defined.

Lemma graph_poll_error_witness : ∃ fl',
  pg_graph_poll (λ _, None) (λ _, "b") (mk_graph "g" ∅ [1%positive]) flow_start
  = Some (-1, fl') ∧ is_Some (fl_errp fl').
Proof.
  eexists. split; [vm_compute; reflexivity|].
  destruct (graph_poll_error (λ _, None) (λ _, "b") (mk_graph "g" ∅ [1%positive])
    flow_start (-1) _ eq_refl) as [H|[_ H]]; [discriminate H|exact H].
Defined.
