(* ===== verification/MacTable.v ===== *)
(** * The MAC address table

    [src/utils/mac-table.h], [src/utils/mac-table-it-next.h] and [src/utils/mac.h].
    A 48-bit address is split in two 24-bit parts; the first indexes an array of
    sub-tables, the second an array of entries, and each array has a bit mask of
    262144 words telling which slots are in use. The arrays are finite maps (an
    absent mask word is zero, an absent entry is memory never written). *)

From S2P Require Import Prelude Bitmask.

(** ** Addresses *)

(** [union pg_mac], as its 64-bit member. *)
Definition pg_mac := Z.

Definition pg_mac_table_part1 (mac : pg_mac) : Z := Z.land (u32 mac) 0x00ffffff.
Definition pg_mac_table_part2 (mac : pg_mac) : Z :=
  Z.land (u32 (Z.shiftr mac 24)) 0x00ffffff.

(** [pg_mac_table_iterator_mk_key]: [bytes32[0]] is written before [part2], which
    overlaps its last byte. *)
Definition mk_key (p1 p2 : Z) : pg_mac := Z.lor (Z.land p1 0x00ffffff) (Z.shiftl p2 24).

(** ** Masks *)

Definition PG_MAC_TABLE_MASK_SIZE : Z := 0xffffff / 64 + 1.

Definition word (mask : gmap Z Z) (i : Z) : Z := default 0 (mask !! i).

Definition pg_mac_table_mask_idx (p : Z) : Z := p / 64.
Definition pg_mac_table_mask_pos (p : Z) : Z := Z.land p 63.

Definition pg_mac_table_is_set (mask : gmap Z Z) (p : Z) : bool :=
  negb (Z.land (word mask (pg_mac_table_mask_idx p))
               (Z.shiftl ONE64 (pg_mac_table_mask_pos p)) =? 0).

Definition pg_mac_table_mask_set (mask : gmap Z Z) (p : Z) : gmap Z Z :=
  <[pg_mac_table_mask_idx p :=
      Z.lor (word mask (pg_mac_table_mask_idx p))
            (Z.shiftl ONE64 (pg_mac_table_mask_pos p))]> mask.

Definition pg_mac_table_mask_unset (mask : gmap Z Z) (p : Z) : gmap Z Z :=
  <[pg_mac_table_mask_idx p :=
      Z.lxor (word mask (pg_mac_table_mask_idx p))
             (Z.shiftl ONE64 (pg_mac_table_mask_pos p))]> mask.

(** ** Tables *)

Section Table.

Context {A : Type}.

(** [struct pg_mac_table_ptr] and [struct pg_mac_table_elem]; [entries] is NULL
    after a failed allocation. *)
Record sub_table := mk_sub {
  sub_mask : gmap Z Z;
  sub_entries : option (gmap Z A);
}.

(** [struct pg_mac_table]. *)
Record pg_mac_table := mk_tbl {
  mt_mask : gmap Z Z;
  mt_subs : gmap Z sub_table;
}.

(** [pg_mac_table_init]; [ok] tells whether [pg_malloc] succeeds. *)
Definition pg_mac_table_init (ok : bool) : Z * option pg_mac_table :=
  if ok then (0, Some (mk_tbl ∅ ∅)) else (-1, None).

(** How an insertion ends: it returns, or it jumps to the exception handler of the
    table after a failed allocation. *)
Inductive set_result :=
  | SetDone (t : pg_mac_table)
  | SetJump (t : pg_mac_table).

(** [pg_mac_table_ptr_set] and [pg_mac_table_elem_set]; [ok1] and [ok2] tell
    whether the allocations of the sub-table and of its entries succeed. [None]
    is a crash. *)
Definition table_set (ok1 ok2 : bool) (t : pg_mac_table) (mac : pg_mac) (entry : A)
    : option set_result :=
  let part1 := pg_mac_table_part1 mac in
  let part2 := pg_mac_table_part2 mac in
  let write (t : pg_mac_table) :=
    s ← mt_subs t !! part1;
    es ← sub_entries s;
    Some (SetDone (mk_tbl (mt_mask t)
      (<[part1 := mk_sub (pg_mac_table_mask_set (sub_mask s) part2)
                         (Some (<[part2 := entry]> es))]> (mt_subs t)))) in
  if negb (pg_mac_table_is_set (mt_mask t) part1) then
    if negb ok1 then Some (SetJump (mk_tbl (mt_mask t) (delete part1 (mt_subs t))))
    else
      let mask := pg_mac_table_mask_set (mt_mask t) part1 in
      if negb ok2 then
        Some (SetJump (mk_tbl mask (<[part1 := mk_sub ∅ None]> (mt_subs t))))
      else write (mk_tbl mask (<[part1 := mk_sub ∅ (Some ∅)]> (mt_subs t)))
  else write t.

Definition pg_mac_table_ptr_set := table_set.
Definition pg_mac_table_elem_set := table_set.

(** [pg_mac_table_ptr_unset] and [pg_mac_table_elem_unset]. *)
Definition table_unset (t : pg_mac_table) (mac : pg_mac) : option (Z * pg_mac_table) :=
  let part1 := pg_mac_table_part1 mac in
  let part2 := pg_mac_table_part2 mac in
  if negb (pg_mac_table_is_set (mt_mask t) part1) then Some (-1, t)
  else
    s ← mt_subs t !! part1;
    if negb (pg_mac_table_is_set (sub_mask s) part2) then Some (-1, t)
    else Some (0, mk_tbl (mt_mask t)
      (<[part1 := mk_sub (pg_mac_table_mask_unset (sub_mask s) part2) (sub_entries s)]>
         (mt_subs t))).

Definition pg_mac_table_ptr_unset := table_unset.
Definition pg_mac_table_elem_unset := table_unset.

(** [pg_mac_table_ptr_get] and [pg_mac_table_elem_get]: [Some None] is NULL. *)
Definition table_get (t : pg_mac_table) (mac : pg_mac) : option (option A) :=
  let part1 := pg_mac_table_part1 mac in
  let part2 := pg_mac_table_part2 mac in
  if negb (pg_mac_table_is_set (mt_mask t) part1) then Some None
  else
    s ← mt_subs t !! part1;
    if negb (pg_mac_table_is_set (sub_mask s) part2) then Some None
    else es ← sub_entries s; e ← es !! part2; Some (Some e).

Definition pg_mac_table_ptr_get := table_get.
Definition pg_mac_table_elem_get := table_get.

(** The loops over the words of a mask, from word [i], [n] words. *)
Fixpoint words (mask : gmap Z Z) (i : Z) (n : nat) : list Z :=
  match n with
  | O => []
  | S n => ((λ b, i * 64 + Z.of_nat b) <$> PG_FOREACH_BIT (word mask i))
           ++ words mask (i + 1) n
  end.

Definition all_words : nat := Z.to_nat PG_MAC_TABLE_MASK_SIZE.

Fixpoint sum_counts (mask : gmap Z Z) (i : Z) (n : nat) : Z :=
  match n with
  | O => 0
  | S n => pg_mask_count (word mask i) + sum_counts mask (i + 1) n
  end.

(** [pg_mac_table_compute_length]. *)
Fixpoint lengths (t : pg_mac_table) (l : list Z) : option Z :=
  match l with
  | [] => Some 0
  | p :: l =>
      s ← mt_subs t !! p;
      r ← lengths t l;
      Some (sum_counts (sub_mask s) 0 all_words + r)
  end.

Definition pg_mac_table_compute_length (t : pg_mac_table) : option Z :=
  lengths t (words (mt_mask t) 0 all_words).

(** [pg_mac_table_clear]: the sub-tables are freed and the words zeroed;
    [assert(cur)] fails on a slot that is marked but empty. *)
Fixpoint clear_subs (l : list Z) (subs : gmap Z sub_table) : option (gmap Z sub_table) :=
  match l with
  | [] => Some subs
  | p :: l => s ← subs !! p; clear_subs l (delete p subs)
  end.

Fixpoint zero_words (mask : gmap Z Z) (i : Z) (n : nat) : gmap Z Z :=
  match n with
  | O => mask
  | S n => zero_words (if word mask i =? 0 then mask else <[i := 0]> mask) (i + 1) n
  end.

Definition pg_mac_table_clear (t : pg_mac_table) : option pg_mac_table :=
  subs ← clear_subs (words (mt_mask t) 0 all_words) (mt_subs t);
  Some (mk_tbl (zero_words (mt_mask t) 0 all_words) subs).

(** [pg_mac_table_free]: what is left allocated. *)
Definition pg_mac_table_free (t : pg_mac_table) : option (gmap Z sub_table) :=
  clear_subs (words (mt_mask t) 0 all_words) (mt_subs t).

(** ** Iteration *)

(** [struct pg_mac_table_iterator]; [ti_end] is [i == UINT32_MAX]. [ti_val] is the
    entry under the iterator. *)
Record table_iterator := mk_tit {
  ti_i : Z; ti_j : Z; ti_m0 : Z; ti_m1 : Z; ti_mi : Z; ti_mj : Z;
  ti_end : bool; ti_val : option A;
}.

(** The loop on [j]: the position found, with the rest of its word. *)
Fixpoint next_j (s : sub_table) (j : Z) (n : nat) (m1 : Z) (been_out : bool)
    : option (Z * Z * Z) :=
  match n with
  | O => None
  | S n =>
      let m1 := if been_out then word (sub_mask s) j else m1 in
      if m1 =? 0 then next_j s (j + 1) n m1 true
      else let '(m1', mj) := pg_low_bit_iterate m1 in Some (j, Z.of_nat mj, m1')
  end.

Inductive next_result :=
  | NextFound (it : table_iterator)
  | NextNone (m1 : Z) (been_out : bool) (j : Z).

(** The loop on the bits of [m0]: at most 64 turns. *)
Fixpoint next_m0 (fuel : nat) (t : pg_mac_table) (i j m0 m1 : Z) (been_out : bool)
    : option next_result :=
  if m0 =? 0 then Some (NextNone m1 been_out j)
  else
    match fuel with
    | O => None
    | S fuel =>
        let mi := Z.of_nat (ctz64 m0) in
        imt ← mt_subs t !! (i * 64 + mi);
        match next_j imt j (Z.to_nat (PG_MAC_TABLE_MASK_SIZE - j)) m1 been_out with
        | Some (j', mj, m1') =>
            es ← sub_entries imt;
            Some (NextFound (mk_tit i j' m0 m1' mi mj false (es !! (j' * 64 + mj))))
        | None =>
            next_m0 fuel t i 0 (Z.land m0 (not64 (Z.shiftl ONE64 mi))) 0 true
        end
    end.

(** The loop on [i]; the read of [mask[++i]] past the last word is not used. *)
Fixpoint next_i (t : pg_mac_table) (i : Z) (n : nat) (j m0 m1 : Z) (been_out : bool)
    : option (option table_iterator) :=
  match n with
  | O => Some None
  | S n =>
      r ← next_m0 64 t i j m0 m1 been_out;
      match r with
      | NextFound it => Some (Some it)
      | NextNone m1 been_out j =>
          next_i t (i + 1) n j (word (mt_mask t) (i + 1)) m1 been_out
      end
  end.

Definition pg_mac_table_iterator_next (t : pg_mac_table) (it : table_iterator)
    : option table_iterator :=
  r ← next_i t (ti_i it) (Z.to_nat (PG_MAC_TABLE_MASK_SIZE - ti_i it))
        (ti_j it) (ti_m0 it) (ti_m1 it) false;
  Some (match r with
        | Some it' => it'
        | None => mk_tit (ti_i it) (ti_j it) (ti_m0 it) (ti_m1 it) (ti_mi it) (ti_mj it)
                         true (ti_val it)
        end).

Definition pg_mac_table_iterator_init (t : pg_mac_table) : option table_iterator :=
  let m0 := word (mt_mask t) 0 in
  if negb (Z.land m0 1 =? 0) then
    s ← mt_subs t !! 0;
    let m1 := word (sub_mask s) 0 in
    if negb (Z.land m1 1 =? 0) then
      es ← sub_entries s;
      Some (mk_tit 0 0 m0 (Z.land m1 (not64 1)) 0 0 false (es !! 0))
    else pg_mac_table_iterator_next t (mk_tit 0 0 m0 m1 0 0 false None)
  else pg_mac_table_iterator_next t (mk_tit 0 0 m0 0 0 0 false None).

Definition iterator_key (it : table_iterator) : Z * Z :=
  (ti_i it * 64 + ti_mi it, ti_j it * 64 + ti_mj it).

(** [PG_MAC_TABLE_FOREACH_PTR]: the body may change the table. *)
Fixpoint table_foreach (fuel : nat) (body : pg_mac → option A → pg_mac_table → option pg_mac_table)
    (it : table_iterator) (t : pg_mac_table) : option pg_mac_table :=
  if ti_end it then Some t
  else
    match fuel with
    | O => None
    | S fuel =>
        let '(p1, p2) := iterator_key it in
        t' ← body (mk_key p1 p2) (ti_val it) t;
        it' ← pg_mac_table_iterator_next t' it;
        table_foreach fuel body it' t'
    end.

End Table.

Arguments sub_table : clear implicits.
Arguments pg_mac_table : clear implicits.
Arguments table_iterator : clear implicits.

Arguments pg_mac_table_part1 : simpl never.
Arguments pg_mac_table_part2 : simpl never.
Arguments pg_mac_table_is_set : simpl never.
Arguments pg_mac_table_mask_set : simpl never.
Arguments pg_mac_table_mask_unset : simpl never.
Arguments PG_MAC_TABLE_MASK_SIZE : simpl never.
Arguments all_words : simpl never.
Arguments mk_key : simpl never.

(** ** Masks as sets of slots *)

Definition mask_wf (mask : gmap Z Z) : Prop := ∀ i, is_mask (word mask i).

Lemma word_insert mask i v j : word (<[i := v]> mask) j = if decide (i = j) then v else word mask j.
Proof.
  unfold word. case_decide; [subst; by rewrite lookup_insert_eq|by rewrite lookup_insert_ne].
Qed.

Lemma mask_pos_mod p : pg_mac_table_mask_pos p = p mod 64.
Proof. unfold pg_mac_table_mask_pos. change 63 with (Z.ones 6). by rewrite Z.land_ones. Qed.

Lemma is_set_testbit mask p :
  pg_mac_table_is_set mask p = Z.testbit (word mask (p / 64)) (p mod 64).
Proof.
  unfold pg_mac_table_is_set, pg_mac_table_mask_idx, ONE64.
  rewrite mask_pos_mod, Z.shiftl_1_l.
  pose proof (Z.mod_pos_bound p 64 ltac:(lia)) as Hp.
  set (w := word mask (p / 64)). set (k := p mod 64) in *.
  destruct (Z.testbit w k) eqn:Hb.
  - apply negb_true_iff, Z.eqb_neq. intros H0.
    assert (Z.testbit (Z.land w (2 ^ k)) k = true) as H.
    { rewrite Z.land_spec, Hb, Z.pow2_bits_true by lia. done. }
    rewrite H0, Z.bits_0 in H. done.
  - apply negb_false_iff, Z.eqb_eq, Z.bits_inj'. intros n Hn.
    rewrite Z.land_spec, Z.bits_0, Z.pow2_bits_eqb by lia.
    destruct (Z.eqb_spec k n) as [<-|]; [by rewrite Hb|apply andb_false_r].
Qed.

Lemma slot_split p q : p = q ↔ p / 64 = q / 64 ∧ p mod 64 = q mod 64.
Proof.
  split; [by intros ->|]. intros [H1 H2].
  rewrite (Z.div_mod p 64), (Z.div_mod q 64), H1, H2 by lia. done.
Qed.

Lemma is_set_set mask p q :
  pg_mac_table_is_set (pg_mac_table_mask_set mask p) q
  = bool_decide (p = q) || pg_mac_table_is_set mask q.
Proof.
  rewrite !is_set_testbit. unfold pg_mac_table_mask_set, pg_mac_table_mask_idx, ONE64.
  rewrite word_insert, mask_pos_mod, Z.shiftl_1_l.
  pose proof (Z.mod_pos_bound p 64 ltac:(lia)). pose proof (Z.mod_pos_bound q 64 ltac:(lia)).
  case_decide as Hd.
  - rewrite Z.lor_spec, Z.pow2_bits_eqb, Hd, orb_comm by lia. f_equal.
    destruct (Z.eqb_spec (p mod 64) (q mod 64)); symmetry.
    + apply bool_decide_eq_true. by apply slot_split.
    + apply bool_decide_eq_false. intros ->. done.
  - rewrite bool_decide_eq_false_2; [done|]. by intros ->.
Qed.

Lemma is_set_unset mask p q :
  pg_mac_table_is_set mask p = true →
  pg_mac_table_is_set (pg_mac_table_mask_unset mask p) q
  = negb (bool_decide (p = q)) && pg_mac_table_is_set mask q.
Proof.
  rewrite !is_set_testbit. intros Hset.
  unfold pg_mac_table_mask_unset, pg_mac_table_mask_idx, ONE64.
  rewrite word_insert, mask_pos_mod, Z.shiftl_1_l.
  pose proof (Z.mod_pos_bound p 64 ltac:(lia)). pose proof (Z.mod_pos_bound q 64 ltac:(lia)).
  case_decide as Hd.
  - rewrite Z.lxor_spec, Z.pow2_bits_eqb by lia.
    destruct (Z.eqb_spec (p mod 64) (q mod 64)) as [He|He].
    + rewrite bool_decide_eq_true_2 by (by apply slot_split).
      rewrite <- Hd, <- He, Hset. done.
    + rewrite bool_decide_eq_false_2 by (by intros ->). rewrite Hd. apply xorb_false_r.
  - rewrite bool_decide_eq_false_2; [done|]. by intros ->.
Qed.

Lemma mask_wf_insert mask i v : mask_wf mask → is_mask v → mask_wf (<[i := v]> mask).
Proof. intros Hm Hv j. rewrite word_insert. by case_decide. Qed.

Lemma slot_bit_mask p : is_mask (Z.shiftl ONE64 (pg_mac_table_mask_pos p)).
Proof.
  rewrite mask_pos_mod. pose proof (Z.mod_pos_bound p 64 ltac:(lia)).
  rewrite <- (Z2Nat.id (p mod 64)) by lia. apply is_mask_bit. lia.
Qed.

Lemma mask_wf_set mask p : mask_wf mask → mask_wf (pg_mac_table_mask_set mask p).
Proof.
  intros Hm. apply mask_wf_insert; [done|]. apply is_mask_lor; [apply Hm|apply slot_bit_mask].
Qed.

Lemma is_mask_lxor m n : is_mask m → is_mask n → is_mask (Z.lxor m n).
Proof.
  intros Hm Hn. unfold is_mask in *. apply (bits_bound 64); [lia| |].
  - apply Z.lxor_nonneg. lia.
  - intros i Hi. by rewrite Z.lxor_spec, (testbit_high m 64), (testbit_high n 64) by lia.
Qed.

Lemma mask_wf_unset mask p : mask_wf mask → mask_wf (pg_mac_table_mask_unset mask p).
Proof.
  intros Hm. apply mask_wf_insert; [done|]. apply is_mask_lxor; [apply Hm|apply slot_bit_mask].
Qed.

Lemma mask_wf_empty : mask_wf ∅.
Proof. intros i. unfold word. rewrite lookup_empty. apply is_mask_0. Qed.

Lemma is_set_empty p : pg_mac_table_is_set ∅ p = false.
Proof. rewrite is_set_testbit. unfold word. rewrite lookup_empty. apply Z.bits_0. Qed.

(** ** The slots in order *)

Lemma foreach_unfold m :
  is_mask m → m ≠ 0 →
  PG_FOREACH_BIT m = ctz64 m ::
    PG_FOREACH_BIT (Z.land m (not64 (Z.shiftl ONE64 (Z.of_nat (ctz64 m))))).
Proof.
  intros Hm Hne. set (m' := Z.land m _).
  assert (is_mask m') as Hm' by (unfold m'; auto with pg).
  assert (∀ i, mask_has m' i = mask_has m i && negb (bool_decide (ctz64 m = i))) as Hhas.
  { intros i. unfold m'. by rewrite mask_has_clear, mask_has_bit. }
  apply sorted_ext.
  - by apply foreach_bit_sorted.
  - constructor; [by apply foreach_bit_sorted|]. apply Forall_forall. intros i Hi.
    apply elem_of_foreach in Hi; [|done]. rewrite Hhas in Hi.
    apply andb_prop in Hi as [Hi ?%negb_true_iff%bool_decide_eq_false].
    apply ctz64_lowest in Hi; [lia|done].
  - intros i. rewrite elem_of_cons, !elem_of_foreach, Hhas, andb_true_iff, negb_true_iff,
      bool_decide_eq_false by done.
    pose proof (ctz64_set m Hm Hne). destruct (decide (i = ctz64 m)) as [->|]; naive_solver.
Qed.

Lemma elem_of_word mask i p :
  mask_wf mask →
  p ∈ ((λ b, i * 64 + Z.of_nat b) <$> PG_FOREACH_BIT (word mask i)) ↔
  i * 64 ≤ p < i * 64 + 64 ∧ pg_mac_table_is_set mask p = true.
Proof.
  intros Hm. rewrite list_elem_of_fmap. setoid_rewrite (elem_of_foreach (word mask i)); [|done].
  rewrite is_set_testbit. split.
  - intros (b&->&Hb). pose proof (mask_has_lt _ _ (Hm i) Hb) as Hlt.
    rewrite (Z.add_comm (i * 64)), Z.div_add, Z.mod_add by lia.
    rewrite Z.div_small, Z.mod_small by lia. split; [lia|done].
  - intros [Hr Hp]. exists (Z.to_nat (p - i * 64)). split; [lia|].
    assert (p / 64 = i) as Hdiv by (symmetry; apply (Z.div_unique p 64 i (p - i * 64)); lia).
    assert (p mod 64 = p - i * 64) as Hmod by (symmetry; apply (Z.mod_unique p 64 i); lia).
    rewrite Hdiv, Hmod in Hp. unfold mask_has. by rewrite Z2Nat.id by lia.
Qed.

Lemma elem_of_words mask i n p :
  mask_wf mask →
  p ∈ words mask i n ↔
  i * 64 ≤ p < (i + Z.of_nat n) * 64 ∧ pg_mac_table_is_set mask p = true.
Proof.
  intros Hm. revert i. induction n as [|n IH]; intros i; cbn [words].
  - split; [set_solver|]. intros [? _]. lia.
  - rewrite elem_of_app, elem_of_word, IH by done. split.
    + intros [[? ?]|[? ?]]; (split; [lia|done]).
    + intros [? ?]. destruct (decide (p < i * 64 + 64)); [left|right]; (split; [lia|done]).
Qed.

Lemma NoDup_word i m :
  is_mask m → NoDup ((λ b, i * 64 + Z.of_nat b) <$> PG_FOREACH_BIT m).
Proof.
  intros Hm. apply NoDup_fmap; [intros b c H; lia|by apply foreach_NoDup].
Qed.

Lemma NoDup_words mask i n : mask_wf mask → NoDup (words mask i n).
Proof.
  intros Hm. revert i. induction n as [|n IH]; intros i; cbn [words]; [constructor|].
  apply NoDup_app. split_and!; [by apply NoDup_word|..|by apply IH].
  intros p Hp%elem_of_word Hp'%elem_of_words; [lia|done..].
Qed.

(** ** The table as a map *)

Definition in24 (p : Z) : Prop := 0 ≤ p < 2 ^ 24.

Lemma part1_range mac : in24 (pg_mac_table_part1 mac).
Proof.
  unfold in24, pg_mac_table_part1. change 0x00ffffff with (Z.ones 24).
  rewrite Z.land_ones by lia. apply Z.mod_pos_bound. lia.
Qed.

Lemma part2_range mac : in24 (pg_mac_table_part2 mac).
Proof.
  unfold in24, pg_mac_table_part2. change 0x00ffffff with (Z.ones 24).
  rewrite Z.land_ones by lia. apply Z.mod_pos_bound. lia.
Qed.

Definition mac_key (mac : pg_mac) : Z * Z := (pg_mac_table_part1 mac, pg_mac_table_part2 mac).

Lemma mk_key_key p1 p2 : in24 p1 → in24 p2 → mac_key (mk_key p1 p2) = (p1, p2).
Proof.
  unfold in24. intros H1 H2. unfold mac_key, pg_mac_table_part1, pg_mac_table_part2, mk_key, u32.
  change 0x00ffffff with (Z.ones 24). f_equal.
  - apply (bits_ext 24); [lia|rewrite Z.land_ones by lia; apply Z.mod_pos_bound; lia|done|].
    intros i Hi. rewrite Z.land_spec, Z.testbit_ones_nonneg, Z.mod_pow2_bits_low by lia.
    rewrite Z.lor_spec, Z.land_spec, Z.testbit_ones_nonneg, Z.shiftl_spec by lia.
    rewrite (Z.testbit_neg_r p2 (i - 24)) by lia.
    rewrite (proj2 (Z.ltb_lt i 24)) by lia. by rewrite orb_false_r, !andb_true_r.
  - apply (bits_ext 24); [lia|rewrite Z.land_ones by lia; apply Z.mod_pos_bound; lia|done|].
    intros i Hi. rewrite Z.land_spec, Z.testbit_ones_nonneg, Z.mod_pow2_bits_low by lia.
    rewrite Z.shiftr_spec, Z.lor_spec, Z.land_spec, Z.testbit_ones_nonneg, Z.shiftl_spec by lia.
    rewrite (proj2 (Z.ltb_lt i 24)) by lia. rewrite (proj2 (Z.ltb_ge (i + 24) 24)) by lia.
    rewrite andb_false_r, andb_true_r. simpl. f_equal. lia.
Qed.

(** Simplification that does not touch words and keys. *)
Local Ltac tsimp := cbn [fst snd mbind option_bind negb orb andb mt_mask mt_subs
  sub_mask sub_entries].
Local Ltac tsimp_in H := cbn [fst snd mbind option_bind negb orb andb mt_mask mt_subs
  sub_mask sub_entries] in H.
Local Ltac tsimp_all := cbn [fst snd mbind option_bind negb orb andb mt_mask mt_subs
  sub_mask sub_entries] in *.

Section TableProps.

Context {A : Type}.
Implicit Types (t : pg_mac_table A) (s : sub_table A).

(** Every slot marked in use has a sub-table with its entries written. *)
Record tbl_ok t : Prop := {
  ok_mask : mask_wf (mt_mask t);
  ok_sub p : pg_mac_table_is_set (mt_mask t) p = true →
    ∃ s es, mt_subs t !! p = Some s ∧ sub_entries s = Some es ∧ mask_wf (sub_mask s) ∧
      ∀ q, pg_mac_table_is_set (sub_mask s) q = true → is_Some (es !! q);
}.

Definition sub_lookup s (p2 : Z) : option A :=
  if pg_mac_table_is_set (sub_mask s) p2 then es ← sub_entries s; es !! p2 else None.

Definition tlookup t (k : Z * Z) : option A :=
  if pg_mac_table_is_set (mt_mask t) (fst k)
  then s ← mt_subs t !! fst k; sub_lookup s (snd k) else None.

(** The abstract state: a finite map from addresses to entries. *)
Record rep t (m : gmap (Z * Z) A) : Prop := {
  rep_ok : tbl_ok t;
  rep_range k v : m !! k = Some v → in24 (fst k) ∧ in24 (snd k);
  rep_lookup k : in24 (fst k) → in24 (snd k) → m !! k = tlookup t k;
}.

Lemma rep_empty_table : rep (mk_tbl ∅ ∅) ∅.
Proof.
  split; [split|..]; tsimp.
  - apply mask_wf_empty.
  - intros p. by rewrite is_set_empty.
  - intros k v. by rewrite lookup_empty.
  - intros k _ _. unfold tlookup. tsimp. by rewrite is_set_empty, lookup_empty.
Qed.

Lemma get_spec t m mac : rep t m → table_get t mac = Some (m !! mac_key mac).
Proof.
  intros [Hok _ Hl].
  rewrite Hl by (apply part1_range || apply part2_range). unfold table_get, tlookup, mac_key.
  tsimp. destruct (pg_mac_table_is_set (mt_mask t) _) eqn:H1; [|done]. tsimp.
  destruct (ok_sub _ Hok _ H1) as (s&es&->&Hes&_&Hq). tsimp. unfold sub_lookup.
  destruct (pg_mac_table_is_set (sub_mask s) _) eqn:H2; [|done]. tsimp. rewrite Hes. tsimp.
  by destruct (Hq _ H2) as [e ->].
Qed.

(** Writing an entry in a table whose first part is allocated. *)
Lemma write_ok t p1 p2 s es v :
  tbl_ok t → pg_mac_table_is_set (mt_mask t) p1 = true →
  mt_subs t !! p1 = Some s → sub_entries s = Some es →
  let t' := mk_tbl (mt_mask t) (<[p1 := mk_sub (pg_mac_table_mask_set (sub_mask s) p2)
                                  (Some (<[p2 := v]> es))]> (mt_subs t)) in
  tbl_ok t' ∧ ∀ k, tlookup t' k = if decide (k = (p1, p2)) then Some v else tlookup t k.
Proof.
  intros Hok H1 Hs Hes t'; subst t'. destruct (ok_sub _ Hok _ H1) as (s'&es'&Hs'&Hes'&Hwf&Hq).
  simplify_eq. split.
  - split; tsimp; [apply Hok|]. intros p Hp. destruct (decide (p = p1)) as [->|Hne].
    + rewrite lookup_insert_eq. do 2 eexists. split_and!; [done|done|by apply mask_wf_set|].
      intros q. tsimp. rewrite is_set_set. intros [Hpq%bool_decide_eq_true|Hset]%orb_true_iff.
      * subst. rewrite lookup_insert_eq. eauto.
      * destruct (decide (p2 = q)) as [->|]; [rewrite lookup_insert_eq; eauto|].
        rewrite lookup_insert_ne by done. by apply Hq.
    + rewrite lookup_insert_ne by done. by apply (ok_sub _ Hok).
  - intros [k1 k2]. unfold tlookup. tsimp.
    destruct (decide (k1 = p1)) as [->|Hne].
    + rewrite H1, Hs, lookup_insert_eq. tsimp. unfold sub_lookup. tsimp.
      rewrite is_set_set. destruct (decide (p2 = k2)) as [->|Hne].
      * rewrite bool_decide_eq_true_2, decide_True by done. tsimp. apply lookup_insert_eq.
      * rewrite bool_decide_eq_false_2, decide_False by (done || congruence). tsimp.
        rewrite lookup_insert_ne by done. by rewrite Hes.
    + rewrite lookup_insert_ne, decide_False by (done || congruence). done.
Qed.

(** Allocating an empty sub-table. *)
Lemma alloc_ok t p1 :
  tbl_ok t → pg_mac_table_is_set (mt_mask t) p1 = false →
  let t' := mk_tbl (pg_mac_table_mask_set (mt_mask t) p1)
                   (<[p1 := mk_sub ∅ (Some ∅)]> (mt_subs t)) in
  tbl_ok t' ∧ ∀ k, tlookup t' k = tlookup t k.
Proof.
  intros Hok H1 t'; subst t'. split.
  - split; tsimp; [apply mask_wf_set, Hok|]. intros p. rewrite is_set_set.
    destruct (decide (p = p1)) as [->|Hne].
    + intros _. rewrite lookup_insert_eq. do 2 eexists. tsimp.
      split_and!; [done|done|apply mask_wf_empty|]. tsimp. intros q. by rewrite is_set_empty.
    + rewrite bool_decide_eq_false_2, lookup_insert_ne by done. apply (ok_sub _ Hok).
  - intros [k1 k2]. unfold tlookup. tsimp. rewrite is_set_set.
    destruct (decide (k1 = p1)) as [->|Hne].
    + rewrite bool_decide_eq_true_2, lookup_insert_eq, H1 by done. tsimp.
      unfold sub_lookup. tsimp. by rewrite is_set_empty.
    + rewrite bool_decide_eq_false_2, lookup_insert_ne by done. done.
Qed.

Lemma set_spec t m mac v :
  rep t m →
  ∃ t', table_set true true t mac v = Some (SetDone t') ∧ rep t' (<[mac_key mac := v]> m).
Proof.
  intros [Hok Hr Hl].
  assert (∀ t1, tbl_ok t1 → (∀ k, tlookup t1 k = tlookup t k) →
    pg_mac_table_is_set (mt_mask t1) (pg_mac_table_part1 mac) = true →
    ∃ s es, mt_subs t1 !! pg_mac_table_part1 mac = Some s ∧ sub_entries s = Some es ∧
    rep (mk_tbl (mt_mask t1) (<[pg_mac_table_part1 mac :=
      mk_sub (pg_mac_table_mask_set (sub_mask s) (pg_mac_table_part2 mac))
        (Some (<[pg_mac_table_part2 mac := v]> es))]> (mt_subs t1)))
      (<[mac_key mac := v]> m)) as Hwrite.
  { intros t1 Hok1 Hl1 H1. destruct (ok_sub _ Hok1 _ H1) as (s&es&Hs&Hes&_).
    exists s, es. split_and!; [done..|].
    destruct (write_ok t1 _ (pg_mac_table_part2 mac) s es v Hok1 H1 Hs Hes) as [Hok' Hl'].
    split; [done|..].
    - intros k w [[<- _]|[_ Hk]]%lookup_insert_Some; [|by eapply Hr].
      split; [apply part1_range|apply part2_range].
    - intros k Hk1 Hk2. rewrite Hl', Hl1. unfold mac_key. case_decide as Hd.
      + subst. by rewrite lookup_insert_eq.
      + rewrite lookup_insert_ne by congruence. by apply Hl. }
  unfold table_set. destruct (pg_mac_table_is_set (mt_mask t) _) eqn:H1; tsimp.
  - destruct (Hwrite t) as (s&es&->&Hes&Hrep); [done..|]. tsimp. rewrite Hes. tsimp. eauto.
  - destruct (alloc_ok t _ Hok H1) as [Hok1 Hl1].
    destruct (Hwrite _ Hok1 Hl1) as (s&es&Hs&Hes&Hrep).
    { tsimp. rewrite is_set_set. by rewrite bool_decide_eq_true_2. }
    tsimp_in Hs. rewrite Hs. tsimp. rewrite Hes. tsimp. eauto.
Qed.

Lemma unset_spec t m mac :
  rep t m →
  ∃ t', table_unset t mac =
    Some ((if decide (is_Some (m !! mac_key mac)) then 0 else -1), t') ∧
    rep t' (delete (mac_key mac) m) ∧ mt_mask t' = mt_mask t.
Proof.
  intros Hrep. pose proof Hrep as [Hok Hr Hl].
  pose proof (Hl (mac_key mac) (part1_range mac) (part2_range mac)) as Hm.
  unfold table_unset, mac_key in *. unfold tlookup in Hm. tsimp_in Hm.
  assert (m !! (pg_mac_table_part1 mac, pg_mac_table_part2 mac) = None →
    rep t (delete (pg_mac_table_part1 mac, pg_mac_table_part2 mac) m)) as Hsame
    by (intros; by rewrite delete_id).
  destruct (pg_mac_table_is_set (mt_mask t) _) eqn:H1; tsimp;
    [|rewrite decide_False by (rewrite Hm; apply is_Some_None); eauto].
  destruct (ok_sub _ Hok _ H1) as (s&es&Hs&Hes&Hwf&Hq). rewrite Hs in *. tsimp_all.
  unfold sub_lookup in Hm. destruct (pg_mac_table_is_set (sub_mask s) _) eqn:H2; tsimp;
    [|rewrite decide_False by (rewrite Hm; apply is_Some_None); eauto].
  rewrite Hes in Hm. tsimp_in Hm. destruct (Hq _ H2) as [e He].
  rewrite decide_True by (rewrite Hm, He; eauto). eexists. split; [done|]. split; [|done].
  split; [split|..]; tsimp.
  - apply Hok.
  - intros p Hp. destruct (decide (p = pg_mac_table_part1 mac)) as [->|Hne].
    + rewrite lookup_insert_eq. do 2 eexists. tsimp.
      split_and!; [done..|by apply mask_wf_unset|]. intros q. tsimp.
      rewrite is_set_unset by done. intros [_ Hq']%andb_prop. by apply Hq.
    + rewrite lookup_insert_ne by done. by apply (ok_sub _ Hok).
  - intros k v [_ Hk]%lookup_delete_Some. by eapply Hr.
  - intros [k1 k2] Hk1 Hk2. tsimp_all. unfold tlookup. tsimp.
    destruct (decide (k1 = pg_mac_table_part1 mac)) as [->|Hne].
    + rewrite H1, lookup_insert_eq. tsimp. unfold sub_lookup. tsimp.
      rewrite is_set_unset by done. destruct (decide (pg_mac_table_part2 mac = k2)) as [->|Hne].
      * by rewrite bool_decide_eq_true_2, lookup_delete_eq by done.
      * rewrite bool_decide_eq_false_2, lookup_delete_ne by (done || congruence). tsimp.
        rewrite Hl by done. unfold tlookup. tsimp. by rewrite H1, Hs.
    + rewrite lookup_insert_ne, lookup_delete_ne by (done || congruence).
      rewrite Hl by done. done.
Qed.

End TableProps.

(** ** Enumerating a table *)

Lemma mask_size_24 : PG_MAC_TABLE_MASK_SIZE * 64 = 2 ^ 24.
Proof. reflexivity. Qed.

Lemma mask_size_val : PG_MAC_TABLE_MASK_SIZE = 2 ^ 18.
Proof. reflexivity. Qed.

Lemma all_words_val : Z.of_nat all_words = PG_MAC_TABLE_MASK_SIZE.
Proof. unfold all_words. rewrite Z2Nat.id; [done|]. rewrite mask_size_val. lia. Qed.

#[global] Opaque all_words PG_MAC_TABLE_MASK_SIZE.

Lemma elem_of_all_words mask p :
  mask_wf mask →
  p ∈ words mask 0 all_words ↔ in24 p ∧ pg_mac_table_is_set mask p = true.
Proof.
  intros Hm. rewrite elem_of_words, all_words_val by done. unfold in24.
  rewrite <- mask_size_24. split; intros [? ?]; (split; [lia|done]).
Qed.

Section Enumerate.

Context {A : Type}.
Implicit Types (t : pg_mac_table A) (s : sub_table A) (m : gmap (Z * Z) A).

Definition sub_keys t (p1 : Z) : list (Z * Z) :=
  match mt_subs t !! p1 with
  | Some s => pair p1 <$> words (sub_mask s) 0 all_words
  | None => []
  end.

(** The keys of a table, by increasing first and second part. *)
Definition table_keys t : list (Z * Z) := words (mt_mask t) 0 all_words ≫= sub_keys t.

Lemma elem_of_sub_keys t k p1 :
  tbl_ok t → pg_mac_table_is_set (mt_mask t) p1 = true →
  k ∈ sub_keys t p1 ↔ fst k = p1 ∧ in24 (snd k) ∧ is_Some (tlookup t k).
Proof.
  intros Hok H1. destruct (ok_sub _ Hok _ H1) as (s&es&Hs&Hes&Hwf&Hq).
  unfold sub_keys. rewrite Hs, list_elem_of_fmap.
  setoid_rewrite elem_of_all_words; [|done]. unfold tlookup. split.
  - intros (p2&->&Hr&H2). tsimp. split_and!; [done..|]. rewrite H1, Hs. tsimp.
    unfold sub_lookup. rewrite H2, Hes. by apply Hq.
  - destruct k as [k1 k2]. tsimp. intros (->&Hr&Hl). rewrite H1, Hs in Hl. tsimp_in Hl.
    unfold sub_lookup in Hl. exists k2. split_and!; [done..|].
    destruct (pg_mac_table_is_set (sub_mask s) k2); [done|]. by destruct Hl.
Qed.

Lemma elem_of_keys t k :
  tbl_ok t → k ∈ table_keys t ↔ in24 (fst k) ∧ in24 (snd k) ∧ is_Some (tlookup t k).
Proof.
  intros Hok. unfold table_keys. rewrite list_elem_of_bind.
  setoid_rewrite (elem_of_all_words (mt_mask t)); [|apply Hok]. split.
  - intros (p1&Hk&Hr&H1). apply elem_of_sub_keys in Hk as (<-&?&?); [|done..]. done.
  - intros (Hr1&Hr2&Hl). assert (pg_mac_table_is_set (mt_mask t) (fst k) = true) as H1.
    { unfold tlookup in Hl. destruct (pg_mac_table_is_set (mt_mask t) (fst k)); [done|].
      by destruct Hl. }
    exists (fst k). split; [|done]. by apply elem_of_sub_keys.
Qed.

Lemma NoDup_keys_from t l :
  tbl_ok t → NoDup l → (∀ p, p ∈ l → pg_mac_table_is_set (mt_mask t) p = true) →
  NoDup (l ≫= sub_keys t).
Proof.
  intros Hok. induction 1 as [|p l Hp Hnd IH]; intros Hset; [constructor|].
  cbn [mbind list_bind]. apply NoDup_app. split_and!.
  - unfold sub_keys. destruct (ok_sub _ Hok p) as (s&es&->&_&Hwf&_); [apply Hset; set_solver|].
    apply NoDup_fmap; [intros ? ? H; congruence|by apply NoDup_words].
  - intros k Hk Hk'. apply elem_of_sub_keys in Hk as (<-&_); [|done|apply Hset; set_solver].
    apply list_elem_of_bind in Hk' as (q&Hk'&Hq).
    apply elem_of_sub_keys in Hk' as (E&_); [|done|apply Hset; set_solver].
    by rewrite E in Hp.
  - apply IH. set_solver.
Qed.

Lemma NoDup_keys t : tbl_ok t → NoDup (table_keys t).
Proof.
  intros Hok. apply NoDup_keys_from; [done|apply NoDup_words, Hok|].
  intros p. rewrite elem_of_all_words by apply Hok. by intros [_ ?].
Qed.

Lemma keys_dom t m : rep t m → list_to_set (table_keys t) = dom m.
Proof.
  intros [Hok Hr Hl]. apply set_eq. intros k.
  rewrite elem_of_list_to_set, elem_of_dom, elem_of_keys by done. split.
  - intros (?&?&?). by rewrite Hl.
  - intros [v Hv]. destruct (Hr _ _ Hv) as [Hr1 Hr2]. split_and!; [done..|].
    rewrite <- Hl by done. eauto.
Qed.

(** *** Counting *)

Lemma sum_counts_length mask i n :
  mask_wf mask → sum_counts mask i n = Z.of_nat (length (words mask i n)).
Proof.
  intros Hm. revert i. induction n as [|n IH]; intros i; cbn [sum_counts words]; [done|].
  rewrite length_app, length_fmap, IH, mask_count_foreach by apply Hm. lia.
Qed.

Lemma lengths_spec t l :
  tbl_ok t → (∀ p, p ∈ l → pg_mac_table_is_set (mt_mask t) p = true) →
  lengths t l = Some (Z.of_nat (length (l ≫= sub_keys t))).
Proof.
  intros Hok. induction l as [|p l IH]; intros Hset; [done|]. cbn [lengths].
  destruct (ok_sub _ Hok p) as (s&es&Hs&_&Hwf&_); [apply Hset; set_solver|].
  assert (length (sub_keys t p) = length (words (sub_mask s) 0 all_words)) as Hlen
    by (unfold sub_keys; by rewrite Hs, length_fmap).
  rewrite bind_cons, length_app, Hlen, IH, Hs by set_solver.
  generalize (length (l ≫= sub_keys t)). intros n. tsimp.
  rewrite sum_counts_length by done. f_equal. lia.
Qed.

Lemma compute_length_spec t m :
  rep t m → pg_mac_table_compute_length t = Some (Z.of_nat (size m)).
Proof.
  intros Hrep. pose proof (rep_ok _ _ Hrep) as Hok. unfold pg_mac_table_compute_length.
  rewrite lengths_spec; [|done|].
  - f_equal. f_equal. fold (table_keys t). rewrite <- size_dom.
    rewrite <- (keys_dom t m Hrep), size_list_to_set; [done|by apply NoDup_keys].
  - intros p. rewrite elem_of_all_words by apply Hok. by intros [_ ?].
Qed.

(** *** Clearing *)

Lemma clear_subs_spec (l : list Z) (subs : gmap Z (sub_table A)) :
  NoDup l → (∀ p, p ∈ l → is_Some (subs !! p)) → is_Some (clear_subs l subs).
Proof.
  intros Hnd. revert subs. induction Hnd as [|p l Hp Hnd IH]; intros subs Hs;
    cbn [clear_subs]; [eauto|].
  destruct (Hs p) as [s ->]; [set_solver|]. tsimp. apply IH. intros q Hq.
  rewrite lookup_delete_ne by (by intros ->). apply Hs. set_solver.
Qed.

Lemma word_zero_words mask i n j :
  word (zero_words mask i n) j
  = if decide (i ≤ j < i + Z.of_nat n) then 0 else word mask j.
Proof.
  revert mask i. induction n as [|n IH]; intros mask i; cbn [zero_words].
  { by rewrite decide_False by lia. }
  rewrite IH. destruct (Z.eqb_spec (word mask i) 0) as [H0|H0].
  - destruct (decide (j = i)) as [->|].
    + rewrite decide_False, decide_True by lia. done.
    + by repeat case_decide; try lia.
  - rewrite word_insert. by repeat case_decide; try lia.
Qed.

Lemma is_set_zero_words mask p :
  in24 p → pg_mac_table_is_set (zero_words mask 0 all_words) p = false.
Proof.
  intros Hp. unfold in24 in Hp. rewrite is_set_testbit, word_zero_words, all_words_val.
  rewrite decide_True; [apply Z.bits_0|]. rewrite mask_size_val.
  split; [apply Z.div_pos; lia|]. apply Z.div_lt_upper_bound; lia.
Qed.

End Enumerate.

(** ** The iterator *)

Lemma words_split mask i n :
  (0 < n)%nat →
  words mask i n = ((λ b, i * 64 + Z.of_nat b) <$> PG_FOREACH_BIT (word mask i))
                   ++ words mask (i + 1) (n - 1).
Proof.
  destruct n as [|n]; [lia|]. intros _. cbn [words].
  replace (S n - 1)%nat with n by lia. reflexivity.
Qed.

Section Iterate.

Context {A : Type}.
Implicit Types (t : pg_mac_table A) (s : sub_table A) (it : table_iterator A).

(** The slots of a mask from word [i] on, given what is left of that word. *)
Definition rest (mask : gmap Z Z) (i m : Z) : list Z :=
  ((λ b, i * 64 + Z.of_nat b) <$> PG_FOREACH_BIT m)
  ++ words mask (i + 1) (Z.to_nat (PG_MAC_TABLE_MASK_SIZE - (i + 1))).

Lemma rest_all mask : rest mask 0 (word mask 0) = words mask 0 all_words.
Proof.
  unfold rest. pose proof all_words_val as Hv. rewrite mask_size_val in Hv.
  rewrite (words_split mask 0 all_words) by lia.
  replace (Z.to_nat (PG_MAC_TABLE_MASK_SIZE - (0 + 1))) with (all_words - 1)%nat
    by (rewrite <- all_words_val; lia). reflexivity.
Qed.

Lemma rest_next mask i :
  0 ≤ i → i + 1 < PG_MAC_TABLE_MASK_SIZE →
  rest mask i 0 = rest mask (i + 1) (word mask (i + 1)).
Proof.
  intros H0 Hi. unfold rest. rewrite foreach_0. cbn [fmap list_fmap app].
  rewrite (words_split mask (i + 1)) by lia.
  replace (Z.to_nat (PG_MAC_TABLE_MASK_SIZE - (i + 1)) - 1)%nat
    with (Z.to_nat (PG_MAC_TABLE_MASK_SIZE - (i + 1 + 1))) by lia. reflexivity.
Qed.

Lemma rest_last mask i : i + 1 = PG_MAC_TABLE_MASK_SIZE → rest mask i 0 = [].
Proof.
  intros Hi. unfold rest. rewrite foreach_0, Hi, Z.sub_diag. done.
Qed.

Lemma rest_cons mask i m :
  is_mask m → m ≠ 0 →
  rest mask i m = (i * 64 + Z.of_nat (ctz64 m))
    :: rest mask i (Z.land m (not64 (Z.shiftl ONE64 (Z.of_nat (ctz64 m))))).
Proof. intros Hm Hne. unfold rest. by rewrite foreach_unfold by done. Qed.

(** What the loops on [j] see of the current sub-table. *)
Definition cur (s : sub_table A) (j m1 : Z) (been_out : bool) : list Z :=
  rest (sub_mask s) j (if been_out then word (sub_mask s) j else m1).

Lemma next_j_spec s j n m1 bo :
  mask_wf (sub_mask s) → is_mask m1 → 0 ≤ j < PG_MAC_TABLE_MASK_SIZE →
  n = Z.to_nat (PG_MAC_TABLE_MASK_SIZE - j) →
  match next_j s j n m1 bo with
  | None => cur s j m1 bo = []
  | Some (j', mj, m1') =>
      0 ≤ j' < PG_MAC_TABLE_MASK_SIZE ∧ 0 ≤ mj < 64 ∧ is_mask m1' ∧
      cur s j m1 bo = (j' * 64 + mj) :: rest (sub_mask s) j' m1'
  end.
Proof.
  intros Hwf. revert j m1 bo. induction n as [|n IH]; intros j m1 bo Hm1 Hj Hn; [lia|].
  cbn [next_j]. unfold cur.
  assert (is_mask (if bo then word (sub_mask s) j else m1)) as Hm by (by destruct bo).
  set (m := if bo then word (sub_mask s) j else m1) in *. clearbody m. clear Hm1 m1 bo.
  destruct (Z.eqb_spec m 0) as [->|Hne].
  - destruct (decide (j + 1 = PG_MAC_TABLE_MASK_SIZE)) as [Hl|Hl].
    + destruct n; [|lia]. cbn [next_j]. by apply rest_last.
    + rewrite rest_next by lia.
      apply (IH (j + 1) 0 true); [apply is_mask_0|lia..].
  - cbn [pg_low_bit_iterate pg_low_bit_iterate_full].
    pose proof (mask_has_lt _ _ Hm (ctz64_set _ Hm Hne)).
    split_and!; [lia..|auto with pg|]. by apply rest_cons.
Qed.

(** The keys left, when the first part runs over [L] and the first sub-table of
    [L] is at word [j]. *)
Definition left_keys t (L : list Z) (j m1 : Z) (been_out : bool) : list (Z * Z) :=
  match L with
  | [] => []
  | p :: ps =>
      match mt_subs t !! p with
      | Some s => pair p <$> cur s j m1 been_out
      | None => []
      end ++ (ps ≫= sub_keys t)
  end.

Lemma left_keys_all t L m1 : left_keys t L 0 m1 true = L ≫= sub_keys t.
Proof.
  destruct L as [|p ps]; [reflexivity|]. unfold left_keys, cur. rewrite bind_cons.
  assert (sub_keys t p = match mt_subs t !! p with
    | Some s => pair p <$> rest (sub_mask s) 0 (word (sub_mask s) 0) | None => [] end) as ->.
  { unfold sub_keys. destruct (mt_subs t !! p) as [s|]; [rewrite rest_all|]; reflexivity. }
  reflexivity.
Qed.

Definition at_word (i : Z) (m : Z) : list Z :=
  (λ b, i * 64 + Z.of_nat b) <$> PG_FOREACH_BIT m.

Lemma at_word_cons i m :
  is_mask m → m ≠ 0 →
  at_word i m = (i * 64 + Z.of_nat (ctz64 m))
    :: at_word i (Z.land m (not64 (Z.shiftl ONE64 (Z.of_nat (ctz64 m))))).
Proof. intros Hm Hne. unfold at_word. by rewrite foreach_unfold by done. Qed.

(** The iterator rests on a key of the table. *)
Record it_ok it : Prop := {
  io_i : 0 ≤ ti_i it < PG_MAC_TABLE_MASK_SIZE;
  io_j : 0 ≤ ti_j it < PG_MAC_TABLE_MASK_SIZE;
  io_m0 : is_mask (ti_m0 it);
  io_m1 : is_mask (ti_m1 it);
  io_live : ti_end it = false;
}.

(** Its position is the lowest bit of [m0], within the current word. *)
Record it_here it : Prop := {
  ih_m0 : ti_m0 it ≠ 0;
  ih_mi : ti_mi it = Z.of_nat (ctz64 (ti_m0 it));
  ih_mj : 0 ≤ ti_mj it < 64;
}.

Definition subs_ok t (L : list Z) : Prop :=
  ∀ p, p ∈ L → ∃ s es, mt_subs t !! p = Some s ∧ sub_entries s = Some es
    ∧ mask_wf (sub_mask s).

Definition val_of t (k : Z * Z) : option A :=
  s ← mt_subs t !! fst k; es ← sub_entries s; es !! snd k.

Lemma next_m0_spec t fuel i j m0 m1 bo L1 :
  is_mask m0 → is_mask m1 → 0 ≤ i < PG_MAC_TABLE_MASK_SIZE →
  0 ≤ j < PG_MAC_TABLE_MASK_SIZE → (length (at_word i m0) ≤ fuel)%nat →
  subs_ok t (at_word i m0) →
  match next_m0 fuel t i j m0 m1 bo with
  | None => False
  | Some (NextFound it) =>
      it_ok it ∧ it_here it ∧ ti_i it = i ∧ ti_val it = val_of t (iterator_key it) ∧
      left_keys t (at_word i m0 ++ L1) j m1 bo
      = iterator_key it :: left_keys t (at_word i (ti_m0 it) ++ L1) (ti_j it) (ti_m1 it) false
      ∧ ∀ p, p ∈ at_word i (ti_m0 it) → p ∈ at_word i m0
  | Some (NextNone m1' bo' j') =>
      is_mask m1' ∧ 0 ≤ j' < PG_MAC_TABLE_MASK_SIZE ∧
      left_keys t (at_word i m0 ++ L1) j m1 bo = left_keys t L1 j' m1' bo'
  end.
Proof.
  revert j m0 m1 bo. induction fuel as [|fuel IH]; intros j m0 m1 bo Hm0 Hm1 Hi Hj Hf Hsub.
  all: cbn [next_m0]; destruct (Z.eqb_spec m0 0) as [->|Hne]; [done|].
  { rewrite at_word_cons in Hf by done. simpl in Hf. lia. }
  rewrite at_word_cons in Hf, Hsub |- * by done.
  set (m0' := Z.land m0 _) in *. set (mi := Z.of_nat (ctz64 m0)) in *.
  assert (is_mask m0') as Hm0' by (unfold m0'; auto with pg).
  destruct (Hsub (i * 64 + mi)) as (s&es&Hs&Hes&Hwf); [set_solver|]. rewrite Hs. tsimp.
  pose proof (next_j_spec s j _ m1 bo Hwf Hm1 Hj eq_refl) as Hnj.
  destruct (next_j s j _ m1 bo) as [[[j' mj] m1']|].
  - destruct Hnj as (Hj'&Hmj&Hm1'&Hcur). rewrite Hes. tsimp.
    unfold iterator_key, val_of, left_keys. cbn [ti_i ti_j ti_m0 ti_m1 ti_mi ti_mj ti_val app fst snd].
    split_and!; [done|done|done|rewrite Hs; tsimp; by rewrite Hes| |].
    + rewrite (at_word_cons i m0) by done. cbn [app]. fold mi m0'. rewrite Hs, Hcur. done.
    + intros p Hp. by rewrite (at_word_cons i m0) in Hp by done.
  - assert (is_mask 0) as Hz by apply is_mask_0.
    assert (left_keys t ((i * 64 + mi :: at_word i m0') ++ L1) j m1 bo
      = left_keys t (at_word i m0' ++ L1) 0 0 true) as ->.
    { rewrite left_keys_all. cbn [left_keys app]. rewrite Hs, Hnj. done. }
    assert (0 ≤ 0 < PG_MAC_TABLE_MASK_SIZE) as H0 by (rewrite mask_size_val; lia).
    specialize (IH 0 m0' 0 true Hm0' Hz Hi H0 ltac:(simpl in Hf; lia) ltac:(intros p Hp; apply Hsub; set_solver)).
    destruct (next_m0 fuel t i 0 m0' 0 true) as [[it|]|]; [|done..].
    destruct IH as (?&?&?&?&?&Hin). split_and!; [done..|]. intros p Hp. set_solver.
Qed.

(** The first parts the iterator still has to visit, with the bits of [m0] left. *)
Definition left_parts t (i m0 : Z) : list Z := rest (mt_mask t) i m0.

Lemma left_parts_app t i m0 :
  left_parts t i m0 = at_word i m0
    ++ words (mt_mask t) (i + 1) (Z.to_nat (PG_MAC_TABLE_MASK_SIZE - (i + 1))).
Proof. reflexivity. Qed.

Lemma next_i_spec t i n j m0 m1 bo :
  mask_wf (mt_mask t) → is_mask m0 → is_mask m1 → 0 ≤ i < PG_MAC_TABLE_MASK_SIZE →
  0 ≤ j < PG_MAC_TABLE_MASK_SIZE → n = Z.to_nat (PG_MAC_TABLE_MASK_SIZE - i) →
  subs_ok t (left_parts t i m0) →
  match next_i t i n j m0 m1 bo with
  | None => False
  | Some (Some it) =>
      it_ok it ∧ it_here it ∧ ti_val it = val_of t (iterator_key it) ∧
      left_keys t (left_parts t i m0) j m1 bo
      = iterator_key it
        :: left_keys t (left_parts t (ti_i it) (ti_m0 it)) (ti_j it) (ti_m1 it) false ∧
      subs_ok t (left_parts t (ti_i it) (ti_m0 it))
  | Some None => left_keys t (left_parts t i m0) j m1 bo = []
  end.
Proof.
  intros Hwf. revert i j m0 m1 bo.
  induction n as [|n IH]; intros i j m0 m1 bo Hm0 Hm1 Hi Hj Hn Hsub; [lia|].
  cbn [next_i]. set (L1 := words (mt_mask t) (i + 1) (Z.to_nat (PG_MAC_TABLE_MASK_SIZE - (i + 1)))).
  assert (subs_ok t (at_word i m0)) as Hsub0.
  { intros p Hp. apply Hsub. rewrite left_parts_app. set_solver. }
  assert (length (at_word i m0) ≤ 64)%nat as Hlen.
  { unfold at_word. rewrite length_fmap, foreach_eq_filter by done.
    etrans; [apply length_filter|]. by rewrite length_seq. }
  pose proof (next_m0_spec t 64 i j m0 m1 bo L1 Hm0 Hm1 Hi Hj Hlen Hsub0) as H0.
  rewrite left_parts_app. fold L1.
  destruct (next_m0 64 t i j m0 m1 bo) as [[it|m1' bo' j']|]; [| |done]; tsimp.
  - destruct H0 as (Hok&Hh&Hii&Hv&Hk&Hin). split_and!; [done..| |].
    + rewrite left_parts_app, Hii. exact Hk.
    + intros p. rewrite left_parts_app, Hii. rewrite elem_of_app. intros [Hp|Hp]; apply Hsub;
        rewrite left_parts_app; fold L1; rewrite elem_of_app; auto.
  - destruct H0 as (Hm1'&Hj'&Hk). rewrite Hk.
    destruct (decide (i + 1 = PG_MAC_TABLE_MASK_SIZE)) as [Hl|Hl].
    + destruct n; [|lia]. cbn [next_i]. unfold L1. rewrite Hl, Z.sub_diag. reflexivity.
    + assert (L1 = left_parts t (i + 1) (word (mt_mask t) (i + 1))) as HL.
      { unfold L1, left_parts. rewrite <- rest_next by lia. unfold rest. by rewrite foreach_0. }
      rewrite HL. apply IH; [apply Hwf|done|lia|done|lia|].
      intros p Hp. apply Hsub. rewrite left_parts_app. fold L1. rewrite HL. set_solver.
Qed.

(** The keys after the one under the iterator. *)
Definition it_left t it : list (Z * Z) :=
  left_keys t (left_parts t (ti_i it) (ti_m0 it)) (ti_j it) (ti_m1 it) false.

Lemma table_next_spec t it :
  mask_wf (mt_mask t) → it_ok it → subs_ok t (left_parts t (ti_i it) (ti_m0 it)) →
  ∃ it', pg_mac_table_iterator_next t it = Some it' ∧
    if ti_end it' then it_left t it = []
    else it_ok it' ∧ it_here it' ∧ ti_val it' = val_of t (iterator_key it') ∧
      subs_ok t (left_parts t (ti_i it') (ti_m0 it')) ∧
      it_left t it = iterator_key it' :: it_left t it'.
Proof.
  intros Hwf [Hi Hj Hm0 Hm1 _] Hsub. unfold pg_mac_table_iterator_next.
  pose proof (next_i_spec t (ti_i it) _ (ti_j it) (ti_m0 it) (ti_m1 it) false
    Hwf Hm0 Hm1 Hi Hj eq_refl Hsub) as H.
  destruct (next_i t _ _ _ _ _ _) as [[it'|]|]; [| |done]; tsimp; eexists; (split; [done|]).
  - destruct H as (Hok&Hh&Hv&Hk&Hs). rewrite (io_live _ Hok). by split_and!.
  - done.
Qed.

(** The keys a whole iteration visits: all, but when the slot 0 of the table is
    not in use the first 64 slots of the first sub-table are passed over. *)
Definition visited_keys t : list (Z * Z) :=
  if pg_mac_table_is_set (mt_mask t) 0 then table_keys t
  else left_keys t (words (mt_mask t) 0 all_words) 0 0 false.

Lemma land_one w : Z.land w 1 = (if Z.testbit w 0 then 1 else 0).
Proof.
  change 1 with (Z.ones 1) at 1. rewrite Z.land_ones by lia. rewrite Z.bit0_odd.
  change (2 ^ 1) with 2. rewrite Zmod_odd. by destruct (Z.odd w).
Qed.

Lemma low_clear m :
  is_mask m → Z.testbit m 0 = true → m ≠ 0 ∧ ctz64 m = 0%nat.
Proof.
  intros Hm H0. assert (mask_has m 0 = true) as Hh by exact H0.
  split; [intros ->; by rewrite mask_has_0 in Hh|].
  apply ctz64_lowest in Hh; [lia|done].
Qed.

Lemma tbl_subs_ok t L :
  tbl_ok t → (∀ p, p ∈ L → pg_mac_table_is_set (mt_mask t) p = true) → subs_ok t L.
Proof.
  intros Hok HL p Hp. destruct (ok_sub _ Hok _ (HL p Hp)) as (s&es&?&?&?&_). eauto.
Qed.

Lemma iterator_init_spec t :
  tbl_ok t →
  ∃ it, pg_mac_table_iterator_init t = Some it ∧
    if ti_end it then visited_keys t = []
    else it_ok it ∧ it_here it ∧ ti_val it = val_of t (iterator_key it) ∧
      subs_ok t (left_parts t (ti_i it) (ti_m0 it)) ∧
      visited_keys t = iterator_key it :: it_left t it.
Proof.
  intros Hok. pose proof (ok_mask _ Hok) as Hwf.
  assert (0 ≤ 0 < PG_MAC_TABLE_MASK_SIZE) as H0 by (rewrite mask_size_val; lia).
  assert (subs_ok t (words (mt_mask t) 0 all_words)) as Hsub.
  { apply tbl_subs_ok; [done|]. intros p. rewrite elem_of_all_words by done. by intros [_ ?]. }
  assert (left_parts t 0 (word (mt_mask t) 0) = words (mt_mask t) 0 all_words) as Hall
    by apply rest_all.
  unfold pg_mac_table_iterator_init, visited_keys.
  rewrite is_set_testbit, land_one. change (0 / 64) with 0. change (0 mod 64) with 0.
  destruct (Z.testbit (word (mt_mask t) 0) 0) eqn:Hb; cbn [negb Z.eqb Pos.eqb].
  - destruct (low_clear _ (Hwf 0) Hb) as [Hne Hctz].
    assert (words (mt_mask t) 0 all_words = 0 :: tail (words (mt_mask t) 0 all_words)) as Hcons.
    { rewrite <- Hall. unfold left_parts. rewrite rest_cons by (done || apply Hwf).
      rewrite Hctz. reflexivity. }
    destruct (Hsub 0) as (s&es&Hs&Hes&Hwfs); [rewrite Hcons; left|].
    rewrite Hs. tsimp. rewrite land_one.
    assert (table_keys t = left_keys t (words (mt_mask t) 0 all_words) 0
      (word (sub_mask s) 0) false) as Hkeys.
    { unfold table_keys. rewrite <- (left_keys_all t _ 0). rewrite Hcons.
      unfold left_keys. rewrite Hs. reflexivity. }
    destruct (Z.testbit (word (sub_mask s) 0) 0) eqn:Hb1; cbn [negb Z.eqb Pos.eqb].
    + rewrite Hes. tsimp. eexists. split; [reflexivity|]. cbn [ti_end].
      destruct (low_clear _ (Hwfs 0) Hb1) as [Hne1 Hctz1].
      split_and!; cbn [ti_i ti_j ti_m0 ti_m1 ti_mi ti_mj ti_val].
      * split; cbn [ti_i ti_j ti_m0 ti_m1 ti_end]; [done..|apply Hwf|apply is_mask_land, Hwfs|done].
      * split; cbn [ti_m0 ti_mi ti_mj]; [done|by rewrite Hctz|lia].
      * unfold val_of, iterator_key. tsimp. cbn [ti_i ti_j ti_mi ti_mj].
        change (0 * 64 + 0) with 0. rewrite Hs. tsimp. by rewrite Hes.
      * by rewrite Hall.
      * rewrite Hkeys. unfold it_left. cbn [ti_i ti_j ti_m0 ti_m1]. rewrite Hall, Hcons.
        unfold left_keys. rewrite Hs. unfold cur.
        rewrite (rest_cons (sub_mask s) 0 (word (sub_mask s) 0)) by (done || apply Hwfs).
        rewrite Hctz1. reflexivity.
    + set (it0 := mk_tit 0 0 (word (mt_mask t) 0) (word (sub_mask s) 0) 0 0 false None).
      destruct (table_next_spec t it0) as (it&->&Hit).
      * done.
      * split; unfold it0; cbn [ti_i ti_j ti_m0 ti_m1 ti_end];
          [done|done|apply Hwf|apply Hwfs|done].
      * unfold it0; cbn [ti_i ti_m0]. by rewrite Hall.
      * exists it. split; [done|]. unfold it_left in Hit at 1 2.
        cbn [ti_i ti_j ti_m0 ti_m1 it0] in Hit. rewrite Hall, <- Hkeys in Hit. done.
  - set (it0 := mk_tit 0 0 (word (mt_mask t) 0) 0 0 0 false None).
    destruct (table_next_spec t it0) as (it&->&Hit).
    + done.
    + split; unfold it0; cbn [ti_i ti_j ti_m0 ti_m1 ti_end];
        [done|done|apply Hwf|apply is_mask_0|done].
    + unfold it0; cbn [ti_i ti_m0]. by rewrite Hall.
    + exists it. split; [done|]. unfold it_left in Hit at 1 2.
      cbn [ti_i ti_j ti_m0 ti_m1 it0] in Hit. rewrite Hall in Hit. done.
Qed.

End Iterate.

(** ** Removing entries while iterating *)

Lemma NoDup_rest mask i m : mask_wf mask → is_mask m → NoDup (rest mask i m).
Proof.
  intros Hm Hmm. unfold rest. apply NoDup_app.
  split_and!; [by apply NoDup_word| |by apply NoDup_words].
  intros p (b&->&Hb)%list_elem_of_fmap Hp%elem_of_words; [|done].
  apply elem_of_foreach in Hb; [|done]. apply mask_has_lt in Hb; [lia|done].
Qed.

(** An iteration visits a sublist of the keys, in order. *)
Lemma visited_sublist {A} (t : pg_mac_table A) :
  tbl_ok t → visited_keys t `sublist_of` table_keys t.
Proof.
  intros Hok. unfold visited_keys. destruct (pg_mac_table_is_set (mt_mask t) 0); [done|].
  unfold table_keys. rewrite <- (left_keys_all t _ 0).
  destruct (words (mt_mask t) 0 all_words) as [|p ps]; [done|]. unfold left_keys.
  apply sublist_app; [|done]. destruct (mt_subs t !! p) as [s|]; [|done].
  apply fmap_sublist. unfold cur, rest. rewrite foreach_0. cbn [fmap list_fmap app].
  apply sublist_inserts_l. done.
Qed.

Section Remove.

Context {A : Type} (P : A → bool).
Implicit Types (t : pg_mac_table A) (it : table_iterator A) (m : gmap (Z * Z) A).

(** A loop body that drops the entry under the iterator when [P] holds of it. *)
Definition remove_if (mac : pg_mac) (v : option A) t : option (pg_mac_table A) :=
  a ← v;
  if P a then r ← table_unset t mac; Some (snd r) else Some t.

(** Enough turns for every key of the table. *)
Definition table_fuel t : nat :=
  match pg_mac_table_compute_length t with Some n => Z.to_nat n | None => 0 end.

Definition table_remove_if t : option (pg_mac_table A) :=
  it ← pg_mac_table_iterator_init t;
  table_foreach (table_fuel t) remove_if it t.

Lemma words_ext mask mask' i n :
  (∀ k, i ≤ k → word mask k = word mask' k) → words mask i n = words mask' i n.
Proof.
  revert i. induction n as [|n IH]; intros i H; cbn [words]; [done|].
  rewrite H by lia. rewrite IH; [done|]. intros k Hk. apply H. lia.
Qed.

(** Dropping the key under the iterator does not change what is left to visit. *)
Lemma it_left_unset t t' it p1 p2 :
  it_ok it → it_here it → mask_wf (mt_mask t) →
  iterator_key it = (p1, p2) → mt_mask t' = mt_mask t →
  (∀ q, q ≠ p1 → mt_subs t' !! q = mt_subs t !! q) →
  (∀ s, mt_subs t !! p1 = Some s → ∃ s', mt_subs t' !! p1 = Some s' ∧
     ∀ k, k ≠ p2 / 64 → word (sub_mask s') k = word (sub_mask s) k) →
  is_Some (mt_subs t !! p1) →
  it_left t' it = it_left t it.
Proof.
  intros Hok [Hm0 Hmi Hmj] Hwf Hkey Hmask Hother Hsame [s Hs].
  pose proof (NoDup_rest (mt_mask t) (ti_i it) (ti_m0 it) Hwf (io_m0 _ Hok)) as Hnd.
  unfold iterator_key in Hkey. injection Hkey as Hp1 Hp2.
  unfold it_left, left_parts. rewrite Hmask.
  rewrite rest_cons in Hnd |- * by (apply Hok || done). rewrite <- Hmi, Hp1 in Hnd |- *.
  set (L := rest _ _ _) in *. clearbody L. apply NoDup_cons in Hnd as [Hp1L _].
  unfold left_keys. destruct (Hsame s Hs) as (s'&Hs'&Hw). rewrite Hs, Hs'.
  assert (p2 / 64 = ti_j it) as Hdiv.
  { symmetry. apply (Z.div_unique p2 64 _ (ti_mj it)); lia. }
  assert (cur s' (ti_j it) (ti_m1 it) false = cur s (ti_j it) (ti_m1 it) false) as ->.
  { unfold cur, rest. rewrite (words_ext (sub_mask s') (sub_mask s)); [done|].
    intros k Hk. apply Hw. lia. }
  assert (L ≫= sub_keys t' = L ≫= sub_keys t) as ->; [|done].
  clear -Hp1L Hother. induction L as [|q L IH]; [done|]. rewrite !bind_cons.
  rewrite IH by set_solver. assert (sub_keys t' q = sub_keys t q) as ->; [|done].
  unfold sub_keys. rewrite Hother by set_solver. done.
Qed.

Lemma unset_subs t mac r t' :
  table_unset t mac = Some (r, t') →
  mt_mask t' = mt_mask t ∧
  (∀ q, q ≠ pg_mac_table_part1 mac → mt_subs t' !! q = mt_subs t !! q) ∧
  (∀ s, mt_subs t !! pg_mac_table_part1 mac = Some s →
    ∃ s', mt_subs t' !! pg_mac_table_part1 mac = Some s' ∧
      sub_entries s' = sub_entries s ∧ (mask_wf (sub_mask s) → mask_wf (sub_mask s')) ∧
      ∀ k, k ≠ pg_mac_table_part2 mac / 64 → word (sub_mask s') k = word (sub_mask s) k).
Proof.
  unfold table_unset. destruct (negb _); [intros [= <- <-]; split_and!; eauto 6|].
  destruct (mt_subs t !! pg_mac_table_part1 mac) as [s|] eqn:Hs; [|done]. tsimp.
  destruct (negb _); [intros [= <- <-]; rewrite Hs; split_and!; eauto 6|].
  intros [= <- <-]. tsimp. split_and!; [done| |].
  - intros q Hq. by rewrite lookup_insert_ne.
  - intros s0 [= <-]. rewrite lookup_insert_eq. eexists. split; [done|]. tsimp.
    split_and!; [done|apply mask_wf_unset|].
    intros k Hk. unfold pg_mac_table_mask_unset. rewrite word_insert.
    rewrite decide_False; [done|]. unfold pg_mac_table_mask_idx. congruence.
Qed.

Lemma val_of_lookup t k a : tlookup t k = Some a → val_of t k = Some a.
Proof.
  unfold tlookup, val_of. destruct (pg_mac_table_is_set (mt_mask t) (fst k)); [|done].
  destruct (mt_subs t !! fst k) as [s|]; [|done]. tsimp. unfold sub_lookup.
  by destruct (pg_mac_table_is_set (sub_mask s) (snd k)).
Qed.

(** What the removal leaves when it visits the keys [L]. *)
Definition kept (L : list (Z * Z)) (kv : (Z * Z) * A) : Prop :=
  ¬ (fst kv ∈ L ∧ P (snd kv) = true).

Global Instance kept_dec L kv : Decision (kept L kv).
Proof. unfold kept. apply _. Defined.

Lemma remove_step m k a L :
  m !! k = Some a → k ∉ L →
  filter (kept (k :: L)) m = filter (kept L) (if P a then delete k m else m).
Proof.
  intros Hk HL. apply map_eq. intros q. apply option_eq. intros v.
  rewrite !map_lookup_filter_Some. unfold kept. tsimp. rewrite elem_of_cons.
  destruct (decide (q = k)) as [->|Hne].
  - destruct (P a) eqn:HP.
    + rewrite lookup_delete_eq. split; [intros [Hv Hn]|intros [? _]; done].
      exfalso. apply Hn. split; [by left|]. congruence.
    + split; intros [Hv Hn]; (split; [done|]); intros [_ HPv]; congruence.
  - assert ((if P a then delete k m else m) !! q = m !! q) as ->
      by (destruct (P a); rewrite ?lookup_delete_ne by done; done).
    split; intros [Hv Hn]; (split; [done|]); intros [Hq HPv]; apply Hn; (split; [|done]).
    + by right.
    + by destruct Hq.
Qed.

Lemma kept_nil m : filter (kept []) m = m.
Proof. apply map_filter_id. intros k v _ [Hk _]. set_solver. Qed.

Lemma foreach_remove_spec fuel t it m :
  rep t m → it_ok it → it_here it → ti_val it = val_of t (iterator_key it) →
  subs_ok t (left_parts t (ti_i it) (ti_m0 it)) →
  NoDup (iterator_key it :: it_left t it) →
  (∀ k, k ∈ iterator_key it :: it_left t it → is_Some (m !! k)) →
  (length (it_left t it) < fuel)%nat →
  ∃ t', table_foreach fuel remove_if it t = Some t' ∧
    rep t' (filter (kept (iterator_key it :: it_left t it)) m).
Proof.
  revert t it m. induction fuel as [|fuel IH];
    intros t it m Hrep Hok Hhere Hval Hsub Hnd Hdom Hf; [lia|].
  cbn [table_foreach]. rewrite (io_live _ Hok).
  destruct (iterator_key it) as [p1 p2] eqn:Hkey.
  destruct (Hdom (p1, p2)) as [a Ha]; [left|].
  destruct (rep_range _ _ Hrep _ _ Ha) as [Hr1 Hr2].
  assert (ti_val it = Some a) as Hva.
  { rewrite Hval. apply val_of_lookup. by rewrite <- (rep_lookup _ _ Hrep). }
  rewrite Hva.
  pose proof (mk_key_key p1 p2 Hr1 Hr2) as Hmk. unfold mac_key in Hmk.
  injection Hmk as Hmk1 Hmk2.
  assert (∃ t1, remove_if (mk_key p1 p2) (Some a) t = Some t1 ∧
      rep t1 (if P a then delete (p1, p2) m else m) ∧ mt_mask t1 = mt_mask t ∧
      it_left t1 it = it_left t it ∧ subs_ok t1 (left_parts t (ti_i it) (ti_m0 it)))
    as (t1&Hrun&Hrep1&Hmask&Hleft&Hsub1).
  { unfold remove_if. tsimp. destruct (P a); [|by exists t].
    destruct (unset_spec t m (mk_key p1 p2) Hrep) as (t1&Hun&Hrep1&Hmask).
    unfold mac_key in Hrep1. rewrite Hmk1, Hmk2 in Hrep1. rewrite Hun. tsimp.
    destruct (unset_subs _ _ _ _ Hun) as (_&Hoth&Hsam). rewrite Hmk1 in Hoth, Hsam.
    rewrite Hmk2 in Hsam.
    assert (is_Some (mt_subs t !! p1)) as Hs.
    { rewrite (rep_lookup _ _ Hrep) in Ha by done. unfold tlookup in Ha. tsimp_in Ha.
      destruct (pg_mac_table_is_set _ _); [|done]. destruct (mt_subs t !! p1); [eauto|done]. }
    exists t1. split_and!; [done..| |].
    - apply (it_left_unset t t1 it p1 p2); [done|done|apply Hrep|done..| |done].
      intros s0 Hs0. destruct (Hsam s0 Hs0) as (s'&?&_&_&?). eauto.
    - intros q Hq. destruct (Hsub q Hq) as (s0&es&Hs0&Hes&Hwf).
      destruct (decide (q = p1)) as [->|Hne].
      + destruct (Hsam s0 Hs0) as (s'&?&He&Hw&_). exists s', es. split_and!; [done| |auto].
        by rewrite He.
      + exists s0, es. by rewrite Hoth. }
  rewrite Hrun. tsimp.
  assert (left_parts t1 (ti_i it) (ti_m0 it) = left_parts t (ti_i it) (ti_m0 it)) as Hlp
    by (unfold left_parts; by rewrite Hmask).
  destruct (table_next_spec t1 it) as (it'&Hnext&Hit);
    [apply Hrep1|done|by rewrite Hlp|]. rewrite Hnext. tsimp. rewrite Hleft in Hit.
  destruct (ti_end it') eqn:Hend.
  - destruct fuel as [|fuel]; cbn [table_foreach]; rewrite Hend; exists t1; (split; [done|]);
      rewrite Hit, (remove_step m (p1, p2) a), kept_nil by (done || set_solver); done.
  - destruct Hit as (Hok'&Hhere'&Hval'&Hsub'&Hcons).
    apply NoDup_cons in Hnd as [Hk Hnd].
    destruct (IH t1 it' (if P a then delete (p1, p2) m else m)) as (t'&Hrun'&Hrep');
      [done..|by rewrite <- Hcons| |rewrite Hcons in Hf; simpl in Hf; lia|].
    { rewrite <- Hcons. intros k Hin. assert (k ≠ (p1, p2)) by (by intros ->).
      destruct (P a); rewrite ?lookup_delete_ne by done; apply Hdom; by right. }
    exists t'. split; [done|]. rewrite (remove_step m (p1, p2) a) by done.
    by rewrite Hcons.
Qed.

Lemma remove_if_spec t m :
  rep t m →
  ∃ t', table_remove_if t = Some t' ∧ rep t' (filter (kept (visited_keys t)) m).
Proof.
  intros Hrep. pose proof (rep_ok _ _ Hrep) as Hok. unfold table_remove_if.
  destruct (iterator_init_spec t Hok) as (it&->&Hit). tsimp.
  destruct (ti_end it) eqn:Hend.
  - exists t. rewrite Hit, kept_nil. split; [|done].
    destruct (table_fuel t); cbn [table_foreach]; by rewrite Hend.
  - destruct Hit as (Hi&Hh&Hv&Hs&Hcons).
    assert (visited_keys t `sublist_of` table_keys t) as Hsubl by (by apply visited_sublist).
    rewrite Hcons. rewrite Hcons in Hsubl. apply foreach_remove_spec; [done..| | |].
    + eapply sublist_NoDup; [exact (NoDup_keys t Hok)|exact Hsubl].
    + intros k Hk. apply (elem_of_sublist _ _ _ Hk) in Hsubl.
      apply elem_of_dom. rewrite <- (keys_dom t m Hrep). by apply elem_of_list_to_set.
    + apply sublist_length in Hsubl. simpl in Hsubl. unfold table_fuel.
      rewrite (compute_length_spec t m Hrep), Nat2Z.id, <- size_dom, <- (keys_dom t m Hrep).
      rewrite size_list_to_set by (by apply NoDup_keys). lia.
Qed.

End Remove.

(** ** Properties *)

(** The keys passed over by an iteration. *)
Definition skipped {A} (t : pg_mac_table A) (k : Z * Z) : Prop :=
  pg_mac_table_is_set (mt_mask t) 0 = false ∧
  head (words (mt_mask t) 0 all_words) = Some (fst k) ∧ snd k < 64.

Lemma elem_of_visited {A} (t : pg_mac_table A) k :
  tbl_ok t → k ∈ visited_keys t ↔ k ∈ table_keys t ∧ ¬ skipped t k.
Proof.
  intros Hok. unfold visited_keys, skipped.
  destruct (pg_mac_table_is_set (mt_mask t) 0) eqn:H0.
  { split; [|by intros [? _]]. intros Hk. split; [done|]. by intros [? _]. }
  unfold table_keys. pose proof (NoDup_words (mt_mask t) 0 all_words (ok_mask _ Hok)) as Hnd.
  assert (∀ p, p ∈ words (mt_mask t) 0 all_words → pg_mac_table_is_set (mt_mask t) p = true) as Hset.
  { intros p. rewrite elem_of_all_words by apply Hok. by intros [_ ?]. }
  destruct (words (mt_mask t) 0 all_words) as [|p ps].
  { split; [by intros ?%elem_of_nil|by intros [?%elem_of_nil _]]. }
  apply NoDup_cons in Hnd as [Hp _].
  rewrite bind_cons. unfold left_keys. rewrite !elem_of_app. cbn [head].
  assert (k ∈ ps ≫= sub_keys t → fst k ≠ p) as Hps.
  { intros (q&Hk&Hq)%list_elem_of_bind. apply elem_of_sub_keys in Hk as (->&_);
      [by intros ->|done|apply Hset; by right]. }
  destruct (ok_sub _ Hok p) as (s&es&Hs&_&Hwf&_); [apply Hset; by left|].
  unfold sub_keys at 2. rewrite Hs.
  assert (k ∈ pair p <$> cur s 0 0 false ↔
    k ∈ pair p <$> words (sub_mask s) 0 all_words ∧ 64 ≤ snd k) as Hcur.
  { assert (∀ q, q ∈ cur s 0 0 false ↔ q ∈ words (sub_mask s) 0 all_words ∧ 64 ≤ q) as Hq.
    { intros q. rewrite elem_of_all_words by done. unfold cur, rest.
      rewrite foreach_0. cbn [fmap list_fmap app]. rewrite elem_of_words by done.
      unfold in24. pose proof mask_size_24 as Hsz. pose proof mask_size_val as Hv.
      rewrite Z2Nat.id by lia. split.
      - intros [Hr Hs0]. split; [split; [lia|exact Hs0]|lia].
      - intros [[Hr Hs0] H64]. split; [lia|exact Hs0]. }
    split.
    - intros (q&->&[Hk H64]%Hq)%list_elem_of_fmap. split; [|exact H64].
      apply list_elem_of_fmap. eauto.
    - intros [(q&->&Hk)%list_elem_of_fmap H64]. apply list_elem_of_fmap. exists q.
      split; [reflexivity|]. by apply Hq. }
  rewrite Hcur. split.
  - intros [[Hk H64]|Hk]; (split; [by auto|]); [intros (_&_&?); lia|].
    intros (_&[= E]&_). by apply Hps in Hk.
  - intros [[Hk|Hk] Hn]; [|by right]. left. split; [done|].
    destruct (decide (64 ≤ snd k)); [done|]. destruct Hn. split_and!; [done| |lia].
    apply list_elem_of_fmap in Hk as (q&->&_). done.
Qed.

(** C31: the two-level table implements a finite map on 48-bit addresses.
    Inserting always succeeds when memory is available; the table then answers
    every lookup like the map with the new binding, whatever the upper 16 bits of
    the key. *)
Theorem mac_table_set_get {A} (t : pg_mac_table A) m mac v :
  rep t m →
  ∃ t', pg_mac_table_ptr_set true true t mac v = Some (SetDone t') ∧
    rep t' (<[mac_key mac := v]> m) ∧
    ∀ mac', pg_mac_table_ptr_get t' mac' = Some (<[mac_key mac := v]> m !! mac_key mac').
Proof.
  intros Hrep. destruct (set_spec t m mac v Hrep) as (t'&Hrun&Hrep'). exists t'.
  split_and!; [done..|]. intros mac'. by apply get_spec.
Qed.

(** Removing an address deletes exactly its binding; the result is 0 when the
    address was present and -1 when it was not. *)
Theorem mac_table_unset_refines {A} (t : pg_mac_table A) m mac :
  rep t m →
  ∃ t', pg_mac_table_ptr_unset t mac =
      Some ((if decide (is_Some (m !! mac_key mac)) then 0 else -1), t') ∧
    rep t' (delete (mac_key mac) m) ∧
    ∀ mac', pg_mac_table_ptr_get t' mac' = Some (delete (mac_key mac) m !! mac_key mac').
Proof.
  intros Hrep. destruct (unset_spec t m mac Hrep) as (t'&Hrun&Hrep'&_). exists t'.
  split_and!; [done..|]. intros mac'. by apply get_spec.
Qed.

(** [pg_mac_table_compute_length] is the number of addresses in the table, and
    clearing the table empties it without a failed assertion. *)
Theorem mac_table_length_clear {A} (t : pg_mac_table A) m :
  rep t m →
  pg_mac_table_compute_length t = Some (Z.of_nat (size m)) ∧
  ∃ t', pg_mac_table_clear t = Some t' ∧ ∀ mac, pg_mac_table_ptr_get t' mac = Some None.
Proof.
  intros Hrep. split; [by apply compute_length_spec|].
  pose proof (rep_ok _ _ Hrep) as Hok. unfold pg_mac_table_clear.
  destruct (clear_subs_spec (words (mt_mask t) 0 all_words) (mt_subs t)) as [subs ->].
  - apply NoDup_words, Hok.
  - intros p. rewrite elem_of_all_words by apply Hok. intros [_ Hp].
    destruct (ok_sub _ Hok _ Hp) as (s&_&?&_). eauto.
  - tsimp. eexists. split; [done|]. intros mac. unfold pg_mac_table_ptr_get, table_get. tsimp.
    by rewrite is_set_zero_words by apply part1_range.
Qed.

(** C32: a loop over the table that removes the entries satisfying [P] terminates
    and removes exactly those, except at the addresses the iteration passes over:
    when no address starts with 00:00:00, those of the first sub-table whose second
    part is below 64. *)
Theorem mac_table_remove_while_iterating {A} (P : A → bool) (t : pg_mac_table A) m :
  rep t m →
  ∃ t' m', table_remove_if P t = Some t' ∧ rep t' m' ∧
    ∀ k v, m' !! k = Some v ↔ m !! k = Some v ∧ (P v = false ∨ skipped t k).
Proof.
  intros Hrep. destruct (remove_if_spec P t m Hrep) as (t'&Hrun&Hrep').
  exists t', (filter (kept P (visited_keys t)) m). split_and!; [done..|].
  intros k v. rewrite map_lookup_filter_Some. unfold kept. tsimp.
  split; intros [Hk Hv]; (split; [done|]).
  - destruct (P v) eqn:HP; [right|by left].
    assert (k ∉ visited_keys t) as Hn by (intros ?; by apply Hv).
    rewrite elem_of_visited in Hn by apply Hrep.
    assert (k ∈ table_keys t) as Hkey.
    { apply (elem_of_list_to_set (C := gset (Z * Z))). rewrite (keys_dom t m Hrep).
      apply elem_of_dom. eauto. }
    unfold skipped in *. destruct (decide (pg_mac_table_is_set (mt_mask t) 0 = false ∧
      head (words (mt_mask t) 0 all_words) = Some (fst k) ∧ snd k < 64)); [done|].
    exfalso. by apply Hn.
  - intros [Hvis HP]. destruct Hv as [Hv|Hv]; [congruence|].
    apply elem_of_visited in Hvis as [_ Hn]; [done|apply Hrep].
Qed.

Definition demo_mac : pg_mac := 0x000005000001.

(** The iterator misses an address: a table that holds only 01:00:00:05:00:00
    finds it by lookup, but a loop over the table ends before visiting it. *)
Theorem iteration_misses_address :
  match pg_mac_table_ptr_set true true (mk_tbl ∅ ∅) demo_mac 7 with
  | Some (SetDone t) =>
      pg_mac_table_ptr_get t demo_mac = Some (Some 7) ∧
      ti_end <$> pg_mac_table_iterator_init t = Some true
  | _ => False
  end.
Proof. vm_compute. split; reflexivity. Qed.

(** ** Witnesses *)

Lemma mac_table_set_get_witness :
  ∃ t', pg_mac_table_ptr_set true true (mk_tbl ∅ ∅) demo_mac 7 = Some (SetDone t') ∧
    pg_mac_table_ptr_get t' demo_mac = Some (Some 7).
Proof.
  destruct (mac_table_set_get (mk_tbl ∅ ∅) ∅ demo_mac 7 rep_empty_table) as (t'&Hr&_&Hg).
  exists t'. split; [exact Hr|]. rewrite Hg, lookup_insert_eq. reflexivity.
Defined.

Lemma mac_table_unset_refines_witness :
  ∃ t', pg_mac_table_ptr_unset (A := Z) (mk_tbl ∅ ∅) demo_mac = Some (-1, t').
Proof.
  destruct (mac_table_unset_refines (A := Z) (mk_tbl ∅ ∅) ∅ demo_mac rep_empty_table)
    as (t'&Hr&_). exists t'. exact Hr.
Defined.

Lemma mac_table_length_clear_witness :
  ∃ (t : pg_mac_table Z) m, rep t m ∧ pg_mac_table_compute_length t = Some 1 ∧ is_Some (pg_mac_table_clear t).
Proof.
  destruct (set_spec (mk_tbl ∅ ∅) ∅ demo_mac 7 rep_empty_table) as (t&_&Hrep).
  exists t, (<[mac_key demo_mac := 7]> ∅). split; [exact Hrep|].
  destruct (mac_table_length_clear t _ Hrep) as (Hl&t'&Hc&_). rewrite Hl, Hc.
  split; [reflexivity|eauto].
Defined.

Lemma mac_table_remove_while_iterating_witness :
  ∃ (t : pg_mac_table Z) m t' m', rep t m ∧ table_remove_if (λ v, v =? 7) t = Some t' ∧ rep t' m' ∧
    m' !! (1, 5) = Some 7.
Proof.
  destruct (set_spec (mk_tbl ∅ ∅) ∅ demo_mac 7 rep_empty_table) as (t&Hrun&Hrep).
  destruct (mac_table_remove_while_iterating (λ v, v =? 7) t _ Hrep) as (t'&m'&Hr&Hrep'&Hm).
  exists t, (<[mac_key demo_mac := 7]> ∅), t', m'. split_and!; [exact Hrep|exact Hr|exact Hrep'|].
  apply Hm. split; [reflexivity|right]. unfold table_set in Hrun.
  vm_compute in Hrun. injection Hrun as <-. unfold skipped. vm_compute. split_and!; reflexivity.
Defined.
