(* ===== verification/Switch.v ===== *)
(** * The switch brick ([src/switch.c])

    A learning Ethernet switch. Its private state is the table of source
    addresses, which points to the port an address was seen on, and one mask of
    outgoing packets per port. The handler learns the source addresses of a burst,
    marks every packet on the ports it must leave by, and sends one burst per
    port. *)

From S2P Require Import Prelude Bitmask Common Brick BrickInv Burst MacTable.

(** ** State *)

(** [struct pg_address_source]: where a source address came from. *)
Record pg_address_source := mk_source { edge_index : nat; from : pg_side }.

(** A pointer to [state->sides[side].sources[index]]. *)
Definition source_ptr : Type := pg_side * nat.

Record pg_switch_side := mk_sw_side { sources : list pg_address_source; masks : list Z }.

Record pg_switch_state := mk_switch {
  table : pg_mac_table source_ptr;
  is_table_dead : bool;
  output : pg_side;
  sw_west : pg_switch_side;
  sw_east : pg_switch_side;
}.

Definition sw_side (st : pg_switch_state) (s : pg_side) : pg_switch_side :=
  match s with PG_WEST_SIDE => sw_west st | PG_EAST_SIDE => sw_east st end.

Definition set_sw_side (st : pg_switch_state) (s : pg_side) (v : pg_switch_side)
    : pg_switch_state :=
  match s with
  | PG_WEST_SIDE => mk_switch (table st) (is_table_dead st) (output st) v (sw_east st)
  | PG_EAST_SIDE => mk_switch (table st) (is_table_dead st) (output st) (sw_west st) v
  end.

Definition set_masks (st : pg_switch_state) (s : pg_side) (l : list Z) : pg_switch_state :=
  set_sw_side st s (mk_sw_side (sources (sw_side st s)) l).

Definition set_table (st : pg_switch_state) (t : pg_mac_table source_ptr) (dead : bool)
    : pg_switch_state :=
  mk_switch t dead (output st) (sw_west st) (sw_east st).

Record pg_switch_config := mk_switch_config { cfg_output : pg_side }.

(** ** Ethernet headers *)

(** The little-endian value of some bytes. *)
Fixpoint le_bytes (l : list Z) : Z :=
  match l with [] => 0 | b :: l => b + 256 * le_bytes l end.

(** What the switch reads of a packet: the destination bytes, and the two addresses
    as [union pg_mac] (8 bytes from the start of each). *)
Record ether_view := mk_ether { d_addr : list Z; d_mac : pg_mac; s_mac : pg_mac }.

Definition ether_of (l : list Z) : option ether_view :=
  if decide (14 ≤ length l)%nat
  then Some (mk_ether (take 6 l) (le_bytes (take 8 l)) (le_bytes (take 8 (drop 6 l))))
  else None.

Definition pkt_ether (mem : gmap mptr mbuf) (pkts : pkts_t) (i : nat) : option ether_view :=
  p ← pkts !! i; v ← mem !! p; ether_of (data v).

Definition is_filtered (addr : list Z) : bool :=
  match addr with
  | b0 :: b1 :: b2 :: b3 :: b4 :: b5 :: _ =>
      (b0 =? 0x01) && (b1 =? 0x80) && (b2 =? 0xC2) && (b3 =? 0x00) && (b4 =? 0x00)
      && (b5 <=? 0x0F)
  | _ => false
  end.

Definition bit_of (i : nat) : Z := Z.shiftl ONE64 (Z.of_nat i).

(** The answers of the allocator, in order; memory is available after them. *)
Definition take_alloc (allocs : list bool) : bool * list bool :=
  match allocs with [] => (true, []) | ok :: allocs => (ok, allocs) end.

Section Switch.

Context {W : Type} `{D : !Dispatch W}.
(** [is_multicast_ether_addr] of DPDK. *)
Context (is_multicast : list Z → bool).
Implicit Types (st : pg_switch_state) (b : pg_brick) (pkts : pkts_t).

(** ** Marking packets *)

(** [masks[j] |= mask] for [j < n]; [None] is a write past the array. *)
Fixpoint or_prefix (n : nat) (l : list Z) (mask : Z) : option (list Z) :=
  match n, l with
  | O, _ => Some l
  | S _, [] => None
  | S n, x :: l => l' ← or_prefix n l mask; Some (Z.lor x mask :: l')
  end.

Fixpoint flood_sides (l : list pg_side) st b (mask : Z) : option pg_switch_state :=
  match l with
  | [] => Some st
  | s :: l =>
      ms ← or_prefix (Z.to_nat (side_nb (sides b s))) (masks (sw_side st s)) mask;
      flood_sides l (set_masks st s ms) b mask
  end.

Definition flood st b (mask : Z) : option pg_switch_state :=
  if mask =? 0 then Some st else flood_sides all_sides st b mask.

(** [masks] gets zeroes in its first [max] words. *)
Definition zero_masks st b : pg_switch_state :=
  let z s := replicate (Z.to_nat (side_max (sides b s))) 0 in
  set_masks (set_masks st PG_WEST_SIDE (z PG_WEST_SIDE)) PG_EAST_SIDE (z PG_EAST_SIDE).

(** [learn_addr], with the allocator's answers left; [inr] is the jump to the
    handler. *)
Definition learn_addr st (key : pg_mac) (source : source_ptr) (allocs : list bool)
    : option ((pg_switch_state * list bool) + (pg_switch_state * list bool)) :=
  let '(ok1, allocs1) :=
    if pg_mac_table_is_set (mt_mask (table st)) (pg_mac_table_part1 key)
    then (true, allocs) else take_alloc allocs in
  let '(ok2, allocs2) :=
    if pg_mac_table_is_set (mt_mask (table st)) (pg_mac_table_part1 key) || negb ok1
    then (true, allocs1) else take_alloc allocs1 in
  r ← pg_mac_table_ptr_set ok1 ok2 (table st) key source;
  Some (match r with
        | SetDone t => inl (set_table st t (is_table_dead st), allocs2)
        | SetJump t => inr (set_table st t (is_table_dead st), allocs2)
        end).

(** The loop of [do_learn_filter_multicast] over the packets of the burst: the
    filtered and the flooded ones. *)
Fixpoint learn_loop (mem : gmap mptr mbuf) pkts (source : source_ptr) (l : list nat)
    st (allocs : list bool) (filtered flooded : Z)
    : option ((pg_switch_state * list bool * Z * Z) + (pg_switch_state * list bool)) :=
  match l with
  | [] => Some (inl (st, allocs, filtered, flooded))
  | i :: l =>
      h ← pkt_ether mem pkts i;
      r ← learn_addr st (s_mac h) source allocs;
      match r with
      | inr jump => Some (inr jump)
      | inl (st, allocs) =>
          if is_filtered (d_addr h)
          then learn_loop mem pkts source l st allocs (Z.lor filtered (bit_of i)) flooded
          else if is_multicast (d_addr h)
          then learn_loop mem pkts source l st allocs filtered (Z.lor flooded (bit_of i))
          else learn_loop mem pkts source l st allocs filtered flooded
      end
  end.

Definition do_learn_filter_multicast (mem : gmap mptr mbuf) st b (source : source_ptr) pkts
    (pkts_mask : Z) (allocs : list bool)
    : option ((pg_switch_state * list bool * Z) + (pg_switch_state * list bool)) :=
  r ← learn_loop mem pkts source (PG_FOREACH_BIT pkts_mask) st allocs 0 0;
  match r with
  | inr jump => Some (inr jump)
  | inl (st, allocs, filtered_mask, flood_mask) =>
      st ← flood st b flood_mask;
      Some (inl (st, allocs,
        Z.land (Z.land pkts_mask (not64 filtered_mask)) (not64 flood_mask)))
  end.

(** The loop of [do_switch]: a known destination marks its port, the others are
    flooded. *)
Fixpoint switch_loop (mem : gmap mptr mbuf) pkts (l : list nat) st (flooded : Z)
    : option (pg_switch_state * Z) :=
  match l with
  | [] => Some (st, flooded)
  | i :: l =>
      h ← pkt_ether mem pkts i;
      entry ← pg_mac_table_ptr_get (table st) (d_mac h);
      match entry with
      | None => switch_loop mem pkts l st (Z.lor flooded (bit_of i))
      | Some (s, j) =>
          src ← sources (sw_side st s) !! j;
          m ← masks (sw_side st (from src)) !! edge_index src;
          switch_loop mem pkts l
            (set_masks st (from src)
              (<[edge_index src := Z.lor m (bit_of i)]> (masks (sw_side st (from src)))))
            flooded
      end
  end.

Definition do_switch (mem : gmap mptr mbuf) st b pkts (pkts_mask : Z)
    : option pg_switch_state :=
  r ← switch_loop mem pkts (PG_FOREACH_BIT pkts_mask) st 0;
  flood (fst r) b (snd r).

(** ** Sending *)

Definition forward st b (to : pg_side) (index : nat) pkts : M (flow W) (Z * pg_switch_state) :=
  e ← edges_at (sides b to) index;
  match link e with
  | None => mret (0, st)
  | Some q =>
      mask ← unwrap (masks (sw_side st to) !! index);
      if mask =? 0 then mret (0, st)
      else
        let st := set_masks st to (<[index := 0]> (masks (sw_side st to))) in
        r ← pg_brick_burst (Some q) (pg_flip_side to) (pair_index e) pkts mask;
        mret (r, st)
  end.

Fixpoint forward_list st b (ports : list (pg_side * nat)) pkts
    : M (flow W) (Z * pg_switch_state) :=
  match ports with
  | [] => mret (0, st)
  | (s, j) :: ports =>
      r ← forward st b s j pkts;
      if fst r <? 0 then mret (-1, snd r) else forward_list (snd r) b ports pkts
  end.

Definition side_ports b (s : pg_side) : list (pg_side * nat) :=
  pair s <$> seq 0 (Z.to_nat (side_nb (sides b s))).

Definition forward_bursts st b (source : source_ptr) pkts : M (flow W) (Z * pg_switch_state) :=
  src ← unwrap (sources (sw_side st (fst source)) !! snd source);
  m ← unwrap (masks (sw_side st (from src)) !! edge_index src);
  let st := set_masks st (from src)
              (<[edge_index src := 0]> (masks (sw_side st (from src)))) in
  forward_list st b (side_ports b (output st) ++ side_ports b (pg_flip_side (output st))) pkts.

(** ** The handler *)

Definition mac_table_no_mem b : M (flow W) Z :=
  flow_error (pg_error_new_errno 12
    ("Failed to create hash for switch brick '" +:+ name b +:+ "'"));;
  mret (-1).

(** [switch_burst]: a failed allocation jumps back to [setjmp] with the table
    freed. Each jump uses an answer of the allocator, so the retries are bounded by
    their number. *)
Fixpoint switch_attempt (fuel : nat) st b (from_side : pg_side) (edge : nat) pkts
    (pkts_mask : Z) (allocs : list bool) : M (flow W) (Z * pg_switch_state) :=
  match fuel with
  | O => crash
  | S fuel =>
      let '(ok, allocs) :=
        if is_table_dead st then take_alloc allocs else (true, allocs) in
      if negb ok then r ← mac_table_no_mem b; mret (r, st)
      else
        let st := if is_table_dead st then set_table st (mk_tbl ∅ ∅) false else st in
        srcs ← unwrap (sources (sw_side st from_side) !! edge);
        let st := set_sw_side st from_side
          (mk_sw_side (<[edge := mk_source edge from_side]> (sources (sw_side st from_side)))
                      (masks (sw_side st from_side))) in
        mem ← gets fl_mem;
        r ← unwrap (do_learn_filter_multicast mem st b (from_side, edge) pkts pkts_mask allocs);
        match r with
        | inr (st, allocs) =>
            _ ← unwrap (pg_mac_table_free (table st));
            switch_attempt fuel (set_table st (mk_tbl ∅ ∅) true) b from_side edge pkts
              pkts_mask allocs
        | inl (st, _, unicast_mask) =>
            st ← unwrap (do_switch mem st b pkts unicast_mask);
            forward_bursts st b (from_side, edge) pkts
        end
  end.

Definition switch_burst (allocs : list bool) st b (from_side : pg_side) (edge : nat) pkts
    (pkts_mask : Z) : M (flow W) (Z * pg_switch_state) :=
  switch_attempt (S (length allocs)) st b from_side edge pkts pkts_mask allocs.

(** ** Life cycle *)

(** [switch_init]; [ok] is the answer of the allocator for the table. *)
Definition switch_init (ok : bool) b (config : pg_switch_config)
    : M (flow W) (Z * option pg_switch_state) :=
  match pg_mac_table_init ok with
  | (_, None) => r ← mac_table_no_mem b; mret (r, None)
  | (_, Some t) =>
      let side s :=
        let max := Z.to_nat (side_max (sides b s)) in
        mk_sw_side (replicate max (mk_source 0 PG_WEST_SIDE)) (replicate max 0) in
      let st := mk_switch t false (cfg_output config) (side PG_WEST_SIDE) (side PG_EAST_SIDE) in
      mret (0, Some (zero_masks st b))
  end.

(** [switch_unlink_notify]: drops the addresses learned on the port. *)
Definition switch_unlink_notify st (side : pg_side) (edge : nat) : option pg_switch_state :=
  if is_table_dead st then Some st
  else
    let at_port (p : source_ptr) :=
      match sources (sw_side st (fst p)) !! snd p with
      | Some src => bool_decide (from src = side ∧ edge_index src = edge)
      | None => false
      end in
    t ← table_remove_if at_port (table st);
    Some (set_table st t false).

End Switch.

(** ** Ports and marks *)

Definition mask_at (st : pg_switch_state) (p : source_ptr) : Z :=
  default 0 (masks (sw_side st (fst p)) !! snd p).

(** Two states that differ only in the marks. *)
Record same_but_masks (st st' : pg_switch_state) : Prop := {
  sb_table : table st' = table st;
  sb_dead : is_table_dead st' = is_table_dead st;
  sb_output : output st' = output st;
  sb_sources s : sources (sw_side st' s) = sources (sw_side st s);
  sb_length s : length (masks (sw_side st' s)) = length (masks (sw_side st s));
}.

Definition masks_ok (st : pg_switch_state) : Prop := ∀ p, is_mask (mask_at st p).

Lemma same_refl st : same_but_masks st st.
Proof. by split. Qed.

Lemma same_trans st1 st2 st3 :
  same_but_masks st1 st2 → same_but_masks st2 st3 → same_but_masks st1 st3.
Proof. intros [] []. split; congruence. Qed.

Lemma sw_side_set_masks st s l s' :
  sw_side (set_masks st s l) s' =
  if decide (s = s') then mk_sw_side (sources (sw_side st s)) l else sw_side st s'.
Proof. by destruct s, s'. Qed.

Lemma same_set_masks st s l :
  length l = length (masks (sw_side st s)) → same_but_masks st (set_masks st s l).
Proof.
  intros Hl. split; try (by destruct s); intros s'; rewrite sw_side_set_masks;
    case_decide; subst; done.
Qed.

Lemma mask_at_insert st s j x p :
  (j < length (masks (sw_side st s)))%nat →
  mask_at (set_masks st s (<[j := x]> (masks (sw_side st s)))) p
  = if decide (p = (s, j)) then x else mask_at st p.
Proof.
  intros Hj. destruct p as [s' j']. unfold mask_at. cbn [fst snd].
  rewrite sw_side_set_masks. destruct (decide (s = s')) as [<-|Hs]; cbn [masks].
  - destruct (decide (j' = j)) as [->|Hne].
    + rewrite list_lookup_insert_eq, decide_True by done. done.
    + rewrite list_lookup_insert_ne, decide_False by congruence. done.
  - rewrite decide_False by congruence. done.
Qed.

Lemma or_prefix_spec n l mask :
  (n ≤ length l)%nat →
  ∃ l', or_prefix n l mask = Some l' ∧ length l' = length l ∧
    ∀ j, default 0 (l' !! j)
      = if decide (j < n)%nat then Z.lor (default 0 (l !! j)) mask else default 0 (l !! j).
Proof.
  revert l. induction n as [|n IH]; intros l Hn; cbn [or_prefix].
  { exists l. split_and!; [done..|]. intros j. by rewrite decide_False by lia. }
  destruct l as [|x l]; simpl in Hn; [lia|]. destruct (IH l ltac:(lia)) as (l'&->&Hlen&Hl').
  eexists. split_and!; [done|simpl; lia|]. intros [|j].
  - by rewrite decide_True by lia.
  - change ((Z.lor x mask :: l') !! S j) with (l' !! j). change ((x :: l) !! S j) with (l !! j).
    rewrite Hl'. repeat case_decide; (done || lia).
Qed.

Definition nb_of (b : pg_brick) (s : pg_side) : nat := Z.to_nat (side_nb (sides b s)).

(** Room for a mark on every port. *)
Definition room (st : pg_switch_state) (b : pg_brick) : Prop :=
  ∀ s, (nb_of b s ≤ length (masks (sw_side st s)))%nat.

Lemma room_same st st' b : same_but_masks st st' → room st b → room st' b.
Proof. intros [] Hr s. specialize (Hr s). rewrite sb_length0. done. Qed.

Lemma flood_side_spec st b s mask :
  room st b →
  ∃ ms, or_prefix (nb_of b s) (masks (sw_side st s)) mask = Some ms ∧
    same_but_masks st (set_masks st s ms) ∧
    ∀ p, mask_at (set_masks st s ms) p =
      if decide (fst p = s ∧ (snd p < nb_of b s)%nat)
      then Z.lor (mask_at st p) mask else mask_at st p.
Proof.
  intros Hr. destruct (or_prefix_spec _ _ mask (Hr s)) as (ms&Hms&Hlen&Hl).
  exists ms. split_and!; [done|by apply same_set_masks|].
  intros [s' j]. unfold mask_at. cbn [fst snd]. rewrite sw_side_set_masks.
  destruct (decide (s = s')) as [<-|Hne]; cbn [masks].
  - rewrite Hl. repeat case_decide; naive_solver.
  - rewrite decide_False by naive_solver. done.
Qed.

Lemma flood_spec st b mask :
  room st b → masks_ok st → is_mask mask →
  ∃ st', flood st b mask = Some st' ∧ same_but_masks st st' ∧ masks_ok st' ∧
    ∀ p i, mask_has (mask_at st' p) i
      = mask_has (mask_at st p) i || (bool_decide (snd p < nb_of b (fst p))%nat && mask_has mask i).
Proof.
  intros Hr Hok Hm. unfold flood. destruct (Z.eqb_spec mask 0) as [->|Hne].
  { exists st. split_and!; [done|apply same_refl|done|]. intros p i.
    by rewrite mask_has_0, andb_false_r, orb_false_r. }
  unfold all_sides, flood_sides. fold (nb_of b PG_WEST_SIDE) (nb_of b PG_EAST_SIDE).
  destruct (flood_side_spec st b PG_WEST_SIDE mask Hr) as (ms1&->&Hs1&Hm1). cbn [mbind option_bind].
  set (st1 := set_masks st PG_WEST_SIDE ms1) in *.
  destruct (flood_side_spec st1 b PG_EAST_SIDE mask) as (ms2&->&Hs2&Hm2);
    [by eapply room_same|]. cbn [mbind option_bind].
  set (st2 := set_masks st1 PG_EAST_SIDE ms2) in *.
  assert (∀ p, mask_at st2 p = if decide (snd p < nb_of b (fst p))%nat
    then Z.lor (mask_at st p) mask else mask_at st p) as Heq.
  { intros [s j]. rewrite Hm2, Hm1. cbn [fst snd].
    destruct s; repeat case_decide; naive_solver. }
  exists st2. split_and!; [done|by eapply same_trans| |].
  - intros p. rewrite Heq. case_decide; [apply is_mask_lor|]; auto.
  - intros p i. rewrite Heq. case_decide; [rewrite bool_decide_eq_true_2 by done|
      rewrite bool_decide_eq_false_2 by done].
    + by rewrite mask_has_lor.
    + simpl. by rewrite orb_false_r.
Qed.

Lemma is_mask_bit_of i : (i < 64)%nat → is_mask (bit_of i).
Proof. apply is_mask_bit. Qed.

Lemma mask_has_bit_of i j : mask_has (bit_of i) j = bool_decide (i = j).
Proof. apply mask_has_bit. Qed.

(** ** Learning *)

Section Spec.

Context {W : Type} `{D : !Dispatch W} (is_multicast : list Z → bool).
Implicit Types (st : pg_switch_state) (b : pg_brick) (pkts : pkts_t)
  (m : gmap (Z * Z) source_ptr).

Lemma learn_addr_spec st m key src :
  rep (table st) m →
  ∃ t, learn_addr st key src [] = Some (inl (set_table st t (is_table_dead st), [])) ∧
    rep t (<[mac_key key := src]> m).
Proof.
  intros Hrep. destruct (set_spec (table st) m key src Hrep) as (t&Hset&Hrep').
  exists t. split; [|done]. unfold learn_addr.
  destruct (pg_mac_table_is_set (mt_mask (table st)) (pg_mac_table_part1 key));
    cbn [take_alloc orb negb]; unfold pg_mac_table_ptr_set; by rewrite Hset.
Qed.

(** The packets of a burst, as the switch sees them. *)
Context (mem : gmap mptr mbuf) (pkts : pkts_t) (hdr : nat → ether_view).

Definition headers (l : list nat) : Prop := ∀ i, i ∈ l → pkt_ether mem pkts i = Some (hdr i).
Definition filtered_pkt (i : nat) : Prop := is_filtered (d_addr (hdr i)) = true.
Definition multicast_pkt (i : nat) : Prop :=
  is_filtered (d_addr (hdr i)) = false ∧ is_multicast (d_addr (hdr i)) = true.

Global Instance filtered_pkt_dec i : Decision (filtered_pkt i).
Proof. unfold filtered_pkt. apply _. Defined.

Global Instance multicast_pkt_dec i : Decision (multicast_pkt i).
Proof. unfold multicast_pkt. apply _. Defined.

Definition dst_key (i : nat) : Z * Z := mac_key (d_mac (hdr i)).

(** The table after the source addresses of the burst. *)
Definition learned (src : source_ptr) (l : list nat) m : gmap (Z * Z) source_ptr :=
  foldl (λ m i, <[mac_key (s_mac (hdr i)) := src]> m) m l.

Lemma learn_loop_spec src l st m f g :
  rep (table st) m → headers l →
  ∃ t, learn_loop is_multicast mem pkts src l st [] f g
    = Some (inl (set_table st t (is_table_dead st), [],
        Z.lor f (bits_of filtered_pkt l), Z.lor g (bits_of multicast_pkt l)))
    ∧ rep t (learned src l m).
Proof.
  revert st m f g. induction l as [|i l IH]; intros st m f g Hrep Hh; cbn [learn_loop].
  { exists (table st). cbn [bits_of]. rewrite !Z.lor_0_r. split; [by destruct st|done]. }
  rewrite (Hh i) by set_solver. cbn [mbind option_bind].
  destruct (learn_addr_spec st m (s_mac (hdr i)) src Hrep) as (t&->&Hrep').
  cbn [mbind option_bind].
  set (st1 := set_table st t (is_table_dead st)).
  destruct (IH st1 _ (if is_filtered (d_addr (hdr i)) then Z.lor f (bit_of i) else f)
    (if is_filtered (d_addr (hdr i)) then g
     else if is_multicast (d_addr (hdr i)) then Z.lor g (bit_of i) else g) Hrep')
    as (t'&Hrun&Hrep''); [set_solver|].
  exists t'. split; [|exact Hrep'']. cbn [bits_of].
  destruct (is_filtered (d_addr (hdr i))) eqn:Hf.
  - assert (filtered_pkt i) by exact Hf.
    assert (¬ multicast_pkt i) by (intros [? _]; congruence).
    rewrite decide_True, decide_False by done. rewrite Z.lor_assoc. exact Hrun.
  - assert (¬ filtered_pkt i) by (unfold filtered_pkt; congruence).
    rewrite decide_False by done. destruct (is_multicast (d_addr (hdr i))) eqn:Hmc.
    + rewrite decide_True by done. rewrite Z.lor_assoc. exact Hrun.
    + assert (¬ multicast_pkt i) by (intros [_ ?]; congruence).
      rewrite decide_False by done. exact Hrun.
Qed.

(** ** Switching *)

(** Every port in the table has its source record and a mark. *)
Definition ports_ok st m : Prop :=
  ∀ k p, m !! k = Some p →
    sources (sw_side st (fst p)) !! snd p = Some (mk_source (snd p) (fst p)) ∧
    (snd p < length (masks (sw_side st (fst p))))%nat.

Lemma ports_ok_same st st' m : same_but_masks st st' → ports_ok st m → ports_ok st' m.
Proof.
  intros [] H k p Hk. destruct (H k p Hk). rewrite sb_sources0, sb_length0. done.
Qed.

Lemma switch_loop_spec l st m g :
  rep (table st) m → ports_ok st m → masks_ok st → headers l → (∀ i, i ∈ l → (i < 64)%nat) →
  ∃ st', switch_loop mem pkts l st g
    = Some (st', Z.lor g (bits_of (λ i, m !! dst_key i = None) l)) ∧
    same_but_masks st st' ∧ masks_ok st' ∧
    ∀ p i, mask_has (mask_at st' p) i
      = mask_has (mask_at st p) i || bool_decide (i ∈ l ∧ m !! dst_key i = Some p).
Proof.
  revert st g. induction l as [|i l IH]; intros st g Hrep Hp Hok Hh H64; cbn [switch_loop].
  { exists st. cbn [bits_of]. rewrite Z.lor_0_r. split_and!; [done|apply same_refl|done|].
    intros p i. rewrite bool_decide_eq_false_2 by set_solver. by rewrite orb_false_r. }
  rewrite (Hh i) by set_solver. cbn [mbind option_bind].
  unfold pg_mac_table_ptr_get. rewrite (get_spec _ m) by done. cbn [mbind option_bind].
  fold (dst_key i). cbn [bits_of]. destruct (m !! dst_key i) as [[s j]|] eqn:Hd.
  - destruct (Hp _ _ Hd) as [Hsrc Hlen]. cbn [fst snd] in Hsrc, Hlen. rewrite Hsrc.
    cbn [mbind option_bind from edge_index].
    destruct (lookup_lt_is_Some_2 _ _ Hlen) as [x Hx]. rewrite Hx. cbn [mbind option_bind].
    set (st1 := set_masks st s _).
    assert (same_but_masks st st1) as Hs1 by (apply same_set_masks; by rewrite length_insert).
    assert (∀ p, mask_at st1 p = if decide (p = (s, j)) then Z.lor x (bit_of i)
      else mask_at st p) as Hm1 by (intros p; by apply mask_at_insert).
    assert (mask_at st (s, j) = x) as Hx' by (unfold mask_at; cbn [fst snd]; by rewrite Hx).
    assert (masks_ok st1) as Hok1.
    { intros p. rewrite Hm1. case_decide; [|done]. apply is_mask_lor.
      - rewrite <- Hx'. apply Hok.
      - apply is_mask_bit_of, H64. set_solver. }
    destruct (IH st1 g) as (st'&->&Hs'&Hok'&Hm');
      [by rewrite (sb_table _ _ Hs1)|by eapply ports_ok_same|done|set_solver|set_solver|].
    exists st'. rewrite decide_False by done. split_and!; [done|by eapply same_trans|done|].
    intros p i'. rewrite Hm', Hm1. case_decide as Hpd.
    + subst p. rewrite mask_has_lor, mask_has_bit_of, Hx'. apply eq_bool_prop_intro.
      rewrite !orb_True, !bool_decide_spec, elem_of_cons. naive_solver.
    + f_equal. apply bool_decide_ext. rewrite elem_of_cons. naive_solver.
  - destruct (IH st (Z.lor g (bit_of i))) as (st'&->&Hs'&Hok'&Hm');
      [done|done|done|set_solver|set_solver|].
    exists st'. rewrite decide_True by done. split_and!; [|done|done|].
    + by rewrite Z.lor_assoc.
    + intros p i'. rewrite Hm'. f_equal. apply bool_decide_ext. rewrite elem_of_cons. naive_solver.
Qed.

(** ** Marking a burst *)

(** Packet [i] leaves by port [p]: it is not filtered, and it is flooded or its
    destination was learned on [p]. *)
Definition sent_to m b (p : source_ptr) (i : nat) : Prop :=
  ¬ filtered_pkt i ∧
  ((multicast_pkt i ∨ m !! dst_key i = None) ∧ (snd p < nb_of b (fst p))%nat ∨
   ¬ multicast_pkt i ∧ m !! dst_key i = Some p).

Global Instance sent_to_dec m b p i : Decision (sent_to m b p i).
Proof. unfold sent_to. apply _. Defined.

Lemma learned_lookup src l m k p :
  learned src l m !! k = Some p → p = src ∨ m !! k = Some p.
Proof.
  unfold learned. revert m. induction l as [|i l IH]; intros m; cbn [foldl]; [by right|].
  intros [->|H]%IH; [by left|]. apply lookup_insert_Some in H as [[_ <-]|[_ ?]]; auto.
Qed.

Lemma sw_side_set_table st t d s : sw_side (set_table st t d) s = sw_side st s.
Proof. by destruct s. Qed.

Lemma mask_at_set_table st t d p : mask_at (set_table st t d) p = mask_at st p.
Proof. unfold mask_at. by rewrite sw_side_set_table. Qed.

Lemma foreach_lt pm i : is_mask pm → i ∈ PG_FOREACH_BIT pm → (i < 64)%nat.
Proof. intros Hm Hi%elem_of_foreach; [|done]. by eapply mask_has_lt. Qed.

Lemma unicast_has pm i :
  is_mask pm →
  mask_has (Z.land (Z.land pm (not64 (bits_of filtered_pkt (PG_FOREACH_BIT pm))))
                   (not64 (bits_of multicast_pkt (PG_FOREACH_BIT pm)))) i
  = bool_decide (i ∈ PG_FOREACH_BIT pm ∧ ¬ filtered_pkt i ∧ ¬ multicast_pkt i).
Proof.
  intros Hm. rewrite !mask_has_clear by auto with pg. rewrite !mask_has_bits_of.
  destruct (mask_has pm i) eqn:Hi; cbn [andb].
  - apply elem_of_foreach in Hi; [|done]. repeat case_bool_decide; simpl; naive_solver.
  - assert (i ∉ PG_FOREACH_BIT pm) by (rewrite elem_of_foreach by done; congruence).
    symmetry. apply bool_decide_eq_false_2. naive_solver.
Qed.

Lemma marking_spec st b m src pm :
  rep (table st) m → ports_ok st m → room st b → masks_ok st → is_mask pm →
  headers (PG_FOREACH_BIT pm) →
  sources (sw_side st (fst src)) !! snd src = Some (mk_source (snd src) (fst src)) →
  (snd src < length (masks (sw_side st (fst src))))%nat →
  let m' := learned src (PG_FOREACH_BIT pm) m in
  ∃ st1 u st2,
    do_learn_filter_multicast is_multicast mem st b src pkts pm [] = Some (inl (st1, [], u)) ∧
    do_switch mem st1 b pkts u = Some st2 ∧ rep (table st2) m' ∧
    same_but_masks (set_table st (table st2) (is_table_dead st)) st2 ∧ masks_ok st2 ∧
    ∀ p i, mask_has (mask_at st2 p) i = mask_has (mask_at st p) i ||
      bool_decide (i ∈ PG_FOREACH_BIT pm ∧ sent_to m' b p i).
Proof.
  intros Hrep Hports Hroom Hok Hm Hh Hsrc Hlen m'.
  set (l := PG_FOREACH_BIT pm) in *.
  assert (∀ i, i ∈ l → (i < 64)%nat) as H64 by (intros i; by apply foreach_lt).
  unfold do_learn_filter_multicast. fold l.
  destruct (learn_loop_spec src l st m 0 0 Hrep Hh) as (t&->&Hrep'). cbn [mbind option_bind].
  rewrite !Z.lor_0_l. set (st0 := set_table st t (is_table_dead st)).
  assert (∀ s, sw_side st0 s = sw_side st s) as Hside by (intros; apply sw_side_set_table).
  assert (room st0 b) as Hroom0 by (intros s; rewrite Hside; apply Hroom).
  assert (masks_ok st0) as Hok0 by (intros p; unfold st0; by rewrite mask_at_set_table).
  destruct (flood_spec st0 b (bits_of multicast_pkt l)) as (st1&->&Hs1&Hok1&Hm1);
    [done..|by apply is_mask_bits_of|].
  cbn [mbind option_bind]. set (u := Z.land _ _).
  assert (is_mask u) as Hu by (unfold u; auto with pg).
  assert (∀ i, i ∈ PG_FOREACH_BIT u ↔ i ∈ l ∧ ¬ filtered_pkt i ∧ ¬ multicast_pkt i) as Hin.
  { intros i. rewrite elem_of_foreach by done. unfold u, l.
    rewrite unicast_has, bool_decide_eq_true by done. done. }
  assert (ports_ok st1 m') as Hports1.
  { eapply ports_ok_same; [exact Hs1|]. intros k p [->|Hp]%learned_lookup.
    - by rewrite !Hside.
    - rewrite !Hside. by eapply Hports. }
  exists st1, u. unfold do_switch.
  destruct (switch_loop_spec (PG_FOREACH_BIT u) st1 m' 0) as (st2&->&Hs2&Hok2&Hm2).
  { by rewrite (sb_table _ _ Hs1). } { done. } { done. }
  { intros i [Hi _]%Hin. by apply Hh. } { intros i [Hi _]%Hin. by apply H64. }
  cbn [mbind option_bind fst snd]. rewrite Z.lor_0_l.
  destruct (flood_spec st2 b (bits_of (λ i, m' !! dst_key i = None) (PG_FOREACH_BIT u)))
    as (st3&Hf3&Hs3&Hok3&Hm3).
  { eapply room_same; [exact Hs2|]. by eapply room_same. } { done. }
  { apply is_mask_bits_of. intros i [Hi _]%Hin. by apply H64. }
  pose proof (same_trans _ _ _ Hs1 (same_trans _ _ _ Hs2 Hs3)) as Hs.
  assert (table st3 = t) as Ht by (by rewrite (sb_table _ _ Hs)).
  exists st3. rewrite Ht. split_and!; [done..|].
  intros p i. rewrite Hm3, Hm2, Hm1. unfold st0. rewrite mask_at_set_table, <- !orb_assoc.
  f_equal. rewrite !mask_has_bits_of. apply eq_bool_prop_intro.
  rewrite !orb_True, !andb_True, !bool_decide_spec, !Hin. unfold sent_to.
  assert (multicast_pkt i → ¬ filtered_pkt i) as Hex
    by (unfold multicast_pkt, filtered_pkt; intros [? _]; congruence).
  destruct (decide (filtered_pkt i)), (decide (multicast_pkt i)); try tauto.
  all: destruct (m' !! dst_key i) as [q|]; intuition congruence.
Qed.

(** ** Forwarding *)

(** The calls of the forwarding loop over [ports]. *)
Definition port_call (marks : source_ptr → Z) b pkts (p : pg_side * nat) : option burst_call :=
  match side_edges (sides b (fst p)) with
  | Edges es =>
      e ← es !! snd p; q ← link e;
      if marks p =? 0 then None
      else Some (mk_call (Some q) (pg_flip_side (fst p)) (pair_index e) pkts (marks p))
  | Edge _ => None
  end.

Definition port_linked b (p : pg_side * nat) : Prop :=
  match side_edges (sides b (fst p)) with
  | Edges es => ∃ e, es !! snd p = Some e ∧ is_linked e
  | Edge _ => False
  end.

Global Instance port_linked_dec b p : Decision (port_linked b p).
Proof.
  unfold port_linked. destruct (side_edges (sides b (fst p))) as [es|]; [|apply _].
  destruct (es !! snd p) as [e|].
  - destruct (decide (is_linked e)); [left; eauto|right; naive_solver].
  - right. naive_solver.
Defined.

Lemma port_call_ext f g b q p : f p = g p → port_call f b q p = port_call g b q p.
Proof. intros H. unfold port_call. by rewrite H. Qed.

Lemma omap_ext_in {A B} (f g : A → option B) (l : list A) :
  (∀ x, x ∈ l → f x = g x) → omap f l = omap g l.
Proof.
  induction l as [|x l IH]; intros H; [done|]. cbn [omap list_omap].
  rewrite (H x) by set_solver. rewrite IH by set_solver. done.
Qed.

Lemma forward_list_cons st b s j ports fl :
  forward_list st b ((s, j) :: ports) pkts fl =
  match forward st b s j pkts fl with
  | Some ((r, st'), fl') =>
      if r <? 0 then Some ((-1, st'), fl') else forward_list st' b ports pkts fl'
  | None => None
  end.
Proof.
  cbn [forward_list]. unfold mbind, M_bind. destruct (forward st b s j pkts fl) as [[[r st'] fl']|];
    [|done]. cbn [fst snd]. by destruct (r <? 0).
Qed.

Lemma run_calls_cons c cs (fl : flow W) :
  run_calls (c :: cs) fl =
  match do_call c fl with
  | Some (r, fl') => if r <? 0 then Some (-1, fl') else run_calls cs fl'
  | None => None
  end.
Proof.
  cbn [run_calls]. unfold mbind, M_bind. destruct (do_call c fl) as [[r fl']|]; [|done].
  by destruct (r <? 0).
Qed.

Lemma forward_spec st b s j e x es fl :
  side_edges (sides b s) = Edges es → es !! j = Some e →
  masks (sw_side st s) !! j = Some x →
  forward st b s j pkts fl =
  match port_call (mask_at st) b pkts (s, j) with
  | None => Some ((0, st), fl)
  | Some c =>
      match do_call c fl with
      | Some (r, fl') =>
          Some ((r, set_masks st s (<[j := 0]> (masks (sw_side st s)))), fl')
      | None => None
      end
  end.
Proof.
  intros Hes He Hx. assert (mask_at st (s, j) = x) as Hmx
    by (unfold mask_at; cbn [fst snd]; by rewrite Hx).
  unfold forward, edges_at, port_call. cbn [fst snd]. rewrite Hes, He, Hx, Hmx.
  cbn [unwrap mbind option_bind]. rewrite M_bind_ret.
  destruct (link e) as [q|]; cbn [mbind option_bind]; [|done]. rewrite M_bind_ret.
  destruct (x =? 0); [done|]. unfold do_call. cbn [bc_to bc_from bc_edge bc_pkts bc_mask].
  unfold mbind, M_bind. by destruct (pg_brick_burst _ _ _ _ _ fl) as [[r fl']|].
Qed.

(** Ports that exist and have a mark. *)
Definition ports_in st b (ports : list (pg_side * nat)) : Prop :=
  ∀ s j, (s, j) ∈ ports → ∃ es e x, side_edges (sides b s) = Edges es ∧ es !! j = Some e ∧
    masks (sw_side st s) !! j = Some x.

Lemma ports_in_same st st' b ports :
  same_but_masks st st' → ports_in st b ports → ports_in st' b ports.
Proof.
  intros Hs H s j Hp. destruct (H s j Hp) as (es&e&x&He&Hj&Hx). exists es, e.
  apply lookup_lt_Some in Hx. rewrite <- (sb_length _ _ Hs s) in Hx.
  destruct (lookup_lt_is_Some_2 _ _ Hx) as [y Hy]. eauto.
Qed.

Lemma port_call_linked st b q p c : port_call (mask_at st) b q p = Some c → port_linked b p.
Proof.
  unfold port_call, port_linked. destruct (side_edges _) as [es|]; [|done].
  destruct (es !! snd p) as [e|]; [|done]. cbn [mbind option_bind].
  destruct (link e) as [x|] eqn:Hl; [|done]. intros _. exists e. split; [done|].
  unfold is_linked. eauto.
Qed.

Lemma port_call_None st b q p :
  port_call (mask_at st) b q p = None → port_linked b p → mask_at st p = 0.
Proof.
  unfold port_call, port_linked. destruct (side_edges _) as [es|]; [|done].
  intros Hc (e&He&x&Hl). rewrite He in Hc. cbn [mbind option_bind] in Hc.
  rewrite Hl in Hc. cbn [mbind option_bind] in Hc. by destruct (Z.eqb_spec (mask_at st p) 0).
Qed.

Lemma forward_list_spec ports st b fl :
  ports_in st b ports → NoDup ports →
  match run_calls (omap (port_call (mask_at st) b pkts) ports) fl with
  | None => forward_list st b ports pkts fl = None
  | Some (r, fl') => ∃ st', forward_list st b ports pkts fl = Some ((r, st'), fl') ∧
      same_but_masks st st' ∧
      (r = 0 → ∀ p, mask_at st' p =
         if decide (p ∈ ports ∧ port_linked b p) then 0 else mask_at st p)
  end.
Proof.
  revert st fl. induction ports as [|[s j] ports IH]; intros st fl Hp Hnd.
  { exists st. split_and!; [done|apply same_refl|]. intros _ p.
    rewrite decide_False; [done|]. set_solver. }
  apply NoDup_cons in Hnd as [Hsj Hnd].
  destruct (Hp s j) as (es&e&x&Hes&He&Hx); [set_solver|].
  rewrite forward_list_cons, (forward_spec st b s j e x es) by done.
  cbn [omap list_omap]. destruct (port_call (mask_at st) b pkts (s, j)) as [c|] eqn:Hc.
  - rewrite run_calls_cons. destruct (do_call c fl) as [[r fl1]|]; [|done].
    set (st1 := set_masks st s (<[j := 0]> (masks (sw_side st s)))).
    assert (same_but_masks st st1) as Hs1 by (apply same_set_masks; by rewrite length_insert).
    destruct (Z.ltb_spec r 0) as [Hr|Hr].
    { exists st1. split_and!; [done..|]. intros ?. lia. }
    assert (∀ p, mask_at st1 p = if decide (p = (s, j)) then 0 else mask_at st p) as Hm1
      by (intros p; apply mask_at_insert; by apply lookup_lt_Some in Hx).
    assert (omap (port_call (mask_at st1) b pkts) ports = omap (port_call (mask_at st) b pkts) ports) as Hom.
    { apply omap_ext_in. intros p Hpp. apply port_call_ext. rewrite Hm1.
      rewrite decide_False; [done|]. by intros ->. }
    specialize (IH st1 fl1). rewrite Hom in IH.
    change (Z.pos 1) with 1 in *.
    destruct (run_calls (omap (port_call (mask_at st) b pkts) ports) fl1) as [[r2 fl2]|].
    + destruct IH as (st'&->&Hs'&Hm').
      { eapply ports_in_same; [done|]. intros ???. apply Hp. set_solver. } { done. }
      exists st'. split_and!; [done|by eapply same_trans|]. intros Hr2 p. rewrite Hm', Hm1 by done.
      pose proof (port_call_linked _ _ _ _ _ Hc) as Hlk.
      destruct (decide (p = (s, j))) as [->|Hne].
      * rewrite decide_False by naive_solver. rewrite decide_True; [done|]. split; [left|done].
      * apply decide_ext. rewrite elem_of_cons. naive_solver.
    + apply IH; [|done]. eapply ports_in_same; [done|]. intros ???. apply Hp. set_solver.
  - specialize (IH st fl). destruct (run_calls (omap (port_call (mask_at st) b pkts) ports) fl)
      as [[r2 fl2]|].
    + destruct IH as (st'&->&Hs'&Hm'); [intros ???; apply Hp; set_solver|done|].
      exists st'. split_and!; [done..|]. intros Hr2 p. rewrite Hm' by done.
      destruct (decide (p = (s, j))) as [->|Hne].
      * rewrite decide_False by naive_solver. case_decide as Hd; [|done].
        by eapply port_call_None; [exact Hc|apply Hd].
      * apply decide_ext. rewrite elem_of_cons. naive_solver.
    + apply IH; [|done]. intros ???. apply Hp. set_solver.
Qed.

Lemma M_bind_gets {A B} (f : flow W → A) (k : A → M (flow W) B) fl :
  (gets f ≫= k) fl = k (f fl) fl.
Proof. done. Qed.

(** ** The whole handler *)

(** The state agrees with the brick: every port has a mark and a source record, and
    the table is the map [m] from addresses to ports. *)
Record switch_ok st b m : Prop := {
  sok_table : rep (table st) m;
  sok_dead : is_table_dead st = false;
  sok_ports : ports_ok st m;
  sok_masks s : length (masks (sw_side st s)) = Z.to_nat (side_max (sides b s));
  sok_sources s : length (sources (sw_side st s)) = Z.to_nat (side_max (sides b s));
}.

(** No packet of an earlier burst is still marked. *)
Definition clean st : Prop := ∀ p, mask_at st p = 0.

(** The mask port [p] must send, never on the port the burst came from. *)
Definition wanted m b (src : source_ptr) (pm : Z) (p : source_ptr) : Z :=
  if decide (p = src) then 0 else bits_of (sent_to m b p) (PG_FOREACH_BIT pm).

Definition all_ports b (out : pg_side) : list (pg_side * nat) :=
  side_ports b out ++ side_ports b (pg_flip_side out).

Lemma NoDup_all_ports b out : NoDup (all_ports b out).
Proof.
  unfold all_ports, side_ports. apply NoDup_app. split_and!.
  - apply NoDup_fmap; [intros ??; congruence|apply NoDup_seq].
  - intros p (j&->&_)%list_elem_of_fmap (j'&[= H _]&_)%list_elem_of_fmap. by destruct out.
  - apply NoDup_fmap; [intros ??; congruence|apply NoDup_seq].
Qed.

Lemma elem_of_all_ports b out s j : (s, j) ∈ all_ports b out ↔ (j < nb_of b s)%nat.
Proof.
  unfold all_ports, side_ports. rewrite elem_of_app, !list_elem_of_fmap.
  setoid_rewrite elem_of_seq. unfold nb_of. split.
  - intros [(j'&[= -> ->]&?)|(j'&[= -> ->]&?)]; lia.
  - intros Hj. destruct (decide (s = out)) as [->|Hne]; [left|right]; exists j; [by split; [|lia]|].
    assert (s = pg_flip_side out) as -> by (by destruct s, out). by split; [|lia].
Qed.

Lemma nb_le_max b s : brick_ok b → (nb_of b s ≤ Z.to_nat (side_max (sides b s)))%nat.
Proof. intros Hb. pose proof (so_room _ _ (bo_side _ Hb s)). unfold nb_of. lia. Qed.

(** The port that a burst comes from has its source record, which the handler writes. *)
Definition entered st (fs : pg_side) (e : nat) : pg_switch_state :=
  set_sw_side st fs (mk_sw_side (<[e := mk_source e fs]> (sources (sw_side st fs))) (masks (sw_side st fs))).

Lemma entered_masks st fs e s : masks (sw_side (entered st fs e) s) = masks (sw_side st s).
Proof. by destruct s, fs. Qed.

Lemma entered_mask_at st fs e p : mask_at (entered st fs e) p = mask_at st p.
Proof. unfold mask_at. by rewrite entered_masks. Qed.

Lemma entered_length st fs e s : length (sources (sw_side (entered st fs e) s)) = length (sources (sw_side st s)).
Proof. destruct s, fs; unfold entered; simpl; rewrite ?length_insert; done. Qed.

Lemma entered_sources st fs e p :
  (e < length (sources (sw_side st fs)))%nat →
  sources (sw_side (entered st fs e) (fst p)) !! snd p =
    if decide (p = (fs, e)) then Some (mk_source e fs) else sources (sw_side st (fst p)) !! snd p.
Proof.
  intros He. destruct p as [s j]. cbn [fst snd]. destruct (decide (s = fs)) as [->|Hne].
  - assert (sources (sw_side (entered st fs e) fs) = <[e := mk_source e fs]> (sources (sw_side st fs))) as ->
      by (by destruct fs).
    destruct (decide (j = e)) as [->|Hje].
    + by rewrite list_lookup_insert_eq, decide_True.
    + by rewrite list_lookup_insert_ne, decide_False by congruence.
  - rewrite decide_False by congruence. by destruct s, fs.
Qed.

Lemma entered_ports_ok st fs e m :
  (e < length (sources (sw_side st fs)))%nat → ports_ok st m → ports_ok (entered st fs e) m.
Proof.
  intros He Hports k p Hk. destruct (Hports k p Hk) as [Hs Hl]. rewrite entered_masks, entered_sources by done.
  split; [|done]. case_decide as Hp; [by subst|done].
Qed.

(** Every port of the brick can be served. *)
Lemma all_ports_in st b out :
  brick_ok b → type b = PG_MULTIPOLE → (∀ s, length (masks (sw_side st s)) = Z.to_nat (side_max (sides b s))) →
  ports_in st b (all_ports b out).
Proof.
  intros Hb Ht Hml s j Hj%elem_of_all_ports.
  pose proof (nb_le_max b s Hb). pose proof (so_union _ _ (bo_side _ Hb s)) as Hu.
  unfold union_ok in Hu. rewrite Ht in Hu. destruct (side_edges (sides b s)) as [es|]; [|done].
  destruct (lookup_lt_is_Some_2 es j) as [ed Hed]; [lia|].
  destruct (lookup_lt_is_Some_2 (masks (sw_side st s)) j) as [y Hy]; [rewrite Hml; lia|]. eauto 6.
Qed.

(** Nothing is wanted by a port that does not exist. *)
Lemma wanted_outside m b src pm s j :
  is_mask pm → (∀ k p, m !! k = Some p → (snd p < nb_of b (fst p))%nat) → ¬ (j < nb_of b s)%nat → wanted m b src pm (s, j) = 0.
Proof.
  intros Hm Hlk Hj. unfold wanted. case_decide; [done|].
  apply mask_ext; [apply is_mask_bits_of; intros i; by apply foreach_lt|apply is_mask_0|].
  intros i _. rewrite mask_has_bits_of, mask_has_0. apply bool_decide_eq_false_2.
  intros [_ [_ [[_ ?]|[_ Hk]]]]; [done|]. by apply Hlk in Hk.
Qed.

Lemma switch_burst_spec st b m fs e pm (fl : flow W) :
  brick_ok b → type b = PG_MULTIPOLE → switch_ok st b m → clean st → is_mask pm →
  (e < Z.to_nat (side_max (sides b fs)))%nat → fl_mem fl = mem →
  headers (PG_FOREACH_BIT pm) →
  let m' := learned (fs, e) (PG_FOREACH_BIT pm) m in
  match run_calls (omap (port_call (wanted m' b (fs, e) pm) b pkts) (all_ports b (output st))) fl
  with
  | None => switch_burst is_multicast [] st b fs e pkts pm fl = None
  | Some (r, fl') => ∃ st',
      switch_burst is_multicast [] st b fs e pkts pm fl = Some ((r, st'), fl') ∧
      switch_ok st' b m' ∧
      (r = 0 → (∀ k p, m' !! k = Some p → (snd p < nb_of b (fst p))%nat ∧ port_linked b p) →
       (∀ s j, (j < nb_of b s)%nat → port_linked b (s, j)) → clean st')
  end.
Proof.
  intros Hb Ht [Htab Hdead Hports Hml Hsl] Hclean Hm He Hmem Hh m'.
  unfold switch_burst. cbn [length switch_attempt]. rewrite Hdead. cbn [negb].
  destruct (lookup_lt_is_Some_2 (sources (sw_side st fs)) e) as [src0 Hsrc0];
    [by rewrite Hsl|].
  rewrite Hsrc0. cbn [unwrap]. rewrite M_bind_ret.
  fold (entered st fs e). set (st0 := entered st fs e).
  pose proof (entered_masks st fs e) as Hmk0. pose proof (entered_mask_at st fs e) as Hma0. fold st0 in Hmk0, Hma0.
  assert (e < length (sources (sw_side st fs)))%nat as Hes by (by rewrite Hsl).
  pose proof (λ p, entered_sources st fs e p Hes) as Hsrc. pose proof (entered_ports_ok st fs e m Hes Hports) as Hports0.
  fold st0 in Hsrc, Hports0.
  assert (room st0 b) as Hroom0 by (intros s; rewrite Hmk0, Hml; by apply nb_le_max).
  assert (masks_ok st0) as Hok0 by (intros p; rewrite Hma0, Hclean; apply is_mask_0).
  destruct (marking_spec st0 b m (fs, e) pm) as (st1&u&st2&Hlearn&Hsw&Hrep2&Hsame&Hok2&Hbits);
    [by destruct fs|done..| | |].
  { rewrite Hsrc. by rewrite decide_True. } { cbn [fst snd]. by rewrite Hmk0, Hml. }
  fold m' in Hrep2, Hbits. rewrite M_bind_gets, Hmem, Hlearn. cbn [unwrap].
  rewrite M_bind_ret, Hsw. cbn [unwrap]. rewrite M_bind_ret. unfold forward_bursts.
  assert (∀ s, sources (sw_side st2 s) = sources (sw_side st0 s)) as Hsrc2
    by (intros s; rewrite (sb_sources _ _ Hsame); by rewrite sw_side_set_table).
  assert (∀ s, length (masks (sw_side st2 s)) = Z.to_nat (side_max (sides b s))) as Hml2
    by (intros s; rewrite (sb_length _ _ Hsame), sw_side_set_table, Hmk0; apply Hml).
  pose proof (Hsrc (fs, e)) as Hse. cbn [fst snd] in Hse. rewrite decide_True in Hse by done.
  cbn [fst snd]. rewrite (Hsrc2 fs), Hse. cbn [unwrap].
  rewrite M_bind_ret. cbn [from edge_index].
  destruct (lookup_lt_is_Some_2 (masks (sw_side st2 fs)) e) as [x Hx]; [by rewrite Hml2|].
  rewrite Hx. cbn [unwrap]. rewrite M_bind_ret.
  set (st3 := set_masks st2 fs _).
  assert (same_but_masks st2 st3) as Hs3 by (apply same_set_masks; by rewrite length_insert).
  assert (output st3 = output st) as Hout.
  { rewrite (sb_output _ _ Hs3), (sb_output _ _ Hsame). by destruct fs. }
  assert (∀ p, mask_at st3 p = wanted m' b (fs, e) pm p) as Hwant.
  { intros p. unfold st3, wanted. rewrite mask_at_insert by (by rewrite Hml2).
    case_decide; [done|]. apply mask_ext; [apply Hok2|apply is_mask_bits_of|].
    - intros i. by apply foreach_lt.
    - intros i _. by rewrite Hbits, Hma0, Hclean, mask_has_0, mask_has_bits_of. }
  rewrite Hout. fold (all_ports b (output st)).
  pose proof (forward_list_spec (all_ports b (output st)) st3 b fl) as Hfw.
  rewrite (omap_ext_in (port_call (mask_at st3) b pkts)
    (port_call (wanted m' b (fs, e) pm) b pkts)) in Hfw
    by (intros p _; by apply port_call_ext).
  assert (ports_in st3 b (all_ports b (output st))) as Hpin
    by (eapply ports_in_same; [exact Hs3|]; by apply all_ports_in).
  specialize (Hfw Hpin (NoDup_all_ports b (output st))).
  destruct (run_calls _ fl) as [[r fl']|]; [|done].
  destruct Hfw as (st'&->&Hs'&Hm0). exists st'. split; [done|].
  pose proof (same_trans _ _ _ Hs3 Hs') as Hs23. split.
  - split.
    + by rewrite (sb_table _ _ Hs23).
    + rewrite (sb_dead _ _ Hs23), (sb_dead _ _ Hsame). simpl. rewrite <- Hdead. by destruct fs.
    + eapply ports_ok_same; [exact Hs23|]. intros k p Hk%learned_lookup.
      rewrite Hsrc2, Hml2, Hsrc. destruct Hk as [->|Hk].
      * by rewrite decide_True.
      * destruct (Hports k p Hk) as [Hs Hl]. rewrite Hml in Hl.
        case_decide as Hp; [by subst|done].
    + intros s. by rewrite (sb_length _ _ Hs23).
    + intros s. by rewrite (sb_sources _ _ Hs23), Hsrc2, (entered_length st fs e).
  - intros Hr Hlk Hpre [s j]. rewrite (Hm0 Hr). case_decide as Hd; [done|].
    rewrite Hwant. apply wanted_outside; [done|intros k p Hk; by apply (Hlk k p)|]. intros Hj. apply Hd.
    split; [by apply elem_of_all_ports|by apply Hpre].
Qed.

End Spec.

(** ** Properties *)


(** When a port is unlinked, the switch forgets the addresses learned on it and
    no other, except for the addresses the table's iterator passes over. *)
Theorem switch_unlink_notify_forgets st b m side edge :
  switch_ok st b m →
  ∃ st' m', switch_unlink_notify st side edge = Some st' ∧ switch_ok st' b m' ∧
    ∀ k p, m' !! k = Some p ↔ m !! k = Some p ∧ (p ≠ (side, edge) ∨ skipped (table st) k).
Proof.
  intros [Htab Hdead Hports Hml Hsl]. unfold switch_unlink_notify. rewrite Hdead.
  set (at_port := λ p : source_ptr, _).
  destruct (remove_if_spec at_port (table st) m Htab) as (t'&Hrun&Hrep').
  set (m' := filter (kept at_port (visited_keys (table st))) m) in *.
  assert (∀ k p, m' !! k = Some p ↔ m !! k = Some p ∧ (p ≠ (side, edge) ∨ skipped (table st) k))
    as Hm'.
  { intros k p. unfold m'. rewrite map_lookup_filter_Some. unfold kept. cbn [fst snd].
    split; intros [Hk Hv]; (split; [done|]); destruct (Hports k p Hk) as [Hsrc _].
    - destruct (decide (p = (side, edge))) as [->|]; [right|by left].
      destruct (decide (k ∈ visited_keys (table st))) as [Hvis|Hvis].
      { exfalso. apply Hv. split; [done|]. unfold at_port. rewrite Hsrc.
        by apply bool_decide_eq_true. }
      rewrite elem_of_visited in Hvis by apply Htab.
      assert (k ∈ table_keys (table st)) as Hkey.
      { apply (elem_of_list_to_set (C := gset (Z * Z))). rewrite (keys_dom _ m Htab).
        apply elem_of_dom. eauto. }
      unfold skipped in *. destruct (decide (pg_mac_table_is_set (mt_mask (table st)) 0 = false ∧
        head (words (mt_mask (table st)) 0 all_words) = Some (fst k) ∧ snd k < 64)); [done|].
      exfalso. by apply Hvis.
    - intros [Hvis Hat]. destruct Hv as [Hv|Hv].
      + unfold at_port in Hat. rewrite Hsrc in Hat. apply bool_decide_eq_true in Hat.
        cbn [from edge_index] in Hat. destruct p, Hat. by subst.
      + apply elem_of_visited in Hvis as [_ Hn]; [done|apply Htab]. }
  rewrite Hrun. cbn [mbind option_bind]. exists (set_table st t' false), m'.
  split_and!; [done| |done]. split; [done|done| | |].
  - intros k p [Hk _]%Hm'. rewrite sw_side_set_table. by eapply Hports.
  - intros s. by rewrite sw_side_set_table.
  - intros s. by rewrite sw_side_set_table.
Qed.

(** ** A concrete switch: three west ports, all linked *)

Definition demo_switch_brick : pg_brick :=
  mk_brick (Some 0%nat) true false 4 "switch" PG_MULTIPOLE
    (mk_side 3 3 (Edges [mk_edge (Some 7%positive) 0; mk_edge (Some 8%positive) 4;
                         mk_edge (Some 9%positive) 0]))
    (mk_side 1 0 (Edges [null_edge])).

Lemma demo_switch_brick_ok : brick_ok demo_switch_brick.
Proof. split; [intros []; split|..]; by vm_compute. Qed.

Definition demo_switch : pg_switch_state :=
  let side n := mk_sw_side (replicate n (mk_source 0 PG_WEST_SIDE)) (replicate n 0) in
  mk_switch (mk_tbl ∅ ∅) false PG_WEST_SIDE (side 3%nat) (side 1%nat).

(** A broadcast frame from 02:00:00:00:00:01. *)
Definition demo_frame : list Z := [255; 255; 255; 255; 255; 255; 2; 0; 0; 0; 0; 1; 8; 0].

Definition demo_mem : gmap mptr mbuf := {[5%positive := mk_mbuf demo_frame 14 14 0 0 0 1]}.

Definition group_bit (l : list Z) : bool := match l with b :: _ => Z.odd b | [] => false end.

Lemma demo_switch_ok : switch_ok demo_switch demo_switch_brick ∅.
Proof.
  split; [apply rep_empty_table|done| |by intros []..].
  intros k p. by rewrite lookup_empty.
Qed.

Lemma demo_switch_clean : clean demo_switch.
Proof.
  intros [[] j]; unfold mask_at; simpl; [do 3 (destruct j as [|j]; [done|])|destruct j]; done.
Qed.


Lemma switch_unlink_notify_forgets_witness :
  ∃ st', switch_unlink_notify demo_switch PG_WEST_SIDE 0 = Some st'.
Proof.
  destruct (switch_unlink_notify_forgets demo_switch demo_switch_brick ∅ PG_WEST_SIDE 0
    demo_switch_ok) as (st'&_&Hr&_). exists st'. exact Hr.
Defined.

(** A neighbourhood in which brick 8 refuses every burst. *)
Definition refuse_8 : Dispatch (list burst_call) := λ p fr i pkts m,
  if decide (p = 8%positive) then mret (-1) else recorder p fr i pkts m.

(** When a neighbour refuses its burst, the marks of the ports after it are left
    in the state: the next burst, of a packet that is filtered and must reach nobody,
    is then sent to the neighbour at such a port. *)
Theorem switch_failure_leaks_marks :
  let filtered := mk_mbuf [1; 128; 194; 0; 0; 0; 2; 0; 0; 0; 0; 1; 8; 0] 14 14 0 0 0 1 in
  match switch_burst (D := refuse_8) group_bit [] demo_switch demo_switch_brick
    PG_WEST_SIDE 0 [5%positive] 1 (mk_flow demo_mem ∅ None []) with
  | Some ((r, st'), _) =>
      r = -1 ∧
      recorded (switch_burst (D := recorder) group_bit [] st' demo_switch_brick
        PG_WEST_SIDE 0 [6%positive] 1 (mk_flow {[6%positive := filtered]} ∅ None []))
      = [mk_call (Some 9%positive) PG_EAST_SIDE 0 [6%positive] 1]
  | None => False
  end.
Proof. vm_compute. split; reflexivity. Qed.
