(* ===== verification/Packets.v ===== *)
(** * Packet arrays ([src/packets.c])

    Helpers over the packets selected by a mask: reference counts, packing, and the
    construction of headers. The mbuf library (DPDK) is known through the class
    [PktLib] and its documented behaviour, the class [PktLaws]. *)

From S2P Require Import Prelude Bitmask Common Brick Burst.

(** ** The mbuf library *)

Class PktLib (W : Type) := {
  (** [rte_pktmbuf_refcnt_update(p, v)]. *)
  refcnt_update : mptr → Z → M (flow W) unit;
  (** [rte_pktmbuf_free(p)]. *)
  pktmbuf_free : mptr → M (flow W) unit;
  (** [rte_pktmbuf_append(p, len)] and [rte_pktmbuf_prepend(p, len)]; [false] is
      NULL. *)
  pktmbuf_append : mptr → nat → M (flow W) bool;
  pktmbuf_prepend : mptr → nat → M (flow W) bool;
}.

Definition set_mem {W} (fl : flow W) (h : gmap mptr mbuf) : flow W :=
  mk_flow h (fl_count fl) (fl_errp fl) (fl_world fl).

Definition set_data (v : mbuf) (d : list Z) : mbuf :=
  mk_mbuf d (pkt_len v) (l2_len v) (l3_len v) (l4_len v) (udata64 v) (refcnt v).
Definition set_pkt_len (v : mbuf) (n : Z) : mbuf :=
  mk_mbuf (data v) n (l2_len v) (l3_len v) (l4_len v) (udata64 v) (refcnt v).
Definition set_l2_len (v : mbuf) (n : Z) : mbuf :=
  mk_mbuf (data v) (pkt_len v) n (l3_len v) (l4_len v) (udata64 v) (refcnt v).
Definition set_l3_len (v : mbuf) (n : Z) : mbuf :=
  mk_mbuf (data v) (pkt_len v) (l2_len v) n (l4_len v) (udata64 v) (refcnt v).
Definition set_refcnt (v : mbuf) (n : Z) : mbuf :=
  mk_mbuf (data v) (pkt_len v) (l2_len v) (l3_len v) (l4_len v) (udata64 v) n.

(** A packet grown by [len] bytes. *)
Definition grown (v : mbuf) (d : list Z) (len : nat) : mbuf :=
  set_pkt_len (set_data v d) (pkt_len v + Z.of_nat len).

(** The documented behaviour: a reference count changes alone; the packet goes back
    to its pool when the last reference is dropped; growing a packet either fails
    and changes nothing, or adds bytes of unspecified value at one end. *)
Class PktLaws (W : Type) `{!PktLib W} : Prop := {
  law_refcnt (fl : flow W) p v n :
    fl_mem fl !! p = Some v →
    refcnt_update p n fl
    = Some (tt, set_mem fl (<[p := set_refcnt v (refcnt v + n)]> (fl_mem fl)));
  law_free (fl : flow W) p v :
    fl_mem fl !! p = Some v →
    pktmbuf_free p fl = Some (tt, set_mem fl
      (if refcnt v =? 1 then delete p (fl_mem fl)
       else <[p := set_refcnt v (refcnt v - 1)]> (fl_mem fl)));
  law_append (fl : flow W) p v len :
    fl_mem fl !! p = Some v →
    pktmbuf_append p len fl = Some (false, fl) ∨
    ∃ junk, length junk = len ∧ pktmbuf_append p len fl
      = Some (true, set_mem fl (<[p := grown v (data v ++ junk) len]> (fl_mem fl)));
  law_prepend (fl : flow W) p v len :
    fl_mem fl !! p = Some v →
    pktmbuf_prepend p len fl = Some (false, fl) ∨
    ∃ junk, length junk = len ∧ pktmbuf_prepend p len fl
      = Some (true, set_mem fl (<[p := grown v (junk ++ data v) len]> (fl_mem fl)));
}.

(** Arrays whose cells may be NULL. *)
Abbreviation opt_pkts := (list (option mptr)).

Section Packets.

Context {W : Type} `{!PktLib W}.

(** ** References *)

Fixpoint incref_list (pkts : pkts_t) (l : list nat) : M (flow W) unit :=
  match l with
  | [] => mret tt
  | i :: l => p ← unwrap (pkts !! i); refcnt_update p 1;; incref_list pkts l
  end.

Definition pg_packets_incref (pkts : pkts_t) (pkts_mask : Z) : M (flow W) unit :=
  incref_list pkts (PG_FOREACH_BIT pkts_mask).

Fixpoint free_list (pkts : pkts_t) (l : list nat) : M (flow W) unit :=
  match l with
  | [] => mret tt
  | i :: l => p ← unwrap (pkts !! i); pktmbuf_free p;; free_list pkts l
  end.

Definition pg_packets_free (pkts : pkts_t) (pkts_mask : Z) : M (flow W) unit :=
  free_list pkts (PG_FOREACH_BIT pkts_mask).

(** ** Arrays *)

(** [pg_packets_pack]: writes the selected packets at the start of [dst]; the array
    of the caller is long enough. *)
Fixpoint pack_list (dst src : pkts_t) (i : nat) (l : list nat) : option (Z * pkts_t) :=
  match l with
  | [] => Some (Z.of_nat i, dst)
  | j :: l =>
      p ← src !! j;
      if decide (i < length dst)%nat then pack_list (<[i := p]> dst) src (S i) l else None
  end.

Definition pg_packets_pack (dst src : pkts_t) (pkts_mask : Z) : option (Z * pkts_t) :=
  pack_list dst src 0 (PG_FOREACH_BIT pkts_mask).

Definition pg_packets_forget (pkts : opt_pkts) (pkts_mask : Z) : opt_pkts :=
  foldl (λ l i, <[i := None]> l) pkts (PG_FOREACH_BIT pkts_mask).

(** ** Growing packets *)

(** The two ends a header can be put at. *)
Inductive packet_end := Append | Prepend.

Definition grow (e : packet_end) (p : mptr) (len : nat) : M (flow W) bool :=
  match e with Append => pktmbuf_append p len | Prepend => pktmbuf_prepend p len end.

(** Writes [bytes] through the pointer the library returned. *)
Definition write_bytes (e : packet_end) (p : mptr) (bytes : list Z) : M (flow W) unit :=
  v ← load_pkt p;
  let n := (length (data v) - length bytes)%nat in
  store_pkt p (set_data v (match e with
    | Append => take n (data v) ++ bytes
    | Prepend => bytes ++ drop (length bytes) (data v)
    end)).

(** The shape of every [PG_PACKETS_OPS_*] loop: grow the packet, copy the bytes,
    update a length field; [false] is the NULL result. *)
Fixpoint ops_list (e : packet_end) (bytes : list Z) (post : mbuf → mbuf)
    (pkts : opt_pkts) (l : list nat) : M (flow W) bool :=
  match l with
  | [] => mret true
  | j :: l =>
      cell ← unwrap (pkts !! j);
      match cell with
      | None => ops_list e bytes post pkts l
      | Some p =>
          ok ← grow e p (length bytes);
          if negb ok then mret false
          else
            write_bytes e p bytes;;
            v ← load_pkt p;
            store_pkt p (post v);;
            ops_list e bytes post pkts l
      end
  end.

Definition packets_ops (e : packet_end) (bytes : list Z) (post : mbuf → mbuf)
    (pkts : opt_pkts) (pkts_mask : Z) : M (flow W) bool :=
  ops_list e bytes post pkts (PG_FOREACH_BIT pkts_mask).

Definition PG_PACKETS_OPS_BLANK (len : nat) (e : packet_end) :=
  packets_ops e (replicate len 0) id.
Definition pg_packets_append_blank pkts mask (len : nat) :=
  PG_PACKETS_OPS_BLANK len Append pkts mask.
Definition pg_packets_prepend_blank pkts mask (len : nat) :=
  PG_PACKETS_OPS_BLANK len Prepend pkts mask.

Definition PG_PACKETS_OPS_BUF (buf : list Z) (e : packet_end) := packets_ops e buf id.
Definition pg_packets_append_buf pkts mask buf := PG_PACKETS_OPS_BUF buf Append pkts mask.
Definition pg_packets_prepend_buf pkts mask buf := PG_PACKETS_OPS_BUF buf Prepend pkts mask.

(** A C string with its final zero. *)
Definition PG_PACKETS_OPS_STR (str : list Z) (e : packet_end) := packets_ops e (str ++ [0]) id.
Definition pg_packets_append_str pkts mask str := PG_PACKETS_OPS_STR str Append pkts mask.
Definition pg_packets_prepend_str pkts mask str := PG_PACKETS_OPS_STR str Prepend pkts mask.

(** *** Headers *)

(** A 16-bit and a 32-bit field as stored in memory by a little-endian host. *)
Definition le16 (z : Z) : list Z := [z mod 256; z / 256 mod 256].
Definition le32 (z : Z) : list Z := le16 z ++ le16 (Z.shiftr z 16).

Definition ether_header (src dst : list Z) (ether_type : Z) : list Z :=
  dst ++ src ++ le16 (PG_CPU_TO_BE_16 ether_type).

Definition PG_PACKETS_OPS_ETHER (src_mac dst_mac : list Z) (ether_type : Z) (e : packet_end) :=
  packets_ops e (ether_header src_mac dst_mac ether_type) (λ v, set_l2_len v 14).
Definition pg_packets_append_ether pkts mask src dst ty :=
  PG_PACKETS_OPS_ETHER src dst ty Append pkts mask.
Definition pg_packets_prepend_ether pkts mask src dst ty :=
  PG_PACKETS_OPS_ETHER src dst ty Prepend pkts mask.

(** The IPv4 header with a given checksum; [src_ip] and [dst_ip] are in network
    order. *)
Definition ipv4_header (src_ip dst_ip datagram_len proto cksum : Z) : list Z :=
  [0x45; 0] ++ le16 (PG_CPU_TO_BE_16 datagram_len) ++ le16 0
  ++ le16 (PG_CPU_TO_BE_16 0x4000) ++ [64; proto] ++ le16 cksum
  ++ le32 src_ip ++ le32 dst_ip.

(** [rte_ipv4_cksum] of DPDK. *)
Context (rte_ipv4_cksum : list Z → Z).

Definition PACKETS_OPS_IPV4 (src_ip dst_ip datagram_len proto : Z) (e : packet_end) :=
  let hdr0 := ipv4_header src_ip dst_ip datagram_len proto 0 in
  packets_ops e (ipv4_header src_ip dst_ip datagram_len proto (rte_ipv4_cksum hdr0))
    (λ v, set_l3_len v 20).
Definition pg_packets_append_ipv4 pkts mask src dst len proto :=
  PACKETS_OPS_IPV4 src dst len proto Append pkts mask.
Definition pg_packets_prepend_ipv4 pkts mask src dst len proto :=
  PACKETS_OPS_IPV4 src dst len proto Prepend pkts mask.

Definition ipv6_header (src_ip dst_ip : list Z) (datagram_len proto : Z) : list Z :=
  le32 (PG_CPU_TO_BE_32 (Z.shiftl 6 28)) ++ le16 (PG_CPU_TO_BE_16 datagram_len)
  ++ [proto; 64] ++ src_ip ++ dst_ip.

Definition pg_packets_append_ipv6 pkts mask src_ip dst_ip datagram_len proto :=
  packets_ops Append (ipv6_header src_ip dst_ip datagram_len proto)
    (λ v, set_l3_len v 40) pkts mask.

Definition udp_header (src_port dst_port datagram_len : Z) : list Z :=
  le16 (PG_CPU_TO_BE_16 src_port) ++ le16 (PG_CPU_TO_BE_16 dst_port)
  ++ le16 (PG_CPU_TO_BE_16 datagram_len) ++ le16 0.

Definition PACKETS_OPS_UDP (src_port dst_port datagram_len : Z) (e : packet_end) :=
  packets_ops e (udp_header src_port dst_port datagram_len) id.
Definition pg_packets_append_udp pkts mask src dst len := PACKETS_OPS_UDP src dst len Append pkts mask.
Definition pg_packets_prepend_udp pkts mask src dst len := PACKETS_OPS_UDP src dst len Prepend pkts mask.

Definition PG_VTEP_I_FLAG : Z := 0x08000000.

Definition vxlan_header (vni : Z) : list Z :=
  le32 (PG_CPU_TO_BE_32 PG_VTEP_I_FLAG) ++ le32 (PG_CPU_TO_BE_32 (u32 (Z.shiftl vni 8))).

Definition PG_PACKETS_OPS_VXLAN (vni : Z) (e : packet_end) := packets_ops e (vxlan_header vni) id.
Definition pg_packets_append_vxlan pkts mask vni := PG_PACKETS_OPS_VXLAN vni Append pkts mask.
Definition pg_packets_prepend_vxlan pkts mask vni := PG_PACKETS_OPS_VXLAN vni Prepend pkts mask.

End Packets.

(** ** Growing the selected packets *)

Section Laws.

Context {W : Type} `{!PktLib W, !PktLaws W}.
Implicit Types (fl : flow W) (pkts : opt_pkts) (h : gmap mptr mbuf).

(** The packets a mask selects. *)
Definition selected pkts (l : list nat) : list mptr := omap (λ j, pkts !! j ≫= id) l.

Definition with_bytes (e : packet_end) (bytes : list Z) (v : mbuf) : mbuf :=
  grown v (match e with Append => data v ++ bytes | Prepend => bytes ++ data v end)
        (length bytes).

Lemma grow_spec fl e p v n :
  fl_mem fl !! p = Some v →
  grow e p n fl = Some (false, fl) ∨
  ∃ junk, length junk = n ∧ grow e p n fl = Some (true, set_mem fl
    (<[p := grown v (match e with Append => data v ++ junk | Prepend => junk ++ data v end) n]>
       (fl_mem fl))).
Proof. intros Hp. destruct e; [by apply law_append|by apply law_prepend]. Qed.

Lemma set_mem_mem fl h : fl_mem (set_mem fl h) = h.
Proof. done. Qed.

(** One turn of the loop, when the library has room. *)
Lemma write_spec fl e p v bytes junk :
  length junk = length bytes →
  let v' := grown v (match e with Append => data v ++ junk | Prepend => junk ++ data v end)
                  (length bytes) in
  write_bytes e p bytes (set_mem fl (<[p := v']> (fl_mem fl)))
  = Some (tt, set_mem fl (<[p := with_bytes e bytes v]> (fl_mem fl))).
Proof.
  intros Hj v'. unfold write_bytes, load_pkt, mbind, M_bind, gets. rewrite set_mem_mem.
  rewrite lookup_insert_eq. cbn [unwrap]. rewrite mret_run. cbv iota beta.
  unfold store_pkt, modify, set_mem. cbn [fl_mem fl_count fl_errp fl_world].
  rewrite insert_insert_eq.
  match goal with |- context [set_data v' ?d] =>
    replace (set_data v' d) with (with_bytes e bytes v); [done|] end.
  unfold with_bytes, grown, set_data, set_pkt_len, v'.
  destruct e; cbn [data pkt_len l2_len l3_len l4_len udata64 refcnt]; f_equal.
  - change (data (grown v ?d ?n)) with d. rewrite length_app, take_app_length' by lia. done.
  - change (data (grown v ?d ?n)) with d. rewrite drop_app_length' by lia. done.
Qed.

Lemma ops_list_spec e bytes post pkts l fl :
  (∀ j, j ∈ l → is_Some (pkts !! j)) → NoDup (selected pkts l) →
  (∀ p, p ∈ selected pkts l → is_Some (fl_mem fl !! p)) →
  ∃ ok h, ops_list e bytes post pkts l fl = Some (ok, set_mem fl h) ∧
    (ok = true → ∀ p, h !! p =
      if decide (p ∈ selected pkts l) then post ∘ with_bytes e bytes <$> fl_mem fl !! p
      else fl_mem fl !! p).
Proof.
  revert fl. induction l as [|j l IH]; intros fl Hcells Hnd Hlive; cbn [ops_list].
  { exists true, (fl_mem fl). split; [by destruct fl|]. intros _ p.
    rewrite decide_False; [done|]. cbn. set_solver. }
  destruct (Hcells j) as [cell Hcell]; [set_solver|].
  assert (selected pkts (j :: l) = match cell with Some p => p :: selected pkts l
    | None => selected pkts l end) as Hsel.
  { unfold selected. cbn [omap list_omap]. rewrite Hcell. by destruct cell. }
  rewrite Hsel in Hnd, Hlive |- *. unfold mbind at 1, M_bind at 1. rewrite Hcell. cbn [unwrap].
  rewrite mret_run. cbv iota beta.
  destruct cell as [p|]; [|apply IH; [set_solver|done|done]].
  apply NoDup_cons in Hnd as [Hp Hnd].
  destruct (Hlive p) as [v Hv]; [set_solver|]. unfold mbind at 1, M_bind at 1.
  destruct (grow_spec fl e p v (length bytes) Hv) as [->|(junk&Hj&->)]; cbn [negb].
  { exists false, (fl_mem fl). split; [by destruct fl|done]. }
  unfold mbind at 1, M_bind at 1. rewrite (write_spec fl e p v bytes junk Hj).
  unfold load_pkt, mbind, M_bind, gets. rewrite set_mem_mem, lookup_insert_eq. cbn [unwrap].
  rewrite mret_run. cbv iota beta.
  unfold store_pkt, modify. rewrite set_mem_mem, insert_insert_eq. cbv iota beta.
  set (h1 := <[p := post (with_bytes e bytes v)]> (fl_mem fl)).
  destruct (IH (set_mem fl h1)) as (ok&h&Hrun&Hh).
  { set_solver. } { done. }
  { intros q Hq. rewrite set_mem_mem. unfold h1. rewrite lookup_insert_ne by (by intros ->).
    apply Hlive. by right. }
  exists ok, h. split; [exact Hrun|]. intros Hok q. rewrite (Hh Hok q), set_mem_mem. unfold h1.
  destruct (decide (q = p)) as [->|Hne].
  - rewrite decide_False, decide_True by (done || left). by rewrite lookup_insert_eq, Hv.
  - rewrite lookup_insert_ne by done. apply decide_ext. rewrite elem_of_cons. naive_solver.
Qed.

(** ** References *)

Definition live_in fl (pkts : pkts_t) (l : list nat) : Prop :=
  ∀ j, j ∈ l → ∃ p v, pkts !! j = Some p ∧ fl_mem fl !! p = Some v ∧ 0 < refcnt v.

(** Distinct positions hold distinct packets. *)
Definition distinct_in (pkts : pkts_t) (l : list nat) : Prop :=
  ∀ i j p, i ∈ l → j ∈ l → pkts !! i = Some p → pkts !! j = Some p → i = j.

Lemma distinct_tail (pkts : pkts_t) j l : distinct_in pkts (j :: l) → distinct_in pkts l.
Proof. intros Hd i i' p Hi Hi'. apply Hd; by right. Qed.

Definition bump (d : Z) (pkts : pkts_t) (l : list nat) h : gmap mptr mbuf :=
  foldl (λ h j, match pkts !! j with
                | Some p => alter (λ v, set_refcnt v (refcnt v + d)) p h
                | None => h
                end) h l.

Lemma incref_spec (pkts : pkts_t) l fl :
  live_in fl pkts l →
  incref_list pkts l fl = Some (tt, set_mem fl (bump 1 pkts l (fl_mem fl))).
Proof.
  unfold bump. revert fl. induction l as [|j l IH]; intros fl Hl; cbn [incref_list foldl].
  { by destruct fl. }
  destruct (Hl j) as (p&v&Hp&Hv&Hr); [set_solver|]. rewrite Hp. cbn [unwrap].
  rewrite M_bind_ret. unfold mbind, M_bind. rewrite (law_refcnt fl p v 1 Hv).
  assert (<[p := set_refcnt v (refcnt v + 1)]> (fl_mem fl)
    = alter (λ v, set_refcnt v (refcnt v + 1)) p (fl_mem fl)) as Ha.
  { apply map_eq. intros q. destruct (decide (q = p)) as [->|].
    - by rewrite lookup_insert_eq, lookup_alter_eq, Hv.
    - by rewrite lookup_insert_ne, lookup_alter_ne. }
  rewrite Ha, IH; [done|]. intros i Hi. destruct (Hl i) as (q&w&Hq&Hw&Hrw); [set_solver|].
  rewrite set_mem_mem. destruct (decide (q = p)) as [->|].
  - exists p, (set_refcnt w (refcnt w + 1)). rewrite lookup_alter_eq, Hw.
    split_and!; [done..|]. simpl. lia.
  - exists q, w. by rewrite lookup_alter_ne.
Qed.

Lemma free_spec (pkts : pkts_t) l fl :
  (∀ j, j ∈ l → ∃ p v, pkts !! j = Some p ∧ fl_mem fl !! p = Some v ∧ 1 < refcnt v) →
  distinct_in pkts l → NoDup l →
  free_list pkts l fl = Some (tt, set_mem fl (bump (-1) pkts l (fl_mem fl))).
Proof.
  unfold bump. revert fl. induction l as [|j l IH]; intros fl Hl Hd Hnd; cbn [free_list foldl].
  { by destruct fl. }
  apply NoDup_cons in Hnd as [Hj Hnd].
  destruct (Hl j) as (p&v&Hp&Hv&Hr); [set_solver|]. rewrite Hp. cbn [unwrap].
  rewrite M_bind_ret. unfold mbind, M_bind. rewrite (law_free fl p v Hv).
  destruct (Z.eqb_spec (refcnt v) 1); [lia|].
  assert (<[p := set_refcnt v (refcnt v - 1)]> (fl_mem fl)
    = alter (λ v, set_refcnt v (refcnt v + -1)) p (fl_mem fl)) as Ha.
  { apply map_eq. intros q. destruct (decide (q = p)) as [->|].
    - rewrite lookup_insert_eq, lookup_alter_eq, Hv. cbn.
      by replace (refcnt v - 1) with (refcnt v + -1) by lia.
    - by rewrite lookup_insert_ne, lookup_alter_ne. }
  rewrite Ha, IH; [done| |by eapply distinct_tail|done].
  intros i Hi. destruct (Hl i) as (q&w&Hq&Hw&Hrw); [set_solver|].
  rewrite set_mem_mem. exists q, w. split_and!; [done| |done].
  rewrite lookup_alter_ne; [done|]. intros ->. apply Hj.
  assert (i = j) as <-; [|done]. apply (Hd i j q); [set_solver..|done|done].
Qed.

Lemma bump_lookup d (pkts : pkts_t) l h q :
  distinct_in pkts l → NoDup l →
  bump d pkts l h !! q =
  if decide (Exists (λ j, pkts !! j = Some q) l)
  then (λ v, set_refcnt v (refcnt v + d)) <$> h !! q else h !! q.
Proof.
  unfold bump. revert h. induction l as [|j l IH]; intros h Hd Hnd; cbn [foldl].
  { rewrite decide_False; [done|]. by intros ?%Exists_nil. }
  apply NoDup_cons in Hnd as [Hj Hnd].
  rewrite IH; [|by eapply distinct_tail|done].
  destruct (pkts !! j) as [p|] eqn:Hp.
  - destruct (decide (q = p)) as [->|Hne].
    + rewrite decide_False, decide_True; [|by left|].
      * by rewrite lookup_alter_eq.
      * intros (i&Hi&Hpi)%Exists_exists. apply Hj.
        assert (i = j) as <-; [|done]. apply (Hd i j p); [set_solver..|done|done].
    + rewrite lookup_alter_ne by done. apply decide_ext. rewrite Exists_cons, Hp. naive_solver.
  - apply decide_ext. rewrite Exists_cons, Hp. naive_solver.
Qed.

Lemma set_refcnt_id v d : set_refcnt (set_refcnt v (refcnt v + d)) (refcnt v + d + - d) = v.
Proof. destruct v. unfold set_refcnt. simpl. f_equal. lia. Qed.

Lemma bump_bump (pkts : pkts_t) l h :
  distinct_in pkts l → NoDup l → bump (-1) pkts l (bump 1 pkts l h) = h.
Proof.
  intros Hd Hnd. apply map_eq. intros q. rewrite !bump_lookup by done.
  case_decide; [|done]. destruct (h !! q) as [v|]; [|done]. cbn. f_equal. apply set_refcnt_id.
Qed.

End Laws.

(** ** Held references

    A brick that keeps packets owns references on them. [held ps] says that every
    reference of the list [ps] is counted by its packet; all the references a program
    holds can be put in one list, in any order. *)

Section Held.

Context {W : Type} `{!PktLib W, !PktLaws W}.
Implicit Types (fl : flow W) (ps rest : list mptr).

(** How often a packet occurs in a list of references. *)
Definition occurs (q : mptr) (ps : list mptr) : Z := Z.of_nat (length (filter (eq q) ps)).

(** Every reference of the list is counted by its packet. *)
Definition held ps fl : Prop :=
  ∀ q, q ∈ ps → ∃ v, fl_mem fl !! q = Some v ∧ occurs q ps ≤ refcnt v.

Lemma occurs_cons q x ps : occurs q (x :: ps) = occurs q ps + (if decide (q = x) then 1 else 0).
Proof. unfold occurs. rewrite filter_cons. case_decide; simpl; lia. Qed.

Lemma occurs_app q ps rest : occurs q (ps ++ rest) = occurs q ps + occurs q rest.
Proof. unfold occurs. rewrite filter_app, length_app. lia. Qed.

Lemma occurs_nonneg q ps : 0 ≤ occurs q ps.
Proof. unfold occurs. lia. Qed.

Lemma occurs_pos q ps : q ∈ ps ↔ 0 < occurs q ps.
Proof.
  induction ps as [|x ps IH]; [split; [by intros ?%not_elem_of_nil|done]|].
  rewrite occurs_cons, elem_of_cons. pose proof (occurs_nonneg q ps).
  case_decide; [split; [lia|auto]|]. rewrite IH. naive_solver lia.
Qed.

(** [held] in terms of the counts alone. *)
Lemma held_alt ps fl :
  held ps fl ↔ ∀ q, 0 < occurs q ps → ∃ v, fl_mem fl !! q = Some v ∧ occurs q ps ≤ refcnt v.
Proof. unfold held. by setoid_rewrite occurs_pos. Qed.

Lemma held_perm ps1 ps2 fl : (∀ q, occurs q ps2 ≤ occurs q ps1) → held ps1 fl → held ps2 fl.
Proof.
  rewrite !held_alt. intros Hle Hh q Hq. specialize (Hle q).
  destruct (Hh q) as (v&?&?); [lia|]. exists v. split; [done|lia].
Qed.

(** Dropping one reference. *)
Lemma free_one_held q ps fl :
  held (q :: ps) fl → ∃ h, pktmbuf_free q fl = Some (tt, set_mem fl h) ∧ held ps (set_mem fl h).
Proof.
  intros Hh. destruct (Hh q) as (v&Hv&Hc); [left|]. rewrite (law_free fl q v Hv).
  eexists. split; [done|]. rewrite held_alt in Hh |- *. intros x Hx. rewrite set_mem_mem.
  destruct (Hh x) as (w&Hw&Hcw); [rewrite occurs_cons; case_decide; lia|].
  rewrite occurs_cons in Hc, Hcw. rewrite decide_True in Hc by done.
  destruct (decide (x = q)) as [->|Hne].
  - simplify_eq. destruct (Z.eqb_spec (refcnt v) 1); [lia|].
    rewrite lookup_insert_eq. eexists. split; [done|]. cbn. lia.
  - exists w. split; [|lia]. destruct (_ =? _);
      [by rewrite lookup_delete_ne|by rewrite lookup_insert_ne].
Qed.

(** Dropping the references of a burst, whatever else is held. *)
Lemma free_list_held (pkts : pkts_t) l ps rest fl :
  mapM (λ j, pkts !! j) l = Some ps → held (ps ++ rest) fl →
  ∃ h, free_list pkts l fl = Some (tt, set_mem fl h) ∧ held rest (set_mem fl h).
Proof.
  revert ps fl. induction l as [|j l IH]; intros ps fl Hm Hh; cbn [free_list].
  { injection Hm as <-. exists (fl_mem fl). by destruct fl. }
  apply mapM_cons_Some in Hm as (q&ps'&Hq&Hps&->).
  rewrite Hq. cbn [unwrap]. rewrite M_bind_ret. unfold mbind, M_bind.
  destruct (free_one_held q (ps' ++ rest) fl Hh) as (h1&->&Hh1).
  destruct (IH _ _ Hps Hh1) as (h&Hr&Hh2). by exists h.
Qed.

(** Taking a reference on a packet that is held. *)
Lemma incref_one_held q rest fl :
  held rest fl → q ∈ rest →
  ∃ h, refcnt_update q 1 fl = Some (tt, set_mem fl h) ∧ held (q :: rest) (set_mem fl h).
Proof.
  intros Hh Hin. destruct (Hh q Hin) as (v&Hv&Hc). rewrite (law_refcnt fl q v 1 Hv).
  eexists. split; [done|]. rewrite held_alt in Hh |- *. intros x Hx.
  rewrite set_mem_mem, occurs_cons in *. destruct (decide (x = q)) as [->|Hne].
  - rewrite lookup_insert_eq. eexists. split; [done|]. cbn. lia.
  - rewrite lookup_insert_ne by done. destruct (Hh x) as (w&?&?); [lia|].
    exists w. split; [done|lia].
Qed.

(** Taking a reference on the packets of a burst that somebody else holds. *)
Lemma incref_list_held (pkts : pkts_t) l ps rest fl :
  mapM (λ j, pkts !! j) l = Some ps → held rest fl → ps ⊆ rest →
  ∃ h, incref_list pkts l fl = Some (tt, set_mem fl h) ∧ held (ps ++ rest) (set_mem fl h).
Proof.
  revert ps rest fl. induction l as [|j l IH]; intros ps rest fl Hm Hh Hin; cbn [incref_list].
  { injection Hm as <-. exists (fl_mem fl). by destruct fl. }
  apply mapM_cons_Some in Hm as (q&ps'&Hq&Hps&->).
  rewrite Hq. cbn [unwrap]. rewrite M_bind_ret. unfold mbind, M_bind.
  destruct (incref_one_held q rest fl Hh) as (h1&->&Hh1); [by apply Hin; left|].
  destruct (IH ps' (q :: rest) (set_mem fl h1)) as (h&Hr&Hh2); [done..| |].
  { intros x Hx. right. apply Hin. by right. }
  exists h. split; [exact Hr|]. eapply held_perm; [|exact Hh2]. intros x.
  cbn [app]. rewrite occurs_cons, !occurs_app, occurs_cons. lia.
Qed.

(** Dropping references changes nothing but reference counts. *)
Lemma free_list_frame (pkts : pkts_t) l ps rest fl h :
  mapM (λ j, pkts !! j) l = Some ps → held (ps ++ rest) fl →
  free_list pkts l fl = Some (tt, set_mem fl h) →
  ∀ q v', h !! q = Some v' → ∃ v, fl_mem fl !! q = Some v ∧ v' = set_refcnt v (refcnt v').
Proof.
  revert ps fl. induction l as [|j l IH]; intros ps fl Hm Hh; cbn [free_list].
  { intros Hr. assert (fl_mem fl = h) as <- by (destruct fl; by injection Hr).
    intros q v' Hq. exists v'. by destruct v'. }
  apply mapM_cons_Some in Hm as (q0&ps'&Hq0&Hps&->).
  rewrite Hq0. cbn [unwrap]. rewrite M_bind_ret. unfold mbind, M_bind.
  destruct (free_one_held q0 (ps' ++ rest) fl Hh) as (h1&Hf&Hh1). rewrite Hf. intros Hr q v' Hq.
  destruct (IH ps' (set_mem fl h1) Hps Hh1 Hr q v' Hq) as (v1&Hv1&->).
  rewrite set_mem_mem in Hv1. destruct (Hh q0) as (v0&Hv0&_); [left|].
  rewrite (law_free fl q0 v0 Hv0) in Hf. injection Hf as <-.
  destruct (decide (q = q0)) as [->|Hne].
  - exists v0. split; [done|]. destruct (_ =? _); [by rewrite lookup_delete_eq in Hv1|].
    rewrite lookup_insert_eq in Hv1. by simplify_eq.
  - exists v1. split; [|done]. destruct (_ =? _);
      [by rewrite lookup_delete_ne in Hv1|by rewrite lookup_insert_ne in Hv1].
Qed.

End Held.

(** ** Packing *)

Lemma pack_list_spec (dst src : list mptr) i l :
  (i + length l ≤ length dst)%nat → (∀ j, j ∈ l → is_Some (src !! j)) →
  pack_list dst src i l = Some (Z.of_nat (i + length l),
    take i dst ++ omap (λ j, src !! j) l ++ drop (i + length l) dst).
Proof.
  revert dst i. induction l as [|j l IH]; intros dst i Hlen Hsrc; cbn [pack_list length].
  { rewrite Nat.add_0_r. cbn. by rewrite take_drop. }
  destruct (Hsrc j) as [p Hp]; [set_solver|]. rewrite Hp. cbn [mbind option_bind].
  cbn [length] in Hlen. rewrite decide_True by lia.
  rewrite IH; [|rewrite length_insert; lia|set_solver]. f_equal. f_equal; [lia|].
  cbn [omap list_omap]. rewrite Hp. rewrite drop_insert_lt by lia.
  rewrite (take_S_r (<[i := p]> dst) i p) by (rewrite list_lookup_insert_eq; [done|lia]).
  rewrite take_insert_ge by lia. rewrite <- app_assoc. cbn [app].
  by replace (S i + length l)%nat with (i + S (length l))%nat by lia.
Qed.

(** ** Byte order of the headers *)

(** A 16-bit value in network order. *)
Definition net16 (z : Z) : list Z := [z / 256; z mod 256].

Lemma le16_be16 z : 0 ≤ z < 2 ^ 16 → le16 (PG_CPU_TO_BE_16 z) = net16 z.
Proof.
  intros Hz. unfold le16, net16. change 256 with (2 ^ 8).
  assert (0 ≤ z / 2 ^ 8 < 2 ^ 8) as Hd
    by (split; [apply Z.div_pos; lia|apply Z.div_lt_upper_bound; lia]).
  f_equal; [|f_equal].
  - apply (bits_ext 8); [lia|apply Z.mod_pos_bound; lia|done|]. intros i Hi.
    rewrite Z.mod_pow2_bits_low, be16_bits, Z.div_pow2_bits by lia.
    by rewrite (proj2 (Z.ltb_lt i 8)) by lia.
  - apply (bits_ext 8); [lia|apply Z.mod_pos_bound; lia..|]. intros i Hi.
    rewrite !Z.mod_pow2_bits_low, Z.div_pow2_bits, be16_bits by lia.
    rewrite (proj2 (Z.ltb_ge (i + 8) 8)) by lia. f_equal. lia.
Qed.

(** A 32-bit value in network order. *)
Definition net32 (z : Z) : list Z := net16 (z / 2 ^ 16) ++ net16 (z mod 2 ^ 16).

Lemma le32_be32 z : 0 ≤ z < 2 ^ 32 → le32 (PG_CPU_TO_BE_32 z) = net32 z.
Proof.
  intros Hz. unfold le32, net32.
  assert (0 ≤ z / 2 ^ 16 < 2 ^ 16) as Hd
    by (split; [apply Z.div_pos; lia|apply Z.div_lt_upper_bound; lia]).
  pose proof (Z.mod_pos_bound z (2 ^ 16) ltac:(lia)) as Hm.
  rewrite <- !le16_be16 by done. unfold PG_CPU_TO_BE_32.
  assert (Z.shiftr (Z.land z 0xffff0000) 16 = z / 2 ^ 16) as ->.
  { rewrite Z.shiftr_land. change (Z.shiftr 0xffff0000 16) with (Z.ones 16).
    rewrite Z.land_ones, Z.shiftr_div_pow2 by lia. apply Z.mod_small. lia. }
  change 0x0000ffff with (Z.ones 16). rewrite Z.land_ones by lia.
  pose proof (be16_range (z / 2 ^ 16)) as Hr1. pose proof (be16_range (z mod 2 ^ 16)) as Hr2.
  set (a := PG_CPU_TO_BE_16 (z / 2 ^ 16)) in *. set (c := PG_CPU_TO_BE_16 (z mod 2 ^ 16)) in *.
  assert (∀ x, 0 ≤ x < 2 ^ 16 → x / 256 mod 256 = x / 256) as Hsm.
  { intros x Hx. apply Z.mod_small.
    split; [apply Z.div_pos; lia|apply Z.div_lt_upper_bound; lia]. }
  assert (u32 (Z.lor a (Z.shiftl c 16)) mod 2 ^ 16 = a) as Hlow.
  { apply (bits_ext 16); [lia|apply Z.mod_pos_bound; lia|done|]. intros i Hi. unfold u32.
    rewrite !Z.mod_pow2_bits_low, Z.lor_spec, Z.shiftl_spec by lia.
    by rewrite (Z.testbit_neg_r c), orb_false_r by lia. }
  assert (Z.shiftr (u32 (Z.lor a (Z.shiftl c 16))) 16 = c) as Hhigh.
  { apply (bits_ext 16); [lia| |done|].
    - rewrite Z.shiftr_div_pow2 by lia. unfold u32.
      pose proof (Z.mod_pos_bound (Z.lor a (Z.shiftl c 16)) (2 ^ 32) ltac:(lia)).
      split; [apply Z.div_pos; lia|apply Z.div_lt_upper_bound; lia].
    - intros i Hi. unfold u32. rewrite Z.shiftr_spec, Z.mod_pow2_bits_low, Z.lor_spec,
        Z.shiftl_spec by lia.
      rewrite (testbit_high a 16) by lia. simpl. f_equal. lia. }
  rewrite Hhigh. f_equal. rewrite <- Hlow at 2. unfold le16.
  set (y := u32 _). assert (0 ≤ y mod 2 ^ 16 < 2 ^ 16) as Hy by (apply Z.mod_pos_bound; lia).
  f_equal; [|f_equal].
  - apply (bits_ext 8); [lia|apply Z.mod_pos_bound; lia..|]. intros i Hi.
    change 256 with (2 ^ 8). by rewrite !Z.mod_pow2_bits_low by lia.
  - apply (bits_ext 8); [lia|apply Z.mod_pos_bound; lia..|]. intros i Hi.
    change 256 with (2 ^ 8). rewrite !Z.mod_pow2_bits_low, !Z.div_pow2_bits by lia.
    by rewrite Z.mod_pow2_bits_low by lia.
Qed.

(** ** Properties *)

(** Appending or prepending bytes (all the header builders are instances) puts
    exactly those bytes at the chosen end of every selected packet, adds their number
    to its length and touches no other packet; the loop never crashes, and fails only
    when the library has no room. *)
Theorem packets_ops_correct {W} `{!PktLib W, !PktLaws W} e bytes post
    (pkts : opt_pkts) mask (fl : flow W) :
  (∀ j, j ∈ PG_FOREACH_BIT mask → is_Some (pkts !! j)) →
  NoDup (selected pkts (PG_FOREACH_BIT mask)) →
  (∀ p, p ∈ selected pkts (PG_FOREACH_BIT mask) → is_Some (fl_mem fl !! p)) →
  ∃ ok h, packets_ops e bytes post pkts mask fl = Some (ok, set_mem fl h) ∧
    (ok = true → ∀ p, h !! p =
      if decide (p ∈ selected pkts (PG_FOREACH_BIT mask))
      then post ∘ with_bytes e bytes <$> fl_mem fl !! p
      else fl_mem fl !! p).
Proof. apply ops_list_spec. Qed.

(** Taking a reference on the packets of a burst and dropping it again restores
    every packet, and frees none. *)
Theorem incref_free_roundtrip {W} `{!PktLib W, !PktLaws W} (pkts : pkts_t) mask (fl : flow W) :
  is_mask mask → live_in fl pkts (PG_FOREACH_BIT mask) →
  distinct_in pkts (PG_FOREACH_BIT mask) →
  (pg_packets_incref pkts mask;; pg_packets_free pkts mask) fl = Some (tt, fl).
Proof.
  intros Hm Hl Hd. pose proof (foreach_NoDup mask Hm) as Hnd.
  unfold pg_packets_incref, pg_packets_free, mbind, M_bind. rewrite incref_spec by done.
  rewrite free_spec; [|..|done|done].
  - rewrite set_mem_mem, bump_bump by done. by destruct fl.
  - intros j Hj. destruct (Hl j Hj) as (p&v&Hp&Hv&Hr).
    exists p, (set_refcnt v (refcnt v + 1)). rewrite set_mem_mem, bump_lookup by done.
    rewrite decide_True by (apply Exists_exists; eauto). rewrite Hv. cbn.
    split_and!; [done..|lia].
Qed.

(** Packing copies the selected packets, in order, to the start of the
    destination and returns their number. *)
Theorem pack_correct (dst src : pkts_t) mask :
  is_mask mask → (length (PG_FOREACH_BIT mask) ≤ length dst)%nat →
  (∀ j, mask_has mask j = true → is_Some (src !! j)) →
  pg_packets_pack dst src mask = Some (pg_mask_count mask,
    omap (λ j, src !! j) (PG_FOREACH_BIT mask) ++ drop (length (PG_FOREACH_BIT mask)) dst).
Proof.
  intros Hm Hlen Hsrc. unfold pg_packets_pack. rewrite pack_list_spec; [|done|].
  - rewrite mask_count_foreach by done. done.
  - intros j Hj%elem_of_foreach; [|done]. by apply Hsrc.
Qed.

(** The headers are laid out in network byte order: the VXLAN header holds the
    valid-VNI flag and the 24-bit VNI, the UDP header its ports and length, and the
    ethernet header ends with its type. *)
Theorem header_layout vni src dst len s d ty :
  0 ≤ vni < 2 ^ 24 → 0 ≤ src < 2 ^ 16 → 0 ≤ dst < 2 ^ 16 → 0 ≤ len < 2 ^ 16 →
  0 ≤ ty < 2 ^ 16 →
  vxlan_header vni = [8; 0; 0; 0] ++ net32 (vni * 256) ∧
  udp_header src dst len = net16 src ++ net16 dst ++ net16 len ++ [0; 0] ∧
  ether_header s d ty = d ++ s ++ net16 ty.
Proof.
  intros Hv Hs Hd Hl Ht. unfold vxlan_header, udp_header, ether_header.
  rewrite !le16_be16 by done. split_and!; [|done..].
  assert (u32 (Z.shiftl vni 8) = vni * 256) as ->.
  { rewrite Z.shiftl_mul_pow2 by lia. apply Z.mod_small. lia. }
  rewrite !le32_be32 by (unfold PG_VTEP_I_FLAG; lia). done.
Qed.

(** ** Witnesses *)

(** A library whose packets always have room, filled with zeroes. *)
Definition mem_pktlib {W} : PktLib W := {|
  refcnt_update p n := v ← load_pkt p; store_pkt p (set_refcnt v (refcnt v + n));
  pktmbuf_free p :=
    v ← load_pkt p;
    if refcnt v =? 1 then modify (λ fl, set_mem fl (delete p (fl_mem fl)))
    else store_pkt p (set_refcnt v (refcnt v - 1));
  pktmbuf_append p len :=
    v ← load_pkt p; store_pkt p (grown v (data v ++ replicate len 0) len);; mret true;
  pktmbuf_prepend p len :=
    v ← load_pkt p; store_pkt p (grown v (replicate len 0 ++ data v) len);; mret true;
|}.

Lemma mem_pktlaws {W} : @PktLaws W mem_pktlib.
Proof.
  split; intros fl p v;
    unfold refcnt_update, pktmbuf_free, pktmbuf_append, pktmbuf_prepend; cbn [mem_pktlib].
  - intros n Hp. unfold load_pkt, mbind, M_bind, gets. by rewrite Hp.
  - intros Hp. unfold load_pkt, mbind, M_bind, gets. rewrite Hp. cbn [unwrap].
    rewrite mret_run. cbv iota beta. by destruct (refcnt v =? 1).
  - intros len Hp. right. exists (replicate len 0). split; [apply length_replicate|].
    unfold load_pkt, mbind, M_bind, gets. by rewrite Hp.
  - intros len Hp. right. exists (replicate len 0). split; [apply length_replicate|].
    unfold load_pkt, mbind, M_bind, gets. by rewrite Hp.
Qed.

Definition demo_flow : flow (list burst_call) :=
  mk_flow {[5%positive := mk_mbuf [1; 2] 2 0 0 0 0 1]} ∅ None [].

Lemma packets_ops_correct_witness :
  ∃ ok h, pg_packets_append_vxlan (PktLib0 := mem_pktlib) [Some 5%positive; None] 3 7 demo_flow
    = Some (ok, set_mem demo_flow h) ∧
    (ok = true → data <$> h !! 5%positive = Some [1; 2; 8; 0; 0; 0; 0; 0; 7; 0]).
Proof.
  destruct (packets_ops_correct (PktLib0 := mem_pktlib) (PktLaws0 := mem_pktlaws) Append
    (vxlan_header 7) id [Some 5%positive; None] 3 demo_flow) as (ok&h&Hr&Hh).
  - intros j Hj. change (PG_FOREACH_BIT 3) with [0; 1]%nat in Hj.
    apply elem_of_cons in Hj as [->|Hj]; [vm_compute; eauto|].
    apply list_elem_of_singleton in Hj as ->. vm_compute. eauto.
  - vm_compute. apply NoDup_singleton.
  - intros p Hp. vm_compute in Hp. apply list_elem_of_singleton in Hp as ->. vm_compute. eauto.
  - exists ok, h. split; [exact Hr|]. intros Hok. rewrite (Hh Hok). vm_compute. reflexivity.
Defined.

Lemma demo_live : live_in demo_flow [5%positive] (PG_FOREACH_BIT 1).
Proof.
  intros j Hj. change (PG_FOREACH_BIT 1) with [0%nat] in Hj.
  apply list_elem_of_singleton in Hj as ->. exists 5%positive, (mk_mbuf [1; 2] 2 0 0 0 0 1).
  by vm_compute.
Qed.

Lemma incref_free_roundtrip_witness :
  (pg_packets_incref (PktLib0 := mem_pktlib) [5%positive] 1;;
   pg_packets_free (PktLib0 := mem_pktlib) [5%positive] 1) demo_flow = Some (tt, demo_flow).
Proof.
  apply (incref_free_roundtrip (PktLib0 := mem_pktlib) (PktLaws0 := mem_pktlaws));
    [unfold is_mask; lia|exact demo_live|].
  intros i j p Hi Hj _ _. change (PG_FOREACH_BIT 1) with [0%nat] in Hi, Hj.
  apply list_elem_of_singleton in Hi as ->. by apply list_elem_of_singleton in Hj as ->.
Defined.

Lemma pack_correct_witness :
  pg_packets_pack [1%positive; 1%positive; 1%positive] [7%positive; 8%positive; 9%positive] 5
  = Some (2, [7%positive; 9%positive; 1%positive]).
Proof.
  rewrite (pack_correct [1%positive; 1%positive; 1%positive]
    [7%positive; 8%positive; 9%positive] 5).
  - vm_compute. reflexivity.
  - unfold is_mask. lia.
  - vm_compute. lia.
  - intros j Hj. apply elem_of_foreach in Hj; [|unfold is_mask; lia].
    change (PG_FOREACH_BIT 5) with [0; 2]%nat in Hj.
    apply elem_of_cons in Hj as [->|Hj]; [vm_compute; eauto|].
    apply list_elem_of_singleton in Hj as ->. vm_compute. eauto.
Defined.

Lemma header_layout_witness : vxlan_header 0x123456 = [8; 0; 0; 0; 0x12; 0x34; 0x56; 0].
Proof.
  rewrite (proj1 (header_layout 0x123456 1 2 3 [] [] 0x0800 ltac:(lia) ltac:(lia) ltac:(lia)
    ltac:(lia) ltac:(lia))). vm_compute. reflexivity.
Defined.
