(* ===== verification/Queue.v ===== *)
(** * The queue brick ([src/queue.c])

    A monopole that keeps the bursts it receives in a FIFO; its friend, a queue of
    another graph, takes them out when it is polled. The FIFO holds pointers to the
    packet arrays of the callers, not copies: the arrays are memory of the world,
    read each time they are used. A [GAsyncQueue] is a list, oldest burst first. *)

From S2P Require Import Prelude Bitmask Common Brick BrickInv Burst Packets.

(** Pointers to arrays of packets. *)
Definition aptr := positive.
Bind Scope positive_scope with aptr.

(** [struct pg_queue_burst]. *)
Record pg_queue_burst := mk_qburst { qb_pkts : aptr; qb_mask : Z }.

(** [struct pg_queue_state]; [rx_max_size] is a [uint32_t]. *)
Record pg_queue_state := mk_queue {
  q_output : pg_side;
  rx_max_size : Z;
  rx : list pg_queue_burst;
  q_friend : option ptr;
}.

(** The private states of the queues. *)
Abbreviation queues := (gmap ptr pg_queue_state).

Definition set_rx (st : pg_queue_state) (l : list pg_queue_burst) : pg_queue_state :=
  mk_queue (q_output st) (rx_max_size st) l (q_friend st).
Definition set_friend (st : pg_queue_state) (f : option ptr) : pg_queue_state :=
  mk_queue (q_output st) (rx_max_size st) (rx st) f.
Definition set_output (st : pg_queue_state) (s : pg_side) : pg_queue_state :=
  mk_queue s (rx_max_size st) (rx st) (q_friend st).

(** The conversion [(int)] of a [uint32_t]. *)
Definition s32 (z : Z) : Z := if z <? 2 ^ 31 then z else z - 2 ^ 32.

(** [pg_queue_pressure]: the product is an [int], the division is on [uint32_t]. *)
Definition pg_queue_pressure (st : pg_queue_state) : Z :=
  let queue_size := Z.of_nat (length (rx st)) in
  if queue_size <=? 0 then 0 else u8 (u32 (queue_size * 255) / rx_max_size st).

Section Queue.

Context {W : Type} `{D : !Dispatch W, !PktLib W}.
(** The array at an address. *)
Context (read_array : W → aptr → option pkts_t).
Implicit Types (qs : queues) (p : ptr).

Definition array_at (a : aptr) : M (flow W) pkts_t :=
  o ← gets (λ fl, read_array (fl_world fl) a); unwrap o.

Definition free_burst (b : pg_queue_burst) : M (flow W) unit :=
  pkts ← array_at (qb_pkts b); pg_packets_free pkts (qb_mask b).

(** [queue_burst]. *)
Definition queue_burst qs p (a : aptr) (pkts_mask : Z) : M (flow W) (Z * queues) :=
  st ← unwrap (qs !! p);
  old ← (if s32 (rx_max_size st) <=? Z.of_nat (length (rx st)) then
           match rx st with
           | [] => mret []
           | b :: l => free_burst b;; mret l
           end
         else mret (rx st));
  pkts ← array_at a;
  pg_packets_incref pkts pkts_mask;;
  mret (0, <[p := set_rx st (old ++ [mk_qburst a pkts_mask])]> qs).

(** [queue_poll]: the result, the packet count and the queues. *)
Definition queue_poll qs p (sd : pg_brick_side) : M (flow W) (Z * Z * queues) :=
  st ← unwrap (qs !! p);
  match q_friend st with
  | None => mret (0, 0, qs)
  | Some f =>
      fst ← unwrap (qs !! f);
      match rx fst with
      | [] => mret (0, 0, qs)
      | b :: l =>
          let qs := <[f := set_rx fst l]> qs in
          let pkts_cnt := u16 (pg_mask_count (qb_mask b)) in
          pkts ← array_at (qb_pkts b);
          e ← edge_of sd;
          ret ← pg_brick_burst (link e) (q_output st) (pair_index e) pkts (qb_mask b);
          free_burst b;;
          mret (ret, pkts_cnt, qs)
      end
  end.

(** ** Configuration *)

Record pg_queue_config := mk_queue_config { cfg_rx_max_size : Z }.

(** [queue_config_new]: the [int] of [pg_queue_new] becomes a [uint32_t]. *)
Definition queue_config_new (size : Z) : pg_queue_config := mk_queue_config (u32 size).

Definition queue_init (config : pg_queue_config) : pg_queue_state :=
  let max := if cfg_rx_max_size config =? 0 then 10 else cfg_rx_max_size config in
  mk_queue PG_WEST_SIDE max [] None.

(** ** Friends *)

Definition pg_queue_friend (names : ptr → string) qs q1 q2 : M (flow W) (Z * queues) :=
  st1 ← unwrap (qs !! q1);
  st2 ← unwrap (qs !! q2);
  if bool_decide (is_Some (q_friend st1)) then
    flow_error (pg_error_new ("Queue " +:+ names q1 +:+ " (1st arg) already has a friend"));;
    mret (-1, qs)
  else if bool_decide (is_Some (q_friend st2)) then
    flow_error (pg_error_new ("Queue " +:+ names q2 +:+ " (2nd arg) already has a friend"));;
    mret (-1, qs)
  else
    let qs := <[q1 := set_friend st1 (Some q2)]> qs in
    st2 ← unwrap (qs !! q2);
    mret (0, <[q2 := set_friend st2 (Some q1)]> qs).

Definition pg_queue_get_friend qs p : option ptr := qs !! p ≫= q_friend.

Definition pg_queue_are_friend qs q1 q2 : bool :=
  bool_decide (pg_queue_get_friend qs q1 = Some q2).

(** [unfriend] (and [pg_queue_unfriend]): clears the friend's pointer first. *)
Definition unfriend qs p : option queues :=
  st ← qs !! p;
  match q_friend st with
  | None => Some qs
  | Some f =>
      fst ← qs !! f;
      let qs := <[f := set_friend fst None]> qs in
      st ← qs !! p;
      Some (<[p := set_friend st None]> qs)
  end.

Definition pg_queue_unfriend := unfriend.

Fixpoint free_bursts (l : list pg_queue_burst) : M (flow W) unit :=
  match l with [] => mret tt | b :: l => free_burst b;; free_bursts l end.

Definition empty qs p : M (flow W) queues :=
  st ← unwrap (qs !! p);
  free_bursts (rx st);;
  mret (<[p := set_rx st []]> qs).

Definition queue_reset qs p : M (flow W) (Z * queues) :=
  qs ← unwrap (unfriend qs p);
  qs ← empty qs p;
  mret (0, qs).

Definition queue_destroy qs p : M (flow W) queues :=
  qs ← unwrap (unfriend qs p);
  qs ← empty qs p;
  mret (delete p qs).

(** [queue_link] and [queue_get_side]. *)
Definition queue_link qs p (side : pg_side) : option queues :=
  st ← qs !! p; Some (<[p := set_output st (pg_flip_side side)]> qs).

Definition queue_get_side qs p : option pg_side :=
  st ← qs !! p; Some (pg_flip_side (q_output st)).

End Queue.

(** ** References held by a queue

    A queue owns one reference on every packet of every burst it holds. The arrays
    of packets are read at the time of the operation. *)

Section Laws.

Context {W : Type} `{D : !Dispatch W, !PktLib W, !PktLaws W}.
Context (read_array : W → aptr → option pkts_t).
Implicit Types (qs : queues) (p : ptr) (fl : flow W) (ps rest : list mptr).

Definition burst_refs (w : W) (b : pg_queue_burst) : option (list mptr) :=
  pkts ← read_array w (qb_pkts b);
  mapM (λ j, pkts !! j) (PG_FOREACH_BIT (qb_mask b)).

Definition queue_refs (w : W) (l : list pg_queue_burst) : option (list mptr) :=
  @concat mptr <$> mapM (burst_refs w) l.

Lemma free_burst_held b ps rest fl :
  burst_refs (fl_world fl) b = Some ps → held (ps ++ rest) fl →
  ∃ h, free_burst read_array b fl = Some (tt, set_mem fl h) ∧ held rest (set_mem fl h).
Proof.
  intros (pkts&Ha&Hm)%bind_Some Hh. unfold free_burst, array_at, mbind, M_bind, gets.
  rewrite Ha. cbn [unwrap]. rewrite mret_run. by eapply free_list_held.
Qed.

Lemma queue_refs_cons w b l ps :
  queue_refs w (b :: l) = Some ps ↔
  ∃ ps1 ps2, burst_refs w b = Some ps1 ∧ queue_refs w l = Some ps2 ∧ ps = ps1 ++ ps2.
Proof.
  unfold queue_refs. cbn [mapM]. destruct (burst_refs w b) as [ps1|]; cbn; [|naive_solver].
  destruct (mapM (burst_refs w) l) as [pl|]; cbn; naive_solver.
Qed.

Lemma queue_refs_snoc w b l ps1 ps2 :
  queue_refs w l = Some ps1 → burst_refs w b = Some ps2 →
  queue_refs w (l ++ [b]) = Some (ps1 ++ ps2).
Proof.
  revert ps1. induction l as [|b' l IH]; intros ps1 H1 H2.
  - cbn in H1. simplify_eq. apply queue_refs_cons. exists ps2, [].
    rewrite app_nil_r. done.
  - apply queue_refs_cons in H1 as (pa&pb&Ha&Hb&->). apply queue_refs_cons.
    exists pa, (pb ++ ps2). rewrite app_assoc. split_and!; [done|by apply IH|done].
Qed.

Lemma free_bursts_held l ps rest fl :
  queue_refs (fl_world fl) l = Some ps → held (ps ++ rest) fl →
  ∃ h, free_bursts read_array l fl = Some (tt, set_mem fl h) ∧ held rest (set_mem fl h).
Proof.
  revert ps fl. induction l as [|b l IH]; intros ps fl Hq Hh; cbn [free_bursts].
  { injection Hq as <-. exists (fl_mem fl). by destruct fl. }
  apply queue_refs_cons in Hq as (ps1&ps2&H1&H2&->). rewrite <- app_assoc in Hh.
  destruct (free_burst_held b ps1 (ps2 ++ rest) fl H1 Hh) as (h1&Hr1&Hh1).
  unfold mbind, M_bind. rewrite Hr1.
  destruct (IH ps2 (set_mem fl h1) H2 Hh1) as (h&Hr&Hh2). by exists h.
Qed.

(** What the queue keeps when it must make room. *)
Definition make_room (st : pg_queue_state) : list pg_queue_burst :=
  if s32 (rx_max_size st) <=? Z.of_nat (length (rx st)) then tail (rx st) else rx st.

Lemma make_room_held st ps rest fl :
  queue_refs (fl_world fl) (rx st) = Some ps → held (ps ++ rest) fl →
  ∃ h ps', (if s32 (rx_max_size st) <=? Z.of_nat (length (rx st)) then
      match rx st with [] => mret [] | b :: l => free_burst read_array b;; mret l end
    else mret (rx st)) fl = Some (make_room st, set_mem fl h) ∧
    queue_refs (fl_world fl) (make_room st) = Some ps' ∧ held (ps' ++ rest) (set_mem fl h).
Proof.
  intros Hq Hh. unfold make_room. destruct (_ <=? _).
  - destruct (rx st) as [|b l]; [exists (fl_mem fl), []; by destruct fl; cbn in Hq; simplify_eq|].
    apply queue_refs_cons in Hq as (ps1&ps2&H1&H2&->). rewrite <- app_assoc in Hh.
    destruct (free_burst_held b ps1 _ fl H1 Hh) as (h&Hr&Hh1).
    unfold mbind, M_bind. rewrite Hr. by exists h, ps2.
  - exists (fl_mem fl), ps. by destruct fl.
Qed.

(** What the queue relies on from the bricks it sends to: given live packets they
    return, leave the arrays of other bricks alone and drop no reference that is not
    theirs. *)
Class Neighbours : Prop :=
  law_neighbour p from i pkts m fl :
    (∀ j, j ∈ PG_FOREACH_BIT m → ∃ q, pkts !! j = Some q ∧ is_Some (fl_mem fl !! q)) →
    ∃ r fl', brick_burst p from i pkts m fl = Some (r, fl') ∧
      (∀ a, read_array (fl_world fl') a = read_array (fl_world fl) a) ∧
      ∀ ps, held ps fl → held ps fl'.

Lemma burst_refs_ext w1 w2 b :
  (∀ a, read_array w1 a = read_array w2 a) → burst_refs w1 b = burst_refs w2 b.
Proof. intros H. unfold burst_refs. by rewrite H. Qed.

Lemma queue_refs_ext w1 w2 l :
  (∀ a, read_array w1 a = read_array w2 a) → queue_refs w1 l = queue_refs w2 l.
Proof.
  intros H. unfold queue_refs. f_equal. induction l as [|b l IH]; [done|].
  cbn [mapM]. by rewrite (burst_refs_ext w1 w2 b H), IH.
Qed.

(** A burst to a live neighbour. *)
Lemma burst_held `{!Neighbours} n from i b pkts ps rest fl :
  read_array (fl_world fl) (qb_pkts b) = Some pkts →
  burst_refs (fl_world fl) b = Some ps → held (ps ++ rest) fl →
  ∃ ret fl1, pg_brick_burst (Some n) from i pkts (qb_mask b) fl = Some (ret, fl1) ∧
    (∀ a, read_array (fl_world fl1) a = read_array (fl_world fl) a) ∧ held (ps ++ rest) fl1.
Proof.
  intros Ha Hb Hh. unfold pg_brick_burst, count_add, modify, mbind, M_bind. cbv iota beta.
  set (fl0 := mk_flow _ _ _ _).
  destruct (law_neighbour n from i pkts (qb_mask b) fl0) as (r&fl1&Hr&Hw&Hk).
  - intros j Hj. apply bind_Some in Hb as (pk&Hpk&Hm).
    assert (pk = pkts) as -> by congruence. apply mapM_Some in Hm.
    apply list_elem_of_lookup in Hj as (x&Hx).
    destruct (Forall2_lookup_l _ _ _ _ _ Hm Hx) as (q&Hq&Hj).
    exists q. split; [done|]. destruct (Hh q) as (v&Hv&_); [|by exists v].
    apply elem_of_app. left. by eapply list_elem_of_lookup_2.
  - exists r, fl1. split; [done|]. split; [done|]. by apply Hk.
Qed.

End Laws.

(** ** Properties *)

(** C33: [queue_burst] never refuses a burst: when the FIFO is full it drops exactly
    the oldest burst, puts the new one last, never exceeds a positive maximum, and
    owns one reference on every packet it still holds, next to those of its caller. *)
Theorem queue_burst_fifo {W} `{!Dispatch W, !PktLib W, !PktLaws W} read_array
    qs p st a mask refs caller new (fl : flow W) :
  qs !! p = Some st →
  queue_refs read_array (fl_world fl) (rx st) = Some refs → held (refs ++ caller) fl →
  burst_refs read_array (fl_world fl) (mk_qburst a mask) = Some new → new ⊆ caller →
  ∃ h refs', queue_burst read_array qs p a mask fl
    = Some ((0, <[p := set_rx st (make_room st ++ [mk_qburst a mask])]> qs), set_mem fl h) ∧
    queue_refs read_array (fl_world fl) (make_room st ++ [mk_qburst a mask]) = Some refs' ∧
    held (refs' ++ caller) (set_mem fl h) ∧
    (0 < s32 (rx_max_size st) → Z.of_nat (length (rx st)) ≤ s32 (rx_max_size st) →
     Z.of_nat (length (make_room st ++ [mk_qburst a mask])) ≤ s32 (rx_max_size st)).
Proof.
  intros Hp Hq Hh Hb Hin. unfold queue_burst. rewrite Hp. cbn [unwrap]. rewrite M_bind_ret.
  destruct (make_room_held read_array st refs caller fl Hq Hh) as (h1&ps&Hr&Hq1&Hh1).
  unfold mbind at 1, M_bind at 1. rewrite Hr.
  pose proof Hb as (pkts&Ha&Hm)%bind_Some. cbn [qb_pkts qb_mask] in Ha, Hm.
  unfold array_at, gets. rewrite M_bind_assoc. unfold mbind at 1, M_bind at 1.
  cbn [fl_world set_mem]. rewrite Ha. cbn [unwrap]. rewrite M_bind_ret.
  unfold mbind, M_bind, pg_packets_incref.
  destruct (incref_list_held pkts _ new (ps ++ caller) (set_mem fl h1) Hm Hh1)
    as (h&Hi&Hh2); [intros x Hx; apply elem_of_app; right; by apply Hin|].
  rewrite Hi. exists h, (ps ++ new). split_and!; [done|by apply queue_refs_snoc| |].
  - eapply held_perm; [|exact Hh2]. intros x. rewrite !occurs_app. lia.
  - intros Hpos Hle. rewrite length_app. cbn [length]. unfold make_room.
    destruct (Z.leb_spec (s32 (rx_max_size st)) (Z.of_nat (length (rx st)))); [|lia].
    destruct (rx st); simpl in *; lia.
Qed.

(** Polling a queue takes the oldest burst of its friend, sends it once to the
    neighbour with the packets of its array and its mask, reports their number and
    the neighbour's result, and gives back exactly the references of that burst: no
    other held packet is freed. *)
Theorem queue_poll_sends_oldest {W} `{!Dispatch W, !PktLib W, !PktLaws W} read_array
    `{!Neighbours read_array} qs p st f fst b l sd e n refs rest (fl : flow W) :
  qs !! p = Some st → q_friend st = Some f → qs !! f = Some fst → rx fst = b :: l →
  side_edges sd = Edge e → link e = Some n → is_mask (qb_mask b) →
  queue_refs read_array (fl_world fl) (b :: l) = Some refs → held (refs ++ rest) fl →
  ∃ pkts ret fl1 fl' refs',
    read_array (fl_world fl) (qb_pkts b) = Some pkts ∧
    pg_brick_burst (Some n) (q_output st) (pair_index e) pkts (qb_mask b) fl = Some (ret, fl1) ∧
    queue_poll read_array qs p sd fl
    = Some ((ret, pg_mask_count (qb_mask b), <[f := set_rx fst l]> qs), fl') ∧
    fl_world fl' = fl_world fl1 ∧
    queue_refs read_array (fl_world fl') l = Some refs' ∧ held (refs' ++ rest) fl'.
Proof.
  intros Hp Hf Hfst Hrx He Hn Hmask Hq Hh.
  apply queue_refs_cons in Hq as (ps1&ps2&Hb&Hl&->). rewrite <- app_assoc in Hh.
  pose proof Hb as (pkts&Ha&Hm)%bind_Some.
  destruct (burst_held read_array n (q_output st) (pair_index e) b pkts ps1 (ps2 ++ rest) fl)
    as (ret&fl1&Hr&Hw&Hh1); [done..|].
  destruct (free_burst_held read_array b ps1 (ps2 ++ rest) fl1) as (h&Hfree&Hh2); [|done|].
  { rewrite <- Hb. by apply burst_refs_ext. }
  exists pkts, ret, fl1, (set_mem fl1 h), ps2. split_and!; [done..| |done| |done].
  - unfold queue_poll. rewrite Hp. cbn [unwrap]. rewrite M_bind_ret, Hf, Hfst. cbn [unwrap].
    rewrite M_bind_ret, Hrx. unfold array_at, edge_of, gets. rewrite M_bind_assoc.
    unfold mbind at 1, M_bind at 1. rewrite Ha. cbn [unwrap]. rewrite M_bind_ret, He.
    rewrite M_bind_ret, Hn. unfold mbind, M_bind. rewrite Hr, Hfree.
    by rewrite u16_small by (by apply mask_count_range).
  - rewrite <- Hl. by apply queue_refs_ext.
Qed.

(** ** Friendship *)

Section Friends.

Context {W : Type} `{D : !Dispatch W, !PktLib W}.
Context (read_array : W → aptr → option pkts_t) (names : ptr → string).
Implicit Types (qs : queues) (p q : ptr) (fl : flow W).

(** The calls a program makes on queues; [QNew] is [pg_queue_new] with the address
    of the new brick. *)
Inductive queue_call :=
  | QNew (p : ptr) (size : Z)
  | QFriend (q1 q2 : ptr)
  | QUnfriend (p : ptr)
  | QBurst (p : ptr) (a : aptr) (mask : Z)
  | QPoll (p : ptr) (sd : pg_brick_side)
  | QLink (p : ptr) (side : pg_side)
  | QReset (p : ptr)
  | QDestroy (p : ptr).

Definition run_queue_call qs (c : queue_call) : M (flow W) queues :=
  match c with
  | QNew p size =>
      if decide (qs !! p = None) then mret (<[p := queue_init (queue_config_new size)]> qs)
      else crash
  | QFriend q1 q2 => r ← pg_queue_friend names qs q1 q2; mret (snd r)
  | QUnfriend p => unwrap (pg_queue_unfriend qs p)
  | QBurst p a mask => r ← queue_burst read_array qs p a mask; mret (snd r)
  | QPoll p sd => r ← queue_poll read_array qs p sd; mret (snd r)
  | QLink p side => unwrap (queue_link qs p side)
  | QReset p => r ← queue_reset read_array qs p; mret (snd r)
  | QDestroy p => queue_destroy read_array qs p
  end.

Fixpoint run_queue_calls qs (cs : list queue_call) : M (flow W) queues :=
  match cs with
  | [] => mret qs
  | c :: cs => qs ← run_queue_call qs c; run_queue_calls qs cs
  end.

(** Friendship is mutual. *)
Definition mutual qs : Prop :=
  ∀ p q, pg_queue_get_friend qs p = Some q → pg_queue_get_friend qs q = Some p.

Lemma get_friend_insert qs p st q :
  pg_queue_get_friend (<[p := st]> qs) q =
  if decide (q = p) then q_friend st else pg_queue_get_friend qs q.
Proof.
  unfold pg_queue_get_friend. case_decide; [subst; by rewrite lookup_insert_eq|].
  by rewrite lookup_insert_ne.
Qed.

Lemma get_friend_lookup qs p st : qs !! p = Some st → pg_queue_get_friend qs p = q_friend st.
Proof. unfold pg_queue_get_friend. by intros ->. Qed.

(** Updating a queue without touching its friend changes no friendship. *)
Lemma mutual_keep qs p st st' :
  qs !! p = Some st → q_friend st' = q_friend st → mutual qs → mutual (<[p := st']> qs).
Proof.
  intros Hp Hf Hm. assert (∀ x, pg_queue_get_friend (<[p := st']> qs) x
    = pg_queue_get_friend qs x) as Hsame.
  { intros x. rewrite get_friend_insert. case_decide; [|done]. subst.
    by rewrite (get_friend_lookup _ _ _ Hp). }
  intros x y. rewrite !Hsame. apply Hm.
Qed.

(** What [unfriend] does to the friendships. *)
Lemma unfriend_friends qs p qs' :
  mutual qs → unfriend qs p = Some qs' →
  ∀ x, pg_queue_get_friend qs' x =
    if decide (x = p ∨ pg_queue_get_friend qs p = Some x) then None
    else pg_queue_get_friend qs x.
Proof.
  intros Hm (st&Hp&Hu)%bind_Some x. rewrite (get_friend_lookup _ _ _ Hp).
  destruct (q_friend st) as [f|] eqn:Hf; simplify_eq.
  - apply bind_Some in Hu as (fst&Hfst&Hu). apply bind_Some in Hu as (st2&Hst2&Hu).
    simplify_eq. rewrite !get_friend_insert. cbn [q_friend set_friend].
    repeat case_decide; naive_solver.
  - case_decide as Hx; [|done]. destruct Hx as [->|?]; [|done].
    by rewrite (get_friend_lookup _ _ _ Hp).
Qed.

Lemma unfriend_mutual qs p qs' : mutual qs → unfriend qs p = Some qs' → mutual qs'.
Proof.
  intros Hm Hu x y. rewrite !(unfriend_friends qs p qs') by done.
  repeat case_decide; try done; intros Hxy; [|by apply Hm].
  exfalso. pose proof (Hm _ _ Hxy) as Hyx.
  match goal with H : _ ∨ _ |- _ => destruct H as [->|Hpy] end; [naive_solver|].
  pose proof (Hm _ _ Hpy). naive_solver congruence.
Qed.

Lemma friend_mutual qs q1 q2 fl r fl' :
  mutual qs → pg_queue_friend names qs q1 q2 fl = Some (r, fl') → mutual (snd r).
Proof.
  intros Hm. unfold pg_queue_friend.
  destruct (qs !! q1) as [st1|] eqn:H1; [|done]. destruct (qs !! q2) as [st2|] eqn:H2; [|done].
  cbn [unwrap]. rewrite !M_bind_ret. destruct (q_friend st1) as [g1|] eqn:Hf1; [by intros [= <- _]|].
  destruct (q_friend st2) as [g2|] eqn:Hf2; [by intros [= <- _]|].
  rewrite !bool_decide_eq_false_2 by apply is_Some_None.
  set (qs1 := <[q1 := _]> qs). destruct (qs1 !! q2) as [st2'|] eqn:Hst2; [|done]. cbn [unwrap].
  rewrite M_bind_ret. intros [= <- _]. cbn [snd]. unfold qs1. intros x y.
  rewrite !get_friend_insert. cbn [q_friend set_friend].
  apply get_friend_lookup in H1, H2. repeat case_decide; simplify_eq; try done; intros Hxy;
    first [congruence | pose proof (Hm _ _ Hxy); congruence].
Qed.

Lemma empty_friends qs p fl qs' fl' :
  empty read_array qs p fl = Some (qs', fl') →
  ∀ x, pg_queue_get_friend qs' x = pg_queue_get_friend qs x.
Proof.
  unfold empty. destruct (qs !! p) as [st|] eqn:Hp; [|done]. cbn [unwrap]. rewrite M_bind_ret.
  unfold mbind, M_bind. destruct (free_bursts _ _ _) as [[[] fl1]|]; [|done].
  intros [= <- _] x. rewrite get_friend_insert. case_decide; [|done]. subst.
  by rewrite (get_friend_lookup _ _ _ Hp).
Qed.

Lemma run_queue_call_mutual qs c fl qs' fl' :
  mutual qs → run_queue_call qs c fl = Some (qs', fl') → mutual qs'.
Proof.
  intros Hm. destruct c as [p size|q1 q2|p|p a mask|p sd|p side|p|p]; cbn [run_queue_call].
  - case_decide as Hp; [|done]. intros [= <- _] x y. rewrite !get_friend_insert.
    repeat case_decide; subst; try done; intros Hxy; [|by apply Hm].
    pose proof (Hm _ _ Hxy) as Hyx. unfold pg_queue_get_friend in Hyx. by rewrite Hp in Hyx.
  - unfold mbind, M_bind. destruct (pg_queue_friend _ _ _ _ _) as [[r fl1]|] eqn:Hr; [|done].
    intros [= <- _]. by eapply friend_mutual.
  - destruct (pg_queue_unfriend qs p) as [qs1|] eqn:Hu; [|done]. intros [= <- _].
    by eapply unfriend_mutual.
  - unfold queue_burst. destruct (qs !! p) as [st|] eqn:Hp; [|done]. cbn [unwrap].
    intros (r&fl1&Hr&[= <- _])%bind_run. rewrite M_bind_ret in Hr. inv_run Hr.
    injection Hr as <- _. by eapply mutual_keep.
  - unfold queue_poll. destruct (qs !! p) as [st|] eqn:Hp; [|done]. cbn [unwrap].
    intros (r&fl1&Hr&[= <- _])%bind_run. rewrite M_bind_ret in Hr.
    destruct (q_friend st) as [f|]; [|by injection Hr as <- _].
    destruct (qs !! f) as [fst|] eqn:Hf; [|done]. cbn [unwrap] in Hr. rewrite M_bind_ret in Hr.
    destruct (rx fst) as [|b l]; [by injection Hr as <- _|]. inv_run Hr.
    injection Hr as <- _. by eapply mutual_keep.
  - unfold queue_link. destruct (qs !! p) as [st|] eqn:Hp; [|done]. intros [= <- _].
    by eapply mutual_keep.
  - unfold queue_reset, mbind, M_bind. destruct (unfriend qs p) as [qs1|] eqn:Hu; [|done].
    cbn [unwrap]. rewrite mret_run. cbv iota beta.
    destruct (empty _ _ _ _) as [[qs2 fl1]|] eqn:He; [|done]. intros [= <- _]. cbn [snd].
    pose proof (unfriend_mutual _ _ _ Hm Hu) as Hm1. intros x y.
    rewrite !(empty_friends _ _ _ _ _ He). apply Hm1.
  - unfold queue_destroy, mbind, M_bind. destruct (unfriend qs p) as [qs1|] eqn:Hu; [|done].
    cbn [unwrap]. rewrite mret_run. cbv iota beta.
    destruct (empty _ _ _ _) as [[qs2 fl1]|] eqn:He; [|done]. intros [= <- _].
    pose proof (unfriend_mutual _ _ _ Hm Hu) as Hm1. intros x y.
    unfold pg_queue_get_friend. destruct (decide (x = p)) as [->|]; [by rewrite lookup_delete_eq|].
    rewrite lookup_delete_ne by done. fold (pg_queue_get_friend qs2 x).
    rewrite (empty_friends _ _ _ _ _ He). intros Hxy. pose proof (Hm1 _ _ Hxy) as Hyx.
    destruct (decide (y = p)) as [->|].
    + exfalso. revert Hyx. rewrite (unfriend_friends _ _ _ Hm Hu).
      by rewrite decide_True by auto.
    + rewrite lookup_delete_ne by done. fold (pg_queue_get_friend qs2 y).
      by rewrite (empty_friends _ _ _ _ _ He).
Qed.

End Friends.

(** C34: whatever sequence of calls a program makes on its queues, friendship stays
    mutual: if a queue drains another, that other drains it back, so no queue keeps a
    pointer to a queue that was unfriended, reset or destroyed. *)
Theorem queues_friends_mutual {W} `{!Dispatch W, !PktLib W} read_array names cs
    (fl fl' : flow W) qs :
  run_queue_calls read_array names ∅ cs fl = Some (qs, fl') →
  ∀ p q, pg_queue_get_friend qs p = Some q →
    pg_queue_get_friend qs q = Some p ∧ is_Some (qs !! q).
Proof.
  intros Hr. assert (mutual qs) as Hm.
  { assert (mutual ∅) as H0 by (intros p q; unfold pg_queue_get_friend; by rewrite lookup_empty).
    revert H0 Hr. generalize (∅ : queues) as qs0. revert fl.
    induction cs as [|c cs IH]; intros fl qs0 H0; cbn [run_queue_calls].
    { by intros [= <- _]. }
    unfold mbind, M_bind. destruct (run_queue_call _ _ _ _ _) as [[qs1 fl1]|] eqn:Hc; [|done].
    apply IH. by eapply run_queue_call_mutual. }
  intros p q Hpq. pose proof (Hm _ _ Hpq) as Hqp. split; [done|].
  revert Hqp. unfold pg_queue_get_friend. destruct (qs !! q); [eauto|done].
Qed.

(** The pressure is the occupancy of the FIFO scaled to 0..255, with no
    overflow on the way, for any queue that is not over its maximum; it is 255 for a
    full queue only. *)
Theorem queue_pressure_scaled st :
  Z.of_nat (length (rx st)) ≤ rx_max_size st → 0 < rx_max_size st < 2 ^ 23 →
  pg_queue_pressure st = Z.of_nat (length (rx st)) * 255 / rx_max_size st ∧
  0 ≤ pg_queue_pressure st ≤ 255 ∧
  (pg_queue_pressure st = 255 ↔ Z.of_nat (length (rx st)) = rx_max_size st).
Proof.
  intros Hle Hmax. unfold pg_queue_pressure. set (n := Z.of_nat (length (rx st))) in *.
  set (m := rx_max_size st) in *.
  assert (u32 (n * 255) = n * 255) as -> by (apply Z.mod_small; lia).
  assert (0 ≤ n * 255 / m ≤ 255) as Hr.
  { split; [apply Z.div_pos; lia|]. apply Z.div_le_upper_bound; lia. }
  assert (u8 (n * 255 / m) = n * 255 / m) as -> by (apply Z.mod_small; lia).
  assert ((if n <=? 0 then 0 else n * 255 / m) = n * 255 / m) as ->.
  { destruct (Z.leb_spec n 0); [|done]. by replace n with 0 by lia. }
  split_and!; [done|lia..|]. split.
  - intros H. pose proof (Z.mul_div_le (n * 255) m ltac:(lia)). nia.
  - intros ->. rewrite Z.mul_comm. apply Z.div_mul. lia.
Qed.

(** ** Witnesses *)

(** Arrays of packets that never change. *)
Definition demo_arrays {W} (w : W) (a : aptr) : option pkts_t :=
  if decide (a = 1%positive) then Some [5%positive] else None.

Lemma recorder_neighbours : @Neighbours _ recorder (@demo_arrays _).
Proof.
  intros p from i pkts m fl _. eexists 0, _. split; [done|]. split; [done|]. done.
Qed.

Definition demo_queue (l : list pg_queue_burst) (f : ptr) : pg_queue_state :=
  mk_queue PG_WEST_SIDE 10 l (Some f).

Definition demo_queues : queues :=
  {[2%positive := demo_queue [] 3; 3%positive := demo_queue [mk_qburst 1 1] 2]}.

Lemma demo_held : held [5%positive] demo_flow.
Proof. intros q ->%list_elem_of_singleton. eexists. split; [done|]. by vm_compute. Qed.

Lemma queue_burst_fifo_witness :
  ∃ h refs', queue_burst (PktLib0 := mem_pktlib) demo_arrays demo_queues 2 1 1 demo_flow
    = Some ((0, <[2%positive := demo_queue [mk_qburst 1 1] 3]> demo_queues), set_mem demo_flow h) ∧
    held (refs' ++ [5%positive]) (set_mem demo_flow h).
Proof.
  destruct (queue_burst_fifo (Dispatch0 := recorder) (PktLib0 := mem_pktlib)
    (PktLaws0 := mem_pktlaws) demo_arrays demo_queues 2 (demo_queue [] 3) 1 1 [] [5%positive]
    [5%positive] demo_flow) as (h&refs'&Hr&_&Hh&_).
  - by vm_compute.
  - by vm_compute.
  - exact demo_held.
  - by vm_compute.
  - done.
  - by exists h, refs'.
Defined.

Lemma queue_poll_sends_oldest_witness :
  ∃ ret fl', queue_poll (D := recorder) (PktLib0 := mem_pktlib) demo_arrays demo_queues 2
    (mk_side 1 1 (Edge (mk_edge (Some 9%positive) 0))) demo_flow
  = Some ((ret, 1, <[3%positive := demo_queue [] 2]> demo_queues), fl').
Proof.
  destruct (queue_poll_sends_oldest (Dispatch0 := recorder) (PktLib0 := mem_pktlib)
    (PktLaws0 := mem_pktlaws) demo_arrays (Neighbours0 := recorder_neighbours)
    demo_queues 2 (demo_queue [] 3) 3 (demo_queue [mk_qburst 1 1] 2) (mk_qburst 1 1) []
    (mk_side 1 1 (Edge (mk_edge (Some 9%positive) 0))) (mk_edge (Some 9%positive) 0) 9
    [5%positive] [] demo_flow) as (pkts&ret&fl1&fl'&refs'&_&_&Hr&_).
  - by vm_compute.
  - done.
  - by vm_compute.
  - done.
  - done.
  - done.
  - unfold is_mask. simpl. lia.
  - by vm_compute.
  - exact demo_held.
  - by exists ret, fl'.
Defined.

Definition demo_calls : list queue_call :=
  [QNew 2 4; QNew 3 0; QFriend 2 3; QBurst 3 1 1; QNew 4 1; QFriend 4 2; QUnfriend 3; QFriend 4 2].

Lemma queues_friends_mutual_witness :
  ∃ qs fl', run_queue_calls (D := recorder) (PktLib0 := mem_pktlib) demo_arrays (λ _, "q") ∅
    demo_calls demo_flow = Some (qs, fl') ∧ pg_queue_get_friend qs 2 = Some 4%positive.
Proof.
  destruct (run_queue_calls (D := recorder) (PktLib0 := mem_pktlib) demo_arrays (λ _, "q") ∅
    demo_calls demo_flow) as [[qs fl']|] eqn:Hr; [|by vm_compute in Hr].
  exists qs, fl'. split; [done|].
  apply (queues_friends_mutual (Dispatch0 := recorder) (PktLib0 := mem_pktlib) demo_arrays
    (λ _, "q") demo_calls demo_flow fl' qs Hr 4 2).
  vm_compute in Hr. injection Hr as <- _. by vm_compute.
Defined.

Lemma queue_pressure_scaled_witness :
  pg_queue_pressure (mk_queue PG_WEST_SIDE 10 (replicate 4 (mk_qburst 1 1)) None) = 102.
Proof.
  rewrite (proj1 (queue_pressure_scaled
    (mk_queue PG_WEST_SIDE 10 (replicate 4 (mk_qburst 1 1)) None)
    ltac:(simpl; lia) ltac:(simpl; lia))). by vm_compute.
Defined.

(** ** Behaviours that differ from the documentation *)

(** A world with arrays that their owners rewrite, and the bursts received. *)
Definition rewriting : Type := gmap aptr pkts_t * list burst_call.

Definition rewriting_recorder : Dispatch rewriting := λ p from i pkts m,
  modify (λ fl, mk_flow (fl_mem fl) (fl_count fl) (fl_errp fl)
    (fst (fl_world fl), snd (fl_world fl) ++ [mk_call (Some p) from i pkts m]));; mret 0.

Definition rewrite_array (a : aptr) (pkts : pkts_t) : M (flow rewriting) unit :=
  modify (λ fl, mk_flow (fl_mem fl) (fl_count fl) (fl_errp fl)
    (<[a := pkts]> (fst (fl_world fl)), snd (fl_world fl))).

Definition aliased_flow : flow rewriting :=
  mk_flow {[5%positive := mk_mbuf [1] 1 0 0 0 0 1; 6%positive := mk_mbuf [2] 1 0 0 0 0 1]} ∅ None
    ({[1%positive := [5%positive]]}, []).

(** The FIFO keeps the array of its caller and not its packets: when the caller
    reuses the array before the friend is polled, the poll sends the packets found in
    the array at that time, keeps the reference on the packet it was given and frees
    one it never took a reference on. *)
Theorem queue_keeps_callers_array :
  ∃ qs fl',
    (r ← queue_burst (PktLib0 := mem_pktlib) (λ w a, fst w !! a) demo_queues 2 1 1;
     rewrite_array 1 [6%positive];;
     queue_poll (D := rewriting_recorder) (PktLib0 := mem_pktlib) (λ w a, fst w !! a) (snd r) 3
       (mk_side 1 1 (Edge (mk_edge (Some 9%positive) 0)))) aliased_flow = Some ((0, 1, qs), fl') ∧
    bc_pkts <$> snd (fl_world fl') = [[6%positive]] ∧
    refcnt <$> fl_mem fl' !! 5%positive = Some 2 ∧ fl_mem fl' !! 6%positive = None.
Proof. eexists _, _. split; [vm_compute; reflexivity|]. by vm_compute. Qed.

(** A queue created with a negative size keeps a single burst: the size becomes
    a large [uint32_t], which is not 0, and its comparison as an [int] is always
    reached. *)
Theorem queue_negative_size :
  let st := queue_init (queue_config_new (-1)) in
  let b := mk_qburst 1 1 in
  rx_max_size st = 2 ^ 32 - 1 ∧ make_room (set_rx st [b]) ++ [b] = [b].
Proof. by vm_compute. Qed.
