(* ===== verification/Accumulator.v ===== *)
(** * The accumulator brick ([src/accumulator.c])

    A dipole that gathers packets into bursts of 64, and flushes what it has gathered
    when it was polled often enough. *)

From S2P Require Import Prelude Bitmask Common Brick BrickInv Burst Packets.

(** [struct pg_vec]: [mbufs] are the cells of the array written so far, those from
    [len] on being left over from earlier bursts. *)
Record pg_vec := mk_vec { mbufs : list mptr; len : nat }.

(** [struct pg_accumulator_state]; an output of [None] is [PG_MAX_SIDE]. *)
Record pg_accumulator_state := mk_acc {
  acc_output : option pg_side;
  burst_vec : pg_side → pg_vec;
  poll_count : pg_side → Z;
  poll_min : Z;
}.

Definition upd {A} (f : pg_side → A) (s : pg_side) (a : A) : pg_side → A :=
  λ s', if decide (s' = s) then a else f s'.

Definition set_vec (st : pg_accumulator_state) (s : pg_side) (v : pg_vec) :=
  mk_acc (acc_output st) (upd (burst_vec st) s v) (poll_count st) (poll_min st).
Definition set_poll_count (st : pg_accumulator_state) (s : pg_side) (n : Z) :=
  mk_acc (acc_output st) (burst_vec st) (upd (poll_count st) s n) (poll_min st).

(** [vec->mbufs[vec->len] = p; ++vec->len]. *)
Definition vec_push (v : pg_vec) (p : mptr) : option pg_vec :=
  if decide (len v < PG_MAX_PKTS_BURST)%nat
  then Some (mk_vec (take (len v) (mbufs v) ++ p :: drop (S (len v)) (mbufs v)) (S (len v)))
  else None.

Section Accumulator.

Context {W : Type} `{D : !Dispatch W, !PktLib W}.
(** [brick->sides]. *)
Context (sides : pg_side → pg_brick_side).
Implicit Types st : pg_accumulator_state.

(** [accumulator_snd_pkts]: the number of packets sent and the vector. *)
Definition accumulator_snd_pkts (s : pg_brick_side) (v : pg_vec) (os : pg_side)
    : M (flow W) (Z * pg_vec) :=
  let pkts_mask := pg_mask_firsts (u8 (Z.of_nat (len v))) in
  let r := Z.of_nat (len v) in
  e ← edge_of s;
  pg_brick_burst (link e) os (pair_index e) (mbufs v) pkts_mask;;
  pg_packets_free (mbufs v) pkts_mask;;
  mret (r, mk_vec (mbufs v) 0).

Fixpoint burst_loop (s : pg_brick_side) (from : pg_side) (pkts : pkts_t) (l : list nat)
    (vec : pg_vec) : M (flow W) pg_vec :=
  match l with
  | [] => mret vec
  | it :: l =>
      p ← unwrap (pkts !! it);
      vec ← unwrap (vec_push vec p);
      refcnt_update p 1;;
      vec ← (if decide (len vec = PG_MAX_PKTS_BURST)
             then r ← accumulator_snd_pkts s vec from; mret (snd r)
             else mret vec);
      burst_loop s from pkts l vec
  end.

Definition accumulator_burst st (from : pg_side) (pkts : pkts_t) (pkts_mask : Z)
    : M (flow W) (Z * pg_accumulator_state) :=
  let output := pg_flip_side from in
  vec ← burst_loop (sides output) from pkts (PG_FOREACH_BIT pkts_mask) (burst_vec st output);
  mret (0, set_vec st output vec).

Definition accumulator_try_poll_side st (poll_dir : pg_side)
    : M (flow W) (Z * pg_accumulator_state) :=
  if poll_count st poll_dir <? poll_min st
  then mret (0, set_poll_count st poll_dir (u16 (poll_count st poll_dir + 1)))
  else
    let st := set_poll_count st poll_dir 0 in
    r ← accumulator_snd_pkts (sides poll_dir) (burst_vec st poll_dir) (pg_flip_side poll_dir);
    mret (fst r, set_vec st poll_dir (snd r)).

(** [accumulator_poll]: the result, the packet count and the state. *)
Definition accumulator_poll st : M (flow W) (Z * Z * pg_accumulator_state) :=
  match acc_output st with
  | None =>
      r1 ← accumulator_try_poll_side st PG_WEST_SIDE;
      r2 ← accumulator_try_poll_side (snd r1) PG_EAST_SIDE;
      mret (0, u16 (fst r1 + fst r2), snd r2)
  | Some output =>
      r ← accumulator_try_poll_side st (pg_flip_side output);
      mret (0, u16 (fst r), snd r)
  end.

End Accumulator.

(** ** Configuration *)

(** [struct pg_accumulator_config]; [poll_min] is a [uint64_t]. *)
Record pg_accumulator_config := mk_acc_config {
  cfg_output : option pg_side;
  cfg_poll_min : Z;
}.

Definition accumulator_config_new (name : string) (output : option pg_side) (poll_min : Z) :
    pg_brick_config pg_accumulator_config :=
  pg_brick_config_init (mk_acc_config output (u64 poll_min)) name 1 1 PG_DIPOLE.

(** [accumulator_init]: [poll_min] is stored in a [uint16_t]. *)
Definition accumulator_init (config : pg_brick_config pg_accumulator_config) :
    pg_accumulator_state :=
  mk_acc (cfg_output (brick_config config)) (λ _, mk_vec [] 0) (λ _, 0)
    (u16 (cfg_poll_min (brick_config config))).

(** ** The neighbours

    A neighbourhood that keeps a record of the bursts it receives, whatever it
    answers; it returns when the packets are alive and drops no reference that is
    not its own. *)
Class Recording (W : Type) `{!Dispatch W} (sent : W → list burst_call) : Prop :=
  law_sent p from i pkts m (fl : flow W) :
    (∀ j, j ∈ PG_FOREACH_BIT m → ∃ q, pkts !! j = Some q ∧ is_Some (fl_mem fl !! q)) →
    ∃ r fl', brick_burst p from i pkts m fl = Some (r, fl') ∧
      sent (fl_world fl') = sent (fl_world fl) ++ [mk_call (Some p) from i pkts m] ∧
      ∀ ps, held ps fl → held ps fl'.

(** The packets a call delivers. *)
Definition delivered (c : burst_call) : list mptr :=
  omap (λ j, bc_pkts c !! j) (PG_FOREACH_BIT (bc_mask c)).

(** The packets waiting in a vector. *)
Definition pending (v : pg_vec) : list mptr := take (len v) (mbufs v).

Definition vec_ok (v : pg_vec) : Prop :=
  (len v ≤ length (mbufs v))%nat ∧ (length (mbufs v) ≤ 64)%nat.

Definition acc_ok (st : pg_accumulator_state) : Prop :=
  (∀ s, vec_ok (burst_vec st s) ∧ (len (burst_vec st s) < 64)%nat ∧
        0 ≤ poll_count st s ≤ poll_min st) ∧ poll_min st < 2 ^ 16.

Section Laws.

Context {W : Type} `{!Dispatch W, !PktLib W, !PktLaws W}.
Context (sent : W → list burst_call) `{!Recording W sent}.
Implicit Types (fl : flow W) (v : pg_vec).

Lemma pending_length v : vec_ok v → length (pending v) = len v.
Proof. intros [? ?]. unfold pending. rewrite length_take. lia. Qed.

Lemma omap_seq_take {A} (l : list A) n : omap (λ j, l !! j) (seq 0 n) = take n l.
Proof.
  revert l. induction n as [|n IH]; intros l; [done|].
  destruct l as [|x l]; cbn [seq omap list_omap lookup list_lookup take].
  - rewrite <- fmap_S_seq. clear IH. generalize (seq 0 n). intros k.
    induction k as [|i k IHk]; [done|]. cbn. done.
  - f_equal. rewrite <- fmap_S_seq, <- IH. generalize (seq 0 n). intros k.
    induction k as [|i k IHk]; [done|]. cbn. rewrite IHk. done.
Qed.

Lemma mapM_seq_take {A} (l : list A) n :
  (n ≤ length l)%nat → mapM (λ j, l !! j) (seq 0 n) = Some (take n l).
Proof.
  intros Hn. rewrite <- omap_seq_take. apply mapM_Some_2.
  assert (∀ k, Forall (λ j, (j < length l)%nat) k →
    Forall2 (λ j y, l !! j = Some y) k (omap (λ j, l !! j) k)) as H.
  { intros k. induction 1 as [|j k Hj _ IH]; [constructor|]. cbn [omap list_omap].
    destruct (lookup_lt_is_Some_2 l j Hj) as [y Hy]. rewrite Hy. by constructor. }
  apply H. apply Forall_forall. intros j Hj%elem_of_seq. lia.
Qed.

Lemma len_u8 v : vec_ok v → u8 (Z.of_nat (len v)) = Z.of_nat (len v).
Proof. intros [? ?]. apply Z.mod_small. lia. Qed.

(** Sending a vector. *)
Lemma snd_pkts_spec s e n v os rest fl :
  side_edges s = Edge e → link e = Some n → vec_ok v → held (pending v ++ rest) fl →
  ∃ c fl', accumulator_snd_pkts s v os fl = Some ((Z.of_nat (len v), mk_vec (mbufs v) 0), fl') ∧
    bc_to c = Some n ∧ bc_from c = os ∧ bc_edge c = pair_index e ∧
    bc_mask c = pg_mask_firsts (Z.of_nat (len v)) ∧ delivered c = pending v ∧
    sent (fl_world fl') = sent (fl_world fl) ++ [c] ∧ held rest fl'.
Proof.
  intros He Hn Hv Hh. unfold accumulator_snd_pkts. rewrite len_u8 by done.
  unfold edge_of. rewrite He, M_bind_ret, Hn.
  assert (len v ≤ 64)%nat as Hl by (destruct Hv; lia).
  pose proof (foreach_firsts (len v) Hl) as Hf.
  set (m := pg_mask_firsts (Z.of_nat (len v))) in *.
  unfold pg_brick_burst, count_add, modify. rewrite M_bind_assoc.
  unfold mbind at 1, M_bind at 1. cbv iota beta. unfold mbind at 1, M_bind at 1.
  set (fl0 := mk_flow _ _ _ _).
  destruct (law_sent n os (pair_index e) (mbufs v) m fl0) as (r&fl1&->&Hs&Hk).
  { intros j Hj. rewrite Hf in Hj. apply elem_of_seq in Hj. destruct Hv as [Hv1 Hv2].
    destruct (lookup_lt_is_Some_2 (mbufs v) j) as [q Hq]; [lia|].
    exists q. split; [done|]. destruct (Hh q) as (x&Hx&_); [|by exists x].
    apply elem_of_app. left. apply list_elem_of_lookup. exists j.
    unfold pending. rewrite lookup_take_lt by lia. done. }
  destruct (free_list_held (mbufs v) (PG_FOREACH_BIT m) (pending v) rest fl1)
    as (h&Hfree&Hh1); [|by apply Hk|].
  { rewrite Hf. apply mapM_seq_take. apply Hv. }
  unfold mbind, M_bind, pg_packets_free. rewrite Hfree.
  eexists (mk_call (Some n) os (pair_index e) (mbufs v) m), _. split; [done|].
  split_and!; [done..| |exact Hs|exact Hh1].
  unfold delivered. cbn [bc_pkts bc_mask]. rewrite Hf. apply omap_seq_take.
Qed.

Lemma vec_push_spec v p :
  vec_ok v → (len v < 64)%nat →
  ∃ v', vec_push v p = Some v' ∧ vec_ok v' ∧ pending v' = pending v ++ [p] ∧ len v' = S (len v).
Proof.
  intros [H1 H2] Hlt. unfold vec_push. rewrite decide_True by done.
  eexists. split; [done|]. unfold vec_ok, pending. cbn [len mbufs].
  assert (length (take (len v) (mbufs v)) = len v) as Hl by (rewrite length_take; lia).
  rewrite length_app, Hl. cbn [length]. rewrite length_drop. split; [lia|]. split; [|done].
  rewrite take_app. rewrite Hl, take_ge by lia. replace (S (len v) - len v)%nat with 1%nat by lia.
  done.
Qed.

(** A full burst over an edge. *)
Definition full_call (n : ptr) (from : pg_side) (e : pg_brick_edge) (c : burst_call) : Prop :=
  bc_to c = Some n ∧ bc_from c = from ∧ bc_edge c = pair_index e ∧
  bc_mask c = pg_mask_firsts 64 ∧ length (delivered c) = 64%nat.

Lemma burst_loop_spec s e n from (pkts : pkts_t) l new v rest fl :
  side_edges s = Edge e → link e = Some n → vec_ok v → (len v < 64)%nat →
  mapM (λ j, pkts !! j) l = Some new → held (pending v ++ rest) fl → new ⊆ rest →
  ∃ v' fl' cs, burst_loop s from pkts l v fl = Some (v', fl') ∧
    vec_ok v' ∧ (len v' < 64)%nat ∧ held (pending v' ++ rest) fl' ∧
    sent (fl_world fl') = sent (fl_world fl) ++ cs ∧ Forall (full_call n from e) cs ∧
    concat (delivered <$> cs) ++ pending v' = pending v ++ new.
Proof.
  intros He Hn. revert v new fl. induction l as [|it l IH];
    intros v new fl Hv Hl Hm Hh Hin; cbn [burst_loop].
  { injection Hm as <-. exists v, fl, []. cbn. rewrite !app_nil_r. done. }
  apply mapM_cons_Some in Hm as (p&new'&Hp&Hm&->). rewrite Hp. cbn [unwrap]. rewrite M_bind_ret.
  destruct (vec_push_spec v p Hv Hl) as (v1&->&Hv1&Hpend&Hlen). cbn [unwrap]. rewrite M_bind_ret.
  destruct (incref_one_held p (pending v ++ rest) fl Hh) as (h&Hi&Hh1).
  { apply elem_of_app. right. apply Hin. left. }
  unfold mbind at 1, M_bind at 1. rewrite Hi.
  assert (held (pending v1 ++ rest) (set_mem fl h)) as Hh2.
  { eapply held_perm; [|exact Hh1]. intros x.
    rewrite Hpend, occurs_cons, !occurs_app, occurs_cons. change (occurs x []) with 0. lia. }
  assert (new' ⊆ rest) as Hin' by (intros x Hx; apply Hin; by right).
  unfold mbind at 1, M_bind at 1. destruct (decide _) as [Hfull|Hnf].
  - destruct (snd_pkts_spec s e n v1 from rest (set_mem fl h) He Hn Hv1 Hh2)
      as (c&fl1&Hr&Hto&Hfrom&Hedge&Hmask&Hdel&Hs&Hh3).
    unfold mbind at 1, M_bind at 1. rewrite Hr. rewrite mret_run. cbn [snd].
    destruct (IH (mk_vec (mbufs v1) 0) new' fl1) as (v'&fl'&cs&Hrun&?&?&?&Hs2&HF&Hcat);
      [split; cbn; [lia|apply Hv1]|cbn; lia|done|done|done|].
    exists v', fl', (c :: cs). split_and!; [done..|rewrite Hs2, Hs, <- app_assoc; done| |].
    + constructor; [|done]. split_and!; [done..|by rewrite Hmask, Hfull|].
      rewrite Hdel, pending_length by done. done.
    + cbn [fmap list_fmap concat]. rewrite <- app_assoc, Hcat, Hdel, Hpend, <- app_assoc. done.
  - rewrite mret_run.
    destruct (IH v1 new' (set_mem fl h)) as (v'&fl'&cs&Hrun&?&?&?&Hs2&HF&Hcat);
      [done| |done..|].
    { change PG_MAX_PKTS_BURST with 64%nat in Hnf. lia. }
    exists v', fl', cs. split_and!; [done..|]. rewrite Hcat, Hpend, <- app_assoc. done.
Qed.

End Laws.

(** ** Properties *)

Section Properties.

Context {W : Type} `{!Dispatch W, !PktLib W, !PktLaws W}.
Context (sent : W → list burst_call) `{!Recording W sent}.
Context (sides : pg_side → pg_brick_side).
Implicit Types (fl : flow W) (st : pg_accumulator_state).

(** Packets of an accumulator, all of them referenced by it. *)
Definition acc_pending st : list mptr :=
  pending (burst_vec st PG_WEST_SIDE) ++ pending (burst_vec st PG_EAST_SIDE).

Lemma upd_eq {A} (f : pg_side → A) s a : upd f s a s = a.
Proof. unfold upd. by rewrite decide_True. Qed.

Lemma upd_ne {A} (f : pg_side → A) s s' a : s' ≠ s → upd f s a s' = f s'.
Proof. intros. unfold upd. by rewrite decide_False. Qed.

Lemma acc_pending_split st s x :
  occurs x (acc_pending st)
  = occurs x (pending (burst_vec st s)) + occurs x (pending (burst_vec st (pg_flip_side s))).
Proof. unfold acc_pending. rewrite occurs_app. destruct s; cbn [pg_flip_side]; lia. Qed.

Lemma acc_ok_set_vec st s v :
  acc_ok st → vec_ok v → (len v < 64)%nat → acc_ok (set_vec st s v).
Proof.
  intros [Hok Hmin] Hv Hl. split; [|done]. intros s'. cbn [burst_vec poll_count poll_min set_vec].
  destruct (decide (s' = s)) as [->|Hne]; [rewrite upd_eq|rewrite upd_ne by done; apply Hok].
  split_and!; [done|done|apply Hok..].
Qed.

(** A burst into the accumulator loses, duplicates and reorders nothing: what it
    sends, in full bursts of 64 over the opposite edge, followed by what it keeps,
    is what it kept followed by the packets it was given; it keeps less than 64 and
    owns one reference on each, whatever the neighbour answers. *)
Theorem accumulator_burst_keeps_order st from pkts mask new caller e n fl :
  acc_ok st → mapM (λ j, pkts !! j) (PG_FOREACH_BIT mask) = Some new →
  side_edges (sides (pg_flip_side from)) = Edge e → link e = Some n →
  held (acc_pending st ++ caller) fl → new ⊆ caller →
  ∃ st' fl' cs, accumulator_burst sides st from pkts mask fl = Some ((0, st'), fl') ∧
    acc_ok st' ∧ held (acc_pending st' ++ caller) fl' ∧
    sent (fl_world fl') = sent (fl_world fl) ++ cs ∧ Forall (full_call n from e) cs ∧
    concat (delivered <$> cs) ++ pending (burst_vec st' (pg_flip_side from))
    = pending (burst_vec st (pg_flip_side from)) ++ new ∧
    burst_vec st' from = burst_vec st from.
Proof.
  intros Hok Hm He Hn Hh Hin. set (out := pg_flip_side from) in *.
  destruct (burst_loop_spec sent (sides out) e n from pkts (PG_FOREACH_BIT mask) new
    (burst_vec st out) (pending (burst_vec st from) ++ caller) fl)
    as (v'&fl'&cs&Hr&Hv&Hl&Hh'&Hs&HF&Hcat); [done|done|apply Hok|apply Hok|done| | |].
  { eapply held_perm; [|exact Hh]. intros x. rewrite !occurs_app, (acc_pending_split st from).
    fold out. lia. }
  { intros x Hx. apply elem_of_app. right. by apply Hin. }
  exists (set_vec st out v'), fl', cs. unfold accumulator_burst, mbind, M_bind. fold out.
  rewrite Hr. cbn [burst_vec set_vec].
  split_and!; [done|by apply acc_ok_set_vec| |done|done|by rewrite upd_eq|].
  - eapply held_perm; [|exact Hh']. intros x. rewrite !occurs_app, (acc_pending_split _ from).
    fold out. cbn [burst_vec set_vec]. rewrite upd_eq, upd_ne by (apply not_eq_sym, flip_ne). lia.
  - rewrite upd_ne; [done|]. apply not_eq_sym, flip_ne.
Qed.

(** A number of polls in a row, without a burst in between. *)
Fixpoint polls (k : nat) st : M (flow W) pg_accumulator_state :=
  match k with
  | O => mret st
  | S k => r ← accumulator_poll sides st; polls k (snd r)
  end.

(** A poll before the minimum only counts. *)
Lemma early_poll st out fl :
  acc_ok st → acc_output st = Some out →
  poll_count st (pg_flip_side out) < poll_min st →
  accumulator_poll sides st fl = Some ((0, 0, set_poll_count st (pg_flip_side out)
    (poll_count st (pg_flip_side out) + 1)), fl).
Proof.
  intros [Hok Hmin] Ho Hlt. destruct (Hok (pg_flip_side out)) as (_&_&Hc).
  unfold accumulator_poll. rewrite Ho. unfold accumulator_try_poll_side.
  destruct (Z.ltb_spec (poll_count st (pg_flip_side out)) (poll_min st)); [|lia].
  by rewrite u16_small by lia.
Qed.

Lemma acc_ok_count st s n :
  acc_ok st → 0 ≤ n ≤ poll_min st → acc_ok (set_poll_count st s n).
Proof.
  intros [Hok Hmin] Hn. split; [|done]. intros s'.
  cbn [burst_vec poll_count poll_min set_poll_count].
  destruct (decide (s' = s)) as [->|Hne]; [rewrite upd_eq|rewrite upd_ne by done; apply Hok].
  split_and!; [apply Hok..|lia|lia].
Qed.

(** An accumulator that is polled one time more than its minimum, counted from
    its last flush, sends everything it has gathered for the polled side in one
    burst, in order, gives its references back and starts counting again; the polls
    before that send nothing. *)
Theorem accumulator_polls_flush st out e n rest fl k :
  acc_ok st → acc_output st = Some out →
  side_edges (sides (pg_flip_side out)) = Edge e → link e = Some n →
  held (acc_pending st ++ rest) fl →
  Z.of_nat k = poll_min st - poll_count st (pg_flip_side out) →
  (∃ st1, polls k st fl = Some (st1, fl) ∧ acc_pending st1 = acc_pending st) ∧
  ∃ st' fl' c, polls (S k) st fl = Some (st', fl') ∧ acc_ok st' ∧
    sent (fl_world fl') = sent (fl_world fl) ++ [c] ∧
    bc_to c = Some n ∧ bc_from c = out ∧
    delivered c = pending (burst_vec st (pg_flip_side out)) ∧
    pending (burst_vec st' (pg_flip_side out)) = [] ∧
    poll_count st' (pg_flip_side out) = 0 ∧ held (acc_pending st' ++ rest) fl'.
Proof.
  set (dir := pg_flip_side out). intros Hok Ho He Hn Hh. revert st Hok Ho Hh.
  induction k as [|k IH]; intros st Hok Ho Hh Hk; pose proof Hok as [Hs Hmin].
  - split; [by exists st|]. cbn [polls].
    destruct (snd_pkts_spec sent (sides dir) e n (burst_vec st dir) out
      (pending (burst_vec st (pg_flip_side dir)) ++ rest) fl)
      as (c&fl'&Hr&Hto&Hfrom&Hedge&Hmask&Hdel&Hsent&Hh'); [done..|apply Hok| |].
    { eapply held_perm; [|exact Hh]. intros x.
      rewrite !occurs_app, (acc_pending_split st dir). lia. }
    eexists _, fl', c. split.
    { unfold accumulator_poll. rewrite Ho. fold dir. unfold accumulator_try_poll_side.
      destruct (Z.ltb_spec (poll_count st dir) (poll_min st)); [lia|].
      cbn [burst_vec set_poll_count].
      assert (pg_flip_side dir = out) as -> by apply flip_flip.
      unfold mbind, M_bind. rewrite Hr. rewrite !mret_run. cbn [fst snd]. reflexivity. }
    assert (0 ≤ poll_min st) by (destruct (Hs dir) as (_&_&?); lia).
    cbn [burst_vec poll_count set_vec set_poll_count]. rewrite !upd_eq.
    split_and!; [|done..|].
    { apply acc_ok_set_vec; [by apply acc_ok_count; [|lia]|split; cbn; [lia|apply Hok]|cbn; lia]. }
    eapply held_perm; [|exact Hh']. intros x.
    rewrite !occurs_app, (acc_pending_split _ dir).
    cbn [burst_vec set_vec set_poll_count]. rewrite upd_eq, upd_ne by apply flip_ne.
    match goal with |- context [mk_vec ?a 0] =>
      change (pending (mk_vec a 0)) with (@nil mptr) end.
    change (occurs x []) with 0. lia.
  - set (st1 := set_poll_count st dir (poll_count st dir + 1)).
    assert (accumulator_poll sides st fl = Some ((0, 0, st1), fl)) as Hp
      by (apply early_poll; [done..|fold dir; lia]).
    assert (∀ j, polls (S j) st fl = polls j st1 fl) as Hstep.
    { intros j. cbn [polls]. unfold mbind, M_bind. by rewrite Hp. }
    rewrite !Hstep. apply (IH st1); [|done|done|].
    + apply acc_ok_count; [done|]. destruct (Hs dir) as (_&_&?). lia.
    + cbn [poll_min poll_count st1 set_poll_count]. rewrite upd_eq. lia.
Qed.

(** An accumulator created for one output side never sends, on a poll, what it
    has gathered for that side: polling flushes the opposite side. *)
Theorem accumulator_output_not_polled st out fl r fl' :
  acc_output st = Some out → accumulator_poll sides st fl = Some (r, fl') →
  burst_vec (snd r) out = burst_vec st out.
Proof.
  intros Ho. unfold accumulator_poll. rewrite Ho. unfold accumulator_try_poll_side.
  intros (a&fl1&Ha&[= <- _])%bind_run. cbn [snd]. destruct (_ <? _).
  - by injection Ha as <- _.
  - apply bind_run in Ha as ([k v]&fl2&_&[= <- _]). cbn [snd burst_vec set_vec].
    rewrite upd_ne; [done|]. apply not_eq_sym, flip_ne.
Qed.

End Properties.

(** ** Witnesses *)

Lemma recorder_recording : @Recording _ recorder id.
Proof. intros p from i pkts m fl _. eexists 0, _. split; [done|]. split; [done|]. done. Qed.

Definition demo_sides (s : pg_side) : pg_brick_side :=
  mk_side 1 1 (Edge (mk_edge (Some 9%positive) 0)).

(** One packet waiting on the east side. *)
Definition demo_acc (pend : list mptr) : pg_accumulator_state :=
  mk_acc (Some PG_WEST_SIDE)
    (upd (λ _, mk_vec [] 0) PG_EAST_SIDE (mk_vec pend (length pend))) (λ _, 0) 1.

Lemma demo_acc_ok pend : (length pend < 64)%nat → acc_ok (demo_acc pend).
Proof.
  intros Hp. split; [|simpl; lia]. intros s. unfold vec_ok. cbn [burst_vec demo_acc].
  destruct s; [rewrite upd_ne by done|rewrite upd_eq]; cbn; lia.
Qed.

Lemma accumulator_burst_keeps_order_witness :
  ∃ st' fl', accumulator_burst (D := recorder) (PktLib0 := mem_pktlib) demo_sides (demo_acc [])
    PG_WEST_SIDE [5%positive] 1 demo_flow = Some ((0, st'), fl') ∧
    fl_world fl' = [] ∧ pending (burst_vec st' PG_EAST_SIDE) = [5%positive].
Proof.
  destruct (accumulator_burst_keeps_order (Dispatch0 := recorder) (PktLib0 := mem_pktlib)
    (PktLaws0 := mem_pktlaws) id (Recording0 := recorder_recording) demo_sides (demo_acc [])
    PG_WEST_SIDE [5%positive] 1 [5%positive] [5%positive] (mk_edge (Some 9%positive) 0) 9 demo_flow)
    as (st'&fl'&cs&Hr&_&_&Hs&HF&Hcat&_).
  - apply demo_acc_ok. simpl. lia.
  - by vm_compute.
  - done.
  - done.
  - intros q ->%list_elem_of_singleton. eexists. split; [done|]. by vm_compute.
  - done.
  - exists st', fl'. split; [exact Hr|]. vm_compute in Hr. injection Hr as <- <-. by vm_compute.
Defined.

Lemma accumulator_polls_flush_witness :
  ∃ st' fl' c, polls (Dispatch0 := recorder) (PktLib0 := mem_pktlib) demo_sides 2
    (demo_acc [5%positive]) demo_flow = Some (st', fl') ∧
    fl_world fl' = [c] ∧ delivered c = [5%positive].
Proof.
  destruct (accumulator_polls_flush (Dispatch0 := recorder) (PktLib0 := mem_pktlib)
    (PktLaws0 := mem_pktlaws) id (Recording0 := recorder_recording) demo_sides
    (demo_acc [5%positive]) PG_WEST_SIDE (mk_edge (Some 9%positive) 0) 9 [] demo_flow 1)
    as (_&st'&fl'&c&Hr&_&Hs&_&_&Hd&_).
  - apply demo_acc_ok. simpl. lia.
  - done.
  - done.
  - done.
  - intros q ->%list_elem_of_singleton. eexists. split; [done|]. by vm_compute.
  - done.
  - by exists st', fl', c.
Defined.

Lemma accumulator_output_not_polled_witness :
  let st := mk_acc (Some PG_EAST_SIDE) (burst_vec (demo_acc [5%positive])) (λ _, 0) 0 in
  ∃ r fl', accumulator_poll (D := recorder) (PktLib0 := mem_pktlib) demo_sides st demo_flow
    = Some (r, fl') ∧ pending (burst_vec (snd r) PG_EAST_SIDE) = [5%positive].
Proof.
  intros st.
  destruct (accumulator_poll (D := recorder) (PktLib0 := mem_pktlib) demo_sides st demo_flow)
    as [[r fl']|] eqn:Hr; [|by vm_compute in Hr].
  exists r, fl'. split; [done|].
  rewrite (accumulator_output_not_polled (Dispatch0 := recorder) (PktLib0 := mem_pktlib)
    demo_sides st PG_EAST_SIDE demo_flow r fl' eq_refl Hr). by vm_compute.
Defined.
