(* ===== verification/Network.v ===== *)
(** * Network headers ([src/utils/network.h], [src/utils/ip.h])

    Access to the headers of a packet, the walk over the IPv6 extension headers, and
    the addresses and checksums of IPv4 and IPv6. *)

From S2P Require Import Prelude Bitmask Common Brick Burst Packets.

(** ** Reading memory *)

(** [n] bytes from an offset; [None] is a read past the memory of the packet. *)
Definition bytes_at (d : list Z) (off n : nat) : option (list Z) :=
  if decide (off + n ≤ length d)%nat then Some (take n (drop off d)) else None.

(** A [uint16_t] read by a little-endian host. *)
Definition load16 (d : list Z) (off : nat) : option Z :=
  b ← bytes_at d off 2;
  match b with [b0; b1] => Some (b0 + 256 * b1) | _ => None end.

(** [memcmp(a, b, n) == 0] on the bytes compared. *)
Definition same_bytes (a b : list Z) : bool := bool_decide (a = b).

(** ** Ethernet *)

Definition ETHER_TYPE_IPv4 : Z := 0x0800.
Definition ETHER_TYPE_IPv6 : Z := 0x86DD.
Definition ETHER_TYPE_ARP : Z := 0x0806.
Definition ETHER_TYPE_RARP : Z := 0x8035.
Definition ETHER_TYPE_VLAN : Z := 0x8100.

Definition PG_BE_ETHER_TYPE_ARP := PG_CPU_TO_BE_16 ETHER_TYPE_ARP.
Definition PG_BE_ETHER_TYPE_RARP := PG_CPU_TO_BE_16 ETHER_TYPE_RARP.
Definition PG_BE_ETHER_TYPE_IPv4 := PG_CPU_TO_BE_16 ETHER_TYPE_IPv4.
Definition PG_BE_ETHER_TYPE_IPv6 := PG_CPU_TO_BE_16 ETHER_TYPE_IPv6.
Definition PG_BE_ETHER_TYPE_VLAN := PG_CPU_TO_BE_16 ETHER_TYPE_VLAN.

(** [pg_utils_get_ether_type]: the two bytes before the network header. *)
Definition pg_utils_get_ether_type (pkt : mbuf) : option Z :=
  if l2_len pkt <? 2 then None else load16 (data pkt) (Z.to_nat (l2_len pkt - 2)).

Definition pg_util_get_ether_src_addr (pkt : mbuf) : option (list Z) := bytes_at (data pkt) 6 6.
Definition pg_util_get_ether_dst_addr (pkt : mbuf) : option (list Z) := bytes_at (data pkt) 0 6.

(** [pg_utils_get_l3]: the memory from the network header on. *)
Definition pg_utils_get_l3 (pkt : mbuf) : list Z := drop (Z.to_nat (l2_len pkt)) (data pkt).

(** [pg_utils_guess_l2]; the packet types ([l2_type]) are not kept. *)
Definition pg_utils_guess_l2 (pkt : mbuf) : option mbuf :=
  etype ← load16 (data pkt) 12;
  Some (set_l2_len pkt (if etype =? PG_BE_ETHER_TYPE_VLAN then 14 + 4 else 14)).

Definition pg_utils_guess_metadata (pkt : mbuf) : option mbuf := pg_utils_guess_l2 pkt.

(** ** IPv6 extension headers *)

Definition PG_IP_TYPE_IPV6_OPTION_HOP_BY_HOP : Z := 0x00.
Definition PG_IP_TYPE_IPV6_OPTION_DESTINATION : Z := 0x3C.
Definition PG_IP_TYPE_IPV6_OPTION_ROUTING : Z := 0x2B.
Definition PG_IP_TYPE_IPV6_OPTION_FRAGMENT : Z := 0x2C.
Definition PG_IP_TYPE_IPV6_OPTION_AUTHENTICATION_HEADER : Z := 0x33.
Definition PG_IP_TYPE_IPV6_OPTION_ESP : Z := 0x32.
Definition PG_IP_TYPE_IPV6_OPTION_MOBILITY : Z := 0x88.
Definition PG_IP_TYPE_ICMPV6 : Z := 0x3A.
Definition PG_ICMPV6_TYPE_NA : Z := 0x88.

(** The size of the extension header at the start of [d], given its type; the first
    [None] is a read past the packet, the second a type that ends the loop. *)
Definition ext_size (next_header : Z) (d : list Z) : option (option Z) :=
  if bool_decide (next_header ∈ [PG_IP_TYPE_IPV6_OPTION_DESTINATION;
      PG_IP_TYPE_IPV6_OPTION_HOP_BY_HOP; PG_IP_TYPE_IPV6_OPTION_ROUTING;
      PG_IP_TYPE_IPV6_OPTION_MOBILITY])
  then b ← d !! 1%nat; Some (Some ((b + 1) * 8))
  else if next_header =? PG_IP_TYPE_IPV6_OPTION_FRAGMENT then Some (Some 8)
  else if next_header =? PG_IP_TYPE_IPV6_OPTION_AUTHENTICATION_HEADER
  then b ← d !! 1%nat; Some (Some ((b + 2) * 4))
  else Some None.

(** The loop of [pg_utils_get_ipv6_l4] with the turns that are left; the result is
    [None] for the -1 of too many headers, or the type and offset of the payload. *)
Fixpoint ipv6_l4_loop (turns : nat) (next_header : Z) (off : nat) (d : list Z)
    : option (option (Z * nat)) :=
  match turns with
  | O => Some None
  | S turns =>
      sz ← ext_size next_header (drop off d);
      match sz with
      | None => Some (Some (next_header, off))
      | Some n =>
          next ← d !! off;
          ipv6_l4_loop turns next (off + Z.to_nat n) d
      end
  end.

Definition IPV6_HDR_SIZE : nat := 40.

(** [pg_utils_get_ipv6_l4]: the counter reaches 8 at the eighth turn. The payload is
    given by its offset from the end of the IPv6 header, which is also the result. *)
Definition pg_utils_get_ipv6_l4 (pkt : mbuf) : option (option (Z * nat)) :=
  let h6 := pg_utils_get_l3 pkt in
  proto ← h6 !! 6%nat;
  ipv6_l4_loop 7 proto 0 (drop IPV6_HDR_SIZE h6).

(** [pg_utils_get_ipv6_l3_len]: the -1 of a failure is added to the size too. *)
Definition pg_utils_get_ipv6_l3_len (pkt : mbuf) : option Z :=
  r ← pg_utils_get_ipv6_l4 pkt;
  Some (match r with Some (_, off) => Z.of_nat off | None => -1 end + 40).

(** *** The chain of headers

    [ext_chain d t o k t' o']: from a header of type [t] at offset [o], [k] extension
    headers lead to a payload of type [t'] at offset [o']. *)
Inductive ext_chain (d : list Z) : Z → nat → nat → Z → nat → Prop :=
  | chain_end t o : ext_size t (drop o d) = Some None → ext_chain d t o 0 t o
  | chain_ext t o n next k t' o' :
      ext_size t (drop o d) = Some (Some n) → d !! o = Some next →
      ext_chain d next (o + Z.to_nat n) k t' o' →
      ext_chain d t o (S k) t' o'.

Lemma ipv6_l4_loop_sound turns t o d t' o' :
  ipv6_l4_loop turns t o d = Some (Some (t', o')) →
  ∃ k, (k < turns)%nat ∧ ext_chain d t o k t' o'.
Proof.
  revert t o. induction turns as [|turns IH]; intros t o; cbn [ipv6_l4_loop]; [done|].
  intros (sz&Hsz&H)%bind_Some. destruct sz as [n|].
  - apply bind_Some in H as (next&Hn&H). apply IH in H as (k&Hk&Hc).
    exists (S k). split; [lia|]. by eapply chain_ext.
  - simplify_eq. exists 0%nat. split; [lia|]. by constructor.
Qed.

Lemma ipv6_l4_loop_complete turns t o d k t' o' :
  ext_chain d t o k t' o' → (k < turns)%nat →
  ipv6_l4_loop turns t o d = Some (Some (t', o')).
Proof.
  intros Hc. revert turns. induction Hc as [t o He|t o n next k t' o' He Hn Hc IH];
    intros [|turns] Hk; try lia; cbn [ipv6_l4_loop]; rewrite He; [done|]. cbn.
  rewrite Hn. cbn. apply IH. lia.
Qed.

(** A longer chain makes the loop give up. *)
Lemma ipv6_l4_loop_long turns t o d k t' o' :
  ext_chain d t o k t' o' → (turns ≤ k)%nat → ipv6_l4_loop turns t o d = Some None.
Proof.
  intros Hc. revert turns. induction Hc as [t o He|t o n next k t' o' He Hn Hc IH];
    intros [|turns] Hk; try done; try lia. cbn [ipv6_l4_loop].
  rewrite He. cbn. rewrite Hn. cbn. apply IH. lia.
Qed.

(** The walk over the IPv6 extension headers finds the payload exactly when at
    most six extension headers lead to it, with the payload's type and offset; when
    there are more it answers -1, and it never goes on. *)
Theorem ipv6_l4_walk pkt proto k t o :
  pg_utils_get_l3 pkt !! 6%nat = Some proto →
  ext_chain (drop IPV6_HDR_SIZE (pg_utils_get_l3 pkt)) proto 0 k t o →
  (∀ t' o', pg_utils_get_ipv6_l4 pkt = Some (Some (t', o')) ↔
    (k ≤ 6)%nat ∧ t' = t ∧ o' = o) ∧
  (pg_utils_get_ipv6_l4 pkt = Some None ↔ (6 < k)%nat).
Proof.
  intros Hp Hc. unfold pg_utils_get_ipv6_l4. rewrite Hp. cbn [mbind option_bind].
  destruct (decide (k ≤ 6)%nat) as [Hk|Hk].
  - rewrite (ipv6_l4_loop_complete 7 _ _ _ _ _ _ Hc) by lia. split; [naive_solver|].
    split; [done|lia].
  - rewrite (ipv6_l4_loop_long 7 _ _ _ _ _ _ Hc) by lia. split; [|split; [lia|done]].
    intros t' o'. split; [done|lia].
Qed.

(** A packet with a hop-by-hop header and a fragment header before its payload. *)
Definition demo_ipv6 : mbuf :=
  mk_mbuf (replicate 14 0 ++ [0x60; 0; 0; 0; 0; 24; 0; 64] ++ replicate 32 1
    ++ [0x2C; 0; 0; 0; 0; 0; 0; 0] ++ [0x3A; 0; 0; 0; 0; 0; 0; 0] ++ [0x88; 0])
    72 14 0 0 0 1.

Lemma ipv6_l4_walk_witness : pg_utils_get_ipv6_l4 demo_ipv6 = Some (Some (0x3A, 16%nat)).
Proof.
  apply (ipv6_l4_walk demo_ipv6 0 2 0x3A 16).
  - by vm_compute.
  - eapply chain_ext; [by vm_compute|by vm_compute|].
    eapply chain_ext; [by vm_compute|by vm_compute|]. by constructor.
  - split_and!; [lia|done..].
Defined.

(** ** Addresses *)

(** [pg_is_same_ipv6_tab_tab] and its variants on the union: the same comparison of
    16 bytes; [pg_copy_ipv6_tab_tab] and its variants copy them. *)
Definition pg_is_same_ipv6 (dest src : list Z) : bool := same_bytes (take 16 dest) (take 16 src).
Definition pg_is_same_ipv4 (a b : Z) : bool := a =? b.
Definition pg_copy_ipv6 (src dest : list Z) : list Z := take 16 src ++ drop 16 dest.

(** Byte [i] of a [uint32_t] in memory. *)
Definition byte_of (ip : Z) (i : nat) : Z := Z.shiftr ip (8 * Z.of_nat i) mod 256.

Definition pg_multicast_get_dst_addr4 (ip : Z) : list Z :=
  [0x01; 0x00; 0x5e; Z.land (byte_of ip 1) 0x7f; byte_of ip 2; byte_of ip 3].

Definition pg_multicast_get_dst_addr6 (ip : list Z) : option (list Z) :=
  last4 ← bytes_at ip 12 4; Some ([0x33; 0x33] ++ last4).

Definition is_multicast_ipv4 (ip : Z) : bool :=
  (224 <=? byte_of ip 0) && (byte_of ip 0 <=? 239).
Definition is_multicast_ip_tab (ip : list Z) : bool := bool_decide (head ip = Some 0xff).

(** ** IPv4 checksums *)

Definition PG_UDP_PROTOCOL_NUMBER : Z := 17.
Definition PG_TCP_PROTOCOL_NUMBER : Z := 6.

(** A [struct ipv4_hdr] in memory; the fields are the values stored. *)
Definition ipv4_hdr_bytes (version_ihl tos total_length packet_id fragment_offset ttl proto
    cksum src dst : Z) : list Z :=
  [version_ihl; tos] ++ le16 total_length ++ le16 packet_id ++ le16 fragment_offset
  ++ [ttl; proto] ++ le16 cksum ++ le32 src ++ le32 dst.

(** The sum of the 16-bit words of a buffer. *)
Fixpoint sum_words (d : list Z) : Z :=
  match d with
  | b0 :: b1 :: d => b0 + 256 * b1 + sum_words d
  | _ => 0
  end.

Section Cksum.

(** [__rte_raw_cksum] and [__rte_raw_cksum_reduce] of DPDK. *)
Context (raw_cksum : list Z → Z → Z) (raw_cksum_reduce : Z → Z).

Definition pg_ipv4_init_cksum (src_ip : Z) : Z :=
  raw_cksum (ipv4_hdr_bytes 0x45 0 0 0 0 64 PG_UDP_PROTOCOL_NUMBER 0 src_ip 0) 0.

Definition pg_ipv4_udp_cksum (base_sum_ipv4 pkt_len id dts_ip : Z) : Z :=
  let sum := raw_cksum_reduce
    (u32 (base_sum_ipv4 + pkt_len + id + u16 dts_ip + u16 (Z.shiftr dts_ip 16))) in
  if sum =? 0xffff then 0xffff else u16 (Z.lnot sum).

(** The checksum of a whole header as DPDK defines it. *)
Definition ipv4_cksum (hdr : list Z) : Z :=
  let cksum := raw_cksum_reduce (raw_cksum hdr 0) in
  if cksum =? 0xffff then cksum else u16 (Z.lnot cksum).

(** [__rte_raw_cksum] adds the 16-bit words of the buffer, on 32 bits. *)
Context (raw_cksum_sum : ∀ d s, Nat.Even (length d) → raw_cksum d s = u32 (s + sum_words d)).

Lemma sum_words_app d1 d2 :
  Nat.Even (length d1) → sum_words (d1 ++ d2) = sum_words d1 + sum_words d2.
Proof.
  intros [k Hk]. revert d1 Hk. induction k as [|k IH]; intros d1 Hk.
  - destruct d1; [done|simpl in Hk; lia].
  - destruct d1 as [|b0 [|b1 d1]]; simpl in Hk; [lia..|]. cbn [app sum_words].
    rewrite IH by lia. lia.
Qed.

Lemma sum_words_le16 z : 0 ≤ z < 2 ^ 16 → sum_words (le16 z) = z.
Proof.
  intros Hz. unfold le16. cbn [sum_words].
  assert (z / 256 mod 256 = z / 256) as ->.
  { apply Z.mod_small. split; [apply Z.div_pos; lia|apply Z.div_lt_upper_bound; lia]. }
  pose proof (Z.div_mod z 256 ltac:(lia)). lia.
Qed.

Lemma sum_words_le32 z :
  0 ≤ z < 2 ^ 32 → sum_words (le32 z) = u16 z + u16 (Z.shiftr z 16).
Proof.
  intros Hz. unfold le32. rewrite sum_words_app by (exists 1%nat; done).
  assert (0 ≤ Z.shiftr z 16 < 2 ^ 16) as Hs.
  { rewrite Z.shiftr_div_pow2 by lia.
    split; [apply Z.div_pos; lia|apply Z.div_lt_upper_bound; lia]. }
  rewrite (sum_words_le16 (Z.shiftr z 16)), (u16_small (Z.shiftr z 16)) by done.
  f_equal. replace (le16 z) with (le16 (u16 z)).
  - apply sum_words_le16. apply Z.mod_pos_bound. lia.
  - unfold le16, u16. f_equal; [|f_equal].
    + apply (bits_ext 8); [lia|apply Z.mod_pos_bound; lia..|]. intros i Hi.
      change 256 with (2 ^ 8). by rewrite !Z.mod_pow2_bits_low by lia.
    + apply (bits_ext 8); [lia|apply Z.mod_pos_bound; lia..|]. intros i Hi.
      change 256 with (2 ^ 8). rewrite !Z.mod_pow2_bits_low, !Z.div_pow2_bits by lia.
      by rewrite Z.mod_pow2_bits_low by lia.
Qed.

Lemma sum_words_hdr len id src dst :
  0 ≤ len < 2 ^ 16 → 0 ≤ id < 2 ^ 16 → 0 ≤ src < 2 ^ 32 → 0 ≤ dst < 2 ^ 32 →
  sum_words (ipv4_hdr_bytes 0x45 0 len id 0 64 PG_UDP_PROTOCOL_NUMBER 0 src dst)
  = 0x45 + (64 + 256 * 17) + len + id + sum_words (le32 src) + sum_words (le32 dst).
Proof.
  intros Hl Hi Hs Hd. unfold ipv4_hdr_bytes, PG_UDP_PROTOCOL_NUMBER.
  rewrite !sum_words_app by (exists 1%nat; done).
  rewrite (sum_words_app (le32 src)) by (exists 2%nat; done).
  rewrite (sum_words_le16 len), (sum_words_le16 id) by done.
  change (sum_words (le16 0)) with 0. cbn [sum_words]. lia.
Qed.

(** The fast checksum of a UDP packet, from the precomputed part of the header, is
    the checksum of the complete IPv4 header. *)
Theorem udp_cksum_fast len id src dst :
  0 ≤ len < 2 ^ 16 → 0 ≤ id < 2 ^ 16 → 0 ≤ src < 2 ^ 32 → 0 ≤ dst < 2 ^ 32 →
  pg_ipv4_udp_cksum (pg_ipv4_init_cksum src) len id dst
  = ipv4_cksum (ipv4_hdr_bytes 0x45 0 len id 0 64 PG_UDP_PROTOCOL_NUMBER 0 src dst).
Proof.
  intros Hl Hi Hs Hd. unfold pg_ipv4_udp_cksum, pg_ipv4_init_cksum, ipv4_cksum.
  rewrite !raw_cksum_sum by (exists 10%nat; done).
  rewrite !sum_words_hdr by lia.
  replace (u32 (u32 _ + _ + _ + _ + _))
    with (u32 (0 + (0x45 + (64 + 256 * 17) + len + id + sum_words (le32 src)
                    + sum_words (le32 dst)))).
  - by destruct (Z.eqb_spec (raw_cksum_reduce
      (u32 (0 + (0x45 + (64 + 256 * 17) + len + id + sum_words (le32 src)
                 + sum_words (le32 dst))))) 0xffff) as [->|].
  - rewrite <- !Z.add_assoc, u32_add_l, (sum_words_le32 dst) by done. f_equal.
    change (sum_words (le32 0)) with 0. lia.
Qed.

End Cksum.

(** The two functions of DPDK, on the words of the buffer. *)
Definition demo_raw (d : list Z) (s : Z) : Z := u32 (s + sum_words d).
Definition demo_reduce (s : Z) : Z :=
  let s := Z.shiftr s 16 + Z.land s 0xffff in Z.shiftr s 16 + Z.land s 0xffff.

Lemma udp_cksum_fast_witness :
  pg_ipv4_udp_cksum demo_reduce (pg_ipv4_init_cksum demo_raw 0x0100000a) 0x3c00 7 0x0200000a
  = ipv4_cksum demo_raw demo_reduce
      (ipv4_hdr_bytes 0x45 0 0x3c00 7 0 64 PG_UDP_PROTOCOL_NUMBER 0 0x0100000a 0x0200000a).
Proof.
  apply (udp_cksum_fast demo_raw demo_reduce ltac:(by intros)); lia.
Defined.
