(* ===== verification/Antispoof.v ===== *)
(** * The antispoof brick ([src/antispoof.c])

    A dipole that lets packets from its outside pass and, from its inside, only
    those with the configured MAC address whose ARP and neighbour advertisements
    announce authorised addresses. *)

From S2P Require Import Prelude Bitmask Common Brick BrickInv Burst Packets Network.

Definition PG_ARP_MAX : nat := 100.
Definition PG_NPD_MAX : nat := 100.

(** [struct pg_antispoof_arp]; MAC addresses are lists of bytes, the other fields the
    values stored. *)
Record pg_antispoof_arp := mk_arp_packet {
  ar_hrd : Z;
  ar_pro : Z;
  ar_hln : Z;
  ar_pln : Z;
  ar_op : Z;
  sender_mac : list Z;
  sender_ip : Z;
  target_mac : list Z;
  target_ip : Z;
}.

(** [struct arp]. *)
Record arp := mk_arp { arp_ip : Z; packet : pg_antispoof_arp }.

(** [struct pg_antispoof_state]; the arrays have [PG_ARP_MAX] and [PG_NPD_MAX]
    cells. *)
Record pg_antispoof_state := mk_antispoof {
  outside : pg_side;
  mac : list Z;
  arp_enabled : bool;
  arps_size : nat;
  arps : list arp;
  ndp_enabled : bool;
  ndps_size : nat;
  ndps : list (list Z);
}.

Definition set_arp_enabled st (b : bool) : pg_antispoof_state :=
  mk_antispoof (outside st) (mac st) b (arps_size st) (arps st)
    (ndp_enabled st) (ndps_size st) (ndps st).
Definition set_arps st (n : nat) (l : list arp) : pg_antispoof_state :=
  mk_antispoof (outside st) (mac st) (arp_enabled st) n l
    (ndp_enabled st) (ndps_size st) (ndps st).
Definition set_ndp_enabled st (b : bool) : pg_antispoof_state :=
  mk_antispoof (outside st) (mac st) (arp_enabled st) (arps_size st) (arps st)
    b (ndps_size st) (ndps st).
Definition set_ndps st (n : nat) (l : list (list Z)) : pg_antispoof_state :=
  mk_antispoof (outside st) (mac st) (arp_enabled st) (arps_size st) (arps st)
    (ndp_enabled st) n l.

(** ** Configuration *)

Definition pg_antispoof_arp_enable st := set_arp_enabled st true.
Definition pg_antispoof_arp_disable st := set_arp_enabled st false.
Definition pg_antispoof_ndp_enable st := set_ndp_enabled st true.
Definition pg_antispoof_ndp_disable st := set_ndp_enabled st false.
Definition pg_antispoof_arp_del_all st := set_arps st 0 (arps st).
Definition pg_antispoof_ndp_del_all st := set_ndps st 0 (ndps st).

(** The part of the reference packet that [pg_antispoof_arp_add] writes; the other
    fields of the cell keep their values. *)
Definition reference_arp (old : pg_antispoof_arp) (m : list Z) (ip : Z) : pg_antispoof_arp :=
  mk_arp_packet (PG_CPU_TO_BE_16 1) PG_BE_ETHER_TYPE_IPv4 6 4 (ar_op old) m ip
    (target_mac old) (target_ip old).

(** [pg_antispoof_arp_add]: an error, or the new state. *)
Definition pg_antispoof_arp_add st (ip : Z) : option (pg_error + pg_antispoof_state) :=
  let n := arps_size st in
  if decide (n = PG_ARP_MAX) then Some (inl (pg_error_new "Maximal IP reached"))
  else
    cell ← arps st !! n;
    Some (inr (set_arps st (S n)
      (<[n := mk_arp ip (reference_arp (packet cell) (mac st) ip)]> (arps st)))).

(** The index of the first of [size] cells that satisfies a test. *)
Fixpoint find_cell {A} (f : A → bool) (l : list A) (i size : nat) : option (option nat) :=
  match size with
  | O => Some None
  | S size => a ← l !! i; if f a then Some (Some i) else find_cell f l (S i) size
  end.

(** The removal shared by [pg_antispoof_arp_del] and [pg_antispoof_ndp_del]: the last
    cell takes the place of the removed one. *)
Definition del_cell {A} (l : list A) (size index : nat) : option (list A) :=
  if decide (index = (size - 1)%nat) then Some l
  else lst ← l !! (size - 1)%nat; Some (<[index := lst]> l).

Definition pg_antispoof_arp_del st (ip : Z) : option (pg_error + pg_antispoof_state) :=
  let size := arps_size st in
  found ← find_cell (λ a, arp_ip a =? ip) (arps st) 0 size;
  match found with
  | None => Some (inl (pg_error_new "IP not found"))
  | Some index =>
      l ← del_cell (arps st) size index;
      Some (inr (set_arps st (size - 1) l))
  end.

Definition pg_antispoof_ndp_add st (ip : list Z) : option (pg_error + pg_antispoof_state) :=
  let n := ndps_size st in
  if decide (n = PG_NPD_MAX) then Some (inl (pg_error_new "Maximal IPV6 reached"))
  else
    cell ← ndps st !! n;
    Some (inr (set_ndps st (S n) (<[n := pg_copy_ipv6 ip cell]> (ndps st)))).

Definition pg_antispoof_ndp_del st (ip : list Z) : option (pg_error + pg_antispoof_state) :=
  let size := ndps_size st in
  found ← find_cell (λ a, pg_is_same_ipv6 a ip) (ndps st) 0 size;
  match found with
  | None => Some (inl (pg_error_new "IPV6 not found"))
  | Some index =>
      l ← del_cell (ndps st) size index;
      Some (inr (set_ndps st (size - 1) l))
  end.

(** [struct pg_antispoof_config], [antispoof_config_new] and [antispoof_init]: the
    state is allocated filled with zeroes. *)
Record pg_antispoof_config := mk_antispoof_config { cfg_outside : pg_side; cfg_mac : list Z }.

Definition antispoof_config_new (name : string) (outside : pg_side) (mac : list Z) :
    pg_brick_config pg_antispoof_config :=
  pg_brick_config_init (mk_antispoof_config outside mac) name 1 1 PG_DIPOLE.

Definition zero_arp : arp :=
  mk_arp 0 (mk_arp_packet 0 0 0 0 0 (replicate 6 0) 0 (replicate 6 0) 0).

Definition antispoof_init (config : pg_brick_config pg_antispoof_config) : pg_antispoof_state :=
  mk_antispoof (cfg_outside (brick_config config)) (cfg_mac (brick_config config)) false 0
    (replicate PG_ARP_MAX zero_arp) false 0 (replicate PG_NPD_MAX (replicate 16 0)).

(** ** The checks *)

(** The bytes compared by the two [memcmp] of [antispoof_arp]. *)
Definition arp_part1 (p : pg_antispoof_arp) : list Z :=
  le16 (ar_hrd p) ++ le16 (ar_pro p) ++ [ar_hln p; ar_pln p].
Definition arp_part2 (p : pg_antispoof_arp) : list Z := sender_mac p ++ le32 (sender_ip p).

Fixpoint antispoof_arp_loop (l : list arp) (i size : nat) (a : list Z) : option Z :=
  match size with
  | O => Some (-1)
  | S size =>
      c ← l !! i;
      a1 ← bytes_at a 0 6;
      if same_bytes (arp_part1 (packet c)) a1 then
        a2 ← bytes_at a 8 10;
        if same_bytes (arp_part2 (packet c)) a2 then Some 0
        else antispoof_arp_loop l (S i) size a
      else antispoof_arp_loop l (S i) size a
  end.

Definition antispoof_arp st (pkt : mbuf) : option Z :=
  antispoof_arp_loop (arps st) 0 (arps_size st) (pg_utils_get_l3 pkt).

(** [struct neighbor_advertisement]: the target address is at offset 8, the link
    layer option at 24. *)
Fixpoint antispoof_ndp_loop (l : list (list Z)) (i size : nat) (src na : list Z) : option bool :=
  match size with
  | O => Some false
  | S size =>
      c ← l !! i;
      if pg_is_same_ipv6 src c then
        target ← bytes_at na 8 16;
        if same_bytes target (take 16 c) then Some true
        else antispoof_ndp_loop l (S i) size src na
      else antispoof_ndp_loop l (S i) size src na
  end.

Definition antispoof_ndp st (pkt : mbuf) : option Z :=
  r ← pg_utils_get_ipv6_l4 pkt;
  match r with
  | None => Some (-1)
  | Some (ipv6_type, off) =>
      if negb (ipv6_type =? PG_IP_TYPE_ICMPV6) then Some 0
      else
        let h6 := pg_utils_get_l3 pkt in
        let na := drop off (drop IPV6_HDR_SIZE h6) in
        type ← na !! 0%nat;
        if negb (type =? PG_ICMPV6_TYPE_NA) then Some 0
        else
          src ← bytes_at h6 8 16;
          ipv6_allowed ← antispoof_ndp_loop (ndps st) 0 (ndps_size st) src na;
          if negb ipv6_allowed then Some (-1)
          else
            ll_type ← na !! 24%nat;
            if negb (ll_type =? 2) then Some (-1)
            else
              ll_len ← na !! 25%nat;
              if negb (ll_len =? 1) then Some (-1)
              else
                ll_addr ← bytes_at na 26 6;
                if same_bytes ll_addr (mac st) then Some 0 else Some (-1)
  end.

(** Whether the burst loop clears the bit of a packet. *)
Definition antispoof_reject st (pkt : mbuf) : option bool :=
  src ← pg_util_get_ether_src_addr pkt;
  etype ← pg_utils_get_ether_type pkt;
  if negb (same_bytes src (mac st)) then Some true
  else if etype =? PG_BE_ETHER_TYPE_RARP then Some true
  else
    bad ← (if arp_enabled st && (etype =? PG_BE_ETHER_TYPE_ARP)
           then r ← antispoof_arp st pkt; Some (r <? 0) else Some false);
    if bad : bool then Some true
    else if ndp_enabled st && (etype =? PG_BE_ETHER_TYPE_IPv6)
    then r ← antispoof_ndp st pkt; Some (r <? 0)
    else Some false.

Section Antispoof.

Context {W : Type} `{D : !Dispatch W}.

Fixpoint antispoof_loop st (pkts : pkts_t) (l : list nat) (pkts_mask : Z) : M (flow W) Z :=
  match l with
  | [] => mret pkts_mask
  | i :: l =>
      p ← unwrap (pkts !! i);
      v ← load_pkt p;
      bad ← unwrap (antispoof_reject st v);
      antispoof_loop st pkts l
        (if bad : bool then Z.land pkts_mask (not64 (Z.shiftl ONE64 (Z.of_nat i))) else pkts_mask)
  end.

(** [antispoof_burst]; [s] is the side opposite to [from]. *)
Definition antispoof_burst st (s : pg_brick_side) (from : pg_side) (pkts : pkts_t)
    (pkts_mask : Z) : M (flow W) Z :=
  let forward (m : Z) :=
    e ← edge_of s; pg_brick_burst (link e) from (pair_index e) pkts m in
  if decide (outside st = from) then forward pkts_mask
  else
    m ← antispoof_loop st pkts (PG_FOREACH_BIT pkts_mask) pkts_mask;
    if m =? 0 then mret 0 else forward m.

End Antispoof.

(** ** The tables of addresses *)

(** A reference packet: an ethernet-over-IPv4 ARP header with the sender's
    addresses. *)
Definition arp_cell_ok (m : list Z) (c : arp) : Prop :=
  arp_part1 (packet c) = [0; 1; 8; 0; 6; 4] ∧ arp_part2 (packet c) = m ++ le32 (arp_ip c).

Definition arp_ips st : list Z := arp_ip <$> take (arps_size st) (arps st).
Definition ndp_ips st : list (list Z) := take (ndps_size st) (ndps st).

Record antispoof_ok (st : pg_antispoof_state) : Prop := {
  ok_arps : length (arps st) = PG_ARP_MAX;
  ok_arps_size : (arps_size st ≤ PG_ARP_MAX)%nat;
  ok_arp_cells : Forall (arp_cell_ok (mac st)) (take (arps_size st) (arps st));
  ok_ndps : length (ndps st) = PG_NPD_MAX;
  ok_ndps_size : (ndps_size st ≤ PG_NPD_MAX)%nat;
  ok_ndp_cells : Forall (λ c, length c = 16%nat) (ndps st);
}.

Lemma find_cell_spec {A} (f : A → bool) l i size :
  (i + size ≤ length l)%nat →
  (∃ j a, find_cell f l i size = Some (Some j) ∧ (i ≤ j < i + size)%nat ∧
    l !! j = Some a ∧ f a = true) ∨
  (find_cell f l i size = Some None ∧ Forall (λ a, f a = false) (take size (drop i l))).
Proof.
  revert i. induction size as [|size IH]; intros i Hl; cbn [find_cell].
  { right. split; [done|constructor]. }
  destruct (lookup_lt_is_Some_2 l i) as [a Ha]; [lia|]. rewrite Ha. cbn [mbind option_bind].
  destruct (f a) eqn:Hf; [left; exists i, a; split_and!; [done|lia|lia|done..]|].
  destruct (IH (S i)) as [(j&b&Hj&Hr&Hb&Hfb)|[Hn HF]]; [lia|left|right].
  - exists j, b. split_and!; [done|lia|lia|done..].
  - rewrite (drop_S l a i Ha). cbn [take]. split; [done|by constructor].
Qed.

Lemma del_cell_perm {A} (l : list A) size index a :
  (size ≤ length l)%nat → (index < size)%nat → l !! index = Some a →
  ∃ l', del_cell l size index = Some l' ∧ length l' = length l ∧
    a :: take (size - 1) l' ≡ₚ take size l ∧
    (∀ P : A → Prop, Forall P l → Forall P l').
Proof.
  intros Hs Hi Ha. unfold del_cell.
  destruct (lookup_lt_is_Some_2 l (size - 1)) as [lst Hl]; [lia|].
  assert (take size l = take (size - 1) l ++ [lst]) as Htake.
  { rewrite <- (take_S_r l (size - 1) lst) by done. f_equal. lia. }
  destruct (decide (index = (size - 1)%nat)) as [->|Hne].
  - exists l. split_and!; [done..| |done]. assert (a = lst) as -> by congruence.
    rewrite Htake. apply Permutation_cons_append.
  - rewrite Hl. cbn [mbind option_bind]. eexists. split; [done|].
    split_and!; [by rewrite length_insert| |].
    + rewrite Htake, take_insert_lt by lia.
      set (t := take (size - 1) l). assert (t !! index = Some a) as Hta.
      { unfold t. rewrite lookup_take_lt by lia. done. }
      rewrite <- (take_drop_middle t index a Hta) at 2.
      rewrite insert_take_drop by (apply lookup_lt_Some in Hta; done).
      rewrite (Permutation_app_comm (_ ++ _ :: _)). cbn [app].
      rewrite <- !Permutation_middle. apply perm_swap.
    + intros P HP. apply Forall_insert; [done|]. by eapply Forall_lookup_1.
Qed.

(** The table of authorised IPv4 addresses behaves as a bounded list: adding
    appends until 100 addresses are stored and is refused then, deleting removes one
    occurrence of a stored address and is refused for any other, and every stored
    reference packet stays well formed. *)
Theorem antispoof_arp_table st ip :
  antispoof_ok st →
  match pg_antispoof_arp_add st ip with
  | Some (inr st') => (length (arp_ips st) < PG_ARP_MAX)%nat ∧ antispoof_ok st' ∧
      arp_ips st' = arp_ips st ++ [ip] ∧ ndp_ips st' = ndp_ips st
  | Some (inl _) => length (arp_ips st) = PG_ARP_MAX
  | None => False
  end ∧
  match pg_antispoof_arp_del st ip with
  | Some (inr st') => antispoof_ok st' ∧ ip :: arp_ips st' ≡ₚ arp_ips st ∧ ndp_ips st' = ndp_ips st
  | Some (inl _) => ip ∉ arp_ips st
  | None => False
  end.
Proof.
  intros [Ha Hs Hc Hn Hns Hnc]. assert (length (arp_ips st) = arps_size st) as Hlen.
  { unfold arp_ips. rewrite length_fmap, length_take. lia. }
  rewrite Hlen. split.
  - unfold pg_antispoof_arp_add. destruct (decide _) as [|Hne]; [done|].
    destruct (lookup_lt_is_Some_2 (arps st) (arps_size st)) as [cell Hcell]; [lia|].
    rewrite Hcell. cbn [mbind option_bind].
    set (new := mk_arp ip (reference_arp (packet cell) (mac st) ip)).
    assert (take (S (arps_size st)) (<[arps_size st := new]> (arps st))
      = take (arps_size st) (arps st) ++ [new]) as Htake.
    { rewrite (take_S_r _ _ new), take_insert_ge by
        (rewrite ?list_lookup_insert_eq by lia; done || lia). done. }
    split; [lia|]. split; [split; cbn [set_arps arps arps_size ndps ndps_size mac]|].
    + by rewrite length_insert.
    + lia.
    + rewrite Htake. apply Forall_app. split; [done|]. constructor; [|done]. by split.
    + done.
    + done.
    + done.
    + unfold arp_ips, ndp_ips. cbn [set_arps arps arps_size ndps ndps_size].
      by rewrite Htake, fmap_app.
  - unfold pg_antispoof_arp_del.
    destruct (find_cell_spec (λ a, arp_ip a =? ip) (arps st) 0 (arps_size st))
      as [(j&a&Hj&Hr&Hja&Hf)|[Hj HF]]; [lia|..]; rewrite Hj; cbn [mbind option_bind].
    + destruct (del_cell_perm (arps st) (arps_size st) j a) as (l'&Hdel&Hl'&Hp&HP); [lia..|done|].
      rewrite Hdel. cbn [mbind option_bind]. apply Z.eqb_eq in Hf.
      split_and!; [split; cbn [set_arps arps arps_size ndps ndps_size mac]; try done; try lia| |done].
      * rewrite <- Hp in Hc. by apply Forall_cons in Hc as [_ ?].
      * unfold arp_ips. cbn [set_arps arps arps_size]. rewrite <- Hp. cbn. by rewrite Hf.
    + rewrite drop_0 in HF. unfold arp_ips. intros (c&->&Hin)%list_elem_of_fmap.
      rewrite Forall_forall in HF. apply HF in Hin. by rewrite Z.eqb_refl in Hin.
Qed.

Lemma same_ipv6_eq a b :
  length a = 16%nat → length b = 16%nat → pg_is_same_ipv6 a b = true ↔ a = b.
Proof.
  intros Ha Hb. unfold pg_is_same_ipv6, same_bytes. rewrite bool_decide_eq_true.
  by rewrite !take_ge by lia.
Qed.

(** The table of authorised IPv6 addresses behaves as a bounded list of 16-byte
    addresses in the same way. *)
Theorem antispoof_ndp_table st ip :
  antispoof_ok st → length ip = 16%nat →
  match pg_antispoof_ndp_add st ip with
  | Some (inr st') => (length (ndp_ips st) < PG_NPD_MAX)%nat ∧ antispoof_ok st' ∧
      ndp_ips st' = ndp_ips st ++ [ip] ∧ arp_ips st' = arp_ips st
  | Some (inl _) => length (ndp_ips st) = PG_NPD_MAX
  | None => False
  end ∧
  match pg_antispoof_ndp_del st ip with
  | Some (inr st') => antispoof_ok st' ∧ ip :: ndp_ips st' ≡ₚ ndp_ips st ∧ arp_ips st' = arp_ips st
  | Some (inl _) => ip ∉ ndp_ips st
  | None => False
  end.
Proof.
  intros [Ha Hs Hc Hn Hns Hnc] Hip. assert (length (ndp_ips st) = ndps_size st) as Hlen.
  { unfold ndp_ips. rewrite length_take. lia. }
  rewrite Hlen. split.
  - unfold pg_antispoof_ndp_add. destruct (decide _) as [|Hne]; [done|].
    destruct (lookup_lt_is_Some_2 (ndps st) (ndps_size st)) as [cell Hcell]; [lia|].
    rewrite Hcell. cbn [mbind option_bind].
    pose proof (Forall_lookup_1 _ _ _ _ Hnc Hcell) as Hcl. cbn beta in Hcl.
    assert (pg_copy_ipv6 ip cell = ip) as ->.
    { unfold pg_copy_ipv6. rewrite take_ge, drop_ge by lia. apply app_nil_r. }
    split; [lia|]. split; [split; cbn [set_ndps arps arps_size ndps ndps_size mac]|].
    + done.
    + done.
    + done.
    + by rewrite length_insert.
    + lia.
    + by apply Forall_insert.
    + unfold arp_ips, ndp_ips. cbn [set_ndps arps arps_size ndps ndps_size]. split; [|done].
      rewrite (take_S_r _ _ ip), take_insert_ge by
        (rewrite ?list_lookup_insert_eq by lia; done || lia). done.
  - unfold pg_antispoof_ndp_del.
    destruct (find_cell_spec (λ a, pg_is_same_ipv6 a ip) (ndps st) 0 (ndps_size st))
      as [(j&a&Hj&Hr&Hja&Hf)|[Hj HF]]; [lia|..]; rewrite Hj; cbn [mbind option_bind].
    + destruct (del_cell_perm (ndps st) (ndps_size st) j a) as (l'&Hdel&Hl'&Hp&HP); [lia..|done|].
      rewrite Hdel. cbn [mbind option_bind].
      pose proof (Forall_lookup_1 _ _ _ _ Hnc Hja) as Hcl. cbn beta in Hcl.
      apply same_ipv6_eq in Hf as ->; [|done..].
      split_and!; [split; cbn [set_ndps arps arps_size ndps ndps_size mac]; try done; try lia| |done].
      * by apply HP.
      * done.
    + rewrite drop_0 in HF. unfold ndp_ips. intros Hin.
      rewrite Forall_forall in HF. apply HF in Hin.
      by rewrite (proj2 (same_ipv6_eq ip ip Hip Hip)) in Hin.
Qed.

(** ** What is let through *)

(** An ARP header that announces an authorised address. *)
Definition announces_arp (m : list Z) (ips : list Z) (l3 : list Z) : Prop :=
  ∃ ip, ip ∈ ips ∧ bytes_at l3 0 6 = Some [0; 1; 8; 0; 6; 4] ∧
    bytes_at l3 8 10 = Some (m ++ le32 ip).

(** A neighbour advertisement for an authorised address, sent from that address,
    whose link layer option holds the MAC address. *)
Definition announces_ndp (m : list Z) (ips : list (list Z)) (h6 na : list Z) : Prop :=
  ∃ ip, ip ∈ ips ∧ bytes_at h6 8 16 = Some ip ∧ bytes_at na 8 16 = Some ip ∧
    na !! 24%nat = Some 2 ∧ na !! 25%nat = Some 1 ∧ bytes_at na 26 6 = Some m.

(** The packets that may leave the inside. *)
Definition not_spoofed st (pkt : mbuf) (etype : Z) : Prop :=
  pg_util_get_ether_src_addr pkt = Some (mac st) ∧ etype ≠ PG_BE_ETHER_TYPE_RARP ∧
  (arp_enabled st = true → etype = PG_BE_ETHER_TYPE_ARP →
   announces_arp (mac st) (arp_ips st) (pg_utils_get_l3 pkt)) ∧
  (ndp_enabled st = true → etype = PG_BE_ETHER_TYPE_IPv6 →
   ∃ t off, pg_utils_get_ipv6_l4 pkt = Some (Some (t, off)) ∧
     let na := drop off (drop IPV6_HDR_SIZE (pg_utils_get_l3 pkt)) in
     (t = PG_IP_TYPE_ICMPV6 → na !! 0%nat = Some PG_ICMPV6_TYPE_NA →
      announces_ndp (mac st) (ndp_ips st) (pg_utils_get_l3 pkt) na)).

Lemma arp_loop_spec l i size a r :
  antispoof_arp_loop l i size a = Some r → (i + size ≤ length l)%nat →
  (r = 0 ∨ r = -1) ∧
  (r = 0 ↔ ∃ c, c ∈ take size (drop i l) ∧ bytes_at a 0 6 = Some (arp_part1 (packet c)) ∧
    bytes_at a 8 10 = Some (arp_part2 (packet c))).
Proof.
  revert i. induction size as [|size IH]; intros i; cbn [antispoof_arp_loop].
  { intros [= <-] _. split; [by right|]. split; [done|]. by intros (c&?%not_elem_of_nil&_). }
  intros (c&Hc&(a1&Ha1&H)%bind_Some)%bind_Some Hl. rewrite (drop_S l c i Hc). cbn [take].
  unfold same_bytes in H. case_bool_decide as H1.
  - apply bind_Some in H as (a2&Ha2&H). case_bool_decide as H2.
    + simplify_eq. split; [by left|]. split; [|done]. intros _. exists c. split; [left|done].
    + apply IH in H as [Hr Hiff]; [|lia]. split; [done|]. rewrite Hiff. setoid_rewrite elem_of_cons.
      split; [intros (c'&?&?&?); exists c'; auto|]. intros (c'&[->|?]&?&?); [congruence|eauto].
  - apply IH in H as [Hr Hiff]; [|lia]. split; [done|]. rewrite Hiff. setoid_rewrite elem_of_cons.
    split; [intros (c'&?&?&?); exists c'; auto|]. intros (c'&[->|?]&?&?); [congruence|eauto].
Qed.

Lemma antispoof_arp_spec st pkt r :
  antispoof_ok st → antispoof_arp st pkt = Some r →
  (r <? 0) = false ↔ announces_arp (mac st) (arp_ips st) (pg_utils_get_l3 pkt).
Proof.
  intros [Ha Hs Hc _ _ _] H. apply arp_loop_spec in H as [Hr Hiff]; [|lia].
  rewrite drop_0 in Hiff. rewrite Forall_forall in Hc.
  trans (r = 0); [rewrite Z.ltb_ge; lia|]. rewrite Hiff. unfold announces_arp, arp_ips. split.
  - intros (c&Hin&H1&H2). destruct (Hc c Hin) as [Hp1 Hp2]. exists (arp_ip c).
    rewrite <- Hp1, <- Hp2. split_and!; [|done..]. by apply list_elem_of_fmap_2.
  - intros (ip&(c&->&Hin)%list_elem_of_fmap&H1&H2). exists c.
    destruct (Hc c Hin) as [-> ->]. done.
Qed.

Lemma bytes_at_length d off n b : bytes_at d off n = Some b → length b = n.
Proof.
  unfold bytes_at. case_decide; [|done]. intros [= <-]. rewrite length_take, length_drop. lia.
Qed.

Lemma ndp_loop_spec l i size src na b :
  antispoof_ndp_loop l i size src na = Some b → (i + size ≤ length l)%nat →
  Forall (λ c, length c = 16%nat) l → length src = 16%nat →
  b = true ↔ src ∈ take size (drop i l) ∧ bytes_at na 8 16 = Some src.
Proof.
  intros H Hl HF Hsrc. revert i H Hl. induction size as [|size IH]; intros i;
    cbn [antispoof_ndp_loop].
  { intros [= <-] _. split; [done|]. by intros [?%not_elem_of_nil _]. }
  intros (c&Hc&H)%bind_Some Hl. rewrite (drop_S l c i Hc). cbn [take].
  pose proof (Forall_lookup_1 _ _ _ _ HF Hc) as Hlc. cbn beta in Hlc.
  pose proof (same_ipv6_eq src c Hsrc Hlc) as Hsame. rewrite elem_of_cons.
  destruct (pg_is_same_ipv6 src c).
  - assert (src = c) as <- by (by apply Hsame).
    apply bind_Some in H as (target&Ht&H). unfold same_bytes in H.
    rewrite take_ge in H by lia. case_bool_decide as Heq.
    + simplify_eq. split; [|done]. intros _. split; [by left|done].
    + apply IH in H as Hiff; [|lia]. rewrite Hiff. split; [intros []; auto|].
      intros [_ Ht']. congruence.
  - apply IH in H as Hiff; [|lia]. rewrite Hiff. split; [intros []; auto|].
    intros [[->|?] ?]; [|done]. by destruct Hsame as [_ ?%eq_sym]; [|].
Qed.

Lemma antispoof_ndp_spec st pkt r :
  antispoof_ok st → antispoof_ndp st pkt = Some r →
  (r <? 0) = false ↔ ∃ t off, pg_utils_get_ipv6_l4 pkt = Some (Some (t, off)) ∧
    let na := drop off (drop IPV6_HDR_SIZE (pg_utils_get_l3 pkt)) in
    (t = PG_IP_TYPE_ICMPV6 → na !! 0%nat = Some PG_ICMPV6_TYPE_NA →
     announces_ndp (mac st) (ndp_ips st) (pg_utils_get_l3 pkt) na).
Proof.
  intros [_ _ _ Hn Hns Hnc] (r4&H4&H)%bind_Some. rewrite H4.
  destruct r4 as [[t off]|]; [|simplify_eq; split; [done|by intros (?&?&?&_)]].
  cbv zeta in H. set (na := drop off (drop IPV6_HDR_SIZE (pg_utils_get_l3 pkt))) in *.
  set (A := announces_ndp (mac st) (ndp_ips st) (pg_utils_get_l3 pkt) na). trans ((t = PG_IP_TYPE_ICMPV6 → na !! 0%nat =
    Some PG_ICMPV6_TYPE_NA → A)); [|split; [by eauto|by intros (?&?&[= <- <-]&?)]].
  destruct (Z.eqb_spec t PG_IP_TYPE_ICMPV6) as [->|Hne]; cbn [negb] in H;
    [|simplify_eq; by split].
  apply bind_Some in H as (ty&Hty&H). rewrite Hty.
  destruct (Z.eqb_spec ty PG_ICMPV6_TYPE_NA) as [->|Hne]; cbn [negb] in H;
    [|simplify_eq; split; [by intros _ _ [= ->]|done]].
  apply bind_Some in H as (src&Hsrc&H). apply bind_Some in H as (b&Hb&H).
  apply ndp_loop_spec in Hb as Hiff; [|lia|done|by eapply bytes_at_length].
  rewrite drop_0 in Hiff. fold (ndp_ips st) in Hiff.
  trans A; [|by split; [|intros HA; apply HA]]. unfold A, announces_ndp.
  destruct b; cbn [negb] in H.
  - destruct (proj1 Hiff eq_refl) as [Hin Htgt].
    apply bind_Some in H as (lt&Hlt&H). destruct (Z.eqb_spec lt 2) as [->|]; cbn [negb] in H;
      [|simplify_eq; split; [done|intros (?&?&?&?&?&?&?); congruence]].
    apply bind_Some in H as (ll&Hll&H). destruct (Z.eqb_spec ll 1) as [->|]; cbn [negb] in H;
      [|simplify_eq; split; [done|intros (?&?&?&?&?&?&?); congruence]].
    apply bind_Some in H as (la&Hla&H). unfold same_bytes in H. case_bool_decide; simplify_eq.
    + split; [|done]. intros _. exists src. split_and!; done.
    + split; [done|]. intros (?&?&?&?&?&?&?). congruence.
  - simplify_eq. split; [done|]. intros (ip&Hin&Hs&Htg&_).
    assert (ip = src) as -> by congruence. exfalso.
    by assert (false = true) by (by apply Hiff).
Qed.

(** The verdict of the loop on one packet. *)
Lemma antispoof_reject_spec st pkt etype b :
  antispoof_ok st → pg_utils_get_ether_type pkt = Some etype →
  antispoof_reject st pkt = Some b → b = false ↔ not_spoofed st pkt etype.
Proof.
  intros Hok He (src&Hsrc&H)%bind_Some. rewrite He in H. cbn [mbind option_bind] in H.
  unfold not_spoofed, same_bytes in *. rewrite Hsrc.
  case_bool_decide as Hmac; cbn [negb] in H; [subst src|simplify_eq; naive_solver].
  destruct (Z.eqb_spec etype PG_BE_ETHER_TYPE_RARP) as [->|Hr]; [simplify_eq; naive_solver|].
  apply bind_Some in H as (bad&Hbad&H).
  assert (bad = false ↔ (arp_enabled st = true → etype = PG_BE_ETHER_TYPE_ARP →
    announces_arp (mac st) (arp_ips st) (pg_utils_get_l3 pkt))) as Harp.
  { destruct (arp_enabled st); cbn [andb] in Hbad; [|simplify_eq; naive_solver].
    destruct (Z.eqb_spec etype PG_BE_ETHER_TYPE_ARP); [|simplify_eq; naive_solver].
    apply bind_Some in Hbad as (r&Har&[= <-]). rewrite (antispoof_arp_spec st pkt r Hok Har).
    split; [by intros|auto]. }
  destruct bad; [simplify_eq; split; [done|]; intros (_&_&Ha&_); by apply Harp in Ha|].
  assert (b = false ↔ (ndp_enabled st = true → etype = PG_BE_ETHER_TYPE_IPv6 →
   ∃ t off, pg_utils_get_ipv6_l4 pkt = Some (Some (t, off)) ∧
     let na := drop off (drop IPV6_HDR_SIZE (pg_utils_get_l3 pkt)) in
     (t = PG_IP_TYPE_ICMPV6 → na !! 0%nat = Some PG_ICMPV6_TYPE_NA →
      announces_ndp (mac st) (ndp_ips st) (pg_utils_get_l3 pkt) na))) as Hndp.
  { destruct (ndp_enabled st); cbn [andb] in H; [|simplify_eq; by split].
    destruct (Z.eqb_spec etype PG_BE_ETHER_TYPE_IPv6); [|simplify_eq; by split].
    apply bind_Some in H as (r&Hn&[= <-]). rewrite (antispoof_ndp_spec st pkt r Hok Hn).
    split; [by intros|auto]. }
  rewrite Hndp. split; [intros ?|by intros (_&_&_&?)]. split_and!; [done|done|by apply Harp|done].
Qed.

Lemma antispoof_loop_spec {W} st (pkts : pkts_t) l m (verdict : nat → bool) (fl : flow W) :
  is_mask m → Forall (λ j, (j < 64)%nat) l →
  (∀ j, j ∈ l → ∃ p v, pkts !! j = Some p ∧ fl_mem fl !! p = Some v ∧
    antispoof_reject st v = Some (verdict j)) →
  ∃ m', antispoof_loop st pkts l m fl = Some (m', fl) ∧ is_mask m' ∧
    ∀ j, mask_has m' j = true ↔ mask_has m j = true ∧ (j ∈ l → verdict j = false).
Proof.
  revert m. induction l as [|i l IH]; intros m Hm HF Hv; cbn [antispoof_loop].
  { exists m. split_and!; [done..|]. intros j. split; [|by intros []].
    intros. split; [done|]. by intros ?%not_elem_of_nil. }
  apply Forall_cons in HF as [Hi HF].
  destruct (Hv i) as (p&v&Hp&Hpv&Hrej); [left|]. rewrite Hp. cbn [unwrap]. rewrite M_bind_ret.
  unfold load_pkt. rewrite M_bind_assoc. unfold mbind at 1, M_bind at 1, gets. rewrite Hpv.
  cbn [unwrap]. rewrite M_bind_ret, Hrej. cbn [unwrap]. rewrite M_bind_ret.
  set (m1 := if verdict i then _ else m).
  assert (is_mask m1) as Hm1 by (unfold m1; destruct (verdict i); [by apply is_mask_land|done]).
  destruct (IH m1 Hm1 HF) as (m'&Hr&Hm'&Hiff); [intros j Hj; apply Hv; by right|].
  exists m'. split_and!; [done..|]. intros j. rewrite Hiff. unfold m1.
  rewrite elem_of_cons. destruct (verdict i) eqn:Hvi.
  - rewrite mask_has_clear, mask_has_bit, andb_true_iff, negb_true_iff, bool_decide_eq_false
      by done. split.
    + intros [[? Hne] Hl]. split; [done|]. intros [->|?]; [done|auto].
    + intros [Hj Hl]. split; [|auto]. split; [done|]. intros <-. by rewrite Hl in Hvi by auto.
  - split; [intros [? ?]|intros [? ?]]; split; auto. by intros [->|?]; auto.
Qed.

(** C35: from the inside, the brick sends on exactly the packets that are not spoofed:
    right source MAC address, no RARP, and, when the checks are enabled, ARP and
    neighbour advertisements for authorised addresses only; nothing is sent when none
    is left, and the result is the neighbour's. *)
Theorem antispoof_burst_filters {W} `{!Dispatch W} st s e from (pkts : pkts_t) mask
    (fl : flow W) :
  antispoof_ok st → is_mask mask → outside st ≠ from → side_edges s = Edge e →
  (∀ j, mask_has mask j = true → ∃ p v, pkts !! j = Some p ∧ fl_mem fl !! p = Some v ∧
    is_Some (antispoof_reject st v)) →
  ∃ m, is_mask m ∧
    antispoof_burst st s from pkts mask fl
    = (if m =? 0 then Some (0, fl)
       else pg_brick_burst (link e) from (pair_index e) pkts m fl) ∧
    ∀ j, mask_has m j = true ↔ mask_has mask j = true ∧ ∃ p v etype,
      pkts !! j = Some p ∧ fl_mem fl !! p = Some v ∧
      pg_utils_get_ether_type v = Some etype ∧ not_spoofed st v etype.
Proof.
  intros Hok Hm Hout He Hpk.
  set (verdict := λ j, default true (p ← pkts !! j; v ← fl_mem fl !! p; antispoof_reject st v)).
  destruct (antispoof_loop_spec st pkts (PG_FOREACH_BIT mask) mask verdict fl)
    as (m&Hr&Hm'&Hiff); [done|..].
  { apply Forall_forall. intros j Hj%elem_of_foreach; [|done]. by apply (mask_has_lt mask). }
  { intros j Hj%elem_of_foreach; [|done]. destruct (Hpk j Hj) as (p&v&Hp&Hv&b&Hb).
    exists p, v. split_and!; [done..|]. unfold verdict. rewrite Hp. cbn [mbind option_bind].
    rewrite Hv. cbn [mbind option_bind]. by rewrite Hb. }
  exists m. split_and!; [done|..].
  - unfold antispoof_burst. rewrite decide_False by done. unfold mbind at 1, M_bind at 1.
    rewrite Hr. destruct (m =? 0); [done|]. unfold edge_of. rewrite He. done.
  - intros j. rewrite Hiff. split; intros [Hj H]; (split; [done|]).
    + rewrite elem_of_foreach in H by done. specialize (H Hj).
      destruct (Hpk j Hj) as (p&v&Hp&Hv&b&Hb). pose proof Hb as (src&_&H2)%bind_Some.
      apply bind_Some in H2 as (etype&Het&_). exists p, v, etype. split_and!; [done..|].
      apply (antispoof_reject_spec st v etype b); [done..|].
      unfold verdict in H. rewrite Hp in H. cbn [mbind option_bind] in H.
      rewrite Hv in H. cbn [mbind option_bind] in H. by rewrite Hb in H.
    + intros _. destruct H as (p&v&etype&Hp&Hv&Het&Hns).
      destruct (Hpk j Hj) as (p'&v'&Hp'&Hv'&b&Hb). simplify_eq.
      unfold verdict. rewrite Hp. cbn [mbind option_bind]. rewrite Hv. cbn [mbind option_bind].
      rewrite Hb. cbn. by apply (antispoof_reject_spec st v etype b).
Qed.

(** From the outside, every packet passes. *)
Lemma antispoof_outside_passes {W} `{!Dispatch W} st s e from (pkts : pkts_t) mask
    (fl : flow W) :
  outside st = from → side_edges s = Edge e →
  antispoof_burst st s from pkts mask fl
  = pg_brick_burst (link e) from (pair_index e) pkts mask fl.
Proof.
  intros Hout He. unfold antispoof_burst. rewrite decide_True by done. unfold edge_of.
  by rewrite He.
Qed.

(** ** Witnesses *)

Definition demo_mac : list Z := [2; 0; 0; 0; 0; 1].

Definition demo_antispoof : pg_antispoof_state :=
  antispoof_init (antispoof_config_new "antispoof" PG_WEST_SIDE demo_mac).

Lemma antispoof_init_ok config : antispoof_ok (antispoof_init config).
Proof.
  split; cbn [antispoof_init arps arps_size ndps ndps_size mac].
  - apply length_replicate.
  - lia.
  - constructor.
  - apply length_replicate.
  - lia.
  - apply Forall_replicate. done.
Qed.

Lemma antispoof_arp_table_witness :
  match pg_antispoof_arp_add demo_antispoof 0x0100000a with
  | Some (inr st') => arp_ips st' = [0x0100000a] | _ => False end.
Proof.
  pose proof (antispoof_arp_table demo_antispoof 0x0100000a (antispoof_init_ok _)) as [H _].
  destruct (pg_antispoof_arp_add demo_antispoof 0x0100000a) as [[err|st']|] eqn:Ha.
  - by vm_compute in H.
  - by destruct H as (_&_&->&_).
  - done.
Defined.

Lemma antispoof_ndp_table_witness :
  match pg_antispoof_ndp_del demo_antispoof (replicate 16 1) with
  | Some (inl e) => replicate 16 1 ∉ ndp_ips demo_antispoof | _ => False end.
Proof.
  pose proof (antispoof_ndp_table demo_antispoof (replicate 16 1) (antispoof_init_ok _) eq_refl)
    as [_ H].
  destruct (pg_antispoof_ndp_del demo_antispoof (replicate 16 1)) as [[err|st']|] eqn:Ha.
  - done.
  - by vm_compute in Ha.
  - done.
Defined.

(** A packet from the right address and one from another. *)
Definition spoof_flow : flow (list burst_call) :=
  mk_flow {[5%positive := mk_mbuf (replicate 6 9 ++ demo_mac ++ [8; 0]) 14 14 0 0 0 1;
            6%positive := mk_mbuf (replicate 12 9 ++ [8; 0]) 14 14 0 0 0 1]} ∅ None [].

Lemma antispoof_burst_filters_witness :
  ∃ m, antispoof_burst (D := recorder) demo_antispoof
      (mk_side 1 1 (Edge (mk_edge (Some 9%positive) 0))) PG_EAST_SIDE
      [5%positive; 6%positive] 3 spoof_flow
    = (if m =? 0 then Some (0, spoof_flow)
       else pg_brick_burst (D := recorder) (Some 9%positive) PG_EAST_SIDE 0
              [5%positive; 6%positive] m spoof_flow) ∧
    mask_has m 0 = true.
Proof.
  destruct (antispoof_burst_filters (Dispatch0 := recorder) demo_antispoof
    (mk_side 1 1 (Edge (mk_edge (Some 9%positive) 0))) (mk_edge (Some 9%positive) 0) PG_EAST_SIDE
    [5%positive; 6%positive] 3 spoof_flow) as (m&_&Hr&Hiff).
  - apply antispoof_init_ok.
  - unfold is_mask. lia.
  - done.
  - done.
  - intros j Hj. apply elem_of_foreach in Hj; [|unfold is_mask; lia].
    change (PG_FOREACH_BIT 3) with [0; 1]%nat in Hj.
    apply elem_of_cons in Hj as [->|Hj]; [|apply list_elem_of_singleton in Hj as ->];
      eexists _, _; (split; [reflexivity|]); (split; [vm_compute; reflexivity|]);
      vm_compute; eauto.
  - exists m. split; [exact Hr|]. apply Hiff. split; [by vm_compute|].
    eexists 5%positive, _, _. split; [done|]. split; [vm_compute; reflexivity|].
    split; [vm_compute; reflexivity|]. by vm_compute.
Defined.
