(* ===== verification/UdpFilter.v ===== *)
(** * The UDP filter brick ([src/udp-filter.c])

    A brick with one port per filter and a default port on its output side: packets
    that come from the other side go to the port of the first filter whose UDP ports
    they match. *)

From S2P Require Import Prelude Bitmask Common Brick BrickInv Burst Packets Network.

(** [struct pg_udp_filter_info]. *)
Record pg_udp_filter_info := mk_filter {
  udp_src_port : Z;
  udp_dst_port : Z;
  flag : Z;
}.

Definition PG_USP_FILTER_DST_PORT : Z := Z.shiftl 1 0.
Definition PG_USP_FILTER_SRC_PORT : Z := Z.shiftl 1 1.

(** [struct pg_udp_filter_config] and [struct pg_udp_filter_state]; [nb_filters] is
    the length of the list. *)
Record pg_udp_filter_config := mk_udp_config { cfg_to : pg_side; ports : list pg_udp_filter_info }.
Record pg_udp_filter_state := mk_udp_filter { to : pg_side; filters : list pg_udp_filter_info }.

(** [udp_filter_init] stores the ports in network order. *)
Definition udp_filter_init (config : pg_brick_config pg_udp_filter_config) : pg_udp_filter_state :=
  let fc := brick_config config in
  mk_udp_filter (cfg_to fc) ((λ p, mk_filter (PG_CPU_TO_BE_16 (udp_src_port p))
    (PG_CPU_TO_BE_16 (udp_dst_port p)) (flag p)) <$> ports fc).

(** [config_new], and the configuration that [pg_udp_filter_new] makes. *)
Definition udp_config_new (name : string) (west_max east_max : Z) (output : pg_side)
    (filters : list pg_udp_filter_info) : pg_brick_config pg_udp_filter_config :=
  pg_brick_config_init (mk_udp_config output filters) name west_max east_max PG_MULTIPOLE.

Definition pg_udp_filter_new (name : string) (ports : option (list pg_udp_filter_info))
    (output : pg_side) : pg_error + pg_brick_config pg_udp_filter_config :=
  match ports with
  | None => inl (pg_error_new "port is NULL")
  | Some ports =>
      let n := Z.of_nat (length ports) in
      let nb_east := if decide (output = PG_EAST_SIDE) then n + 1 else 1 in
      let nb_west := if decide (output = PG_WEST_SIDE) then n + 1 else 1 in
      inr (udp_config_new name nb_west nb_east output ports)
  end.

(** The fields of [struct header] that are read. *)
Definition hdr_ether_type (d : list Z) : option Z := load16 d 12.
Definition hdr_next_proto (d : list Z) : option Z := d !! 23%nat.
Definition hdr_src_port (d : list Z) : option Z := load16 d 34.
Definition hdr_dst_port (d : list Z) : option Z := load16 d 36.

(** The test of the default case. *)
Definition not_ipv4_udp (d : list Z) : option bool :=
  ty ← hdr_ether_type d;
  if negb (ty =? PG_BE_ETHER_TYPE_IPv4) then Some true
  else proto ← hdr_next_proto d; Some (negb (proto =? PG_UDP_PROTOCOL_NUMBER)).

(** Whether a packet matches a filter. *)
Definition filter_match (f : pg_udp_filter_info) (d : list Z) : option bool :=
  dst ← (if negb (Z.land (flag f) PG_USP_FILTER_DST_PORT =? 0)
         then p ← hdr_dst_port d; Some (p =? udp_dst_port f) else Some false);
  if dst : bool then Some true
  else if negb (Z.land (flag f) PG_USP_FILTER_SRC_PORT =? 0)
  then p ← hdr_src_port d; Some (p =? udp_src_port f)
  else Some false.

(** The loop over the filters: the index of the first that matches. *)
Fixpoint match_filters (l : list pg_udp_filter_info) (j : nat) (d : list Z)
    : option (option nat) :=
  match l with
  | [] => Some None
  | f :: l =>
      b ← filter_match f d;
      if b : bool then Some (Some j) else match_filters l (S j) d
  end.

(** [port_mask[k] |= 1LLU << i]. *)
Definition mark (port_mask : list Z) (k i : nat) : option (list Z) :=
  m ← port_mask !! k;
  Some (<[k := Z.lor m (Z.shiftl ONE64 (Z.of_nat i))]> port_mask).

(** One turn of the loop over the packets. *)
Definition mark_pkt (fs : list pg_udp_filter_info) (d : list Z) (i : nat) (port_mask : list Z)
    : option (list Z) :=
  other ← not_ipv4_udp d;
  port_mask ← (if other : bool then mark port_mask 0 i else Some port_mask);
  r ← match_filters fs 0 d;
  match r with
  | Some j => mark port_mask (j + 1) i
  | None => mark port_mask 0 i
  end.

Section UdpFilter.

Context {W : Type} `{D : !Dispatch W}.
Implicit Types (pkts : pkts_t).

Fixpoint mark_loop (fs : list pg_udp_filter_info) pkts (l : list nat) (port_mask : list Z)
    : M (flow W) (list Z) :=
  match l with
  | [] => mret port_mask
  | i :: l =>
      p ← unwrap (pkts !! i);
      v ← load_pkt p;
      port_mask ← unwrap (mark_pkt fs (data v) i port_mask);
      mark_loop fs pkts l port_mask
  end.

Fixpoint send_loop (s : pg_brick_side) (from : pg_side) pkts (i : nat) (masks : list Z)
    : M (flow W) Z :=
  match masks with
  | [] => mret 0
  | m :: masks =>
      e ← edges_at s i;
      ret ← pg_brick_burst (link e) from (pair_index e) pkts m;
      if ret <? 0 then mret ret else send_loop s from pkts (S i) masks
  end.

(** [udp_filter_burst]; [s] is the side opposite to [from]. *)
Definition udp_filter_burst (st : pg_udp_filter_state) (s : pg_brick_side) (from : pg_side)
    pkts (pkts_mask : Z) : M (flow W) Z :=
  let nb_ports := (length (filters st) + 1)%nat in
  if decide (from = to st) then pg_brick_side_forward s from pkts pkts_mask
  else
    port_mask ← mark_loop (filters st) pkts (PG_FOREACH_BIT pkts_mask) (replicate nb_ports 0);
    send_loop s from pkts 0 port_mask.

End UdpFilter.

(** ** Where the packets go *)

(** The port of a packet: one more than the first filter it matches, or the default
    port. *)
Definition port_of (fs : list pg_udp_filter_info) (d : list Z) : option nat :=
  r ← match_filters fs 0 d;
  Some (match r with Some j => (j + 1)%nat | None => 0%nat end).

(** The ports a packet is marked for. *)
Definition goes_to (fs : list pg_udp_filter_info) (d : list Z) (k : nat) : Prop :=
  port_of fs d = Some k ∨ (k = 0%nat ∧ not_ipv4_udp d = Some true).

Lemma match_filters_range l j d k :
  match_filters l j d = Some (Some k) → (j ≤ k < j + length l)%nat.
Proof.
  revert j. induction l as [|f l IH]; intros j; cbn [match_filters length]; [done|].
  intros (b&_&H)%bind_Some. destruct b; [simplify_eq; lia|]. apply IH in H. lia.
Qed.

Lemma mark_spec pm k i :
  (k < length pm)%nat → Forall is_mask pm → (i < 64)%nat →
  ∃ pm', mark pm k i = Some pm' ∧ length pm' = length pm ∧ Forall is_mask pm' ∧
    ∀ k' m', pm' !! k' = Some m' → ∃ m, pm !! k' = Some m ∧
      ∀ j, mask_has m' j = true ↔ mask_has m j = true ∨ (k' = k ∧ j = i).
Proof.
  intros Hk HF Hi. unfold mark. destruct (lookup_lt_is_Some_2 pm k Hk) as [m Hm].
  rewrite Hm. cbn [mbind option_bind]. eexists. split; [done|].
  split; [by rewrite length_insert|]. split.
  - apply Forall_insert; [done|]. apply is_mask_lor; [by eapply Forall_lookup_1|].
    by apply is_mask_bit.
  - intros k' m'. destruct (decide (k' = k)) as [->|Hne].
    + rewrite list_lookup_insert_eq by done. intros [= <-]. exists m. split; [done|].
      intros j. rewrite mask_has_lor, mask_has_bit, orb_true_iff, bool_decide_eq_true.
      naive_solver.
    + rewrite list_lookup_insert_ne by done. intros Hm'. exists m'. split; [done|].
      intros j. split; [auto|]. by intros [?|[? ?]].
Qed.

Lemma mark_pkt_spec fs d i pm :
  length pm = (length fs + 1)%nat → Forall is_mask pm → (i < 64)%nat →
  is_Some (not_ipv4_udp d) → is_Some (port_of fs d) →
  ∃ pm', mark_pkt fs d i pm = Some pm' ∧ length pm' = length pm ∧ Forall is_mask pm' ∧
    ∀ k m', pm' !! k = Some m' → ∃ m, pm !! k = Some m ∧
      ∀ j, mask_has m' j = true ↔ mask_has m j = true ∨ (j = i ∧ goes_to fs d k).
Proof.
  intros Hl HF Hi [other Hother] [port Hport]. unfold mark_pkt. rewrite Hother.
  cbn [mbind option_bind].
  assert (∃ pm1, (if other then mark pm 0 i else Some pm) = Some pm1 ∧ length pm1 = length pm ∧
    Forall is_mask pm1 ∧ ∀ k m', pm1 !! k = Some m' → ∃ m, pm !! k = Some m ∧
      ∀ j, mask_has m' j = true ↔ mask_has m j = true ∨ (j = i ∧ k = 0%nat ∧ other = true))
    as (pm1&Hpm1&Hl1&HF1&Hm1).
  { destruct other.
    - destruct (mark_spec pm 0 i) as (pm1&?&?&?&Hm); [lia|done..|]. exists pm1.
      split_and!; [done..|]. intros k m' Hk. destruct (Hm k m' Hk) as (m&?&Hiff).
      exists m. split; [done|]. intros j. rewrite Hiff. naive_solver.
    - exists pm. split_and!; [done..|]. intros k m' Hk. exists m'. split; [done|].
      intros j. naive_solver. }
  rewrite Hpm1. cbn [mbind option_bind].
  pose proof Hport as (r&Hr&Hp)%bind_Some. rewrite Hr. cbn [mbind option_bind].
  assert ((port < length pm1)%nat) as Hrange.
  { destruct r as [j|]; simplify_eq; [apply match_filters_range in Hr|]; lia. }
  assert (match r with Some j => mark pm1 (j + 1) i | None => mark pm1 0 i end
    = mark pm1 port i) as -> by (destruct r; congruence).
  destruct (mark_spec pm1 port i Hrange HF1 Hi) as (pm'&Hpm'&Hl'&HF'&Hm').
  exists pm'. split_and!; [done|lia|done|]. intros k m' Hk.
  destruct (Hm' k m' Hk) as (m&Hm&Hiff). destruct (Hm1 k m Hm) as (m0&Hm0&Hiff0).
  exists m0. split; [done|]. intros j. rewrite Hiff, Hiff0. unfold goes_to. naive_solver.
Qed.

Lemma mark_loop_spec {W} fs (pkts : pkts_t) l pm (fl : flow W) :
  length pm = (length fs + 1)%nat → Forall is_mask pm → Forall (λ i, (i < 64)%nat) l →
  (∀ j, j ∈ l → ∃ p v, pkts !! j = Some p ∧ fl_mem fl !! p = Some v ∧
    is_Some (not_ipv4_udp (data v)) ∧ is_Some (port_of fs (data v))) →
  ∃ pm', mark_loop fs pkts l pm fl = Some (pm', fl) ∧ length pm' = length pm ∧
    Forall is_mask pm' ∧
    ∀ k m', pm' !! k = Some m' → ∃ m, pm !! k = Some m ∧
      ∀ j, mask_has m' j = true ↔ mask_has m j = true ∨
        (j ∈ l ∧ ∃ p v, pkts !! j = Some p ∧ fl_mem fl !! p = Some v ∧ goes_to fs (data v) k).
Proof.
  revert pm. induction l as [|i l IH]; intros pm Hl HF HFl Hv; cbn [mark_loop].
  { exists pm. split_and!; [done..|]. intros k m' Hk. exists m'. split; [done|]. intros j.
    split; [auto|]. by intros [?|[?%not_elem_of_nil _]]. }
  apply Forall_cons in HFl as [Hi HFl].
  destruct (Hv i) as (p&v&Hp&Hpv&Ho&Hport); [left|]. rewrite Hp. cbn [unwrap]. rewrite M_bind_ret.
  unfold load_pkt. rewrite M_bind_assoc. unfold mbind at 1, M_bind at 1, gets. rewrite Hpv.
  cbn [unwrap]. rewrite M_bind_ret.
  destruct (mark_pkt_spec fs (data v) i pm) as (pm1&->&Hl1&HF1&Hm1); [done..|].
  cbn [unwrap]. rewrite M_bind_ret.
  destruct (IH pm1) as (pm'&Hr&Hl'&HF'&Hm'); [lia|done|done|intros j Hj; apply Hv; by right|].
  exists pm'. split_and!; [done|lia|done|]. intros k m' Hk.
  destruct (Hm' k m' Hk) as (m&Hm&Hiff). destruct (Hm1 k m Hm) as (m0&Hm0&Hiff0).
  exists m0. split; [done|]. intros j. rewrite Hiff, Hiff0, elem_of_cons. split.
  - intros [[?|[-> ?]]|[? ?]]; [by left|right|right]; [|by split; [right|]].
    split; [by left|]. by exists p, v.
  - intros [?|[[->|?] (p'&v'&?&?&?)]]; [by left; left| |].
    + simplify_eq. left. by right.
    + right. split; [done|]. by exists p', v'.
Qed.

(** From the unfiltered side, the brick sends one burst per port, in port order,
    stopping at the first failure; the burst of a port holds exactly the packets
    whose first matching filter is that port's, the default port those that match
    none, plus the packets that are not UDP over IPv4. *)
Theorem udp_filter_dispatch {W} `{!Dispatch W} st s from (pkts : pkts_t) mask (fl : flow W) :
  is_mask mask → from ≠ to st →
  (∀ j, mask_has mask j = true → ∃ p v, pkts !! j = Some p ∧ fl_mem fl !! p = Some v ∧
    is_Some (not_ipv4_udp (data v)) ∧ is_Some (port_of (filters st) (data v))) →
  ∃ masks, udp_filter_burst st s from pkts mask fl = send_loop s from pkts 0 masks fl ∧
    length masks = (length (filters st) + 1)%nat ∧
    ∀ k m, masks !! k = Some m → is_mask m ∧
      ∀ j, mask_has m j = true ↔ mask_has mask j = true ∧
        ∃ p v, pkts !! j = Some p ∧ fl_mem fl !! p = Some v ∧ goes_to (filters st) (data v) k.
Proof.
  intros Hm Hto Hv. set (n := (length (filters st) + 1)%nat).
  destruct (mark_loop_spec (filters st) pkts (PG_FOREACH_BIT mask) (replicate n 0) fl)
    as (pm'&Hr&Hl&HF&Hpm).
  - apply length_replicate.
  - apply Forall_replicate. apply is_mask_0.
  - apply Forall_forall. intros j Hj%elem_of_foreach; [|done]. by apply (mask_has_lt mask).
  - intros j Hj%elem_of_foreach; [|done]. by apply Hv.
  - exists pm'. split_and!.
    + unfold udp_filter_burst. rewrite decide_False by done. fold n.
      unfold mbind, M_bind. by rewrite Hr.
    + by rewrite Hl, length_replicate.
    + intros k m Hk. split; [by eapply Forall_lookup_1|].
      destruct (Hpm k m Hk) as (m0&Hm0&Hiff). apply lookup_replicate in Hm0 as [-> _].
      intros j. rewrite Hiff, mask_has_0, elem_of_foreach by done. naive_solver.
Qed.

(** A UDP packet is sent to one port only. *)
Lemma udp_goes_to_one fs d k k' :
  not_ipv4_udp d = Some false → goes_to fs d k → goes_to fs d k' → k = k'.
Proof. unfold goes_to. naive_solver. Qed.

(** ** A packet that is sent twice *)

(** A TCP packet to port 53, and a filter on that UDP port. *)
Definition tcp_flow : flow (list burst_call) :=
  mk_flow {[5%positive := mk_mbuf (replicate 12 0 ++ [8; 0] ++ replicate 9 0 ++ [6]
    ++ replicate 12 0 ++ [0; 53]) 38 14 20 0 0 1]} ∅ None [].

Definition dns_filter : pg_udp_filter_state :=
  udp_filter_init (udp_config_new "filter" 1 2 PG_EAST_SIDE [mk_filter 0 53 1]).

Definition two_ports : pg_brick_side :=
  mk_side 2 2 (Edges [mk_edge (Some 7%positive) 0; mk_edge (Some 8%positive) 0]).

(** A packet that is not UDP is sent to the default port and, when the bytes at
    the place of the UDP ports match a filter, to the port of that filter too. *)
Theorem udp_filter_duplicates :
  bc_to <$> filter (λ c, mask_has (bc_mask c) 0 = true)
    (recorded (udp_filter_burst (D := recorder) dns_filter two_ports PG_WEST_SIDE [5%positive] 1
       tcp_flow))
  = [Some 7%positive; Some 8%positive].
Proof. by vm_compute. Qed.

(** ** Witnesses *)

Definition udp_flow : flow (list burst_call) :=
  mk_flow {[5%positive := mk_mbuf (replicate 12 0 ++ [8; 0] ++ replicate 9 0 ++ [17]
    ++ replicate 12 0 ++ [0; 53]) 38 14 20 0 0 1]} ∅ None [].

Lemma udp_filter_dispatch_witness :
  ∃ masks, udp_filter_burst (D := recorder) dns_filter two_ports PG_WEST_SIDE [5%positive] 1 udp_flow
    = send_loop (D := recorder) two_ports PG_WEST_SIDE [5%positive] 0 masks udp_flow ∧
    length masks = 2%nat.
Proof.
  destruct (udp_filter_dispatch (Dispatch0 := recorder) dns_filter two_ports PG_WEST_SIDE
    [5%positive] 1 udp_flow) as (masks&Hr&Hl&_).
  - unfold is_mask. lia.
  - done.
  - intros j Hj. apply elem_of_foreach in Hj; [|unfold is_mask; lia].
    change (PG_FOREACH_BIT 1) with [0%nat] in Hj. apply list_elem_of_singleton in Hj as ->.
    eexists _, _. split; [reflexivity|]. split; [vm_compute; reflexivity|].
    split; vm_compute; eauto.
  - by exists masks.
Defined.
