(* ===== verification/Endpoints.v ===== *)
(** * Collect, fail and rxtx ([src/collect.c], [src/fail.c], [src/rxtx.c])

    Monopoles at the ends of a graph: one keeps a copy of the last burst of each
    side, one refuses every burst, one exchanges packets with callbacks of the user. *)

From S2P Require Import Prelude Bitmask Common Brick BrickInv Burst Packets Network.

(** ** Collect *)

Module Collect.

(** [struct pg_collect_state]; a cell that was never written holds the NULL it was
    allocated with. *)
Record pg_collect_state := mk_collect {
  c_pkts : pg_side → pkts_t;
  c_mask : pg_side → Z;
  c_output : pg_side;
}.

Definition upd {A} (f : pg_side → A) (s : pg_side) (a : A) : pg_side → A :=
  λ s', if decide (s' = s) then a else f s'.

(** The state as allocated; [null] is the NULL pointer. *)
Definition collect_init (null : mptr) : pg_collect_state :=
  mk_collect (λ _, replicate PG_MAX_PKTS_BURST null) (λ _, 0) PG_WEST_SIDE.

(** [rte_pktmbuf_clone(p, pg_get_mempool())] of DPDK; [None] is NULL. *)
Class CloneLib (W : Type) := pktmbuf_clone : mptr → M (flow W) (option mptr).

Section Collect.

Context {W : Type} `{!PktLib W, !CloneLib W}.
(** [__builtin_clzll(0)], which has no defined value. *)
Context (clz_of_0 : Z).
Implicit Types st : pg_collect_state.

Definition last_bit_pos (m : Z) : Z := if m =? 0 then 64 - clz_of_0 else pg_last_bit_pos m.

(** The loop that fills [collector]. *)
Fixpoint clone_loop (pkts : pkts_t) (l : list nat) (collector : pkts_t) : M (flow W) pkts_t :=
  match l with
  | [] => mret collector
  | it :: l =>
      p ← unwrap (pkts !! it);
      c ← pktmbuf_clone p;
      c ← unwrap c;
      v ← load_pkt p;
      w ← load_pkt c;
      store_pkt c (mk_mbuf (data w) (pkt_len w) (l2_len w) (l3_len w) (l4_len w)
        (udata64 v) (refcnt w));;
      if decide (it < length collector)%nat then clone_loop pkts l (<[it := c]> collector)
      else crash
  end.

Definition collect_burst st (from : pg_side) (pkts : pkts_t) (pkts_mask : Z)
    : M (flow W) (Z * pg_collect_state) :=
  if Z.of_nat PG_MAX_PKTS_BURST <? last_bit_pos pkts_mask then
    flow_error (pg_error_new "Burst too big");; mret (-1, st)
  else
    (if negb (c_mask st from =? 0) then pg_packets_free (c_pkts st from) (c_mask st from)
     else mret tt);;
    let masks := upd (c_mask st) from pkts_mask in
    collector ← clone_loop pkts (PG_FOREACH_BIT pkts_mask) (c_pkts st from);
    mret (0, mk_collect (upd (c_pkts st) from collector) masks (c_output st)).

(** [collect_burst_get]. *)
Definition collect_burst_get st (side : pg_side) : option pkts_t * Z :=
  if c_mask st side =? 0 then (None, 0) else (Some (c_pkts st side), c_mask st side).

Fixpoint free_sides st (l : list pg_side) : M (flow W) unit :=
  match l with
  | [] => mret tt
  | s :: l =>
      (if c_mask st s =? 0 then mret tt else pg_packets_free (c_pkts st s) (c_mask st s));;
      free_sides st l
  end.

Definition collect_destroy st : M (flow W) unit := free_sides st all_sides.

(** [collect_reset]: frees and clears each side. *)
Definition collect_reset st : M (flow W) (Z * pg_collect_state) :=
  free_sides st all_sides;;
  mret (0, mk_collect (c_pkts st) (λ _, 0) (c_output st)).

Definition collect_link st (side : pg_side) : pg_collect_state :=
  mk_collect (c_pkts st) (c_mask st) (pg_flip_side side).
Definition collect_get_side st : pg_side := pg_flip_side (c_output st).

End Collect.

(** The documented behaviour of a clone: a new packet with the bytes and the lengths
    of the original and one reference; nothing else changes for the program. *)
Class CloneLaws (W : Type) `{!CloneLib W} : Prop :=
  law_clone (fl : flow W) p v :
    fl_mem fl !! p = Some v →
    pktmbuf_clone p fl = Some (None, fl) ∨
    ∃ q u, fl_mem fl !! q = None ∧ pktmbuf_clone p fl = Some (Some q, set_mem fl
      (<[q := mk_mbuf (data v) (pkt_len v) (l2_len v) (l3_len v) (l4_len v) u 1]> (fl_mem fl))).

(** The copy of a packet: everything but the number of references. *)
Definition copy_of (v w : mbuf) : Prop := w = set_refcnt v 1.

Section Laws.

Context {W : Type} `{!PktLib W, !PktLaws W, !CloneLib W, !CloneLaws W}.
(** The pool has packets left. *)
Context (clone_succeeds : ∀ (fl fl' : flow W) p, pktmbuf_clone p fl ≠ Some (None, fl')).
Implicit Types (fl : flow W).

Lemma clone_step fl p v :
  fl_mem fl !! p = Some v →
  ∃ q, fl_mem fl !! q = None ∧
    ∀ (A : Type) (k : mptr → M (flow W) A),
    (c ← pktmbuf_clone p; c ← unwrap c; v ← load_pkt p; w ← load_pkt c;
     store_pkt c (mk_mbuf (data w) (pkt_len w) (l2_len w) (l3_len w) (l4_len w)
        (udata64 v) (refcnt w));; k c) fl
    = k q (set_mem fl (<[q := set_refcnt v 1]> (fl_mem fl))).
Proof.
  intros Hp. destruct (law_clone fl p v Hp) as [Hn|(q&u&Hq&Hc)];
    [by apply clone_succeeds in Hn|]. exists q. split; [done|]. intros A k.
  unfold load_pkt, gets. unfold mbind at 1, M_bind at 1. rewrite Hc. cbn [unwrap].
  rewrite M_bind_ret. unfold mbind, M_bind. rewrite set_mem_mem.
  assert (p ≠ q) as Hne by (intros ->; congruence).
  rewrite lookup_insert_ne, Hp by done. cbn [unwrap]. rewrite mret_run.
  rewrite set_mem_mem, lookup_insert_eq. cbn [unwrap]. rewrite mret_run.
  unfold store_pkt, modify. rewrite set_mem_mem, insert_insert_eq. done.
Qed.

Lemma clone_loop_spec (pkts : pkts_t) l col fl :
  NoDup l → Forall (λ j, (j < length col)%nat) l →
  (∀ j, j ∈ l → ∃ p, pkts !! j = Some p ∧ is_Some (fl_mem fl !! p)) →
  ∃ col' h, clone_loop pkts l col fl = Some (col', set_mem fl h) ∧ length col' = length col ∧
    (∀ q v, fl_mem fl !! q = Some v → h !! q = Some v) ∧
    (∀ j, j ∉ l → col' !! j = col !! j) ∧
    ∀ j p v, j ∈ l → pkts !! j = Some p → fl_mem fl !! p = Some v →
      ∃ q w, col' !! j = Some q ∧ h !! q = Some w ∧ copy_of v w ∧ fl_mem fl !! q = None.
Proof.
  revert col fl. induction l as [|j l IH]; intros col fl Hnd HF Hl; cbn [clone_loop].
  { exists col, (fl_mem fl). split; [by destruct fl|]. split_and!; [done..|].
    by intros ??? ?%not_elem_of_nil. }
  apply NoDup_cons in Hnd as [Hj Hnd]. apply Forall_cons in HF as [Hjl HF].
  destruct (Hl j) as (p&Hp&v&Hv); [left|]. rewrite Hp. cbn [unwrap]. rewrite M_bind_ret.
  destruct (clone_step fl p v Hv) as (q&Hq&Hstep). rewrite Hstep. rewrite decide_True by done.
  set (h1 := <[q := set_refcnt v 1]> (fl_mem fl)).
  assert (∀ q' v', fl_mem fl !! q' = Some v' → h1 !! q' = Some v') as Hh1.
  { intros q' v' Hq'. unfold h1. rewrite lookup_insert_ne; [done|]. intros ->. congruence. }
  destruct (IH (<[j := q]> col) (set_mem fl h1)) as (col'&h&Hr&Hlen&Hold&Hout&Hin).
  { done. } { by rewrite length_insert. }
  { intros i Hi. destruct (Hl i) as (p'&Hp'&v'&Hv'); [by right|]. exists p'.
    split; [done|]. exists v'. by apply Hh1. }
  rewrite length_insert in Hlen. rewrite set_mem_mem in Hold, Hin.
  exists col', h. split; [exact Hr|]. split_and!; [done|by auto|..].
  - intros i Hi. rewrite not_elem_of_cons in Hi. destruct Hi as [Hij Hi].
    rewrite Hout by done. by rewrite list_lookup_insert_ne.
  - intros i p' v' Hi Hp' Hv'. apply elem_of_cons in Hi as [->|Hi].
    + simplify_eq. exists q, (set_refcnt v 1). split_and!; [|..|done|done].
      * rewrite Hout by done. by rewrite list_lookup_insert_eq.
      * apply Hold. unfold h1. by rewrite lookup_insert_eq.
    + destruct (Hin i p' v') as (q'&w&?&?&?&Hn); [done..|by apply Hh1|].
      exists q', w. split_and!; [done..|]. destruct (fl_mem fl !! q') eqn:Hq'; [|done].
      by rewrite (Hh1 _ _ Hq') in Hn.
Qed.

Lemma last_bit_small clz_of_0 m :
  is_mask m → m ≠ 0 → (Z.of_nat PG_MAX_PKTS_BURST <? last_bit_pos clz_of_0 m) = false.
Proof.
  intros [Hm1 Hm2] Hne. unfold last_bit_pos, pg_last_bit_pos, clz64.
  rewrite (proj2 (Z.eqb_neq m 0)) by done. apply Z.ltb_ge.
  assert (Z.log2 m < 64) by (apply Z.log2_lt_pow2; lia). change (Z.of_nat PG_MAX_PKTS_BURST) with 64.
  lia.
Qed.

(** Freeing what a side holds. *)
Lemma free_side_held st from old rest fl :
  mapM (λ j, c_pkts st from !! j) (PG_FOREACH_BIT (c_mask st from)) = Some old →
  held (old ++ rest) fl →
  ∃ h, (if negb (c_mask st from =? 0) then pg_packets_free (c_pkts st from) (c_mask st from)
        else mret tt) fl = Some (tt, set_mem fl h) ∧ held rest (set_mem fl h) ∧
    ∀ q v', h !! q = Some v' → ∃ v, fl_mem fl !! q = Some v ∧ v' = set_refcnt v (refcnt v').
Proof.
  intros Hm Hh. destruct (Z.eqb_spec (c_mask st from) 0) as [H0|H0]; cbn [negb].
  - rewrite H0 in Hm. injection Hm as <-. exists (fl_mem fl). split; [by destruct fl|].
    split; [by destruct fl|]. intros q v' Hq. exists v'. by destruct v'.
  - unfold pg_packets_free. destruct (free_list_held _ _ _ _ _ Hm Hh) as (h&Hr&Hh').
    exists h. split; [done|]. split; [done|]. by eapply free_list_frame.
Qed.

(** After a burst, [collect_burst_get] returns for that side the mask of the
    burst and, at each of its positions, a copy of the packet given; the packets of
    the burst before are released, the other side is unchanged and no reference of
    anyone else is dropped. *)
Theorem collect_roundtrip clz_of_0 st from (pkts : pkts_t) mask old new rest fl :
  is_mask mask → mask ≠ 0 → length (c_pkts st from) = PG_MAX_PKTS_BURST →
  mapM (λ j, c_pkts st from !! j) (PG_FOREACH_BIT (c_mask st from)) = Some old →
  mapM (λ j, pkts !! j) (PG_FOREACH_BIT mask) = Some new → new ⊆ rest →
  held (old ++ rest) fl →
  ∃ st' fl' col, collect_burst clz_of_0 st from pkts mask fl = Some ((0, st'), fl') ∧
    collect_burst_get st' from = (Some col, mask) ∧
    (∀ j p v, mask_has mask j = true → pkts !! j = Some p → fl_mem fl !! p = Some v →
      ∃ q w, col !! j = Some q ∧ fl_mem fl' !! q = Some w ∧ copy_of v w) ∧
    collect_burst_get st' (pg_flip_side from) = collect_burst_get st (pg_flip_side from) ∧
    held rest fl'.
Proof.
  intros Hm Hne Hlen Hold Hnew Hin Hh.
  destruct (free_side_held st from old rest fl Hold Hh) as (h1&Hf&Hh1&Hframe).
  destruct (clone_loop_spec pkts (PG_FOREACH_BIT mask) (c_pkts st from) (set_mem fl h1))
    as (col&h&Hc&Hlc&Hkeep&Hout&Hcopy).
  - by apply foreach_NoDup.
  - apply Forall_forall. intros j Hj%elem_of_foreach; [|done]. rewrite Hlen.
    by apply (mask_has_lt mask).
  - intros j Hj. apply mapM_Some in Hnew. apply list_elem_of_lookup in Hj as (x&Hx).
    destruct (Forall2_lookup_l _ _ _ _ _ Hnew Hx) as (p&Hp&Hj). exists p. split; [done|].
    destruct (Hh1 p) as (v&Hv&_); [|by exists v]. apply Hin. by eapply list_elem_of_lookup_2.
  - rewrite set_mem_mem in Hkeep, Hcopy. eexists _, (set_mem fl h), col. split.
    { unfold collect_burst. rewrite last_bit_small by done. unfold mbind, M_bind.
      rewrite Hf. rewrite Hc. reflexivity. }
    unfold collect_burst_get, upd. cbn [c_pkts c_mask].
    rewrite !decide_True by done. rewrite (proj2 (Z.eqb_neq mask 0)) by done.
    rewrite !decide_False by apply flip_ne. split_and!; [done| |done|].
    + intros j p v Hj Hp Hv. assert (p ∈ rest) as Hpr.
      { apply Hin. apply mapM_Some in Hnew. apply elem_of_foreach in Hj; [|done].
        apply list_elem_of_lookup in Hj as (x&Hx).
        destruct (Forall2_lookup_l _ _ _ _ _ Hnew Hx) as (p'&Hp'&Hj). simplify_eq.
        by eapply list_elem_of_lookup_2. }
      destruct (Hh1 p Hpr) as (v1&Hv1&_). rewrite set_mem_mem in Hv1.
      destruct (Hframe p v1 Hv1) as (v2&Hv2&Heq). simplify_eq.
      destruct (Hcopy j p v1) as (q&w&Hq&Hw&Hcp&_); [by apply elem_of_foreach|done|done|].
      exists q, w. split_and!; [done..|]. unfold copy_of in *. rewrite Hcp, Heq. by destruct v.
    + intros q Hq. destruct (Hh1 q Hq) as (v&Hv&Hc'). exists v. split; [|done]. by apply Hkeep.
Qed.

End Laws.

(** A pool that always has a free packet. *)
Definition demo_clone {W} : CloneLib W := λ p,
  v ← load_pkt p;
  q ← gets (λ fl, fresh (dom (fl_mem fl)));
  store_pkt q (mk_mbuf (data v) (pkt_len v) (l2_len v) (l3_len v) (l4_len v) 0 1);;
  mret (Some q).

Lemma demo_clone_laws {W} : @CloneLaws W demo_clone.
Proof.
  intros fl p v Hp. right. exists (fresh (dom (fl_mem fl))), 0. split.
  - apply not_elem_of_dom, is_fresh.
  - unfold pktmbuf_clone, demo_clone, load_pkt, gets, mbind, M_bind. by rewrite Hp.
Qed.

Lemma demo_clone_succeeds {W} (fl fl' : flow W) p :
  pktmbuf_clone (CloneLib := demo_clone) p fl ≠ Some (None, fl').
Proof.
  unfold pktmbuf_clone, demo_clone. intros H. inv_run H. discriminate H.
Qed.

Lemma collect_roundtrip_witness :
  ∃ st' fl' col, collect_burst (PktLib0 := mem_pktlib) (CloneLib0 := demo_clone) 63
      (collect_init 1) PG_WEST_SIDE [5%positive] 1 demo_flow = Some ((0, st'), fl') ∧
    collect_burst_get st' PG_WEST_SIDE = (Some col, 1) ∧
    ∃ q w, col !! 0%nat = Some q ∧ fl_mem fl' !! q = Some w ∧ data w = [1; 2].
Proof.
  destruct (collect_roundtrip (PktLib0 := mem_pktlib) (PktLaws0 := mem_pktlaws)
    (CloneLib0 := demo_clone) (CloneLaws0 := demo_clone_laws) demo_clone_succeeds 63
    (collect_init 1) PG_WEST_SIDE [5%positive] 1 [] [5%positive] [5%positive] demo_flow)
    as (st'&fl'&col&Hr&Hg&Hcopy&_).
  - unfold is_mask. lia.
  - done.
  - by vm_compute.
  - by vm_compute.
  - by vm_compute.
  - done.
  - intros q ->%list_elem_of_singleton. eexists. split; [done|]. by vm_compute.
  - exists st', fl', col. split; [exact Hr|]. split; [exact Hg|].
    destruct (Hcopy 0%nat 5%positive (mk_mbuf [1; 2] 2 0 0 0 0 1)) as (q&w&Hq&Hw&->);
      [by vm_compute..|]. by exists q, (set_refcnt (mk_mbuf [1; 2] 2 0 0 0 0 1) 1).
Defined.

End Collect.

(** ** Fail *)

Module Fail.

Record pg_fail_state := mk_fail { f_output : pg_side }.

Definition fail_burst {W} (name : string) : M (flow W) Z :=
  flow_error (pg_error_new ("Fail brick : " +:+ name));; mret (-1).

Definition fail_link (st : pg_fail_state) (side : pg_side) : pg_fail_state :=
  mk_fail (pg_flip_side side).
Definition fail_get_side (st : pg_fail_state) : pg_side := pg_flip_side (f_output st).

End Fail.

(** ** Rxtx *)

Module Rxtx.

(** [struct pg_rxtx_state]; the callbacks are those of the user, [None] for NULL. *)
Record pg_rxtx_state (W : Type) := mk_rxtx {
  output : pg_side;
  rx : option (pkts_t → Z → M (flow W) unit);
  tx : option (pkts_t → M (flow W) Z);
  rx_burst : pkts_t;
  tx_burst : pkts_t;
  tx_bytes : Z;
  rx_bytes : Z;
}.
Arguments mk_rxtx {W}.
Arguments output {W}.
Arguments rx {W}.
Arguments tx {W}.
Arguments rx_burst {W}.
Arguments tx_burst {W}.
Arguments tx_bytes {W}.
Arguments rx_bytes {W}.

Section Rxtx.

Context {W : Type} `{D : !Dispatch W, !PktLib W}.
(** [rte_pktmbuf_reset]. *)
Context (pktmbuf_reset : mptr → M (flow W) unit).
Implicit Types st : pg_rxtx_state W.

(** The loop that fills [rx_burst]: the cells, the count and the bytes. *)
Fixpoint rx_loop (pkts : pkts_t) (l : list nat) (cells : pkts_t) (cnt : nat) (bytes : Z)
    : M (flow W) (pkts_t * nat * Z) :=
  match l with
  | [] => mret (cells, cnt, bytes)
  | i :: l =>
      p ← unwrap (pkts !! i);
      v ← load_pkt p;
      if decide (cnt < length cells)%nat
      then rx_loop pkts l (<[cnt := p]> cells) (S cnt) (u64 (bytes + pkt_len v))
      else crash
  end.

Definition rxtx_burst st (pkts : pkts_t) (pkts_mask : Z) : M (flow W) (Z * pg_rxtx_state W) :=
  match rx st with
  | None => mret (0, st)
  | Some cb =>
      r ← rx_loop pkts (PG_FOREACH_BIT pkts_mask) (rx_burst st) 0 (rx_bytes st);
      let '(cells, cnt, bytes) := r in
      cb cells (Z.of_nat cnt);;
      mret (0, mk_rxtx (output st) (rx st) (tx st) cells (tx_burst st) (tx_bytes st) bytes)
  end.

Fixpoint reset_loop (l : pkts_t) : M (flow W) unit :=
  match l with [] => mret tt | p :: l => pktmbuf_reset p;; reset_loop l end.

(** The loop over the packets the user wrote. *)
Fixpoint tx_loop (l : pkts_t) (bytes : Z) : M (flow W) Z :=
  match l with
  | [] => mret bytes
  | p :: l =>
      v ← load_pkt p;
      v ← unwrap (pg_utils_guess_metadata v);
      store_pkt p v;;
      tx_loop l (u64 (bytes + pkt_len v))
  end.

(** [rxtx_poll]: the result, the packet count and the state; [count] is a
    [uint16_t] that the callback writes. *)
Definition rxtx_poll st (sd : pg_brick_side) : M (flow W) (Z * Z * pg_rxtx_state W) :=
  match tx st with
  | None => mret (0, 0, st)
  | Some cb =>
      reset_loop (take 64 (tx_burst st));;
      count ← cb (tx_burst st);
      let count := u16 count in
      if count =? 0 then mret (0, count, st)
      else
        if decide (count ≤ Z.of_nat (length (tx_burst st))) then
          bytes ← tx_loop (take (Z.to_nat count) (tx_burst st)) (tx_bytes st);
          e ← edge_of sd;
          ret ← pg_brick_burst (link e) (output st) (pair_index e) (tx_burst st)
                  (pg_mask_firsts (u8 count));
          mret (ret, count, mk_rxtx (output st) (rx st) (tx st) (rx_burst st) (tx_burst st)
                              bytes (rx_bytes st))
        else crash
  end.

(** [rxtx_init]; [alloc_bulk] is [rte_pktmbuf_alloc_bulk]. *)
Definition rxtx_init (null : mptr) (alloc_bulk : nat → M (flow W) (option pkts_t))
    (rx : option (pkts_t → Z → M (flow W) unit)) (tx : option (pkts_t → M (flow W) Z))
    : M (flow W) (option (pg_rxtx_state W)) :=
  let cells := replicate PG_MAX_PKTS_BURST null in
  match tx with
  | None => mret (Some (mk_rxtx PG_WEST_SIDE rx None cells cells 0 0))
  | Some cb =>
      r ← alloc_bulk PG_MAX_PKTS_BURST;
      match r with
      | None => flow_error (pg_error_new "RXTX allocation failed");; mret None
      | Some pkts => mret (Some (mk_rxtx PG_WEST_SIDE rx (Some cb) cells pkts 0 0))
      end
  end.

Definition rxtx_destroy st : M (flow W) unit :=
  match tx st with
  | None => mret tt
  | Some _ => free_list (tx_burst st) (seq 0 PG_MAX_PKTS_BURST)
  end.

Definition rxtx_link st (side : pg_side) : pg_rxtx_state W :=
  mk_rxtx (pg_flip_side side) (rx st) (tx st) (rx_burst st) (tx_burst st) (tx_bytes st)
    (rx_bytes st).
Definition rxtx_get_side st : pg_side := pg_flip_side (output st).

End Rxtx.

Section Laws.

Context {W : Type} `{D : !Dispatch W, !PktLib W}.
Context (pktmbuf_reset : mptr → M (flow W) unit).
Implicit Types (st : pg_rxtx_state W) (fl : flow W).

(** The bytes of a list of packets. *)
Definition total_len fl (ps : pkts_t) : Z :=
  foldr (λ p n, (match fl_mem fl !! p with Some v => pkt_len v | None => 0 end) + n) 0 ps.

Lemma u64_add_l a b : u64 (u64 a + b) = u64 (a + b).
Proof. unfold u64. by rewrite Zplus_mod_idemp_l. Qed.

Lemma u64_idem a : u64 (u64 a) = u64 a.
Proof. apply Z.mod_mod. lia. Qed.

Lemma rx_loop_spec (pkts : pkts_t) l ps cells cnt bytes fl :
  mapM (λ j, pkts !! j) l = Some ps → (∀ p, p ∈ ps → is_Some (fl_mem fl !! p)) →
  (cnt + length l ≤ length cells)%nat → bytes = u64 bytes →
  ∃ cells', rx_loop pkts l cells cnt bytes fl
    = Some ((cells', (cnt + length l)%nat, u64 (bytes + total_len fl ps)), fl) ∧
    length cells' = length cells ∧
    take (cnt + length l) cells' = take cnt cells ++ ps.
Proof.
  revert ps cells cnt bytes. induction l as [|i l IH];
    intros ps cells cnt bytes Hm Hl Hc Hb; cbn [rx_loop].
  { injection Hm as <-. exists cells. cbn [length total_len foldr].
    rewrite Nat.add_0_r, Z.add_0_r, <- Hb, app_nil_r. done. }
  apply mapM_cons_Some in Hm as (p&ps'&Hp&Hm&->). rewrite Hp. cbn [unwrap]. rewrite M_bind_ret.
  destruct (Hl p) as [v Hv]; [left|]. unfold load_pkt. rewrite M_bind_assoc.
  unfold mbind at 1, M_bind at 1, gets. rewrite Hv. cbn [unwrap]. rewrite M_bind_ret.
  cbn [length] in *. rewrite decide_True by lia.
  destruct (IH ps' (<[cnt := p]> cells) (S cnt) (u64 (bytes + pkt_len v)))
    as (cells'&Hr&Hlen&Ht); [done|intros q Hq; apply Hl; by right|rewrite length_insert; lia|
    by rewrite u64_idem|].
  exists cells'. rewrite Hr. split_and!.
  - rewrite u64_add_l. unfold total_len. cbn [foldr]. rewrite Hv.
    replace (cnt + S (length l))%nat with (S cnt + length l)%nat by lia.
    by rewrite Z.add_assoc.
  - by rewrite Hlen, length_insert.
  - replace (cnt + S (length l))%nat with (S cnt + length l)%nat by lia. rewrite Ht.
    rewrite (take_S_r _ _ p) by (rewrite list_lookup_insert_eq by lia; done).
    rewrite take_insert_ge by lia. by rewrite <- app_assoc.
Qed.

(** A burst into rxtx calls the user's callback once, with the packets of the
    burst packed in order at the start of its array and their number, and adds their
    lengths to the counter of received bytes. *)
Theorem rxtx_burst_hands_over st cb (pkts : pkts_t) mask ps fl :
  rx st = Some cb → is_mask mask → length (rx_burst st) = PG_MAX_PKTS_BURST →
  mapM (λ j, pkts !! j) (PG_FOREACH_BIT mask) = Some ps →
  (∀ p, p ∈ ps → is_Some (fl_mem fl !! p)) → rx_bytes st = u64 (rx_bytes st) →
  ∃ cells, take (length ps) cells = ps ∧ Z.of_nat (length ps) = pg_mask_count mask ∧
    rxtx_burst st pkts mask fl =
    (cb cells (Z.of_nat (length ps));;
     mret (0, mk_rxtx (output st) (rx st) (tx st) cells (tx_burst st) (tx_bytes st)
                (u64 (rx_bytes st + total_len fl ps)))) fl.
Proof.
  intros Hcb Hm Hlen Hps Hlive Hb.
  assert (length ps = length (PG_FOREACH_BIT mask)) as Hl.
  { apply mapM_Some, Forall2_length in Hps. done. }
  destruct (rx_loop_spec pkts _ ps (rx_burst st) 0 (rx_bytes st) fl Hps Hlive)
    as (cells&Hr&_&Ht); [|done|].
  { rewrite Hlen, foreach_eq_filter by done.
    pose proof (length_filter (λ i, mask_has mask i = true) (seq 0 64)) as Hle.
    rewrite length_seq in Hle. unfold PG_MAX_PKTS_BURST. lia. }
  exists cells. rewrite Nat.add_0_l in Hr, Ht. rewrite <- Hl in Hr, Ht. split_and!; [done| |].
  - rewrite mask_count_foreach by done. by rewrite Hl.
  - unfold rxtx_burst. rewrite Hcb. unfold mbind, M_bind. by rewrite Hr.
Qed.

(** A packet whose ethernet header is in memory. *)
Definition has_ether fl (p : mptr) : Prop :=
  ∃ v, fl_mem fl !! p = Some v ∧ (14 ≤ length (data v))%nat.

Lemma guess_metadata_ok v :
  (14 ≤ length (data v))%nat → ∃ n, pg_utils_guess_metadata v = Some (set_l2_len v n).
Proof.
  intros Hl. unfold pg_utils_guess_metadata, pg_utils_guess_l2, load16, bytes_at.
  rewrite decide_True by lia. cbn [mbind option_bind].
  assert (length (take 2 (drop 12 (data v))) = 2%nat) as Hlen
    by (rewrite length_take, length_drop; lia).
  destruct (take 2 (drop 12 (data v))) as [|b0 [|b1 [|b2 r]]]; try done.
  cbn [mbind option_bind]. by eexists.
Qed.

Lemma tx_loop_spec l bytes fl :
  (∀ p, p ∈ l → has_ether fl p) → bytes = u64 bytes →
  ∃ h, tx_loop l bytes fl = Some (u64 (bytes + total_len fl l), set_mem fl h).
Proof.
  revert bytes fl. induction l as [|p l IH]; intros bytes fl Hl Hb; cbn [tx_loop].
  { exists (fl_mem fl). cbn [total_len foldr]. rewrite Z.add_0_r, <- Hb. by destruct fl. }
  destruct (Hl p) as (v&Hv&Hd); [left|]. destruct (guess_metadata_ok v Hd) as [n Hn].
  unfold load_pkt. rewrite M_bind_assoc. unfold mbind at 1, M_bind at 1, gets. rewrite Hv.
  cbn [unwrap]. rewrite M_bind_ret, Hn. cbn [unwrap]. rewrite M_bind_ret.
  unfold store_pkt, modify. unfold mbind, M_bind.
  set (fl1 := mk_flow _ _ _ _). assert (∀ l', total_len fl1 l' = total_len fl l') as Htot.
  { intros l'. unfold total_len. induction l' as [|q l' IH']; [done|]. cbn [foldr].
    rewrite IH'. f_equal. unfold fl1. cbn [fl_mem]. destruct (decide (q = p)) as [->|].
    - by rewrite lookup_insert_eq, Hv.
    - by rewrite lookup_insert_ne. }
  destruct (IH (u64 (bytes + pkt_len (set_l2_len v n))) fl1) as (h&Hr).
  { intros q Hq. destruct (Hl q) as (w&Hw&Hwd); [by right|]. unfold fl1.
    destruct (decide (q = p)) as [->|].
    - exists (set_l2_len v n). cbn [fl_mem]. by rewrite lookup_insert_eq.
    - exists w. cbn [fl_mem]. by rewrite lookup_insert_ne. }
  { by rewrite u64_idem. }
  exists h. rewrite Hr, Htot, u64_add_l. unfold total_len at 2. cbn [foldr]. rewrite Hv.
  rewrite Z.add_assoc. done.
Qed.

(** When the user's callback wrote up to 64 packets, a poll of rxtx sends exactly
    those, in one burst to its neighbour, reports their number and the neighbour's
    result, and adds their lengths to the counter of sent bytes. *)
Theorem rxtx_poll_sends st cb sd e fl fl1 fl2 count :
  tx st = Some cb → length (tx_burst st) = PG_MAX_PKTS_BURST → side_edges sd = Edge e →
  reset_loop pktmbuf_reset (tx_burst st) fl = Some (tt, fl1) →
  cb (tx_burst st) fl1 = Some (count, fl2) → 0 < count ≤ 64 →
  (∀ p, p ∈ take (Z.to_nat count) (tx_burst st) → has_ether fl2 p) →
  tx_bytes st = u64 (tx_bytes st) →
  ∃ h m, PG_FOREACH_BIT m = seq 0 (Z.to_nat count) ∧
    rxtx_poll pktmbuf_reset st sd fl =
    (ret ← pg_brick_burst (link e) (output st) (pair_index e) (tx_burst st) m;
     mret (ret, count, mk_rxtx (output st) (rx st) (tx st) (rx_burst st) (tx_burst st)
       (u64 (tx_bytes st + total_len fl2 (take (Z.to_nat count) (tx_burst st))))
       (rx_bytes st))) (set_mem fl2 h).
Proof.
  intros Hcb Hlen He Hreset Hrun Hc Heth Hb.
  destruct (tx_loop_spec (take (Z.to_nat count) (tx_burst st)) (tx_bytes st) fl2 Heth Hb)
    as (h&Hr).
  exists h, (pg_mask_firsts (Z.of_nat (Z.to_nat count))). split; [apply foreach_firsts; lia|].
  unfold rxtx_poll. rewrite Hcb. rewrite take_ge by (rewrite Hlen; unfold PG_MAX_PKTS_BURST; lia).
  unfold mbind at 1, M_bind at 1. rewrite Hreset. unfold mbind at 1, M_bind at 1. rewrite Hrun.
  rewrite u16_small by lia. rewrite (proj2 (Z.eqb_neq count 0)) by lia.
  rewrite decide_True by (rewrite Hlen; unfold PG_MAX_PKTS_BURST; lia).
  unfold mbind at 1, M_bind at 1. rewrite Hr. unfold edge_of. rewrite He, M_bind_ret.
  assert (u8 count = Z.of_nat (Z.to_nat count)) as ->; [|done].
  rewrite Z2Nat.id by lia. apply Z.mod_small. lia.
Qed.

End Laws.

(** A user who receives and sends one packet at a time. *)
Definition demo_rxtx : pg_rxtx_state (list burst_call) :=
  mk_rxtx PG_WEST_SIDE (Some (λ _ _, mret tt)) (Some (λ _, mret 1))
    (replicate 64 5%positive) (replicate 64 5%positive) 0 0.

Definition ether_flow : flow (list burst_call) :=
  mk_flow {[5%positive := mk_mbuf (replicate 14 0) 14 0 0 0 0 1]} ∅ None [].

Lemma rxtx_burst_hands_over_witness :
  ∃ cells, rxtx_burst demo_rxtx [5%positive] 1 ether_flow
    = Some ((0, mk_rxtx PG_WEST_SIDE (rx demo_rxtx) (tx demo_rxtx) cells (replicate 64 5%positive)
        0 14), ether_flow).
Proof.
  destruct (rxtx_burst_hands_over demo_rxtx (λ _ _, mret tt) [5%positive] 1 [5%positive]
    ether_flow) as (cells&_&_&Hr).
  - done.
  - unfold is_mask. lia.
  - done.
  - by vm_compute.
  - intros p ->%list_elem_of_singleton. by eexists.
  - by vm_compute.
  - exists cells. rewrite Hr. by vm_compute.
Defined.

Lemma rxtx_poll_sends_witness :
  ∃ h m, PG_FOREACH_BIT m = [0%nat] ∧
    fst <$> rxtx_poll (D := recorder) (λ _, mret tt) demo_rxtx
      (mk_side 1 1 (Edge (mk_edge (Some 9%positive) 0))) ether_flow =
    fst <$> (ret ← pg_brick_burst (D := recorder) (Some 9%positive) PG_WEST_SIDE 0
                     (replicate 64 5%positive) m;
     mret (ret, 1, mk_rxtx PG_WEST_SIDE (rx demo_rxtx) (tx demo_rxtx) (replicate 64 5%positive)
       (replicate 64 5%positive) 14 0)) (set_mem ether_flow h).
Proof.
  destruct (rxtx_poll_sends (D := recorder) (λ _, mret tt) demo_rxtx (λ _, mret 1)
    (mk_side 1 1 (Edge (mk_edge (Some 9%positive) 0))) (mk_edge (Some 9%positive) 0)
    ether_flow ether_flow ether_flow 1) as (h&m&Hm&Hr).
  - done.
  - done.
  - done.
  - by vm_compute.
  - done.
  - lia.
  - intros p Hp. change (take (Z.to_nat 1) (tx_burst demo_rxtx)) with [5%positive] in Hp.
    apply list_elem_of_singleton in Hp as ->. eexists. split; [done|]. vm_compute. lia.
  - by vm_compute.
  - exists h, m. split; [exact Hm|]. rewrite Hr. done.
Defined.

End Rxtx.
