(* ===== verification/Pmtud.v ===== *)
(** * The path MTU discovery brick ([src/pmtud.c])

    A dipole that answers the IPv4 packets that are too big and must not be
    fragmented with an ICMP "fragmentation needed" message, sent back where they came
    from, and lets the others pass. *)

From S2P Require Import Prelude Bitmask Common Brick BrickInv Burst Packets Network.

(** [struct pg_pmtud_state]. *)
Record pg_pmtud_state := mk_pmtud {
  output : pg_side;
  eth_mtu_size : Z;
  icmp_mtu_size : Z;
  icmp : mptr;
}.

(** [struct pg_pmtud_config] and [pmtud_config_new]. *)
Record pg_pmtud_config := mk_pmtud_config { cfg_output : pg_side; mtu_size : Z }.

Definition pmtud_config_new (name : string) (output : pg_side) (mtu_size : Z) :
    pg_brick_config pg_pmtud_config :=
  pg_brick_config_init (mk_pmtud_config output (u32 mtu_size)) name 1 1 PG_DIPOLE.

Definition PG_BE_IPV4_HDR_DF_FLAG : Z := PG_CPU_TO_BE_16 (Z.shiftl 1 14).
Definition PG_ICMP_PROTOCOL : Z := 1.

(** Sizes of [struct icmp_hdr] and of [struct icmp_full_hdr]. *)
Definition ICMP_HDR_SIZE : nat := 36.
Definition ICMP_FULL_SIZE : nat := 70.

Section Pmtud.

Context {W : Type} `{D : !Dispatch W, !PktLib W}.
(** [rte_ipv4_cksum] and [rte_raw_cksum] of DPDK, on the bytes they read. *)
Context (rte_ipv4_cksum rte_raw_cksum : list Z → Z).

(** [icmp_checksum]. *)
Definition icmp_checksum (msg : list Z) : Z := u16 (Z.lnot (rte_raw_cksum msg)).

(** Bytes [a] to [b], excluded. *)
Definition slice (d : list Z) (a b : nat) : list Z := take (b - a) (drop a d).

(** Whether a packet must be answered; [None] is a read past the packet. *)
Definition too_big (st : pg_pmtud_state) (v : mbuf) : option bool :=
  fragment_offset ← load16 (pg_utils_get_l3 v) 6;
  etype ← pg_utils_get_ether_type v;
  Some ((etype =? PG_BE_ETHER_TYPE_IPv4)
        && negb (Z.land fragment_offset PG_BE_IPV4_HDR_DF_FLAG =? 0)
        && (eth_mtu_size st <? pkt_len v)).

(** The bytes of the ICMP packet after the assignments of the loop: the ethernet and
    IP addresses are those of the packet, exchanged; the message quotes its IP header
    and the next 8 bytes; both checksums are computed with their field at zero. The
    rest of the buffer is kept. *)
Definition icmp_answer (buf : list Z) (v : mbuf) : option (list Z) :=
  let ip := pg_utils_get_l3 v in
  d_addr ← pg_util_get_ether_dst_addr v;
  s_addr ← pg_util_get_ether_src_addr v;
  src ← bytes_at ip 12 4;
  dst ← bytes_at ip 16 4;
  quote ← bytes_at ip 0 28;
  if decide (ICMP_FULL_SIZE ≤ length buf)%nat then
    let ip_with c := slice buf 14 24 ++ le16 c ++ dst ++ src in
    let msg_with c := slice buf 34 36 ++ le16 c ++ slice buf 38 42 ++ quote in
    Some (s_addr ++ d_addr ++ slice buf 12 14
          ++ ip_with (rte_ipv4_cksum (ip_with 0))
          ++ msg_with (icmp_checksum (msg_with 0))
          ++ drop ICMP_FULL_SIZE buf)
  else None.

(** The loop over the packets: the mask that is left, or the failure. *)
Fixpoint pmtud_loop (st : pg_pmtud_state) (s_from : pg_brick_side) (to : pg_side)
    (pkts : pkts_t) (l : list nat) (pkts_mask : Z) : M (flow W) (option Z) :=
  match l with
  | [] => mret (Some pkts_mask)
  | i :: l =>
      p ← unwrap (pkts !! i);
      v ← load_pkt p;
      big ← unwrap (too_big st v);
      if big : bool then
        let pkts_mask := Z.lxor pkts_mask (Z.shiftl ONE64 (Z.of_nat i)) in
        w ← load_pkt (icmp st);
        answer ← unwrap (icmp_answer (data w) v);
        store_pkt (icmp st) (set_data w answer);;
        e ← edge_of s_from;
        r ← pg_brick_burst (link e) to (pair_index e) [icmp st] 1;
        if r <? 0 then mret None else pmtud_loop st s_from to pkts l pkts_mask
      else pmtud_loop st s_from to pkts l pkts_mask
  end.

Definition pmtud_burst (st : pg_pmtud_state) (sides : pg_side → pg_brick_side)
    (from : pg_side) (pkts : pkts_t) (pkts_mask : Z) : M (flow W) Z :=
  let to := pg_flip_side from in
  left ← (if decide (output st = from)
          then pmtud_loop st (sides from) to pkts (PG_FOREACH_BIT pkts_mask) pkts_mask
          else mret (Some pkts_mask));
  match left with
  | None => mret (-1)
  | Some m =>
      if m =? 0 then mret 0
      else e ← edge_of (sides to); pg_brick_burst (link e) from (pair_index e) pkts m
  end.

(** [pmtud_init]; [alloc] is [rte_pktmbuf_alloc]. The bytes of the message that are
    not assigned keep the value they have in the buffer. *)
Definition pmtud_init (alloc : M (flow W) (option mptr)) (config : pg_brick_config pg_pmtud_config)
    : M (flow W) (option pg_pmtud_state) :=
  let mtu := mtu_size (brick_config config) in
  let icmp_mtu := u32 (mtu - 14) in
  r ← alloc;
  match r with
  | None => flow_error (pg_error_new "cannot allocate icmp packet");; mret None
  | Some p =>
      pg_packets_append_ether [Some p] 1 (replicate 6 0) (replicate 6 0) ETHER_TYPE_IPv4;;
      pg_packets_append_ipv4 rte_ipv4_cksum [Some p] 1 1 2 (36 + 20) PG_ICMP_PROTOCOL;;
      v ← load_pkt p;
      store_pkt p (set_l2_len v 14);;
      ok ← pktmbuf_append p ICMP_HDR_SIZE;
      if negb ok then crash
      else
        v ← load_pkt p;
        let n := (length (data v) - ICMP_HDR_SIZE)%nat in
        let msg := drop n (data v) in
        store_pkt p (set_data v (take n (data v) ++ [3; 4] ++ slice msg 2 4 ++ le16 0
          ++ le16 (PG_CPU_TO_BE_16 (u16 icmp_mtu)) ++ drop 8 msg));;
        mret (Some (mk_pmtud (cfg_output (brick_config config)) mtu icmp_mtu p))
  end.

Definition pmtud_destroy (st : pg_pmtud_state) : M (flow W) unit := pktmbuf_free (icmp st).

End Pmtud.

(** ** The answers *)

Section Answer.

Context (rte_ipv4_cksum rte_raw_cksum : list Z → Z).

Lemma slice_length d a b : (a ≤ b)%nat → (b ≤ length d)%nat → length (slice d a b) = (b - a)%nat.
Proof. intros. unfold slice. rewrite length_take, length_drop. lia. Qed.

(** A slice of a concatenation, on either side of the seam. *)
Lemma slice_app_l (d1 d2 : list Z) a b :
  (b ≤ length d1)%nat → slice (d1 ++ d2) a b = slice d1 a b.
Proof.
  intros Hb. unfold slice. destruct (decide (a ≤ b)%nat).
  - rewrite drop_app_le by lia. rewrite take_app_le by (rewrite length_drop; lia). done.
  - by replace (b - a)%nat with 0%nat by lia.
Qed.

Lemma slice_app_r (d1 d2 : list Z) a b :
  (length d1 ≤ a)%nat → slice (d1 ++ d2) a b = slice d2 (a - length d1) (b - length d1).
Proof.
  intros Ha. unfold slice. rewrite drop_app_ge by lia. f_equal. lia.
Qed.

Lemma slice_all (d : list Z) b : (length d ≤ b)%nat → slice d 0 b = d.
Proof. intros. unfold slice. rewrite drop_0. apply take_ge. lia. Qed.

Lemma bytes_at_size d off n b : bytes_at d off n = Some b → length b = n.
Proof.
  unfold bytes_at. case_decide; [|done]. intros [= <-]. rewrite length_take, length_drop. lia.
Qed.

(** [skip H] passes over a first segment whose length is [H]. *)
Ltac skip H := rewrite slice_app_r by (rewrite H; lia); rewrite H; cbn [Nat.sub].
(** [stop H] ends in a segment whose length is [H]. *)
Ltac stop H := rewrite slice_app_l by (rewrite H; lia).
(** [headers] passes over the ethernet and the IP header. *)
Ltac headers :=
  do 7 match goal with
  | H : length ?x = _ |- context [slice (?x ++ _) _ _] => skip H
  end.

(** The parts of the buffer that the answers keep. *)
Definition same_template (b1 b2 : list Z) : Prop :=
  length b1 = length b2 ∧ slice b1 12 14 = slice b2 12 14 ∧ slice b1 14 24 = slice b2 14 24 ∧
  slice b1 34 36 = slice b2 34 36 ∧ slice b1 38 42 = slice b2 38 42 ∧
  drop ICMP_FULL_SIZE b1 = drop ICMP_FULL_SIZE b2.

Lemma icmp_answer_template b1 b2 v :
  same_template b1 b2 →
  icmp_answer rte_ipv4_cksum rte_raw_cksum b1 v = icmp_answer rte_ipv4_cksum rte_raw_cksum b2 v.
Proof.
  intros (Hl&H1&H2&H3&H4&H5). unfold icmp_answer. rewrite Hl, H1, H2, H3, H4, H5. done.
Qed.

(** What an answer holds: it goes back to the sender of the packet, and its message
    quotes the packet. *)
Definition answers (v : mbuf) (buf ans : list Z) : Prop :=
  let ip := pg_utils_get_l3 v in
  pg_util_get_ether_src_addr v = Some (slice ans 0 6) ∧
  pg_util_get_ether_dst_addr v = Some (slice ans 6 12) ∧
  bytes_at ip 16 4 = Some (slice ans 26 30) ∧ bytes_at ip 12 4 = Some (slice ans 30 34) ∧
  bytes_at ip 0 28 = Some (slice ans 42 70) ∧ same_template ans buf ∧
  slice ans 36 38 = le16 (icmp_checksum rte_raw_cksum
    (slice ans 34 36 ++ [0; 0] ++ slice ans 38 70)) ∧
  slice ans 24 26 = le16 (rte_ipv4_cksum (slice ans 14 24 ++ [0; 0] ++ slice ans 26 34)).

(** The fields of a message that is laid out in twelve segments. *)
Lemma layout_slices (sa da t h k1 dst src m k2 n q rest : list Z) :
  length sa = 6%nat → length da = 6%nat → length t = 2%nat → length h = 10%nat →
  length k1 = 2%nat → length dst = 4%nat → length src = 4%nat → length m = 2%nat →
  length k2 = 2%nat → length n = 4%nat → length q = 28%nat →
  let ans := sa ++ da ++ t ++ h ++ k1 ++ dst ++ src ++ m ++ k2 ++ n ++ q ++ rest in
  (slice ans 0 6 = sa ∧ slice ans 6 12 = da ∧ slice ans 12 14 = t ∧ slice ans 14 24 = h ∧
   slice ans 24 26 = k1 ∧ slice ans 26 30 = dst ∧ slice ans 30 34 = src) ∧
  (slice ans 34 36 = m ∧ slice ans 36 38 = k2 ∧ slice ans 38 42 = n ∧ slice ans 42 70 = q) ∧
  slice ans 26 34 = dst ++ src ∧ slice ans 38 70 = n ++ q ∧ drop 70 ans = rest ∧
  length ans = (70 + length rest)%nat.
Proof.
  intros Lsa Lda Lt Lh L1 Ldst Lsrc Lm L2 Ln Lq ans. unfold ans. split_and!.
  - stop Lsa. by apply slice_all; lia.
  - skip Lsa. stop Lda. by apply slice_all; lia.
  - skip Lsa. skip Lda. stop Lt. by apply slice_all; lia.
  - skip Lsa. skip Lda. skip Lt. stop Lh. by apply slice_all; lia.
  - skip Lsa. skip Lda. skip Lt. skip Lh. stop L1. by apply slice_all; lia.
  - skip Lsa. skip Lda. skip Lt. skip Lh. skip L1. stop Ldst. by apply slice_all; lia.
  - skip Lsa. skip Lda. skip Lt. skip Lh. skip L1. skip Ldst. stop Lsrc. by apply slice_all; lia.
  - headers. stop Lm. by apply slice_all; lia.
  - headers. skip Lm. stop L2. by apply slice_all; lia.
  - headers. skip Lm. skip L2. stop Ln. by apply slice_all; lia.
  - headers. skip Lm. skip L2. skip Ln. stop Lq. by apply slice_all; lia.
  - skip Lsa. skip Lda. skip Lt. skip Lh. skip L1. rewrite app_assoc.
    rewrite slice_app_l by (rewrite length_app; lia). apply slice_all. rewrite length_app. lia.
  - headers. skip Lm. skip L2. rewrite app_assoc.
    rewrite slice_app_l by (rewrite length_app; lia). apply slice_all. rewrite length_app. lia.
  - rewrite !app_assoc. apply drop_app_length'. rewrite !length_app. lia.
  - rewrite !length_app. lia.
Qed.

Lemma icmp_answer_spec buf v ans :
  icmp_answer rte_ipv4_cksum rte_raw_cksum buf v = Some ans → answers v buf ans.
Proof.
  unfold icmp_answer. intros (da&Hda&H)%bind_Some. apply bind_Some in H as (sa&Hsa&H).
  apply bind_Some in H as (src&Hsrc&H). apply bind_Some in H as (dst&Hdst&H).
  apply bind_Some in H as (q&Hq&H). case_decide as Hbuf; [|done]. unfold ICMP_FULL_SIZE in Hbuf.
  apply (inj Some) in H.
  set (c1 := rte_ipv4_cksum _) in H. set (c2 := icmp_checksum _ _) in H.
  destruct (layout_slices sa da (slice buf 12 14) (slice buf 14 24) (le16 c1) dst src
    (slice buf 34 36) (le16 c2) (slice buf 38 42) q (drop 70 buf)) as
    ((S1&S2&S3&S4&S5&S6&S7)&(S8&S9&S10&S11)&S12&S13&S14&S15);
    [eauto using bytes_at_size|eauto using bytes_at_size|apply slice_length; lia
    |apply slice_length; lia|done|eauto using bytes_at_size|eauto using bytes_at_size
    |apply slice_length; lia|done|apply slice_length; lia|eauto using bytes_at_size|].
  rewrite <- !app_assoc in H. unfold ICMP_FULL_SIZE in H. rewrite H in *. clear H.
  unfold answers, same_template, ICMP_FULL_SIZE. cbv zeta.
  rewrite S1, S2, S3, S4, S5, S6, S7, S8, S9, S10, S11, S12, S13, S14.
  split_and!; try done. rewrite S15, length_drop. lia.
Qed.

End Answer.

Lemma mask_lxor_range m n : is_mask m → is_mask n → is_mask (Z.lxor m n).
Proof.
  intros Hm Hn. apply (bits_bound 64); [lia|apply Z.lxor_nonneg; unfold is_mask in *; lia|].
  intros i Hi. rewrite Z.lxor_spec, (testbit_high m 64), (testbit_high n 64); done || lia.
Qed.

Lemma mask_has_lxor m n i : mask_has (Z.lxor m n) i = xorb (mask_has m i) (mask_has n i).
Proof. apply Z.lxor_spec. Qed.

(** ** The burst *)

(** A neighbourhood that takes the bursts and leaves the packets alone; [seen] is what
    it has received, with the packets as they were. *)
Class Observing (W : Type) `{!Dispatch W} (seen : W → list (burst_call * gmap mptr mbuf)) : Prop :=
  observing : ∀ p from i pkts m fl, ∃ fl',
    brick_burst p from i pkts m fl = Some (0, fl') ∧ fl_mem fl' = fl_mem fl ∧
    seen (fl_world fl') = seen (fl_world fl) ++ [(mk_call (Some p) from i pkts m, fl_mem fl)].

Section Burst.

Context {W : Type} `{!Dispatch W, !PktLib W}.
Context (seen : W → list (burst_call * gmap mptr mbuf)) `{!Observing W seen}.
Context (rte_ipv4_cksum rte_raw_cksum : list Z → Z).
Context (st : pg_pmtud_state) (pkts : pkts_t) (n : ptr) (e : pg_brick_edge).
Context (s_from : pg_brick_side) (to : pg_side).
Implicit Types (mem : gmap mptr mbuf) (fl : flow W).

(** The packet at index [j] of the burst. *)
Definition pkt_at mem (j : nat) : option mbuf := p ← pkts !! j; mem !! p.

(** It can be read, it is not the brick's own buffer, and it can be quoted. *)
Definition readable mem (buf : list Z) (j : nat) : Prop :=
  ∃ p v, pkts !! j = Some p ∧ p ≠ icmp st ∧ mem !! p = Some v ∧ is_Some (too_big st v) ∧
    is_Some (icmp_answer rte_ipv4_cksum rte_raw_cksum buf v).

Definition is_big mem (j : nat) : Prop := (v ← pkt_at mem j; too_big st v) = Some true.
#[global] Instance is_big_dec mem j : Decision (is_big mem j).
Proof. unfold is_big. apply _. Defined.

(** The burst of one packet that answers the packet at index [j]. *)
Definition answered mem (buf : list Z) (j : nat) (c : burst_call * gmap mptr mbuf) : Prop :=
  c.1 = mk_call (Some n) to (pair_index e) [icmp st] 1 ∧
  ∃ v a, pkt_at mem j = Some v ∧ c.2 !! icmp st = Some a ∧
    answers rte_ipv4_cksum rte_raw_cksum v buf (data a).

(** The memory but for the contents of the brick's own packet. *)
Definition same_others (buf : list Z) mem mem' : Prop :=
  (∀ p, p ≠ icmp st → mem' !! p = mem !! p) ∧
  ∃ w, mem' !! icmp st = Some w ∧ same_template (data w) buf.

Lemma send_seen (q : ptr) from i (ps : pkts_t) m fl :
  ∃ fl', pg_brick_burst (Some q) from i ps m fl = Some (0, fl') ∧ fl_mem fl' = fl_mem fl ∧
    seen (fl_world fl') = seen (fl_world fl) ++ [(mk_call (Some q) from i ps m, fl_mem fl)].
Proof.
  unfold pg_brick_burst, mbind, M_bind, count_add, modify.
  match goal with |- context [brick_burst q from i ps m ?f] =>
    destruct (observing q from i ps m f) as (fl'&H1&H2&H3) end.
  exists fl'. done.
Qed.

Lemma pkt_at_others buf mem mem' j :
  readable mem buf j → same_others buf mem mem' → pkt_at mem' j = pkt_at mem j.
Proof.
  intros (p&v&Hp&Hne&_) [Hs _]. unfold pkt_at. rewrite Hp. simpl. by apply Hs.
Qed.

Lemma load_bind {B} (p : mptr) v (k : mbuf → M (flow W) B) fl :
  fl_mem fl !! p = Some v → (load_pkt p ≫= k) fl = k v fl.
Proof. intros H. unfold load_pkt, mbind, M_bind, gets. by rewrite H. Qed.

(** One answer: the buffer is filled and sent back. *)
Lemma answer_step buf mem fl j p v :
  link e = Some n → side_edges s_from = Edge e → same_others buf mem (fl_mem fl) →
  pkts !! j = Some p → p ≠ icmp st → mem !! p = Some v →
  is_Some (icmp_answer rte_ipv4_cksum rte_raw_cksum buf v) →
  ∃ fl' c,
    (∀ B (k : Z → M (flow W) B),
      (w ← load_pkt (icmp st);
       answer ← unwrap (icmp_answer rte_ipv4_cksum rte_raw_cksum (data w) v);
       store_pkt (icmp st) (set_data w answer);;
       e ← edge_of s_from;
       r ← pg_brick_burst (link e) to (pair_index e) [icmp st] 1; k r) fl = k 0 fl') ∧
    same_others buf mem (fl_mem fl') ∧ seen (fl_world fl') = seen (fl_world fl) ++ [c] ∧
    answered mem buf j c.
Proof.
  intros Hn He [Hs (w&Hw&Ht)] Hp Hne Hv [ans Ha].
  rewrite <- (icmp_answer_template _ _ _ _ v Ht) in Ha.
  pose proof (icmp_answer_spec _ _ _ _ _ Ha) as Hans.
  destruct (send_seen n to (pair_index e) [icmp st] 1 (mk_flow
    (<[icmp st := set_data w ans]> (fl_mem fl)) (fl_count fl) (fl_errp fl) (fl_world fl)))
    as (fl'&Hr&Hm&Hsn).
  eexists fl', _. split.
  { intros B k. rewrite (load_bind _ w) by done. rewrite Ha. cbn [unwrap]. rewrite M_bind_ret.
    unfold mbind at 1, M_bind at 1, store_pkt at 1, modify.
    unfold edge_of. rewrite He, M_bind_ret, Hn. unfold mbind, M_bind. by rewrite Hr. }
  cbn [fl_mem fl_world] in Hm, Hsn.
  split; [|split; [exact Hsn|]].
  - rewrite Hm. split.
    + intros q Hq. rewrite lookup_insert_ne by done. by apply Hs.
    + eexists. rewrite lookup_insert_eq. split; [done|]. cbn [set_data data].
      destruct Hans as (_&_&_&_&_&H1&_), H1, Ht. unfold same_template in *.
      intuition congruence.
  - split; [done|]. exists v, (set_data w ans). unfold pkt_at. rewrite Hp. split; [done|].
    split; [cbn [snd]; by rewrite lookup_insert_eq|]. cbn [set_data data].
    unfold answers in *. cbv zeta in *. destruct Ht, Hans as (?&?&?&?&?&H1&?&?), H1.
    unfold same_template. intuition congruence.
Qed.

Lemma pmtud_loop_spec buf mem l m fl :
  link e = Some n → side_edges s_from = Edge e → is_mask m → NoDup l →
  Forall (λ j, mask_has m j = true ∧ readable mem buf j) l → same_others buf mem (fl_mem fl) →
  ∃ m' cs fl', pmtud_loop rte_ipv4_cksum rte_raw_cksum st s_from to pkts l m fl
      = Some (Some m', fl') ∧ is_mask m' ∧ same_others buf mem (fl_mem fl') ∧
    seen (fl_world fl') = seen (fl_world fl) ++ cs ∧
    Forall2 (answered mem buf) (filter (is_big mem) l) cs ∧
    ∀ j, mask_has m' j = true ↔ mask_has m j = true ∧ ¬ (j ∈ l ∧ is_big mem j).
Proof.
  intros Hn He. revert m fl. induction l as [|i l IH]; intros m fl Hm Hnd HF Hs;
    cbn [pmtud_loop].
  { exists m, [], fl. rewrite app_nil_r. split_and!; [done..|constructor|]. intros j. split.
    - intros ?. split; [done|]. by intros [?%not_elem_of_nil _].
    - by intros []. }
  apply Forall_cons in HF as [[Hi Hread] HF]. apply NoDup_cons in Hnd as [Hil Hnd].
  pose proof Hread as (p&v&Hp&Hne&Hv&[big Hbig]&Hans). rewrite Hp. cbn [unwrap].
  rewrite M_bind_ret, (load_bind _ v) by (by rewrite (proj1 Hs p Hne)). rewrite Hbig. cbn [unwrap]. rewrite M_bind_ret, filter_cons.
  assert (is_big mem i ↔ big = true) as Hib.
  { unfold is_big, pkt_at. rewrite Hp. cbn [mbind option_bind]. rewrite Hv.
    cbn [mbind option_bind]. rewrite Hbig. naive_solver. }
  destruct big.
  - rewrite decide_True by (by apply Hib).
    destruct (answer_step buf mem fl i p v) as (fl1&c&Hr&Hs1&Hsn&Hc); [done..|].
    destruct (IH (Z.lxor m (Z.shiftl ONE64 (Z.of_nat i))) fl1) as
      (m'&cs&fl'&Hr'&Hm'&Hs'&Hsn'&Hcs&Hiff); [| |  |done|].
    + pose proof (mask_has_lt m i Hm Hi). apply mask_lxor_range; [done|]. by apply is_mask_bit.
    + done.
    + apply Forall_forall. intros j Hjl. rewrite Forall_forall in HF.
      destruct (HF j Hjl) as [Hj Hrj]. split; [|done].
      rewrite mask_has_lxor, mask_has_bit, Hj, bool_decide_false; [done|]. by intros ->.
    + exists m', (c :: cs), fl'. rewrite <- Hr'. split_and!; [|done|done|..].
      * by rewrite Hr.
      * rewrite Hsn', Hsn, <- app_assoc. done.
      * by constructor.
      * intros j. rewrite Hiff, mask_has_lxor, mask_has_bit, elem_of_cons.
        case_bool_decide as Hij.
        -- subst j. rewrite Hi. cbn. split; [by intros []|]. intros [_ []]. tauto.
        -- rewrite xorb_false_r. split; intros [? Hx]; (split; [done|]); naive_solver.
  - rewrite decide_False by (by rewrite Hib).
    destruct (IH m fl) as (m'&cs&fl'&Hr'&Hm'&Hs'&Hsn'&Hcs&Hiff); [done..|].
    exists m', cs, fl'. split_and!; [done..|]. intros j. rewrite Hiff, elem_of_cons.
    split; intros [? Hj]; (split; [done|]); intros [Hl Hb]; apply Hj; [|tauto].
    destruct Hl as [->|?]; [|done]. by apply Hib in Hb.
Qed.

End Burst.


(** ** Witness *)

(** A neighbourhood that keeps what it receives. *)
Definition observer : Dispatch (list (burst_call * gmap mptr mbuf)) := λ p from i pkts m,
  modify (λ fl, mk_flow (fl_mem fl) (fl_count fl) (fl_errp fl)
    (fl_world fl ++ [(mk_call (Some p) from i pkts m, fl_mem fl)]));; mret 0.

Lemma observer_observing : @Observing _ observer id.
Proof. intros p from i pkts m fl. eexists. done. Qed.

(** A packet of 1500 bytes that must not be fragmented, and a short one. *)
Definition demo_ip (len : Z) : mbuf :=
  mk_mbuf (replicate 6 7 ++ replicate 6 9 ++ [8; 0] ++ [0x45; 0; 0; 0; 0; 0; 0x40; 0; 64; 17; 0; 0]
           ++ [10; 0; 0; 1; 10; 0; 0; 2] ++ replicate 8 1) len 14 0 0 0 1.

Definition demo_pmtud : pg_pmtud_state := mk_pmtud PG_EAST_SIDE 1000 986 7%positive.

Definition pmtud_flow : flow (list (burst_call * gmap mptr mbuf)) :=
  mk_flow {[5%positive := demo_ip 1500; 6%positive := demo_ip 60;
            7%positive := mk_mbuf (replicate 70 0) 70 14 0 0 0 1]} ∅ None [].

Definition demo_pmtud_sides (s : pg_side) : pg_brick_side :=
  mk_side 1 1 (Edge (mk_edge (Some (if s then 8 else 9)%positive) 0)).

