(* ===== verification/Vtep.v ===== *)
(** * VXLAN tunnel end points ([src/vtep-impl.h], [src/vtep.c], [src/vtep6.c])

    A multipole that puts the packets of its ports in VXLAN, one virtual network per
    port, and takes them out. [vtep-impl.h] is compiled twice, for IPv4 and for IPv6;
    here the version is an argument. Addresses are the bytes in memory.

    Each port has two tables: where the known inner addresses are reached, and which
    inner addresses live on the port. A failed allocation in a table jumps to the
    handler that the burst function installed with [setjmp]. *)

From S2P Require Import Prelude Bitmask Common Brick BrickInv Burst MacTable Switch.
From S2P Require Import Packets Network Endpoints.

(** ** Data *)

Inductive ip_version := V4 | V6.

(** The memory of a [struct pg_mac_table]: zeroes, a table in use, or a table whose
    arrays were freed. *)
Inductive table_mem (A : Type) :=
  | TNull
  | TLive (t : pg_mac_table A)
  | TFreed.
Arguments TNull {A}.
Arguments TLive {A}.
Arguments TFreed {A}.

Record dest_addresses := mk_dest { da_mac : list Z; da_ip : list Z; lifetime : Z }.

Definition IS_MAC_TO_DST_DEAD : Z := 1.
Definition IS_KNOWN_MAC_DEAD : Z := 2.
Definition HAS_BEEN_BROKEN : Z := 4.

(** [struct vtep_port]; [vni] is in network order, shifted. *)
Record vtep_port := mk_port {
  vni : Z;
  multicast_ip : list Z;
  mac_to_dst : table_mem dest_addresses;
  known_mac : table_mem unit;
  dead_tables : Z;
}.

Definition PG_VTEP_NO_COPY : Z := 1.
Definition PG_VTEP_NO_INNERMAC_CHECK : Z := 2.
Definition PG_VTEP_FORCE_UPD_IPV6_CHECKSUM : Z := 4.
Definition PG_VTEP_ALL_OPTI : Z := Z.lor PG_VTEP_NO_COPY PG_VTEP_NO_INNERMAC_CHECK.
Definition DEFAULT_MAX_LIFETIME : Z := 1000.

(** [struct vtep_state]. *)
Record vtep_state := mk_vtep {
  vt_mac : list Z;
  vt_output : pg_side;
  udp_dst_port_be : Z;
  ports : list vtep_port;
  packet_id : Z;
  vt_sum : Z;
  flags : Z;
  vt_pkts : pkts_t;
  vt_ip : list Z;
  max_lifetime : Z;
  vtep_tick : Z;
}.

Definition set_ports st (l : list vtep_port) : vtep_state :=
  mk_vtep (vt_mac st) (vt_output st) (udp_dst_port_be st) l (packet_id st) (vt_sum st) (flags st)
    (vt_pkts st) (vt_ip st) (max_lifetime st) (vtep_tick st).
Definition set_packet_id st (n : Z) : vtep_state :=
  mk_vtep (vt_mac st) (vt_output st) (udp_dst_port_be st) (ports st) n (vt_sum st) (flags st)
    (vt_pkts st) (vt_ip st) (max_lifetime st) (vtep_tick st).
Definition set_vt_pkts st (l : pkts_t) : vtep_state :=
  mk_vtep (vt_mac st) (vt_output st) (udp_dst_port_be st) (ports st) (packet_id st) (vt_sum st)
    (flags st) l (vt_ip st) (max_lifetime st) (vtep_tick st).
Definition set_tick st (n : Z) : vtep_state :=
  mk_vtep (vt_mac st) (vt_output st) (udp_dst_port_be st) (ports st) (packet_id st) (vt_sum st)
    (flags st) (vt_pkts st) (vt_ip st) (max_lifetime st) n.

Definition set_mac_to_dst p t := mk_port (vni p) (multicast_ip p) t (known_mac p) (dead_tables p).
Definition set_known_mac p t := mk_port (vni p) (multicast_ip p) (mac_to_dst p) t (dead_tables p).
Definition set_dead_tables p d := mk_port (vni p) (multicast_ip p) (mac_to_dst p) (known_mac p) d.

Definition has_flag (st : vtep_state) (f : Z) : bool := negb (Z.land (flags st) f =? 0).

Definition are_mac_tables_dead (port : vtep_port) : bool :=
  negb (Z.land (dead_tables port) (Z.lor IS_MAC_TO_DST_DEAD IS_KNOWN_MAC_DEAD) =? 0).

(** ** Computations with jumps *)

(** A computation returns or jumps to the handler in force. *)
Inductive outcome (A : Type) :=
  | Done (a : A)
  | Jump.
Arguments Done {A}.
Arguments Jump {A}.

(** The data flow, the state of the brick, and the answers of the allocator. *)
Record venv (W : Type) := mk_venv {
  v_flow : flow W;
  v_st : vtep_state;
  v_allocs : list bool;
}.
Arguments mk_venv {W}.
Arguments v_flow {W}.
Arguments v_st {W}.
Arguments v_allocs {W}.

Definition VM (W A : Type) : Type := venv W → option (outcome A * venv W).

Global Instance VM_ret W : MRet (VM W) := λ A a e, Some (Done a, e).
Global Instance VM_bind W : MBind (VM W) := λ A B f m e,
  match m e with
  | Some (Done a, e') => f a e'
  | Some (Jump, e') => Some (Jump, e')
  | None => None
  end.

Section Monad.

Context {W : Type}.

(** A computation on the data flow alone. *)
Definition vflow {A} (m : M (flow W) A) : VM W A := λ e,
  match m (v_flow e) with
  | Some (a, fl) => Some (Done a, mk_venv fl (v_st e) (v_allocs e))
  | None => None
  end.
Definition vunwrap {A} (o : option A) : VM W A := vflow (unwrap o).
Definition vcrash {A} : VM W A := vflow crash.
Definition vgets {A} (f : vtep_state → A) : VM W A := λ e, Some (Done (f (v_st e)), e).
Definition vmodify (f : vtep_state → vtep_state) : VM W unit := λ e,
  Some (Done tt, mk_venv (v_flow e) (f (v_st e)) (v_allocs e)).
Definition verror (err : pg_error) : VM W unit := vflow (flow_error err).
Definition vjump {A} : VM W A := λ e, Some (Jump, e).
(** [pg_malloc]: whether it succeeds. *)
Definition valloc : VM W bool := λ e,
  let '(ok, l) := take_alloc (v_allocs e) in Some (Done ok, mk_venv (v_flow e) (v_st e) l).
(** [if (setjmp(env)) handler; body]. *)
Definition vcatch {A} (body handler : VM W A) : VM W A := λ e,
  match body e with
  | Some (Jump, e') => handler e'
  | r => r
  end.

Definition get_port (i : nat) : VM W vtep_port := p ← vgets (λ st, ports st !! i); vunwrap p.
Definition put_port (i : nat) (p : vtep_port) : VM W unit :=
  vmodify (λ st, set_ports st (<[i := p]> (ports st))).

(** ** The tables of a port *)

Definition tbl_get {A} (t : table_mem A) (mac : pg_mac) : option (option A) :=
  match t with
  | TNull => Some None
  | TLive t => table_get t mac
  | TFreed => None
  end.

(** An insertion in the table that [put] writes back. *)
Definition tbl_set {A} (t : table_mem A) (mac : pg_mac) (entry : A) (put : table_mem A → VM W unit)
    : VM W unit :=
  match t with
  | TLive t =>
      let fresh := negb (pg_mac_table_is_set (mt_mask t) (pg_mac_table_part1 mac)) in
      ok1 ← (if fresh then valloc else mret true);
      ok2 ← (if fresh && ok1 then valloc else mret true);
      r ← vunwrap (table_set ok1 ok2 t mac entry);
      match r with
      | SetDone t => put (TLive t)
      | SetJump t => put (TLive t);; vjump
      end
  | _ => vcrash
  end.

(** [pg_mac_table_free]. *)
Definition tbl_free {A} (t : table_mem A) : option (table_mem A) :=
  match t with
  | TNull => Some TNull
  | TLive t => _ ← pg_mac_table_free t; Some TFreed
  | TFreed => None
  end.

(** A write through the pointer that [pg_mac_table_elem_get] returned. *)
Definition tbl_touch {A} (t : table_mem A) (mac : pg_mac) (entry : A) : option (table_mem A) :=
  match t with
  | TLive t =>
      s ← mt_subs t !! pg_mac_table_part1 mac;
      es ← sub_entries s;
      Some (TLive (mk_tbl (mt_mask t) (<[pg_mac_table_part1 mac :=
        mk_sub (sub_mask s) (Some (<[pg_mac_table_part2 mac := entry]> es))]> (mt_subs t))))
  | _ => None
  end.

Definition do_add_mac (port : nat) (mac : list Z) : VM W unit :=
  p ← get_port port;
  tbl_set (known_mac p) (le_bytes mac) tt (λ t, p ← get_port port; put_port port (set_known_mac p t)).

Definition try_fix_tables (port : nat) : VM W Z :=
  let no_mem := verror (pg_error_new_errno 12 "out of memory");; mret (-1) in
  p ← get_port port;
  ok ← (if negb (Z.land (dead_tables p) IS_MAC_TO_DST_DEAD =? 0)
        then ok ← valloc;
             (if ok : bool then put_port port (set_dead_tables (set_mac_to_dst p (TLive (mk_tbl ∅ ∅)))
                          (Z.lxor (dead_tables p) IS_MAC_TO_DST_DEAD))
              else mret tt);; mret ok
        else mret true);
  if negb ok then no_mem
  else
    p ← get_port port;
    ok ← (if negb (Z.land (dead_tables p) IS_KNOWN_MAC_DEAD =? 0)
          then ok ← valloc;
               (if ok : bool then put_port port (set_dead_tables (set_known_mac p (TLive (mk_tbl ∅ ∅)))
                            (Z.lxor (dead_tables p) IS_KNOWN_MAC_DEAD))
                else mret tt);; mret ok
          else mret true);
    if negb ok then no_mem else mret 0.

End Monad.

(** ** Headers *)

Definition ip_hdr_size (v : ip_version) : nat := match v with V4 => 20 | V6 => 40 end.
(** [sizeof(struct headers)] and [HEADER_LENGTH]. *)
Definition headers_size (v : ip_version) : nat := (ip_hdr_size v + 8 + 8)%nat.
Definition HEADER_LENGTH (v : ip_version) : nat := (headers_size v + 14)%nat.

Definition PG_VTEP_BE_I_FLAG : Z := PG_CPU_TO_BE_32 PG_VTEP_I_FLAG.
Definition ETHER_TYPE_IP (v : ip_version) : Z :=
  match v with V4 => PG_BE_ETHER_TYPE_IPv4 | V6 => PG_BE_ETHER_TYPE_IPv6 end.
Definition UDP_MIN_PORT : Z := 49152.
Definition UDP_PORT_RANGE : Z := 16383.

Definition pg_is_multicast_ip (v : ip_version) (ip : list Z) : bool :=
  match v with V4 => is_multicast_ipv4 (le_bytes ip) | V6 => is_multicast_ip_tab ip end.
Definition pg_multicast_get_dst_addr (v : ip_version) (ip : list Z) : option (list Z) :=
  match v with
  | V4 => Some (pg_multicast_get_dst_addr4 (le_bytes ip))
  | V6 => pg_multicast_get_dst_addr6 ip
  end.
Definition pg_ip_proto (v : ip_version) (ip : list Z) : option Z :=
  match v with V4 => ip !! 9%nat | V6 => ip !! 6%nat end.
Definition ip_src (v : ip_version) (ip : list Z) : option (list Z) :=
  match v with V4 => bytes_at ip 12 4 | V6 => bytes_at ip 8 16 end.
Definition ip_dst (v : ip_version) (ip : list Z) : option (list Z) :=
  match v with V4 => bytes_at ip 16 4 | V6 => bytes_at ip 24 16 end.

Definition load32 (d : list Z) (off : nat) : option Z := b ← bytes_at d off 4; Some (le_bytes b).

Definition ip6_build (src_ip dst_ip : list Z) (pkt_len : Z) : list Z :=
  le32 (PG_CPU_TO_BE_32 (Z.shiftl 6 28)) ++ le16 (PG_CPU_TO_BE_16 pkt_len)
  ++ [PG_UDP_PROTOCOL_NUMBER; 0xff] ++ src_ip ++ dst_ip.

Definition vxlan_build (vni : Z) : list Z := le32 PG_VTEP_BE_I_FLAG ++ le32 vni.

Definition src_port_compute (seed : Z) : Z := u16 (Z.land seed UDP_PORT_RANGE + UDP_MIN_PORT).

(** [udp_build], and [udp_build_cksum] with the checksum it stores. *)
Definition udp_build (udp_dst_port datagram_len seed cksum : Z) : list Z :=
  le16 (PG_CPU_TO_BE_16 (src_port_compute seed)) ++ le16 udp_dst_port
  ++ le16 (PG_CPU_TO_BE_16 datagram_len) ++ le16 cksum.

Definition ethernet_build (v : ip_version) (src_mac dst_mac : list Z) : list Z :=
  dst_mac ++ src_mac ++ le16 (ETHER_TYPE_IP v).

Definition udp_overhead : Z := 8 + 8.
(** The size of an IPv4 header is added for IPv6 too. *)
Definition ip_overhead : Z := udp_overhead + 20.

(** ** Encapsulation *)

(** [rte_pktmbuf_adj(p, len)]; [false] is NULL. *)
Class AdjLib (W : Type) := pktmbuf_adj : mptr → nat → M (flow W) bool.

(** The source MAC address and the memory from the IP header on, for the packets that
    were looked at; what the loop reads there later is not written in between. *)
Abbreviation headers_t := (gmap nat (list Z * list Z)).

(** What the vtep uses of DPDK and of memory the program does not write. *)
Record vtep_lib := mk_vlib {
  (** [is_multicast_ether_addr]. *)
  is_multicast : list Z → bool;
  (** [__rte_raw_cksum], [__rte_raw_cksum_reduce] and [rte_raw_cksum]. *)
  raw_cksum : list Z → Z → Z;
  raw_cksum_reduce : Z → Z;
  rte_raw_cksum : list Z → Z;
  (** [rte_ipv4_udptcp_cksum] or [rte_ipv6_udptcp_cksum], on the memory from the IP
      header on. *)
  udptcp_cksum : list Z → Z;
  (** [dst_key_ptr]: six bytes of the private area of a packet. *)
  dst_key : mptr → list Z;
  (** The first 16 bits of a [struct rte_mbuf]. *)
  mbuf_seed : mptr → Z;
}.

Section Vtep.

Context {W : Type} `{D : !Dispatch W, !PktLib W, !Collect.CloneLib W, !AdjLib W}.
Context (lib : vtep_lib) (v : ip_version).
(** The sides of the brick. *)
Context (sides : pg_side → pg_brick_side).
Implicit Types (st : vtep_state) (pkts : pkts_t).

(** [ip4_build] and [ip6_build]: the header, for the given length. *)
Definition ip_build (dst_ip : list Z) (len : Z) : VM W (list Z) :=
  st ← vgets id;
  match v with
  | V6 => mret (ip6_build (vt_ip st) dst_ip len)
  | V4 =>
      let total_length := PG_CPU_TO_BE_16 len in
      let id := u16 (packet_id st + 1) in
      vmodify (λ st, set_packet_id st id);;
      mret (ipv4_hdr_bytes 0x45 0 total_length id 0 64 PG_UDP_PROTOCOL_NUMBER
        (pg_ipv4_udp_cksum (raw_cksum_reduce lib) (vt_sum st) total_length id (le_bytes dst_ip))
        (le_bytes (vt_ip st)) (le_bytes dst_ip))
  end.

Definition PG_FRAGMENTED_MBUF : Z := 1.

(** [vtep_header_prepend]; [entry] is the address a pointer into the table was found
    for, with what it points to; it is NULL when the packet is not unicast. The
    offload flags of the packet are not kept. *)
Definition vtep_header_prepend (pkt : mptr) (port : nat)
    (entry : option (pg_mac * dest_addresses)) : VM W Z :=
  w ← vflow (load_pkt pkt);
  let packet_len := u16 (Z.of_nat (length (data w))) in
  ok ← vflow (pktmbuf_prepend pkt (HEADER_LENGTH v));
  if negb ok then
    verror (pg_error_new "No enough headroom to add VTEP headers");; mret (-1)
  else
    w ← vflow (load_pkt pkt);
    let inner := drop (HEADER_LENGTH v) (data w) in
    st ← vgets id;
    p ← get_port port;
    dst ← match entry with
          | Some (key, e) =>
              t ← vunwrap (tbl_touch (mac_to_dst p) key (mk_dest (da_mac e) (da_ip e) (vtep_tick st)));
              put_port port (set_mac_to_dst p t);;
              mret (da_mac e, da_ip e)
          | None =>
              dst ← vunwrap (pg_multicast_get_dst_addr v (multicast_ip p));
              (if has_flag st PG_VTEP_NO_INNERMAC_CHECK then mret tt
               else s_addr ← vunwrap (bytes_at inner 6 6); do_add_mac port s_addr);;
              mret (dst, multicast_ip p)
          end;
    ip ← ip_build (snd dst) (u16 (packet_len + ip_overhead));
    let vxlan := vxlan_build (vni p) in
    let udp c := udp_build (udp_dst_port_be st) (u16 (packet_len + udp_overhead))
                   (mbuf_seed lib pkt) c in
    let cksum := match v with
                 | V6 => if has_flag st PG_VTEP_FORCE_UPD_IPV6_CHECKSUM
                         then udptcp_cksum lib (ip ++ udp 0 ++ vxlan ++ inner) else 0
                 | V4 => 0
                 end in
    let w := set_data w (ethernet_build v (vt_mac st) (fst dst) ++ ip ++ udp cksum ++ vxlan ++ inner) in
    vflow (store_pkt pkt
      (if negb (Z.land (udata64 w) PG_FRAGMENTED_MBUF =? 0)
       then set_l3_len (set_l2_len w 14) 20
       else set_l2_len w (Z.of_nat (HEADER_LENGTH v + 14))));;
    mret 0.

(** The destination of a packet in the table; [None] is NULL. *)
Definition find_entry (pkt : mptr) (w : mbuf) (p : vtep_port)
    : option (option (pg_mac * dest_addresses)) :=
  if is_multicast lib (dst_key lib pkt) then Some None
  else
    key ← bytes_at (data w) 0 8;
    e ← tbl_get (mac_to_dst p) (le_bytes key);
    Some (match e with Some e => Some (le_bytes key, e) | None => None end).

Fixpoint encapsulate_loop (port : nat) pkts (l : list nat) : VM W Z :=
  match l with
  | [] => mret 0
  | i :: l =>
      pkt ← vunwrap (pkts !! i);
      w ← vflow (load_pkt pkt);
      p ← get_port port;
      entry ← vunwrap (find_entry pkt w p);
      st ← vgets id;
      tmp ← (if has_flag st PG_VTEP_NO_COPY then mret (Some pkt)
             else vflow (Collect.pktmbuf_clone pkt));
      match tmp with
      | None => mret (-1)
      | Some tmp =>
          r ← vtep_header_prepend tmp port entry;
          if r <? 0 then
            (if has_flag st PG_VTEP_NO_COPY then mret tt else vflow (pktmbuf_free tmp));;
            mret (-1)
          else
            vmodify (λ st, set_vt_pkts st (<[i := tmp]> (vt_pkts st)));;
            encapsulate_loop port pkts l
      end
  end.

Definition vtep_encapsulate (port : nat) pkts (pkts_mask : Z) : VM W Z :=
  encapsulate_loop port pkts (PG_FOREACH_BIT pkts_mask).

(** [pg_packets_free(state->pkts, mask)] where the packets are copies. *)
Definition free_copies (mask : Z) : VM W unit :=
  st ← vgets id;
  if has_flag st PG_VTEP_NO_COPY then mret tt else vflow (pg_packets_free (vt_pkts st) mask).

Definition to_vtep (from : pg_side) (edge_index : nat) pkts (pkts_mask : Z) : VM W Z :=
  st ← vgets id;
  let body :=
    p ← get_port edge_index;
    r ← (if are_mac_tables_dead p then try_fix_tables edge_index else mret 0);
    if r <? 0 then mret (-1)
    else if negb (pg_is_multicast_ip v (multicast_ip p)) then mret 0
    else
      r ← vtep_encapsulate edge_index pkts pkts_mask;
      if r <? 0 then mret (-1)
      else
        st ← vgets id;
        ret ← vflow (pg_brick_side_forward (sides (pg_flip_side from)) from (vt_pkts st) pkts_mask);
        free_copies pkts_mask;;
        mret ret in
  let handler :=
    p ← get_port edge_index;
    t ← vunwrap (tbl_free (known_mac p));
    put_port edge_index
      (set_dead_tables (set_known_mac p t) (Z.lor IS_KNOWN_MAC_DEAD HAS_BEEN_BROKEN));;
    free_copies pkts_mask;;
    verror (pg_error_new_errno 12 "not enouth space to add mac");;
    mret (-1) in
  if has_flag st PG_VTEP_NO_INNERMAC_CHECK then body else vcatch body handler.

(** ** Decapsulation *)

(** Whether the headers are those of a VXLAN packet for the port; the reads after a
    test that fails are not done. *)
Definition is_vxlan (ip : list Z) (port_be : Z) : option bool :=
  proto ← pg_ip_proto v ip;
  if negb (proto =? 17) then Some false
  else
    port ← load16 ip (ip_hdr_size v + 2);
    if negb (port =? port_be) then Some false
    else
      fl ← load32 ip (ip_hdr_size v + 8);
      Some (fl =? PG_VTEP_BE_I_FLAG).

Definition zero16 (d : list Z) (off : nat) : list Z := take off d ++ [0; 0] ++ drop (off + 2) d.

(** [check_udp_checksum]: the answer, and the headers it has changed. *)
Definition check_udp_checksum (ip : list Z) : option (bool * list Z) :=
  cksum ← load16 ip (ip_hdr_size v + 6);
  let ip := match v with V4 => zero16 ip 10 | V6 => ip end in
  let ip := zero16 ip (ip_hdr_size v + 6) in
  Some (udptcp_cksum lib ip =? cksum, ip).

Fixpoint classify_loop pkts (l : list nat) (port_be : Z) (hdrs : headers_t)
    (multicast_mask computed_mask : Z) : M (flow W) (headers_t * Z * Z) :=
  match l with
  | [] => mret (hdrs, multicast_mask, computed_mask)
  | i :: l =>
      pkt ← unwrap (pkts !! i);
      w ← load_pkt pkt;
      eth ← unwrap (pg_util_get_ether_src_addr w);
      let ip := pg_utils_get_l3 w in
      vx ← unwrap (is_vxlan ip port_be);
      if negb vx then classify_loop pkts l port_be (<[i := (eth, ip)]> hdrs) multicast_mask computed_mask
      else
        cksum ← unwrap (load16 ip (ip_hdr_size v + 6));
        r ← (if cksum =? 0 then mret (true, ip) else unwrap (check_udp_checksum ip));
        store_pkt pkt (set_data w (take (Z.to_nat (l2_len w)) (data w) ++ snd r));;
        let hdrs := <[i := (eth, snd r)]> hdrs in
        if negb (fst r) then classify_loop pkts l port_be hdrs multicast_mask computed_mask
        else
          dst ← unwrap (ip_dst v (snd r));
          classify_loop pkts l port_be hdrs
            (if pg_is_multicast_ip v dst then Z.lor multicast_mask (bit_of i) else multicast_mask)
            (Z.lor computed_mask (bit_of i))
  end.

Definition classify_pkts pkts (mask port_be : Z) : M (flow W) (headers_t * Z * Z) :=
  classify_loop pkts (PG_FOREACH_BIT mask) port_be ∅ 0 0.

Definition hdr_vni (hdrs : headers_t) (j : nat) : option Z :=
  h ← hdrs !! j; load32 (snd h) (ip_hdr_size v + 12).

(** [rte_pktmbuf_adj(pkt, pkt->l2_len + sizeof(struct headers))]. *)
Definition strip (pkt : mptr) : M (flow W) bool :=
  w ← load_pkt pkt; pktmbuf_adj pkt (Z.to_nat (l2_len w) + headers_size v).

(** [check_and_clone_vni_pkts]: 0 as soon as a copy or the removal of the headers
    fails. *)
Fixpoint clone_vni_loop pkts (l : list nat) (hdrs : headers_t) (port : vtep_port) (vni_mask : Z)
    : VM W Z :=
  match l with
  | [] => mret vni_mask
  | j :: l =>
      n ← vunwrap (hdr_vni hdrs j);
      if negb (n =? vni port) then clone_vni_loop pkts l hdrs port vni_mask
      else
        pkt ← vunwrap (pkts !! j);
        st ← vgets id;
        tmp ← (if has_flag st PG_VTEP_NO_COPY then mret (Some pkt)
               else vflow (Collect.pktmbuf_clone pkt));
        match tmp with
        | None => mret 0
        | Some tmp =>
            vmodify (λ st, set_vt_pkts st (<[j := tmp]> (vt_pkts st)));;
            ok ← vflow (strip tmp);
            if negb ok then mret 0
            else clone_vni_loop pkts l hdrs port (Z.lor vni_mask (bit_of j))
        end
  end.

Definition check_and_clone_vni_pkts pkts (mask : Z) (hdrs : headers_t) (port : vtep_port) : VM W Z :=
  clone_vni_loop pkts (PG_FOREACH_BIT mask) hdrs port 0.

(** [check_vni_pkts]: the result of [rte_pktmbuf_adj] is not looked at. *)
Fixpoint check_vni_loop pkts (l : list nat) (hdrs : headers_t) (port : vtep_port) (vni_mask : Z)
    : M (flow W) Z :=
  match l with
  | [] => mret vni_mask
  | j :: l =>
      n ← unwrap (hdr_vni hdrs j);
      if negb (n =? vni port) then check_vni_loop pkts l hdrs port vni_mask
      else
        pkt ← unwrap (pkts !! j);
        _ ← strip pkt;
        check_vni_loop pkts l hdrs port (Z.lor vni_mask (bit_of j))
  end.

Definition check_vni_pkts pkts (mask : Z) (hdrs : headers_t) (port : vtep_port) : M (flow W) Z :=
  check_vni_loop pkts (PG_FOREACH_BIT mask) hdrs port 0.

(** [add_dst_iner_macs]: the inner source addresses are reached where the packets came
    from. *)
Fixpoint add_dst_loop (port : nat) pkts (hdrs : headers_t) (l : list nat) : VM W unit :=
  match l with
  | [] => mret tt
  | i :: l =>
      pkt ← vunwrap (pkts !! i);
      w ← vflow (load_pkt pkt);
      h ← vunwrap (hdrs !! i);
      src ← vunwrap (ip_src v (snd h));
      inner ← vunwrap (pg_util_get_ether_src_addr w);
      st ← vgets id;
      p ← get_port port;
      tbl_set (mac_to_dst p) (le_bytes inner) (mk_dest (fst h) src (vtep_tick st))
        (λ t, p ← get_port port; put_port port (set_mac_to_dst p t));;
      add_dst_loop port pkts hdrs l
  end.

Definition add_dst_iner_macs (port : nat) pkts (hdrs : headers_t) (vni_mask : Z) : VM W unit :=
  add_dst_loop port pkts hdrs (PG_FOREACH_BIT vni_mask).

(** The metadata of an inner packet; [l3_len] is a field of 9 bits. *)
Definition restore_pkt (w : mbuf) : option mbuf :=
  w ← pg_utils_guess_l2 w;
  eth_type ← pg_utils_get_ether_type w;
  if eth_type =? PG_BE_ETHER_TYPE_IPv4 then Some (set_l3_len w 20)
  else if eth_type =? PG_BE_ETHER_TYPE_IPv6
  then n ← pg_utils_get_ipv6_l3_len w; Some (set_l3_len w (n mod 2 ^ 9))
  else Some w.

Fixpoint restore_loop pkts (l : list nat) : M (flow W) unit :=
  match l with
  | [] => mret tt
  | it :: l =>
      pkt ← unwrap (pkts !! it);
      w ← load_pkt pkt;
      w ← unwrap (restore_pkt w);
      store_pkt pkt w;;
      restore_loop pkts l
  end.

Definition restore_metadata pkts (vni_mask : Z) : M (flow W) unit :=
  restore_loop pkts (PG_FOREACH_BIT vni_mask).

(** The packets whose inner destination lives on the port. *)
Fixpoint hitted_loop (port : vtep_port) pkts (l : list nat) (hitted : Z) : M (flow W) Z :=
  match l with
  | [] => mret hitted
  | it :: l =>
      pkt ← unwrap (pkts !! it);
      w ← load_pkt pkt;
      key ← unwrap (bytes_at (data w) 0 8);
      entry ← unwrap (tbl_get (known_mac port) (le_bytes key));
      hitted_loop port pkts l
        (match entry with Some _ => Z.lor hitted (bit_of it) | None => hitted end)
  end.

(** The loops over the ports: the next port, and how many are left. *)
Fixpoint decapsulate_loop (from : pg_side) pkts (hdrs : headers_t) (i n : nat) (pkts_mask : Z)
    : VM W Z :=
  match n with
  | O => mret 0
  | S n =>
      if pkts_mask =? 0 then mret 0
      else
        p ← get_port i;
        r ← (if are_mac_tables_dead p then try_fix_tables i else mret 0);
        if r <? 0 then mret (-1)
        else
          p ← get_port i;
          vni_mask ← check_and_clone_vni_pkts pkts pkts_mask hdrs p;
          if vni_mask =? 0 then decapsulate_loop from pkts hdrs (S i) n pkts_mask
          else
            let pkts_mask := Z.lxor pkts_mask vni_mask in
            st ← vgets id;
            hitted_mask ← (if has_flag st PG_VTEP_NO_INNERMAC_CHECK then mret vni_mask
                           else vflow (hitted_loop p (vt_pkts st) (PG_FOREACH_BIT vni_mask) 0));
            r ← (if hitted_mask =? 0 then mret 0
                 else
                   add_dst_iner_macs i (vt_pkts st) hdrs hitted_mask;;
                   vflow (restore_metadata (vt_pkts st) hitted_mask;;
                          e ← edges_at (sides (pg_flip_side from)) i;
                          pg_brick_burst (link e) from i (vt_pkts st) hitted_mask));
            free_copies vni_mask;;
            if r <? 0 then mret (-1)
            else decapsulate_loop from pkts hdrs (S i) n pkts_mask
  end.

Definition decapsulate (from : pg_side) pkts (pkts_mask : Z) : VM W Z :=
  st ← vgets id;
  r ← vflow (classify_pkts pkts pkts_mask (udp_dst_port_be st));
  let '(hdrs, _, computed_mask) := r in
  decapsulate_loop from pkts hdrs 0 (Z.to_nat (side_nb (sides (pg_flip_side from)))) computed_mask.

Fixpoint decapsulate_simple_loop (from : pg_side) pkts (hdrs : headers_t) (i n : nat)
    (pkts_mask : Z) : VM W Z :=
  match n with
  | O => mret 0
  | S n =>
      if pkts_mask =? 0 then mret 0
      else
        p ← get_port i;
        r ← (if are_mac_tables_dead p then try_fix_tables i else mret 0);
        if r <? 0 then mret (-1)
        else
          vni_mask ← vflow (check_vni_pkts pkts pkts_mask hdrs p);
          if vni_mask =? 0 then decapsulate_simple_loop from pkts hdrs (S i) n pkts_mask
          else
            let pkts_mask := Z.lxor pkts_mask vni_mask in
            add_dst_iner_macs i pkts hdrs vni_mask;;
            r ← vflow (restore_metadata pkts vni_mask;;
                       e ← edges_at (sides (pg_flip_side from)) i;
                       pg_brick_burst (link e) from i pkts vni_mask);
            if r <? 0 then mret (-1)
            else decapsulate_simple_loop from pkts hdrs (S i) n pkts_mask
  end.

Definition decapsulate_simple (from : pg_side) pkts (pkts_mask : Z) : VM W Z :=
  st ← vgets id;
  r ← vflow (classify_pkts pkts pkts_mask (udp_dst_port_be st));
  let '(hdrs, _, computed_mask) := r in
  decapsulate_simple_loop from pkts hdrs 0 (Z.to_nat (side_nb (sides (pg_flip_side from))))
    computed_mask.

(** The handler of [from_vtep]. *)
Fixpoint free_ports (i n : nat) : VM W unit :=
  match n with
  | O => mret tt
  | S n =>
      p ← get_port i;
      t ← vunwrap (tbl_free (mac_to_dst p));
      put_port i (set_dead_tables (set_mac_to_dst p t) (Z.lor IS_MAC_TO_DST_DEAD HAS_BEEN_BROKEN));;
      free_ports (S i) n
  end.

Definition from_vtep (from : pg_side) pkts (pkts_mask : Z) : VM W Z :=
  vcatch
    (st ← vgets id;
     if flags st =? PG_VTEP_ALL_OPTI then decapsulate_simple from pkts pkts_mask
     else decapsulate from pkts pkts_mask)
    (free_ports 0 (Z.to_nat (side_nb (sides (pg_flip_side from))));;
     verror (pg_error_new_errno 12 "not enouth space to add mac");;
     mret (-1)).

Definition vtep_burst (from : pg_side) (edge_index : nat) pkts (pkts_mask : Z) : VM W Z :=
  vmodify (λ st, set_tick st (vtep_tick st + 1));;
  st ← vgets id;
  if decide (from = vt_output st) then from_vtep from pkts pkts_mask
  else to_vtep from edge_index pkts pkts_mask.

End Vtep.

(** ** Group membership ([multicast4_internal], [multicast6_internal]) *)

(** The operations of [enum operation] that the version uses. *)
Inductive operation := SUBSCRIBE | UNSUBSCRIBE.

Definition op_type (v : ip_version) (op : operation) : Z :=
  match v, op with
  | V4, SUBSCRIBE => 0x16 | V4, UNSUBSCRIBE => 0x17
  | V6, SUBSCRIBE => 131 | V6, UNSUBSCRIBE => 132
  end.

Section Control.

Context {W : Type} `{D : !Dispatch W, !PktLib W}.
Context (lib : vtep_lib) (v : ip_version) (sides : pg_side → pg_brick_side).
(** [rte_pktmbuf_alloc(pg_get_mempool())]. *)
Context (pktmbuf_alloc : M (flow W) (option mptr)).
Implicit Types (st : vtep_state).

Definition igmp_checksum (msg : list Z) : Z := u16 (Z.lnot (rte_raw_cksum lib msg)).

(** [struct multicast_pkt] of [vtep.c]: the header has the router alert option. *)
Definition igmp_packet st (dst_mac multicast_ip : list Z) (action : operation) : list Z :=
  let dst := match action with SUBSCRIBE => multicast_ip | UNSUBSCRIBE => [224; 0; 0; 2] end in
  let ip c := [0x46; 0] ++ le16 (PG_CPU_TO_BE_16 32) ++ le16 0 ++ le16 0 ++ [1; 2] ++ le16 c
              ++ vt_ip st ++ dst ++ [0x94; 4] ++ le16 0 in
  let igmp c := [op_type V4 action; 0] ++ le16 c ++ multicast_ip in
  dst_mac ++ vt_mac st ++ le16 PG_BE_ETHER_TYPE_IPv4
  ++ ip (u16 (Z.lnot (rte_raw_cksum lib (ip 0)))) ++ igmp (igmp_checksum (igmp 0)).

(** [struct multicast_pkt] of [vtep6.c]; the message is sent without checksum. *)
Definition mld_packet st (dst_mac multicast_ip : list Z) (action : operation) : list Z :=
  let dst := match action with
             | SUBSCRIBE => [0xff; 2] ++ replicate 13 0 ++ [2]
             | UNSUBSCRIBE => [0xff; 2] ++ replicate 13 0 ++ [1] end in
  dst_mac ++ vt_mac st ++ le16 (PG_CPU_TO_BE_16 ETHER_TYPE_IPv6)
  ++ le32 (PG_CPU_TO_BE_32 (Z.shiftl 6 28)) ++ le16 (PG_CPU_TO_BE_16 68) ++ [58; 0xff]
  ++ vt_ip st ++ dst
  ++ [op_type V6 action; 0] ++ le16 0 ++ le32 0 ++ le32 0 ++ multicast_ip.

Definition multicast_internal (multicast_ip : list Z) (action : operation) : VM W unit :=
  dst ← vunwrap (pg_multicast_get_dst_addr v multicast_ip);
  if negb (pg_is_multicast_ip v multicast_ip) then
    verror (pg_error_new "invalid multicast address")
  else
    o ← vflow pktmbuf_alloc;
    match o with
    | None => verror (pg_error_new "packet allocation failed")
    | Some p =>
        st ← vgets id;
        let bytes := match v with
                     | V4 => igmp_packet st dst multicast_ip action
                     | V6 => mld_packet st dst multicast_ip action
                     end in
        ok ← vflow (pktmbuf_append p (length bytes));
        if negb ok then
          match v with V4 => verror (pg_error_new "rte_pktmbuf_append fail") | V6 => vcrash end
        else
          vflow (write_bytes Append p bytes;;
                 pg_brick_side_forward (sides (vt_output st)) (pg_flip_side (vt_output st)) [p]
                   (pg_mask_firsts 1);;
                 pktmbuf_free p)
    end.

Definition multicast_subscribe (ip : list Z) : VM W unit := multicast_internal ip SUBSCRIBE.
Definition multicast_unsubscribe (ip : list Z) : VM W unit := multicast_internal ip UNSUBSCRIBE.

(** ** Virtual networks *)

Definition is_vni_valid (vni : Z) : bool := vni <? 16777216.

(** [rte_cpu_to_be_32(vni << 8)]. *)
Definition wire_vni (n : Z) : Z := PG_CPU_TO_BE_32 (u32 (Z.shiftl n 8)).

Definition do_add_vni (edge_index : nat) (n : Z) (ip : list Z) : VM W Z :=
  p ← get_port edge_index;
  if negb (vni p =? 0) then
    verror (pg_error_new "port already attached to a vni");; mret (-1)
  else if pg_is_multicast_ip v (multicast_ip p) then
    verror (pg_error_new "port alread have a mutlicast IP");; mret (-1)
  else
    ok1 ← valloc;
    ok2 ← valloc;
    if negb (ok1 && ok2) then vcrash
    else
      put_port edge_index (mk_port (wire_vni n) ip (TLive (mk_tbl ∅ ∅)) (TLive (mk_tbl ∅ ∅))
        (dead_tables p));;
      multicast_subscribe ip;;
      mret 0.

(** The first slot linked to the neighbour. *)
Fixpoint find_neighbor (es : list pg_brick_edge) (neighbor : ptr) (i : nat) : option nat :=
  match es with
  | [] => None
  | e :: es => if decide (link e = Some neighbor) then Some i else find_neighbor es neighbor (S i)
  end.

(** [pg_vtep4_add_vni] and [pg_vtep6_add_vni]; the brick is read before it is compared
    with NULL, so it is not NULL here. *)
Definition pg_vtep_add_vni (neighbor : option ptr) (n : Z) (ip : list Z) : VM W Z :=
  st ← vgets id;
  let side := pg_flip_side (vt_output st) in
  match neighbor with
  | None => verror (pg_error_new "VTEP brick is NULL");; mret (-1)
  | Some q =>
      if negb (is_vni_valid n) then verror (pg_error_new "Invalid VNI");; mret (-1)
      else if negb (pg_is_multicast_ip v ip) then
        verror (pg_error_new "Provided IP is not in the multicast range");; mret (-1)
      else
        es ← vunwrap (match side_edges (sides side) with Edges es => Some es | Edge _ => None end);
        match find_neighbor es q 0 with
        | None => verror (pg_error_new "VTEP brick index not found");; mret (-1)
        | Some i =>
            r ← do_add_vni i n ip;
            if r <? 0 then mret (-1)
            else do_add_mac i (replicate 6 0xff);; mret 0
        end
  end.

(** [memset(port, 0, sizeof(struct vtep_port))]. *)
Definition zero_port : vtep_port :=
  mk_port 0 (replicate (match v with V4 => 4 | V6 => 16 end) 0) TNull TNull 0.

Definition do_remove_vni (edge_index : nat) : VM W unit :=
  p ← get_port edge_index;
  if negb (pg_is_multicast_ip v (multicast_ip p)) then mret tt
  else
    multicast_unsubscribe (multicast_ip p);;
    err ← vflow (gets fl_errp);
    if pg_error_is_set err then mret tt
    else
      vunwrap (if Z.land (dead_tables p) IS_KNOWN_MAC_DEAD =? 0
               then _ ← tbl_free (known_mac p); Some tt else Some tt);;
      vunwrap (if Z.land (dead_tables p) IS_MAC_TO_DST_DEAD =? 0
               then _ ← tbl_free (mac_to_dst p); Some tt else Some tt);;
      put_port edge_index zero_port.

Definition vtep_unlink_notify (side : pg_side) (edge_index : nat) : VM W unit :=
  st ← vgets id;
  if decide (side = vt_output st) then mret tt else do_remove_vni edge_index.

(** [pg_vtep4_add_mac] and [pg_vtep6_add_mac]: the loop over the ports that are
    linked. A jump frees [mac_to_dst] and marks [known_mac]. *)
Fixpoint add_mac_loop (i k : nat) (n : Z) (mac : list Z) : VM W Z :=
  match k with
  | O => verror (pg_error_new "vni not found in brick");; mret (-1)
  | S k =>
      p ← get_port i;
      if vni p =? n then
        vcatch (do_add_mac i mac;; mret 0)
          (p ← get_port i;
           t ← vunwrap (tbl_free (mac_to_dst p));
           put_port i (set_dead_tables (set_mac_to_dst p t) IS_KNOWN_MAC_DEAD);;
           verror (pg_error_new_errno 12 "not enouth space to add mac");;
           mret (-1))
      else add_mac_loop (S i) k n mac
  end.

Definition nb_ports st : nat := Z.to_nat (side_nb (sides (pg_flip_side (vt_output st)))).

Definition pg_vtep_add_mac (n : Z) (mac : list Z) : VM W Z :=
  st ← vgets id; add_mac_loop 0 (nb_ports st) (wire_vni n) mac.

(** [pg_vtep4_unset_mac] and [pg_vtep6_unset_mac]: the port is looked up at the index
    [vni]. *)
Fixpoint unset_mac_loop (k : nat) (n : Z) (mac : list Z) : VM W Z :=
  match k with
  | O => mret (-1)
  | S k =>
      p ← get_port (Z.to_nat n);
      if vni p =? n then
        match mac_to_dst p with
        | TNull => mret (-1)
        | TLive t =>
            r ← vunwrap (pg_mac_table_elem_unset t (le_bytes mac));
            put_port (Z.to_nat n) (set_mac_to_dst p (TLive (snd r)));;
            mret (fst r)
        | TFreed => vcrash
        end
      else unset_mac_loop k n mac
  end.

Definition pg_vtep_unset_mac (n : Z) (mac : list Z) : VM W Z :=
  st ← vgets id; unset_mac_loop (nb_ports st) n mac.

(** [pg_vtep4_mac_to_dst] and [pg_vtep6_mac_to_dst]; a remainder by zero stops the
    program, and port numbers are not negative. *)
Definition pg_vtep_mac_to_dst (port_id : nat) : VM W (table_mem dest_addresses) :=
  st ← vgets id;
  if decide (nb_ports st = 0%nat) then vcrash
  else p ← get_port (port_id `mod` nb_ports st)%nat; mret (mac_to_dst p).

(** [pg_vtep4_clean_all_mac] and [pg_vtep6_clean_all_mac]. *)
Definition pg_vtep_clean_all_mac (port_id : nat) : VM W unit :=
  st ← vgets id;
  if decide (nb_ports st = 0%nat) then vcrash
  else if decide (nb_ports st ≤ port_id)%nat then mret tt
  else
    p ← get_port port_id;
    match mac_to_dst p with
    | TNull => mret tt
    | TLive t =>
        t ← vunwrap (pg_mac_table_clear t);
        put_port port_id (set_mac_to_dst p (TLive t))
    | TFreed => vcrash
    end.

(** [pg_vtep4_cleanup_mac] and [pg_vtep6_cleanup_mac]: entries that were not used for
    more than [max_lifetime] bursts are dropped. *)
Definition too_old st (da : dest_addresses) : bool :=
  u64 (max_lifetime st) <? u64 (vtep_tick st - lifetime da).

Definition pg_vtep_cleanup_mac (port_id : nat) : VM W unit :=
  st ← vgets id;
  if decide (nb_ports st = 0%nat) then vcrash
  else if decide (nb_ports st ≤ port_id)%nat then mret tt
  else
    p ← get_port port_id;
    match mac_to_dst p with
    | TNull => mret tt
    | TLive t =>
        t ← vunwrap (table_remove_if (too_old st) t);
        put_port port_id (set_mac_to_dst p (TLive t))
    | TFreed => vcrash
    end.

(** ** Life cycle *)

Fixpoint destroy_ports (i n : nat) : VM W unit :=
  match n with
  | O => mret tt
  | S n =>
      p ← get_port i;
      vunwrap (if Z.land (dead_tables p) IS_MAC_TO_DST_DEAD =? 0
               then _ ← tbl_free (mac_to_dst p); Some tt else Some tt);;
      vunwrap (if Z.land (dead_tables p) IS_KNOWN_MAC_DEAD =? 0
               then _ ← tbl_free (known_mac p); Some tt else Some tt);;
      destroy_ports (S i) n
  end.

Definition vtep_destroy : VM W unit := st ← vgets id; destroy_ports 0 (nb_ports st).

Record vtep_config := mk_vtep_config {
  cfg_output : pg_side; cfg_mac : list Z; cfg_ip : list Z; udp_dst_port : Z; cfg_flags : Z }.

Definition vtep_config_new (name : string) (west_max east_max : Z) (output : pg_side)
    (ip mac : list Z) (udp_dst_port flags : Z) : pg_brick_config vtep_config :=
  pg_brick_config_init (mk_vtep_config output mac ip (u16 udp_dst_port) flags) name west_max
    east_max PG_MULTIPOLE.

(** The configuration that [pg_vtep4_new] and [pg_vtep6_new] give to [pg_brick_new]. *)
Definition pg_vtep_new_config (name : string) (max : Z) (output : pg_side) (ip mac : list Z)
    (udp_dst_port flags : Z) : pg_brick_config vtep_config :=
  match output with
  | PG_WEST_SIDE => vtep_config_new name 1 max output ip mac udp_dst_port flags
  | PG_EAST_SIDE => vtep_config_new name max 1 output ip mac udp_dst_port flags
  end.

(** [vtep_init]; [null] fills the array of packets. *)
Definition vtep_init (null : mptr) (b : pg_brick) (config : pg_brick_config vtep_config) : vtep_state :=
  let c := brick_config config in
  mk_vtep (cfg_mac c) (cfg_output c) (PG_CPU_TO_BE_16 (udp_dst_port c))
    (replicate (Z.to_nat (u16 (pg_side_get_max b (pg_flip_side (cfg_output c))))) zero_port) 0
    (match v with V4 => pg_ipv4_init_cksum (raw_cksum lib) (le_bytes (cfg_ip c)) | V6 => 0 end)
    (cfg_flags c) (replicate PG_MAX_PKTS_BURST null) (cfg_ip c) DEFAULT_MAX_LIFETIME 0.

Definition pg_vtep_get_mac (brick : option vtep_state) : option (list Z) :=
  match brick with Some st => Some (vt_mac st) | None => None end.

End Control.
