(* ===== verification/VtepSpec.v ===== *)
(** * What the tunnel end points guarantee

    The headers that a tunnel end point puts before a packet are read back by the
    other end; the bursts of [Vtep] in a neighbourhood that observes them; the
    administration of the virtual networks. *)

From S2P Require Import Prelude Bitmask Common Brick BrickInv Burst MacTable Switch.
From S2P Require Import Packets Network Endpoints Pmtud Vtep.

(** ** Bytes *)

Definition is_byte (b : Z) : Prop := 0 ≤ b < 256.
Definition byte_list (n : nat) (l : list Z) : Prop := length l = n ∧ Forall is_byte l.

Lemma bytes_at_seg (pre seg post : list Z) off n :
  length pre = off → length seg = n → bytes_at (pre ++ seg ++ post) off n = Some seg.
Proof.
  intros <- <-. unfold bytes_at. rewrite decide_True by (rewrite !length_app; lia).
  rewrite drop_app_length, take_app_length. done.
Qed.

Lemma load16_seg (pre post : list Z) off z :
  length pre = off → 0 ≤ z < 2 ^ 16 → load16 (pre ++ le16 z ++ post) off = Some z.
Proof.
  intros Hoff Hz. unfold load16. rewrite (bytes_at_seg pre (le16 z)) by done. simpl.
  rewrite (Z.mod_small (z / 256)) by
    (split; [apply Z.div_pos; lia|apply Z.div_lt_upper_bound; lia]).
  f_equal. pose proof (Z.div_mod z 256). lia.
Qed.

Lemma le_bytes_app l1 l2 : le_bytes (l1 ++ l2) = le_bytes l1 + 256 ^ Z.of_nat (length l1) * le_bytes l2.
Proof.
  induction l1 as [|b l1 IH]; [simpl; lia|]. cbn [app le_bytes length]. rewrite IH.
  rewrite Nat2Z.inj_succ, Z.pow_succ_r by lia. lia.
Qed.

Lemma le_bytes_le16 z : le_bytes (le16 z) = z mod 2 ^ 16.
Proof.
  simpl. rewrite Z.mul_0_r, Z.add_0_r. change (2 ^ 16) with (256 * 256).
  rewrite Z.rem_mul_r by lia. done.
Qed.

Lemma le_bytes_le32 z : 0 ≤ z < 2 ^ 32 → le_bytes (le32 z) = z.
Proof.
  intros Hz. unfold le32. rewrite le_bytes_app, !le_bytes_le16, Z.shiftr_div_pow2 by lia.
  change (256 ^ Z.of_nat (length (le16 z))) with (2 ^ 16).
  rewrite (Z.mod_small (z / 2 ^ 16)) by
    (split; [apply Z.div_pos; lia|apply Z.div_lt_upper_bound; lia]).
  pose proof (Z.div_mod z (2 ^ 16)). lia.
Qed.

Lemma load32_seg (pre post : list Z) off z :
  length pre = off → 0 ≤ z < 2 ^ 32 → load32 (pre ++ le32 z ++ post) off = Some z.
Proof.
  intros Hoff Hz. unfold load32. rewrite (bytes_at_seg pre (le32 z)) by done.
  cbn [mbind option_bind]. by rewrite le_bytes_le32.
Qed.

Lemma le_bytes_range l : Forall is_byte l → 0 ≤ le_bytes l < 256 ^ Z.of_nat (length l).
Proof.
  induction 1 as [|b l Hb Hl IH]; [simpl; lia|]. cbn [le_bytes length].
  rewrite Nat2Z.inj_succ, Z.pow_succ_r by lia. unfold is_byte in Hb. lia.
Qed.

Lemma le32_le_bytes ip : byte_list 4 ip → le32 (le_bytes ip) = ip.
Proof.
  intros [Hl HF]. destruct ip as [|a [|b [|c [|d [|]]]]]; try done.
  apply Forall_cons in HF as [Ha HF]. apply Forall_cons in HF as [Hb HF].
  apply Forall_cons in HF as [Hc HF]. apply Forall_cons in HF as [Hd _].
  unfold is_byte in *. unfold le32, le16. cbn [le_bytes app]. rewrite Z.shiftr_div_pow2 by lia.
  change (2 ^ 16) with (256 * 256). rewrite <- Zdiv_Zdiv by lia.
  replace (b + 256 * (c + 256 * (d + 256 * 0))) with (b + (c + d * 256) * 256) by lia.
  replace (a + 256 * (b + (c + d * 256) * 256)) with (a + (b + (c + d * 256) * 256) * 256) by lia.
  rewrite !Z.div_add, !(Z.div_small a) by lia. rewrite !Z.add_0_l.
  rewrite !Z.div_add, !(Z.div_small b), !Z.add_0_l, !Z.div_add, !(Z.div_small c) by lia.
  rewrite !Z.mod_add by lia. rewrite !Z.mod_small by lia. done.
Qed.

(** ** The outer headers *)

Definition ip_size (v : ip_version) : nat := match v with V4 => 4 | V6 => 16 end.

(** An IP header, before any bytes, that carries UDP from [src] to [dst]. *)
Definition carries_udp (v : ip_version) (src dst ip : list Z) : Prop :=
  length ip = ip_hdr_size v ∧ ∀ rest,
    pg_ip_proto v (ip ++ rest) = Some 17 ∧ ip_src v (ip ++ rest) = Some src ∧
    ip_dst v (ip ++ rest) = Some dst.

Lemma ipv4_carries len id cksum src dst :
  byte_list 4 src → byte_list 4 dst →
  carries_udp V4 src dst (ipv4_hdr_bytes 0x45 0 len id 0 64 PG_UDP_PROTOCOL_NUMBER cksum
    (le_bytes src) (le_bytes dst)).
Proof.
  intros Hs Hd. split; [done|]. intros rest. split; [done|].
  unfold ip_src, ip_dst, ipv4_hdr_bytes. rewrite !le32_le_bytes by done. destruct Hs, Hd.
  split; rewrite <- !app_assoc.
  - rewrite !(app_assoc _ _ (src ++ _)). by apply bytes_at_seg.
  - rewrite !(app_assoc _ _ (dst ++ _)). apply bytes_at_seg; [|done].
    rewrite length_app. cbn [length app le16]. lia.
Qed.

Lemma ipv6_carries len src dst :
  length src = 16%nat → length dst = 16%nat → carries_udp V6 src dst (ip6_build src dst len).
Proof.
  intros Hs Hd. unfold ip6_build. split; [rewrite !length_app, Hs, Hd; done|].
  intros rest. split; [done|]. unfold ip_src, ip_dst. split; rewrite <- !app_assoc.
  - rewrite !(app_assoc _ _ (src ++ _)). by apply bytes_at_seg.
  - rewrite !(app_assoc _ _ (dst ++ _)). apply bytes_at_seg; [|done].
    rewrite !length_app, Hs. done.
Qed.

(** ** Running computations *)

Section Run.

Context {W : Type}.
Implicit Types (e : venv W).

Lemma vbind_done {A B} (m : VM W A) (k : A → VM W B) e e' a :
  m e = Some (Done a, e') → (m ≫= k) e = k a e'.
Proof. intros H. unfold mbind, VM_bind. by rewrite H. Qed.

Lemma vbind_jump {A B} (m : VM W A) (k : A → VM W B) e e' :
  m e = Some (Jump, e') → (m ≫= k) e = Some (Jump, e').
Proof. intros H. unfold mbind, VM_bind. by rewrite H. Qed.

Lemma vbind_ret {A B} (a : A) (k : A → VM W B) e : (mret a ≫= k) e = k a e.
Proof. done. Qed.

Lemma vbind_unwrap {A B} (o : option A) a (k : A → VM W B) e :
  o = Some a → (vunwrap o ≫= k) e = k a e.
Proof. intros ->. by destruct e. Qed.

Lemma vbind_gets {A B} (f : vtep_state → A) (k : A → VM W B) e :
  (vgets f ≫= k) e = k (f (v_st e)) e.
Proof. done. Qed.

Lemma vbind_flow {A B} (m : M (flow W) A) a fl (k : A → VM W B) e :
  m (v_flow e) = Some (a, fl) → (vflow m ≫= k) e = k a (mk_venv fl (v_st e) (v_allocs e)).
Proof. intros H. unfold mbind, VM_bind, vflow. by rewrite H. Qed.

Lemma vbind_modify {B} f (k : unit → VM W B) e :
  (vmodify f ≫= k) e = k tt (mk_venv (v_flow e) (f (v_st e)) (v_allocs e)).
Proof. done. Qed.

Lemma vbind_port {B} i p (k : vtep_port → VM W B) e :
  ports (v_st e) !! i = Some p → (get_port i ≫= k) e = k p e.
Proof.
  intros H. unfold get_port. unfold mbind, VM_bind, vgets. rewrite H. by destruct e.
Qed.

Lemma vbind_load {B} q w (k : mbuf → VM W B) e :
  fl_mem (v_flow e) !! q = Some w → (vflow (load_pkt q) ≫= k) e = k w e.
Proof.
  intros H. rewrite (vbind_flow _ w (v_flow e)); [by destruct e|].
  unfold load_pkt, mbind, M_bind, gets. by rewrite H.
Qed.

(** A handler is not run when the body returns. *)
Lemma vcatch_done {A} (b : bool) (body handler : VM W A) e a e' :
  body e = Some (Done a, e') → (if b then body else vcatch body handler) e = Some (Done a, e').
Proof. intros H. destruct b; [done|]. unfold vcatch. by rewrite H. Qed.

(** Memory is available. *)
Lemma valloc_ok e : v_allocs e = [] → valloc e = Some (Done true, e).
Proof. intros H. unfold valloc. rewrite H. destruct e. simpl in *. by subst. Qed.

Lemma mask_set_id mask p :
  pg_mac_table_is_set mask p = true → pg_mac_table_mask_set mask p = mask.
Proof.
  rewrite is_set_testbit. intros H.
  unfold pg_mac_table_mask_set, pg_mac_table_mask_idx, ONE64. rewrite mask_pos_mod.
  pose proof (Z.mod_pos_bound p 64 ltac:(lia)) as Hp.
  unfold word in *. destruct (mask !! (p / 64)) as [w|] eqn:Hw; simpl in *;
    [|by rewrite Z.bits_0 in H].
  apply insert_id. rewrite Hw. f_equal. apply Z.bits_inj'. intros n Hn.
  rewrite Z.lor_spec, Z.shiftl_1_l, Z.pow2_bits_eqb by lia.
  destruct (Z.eqb_spec (p mod 64) n) as [<-|]; [by rewrite H|by rewrite orb_false_r].
Qed.

(** Writing through a pointer to an entry replaces the entry. *)
Lemma tbl_touch_spec {A} (t : pg_mac_table A) m key x y :
  rep t m → m !! mac_key key = Some x →
  ∃ t', tbl_touch (TLive t) key y = Some (TLive t') ∧ rep t' (<[mac_key key := y]> m).
Proof.
  intros Hrep Hx. destruct (set_spec t m key y Hrep) as (t'&Hset&Hrep'). exists t'.
  split; [|done]. rewrite (rep_lookup _ _ Hrep) in Hx by (apply part1_range || apply part2_range).
  unfold tlookup, mac_key in Hx. cbn [fst snd] in Hx. unfold tbl_touch.
  unfold table_set in Hset. destruct (pg_mac_table_is_set (mt_mask t) _) eqn:H1; [|done].
  destruct (mt_subs t !! _) as [s|]; [|done]. cbn [mbind option_bind negb] in *.
  unfold sub_lookup in Hx. destruct (pg_mac_table_is_set (sub_mask s) _) eqn:H2; [|done].
  destruct (sub_entries s) as [es|]; [|done]. cbn [mbind option_bind] in *.
  rewrite (mask_set_id _ _ H2) in Hset.
  apply (inj Some), (f_equal (λ r, match r with SetDone x | SetJump x => x end)) in Hset.
  cbv beta iota in Hset. rewrite <- Hset. reflexivity.
Qed.

Lemma tbl_set_ok {A} (t : pg_mac_table A) m key x put e :
  rep t m → v_allocs e = [] →
  ∃ t', rep t' (<[mac_key key := x]> m) ∧ tbl_set (TLive t) key x put e = put (TLive t') e.
Proof.
  intros Hrep He. destruct (set_spec t m key x Hrep) as (t'&Hset&Hrep'). exists t'.
  split; [done|]. unfold tbl_set. destruct (negb _) eqn:Hfresh.
  - rewrite (vbind_done _ _ e e true) by (by apply valloc_ok). cbn [andb].
    rewrite (vbind_done _ _ e e true) by (by apply valloc_ok).
    by rewrite (vbind_unwrap _ _ _ _ Hset).
  - rewrite !vbind_ret. cbn [andb]. rewrite vbind_ret. by rewrite (vbind_unwrap _ _ _ _ Hset).
Qed.

End Run.

(** ** The invariant of the ports *)

(** A port in use: [md] is where addresses are reached, [km] the addresses that live
    on the port. *)
Record port_ok (v : ip_version) (p : vtep_port) (md : gmap (Z * Z) dest_addresses)
    (km : gmap (Z * Z) unit) : Prop := {
  po_dst : ∃ t, mac_to_dst p = TLive t ∧ rep t md;
  po_known : ∃ t, known_mac p = TLive t ∧ rep t km;
  po_ip : byte_list (ip_size v) (multicast_ip p);
  po_vni : 0 ≤ vni p < 2 ^ 32;
  po_entries k d : md !! k = Some d → length (da_mac d) = 6%nat ∧ byte_list (ip_size v) (da_ip d);
}.

Record vtep_ok (v : ip_version) (st : vtep_state) : Prop := {
  vo_mac : length (vt_mac st) = 6%nat;
  vo_ip : byte_list (ip_size v) (vt_ip st);
  vo_port : 0 ≤ udp_dst_port_be st < 2 ^ 16;
}.

(** What does not change while packets are put in tunnels. *)
Record same_vtep (st st' : vtep_state) : Prop := {
  sv_mac : vt_mac st' = vt_mac st;
  sv_output : vt_output st' = vt_output st;
  sv_port : udp_dst_port_be st' = udp_dst_port_be st;
  sv_flags : flags st' = flags st;
  sv_ip : vt_ip st' = vt_ip st;
  sv_tick : vtep_tick st' = vtep_tick st;
}.

(** Where addresses are reached, without the age of the entries. *)
Definition route (d : dest_addresses) : list Z * list Z := (da_mac d, da_ip d).
Definition same_routes (md md' : gmap (Z * Z) dest_addresses) : Prop :=
  ∀ k, route <$> md' !! k = route <$> md !! k.

(** [d] is a frame that carries [inner] on the virtual network [n], from the end point
    [st] to the given addresses. *)
Definition tunnels (v : ip_version) (st : vtep_state) (n : Z) (dst : list Z * list Z)
    (inner d : list Z) : Prop :=
  let ip := drop 14 d in
  bytes_at d 0 6 = Some (fst dst) ∧ bytes_at d 6 6 = Some (vt_mac st) ∧
  load16 d 12 = Some (ETHER_TYPE_IP v) ∧
  ip_src v ip = Some (vt_ip st) ∧ ip_dst v ip = Some (snd dst) ∧
  is_vxlan v ip (udp_dst_port_be st) = Some true ∧
  (v = V4 ∨ has_flag st PG_VTEP_FORCE_UPD_IPV6_CHECKSUM = false →
   load16 ip (ip_hdr_size v + 6) = Some 0) ∧
  load32 ip (ip_hdr_size v + 12) = Some n ∧
  drop (14 + headers_size v) d = inner.

Lemma headers_tunnel v st n dst inner ip len seed cksum :
  vtep_ok v st → 0 ≤ n < 2 ^ 32 → length (fst dst) = 6%nat →
  carries_udp v (vt_ip st) (snd dst) ip →
  (v = V4 ∨ has_flag st PG_VTEP_FORCE_UPD_IPV6_CHECKSUM = false → cksum = 0) →
  tunnels v st n dst inner
    (ethernet_build v (vt_mac st) (fst dst) ++ ip
     ++ udp_build (udp_dst_port_be st) len seed cksum ++ vxlan_build n ++ inner).
Proof.
  intros [Hmac Hip Hport] Hn Hd [Hlen Hip'] Hck. unfold tunnels. cbv zeta.
  set (rest := udp_build _ _ _ _ ++ _). destruct (Hip' rest) as (Hproto&Hsrc&Hdst).
  assert (length (ethernet_build v (vt_mac st) (fst dst)) = 14%nat) as He.
  { unfold ethernet_build. rewrite !length_app, Hmac, Hd. done. }
  rewrite (drop_app_length' (ethernet_build _ _ _)) by done.
  split_and!; [| |  |done|done| | | |].
  - unfold ethernet_build. rewrite <- !app_assoc. by apply (bytes_at_seg []).
  - unfold ethernet_build. rewrite <- !app_assoc. by apply bytes_at_seg.
  - unfold ethernet_build. rewrite <- app_assoc, <- app_assoc, app_assoc. apply load16_seg.
    + rewrite length_app. lia.
    + by destruct v; vm_compute.
  - unfold is_vxlan. rewrite Hproto. cbn [mbind option_bind].
    replace (negb (17 =? 17)) with false by done. unfold rest, udp_build.
    rewrite <- !app_assoc. rewrite !(app_assoc ip), load16_seg;
      [|rewrite length_app, Hlen; done|done]. cbn [mbind option_bind].
    rewrite Z.eqb_refl. cbn [negb]. unfold vxlan_build. rewrite <- !app_assoc.
    rewrite !(app_assoc _ _ (le32 PG_VTEP_BE_I_FLAG ++ _)).
    rewrite load32_seg; [done| |by vm_compute]. rewrite !length_app, Hlen. done.
  - intros Hv. unfold rest, udp_build. rewrite (Hck Hv). rewrite <- !app_assoc.
    rewrite !(app_assoc _ _ (le16 0 ++ _)). apply load16_seg; [|done].
    rewrite !length_app, Hlen. done.
  - unfold rest, vxlan_build. rewrite <- !app_assoc.
    rewrite !(app_assoc _ _ (le32 n ++ _)). apply load32_seg; [|done].
    rewrite !length_app, Hlen. done.
  - unfold rest. rewrite !app_assoc. apply drop_app_length'. rewrite !length_app, He, Hlen.
    unfold headers_size. cbn. lia.
Qed.

(** ** Encapsulation *)

Section Encapsulate.

Context {W : Type} `{!Dispatch W, !PktLib W, !PktLaws W, !Collect.CloneLib W, !AdjLib W}.
Context (lib : vtep_lib) (v : ip_version).
Implicit Types (e : venv W).

(** There is room for the headers before a packet. *)
Definition headroom (fl : flow W) (q : mptr) : Prop :=
  ∀ fl', pktmbuf_prepend q (HEADER_LENGTH v) fl ≠ Some (false, fl').

Lemma ip_build_spec e dst len :
  byte_list (ip_size v) (vt_ip (v_st e)) → byte_list (ip_size v) dst →
  ∃ ip id, ip_build lib v dst len e
      = Some (Done ip, mk_venv (v_flow e) (set_packet_id (v_st e) id) (v_allocs e)) ∧
    carries_udp v (vt_ip (v_st e)) dst ip.
Proof.
  intros Hs Hd. unfold ip_build. rewrite vbind_gets. destruct v.
  - rewrite vbind_modify. eexists _, _. split; [reflexivity|]. by apply ipv4_carries.
  - exists (ip6_build (vt_ip (v_st e)) dst len), (packet_id (v_st e)). split.
    + destruct e as [fl st al]. by destruct st.
    + destruct Hs, Hd. by apply ipv6_carries.
Qed.

Lemma multicast_mac ip :
  byte_list (ip_size v) ip →
  ∃ m, pg_multicast_get_dst_addr v ip = Some m ∧ length m = 6%nat.
Proof.
  intros [Hl _]. destruct v; cbn [pg_multicast_get_dst_addr].
  - by eexists.
  - unfold pg_multicast_get_dst_addr6, bytes_at. rewrite decide_True by (cbn in Hl; lia).
    cbn [mbind option_bind]. eexists. split; [done|]. cbn [app length].
    rewrite length_take, length_drop. cbn in Hl. lia.
Qed.

(** Where a packet goes: the addresses of its entry, or those of the group. *)
Definition destination (p : vtep_port) (entry : option (pg_mac * dest_addresses))
    (dst : list Z * list Z) : Prop :=
  match entry with
  | Some (_, d) => dst = route d
  | None => pg_multicast_get_dst_addr v (multicast_ip p) = Some (fst dst) ∧
            snd dst = multicast_ip p
  end.

(** The addresses on the port after a packet; the sender of a packet to the group is
    one of them. *)
Definition sender_known (st : vtep_state) (entry : option (pg_mac * dest_addresses))
    (inner : list Z) (km km' : gmap (Z * Z) unit) : Prop :=
  km ⊆ km' ∧
  (entry = None → has_flag st PG_VTEP_NO_INNERMAC_CHECK = false →
   ∃ s, bytes_at inner 6 6 = Some s ∧ km' !! mac_key (le_bytes s) = Some tt).

(** The port after a packet: the entry is younger, or the sender is known. *)
Lemma choose_destination e i p md km entry inner :
  v_allocs e = [] → ports (v_st e) !! i = Some p → port_ok v p md km →
  (14 ≤ length inner)%nat →
  match entry with Some (key, d) => md !! mac_key key = Some d | None => True end →
  ∃ dst p' md' km',
    (∀ B (k : list Z * list Z → VM W B),
      (dst ← match entry with
          | Some (key, e0) =>
              t ← vunwrap (tbl_touch (mac_to_dst p) key
                    (mk_dest (da_mac e0) (da_ip e0) (vtep_tick (v_st e))));
              put_port i (set_mac_to_dst p t);;
              mret (da_mac e0, da_ip e0)
          | None =>
              dst ← vunwrap (pg_multicast_get_dst_addr v (multicast_ip p));
              (if has_flag (v_st e) PG_VTEP_NO_INNERMAC_CHECK then mret tt
               else s_addr ← vunwrap (bytes_at inner 6 6); do_add_mac i s_addr);;
              mret (dst, multicast_ip p)
          end; k dst) e
      = k dst (mk_venv (v_flow e) (set_ports (v_st e) (<[i := p']> (ports (v_st e)))) [])) ∧
    port_ok v p' md' km' ∧ same_routes md md' ∧ vni p' = vni p ∧
    multicast_ip p' = multicast_ip p ∧ dead_tables p' = dead_tables p ∧
    destination p entry dst ∧ length (fst dst) = 6%nat ∧ byte_list (ip_size v) (snd dst) ∧
    sender_known (v_st e) entry inner km km'.
Proof.
  intros Ha Hp Hok Hin Hentry. pose proof Hok as [(t1&Ht1&Hrep1) (t2&Ht2&Hrep2) Hip Hvni Hent].
  assert (e = mk_venv (v_flow e) (v_st e) []) as He by (destruct e; simpl in *; by subst).
  destruct entry as [[key d]|].
  - destruct (tbl_touch_spec t1 md key d (mk_dest (da_mac d) (da_ip d) (vtep_tick (v_st e))))
      as (t'&Htouch&Hrep'); [done..|].
    exists (route d), (set_mac_to_dst p (TLive t')), (<[mac_key key := mk_dest (da_mac d) (da_ip d)
      (vtep_tick (v_st e))]> md), km.
    split.
    { intros B k. rewrite Ht1. unfold mbind at 1, VM_bind at 1.
      rewrite (vbind_unwrap _ _ _ _ Htouch). unfold put_port. rewrite vbind_modify. cbn.
      by rewrite Ha. }
    split_and!; try done; [| |by apply (Hent (mac_key key))|by apply (Hent (mac_key key))].
    + split; cbn; [by eauto|by eauto|done|done|].
      intros k d' [[<- <-]|[_ Hk]]%lookup_insert_Some; [apply (Hent _ _ Hentry)|by eapply Hent].
    + intros k. destruct (decide (k = mac_key key)) as [->|].
      * by rewrite lookup_insert_eq, Hentry.
      * by rewrite lookup_insert_ne.
  - destruct (multicast_mac _ Hip) as (m&Hm&Hml).
    destruct (has_flag (v_st e) PG_VTEP_NO_INNERMAC_CHECK) eqn:Hflag.
    + exists (m, multicast_ip p), p, md, km. split.
      { intros B k. unfold mbind at 1, VM_bind at 1. rewrite (vbind_unwrap _ _ _ _ Hm), vbind_ret.
        cbn. rewrite He at 1. rewrite list_insert_id by done. cbn. by destruct (v_st e). }
      split_and!; try done. split; [done|]. by rewrite Hflag.
    + destruct (bytes_at inner 6 6) as [s|] eqn:Hs; [|unfold bytes_at in Hs;
        rewrite decide_True in Hs by lia; done].
      destruct (tbl_set_ok t2 km (le_bytes s) tt
        (λ t, p ← get_port i; put_port i (set_known_mac p t)) e) as (t'&Hrep'&Hset); [done..|].
      exists (m, multicast_ip p), (set_known_mac p (TLive t')), md, (<[mac_key (le_bytes s) := tt]> km).
      split.
      { intros B k. unfold mbind at 1, VM_bind at 1. rewrite (vbind_unwrap _ _ _ _ Hm).
        unfold mbind at 1, VM_bind at 1. rewrite (vbind_unwrap _ s _ _ eq_refl).
        unfold do_add_mac. rewrite (vbind_port i p) by done. rewrite Ht2, Hset.
        rewrite (vbind_port i p) by done. unfold put_port, vmodify. by rewrite Ha. }
      split_and!; try done; [split; cbn; [by eauto|by eauto|done..]|].
      split; [|intros _ _; exists s; by rewrite lookup_insert_eq].
      destruct (km !! mac_key (le_bytes s)) as [[]|] eqn:Hkm.
      * by rewrite insert_id.
      * by apply insert_subseteq.
Qed.

Lemma vtep_ok_same st st' : same_vtep st st' → vtep_ok v st → vtep_ok v st'.
Proof. intros [] []. split; congruence. Qed.

(** The headers are put before the packet; nothing else changes but the port. *)
Lemma header_prepend_spec e q w i p md km entry :
  v_allocs e = [] → vtep_ok v (v_st e) → ports (v_st e) !! i = Some p → port_ok v p md km →
  fl_mem (v_flow e) !! q = Some w → (14 ≤ length (data w))%nat → headroom (v_flow e) q →
  match entry with Some (key, d) => md !! mac_key key = Some d | None => True end →
  ∃ st' w' p' md' km' dst,
    vtep_header_prepend lib v q i entry e
      = Some (Done 0, mk_venv (set_mem (v_flow e) (<[q := w']> (fl_mem (v_flow e)))) st' []) ∧
    ports st' = <[i := p']> (ports (v_st e)) ∧ vt_pkts st' = vt_pkts (v_st e) ∧
    same_vtep (v_st e) st' ∧ port_ok v p' md' km' ∧ same_routes md md' ∧
    vni p' = vni p ∧ multicast_ip p' = multicast_ip p ∧ dead_tables p' = dead_tables p ∧
    destination p entry dst ∧ tunnels v (v_st e) (vni p) dst (data w) (data w') ∧
    refcnt w' = refcnt w ∧ sender_known (v_st e) entry (data w) km km'.
Proof.
  intros Ha Hst Hp Hok Hw Hlen Hroom Hentry. unfold vtep_header_prepend.
  rewrite (vbind_load q w) by done.
  destruct (law_prepend (v_flow e) q w (HEADER_LENGTH v) Hw) as [Hf|(junk&Hj&Hpre)];
    [by apply Hroom in Hf|].
  rewrite (vbind_flow _ _ _ _ _ Hpre). cbn [negb].
  set (fl1 := set_mem _ _). set (w1 := grown _ _ _) in *.
  rewrite (vbind_load q w1) by (cbn; by rewrite lookup_insert_eq).
  assert (drop (HEADER_LENGTH v) (data w1) = data w) as Hinner.
  { cbn. by apply drop_app_length'. }
  cbv zeta. rewrite Hinner, vbind_gets. cbn [v_st].
  rewrite (vbind_port i p) by done.
  destruct (choose_destination (mk_venv fl1 (v_st e) (v_allocs e)) i p md km entry (data w))
    as (dst&p'&md'&km'&Hrun&Hok'&Hroutes&Hvni&Hmip&Hdead&Hdst&Hd6&Hdip&Hkn); [done..|].
  cbn [v_st v_flow] in Hrun. unfold id at 1 2 3. rewrite Hrun. clear Hrun.
  edestruct (ip_build_spec (mk_venv fl1 (set_ports (v_st e) (<[i:=p']> (ports (v_st e)))) [])
    (snd dst)) as (ip&pid&Hip&Hcar); [apply Hst|done|].
  rewrite (vbind_done _ _ _ _ _ Hip). cbn [v_st v_flow v_allocs].
  assert (vt_ip (set_ports (v_st e) (<[i:=p']> (ports (v_st e)))) = vt_ip (v_st e)) as Hvip by done.
  set (d := _ ++ ip ++ _).
  set (w2 := if negb (Z.land _ _ =? 0) then _ else _).
  eexists (set_packet_id (set_ports (v_st e) (<[i:=p']> (ports (v_st e)))) pid), w2, p', md', km', dst.
  split.
  { unfold mbind, VM_bind, vflow, store_pkt, modify. cbn.
    unfold fl1, set_mem. cbn. by rewrite insert_insert_eq. }
  assert (data w2 = d) as Hd2 by (unfold w2; by destruct (negb _)).
  assert (refcnt w2 = refcnt w) as Hr2 by (unfold w2; by destruct (negb _)).
  split_and!; try done.
  rewrite Hd2. unfold d. apply headers_tunnel; [done|apply Hok|done|done|].
  intros [Hv|Hflag]; unfold id.
  - by rewrite Hv.
  - destruct v; [done|]. by rewrite Hflag.
Qed.

(** *** A burst *)

Context `{!Collect.CloneLaws W}.
(** The pool has packets left, and packets have room for the headers. *)
Context (clone_succeeds : ∀ (fl fl' : flow W) p, Collect.pktmbuf_clone p fl ≠ Some (None, fl')).
Context (room : ∀ (fl : flow W) q, headroom fl q).

(** The destination of a packet, from what the table knows. *)
Definition goes_to (p : vtep_port) (md : gmap (Z * Z) dest_addresses) (q : mptr) (w : mbuf)
    (dst : list Z * list Z) : Prop :=
  match (if is_multicast lib (dst_key lib q) then None
         else route <$> md !! mac_key (le_bytes (take 8 (data w)))) with
  | Some r => dst = r
  | None => pg_multicast_get_dst_addr v (multicast_ip p) = Some (fst dst) ∧
            snd dst = multicast_ip p
  end.

Lemma find_entry_spec p md km q w :
  port_ok v p md km → (14 ≤ length (data w))%nat →
  ∃ entry, find_entry lib q w p = Some entry ∧
    match entry with Some (key, d) => md !! mac_key key = Some d | None => True end ∧
    ∀ dst, destination p entry dst → goes_to p md q w dst.
Proof.
  intros [(t&Ht&Hrep) _ _ _ _] Hlen. unfold find_entry, goes_to.
  destruct (is_multicast lib (dst_key lib q)); [by exists None|].
  unfold bytes_at. rewrite decide_True by lia. rewrite drop_0. cbn [mbind option_bind].
  rewrite Ht. cbn [tbl_get]. rewrite (get_spec _ _ _ Hrep). cbn [mbind option_bind].
  destruct (md !! mac_key _) as [d|] eqn:Hd; eexists; (split; [reflexivity|]); by split.
Qed.

Lemma goes_to_routes p p' md md' q w dst :
  same_routes md md' → multicast_ip p' = multicast_ip p →
  goes_to p' md' q w dst → goes_to p md q w dst.
Proof. intros Hr Hm. unfold goes_to. rewrite Hm, Hr. done. Qed.

(** The copy, at [q], of the packet at index [j], in its tunnel. *)
Definition in_tunnel (st : vtep_state) (p : vtep_port) md (mem cl : gmap mptr mbuf) (pkts : pkts_t)
    (j : nat) (q : mptr) : Prop :=
  ∃ pkt w w' dst, pkts !! j = Some pkt ∧ mem !! pkt = Some w ∧ cl !! q = Some w' ∧
    refcnt w' = 1 ∧ goes_to p md pkt w dst ∧ tunnels v st (vni p) dst (data w) (data w').

(** One packet: a copy of it is made and put in a tunnel. *)
Lemma encapsulate_step e mem cl i p md km pkts j pkt w :
  v_allocs e = [] → vtep_ok v (v_st e) → has_flag (v_st e) PG_VTEP_NO_COPY = false →
  ports (v_st e) !! i = Some p → port_ok v p md km →
  fl_mem (v_flow e) = cl ∪ mem → cl ##ₘ mem →
  pkts !! j = Some pkt → mem !! pkt = Some w → (14 ≤ length (data w))%nat →
  ∃ st' q w' p' md' km',
    (∀ l, encapsulate_loop lib v i pkts (j :: l) e = encapsulate_loop lib v i pkts l
      (mk_venv (set_mem (v_flow e) (<[q := w']> cl ∪ mem)) st' [])) ∧
    (cl ∪ mem) !! q = None ∧ ports st' = <[i := p']> (ports (v_st e)) ∧
    vt_pkts st' = <[j := q]> (vt_pkts (v_st e)) ∧ same_vtep (v_st e) st' ∧
    port_ok v p' md' km' ∧ same_routes md md' ∧ vni p' = vni p ∧
    multicast_ip p' = multicast_ip p ∧ dead_tables p' = dead_tables p ∧ km ⊆ km' ∧
    in_tunnel (v_st e) p md mem (<[q := w']> cl) pkts j q.
Proof.
  intros Ha Hst Hcopy Hp Hok Hmem Hdisj Hpkt Hw Hlen.
  assert (fl_mem (v_flow e) !! pkt = Some w) as Hw' by (rewrite Hmem; by apply lookup_union_Some_r).
  destruct (find_entry_spec p md km pkt w Hok Hlen) as (entry&Hfind&Hentry&Hgoes).
  destruct (Collect.law_clone (v_flow e) pkt w Hw') as [Hf|(q&u&Hq&Hclone)];
    [by apply clone_succeeds in Hf|].
  set (c := mk_mbuf _ _ _ _ _ u 1) in Hclone.
  set (e1 := mk_venv (set_mem (v_flow e) (<[q := c]> (fl_mem (v_flow e)))) (v_st e) (v_allocs e)).
  destruct (header_prepend_spec e1 q c i p md km entry) as
    (st'&w'&p'&md'&km'&dst&Hrun&Hports&Hpk&Hsame&Hok'&Hroutes&Hvni&Hmip&Hdead&Hdst&Htun&Href&Hkn);
    try done.
  { cbn. by rewrite lookup_insert_eq. }
  exists (set_vt_pkts st' (<[j := q]> (vt_pkts st'))), q, w', p', md', km'. split_and!; try done.
  - intros l. cbn [encapsulate_loop]. rewrite (vbind_unwrap _ _ _ _ Hpkt), (vbind_load pkt w) by done.
    rewrite (vbind_port i p) by done. rewrite (vbind_unwrap _ _ _ _ Hfind), vbind_gets.
    unfold id. rewrite Hcopy. rewrite (vbind_flow _ _ _ _ _ Hclone). fold e1.
    rewrite (vbind_done _ _ _ _ _ Hrun). replace (0 <? 0) with false by done.
    rewrite vbind_modify. f_equal. unfold e1. cbn [v_flow v_st v_allocs].
    unfold set_mem. cbn [fl_mem fl_count fl_errp fl_world].
    rewrite insert_insert_eq, Hmem, insert_union_l. done.
  - by rewrite <- Hmem.
  - cbn. by rewrite Hpk.
  - destruct Hsame. by split.
  - apply Hkn.
  - exists pkt, w, w', dst. split_and!; try done; [by rewrite lookup_insert_eq|by apply Hgoes].
Qed.

Lemma tunnels_same st st' n dst inner d :
  same_vtep st st' → tunnels v st' n dst inner d → tunnels v st n dst inner d.
Proof. intros [Hm _ Hp Hf Hi _]. unfold tunnels, has_flag. by rewrite Hm, Hp, Hf, Hi. Qed.

Lemma same_vtep_trans st1 st2 st3 : same_vtep st1 st2 → same_vtep st2 st3 → same_vtep st1 st3.
Proof. intros [] []. split; congruence. Qed.

Lemma has_flag_same st st' f : same_vtep st st' → has_flag st' f = has_flag st f.
Proof. intros []. unfold has_flag. congruence. Qed.

(** The port before and after some packets of its network. *)
Definition port_after (p p' : vtep_port) md km : Prop :=
  ∃ md' km', port_ok v p' md' km' ∧ same_routes md md' ∧ km ⊆ km' ∧ vni p' = vni p ∧
    multicast_ip p' = multicast_ip p ∧ dead_tables p' = dead_tables p.

Lemma encapsulate_loop_spec l mem i pkts e cl p md km :
  v_allocs e = [] → vtep_ok v (v_st e) → has_flag (v_st e) PG_VTEP_NO_COPY = false →
  ports (v_st e) !! i = Some p → port_ok v p md km →
  fl_mem (v_flow e) = cl ∪ mem → cl ##ₘ mem → NoDup l →
  Forall (λ j, (j < length (vt_pkts (v_st e)))%nat) l →
  Forall (λ j, ∃ pkt w, pkts !! j = Some pkt ∧ mem !! pkt = Some w ∧ (14 ≤ length (data w))%nat) l →
  ∃ st' cl' qs p',
    encapsulate_loop lib v i pkts l e
      = Some (Done 0, mk_venv (set_mem (v_flow e) (cl' ∪ mem)) st' []) ∧
    cl' ##ₘ mem ∧ cl ⊆ cl' ∧ dom cl' = dom cl ∪ list_to_set qs ∧ NoDup qs ∧
    (∀ q, q ∈ qs → cl !! q = None) ∧ (∀ j, j ∉ l → vt_pkts st' !! j = vt_pkts (v_st e) !! j) ∧
    Forall2 (λ j q, vt_pkts st' !! j = Some q ∧ in_tunnel (v_st e) p md mem cl' pkts j q) l qs ∧
    same_vtep (v_st e) st' ∧ ports st' = <[i := p']> (ports (v_st e)) ∧ port_after p p' md km.
Proof.
  revert e cl p md km.
  induction l as [|j l IH]; intros e cl p md km Ha Hst Hcopy Hp Hok Hmem Hdisj Hnd Hlt Hread.
  - exists (v_st e), cl, [], p. split_and!; try done.
    + cbn [encapsulate_loop]. rewrite <- Hmem. destruct e as [[? ? ? ?] ? ?]. cbn in *. by subst.
    + set_solver.
    + constructor.
    + by intros q ?%not_elem_of_nil.
    + symmetry. by apply list_insert_id.
    + by exists md, km.
  - apply NoDup_cons in Hnd as [Hj Hnd]. apply Forall_cons in Hlt as [Hjl Hlt].
    apply Forall_cons in Hread as [(pkt&w&Hpkt&Hw&Hlen) Hread].
    destruct (encapsulate_step e mem cl i p md km pkts j pkt w) as
      (st1&q&w'&p1&md1&km1&Hrun&Hq&Hports&Hpk&Hsame&Hok1&Hr1&Hv1&Hm1&Hd1&Hk1&Hin); [done..|].
    rewrite Hrun. apply lookup_union_None in Hq as [Hq Hqm].
    destruct (IH (mk_venv (set_mem (v_flow e) (<[q:=w']> cl ∪ mem)) st1 []) (<[q:=w']> cl) p1 md1 km1)
      as (st'&cl'&qs&p'&Hrun'&Hdis'&Hsub&Hdom&Hndq&Hqs&Hold&HF&Hsame'&Hports'&Hafter);
      cbn [v_st v_flow v_allocs]; try done.
    + by eapply vtep_ok_same.
    + by rewrite (has_flag_same _ _ _ Hsame).
    + rewrite Hports. apply list_lookup_insert_eq. by apply lookup_lt_Some in Hp.
    + by apply map_disjoint_insert_l_2.
    + rewrite Hpk. apply (Forall_impl _ _ _ Hlt). intros k. by rewrite length_insert.
    + cbn [v_st v_flow v_allocs] in *. exists st', cl', (q :: qs), p'. split_and!; try done.
      * etrans; [|exact Hsub]. by apply insert_subseteq.
      * rewrite Hdom, dom_insert_L. set_solver.
      * apply NoDup_cons. split; [|done]. intros Hin'%Hqs. by rewrite lookup_insert_eq in Hin'.
      * intros q' [->|Hq']%elem_of_cons; [done|]. apply Hqs in Hq'.
        by apply lookup_insert_None in Hq' as [? _].
      * intros k [Hk1' Hk2]%not_elem_of_cons. rewrite Hold by done. rewrite Hpk.
        by rewrite list_lookup_insert_ne.
      * constructor.
        -- split; [rewrite Hold by done; rewrite Hpk; by apply list_lookup_insert_eq|].
           destruct Hin as (pkt'&w0&w1&dst&?&?&Hcl&?&?&?). exists pkt', w0, w1, dst.
           split_and!; try done. by eapply lookup_weaken.
        -- apply (Forall2_impl _ _ _ _ HF). intros k qk [? (pkt'&w0&w1&dst&?&?&?&?&Hg&Ht)].
           split; [done|]. exists pkt', w0, w1, dst. split_and!; try done.
           ++ by eapply goes_to_routes.
           ++ rewrite <- Hv1. by eapply tunnels_same.
      * by eapply same_vtep_trans.
      * rewrite Hports', Hports. apply list_insert_insert_eq.
      * destruct Hafter as (md'&km'&?&Hr'&?&?&?&?). exists md', km'. split; [done|].
        split; [intros k; by rewrite <- Hr1, <- Hr'|]. split; [by etrans|]. split_and!; congruence.
Qed.

End Encapsulate.

(** Dropping the copies leaves the memory as it was. *)
Lemma free_copies_spec {W} `{!PktLib W, !PktLaws W} (ps : pkts_t) l qs cl mem (fl : flow W) :
  Forall2 (λ j q, ps !! j = Some q) l qs → NoDup qs → dom cl = list_to_set qs →
  (∀ q w, cl !! q = Some w → refcnt w = 1) → cl ##ₘ mem → fl_mem fl = cl ∪ mem →
  free_list ps l fl = Some (tt, set_mem fl mem).
Proof.
  intros HF. revert cl fl.
  induction HF as [|j q l qs Hj HF IH]; intros cl fl Hnd Hdom Href Hdisj Hmem.
  - apply dom_empty_inv_L in Hdom as ->. cbn [free_list]. rewrite map_empty_union in Hmem.
    rewrite <- Hmem. by destruct fl.
  - apply NoDup_cons in Hnd as [Hq Hnd].
    assert (is_Some (cl !! q)) as [w Hw] by (apply elem_of_dom; set_solver).
    cbn [free_list]. rewrite Hj. cbn [unwrap]. rewrite M_bind_ret. unfold mbind, M_bind.
    rewrite (law_free fl q w) by (rewrite Hmem; by apply lookup_union_Some_l).
    rewrite (Href _ _ Hw). replace (1 =? 1) with true by done.
    rewrite (IH (delete q cl)); [done|done|..].
    + rewrite dom_delete_L, Hdom. set_solver.
    + intros q' w' [_ ?]%lookup_delete_Some. by eapply Href.
    + by apply map_disjoint_delete_l.
    + cbn. rewrite Hmem, delete_union. f_equal. apply delete_id.
      by eapply map_disjoint_Some_l.
Qed.


(** ** Decapsulation *)

(** [rte_pktmbuf_adj] as documented: bytes that are there are removed. *)
Class AdjLaws (W : Type) `{!AdjLib W} : Prop :=
  law_adj (fl : flow W) p w n :
    fl_mem fl !! p = Some w → (n ≤ length (data w))%nat →
    pktmbuf_adj p n fl = Some (true, set_mem fl (<[p :=
      set_pkt_len (set_data w (drop n (data w))) (pkt_len w - Z.of_nat n)]> (fl_mem fl))).

Section Decapsulate.

Context {W : Type} `{!Dispatch W, !PktLib W, !Collect.CloneLib W, !AdjLib W, !AdjLaws W}.
Context (lib : vtep_lib) (v : ip_version) (pkts : pkts_t).
Implicit Types (e : venv W) (mem : gmap mptr mbuf).

(** The packets of the indices [l] are at distinct places. *)
Definition distinct (l : list nat) : Prop :=
  ∀ j j' q, j ∈ l → j' ∈ l → pkts !! j = Some q → pkts !! j' = Some q → j = j'.

(** From [mem] to [mem'] the packets of [l] become related by [R], the others stay. *)
Definition changes (R : mbuf → mbuf → Prop) (l : list nat) mem mem' : Prop :=
  (∀ q, (∀ j, j ∈ l → pkts !! j ≠ Some q) → mem' !! q = mem !! q) ∧
  ∀ j q w, j ∈ l → pkts !! j = Some q → mem !! q = Some w → ∃ w', mem' !! q = Some w' ∧ R w w'.

Lemma changes_cons (R : mbuf → mbuf → Prop) j l q w w' mem mem' :
  distinct (j :: l) → j ∉ l → pkts !! j = Some q → mem !! q = Some w → R w w' →
  changes R l (<[q := w']> mem) mem' → changes R (j :: l) mem mem'.
Proof.
  intros Hd Hj Hq Hw HR [Hsame Hch].
  assert (∀ k, k ∈ l → pkts !! k ≠ Some q) as Hne.
  { intros k Hk Hkq. assert (j = k) as ->; [|done].
    apply (Hd j k q); [by left|by right|done|done]. }
  split.
  - intros q' Hq'. rewrite Hsame by (intros k Hk; apply Hq'; by right).
    rewrite lookup_insert_ne; [done|]. intros ->. by apply (Hq' j); [left|].
  - intros k q' w0 [->|Hk]%elem_of_cons Hkq Hw0.
    + simplify_eq. exists w'. split; [|done]. rewrite Hsame by done. by rewrite lookup_insert_eq.
    + apply (Hch k q' w0 Hk Hkq). rewrite lookup_insert_ne; [done|]. intros ->. by apply (Hne k).
Qed.

Lemma distinct_cons j l : distinct (j :: l) → distinct l.
Proof. intros Hd k k' q Hk Hk'. apply Hd; by right. Qed.

(** Without its outer headers. *)
Definition strips (w w' : mbuf) : Prop :=
  data w' = drop (Z.to_nat (l2_len w) + headers_size v) (data w).

Lemma check_vni_spec l hdrs p vm (fl : flow W) :
  NoDup l → distinct l → is_mask vm → Forall (λ j, (j < 64)%nat) l →
  Forall (λ j, ∃ q w, pkts !! j = Some q ∧ fl_mem fl !! q = Some w ∧ is_Some (hdr_vni v hdrs j) ∧
    (Z.to_nat (l2_len w) + headers_size v ≤ length (data w))%nat) l →
  ∃ vm' mem', check_vni_loop v pkts l hdrs p vm fl = Some (vm', set_mem fl mem') ∧ is_mask vm' ∧
    (∀ j, mask_has vm' j = true ↔
      mask_has vm j = true ∨ (j ∈ l ∧ hdr_vni v hdrs j = Some (vni p))) ∧
    changes strips (filter (λ j, hdr_vni v hdrs j = Some (vni p)) l) (fl_mem fl) mem'.
Proof.
  revert vm fl. induction l as [|j l IH]; intros vm fl Hnd Hd Hvm Hlt HF; cbn [check_vni_loop].
  { exists vm, (fl_mem fl). split_and!; [by destruct fl|done| |].
    - intros j. set_solver.
    - rewrite filter_nil. split; [done|]. by intros ? ? ? ?%not_elem_of_nil. }
  apply NoDup_cons in Hnd as [Hj Hnd]. apply Forall_cons in Hlt as [Hj64 Hlt].
  apply Forall_cons in HF as [(q&w&Hq&Hw&[n Hn]&Hlen) HF].
  rewrite Hn. cbn [unwrap]. rewrite M_bind_ret, filter_cons.
  destruct (Z.eqb_spec n (vni p)) as [->|Hne]; cbn [negb].
  - rewrite decide_True by done. rewrite Hq. cbn [unwrap]. rewrite M_bind_ret.
    set (w1 := set_pkt_len (set_data w (drop (Z.to_nat (l2_len w) + headers_size v) (data w)))
      (pkt_len w - Z.of_nat (Z.to_nat (l2_len w) + headers_size v))).
    assert (strip v q fl = Some (true, set_mem fl (<[q := w1]> (fl_mem fl)))) as Hstrip.
    { unfold strip. rewrite (load_bind q w) by done. by apply law_adj. }
    unfold mbind at 1, M_bind at 1. rewrite Hstrip.
    destruct (IH (Z.lor vm (bit_of j)) (set_mem fl (<[q := w1]> (fl_mem fl)))) as
      (vm'&mem'&Hr&Hvm'&Hiff&Hch); [done|by eapply distinct_cons| |done|..].
    + apply is_mask_lor; [done|by apply is_mask_bit].
    + apply Forall_forall. intros k Hk. rewrite Forall_forall in HF.
      destruct (HF k Hk) as (qk&wk&?&?&?&?). exists qk, wk. split_and!; try done. cbn.
      rewrite lookup_insert_ne; [done|]. intros ->. assert (j = k) as ->; [|done].
      apply (Hd j k qk); [by left|by right|done|done].
    + exists vm', mem'. split_and!; [done|done| |].
      * intros k. rewrite Hiff, mask_has_lor, orb_true_iff. unfold bit_of.
        rewrite mask_has_bit, bool_decide_eq_true, elem_of_cons.
        split; [intros [[?|<-]|[? ?]]|intros [?|[[->|?] ?]]]; tauto.
      * cbn [fl_mem set_mem] in Hch.
        apply (changes_cons strips j _ q w w1); try done.
        -- intros k k' q' Hk Hk'. apply Hd.
           ++ apply elem_of_cons in Hk as [->|[_ ?]%list_elem_of_filter]; [by left|by right].
           ++ apply elem_of_cons in Hk' as [->|[_ ?]%list_elem_of_filter]; [by left|by right].
        -- by intros [_ ?]%list_elem_of_filter.
  - rewrite decide_False by congruence.
    destruct (IH vm fl) as (vm'&mem'&Hr&Hvm'&Hiff&Hch); [done|by eapply distinct_cons|done..|].
    exists vm', mem'. split_and!; try done. intros k. rewrite Hiff, elem_of_cons.
    split; [intros [?|[? ?]]|intros [?|[[->|?] ?]]]; try tauto. congruence.
Qed.

(** The same bytes, with the metadata of the packet. *)
Definition restores (w w' : mbuf) : Prop := restore_pkt w = Some w'.

Lemma restore_data w w' : restore_pkt w = Some w' → data w' = data w.
Proof.
  unfold restore_pkt, pg_utils_guess_l2. intros (w1&(t&_&[= <-])%bind_Some&Hw)%bind_Some.
  apply bind_Some in Hw as (ty&_&Hw).
  destruct (ty =? PG_BE_ETHER_TYPE_IPv4); [by injection Hw as <-|].
  destruct (ty =? PG_BE_ETHER_TYPE_IPv6); [|by injection Hw as <-].
  by apply bind_Some in Hw as (n&_&[= <-]).
Qed.

Lemma restore_loop_spec l (fl : flow W) :
  NoDup l → distinct l →
  Forall (λ j, ∃ q w, pkts !! j = Some q ∧ fl_mem fl !! q = Some w ∧ is_Some (restore_pkt w)) l →
  ∃ mem', restore_loop pkts l fl = Some (tt, set_mem fl mem') ∧
    changes restores l (fl_mem fl) mem'.
Proof.
  revert fl. induction l as [|j l IH]; intros fl Hnd Hd HF; cbn [restore_loop].
  { exists (fl_mem fl). split; [by destruct fl|]. split; [done|]. by intros ? ? ? ?%not_elem_of_nil. }
  apply NoDup_cons in Hnd as [Hj Hnd]. apply Forall_cons in HF as [(q&w&Hq&Hw&[w' Hw']) HF].
  rewrite Hq. cbn [unwrap]. rewrite M_bind_ret, (load_bind q w) by done. rewrite Hw'.
  cbn [unwrap]. rewrite M_bind_ret.
  destruct (IH (set_mem fl (<[q := w']> (fl_mem fl)))) as (mem'&Hr&Hch); [done|by eapply distinct_cons|..].
  - apply Forall_forall. intros k Hk. rewrite Forall_forall in HF.
    destruct (HF k Hk) as (qk&wk&?&?&?). exists qk, wk. split_and!; try done. cbn.
    rewrite lookup_insert_ne; [done|]. intros ->. assert (j = k) as ->; [|done].
    apply (Hd j k qk); [by left|by right|done|done].
  - exists mem'. split; [exact Hr|]. by apply (changes_cons restores j l q w w').
Qed.

(** What the end point learns from the packet at index [j]. *)
Definition teaches (hdrs : headers_t) (tick : Z) mem (j : nat) (k : Z * Z) (d : dest_addresses) : Prop :=
  ∃ q w h src inner, pkts !! j = Some q ∧ mem !! q = Some w ∧ hdrs !! j = Some h ∧
    ip_src v (snd h) = Some src ∧ pg_util_get_ether_src_addr w = Some inner ∧
    k = mac_key (le_bytes inner) ∧ d = mk_dest (fst h) src tick.

Lemma add_dst_spec l hdrs i e p md km :
  v_allocs e = [] → ports (v_st e) !! i = Some p → port_ok v p md km →
  Forall (λ j, ∃ k d, teaches hdrs (vtep_tick (v_st e)) (fl_mem (v_flow e)) j k d ∧
    length (da_mac d) = 6%nat ∧ byte_list (ip_size v) (da_ip d)) l →
  ∃ p' md', add_dst_loop v i pkts hdrs l e
      = Some (Done tt, mk_venv (v_flow e) (set_ports (v_st e) (<[i := p']> (ports (v_st e)))) []) ∧
    port_ok v p' md' km ∧ vni p' = vni p ∧ dead_tables p' = dead_tables p ∧
    (∀ k d, md' !! k = Some d → md !! k = Some d ∨
      ∃ j, j ∈ l ∧ teaches hdrs (vtep_tick (v_st e)) (fl_mem (v_flow e)) j k d) ∧
    (∀ k, is_Some (md !! k) → is_Some (md' !! k)) ∧
    (∀ j k d, j ∈ l → teaches hdrs (vtep_tick (v_st e)) (fl_mem (v_flow e)) j k d →
      ∃ j' d', j' ∈ l ∧ teaches hdrs (vtep_tick (v_st e)) (fl_mem (v_flow e)) j' k d' ∧
        md' !! k = Some d').
Proof.
  intros Ha. revert p md e Ha.
  induction l as [|j l IH]; intros p md e Ha Hp Hok HF; cbn [add_dst_loop].
  { exists p, md. split_and!; try done; [|by left|by intros ? ? ? ?%not_elem_of_nil].
    rewrite list_insert_id by done. destruct e as [fl [] al]. cbn in *. by subst. }
  apply Forall_cons in HF as [(k&d&Ht&Hdm&Hdi) HF].
  pose proof Ht as (q&w&h&src&inner&Hq&Hw&Hh&Hsrc&Hin&Hk&Hd).
  rewrite (vbind_unwrap _ _ _ _ Hq), (vbind_load q w) by done.
  rewrite (vbind_unwrap _ _ _ _ Hh), (vbind_unwrap _ _ _ _ Hsrc), (vbind_unwrap _ _ _ _ Hin).
  rewrite vbind_gets. unfold id. rewrite (vbind_port i p) by done.
  pose proof Hok as [(t1&Ht1&Hrep1) Hkn Hip Hvni Hent]. rewrite Ht1.
  destruct (tbl_set_ok t1 md (le_bytes inner) (mk_dest (fst h) src (vtep_tick (v_st e)))
    (λ t, p ← get_port i; put_port i (set_mac_to_dst p t)) e) as (t'&Hrep'&Hset); [done..|].
  unfold mbind at 1, VM_bind at 1. rewrite Hset. rewrite (vbind_port i p) by done.
  unfold put_port, vmodify. rewrite <- Hk, <- Hd in Hrep'.
  set (p1 := set_mac_to_dst p (TLive t')).
  destruct (IH p1 (<[k := d]> md) (mk_venv (v_flow e) (set_ports (v_st e) (<[i:=p1]> (ports (v_st e))))
    (v_allocs e))) as (p'&md'&Hr&Hok'&Hv'&Hd'&H1&H2&H3).
  - done.
  - cbn. apply list_lookup_insert_eq. by apply lookup_lt_Some in Hp.
  - split; cbn; [by eauto|done..|]. intros k' d' [[<- <-]|[_ ?]]%lookup_insert_Some; [done|].
    by eapply Hent.
  - exact HF.
  - cbn [v_st v_flow] in *. exists p', md'. rewrite Hr. split_and!; try done.
    + cbn. by rewrite list_insert_insert_eq.
    + intros k' d' [Hl|(j'&?&?)]%H1; [|right; exists j'; split; [by right|done]].
      apply lookup_insert_Some in Hl as [[<- <-]|[_ ?]]; [right|by left].
      exists j. split; [by left|done].
    + intros k' Hk'. apply H2. destruct (decide (k = k')) as [->|].
      * rewrite lookup_insert_eq. eauto.
      * by rewrite lookup_insert_ne.
    + intros j' k' d' [->|Hj']%elem_of_cons Ht'.
      * assert (k' = k) as ->.
        { destruct Ht' as (?&?&?&?&?&?&?&?&?&?&->&_). by simplify_eq. }
        destruct (H2 k) as [d1 Hd1]; [rewrite lookup_insert_eq; eauto|].
        destruct (H1 k d1 Hd1) as [Hl|(j1&?&?)].
        -- rewrite lookup_insert_eq in Hl. exists j, d. split_and!; [by left|done|congruence].
        -- exists j1, d1. split_and!; [by right|done|done].
      * destruct (H3 j' k' d' Hj' Ht') as (j1&d1&?&?&?). exists j1, d1.
        split_and!; [by right|done|done].
Qed.

(** *** Classification *)

(** What the end point reads in a packet that arrives: its network, the outer addresses
    it came from and the inner packet. *)
Record arrives (port_be : Z) (w : mbuf) (n : Z) (src : list Z * list Z) (inner : list Z) : Prop := {
  ar_mac : pg_util_get_ether_src_addr w = Some (fst src);
  ar_vxlan : is_vxlan v (pg_utils_get_l3 w) port_be = Some true;
  ar_cksum : load16 (pg_utils_get_l3 w) (ip_hdr_size v + 6) = Some 0;
  ar_dst : is_Some (ip_dst v (pg_utils_get_l3 w));
  ar_src : ip_src v (pg_utils_get_l3 w) = Some (snd src);
  ar_bytes : byte_list (ip_size v) (snd src);
  ar_vni : load32 (pg_utils_get_l3 w) (ip_hdr_size v + 12) = Some n;
  ar_inner : drop (Z.to_nat (l2_len w) + headers_size v) (data w) = inner;
  ar_size : (14 ≤ length inner)%nat;
  ar_meta w' : data w' = inner → is_Some (restore_pkt w');
}.

Definition ignored (port_be : Z) (w : mbuf) : Prop :=
  is_Some (pg_util_get_ether_src_addr w) ∧ is_vxlan v (pg_utils_get_l3 w) port_be = Some false.

(** A reading of the packets: [None] for those that are not of the tunnel. *)
Context (view : nat → option (Z * (list Z * list Z) * list Z)).

Definition viewed (port_be : Z) mem (j : nat) : Prop :=
  ∃ q w, pkts !! j = Some q ∧ mem !! q = Some w ∧
    match view j with
    | Some (n, src, inner) => arrives port_be w n src inner
    | None => ignored port_be w
    end.

(** The headers of the packets that arrive. *)
Definition hdrs_ok (hdrs : headers_t) (j : nat) : Prop :=
  match view j with
  | Some (n, src, _) => hdr_vni v hdrs j = Some n ∧
      ∃ ip, hdrs !! j = Some (fst src, ip) ∧ ip_src v ip = Some (snd src)
  | None => True
  end.

Lemma classify_spec l port_be hdrs mm cm (fl : flow W) :
  NoDup l → is_mask cm → Forall (λ j, (j < 64)%nat) l → Forall (viewed port_be (fl_mem fl)) l →
  ∃ hdrs' mm' cm', classify_loop lib v pkts l port_be hdrs mm cm fl = Some (hdrs', mm', cm', fl) ∧
    is_mask cm' ∧
    (∀ j, mask_has cm' j = true ↔ mask_has cm j = true ∨ (j ∈ l ∧ is_Some (view j))) ∧
    (∀ j, j ∉ l → hdrs' !! j = hdrs !! j) ∧ Forall (hdrs_ok hdrs') l.
Proof.
  revert hdrs mm cm. induction l as [|j l IH]; intros hdrs mm cm Hnd Hcm Hlt HF; cbn [classify_loop].
  { exists hdrs, mm, cm. split_and!; try done. intros j. set_solver. }
  apply NoDup_cons in Hnd as [Hj Hnd]. apply Forall_cons in Hlt as [Hj64 Hlt].
  apply Forall_cons in HF as [(q&w&Hq&Hw&Hview) HF].
  rewrite Hq. cbn [unwrap]. rewrite M_bind_ret, (load_bind q w) by done.
  destruct (view j) as [[[n src] inner]|] eqn:Hvj.
  - destruct Hview as [Hmac Hvx Hck [dst Hdst] Hsrc _ Hvni _ _ _]. rewrite Hmac. cbn [unwrap].
    rewrite M_bind_ret. cbv zeta. rewrite Hvx. cbn [unwrap]. rewrite M_bind_ret. cbn [negb].
    rewrite Hck. cbn [unwrap]. rewrite M_bind_ret. replace (0 =? 0) with true by done.
    rewrite M_bind_ret. cbn [fst snd negb].
    assert (∀ A (k : unit → M (flow W) A), (store_pkt q (set_data w (take (Z.to_nat (l2_len w)) (data w)
      ++ pg_utils_get_l3 w)) ≫= k) fl = k tt fl) as Hstore.
    { intros A k. unfold store_pkt, mbind, M_bind, modify, pg_utils_get_l3. rewrite take_drop.
      rewrite insert_id by (destruct w; exact Hw). by destruct fl. }
    rewrite Hstore, Hdst. cbn [unwrap]. rewrite M_bind_ret.
    edestruct (IH (<[j := (fst src, pg_utils_get_l3 w)]> hdrs)) as
      (hdrs'&mm'&cm'&Hr&Hcm'&Hiff&Hold&Hok); [done| |done|done|].
    2: { exists hdrs', mm', cm'. split_and!; [exact Hr|done|..].
      - intros k. rewrite Hiff, mask_has_lor, orb_true_iff. unfold bit_of.
        rewrite mask_has_bit, bool_decide_eq_true, elem_of_cons. split.
        + intros [[?|<-]|[? ?]]; [tauto|right; rewrite Hvj; eauto|tauto].
        + intros [?|[[->|?] ?]]; tauto.
      - intros k [? ?]%not_elem_of_cons. rewrite Hold by done. by rewrite lookup_insert_ne.
      - constructor; [|done]. unfold hdrs_ok. rewrite Hvj. unfold hdr_vni. rewrite Hold by done.
        rewrite lookup_insert_eq. cbn [mbind option_bind snd]. split; [done|]. eauto. }
    apply is_mask_lor; [done|by apply is_mask_bit].
  - destruct Hview as [[m Hmac] Hvx]. rewrite Hmac. cbn [unwrap]. rewrite M_bind_ret. cbv zeta.
    rewrite Hvx. cbn [unwrap]. rewrite M_bind_ret. cbn [negb].
    destruct (IH (<[j := (m, pg_utils_get_l3 w)]> hdrs) mm cm) as
      (hdrs'&mm'&cm'&Hr&Hcm'&Hiff&Hold&Hok); [done..|].
    exists hdrs', mm', cm'. split_and!; [done|done|..].
    + intros k. rewrite Hiff, elem_of_cons. split; [tauto|].
      intros [?|[[->|?] Hs]]; [tauto| |tauto]. rewrite Hvj in Hs. by destruct Hs.
    + intros k [? ?]%not_elem_of_cons. rewrite Hold by done. by rewrite lookup_insert_ne.
    + constructor; [|done]. unfold hdrs_ok. by rewrite Hvj.
Qed.

(** *** Distribution to the ports *)

Definition vni_of (j : nat) : option Z := (λ x, fst (fst x)) <$> view j.

(** One burst to port [i]: the packets of [P], without their outer headers. *)
Definition delivers (from : pg_side) (es : list pg_brick_edge) (i : nat) (P : nat → Prop)
    (c : burst_call * gmap mptr mbuf) : Prop :=
  ∃ edge m, es !! i = Some edge ∧ c.1 = mk_call (link edge) from i pkts m ∧ is_mask m ∧
    (∀ j, mask_has m j = true ↔ P j) ∧ (∃ j, P j) ∧
    ∀ j, P j → ∃ q w n src inner, pkts !! j = Some q ∧ c.2 !! q = Some w ∧
      view j = Some (n, src, inner) ∧ data w = inner.

(** The packets of [P] over the [n] ports from [i] on: each goes to the first port of
    its network. *)
Inductive distributes (from : pg_side) (es : list pg_brick_edge) (vnis : nat → Z) :
    nat → nat → (nat → Prop) → list (burst_call * gmap mptr mbuf) → Prop :=
  | dist_nil i P : distributes from es vnis i 0 P []
  | dist_skip i n P cs :
      (∀ j, P j → vni_of j ≠ Some (vnis i)) → distributes from es vnis (S i) n P cs →
      distributes from es vnis i (S n) P cs
  | dist_call i n (P Q : nat → Prop) c cs :
      delivers from es i (λ j, P j ∧ vni_of j = Some (vnis i)) c →
      (∀ j, Q j ↔ P j ∧ vni_of j ≠ Some (vnis i)) →
      distributes from es vnis (S i) n Q cs → distributes from es vnis i (S n) P (c :: cs).

Lemma distributes_none from es vnis i n (P : nat → Prop) :
  (∀ j, ¬ P j) → distributes from es vnis i n P [].
Proof.
  intros HP. revert i. induction n as [|n IH]; intros i; constructor; [|by apply IH].
  intros j Hj. by apply HP in Hj.
Qed.

(** What a port has learned from the packet at index [j]: its inner source is reached
    where some packet with that inner source came from. *)
Definition learned st (i j : nat) : Prop :=
  ∃ p md km n src inner s, ports st !! i = Some p ∧ port_ok v p md km ∧
    view j = Some (n, src, inner) ∧ bytes_at inner 6 6 = Some s ∧
    ∃ d j' n' src' inner' s', md !! mac_key (le_bytes s) = Some d ∧ route d = src' ∧
      view j' = Some (n', src', inner') ∧ bytes_at inner' 6 6 = Some s' ∧
      mac_key (le_bytes s') = mac_key (le_bytes s).

Definition port_ready st (vnis : nat → Z) (i : nat) : Prop :=
  ∃ p md km, ports st !! i = Some p ∧ port_ok v p md km ∧ vni p = vnis i ∧
    are_mac_tables_dead p = false.

(** The packets of a mask, all of the tunnel and as they arrived. *)
Definition pending (port_be : Z) (hdrs : headers_t) (m : Z) mem : Prop :=
  is_mask m ∧ distinct (PG_FOREACH_BIT m) ∧
  ∀ j, mask_has m j = true → viewed port_be mem j ∧ hdrs_ok hdrs j ∧ is_Some (view j).

Lemma load32_length d off z : load32 d off = Some z → (off + 4 ≤ length d)%nat.
Proof.
  unfold load32, bytes_at. intros (b&Hb&_)%bind_Some. by case_decide.
Qed.

Lemma hdr_vni_of hdrs j :
  hdrs_ok hdrs j → is_Some (view j) → hdr_vni v hdrs j = vni_of j.
Proof.
  unfold hdrs_ok, vni_of. intros Hh [[[n src] inner] Hvj]. rewrite Hvj in *. by destruct Hh as [-> _].
Qed.

(** The packets of the port's network lose their outer headers. *)
Lemma check_stage port_be hdrs m p (fl : flow W) :
  pending port_be hdrs m (fl_mem fl) →
  ∃ vm mem', check_vni_pkts v pkts m hdrs p fl = Some (vm, set_mem fl mem') ∧ is_mask vm ∧
    (∀ j, mask_has vm j = true ↔ mask_has m j = true ∧ vni_of j = Some (vni p)) ∧
    changes strips (PG_FOREACH_BIT vm) (fl_mem fl) mem'.
Proof.
  intros (Hm&Hd&Hp). unfold check_vni_pkts.
  destruct (check_vni_spec (PG_FOREACH_BIT m) hdrs p 0 fl) as (vm&mem'&Hr&Hvm&Hiff&Hch).
  - by apply foreach_NoDup.
  - done.
  - apply is_mask_0.
  - apply Forall_forall. intros j Hj%elem_of_foreach; [|done]. by apply (mask_has_lt m).
  - apply Forall_forall. intros j Hj%elem_of_foreach; [|done].
    destruct (Hp j Hj) as ((q&w&Hq&Hw&Hview)&Hh&Hvj). exists q, w.
    rewrite (hdr_vni_of _ _ Hh Hvj). unfold vni_of. destruct Hvj as [[[n src] inner] Hvj].
    rewrite Hvj in *. split_and!; [done|done|by eexists|].
    destruct Hview as [_ _ _ _ _ _ Hvni%load32_length _ _ _]. unfold pg_utils_get_l3 in Hvni.
    rewrite length_drop in Hvni. unfold headers_size. lia.
  - assert (∀ j, mask_has vm j = true ↔ mask_has m j = true ∧ vni_of j = Some (vni p)) as Hvm'.
    { intros j. rewrite Hiff, mask_has_0, elem_of_foreach by done. split.
      - intros [?|[Hj Hn]]; [done|]. destruct (Hp j Hj) as (_&Hh&Hvj).
        by rewrite (hdr_vni_of _ _ Hh Hvj) in Hn.
      - intros [Hj Hn]. right. split; [done|]. destruct (Hp j Hj) as (_&Hh&Hvj).
        by rewrite (hdr_vni_of _ _ Hh Hvj). }
    exists vm, mem'. split_and!; try done. destruct Hch as [H1 H2].
    assert (∀ j, j ∈ PG_FOREACH_BIT vm ↔
      j ∈ filter (λ j, hdr_vni v hdrs j = Some (vni p)) (PG_FOREACH_BIT m)) as Hel.
    { intros j. rewrite elem_of_foreach, list_elem_of_filter, elem_of_foreach, Hiff, mask_has_0,
        elem_of_foreach by done. split; [intros [?|[? ?]]; done|tauto]. }
    split.
    + intros q Hq. apply H1. intros j Hj%Hel. by apply Hq.
    + intros j q w Hj%Hel. by apply H2.
Qed.

Lemma changes_nil (R : mbuf → mbuf → Prop) mem mem' : changes R [] mem mem' → mem' = mem.
Proof. intros [Hs _]. apply map_eq. intros q. apply Hs. by intros ? ?%not_elem_of_nil. Qed.

Context (seen : W → list (burst_call * gmap mptr mbuf)) `{!Observing W seen}.

Lemma foreach_sub_distinct m vm :
  is_mask m → is_mask vm → (∀ j, mask_has vm j = true → mask_has m j = true) →
  distinct (PG_FOREACH_BIT m) → distinct (PG_FOREACH_BIT vm).
Proof.
  intros Hm Hvm Hsub Hd j j' q Hj%elem_of_foreach Hj'%elem_of_foreach; [|done..].
  apply Hd; apply elem_of_foreach; auto.
Qed.

(** The packets of a network, once their outer headers are gone. *)
Lemma stripped_packets port_be hdrs m vm mem mem1 j :
  pending port_be hdrs m mem → is_mask vm → (∀ j, mask_has vm j = true → mask_has m j = true) →
  changes strips (PG_FOREACH_BIT vm) mem mem1 → mask_has vm j = true →
  ∃ q w k src inner ip, pkts !! j = Some q ∧
    mem1 !! q = Some w ∧ view j = Some (k, src, inner) ∧ data w = inner ∧
    hdrs !! j = Some (fst src, ip) ∧ ip_src v ip = Some (snd src) ∧
    byte_list (ip_size v) (snd src) ∧ (14 ≤ length inner)%nat ∧ is_Some (restore_pkt w).
Proof.
  intros (Hm&Hd&Hp) Hvm Hsub [_ Hc] Hj.
  destruct (Hp j (Hsub j Hj)) as ((q&w&Hq&Hw&Hview)&Hh&[[[k src] inner] Hvj]). unfold hdrs_ok in Hh.
  rewrite Hvj in Hview, Hh. destruct Hh as (_&ip&Hip&Hsrc).
  destruct (Hc j q w) as (w'&Hw'&Hdata); [by apply elem_of_foreach|done|done|].
  unfold strips in Hdata. rewrite (ar_inner _ _ _ _ _ Hview) in Hdata.
  exists q, w', k, src, inner, ip. destruct Hview. split_and!; auto.
Qed.

(** Learning and sending, once the outer headers are gone. *)
Lemma send_stage port_be hdrs m vm from es edge n i p md km e mem :
  pending port_be hdrs m mem → is_mask vm → (∃ j, mask_has vm j = true) →
  (∀ j, mask_has vm j = true ↔ mask_has m j = true ∧ vni_of j = Some (vni p)) →
  changes strips (PG_FOREACH_BIT vm) mem (fl_mem (v_flow e)) →
  v_allocs e = [] → ports (v_st e) !! i = Some p → port_ok v p md km →
  es !! i = Some edge → link edge = Some n → (∀ j src inner k, view j = Some (k, src, inner) →
    length (fst src) = 6%nat) →
  ∃ p' e' mem2,
    (∀ B (k : Z → VM W B) sd, side_edges sd = Edges es →
      (add_dst_iner_macs v i pkts hdrs vm;;
       r ← vflow (restore_metadata pkts vm;; e ← edges_at sd i; pg_brick_burst (link e) from i pkts vm);
       k r) e = k 0 e') ∧
    v_allocs e' = [] ∧ v_st e' = set_ports (v_st e) (<[i := p']> (ports (v_st e))) ∧
    fl_mem (v_flow e') = mem2 ∧
    seen (fl_world (v_flow e')) = seen (fl_world (v_flow e))
      ++ [(mk_call (Some n) from i pkts vm, mem2)] ∧
    (∀ q, (∀ j, mask_has vm j = true → pkts !! j ≠ Some q) → mem2 !! q = mem !! q) ∧
    (∀ j, mask_has vm j = true → ∃ q w k src inner, pkts !! j = Some q ∧ mem2 !! q = Some w ∧
      view j = Some (k, src, inner) ∧ data w = inner) ∧
    ∀ j, mask_has vm j = true → learned (v_st e') i j.
Proof.
  intros Hpend Hvm Hne Hvi Hch Ha Hport Hok Hedge Hn H6. set (mem1 := fl_mem (v_flow e)).
  assert (∀ j, mask_has vm j = true → mask_has m j = true) as Hsub by (intros j Hj; by apply Hvi in Hj as [? _]).
  assert (distinct (PG_FOREACH_BIT vm)) as Hdv by (apply (foreach_sub_distinct m); (done || apply Hpend)).
  pose proof (λ j, stripped_packets port_be hdrs m vm mem mem1 j Hpend Hvm Hsub Hch) as Hnow.
  assert (∀ j, mask_has vm j = true → ∃ k src inner s ip, view j = Some (k, src, inner) ∧
    bytes_at inner 6 6 = Some s ∧
    teaches hdrs (vtep_tick (v_st e)) mem1 j (mac_key (le_bytes s))
      (mk_dest (fst src) (snd src) (vtep_tick (v_st e))) ∧
    byte_list (ip_size v) (snd src) ∧ hdrs !! j = Some (fst src, ip)) as Hteach.
  { intros j Hj. destruct (Hnow j Hj) as (q&w&k&src&inner&ip&Hq&Hw&Hvj&Hin&Hh&Hsrc&Hb&Hl&_).
    destruct (bytes_at inner 6 6) as [s|] eqn:Hs; [|unfold bytes_at in Hs;
      rewrite decide_True in Hs by lia; done].
    exists k, src, inner, s, ip. split_and!; try done. exists q, w, (fst src, ip), (snd src), s.
    split_and!; try done. unfold pg_util_get_ether_src_addr. by rewrite Hin. }
  destruct (add_dst_spec (PG_FOREACH_BIT vm) hdrs i e p md km) as
    (p'&md'&Hadd&Hok'&Hv'&Hd'&_&_&Hlearn); [done..| |].
  { apply Forall_forall. intros j Hj%elem_of_foreach; [|done].
    destruct (Hteach j Hj) as (k&src&inner&s&ip&Hvj&Hs&Ht&Hb&_). eexists _, _. split; [exact Ht|].
    cbn. split; [by eapply H6|done]. }
  destruct (restore_loop_spec (PG_FOREACH_BIT vm) (v_flow e)) as (mem2&Hres&Hch2);
    [by apply foreach_NoDup|done|..].
  { apply Forall_forall. intros j Hj%elem_of_foreach; [|done].
    destruct (Hnow j Hj) as (q&w&?&?&?&?&?&?&?&?&?&?&?&?&?). exists q, w. done. }
  destruct (send_seen seen n from i pkts vm (set_mem (v_flow e) mem2)) as (fl3&Hsend&Hm3&Hs3).
  exists p', (mk_venv fl3 (set_ports (v_st e) (<[i:=p']> (ports (v_st e)))) []), mem2.
  split_and!; try done.
  - intros B k sd Hsd. unfold add_dst_iner_macs. rewrite (vbind_done _ _ _ _ _ Hadd).
    rewrite (vbind_flow _ 0 fl3); [done|]. cbn [v_flow]. unfold restore_metadata.
    unfold mbind at 1, M_bind at 1. rewrite Hres. unfold edges_at. rewrite Hsd, Hedge.
    cbn [unwrap]. by rewrite M_bind_ret, Hn.
  - intros q Hq. destruct Hch2 as [Hs2 _]. destruct Hch as [Hs1 _].
    rewrite Hs2, Hs1; [done|..]; intros j Hj%elem_of_foreach; auto.
  - intros j Hj. destruct (Hnow j Hj) as (q&w&k&src&inner&ip&Hq&Hw&Hvj&Hin&_).
    destruct Hch2 as [_ H2]. destruct (H2 j q w) as (w2&Hw2&Hr2%restore_data);
      [by apply elem_of_foreach|done|done|].
    exists q, w2, k, src, inner. split_and!; congruence.
  - intros j Hj. destruct (Hteach j Hj) as (k&src&inner&s&ip&Hvj&Hs&Ht&_).
    destruct (Hlearn j _ _ (proj2 (elem_of_foreach vm j Hvm) Hj) Ht) as
      (j'&d'&Hj'%elem_of_foreach&Ht'&Hmd'); [|done].
    exists p', md', km, k, src, inner, s. cbn [v_st]. split_and!; try done.
    { apply list_lookup_insert_eq. by apply lookup_lt_Some in Hport. }
    destruct (Hnow j' Hj') as (q1&w1&k1&src1&inner1&ip1&Hq1&Hw1&Hvj1&Hin1&Hh1&Hsrc1&_).
    destruct Ht' as (q2&w2&h2&src2&inner2&Hq2&Hw2&Hh2&Hsrc2&Hmac2&Hkey&Hd2).
    fold mem1 in Hw2. simplify_eq.
    exists (mk_dest (fst src1) (snd src1) (vtep_tick (v_st e))), j', k1, src1, (data w2), inner2.
    cbn in Hsrc2, Hmd'. simplify_eq.
    split_and!; try done; [by destruct src1|]. unfold mac_key. congruence.
Qed.

Lemma learned_ports st st' i j :
  ports st' !! i = ports st !! i → learned st i j → learned st' i j.
Proof. unfold learned. by intros ->. Qed.

(** The packets of the other networks wait as before. *)
Lemma pending_rest port_be hdrs m m' vm mem mem2 :
  pending port_be hdrs m mem → is_mask m' → (∀ j, mask_has vm j = true → mask_has m j = true) →
  (∀ j, mask_has m' j = true → mask_has m j = true ∧ mask_has vm j = false) →
  (∀ q, (∀ j, mask_has vm j = true → pkts !! j ≠ Some q) → mem2 !! q = mem !! q) →
  pending port_be hdrs m' mem2.
Proof.
  intros (Hm&Hd&Hpe) Hmm Hsub Hm' Hoth. split; [done|]. split.
  { apply (foreach_sub_distinct m); [done..| |done]. intros j Hj. by apply Hm' in Hj as [? _]. }
  intros j [Hj Hn]%Hm'. destruct (Hpe j Hj) as ((q&w&Hq&Hw&Hview)&?&?). split_and!; [|done..].
  exists q, w. split_and!; [done| |done]. rewrite Hoth; [done|].
  intros k Hk Hkq. assert (j = k) as ->; [|congruence].
  apply (Hd j k q); [by apply elem_of_foreach| |done|done]. apply elem_of_foreach; [done|by apply Hsub].
Qed.

Lemma decapsulate_loop_spec port_be hdrs from sides es vnis n i m e :
  side_edges (sides (pg_flip_side from)) = Edges es →
  (∀ k, (i ≤ k < i + n)%nat → ∃ edge, es !! k = Some edge ∧ is_Some (link edge)) →
  (∀ j src inner k, view j = Some (k, src, inner) → length (fst src) = 6%nat) →
  v_allocs e = [] → (∀ k, (i ≤ k < i + n)%nat → port_ready (v_st e) vnis k) →
  pending port_be hdrs m (fl_mem (v_flow e)) →
  ∃ e' cs, decapsulate_simple_loop v sides from pkts hdrs i n m e = Some (Done 0, e') ∧
    seen (fl_world (v_flow e')) = seen (fl_world (v_flow e)) ++ cs ∧
    distributes from es vnis i n (λ j, mask_has m j = true) cs ∧
    (∀ k, (k < i)%nat → ports (v_st e') !! k = ports (v_st e) !! k) ∧
    ∀ j k, mask_has m j = true → (i ≤ k < i + n)%nat → vni_of j = Some (vnis k) →
      (∀ k', (i ≤ k' < k)%nat → vni_of j ≠ Some (vnis k')) → learned (v_st e') k j.
Proof.
  intros Hes Hedges H6. revert i m e Hedges.
  induction n as [|n IH]; intros i m e Hedges Ha Hready Hpend; cbn [decapsulate_simple_loop].
  { exists e, []. rewrite app_nil_r. split_and!; [done|done|constructor|done|]. intros; lia. }
  destruct (Z.eqb_spec m 0) as [->|Hm0].
  { exists e, []. rewrite app_nil_r. split_and!; [done|done| |done|].
    - apply distributes_none. intros j. by rewrite mask_has_0.
    - intros j k Hj. by rewrite mask_has_0 in Hj. }
  destruct (Hready i) as (p&md&km&Hp&Hok&Hvni&Hdead); [lia|].
  rewrite (vbind_port i p) by done. rewrite Hdead, vbind_ret. replace (0 <? 0) with false by done.
  destruct (check_stage port_be hdrs m p (v_flow e) Hpend) as (vm&mem1&Hchk&Hvm&Hvi&Hch).
  rewrite (vbind_flow _ _ _ _ _ Hchk). destruct (Z.eqb_spec vm 0) as [->|Hvm0].
  - rewrite foreach_0 in Hch. apply changes_nil in Hch as ->.
    assert (mk_venv (set_mem (v_flow e) (fl_mem (v_flow e))) (v_st e) (v_allocs e) = e) as ->.
    { by destruct e as [[] ? ?]. }
    destruct (IH (S i) m e) as (e'&cs&Hr&Hs&Hdis&Hold&Hl); [intros k ?; apply Hedges; lia|done
      |intros k ?; apply Hready; lia|done|].
    assert (∀ j, mask_has m j = true → vni_of j ≠ Some (vnis i)) as Hskip.
    { intros j Hj Hn. rewrite <- Hvni in Hn. pose proof (proj2 (Hvi j) (conj Hj Hn)) as H0.
      by rewrite mask_has_0 in H0. }
    exists e', cs. split_and!; [done|done|by constructor|..].
    + intros k Hk. apply Hold. lia.
    + intros j k Hj Hk Hn Hfirst. destruct (decide (k = i)) as [->|]; [by apply Hskip in Hn|].
      apply Hl; [done|lia|done|]. intros k' ?. apply Hfirst. lia.
  - destruct (Hedges i) as (edge&Hedge&[nb Hnb]); [lia|].
    destruct (send_stage port_be hdrs m vm from es edge nb i p md km
      (mk_venv (set_mem (v_flow e) mem1) (v_st e) (v_allocs e)) (fl_mem (v_flow e))) as
      (p'&e1&mem2&Hrun&Ha1&Hst1&Hmem1&Hsn1&Hoth&Hdel&Hlrn); try done.
    { by apply mask_nonzero. }
    cbn [v_st v_flow] in Hst1, Hsn1. rewrite (Hrun _ _ _ Hes). replace (0 <? 0) with false by done.
    set (m' := Z.lxor m vm).
    assert (∀ j, mask_has m' j = true ↔ mask_has m j = true ∧ vni_of j ≠ Some (vnis i)) as Hm'.
    { intros j. unfold m'. rewrite mask_has_lxor. pose proof (Hvi j) as Hj. rewrite Hvni in Hj.
      destruct (mask_has m j), (mask_has vm j); cbn; naive_solver. }
    assert (is_mask m') as Hmm by (apply is_mask_lxor; [apply Hpend|done]).
    destruct (IH (S i) m' e1) as (e'&cs&Hr&Hs&Hdis&Hold&Hl).
    + intros k ?. apply Hedges. lia.
    + done.
    + intros k ?. destruct (Hready k) as (pk&mdk&kmk&Hpk&?&?&?); [lia|]. exists pk, mdk, kmk.
      rewrite Hst1. cbn. rewrite list_lookup_insert_ne by lia. done.
    + rewrite Hmem1. eapply (pending_rest _ _ m m' vm); [done|done| | |done].
      * intros j Hj. by apply Hvi in Hj as [? _].
      * intros j [Hj Hn]%Hm'. split; [done|]. apply not_true_is_false. intros [_ Hk]%Hvi. congruence.
    + exists e', ((mk_call (Some nb) from i pkts vm, mem2) :: cs). split_and!.
      * exact Hr.
      * rewrite Hs, Hsn1, <- app_assoc. done.
      * apply (dist_call _ _ _ _ _ _ (λ j, mask_has m' j = true)); [|done|done].
        exists edge, vm. cbn [fst snd]. rewrite Hnb. rewrite <- Hvni.
        split_and!; [done|done|done|done| |].
        -- destruct (proj1 (mask_nonzero vm Hvm) Hvm0) as [j Hj]. exists j. by apply Hvi.
        -- intros j Hj%Hvi. by apply Hdel.
      * intros k Hk. rewrite Hold by lia. rewrite Hst1. cbn. by rewrite list_lookup_insert_ne by lia.
      * intros j k Hj Hk Hn Hfirst. destruct (decide (k = i)) as [->|].
        -- apply (learned_ports (v_st e1)); [by apply Hold; lia|]. apply Hlrn, Hvi.
           by rewrite Hvni.
        -- apply Hl; [|lia|done|intros k' ?; apply Hfirst; lia]. apply Hm'. split; [done|].
           apply Hfirst. lia.
Qed.

Lemma distributes_ext from es vnis i n (P Q : nat → Prop) cs :
  (∀ j, P j ↔ Q j) → distributes from es vnis i n P cs → distributes from es vnis i n Q cs.
Proof.
  intros HPQ HD. revert Q HPQ. induction HD as [|i n P cs Hs HD IH|i n P R c cs Hdel HR HD IH];
    intros Q HPQ.
  - constructor.
  - apply dist_skip; [|by apply IH]. intros j Hj. by apply Hs, HPQ.
  - apply (dist_call _ _ _ _ _ _ R); [| |done].
    + destruct Hdel as (edge&m&He&Hc&Hm0&Hm&[j0 Hj0]&Hall). exists edge, m.
      split_and!; [done|done|done|..].
      * intros j. by rewrite Hm, HPQ.
      * exists j0. by rewrite <- HPQ.
      * intros j. rewrite <- HPQ. apply Hall.
    + intros j. by rewrite HR, HPQ.
Qed.

(** The hypotheses on the receiving end point. *)
Record receives (from : pg_side) (sides : pg_side → pg_brick_side) (es : list pg_brick_edge)
    (vnis : nat → Z) (e : venv W) : Prop := {
  rc_flags : flags (v_st e) = PG_VTEP_ALL_OPTI;
  rc_allocs : v_allocs e = [];
  rc_edges : side_edges (sides (pg_flip_side from)) = Edges es;
  rc_links k : (k < Z.to_nat (side_nb (sides (pg_flip_side from))))%nat →
    ∃ edge, es !! k = Some edge ∧ is_Some (link edge);
  rc_ports k : (k < Z.to_nat (side_nb (sides (pg_flip_side from))))%nat →
    port_ready (v_st e) vnis k;
}.

Lemma from_vtep_spec from sides es vnis mask e :
  receives from sides es vnis e → is_mask mask → distinct (PG_FOREACH_BIT mask) →
  (∀ j, mask_has mask j = true → viewed (udp_dst_port_be (v_st e)) (fl_mem (v_flow e)) j) →
  (∀ j, is_Some (view j) → mask_has mask j = true) →
  let n := Z.to_nat (side_nb (sides (pg_flip_side from))) in
  ∃ e' cs, from_vtep lib v sides from pkts mask e = Some (Done 0, e') ∧
    seen (fl_world (v_flow e')) = seen (fl_world (v_flow e)) ++ cs ∧
    distributes from es vnis 0 n (λ j, is_Some (view j)) cs ∧
    ∀ j k, (k < n)%nat → vni_of j = Some (vnis k) →
      (∀ k', (k' < k)%nat → vni_of j ≠ Some (vnis k')) → learned (v_st e') k j.
Proof.
  intros [Hfl Ha Hes Hlinks Hports] Hmask Hd Hview Hin n.
  destruct (classify_spec (PG_FOREACH_BIT mask) (udp_dst_port_be (v_st e)) ∅ 0 0 (v_flow e))
    as (hdrs&mm&cm&Hcls&Hcm&Hiff&_&Hhok).
  { by apply foreach_NoDup. }
  { apply is_mask_0. }
  { apply Forall_forall. intros j Hj%elem_of_foreach; [|done]. by apply (mask_has_lt mask). }
  { apply Forall_forall. intros j Hj%elem_of_foreach; [|done]. by apply Hview. }
  assert (∀ j, mask_has cm j = true ↔ is_Some (view j)) as Hcv.
  { intros j. rewrite Hiff, mask_has_0, elem_of_foreach by done. split; [intros [?|[? ?]]; done|].
    intros Hs. right. split; [by apply Hin|done]. }
  destruct (decapsulate_loop_spec (udp_dst_port_be (v_st e)) hdrs from sides es vnis n 0 cm e)
    as (e'&cs&Hr&Hs&Hdis&_&Hl); try done.
  { intros k [_ Hk]. by apply Hlinks. }
  { intros j src inner k Hj. destruct (Hview j) as (q&w&_&_&Hv'); [apply Hin; eauto|].
    rewrite Hj in Hv'. destruct Hv' as [Hmac _ _ _ _ _ _ _ _ _]. by apply bytes_at_size in Hmac. }
  { intros k [_ Hk]. by apply Hports. }
  { split; [done|]. split.
    - apply (foreach_sub_distinct mask); [done..| |done]. intros j Hj. by apply Hin, Hcv.
    - intros j Hj. apply Hcv in Hj. pose proof (Hin j Hj) as Hmj. split_and!; [by apply Hview| |done].
      rewrite Forall_forall in Hhok. apply Hhok. by apply elem_of_foreach. }
  exists e', cs. split_and!; [|done| |].
  - unfold from_vtep, vcatch. rewrite vbind_gets. unfold id. rewrite Hfl.
    replace (PG_VTEP_ALL_OPTI =? PG_VTEP_ALL_OPTI) with true by done.
    unfold decapsulate_simple. rewrite vbind_gets. unfold id, classify_pkts.
    rewrite (vbind_flow _ _ _ _ _ Hcls).
    assert (mk_venv (v_flow e) (v_st e) (v_allocs e) = e) as -> by (by destruct e).
    fold n. by rewrite Hr.
  - eapply distributes_ext; [|exact Hdis]. done.
  - intros j k Hk Hn Hfirst. apply Hl; [|lia|done|intros k' ?; apply Hfirst; lia].
    apply Hcv. unfold vni_of in Hn. destruct (view j); [by eexists|done].
Qed.

End Decapsulate.


(** ** From one end to the other *)

Lemma tunnels_arrives v st n dst inner w :
  tunnels v st n dst inner (data w) → l2_len w = 14 → byte_list (ip_size v) (vt_ip st) →
  (v = V4 ∨ has_flag st PG_VTEP_FORCE_UPD_IPV6_CHECKSUM = false) →
  (14 ≤ length inner)%nat → (∀ w', data w' = inner → is_Some (restore_pkt w')) →
  arrives v (udp_dst_port_be st) w n (vt_mac st, vt_ip st) inner.
Proof.
  intros (_&Hmac&_&Hsrc&Hdst&Hvx&Hck&Hvni&Hin) H14 Hip Hv Hlen Hmeta.
  split; unfold pg_utils_get_l3; rewrite ?H14; eauto.
Qed.

(** A burst of one packet goes to the first port of its network. *)
Lemma distributes_one pkts view from es vnis i n (P : nat → Prop) cs x k :
  distributes pkts view from es vnis i n P cs → (∀ j, P j ↔ j = 0%nat) →
  vni_of view 0 = Some x → (i ≤ k < i + n)%nat → vnis k = x →
  (∀ k', (i ≤ k' < k)%nat → vnis k' ≠ x) →
  ∃ c, cs = [c] ∧ delivers pkts view from es k (λ j, j = 0%nat) c.
Proof.
  intros HD. induction HD as [|i n P cs Hs HD IH|i n P R c cs Hdel HR HD IH];
    intros HP Hx Hk Hvk Hfirst; [lia|..].
  - destruct (decide (k = i)) as [->|].
    { destruct (Hs 0%nat); [by apply HP|by rewrite Hvk]. }
    apply IH; [done|done|lia|done|]. intros k' ?. apply Hfirst. lia.
  - assert (vnis i = x) as Hi.
    { destruct Hdel as (_&_&_&_&_&_&[j [Hj Hn]]&_). apply HP in Hj as ->. congruence. }
    assert (k = i) as -> by (destruct (decide (k = i)); [done|]; exfalso; by apply (Hfirst i); [lia|]).
    exists c. split.
    + assert (∀ j, ¬ R j) as Hnone by (intros j [Hj%HP Hn]%HR; subst j; congruence).
      f_equal. clear -HD Hnone. induction HD as [|????? HD IH|????? ? Hd]; [done|by apply IH|].
      destruct Hd as (_&_&_&_&_&_&[j [Hj _]]&_). by apply Hnone in Hj.
    + destruct Hdel as (edge&m&He&Hc&Hm0&Hm&[j0 Hj0]&Hall). exists edge, m.
      assert (∀ j, P j ∧ vni_of view j = Some (vnis i) ↔ j = 0%nat) as Heq.
      { intros j. rewrite HP. split; [by intros [? _]|]. intros ->. split; [done|congruence]. }
      split_and!; [done..| | |].
      * intros j. by rewrite Hm, Heq.
      * by exists 0%nat.
      * intros j Hj. apply Hall. by apply Heq.
Qed.


(** ** Witnesses *)

Definition demo_adj {W} : AdjLib W := λ p n,
  v ← load_pkt p;
  if decide (n ≤ length (data v))%nat then
    store_pkt p (set_pkt_len (set_data v (drop n (data v))) (pkt_len v - Z.of_nat n));; mret true
  else mret false.

Lemma demo_adj_laws {W} : @AdjLaws W demo_adj.
Proof.
  intros fl p w n Hp Hn. unfold pktmbuf_adj, demo_adj. rewrite (load_bind p w) by done.
  by rewrite decide_True.
Qed.

Lemma demo_headroom {W} v (fl : flow W) q : headroom (PktLib0 := mem_pktlib) v fl q.
Proof.
  intros fl' H. unfold pktmbuf_prepend in H. cbn [mem_pktlib] in H. inv_run H. discriminate H.
Qed.

Definition demo_vport : vtep_port :=
  mk_port (wire_vni 7) [239; 0; 0; 1] (TLive (mk_tbl ∅ ∅)) (TLive (mk_tbl ∅ ∅)) 0.

Definition demo_vtep (fl : Z) : vtep_state :=
  mk_vtep [2; 0; 0; 0; 0; 1] PG_EAST_SIDE (PG_CPU_TO_BE_16 4789) [demo_vport] 0 0 fl
    (replicate 64 1%positive) [10; 0; 0; 1] 1000 0.

Definition demo_vlib : vtep_lib :=
  mk_vlib (λ a, match a with b :: _ => Z.odd b | [] => false end) (λ d s, u32 (s + sum_words d))
    (λ z, z mod 0xffff) (λ _, 0) (λ _, 0) (λ _, replicate 6 0) (λ _, 0).

Lemma demo_port_ok : port_ok V4 demo_vport ∅ ∅.
Proof.
  split; cbn.
  - eexists. split; [done|apply rep_empty_table].
  - eexists. split; [done|apply rep_empty_table].
  - split; [done|]. repeat constructor; unfold is_byte; lia.
  - vm_compute. done.
  - intros k d. by rewrite lookup_empty.
Qed.

Lemma demo_vtep_ok fl : vtep_ok V4 (demo_vtep fl).
Proof.
  split; [done| |by vm_compute]. split; [done|]. repeat constructor; unfold is_byte; lia.
Qed.

Definition demo_venv (fl : Z) : venv (list (burst_call * gmap mptr mbuf)) :=
  mk_venv (mk_flow {[5%positive := demo_ip 60]} ∅ None []) (demo_vtep fl) [].

Definition demo_vsides (s : pg_side) : pg_brick_side :=
  mk_side 1 1 (Edges [mk_edge (Some (if s then 8 else 9)%positive) 0]).


(** The frame that the end point [demo_vtep] sends. *)
Definition demo_frame : mbuf :=
  mk_mbuf (ethernet_build V4 [2; 0; 0; 0; 0; 1] [1; 0; 0x5e; 0; 0; 1]
    ++ ipv4_hdr_bytes 0x45 0 0 1 0 64 17 0 (le_bytes [10; 0; 0; 1]) (le_bytes [239; 0; 0; 1])
    ++ udp_build (PG_CPU_TO_BE_16 4789) 0 0 0 ++ vxlan_build (wire_vni 7) ++ data (demo_ip 60))
    110 14 0 0 0 1.

Definition demo_view (j : nat) : option (Z * (list Z * list Z) * list Z) :=
  match j with
  | O => Some (wire_vni 7, ([2; 0; 0; 0; 0; 1], [10; 0; 0; 1]), data (demo_ip 60))
  | S _ => None
  end.

Definition demo_receiver (w : mbuf) : venv (list (burst_call * gmap mptr mbuf)) :=
  mk_venv (mk_flow {[6%positive := w]} ∅ None []) (demo_vtep PG_VTEP_ALL_OPTI) [].

Lemma demo_receives w :
  receives V4 PG_EAST_SIDE demo_vsides [mk_edge (Some 8%positive) 0] (λ _, wire_vni 7)
    (demo_receiver w).
Proof.
  split; [done|done|done|..]; cbn; intros k Hk; assert (k = 0%nat) as -> by lia.
  - eexists. split; [done|]. by eexists.
  - exists demo_vport, ∅, ∅. split_and!; [done|apply demo_port_ok|done|done].
Qed.

Lemma demo_meta w : data w = data (demo_ip 60) → is_Some (restore_pkt w).
Proof.
  intros Hd. unfold restore_pkt, pg_utils_guess_l2. rewrite Hd. cbn [mbind option_bind].
  replace (load16 (data (demo_ip 60)) 12) with (Some 8) by (by vm_compute).
  cbn [mbind option_bind]. unfold pg_utils_get_ether_type. cbn [set_l2_len data l2_len].
  rewrite Hd. vm_compute; by eexists.
Qed.


