(* ===== verification/VtepAdmin.v ===== *)
(** * Administration of the tunnel end points

    Attaching and detaching virtual networks, the addresses of a port, and what goes
    wrong in them. *)

From S2P Require Import Prelude Bitmask Common Brick BrickInv Burst MacTable Switch.
From S2P Require Import Packets Network Endpoints Pmtud Vtep VtepSpec.

Section Admin.

Context {W : Type} `{!Dispatch W, !PktLib W, !PktLaws W}.
Context (seen : W → list (burst_call * gmap mptr mbuf)) `{!Observing W seen}.
Context (lib : vtep_lib) (v : ip_version) (sides : pg_side → pg_brick_side).
Context (pktmbuf_alloc : M (flow W) (option mptr)).
(** A new packet is empty and has one reference; packets have room. *)
Context (law_alloc : ∀ fl : flow W, pktmbuf_alloc fl = Some (None, fl) ∨
  ∃ q w, fl_mem fl !! q = None ∧ refcnt w = 1 ∧
    pktmbuf_alloc fl = Some (Some q, set_mem fl (<[q := w]> (fl_mem fl)))).
Context (append_room : ∀ (fl fl' : flow W) q n, pktmbuf_append q n fl ≠ Some (false, fl')).
Implicit Types (e : venv W).

Lemma run_calls_observed cs (fl : flow W) :
  ∃ fl', run_calls cs fl = Some (0, fl') ∧ fl_mem fl' = fl_mem fl.
Proof.
  revert fl. induction cs as [|c cs IH]; intros fl; cbn [run_calls]; [by exists fl|].
  assert (∃ fl1, do_call c fl = Some (0, fl1) ∧ fl_mem fl1 = fl_mem fl) as (fl1&Hc&Hm).
  { unfold do_call. destruct (bc_to c) as [q|].
    - destruct (send_seen seen q (bc_from c) (bc_edge c) (bc_pkts c) (bc_mask c) fl) as (fl1&?&?&_).
      by exists fl1.
    - by exists fl. }
  unfold mbind, M_bind. rewrite Hc. replace (0 <? 0) with false by done.
  destruct (IH fl1) as (fl'&Hr&Hm'). exists fl'. split; [done|]. congruence.
Qed.

Lemma side_forward_observed sd es from pkts m (fl : flow W) :
  side_edges sd = Edges es → (Z.to_nat (side_nb sd) ≤ length es)%nat →
  ∃ fl', pg_brick_side_forward sd from pkts m fl = Some (0, fl') ∧ fl_mem fl' = fl_mem fl.
Proof.
  intros Hes Hnb. unfold pg_brick_side_forward.
  rewrite (side_forward_loop_spec sd es) by (done || lia). apply run_calls_observed.
Qed.

(** Joining and leaving a group sends a message and does not touch the end point. *)
Lemma multicast_internal_ok e es ip op :
  side_edges (sides (vt_output (v_st e))) = Edges es →
  (Z.to_nat (side_nb (sides (vt_output (v_st e)))) ≤ length es)%nat →
  byte_list (ip_size v) ip →
  ∃ fl', multicast_internal lib v sides pktmbuf_alloc ip op e
    = Some (Done tt, mk_venv fl' (v_st e) (v_allocs e)).
Proof.
  intros Hes Hnb Hip. unfold multicast_internal. destruct (multicast_mac v ip Hip) as (m&Hm&_).
  rewrite (vbind_unwrap _ _ _ _ Hm). destruct (negb (pg_is_multicast_ip v ip)); [by eexists|].
  destruct (law_alloc (v_flow e)) as [Ha|(q&w&Hq&Href&Ha)]; rewrite (vbind_flow _ _ _ _ _ Ha);
    [by eexists|].
  rewrite vbind_gets. cbn [v_st]. unfold id. set (bytes := match v with V4 => igmp_packet _ _ _ _ _ | V6 => mld_packet _ _ _ _ end).
  destruct (law_append (set_mem (v_flow e) (<[q := w]> (fl_mem (v_flow e)))) q w (length bytes))
    as [Hf|(junk&Hj&Happ)]; [cbn; by rewrite lookup_insert_eq|by apply append_room in Hf|].
  erewrite (vbind_flow _ true) by exact Happ. cbn [negb v_st v_allocs].
  unfold vflow. cbn [v_flow]. unfold write_bytes, mbind, M_bind. cbn.
  unfold load_pkt, mbind, M_bind, gets. cbn. rewrite lookup_insert_eq. cbn.
  unfold store_pkt, modify. cbn.
  match goal with |- context [pg_brick_side_forward ?sd ?f ?ps ?mk ?fl] =>
    destruct (side_forward_observed sd es f ps mk fl) as (fl'&->&Hm'); [done..|] end.
  cbn in Hm'. rewrite !insert_insert_eq in Hm'.
  rewrite (law_free fl' q _) by (rewrite Hm'; apply lookup_insert_eq). by eexists.
Qed.

(** *** Attaching a network *)

Lemma find_neighbor_spec es q i k :
  find_neighbor es q i = Some k →
  ∃ j edge, k = (i + j)%nat ∧ es !! j = Some edge ∧ link edge = Some q.
Proof.
  revert i. induction es as [|edge es IH]; intros i; cbn [find_neighbor]; [done|].
  case_decide as Hl; [intros [= <-]; exists 0%nat, edge; split; [lia|done]|].
  intros (j&edge'&->&?&?)%IH. exists (S j), edge'. split; [lia|done].
Qed.

Lemma find_neighbor_none es q i edge :
  find_neighbor es q i = None → edge ∈ es → link edge ≠ Some q.
Proof.
  revert i. induction es as [|edge' es IH]; intros i; cbn [find_neighbor];
    [by intros _ ?%not_elem_of_nil|].
  case_decide; [done|]. intros Hn [->|?]%elem_of_cons; [done|by eapply IH].
Qed.

(** The port that a request to attach network [n] to a neighbour is about, when the
    request is acceptable. *)
Definition attachable st (es : list pg_brick_edge) (neighbor : option ptr) (n : Z) (ip : list Z)
    (i : nat) : Prop :=
  ∃ q p, neighbor = Some q ∧ n < 2 ^ 24 ∧ pg_is_multicast_ip v ip = true ∧
    find_neighbor es q 0 = Some i ∧ ports st !! i = Some p ∧ vni p = 0 ∧
    pg_is_multicast_ip v (multicast_ip p) = false.

Lemma wire_vni_range n : 0 ≤ wire_vni n < 2 ^ 32.
Proof. apply Z.mod_pos_bound. lia. Qed.

Definition broadcast : list Z := replicate 6 0xff.

Lemma do_add_vni_ok e es i n ip p :
  v_allocs e = [] → side_edges (sides (vt_output (v_st e))) = Edges es →
  (Z.to_nat (side_nb (sides (vt_output (v_st e)))) ≤ length es)%nat →
  byte_list (ip_size v) ip → ports (v_st e) !! i = Some p → vni p = 0 →
  pg_is_multicast_ip v (multicast_ip p) = false →
  ∃ fl', do_add_vni lib v sides pktmbuf_alloc i n ip e
    = Some (Done 0, mk_venv fl' (set_ports (v_st e) (<[i := mk_port (wire_vni n) ip
        (TLive (mk_tbl ∅ ∅)) (TLive (mk_tbl ∅ ∅)) (dead_tables p)]> (ports (v_st e)))) []).
Proof.
  intros Ha Hes Hnb Hip Hp Hv Hm. unfold do_add_vni. rewrite (vbind_port i p) by done.
  rewrite Hv, Hm. replace (negb (0 =? 0)) with false by done.
  rewrite !(vbind_done valloc _ e e true) by (by apply valloc_ok). cbn [andb negb].
  unfold put_port. rewrite vbind_modify. set (e1 := mk_venv _ _ _).
  destruct (multicast_internal_ok e1 es ip SUBSCRIBE) as (fl'&Hsub); [done..|].
  exists fl'. unfold multicast_subscribe. rewrite (vbind_done _ _ _ _ _ Hsub).
  unfold e1. cbn. by rewrite Ha.
Qed.

Lemma do_add_mac_ok e i p md km mac :
  v_allocs e = [] → ports (v_st e) !! i = Some p → port_ok v p md km →
  ∃ p', do_add_mac i mac e
      = Some (Done tt, mk_venv (v_flow e) (set_ports (v_st e) (<[i := p']> (ports (v_st e)))) []) ∧
    port_ok v p' md (<[mac_key (le_bytes mac) := tt]> km) ∧ vni p' = vni p ∧
    multicast_ip p' = multicast_ip p ∧ dead_tables p' = dead_tables p.
Proof.
  intros Ha Hp [Hd (t&Ht&Hrep) Hip Hv Hent].
  destruct (tbl_set_ok t km (le_bytes mac) tt (λ t, p ← get_port i; put_port i (set_known_mac p t)) e)
    as (t'&Hrep'&Hset); [done..|].
  exists (set_known_mac p (TLive t')). split.
  - unfold do_add_mac. rewrite (vbind_port i p) by done. rewrite Ht, Hset.
    rewrite (vbind_port i p) by done. unfold put_port, vmodify. by rewrite Ha.
  - split_and!; try done. split; cbn; [done|by eauto|done..].
Qed.

End Admin.

(** The answer to a request that is not acceptable: an error, and nothing changes. *)
Definition refused {W} (e : venv W) (r : option (outcome Z * venv W)) : Prop :=
  ∃ err, r = Some (Done (-1), mk_venv (mk_flow (fl_mem (v_flow e)) (fl_count (v_flow e)) (Some err)
    (fl_world (v_flow e))) (v_st e) (v_allocs e)).

(** C15: A network is attached to the port of a neighbour exactly when the neighbour is
    linked, the identifier has 24 bits, the address is one of a multicast group and the
    port has no network yet; the port then has the identifier and the group, knows where
    no address is, and takes packets for the broadcast address. Any other request
    changes nothing and gives an error. *)
Theorem vtep_add_vni_correct {W} `{!Dispatch W, !PktLib W, !PktLaws W}
    (seen : W → list (burst_call * gmap mptr mbuf)) `{!Observing W seen} lib v sides
    (pktmbuf_alloc : M (flow W) (option mptr)) neighbor n ip es es' (e : venv W) :
  (∀ fl : flow W, pktmbuf_alloc fl = Some (None, fl) ∨
    ∃ q w, fl_mem fl !! q = None ∧ refcnt w = 1 ∧
      pktmbuf_alloc fl = Some (Some q, set_mem fl (<[q := w]> (fl_mem fl)))) →
  (∀ (fl fl' : flow W) q n, pktmbuf_append q n fl ≠ Some (false, fl')) →
  let st := v_st e in
  v_allocs e = [] → side_edges (sides (vt_output st)) = Edges es' →
  (Z.to_nat (side_nb (sides (vt_output st))) ≤ length es')%nat →
  side_edges (sides (pg_flip_side (vt_output st))) = Edges es → length es = length (ports st) →
  byte_list (ip_size v) ip →
  let run := pg_vtep_add_vni lib v sides pktmbuf_alloc neighbor n ip e in
  (∃ i fl' p', attachable v st es neighbor n ip i ∧
    run = Some (Done 0, mk_venv fl' (set_ports st (<[i := p']> (ports st))) []) ∧
    port_ok v p' ∅ {[mac_key (le_bytes broadcast) := tt]} ∧ vni p' = wire_vni n ∧
    multicast_ip p' = ip) ∨
  ((∀ i, ¬ attachable v st es neighbor n ip i) ∧ refused e run).
Proof.
  intros Halloc Hroom st Ha Hes' Hnb Hes Hlen Hip run. unfold run, pg_vtep_add_vni.
  rewrite vbind_gets. unfold id. fold st. cbv zeta.
  destruct neighbor as [q|];
    [|right; split; [by intros i (?&?&?&_)|by eexists]].
  unfold is_vni_valid. destruct (Z.ltb_spec n 16777216); cbn [negb];
    [|right; split; [intros i (?&?&_&?&_); change (2 ^ 24) with 16777216 in *; lia|by eexists]].
  destruct (pg_is_multicast_ip v ip) eqn:Hmc; cbn [negb];
    [|right; split; [by intros i (?&?&_&_&?&_); congruence|by eexists]].
  rewrite Hes. rewrite (vbind_unwrap _ es) by done.
  destruct (find_neighbor es q 0) as [i|] eqn:Hf;
    [|right; split; [intros i (?&?&[= <-]&_&_&?&_); congruence|by eexists]].
  destruct (find_neighbor_spec _ _ _ _ Hf) as (j&edge&->&Hj&_). cbn [Nat.add] in *.
  destruct (lookup_lt_is_Some_2 (ports st) j) as [p Hp].
  { rewrite <- Hlen. by apply lookup_lt_Some in Hj. }
  destruct (Z.eqb_spec (vni p) 0) as [Hv|Hv].
  2: { right. split.
    - intros i (?&p1&[= <-]&_&_&?&?&?&_). by simplify_eq.
    - eexists. unfold mbind at 1, VM_bind at 1, do_add_vni. rewrite (vbind_port j p) by done.
      rewrite (proj2 (Z.eqb_neq _ _) Hv). cbn [negb]. reflexivity. }
  destruct (pg_is_multicast_ip v (multicast_ip p)) eqn:Hpm.
  { right. split.
    - intros i (?&p1&[= <-]&_&_&?&?&?&?). simplify_eq. congruence.
    - eexists. unfold mbind at 1, VM_bind at 1, do_add_vni. rewrite (vbind_port j p) by done.
      rewrite Hv, Hpm. reflexivity. }
  left. destruct (do_add_vni_ok seen lib v sides pktmbuf_alloc Halloc Hroom e es' j n ip p)
    as (fl'&Hadd); [done..|].
  rewrite (vbind_done _ _ _ _ _ Hadd). replace (0 <? 0) with false by done.
  destruct (do_add_mac_ok v (mk_venv fl' (set_ports st (<[j := mk_port (wire_vni n) ip
    (TLive (mk_tbl ∅ ∅)) (TLive (mk_tbl ∅ ∅)) (dead_tables p)]> (ports st))) []) j
    (mk_port (wire_vni n) ip (TLive (mk_tbl ∅ ∅)) (TLive (mk_tbl ∅ ∅)) (dead_tables p)) ∅ ∅
    (replicate 6 255)) as (p'&Hmac&Hok&Hvni&Hmip&_).
  - done.
  - cbn. apply list_lookup_insert_eq. by apply lookup_lt_Some in Hp.
  - split; cbn; [eexists; split; [done|apply rep_empty_table]..|done|apply wire_vni_range|].
    intros k d. by rewrite lookup_empty.
  - exists j, fl', p'. fold st. rewrite (vbind_done _ _ _ _ _ Hmac). cbn [v_flow v_st ports set_ports].
    rewrite list_insert_insert_eq. split_and!; try done.
    exists q, p. split_and!; done.
Qed.

(** ** Recovery from a failed allocation *)

Definition bit_set (d f : Z) : bool := negb (Z.land d f =? 0).

(** A port some of whose tables were freed: the others are in use. *)
Record port_broken (v : ip_version) (p : vtep_port) (md : gmap (Z * Z) dest_addresses)
    (km : gmap (Z * Z) unit) : Prop := {
  pb_dead : 0 ≤ dead_tables p < 8;
  pb_dst : bit_set (dead_tables p) IS_MAC_TO_DST_DEAD = false →
    ∃ t, mac_to_dst p = TLive t ∧ rep t md;
  pb_known : bit_set (dead_tables p) IS_KNOWN_MAC_DEAD = false →
    ∃ t, known_mac p = TLive t ∧ rep t km;
  pb_ip : byte_list (ip_size v) (multicast_ip p);
  pb_vni : 0 ≤ vni p < 2 ^ 32;
  pb_entries k d : md !! k = Some d → length (da_mac d) = 6%nat ∧ byte_list (ip_size v) (da_ip d);
}.

(** Once memory is available again, a port whose tables were freed after a failed
    allocation is usable: the freed tables are new and empty, a table that was not
    freed keeps its addresses, and no table is marked any more. *)
Theorem vtep_tables_repaired {W} v (e : venv W) i p md km :
  v_allocs e = [] → ports (v_st e) !! i = Some p → port_broken v p md km →
  ∃ p', try_fix_tables i e
      = Some (Done 0, mk_venv (v_flow e) (set_ports (v_st e) (<[i := p']> (ports (v_st e)))) []) ∧
    are_mac_tables_dead p' = false ∧ vni p' = vni p ∧ multicast_ip p' = multicast_ip p ∧
    port_ok v p' (if bit_set (dead_tables p) IS_MAC_TO_DST_DEAD then ∅ else md)
      (if bit_set (dead_tables p) IS_KNOWN_MAC_DEAD then ∅ else km).
Proof.
  intros Ha Hp [Hdead Hd Hk Hip Hv Hent].
  assert (e = mk_venv (v_flow e) (set_ports (v_st e) (<[i := p]> (ports (v_st e)))) []) as He.
  { rewrite list_insert_id by done. destruct e as [? [] ?]. cbn in *. by subst. }
  assert (dead_tables p ∈ [0; 1; 2; 3; 4; 5; 6; 7]) as Hcases.
  { assert (dead_tables p = 0 ∨ dead_tables p = 1 ∨ dead_tables p = 2 ∨ dead_tables p = 3 ∨
      dead_tables p = 4 ∨ dead_tables p = 5 ∨ dead_tables p = 6 ∨ dead_tables p = 7) by lia.
    set_solver. }
  set (p1 := if bit_set (dead_tables p) IS_MAC_TO_DST_DEAD
             then set_dead_tables (set_mac_to_dst p (TLive (mk_tbl ∅ ∅)))
                    (Z.lxor (dead_tables p) IS_MAC_TO_DST_DEAD) else p).
  set (p2 := if bit_set (dead_tables p1) IS_KNOWN_MAC_DEAD
             then set_dead_tables (set_known_mac p1 (TLive (mk_tbl ∅ ∅)))
                    (Z.lxor (dead_tables p1) IS_KNOWN_MAC_DEAD) else p1).
  exists p2. split.
  - unfold try_fix_tables. rewrite (vbind_port i p) by done. fold (bit_set (dead_tables p) IS_MAC_TO_DST_DEAD).
    set (e1 := mk_venv (v_flow e) (set_ports (v_st e) (<[i := p1]> (ports (v_st e)))) []).
    rewrite (vbind_done _ _ e e1 true).
    2: { unfold p1 in *. destruct (bit_set (dead_tables p) IS_MAC_TO_DST_DEAD).
      - rewrite (vbind_done _ _ e e true) by (by apply valloc_ok). unfold put_port.
        rewrite vbind_modify. unfold e1, p1. by rewrite Ha.
      - unfold e1, p1. by rewrite <- He. }
    cbn [negb]. rewrite (vbind_port i p1).
    2: { cbn. apply list_lookup_insert_eq. by apply lookup_lt_Some in Hp. }
    fold (bit_set (dead_tables p1) IS_KNOWN_MAC_DEAD).
    rewrite (vbind_done _ _ e1 (mk_venv (v_flow e) (set_ports (v_st e) (<[i := p2]> (ports (v_st e)))) [])
      true); [done|].
    unfold p2. destruct (bit_set (dead_tables p1) IS_KNOWN_MAC_DEAD).
    + rewrite (vbind_done _ _ e1 e1 true) by done. unfold put_port. rewrite vbind_modify.
      unfold e1. cbn. by rewrite list_insert_insert_eq.
    + done.
  - unfold p2, p1. clear p1 p2 He Hp. destruct p as [vn mc t1 t2 dt].
    cbn [dead_tables mac_to_dst known_mac multicast_ip vni] in *.
    repeat (apply elem_of_cons in Hcases as [->|Hcases]); [..|by apply not_elem_of_nil in Hcases];
      (split_and!; [done..|]);
      (split; cbn; [first [by apply Hd|eexists; split; [done|apply rep_empty_table]]
       |first [by apply Hk|eexists; split; [done|apply rep_empty_table]]|done|done
       |first [exact Hent|intros k d Hl; destruct (lookup_empty_Some k d Hl)]]).
Qed.

(** ** What goes wrong *)

(** The number of the network is used as the index of the port: with one port, attached
    to network 7, taking an address out of network 7 reads past the ports. *)
Example vtep_unset_mac_wrong_port :
  pg_vtep_unset_mac demo_vsides 7 [2; 0; 0; 0; 0; 9] (demo_venv 0) = None.
Proof. vm_compute. reflexivity. Qed.

(** A frame of network 0 for an end point, without inner address check, that has a port
    without network: the port matches and its table was never allocated. *)
Definition vni0_frame : mbuf :=
  mk_mbuf (ethernet_build V4 [2; 0; 0; 0; 0; 1] [1; 0; 0x5e; 0; 0; 1]
    ++ ipv4_hdr_bytes 0x45 0 0 1 0 64 17 0 (le_bytes [10; 0; 0; 1]) (le_bytes [239; 0; 0; 1])
    ++ udp_build (PG_CPU_TO_BE_16 4789) 0 0 0 ++ vxlan_build (wire_vni 0) ++ data (demo_ip 60))
    110 14 0 0 0 1.

Definition no_network : vtep_state :=
  set_ports (demo_vtep PG_VTEP_ALL_OPTI) [zero_port V4].

Example vtep_network_0_crashes :
  from_vtep (D := observer) (PktLib0 := mem_pktlib) (H := Collect.demo_clone)
    (AdjLib0 := demo_adj) demo_vlib V4 demo_vsides PG_EAST_SIDE [6%positive] 1
    (mk_venv (mk_flow {[6%positive := vni0_frame]} ∅ None []) no_network []) = None.
Proof. vm_compute. reflexivity. Qed.

(** When an address cannot be added for lack of memory, the other table is freed: the
    next burst reads it. *)
Example vtep_add_mac_frees_wrong_table :
  (pg_vtep_add_mac demo_vsides 7 [2; 0; 0; 0; 0; 9];;
   to_vtep (D := observer) (PktLib0 := mem_pktlib) (H := Collect.demo_clone)
     demo_vlib V4 demo_vsides PG_WEST_SIDE 0 [5%positive] 1)
    (mk_venv (v_flow (demo_venv 0)) (demo_vtep 0) [false]) = None.
Proof. vm_compute. reflexivity. Qed.

(** The payload length of an IPv6 header counts 20 bytes of header too many. *)
Lemma vtep6_payload_length {W} lib (e : venv W) dst len :
  ∃ ip, ip_build lib V6 dst (u16 (len + ip_overhead)) e = Some (Done ip, e) ∧
    load16 ip 4 = Some (PG_CPU_TO_BE_16 (u16 (len + udp_overhead + 20))).
Proof.
  eexists. split; [reflexivity|]. cbn [v_st id]. unfold ip6_build.
  rewrite load16_seg; [by unfold ip_overhead; rewrite Z.add_assoc|done|apply be16_range].
Qed.

(** ** Witnesses *)

Definition demo_alloc {W} : M (flow W) (option mptr) :=
  q ← gets (λ fl, fresh (dom (fl_mem fl)));
  store_pkt q (mk_mbuf [] 0 0 0 0 0 1);; mret (Some q).

Lemma vtep_add_vni_correct_witness :
  ∃ i fl' p', pg_vtep_add_vni (D := observer) (PktLib0 := mem_pktlib) demo_vlib V4 demo_vsides
      demo_alloc (Some 8%positive) 7 [239; 0; 0; 1]
      (mk_venv (v_flow (demo_venv 0)) no_network [])
    = Some (Done 0, mk_venv fl' (set_ports no_network (<[i := p']> [zero_port V4])) []) ∧
    vni p' = wire_vni 7.
Proof.
  destruct (vtep_add_vni_correct (Dispatch0 := observer) (PktLib0 := mem_pktlib)
    (PktLaws0 := mem_pktlaws) id (Observing0 := observer_observing) demo_vlib V4 demo_vsides
    demo_alloc (Some 8%positive) 7 [239; 0; 0; 1] [mk_edge (Some 8%positive) 0]
    [mk_edge (Some 9%positive) 0] (mk_venv (v_flow (demo_venv 0)) no_network []))
    as [(i&fl'&p'&_&Hr&_&Hv&_)|[Hno _]].
  - intros fl. right. exists (fresh (dom (fl_mem fl))), (mk_mbuf [] 0 0 0 0 0 1).
    split; [apply not_elem_of_dom, is_fresh|]. done.
  - intros fl fl' q n H. unfold pktmbuf_append in H. cbn [mem_pktlib] in H. inv_run H.
    discriminate H.
  - done.
  - done.
  - done.
  - done.
  - done.
  - split; [done|]. repeat constructor; unfold is_byte; lia.
  - exists i, fl', p'. split; [exact Hr|exact Hv].
  - destruct (Hno 0%nat). exists 8%positive, (zero_port V4). done.
Defined.

Definition broken_port : vtep_port :=
  mk_port (wire_vni 7) [239; 0; 0; 1] TFreed (TLive (mk_tbl ∅ ∅)) 5.

Lemma vtep_tables_repaired_witness :
  ∃ p', try_fix_tables 0 (mk_venv (v_flow (demo_venv 0)) (set_ports (demo_vtep 0) [broken_port]) [])
    = Some (Done 0, mk_venv (v_flow (demo_venv 0)) (set_ports (demo_vtep 0) [p']) []) ∧
    are_mac_tables_dead p' = false.
Proof.
  destruct (vtep_tables_repaired V4
    (mk_venv (v_flow (demo_venv 0)) (set_ports (demo_vtep 0) [broken_port]) []) 0 broken_port ∅ ∅)
    as (p'&Hr&Hd&_).
  - done.
  - done.
  - split; cbn; [lia|done|..].
    + intros _. eexists. split; [done|apply rep_empty_table].
    + split; [done|]. repeat constructor; unfold is_byte; lia.
    + vm_compute. done.
    + intros k d Hl. destruct (lookup_empty_Some k d Hl).
  - exists p'. split; [exact Hr|exact Hd].
Defined.
