(* ===== verification/GraphSplit.v ===== *)
(** * Splitting and merging graphs ([src/graph.c], [pg_graph_split] and [pg_graph_merge])

    A graph is cut at a link: two queues that are friends replace it, and each part
    becomes a graph of its own. The operations compose those of the bricks, of the queues
    and of the graphs; the private states of the queues are part of the world. *)

From S2P Require Import Prelude Common Brick BrickInv BrickSpec BrickApi Burst Queue Graph.

(** The states of the queues in the private states of the bricks. *)
Class QueueWorld (W : Type) := {
  queues_of : W → queues;
  set_queues : queues → W → W;
}.

Section Split.

Context {W C : Type} (all : list (pg_brick_ops W C)) `{HO : !HashOrder, QW : !QueueWorld W}.
(** The configuration of a queue as a [brick_config]. *)
Context (queue_cfg : pg_queue_config → C).
Implicit Types (st : state W) (g : pg_graph) (p q : ptr).

(** ** Queues in the store of bricks *)

Definition pg_queue_new (nm : string) (size : Z) : M (state W) (option ptr) :=
  pg_brick_new all (Some "queue")
    (Some (pg_brick_config_init (queue_cfg (queue_config_new size)) nm 1 1 PG_MONOPOLE)).

(** An operation on the queues, with the error of the caller; it uses no packet. *)
Definition on_queues {A} (m : queues → M (flow W) (A * queues)) : M (state W) A := λ st,
  match m (queues_of (world st)) (mk_flow ∅ ∅ (errp st) (world st)) with
  | Some ((a, qs), fl) => Some (a, mk_state (bricks st) (set_queues qs (fl_world fl)) (fl_errp fl))
  | None => None
  end.

Definition queue_friend q1 q2 : M (state W) Z := λ st,
  on_queues (λ qs, pg_queue_friend (λ p, default "" (name <$> bricks st !! p)) qs q1 q2) st.

Definition queue_unfriend p : M (state W) unit :=
  on_queues (λ qs, qs ← unwrap (pg_queue_unfriend qs p); mret (tt, qs)).

Definition queues_are_friend q1 q2 : M (state W) bool :=
  gets (λ st, pg_queue_are_friend (queues_of (world st)) q1 q2).

(** ** Split *)

(** The new graph, NULL on error, and the graph that was split. *)
Definition pg_graph_split g (east_graph_name west_brick_name east_brick_name west_queue_name
    east_queue_name : string) : M (state W) (option pg_graph * pg_graph) :=
  let w := pg_graph_get g west_brick_name in
  let e := pg_graph_get g east_brick_name in
  r ← pg_brick_unlink_edge all w e;
  if r <? 0 then mret (None, g) else
  qw ← pg_queue_new west_queue_name 0;
  match qw with
  | None => mret (None, g)
  | Some qw =>
      qe ← pg_queue_new east_queue_name 0;
      match qe with
      | None => mret (None, g)
      | Some qe =>
          r ← pg_brick_link all w (Some qw);
          if r <? 0 then mret (None, g) else
          r ← pg_brick_link all (Some qe) e;
          if r <? 0 then mret (None, g) else
          r ← queue_friend qw qe;
          if r <? 0 then mret (None, g) else
          r ← pg_graph_explore_ptr g (Some qw);
          if fst r <? 0 then mret (None, snd r) else
          east ← pg_graph_new all east_graph_name (Some qe);
          mret (east, snd r)
      end
  end.

(** ** Merge *)

(** [pg_brick_type]. *)
Definition pg_brick_type_of p : M (state W) string :=
  b ← load p; o ← unwrap (brick_ops all b); mret (op_name o).

(** [get_all_queues]: the queues among the pollable bricks, last one first. *)
Fixpoint all_queues (l ret : list ptr) : M (state W) (list ptr) :=
  match l with
  | [] => mret ret
  | p :: l =>
      t ← pg_brick_type_of p;
      all_queues l (if String.eqb t "queue" then p :: ret else ret)
  end.
Definition get_all_queues g : M (state W) (list ptr) := all_queues (g_pollable g) [].

(** [q->side.edge.link] of a queue. *)
Definition queue_pair q : M (state W) (option ptr) :=
  b ← load q;
  match side_edges (west_side b) with Edge e => mret (link e) | Edges _ => crash end.

Definition merge_queues q1 q2 : M (state W) Z :=
  q1_pair ← queue_pair q1;
  q2_pair ← queue_pair q2;
  queue_unfriend q1;;
  err1 ← match (q1_pair : option ptr) with
         | Some _ => pg_brick_unlink all (Some q1);; error_is_set
         | None => mret false
         end;
  if (err1 : bool) then mret (-1) else
  err2 ← match (q2_pair : option ptr) with
         | Some _ => pg_brick_unlink all (Some q2);; error_is_set
         | None => mret false
         end;
  if (err2 : bool) then mret (-1) else
  match q1_pair, q2_pair with
  | Some p1, Some p2 =>
      r ← pg_brick_link all (Some p1) (Some p2);
      mret (if r <? 0 then -1 else 0)
  | _, _ => mret 0
  end.

(** The inner loop: the first east queue that is a friend is merged; [None] is the
    return with an error. *)
Fixpoint merge_with (hw : ptr) (q_east : list ptr) : M (state W) (option (option ptr)) :=
  match q_east with
  | [] => mret (Some None)
  | he :: l =>
      f ← queues_are_friend hw he;
      if (f : bool) then
        r ← merge_queues hw he;
        mret (if r <? 0 then None else Some (Some he))
      else merge_with hw l
  end.

(** The outer loop: the queues to destroy, those merged last first. *)
Fixpoint merge_all (q_west q_east destroy_w destroy_e : list ptr)
    : M (state W) (option (list ptr * list ptr)) :=
  match q_west with
  | [] => mret (Some (destroy_w, destroy_e))
  | hw :: l =>
      r ← merge_with hw q_east;
      match r with
      | None => mret None
      | Some None => merge_all l q_east destroy_w destroy_e
      | Some (Some he) => merge_all l q_east (hw :: destroy_w) (he :: destroy_e)
      end
  end.

Fixpoint pop_destroy g (l : list ptr) : M (state W) pg_graph :=
  match l with
  | [] => mret g
  | p :: l =>
      r ← graph_pop g (Some p);
      pg_brick_destroy all (Some p);;
      pop_destroy (snd r) l
  end.

(** The return code, the west graph, and the east graph when it still exists. *)
Definition pg_graph_merge graph_west graph_east
    : M (state W) (Z * pg_graph * option pg_graph) :=
  q_west ← get_all_queues graph_west;
  q_east ← get_all_queues graph_east;
  r ← merge_all q_west q_east [] [];
  match r with
  | None => mret (-1, graph_west, Some graph_east)
  | Some (destroy_w, destroy_e) =>
      graph_west ← pop_destroy graph_west destroy_w;
      graph_east ← pop_destroy graph_east destroy_e;
      pg_graph_destroy all (empty_graph graph_east);;
      r ← pg_graph_explore_ptr graph_west None;
      mret (if fst r <? 0 then -1 else 0, snd r, None)
  end.

End Split.

(** ** What the split relies on in the bricks *)

(** A queue is created without friend; no other callback of creation and linking makes
    or changes friends; the side of a brick does not depend on friends. *)
Class SplitLaws {W C} (all : list (pg_brick_ops W C)) `{!QueueWorld W} : Prop := {
  sl_set w qs : queues_of (set_queues qs w) = qs;
  sl_side o f p w qs :
    o ∈ all → op_get_side o = Some f →
    (∀ q, q_output <$> qs !! q = q_output <$> queues_of w !! q) →
    f p (set_queues qs w) = f p w;
  sl_queue_side i o : find_ops all "queue" = Some (i, o) → is_Some (op_get_side o);
  sl_init_queue i o p b c e w :
    find_ops all "queue" = Some (i, o) →
    q_friend <$> queues_of (io_world (op_init o p b c e w)) !! p = Some None;
  sl_init_other o p q b c e w :
    o ∈ all → q ≠ p →
    q_friend <$> queues_of (io_world (op_init o p b c e w)) !! q =
    q_friend <$> queues_of w !! q;
  sl_link o f p s i w q :
    o ∈ all → op_link_notify o = Some f →
    q_friend <$> queues_of (f p s i w) !! q = q_friend <$> queues_of w !! q;
}.

Section SplitSpec.

Context {W C : Type} (all : list (pg_brick_ops W C)) `{!BrickLaws all}.
Context `{HO : !HashOrder, QW : !QueueWorld W, SL : !SplitLaws all}.
Context (queue_cfg : pg_queue_config → C).
Implicit Types (st : state W) (g : pg_graph) (p q : ptr).

(** The friend of a queue, [None] when there is no such queue. *)
Definition friend_at st q : option (option ptr) := q_friend <$> queues_of (world st) !! q.

(** What creating and linking bricks leaves alone: the bricks that are there stay, and so
    do the friends of the queues. *)
Definition keeps {A} (m : M (state W) A) : Prop := ∀ st a st',
  m st = Some (a, st') →
  dom (bricks st) ⊆ dom (bricks st') ∧ ∀ q, friend_at st' q = friend_at st q.

Lemma keeps_ret {A} (a : A) : keeps (mret a).
Proof. by intros st a' st' [= _ <-]. Qed.

Lemma keeps_crash {A} : keeps (crash (A := A)).
Proof. done. Qed.

Lemma keeps_bind {A B} (m : M (state W) A) (k : A → M (state W) B) :
  keeps m → (∀ a, keeps (k a)) → keeps (m ≫= k).
Proof.
  intros Hm Hk st b st2 (a & st1 & H1 & H2)%bind_run.
  destruct (Hm _ _ _ H1) as [D1 F1], (Hk _ _ _ _ H2) as [D2 F2].
  split; [set_solver|]. intros q. by rewrite F2.
Qed.

Lemma keeps_unwrap {A} (o : option A) : keeps (unwrap o).
Proof. destruct o; [apply keeps_ret|apply keeps_crash]. Qed.

Lemma keeps_gets {A} (f : state W → A) : keeps (gets f).
Proof. by intros st a' st' [= _ <-]. Qed.

Lemma keeps_load p : keeps (load p).
Proof. apply keeps_bind; [apply keeps_gets|]. intros. apply keeps_unwrap. Qed.

Lemma keeps_store p b : keeps (store p b).
Proof. intros st [] st' [= <-]. cbn. split; [set_solver|done]. Qed.

Lemma keeps_error e : keeps (set_error e).
Proof. by intros st [] st' [= <-]. Qed.

Lemma keeps_notify p s i : keeps (link_notify all p s i).
Proof.
  apply keeps_bind; [apply keeps_load|]. intros b st [] st' (o & st1 & Ho & H)%bind_run.
  destruct (brick_ops all b) as [o'|] eqn:E; [injection Ho as -> <-|done].
  assert (o ∈ all) as Hin.
  { unfold brick_ops in E. destruct (ops b) as [k|]; [|done]. by apply list_elem_of_lookup_2 in E. }
  destruct (op_link_notify o) as [f|] eqn:Ef; injection H as <-; [|done].
  split; [done|]. intros q. by apply (sl_link o f).
Qed.

Ltac keeps_step :=
  first [ apply keeps_ret | apply keeps_crash | apply keeps_load | apply keeps_store
        | apply keeps_error | apply keeps_unwrap | apply keeps_gets | apply keeps_notify
        | apply keeps_bind; [|intros ?] | case_match ].

Lemma keeps_insert from to s : keeps (insert_link from to s).
Proof. unfold insert_link, pg_brick_incref. repeat keeps_step. Qed.

Lemma keeps_set_edge p s edge index : keeps (set_edge p s edge index).
Proof. unfold set_edge. repeat keeps_step. Qed.

Lemma keeps_link w e : keeps (pg_brick_link all w e).
Proof.
  unfold pg_brick_link, is_brick_valid.
  repeat first [keeps_step | apply keeps_insert | apply keeps_set_edge].
Qed.

(** The world that a created queue leaves. *)
Lemma find_ops_elem nm i o : find_ops all nm = Some (i, o) → o ∈ all.
Proof. unfold find_ops. intros (H & _)%list_find_Some. by apply list_elem_of_lookup_2 in H. Qed.

Lemma queue_new_world nm size st q st' :
  pg_queue_new all queue_cfg nm size st = Some (Some q, st') →
  friend_at st' q = Some None ∧ ∀ p, p ≠ q → friend_at st' p = friend_at st p.
Proof.
  unfold pg_queue_new, pg_brick_new. intros H.
  destruct (find_ops all "queue") as [[i o]|] eqn:Eo; [|done].
  destruct (op_state_size o <=? 0); [done|].
  destruct (check_side_max _); [done|].
  inv_run H. unfold gets in Hrun, Hrun0. injection Hrun as <- <-. injection Hrun0 as <- <-.
  injection Hrun1 as <- <-.
  destruct (io_ret _ <? 0); [by inv_run H; destruct a|].
  inv_run H. unfold massert in Hrun. destruct (burst _); [injection Hrun as _ <-|done].
  injection Hrun0 as _ <-. injection H as <- <-. unfold friend_at. cbn. split.
  - by eapply sl_init_queue.
  - intros p Hp. apply sl_init_other; [by eapply find_ops_elem|done].
Qed.

(** Unlinking an edge removes no brick. *)
Lemma unlink_edge_dom st L w wb e eb :
  R all st L → bricks st !! w = Some wb → bricks st !! e = Some eb →
  wp (pg_brick_unlink_edge all (Some w) (Some e)) (λ _ st', dom (bricks st') = dom (bricks st)) st.
Proof.
  intros HR Hw He. pose proof (R_inv _ _ _ HR) as Hinv.
  pose proof (inv_brick _ _ Hinv _ _ Hw) as Hvw.
  unfold pg_brick_unlink_edge. wps. eapply wp_is_valid; [done..|]. wps.
  eapply wp_is_valid; [done|by eapply inv_brick|]. wps. fold (own_side wb PG_EAST_SIDE).
  apply find_edge_spec; [apply Hvw|lia|..].
  - intros i ed Hi Hl.
    assert (slot all st w (rside all st w wb PG_EAST_SIDE) i = Some (e, pair_index ed)) as Hs.
    { apply slot_Some. exists wb, ed. unfold rside, own_side, get_side in *.
      destruct (type wb); by split_and!. }
    wps. eapply wp_mono; [by eapply do_unlink_spec|].
    intros [] st' (_ & Hdom & _). by wps.
  - intros Hno. unfold set_error. by wps.
Qed.

(** Friends change no side, so no link. *)
Lemma R_queues st L qs er :
  R all st L → (∀ q, q_output <$> qs !! q = q_output <$> queues_of (world st) !! q) →
  R all (mk_state (bricks st) (set_queues qs (world st)) er) L.
Proof.
  intros HR Hq.
  assert (Hslot : ∀ p s i, slot all (mk_state (bricks st) (set_queues qs (world st)) er) p s i =
                           slot all st p s i).
  { intros p s i. unfold slot. cbn. destruct (bricks st !! p) as [b|] eqn:Hb; [|done]. cbn.
    f_equal. unfold mside. destruct (brick_ops all b) as [o|] eqn:Eo; [|done]. cbn.
    destruct (op_get_side o) as [f|] eqn:Ef; [|done]. eapply sl_side; [|done|done].
    unfold brick_ops in Eo. destruct (ops b); [|done]. by apply list_elem_of_lookup_2 in Eo. }
  destruct HR as [[Hb Hs] HL]. split; [split|].
  - exact Hb.
  - intros p s i q j. rewrite !Hslot. apply Hs.
  - intros w wi e ei. rewrite Hslot. apply HL.
Qed.

Lemma queue_friend_spec st L q1 q2 :
  R all st L → q1 ≠ q2 → friend_at st q1 = Some None → friend_at st q2 = Some None →
  wp (queue_friend q1 q2) (λ r st',
    r = 0 ∧ R all st' L ∧ bricks st' = bricks st ∧ errp st' = errp st ∧
    friend_at st' q1 = Some (Some q2) ∧ friend_at st' q2 = Some (Some q1)) st.
Proof.
  intros HR Hne H1 H2. unfold friend_at in *. unfold wp, queue_friend, on_queues, pg_queue_friend.
  destruct (queues_of (world st) !! q1) as [s1|] eqn:E1; [|done].
  destruct (queues_of (world st) !! q2) as [s2|] eqn:E2; [|done]. cbn in H1, H2.
  injection H1 as H1. injection H2 as H2. unfold mbind, M_bind. cbn. rewrite H1, H2. cbn.
  rewrite lookup_insert_ne, E2 by done. cbn. rewrite !sl_set.
  split_and!; [done| |done|done| |].
  - apply R_queues; [done|]. intros q. destruct (decide (q = q2)) as [->|].
    + by rewrite lookup_insert_eq, E2.
    + rewrite lookup_insert_ne by done. destruct (decide (q = q1)) as [->|].
      * by rewrite lookup_insert_eq, E1.
      * by rewrite lookup_insert_ne by done.
  - by rewrite lookup_insert_ne, lookup_insert_eq by done.
  - by rewrite lookup_insert_eq.
Qed.

Lemma wp_with_run {A} (m : M (state W) A) Q st :
  wp m Q st → wp m (λ a st', Q a st' ∧ m st = Some (a, st')) st.
Proof. unfold wp. by destruct (m st) as [[a st']|]. Qed.

(** What a graph holds depends only on the bricks and on the world. *)
Lemma graph_of_same st st' p g :
  bricks st' = bricks st → world st' = world st →
  graph_of st (connected all st p) g → graph_of st' (connected all st' p) g.
Proof.
  destruct st, st'. cbn. intros -> -> [H1 H2 H3].
  split; [exact H1|exact H2|exact H3].
Qed.

Lemma R_same st st' L : bricks st' = bricks st → world st' = world st → R all st L → R all st' L.
Proof.
  destruct st as [b w e], st' as [b' w' e']. cbn. intros -> -> H. by apply (R_errp all _ _ e') in H.
Qed.

(** The creation of a queue. *)
Lemma queue_new_spec st L nm size :
  R all st L →
  wp (pg_queue_new all queue_cfg nm size) (λ r st', R all st' L ∧
    match r with
    | None => pg_error_is_set (errp st') = true
    | Some q => q ∉ dom (bricks st) ∧ dom (bricks st') = {[q]} ∪ dom (bricks st) ∧
                friend_at st' q = Some None ∧
                ∀ p, p ≠ q → friend_at st' p = friend_at st p
    end) st.
Proof.
  intros HR. eapply wp_mono; [apply wp_with_run, (new_spec all st L _ _ HR)|].
  - intros c [= <-]. vm_compute. by split.
  - intros c n i o [= <-] [= <-] Ho _. by eapply sl_queue_side.
  - intros [q|] st' [[HR' H] Hrun]; (split; [done|]).
    + destruct H as (c & n & i & o & b & _ & _ & _ & _ & Hq & Hb & _).
      apply queue_new_world in Hrun as [Hf Ho]. split_and!; [done| |done|done].
      rewrite Hb. apply dom_insert_L.
    + by destruct H.
Qed.

(** The exploration of a graph from a brick, as the split uses it. *)
Lemma explore_any st L g p :
  R all st L → p ∈ dom (bricks st) →
  wp (pg_graph_explore_ptr g (Some p)) (λ r st',
    bricks st' = bricks st ∧ world st' = world st ∧
    (fst r = 0 ∧ graph_of st' (connected all st' p) (snd r) ∨
     fst r = -1 ∧ pg_error_is_set (errp st') = true)) st.
Proof.
  intros HR [b Hb]%elem_of_dom.
  eapply wp_mono; [by apply (explore_spec all st g p b (R_inv _ _ _ HR))|].
  intros r st' (Hbr & Hw & Hok & Hko). split; [done|]. split; [done|].
  destruct (decide (fst r = 0)) as [E|E].
  - left. split; [done|]. apply (graph_of_same st); [done..|]. apply Hok.
    intros x y Hx Hy Hn. apply dec_stable. intros Hxy.
    destruct Hko as [Hr _]; [|congruence]. intros Hd. by apply Hxy, Hd.
  - right. apply Hko. intros Hd. by destruct (Hok Hd).
Qed.

Lemma graph_new_any st L nm p :
  R all st L → p ∈ dom (bricks st) →
  wp (pg_graph_new all nm (Some p)) (λ r st',
    bricks st' = bricks st ∧ world st' = world st ∧
    match r with
    | Some g => graph_of st' (connected all st' p) g
    | None => pg_error_is_set (errp st') = true
    end) st.
Proof.
  intros HR Hp. unfold pg_graph_new. rewrite wp_bind.
  eapply wp_mono; [by apply (explore_any st L)|]. cbv beta.
  intros r st' (Hb & Hw & [[-> Hg]|[-> He]]); cbn [Z.ltb Z.compare]; wps; [done|].
  unfold pg_graph_destroy. cbn [empty_graph g_all]. rewrite hash_order_empty. cbn. by wps.
Qed.

(** The result of a link, for bricks that are alive. *)
Lemma link_any st L w e :
  R all st L → w ∈ dom (bricks st) → e ∈ dom (bricks st) →
  wp (pg_brick_link all (Some w) (Some e)) (λ r st',
    dom (bricks st) ⊆ dom (bricks st') ∧ (∀ q, friend_at st' q = friend_at st q) ∧
    (r = 0 ∧ (∃ L', abs_link L w e L' ∧ R all st' L') ∨
     r = -1 ∧ R all st' L ∧ pg_error_is_set (errp st') = true)) st.
Proof.
  intros HR [wb Hw]%elem_of_dom [eb He]%elem_of_dom.
  eapply wp_mono; [by apply wp_with_run, (link_spec all st L w wb e eb)|]. cbv beta.
  intros r st' [H [Hd Hf]%keeps_link]. split; [done|]. split; [done|].
  destruct (decide (can_link w wb e eb)).
  - left. naive_solver.
  - right. destruct H as (-> & Hb & Hwd & He'). split_and!; [done| |done]. by eapply R_same.
Qed.

(** What a split leaves. *)
Definition split_post st L w wb e (r : option pg_graph * pg_graph) st' : Prop :=
  match fst r with
  | None => pg_error_is_set (errp st') = true ∧ ∃ L', R all st' L'
  | Some ge => ∃ l qw qe L1 L2,
      l ∈ L ∧ joins wb w e l ∧ qw ∉ dom (bricks st) ∧ qe ∉ dom (bricks st) ∧ qw ≠ qe ∧
      abs_link (L ∖ {[l]}) w qw L1 ∧ abs_link L1 qe e L2 ∧ R all st' L2 ∧
      pg_queue_get_friend (queues_of (world st')) qw = Some qe ∧
      pg_queue_get_friend (queues_of (world st')) qe = Some qw ∧
      graph_of st' (connected all st' qw) (snd r) ∧ graph_of st' (connected all st' qe) ge
  end.

Lemma friend_at_get st q f :
  friend_at st q = Some (Some f) → pg_queue_get_friend (queues_of (world st)) q = Some f.
Proof.
  unfold friend_at, pg_queue_get_friend. destruct (queues_of (world st) !! q); [|done].
  cbn. by intros [= ->].
Qed.

(** The last steps: the queues become friends and both parts are explored. *)
Lemma split_explore st L g nm qw qe :
  R all st L → qw ≠ qe → friend_at st qw = Some None → friend_at st qe = Some None →
  qw ∈ dom (bricks st) → qe ∈ dom (bricks st) →
  wp (r ← queue_friend qw qe;
      if r <? 0 then mret (None, g) else
      r ← pg_graph_explore_ptr g (Some qw);
      if fst r <? 0 then mret (None, snd r) else
      east ← pg_graph_new all nm (Some qe);
      mret (east, snd r)) (λ r st',
    R all st' L ∧
    match fst r with
    | None => pg_error_is_set (errp st') = true
    | Some ge =>
        pg_queue_get_friend (queues_of (world st')) qw = Some qe ∧
        pg_queue_get_friend (queues_of (world st')) qe = Some qw ∧
        graph_of st' (connected all st' qw) (snd r) ∧ graph_of st' (connected all st' qe) ge
    end) st.
Proof.
  intros HR Hne Hf1 Hf2 Hq1 Hq2. rewrite wp_bind.
  eapply wp_mono; [by apply (queue_friend_spec st L)|]. cbv beta.
  intros ? st1 (-> & HR1 & Hb1 & _ & Hfr1 & Hfr2). cbn [Z.ltb Z.compare].
  rewrite wp_bind. eapply wp_mono; [apply (explore_any st1 L); [done|by rewrite Hb1]|]. cbv beta.
  intros r st2 (Hb2 & Hw2 & [[-> Hg]|[-> He]]); cbn [Z.ltb Z.compare]; wps.
  2: { split; [by eapply R_same|done]. }
  assert (HR2 : R all st2 L) by (by eapply R_same).
  eapply wp_mono; [apply (graph_new_any st2 L); [done|by rewrite Hb2, Hb1]|]. cbv beta.
  intros east st3 (Hb3 & Hw3 & Heast). wps. cbn [fst snd].
  split; [by eapply R_same|]. destruct east as [ge|]; [|done].
  rewrite Hw3, Hw2. split_and!; [by apply friend_at_get..| |done].
  by eapply graph_of_same.
Qed.

(** C7: Splitting a graph at two of its bricks never crashes and keeps the store well
    formed. When it gives a graph, exactly one link that joined the bricks was replaced by
    one from the west brick to a new queue and one from another new queue to the east
    brick, the queues are friends, the west graph holds exactly the connected component of
    the first queue and the new graph that of the second; when it gives none, an error is
    set. *)
Theorem graph_split_correct st L g ng wn en qwn qen w wb e eb :
  R all st L → errp st = None → pg_graph_get g wn = Some w → pg_graph_get g en = Some e →
  bricks st !! w = Some wb → bricks st !! e = Some eb →
  wp (pg_graph_split all queue_cfg g ng wn en qwn qen) (split_post st L w wb e) st.
Proof.
  intros HR Herr Hgw Hge Hw He. unfold pg_graph_split. rewrite Hgw, Hge, wp_bind.
  pose proof (unlink_edge_dom st L w wb e eb HR Hw He) as Hd.
  eapply wp_mono; [by apply wp_with_run, (unlink_edge_spec all st L w wb e eb)|]. cbv beta.
  intros r st1 [H Hrun]. apply (wp_elim _ _ _ _ _ Hd) in Hrun as Hdom. clear Hd Hrun.
  destruct H as [(-> & _ & l & Hl & Hj & HR1)|(-> & He1 & HR1 & _)]; cbn [Z.ltb Z.compare];
    [|wps; split; eauto].
  assert (w ∈ dom (bricks st1) ∧ e ∈ dom (bricks st1)) as [Hw1 Hee1]
    by (rewrite Hdom, !elem_of_dom; eauto).
  rewrite wp_bind. eapply wp_mono; [by apply (queue_new_spec st1 (L ∖ {[l]}))|]. cbv beta.
  intros [qw|] st2 [HR2 H2]; [|wps; split; eauto]. destruct H2 as (Hqw & Hd2 & Hf2 & _).
  rewrite wp_bind. eapply wp_mono; [by apply (queue_new_spec st2 (L ∖ {[l]}))|]. cbv beta.
  intros [qe|] st3 [HR3 H3]; [|wps; split; eauto]. destruct H3 as (Hqe & Hd3 & Hf3 & Hk3).
  assert (qw ∈ dom (bricks st3) ∧ qe ∈ dom (bricks st3)) as [Hq1 Hq2] by set_solver.
  assert (Hne : qw ≠ qe) by set_solver. rewrite <- (Hk3 qw Hne) in Hf2.
  rewrite wp_bind. eapply wp_mono; [apply (link_any st3 (L ∖ {[l]}) w qw); [done|set_solver..]|].
  cbv beta. intros r st4 (Hd4 & Hf4 & [[-> (L1 & Ha1 & HR4)]|(-> & HR4 & He4)]);
    cbn [Z.ltb Z.compare]; [|wps; split; eauto].
  rewrite wp_bind. eapply wp_mono; [apply (link_any st4 L1 qe e); [done|set_solver..]|].
  cbv beta. intros r st5 (Hd5 & Hf5 & [[-> (L2 & Ha2 & HR5)]|(-> & HR5 & He5)]);
    cbn [Z.ltb Z.compare]; [|wps; split; eauto].
  eapply wp_mono; [apply (split_explore st5 L2 g ng qw qe); [done|done| | |by apply Hd5, Hd4..]|].
  - by rewrite Hf5, Hf4.
  - by rewrite Hf5, Hf4.
  - intros r st6 [HR6 H6]. unfold split_post. destruct (fst r) as [ge|]; [|split; eauto].
    destruct H6 as (Hfr1 & Hfr2 & Hg1 & Hg2). exists l, qw, qe, L1, L2.
    split_and!; try done; rewrite <- Hdom; set_solver.
Qed.

End SplitSpec.

(** ** A concrete table: nop and queue bricks *)

(** The queues, and the side on which each was linked. *)
Definition qworld : Type := queues * gmap ptr pg_side.

Global Instance demo_queue_world : QueueWorld qworld := {
  queues_of w := fst w;
  set_queues qs w := (qs, snd w);
}.

Definition qops_nop : pg_brick_ops qworld pg_queue_config :=
  mk_ops "nop" 64 plain_init None true None None None None None None.

(** [queue_ops], with queues that hold no packet. *)
Definition qops_queue : pg_brick_ops qworld pg_queue_config :=
  mk_ops "queue" 64
    (λ p _ c er w, mk_init_out 0 true true er
       (<[p := queue_init (brick_config c)]> (fst w), delete p (snd w)))
    (Some (λ _ p er w, (er, (delete p (default (fst w) (unfriend (fst w) p)), snd w))))
    true None
    (Some (λ p er w, (0, er, (default (fst w) (unfriend (fst w) p), snd w))))
    (Some (λ p s _ w, (default (fst w) (queue_link (fst w) p s), <[p := s]> (snd w))))
    (Some (λ p w, default PG_EAST_SIDE (snd w !! p)))
    None None.

Definition split_ops : list (pg_brick_ops qworld pg_queue_config) := [qops_nop; qops_queue].

(** Four nops in a row. *)
Definition nop_cfg (n : string) : pg_brick_config pg_queue_config :=
  pg_brick_config_init (mk_queue_config 0) n 1 1 PG_DIPOLE.

Definition split_setup : M (state qworld) (Z * pg_graph) :=
  a ← pg_brick_new split_ops (Some "nop") (Some (nop_cfg "a"));
  b ← pg_brick_new split_ops (Some "nop") (Some (nop_cfg "b"));
  c ← pg_brick_new split_ops (Some "nop") (Some (nop_cfg "c"));
  d ← pg_brick_new split_ops (Some "nop") (Some (nop_cfg "d"));
  pg_brick_link split_ops a b;;
  pg_brick_link split_ops b c;;
  pg_brick_link split_ops c d;;
  pg_graph_explore_ptr (HO := demo_hash) (mk_graph "g" ∅ []) a.

(** Splitting between [b] and [c] and merging again gives the graph back, with [b]
    linked to [c]. *)
Example split_merge_example :
  match split_setup (mk_state ∅ (∅, ∅) None) with
  | Some ((_, g), st) =>
      match pg_graph_split (HO := demo_hash) split_ops id g "east" "b" "c" "qw" "qe" st with
      | Some ((Some ge, gw), st1) =>
          g_all gw = list_to_map [("a", 1%positive); ("b", 2%positive); ("qw", 5%positive)] ∧
          g_all ge = list_to_map [("c", 3%positive); ("d", 4%positive); ("qe", 6%positive)] ∧
          match pg_graph_merge (HO := demo_hash) split_ops gw ge st1 with
          | Some ((r, g', None), st2) =>
              r = 0 ∧ bricks st2 = bricks st ∧ g_all g' = g_all g
          | _ => False
          end
      | _ => False
      end
  | None => False
  end.
Proof. vm_compute. repeat split. Qed.

Lemma split_cases o : o ∈ split_ops → o = qops_nop ∨ o = qops_queue.
Proof. unfold split_ops. rewrite !elem_of_cons. set_solver. Qed.

Ltac split_case :=
  repeat match goal with H : _ ∈ split_ops |- _ => apply split_cases in H as [H|H]; subst end;
  simplify_eq/=.

Global Instance split_brick_laws : BrickLaws split_ops.
Proof.
  split.
  - intros. split_case. eauto.
  - intros. split_case. by rewrite lookup_insert_eq.
  - intros. split_case. by rewrite lookup_insert_ne.
  - intros. split_case.
  - intros. by split_case.
  - intros. split_case; [done|]. by rewrite lookup_delete_ne.
  - intros. by split_case.
Qed.

Lemma find_queue i o : find_ops split_ops "queue" = Some (i, o) → o = qops_queue.
Proof.
  change (Some (1%nat, qops_queue) = Some (i, o) → o = qops_queue). by intros [= _ <-].
Qed.

Lemma queue_link_friend (qs : queues) p s q :
  q_friend <$> default qs (queue_link qs p s) !! q = q_friend <$> qs !! q.
Proof.
  unfold queue_link. destruct (qs !! p) as [st|] eqn:E; [|done]. cbn.
  destruct (decide (q = p)) as [->|]; [by rewrite lookup_insert_eq, E|].
  by rewrite lookup_insert_ne.
Qed.

Global Instance split_queue_laws : SplitLaws split_ops.
Proof.
  split.
  - done.
  - intros. by split_case.
  - intros i o ->%find_queue. by eexists.
  - intros i o p b c e w ->%find_queue. cbn. by rewrite lookup_insert_eq.
  - intros. split_case; [done|]. by rewrite lookup_insert_ne.
  - intros. split_case. apply queue_link_friend.
Qed.

(** ** Witness *)

(** Two linked nops. *)
Definition pair_state : state qworld :=
  let run c st := match run_call split_ops c (no_error st) with
                  | Some (_, st') => st' | None => st end in
  run (Link 1 2) (run (New (Some "nop") (Some (nop_cfg "b")))
    (run (New (Some "nop") (Some (nop_cfg "a"))) (mk_state ∅ (∅, ∅) None))).

Definition pair_graph : pg_graph := mk_graph "g" (list_to_map [("a", 1%positive); ("b", 2%positive)]) [].

Lemma split_quiet : quiet split_ops.
Proof. unfold quiet. intros. split_case. Qed.

Lemma pair_reachable : reachable split_ops pair_state.
Proof.
  eapply (reach_step _ _ (Link 1 2)); [eapply (reach_step _ _ (New (Some "nop") (Some (nop_cfg "b"))));
    [eapply (reach_step _ _ (New (Some "nop") (Some (nop_cfg "a")))); [apply reach_start| |]| |]| |].
  all: try (vm_compute; reflexivity).
  - split; [intros c [= <-]; vm_compute; by split|by intros c n i o [= <-]].
  - split; [intros c [= <-]; vm_compute; by split|by intros c n i o [= <-]].
  - vm_compute. eauto.
Qed.

Lemma graph_split_correct_witness : ∃ ge gw st' L2 qw,
  pg_graph_split (HO := demo_hash) split_ops id pair_graph "east" "a" "b" "qw" "qe" pair_state
  = Some ((Some ge, gw), st') ∧ R split_ops st' L2 ∧
  graph_of st' (connected split_ops st' qw) gw.
Proof.
  destruct (reachable_R split_ops pair_state split_quiet pair_reachable) as [L HR].
  assert (is_Some (bricks pair_state !! 1%positive)) as [wb Hw] by (vm_compute; eauto).
  assert (is_Some (bricks pair_state !! 2%positive)) as [eb He] by (vm_compute; eauto).
  pose proof (graph_split_correct (HO := demo_hash) split_ops id pair_state L pair_graph
    "east" "a" "b" "qw" "qe" 1 wb 2 eb HR eq_refl eq_refl eq_refl Hw He) as H.
  destruct (proj1 (wp_run _ _ _) H) as ([[ge|] gw] & st' & Hr & Hp).
  - destruct Hp as (l & qw & qe & L1 & L2 & _ & _ & _ & _ & _ & _ & _ & HR2 & _ & _ & Hg & _).
    exists ge, gw, st', L2, qw. split; [exact Hr|]. split; [exact HR2|exact Hg].
  - exfalso. vm_compute in Hr. discriminate Hr.
Defined.
