(* ===== verification/Firewall.v ===== *)
(** * The firewall brick ([src/firewall.c])

    The brick keeps a list of rules that it gives to NPF, and asks NPF about each IP
    packet. NPF and libpcap are not part of the repository: what the brick uses of them is
    the class [NpfLib]. *)

From S2P Require Import Prelude Bitmask Common Brick BrickInv Burst Packets Network.

(** ** NPF and libpcap *)

Inductive pfil := PFIL_IN | PFIL_OUT.

(** Rules and compiled filters are values; a firewall instance and an interface are handles
    of which the world knows the state. *)
Class NpfLib (W : Type) := {
  nl_rule : Type;
  bpf_program : Type;
  npf_t : Type;
  ifnet : Type;
  NPF_RULE_PASS : Z;
  NPF_RULE_STATEFUL : Z;
  NPF_RULE_IN : Z;
  NPF_RULE_OUT : Z;
  NPF_PRI_LAST : Z;
  NPF_NO_GC : Z;
  npf_rule_create : Z → option nl_rule;
  npf_rule_setprio : nl_rule → Z → nl_rule;
  npf_rule_setcode : nl_rule → bpf_program → Z * nl_rule;
  npf_rule_getattr : nl_rule → Z;
  npf_rule_destroy : nl_rule → W → W;
  pcap_compile_nopcap : string → Z * bpf_program;
  npfk_load : npf_t → list nl_rule → W → Z * W;
  npfk_ifmap_attach : npf_t → ifnet → W → W;
  npfk_packet_handler : npf_t → ifnet → pfil → mptr → nat → M (flow W) Z;
  npfk_gc : npf_t → W → W;
  npfk_sysinit : Z → W → Z * W;
  npfk_sysfini : W → W;
  npf_dpdk_init : W → W;
  npf_dpdk_create : Z → W → option npf_t * W;
  npfk_thread_register : npf_t → W → W;
  npfk_thread_unregister : npf_t → W → W;
  npf_dpdk_ifattach : npf_t → Z → W → option ifnet * W;
  npf_dpdk_ifdetach : npf_t → ifnet → W → W;
  npfk_destroy : option npf_t → W → W;
}.

Section Firewall.

Context {W : Type} `{D : !Dispatch W, NL : !NpfLib W}.

(** [struct pg_firewall_state]. *)
Record pg_firewall_state := mk_firewall {
  npf : npf_t;
  ifp : ifnet;
  rules : list nl_rule;
}.

Definition set_rules st (l : list nl_rule) : pg_firewall_state := mk_firewall (npf st) (ifp st) l.

(** [FIREWALL_SIDE_TO_NPF]. *)
Definition FIREWALL_SIDE_TO_NPF (side : pg_side) : pfil :=
  match side with PG_WEST_SIDE => PFIL_OUT | PG_EAST_SIDE => PFIL_IN end.

(** [firewall_side_to_npf_rule]; [None] is [PG_MAX_SIDE]. *)
Definition firewall_side_to_npf_rule (side : option pg_side) : Z :=
  match side with
  | Some PG_WEST_SIDE => NPF_RULE_OUT
  | Some PG_EAST_SIDE => NPF_RULE_IN
  | None => Z.lor NPF_RULE_OUT NPF_RULE_IN
  end.

(** ** Rules *)

(** [None] is the failing assertion; the code and the rule. *)
Definition firewall_build_pcap_filter (rl : nl_rule) (filter : string) : option (Z * nl_rule) :=
  let '(ret, bf) := pcap_compile_nopcap filter in
  if negb (ret =? 0) then Some (ret, rl)
  else
    let '(ret, rl) := npf_rule_setcode rl bf in
    if ret =? 0 then Some (0, rl) else None.

Definition pg_firewall_rule_add st (filter : option string) (side : option pg_side)
    (stateful : bool) : option (pg_error + pg_firewall_state) :=
  let options := firewall_side_to_npf_rule side in
  let options := if stateful then Z.lor options NPF_RULE_STATEFUL else options in
  rule ← npf_rule_create (Z.lor NPF_RULE_PASS options);
  let rule := npf_rule_setprio rule NPF_PRI_LAST in
  match filter with
  | None => Some (inr (set_rules st (rules st ++ [rule])))
  | Some f =>
      r ← firewall_build_pcap_filter rule f;
      if negb (fst r =? 0)
      then Some (inl (pg_error_new ("this filter failed to build: " +:+ f)))
      else Some (inr (set_rules st (rules st ++ [snd r])))
  end.

(** The rule filters one of the sides of [pf_side]. *)
Definition on_side (pf_side : Z) (r : nl_rule) : bool :=
  negb (Z.land (Z.land (npf_rule_getattr r) (Z.lor NPF_RULE_OUT NPF_RULE_IN)) pf_side =? 0).

(** The loop of [pg_firewall_rule_flush_side]: [it] is the rule at position [i]; after a
    deletion the loop starts again from the first rule. *)
Fixpoint flush_side_loop (fuel : nat) (pf_side : Z) (l : list nl_rule) (i : nat) (w : W)
    : option (list nl_rule * W) :=
  match fuel with
  | O => None
  | S fuel =>
      match l !! i with
      | None => Some (l, w)
      | Some r =>
          if on_side pf_side r
          then flush_side_loop fuel pf_side (delete i l) 0 (npf_rule_destroy r w)
          else flush_side_loop fuel pf_side l (S i) w
      end
  end.

Definition pg_firewall_rule_flush_side st (side : option pg_side) (w : W)
    : option (pg_firewall_state * W) :=
  let n := S (length (rules st)) in
  r ← flush_side_loop (n * n) (firewall_side_to_npf_rule side) (rules st) 0 w;
  Some (set_rules st (fst r), snd r).

Definition destroy_rules (l : list nl_rule) (w : W) : W := foldl (λ w r, npf_rule_destroy r w) w l.

Definition pg_firewall_rule_flush st (w : W) : pg_firewall_state * W :=
  (set_rules st [], destroy_rules (rules st) w).

(** [firewall_reload_internal]: the error, if any. *)
Definition firewall_reload_internal st (w : W) : option pg_error * W :=
  let '(npf_ret, w) := npfk_load (npf st) (rules st) w in
  let w := npfk_ifmap_attach (npf st) (ifp st) w in
  if negb (npf_ret =? 0)
  then (Some (pg_error_new_errno npf_ret "NPF failed to load configuration"), w)
  else (None, w).

Definition pg_firewall_reload := firewall_reload_internal.

Definition pg_firewall_gc st (w : W) : W := npfk_gc (npf st) w.

(** ** Packets *)

(** NPF sees the packet from its network header on: the offset of the data is moved by
    [l2_len] and moved back by the length that the packet has then, which must be the
    same. *)
Fixpoint firewall_loop st (pf_side : pfil) (pkts : pkts_t) (l : list nat) (pkts_mask : Z)
    : M (flow W) Z :=
  match l with
  | [] => mret pkts_mask
  | i :: l =>
      p ← unwrap (pkts !! i);
      v ← load_pkt p;
      ether_type ← unwrap (pg_utils_get_ether_type v);
      if negb (ether_type =? PG_BE_ETHER_TYPE_IPv4) && negb (ether_type =? PG_BE_ETHER_TYPE_IPv6)
      then firewall_loop st pf_side pkts l pkts_mask
      else
        ret ← npfk_packet_handler (npf st) (ifp st) pf_side p (Z.to_nat (l2_len v));
        v' ← load_pkt p;
        massert (l2_len v' =? l2_len v);;
        firewall_loop st pf_side pkts l
          (if negb (ret =? 0) then Z.land pkts_mask (not64 (Z.shiftl ONE64 (Z.of_nat i)))
           else pkts_mask)
  end.

(** [s] is the side opposite to [from]. *)
Definition firewall_burst st (s : pg_brick_side) (from : pg_side) (pkts : pkts_t)
    (pkts_mask : Z) : M (flow W) Z :=
  m ← firewall_loop st (FIREWALL_SIDE_TO_NPF from) pkts (PG_FOREACH_BIT pkts_mask) pkts_mask;
  if m =? 0 then mret 0
  else e ← edge_of s; pg_brick_burst (link e) from (pair_index e) pkts m.

(** ** Life cycle *)

Record pg_firewall_config := mk_firewall_config { cfg_flags : Z }.

Definition PG_NO_CONN_WORKER : Z := 1.

Definition firewall_config_new (name : string) (flags : Z) : pg_brick_config pg_firewall_config :=
  pg_brick_config_init (mk_firewall_config flags) name 1 1 PG_DIPOLE.

(** The static variables. *)
Record firewall_globals := mk_globals {
  pg_npf_nworkers : Z;
  nb_firewall : Z;
  firewall_iface_cnt : Z;
  is_dpdk_init : bool;
}.

(** [firewall_init]: the return code with the error, the state when there is one, the
    static variables and the world. When no interface is attached the code destroys
    [state->npf], which is still NULL. *)
Definition firewall_init (gl : firewall_globals) (config : pg_firewall_config) (w : W)
    : option pg_error * option pg_firewall_state * firewall_globals * W :=
  let flags :=
    if (pg_npf_nworkers gl =? 0) || negb (Z.land (cfg_flags config) PG_NO_CONN_WORKER =? 0)
    then Z.lor (cfg_flags config) NPF_NO_GC else cfg_flags config in
  let '(ok, gl, w) :=
    if nb_firewall gl =? 0 then
      let '(r, w) := npfk_sysinit (pg_npf_nworkers gl) w in
      if r <? 0 then (false, gl, w)
      else if is_dpdk_init gl then (true, gl, w)
      else (true, mk_globals (pg_npf_nworkers gl) (nb_firewall gl) (firewall_iface_cnt gl) true,
            npf_dpdk_init w)
    else (true, gl, w) in
  if negb ok then (Some (pg_error_new "fail during npf initialisation"), None, gl, w)
  else
    let '(n, w) := npf_dpdk_create flags w in
    match n with
    | None => (Some (pg_error_new "fail to create npf"), None, gl, w)
    | Some n =>
        let w := npfk_thread_register n w in
        let '(i, w) := npf_dpdk_ifattach n (firewall_iface_cnt gl) w in
        let gl := mk_globals (pg_npf_nworkers gl) (nb_firewall gl)
                    (u32 (firewall_iface_cnt gl + 1)) (is_dpdk_init gl) in
        match i with
        | None => (Some (pg_error_new "npf_dpdk_ifattach fail"), None, gl, npfk_destroy None w)
        | Some i =>
            let st := mk_firewall n i [] in
            let gl := mk_globals (pg_npf_nworkers gl) (u64 (nb_firewall gl + 1))
                        (firewall_iface_cnt gl) (is_dpdk_init gl) in
            let '(e, w) := firewall_reload_internal st w in
            (e, Some st, gl, w)
        end
    end.

Definition firewall_destroy (gl : firewall_globals) st (w : W) : firewall_globals * W :=
  let '(st, w) := pg_firewall_rule_flush st w in
  let w := npf_dpdk_ifdetach (npf st) (ifp st) w in
  let w := npfk_thread_unregister (npf st) w in
  let w := npfk_destroy (Some (npf st)) w in
  let gl := mk_globals (pg_npf_nworkers gl) (u64 (nb_firewall gl - 1))
              (firewall_iface_cnt gl) (is_dpdk_init gl) in
  (gl, if nb_firewall gl =? 0 then npfk_sysfini w else w).

End Firewall.

(** ** What the brick relies on in NPF *)

(** NPF decides on the bytes of a packet and on its own state (the rules it was given and
    the connections it follows), and leaves the packet alone; a rule keeps the attributes
    it was created with, of which the sides are bits of their own. *)
Class NpfLaws (W : Type) `{!NpfLib W} := {
  npf_inspect : npf_t → pfil → list Z → W → bool * W;
  law_handler n i pf p off v (fl : flow W) :
    fl_mem fl !! p = Some v →
    ∃ r, npfk_packet_handler n i pf p off fl =
      Some (r, mk_flow (fl_mem fl) (fl_count fl) (fl_errp fl)
                 (snd (npf_inspect n pf (drop off (data v)) (fl_world fl)))) ∧
      (r = 0 ↔ fst (npf_inspect n pf (drop off (data v)) (fl_world fl)) = true);
  law_create a : ∃ r, npf_rule_create a = Some r ∧ npf_rule_getattr r = a;
  law_setprio r k : npf_rule_getattr (npf_rule_setprio r k) = npf_rule_getattr r;
  law_setcode r c : fst (npf_rule_setcode r c) = 0 ∧
    npf_rule_getattr (snd (npf_rule_setcode r c)) = npf_rule_getattr r;
  law_sides : NPF_RULE_IN ≠ 0 ∧ NPF_RULE_OUT ≠ 0 ∧ Z.land NPF_RULE_IN NPF_RULE_OUT = 0;
  law_no_side : Z.land NPF_RULE_PASS (Z.lor NPF_RULE_OUT NPF_RULE_IN) = 0 ∧
    Z.land NPF_RULE_STATEFUL (Z.lor NPF_RULE_OUT NPF_RULE_IN) = 0;
}.

(** ** Rules *)

Section Rules.

Context {W : Type} `{NL : !NpfLib W, NW : !NpfLaws W}.
Implicit Types (l : list nl_rule) (w : W).

Definition others (pf_side : Z) l : list nl_rule := filter (λ r, on_side pf_side r = false) l.
Definition flushed (pf_side : Z) l : list nl_rule := filter (λ r, on_side pf_side r = true) l.

Lemma filter_all {A} (P : A → Prop) `{!∀ x, Decision (P x)} (l : list A) :
  (∀ x, x ∈ l → P x) → filter P l = l.
Proof.
  induction l as [|x l IH]; intros Hl; [done|]. rewrite filter_cons.
  rewrite decide_True by (apply Hl; left). f_equal. apply IH. intros y Hy. apply Hl. by right.
Qed.

Lemma filter_none {A} (P : A → Prop) `{!∀ x, Decision (P x)} (l : list A) :
  (∀ x, x ∈ l → ¬ P x) → filter P l = [].
Proof.
  induction l as [|x l IH]; intros Hl; [done|]. rewrite filter_cons.
  rewrite decide_False by (apply Hl; left). apply IH. intros y Hy. apply Hl. by right.
Qed.

(** The loop, when no rule before position [i] is on the side. *)
Lemma flush_side_loop_spec fuel pf : ∀ l i w,
  (∀ r, r ∈ take i l → on_side pf r = false) → (i ≤ length l)%nat →
  (length (flushed pf l) * S (length l) + (length l - i) < fuel)%nat →
  flush_side_loop fuel pf l i w = Some (others pf l, destroy_rules (flushed pf l) w).
Proof.
  induction fuel as [|fuel IH]; intros l i w Hpre Hi Hfuel; [lia|]. cbn [flush_side_loop].
  destruct (l !! i) as [r|] eqn:Hr.
  - pose proof (take_drop_middle _ _ _ Hr) as Hl. pose proof (lookup_lt_Some _ _ _ Hr) as Hlt.
    destruct (on_side pf r) eqn:Hon.
    + assert (Hd : delete i l = take i l ++ drop (S i) l) by apply delete_take_drop.
      assert (Hf : flushed pf l = r :: flushed pf (delete i l)).
      { rewrite Hd. rewrite <- Hl at 1. unfold flushed. rewrite !filter_app, filter_cons.
        rewrite (filter_none _ (take i l)) by (intros x Hx; by rewrite (Hpre x Hx)).
        by rewrite decide_True. }
      assert (Ho : others pf l = others pf (delete i l)).
      { rewrite Hd. rewrite <- Hl at 1. unfold others. rewrite !filter_app, filter_cons.
        by rewrite decide_False by (by rewrite Hon). }
      pose proof (length_delete l i ltac:(eauto)) as Hlen.
      rewrite Hf in Hfuel. cbn [length] in Hfuel.
      rewrite (IH (delete i l) 0%nat).
      * by rewrite Ho, Hf.
      * cbn. by intros ? ?%elem_of_nil.
      * lia.
      * nia.
    + apply IH; [|lia|lia]. intros x. rewrite (take_S_r _ _ _ Hr), elem_of_app.
      intros [Hx|Hx]; [by apply Hpre|]. by apply list_elem_of_singleton in Hx as ->.
  - apply lookup_ge_None in Hr. rewrite firstn_all2 in Hpre by lia.
    unfold others, flushed. rewrite (filter_all _ l) by done.
    by rewrite (filter_none _ l) by (intros x Hx; by rewrite (Hpre x Hx)).
Qed.

Lemma rule_on_side r attr s pf :
  npf_rule_getattr r = Z.lor NPF_RULE_PASS attr →
  attr = s ∨ attr = Z.lor s NPF_RULE_STATEFUL →
  on_side pf r = negb (Z.land (Z.land s (Z.lor NPF_RULE_OUT NPF_RULE_IN)) pf =? 0).
Proof.
  intros Hr Ha. unfold on_side. rewrite Hr. do 3 f_equal.
  destruct law_no_side as [Hp Hs]. rewrite Z.land_lor_distr_l, Hp, Z.lor_0_l.
  destruct Ha as [->| ->]; [done|]. by rewrite Z.land_lor_distr_l, Hs, Z.lor_0_r.
Qed.

(** The sides share a bit exactly when one of them is both, or they are the same. *)
Definition same_side (s s' : option pg_side) : bool :=
  match s, s' with Some a, Some b => bool_decide (a = b) | _, _ => true end.

Lemma land_sides s s' :
  negb (Z.land (Z.land (firewall_side_to_npf_rule s) (Z.lor NPF_RULE_OUT NPF_RULE_IN))
          (firewall_side_to_npf_rule s') =? 0) = same_side s s'.
Proof.
  destruct law_sides as (Hi & Ho & Hio).
  assert (Hoi : Z.land NPF_RULE_OUT NPF_RULE_IN = 0) by (by rewrite Z.land_comm).
  assert (∀ a, firewall_side_to_npf_rule a = Z.land (firewall_side_to_npf_rule a)
    (Z.lor NPF_RULE_OUT NPF_RULE_IN)) as Hsub.
  { intros [[]|]; cbn; rewrite ?Z.land_lor_distr_r, ?Z.land_diag, ?Hoi, ?Hio, ?Z.lor_0_r,
      ?Z.lor_0_l; try done. by rewrite <- Z.land_lor_distr_r, Z.land_diag. }
  rewrite <- Hsub. destruct s as [[]|], s' as [[]|]; cbn [firewall_side_to_npf_rule same_side].
  all: rewrite ?Z.land_lor_distr_r, ?Z.land_lor_distr_l, ?Z.land_diag, ?Hoi, ?Hio, ?Z.lor_0_r,
    ?Z.lor_0_l; cbn.
  all: rewrite ?bool_decide_true, ?bool_decide_false by done.
  all: try (apply negb_true_iff, Z.eqb_neq); try done.
  all: rewrite ?Z.lor_eq_0_iff; naive_solver.
Qed.

Lemma flush_side_spec st side w :
  pg_firewall_rule_flush_side st side w =
    Some (set_rules st (others (firewall_side_to_npf_rule side) (rules st)),
          destroy_rules (flushed (firewall_side_to_npf_rule side) (rules st)) w).
Proof.
  unfold pg_firewall_rule_flush_side. rewrite flush_side_loop_spec; [done| |lia|].
  - cbn. by intros ? ?%elem_of_nil.
  - pose proof (length_filter_le (λ r, on_side (firewall_side_to_npf_rule side) r = true)
      (rules st)) as Hle. fold (flushed (firewall_side_to_npf_rule side) (rules st)) in Hle. nia.
Qed.

(** A flush of a list to which a rule of a side was added. *)
Lemma flush_added st rule attr side side' w :
  npf_rule_getattr rule = Z.lor NPF_RULE_PASS attr →
  attr = firewall_side_to_npf_rule side ∨
    attr = Z.lor (firewall_side_to_npf_rule side) NPF_RULE_STATEFUL →
  pg_firewall_rule_flush_side (set_rules st (rules st ++ [rule])) side' w =
    Some (set_rules st (others (firewall_side_to_npf_rule side') (rules st) ++
                        if same_side side side' then [] else [rule]),
          destroy_rules (flushed (firewall_side_to_npf_rule side') (rules st) ++
                         if same_side side side' then [rule] else []) w).
Proof.
  intros Hr Ha. rewrite flush_side_spec. cbn [rules set_rules]. unfold others, flushed.
  pose proof (rule_on_side rule attr _ (firewall_side_to_npf_rule side') Hr Ha) as Hon.
  rewrite land_sides in Hon. rewrite !filter_app, !filter_cons, !filter_nil, Hon.
  by destruct (same_side side side'); rewrite ?decide_True, ?decide_False by done.
Qed.

(** A rule that builds goes to the end of the list, and is removed by a flush of its
    side but not by one of the other side; a filter that does not compile adds no rule. A
    flush of a side ends, destroys each rule of that side once, in order, and keeps the
    others in order. *)
Theorem firewall_rules_by_side st filter side stateful :
  ∃ r, pg_firewall_rule_add st filter side stateful = Some r ∧
    match r with
    | inl _ => ∃ f, filter = Some f ∧ fst (pcap_compile_nopcap f) ≠ 0
    | inr st' => ∃ rule, st' = set_rules st (rules st ++ [rule]) ∧
        ∀ side' w, pg_firewall_rule_flush_side st' side' w =
          Some (set_rules st (others (firewall_side_to_npf_rule side') (rules st) ++
                              if same_side side side' then [] else [rule]),
                destroy_rules (flushed (firewall_side_to_npf_rule side') (rules st) ++
                               if same_side side side' then [rule] else []) w)
    end.
Proof.
  unfold pg_firewall_rule_add.
  set (attr := if stateful then _ else _).
  assert (Ha : attr = firewall_side_to_npf_rule side ∨
    attr = Z.lor (firewall_side_to_npf_rule side) NPF_RULE_STATEFUL)
    by (unfold attr; destruct stateful; auto).
  destruct (law_create (Z.lor NPF_RULE_PASS attr)) as (rule & -> & Hr). cbn [mbind option_bind].
  rewrite <- (law_setprio rule NPF_PRI_LAST) in Hr. set (rl := npf_rule_setprio _ _) in *.
  destruct filter as [f|].
  2: { eexists. split; [done|]. exists rl. split; [done|]. intros. by apply flush_added with attr. }
  unfold firewall_build_pcap_filter.
  destruct (pcap_compile_nopcap f) as [ret bf] eqn:Ef. destruct (Z.eqb_spec ret 0) as [->|Hne]; cbn.
  - destruct (law_setcode rl bf) as [Hc Hg]. destruct (npf_rule_setcode rl bf) as [c rl'].
    cbn in Hc, Hg. subst c. cbn. eexists. split; [done|]. exists rl'. split; [done|].
    intros. apply flush_added with attr; [congruence|done].
  - destruct (Z.eqb_spec ret 0); [done|]. cbn. eexists. split; [done|]. exists f.
    by rewrite Ef.
Qed.

End Rules.

(** ** Packets *)

Section Packets.

Context {W : Type} `{D : !Dispatch W, NL : !NpfLib W, NW : !NpfLaws W}.

(** A packet that the firewall asks NPF about. *)
Definition is_ip (v : mbuf) : bool :=
  match pg_utils_get_ether_type v with
  | Some t => (t =? PG_BE_ETHER_TYPE_IPv4) || (t =? PG_BE_ETHER_TYPE_IPv6)
  | None => false
  end.

(** The packets that pass, one after the other, and the state NPF is in at the end. *)
Fixpoint judged n (pf : pfil) (l : list (nat * mbuf)) (w : W) : list nat * W :=
  match l with
  | [] => ([], w)
  | (i, v) :: l =>
      if is_ip v then
        let r := npf_inspect n pf (pg_utils_get_l3 v) w in
        let r' := judged n pf l (snd r) in
        (if fst r then i :: fst r' else fst r', snd r')
      else let r' := judged n pf l w in (i :: fst r', snd r')
  end.

Lemma judged_elem n pf l w j : j ∈ fst (judged n pf l w) → j ∈ l.*1.
Proof.
  revert w. induction l as [|[i v] l IH]; intros w; cbn; [done|]. rewrite elem_of_cons.
  destruct (is_ip v); cbn.
  - destruct (fst _); rewrite ?elem_of_cons; naive_solver.
  - rewrite elem_of_cons. naive_solver.
Qed.

(** The packets at the positions of a list. *)
Definition packets_at (pkts : pkts_t) (mem : gmap mptr mbuf) (l : list (nat * mbuf)) : Prop :=
  ∀ i v, (i, v) ∈ l → (i < 64)%nat ∧ is_Some (pg_utils_get_ether_type v) ∧
    ∃ p, pkts !! i = Some p ∧ mem !! p = Some v.

Definition set_world (fl : flow W) (w : W) : flow W :=
  mk_flow (fl_mem fl) (fl_count fl) (fl_errp fl) w.

Lemma firewall_loop_spec st pf pkts l : ∀ m fl,
  is_mask m → NoDup l.*1 → packets_at pkts (fl_mem fl) l →
  ∃ m', firewall_loop st pf pkts l.*1 m fl =
      Some (m', set_world fl (snd (judged (npf st) pf l (fl_world fl)))) ∧ is_mask m' ∧
    ∀ j, mask_has m' j = true ↔
      mask_has m j = true ∧ (j ∈ l.*1 → j ∈ fst (judged (npf st) pf l (fl_world fl))).
Proof.
  induction l as [|[i v] l IH]; intros m fl Hm Hnd Hp.
  { exists m. cbn. split; [by destruct fl|]. split; [done|]. intros j. naive_solver. }
  cbn [fmap list_fmap fst] in Hnd. apply NoDup_cons in Hnd as [Hni Hnd].
  destruct (Hp i v) as (Hi & [t Ht] & p & Hpk & Hmem); [left|].
  assert (Hp' : packets_at pkts (fl_mem fl) l) by (intros j u Hj; apply Hp; by right).
  cbn [fmap list_fmap fst firewall_loop]. rewrite Hpk. cbn [unwrap]. rewrite M_bind_ret.
  unfold load_pkt. rewrite M_bind_assoc. unfold mbind at 1, M_bind at 1, gets. rewrite Hmem.
  cbn [unwrap]. rewrite M_bind_ret, Ht. cbn [unwrap]. rewrite M_bind_ret.
  cbn [judged]. unfold is_ip. rewrite Ht, <- negb_orb.
  destruct ((t =? PG_BE_ETHER_TYPE_IPv4) || (t =? PG_BE_ETHER_TYPE_IPv6)); cbn [negb].
  - destruct (law_handler (npf st) (ifp st) pf p (Z.to_nat (l2_len v)) v fl Hmem) as (r & Hr & Hrz).
    fold (pg_utils_get_l3 v) in Hr, Hrz.
    set (ins := npf_inspect (npf st) pf (pg_utils_get_l3 v) (fl_world fl)) in *.
    unfold mbind at 1, M_bind at 1. rewrite Hr. fold (set_world fl (snd ins)).
    unfold gets. rewrite M_bind_assoc. unfold mbind at 1, M_bind at 1. cbn [fl_mem set_world].
    rewrite Hmem. cbn [unwrap]. rewrite M_bind_ret, Z.eqb_refl. cbn [massert]. rewrite M_bind_ret.
    set (m1 := if negb (r =? 0) then _ else m).
    assert (is_mask m1) as Hm1 by (unfold m1; destruct (negb _); [by apply is_mask_land|done]).
    destruct (IH m1 (set_world fl (snd ins)) Hm1 Hnd Hp') as (m' & Hrun & Hm' & Hiff).
    cbn [fl_world set_world] in Hrun, Hiff.
    exists m'. split; [exact Hrun|]. split; [done|]. intros j. rewrite Hiff. unfold m1.
    cbn [fmap list_fmap fst snd]. rewrite elem_of_cons.
    destruct (decide (r = 0)) as [Hz|Hz].
    + rewrite (proj1 Hrz Hz), Hz. cbn. rewrite elem_of_cons. naive_solver.
    + destruct (fst ins) eqn:Ei; [by rewrite (proj2 Hrz eq_refl) in Hz|].
      rewrite (proj2 (Z.eqb_neq _ _) Hz). cbn [negb].
      rewrite mask_has_clear, mask_has_bit, andb_true_iff, negb_true_iff, bool_decide_eq_false
        by done. split.
      * intros [[? Hne] Hl]. split; [done|]. intros [->|?]; [done|auto].
      * intros [Hj Hl]. split; [|auto]. split; [done|]. intros <-. apply Hni.
        eapply judged_elem. apply Hl. by left.
  - destruct (IH m fl Hm Hnd Hp') as (m' & Hrun & Hm' & Hiff). exists m'.
    split; [exact Hrun|]. split; [done|]. intros j. rewrite Hiff.
    cbn [fmap list_fmap fst snd]. rewrite !elem_of_cons. split; [naive_solver|].
    intros [Hj Hl]. split; [done|]. intros Hjl. destruct (Hl (or_intror Hjl)) as [->|]; done.
Qed.

(** C36: The firewall sends on exactly the packets that are not IP and those that NPF lets
    pass, asked in order about their bytes from the network header on and in the
    direction of the burst; nothing is sent when none is left, and the result is the
    neighbour's. *)
Theorem firewall_burst_filters st s e from (pkts : pkts_t) mask l (fl : flow W) :
  is_mask mask → side_edges s = Edge e → l.*1 = PG_FOREACH_BIT mask →
  packets_at pkts (fl_mem fl) l →
  let r := judged (npf st) (FIREWALL_SIDE_TO_NPF from) l (fl_world fl) in
  ∃ m, is_mask m ∧ (∀ j, mask_has m j = true ↔ j ∈ fst r) ∧
    firewall_burst st s from pkts mask fl =
      if m =? 0 then Some (0, set_world fl (snd r))
      else pg_brick_burst (link e) from (pair_index e) pkts m (set_world fl (snd r)).
Proof.
  intros Hm He Hl Hp r.
  destruct (firewall_loop_spec st (FIREWALL_SIDE_TO_NPF from) pkts l mask fl Hm)
    as (m & Hrun & Hm' & Hiff); [rewrite Hl; by apply foreach_NoDup|done|].
  exists m. split; [done|]. split.
  - intros j. rewrite Hiff, Hl, elem_of_foreach by done. split; [naive_solver|].
    intros Hj. split; [|done]. apply judged_elem in Hj as Hj'.
    by rewrite Hl, elem_of_foreach in Hj'.
  - unfold firewall_burst. rewrite <- Hl. unfold mbind at 1, M_bind at 1. rewrite Hrun.
    fold r. destruct (m =? 0); [done|]. unfold edge_of. by rewrite He.
Qed.

End Packets.

(** ** A concrete NPF *)

(** Packets that start with 0x45 pass. *)
Definition demo_npf : NpfLib (list burst_call) := {|
  nl_rule := Z; bpf_program := unit; npf_t := unit; ifnet := unit;
  NPF_RULE_PASS := 1; NPF_RULE_STATEFUL := 4; NPF_RULE_IN := 16; NPF_RULE_OUT := 32;
  NPF_PRI_LAST := -1; NPF_NO_GC := 1;
  npf_rule_create a := Some a;
  npf_rule_setprio r _ := r;
  npf_rule_setcode r _ := (0, r);
  npf_rule_getattr r := r;
  npf_rule_destroy _ w := w;
  pcap_compile_nopcap f := (if String.eqb f "" then 1 else 0, tt);
  npfk_load _ _ w := (0, w);
  npfk_ifmap_attach _ _ w := w;
  npfk_packet_handler _ _ _ p off fl :=
    v ← fl_mem fl !! p;
    Some (if bool_decide (head (drop off (data v)) = Some 69) then 0 else 1, fl);
  npfk_gc _ w := w;
  npfk_sysinit _ w := (0, w);
  npfk_sysfini w := w;
  npf_dpdk_init w := w;
  npf_dpdk_create _ w := (Some tt, w);
  npfk_thread_register _ w := w;
  npfk_thread_unregister _ w := w;
  npf_dpdk_ifattach _ _ w := (Some tt, w);
  npf_dpdk_ifdetach _ _ w := w;
  npfk_destroy _ w := w;
|}.

Definition demo_npf_laws : @NpfLaws (list burst_call) demo_npf.
Proof.
  refine {| npf_inspect (_ : @npf_t _ demo_npf) _ b w := (bool_decide (head b = Some 69), w) |}.
  - intros n i pf p off v fl Hv. cbn. rewrite Hv. cbn. eexists. split; [by destruct fl|].
    by case_bool_decide.
  - intros a. by exists a.
  - done.
  - done.
  - done.
  - done.
Defined.

Definition demo_firewall : @pg_firewall_state (list burst_call) demo_npf :=
  @mk_firewall _ demo_npf tt tt [].

Lemma firewall_rules_by_side_witness :
  ∃ r, @pg_firewall_rule_add _ demo_npf demo_firewall (Some "icmp") (Some PG_WEST_SIDE) true =
         Some (inr r) ∧
    ∀ w, @pg_firewall_rule_flush_side _ demo_npf r (Some PG_EAST_SIDE) w = Some (r, w).
Proof.
  destruct (@firewall_rules_by_side _ demo_npf demo_npf_laws demo_firewall (Some "icmp")
    (Some PG_WEST_SIDE) true) as (r & Hr & H).
  destruct r as [e|st']; [vm_compute in Hr; discriminate Hr|]. exists st'. split; [exact Hr|].
  destruct H as (rule & -> & H). intros w. exact (H (Some PG_EAST_SIDE) w).
Defined.

(** An IPv4 packet that passes, one that does not, and an ARP packet. *)
Definition fw_flow : flow (list burst_call) :=
  mk_flow {[5%positive := mk_mbuf (replicate 12 0 ++ [8; 0; 69]) 15 14 0 0 0 1;
            6%positive := mk_mbuf (replicate 12 0 ++ [8; 0; 70]) 15 14 0 0 0 1;
            7%positive := mk_mbuf (replicate 12 0 ++ [8; 6; 70]) 15 14 0 0 0 1]} ∅ None [].

Lemma firewall_burst_filters_witness : ∃ m,
  (∀ j, mask_has m j = true ↔ j ∈ [0; 2]%nat) ∧
  @firewall_burst _ recorder demo_npf demo_firewall
    (mk_side 1 1 (Edge (mk_edge (Some 9%positive) 0))) PG_WEST_SIDE
    [5%positive; 6%positive; 7%positive] 7 fw_flow =
  (if m =? 0 then Some (0, fw_flow)
   else pg_brick_burst (D := recorder) (Some 9%positive) PG_WEST_SIDE 0
          [5%positive; 6%positive; 7%positive] m fw_flow).
Proof.
  destruct (@firewall_burst_filters _ recorder demo_npf demo_npf_laws demo_firewall
    (mk_side 1 1 (Edge (mk_edge (Some 9%positive) 0))) (mk_edge (Some 9%positive) 0) PG_WEST_SIDE
    [5%positive; 6%positive; 7%positive] 7
    [(0%nat, mk_mbuf (replicate 12 0 ++ [8; 0; 69]) 15 14 0 0 0 1);
     (1%nat, mk_mbuf (replicate 12 0 ++ [8; 0; 70]) 15 14 0 0 0 1);
     (2%nat, mk_mbuf (replicate 12 0 ++ [8; 6; 70]) 15 14 0 0 0 1)] fw_flow) as (m & _ & Hj & Hr).
  - unfold is_mask. lia.
  - done.
  - reflexivity.
  - intros i v Hi. rewrite !elem_of_cons, elem_of_nil in Hi.
    destruct Hi as [[= -> ->]|[[= -> ->]|[[= -> ->]|[]]]];
      (split; [lia|]); (split; [vm_compute; eauto|]); eexists; by split.
  - exists m. split; [exact Hj|exact Hr].
Defined.
