(* ===== verification/Constructors.v ===== *)
(** * The constructors of the bricks

    The [pg_*_new] functions of the bricks and the small [init] and [destroy] callbacks
    that their own files leave out. A constructor builds a configuration and calls
    [pg_brick_new] with the name its operations are registered under. *)

From S2P Require Import Prelude Bitmask Common Brick BrickInv BrickSpec Burst MacTable Switch.
From S2P Require Import Packets Queue Accumulator Network Antispoof UdpFilter Endpoints Pmtud Hub.
From S2P Require Import Firewall.

(** ** The user dipole ([src/user-dipole.c]) *)

Section UserDipole.

Context {W D : Type}.

(** [struct pg_user_dipole_config] and [struct pg_user_dipole_state]. *)
Record pg_user_dipole_config := mk_user_dipole_config {
  ud_private_data : D;
  ud_callback : pg_side → pkts_t → Z → M (flow W) Z;
}.

Record pg_user_dipole_state := mk_user_dipole {
  private_data : D;
  callback : pg_side → pkts_t → Z → M (flow W) Z;
}.

Definition user_dipole_config_new (nm : string) (cb : pg_side → pkts_t → Z → M (flow W) Z) (d : D)
    : pg_brick_config pg_user_dipole_config :=
  pg_brick_config_init (mk_user_dipole_config d cb) nm 1 1 PG_DIPOLE.

Definition user_dipole_init (config : pg_brick_config pg_user_dipole_config)
    : Z * pg_user_dipole_state :=
  (0, mk_user_dipole (ud_private_data (brick_config config)) (ud_callback (brick_config config))).

Definition pg_user_dipole_private_data (st : pg_user_dipole_state) : D := private_data st.

End UserDipole.
Arguments pg_user_dipole_config : clear implicits.

(** ** Callbacks *)

(** [nop_init]: the state is zeroed memory; [None] is the failing assertion. *)
Definition nop_init (should_be_zero : Z) : option Z :=
  if should_be_zero =? 0 then Some 0 else None.

(** [hub_init] and [fail_init] set the fast path only. *)
Definition hub_init : Z := 0.
Definition fail_init : Z := 0.

(** [switch_destroy]: the table is freed unless it is dead; [None] is a read of an
    unset sub-table. *)
Definition switch_destroy (st : pg_switch_state) : option unit :=
  if Switch.is_table_dead st then Some tt
  else _ ← pg_mac_table_free (Switch.table st); Some tt.

(** ** Constructors *)

Definition pg_switch_config_new (nm : string) (west_max east_max : Z) (out : pg_side)
    : pg_brick_config pg_switch_config :=
  pg_brick_config_init (mk_switch_config out) nm west_max east_max PG_MULTIPOLE.

(** [struct pg_rxtx_config]. *)
Record pg_rxtx_config (W : Type) := mk_rxtx_config {
  cfg_rx : option (pkts_t → Z → M (flow W) unit);
  cfg_tx : option (pkts_t → M (flow W) Z);
}.
Arguments mk_rxtx_config {W}.

Definition rxtx_config_new {W} (nm : string) (rx : option (pkts_t → Z → M (flow W) unit))
    (tx : option (pkts_t → M (flow W) Z)) : pg_brick_config (pg_rxtx_config W) :=
  pg_brick_config_init (mk_rxtx_config rx tx) nm 1 1 PG_MONOPOLE.

(** The private configurations, as the [void *] that [pg_brick_new] hands over. *)
Inductive private_config (X : Type) :=
  | CfgNull
  | CfgDiode (c : pg_diode_config)
  | CfgUserDipole (c : pg_user_dipole_config X unit)
  | CfgRxtx (c : pg_rxtx_config X)
  | CfgAccumulator (c : pg_accumulator_config)
  | CfgAntispoof (c : pg_antispoof_config)
  | CfgUdpFilter (c : pg_udp_filter_config)
  | CfgPmtud (c : pg_pmtud_config)
  | CfgSwitch (c : pg_switch_config)
  | CfgQueue (c : pg_queue_config)
  | CfgFirewall (c : pg_firewall_config).
Arguments CfgNull {X}.
Arguments CfgDiode {X}.
Arguments CfgUserDipole {X}.
Arguments CfgRxtx {X}.
Arguments CfgAccumulator {X}.
Arguments CfgAntispoof {X}.
Arguments CfgUdpFilter {X}.
Arguments CfgPmtud {X}.
Arguments CfgSwitch {X}.
Arguments CfgQueue {X}.
Arguments CfgFirewall {X}.

Definition cast {A C} (f : A → C) (c : pg_brick_config A) : pg_brick_config C :=
  mk_config (cfg_name c) (west_max c) (east_max c) (cfg_type c) (f (brick_config c)).

Section Constructors.

Context {W X : Type} (all : list (pg_brick_ops W (private_config X))).

Definition pg_collect_new (nm : string) : M (state W) (option ptr) :=
  pg_brick_new all (Some "collect") (Some (pg_brick_config_new CfgNull nm 1 1 PG_MONOPOLE)).

Definition pg_fail_new (nm : string) : M (state W) (option ptr) :=
  pg_brick_new all (Some "fail") (Some (pg_brick_config_new CfgNull nm 1 1 PG_MONOPOLE)).

Definition pg_user_dipole_new (nm : string) (cb : pg_side → pkts_t → Z → M (flow X) Z)
    : M (state W) (option ptr) :=
  pg_brick_new all (Some "user_dipole") (Some (cast CfgUserDipole (user_dipole_config_new nm cb tt))).

(** The error is the constructor's own and is dropped. *)
Definition pg_rxtx_new (nm : string) (rx : option (pkts_t → Z → M (flow X) unit))
    (tx : option (pkts_t → M (flow X) Z)) : M (state W) (option ptr) :=
  saved ← gets errp;
  modify (λ st, mk_state (bricks st) (world st) None);;
  r ← pg_brick_new all (Some "rxtx") (Some (cast CfgRxtx (rxtx_config_new nm rx tx)));
  modify (λ st, mk_state (bricks st) (world st) saved);;
  mret r.

Definition pg_accumulator_new (nm : string) (out : option pg_side) (poll_min : Z)
    : M (state W) (option ptr) :=
  pg_brick_new all (Some "accumulator")
    (Some (cast CfgAccumulator (accumulator_config_new nm out poll_min))).

Definition pg_antispoof_new (nm : string) (out : pg_side) (mac : option (list Z))
    : M (state W) (option ptr) :=
  mac ← unwrap mac;
  pg_brick_new all (Some "antispoof") (Some (cast CfgAntispoof (antispoof_config_new nm out mac))).

Definition pg_pmtud_new (nm : string) (out : pg_side) (mtu : Z) : M (state W) (option ptr) :=
  pg_brick_new all (Some "pmtud") (Some (cast CfgPmtud (pmtud_config_new nm out mtu))).

Definition pg_switch_new (nm : string) (west_max east_max : Z) (out : pg_side)
    : M (state W) (option ptr) :=
  pg_brick_new all (Some "switch")
    (Some (cast CfgSwitch (pg_switch_config_new nm west_max east_max out))).

Definition udp_filter_new (nm : string) (ports : option (list pg_udp_filter_info)) (out : pg_side)
    : M (state W) (option ptr) :=
  match pg_udp_filter_new nm ports out with
  | inl e => set_error e;; mret None
  | inr c => pg_brick_new all (Some "udp_filter") (Some (cast CfgUdpFilter c))
  end.

(** The flags are a [uint64_t] that becomes an [int]. *)
Definition pg_firewall_new (nm : string) (flags : Z) : M (state W) (option ptr) :=
  pg_brick_new all (Some "firewall")
    (Some (cast CfgFirewall (firewall_config_new nm (s32 (u32 flags))))).

End Constructors.

(** ** What the constructors make *)

Section Created.

Context {W C : Type} (all : list (pg_brick_ops W C)).

(** The counts of a multipole fit, and it has a side with an edge. *)
Definition fits (c : pg_brick_config C) : Prop :=
  match cfg_type c with
  | PG_MULTIPOLE => west_max c < UINT16_MAX ∧ east_max c < UINT16_MAX ∧
                    (0 < west_max c ∨ 0 < east_max c)
  | _ => west_max c = 1 ∧ east_max c = 1
  end.

Lemma fits_check c : fits c → check_side_max c = None.
Proof.
  unfold fits, check_side_max, UINT16_MAX. destruct (cfg_type c); cbn; intros H.
  - destruct (Z.leb_spec 65535 (west_max c)), (Z.leb_spec 65535 (east_max c)); cbn; lia || done.
  - by destruct H as [-> ->].
  - by destruct H as [-> ->].
Qed.

(** A registered brick whose [init] succeeds is created. *)
Lemma new_succeeds st nm c i o :
  find_ops all nm = Some (i, o) → 0 < op_state_size o → fits c → 0 ≤ west_max c →
  0 ≤ east_max c →
  (∀ p b e w, 0 ≤ io_ret (op_init o p b c e w) ∧ io_burst (op_init o p b c e w) = true) →
  ∃ p st', pg_brick_new all (Some nm) (Some c) st = Some (Some p, st').
Proof.
  intros Ho Hs Hf Hw He Hi. unfold pg_brick_new. rewrite Ho, (fits_check c Hf).
  destruct (Z.leb_spec (op_state_size o) 0); [lia|].
  unfold mbind, M_bind, gets, modify. cbv beta iota.
  set (p := fresh _). set (b := set_name _ _).
  destruct (Hi p b (errp st) (world st)) as [Hr Hb].
  destruct (Z.ltb_spec (io_ret (op_init o p b c (errp st) (world st))) 0); [lia|].
  rewrite Hb. cbn [massert burst set_fast_path]. rewrite mret_run.
  destruct (alloc_edges _) as [b'|] eqn:Ea; [by eexists _, _|]. exfalso.
  unfold alloc_edges in Ea. cbn [type set_fast_path] in Ea. unfold b in Ea. cbn in Ea.
  unfold fits, UINT16_MAX in Hf. destruct (cfg_type c); try done.
  rewrite !u16_small in Ea by lia.
  destruct (Z.eqb_spec (west_max c) 0), (Z.eqb_spec (east_max c) 0); cbn in Ea; try done. lia.
Qed.

End Created.

(** The configurations of the bricks with one neighbour on each side always fit, and
    those of the hub, of the switch and of the UDP filter exactly when the counts do. *)
Lemma constructor_configs_fit {X} nm out acc_out poll_min mac mtu cb rx tx flags :
  Forall (λ c : pg_brick_config (private_config X), fits c)
    [pg_brick_config_new CfgNull nm 1 1 PG_MONOPOLE;
     pg_brick_config_new CfgNull nm 1 1 PG_DIPOLE;
     diode_config_new CfgDiode nm out;
     cast CfgUserDipole (user_dipole_config_new nm cb tt);
     cast CfgRxtx (rxtx_config_new nm rx tx);
     cast CfgAccumulator (accumulator_config_new nm acc_out poll_min);
     cast CfgAntispoof (antispoof_config_new nm out mac);
     cast CfgPmtud (pmtud_config_new nm out mtu);
     cast CfgFirewall (firewall_config_new nm flags)].
Proof. repeat constructor. Qed.

(** A UDP filter has one port per filter, a default port and one port on the other side:
    the constructor makes it when there are fewer than 65534 filters. *)
Lemma udp_filter_fits {X} nm ports out c :
  pg_udp_filter_new nm (Some ports) out = inr c → Z.of_nat (length ports) < 65534 →
  fits (cast (CfgUdpFilter (X := X)) c).
Proof.
  intros [= <-] Hl. unfold fits, UINT16_MAX. cbn.
  assert (∀ z, 0 ≤ z < 65536 → u32 z = z) as Hu by (intros; unfold u32; apply Z.mod_small; lia).
  destruct out; cbn; repeat case_decide; try done; rewrite !Hu; lia.
Qed.
