(* ===== verification/Stack.v ===== *)
(** * Stacks ([src/utils/stack.h])

    The stacks of thread identifiers, of free graph slots and of errors: an array that
    grows by blocks, with an optional limit. [repr] relates the array to the list it
    represents; each operation refines the one on lists. *)

From S2P Require Import Prelude.

(** ** Operations *)

Definition PG_STACK_BLOCK_SIZE : nat := 126.
#[global] Arguments PG_STACK_BLOCK_SIZE : simpl never.

(** [struct int8_stack] and the like; a cell that was not written is [None]. *)
Record stack (A : Type) := mk_stack {
  values : list (option A);
  len : nat;
  total_size : nat;
  limit : nat;
}.
Arguments mk_stack {A}.
Arguments values {A}.
Arguments len {A}.
Arguments total_size {A}.
Arguments limit {A}.

Definition STACK_CREATE (A : Type) : stack A := mk_stack [] 0 0 0.

(** [realloc] succeeds. *)
Definition stack_push {A} (s : stack A) (val : A) : option (stack A) :=
  if negb (limit s =? 0)%nat && (limit s <=? len s + 1)%nat then Some s
  else
    let s := if (len s =? total_size s)%nat
             then mk_stack (values s ++ replicate PG_STACK_BLOCK_SIZE None) (len s)
                    (total_size s + PG_STACK_BLOCK_SIZE) (limit s)
             else s in
    if decide (len s < length (values s))%nat
    then Some (mk_stack (<[len s := Some val]> (values s)) (len s + 1) (total_size s) (limit s))
    else None.

Definition stack_len {A} (s : stack A) : nat := len s.
Definition stack_set_limit {A} (s : stack A) (l : nat) : stack A :=
  mk_stack (values s) (len s) (total_size s) l.

(** [stack_pop]: the value and the stack; an unwritten cell is not read. *)
Definition stack_pop {A} (s : stack A) (fail_ret : A) : option (A * stack A) :=
  match len s with
  | O => Some (fail_ret, s)
  | S n => c ← values s !! n; v ← c; Some (v, mk_stack (values s) n (total_size s) (limit s))
  end.

Definition stack_destroy {A} (s : stack A) : stack A := mk_stack [] 0 0 (limit s).

(** ** The list a stack represents, last value first *)

Record repr {A} (s : stack A) (l : list A) : Prop := mk_repr {
  repr_len : len s = length l;
  repr_total : length (values s) = total_size s;
  repr_values : take (len s) (values s) = Some <$> reverse l;
}.

(** A push on lists: nothing is pushed when it would bring the length to the limit. *)
Definition push_spec {A} (lim : nat) (l : list A) (a : A) : list A :=
  if negb (lim =? 0)%nat && (lim <=? length l + 1)%nat then l else a :: l.

Lemma repr_create {A} : repr (STACK_CREATE A) [].
Proof. by split. Qed.

Lemma repr_set_limit {A} (s : stack A) l n : repr s l → repr (stack_set_limit s n) l.
Proof. intros [H1 H2 H3]. by split. Qed.

Lemma repr_bound {A} (s : stack A) l : repr s l → (len s ≤ length (values s))%nat.
Proof.
  intros [H1 _ H3]. apply (f_equal length) in H3.
  rewrite length_take, length_fmap, length_reverse, <- H1 in H3. lia.
Qed.

(** Room for one more value. *)
Lemma repr_write {A} n (vals : list (option A)) tot lim l a :
  repr (mk_stack vals n tot lim) l → (n < length vals)%nat →
  repr (mk_stack (<[n := Some a]> vals) (n + 1) tot lim) (a :: l).
Proof.
  intros [H1 H2 H3] Hn. cbn in H1, H2, H3. split; cbn [len values total_size length];
    [lia | by rewrite length_insert |].
  rewrite Nat.add_1_r, (take_S_r _ _ (Some a)).
  - rewrite take_insert_ge by lia. by rewrite H3, reverse_cons, fmap_app.
  - by apply list_lookup_insert_eq.
Qed.

Lemma stack_push_repr {A} (s : stack A) l a :
  repr s l → ∃ s', stack_push s a = Some s' ∧ repr s' (push_spec (limit s) l a) ∧
                   limit s' = limit s.
Proof.
  intros H. pose proof (repr_bound _ _ H) as Hb. pose proof H as [H1 H2 H3].
  unfold stack_push, push_spec. rewrite <- H1.
  destruct (_ && _); [eauto|].
  destruct (len s =? total_size s)%nat eqn:E; cbn.
  - apply Nat.eqb_eq in E. rewrite length_app, length_replicate, decide_True by
      (unfold PG_STACK_BLOCK_SIZE; lia).
    eexists; split; [done|]. split; [|done]. apply repr_write.
    + split; cbn; [done | rewrite length_app, length_replicate; lia |].
      by rewrite take_app_le by lia.
    + rewrite length_app, length_replicate. unfold PG_STACK_BLOCK_SIZE. lia.
  - apply Nat.eqb_neq in E. rewrite decide_True by lia.
    eexists; split; [done|]. split; [|done]. apply repr_write; [by destruct s|lia].
Qed.

Lemma stack_pop_nil {A} (s : stack A) d : repr s [] → stack_pop s d = Some (d, s).
Proof. intros [H _ _]. unfold stack_pop. by rewrite H. Qed.

Lemma stack_pop_cons {A} (s : stack A) d a l :
  repr s (a :: l) → ∃ s', stack_pop s d = Some (a, s') ∧ repr s' l ∧ limit s' = limit s.
Proof.
  intros [H1 H2 H3]. unfold stack_pop. cbn in H1. rewrite H1 in *.
  rewrite reverse_cons, fmap_app in H3. cbn in H3.
  assert (Hv : values s !! length l = Some (Some a)).
  { rewrite <- (lookup_take_lt _ (S (length l))) by lia. rewrite H3.
    apply list_lookup_middle. by rewrite length_fmap, length_reverse. }
  rewrite Hv. cbn. eexists; split; [done|]. split; [|done]. split; cbn; [done..|].
  rewrite <- (Nat.min_l (length l) (S (length l))), <- take_take, H3 by lia.
  by rewrite take_app_length' by (by rewrite length_fmap, length_reverse).
Qed.

Lemma stack_destroy_repr {A} (s : stack A) : repr (stack_destroy s) [].
Proof. by split. Qed.

(** The length of a stack with a limit stays below it. *)
Lemma push_spec_limit {A} lim (l : list A) a :
  lim = 0%nat ∨ (length l < lim)%nat →
  lim = 0%nat ∨ (length (push_spec lim l a) < lim)%nat.
Proof.
  unfold push_spec. destruct (lim =? 0)%nat eqn:E; cbn; [apply Nat.eqb_eq in E; auto|].
  destruct (Nat.leb_spec lim (length l + 1)); cbn; lia.
Qed.

(** ** Sequences of operations *)

Inductive stack_op (A : Type) := Push (a : A) | Pop.
Arguments Push {A}.
Arguments Pop {A}.

(** Runs operations; the popped values, in order. *)
Fixpoint run_stack {A} (d : A) (ops : list (stack_op A)) (s : stack A)
    : option (list A * stack A) :=
  match ops with
  | [] => Some ([], s)
  | Push a :: ops => s ← stack_push s a; run_stack d ops s
  | Pop :: ops =>
      r ← stack_pop s d;
      r' ← run_stack d ops (snd r);
      Some (fst r :: fst r', snd r')
  end.

Fixpoint run_list {A} (d : A) (lim : nat) (ops : list (stack_op A)) (l : list A)
    : list A * list A :=
  match ops with
  | [] => ([], l)
  | Push a :: ops => run_list d lim ops (push_spec lim l a)
  | Pop :: ops =>
      let r := run_list d lim ops (tail l) in (default d (head l) :: fst r, snd r)
  end.

(** Any sequence of pushes and pops on a stack of [stack.h] reads and writes only
    inside its array and gives the values that the same sequence gives on a list, the
    fail value on an empty one; with a limit, a stack never holds [limit] values. *)
Theorem stack_refines_list {A} (d : A) (ops : list (stack_op A)) (s : stack A) (l : list A) :
  repr s l → (limit s = 0%nat ∨ (length l < limit s)%nat) →
  ∃ s', run_stack d ops s = Some (fst (run_list d (limit s) ops l), s') ∧
        repr s' (snd (run_list d (limit s) ops l)) ∧
        (limit s = 0%nat ∨ (stack_len s' < limit s)%nat).
Proof.
  revert s l. induction ops as [|[a|] ops IH]; intros s l H Hl; cbn.
  - exists s. split; [done|]. split; [done|]. unfold stack_len. by rewrite (repr_len _ _ H).
  - destruct (stack_push_repr s l a H) as (s1 & -> & H1 & E1). cbn. rewrite <- E1 in *.
    by apply IH; [|apply push_spec_limit].
  - destruct l as [|a l].
    + rewrite (stack_pop_nil s d H). cbn. destruct (IH s [] H Hl) as (s' & -> & H').
      cbn. eauto.
    + destruct (stack_pop_cons s d a l H) as (s1 & -> & H1 & E1). cbn. rewrite <- E1 in *.
      destruct (IH s1 l H1) as (s' & -> & H'); [cbn in Hl; lia|]. cbn. eauto.
Qed.

Lemma stack_refines_list_witness :
  ∃ s', run_stack 9 [Push 1; Push 2; Push 3; Pop; Pop; Pop]
          (stack_set_limit (STACK_CREATE Z) 3) = Some ([2; 1; 9], s') ∧
        (stack_len s' < 3)%nat.
Proof.
  destruct (stack_refines_list 9 [Push 1; Push 2; Push 3; Pop; Pop; Pop]
    (stack_set_limit (STACK_CREATE Z) 3) []) as (s' & H1 & _ & H2).
  - by apply repr_set_limit, repr_create.
  - right. cbn. lia.
  - exists s'. split; [exact H1 | destruct H2 as [H2|H2]; [discriminate H2 | exact H2]].
Defined.
