(* ===== verification/Thread.v ===== *)
(** * Threads that poll graphs ([src/thread.c], [src/thread-impl.h])

    A thread is told what to do through a queue of operations that its clients and it
    access under a lock. A critical section is one step here; what a client does
    between two of its critical sections interleaves with the turns of the thread. *)

From S2P Require Import Prelude Stack.

(** ** Clients *)

Inductive pg_thread_state := PG_THREAD_STOPPED | PG_THREAD_BROKEN | PG_THREAD_RUNNING.

Inductive pg_thread_op :=
  | PG_THREAD_NONE | PG_THREAD_ANSWER | PG_THREAD_STATE | PG_THREAD_ADD_GRAPH
  | PG_THREAD_RM_GRAPH | PG_THREAD_RUN | PG_THREAD_POP_ERROR | PG_THREAD_FORCE_START
  | PG_THREAD_STOP | PG_THREAD_QUIT.

Global Instance pg_thread_state_eq_dec : EqDecision pg_thread_state.
Proof. solve_decision. Defined.
Global Instance pg_thread_op_eq_dec : EqDecision pg_thread_op.
Proof. solve_decision. Defined.

Definition PG_THREAD_MAX_OP : nat := 128.

(** Addresses of graphs and of errors. *)
Definition addr := positive.

(** [union pg_thread_arg], by the member that was written last. *)
Inductive pg_thread_arg :=
  | ArgPtr (p : option addr)
  | ArgInt (z : Z)
  | ArgState (s : pg_thread_state).

Record thread_op := mk_op { op : pg_thread_op; arg : pg_thread_arg; arg2 : Z * Z }.

(** [struct pg_thread_client]; [is_queue_empty] is written and never read. *)
Record pg_thread_client := mk_client {
  is_queue_locked : bool;
  queue_size : nat;
  queue : list thread_op;
}.

Definition set_queue c (l : list thread_op) := mk_client (is_queue_locked c) (queue_size c) l.
Definition set_queue_size c (n : nat) := mk_client (is_queue_locked c) n (queue c).
Definition set_locked c (b : bool) := mk_client b (queue_size c) (queue c).

(** [g_new0]. *)
Definition client_new : pg_thread_client :=
  mk_client false 0 (replicate PG_THREAD_MAX_OP (mk_op PG_THREAD_NONE (ArgInt 0) (0, 0))).

(** [enqueue_ptr], [enqueue_i16] and [enqueue_i32] once they have the lock: -1 when the
    queue is full, and the position. *)
Definition enqueue (c : pg_thread_client) (o : pg_thread_op) (a : pg_thread_arg)
    : option (Z * pg_thread_client) :=
  let queue_pos := queue_size c in
  if (queue_pos + 1 =? PG_THREAD_MAX_OP)%nat then Some (-1, c)
  else
    cell ← queue c !! queue_pos;
    Some (Z.of_nat queue_pos, mk_client (is_queue_locked c) (queue_pos + 1)
      (<[queue_pos := mk_op o a (arg2 cell)]> (queue c))).

(** [shrink_queue]: trailing operations that are done leave the queue. *)
Fixpoint shrink (l : list thread_op) (i : nat) : option nat :=
  match i with
  | O => Some 0%nat
  | S i' => cell ← l !! i'; if decide (op cell = PG_THREAD_NONE) then shrink l i' else Some i
  end.

Definition shrink_queue (c : pg_thread_client) : option pg_thread_client :=
  n ← shrink (queue c) (queue_size c); Some (set_queue_size c n).

(** [try_get_answer] once it has the lock: the answer, [None] when there is none yet. *)
Definition try_get_answer (c : pg_thread_client) (idx : nat) : option (option thread_op) :=
  cell ← queue c !! idx;
  if decide (op cell = PG_THREAD_ANSWER) then Some (Some cell)
  else if decide (op cell = PG_THREAD_NONE) then None
  else Some None.

(** What a client does with the answer before it releases the lock: [pg_thread_stop]
    shrinks the queue before it clears the operation, the others after. *)
Definition take_answer (c : pg_thread_client) (idx : nat) : option pg_thread_client :=
  cell ← queue c !! idx;
  shrink_queue (set_queue c (<[idx := mk_op PG_THREAD_NONE (arg cell) (arg2 cell)]> (queue c))).

Definition take_stop_answer (c : pg_thread_client) (idx : nat) : option pg_thread_client :=
  c ← shrink_queue c;
  cell ← queue c !! idx;
  Some (set_queue c (<[idx := mk_op PG_THREAD_NONE (arg cell) (arg2 cell)]> (queue c))).

(** ** The thread *)

(** The local variables of [pg_thread_main]. *)
Record worker := mk_worker {
  state : pg_thread_state;
  graphs : list (option addr);
  started : list (option pg_thread_state);
  last_graph : nat;
  free_graph : stack Z;
  errors : stack (option addr);
  errors_gid : stack Z;
}.

Definition worker_new : worker :=
  mk_worker PG_THREAD_STOPPED (replicate PG_STACK_BLOCK_SIZE None)
    (replicate PG_STACK_BLOCK_SIZE None) 0 (STACK_CREATE Z)
    (stack_set_limit (STACK_CREATE (option addr)) 128) (stack_set_limit (STACK_CREATE Z) 128).

Definition set_state w s :=
  mk_worker s (graphs w) (started w) (last_graph w) (free_graph w) (errors w) (errors_gid w).
Definition set_slots w gs ss n fr :=
  mk_worker (state w) gs ss n fr (errors w) (errors_gid w).
Definition set_started w ss := set_slots w (graphs w) ss (last_graph w) (free_graph w).
Definition set_errors w es gids :=
  mk_worker (state w) (graphs w) (started w) (last_graph w) (free_graph w) es gids.

(** Casts to [int8_t] and to [int16_t]. *)
Definition s8 (z : Z) : Z := (z + 2 ^ 7) mod 2 ^ 8 - 2 ^ 7.
Definition s16 (z : Z) : Z := (z + 2 ^ 15) mod 2 ^ 16 - 2 ^ 15.

(** An array cell by an index that may be negative. *)
Definition cell_at {A} (l : list A) (i : Z) : option A :=
  if i <? 0 then None else l !! Z.to_nat i.
Definition put_cell {A} (l : list A) (i : Z) (a : A) : option (list A) :=
  _ ← cell_at l i; Some (<[Z.to_nat i := a]> l).

(** How the [switch] ends: the loop goes on, the thread returns, or the next turn starts
    at once, with the lock still taken. *)
Inductive served := Next | Quit | Continue.

(** [started[i]] for the graphs below [last_graph]. *)
Definition started_prefix w : option (list pg_thread_state) :=
  mapM id (take (last_graph w) (started w)).

Definition unbreak (s : option pg_thread_state) : option pg_thread_state :=
  match s with Some PG_THREAD_BROKEN => Some PG_THREAD_RUNNING | _ => s end.

(** One operation; [None] is undefined behaviour. *)
Definition serve_op (w : worker) (cur : thread_op) : option (worker * thread_op * served) :=
  match op cur with
  | PG_THREAD_QUIT =>
      Some (set_errors (set_slots w (graphs w) (started w) (last_graph w)
        (stack_destroy (free_graph w))) (stack_destroy (errors w)) (stack_destroy (errors_gid w)),
        cur, Quit)
  | PG_THREAD_POP_ERROR =>
      e ← stack_pop (errors w) None;
      g ← stack_pop (errors_gid w) (-1);
      Some (set_errors w (snd e) (snd g),
            mk_op PG_THREAD_ANSWER (ArgPtr (fst e)) (fst g, Z.of_nat (stack_len (snd g))), Next)
  | PG_THREAD_RM_GRAPH =>
      i ← match arg cur with ArgInt z => Some (s16 z) | _ => None end;
      fr ← stack_push (free_graph w) (s8 i);
      g ← cell_at (graphs w) i;
      ss ← put_cell (started w) i (Some PG_THREAD_STOPPED);
      Some (set_slots w (graphs w) ss (last_graph w) fr,
            mk_op PG_THREAD_ANSWER (ArgPtr g) (arg2 cur), Next)
  | PG_THREAD_ADD_GRAPH =>
      g ← match arg cur with ArgPtr p => Some p | _ => None end;
      r ← stack_pop (free_graph w) (-1);
      let '(ret, fr) := r in
      let w := set_slots w (graphs w) (started w) (last_graph w) fr in
      if (ret =? -1) && (last_graph w =? PG_STACK_BLOCK_SIZE)%nat
      then Some (w, mk_op PG_THREAD_ANSWER (ArgInt (-1)) (arg2 cur), Continue)
      else
        let '(i, n) := if ret =? -1 then (Z.of_nat (last_graph w), (last_graph w + 1)%nat)
                       else (ret, last_graph w) in
        gs ← put_cell (graphs w) i g;
        ss ← put_cell (started w) i (Some PG_THREAD_RUNNING);
        Some (set_slots w gs ss n fr, mk_op PG_THREAD_ANSWER (ArgInt i) (arg2 cur), Next)
  | PG_THREAD_FORCE_START =>
      i ← match arg cur with ArgInt z => Some z | _ => None end;
      ss ← put_cell (started w) i (Some PG_THREAD_RUNNING);
      let w := set_started w ss in
      l ← started_prefix w;
      let broken := length (filter (λ s, s = PG_THREAD_BROKEN) l) in
      Some (if (broken =? 0)%nat && (stack_len (errors w) =? 0)%nat
            then set_state w PG_THREAD_RUNNING else w,
            mk_op PG_THREAD_NONE (arg cur) (arg2 cur), Next)
  | PG_THREAD_RUN =>
      if (last_graph w =? 0)%nat then Some (w, cur, Next)
      else
        _ ← started_prefix w;
        let ss := (unbreak <$> take (last_graph w) (started w)) ++ drop (last_graph w) (started w) in
        Some (set_state (set_started w ss) PG_THREAD_RUNNING,
              mk_op PG_THREAD_NONE (arg cur) (arg2 cur), Next)
  | PG_THREAD_STOP =>
      Some (set_state w PG_THREAD_STOPPED, mk_op PG_THREAD_ANSWER (arg cur) (arg2 cur), Next)
  | PG_THREAD_STATE =>
      Some (w, mk_op PG_THREAD_ANSWER (ArgState (state w)) (arg2 cur), Next)
  | PG_THREAD_NONE | PG_THREAD_ANSWER => Some (w, cur, Next)
  end.

(** The loop over the queue, from the last operation: [queue_pos] goes down, and the
    loop ends when it is not positive any more. *)
Fixpoint serve (queue_pos : nat) (w : worker) (q : list thread_op)
    : option (worker * list thread_op * served) :=
  cur ← q !! queue_pos;
  r ← serve_op w cur;
  let '(w, cur, k) := r in
  let q := <[queue_pos := cur]> q in
  match k with
  | Next =>
      match queue_pos with
      | O => Some (w, q, Next)
      | S pos => if (0 <? pos)%nat then serve pos w q else Some (w, q, Next)
      end
  | k => Some (w, q, k)
  end.

(** What a client that waits comes to: a result, still waiting at the end of the
    schedule, or undefined behaviour. *)
Inductive outcome (A : Type) := Done (a : A) | Waiting | Undefined.
Arguments Done {A}.
Arguments Waiting {A}.
Arguments Undefined {A}.

Definition oc_bind {A B} (m : outcome A) (k : A → outcome B) : outcome B :=
  match m with Done a => k a | Waiting => Waiting | Undefined => Undefined end.
Definition oc_of {A} (o : option A) : outcome A :=
  match o with Some a => Done a | None => Undefined end.

(** The members of the union. *)
Definition arg_u64 (a : pg_thread_arg) : outcome pg_thread_state :=
  match a with ArgState s => Done s | _ => Undefined end.
Definition arg_i32 (a : pg_thread_arg) : outcome Z :=
  match a with ArgInt z => Done z | _ => Undefined end.
Definition arg_ptr (a : pg_thread_arg) : outcome (option addr) :=
  match a with ArgPtr p => Done p | _ => Undefined end.

Definition NULL : pg_thread_arg := ArgPtr None.

Section Poll.

Context {W : Type}.
(** [pg_graph_poll] and the error it reports when it fails. *)
Context (pg_graph_poll : option addr → W → option (Z * option addr * W)).

(** One pass over the graphs. *)
Fixpoint poll_graphs (i n : nat) (w : worker) (x : W) : option (worker * W) :=
  match n with
  | O => Some (w, x)
  | S n =>
      s ← started w !! i;
      s ← s;
      if decide (s = PG_THREAD_RUNNING) then
        g ← graphs w !! i;
        r ← pg_graph_poll g x;
        let '(ret, err, x) := r in
        if ret <? 0 then
          es ← stack_push (errors w) err;
          gids ← stack_push (errors_gid w) (Z.of_nat i);
          let w := set_errors (set_state w PG_THREAD_BROKEN) es gids in
          poll_graphs (S i) n (set_started w (<[i := Some PG_THREAD_BROKEN]> (started w))) x
        else poll_graphs (S i) n w x
      else poll_graphs (S i) n w x
  end.

Fixpoint poll_rounds (j : nat) (w : worker) (x : W) : option (worker * W) :=
  match j with
  | O => Some (w, x)
  | S j => r ← poll_graphs 0 (last_graph w) w x; poll_rounds j (fst r) (snd r)
  end.

Definition poll_phase (w : worker) (x : W) : option (worker * W) :=
  if decide (state w = PG_THREAD_STOPPED) then Some (w, x) else poll_rounds 32 w x.

(** One turn of [while (1)]; the boolean tells whether the thread goes on. An empty
    queue ends the turn before the graphs are polled. *)
Definition pg_thread_turn (w : worker) (c : pg_thread_client) (x : W)
    : option (worker * pg_thread_client * W * bool) :=
  if is_queue_locked c then
    r ← poll_phase w x; Some (fst r, c, snd r, true)
  else
    match queue_size c with
    | O => Some (w, c, x, true)
    | S queue_pos =>
        r ← serve queue_pos w (queue c);
        let '(w, q, k) := r in
        let c := set_queue c q in
        match k with
        | Quit => Some (w, c, x, false)
        | Continue => Some (w, set_locked c true, x, true)
        | Next => r ← poll_phase w x; Some (fst r, c, snd r, true)
        end
    end.

(** ** A thread and its client

    The thread takes any number of turns between two attempts of the client. *)

Record sys := mk_sys {
  wk : worker;
  client : pg_thread_client;
  world : W;
  alive : bool;
}.

Definition set_client (s : sys) (c : pg_thread_client) : sys :=
  mk_sys (wk s) c (world s) (alive s).

(** [n] turns of the thread; after [PG_THREAD_QUIT] there are none. *)
Fixpoint turns (n : nat) (s : sys) : option sys :=
  match n with
  | O => Some s
  | S n =>
      if alive s then
        r ← pg_thread_turn (wk s) (client s) (world s);
        let '(w, c, x, b) := r in turns n (mk_sys w c x b)
      else Some s
  end.

(** [wait_enqueue_ptr], [wait_enqueue_i16], [wait_enqueue_i32]: an attempt fails when the
    lock is taken or when the queue is full. [sched] gives the number of turns of the
    thread before each attempt. *)
Fixpoint wait_enqueue (sched : list nat) (s : sys) (o : pg_thread_op) (a : pg_thread_arg)
    : outcome (nat * list nat * sys) :=
  match sched with
  | [] => Waiting
  | n :: sched =>
      oc_bind (oc_of (turns n s)) (λ s,
      if is_queue_locked (client s) then wait_enqueue sched s o a
      else
        oc_bind (oc_of (enqueue (client s) o a)) (λ r,
        if fst r <? 0 then wait_enqueue sched s o a
        else Done (Z.to_nat (fst r), sched, set_client s (snd r))))
  end.

(** [wait_answer]: the answer; the client then holds the lock. *)
Fixpoint wait_answer (sched : list nat) (s : sys) (queue_id : nat) : outcome (thread_op * sys) :=
  match sched with
  | [] => Waiting
  | n :: sched =>
      oc_bind (oc_of (turns n s)) (λ s,
      if is_queue_locked (client s) then wait_answer sched s queue_id
      else
        oc_bind (oc_of (try_get_answer (client s) queue_id)) (λ r,
        match r with
        | Some cur_op => Done (cur_op, s)
        | None => wait_answer sched s queue_id
        end))
  end.

(** ** The functions of the interface ([include/packetgraph/thread.h]) *)

(** [wait_enqueue], [wait_answer], and what the client does with the answer. *)
Definition call (sched : list nat) (s : sys) (o : pg_thread_op) (a : pg_thread_arg)
    (done : pg_thread_client → nat → option pg_thread_client) : outcome (thread_op * sys) :=
  oc_bind (wait_enqueue sched s o a) (λ '(queue_id, sched, s),
  oc_bind (wait_answer sched s queue_id) (λ '(cur_op, s),
  oc_bind (oc_of (done (client s) queue_id)) (λ c, Done (cur_op, set_client s c)))).

Definition pg_thread_state_ (sched : list nat) (s : sys) : outcome (pg_thread_state * sys) :=
  oc_bind (call sched s PG_THREAD_STATE NULL take_answer) (λ '(cur_op, s),
  oc_bind (arg_u64 (arg cur_op)) (λ ret, Done (ret, s))).

Definition pg_thread_run (sched : list nat) (s : sys) : outcome (Z * sys) :=
  oc_bind (wait_enqueue sched s PG_THREAD_RUN NULL) (λ '(_, _, s), Done (0, s)).

Definition pg_thread_stop (sched : list nat) (s : sys) : outcome (Z * sys) :=
  oc_bind (call sched s PG_THREAD_STOP NULL take_stop_answer) (λ '(_, s), Done (0, s)).

Definition pg_thread_add_graph (sched : list nat) (s : sys) (graph : option addr)
    : outcome (Z * sys) :=
  match graph with
  | None => Done (-1, s)
  | Some _ =>
      oc_bind (call sched s PG_THREAD_ADD_GRAPH (ArgPtr graph) take_answer) (λ '(cur_op, s),
      oc_bind (arg_i32 (arg cur_op)) (λ ret, Done (ret, s)))
  end.

(** The number of errors left, [*graph_id] and [*errp]. *)
Definition pg_thread_pop_error (sched : list nat) (s : sys)
    : outcome (Z * Z * option addr * sys) :=
  oc_bind (call sched s PG_THREAD_POP_ERROR NULL take_answer) (λ '(cur_op, s),
  oc_bind (arg_ptr (arg cur_op)) (λ errp,
  let graph_id := fst (arg2 cur_op) in
  Done (if graph_id <? 0 then -1 else snd (arg2 cur_op), graph_id, errp, s))).

Definition pg_thread_force_start_graph (sched : list nat) (s : sys) (graph_id : Z)
    : outcome (Z * sys) :=
  oc_bind (wait_enqueue sched s PG_THREAD_FORCE_START (ArgInt graph_id)) (λ '(_, _, s),
  Done (0, s)).

Definition pg_thread_pop_graph (sched : list nat) (s : sys) (graph_id : Z)
    : outcome (option addr * sys) :=
  oc_bind (call sched s PG_THREAD_RM_GRAPH (ArgInt graph_id) take_answer) (λ '(cur_op, s),
  oc_bind (arg_ptr (arg cur_op)) (λ ret, Done (ret, s))).

End Poll.

(** ** The threads of the process *)

(** The static variables of [thread.c]; [is_init] is never set. *)
Record threads := mk_threads {
  thread_ids : list (option pg_thread_client);
  free_thread_ids : stack Z;
  threads_max : Z;
  last_thread_id : Z;
  nb_thread_id_used : Z;
}.

Section Threads.

(** Functions and constants of DPDK; [rte_get_next_lcore] skips the master and does not
    wrap around. *)
Context (RTE_MAX_LCORE : nat) (rte_lcore_count : Z) (rte_get_next_lcore : Z → Z).

Definition PG_THREAD_MAX : nat := Nat.min RTE_MAX_LCORE PG_STACK_BLOCK_SIZE.

Definition threads_start : threads :=
  mk_threads (replicate PG_THREAD_MAX None) (STACK_CREATE Z) 0 0 0.

Definition pg_thread_max (t : threads) : Z * threads :=
  let n := s16 (rte_lcore_count - 1) in
  let n := if Z.of_nat PG_THREAD_MAX <? n then Z.of_nat PG_THREAD_MAX else n in
  (n, mk_threads (thread_ids t) (free_thread_ids t) n (last_thread_id t) (nb_thread_id_used t)).

(** The identifier, -1 with an error at the limit; the thread is launched. *)
Definition pg_thread_init (t : threads) : option (Z * threads) :=
  r ← stack_pop (free_thread_ids t) (-1);
  let '(ret, fr) := r in
  let t := mk_threads (thread_ids t) fr (threads_max t) (last_thread_id t) (nb_thread_id_used t) in
  let t := snd (pg_thread_max t) in
  let launch (ret last : Z) : option (Z * threads) :=
    ids ← put_cell (thread_ids t) ret (Some client_new);
    Some (ret, mk_threads ids fr (threads_max t) last (s16 (nb_thread_id_used t + 1))) in
  if ret =? -1 then
    let ret := rte_get_next_lcore (last_thread_id t) in
    if threads_max t <? nb_thread_id_used t + 1 then Some (-1, t)
    else launch ret (s16 ret)
  else launch ret (last_thread_id t).

(** The thread got [PG_THREAD_QUIT] and has returned. *)
Definition pg_thread_destroy (t : threads) (thread_id : Z) : option (Z * threads) :=
  if threads_max t <? thread_id then Some (-1, t)
  else
    c ← cell_at (thread_ids t) thread_id;
    match c with
    | None => Some (-1, t)
    | Some _ =>
        let nb := s16 (nb_thread_id_used t - 1) in
        ids ← put_cell (thread_ids t) thread_id None;
        if nb =? 0 then
          Some (0, mk_threads ids (stack_destroy (free_thread_ids t)) (threads_max t) 0 nb)
        else
          fr ← stack_push (free_thread_ids t) thread_id;
          Some (0, mk_threads ids fr (threads_max t) (last_thread_id t) nb)
    end.

End Threads.
