(* ===== verification/ThreadSpec.v ===== *)
(** * What a thread promises to its client

    [worker_ok] is the invariant of the local variables of [pg_thread_main]; the calls
    of the interface are answered under any schedule that lets the thread take a turn. *)

From S2P Require Import Prelude Stack Thread.

(** ** The invariant *)

(** Slot [i] was handed out and is not free. *)
Definition in_use (w : worker) (free : list Z) (i : nat) : Prop :=
  (i < last_graph w)%nat ∧ Z.of_nat i ∉ free.

Record worker_ok (w : worker) (free : list Z) (es : list (option addr)) (gids : list Z) : Prop := {
  ok_graphs : length (graphs w) = PG_STACK_BLOCK_SIZE;
  ok_started : length (started w) = PG_STACK_BLOCK_SIZE;
  ok_last : (last_graph w ≤ PG_STACK_BLOCK_SIZE)%nat;
  ok_free : repr (free_graph w) free;
  ok_free_limit : limit (free_graph w) = 0%nat;
  ok_free_nodup : NoDup free;
  ok_free_slots : ∀ z, z ∈ free → ∃ i, z = Z.of_nat i ∧ (i < last_graph w)%nat ∧
                       started w !! i = Some (Some PG_THREAD_STOPPED);
  ok_written : ∀ i, (i < last_graph w)%nat → ∃ st, started w !! i = Some (Some st);
  ok_errors : repr (errors w) es;
  ok_gids : repr (errors_gid w) gids;
  ok_errors_limit : limit (errors w) = 128%nat;
  ok_gids_limit : limit (errors_gid w) = 128%nat;
  ok_errors_gids : length es = length gids;
  ok_errors_bound : (length es < 128)%nat;
}.

Lemma worker_new_ok : worker_ok worker_new [] [] [].
Proof.
  split; cbn [worker_new graphs started last_graph free_graph errors errors_gid].
  all: rewrite ?length_replicate; try apply repr_set_limit; try apply repr_create;
    try done; try lia; try constructor.
  all: try by intros z ?%elem_of_nil.
  cbn. lia.
Qed.

(** What polling leaves alone. *)
Record frame (w w' : worker) : Prop := {
  fr_graphs : graphs w' = graphs w;
  fr_last : last_graph w' = last_graph w;
  fr_free : free_graph w' = free_graph w;
}.

Global Instance frame_preorder : PreOrder frame.
Proof.
  split; [by split|]. intros a b c [] []. split; congruence.
Qed.

(** ** The operations of the thread *)

Lemma s8_slot i : (i < PG_STACK_BLOCK_SIZE)%nat → s8 (Z.of_nat i) = Z.of_nat i.
Proof. unfold s8, PG_STACK_BLOCK_SIZE. intros. rewrite Z.mod_small; lia. Qed.
Lemma s16_slot i : (i < PG_STACK_BLOCK_SIZE)%nat → s16 (Z.of_nat i) = Z.of_nat i.
Proof. unfold s16, PG_STACK_BLOCK_SIZE. intros. rewrite Z.mod_small; lia. Qed.

Lemma put_cell_nat {A} (l : list A) (i : nat) a :
  (i < length l)%nat → put_cell l (Z.of_nat i) a = Some (<[i := a]> l).
Proof.
  intros Hi. unfold put_cell, cell_at. destruct (Z.ltb_spec (Z.of_nat i) 0); [lia|].
  rewrite Nat2Z.id. destruct (lookup_lt_is_Some_2 l i Hi) as [b ->]. done.
Qed.

Lemma cell_at_nat {A} (l : list A) (i : nat) : cell_at l (Z.of_nat i) = l !! i.
Proof.
  unfold cell_at. destruct (Z.ltb_spec (Z.of_nat i) 0); [lia|]. by rewrite Nat2Z.id.
Qed.

(** Writing a slot that is not free, or that leaves the free list. *)
Lemma slot_written_ok w free free' es gids i gs st n fr :
  worker_ok w free es gids → length gs = PG_STACK_BLOCK_SIZE →
  (i < n ≤ PG_STACK_BLOCK_SIZE)%nat → (last_graph w ≤ n)%nat →
  (∀ j, (j < n)%nat → j = i ∨ (j < last_graph w)%nat) →
  repr fr free' → limit fr = 0%nat → NoDup free' →
  (∀ z, z ∈ free' → z ∈ free ∧ z ≠ Z.of_nat i ∨ z = Z.of_nat i ∧ st = PG_THREAD_STOPPED) →
  worker_ok (set_slots w gs (<[i := Some st]> (started w)) n fr) free' es gids.
Proof.
  intros [] Hgs Hi Hn Hj Hfr Hlim Hnd Hf.
  split; cbn [graphs started last_graph free_graph errors errors_gid set_slots]; try done; try lia.
  - by rewrite length_insert.
  - intros z [[Hz Hne]|[-> ->]]%Hf.
    + destruct (ok_free_slots0 z Hz) as (k & -> & Hk & Hs). exists k.
      split; [done|]. split; [lia|]. rewrite list_lookup_insert_ne by (intros ->; lia). done.
    + exists i. split; [done|]. split; [lia|]. apply list_lookup_insert_eq. lia.
  - intros j Hjn. destruct (decide (j = i)) as [->|].
    + rewrite list_lookup_insert_eq by lia. eauto.
    + rewrite list_lookup_insert_ne by done. apply ok_written0. destruct (Hj j Hjn); lia.
Qed.

(** A graph gets a slot that was not in use, and runs. *)
Lemma serve_add w free es gids g a2 :
  worker_ok w free es gids → (free ≠ [] ∨ (last_graph w < PG_STACK_BLOCK_SIZE)%nat) →
  ∃ i w', serve_op w (mk_op PG_THREAD_ADD_GRAPH (ArgPtr g) a2) =
            Some (w', mk_op PG_THREAD_ANSWER (ArgInt (Z.of_nat i)) a2, Next) ∧
    ¬ in_use w free i ∧ graphs w' = <[i := g]> (graphs w) ∧
    (i < PG_STACK_BLOCK_SIZE)%nat ∧ worker_ok w' (tail free) es gids ∧
    (∀ j, in_use w' (tail free) j ↔ j = i ∨ in_use w free j).
Proof.
  intros Hw Hroom. pose proof Hw as []. unfold serve_op; cbn [op arg arg2 mbind option_bind].
  destruct free as [|z free].
  - rewrite (stack_pop_nil _ (-1) ok_free0). cbn -[PG_STACK_BLOCK_SIZE put_cell].
    destruct Hroom as [?|Hroom]; [done|].
    destruct (Nat.eqb_spec (last_graph w) PG_STACK_BLOCK_SIZE); [lia|].
    rewrite put_cell_nat by lia. cbn -[put_cell]. rewrite put_cell_nat by lia. cbn.
    exists (last_graph w), (set_slots w (<[last_graph w := g]> (graphs w))
      (<[last_graph w := Some PG_THREAD_RUNNING]> (started w)) (last_graph w + 1) (free_graph w)).
    split; [done|]. unfold in_use; cbn.
    split; [lia|]. split; [done|]. split; [lia|]. split.
    + eapply slot_written_ok; try done; rewrite ?length_insert; try lia.
      intros z ?%elem_of_nil. done.
    + intros j. rewrite !elem_of_nil. lia.
  - destruct (stack_pop_cons _ (-1) z free ok_free0) as (fr & -> & Hfr & Hlim). cbn -[put_cell].
    destruct (ok_free_slots0 z) as (i & -> & Hi & Hs); [left|].
    destruct (Z.eqb_spec (Z.of_nat i) (-1)); [lia|]. cbn -[put_cell].
    rewrite put_cell_nat by lia. cbn -[put_cell]. rewrite put_cell_nat by lia. cbn.
    apply NoDup_cons in ok_free_nodup0 as [Hni Hnd].
    exists i, (set_slots w (<[i := g]> (graphs w)) (<[i := Some PG_THREAD_RUNNING]> (started w))
      (last_graph w) fr). split; [done|]. unfold in_use; cbn. rewrite !elem_of_cons.
    split; [naive_solver|]. split; [done|]. split; [lia|]. split.
    + eapply slot_written_ok; try done; rewrite ?length_insert; try lia.
      intros z Hz. left. split; [by right|]. congruence.
    + intros j. rewrite elem_of_cons. destruct (decide (j = i)) as [->|]; [naive_solver|].
      assert (Z.of_nat j ≠ Z.of_nat i) by lia. naive_solver.
Qed.

(** A graph that is in use leaves its slot to others. *)
Lemma serve_rm w free es gids i g a2 :
  worker_ok w free es gids → in_use w free i → graphs w !! i = Some g →
  ∃ w', serve_op w (mk_op PG_THREAD_RM_GRAPH (ArgInt (Z.of_nat i)) a2) =
          Some (w', mk_op PG_THREAD_ANSWER (ArgPtr g) a2, Next) ∧
    graphs w' = graphs w ∧ worker_ok w' (Z.of_nat i :: free) es gids ∧
    started w' !! i = Some (Some PG_THREAD_STOPPED) ∧
    (∀ j, in_use w' (Z.of_nat i :: free) j ↔ j ≠ i ∧ in_use w free j).
Proof.
  intros Hw [Hi Hfree] Hg. pose proof Hw as [].
  unfold serve_op; cbn [op arg arg2 mbind option_bind].
  rewrite s16_slot, s8_slot by lia.
  destruct (stack_push_repr _ _ (Z.of_nat i) ok_free0) as (fr & -> & Hfr & Hlim).
  rewrite ok_free_limit0 in *. cbn -[put_cell cell_at].
  rewrite cell_at_nat, Hg. cbn -[put_cell]. rewrite put_cell_nat by lia. cbn.
  eexists. split; [done|]. split; [done|]. split; [|split].
  - eapply slot_written_ok; try done; try lia.
    + by constructor.
    + intros z [->|Hz]%elem_of_cons; [by right|]. left. split; [done|congruence].
  - cbn. apply list_lookup_insert_eq. lia.
  - intros j. unfold in_use; cbn. rewrite elem_of_cons.
    destruct (decide (j = i)) as [->|]; [naive_solver|].
    assert (Z.of_nat j ≠ Z.of_nat i) by lia. naive_solver.
Qed.

Lemma set_errors_ok w free es gids s1 s2 es' gids' :
  worker_ok w free es gids → repr s1 es' → repr s2 gids' →
  limit s1 = 128%nat → limit s2 = 128%nat → length es' = length gids' →
  (length es' < 128)%nat → worker_ok (set_errors w s1 s2) free es' gids'.
Proof. intros []. by split. Qed.

(** The last error, with the graph it comes from and the number of those left. *)
Lemma serve_pop_error w free es gids a2 :
  worker_ok w free es gids →
  ∃ w', serve_op w (mk_op PG_THREAD_POP_ERROR NULL a2) =
    Some (w', mk_op PG_THREAD_ANSWER (ArgPtr (default None (head es)))
                (default (-1) (head gids), Z.of_nat (length (tail gids))), Next) ∧
    frame w w' ∧ worker_ok w' free (tail es) (tail gids).
Proof.
  intros Hw. pose proof Hw as [].
  unfold serve_op; cbn [op arg arg2 mbind option_bind NULL].
  destruct es as [|e es], gids as [|g gids]; try done.
  - rewrite (stack_pop_nil _ None ok_errors0). cbn. rewrite (stack_pop_nil _ (-1) ok_gids0). cbn.
    unfold stack_len. rewrite (repr_len _ _ ok_gids0). eexists. split; [done|].
    split; [by split|]. by apply (set_errors_ok _ _ _ _ _ _ [] [] Hw).
  - destruct (stack_pop_cons _ None e es ok_errors0) as (s1 & -> & H1 & L1). cbn.
    destruct (stack_pop_cons _ (-1) g gids ok_gids0) as (s2 & -> & H2 & L2). cbn.
    unfold stack_len. rewrite (repr_len _ _ H2). eexists. split; [done|].
    split; [by split|]. cbn in *.
    apply (set_errors_ok _ _ _ _ _ _ es gids Hw); [done|done|congruence|congruence|lia|lia].
Qed.

(** ** Polling *)

Section Polling.

Context {W : Type}.
Context (pg_graph_poll : option addr → W → option (Z * option addr * W)).
Hypothesis poll_total : ∀ g x, is_Some (pg_graph_poll g x).

(** A graph that fails is recorded as broken, with its error. *)
Lemma broken_ok w free es gids i e es1 gids1 :
  worker_ok w free es gids → started w !! i = Some (Some PG_THREAD_RUNNING) →
  stack_push (errors w) e = Some es1 → stack_push (errors_gid w) (Z.of_nat i) = Some gids1 →
  worker_ok (set_started (set_errors (set_state w PG_THREAD_BROKEN) es1 gids1)
      (<[i := Some PG_THREAD_BROKEN]> (started w)))
    free (push_spec 128 es e) (push_spec 128 gids (Z.of_nat i)).
Proof.
  intros [] Hi He Hg.
  destruct (stack_push_repr _ _ e ok_errors0) as (x & E & Hx & Lx). simplify_eq.
  destruct (stack_push_repr _ _ (Z.of_nat i) ok_gids0) as (y & E' & Hy & Ly). simplify_eq.
  rewrite ok_errors_limit0 in Hx. rewrite ok_gids_limit0 in Hy.
  split; cbn [graphs started last_graph free_graph errors errors_gid set_started set_slots
              set_errors set_state]; try done; try congruence.
  - by rewrite length_insert.
  - intros z (j & -> & Hj & Hs)%ok_free_slots0. exists j. split; [done|]. split; [done|].
    rewrite list_lookup_insert_ne; [done|]. intros ->. congruence.
  - intros j Hj. destruct (decide (i = j)) as [->|].
    + rewrite list_lookup_insert_eq by (rewrite ok_started0; lia). eauto.
    + rewrite list_lookup_insert_ne by done. auto.
  - unfold push_spec. rewrite ok_errors_gids0. by destruct (_ && _); cbn; f_equal.
  - destruct (push_spec_limit 128 es e) as [?|?]; [auto|done|done].
Qed.

Lemma poll_graphs_ok n : ∀ i w x free es gids,
  worker_ok w free es gids → (i + n ≤ last_graph w)%nat →
  ∃ w' x' es' gids', poll_graphs pg_graph_poll i n w x = Some (w', x') ∧
    frame w w' ∧ worker_ok w' free es' gids'.
Proof.
  induction n as [|n IH]; intros i w x free es gids Hw Hn; cbn.
  { exists w, x, es, gids. split; [done|]. by split. }
  destruct (ok_written _ _ _ _ Hw i) as [st Hst]; [lia|]. rewrite Hst. cbn.
  case_decide as Hr; [|eapply IH; [done|lia]]. subst st.
  destruct (lookup_lt_is_Some_2 (graphs w) i) as [g Hg].
  { rewrite (ok_graphs _ _ _ _ Hw). pose proof (ok_last _ _ _ _ Hw). lia. }
  rewrite Hg. cbn. destruct (poll_total g x) as [[[ret e] x1] ->]. cbn.
  destruct (ret <? 0); [|eapply IH; [done|lia]].
  destruct (stack_push_repr _ _ e (ok_errors _ _ _ _ Hw)) as (es1 & He & _).
  destruct (stack_push_repr _ _ (Z.of_nat i) (ok_gids _ _ _ _ Hw)) as (g1 & Hg1 & _).
  rewrite He. cbn. rewrite Hg1. cbn.
  destruct (IH (S i) _ x1 free _ _ (broken_ok _ _ _ _ _ _ _ _ Hw Hst He Hg1))
    as (w' & x' & es' & gids' & Hp & Hf & Hw'); [cbn; lia|].
  exists w', x', es', gids'. split; [exact Hp|]. split; [|done]. by destruct Hf; split.
Qed.

Lemma poll_rounds_ok n : ∀ w x free es gids,
  worker_ok w free es gids →
  ∃ w' x' es' gids', poll_rounds pg_graph_poll n w x = Some (w', x') ∧
    frame w w' ∧ worker_ok w' free es' gids'.
Proof.
  induction n as [|n IH]; intros w x free es gids Hw; cbn [poll_rounds].
  { exists w, x, es, gids. split; [done|]. by split. }
  destruct (poll_graphs_ok (last_graph w) 0 w x _ _ _ Hw) as (w1 & x1 & e1 & g1 & -> & F1 & H1);
    [lia|].
  destruct (IH w1 x1 _ _ _ H1) as (w' & x' & es' & gids' & Hp & Hf & Hw').
  exists w', x', es', gids'. split; [exact Hp|]. split; [by etrans|done].
Qed.

(** What a poll phase leaves alone: everything when the thread is stopped. *)
Record polled (w w' : worker) : Prop := {
  po_frame : frame w w';
  po_stopped : state w = PG_THREAD_STOPPED → w' = w;
}.

#[local] Instance polled_preorder : PreOrder polled.
Proof.
  split; [by split|]. intros a b c [F1 S1] [F2 S2]. split; [by etrans|].
  intros H. specialize (S1 H). subst b. auto.
Qed.

Lemma poll_phase_ok w x free es gids :
  worker_ok w free es gids →
  ∃ w' x' es' gids', poll_phase pg_graph_poll w x = Some (w', x') ∧
    polled w w' ∧ worker_ok w' free es' gids'.
Proof.
  intros Hw. unfold poll_phase. case_decide.
  { exists w, x, es, gids. split; [done|]. by split. }
  destruct (poll_rounds_ok 32 w x _ _ _ Hw) as (w' & x' & es' & gids' & Hp & Hf & Hw').
  exists w', x', es', gids'. split; [done|]. split; [|done]. by split.
Qed.

(** ** The queue *)

Definition quiet (cell : thread_op) : Prop :=
  op cell = PG_THREAD_NONE ∨ op cell = PG_THREAD_ANSWER.

Lemma serve_op_quiet w cell : quiet cell → serve_op w cell = Some (w, cell, Next).
Proof. unfold serve_op. by intros [-> | ->]. Qed.

Lemma serve_quiet pos : ∀ w q,
  (∀ i, (i ≤ pos)%nat → ∃ cell, q !! i = Some cell ∧ quiet cell) →
  serve pos w q = Some (w, q, Next).
Proof.
  induction pos as [|pos IH]; intros w q Hq;
    (edestruct Hq as (cell & Hc & Hn); [reflexivity|]);
    cbn [serve]; rewrite Hc; cbn; rewrite serve_op_quiet by done; cbn;
    rewrite list_insert_id by done; [done|].
  case_match; [|done]. apply IH. intros. apply Hq. lia.
Qed.

(** The last request is served first. *)
Lemma serve_top n w q cur w' cur' :
  q !! n = Some cur → serve_op w cur = Some (w', cur', Next) →
  (∀ i, (i < n)%nat → ∃ cell, q !! i = Some cell ∧ quiet cell) →
  serve n w q = Some (w', <[n := cur']> q, Next).
Proof.
  intros Hc Hop Hq. destruct n as [|n]; cbn [serve]; rewrite Hc; cbn; rewrite Hop; cbn; [done|].
  case_match; [|done]. apply serve_quiet. intros i Hi.
  destruct (Hq i ltac:(lia)) as (cell & ? & ?). exists cell. split; [|done].
  by rewrite list_lookup_insert_ne by lia.
Qed.

(** All requests were served and taken. *)
Record idle (c : pg_thread_client) : Prop := {
  idle_unlocked : is_queue_locked c = false;
  idle_length : length (queue c) = PG_THREAD_MAX_OP;
  idle_size : (queue_size c + 1 < PG_THREAD_MAX_OP)%nat;
  idle_none : ∀ i, (i < queue_size c)%nat →
    ∃ cell, queue c !! i = Some cell ∧ op cell = PG_THREAD_NONE;
}.

(** The last request is [cur], the others were served and taken. *)
Record last_is (c : pg_thread_client) (n : nat) (cur : thread_op) : Prop := {
  last_unlocked : is_queue_locked c = false;
  last_length : length (queue c) = PG_THREAD_MAX_OP;
  last_size : queue_size c = S n;
  last_room : (n + 1 < PG_THREAD_MAX_OP)%nat;
  last_cell : queue c !! n = Some cur;
  last_none : ∀ i, (i < n)%nat → ∃ cell, queue c !! i = Some cell ∧ op cell = PG_THREAD_NONE;
}.

Lemma client_new_idle : idle client_new.
Proof.
  split; cbn [client_new is_queue_locked queue queue_size];
  [done | apply length_replicate | unfold PG_THREAD_MAX_OP; lia | lia].
Qed.

Lemma enqueue_idle c o a :
  idle c → ∃ c' a2, enqueue c o a = Some (Z.of_nat (queue_size c), c') ∧
                    last_is c' (queue_size c) (mk_op o a a2).
Proof.
  intros []. unfold enqueue.
  destruct (Nat.eqb_spec (queue_size c + 1) PG_THREAD_MAX_OP); [lia|].
  destruct (lookup_lt_is_Some_2 (queue c) (queue_size c)) as [cell Hc]; [lia|].
  rewrite Hc. cbn. exists (mk_client (is_queue_locked c) (queue_size c + 1)
    (<[queue_size c := mk_op o a (arg2 cell)]> (queue c))), (arg2 cell). split; [done|].
  split; cbn [is_queue_locked queue queue_size]; try done; try lia.
  - by rewrite length_insert.
  - apply list_lookup_insert_eq. lia.
  - intros i Hi. rewrite list_lookup_insert_ne by lia. auto.
Qed.

Lemma shrink_none l n :
  (∀ i, (i < n)%nat → ∃ cell, l !! i = Some cell ∧ op cell = PG_THREAD_NONE) →
  shrink l n = Some 0%nat.
Proof.
  induction n as [|n IH]; intros H; [done|]. cbn.
  destruct (H n) as (cell & -> & E); [lia|]. cbn. rewrite decide_True by done.
  apply IH. intros i Hi. apply H. lia.
Qed.

(** Once its answer is taken, a sole request leaves an empty queue. *)
Lemma take_answer_empties c n cur :
  last_is c n cur → ∃ c', take_answer c n = Some c' ∧ idle c' ∧ queue_size c' = 0%nat.
Proof.
  intros []. unfold take_answer, shrink_queue. rewrite last_cell0. cbn.
  rewrite last_size0, (shrink_none _ (S n)).
  - eexists. split; [done|]. split; [|done].
    split; cbn [is_queue_locked queue queue_size set_queue set_queue_size];
      [done | by rewrite length_insert | unfold PG_THREAD_MAX_OP; lia | lia].
  - intros i Hi. destruct (decide (i = n)) as [->|].
    + rewrite list_lookup_insert_eq by lia. eauto.
    + rewrite list_lookup_insert_ne by lia. apply last_none0. lia.
Qed.

Lemma take_stop_answer_idle c n cur :
  last_is c n cur → op cur = PG_THREAD_ANSWER → (n + 2 < PG_THREAD_MAX_OP)%nat →
  ∃ c', take_stop_answer c n = Some c' ∧ idle c' ∧ queue_size c' = S n.
Proof.
  intros [] Hop Hn. unfold take_stop_answer, shrink_queue. rewrite last_size0. cbn.
  rewrite last_cell0. cbn. rewrite decide_False by (rewrite Hop; done). cbn.
  rewrite last_cell0. cbn. eexists. split; [done|]. split; [|done].
  split; cbn [is_queue_locked queue queue_size set_queue set_queue_size].
  - done.
  - by rewrite length_insert.
  - lia.
  - intros i Hi. destruct (decide (i = n)) as [->|].
    + rewrite list_lookup_insert_eq by lia. eauto.
    + rewrite list_lookup_insert_ne by lia. apply last_none0. lia.
Qed.

(** ** Turns *)

(** A system whose thread is alive and whose invariant holds. *)
Definition sys_ok (s : sys (W := W)) (free : list Z) : Prop :=
  alive s = true ∧ ∃ es gids, worker_ok (wk s) free es gids.

(** A turn over requests that were all served only polls. *)
Lemma turn_quiet s free :
  sys_ok s free → is_queue_locked (client s) = false →
  (∀ i, (i < queue_size (client s))%nat → ∃ cell, queue (client s) !! i = Some cell ∧ quiet cell) →
  ∃ w x, pg_thread_turn pg_graph_poll (wk s) (client s) (world s) =
           Some (w, client s, x, true) ∧ polled (wk s) w ∧
           sys_ok (mk_sys w (client s) x true) free.
Proof.
  intros (Ha & es & gids & Hw) Hl Hq. unfold pg_thread_turn. rewrite Hl.
  destruct (queue_size (client s)) as [|n] eqn:E.
  { exists (wk s), (world s). split; [done|]. split; [done|]. split; [done|]. by exists es, gids. }
  rewrite serve_quiet by (intros; apply Hq; lia). cbn.
  destruct (poll_phase_ok (wk s) (world s) _ _ _ Hw) as (w & x & e1 & g1 & -> & F & Hw'). cbn.
  exists w, x. split; [by destruct (client s)|]. split; [done|]. split; [done|]. by exists e1, g1.
Qed.

Lemma turns_quiet n : ∀ s free,
  sys_ok s free → is_queue_locked (client s) = false →
  (∀ i, (i < queue_size (client s))%nat → ∃ cell, queue (client s) !! i = Some cell ∧ quiet cell) →
  ∃ s', turns pg_graph_poll n s = Some s' ∧ client s' = client s ∧ polled (wk s) (wk s') ∧
        sys_ok s' free.
Proof.
  induction n as [|n IH]; intros s free Hs Hl Hq; cbn [turns]; [by exists s|].
  destruct (turn_quiet s free Hs Hl Hq) as (w & x & E & F & Hs').
  destruct Hs as (-> & _). rewrite E. cbn.
  destruct (IH _ free Hs' Hl Hq) as (s' & Hr & Hc & F' & H'). exists s'.
  split; [exact Hr|]. split; [exact Hc|]. split; [|done]. by etrans.
Qed.

(** Over an empty queue nothing happens, and nothing is polled. *)
Lemma turns_empty n s :
  is_queue_locked (client s) = false → queue_size (client s) = 0%nat → alive s = true →
  turns pg_graph_poll n s = Some s.
Proof.
  intros Hl Hz Ha. induction n as [|n IH]; [done|]. cbn [turns]. rewrite Ha.
  unfold pg_thread_turn. rewrite Hl, Hz. cbn. rewrite <- IH at 1. by destruct s; cbn in *; subst.
Qed.

Lemma idle_quiet c i :
  idle c → (i < queue_size c)%nat → ∃ cell, queue c !! i = Some cell ∧ quiet cell.
Proof. intros [] Hi. destruct (idle_none0 i Hi) as (cell & ? & ?). exists cell. by split; [|left]. Qed.

Lemma last_quiet c n cur i :
  last_is c n cur → op cur = PG_THREAD_ANSWER → (i < queue_size c)%nat →
  ∃ cell, queue c !! i = Some cell ∧ quiet cell.
Proof.
  intros [] Ho Hi. destruct (decide (i = n)) as [->|].
  - exists cur. by split; [|right].
  - destruct (last_none0 i) as (cell & ? & ?); [lia|]. exists cell. by split; [|left].
Qed.

(** The request that is served next is answered by the next turn. *)
Lemma turn_answers s n cur w ans free :
  alive s = true → last_is (client s) n cur → serve_op (wk s) cur = Some (w, ans, Next) →
  (∃ es gids, worker_ok w free es gids) →
  ∃ s', turns pg_graph_poll 1 s = Some s' ∧ last_is (client s') n ans ∧ polled w (wk s') ∧
        sys_ok s' free.
Proof.
  intros Ha [] Hop (es & gids & Hw). cbn [turns]. rewrite Ha. unfold pg_thread_turn.
  rewrite last_unlocked0, last_size0, (serve_top n (wk s) _ cur w ans) by
    (try done; intros i Hi; destruct (last_none0 i Hi) as (cell & ? & ?);
     exists cell; by split; [|left]).
  cbn. destruct (poll_phase_ok w (world s) _ _ _ Hw) as (w' & x & e1 & g1 & -> & F & Hw'). cbn.
  eexists. split; [done|]. cbn. split; [|split; [done|split; [done|by exists e1, g1]]].
  split; cbn [is_queue_locked queue queue_size set_queue]; try done.
  - by rewrite length_insert.
  - apply list_lookup_insert_eq. lia.
  - intros i Hi. rewrite list_lookup_insert_ne by lia. auto.
Qed.

Lemma turns_add m n s :
  turns pg_graph_poll (m + n) s = s ← turns pg_graph_poll m s; turns pg_graph_poll n s.
Proof.
  revert s. induction m as [|m IH]; intros s; cbn [turns Nat.add]; [done|].
  destruct (alive s) eqn:Ha; [|destruct n; cbn; by rewrite ?Ha].
  destruct (pg_thread_turn _ _ _ _) as [[[[w c] x] b]|]; cbn; [apply IH|done].
Qed.

(** The answer is there as soon as the thread took a turn. *)
Lemma wait_answer_last sched : ∀ s n cur w ans free,
  Exists (λ k, 0 < k)%nat sched →
  alive s = true → last_is (client s) n cur → op cur ≠ PG_THREAD_NONE →
  op cur ≠ PG_THREAD_ANSWER →
  serve_op (wk s) cur = Some (w, ans, Next) → op ans = PG_THREAD_ANSWER →
  (∃ es gids, worker_ok w free es gids) →
  ∃ s', wait_answer pg_graph_poll sched s n = Done (ans, s') ∧ last_is (client s') n ans ∧
        polled w (wk s') ∧ sys_ok s' free.
Proof.
  induction sched as [|k sched IH]; intros s n cur w ans free Hex Ha Hl Hn Hn' Hop Hans Hw;
    [by apply Exists_nil in Hex|]. cbn [wait_answer].
  destruct k as [|k].
  - cbn. rewrite (last_unlocked _ _ _ Hl). unfold try_get_answer.
    rewrite (last_cell _ _ _ Hl). cbn. rewrite decide_False, decide_False by done. cbn.
    apply Exists_cons in Hex as [?|Hex]; [lia|]. by eapply IH.
  - change (S k) with (1 + k)%nat. rewrite turns_add.
    destruct (turn_answers s n cur w ans free Ha Hl Hop Hw) as (s1 & -> & Hl1 & F1 & H1). cbn.
    destruct (turns_quiet k s1 free H1) as (s2 & -> & Hc & F2 & H2).
    { apply Hl1. } { intros i. by eapply last_quiet. }
    cbn. rewrite <- Hc in Hl1. rewrite (last_unlocked _ _ _ Hl1). unfold try_get_answer.
    rewrite (last_cell _ _ _ Hl1). cbn. rewrite decide_True by done. cbn.
    exists s2. split; [done|]. split; [done|]. split; [by etrans|done].
Qed.

(** A request on an idle queue is enqueued at the first attempt. *)
Lemma wait_enqueue_idle k sched s o a free :
  sys_ok s free → idle (client s) →
  ∃ s' a2, wait_enqueue pg_graph_poll (k :: sched) s o a =
             Done (queue_size (client s), sched, s') ∧
           last_is (client s') (queue_size (client s)) (mk_op o a a2) ∧
           polled (wk s) (wk s') ∧ sys_ok s' free ∧
           (queue_size (client s) = 0%nat → wk s' = wk s).
Proof.
  intros Hs Hi. cbn [wait_enqueue].
  destruct (turns_quiet k s free Hs) as (s1 & Ht & Hc & F & Hs').
  { apply Hi. } { intros i. by apply idle_quiet. }
  assert (Hz : queue_size (client s) = 0%nat → s1 = s).
  { intros Hz. rewrite turns_empty in Ht; [congruence|apply Hi|done|apply Hs]. }
  rewrite Ht. cbn. rewrite Hc, (idle_unlocked _ Hi).
  destruct (enqueue_idle (client s) o a Hi) as (c' & a2 & -> & Hl). cbn.
  destruct (Z.ltb_spec (Z.of_nat (queue_size (client s))) 0); [lia|].
  rewrite Nat2Z.id. exists (set_client s1 c'), a2. split; [done|]. split; [done|].
  split; [done|]. split; [done|]. cbn. intros ?. by rewrite Hz.
Qed.

(** The call of a client on an idle queue: for any schedule in which the thread takes a
    turn after the request, the answer is the one the thread gives in the state it is in
    after some polling. *)
Lemma call_answered k sched s o a free
    (Q : worker → list Z → thread_op → Prop) :
  Exists (λ k, 0 < k)%nat sched → sys_ok s free → idle (client s) →
  o ≠ PG_THREAD_NONE → o ≠ PG_THREAD_ANSWER →
  (∀ w a2 es gids, polled (wk s) w → worker_ok w free es gids →
    (queue_size (client s) = 0%nat → w = wk s) →
    ∃ w' ans free' es' gids', serve_op w (mk_op o a a2) = Some (w', ans, Next) ∧
      op ans = PG_THREAD_ANSWER ∧ worker_ok w' free' es' gids' ∧ Q w' free' ans) →
  ∃ w' ans free' s', let n := queue_size (client s) in
    (∀ done, call pg_graph_poll (k :: sched) s o a done =
       oc_bind (oc_of (done (client s') n)) (λ c, Done (ans, set_client s' c))) ∧
    last_is (client s') n ans ∧ op ans = PG_THREAD_ANSWER ∧
    Q w' free' ans ∧ polled w' (wk s') ∧ sys_ok s' free'.
Proof.
  intros Hex Hs Hi Ho Ho' HQ. unfold call.
  destruct (wait_enqueue_idle k sched s o a free Hs Hi) as (s1 & a2 & -> & Hl & F & H1 & Hw0).
  destruct H1 as (Ha & es & gids & Hw).
  destruct (HQ (wk s1) a2 es gids F Hw Hw0)
    as (w' & ans & free' & es' & gids' & Hop & Hans & Hw' & Hq).
  destruct (wait_answer_last sched s1 _ _ w' ans free' Hex Ha Hl) as (s2 & E & Hl2 & F2 & H2);
    [done..|by exists es', gids'|].
  exists w', ans, free', s2. split; [|done]. intros f. cbn. by rewrite E.
Qed.

Lemma call_idle k sched s o a free
    (Q : worker → list Z → thread_op → Prop) :
  Exists (λ k, 0 < k)%nat sched → sys_ok s free → idle (client s) →
  o ≠ PG_THREAD_NONE → o ≠ PG_THREAD_ANSWER →
  (∀ w a2 es gids, polled (wk s) w → worker_ok w free es gids →
    (queue_size (client s) = 0%nat → w = wk s) →
    ∃ w' ans free' es' gids', serve_op w (mk_op o a a2) = Some (w', ans, Next) ∧
      op ans = PG_THREAD_ANSWER ∧ worker_ok w' free' es' gids' ∧ Q w' free' ans) →
  ∃ w' ans free' s', call pg_graph_poll (k :: sched) s o a take_answer = Done (ans, s') ∧
    Q w' free' ans ∧ polled w' (wk s') ∧ sys_ok s' free' ∧ idle (client s') ∧
    queue_size (client s') = 0%nat.
Proof.
  intros Hex Hs Hi Ho Ho' HQ.
  destruct (call_answered k sched s o a free Q Hex Hs Hi Ho Ho' HQ)
    as (w' & ans & free' & s2 & Hcall & Hl & _ & Hq & F & Hok).
  destruct (take_answer_empties _ _ _ Hl) as (c' & Hc & Hi' & Hz).
  exists w', ans, free', (set_client s2 c'). split; [|done].
  rewrite Hcall, Hc. done.
Qed.

(** Nothing happens to a thread that is stopped and has nothing to serve. *)
Lemma turns_stopped n s :
  alive s = true → state (wk s) = PG_THREAD_STOPPED → idle (client s) →
  turns pg_graph_poll n s = Some s.
Proof.
  intros Ha Hst Hi. induction n as [|n IH]; [done|]. cbn [turns]. rewrite Ha.
  unfold pg_thread_turn. rewrite (idle_unlocked _ Hi).
  destruct (queue_size (client s)) as [|q] eqn:E.
  - cbn. rewrite <- IH at 1. by destruct s; cbn in *; subst.
  - rewrite serve_quiet by (intros; apply idle_quiet; [done|lia]). cbn.
    unfold poll_phase. rewrite decide_True by done. cbn. rewrite <- IH at 1.
    by destruct s as [? [] ? ?]; cbn in *; subst.
Qed.

End Polling.

(** ** The calls *)

Section Calls.

Context {W : Type}.
Context (pg_graph_poll : option addr → W → option (Z * option addr * W)).
Hypothesis poll_total : ∀ g x, is_Some (pg_graph_poll g x).

(** The thread takes a turn between the request and some attempt to read the answer. *)
Definition turn_taken (sched : list nat) : Prop := Exists (λ k, 0 < k)%nat (tail sched).

Lemma turn_taken_cons sched :
  turn_taken sched → ∃ k l, sched = k :: l ∧ Exists (λ k, 0 < k)%nat l.
Proof. destruct sched as [|k l]; [intros H%Exists_nil; done|by exists k, l]. Qed.

(** What a call leaves: an idle, empty queue and the invariant. *)
Definition served_sys (s : sys (W := W)) (free : list Z) : Prop :=
  sys_ok s free ∧ idle (client s) ∧ queue_size (client s) = 0%nat.

Lemma add_graph_answers sched s free g :
  turn_taken sched → sys_ok s free → idle (client s) →
  (free ≠ [] ∨ (last_graph (wk s) < PG_STACK_BLOCK_SIZE)%nat) →
  ∃ i s', pg_thread_add_graph pg_graph_poll sched s (Some g) = Done (Z.of_nat i, s') ∧
    ¬ in_use (wk s) free i ∧ graphs (wk s') = <[i := Some g]> (graphs (wk s)) ∧
    (i < PG_STACK_BLOCK_SIZE)%nat ∧
    (∀ j, in_use (wk s') (tail free) j ↔ j = i ∨ in_use (wk s) free j) ∧
    served_sys s' (tail free).
Proof.
  intros (k & l & -> & Hex)%turn_taken_cons Hs Hi Hroom.
  destruct (call_idle pg_graph_poll poll_total k l s PG_THREAD_ADD_GRAPH (ArgPtr (Some g)) free
    (λ w' free' ans, free' = tail free ∧ ∃ i, arg ans = ArgInt (Z.of_nat i) ∧
       ¬ in_use (wk s) free i ∧ graphs w' = <[i := Some g]> (graphs (wk s)) ∧
       (i < PG_STACK_BLOCK_SIZE)%nat ∧
       (∀ j, in_use w' (tail free) j ↔ j = i ∨ in_use (wk s) free j)) Hex Hs Hi)
    as (w' & ans & ? & s' & Hcall & (-> & i & Harg & Hn & Hg & Hlt & Hu) & [[Fg Fl Ff] _] & H1 & H2 & H3);
    [done|done| |].
  - intros w a2 es gids [[Fg Fl Ff] _] Hw _.
    destruct (serve_add w free es gids (Some g) a2 Hw) as (i & w1 & Hop & Hn & Hg & Hlt & Hw1 & Hu).
    { by rewrite Fl. }
    exists w1, (mk_op PG_THREAD_ANSWER (ArgInt (Z.of_nat i)) a2), (tail free), es, gids.
    split; [done|]. split; [done|]. split; [done|]. split; [done|]. exists i.
    split; [done|]. unfold in_use in *. rewrite <- Fl, <- Fg. auto.
  - exists i, s'. cbn. rewrite Hcall. cbn. rewrite Harg. cbn. split; [done|]. split; [done|].
    split; [congruence|]. split; [done|]. split; [|done].
    intros j. unfold in_use in *. by rewrite Fl.
Qed.

Lemma pop_graph_answers sched s free i g :
  turn_taken sched → sys_ok s free → idle (client s) →
  in_use (wk s) free i → graphs (wk s) !! i = Some g →
  ∃ s', pg_thread_pop_graph pg_graph_poll sched s (Z.of_nat i) = Done (g, s') ∧
    graphs (wk s') = graphs (wk s) ∧
    (∀ j, in_use (wk s') (Z.of_nat i :: free) j ↔ j ≠ i ∧ in_use (wk s) free j) ∧
    served_sys s' (Z.of_nat i :: free).
Proof.
  intros (k & l & -> & Hex)%turn_taken_cons Hs Hi Hin Hg.
  destruct (call_idle pg_graph_poll poll_total k l s PG_THREAD_RM_GRAPH (ArgInt (Z.of_nat i)) free
    (λ w' free' ans, free' = Z.of_nat i :: free ∧ arg ans = ArgPtr g ∧
       graphs w' = graphs (wk s) ∧
       (∀ j, in_use w' (Z.of_nat i :: free) j ↔ j ≠ i ∧ in_use (wk s) free j)) Hex Hs Hi)
    as (w' & ans & ? & s' & Hcall & (-> & Harg & Hgs & Hu) & [[Fg Fl Ff] _] & H1 & H2 & H3);
    [done|done| |].
  - intros w a2 es gids [[Fg Fl Ff] _] Hw _.
    destruct (serve_rm w free es gids i g a2 Hw) as (w1 & Hop & Hgs & Hw1 & _ & Hu).
    { unfold in_use in *. by rewrite Fl. } { by rewrite Fg. }
    exists w1, (mk_op PG_THREAD_ANSWER (ArgPtr g) a2), (Z.of_nat i :: free), es, gids.
    split; [done|]. split; [done|]. split; [done|]. split; [done|].
    split; [done|]. unfold in_use in *. rewrite <- Fl, <- Fg. auto.
  - exists s'. unfold pg_thread_pop_graph. rewrite Hcall. cbn. rewrite Harg. cbn.
    split; [done|]. split; [congruence|]. split; [|done].
    intros j. unfold in_use in *. by rewrite Fl.
Qed.


(** On an idle, empty queue [pg_thread_pop_error] gives the error that was pushed
    last, the graph it comes from and the number of errors left; with no error it gives
    -1 and -1. *)
Theorem thread_pop_error_last sched s free es gids :
  turn_taken sched → alive s = true → worker_ok (wk s) free es gids → idle (client s) →
  queue_size (client s) = 0%nat →
  (∀ g, g ∈ gids → 0 ≤ g) →
  ∃ s', pg_thread_pop_error pg_graph_poll sched s =
          Done (match es with [] => -1 | _ => Z.of_nat (length es) - 1 end,
                default (-1) (head gids), default None (head es), s') ∧
        served_sys s' free.
Proof.
  intros (k & l & -> & Hex)%turn_taken_cons Ha Hw Hi Hz Hg.
  destruct (call_idle pg_graph_poll poll_total k l s PG_THREAD_POP_ERROR NULL free
    (λ w' free' ans, free' = free ∧ arg ans = ArgPtr (default None (head es)) ∧
       arg2 ans = (default (-1) (head gids), Z.of_nat (length (tail gids)))) Hex)
    as (w' & ans & ? & s' & Hcall & (-> & Harg & Harg2) & F & H1 & H2 & H3).
  - split; [done|]. by exists es, gids.
  - done.
  - done.
  - done.
  - intros w a2 es' gids' _ _ ->; [|done].
    destruct (serve_pop_error (wk s) free es gids a2 Hw) as (w1 & Hop & _ & Hw1).
    exists w1. eexists _, free, (tail es), (tail gids). split; [exact Hop|]. by split.
  - exists s'. unfold pg_thread_pop_error. rewrite Hcall. cbn. rewrite Harg, Harg2. cbn.
    split; [|done]. repeat f_equal. pose proof (ok_errors_gids _ _ _ _ Hw) as Hlen.
    destruct es as [|e es], gids as [|g gids]; try done; cbn in *.
    destruct (Z.ltb_spec g 0) as [Hneg|_]; [|lia].
    pose proof (Hg g ltac:(left)). lia.
Qed.

Lemma serve_stop w free es gids a2 :
  worker_ok w free es gids →
  ∃ w', serve_op w (mk_op PG_THREAD_STOP NULL a2) =
          Some (w', mk_op PG_THREAD_ANSWER NULL a2, Next) ∧
        worker_ok w' free es gids ∧ state w' = PG_THREAD_STOPPED.
Proof. intros []. eexists. split; [done|]. by split. Qed.

Lemma state_answers sched s free :
  turn_taken sched → sys_ok s free → idle (client s) →
  ∃ st s', pg_thread_state_ pg_graph_poll sched s = Done (st, s') ∧ served_sys s' free ∧
    (state (wk s) = PG_THREAD_STOPPED ∨ queue_size (client s) = 0%nat → st = state (wk s)).
Proof.
  intros (k & l & -> & Hex)%turn_taken_cons Hs Hi.
  destruct (call_idle pg_graph_poll poll_total k l s PG_THREAD_STATE NULL free
    (λ w' free' ans, free' = free ∧ ∃ st, arg ans = ArgState st ∧
       (state (wk s) = PG_THREAD_STOPPED ∨ queue_size (client s) = 0%nat → st = state (wk s)))
    Hex Hs Hi)
    as (w' & ans & ? & s' & Hcall & (-> & st & Harg & Hst) & F & H1 & H2 & H3); [done|done| |].
  - intros w a2 es gids Hp Hw Hz. exists w. eexists _, free, es, gids. split; [done|].
    split; [done|]. split; [done|]. split; [done|]. exists (state w). split; [done|].
    intros Hst. f_equal. destruct Hst; [by apply Hp|auto].
  - exists st, s'. unfold pg_thread_state_. rewrite Hcall. cbn. by rewrite Harg.
Qed.

(** [pg_thread_stop] on an idle queue returns 0, under any schedule in which the
    thread takes a turn; from then on no number of turns polls a graph, and
    [pg_thread_state] tells that the thread is stopped. *)
Theorem thread_stop_stops sched sched' s free :
  turn_taken sched → turn_taken sched' → sys_ok s free → idle (client s) →
  (queue_size (client s) + 2 < PG_THREAD_MAX_OP)%nat →
  ∃ s1 s2, pg_thread_stop pg_graph_poll sched s = Done (0, s1) ∧
    (∀ n, turns pg_graph_poll n s1 = Some s1) ∧
    pg_thread_state_ pg_graph_poll sched' s1 = Done (PG_THREAD_STOPPED, s2) ∧
    served_sys s2 free.
Proof.
  intros (k & l & -> & Hex)%turn_taken_cons Hs2 Hs Hi Hroom.
  destruct (call_answered pg_graph_poll poll_total k l s PG_THREAD_STOP NULL free
    (λ w' free' ans, free' = free ∧ state w' = PG_THREAD_STOPPED) Hex Hs Hi)
    as (w' & ans & ? & s1 & Hcall & Hl & Hans & (-> & Hst) & F & Hok); [done|done| |].
  - intros w a2 es gids _ Hw _.
    destruct (serve_stop w free es gids a2 Hw) as (w1 & Hop & Hw1 & Hst).
    exists w1. eexists _, free, es, gids. split; [exact Hop|]. by split.
  - destruct (take_stop_answer_idle _ _ _ Hl Hans Hroom) as (c' & Hc & Hi' & Hz).
    assert (Hwk : wk s1 = w') by (by apply F).
    destruct (state_answers sched' (set_client s1 c') free) as (st & s2 & Hr & Hok2 & Hst2);
      [done|done|done|].
    assert (st = PG_THREAD_STOPPED) as -> by (rewrite Hst2; cbn; [|left]; congruence).
    exists (set_client s1 c'), s2. unfold pg_thread_stop. rewrite Hcall, Hc. cbn.
    split; [done|]. split; [|done].
    intros n. apply turns_stopped; [apply Hok|cbn; congruence|done].
Qed.

(** [pg_thread_state] empties an idle queue, and over an empty queue no number of
    turns polls a graph, even when the thread is running: only a later request makes it
    poll again. *)
Theorem thread_empty_queue_never_polls sched s free :
  turn_taken sched → sys_ok s free → idle (client s) →
  ∃ st s', pg_thread_state_ pg_graph_poll sched s = Done (st, s') ∧
           (queue_size (client s) = 0%nat → st = state (wk s)) ∧
           ∀ n, turns pg_graph_poll n s' = Some s'.
Proof.
  intros Ht Hs Hi.
  destruct (state_answers sched s free Ht Hs Hi) as (st & s' & Hr & (Hok & Hi' & Hz') & Hst).
  exists st, s'. split; [done|]. split; [auto|].
  intros n. apply turns_empty; [apply Hi'|done|apply Hok].
Qed.

End Calls.

(** ** Graphs that fail *)

Section Failing.

(** A graph either fails at each poll or never does; the world is the list of the graphs
    that were polled. *)
Context (fails : option addr → bool) (err : option addr → option addr).

Definition log_poll (g : option addr) (x : list (option addr))
    : option (Z * option addr * list (option addr)) :=
  Some (if fails g then -1 else 0, err g, x ++ [g]).

Lemma log_poll_total g x : is_Some (log_poll g x).
Proof. done. Qed.

(** The graphs that run, by slot. *)
Fixpoint running_from (i n : nat) (w : worker) : list (option addr) :=
  match n with
  | O => []
  | S n =>
      match started w !! i, graphs w !! i with
      | Some (Some PG_THREAD_RUNNING), Some g => g :: running_from (S i) n w
      | _, _ => running_from (S i) n w
      end
  end.
Definition running (w : worker) : list (option addr) := running_from 0 (last_graph w) w.

Definition fails_at (w : worker) (j : nat) : bool :=
  match graphs w !! j with Some g => fails g | None => false end.

(** What [started] becomes after the slots from [i] on were polled. *)
Definition after_poll (i n : nat) (w w' : worker) : Prop :=
  ∀ j, started w' !! j =
    if decide ((i ≤ j < i + n)%nat ∧ started w !! j = Some (Some PG_THREAD_RUNNING) ∧
               fails_at w j = true)
    then Some (Some PG_THREAD_BROKEN) else started w !! j.

Lemma running_from_ext i n w w' :
  graphs w' = graphs w → (∀ j, (i ≤ j)%nat → started w' !! j = started w !! j) →
  running_from i n w' = running_from i n w.
Proof.
  intros Hg. revert i. induction n as [|n IH]; intros i Hs; [done|]. cbn.
  rewrite Hg, Hs by lia. rewrite IH by (intros; apply Hs; lia). done.
Qed.

Lemma running_after i n k w w' :
  graphs w' = graphs w → (k ≤ i)%nat → after_poll k (i + n - k) w w' →
  running_from i n w' = filter (λ g, fails g = false) (running_from i n w).
Proof.
  intros Hg. revert i. induction n as [|n IH]; intros i Hk Ha; [done|]. cbn.
  rewrite (IH (S i)) by (try lia; by replace (S i + n - k)%nat with (i + S n - k)%nat by lia).
  rewrite Hg, (Ha i). unfold fails_at. clear IH.
  destruct (started w !! i) as [[[]|]|]; try (rewrite decide_False by naive_solver; done).
  destruct (graphs w !! i) as [g|] eqn:Eg; [|rewrite decide_False by naive_solver; done].
  rewrite filter_cons. destruct (fails g) eqn:Ef.
  - rewrite decide_True by (split; [lia|done]). by rewrite decide_False by done.
  - rewrite decide_False by naive_solver. by rewrite decide_True by done.
Qed.

Lemma poll_graphs_log n : ∀ i w x free es gids,
  worker_ok w free es gids → (i + n ≤ last_graph w)%nat →
  ∃ w' es' gids', poll_graphs log_poll i n w x = Some (w', x ++ running_from i n w) ∧
    frame w w' ∧ worker_ok w' free es' gids' ∧ after_poll i n w w'.
Proof.
  induction n as [|n IH]; intros i w x free es gids Hw Hn.
  { exists w, es, gids. cbn. rewrite app_nil_r. split; [done|]. split; [done|]. split; [done|].
    intros j. by rewrite decide_False by lia. }
  destruct (ok_written _ _ _ _ Hw i) as [st Hst]; [lia|].
  destruct (lookup_lt_is_Some_2 (graphs w) i) as [g Hg].
  { rewrite (ok_graphs _ _ _ _ Hw). pose proof (ok_last _ _ _ _ Hw). lia. }
  assert (Hskip : ∀ w' , after_poll (S i) n w w' →
    (st = PG_THREAD_RUNNING → fails g = false) → after_poll i (S n) w w').
  { intros w' Ha Hs j. rewrite (Ha j). unfold fails_at.
    destruct (decide (j = i)) as [->|]; [|apply decide_ext; intuition lia].
    rewrite decide_False, decide_False; [done| |lia]. rewrite Hst, Hg.
    intros (_ & [= ->] & Hf). by rewrite Hs in Hf. }
  cbn [poll_graphs running_from]. rewrite Hst, Hg. cbn [mbind option_bind].
  destruct (decide (st = PG_THREAD_RUNNING)) as [->|Hne].
  2:{ destruct (IH (S i) w x _ _ _ Hw) as (w' & es' & gids' & Hp & Hf & Hw' & Ha); [lia|].
      exists w', es', gids'. split; [by destruct st|]. split; [done|]. split; [done|].
      by apply Hskip. }
  cbn [log_poll mbind option_bind].
  replace (x ++ g :: running_from (S i) n w) with ((x ++ [g]) ++ running_from (S i) n w)
    by (by rewrite <- app_assoc).
  destruct (fails g) eqn:Ef; cbn [Z.ltb Z.compare].
  2:{ destruct (IH (S i) w (x ++ [g]) _ _ _ Hw) as (w' & es' & gids' & Hp & Hf & Hw' & Ha); [lia|].
      exists w', es', gids'. split; [exact Hp|]. split; [done|]. split; [done|]. by apply Hskip. }
  destruct (stack_push_repr _ _ (err g) (ok_errors _ _ _ _ Hw)) as (es1 & He & _).
  destruct (stack_push_repr _ _ (Z.of_nat i) (ok_gids _ _ _ _ Hw)) as (g1 & Hg1 & _).
  rewrite He. cbn [mbind option_bind]. rewrite Hg1. cbn [mbind option_bind].
  pose proof (broken_ok _ _ _ _ _ _ _ _ Hw Hst He Hg1) as Hw1.
  set (w1 := set_started _ _) in *.
  destruct (IH (S i) w1 (x ++ [g]) _ _ _ Hw1) as (w' & es' & gids' & Hp & Hf & Hw' & Ha);
    [cbn; lia|].
  exists w', es', gids'. split; [|split; [by destruct Hf; split|split; [done|]]].
  - etrans; [exact Hp|]. do 3 f_equal. apply running_from_ext; [done|].
    intros j Hj. cbn. by rewrite list_lookup_insert_ne by lia.
  - intros j. rewrite (Ha j). unfold fails_at. cbn. destruct (decide (j = i)) as [->|].
    + rewrite decide_False by lia. rewrite decide_True by (rewrite Hst, Hg; split; [lia|done]).
      apply list_lookup_insert_eq. apply lookup_lt_Some in Hst. done.
    + rewrite list_lookup_insert_ne by done. apply decide_ext. intuition lia.
Qed.

Lemma running_from_elem i n w j g :
  (i ≤ j < i + n)%nat → started w !! j = Some (Some PG_THREAD_RUNNING) → graphs w !! j = Some g →
  g ∈ running_from i n w.
Proof.
  revert i. induction n as [|n IH]; intros i Hj Hs Hg; [lia|]. cbn.
  destruct (decide (i = j)) as [->|]; [rewrite Hs, Hg; left|].
  specialize (IH (S i) ltac:(lia) Hs Hg).
  destruct (started w !! i) as [[[]|]|]; try done. destruct (graphs w !! i); [by right|done].
Qed.

Lemma no_failure w j :
  filter (λ g, fails g = false) (running w) = running w → (0 ≤ j < 0 + last_graph w)%nat →
  started w !! j = Some (Some PG_THREAD_RUNNING) → fails_at w j = true → False.
Proof.
  unfold fails_at. intros Hh Hj Hs Hf. destruct (graphs w !! j) as [g|] eqn:Hg; [|done].
  pose proof (running_from_elem 0 _ w j g Hj Hs Hg) as Hin.
  fold (running w) in Hin. rewrite <- Hh, list_elem_of_filter in Hin.
  destruct Hin as [? _]. congruence.
Qed.

(** Rounds in which no graph fails change nothing. *)
Lemma rounds_healthy n : ∀ w x free es gids,
  worker_ok w free es gids → filter (λ g, fails g = false) (running w) = running w →
  ∃ w', poll_rounds log_poll n w x = Some (w', x ++ concat (replicate n (running w))) ∧
        running w' = running w ∧ started w' = started w.
Proof.
  induction n as [|n IH]; intros w x free es gids Hw Hh.
  { exists w. cbn. by rewrite app_nil_r. }
  cbn [poll_rounds].
  destruct (poll_graphs_log (last_graph w) 0 w x _ _ _ Hw) as (w1 & e1 & g1 & -> & F1 & Hw1 & Ha);
    [lia|]. cbn [mbind option_bind fst snd]. fold (running w).
  assert (Hs1 : started w1 = started w).
  { apply list_eq. intros j. rewrite (Ha j). case_decide as Hd; [|done].
    destruct Hd as (Hj & Hr & Hf). exfalso. by eapply no_failure. }
  assert (Hr1 : running w1 = running w).
  { unfold running. rewrite (fr_last _ _ F1). apply running_from_ext; [apply F1|].
    intros. by rewrite Hs1. }
  destruct (IH w1 (x ++ running w) free e1 g1 Hw1) as (w2 & Hr & H1 & H2); [by rewrite Hr1|].
  exists w2. rewrite Hr, Hr1. cbn. rewrite <- app_assoc. split; [done|]. split; congruence.
Qed.

Lemma poll_rounds_S n w x :
  poll_rounds log_poll (S n) w x =
    r ← poll_graphs log_poll 0 (last_graph w) w x; poll_rounds log_poll n (fst r) (snd r).
Proof. done. Qed.

(** In a poll phase of a thread that is not stopped every graph that runs is polled in
    the order of the slots; a graph that fails is marked as broken and is not polled
    again, and those that do not fail are polled in each of the 32 rounds. *)
Theorem poll_phase_isolates_failures w x free es gids :
  worker_ok w free es gids → state w ≠ PG_THREAD_STOPPED →
  let healthy := filter (λ g, fails g = false) (running w) in
  ∃ w', poll_phase log_poll w x =
      Some (w', x ++ running w ++ concat (replicate 31 healthy)) ∧
    running w' = healthy ∧
    (∀ j, (j < last_graph w)%nat → started w !! j = Some (Some PG_THREAD_RUNNING) →
      fails_at w j = true → started w' !! j = Some (Some PG_THREAD_BROKEN)).
Proof.
  intros Hw Hst healthy. unfold poll_phase. rewrite decide_False by done.
  rewrite (poll_rounds_S 31).
  destruct (poll_graphs_log (last_graph w) 0 w x _ _ _ Hw) as (w1 & e1 & g1 & -> & F1 & Hw1 & Ha);
    [lia|]. cbn [mbind option_bind fst snd]. fold (running w).
  assert (Hh : running w1 = healthy).
  { unfold running. rewrite (fr_last _ _ F1). apply running_after with 0%nat; [apply F1|lia|].
    by replace (0 + last_graph w - 0)%nat with (last_graph w) by lia. }
  assert (Hok : filter (λ g, fails g = false) healthy = healthy).
  { unfold healthy. rewrite list_filter_filter. apply list_filter_iff. naive_solver. }
  destruct (rounds_healthy 31 w1 (x ++ running w) free e1 g1 Hw1) as (w2 & Hr & Hrun & Hs).
  { by rewrite Hh. }
  exists w2. rewrite Hr, Hh, <- app_assoc. split; [done|].
  split; [congruence|].
  intros j Hj Hrj Hfj. rewrite Hs, Ha, decide_True; [done|]. split; [lia|done].
Qed.

End Failing.

(** ** A queue that is full *)

Section Full.

Context {W : Type}.
Context (pg_graph_poll : option addr → W → option (Z * option addr * W)).

Lemma turn_size w c x w' c' x' b :
  pg_thread_turn pg_graph_poll w c x = Some (w', c', x', b) → queue_size c' = queue_size c.
Proof.
  unfold pg_thread_turn. destruct (is_queue_locked c).
  { destruct (poll_phase _ _ _) as [[]|]; cbn; [|done]. by intros ?; simplify_eq. }
  destruct (queue_size c) as [|n] eqn:E; [intros ?; by simplify_eq|].
  destruct (serve _ _ _) as [[[w1 q] []]|]; cbn; [| | |done].
  - destruct (poll_phase _ _ _) as [[]|]; cbn; [|done]. by intros ?; simplify_eq.
  - by intros ?; simplify_eq.
  - by intros ?; simplify_eq.
Qed.

Lemma turns_size n : ∀ (s s' : sys (W := W)),
  turns pg_graph_poll n s = Some s' → queue_size (client s') = queue_size (client s).
Proof.
  induction n as [|n IH]; intros s s'; cbn [turns]; [by intros ?; simplify_eq|].
  destruct (alive s); [|by intros ?; simplify_eq].
  destruct (pg_thread_turn _ _ _ _) as [[[[w c] x] b]|] eqn:E; cbn; [|done].
  intros ->%IH. cbn. by eapply turn_size.
Qed.

(** The thread never shrinks its queue, so once 127 requests that need no answer
    ([pg_thread_run], [pg_thread_force_start_graph]) fill it, no request is ever enqueued
    again, whatever the schedule. *)
Theorem thread_full_queue_blocks sched s o a r :
  (queue_size (client s) + 1 = PG_THREAD_MAX_OP)%nat →
  wait_enqueue pg_graph_poll sched s o a ≠ Done r.
Proof.
  revert s. induction sched as [|n sched IH]; intros s Hs; cbn [wait_enqueue]; [done|].
  destruct (turns pg_graph_poll n s) as [s1|] eqn:E; [|done]. cbn.
  apply turns_size in E. destruct (is_queue_locked (client s1)); [apply IH; lia|].
  unfold enqueue. rewrite E, (proj2 (Nat.eqb_eq _ _) Hs). cbn. apply IH. lia.
Qed.

End Full.

(** ** The threads of the process *)

Lemma sorted_nodup (l : list Z) : StronglySorted Z.lt l → NoDup l.
Proof.
  induction 1 as [|z l _ IH Hz]; constructor; [|done].
  intros Hin. rewrite Forall_forall in Hz. specialize (Hz z Hin). lia.
Qed.

Lemma head_filter_lt a l1 z l2 :
  (∀ x, x ∈ l1 → x ≤ a) → a < z → head (filter (λ y, a < y) (l1 ++ z :: l2)) = Some z.
Proof.
  intros H Hz. induction l1 as [|x l1 IH]; cbn [app]; rewrite filter_cons.
  - by rewrite decide_True by done.
  - rewrite decide_False by (specialize (H x ltac:(left)); lia). apply IH.
    intros y Hy. apply H. by right.
Qed.

(** The elements of a sorted list are at most its last one. *)
Lemma sorted_last d l x : StronglySorted Z.lt l → x ∈ l → x ≤ default d (last l).
Proof.
  induction l as [|y l _] using rev_ind; [by intros _ ?%elem_of_nil|].
  rewrite last_snoc. cbn. intros Hs [Hx|Hx]%elem_of_app;
    [|apply list_elem_of_singleton in Hx as ->; lia].
  pose proof (StronglySorted_app_1_elem_of _ _ _ x y Hs Hx ltac:(left)). lia.
Qed.

Section Pool.

Context (RTE_MAX_LCORE : nat) (rte_lcore_count : Z) (rte_get_next_lcore : Z → Z).
(** The lcores other than the master, in order. *)
Context (slaves : list Z).
Hypothesis slaves_sorted : StronglySorted Z.lt slaves.
Hypothesis slaves_range : ∀ z, z ∈ slaves → 0 < z < Z.of_nat (PG_THREAD_MAX RTE_MAX_LCORE).
Hypothesis lcore_count : rte_lcore_count = Z.of_nat (length slaves) + 1.
(** [rte_get_next_lcore]: the first lcore after the one that is given. *)
Hypothesis next_lcore : ∀ i,
  rte_get_next_lcore i = default (Z.of_nat RTE_MAX_LCORE) (head (filter (λ z, i < z) slaves)).

(** The identifiers of the threads that were launched and not destroyed. *)
Definition live (t : threads) (z : Z) : Prop :=
  ∃ c, cell_at (thread_ids t) z = Some (Some c).

(** Of the first [k] lcores, the ones in [used] have a thread and the others are free. *)
Record pool_ok (t : threads) (used free : list Z) (k : nat) : Prop := {
  po_ids : length (thread_ids t) = PG_THREAD_MAX RTE_MAX_LCORE;
  po_live : ∀ z, live t z ↔ z ∈ used;
  po_split : used ++ free ≡ₚ take k slaves;
  po_k : (k ≤ length slaves)%nat;
  po_free : repr (free_thread_ids t) free;
  po_limit : limit (free_thread_ids t) = 0%nat;
  po_last : last_thread_id t = default 0 (last (take k slaves));
  po_nb : nb_thread_id_used t = Z.of_nat (length used);
}.

Lemma slaves_nodup : NoDup slaves.
Proof. by apply sorted_nodup. Qed.

Lemma slaves_short :
  (length slaves ≤ PG_THREAD_MAX RTE_MAX_LCORE)%nat ∧ (length slaves ≤ PG_STACK_BLOCK_SIZE)%nat.
Proof.
  assert (Hsub : slaves ⊆+ seqZ 1 (Z.of_nat (PG_THREAD_MAX RTE_MAX_LCORE) - 1)).
  { apply NoDup_submseteq; [apply slaves_nodup|]. intros z Hz%slaves_range.
    apply elem_of_seqZ. lia. }
  apply submseteq_length in Hsub. rewrite length_seqZ in Hsub.
  unfold PG_THREAD_MAX in *. lia.
Qed.

Lemma s16_small z : 0 ≤ z ≤ Z.of_nat PG_STACK_BLOCK_SIZE → s16 z = z.
Proof. unfold s16, PG_STACK_BLOCK_SIZE. intros. rewrite Z.mod_small; lia. Qed.

Lemma max_is t : pg_thread_max RTE_MAX_LCORE rte_lcore_count t =
  (Z.of_nat (length slaves), mk_threads (thread_ids t) (free_thread_ids t)
     (Z.of_nat (length slaves)) (last_thread_id t) (nb_thread_id_used t)).
Proof.
  unfold pg_thread_max. destruct slaves_short as [H1 H2].
  rewrite lcore_count, Z.add_simpl_r, s16_small by lia.
  by destruct (Z.ltb_spec (Z.of_nat (PG_THREAD_MAX RTE_MAX_LCORE)) (Z.of_nat (length slaves)));
    [lia|].
Qed.

(** The next lcore after the first [k] ones. *)
Lemma next_is k z :
  slaves !! k = Some z → rte_get_next_lcore (default 0 (last (take k slaves))) = z.
Proof.
  intros Hz. rewrite next_lcore. pose proof slaves_sorted as Hs.
  pose proof (take_drop_middle _ _ _ Hz) as Hd. rewrite <- Hd in Hs.
  rewrite <- Hd at 2. rewrite head_filter_lt; [done| |].
  - intros x Hx. apply sorted_last; [|done]. by apply StronglySorted_app_1_l in Hs.
  - destruct (last (take k slaves)) as [y|] eqn:E; cbn.
    + apply (StronglySorted_app_1_elem_of _ _ _ y z Hs); [|left].
      by apply last_Some_elem_of.
    + apply slaves_range. by apply list_elem_of_lookup_2 in Hz.
Qed.

(** Threads are launched on lcores that have none. *)
Lemma launch_live t ids z c :
  put_cell (thread_ids t) z (Some c) = Some ids → ∀ fr tm l nb y,
  live (mk_threads ids fr tm l nb) y ↔ y = z ∨ live t y.
Proof.
  unfold put_cell, live, cell_at. destruct (Z.ltb_spec z 0); [done|].
  destruct (thread_ids t !! Z.to_nat z) eqn:E; [|done]. cbn. intros [= <-] fr tm l nb y. cbn.
  destruct (Z.ltb_spec y 0).
  { split; [by intros [??]|]. intros [->|[??]]; [lia|done]. }
  destruct (decide (y = z)) as [->|].
  - rewrite list_lookup_insert_eq by (by eapply lookup_lt_Some). naive_solver.
  - rewrite list_lookup_insert_ne by lia. naive_solver.
Qed.

Lemma retire_live t ids z :
  put_cell (thread_ids t) z None = Some ids → ∀ fr tm l nb y,
  live (mk_threads ids fr tm l nb) y ↔ y ≠ z ∧ live t y.
Proof.
  unfold put_cell, live, cell_at. destruct (Z.ltb_spec z 0); [done|].
  destruct (thread_ids t !! Z.to_nat z) eqn:E; [|done]. cbn. intros [= <-] fr tm l nb y. cbn.
  destruct (Z.ltb_spec y 0); [naive_solver|].
  destruct (decide (y = z)) as [->|].
  - rewrite list_lookup_insert_eq by (by eapply lookup_lt_Some). naive_solver.
  - rewrite list_lookup_insert_ne by lia. naive_solver.
Qed.

Lemma put_slave (ids : list (option pg_thread_client)) z c :
  length ids = PG_THREAD_MAX RTE_MAX_LCORE → z ∈ slaves →
  ∃ ids', put_cell ids z c = Some ids' ∧ length ids' = length ids.
Proof.
  intros Hl Hz%slaves_range. rewrite <- (Z2Nat.id z) by lia.
  rewrite put_cell_nat by lia. eexists. split; [done|]. apply length_insert.
Qed.

Notation init := (pg_thread_init RTE_MAX_LCORE rte_lcore_count rte_get_next_lcore).

(** The launch of a thread on [z], from the pool [used ++ free] to the first [k'] lcores. *)
Lemma launch_ok t used free k z fr free' k' :
  pool_ok t used free k → z ∈ slaves → repr fr free' → limit fr = 0%nat →
  z :: used ++ free' ≡ₚ take k' slaves → (k' ≤ length slaves)%nat →
  ∃ ids, put_cell (thread_ids t) z (Some client_new) = Some ids ∧
    pool_ok (mk_threads ids fr (Z.of_nat (length slaves)) (default 0 (last (take k' slaves)))
               (s16 (nb_thread_id_used t + 1))) (z :: used) free' k'.
Proof.
  intros [] Hz Hfr Hlim Hp Hk.
  destruct (put_slave (thread_ids t) z (Some client_new) po_ids0 Hz) as (ids & Hids & Hlen).
  exists ids. split; [done|]. split; cbn [thread_ids free_thread_ids last_thread_id
    nb_thread_id_used]; try done; [congruence| |].
  - intros y. rewrite (launch_live t ids z client_new Hids), elem_of_cons. by rewrite po_live0.
  - rewrite po_nb0, s16_small; [cbn; lia|]. apply Permutation_length in Hp.
    cbn in Hp. rewrite length_app, length_take in Hp. pose proof slaves_short. lia.
Qed.

Lemma pool_nodup t used free k : pool_ok t used free k → NoDup (used ++ free).
Proof.
  intros []. rewrite po_split0. apply (proj1 (NoDup_app (take k slaves) (drop k slaves))).
  rewrite take_drop. apply slaves_nodup.
Qed.

Lemma pool_slaves t used free k z : pool_ok t used free k → z ∈ used ++ free → z ∈ slaves.
Proof.
  intros [] Hz. rewrite po_split0 in Hz. rewrite <- (take_drop k slaves).
  apply elem_of_app. by left.
Qed.

Lemma init_fresh t used free k :
  pool_ok t used free k → (length used < length slaves)%nat →
  ∃ z t' free' k', init t = Some (z, t') ∧ z ∈ slaves ∧ z ∉ used ∧
    pool_ok t' (z :: used) free' k' ∧ threads_max t' = Z.of_nat (length slaves).
Proof.
  intros Hok Hlt. pose proof Hok as []. pose proof (pool_nodup _ _ _ _ Hok) as Hnd.
  unfold pg_thread_init. destruct free as [|z free].
  - rewrite (stack_pop_nil _ (-1) po_free0). cbn -[put_cell pg_thread_max]. rewrite !max_is.
    cbn -[put_cell]. rewrite app_nil_r in *.
    assert (Hk : length used = k).
    { apply Permutation_length in po_split0. rewrite length_take in po_split0. lia. }
    destruct (lookup_lt_is_Some_2 slaves k) as [z Hz]; [lia|].
    pose proof (list_elem_of_lookup_2 _ _ _ Hz) as Hin.
    destruct (Z.ltb_spec (Z.of_nat (length slaves)) (nb_thread_id_used t + 1)); [lia|].
    rewrite po_last0, (next_is k z Hz).
    destruct (launch_ok t used [] k z (free_thread_ids t) [] (S k) Hok Hin)
      as (ids & -> & Hok'); [done|done| |lia|].
    { rewrite app_nil_r, po_split0, (take_S_r _ _ _ Hz). apply Permutation_cons_append. }
    rewrite (take_S_r _ _ _ Hz), last_snoc in Hok'. cbn [default from_option id] in Hok'.
    assert (z ∉ used).
    { rewrite po_split0. intros (i & Hi & Hlk)%elem_of_take.
      pose proof (NoDup_lookup _ _ _ _ slaves_nodup Hz Hi). lia. }
    eexists z, _, [], (S k). split; [done|]. split; [done|]. split; [done|].
    split; [|done]. rewrite s16_small; [done|].
    pose proof slaves_short. pose proof (slaves_range z Hin). unfold PG_THREAD_MAX in *. lia.
  - destruct (stack_pop_cons _ (-1) z free po_free0) as (fr & -> & Hfr & Hlim).
    cbn -[put_cell pg_thread_max]. rewrite !max_is. cbn -[put_cell].
    assert (Hin : z ∈ slaves).
    { apply (pool_slaves _ _ _ _ z Hok). apply elem_of_app. right. left. }
    pose proof (slaves_range z Hin). destruct (Z.eqb_spec z (-1)); [lia|].
    destruct (launch_ok t used (z :: free) k z fr free k Hok Hin Hfr) as (ids & -> & Hok');
      [congruence|by rewrite <- po_split0, Permutation_middle|done|].
    rewrite <- po_last0 in Hok'. cbn. eexists z, _, free, k. split; [done|]. split; [done|].
    split; [|done]. apply NoDup_app in Hnd as (_ & Hd & _). intros Hu. apply (Hd z Hu). left.
Qed.

Lemma init_full t used free k :
  pool_ok t used free k → length used = length slaves →
  ∃ t', init t = Some (-1, t') ∧ pool_ok t' used free k.
Proof.
  intros Hok Hl. pose proof Hok as []. pose proof (Permutation_length po_split0) as Hp.
  rewrite length_app, length_take in Hp. destruct free; [|cbn in Hp; lia].
  unfold pg_thread_init. rewrite (stack_pop_nil _ (-1) po_free0).
  cbn -[put_cell pg_thread_max]. rewrite !max_is. cbn -[put_cell].
  destruct (Z.ltb_spec (Z.of_nat (length slaves)) (nb_thread_id_used t + 1)); [|lia].
  eexists. split; [done|]. by split.
Qed.

Lemma destroy_ok t used free k z :
  pool_ok t used free k → z ∈ used → z ≤ threads_max t →
  ∃ t' used' free' k', pg_thread_destroy t z = Some (0, t') ∧ used ≡ₚ z :: used' ∧
    pool_ok t' used' free' k' ∧ threads_max t' = threads_max t.
Proof.
  intros Hok Hz Hmax. pose proof Hok as []. unfold pg_thread_destroy.
  destruct (Z.ltb_spec (threads_max t) z); [lia|].
  apply po_live0 in Hz as Hl. destruct Hl as [c ->]. cbn -[put_cell].
  assert (Hs : z ∈ slaves) by (apply (pool_slaves _ _ _ _ z Hok), elem_of_app; by left).
  destruct (put_slave (thread_ids t) z None po_ids0 Hs) as (ids & Hids & Hlen).
  rewrite Hids. cbn.
  apply elem_of_Permutation in Hz as [used' Hu].
  pose proof (pool_nodup _ _ _ _ Hok) as Hnd. rewrite Hu in Hnd. cbn in Hnd.
  apply NoDup_cons in Hnd as [Hnz Hnd].
  pose proof (Permutation_length Hu) as Hlu. cbn in Hlu.
  pose proof (Permutation_length po_split0) as Hp. rewrite length_app, length_take in Hp.
  pose proof slaves_short. rewrite s16_small by lia.
  assert (Hlive : ∀ fr tm l nb y, live (mk_threads ids fr tm l nb) y ↔ y ∈ used').
  { intros. rewrite (retire_live t ids z Hids), po_live0, Hu, elem_of_cons.
    split; [naive_solver|]. intros Hy. split; [|by right]. intros ->. apply Hnz.
    apply elem_of_app. by left. }
  destruct (Z.eqb_spec (nb_thread_id_used t - 1) 0) as [E|E].
  - assert (used' = []) as -> by (apply length_zero_iff_nil; lia).
    eexists _, [], [], 0%nat. split; [done|]. split; [done|]. split; [|done].
    split; cbn [thread_ids free_thread_ids last_thread_id nb_thread_id_used];
      try done; try congruence; try lia.
  - destruct (stack_push_repr _ _ z po_free0) as (fr & -> & Hfr & Hlim). cbn.
    rewrite po_limit0 in *. eexists _, used', (z :: free), k. split; [done|].
    split; [done|]. split; [|done].
    split; cbn [thread_ids free_thread_ids last_thread_id nb_thread_id_used];
      try done; try congruence; try lia.
    rewrite <- Permutation_middle. rewrite <- po_split0, Hu. done.
Qed.


Lemma threads_start_ok : pool_ok (threads_start RTE_MAX_LCORE) [] [] 0.
Proof.
  split; cbn [threads_start thread_ids free_thread_ids last_thread_id nb_thread_id_used];
    try done; try lia.
  - apply length_replicate.
  - intros z. split; [|by intros ?%elem_of_nil]. intros [c Hc]. cbn in Hc.
    unfold cell_at in Hc. destruct (z <? 0); [done|].
    by apply lookup_replicate_1 in Hc as [? _].
Qed.

End Pool.

(** ** Concrete runs *)

(** A thread just launched; polls count and never fail. *)
Definition count_poll (g : option addr) (x : nat) : option (Z * option addr * nat) :=
  Some (0, None, S x).

Lemma count_poll_total g x : is_Some (count_poll g x).
Proof. done. Qed.

Definition sys_start : sys (W := nat) := mk_sys worker_new client_new 0%nat true.

Lemma sys_start_ok : sys_ok sys_start [].
Proof. split; [done|]. exists [], []. apply worker_new_ok. Qed.


Lemma thread_pop_error_last_witness :
  ∃ s', pg_thread_pop_error count_poll [0%nat; 1%nat] sys_start = Done (-1, -1, None, s').
Proof.
  destruct (thread_pop_error_last count_poll count_poll_total [0%nat; 1%nat] sys_start [] [] [])
    as (s' & H & _).
  - apply Exists_cons_hd. lia.
  - done.
  - apply worker_new_ok.
  - apply client_new_idle.
  - done.
  - intros g Hg. by apply elem_of_nil in Hg.
  - by exists s'.
Defined.

Lemma thread_stop_stops_witness :
  ∃ s1 s2, pg_thread_stop count_poll [0%nat; 1%nat] sys_start = Done (0, s1) ∧
    (∀ n, turns count_poll n s1 = Some s1) ∧
    pg_thread_state_ count_poll [5%nat; 1%nat] s1 = Done (PG_THREAD_STOPPED, s2).
Proof.
  destruct (thread_stop_stops count_poll count_poll_total [0%nat; 1%nat] [5%nat; 1%nat]
    sys_start []) as (s1 & s2 & H1 & H2 & H3 & _).
  - apply Exists_cons_hd. lia.
  - apply Exists_cons_hd. lia.
  - apply sys_start_ok.
  - apply client_new_idle.
  - cbn. unfold PG_THREAD_MAX_OP. lia.
  - by exists s1, s2.
Defined.

Lemma thread_empty_queue_never_polls_witness :
  ∃ st s', pg_thread_state_ count_poll [0%nat; 1%nat] sys_start = Done (st, s') ∧
           ∀ n, turns count_poll n s' = Some s'.
Proof.
  destruct (thread_empty_queue_never_polls count_poll count_poll_total [0%nat; 1%nat] sys_start [])
    as (st & s' & H1 & _ & H2).
  - apply Exists_cons_hd. lia.
  - apply sys_start_ok.
  - apply client_new_idle.
  - by exists st, s'.
Defined.

Lemma poll_phase_isolates_failures_witness :
  ∃ w', poll_phase (log_poll (λ _, true) id) (set_state worker_new PG_THREAD_RUNNING) [] =
          Some (w', []).
Proof.
  destruct (poll_phase_isolates_failures (λ _, true) id
    (set_state worker_new PG_THREAD_RUNNING) [] [] [] []) as (w' & H & _).
  - destruct worker_new_ok. by split.
  - done.
  - by exists w'.
Defined.

(** A thread with a graph that was told to run. *)
Definition running_sys : outcome (Z * sys (W := nat)) :=
  oc_bind (pg_thread_add_graph count_poll [0%nat; 1%nat] sys_start (Some 7%positive))
    (λ '(_, s), pg_thread_run count_poll [0%nat] s).

(** The thread polls after [pg_thread_run], until [pg_thread_state] tells that it runs. *)
Example thread_state_stops_polling :
  match running_sys with
  | Done (_, s) =>
      (world <$> turns count_poll 2 s) = Some 64%nat ∧
      match pg_thread_state_ count_poll [2%nat; 1%nat] s with
      | Done (st, s') => st = PG_THREAD_RUNNING ∧ world s' = 96%nat ∧
                         (world <$> turns count_poll 1000 s') = Some 96%nat
      | _ => False
      end
  | _ => False
  end.
Proof. vm_compute. auto. Qed.

(** The last request is served first: the state is read before [pg_thread_run] takes
    effect. *)
Example thread_serves_last_first :
  match running_sys with
  | Done (_, s) =>
      match pg_thread_state_ count_poll [0%nat; 1%nat] s with
      | Done (st, _) => st = PG_THREAD_STOPPED
      | _ => False
      end
  | _ => False
  end.
Proof. vm_compute. done. Qed.

(** The first request waits as long as the queue holds a second one. *)
Example thread_first_request_starves :
  match running_sys with
  | Done (_, s) =>
      match pg_thread_force_start_graph count_poll [0%nat] s 0 with
      | Done (_, s') =>
          (λ t, (queue_size (client t), (op <$> queue (client t) !! 0%nat))) <$>
            turns count_poll 1000 s' = Some (2%nat, Some PG_THREAD_RUN)
      | _ => False
      end
  | _ => False
  end.
Proof. vm_compute. done. Qed.

(** The 127th graph leaves the queue locked: no request is served any more. *)
Fixpoint add_graphs (n : nat) (s : sys (W := nat)) : outcome (sys (W := nat)) :=
  match n with
  | O => Done s
  | S n => oc_bind (pg_thread_add_graph count_poll [0%nat; 1%nat] s (Some 7%positive))
             (λ '(_, s), add_graphs n s)
  end.

Example thread_127th_graph_deadlocks :
  match add_graphs 126 sys_start with
  | Done s =>
      match pg_thread_add_graph count_poll [0%nat; 1%nat; 1%nat; 1%nat] s (Some 7%positive) with
      | Waiting => True
      | _ => False
      end
  | _ => False
  end.
Proof. vm_compute. done. Qed.

Lemma thread_full_queue_blocks_witness : ∀ r,
  wait_enqueue count_poll [1%nat; 1%nat] (set_client sys_start (set_queue_size client_new 127))
    PG_THREAD_RUN NULL ≠ Done r.
Proof. intros r. apply thread_full_queue_blocks. reflexivity. Defined.

(** lcores 0, 1 and 2, the first being the master. *)
Definition next_lcore_12 (i : Z) : Z := default 128 (head (filter (λ z, i < z) [1; 2])).


(** With lcores 0, 2 and 4 the second thread cannot be destroyed. *)
Definition next_lcore_24 (i : Z) : Z := default 128 (head (filter (λ z, i < z) [2; 4])).

Example thread_destroy_refused :
  match pg_thread_init 128 3 next_lcore_24 (threads_start 128) with
  | Some (_, t) =>
      match pg_thread_init 128 3 next_lcore_24 t with
      | Some (z, t) => z = 4 ∧ (fst <$> pg_thread_destroy t z) = Some (-1)
      | None => False
      end
  | None => False
  end.
Proof. vm_compute. auto. Qed.
