(* ===== verification/Devices.v ===== *)
(** * What the bricks bound to devices share

    The nic, vhost and tap bricks read packets from a device into an array of their own,
    set the metadata of the packets, send them as one burst to their neighbour and give
    their references back. This file has the metadata loop ([pg_utils_guess_metadata] over
    the first packets of an array) and the lemmas on that sequence. *)

From S2P Require Import Prelude Bitmask Common Brick BrickInv Burst Packets Accumulator Network.
From S2P Require Import Endpoints.

(** [for (i...) pg_utils_guess_metadata(pkts[i])]. *)
Fixpoint guess_loop {W} (l : pkts_t) : M (flow W) unit :=
  match l with
  | [] => mret tt
  | p :: l =>
      v ← load_pkt p;
      v ← unwrap (pg_utils_guess_metadata v);
      store_pkt p v;;
      guess_loop l
  end.

(** The packet is in memory and starts with an ethernet header. *)
Abbreviation has_ether := Rxtx.has_ether.

Section Laws.

Context {W : Type} `{!Dispatch W, !PktLib W, !PktLaws W}.
Implicit Types (fl : flow W) (ps rest : list mptr).

(** Nothing but the metadata of packets changed. *)
Definition same_packets fl fl' : Prop :=
  ∀ q v, fl_mem fl !! q = Some v → ∃ n, fl_mem fl' !! q = Some (set_l2_len v n).

Lemma set_l2_len_same v : set_l2_len v (l2_len v) = v.
Proof. by destruct v. Qed.

Lemma same_packets_refl fl : same_packets fl fl.
Proof. intros q v Hq. exists (l2_len v). by rewrite set_l2_len_same. Qed.

Lemma same_packets_trans fl1 fl2 fl3 :
  same_packets fl1 fl2 → same_packets fl2 fl3 → same_packets fl1 fl3.
Proof.
  intros H12 H23 q v Hq. destruct (H12 q v Hq) as [n Hn].
  destruct (H23 q _ Hn) as [m Hm]. by exists m.
Qed.

Lemma same_packets_held ps fl fl' : same_packets fl fl' → held ps fl → held ps fl'.
Proof.
  intros Hs Hh q Hq. destruct (Hh q Hq) as (v&Hv&Hc). destruct (Hs q v Hv) as [n Hn].
  by exists (set_l2_len v n).
Qed.

(** Writing the metadata of one packet. *)
Lemma guess_store_same fl p v n :
  fl_mem fl !! p = Some v → same_packets fl (set_mem fl (<[p := set_l2_len v n]> (fl_mem fl))).
Proof.
  intros Hp q w Hq. rewrite set_mem_mem. destruct (decide (q = p)) as [->|Hne].
  - simplify_eq. exists n. by rewrite lookup_insert_eq.
  - exists (l2_len w). rewrite lookup_insert_ne, set_l2_len_same by done. done.
Qed.

Lemma same_packets_ether fl fl' p : same_packets fl fl' → has_ether fl p → has_ether fl' p.
Proof.
  intros Hs (v&Hv&Hl). destruct (Hs p v Hv) as [n Hn]. by exists (set_l2_len v n).
Qed.

Lemma guess_loop_spec l fl :
  (∀ p, p ∈ l → has_ether fl p) →
  ∃ h, guess_loop l fl = Some (tt, set_mem fl h) ∧ same_packets fl (set_mem fl h).
Proof.
  revert fl. induction l as [|p l IH]; intros fl Hl; cbn [guess_loop].
  { exists (fl_mem fl). split; [by destruct fl|]. intros q v Hq.
    exists (l2_len v). by rewrite set_l2_len_same. }
  destruct (Hl p) as (v&Hv&Hd); [left|]. destruct (Rxtx.guess_metadata_ok v Hd) as [n Hn].
  unfold load_pkt. rewrite M_bind_assoc. unfold mbind at 1, M_bind at 1, gets. rewrite Hv.
  cbn [unwrap]. rewrite M_bind_ret, Hn. cbn [unwrap]. rewrite M_bind_ret.
  unfold store_pkt, modify, mbind, M_bind.
  change (mk_flow (<[p := set_l2_len v n]> (fl_mem fl)) (fl_count fl) (fl_errp fl) (fl_world fl))
    with (set_mem fl (<[p := set_l2_len v n]> (fl_mem fl))).
  pose proof (guess_store_same fl p v n Hv) as Hs.
  destruct (IH (set_mem fl (<[p := set_l2_len v n]> (fl_mem fl)))) as (h&Hr&Hsame).
  { intros q Hq. eapply same_packets_ether; [done|]. apply Hl. by right. }
  exists h. split; [exact Hr|]. by eapply same_packets_trans.
Qed.

(** The first packets of an array, selected by their mask. *)
Lemma firsts_selected (pkts : pkts_t) (n : nat) :
  (n ≤ 64)%nat → (n ≤ length pkts)%nat →
  mapM (λ j, pkts !! j) (PG_FOREACH_BIT (pg_mask_firsts (u8 (Z.of_nat n)))) = Some (take n pkts).
Proof.
  intros Hn Hl. assert (u8 (Z.of_nat n) = Z.of_nat n) as -> by (apply Z.mod_small; lia).
  rewrite foreach_firsts by done. by apply mapM_seq_take.
Qed.

(** A burst of packets somebody holds, to a neighbour that records it. *)
Lemma recorded_burst sent `{!Recording W sent} n from i (pkts : pkts_t) m ps rest fl :
  mapM (λ j, pkts !! j) (PG_FOREACH_BIT m) = Some ps → held (ps ++ rest) fl →
  ∃ ret fl', pg_brick_burst (Some n) from i pkts m fl = Some (ret, fl') ∧
    sent (fl_world fl') = sent (fl_world fl) ++ [mk_call (Some n) from i pkts m] ∧
    held (ps ++ rest) fl'.
Proof.
  intros Hm Hh. unfold pg_brick_burst, count_add, modify, mbind, M_bind. cbv iota beta.
  set (fl0 := mk_flow _ _ _ _).
  destruct (law_sent n from i pkts m fl0) as (r&fl'&Hr&Hs&Hk).
  - intros j Hj. apply mapM_Some in Hm. apply list_elem_of_lookup in Hj as (x&Hx).
    destruct (Forall2_lookup_l _ _ _ _ _ Hm Hx) as (q&Hq&Hj). exists q. split; [done|].
    destruct (Hh q) as (v&Hv&_); [|by exists v].
    apply elem_of_app. left. by eapply list_elem_of_lookup_2.
  - exists r, fl'. split; [exact Hr|]. split; [exact Hs|]. by apply Hk.
Qed.

(** Sending packets and giving their references back. *)
Lemma send_and_free sent `{!Recording W sent} n from i (pkts : pkts_t) m ps rest fl :
  mapM (λ j, pkts !! j) (PG_FOREACH_BIT m) = Some ps → held (ps ++ rest) fl →
  ∃ ret fl', (ret ← pg_brick_burst (Some n) from i pkts m; pg_packets_free pkts m;; mret ret) fl
    = Some (ret, fl') ∧
    sent (fl_world fl') = sent (fl_world fl) ++ [mk_call (Some n) from i pkts m] ∧ held rest fl'.
Proof.
  intros Hm Hh. destruct (recorded_burst sent n from i pkts m ps rest fl Hm Hh)
    as (ret&fl1&Hr&Hs&Hh1).
  destruct (free_list_held pkts _ ps rest fl1 Hm Hh1) as (h&Hf&Hh2).
  exists ret, (set_mem fl1 h). split_and!; [|exact Hs|exact Hh2].
  unfold pg_packets_free, mbind, M_bind. by rewrite Hr, Hf.
Qed.

(** The packets of a call on the first [n] packets of an array. *)
Lemma delivered_firsts to from i (pkts : pkts_t) n :
  (n ≤ 64)%nat →
  delivered (mk_call to from i pkts (pg_mask_firsts (u8 (Z.of_nat n)))) = take n pkts.
Proof.
  intros Hn. unfold delivered. cbn [bc_pkts bc_mask].
  assert (u8 (Z.of_nat n) = Z.of_nat n) as -> by (apply Z.mod_small; lia).
  rewrite foreach_firsts by done. apply omap_seq_take.
Qed.

Lemma foreach_length m : is_mask m → (length (PG_FOREACH_BIT m) ≤ 64)%nat.
Proof.
  intros Hm. rewrite foreach_eq_filter by done.
  pose proof (length_filter (λ i, mask_has m i = true) (seq 0 64)) as Hle.
  rewrite length_seq in Hle. lia.
Qed.

(** What [pg_packets_pack] leaves in an array of 64 packets. *)
Lemma pack_firsts (dst l : pkts_t) mask new :
  length dst = PG_MAX_PKTS_BURST → is_mask mask → mapM (λ j, l !! j) (PG_FOREACH_BIT mask) = Some new →
  ∃ exit, pg_packets_pack dst l mask = Some (Z.of_nat (length new), exit) ∧
    length exit = PG_MAX_PKTS_BURST ∧ take (length new) exit = new ∧ (length new ≤ 64)%nat.
Proof.
  intros Hexit Hm Hnew. pose proof (foreach_length mask Hm) as Hlen.
  pose proof Hnew as HF%mapM_Some. pose proof (Forall2_length _ _ _ HF) as Hl.
  assert (omap (λ j, l !! j) (PG_FOREACH_BIT mask) = new) as Homap.
  { clear -HF. induction HF as [|j y js ys Hj _ IH]; [done|]. cbn [omap list_omap].
    by rewrite Hj, IH. }
  rewrite pack_correct; [|done|rewrite Hexit; unfold PG_MAX_PKTS_BURST; lia|].
  2: { intros j Hj%elem_of_foreach; [|done]. apply list_elem_of_lookup in Hj as (i&Hi).
       destruct (Forall2_lookup_l _ _ _ _ _ HF Hi) as (y&_&Hy). eauto. }
  rewrite mask_count_foreach, Homap, Hl by done. eexists. split; [done|].
  rewrite length_app, length_drop, Hexit, take_app_length. unfold PG_MAX_PKTS_BURST.
  split_and!; [lia|done|lia].
Qed.

Lemma held_live new rest fl :
  held (new ++ rest) fl → ∀ p, p ∈ new → is_Some (fl_mem fl !! p).
Proof.
  intros Hh p Hp. destruct (Hh p) as (v&Hv&_); [apply elem_of_app; by left|]. by exists v.
Qed.

End Laws.
