(* ===== verification/Nic.v ===== *)
(** * The network card brick ([src/nic.c])

    A monopole over a DPDK port. Bursts go to the transmission queue of the port; a poll
    reads the reception queue and sends what it finds to the neighbour. The ethernet
    device library of DPDK is known through two classes: [EthLib] for the queues, with its
    documented behaviour in [EthLaws], and [EthCtl] for the configuration of ports. *)

From stdpp Require Import pretty.
From S2P Require Import Prelude Bitmask Common Brick BrickInv Burst Packets Accumulator Network.
From S2P Require Import Endpoints Devices.

Definition NIC_ARGS_MAX_SIZE : nat := 1024.
(** The final character of an error message. *)
Definition newline : string := String (Ascii.ascii_of_nat 10) EmptyString.

Definition TCP_PROTOCOL_NUMBER : Z := 6.
Definition UDP_PROTOCOL_NUMBER : Z := 17.

(** [PKT_TX_TCP_CKSUM] and [PKT_TX_UDP_CKSUM] of [rte_mbuf.h]. *)
Definition PKT_TX_TCP_CKSUM : Z := Z.shiftl 1 52.
Definition PKT_TX_UDP_CKSUM : Z := Z.shiftl 3 52.

(** [DEV_TX_OFFLOAD_UDP_CKSUM] and [DEV_TX_OFFLOAD_TCP_CKSUM] of [rte_ethdev.h]. *)
Definition DEV_TX_OFFLOAD_UDP_CKSUM : Z := 0x4.
Definition DEV_TX_OFFLOAD_TCP_CKSUM : Z := 0x8.
Definition DEV_TX_OFFLOAD_CHECK : Z := Z.lor DEV_TX_OFFLOAD_UDP_CKSUM DEV_TX_OFFLOAD_TCP_CKSUM.

(** [struct pg_nic_config] and [struct pg_nic_state]. *)
Record pg_nic_config := mk_nic_config { cfg_ifname : string; cfg_portid : Z }.

Record pg_nic_state := mk_nic {
  pkts : pkts_t;
  exit_pkts : pkts_t;
  portid : Z;
  output : pg_side;
}.

(** [nic_config_new]; [g_strlcpy] keeps the bytes that fit with their final zero. *)
Definition nic_config_new (nm : string) (ifname : option string) (port : Z)
    : pg_brick_config pg_nic_config :=
  pg_brick_config_init
    (match ifname with
     | Some s => mk_nic_config (String.substring 0 (NIC_ARGS_MAX_SIZE - 1) s) 0
     | None => mk_nic_config "" (u16 port)
     end) nm 1 1 PG_MONOPOLE.

(** ** The queues of a port *)

Class EthLib (W : Type) := {
  (** [rte_eth_tx_prepare] and [rte_eth_tx_burst] of a port, a queue, an array and a
      number of packets. *)
  eth_tx_prepare : Z → Z → pkts_t → Z → M (flow W) Z;
  eth_tx_burst : Z → Z → pkts_t → Z → M (flow W) Z;
  (** [rte_eth_rx_burst] into an array: the number read and the array. *)
  eth_rx_burst : Z → Z → pkts_t → Z → M (flow W) (Z * pkts_t);
  (** The [ol_flags] of a packet, a field no other brick reads. *)
  ol_flags : W → mptr → Z;
}.

Section Nic.

Context {W : Type} `{D : !Dispatch W, !PktLib W, !EthLib W}.
Implicit Types st : pg_nic_state.

Definition set_exit st (l : pkts_t) : pg_nic_state := mk_nic (pkts st) l (portid st) (output st).
Definition set_pkts st (l : pkts_t) : pg_nic_state := mk_nic l (exit_pkts st) (portid st) (output st).

(** The unsent packets: [pg_mask_firsts(count) & ~pg_mask_firsts(pkts_bursted)]. *)
Definition unsent_mask (count bursted : Z) : Z :=
  Z.land (pg_mask_firsts (u8 count)) (not64 (pg_mask_firsts (u8 bursted))).

Definition nic_burst st (pkts : pkts_t) (pkts_mask : Z) : M (flow W) (Z * pg_nic_state) :=
  r ← unwrap (pg_packets_pack (exit_pkts st) pkts pkts_mask);
  let '(count, exit) := r in
  let count := u16 count in
  pg_packets_incref pkts pkts_mask;;
  _ ← eth_tx_prepare (portid st) 0 exit count;
  bursted ← eth_tx_burst (portid st) 0 exit count;
  (if bursted <? count then pg_packets_free exit (unsent_mask count bursted) else mret tt);;
  mret (0, set_exit st exit).

(** *** Checksums in software *)

(** A 16-bit store. *)
Definition put16 (d : list Z) (off : nat) (z : Z) : option (list Z) :=
  if decide (off + 2 ≤ length d)%nat then Some (take off d ++ le16 z ++ drop (off + 2) d)
  else None.

(** [rte_ipv4_udptcp_cksum] of the memory at an IPv4 header and at its payload. *)
Context (rte_ipv4_udptcp_cksum : list Z → list Z → Z).

(** Where the checksum of the transport header is, from the start of the IPv4 header. *)
Definition cksum_offset (proto : Z) : nat :=
  20 + (if proto =? TCP_PROTOCOL_NUMBER then 16 else 6).

(** The body of the loop of [nic_burst_no_offload] on the bytes of a packet: [hdr] starts
    [sizeof(struct ether_hdr)] bytes before the network header. *)
Definition cksum_bytes (l2 : nat) (d : list Z) : option (list Z) :=
  next_proto_id ← d !! (l2 + 9)%nat;
  if decide (2 ≤ l2)%nat then
    ether_type ← load16 d (l2 - 2);
    if negb (PG_CPU_TO_BE_16 ether_type =? ETHER_TYPE_IPv4) ||
       (negb (next_proto_id =? TCP_PROTOCOL_NUMBER) && negb (next_proto_id =? UDP_PROTOCOL_NUMBER))
    then Some d
    else
      ipv4_csum ← load16 d (l2 + 10);
      d ← put16 d (l2 + 10) 0;
      let off := (l2 + cksum_offset next_proto_id)%nat in
      d ← put16 d off 0;
      d ← put16 d off (rte_ipv4_udptcp_cksum (drop l2 d) (drop (l2 + 20) d));
      put16 d (l2 + 10) ipv4_csum
  else None.

Fixpoint cksum_loop (pkts : pkts_t) (l : list nat) : M (flow W) unit :=
  match l with
  | [] => mret tt
  | i :: l =>
      p ← unwrap (pkts !! i);
      flags ← gets (λ fl, ol_flags (fl_world fl) p);
      (if negb (Z.land flags (Z.lor PKT_TX_UDP_CKSUM PKT_TX_TCP_CKSUM) =? 0) then
         v ← load_pkt p;
         d ← unwrap (cksum_bytes (Z.to_nat (l2_len v)) (data v));
         store_pkt p (set_data v d)
       else mret tt);;
      cksum_loop pkts l
  end.

Definition nic_burst_no_offload st (pkts : pkts_t) (pkts_mask : Z)
    : M (flow W) (Z * pg_nic_state) :=
  cksum_loop pkts (PG_FOREACH_BIT pkts_mask);;
  nic_burst st pkts pkts_mask.

(** *** Polling *)

Definition nic_poll_forward st (sd : pg_brick_side) (nb_pkts : Z) : M (flow W) Z :=
  e ← edge_of sd;
  match link e with
  | None => mret 0
  | Some n =>
      let pkts_mask := pg_mask_firsts (u8 nb_pkts) in
      ret ← pg_brick_burst (Some n) (output st) (pair_index e) (pkts st) pkts_mask;
      pg_packets_free (pkts st) pkts_mask;;
      mret ret
  end.

(** [nic_poll]: the result, the packet count and the state. *)
Definition nic_poll st (sd : pg_brick_side) : M (flow W) (Z * Z * pg_nic_state) :=
  r ← eth_rx_burst (portid st) 0 (pkts st) (Z.of_nat PG_MAX_PKTS_BURST);
  let '(nb_pkts, l) := r in
  let st := set_pkts st l in
  if nb_pkts =? 0 then mret (0, 0, st)
  else
    guess_loop (take (Z.to_nat nb_pkts) l);;
    ret ← nic_poll_forward st sd nb_pkts;
    mret (ret, nb_pkts, st).

Definition nic_link st (side : pg_side) : pg_nic_state :=
  mk_nic (pkts st) (exit_pkts st) (portid st) (pg_flip_side side).
Definition nic_get_side st : pg_side := pg_flip_side (output st).

End Nic.

(** ** Configuration of ports *)

(** The calls that change a port. *)
Inductive eth_request :=
  | DevProbe (ifname : string)
  | DevConfigure (port rxq txq offloads : Z)
  | RxQueueSetup (port queue nb_desc : Z)
  | TxQueueSetup (port queue nb_desc offloads : Z)
  | DevStart (port : Z)
  | PromiscuousEnable (port : Z)
  | SetMtu (port mtu : Z)
  | XstatsReset (port : Z)
  | DevStop (port : Z)
  | DevClose (port : Z).

Class EthCtl (W : Type) := {
  (** The result of a call. *)
  eth_ctl : eth_request → M (flow W) Z;
  (** The first port that matches a name ([RTE_ETH_FOREACH_MATCHING_DEV]). *)
  matching_port : W → string → option Z;
  (** [rte_eth_dev_count_avail]. *)
  dev_count_avail : W → Z;
  (** [rx_offload_capa] and [tx_offload_capa] of [rte_eth_dev_info_get]. *)
  rx_offload_capa : W → Z → Z;
  tx_offload_capa : W → Z → Z;
  (** [rte_eth_tx_queue_info_get]: the result and [conf.offloads]. *)
  tx_queue_offloads : W → Z → Z → Z * Z;
  (** [rte_eth_dev_get_mtu]: the result and the MTU. *)
  dev_mtu : W → Z → Z * Z;
  (** [rte_eth_macaddr_get]. *)
  dev_mac : W → Z → list Z;
  (** [ibytes] and [obytes] of [rte_eth_stats_get]. *)
  stats_ibytes : W → Z → Z;
  stats_obytes : W → Z → Z;
}.

(** The fast paths of the brick. *)
Inductive nic_fastpath := FP_nic_burst | FP_nic_burst_no_offload.

Global Instance nic_fastpath_eq_dec : EqDecision nic_fastpath.
Proof. solve_decision. Defined.
Global Instance eth_request_eq_dec : EqDecision eth_request.
Proof. solve_decision. Defined.

Section Ctl.

Context {W : Type} `{!EthCtl W}.
Implicit Types (offloads : Z).

(** [pg_nic_port]: the port, or -1. *)
Definition pg_nic_port (ifname : string) : M (flow W) Z :=
  r ← eth_ctl (DevProbe ifname);
  if negb (r =? 0) then mret (-1)
  else o ← gets (λ fl, matching_port (fl_world fl) ifname); mret (default (-1) o).

(** [nic_init_ports]; [offloads] is [port_conf.txmode.offloads], static in the function. *)
Definition nic_init_ports (port offloads : Z) : M (flow W) (Z * Z) :=
  capa ← gets (λ fl, tx_offload_capa (fl_world fl) port);
  let offloads := if negb (Z.land capa DEV_TX_OFFLOAD_CHECK =? 0)
                  then Z.lor offloads DEV_TX_OFFLOAD_CHECK else offloads in
  ret ← eth_ctl (DevConfigure port 1 1 offloads);
  if ret <? 0 then
    flow_error (pg_error_new ("Port configuration " +:+ pretty port +:+ " failed (may already be in use)"));;
    mret (-1, offloads)
  else
    ret ← eth_ctl (RxQueueSetup port 0 128);
    if ret <? 0 then
      flow_error (pg_error_new ("Setup failed for port rx queue 0, port " +:+ pretty port));;
      mret (-1, offloads)
    else
      ret ← eth_ctl (TxQueueSetup port 0 128 offloads);
      if ret <? 0 then
        flow_error (pg_error_new ("Setup failed for port tx queue 0, port " +:+ pretty port));;
        mret (-1, offloads)
      else mret (0, offloads).

Definition pg_nic_port_count : M (flow W) Z := gets (λ fl, dev_count_avail (fl_world fl)).

(** The port of a configuration; [None] is the error return. *)
Definition setup_port (cfg : pg_nic_config) : M (flow W) (option Z) :=
  if negb (String.eqb (cfg_ifname cfg) "") then
    ret ← pg_nic_port (cfg_ifname cfg);
    if ret <? 0 then
      flow_error (pg_error_new ("Failed to attach port " +:+ cfg_ifname cfg +:+ newline));; mret None
    else mret (Some (u16 ret))
  else
    count ← pg_nic_port_count;
    if cfg_portid cfg <? count then mret (Some (cfg_portid cfg))
    else flow_error (pg_error_new ("Invalid port id " +:+ pretty (cfg_portid cfg)));; mret None.

(** [nic_init]: the result, the state with the fast path, and the static offloads;
    [null] fills the arrays of the zeroed state. *)
Definition nic_init (null : mptr) (config : pg_brick_config pg_nic_config) (offloads : Z)
    : M (flow W) (Z * option (pg_nic_state * nic_fastpath) * Z) :=
  o ← setup_port (brick_config config);
  match o with
  | None => mret (-1, None, offloads)
  | Some port =>
      r ← nic_init_ports port offloads;
      let '(ret, offloads) := r in
      if ret <? 0 then mret (-1, None, offloads)
      else
        ret ← eth_ctl (DevStart port);
        if ret <? 0 then
          flow_error (pg_error_new ("Device failed to start on port " +:+ pretty port));;
          mret (-1, None, offloads)
        else
          _ ← eth_ctl (PromiscuousEnable port);
          q ← gets (λ fl, tx_queue_offloads (fl_world fl) port 0);
          let fp := if (fst q =? 0) &&
                       negb (Z.land (snd q) DEV_TX_OFFLOAD_TCP_CKSUM =? 0) &&
                       negb (Z.land (snd q) DEV_TX_OFFLOAD_UDP_CKSUM =? 0)
                    then FP_nic_burst else FP_nic_burst_no_offload in
          let cells := replicate PG_MAX_PKTS_BURST null in
          mret (0, Some (mk_nic cells cells port PG_WEST_SIDE, fp), offloads)
  end.

Definition nic_destroy (st : pg_nic_state) : M (flow W) unit :=
  _ ← eth_ctl (XstatsReset (portid st));
  _ ← eth_ctl (DevStop (portid st));
  _ ← eth_ctl (DevClose (portid st));
  mret tt.

Definition pg_nic_set_mtu (st : pg_nic_state) (mtu : Z) : M (flow W) Z :=
  ret ← eth_ctl (SetMtu (portid st) mtu);
  if ret <? 0 then flow_error (pg_error_new_errno (- ret) "cannot set MTU");; mret (-1)
  else mret 0.

(** The result and [*mtu]. *)
Definition pg_nic_get_mtu (st : pg_nic_state) (mtu : Z) : M (flow W) (Z * Z) :=
  r ← gets (λ fl, dev_mtu (fl_world fl) (portid st));
  if fst r <? 0 then
    flow_error (pg_error_new_errno (- fst r) "cannot get MTU");; mret (-1, mtu)
  else mret (0, snd r).

Definition pg_nic_get_mac (st : pg_nic_state) : M (flow W) (list Z) :=
  gets (λ fl, dev_mac (fl_world fl) (portid st)).

(** [pg_nic_capabilities]: 64-bit masks stored in [uint32_t]. *)
Definition pg_nic_capabilities (st : pg_nic_state) : M (flow W) (Z * Z) :=
  gets (λ fl, (u32 (rx_offload_capa (fl_world fl) (portid st)),
               u32 (tx_offload_capa (fl_world fl) (portid st)))).

Definition rx_bytes (st : pg_nic_state) : M (flow W) Z :=
  gets (λ fl, stats_ibytes (fl_world fl) (portid st)).
Definition tx_bytes (st : pg_nic_state) : M (flow W) Z :=
  gets (λ fl, stats_obytes (fl_world fl) (portid st)).

End Ctl.

(** ** Sending *)

(** The documented behaviour of the queues. [wire] is what was given to the port. Packets
    the driver accepts are its own from then on; the others stay with the caller. Packets
    that are received come with one reference each. *)
Class EthLaws (W : Type) `{!EthLib W} (wire : W → Z → list mptr) : Prop := {
  law_tx_prepare port q (l : pkts_t) n (fl : flow W) :
    (n ≤ length l)%nat → (∀ p, p ∈ take n l → is_Some (fl_mem fl !! p)) →
    ∃ r fl', eth_tx_prepare port q l (Z.of_nat n) fl = Some (r, fl') ∧
      wire (fl_world fl') port = wire (fl_world fl) port ∧ ∀ ps, held ps fl → held ps fl';
  law_tx_burst port q (l : pkts_t) n rest (fl : flow W) :
    (n ≤ length l)%nat → held (take n l ++ rest) fl →
    ∃ k fl', eth_tx_burst port q l (Z.of_nat n) fl = Some (Z.of_nat k, fl') ∧ (k ≤ n)%nat ∧
      wire (fl_world fl') port = wire (fl_world fl) port ++ take k l ∧
      held (drop k (take n l) ++ rest) fl';
  law_rx_burst port q (l : pkts_t) rest (fl : flow W) :
    held rest fl →
    ∃ k l' fl', eth_rx_burst port q l (Z.of_nat (length l)) fl = Some ((Z.of_nat k, l'), fl') ∧
      (k ≤ length l)%nat ∧ length l' = length l ∧
      (∀ p, p ∈ take k l' → has_ether fl' p) ∧ held (take k l' ++ rest) fl';
}.

(** Dropping one reference on each packet of a list. *)
Definition free_all {W} `{!PktLib W} (ps : list mptr) : M (flow W) unit :=
  free_list ps (seq 0 (length ps)).

Lemma foreach_unsent n k :
  (k ≤ n ≤ 64)%nat → PG_FOREACH_BIT (unsent_mask (Z.of_nat n) (Z.of_nat k)) = seq k (n - k).
Proof.
  intros Hk. unfold unsent_mask, u8. rewrite !Z.mod_small by lia.
  pose proof (is_mask_land _ (not64 (pg_mask_firsts (Z.of_nat k)))
    (mask_firsts_is_mask (Z.of_nat n))) as Hm.
  rewrite foreach_eq_filter by done. apply sorted_ext.
  - apply filter_seq_sorted.
  - apply seq_sorted.
  - intros i. rewrite list_elem_of_filter, !elem_of_seq. split.
    + intros [Hi Hr]. rewrite mask_has_land, mask_has_not64, !mask_firsts_has in Hi by lia.
      repeat case_bool_decide; simpl in Hi; try done; lia.
    + intros Hi. split; [|lia]. rewrite mask_has_land, mask_has_not64, !mask_firsts_has by lia.
      repeat case_bool_decide; try done; lia.
Qed.

Lemma free_list_drop {W} `{!PktLib W} (l : pkts_t) k n (fl : flow W) :
  (k ≤ n ≤ length l)%nat → free_list l (seq k (n - k)) fl = free_all (drop k (take n l)) fl.
Proof.
  intros Hk. assert (∀ m i (fl : flow W), (k + i + m ≤ n)%nat →
    free_list l (seq (k + i) m) fl = free_list (drop k (take n l)) (seq i m) fl) as H.
  { intros m. induction m as [|m IH]; intros i f Hm; [done|]. cbn [seq free_list].
    rewrite lookup_drop, lookup_take_lt by lia. destruct (l !! (k + i)%nat); [|done].
    cbn [unwrap]. rewrite !M_bind_ret. apply M_bind_ext. intros _ f'.
    rewrite <- Nat.add_succ_r. apply IH. lia. }
  unfold free_all. rewrite length_drop, length_take, Nat.min_l by lia.
  rewrite <- H by lia. by rewrite Nat.add_0_r.
Qed.

Section Laws.

Context {W : Type} `{!Dispatch W, !PktLib W, !PktLaws W, !EthLib W}.
Context (wire : W → Z → list mptr) `{!EthLaws W wire}.
Implicit Types (fl : flow W) (st : pg_nic_state).

(** The arrays of the state have their declared size. *)
Definition nic_ok st : Prop :=
  length (pkts st) = PG_MAX_PKTS_BURST ∧ length (exit_pkts st) = PG_MAX_PKTS_BURST.

(** C23: a burst into the network card gives the port exactly the packets of the burst, in
    their order and up to the number [k] the driver takes; the brick then drops the
    reference it took on each packet the driver refused, once and on no other packet, so
    that every reference of its caller is still there; it always answers 0. *)
Theorem nic_burst_transmits st (l : pkts_t) mask new caller fl :
  nic_ok st → is_mask mask → mapM (λ j, l !! j) (PG_FOREACH_BIT mask) = Some new →
  held caller fl → new ⊆ caller →
  ∃ k fl1 fl2 st' fl', nic_burst st l mask fl = Some ((0, st'), fl') ∧ nic_ok st' ∧
    eth_tx_burst (portid st) 0 (exit_pkts st') (Z.of_nat (length new)) fl1
    = Some (Z.of_nat k, fl2) ∧ take (length new) (exit_pkts st') = new ∧ (k ≤ length new)%nat ∧
    wire (fl_world fl2) (portid st) = wire (fl_world fl) (portid st) ++ take k new ∧
    free_all (drop k new) fl2 = Some (tt, fl') ∧ fl_world fl' = fl_world fl2 ∧ held caller fl'.
Proof.
  intros Hok Hm Hnew Hh Hin.
  destruct (pack_firsts (exit_pkts st) l mask new (proj2 Hok) Hm Hnew) as (exit&Hpack&Hle&Htake&Hn).
  destruct (incref_list_held l _ new caller fl Hnew Hh Hin) as (h&Hi&Hh1).
  destruct (law_tx_prepare (portid st) 0 exit (length new) (set_mem fl h)) as (r&fl1&Hp&Hw1&Hk1).
  { rewrite Hle. unfold PG_MAX_PKTS_BURST. lia. }
  { rewrite Htake. by eapply held_live. }
  destruct (law_tx_burst (portid st) 0 exit (length new) caller fl1) as (k&fl2&Hb&Hk&Hw2&Hh2).
  { rewrite Hle. unfold PG_MAX_PKTS_BURST. lia. }
  { rewrite Htake. by apply Hk1. }
  rewrite Htake in Hh2.
  destruct (free_list_held (drop k new) (seq 0 (length (drop k new))) (drop k new) caller fl2)
    as (h3&Hf&Hh3); [by rewrite mapM_seq_take, take_ge by lia|done|].
  exists k, fl1, fl2, (set_exit st exit), (set_mem fl2 h3). split_and!.
  - unfold nic_burst. rewrite Hpack. cbn [unwrap]. rewrite M_bind_ret, u16_small by lia.
    unfold pg_packets_incref, mbind, M_bind. rewrite Hi, Hp, Hb.
    destruct (Z.ltb_spec (Z.of_nat k) (Z.of_nat (length new))) as [Hlt|Hge].
    + unfold pg_packets_free. rewrite foreach_unsent by lia.
      rewrite free_list_drop by (rewrite Hle; unfold PG_MAX_PKTS_BURST; lia).
      unfold free_all. rewrite Htake, Hf. done.
    + rewrite drop_ge in Hf by lia. injection Hf as <-. rewrite mret_run. by destruct fl2.
  - split; [apply Hok|exact Hle].
  - exact Hb.
  - exact Htake.
  - exact Hk.
  - rewrite Hw2, Hw1. f_equal. rewrite <- Htake at 1. by rewrite take_take, Nat.min_l by lia.
  - exact Hf.
  - done.
  - exact Hh3.
Qed.

(** The first steps of a poll. *)
Lemma poll_received st rest fl :
  nic_ok st → held rest fl →
  ∃ k l fl1 h, eth_rx_burst (portid st) 0 (pkts st) (Z.of_nat PG_MAX_PKTS_BURST) fl
    = Some ((Z.of_nat k, l), fl1) ∧ (k ≤ 64)%nat ∧ length l = PG_MAX_PKTS_BURST ∧
    guess_loop (take k l) fl1 = Some (tt, set_mem fl1 h) ∧
    same_packets fl1 (set_mem fl1 h) ∧ held (take k l ++ rest) (set_mem fl1 h) ∧
    held (take k l ++ rest) fl1.
Proof.
  intros [Hlen _] Hh. destruct (law_rx_burst (portid st) 0 (pkts st) rest fl Hh)
    as (k&l&fl1&Hr&Hk&Hl&Heth&Hh1). rewrite Hlen in Hr, Hk, Hl.
  destruct (guess_loop_spec (take k l) fl1 Heth) as (h&Hg&Hs).
  exists k, l, fl1, h. split_and!; try done. by eapply same_packets_held.
Qed.

(** A poll of the network card sends the packets the port received, all of them and in
    order, as one burst to the neighbour, reports their number with the neighbour's result
    and gives back their references; when there is nothing to read it sends nothing. *)
Theorem nic_poll_forwards sent `{!Recording W sent} st sd e n rest fl :
  nic_ok st → side_edges sd = Edge e → link e = Some n → held rest fl →
  ∃ k l fl1 ret fl', eth_rx_burst (portid st) 0 (pkts st) (Z.of_nat PG_MAX_PKTS_BURST) fl
    = Some ((Z.of_nat k, l), fl1) ∧ (k ≤ 64)%nat ∧
    nic_poll st sd fl = Some ((ret, Z.of_nat k, set_pkts st l), fl') ∧ held rest fl' ∧
    (k = 0%nat → ret = 0 ∧ fl' = fl1) ∧
    ((0 < k)%nat → ∃ c, bc_to c = Some n ∧ bc_from c = output st ∧ bc_edge c = pair_index e ∧
      delivered c = take k l ∧ sent (fl_world fl') = sent (fl_world fl1) ++ [c]).
Proof.
  intros Hok He Hn Hh. destruct (poll_received st rest fl Hok Hh)
    as (k&l&fl1&h&Hr&Hk&Hl&Hg&Hs&Hh1&Hh0).
  destruct (send_and_free sent n (output st) (pair_index e) l
    (pg_mask_firsts (u8 (Z.of_nat k))) (take k l) rest (set_mem fl1 h)) as (ret&fl'&Hb&Hsent&Hh2);
    [apply firsts_selected; [done|rewrite Hl; done]|done|].
  unfold nic_poll, mbind at 1, M_bind at 1. rewrite Hr. destruct (Z.eqb_spec (Z.of_nat k) 0) as [H0|H0].
  - exists k, l, fl1, 0, fl1. replace k with 0%nat in * by lia. split_and!; try done; lia.
  - exists k, l, fl1, ret, fl'. split_and!; try done; [|lia|].
    + rewrite Nat2Z.id. unfold mbind at 1, M_bind at 1. rewrite Hg.
      unfold nic_poll_forward, edge_of. rewrite He, M_bind_assoc, M_bind_ret, Hn.
      cbn [output pkts set_pkts]. unfold mbind at 1, M_bind at 1. by rewrite Hb.
    + intros _. eexists. split; [|split; [|split; [|split; [|exact Hsent]]]]; try done.
      by apply delivered_firsts.
Qed.

(** A poll of a network card that is not linked reads packets and drops them on the floor:
    it reports them, sends nothing and keeps their references, which nothing will free since
    the next poll overwrites the array. *)
Theorem nic_poll_unlinked_leaks st sd e rest fl :
  nic_ok st → side_edges sd = Edge e → link e = None → held rest fl →
  ∃ k l fl1 fl', eth_rx_burst (portid st) 0 (pkts st) (Z.of_nat PG_MAX_PKTS_BURST) fl
    = Some ((Z.of_nat k, l), fl1) ∧
    nic_poll st sd fl = Some ((0, Z.of_nat k, set_pkts st l), fl') ∧
    fl_world fl' = fl_world fl1 ∧ held (take k l ++ rest) fl'.
Proof.
  intros Hok He Hn Hh. destruct (poll_received st rest fl Hok Hh)
    as (k&l&fl1&h&Hr&Hk&Hl&Hg&Hs&Hh1&Hh0).
  unfold nic_poll, mbind at 1, M_bind at 1. rewrite Hr. destruct (Z.eqb_spec (Z.of_nat k) 0) as [H0|H0].
  - exists k, l, fl1, fl1. replace k with 0%nat in * by lia. done.
  - exists k, l, fl1, (set_mem fl1 h). split_and!; try done.
    rewrite Nat2Z.id. unfold mbind at 1, M_bind at 1. rewrite Hg.
    unfold nic_poll_forward, edge_of. by rewrite He, M_bind_assoc, M_bind_ret, Hn.
Qed.

End Laws.

(** ** Checksums *)

Lemma put16_lookup d off z d' :
  put16 d off z = Some d' →
  length d' = length d ∧ ∀ i, d' !! i =
    if decide (i = off) then Some (z mod 256)
    else if decide (i = S off) then Some (z / 256 mod 256) else d !! i.
Proof.
  unfold put16. case_decide as Hl; [|done]. intros [= <-].
  assert (length (take off d) = off) as Ht by (rewrite length_take; lia).
  split; [rewrite length_app, Ht; cbn [length app]; rewrite length_drop; lia|]. intros i.
  destruct (decide (i < off)%nat) as [Hi|Hi].
  - rewrite lookup_app_l by lia. rewrite lookup_take_lt by lia.
    rewrite !decide_False by lia. done.
  - rewrite lookup_app_r, Ht by lia. repeat case_decide.
    + subst. by rewrite Nat.sub_diag.
    + subst. by replace (S off - off)%nat with 1%nat by lia.
    + destruct (i - off)%nat as [|[|k]] eqn:Hk; [lia|lia|].
      change (drop (off + 2) d !! k = d !! i). rewrite lookup_drop. f_equal. lia.
Qed.

Lemma put16_some d off z : (off + 2 ≤ length d)%nat → is_Some (put16 d off z).
Proof. intros Hl. unfold put16. rewrite decide_True by done. eauto. Qed.

Definition is_byte (b : Z) : Prop := 0 ≤ b < 256.

Lemma load16_bytes d off :
  Forall is_byte d → (off + 2 ≤ length d)%nat →
  ∃ z, load16 d off = Some z ∧ d !! off = Some (z mod 256) ∧ d !! S off = Some (z / 256 mod 256).
Proof.
  intros HF Hl. destruct (lookup_lt_is_Some_2 d off) as [b0 H0]; [lia|].
  destruct (lookup_lt_is_Some_2 d (S off)) as [b1 H1]; [lia|].
  pose proof (Forall_lookup_1 _ _ _ _ HF H0) as Hb0. pose proof (Forall_lookup_1 _ _ _ _ HF H1) as Hb1.
  unfold is_byte in *. unfold load16, bytes_at. rewrite decide_True by lia.
  rewrite (drop_S _ _ _ H0), (drop_S _ _ _ H1). cbn [take mbind option_bind].
  eexists. split; [done|]. rewrite H0, H1, (Z.mul_comm 256), Z.mod_add, Z.div_add by lia.
  rewrite (Z.div_small b0), Z.add_0_l, !Z.mod_small by lia. done.
Qed.

Section Cksum.

Context (cksum : list Z → list Z → Z).

(** The bytes of a packet with both its checksums cleared. *)
Definition cleared (l2 off : nat) (d d0 : list Z) : Prop :=
  length d0 = length d ∧ ∀ i, d0 !! i =
    if decide (i = l2 + 10 ∨ i = S (l2 + 10) ∨ i = off ∨ i = S off)%nat then Some 0 else d !! i.

(** A nic without checksum offload writes, into an IPv4 packet that carries TCP or UDP,
    the checksum computed over its bytes with both checksum fields cleared, and changes no
    other byte: the checksum of the IPv4 header is put back. *)
Theorem cksum_bytes_fills l2 d proto :
  Forall is_byte d → (2 ≤ l2)%nat → d !! (l2 + 9)%nat = Some proto →
  load16 d (l2 - 2) = Some (PG_CPU_TO_BE_16 ETHER_TYPE_IPv4) →
  proto = TCP_PROTOCOL_NUMBER ∨ proto = UDP_PROTOCOL_NUMBER →
  (l2 + cksum_offset proto + 2 ≤ length d)%nat →
  ∃ d0, cleared l2 (l2 + cksum_offset proto) d d0 ∧
    cksum_bytes cksum l2 d
    = put16 d (l2 + cksum_offset proto) (cksum (drop l2 d0) (drop (l2 + 20) d0)).
Proof.
  intros HF Hl2 Hp Het Hproto Hlen. set (off := (l2 + cksum_offset proto)%nat) in *.
  assert (l2 + 26 ≤ off)%nat as Hoff by (unfold off, cksum_offset; destruct (_ =? _); lia).
  destruct (load16_bytes d (l2 + 10) HF) as (ip&Hip&Hip0&Hip1); [lia|].
  destruct (put16_some d (l2 + 10) 0) as [d1 Hd1]; [lia|].
  pose proof (put16_lookup _ _ _ _ Hd1) as [Hl1 Hd1'].
  destruct (put16_some d1 off 0) as [d0 Hd0]; [lia|].
  pose proof (put16_lookup _ _ _ _ Hd0) as [Hl0 Hd0'].
  set (c := cksum (drop l2 d0) (drop (l2 + 20) d0)).
  destruct (put16_some d0 off c) as [d2 Hd2]; [lia|].
  pose proof (put16_lookup _ _ _ _ Hd2) as [Hl2' Hd2'].
  destruct (put16_some d2 (l2 + 10) ip) as [d3 Hd3]; [lia|].
  pose proof (put16_lookup _ _ _ _ Hd3) as [Hl3 Hd3'].
  destruct (put16_some d off c) as [d4 Hd4]; [lia|].
  pose proof (put16_lookup _ _ _ _ Hd4) as [Hl4 Hd4'].
  exists d0. split.
  - split; [lia|]. intros i. rewrite Hd0', Hd1'. repeat case_decide; subst; try lia; done.
  - fold c. rewrite Hd4. unfold cksum_bytes. rewrite Hp. cbn [mbind option_bind].
    rewrite decide_True, Het by done. cbn [mbind option_bind]. rewrite be16_involutive by done.
    change (negb (ETHER_TYPE_IPv4 =? ETHER_TYPE_IPv4)) with false.
    assert (negb (proto =? TCP_PROTOCOL_NUMBER) && negb (proto =? UDP_PROTOCOL_NUMBER) = false)
      as -> by (destruct Hproto; by subst).
    cbn [orb]. rewrite Hip. cbn [mbind option_bind]. rewrite Hd1. cbn [mbind option_bind].
    fold off. rewrite Hd0. cbn [mbind option_bind]. fold c. rewrite Hd2. cbn [mbind option_bind].
    rewrite Hd3. f_equal. apply list_eq. intros i.
    rewrite Hd3', Hd2', Hd0', Hd1', Hd4'. repeat case_decide; subst; try lia; congruence.
Qed.

End Cksum.

(** ** Initialisation *)

(** A port that answers every call; [log] is the record of the calls. *)
Class CtlLaws (W : Type) `{!EthCtl W} (log : W → list eth_request) : Prop :=
  law_ctl r (fl : flow W) :
    ∃ z fl', eth_ctl r fl = Some (z, fl') ∧ log (fl_world fl') = log (fl_world fl) ++ [r].

Section Init.

Context {W : Type} `{!EthCtl W} (log : W → list eth_request) `{!CtlLaws W log}.
Implicit Types (fl : flow W).

(** The calls a complete initialisation makes. *)
Definition init_script (ifname : string) (port offloads : Z) : list eth_request :=
  (if String.eqb ifname "" then [] else [DevProbe ifname]) ++
  [DevConfigure port 1 1 offloads; RxQueueSetup port 0 128; TxQueueSetup port 0 128 offloads;
   DevStart port; PromiscuousEnable port].

Lemma wp_ctl r (Q : Z → flow W → Prop) fl :
  (∀ z fl', log (fl_world fl') = log (fl_world fl) ++ [r] → Q z fl') → wp (eth_ctl r) Q fl.
Proof.
  intros HQ. apply wp_run. destruct (law_ctl r fl) as (z&fl'&Hr&Hl). exists z, fl'. auto.
Qed.

(** The result of the initialisation of the port of a configuration. *)
Lemma setup_port_spec cfg fl :
  wp (setup_port cfg) (λ o fl',
    log (fl_world fl') = log (fl_world fl) ++
      (if String.eqb (cfg_ifname cfg) "" then [] else [DevProbe (cfg_ifname cfg)]) ∧
    (o = None → is_Some (fl_errp fl'))) fl.
Proof.
  unfold setup_port. destruct (String.eqb (cfg_ifname cfg) ""); cbn [negb].
  - unfold pg_nic_port_count. wp_step. rewrite app_nil_r.
    destruct (_ <? _); [by rewrite wp_ret|]. unfold flow_error. wp_step. eauto.
  - unfold pg_nic_port. rewrite wp_bind. rewrite wp_bind. apply wp_ctl. intros z fl1 Hl1.
    destruct (z =? 0); cbn [negb]; wp_step.
    + destruct (_ <? 0); [|by rewrite wp_ret]. unfold flow_error. wp_step. eauto.
    + unfold flow_error. wp_step. eauto.
Qed.

Lemma init_ports_spec port off fl :
  wp (nic_init_ports port off) (λ r fl',
    (fst r = 0 ∧ log (fl_world fl') = log (fl_world fl) ++
       [DevConfigure port 1 1 (snd r); RxQueueSetup port 0 128; TxQueueSetup port 0 128 (snd r)]) ∨
    (fst r = -1 ∧ is_Some (fl_errp fl') ∧ ∃ k, log (fl_world fl') = log (fl_world fl) ++
       take k [DevConfigure port 1 1 (snd r); RxQueueSetup port 0 128;
               TxQueueSetup port 0 128 (snd r)])) fl.
Proof.
  unfold nic_init_ports, flow_error. wp_step. set (off' := if negb _ then _ else _).
  apply wp_ctl. intros z1 fl1 H1. destruct (z1 <? 0).
  { wp_step. right. split; [done|]. split; [eauto|]. by exists 1%nat. }
  wp_step. apply wp_ctl. intros z2 fl2 H2. rewrite H1, <- app_assoc in H2. destruct (z2 <? 0).
  { wp_step. right. split; [done|]. split; [eauto|]. by exists 2%nat. }
  wp_step. apply wp_ctl. intros z3 fl3 H3. rewrite H2, <- app_assoc in H3. destruct (z3 <? 0).
  - wp_step. right. split; [done|]. split; [eauto|]. by exists 3%nat.
  - wp_step. left. done.
Qed.

Lemma land_bit_test z i :
  0 ≤ i → negb (Z.land z (Z.shiftl 1 i) =? 0) = Z.testbit z i.
Proof.
  intros Hi. rewrite Z.shiftl_1_l. destruct (Z.testbit z i) eqn:Hb.
  - destruct (Z.eqb_spec (Z.land z (2 ^ i)) 0) as [H0|]; [|done].
    apply (f_equal (λ x, Z.testbit x i)) in H0.
    by rewrite Z.land_spec, Hb, Z.pow2_bits_true, Z.bits_0 in H0 by lia.
  - destruct (Z.eqb_spec (Z.land z (2 ^ i)) 0) as [|H0]; [done|]. exfalso. apply H0.
    apply Z.bits_inj'. intros j Hj. rewrite Z.land_spec, Z.bits_0.
    destruct (Z.eq_dec j i) as [->|]; [by rewrite Hb|].
    by rewrite Z.pow2_bits_false, andb_false_r by lia.
Qed.

(** Initialising a network card makes the calls that attach, configure, set up both
    queues, start and open the port in this order and stops at the first that fails. It
    either makes all of them, answers 0 and selects the fast path without software checksums
    exactly when the transmission queue computes both the TCP and the UDP ones, or answers
    -1 with an error set, having made only a beginning of them. *)
Theorem nic_init_sequence null config off fl :
  ∃ ret o off' fl', nic_init null config off fl = Some ((ret, o, off'), fl') ∧
  let ifname := cfg_ifname (brick_config config) in
  (ret = 0 ∧ ∃ st fp, o = Some (st, fp) ∧ nic_ok st ∧
     log (fl_world fl') = log (fl_world fl) ++ init_script ifname (portid st) off' ∧
     let q := tx_queue_offloads (fl_world fl') (portid st) 0 in
     (fp = FP_nic_burst ↔ fst q = 0 ∧ Z.testbit (snd q) 3 = true ∧ Z.testbit (snd q) 2 = true)) ∨
  (ret = -1 ∧ o = None ∧ is_Some (fl_errp fl') ∧
     ∃ k port, (k < length (init_script ifname port off'))%nat ∧
     log (fl_world fl') = log (fl_world fl) ++ take k (init_script ifname port off')).
Proof.
  cbv zeta. set (ifname := cfg_ifname (brick_config config)).
  enough (wp (nic_init null config off) (λ r fl',
    (fst (fst r) = 0 ∧ ∃ st fp, snd (fst r) = Some (st, fp) ∧ nic_ok st ∧
       log (fl_world fl') = log (fl_world fl) ++ init_script ifname (portid st) (snd r) ∧
       (fp = FP_nic_burst ↔ fst (tx_queue_offloads (fl_world fl') (portid st) 0) = 0 ∧
          Z.testbit (snd (tx_queue_offloads (fl_world fl') (portid st) 0)) 3 = true ∧
          Z.testbit (snd (tx_queue_offloads (fl_world fl') (portid st) 0)) 2 = true)) ∨
    (fst (fst r) = -1 ∧ snd (fst r) = None ∧ is_Some (fl_errp fl') ∧
       ∃ k port, (k < length (init_script ifname port (snd r)))%nat ∧
       log (fl_world fl') = log (fl_world fl) ++ take k (init_script ifname port (snd r)))) fl)
    as Hwp.
  { destruct (proj1 (wp_run _ _ _) Hwp) as ([[ret o] off']&fl'&Hr&HQ). by exists ret, o, off', fl'. }
  unfold nic_init. rewrite wp_bind. eapply wp_mono; [apply setup_port_spec|].
  fold ifname. set (pre := if String.eqb ifname "" then _ else _).
  intros o fl0 [H0 Herr]. destruct o as [port|].
  2: { rewrite wp_ret. right. split_and!; [done..|by apply Herr|]. exists (length pre), 0.
       unfold init_script. fold pre. rewrite length_app, take_app_length. cbn [length].
       split; [lia|done]. }
  rewrite wp_bind. eapply wp_mono; [apply init_ports_spec|].
  intros [ret off'] fl1 [(Hret&H1)|(Hret&Herr1&k&H1)]; cbn [fst snd] in *; subst ret;
    [change (0 <? 0) with false|change (-1 <? 0) with true]; cbv iota beta zeta.
  2: { rewrite wp_ret. right. split_and!; [done..|]. exists (length pre + Nat.min k 3)%nat, port.
       unfold init_script. fold pre. rewrite length_app. cbn [length]. split; [lia|].
       rewrite H1, H0, <- app_assoc, take_app_add. f_equal. f_equal.
       by destruct k as [|[|[|[|k]]]]. }
  rewrite wp_bind. apply wp_ctl. intros z2 fl2 H2. destruct (z2 <? 0).
  { unfold flow_error. wp_step. right. split_and!; [done..|eauto|].
    exists (length pre + 4)%nat, port. unfold init_script. fold pre. rewrite length_app.
    cbn [length]. split; [lia|].
    rewrite H2, H1, H0, <- !app_assoc, take_app_add. done. }
  rewrite wp_bind. apply wp_ctl. intros z3 fl3 H3.
  rewrite wp_bind, wp_gets, wp_ret. cbn [fst snd]. left. split; [done|].
  eexists _, _. split; [done|]. split; [by split|]. split.
  { rewrite H3, H2, H1, H0, <- !app_assoc. done. }
  cbn [portid]. destruct (tx_queue_offloads (fl_world fl3) port 0) as [a z]. cbn [fst snd].
  change DEV_TX_OFFLOAD_TCP_CKSUM with (Z.shiftl 1 3).
  change DEV_TX_OFFLOAD_UDP_CKSUM with (Z.shiftl 1 2). rewrite !land_bit_test by lia.
  destruct (Z.eqb_spec a 0), (Z.testbit z 3), (Z.testbit z 2); cbn [andb];
    (split; [intros Hfp; try discriminate Hfp; by split_and!|intros (?&?&?); done]).
Qed.

End Init.

(** ** Witnesses *)

(** A neighbourhood that records its bursts, and a port that takes one packet at a time and
    always has one to read. *)
Record demo_world := mk_demo { dw_sent : list burst_call; dw_wire : list mptr }.

Definition demo_dispatch : Dispatch demo_world := λ p from i l m,
  modify (λ fl, mk_flow (fl_mem fl) (fl_count fl) (fl_errp fl)
    (mk_demo (dw_sent (fl_world fl) ++ [mk_call (Some p) from i l m]) (dw_wire (fl_world fl))));;
  mret 0.

Lemma demo_recording : @Recording demo_world demo_dispatch dw_sent.
Proof. intros p from i l m fl _. eexists 0, _. split; [done|]. split; [done|]. done. Qed.

Definition demo_frame : mbuf := mk_mbuf (replicate 14 0) 14 0 0 0 0 1.

Definition demo_receive (fl : flow demo_world) : mptr := fresh (dom (fl_mem fl) : gset mptr).

Definition demo_eth : EthLib demo_world := {|
  eth_tx_prepare _ _ _ n := mret n;
  eth_tx_burst _ _ l n :=
    let k := Nat.min 1 (Z.to_nat n) in
    modify (λ fl, mk_flow (fl_mem fl) (fl_count fl) (fl_errp fl)
      (mk_demo (dw_sent (fl_world fl)) (dw_wire (fl_world fl) ++ take k l)));;
    mret (Z.of_nat k);
  eth_rx_burst _ _ l _ :=
    match l with
    | [] => mret (0, [])
    | _ :: l =>
        p ← gets demo_receive;
        modify (λ fl, set_mem fl (<[p := demo_frame]> (fl_mem fl)));; mret (1, p :: l)
    end;
  ol_flags _ _ := 0;
|}.

Lemma demo_eth_laws : @EthLaws demo_world demo_eth (λ w _, dw_wire w).
Proof.
  split.
  - intros port q l n fl _ _. eexists _, fl. split; [done|]. done.
  - intros port q l n rest fl Hn Hh. eexists (Nat.min 1 n), _.
    unfold eth_tx_burst. cbn [demo_eth]. rewrite Nat2Z.id.
    split; [done|]. split; [lia|]. split; [done|].
    eapply held_perm; [|exact Hh]. intros x. rewrite !occurs_app.
    rewrite <- (take_drop (Nat.min 1 n) (take n l)) at 2. rewrite occurs_app.
    pose proof (occurs_nonneg x (take (Nat.min 1 n) (take n l))). lia.
  - intros port q [|p0 l] rest fl Hh.
    { exists 0%nat, [], fl. split; [done|]. split; [done|]. split; [done|]. split; [|done].
      by intros p ?%not_elem_of_nil. }
    exists 1%nat, (demo_receive fl :: l), (set_mem fl (<[demo_receive fl := demo_frame]> (fl_mem fl))).
    split; [done|]. split; [cbn; lia|]. split; [done|].
    assert (fl_mem fl !! demo_receive fl = None) as Hnew.
    { apply not_elem_of_dom. unfold demo_receive. exact (is_fresh (dom (fl_mem fl) : gset mptr)). }
    split.
    + intros p ->%list_elem_of_singleton. exists demo_frame. rewrite set_mem_mem, lookup_insert_eq.
      split; [done|]. cbn. lia.
    + rewrite held_alt in Hh |- *. intros x Hx. rewrite set_mem_mem.
      change (take 1 (demo_receive fl :: l) ++ rest) with (demo_receive fl :: rest) in *.
      rewrite occurs_cons in Hx |- *. destruct (decide (x = demo_receive fl)) as [->|Hne].
      * rewrite lookup_insert_eq. exists demo_frame. split; [done|].
        destruct (decide (0 < occurs (demo_receive fl) rest)) as [Hpos|].
        { destruct (Hh _ Hpos) as (v&Hv&_). congruence. }
        pose proof (occurs_nonneg (demo_receive fl) rest). cbn [refcnt demo_frame]. lia.
      * rewrite lookup_insert_ne by done. destruct (Hh x) as (v&Hv&Hc); [lia|].
        exists v. split; [done|lia].
Qed.

Definition demo_nic : pg_nic_state :=
  mk_nic (replicate 64 1%positive) (replicate 64 1%positive) 3 PG_EAST_SIDE.

Definition nic_flow : flow demo_world :=
  mk_flow {[5%positive := mk_mbuf [1] 1 0 0 0 0 1; 6%positive := mk_mbuf [2] 1 0 0 0 0 1]} ∅ None
    (mk_demo [] []).

Lemma nic_flow_held : held [5%positive; 6%positive] nic_flow.
Proof.
  intros q [->| ->%list_elem_of_singleton]%elem_of_cons; (eexists; split; [done|by vm_compute]).
Qed.

Lemma nic_burst_transmits_witness :
  ∃ st' fl', nic_burst (PktLib0 := mem_pktlib) (EthLib0 := demo_eth) demo_nic
    [5%positive; 6%positive] 3 nic_flow = Some ((0, st'), fl') ∧
    dw_wire (fl_world fl') = [5%positive] ∧ held [5%positive; 6%positive] fl'.
Proof.
  destruct (nic_burst_transmits (PktLib0 := mem_pktlib) (PktLaws0 := mem_pktlaws)
    (EthLib0 := demo_eth) (λ w _, dw_wire w) (EthLaws0 := demo_eth_laws) demo_nic
    [5%positive; 6%positive] 3 [5%positive; 6%positive] [5%positive; 6%positive] nic_flow)
    as (k&fl1&fl2&st'&fl'&Hr&_&Hb&_&Hk&Hw&_&Hsame&Hh).
  - by split.
  - unfold is_mask. lia.
  - done.
  - exact nic_flow_held.
  - done.
  - exists st', fl'. split; [exact Hr|]. split; [|exact Hh]. rewrite Hsame.
    vm_compute in Hb. injection Hb as <-%(inj Z.of_nat 1%nat) _. exact Hw.
Defined.

Lemma nic_poll_forwards_witness :
  ∃ k l ret fl', nic_poll (D := demo_dispatch) (PktLib0 := mem_pktlib) (EthLib0 := demo_eth)
    demo_nic (mk_side 1 1 (Edge (mk_edge (Some 9%positive) 0))) nic_flow
  = Some ((ret, Z.of_nat k, set_pkts demo_nic l), fl') ∧ held [5%positive; 6%positive] fl'.
Proof.
  destruct (nic_poll_forwards (Dispatch0 := demo_dispatch) (PktLib0 := mem_pktlib)
    (PktLaws0 := mem_pktlaws) (EthLib0 := demo_eth) (λ w _, dw_wire w)
    (EthLaws0 := demo_eth_laws) dw_sent (Recording0 := demo_recording) demo_nic
    (mk_side 1 1 (Edge (mk_edge (Some 9%positive) 0))) (mk_edge (Some 9%positive) 0) 9
    [5%positive; 6%positive] nic_flow) as (k&l&fl1&ret&fl'&_&_&Hr&Hh&_).
  - by split.
  - done.
  - done.
  - exact nic_flow_held.
  - by exists k, l, ret, fl'.
Defined.

Lemma nic_poll_unlinked_leaks_witness :
  ∃ k l fl', nic_poll (D := demo_dispatch) (PktLib0 := mem_pktlib) (EthLib0 := demo_eth)
    demo_nic (mk_side 1 0 (Edge null_edge)) nic_flow
  = Some ((0, Z.of_nat k, set_pkts demo_nic l), fl') ∧ held (take k l) fl'.
Proof.
  destruct (nic_poll_unlinked_leaks (Dispatch0 := demo_dispatch) (PktLib0 := mem_pktlib)
    (EthLib0 := demo_eth) (λ w _, dw_wire w)
    (EthLaws0 := demo_eth_laws) demo_nic (mk_side 1 0 (Edge null_edge)) null_edge [] nic_flow)
    as (k&l&fl1&fl'&_&Hr&_&Hh).
  - by split.
  - done.
  - done.
  - by intros q ?%not_elem_of_nil.
  - exists k, l, fl'. split; [exact Hr|]. by rewrite app_nil_r in Hh.
Defined.

(** An IPv4 packet that carries UDP, in ethernet. *)
Definition demo_udp : list Z :=
  replicate 12 0 ++ [8; 0] ++ [0x45; 0; 0; 29; 0; 0; 0; 0; 64; 17; 0xab; 0xcd] ++ replicate 8 1
  ++ [0; 53; 0; 53; 0; 9; 7; 7; 0xff].

Lemma cksum_bytes_fills_witness :
  ∃ d0, cleared 14 40 demo_udp d0 ∧
    cksum_bytes (λ _ _, 0x1234) 14 demo_udp = put16 demo_udp 40 0x1234.
Proof.
  destruct (cksum_bytes_fills (λ _ _, 0x1234) 14 demo_udp 17) as (d0&Hd0&Hr).
  - repeat constructor; unfold is_byte; lia.
  - lia.
  - done.
  - done.
  - by right.
  - vm_compute. lia.
  - exists d0. split; [exact Hd0|exact Hr].
Defined.

(** A port whose calls all succeed, with one device present. *)
Definition demo_ctl : EthCtl (list eth_request) := {|
  eth_ctl r := modify (λ fl, mk_flow (fl_mem fl) (fl_count fl) (fl_errp fl) (fl_world fl ++ [r]));;
    mret 0;
  matching_port _ _ := Some 0;
  dev_count_avail _ := 1;
  rx_offload_capa _ _ := 0;
  tx_offload_capa _ _ := DEV_TX_OFFLOAD_CHECK;
  tx_queue_offloads _ _ _ := (0, DEV_TX_OFFLOAD_CHECK);
  dev_mtu _ _ := (0, 1500);
  dev_mac _ _ := replicate 6 0;
  stats_ibytes _ _ := 0;
  stats_obytes _ _ := 0;
|}.

Lemma demo_ctl_laws : @CtlLaws (list eth_request) demo_ctl id.
Proof. intros r fl. by eexists 0, _. Qed.

Lemma nic_init_sequence_witness :
  ∃ r fl', nic_init (EthCtl0 := demo_ctl) 1 (nic_config_new "nic0" (Some "net_ring0") 0) 0
    (mk_flow ∅ ∅ None []) = Some (r, fl') ∧ fl_world fl' = init_script "net_ring0" 0 12.
Proof.
  destruct (nic_init_sequence (EthCtl0 := demo_ctl) id (CtlLaws0 := demo_ctl_laws) 1
    (nic_config_new "nic0" (Some "net_ring0") 0) 0 (mk_flow ∅ ∅ None []))
    as (ret&o&off'&fl'&Hr&_).
  exists (ret, o, off'), fl'. split; [exact Hr|]. vm_compute in Hr. injection Hr as _ _ _ <-.
  reflexivity.
Defined.

(** ** Behaviours that differ from the documentation *)

(** A nic created with an empty interface name is bound to the first port and not refused,
    and an offload enabled for one port stays requested for the next one, even if that one
    has no offload at all: the port configuration is shared by all ports. *)
Theorem nic_empty_name_is_port_0 :
  setup_port (EthCtl0 := demo_ctl) (brick_config (nic_config_new "nic0" (Some "") 7))
    (mk_flow ∅ ∅ None []) = Some (Some 0, mk_flow ∅ ∅ None []).
Proof. by vm_compute. Qed.

(** The second of two ports is asked for the offloads of the first. *)
Definition two_ports : EthCtl (list eth_request) := {|
  eth_ctl := eth_ctl (EthCtl := demo_ctl);
  matching_port _ _ := Some 0;
  dev_count_avail _ := 2;
  rx_offload_capa _ _ := 0;
  tx_offload_capa _ port := if port =? 0 then DEV_TX_OFFLOAD_CHECK else 0;
  tx_queue_offloads _ _ _ := (0, 0);
  dev_mtu _ _ := (0, 1500);
  dev_mac _ _ := replicate 6 0;
  stats_ibytes _ _ := 0;
  stats_obytes _ _ := 0;
|}.

Theorem nic_offloads_leak_to_next_port :
  ∃ r1 r2 fl', (r1 ← nic_init_ports (EthCtl0 := two_ports) 0 0;
     r2 ← nic_init_ports (EthCtl0 := two_ports) 1 (snd r1); mret (r1, r2)) (mk_flow ∅ ∅ None [])
    = Some ((r1, r2), fl') ∧
    DevConfigure 1 1 1 DEV_TX_OFFLOAD_CHECK ∈ fl_world fl'.
Proof. eexists _, _, _. split; [vm_compute; reflexivity|]. vm_compute. set_solver. Qed.
