(* ===== verification/Tap.v ===== *)
(** * The tap brick ([src/tap.c])

    A monopole over a tap interface of the kernel: a burst writes its packets to the file
    of the interface, a poll reads frames into 64 packets the brick allocated once. The
    kernel is known through the class [TapLib] and its documented behaviour, [TapLaws].
    Memory of a packet beyond its length is not in the record [mbuf]: the bytes [read]
    stores there appear when [rte_pktmbuf_append] covers them. *)

From S2P Require Import Prelude Bitmask Common Brick BrickInv Burst Packets Accumulator Network.
From S2P Require Import Endpoints Devices.

Definition IFNAMSIZ : nat := 16.
Definition EAGAIN : Z := 11.

(** [sizeof(struct rte_mbuf)] and [RTE_PKTMBUF_HEADROOM] of the default configuration of
    DPDK on 64-bit hosts. *)
Definition sizeof_rte_mbuf : nat := 128.
Definition RTE_PKTMBUF_HEADROOM : nat := 128.
Definition PG_MBUF_SIZE : nat := 2048 + sizeof_rte_mbuf + RTE_PKTMBUF_HEADROOM.

(** [struct pg_tap_config] and [struct pg_tap_state]; of [ifr], the name. *)
Record pg_tap_config := mk_tap_config { cfg_ifname : string }.

Record pg_tap_state := mk_tap {
  tap_fd : Z;
  ifr_name : string;
  pkts : pkts_t;
  output : pg_side;
}.

Definition pg_tap_ifname (st : pg_tap_state) : string := ifr_name st.

(** [strncpy] of [IFNAMSIZ - 1] bytes into zeroed memory. *)
Definition tap_config_new (nm : string) (ifname : option string) : pg_brick_config pg_tap_config :=
  pg_brick_config_init
    (mk_tap_config (match ifname with Some s => String.substring 0 (IFNAMSIZ - 1) s | None => "" end))
    nm 1 1 PG_MONOPOLE.

(** ** The kernel *)

Class TapLib (W : Type) := {
  (** [read(fd, data, PG_MBUF_SIZE)]: [errno], or the bytes stored. *)
  tap_read : Z → M (flow W) (Z + list Z);
  (** [write(fd, data, len)]: [errno] when it fails. *)
  tap_write : Z → list Z → M (flow W) (option Z);
  (** [open] of the tun device, [close], and the two [ioctl]s of [tap_init]: the name the
      kernel gives the interface, and a result. *)
  tun_open : M (flow W) Z;
  fd_close : Z → M (flow W) unit;
  ioctl_TUNSETIFF : Z → string → M (flow W) (option string);
  ioctl_TUNSETPERSIST : Z → M (flow W) Z;
  (** [SIOCGIFHWADDR] of an interface. *)
  ioctl_SIOCGIFHWADDR : string → M (flow W) (option (list Z));
  (** [rte_pktmbuf_reset] and [rte_pktmbuf_alloc_bulk]. *)
  pktmbuf_reset : mptr → M (flow W) unit;
  alloc_bulk : nat → M (flow W) (option pkts_t);
  strerror : Z → string;
}.

Section Tap.

Context {W : Type} `{D : !Dispatch W, !PktLib W, !TapLib W}.
(** The memory behind [rte_pktmbuf_mtod] of a packet that was just reset. *)
Context (data_room : nat).
Implicit Types st : pg_tap_state.

Definition pg_tap_get_mac st : M (flow W) (Z * list Z) :=
  o ← ioctl_SIOCGIFHWADDR (pg_tap_ifname st);
  match o with
  | None => mret (-1, [])
  | Some sa_data => mret (0, take 6 sa_data)
  end.

Fixpoint write_loop (fd : Z) (pkts : pkts_t) (l : list nat) : M (flow W) Z :=
  match l with
  | [] => mret 0
  | i :: l =>
      packet ← unwrap (pkts !! i);
      v ← load_pkt packet;
      d ← unwrap (bytes_at (data v) 0 (Z.to_nat (pkt_len v)));
      r ← tap_write fd d;
      match r with
      | Some errno => flow_error (pg_error_new (strerror errno));; mret (-1)
      | None => write_loop fd pkts l
      end
  end.

Definition tap_burst st (pkts : pkts_t) (pkts_mask : Z) : M (flow W) Z :=
  write_loop (tap_fd st) pkts (PG_FOREACH_BIT pkts_mask).

(** The loop of [tap_poll]: the number of packets read, or [None] for the error return. A
    turn that meets a truncated frame does not count, so the number of turns has no bound
    but the fuel. A frame longer than the memory of the packet is a write outside of it. *)
Fixpoint read_loop (fuel : nat) (fd : Z) (pkts : pkts_t) (nb_pkts : nat)
    : M (flow W) (option nat) :=
  match fuel with
  | O => crash
  | S fuel =>
      if decide (nb_pkts < PG_MAX_PKTS_BURST)%nat then
        packet ← unwrap (pkts !! nb_pkts);
        pktmbuf_reset packet;;
        r ← tap_read fd;
        match r with
        | inl errno =>
            if errno =? EAGAIN then mret (Some nb_pkts)
            else flow_error (pg_error_new (strerror errno));; mret None
        | inr d =>
            massert (length d <=? data_room)%nat;;
            if (length d =? PG_MBUF_SIZE)%nat then read_loop fuel fd pkts nb_pkts
            else
              ok ← pktmbuf_append packet (length d);
              (if (ok : bool) then write_bytes Append packet d else mret tt);;
              v ← load_pkt packet;
              v ← unwrap (pg_utils_guess_metadata v);
              store_pkt packet v;;
              read_loop fuel fd pkts (S nb_pkts)
        end
      else mret (Some nb_pkts)
  end.

(** [tap_poll]: the result and the packet count; [pkts_cnt] is the value found there. *)
Definition tap_poll (fuel : nat) st (sd : pg_brick_side) (pkts_cnt : Z) : M (flow W) (Z * Z) :=
  e ← edge_of sd;
  match link e with
  | None => mret (0, pkts_cnt)
  | Some n =>
      o ← read_loop fuel (tap_fd st) (pkts st) 0;
      match o with
      | None => mret (-1, pkts_cnt)
      | Some nb_pkts =>
          let pkts_cnt := u16 (Z.of_nat nb_pkts) in
          if (nb_pkts =? 0)%nat then mret (0, pkts_cnt)
          else
            ret ← pg_brick_burst (Some n) (output st) (pair_index e) (pkts st)
                    (pg_mask_firsts (u8 (Z.of_nat nb_pkts)));
            mret (ret, pkts_cnt)
      end
  end.

(** The error exit of [tap_init]. *)
Definition init_error (fd : Z) (msg : string) : M (flow W) (option pg_tap_state) :=
  flow_error (pg_error_new msg);; fd_close fd;; mret None.

(** [tap_init]: the state, or [None] for the result -1. *)
Definition tap_init (config : pg_brick_config pg_tap_config) : M (flow W) (option pg_tap_state) :=
  fd ← tun_open;
  if fd <? 0 then flow_error (pg_error_new "Cannot open /dev/net/tun");; mret None
  else
    o ← ioctl_TUNSETIFF fd (cfg_ifname (brick_config config));
    match o with
    | None => init_error fd "ioctl error (TUNSETIFF)"
    | Some ifname =>
        r ← ioctl_TUNSETPERSIST fd;
        if r <? 0 then init_error fd "ioctl error (TUNSETPERSIST)"
        else
          o ← alloc_bulk PG_MAX_PKTS_BURST;
          match o with
          | None => init_error fd "packet allocation failed"
          | Some l => mret (Some (mk_tap fd ifname l PG_WEST_SIDE))
          end
    end.

Definition tap_destroy st : M (flow W) unit :=
  fd_close (tap_fd st);;
  pg_packets_free (pkts st) (pg_mask_firsts (u8 (Z.of_nat PG_MAX_PKTS_BURST))).

Definition tap_link st (side : pg_side) : pg_tap_state :=
  mk_tap (tap_fd st) (ifr_name st) (pkts st) (pg_flip_side side).
Definition tap_get_side st : pg_side := pg_flip_side (output st).

End Tap.

(** ** The documented behaviour of the kernel

    [backlog] is the frames that wait to be read, [written] those that were written,
    [opened] the files that are open. *)
Class TapLaws (W : Type) `{!PktLib W, !TapLib W} (data_room : nat)
    (backlog written : W → list (list Z)) (opened : W → gset Z) : Prop := {
  law_read_empty fd (fl : flow W) :
    backlog (fl_world fl) = [] → tap_read fd fl = Some (inl EAGAIN, fl);
  law_read fd (fl : flow W) f fs :
    backlog (fl_world fl) = f :: fs →
    ∃ w, tap_read fd fl = Some (inr f, mk_flow (fl_mem fl) (fl_count fl) (fl_errp fl) w) ∧
      backlog w = fs;
  law_write fd d (fl : flow W) :
    ∃ r w, tap_write fd d fl = Some (r, mk_flow (fl_mem fl) (fl_count fl) (fl_errp fl) w) ∧
      written w = if r then written (fl_world fl) else written (fl_world fl) ++ [d];
  law_reset p v (fl : flow W) :
    fl_mem fl !! p = Some v →
    pktmbuf_reset p fl
    = Some (tt, set_mem fl (<[p := mk_mbuf [] 0 0 0 0 (udata64 v) (refcnt v)]> (fl_mem fl)));
  law_room p v n (fl : flow W) :
    fl_mem fl !! p = Some v → data v = [] → (n ≤ data_room)%nat →
    ∃ junk, length junk = n ∧ pktmbuf_append p n fl
      = Some (true, set_mem fl (<[p := grown v (data v ++ junk) n]> (fl_mem fl)));
  law_open (fl : flow W) :
    ∃ fd w, tun_open fl = Some (fd, mk_flow (fl_mem fl) (fl_count fl) (fl_errp fl) w) ∧
      (if fd <? 0 then opened w = opened (fl_world fl)
       else fd ∉ opened (fl_world fl) ∧ opened w = {[fd]} ∪ opened (fl_world fl));
  law_close fd (fl : flow W) :
    ∃ w, fd_close fd fl = Some (tt, mk_flow (fl_mem fl) (fl_count fl) (fl_errp fl) w) ∧
      opened w = opened (fl_world fl) ∖ {[fd]};
  law_setiff fd s (fl : flow W) :
    ∃ o fl', ioctl_TUNSETIFF fd s fl = Some (o, fl') ∧
      opened (fl_world fl') = opened (fl_world fl);
  law_persist fd (fl : flow W) :
    ∃ r fl', ioctl_TUNSETPERSIST fd fl = Some (r, fl') ∧
      opened (fl_world fl') = opened (fl_world fl);
  law_alloc n (fl : flow W) :
    ∃ o fl', alloc_bulk n fl = Some (o, fl') ∧ opened (fl_world fl') = opened (fl_world fl) ∧
      ∀ l, o = Some l → length l = n;
}.

Section Laws.

Context {W : Type} `{!Dispatch W, !PktLib W, !PktLaws W, !TapLib W}.
Context (data_room : nat) (backlog written : W → list (list Z)) (opened : W → gset Z).
Context `{!TapLaws W data_room backlog written opened}.
Implicit Types (fl : flow W) (st : pg_tap_state).

(** The packets at some positions of an array carry these frames. *)
Definition carries fl (l : pkts_t) (js : list nat) (frames : list (list Z)) : Prop :=
  Forall2 (λ j f, ∃ p v, l !! j = Some p ∧ fl_mem fl !! p = Some v ∧
    bytes_at (data v) 0 (Z.to_nat (pkt_len v)) = Some f) js frames.

Lemma carries_mem fl fl' l js frames :
  fl_mem fl' = fl_mem fl → carries fl l js frames → carries fl' l js frames.
Proof. unfold carries. by intros ->. Qed.

Lemma write_loop_spec fd (l : pkts_t) js frames fl :
  carries fl l js frames →
  ∃ ret k fl', write_loop fd l js fl = Some (ret, fl') ∧ fl_mem fl' = fl_mem fl ∧
    written (fl_world fl') = written (fl_world fl) ++ take k frames ∧
    (ret = 0 ∧ k = length frames ∨ ret = -1 ∧ (k < length frames)%nat ∧ is_Some (fl_errp fl')).
Proof.
  revert frames fl. induction js as [|j js IH]; intros frames fl Hc.
  { apply Forall2_nil_inv_l in Hc as ->. exists 0, 0%nat, fl. split; [done|]. split; [done|].
    rewrite app_nil_r. auto. }
  apply Forall2_cons_inv_l in Hc as (f&fs&(p&v&Hp&Hv&Hf)&Hc&->). cbn [write_loop].
  rewrite Hp. cbn [unwrap]. rewrite M_bind_ret. unfold load_pkt. rewrite M_bind_assoc.
  unfold mbind at 1, M_bind at 1, gets. rewrite Hv. cbn [unwrap]. rewrite M_bind_ret, Hf.
  cbn [unwrap]. rewrite M_bind_ret. unfold mbind at 1, M_bind at 1.
  destruct (law_write (backlog := backlog) (data_room := data_room) (opened := opened) fd f fl)
    as (r&w&->&Hw). destruct r as [errno|].
  - eexists (-1), 0%nat, _. split; [done|]. split; [done|]. cbn. rewrite app_nil_r, Hw.
    split; [done|]. right. split; [done|]. split; [lia|eauto].
  - destruct (IH fs (mk_flow (fl_mem fl) (fl_count fl) (fl_errp fl) w)) as (ret&k&fl'&Hr&Hm&Hk&Hres).
    { by eapply carries_mem; [|exact Hc]. }
    exists ret, (S k), fl'. split; [exact Hr|]. split; [exact Hm|]. split.
    + rewrite Hk. cbn [fl_world take]. rewrite Hw, <- app_assoc. done.
    + cbn [length]. destruct Hres as [[-> ->]|(->&Hlt&He)]; [by left|]. right.
      split; [done|]. split; [lia|done].
Qed.

(** The array of the brick: 64 distinct packets that are in memory. *)
Definition tap_ok fl st : Prop :=
  length (pkts st) = PG_MAX_PKTS_BURST ∧ NoDup (pkts st) ∧
  ∀ p, p ∈ pkts st → is_Some (fl_mem fl !! p).

(** The packets at the start of an array hold these frames. *)
Definition filled fl (l : pkts_t) (frames : list (list Z)) : Prop :=
  ∀ i f, frames !! i = Some f → ∃ p v, l !! i = Some p ∧ fl_mem fl !! p = Some v ∧
    data v = f ∧ pkt_len v = Z.of_nat (length f).

Lemma filled_update fl fl' (l : pkts_t) frames p :
  NoDup l → l !! length frames = Some p →
  (∀ q, q ≠ p → fl_mem fl' !! q = fl_mem fl !! q) → filled fl l frames → filled fl' l frames.
Proof.
  intros Hnd Hp Hsame Hf i f Hi. destruct (Hf i f Hi) as (q&v&Hq&Hv&?&?). exists q, v.
  rewrite Hsame; [done|]. intros ->. pose proof (NoDup_lookup _ _ _ _ Hnd Hp Hq).
  apply lookup_lt_Some in Hi. lia.
Qed.

(** One frame stored in a packet that was reset. *)
Lemma store_frame fl p v f :
  fl_mem fl !! p = Some v → data v = [] → pkt_len v = 0 →
  (length f ≤ data_room)%nat → (14 ≤ length f)%nat →
  ∃ n, ∀ (A : Type) (k : M (flow W) A), (ok ← pktmbuf_append p (length f);
     (if (ok : bool) then write_bytes Append p f else mret tt);;
     v ← load_pkt p;
     v ← unwrap (pg_utils_guess_metadata v);
     store_pkt p v;; k) fl
    = k (set_mem fl (<[p := set_l2_len (grown v f (length f)) n]> (fl_mem fl))).
Proof.
  intros Hv Hd Hl Hroom Heth.
  destruct (law_room (backlog := backlog) (written := written) (opened := opened)
    p v (length f) fl Hv Hd Hroom) as (junk&Hj&Ha).
  destruct (Rxtx.guess_metadata_ok (grown v f (length f))) as [n Hn]; [done|].
  exists n. intros A k. unfold mbind at 1, M_bind at 1. rewrite Ha. unfold mbind at 1, M_bind at 1.
  pose proof (write_spec fl Append p v f junk Hj) as Hw. cbv zeta iota in Hw.
  rewrite Hw. unfold load_pkt, gets. rewrite M_bind_assoc. unfold mbind at 1, M_bind at 1.
  rewrite set_mem_mem, lookup_insert_eq. cbn [unwrap]. rewrite M_bind_ret.
  unfold with_bytes. rewrite Hd. cbn [app].
  rewrite Hn. cbn [unwrap]. rewrite M_bind_ret. unfold store_pkt, modify, mbind, M_bind.
  rewrite set_mem_mem, insert_insert_eq. done.
Qed.

(** A frame of the backlog that fits its packet and has an ethernet header, or that was cut. *)
Definition readable (f : list Z) : Prop :=
  (length f ≤ data_room)%nat ∧ (14 ≤ length f)%nat.

Definition whole (f : list Z) : bool := negb (length f =? PG_MBUF_SIZE)%nat.

Lemma reset_packet fl p v (fs : list (list Z)) :
  fl_mem fl !! p = Some v →
  let v0 := mk_mbuf [] 0 0 0 0 (udata64 v) (refcnt v) in
  pktmbuf_reset p fl = Some (tt, set_mem fl (<[p := v0]> (fl_mem fl))).
Proof.
  intros Hv. by apply (law_reset (data_room := data_room) (backlog := backlog)
    (written := written) (opened := opened)).
Qed.

(** The packets stay in memory. *)
Lemma live_insert (l : pkts_t) (m : gmap mptr mbuf) p v :
  (∀ q, q ∈ l → is_Some (m !! q)) → ∀ q, q ∈ l → is_Some (<[p := v]> m !! q).
Proof.
  intros Hl q Hq. destruct (decide (q = p)) as [->|].
  - rewrite lookup_insert_eq. eauto.
  - rewrite lookup_insert_ne by done. by apply Hl.
Qed.

Lemma read_loop_spec fuel fd (l : pkts_t) done_ fl :
  length l = PG_MAX_PKTS_BURST → NoDup l → (∀ p, p ∈ l → is_Some (fl_mem fl !! p)) →
  (length done_ ≤ 64)%nat → filled fl l done_ →
  Forall readable (backlog (fl_world fl)) → (length (backlog (fl_world fl)) < fuel)%nat →
  ∃ consumed fl', read_loop data_room fuel fd l (length done_) fl
    = Some (Some (length (done_ ++ filter whole consumed)), fl') ∧
    backlog (fl_world fl) = consumed ++ backlog (fl_world fl') ∧
    filled fl' l (done_ ++ filter whole consumed) ∧
    (length (done_ ++ filter whole consumed) ≤ 64)%nat ∧
    (length (done_ ++ filter whole consumed) = 64%nat ∨ backlog (fl_world fl') = []) ∧
    fl_errp fl' = fl_errp fl.
Proof.
  intros Hlen Hnd. revert done_ fl.
  induction fuel as [|fuel IH]; intros dn fl Hlive Hdn Hfill HF Hfuel; [lia|].
  cbn [read_loop]. case_decide as Hlt.
  2: { exists [], fl. rewrite filter_nil, app_nil_r. unfold PG_MAX_PKTS_BURST in Hlt.
       split_and!; try done. left. lia. }
  destruct (lookup_lt_is_Some_2 l (length dn)) as [p Hp]; [by rewrite Hlen|].
  destruct (Hlive p) as [v Hv]; [by eapply list_elem_of_lookup_2|].
  rewrite Hp. cbn [unwrap]. rewrite M_bind_ret. unfold mbind at 1, M_bind at 1.
  rewrite (reset_packet fl p v [] Hv). cbv zeta.
  set (v0 := mk_mbuf [] 0 0 0 0 _ _). set (fl0 := set_mem fl _).
  assert (filled fl0 l dn) as Hfill0.
  { eapply filled_update; [done|done| |done]. intros q Hq. unfold fl0. rewrite set_mem_mem.
    by rewrite lookup_insert_ne. }
  unfold mbind at 1, M_bind at 1. destruct (backlog (fl_world fl)) as [|f fs] eqn:Hb.
  { rewrite (law_read_empty (data_room := data_room) (written := written) (opened := opened)) by done.
    cbn [Z.eqb]. exists [], fl0. rewrite filter_nil, app_nil_r. change (EAGAIN =? EAGAIN) with true.
    split_and!; try done. by right. }
  destruct (law_read (data_room := data_room) (written := written) (opened := opened)
    fd fl0 f fs Hb) as (w&->&Hw). apply Forall_cons in HF as [[Hroom Heth] HF].
  rewrite (proj2 (Nat.leb_le _ _) Hroom). cbn [massert]. rewrite M_bind_ret.
  set (fl1 := mk_flow (fl_mem fl0) _ _ w). change (backlog (fl_world fl1) = fs) in Hw.
  assert (∀ q, q ∈ l → is_Some (fl_mem fl1 !! q)) as Hlive1
    by (exact (live_insert l (fl_mem fl) p v0 Hlive)).
  destruct (Nat.eqb_spec (length f) PG_MBUF_SIZE) as [Hcut|Hwhole].
  { destruct (IH dn fl1) as (consumed&fl'&Hr&Hcons&Hrest); try done;
      [by rewrite Hw|rewrite Hw; cbn [length] in Hfuel; lia|].
    exists (f :: consumed), fl'. rewrite filter_cons_False
      by (unfold whole; rewrite Hcut, Nat.eqb_refl; by intros []).
    split; [exact Hr|]. split; [|exact Hrest]. cbn [app]. by rewrite <- Hcons, Hw. }
  destruct (store_frame fl1 p v0 f) as (n&Hstore); [|done|done|done|done|].
  { unfold fl1, fl0. cbn [fl_mem set_mem]. apply lookup_insert_eq. }
  rewrite Hstore. set (v1 := set_l2_len _ n). set (fl2 := set_mem fl1 _).
  destruct (IH (dn ++ [f]) fl2) as (consumed&fl'&Hr&Hcons&Hrest).
  { exact (live_insert l (fl_mem fl1) p v1 Hlive1). }
  { rewrite length_app. unfold PG_MAX_PKTS_BURST in Hlt. cbn [length]. lia. }
  { intros i g [Hi|[-> ->]]%lookup_snoc_Some.
    - destruct Hi as [Hi1 Hi2]. eapply (filled_update fl0); [done|done| |done|done].
      intros q Hq. unfold fl2. rewrite set_mem_mem. by rewrite lookup_insert_ne.
    - exists p, v1. split; [done|]. unfold fl2. rewrite set_mem_mem, lookup_insert_eq. done. }
  { change (fl_world fl2) with (fl_world fl1). by rewrite Hw. }
  { change (fl_world fl2) with (fl_world fl1). rewrite Hw. cbn [length] in Hfuel. lia. }
  assert (length (dn ++ [f]) = S (length dn)) as Hs by (rewrite length_app; cbn; lia).
  rewrite Hs in Hr. exists (f :: consumed), fl'.
  rewrite filter_cons_True
    by (unfold whole; destruct (Nat.eqb_spec (length f) PG_MBUF_SIZE); [done|exact I]).
  rewrite (cons_middle f dn), app_assoc. split; [exact Hr|]. split; [|exact Hrest].
  change (fl_world fl2) with (fl_world fl1) in Hcons. cbn [app]. by rewrite <- Hcons, Hw.
Qed.

(** A burst into the tap writes the frames of its packets to the interface, in order;
    it stops at the first write that fails, with -1 and an error, after having written
    exactly the frames before it; it changes no packet. *)
Theorem tap_burst_writes st (l : pkts_t) mask frames fl :
  carries fl l (PG_FOREACH_BIT mask) frames →
  ∃ ret k fl', tap_burst st l mask fl = Some (ret, fl') ∧ fl_mem fl' = fl_mem fl ∧
    written (fl_world fl') = written (fl_world fl) ++ take k frames ∧
    (ret = 0 ∧ k = length frames ∨ ret = -1 ∧ (k < length frames)%nat ∧ is_Some (fl_errp fl')).
Proof. apply write_loop_spec. Qed.


Lemma open_close (fd : Z) (X : gset Z) : fd ∉ X → ({[fd]} ∪ X) ∖ {[fd]} = X.
Proof. set_solver. Qed.

Lemma init_error_spec fd msg fl :
  ∃ fl', init_error fd msg fl = Some (None, fl') ∧ is_Some (fl_errp fl') ∧
    opened (fl_world fl') = opened (fl_world fl) ∖ {[fd]}.
Proof.
  unfold init_error, flow_error, modify, mbind, M_bind. cbv iota beta.
  set (fl0 := mk_flow _ _ _ _).
  destruct (law_close (data_room := data_room) (backlog := backlog) (written := written) fd fl0)
    as (w&->&Hw). eexists. split; [done|]. split; [by eexists|exact Hw].
Qed.

(** The tap keeps its file open exactly as long as the brick lives: an initialisation
    that fails closes the file it opened and reports an error, one that succeeds leaves one
    more file open, and destroying the brick closes it again. *)
Theorem tap_init_closes config fl :
  ∃ o fl', tap_init config fl = Some (o, fl') ∧
    match o with
    | None => opened (fl_world fl') = opened (fl_world fl) ∧ is_Some (fl_errp fl')
    | Some st =>
        tap_fd st ∉ opened (fl_world fl) ∧ length (pkts st) = PG_MAX_PKTS_BURST ∧
        opened (fl_world fl') = {[tap_fd st]} ∪ opened (fl_world fl) ∧
        ∀ fl2, opened (fl_world fl2) = opened (fl_world fl') → held (pkts st) fl2 →
          ∃ fl3, tap_destroy st fl2 = Some (tt, fl3) ∧
            opened (fl_world fl3) = opened (fl_world fl)
    end.
Proof.
  unfold tap_init, mbind at 1, M_bind at 1.
  destruct (law_open (data_room := data_room) (backlog := backlog) (written := written) fl)
    as (fd&w&->&Hopen). set (fl0 := mk_flow _ _ _ w). change w with (fl_world fl0) in Hopen.
  destruct (fd <? 0).
  { eexists None, _. split; [done|]. split; [done|by eexists]. }
  destruct Hopen as [Hnew Hopen].
  assert (∀ fl1 msg, opened (fl_world fl1) = opened (fl_world fl0) →
    ∃ o fl', init_error fd msg fl1 = Some (o, fl') ∧
      o = None ∧ opened (fl_world fl') = opened (fl_world fl) ∧ is_Some (fl_errp fl')) as Herr.
  { intros fl1 msg H1. destruct (init_error_spec fd msg fl1) as (fl'&Hr&Hs&Ho).
    exists None, fl'. split_and!; try done. rewrite Ho, H1, Hopen. by apply open_close. }
  unfold mbind at 1, M_bind at 1.
  destruct (law_setiff (data_room := data_room) (backlog := backlog) (written := written)
    fd (cfg_ifname (brick_config config)) fl0) as (o&fl1&->&H1).
  destruct o as [ifname|];
    [|destruct (Herr fl1 "ioctl error (TUNSETIFF)" H1) as (?&fl'&->&->&?&?); by eexists None, fl'].
  unfold mbind at 1, M_bind at 1.
  destruct (law_persist (data_room := data_room) (backlog := backlog) (written := written)
    fd fl1) as (r&fl2&->&H2). rewrite H1 in H2.
  destruct (r <? 0);
    [destruct (Herr fl2 "ioctl error (TUNSETPERSIST)" H2) as (?&fl'&->&->&?&?);
     by eexists None, fl'|].
  unfold mbind at 1, M_bind at 1.
  destruct (law_alloc (data_room := data_room) (backlog := backlog) (written := written)
    PG_MAX_PKTS_BURST fl2) as (o&fl3&->&H3&Hlen). rewrite H2 in H3.
  destruct o as [l|];
    [|destruct (Herr fl3 "packet allocation failed" H3) as (?&fl'&->&->&?&?); by eexists None, fl'].
  eexists (Some (mk_tap fd ifname l PG_WEST_SIDE)), fl3. split; [done|]. cbn [tap_fd pkts].
  split_and!; [done|by apply Hlen|by rewrite H3|]. intros flb Hb Hheld.
  unfold tap_destroy. unfold mbind, M_bind. cbn [tap_fd pkts].
  destruct (law_close (data_room := data_room) (backlog := backlog) (written := written) fd flb)
    as (w'&->&Hw'). set (flc := mk_flow _ _ _ w').
  destruct (free_list_held l (PG_FOREACH_BIT (pg_mask_firsts (u8 (Z.of_nat PG_MAX_PKTS_BURST)))) l [] flc)
    as (h&Hf&_).
  { rewrite firsts_selected; [|unfold PG_MAX_PKTS_BURST; lia|by rewrite Hlen].
    rewrite take_ge; [done|by rewrite Hlen]. }
  { rewrite app_nil_r. exact Hheld. }
  exists (set_mem flc h). split; [exact Hf|]. change (fl_world (set_mem flc h)) with w'.
  rewrite Hw'. rewrite Hb, H3, Hopen. by apply open_close.
Qed.

End Laws.

(** ** Witnesses *)

(** A kernel with one free descriptor, a backlog of frames and a file that refuses empty
    frames. *)
Record tap_world := mk_tw {
  tw_backlog : list (list Z);
  tw_written : list (list Z);
  tw_opened : gset Z;
  tw_sent : list burst_call;
}.

Definition set_world {W} (w : W → W) : M (flow W) unit :=
  modify (λ fl, mk_flow (fl_mem fl) (fl_count fl) (fl_errp fl) (w (fl_world fl))).

Definition tap_dispatch : Dispatch tap_world := λ p from i l m,
  set_world (λ w, mk_tw (tw_backlog w) (tw_written w) (tw_opened w)
    (tw_sent w ++ [mk_call (Some p) from i l m]));; mret 0.

Definition demo_kernel : TapLib tap_world := {|
  tap_read _ :=
    fs ← gets (λ fl, tw_backlog (fl_world fl));
    match fs with
    | [] => mret (inl EAGAIN)
    | f :: fs => set_world (λ w, mk_tw fs (tw_written w) (tw_opened w) (tw_sent w));; mret (inr f)
    end;
  tap_write _ d :=
    match d with
    | [] => mret (Some 5)
    | _ => set_world (λ w, mk_tw (tw_backlog w) (tw_written w ++ [d]) (tw_opened w) (tw_sent w));;
        mret None
    end;
  tun_open :=
    used ← gets (λ fl, bool_decide (7 ∈ tw_opened (fl_world fl)));
    if (used : bool) then mret (-1)
    else set_world (λ w, mk_tw (tw_backlog w) (tw_written w) ({[7]} ∪ tw_opened w) (tw_sent w));;
      mret 7;
  fd_close fd :=
    set_world (λ w, mk_tw (tw_backlog w) (tw_written w) (tw_opened w ∖ {[fd]}) (tw_sent w));
  ioctl_TUNSETIFF _ s := mret (Some s);
  ioctl_TUNSETPERSIST _ := mret 0;
  ioctl_SIOCGIFHWADDR _ := mret None;
  pktmbuf_reset p :=
    v ← load_pkt p; store_pkt p (mk_mbuf [] 0 0 0 0 (udata64 v) (refcnt v));
  alloc_bulk n := mret (Some (replicate n 1%positive));
  strerror _ := "Input/output error";
|}.

Lemma demo_kernel_laws room :
  @TapLaws tap_world mem_pktlib demo_kernel room tw_backlog tw_written tw_opened.
Proof.
  split; unfold tap_read, tap_write, tun_open, fd_close, ioctl_TUNSETIFF, ioctl_TUNSETPERSIST,
    pktmbuf_reset, alloc_bulk, pktmbuf_append; cbn [demo_kernel mem_pktlib].
  - intros fd fl Hb. unfold mbind, M_bind, gets. by rewrite Hb.
  - intros fd fl f fs Hb. unfold mbind, M_bind, gets. rewrite Hb. by eexists.
  - intros fd [|b d] fl.
    + exists (Some 5), (fl_world fl). by destruct fl.
    + by eexists None, _.
  - intros p v fl Hv. unfold load_pkt, mbind, M_bind, gets. by rewrite Hv.
  - intros p v n fl Hv _ _. exists (replicate n 0). split; [apply length_replicate|].
    unfold load_pkt, mbind, M_bind, gets. by rewrite Hv.
  - intros fl. unfold mbind, M_bind, gets. case_bool_decide.
    + exists (-1), (fl_world fl). by destruct fl.
    + by eexists 7, _.
  - intros fd fl. by eexists.
  - intros fd s fl. by eexists _, fl.
  - intros fd fl. by eexists _, fl.
  - intros n fl. eexists _, fl. split; [done|]. split; [done|]. intros l [= <-].
    apply length_replicate.
Qed.

Definition tap_pkts : pkts_t := Pos.of_nat <$> seq 1 64.

Definition tap_mem (d : list Z) : gmap mptr mbuf :=
  list_to_map ((λ p, (p, mk_mbuf d (Z.of_nat (length d)) 0 0 0 0 1)) <$> tap_pkts).

Definition demo_tap : pg_tap_state := mk_tap 7 "tap0" tap_pkts PG_WEST_SIDE.

Definition tap_flow (fs : list (list Z)) : flow tap_world :=
  mk_flow (tap_mem [1]) ∅ None (mk_tw fs [] ∅ []).

Lemma tap_burst_writes_witness :
  ∃ ret k fl', tap_burst (TapLib0 := demo_kernel) demo_tap tap_pkts 5 (tap_flow []) = Some (ret, fl') ∧
    tw_written (fl_world fl') = take k [[1]; [1]].
Proof.
  destruct (tap_burst_writes (PktLib0 := mem_pktlib) (TapLib0 := demo_kernel) 2048 tw_backlog
    tw_written tw_opened (TapLaws0 := demo_kernel_laws 2048) demo_tap tap_pkts 5 [[1]; [1]]
    (tap_flow [])) as (ret&k&fl'&Hr&_&Hw&_).
  - change (PG_FOREACH_BIT 5) with [0; 2]%nat. repeat constructor; eexists _, _; by vm_compute.
  - exists ret, k, fl'. split; [exact Hr|exact Hw].
Defined.

Lemma tap_flow_ok fs : tap_ok (tap_flow fs) demo_tap.
Proof.
  split; [done|]. split; [by apply (bool_decide_unpack _); vm_compute|].
  cbn [pkts demo_tap]. apply Forall_forall. apply (bool_decide_unpack _). by vm_compute.
Qed.


Lemma tap_init_closes_witness :
  ∃ st fl', tap_init (TapLib0 := demo_kernel) (tap_config_new "tap" (Some "tap0")) (tap_flow [])
    = Some (Some st, fl') ∧ tw_opened (fl_world fl') = {[7]}.
Proof.
  destruct (tap_init_closes (PktLib0 := mem_pktlib) (PktLaws0 := mem_pktlaws)
    (TapLib0 := demo_kernel) 2048 tw_backlog
    tw_written tw_opened (TapLaws0 := demo_kernel_laws 2048) (tap_config_new "tap" (Some "tap0"))
    (tap_flow [])) as (o&fl'&Hr&Ho).
  pose proof Hr as Hr2. vm_compute in Hr2. injection Hr2 as <- <-.
  eexists _, _. split; [exact Hr|]. destruct Ho as (_&_&Ho&_). rewrite Ho. by vm_compute.
Defined.

(** ** Behaviours that differ from the intention of the code *)

(** The data room of a packet of the pool: an element is [PG_MBUF_SIZE] bytes, less the
    packet structure and the headroom. *)
Definition pool_data_room : nat := PG_MBUF_SIZE - sizeof_rte_mbuf - RTE_PKTMBUF_HEADROOM.

(** [tap_poll] asks the kernel for [PG_MBUF_SIZE] bytes, more than the packet can hold: a
    frame of 2100 bytes is written past the end of its packet, and so is every frame long
    enough to be seen as truncated. *)
Theorem tap_read_overflows :
  pool_data_room = 2048%nat ∧
  ∀ len, len ∈ [2100; PG_MBUF_SIZE]%nat →
    tap_poll (D := tap_dispatch) (PktLib0 := mem_pktlib) (TapLib0 := demo_kernel) pool_data_room
      3 demo_tap (mk_side 1 1 (Edge (mk_edge (Some 9%positive) 0))) 0 (tap_flow [replicate len 1])
    = None.
Proof.
  split; [done|]. intros len [-> | ->%list_elem_of_singleton]%elem_of_cons; by vm_compute.
Qed.

(** A poll reuses its packets without looking at their references: the bytes of a packet
    that another brick (a queue) still holds are replaced by the next frame. *)
Theorem tap_poll_rewrites_held :
  let fl := mk_flow (<[1%positive := mk_mbuf [1; 2; 3] 3 0 0 0 0 2]> (tap_mem [1])) ∅ None
    (mk_tw [replicate 14 9] [] ∅ []) in
  ∃ fl', tap_poll (D := tap_dispatch) (PktLib0 := mem_pktlib) (TapLib0 := demo_kernel)
      pool_data_room 2 demo_tap (mk_side 1 1 (Edge (mk_edge (Some 9%positive) 0))) 0 fl
    = Some ((0, 1), fl') ∧
    (λ v, (data v, refcnt v)) <$> fl_mem fl' !! 1%positive = Some (replicate 14 9, 2).
Proof. eexists. split; [vm_compute; reflexivity|]. by vm_compute. Qed.

(** A poll of a tap that is not linked leaves the packet count of the caller as it was. *)
Theorem tap_poll_unlinked_count cnt :
  tap_poll (D := tap_dispatch) (PktLib0 := mem_pktlib) (TapLib0 := demo_kernel) pool_data_room 1
    demo_tap (mk_side 1 0 (Edge null_edge)) cnt (tap_flow []) = Some ((0, cnt), tap_flow []).
Proof. done. Qed.
