(* ===== verification/SysQueue.v ===== *)
(** * Linked lists of [sys/queue.h]

    The [LIST_*] macros that [src/vhost.c] uses for its list of sockets: every element has
    a pointer to the next one and a pointer to the cell that points to itself, which is
    the head of the list or the [le_next] of the element before. *)

From S2P Require Import Prelude.

(** Pointers to elements. *)
Definition sptr := positive.
Bind Scope positive_scope with sptr.

(** What a [le_prev] points to. *)
Inductive cell := HeadCell | NextCell (s : sptr).

(** [LIST_ENTRY] and [LIST_HEAD] with the memory of the elements. *)
Record list_entry := mk_entry { le_next : option sptr; le_prev : cell }.
Record list_heap := mk_heap { lh_first : option sptr; entries : gmap sptr list_entry }.

Implicit Types (h : list_heap) (s : sptr) (l : list sptr).

Definition LIST_INIT h : list_heap := mk_heap None (entries h).

Definition set_entry h s (e : list_entry) : list_heap :=
  mk_heap (lh_first h) (<[s := e]> (entries h)).

(** A write through a [le_prev]; [None] is a write to an element that was freed. *)
Definition write_cell h (c : cell) (v : option sptr) : option list_heap :=
  match c with
  | HeadCell => Some (mk_heap v (entries h))
  | NextCell q => e ← entries h !! q; Some (set_entry h q (mk_entry v (le_prev e)))
  end.

Definition set_prev h (o : option sptr) (c : cell) : option list_heap :=
  match o with
  | None => Some h
  | Some q => e ← entries h !! q; Some (set_entry h q (mk_entry (le_next e) c))
  end.

(** [LIST_INSERT_HEAD]; the element is memory of its own, whatever its entry holds. *)
Definition LIST_INSERT_HEAD h s : option list_heap :=
  let first := lh_first h in
  h ← set_prev h first (NextCell s);
  Some (mk_heap (Some s) (<[s := mk_entry first HeadCell]> (entries h))).

Definition LIST_REMOVE h s : option list_heap :=
  e ← entries h !! s;
  h ← set_prev h (le_next e) (le_prev e);
  write_cell h (le_prev e) (le_next e).

(** The elements [LIST_FOREACH] visits; [None] when an element was freed or the fuel is
    not enough. *)
Fixpoint list_walk (fuel : nat) h (o : option sptr) : option (list sptr) :=
  match o with
  | None => Some []
  | Some s =>
      match fuel with
      | O => None
      | S fuel => e ← entries h !! s; l ← list_walk fuel h (le_next e); Some (s :: l)
      end
  end.

(** There are no more elements than memory cells, so a list without a cycle is walked. *)
Definition LIST_FOREACH h : option (list sptr) := list_walk (size (entries h)) h (lh_first h).

(** ** The list an object represents *)

(** The cell that points to the element at a position. *)
Definition cell_of l (i : nat) : cell :=
  match i with O => HeadCell | S j => from_option NextCell HeadCell (l !! j) end.

Definition list_rep h l : Prop :=
  NoDup l ∧ lh_first h = head l ∧
  ∀ i s, l !! i = Some s → entries h !! s = Some (mk_entry (l !! S i) (cell_of l i)).

Lemma list_rep_init h : list_rep (LIST_INIT h) [].
Proof. split; [constructor|]. split; [done|]. by intros i s. Qed.

Lemma list_rep_insert h l s :
  list_rep h l → s ∉ l →
  ∃ h', LIST_INSERT_HEAD h s = Some h' ∧ list_rep h' (s :: l) ∧
    ∀ q, q ∉ s :: l → entries h' !! q = entries h !! q.
Proof.
  intros (Hnd&Hf&He) Hs. unfold LIST_INSERT_HEAD. rewrite Hf.
  destruct l as [|a l]; cbn [head set_prev mbind option_bind].
  - eexists. split; [done|]. split.
    + split; [apply NoDup_singleton|]. split; [done|]. intros [|i] q Hq; [|done].
      injection Hq as <-. cbn [entries]. by rewrite lookup_insert_eq.
    + intros q Hq. cbn [entries]. rewrite lookup_insert_ne; [done|]. set_solver.
  - pose proof (He 0%nat a eq_refl) as Ha. rewrite Ha. cbn [mbind option_bind].
    eexists. split; [done|]. assert (s ≠ a) by set_solver. split.
    + split; [by constructor|]. split; [done|]. intros [|i] q Hq; cbn [entries set_entry].
      { injection Hq as <-. by rewrite lookup_insert_eq. }
      change ((a :: l) !! i = Some q) in Hq.
      assert (q ≠ s) by (intros ->; apply Hs; by eapply list_elem_of_lookup_2).
      rewrite lookup_insert_ne by done. destruct i as [|i].
      * injection Hq as <-. rewrite lookup_insert_eq. done.
      * rewrite lookup_insert_ne; [by rewrite (He (S i) q)|]. intros ->.
        pose proof (NoDup_lookup _ 0%nat (S i) q Hnd eq_refl Hq). lia.
    + intros q Hq. cbn [entries set_entry]. rewrite !lookup_insert_ne; [done|set_solver..].
Qed.

(** Removing an element shifts the positions after it. *)
Lemma lookup_removed l1 l2 s i :
  (l1 ++ l2) !! i =
  if decide (i < length l1)%nat then (l1 ++ s :: l2) !! i else (l1 ++ s :: l2) !! S i.
Proof.
  case_decide; [by rewrite !lookup_app_l|]. rewrite !lookup_app_r by lia.
  by replace (S i - length l1)%nat with (S (i - length l1)) by lia.
Qed.

Lemma cell_of_removed l1 l2 s i :
  cell_of (l1 ++ l2) i =
  if decide (i ≤ length l1)%nat then cell_of (l1 ++ s :: l2) i else cell_of (l1 ++ s :: l2) (S i).
Proof.
  destruct i as [|i]; cbn [cell_of]; [by rewrite decide_True by lia|].
  rewrite (lookup_removed l1 l2 s). repeat case_decide; done || lia.
Qed.

(** The element after the removed one. *)
Lemma set_prev_next h l1 l2 s :
  list_rep h (l1 ++ s :: l2) →
  ∃ h1, set_prev h (head l2) (cell_of (l1 ++ s :: l2) (length l1)) = Some h1 ∧
    lh_first h1 = lh_first h ∧
    ∀ q, entries h1 !! q = if decide (head l2 = Some q)
      then Some (mk_entry ((l1 ++ s :: l2) !! S (S (length l1))) (cell_of (l1 ++ s :: l2) (length l1)))
      else entries h !! q.
Proof.
  intros (Hnd&Hf&He). destruct l2 as [|b l2]; cbn [head set_prev].
  { exists h. split; [done|]. split; [done|]. done. }
  rewrite (He (S (length l1)) b) 
    by (rewrite lookup_app_r by lia; by replace (S (length l1) - length l1)%nat with 1%nat by lia).
  cbn [mbind option_bind le_next]. eexists. split; [done|]. split; [done|]. intros q.
  cbn [entries set_entry]. case_decide as Hq; [injection Hq as ->; by rewrite lookup_insert_eq|].
  by rewrite lookup_insert_ne by naive_solver.
Qed.

(** The cell before the removed element. *)
Lemma write_cell_before h l1 l2 s h1 :
  list_rep h (l1 ++ s :: l2) → lh_first h1 = lh_first h →
  (∀ q, entries h1 !! q = if decide (head l2 = Some q)
     then Some (mk_entry ((l1 ++ s :: l2) !! S (S (length l1))) (cell_of (l1 ++ s :: l2) (length l1)))
     else entries h !! q) →
  ∃ h', write_cell h1 (cell_of (l1 ++ s :: l2) (length l1)) (head l2) = Some h' ∧
    lh_first h' = head (l1 ++ l2) ∧
    ∀ q, entries h' !! q = if decide (last l1 = Some q)
      then Some (mk_entry (head l2) (cell_of (l1 ++ s :: l2) (length l1 - 1))) else entries h1 !! q.
Proof.
  intros (Hnd&Hf&He) Hf1 He1. destruct l1 as [|a l1 _] using rev_ind; cbn [cell_of length].
  { eexists. split; [done|]. split; [done|]. done. }
  assert (length (l1 ++ [a]) = S (length l1)) as Hl by (rewrite length_app; cbn; lia).
  assert (((l1 ++ [a]) ++ s :: l2) !! length l1 = Some a) as Ha.
  { rewrite lookup_app_l by lia. by rewrite lookup_app_r, Nat.sub_diag. }
  rewrite Hl. cbn [cell_of]. rewrite Ha. cbn [from_option write_cell]. rewrite He1, decide_False.
  2: { intros Hh. destruct l2 as [|b l2]; [done|]. injection Hh as ->.
       apply (NoDup_lookup _ (length l1) (S (S (length l1))) a) in Ha; [lia|done|].
       rewrite lookup_app_r by lia. rewrite Hl.
       by replace (S (S (length l1)) - S (length l1))%nat with 1%nat by lia. }
  rewrite (He (length l1) a Ha). cbn [mbind option_bind le_prev]. eexists. split; [done|]. split.
  { cbn [lh_first set_entry]. rewrite Hf1, Hf. by destruct l1. }
  intros q. cbn [entries set_entry]. rewrite last_snoc. replace (S (length l1) - 1)%nat with (length l1) by lia.
  case_decide as Hq.
  - injection Hq as ->. by rewrite lookup_insert_eq.
  - by rewrite lookup_insert_ne by naive_solver.
Qed.

Lemma list_rep_remove h l1 l2 s :
  list_rep h (l1 ++ s :: l2) →
  ∃ h', LIST_REMOVE h s = Some h' ∧ list_rep h' (l1 ++ l2) ∧
    ∀ q, q ∉ l1 ++ l2 → entries h' !! q = entries h !! q.
Proof.
  intros Hrep. pose proof Hrep as (Hnd&Hf&He). set (l := l1 ++ s :: l2) in *.
  assert (l !! length l1 = Some s) as Hs by (unfold l; by rewrite lookup_app_r, Nat.sub_diag).
  unfold LIST_REMOVE. rewrite (He _ _ Hs). cbn [mbind option_bind le_next le_prev].
  assert (l !! S (length l1) = head l2) as Hnext.
  { unfold l. rewrite lookup_app_r by lia. replace (S (length l1) - length l1)%nat with 1%nat by lia.
    by destruct l2. }
  rewrite Hnext. destruct (set_prev_next h l1 l2 s Hrep) as (h1&Hp&Hf1&He1). fold l in Hp, He1.
  rewrite Hp. cbn [mbind option_bind].
  destruct (write_cell_before h l1 l2 s h1 Hrep Hf1 He1) as (h'&Hw&Hf'&He'). fold l in Hw, He'.
  exists h'. split; [exact Hw|]. split.
  - split; [|split; [done|]].
    + unfold l in Hnd. rewrite NoDup_app, NoDup_cons in Hnd. rewrite NoDup_app. set_solver.
    + intros i q Hq. pose proof Hq as Hq'. rewrite (lookup_removed l1 l2 s) in Hq'. fold l in Hq'.
      rewrite He', He1, (cell_of_removed l1 l2 s), (lookup_removed l1 l2 s). fold l.
      assert (∀ j, last l1 = Some q → l !! j = Some q → S j = length l1) as Hlast.
      { intros j Hl Hj. rewrite last_lookup in Hl. destruct (length l1) as [|n] eqn:Hn;
          [by apply length_zero_iff_nil in Hn as ->|]. f_equal.
        eapply (NoDup_lookup l); [done|exact Hj|]. unfold l. by rewrite lookup_app_l by lia. }
      assert (∀ j, head l2 = Some q → l !! j = Some q → j = S (length l1)) as Hhead.
      { intros j Hl Hj. eapply (NoDup_lookup l); [done|exact Hj|]. by rewrite Hnext. }
      destruct (decide (i < length l1)%nat) as [Hi|Hi].
      * rewrite (decide_True (P := (i ≤ length l1)%nat)) by lia. destruct (decide (last l1 = Some q)) as [Hl|Hl].
        { pose proof (Hlast i Hl Hq'). rewrite decide_False by lia.
          replace (length l1) with (S i) in Hnext |- * by lia. rewrite Hnext.
          by replace (S i - 1)%nat with i by lia. }
        rewrite decide_False by (intros Hh; pose proof (Hhead i Hh Hq'); lia).
        rewrite (He i q Hq'), decide_True; [done|].
        assert (S i ≠ length l1); [|lia]. intros Hk. apply Hl.
        rewrite last_lookup, <- Hk. cbn [Nat.pred]. rewrite <- Hq'. unfold l. by rewrite lookup_app_l.
      * rewrite decide_False by (intros Hl; pose proof (Hlast (S i) Hl Hq'); lia).
        rewrite (decide_False (P := (S i < length l1)%nat)) by lia.
        destruct (decide (head l2 = Some q)) as [Hh|Hh].
        { pose proof (Hhead (S i) Hh Hq'). rewrite decide_True by lia.
          by replace (length l1) with i by lia. }
        rewrite (He (S i) q Hq'), decide_False; [done|].
        intros Hk. apply Hh. rewrite <- Hnext, <- Hq'. f_equal. lia.
  - intros q Hq. rewrite He', He1. rewrite decide_False, decide_False; [done|..].
    + intros Hh. apply Hq. apply elem_of_app. right. destruct l2; [done|]. injection Hh as ->. left.
    + intros Hl. apply Hq. apply elem_of_app. left. apply last_Some in Hl as [l0 ->]. set_solver.
Qed.

(** Walking the list visits its elements in order. *)
Lemma list_rep_walk h l i fuel :
  list_rep h l → (length l - i ≤ fuel)%nat → list_walk fuel h (l !! i) = Some (drop i l).
Proof.
  intros (Hnd&Hf&He). revert i. induction fuel as [|fuel IH]; intros i Hi.
  - rewrite lookup_ge_None_2, drop_ge by lia. done.
  - destruct (l !! i) as [s|] eqn:Hs.
    + cbn [list_walk]. rewrite (He i s Hs). cbn [mbind option_bind le_next].
      apply lookup_lt_Some in Hs as Hlt. rewrite IH by lia. cbn. by rewrite (drop_S _ _ _ Hs).
    + apply lookup_ge_None in Hs. by rewrite drop_ge by lia.
Qed.

Lemma list_rep_foreach h l : list_rep h l → LIST_FOREACH h = Some l.
Proof.
  intros Hrep. pose proof Hrep as (Hnd&Hf&He). unfold LIST_FOREACH. rewrite Hf.
  assert (head l = l !! 0%nat) as -> by (by destruct l).
  rewrite (list_rep_walk h l 0); [by rewrite drop_0|done|]. rewrite Nat.sub_0_r.
  rewrite <- (size_list_to_set (C := gset sptr) l Hnd), <- (size_dom (D := gset sptr)).
  apply subseteq_size. intros s Hs%elem_of_list_to_set. apply elem_of_dom.
  apply list_elem_of_lookup in Hs as [i Hi]. rewrite (He i s Hi). eauto.
Qed.
