(* ===== verification/Vhost.v ===== *)
(** * The vhost brick ([src/vhost.c])

    A monopole connected to the network card of a virtual machine through a vhost-user
    socket. The file keeps a global list of sockets ([SysQueue]); when a machine connects
    or leaves, the vhost library calls back and the brick is found by the path of its
    socket. The vhost library of DPDK is known through the class [VhostLib]. The memory of
    sockets and of the states of the bricks is explicit, so a pointer to something freed
    is visible; [None] is such an access. *)

From S2P Require Import Prelude Bitmask Common Brick BrickInv Burst Packets Queue Accumulator.
From S2P Require Import Network Endpoints Devices SysQueue.

Definition MAX_BURST : nat := 32.
Definition VIRTIO_RXQ : Z := 0.
Definition VIRTIO_TXQ : Z := 1.

(** [RTE_VHOST_USER_CLIENT], [_NO_RECONNECT] and [_DEQUEUE_ZERO_COPY] of DPDK. *)
Definition RTE_VHOST_USER_CLIENT : Z := 1.
Definition RTE_VHOST_USER_NO_RECONNECT : Z := 2.
Definition RTE_VHOST_USER_DEQUEUE_ZERO_COPY : Z := 4.

(** [struct pg_vhost_config], [struct pg_vhost_socket] and [struct pg_vhost_state]. *)
Record pg_vhost_config := mk_vhost_config { cfg_output : pg_side; cfg_flags : Z }.

Record pg_vhost_socket := mk_socket { path : string; sock_state : ptr }.

Record pg_vhost_state := mk_vhost {
  output : pg_side;
  socket : option sptr;
  allow_queuing : Z;
  vid : Z;
  v_in : pkts_t;
  v_out : pkts_t;
  tx_bytes : Z;
  rx_bytes : Z;
}.

(** The static variables of the file, with the memory of the sockets and of the states;
    the feature masks are [int]s. *)
Record vhost_sys := mk_sys {
  sockets : list_heap;
  sock_mem : gmap sptr pg_vhost_socket;
  states : gmap ptr pg_vhost_state;
  sockets_path : option string;
  vhost_start_ok : bool;
  enable_feature_mask : Z;
  disable_feature_mask : Z;
}.

Implicit Types (vs : vhost_sys) (st : pg_vhost_state) (p : ptr).

Definition set_lock st (v : Z) : pg_vhost_state :=
  mk_vhost (output st) (socket st) v (vid st) (v_in st) (v_out st) (tx_bytes st) (rx_bytes st).
Definition set_vid st (v : Z) : pg_vhost_state :=
  mk_vhost (output st) (socket st) (allow_queuing st) v (v_in st) (v_out st) (tx_bytes st)
    (rx_bytes st).
Definition set_socket st (s : option sptr) : pg_vhost_state :=
  mk_vhost (output st) s (allow_queuing st) (vid st) (v_in st) (v_out st) (tx_bytes st)
    (rx_bytes st).
Definition set_state vs p st : vhost_sys :=
  mk_sys (sockets vs) (sock_mem vs) (<[p := st]> (states vs)) (sockets_path vs)
    (vhost_start_ok vs) (enable_feature_mask vs) (disable_feature_mask vs).

Definition vhost_config_new (nm : string) (flags : Z) : pg_brick_config pg_vhost_config :=
  pg_brick_config_init (mk_vhost_config PG_WEST_SIDE (u64 flags)) nm 1 1 PG_MONOPOLE.

(** ** The vhost library *)

Class VhostLib (W : Type) := {
  (** [rte_vhost_enqueue_burst] of a device, a queue, an array and a number of packets:
      how many were copied to the guest. *)
  vhost_enqueue : Z → Z → pkts_t → Z → M (flow W) Z;
  (** [rte_vhost_dequeue_burst] of up to a number of packets: the new packets. *)
  vhost_dequeue : Z → Z → nat → M (flow W) pkts_t;
  (** [rte_vhost_driver_register], [_callback_register], [_start] and [_unregister]. *)
  driver_register : string → Z → M (flow W) Z;
  driver_callback_register : string → M (flow W) Z;
  driver_start : string → M (flow W) Z;
  driver_unregister : string → M (flow W) Z;
  (** [rte_vhost_driver_enable_features] and [_disable_features]. *)
  driver_enable_features : string → Z → M (flow W) Z;
  driver_disable_features : string → Z → M (flow W) Z;
  (** [rte_vhost_get_ifname]: the path of a device, cut to the buffer. *)
  vhost_ifname : W → Z → string;
  (** [g_remove]. *)
  file_remove : string → M (flow W) unit;
  (** [lstat] says it is a directory; [realpath], with its [errno]. *)
  is_directory : W → string → bool;
  realpath : W → string → Z + string;
}.

Definition PATH_MAX : nat := 4096.

Section Vhost.

Context {W : Type} `{D : !Dispatch W, !PktLib W, !VhostLib W}.

(** *** Data path *)

(** The bytes of the packets at the first positions of an array. *)
Fixpoint sum_len (pkts : pkts_t) (l : list nat) (bytes : Z) : M (flow W) Z :=
  match l with
  | [] => mret bytes
  | i :: l => q ← unwrap (pkts !! i); v ← load_pkt q; sum_len pkts l (u64 (bytes + pkt_len v))
  end.

(** The two halves of a burst. *)
Definition enqueue_all (dev : Z) (out : pkts_t) (count : Z) : M (flow W) Z :=
  if 32 <? count then
    n1 ← vhost_enqueue dev VIRTIO_RXQ out 32;
    n2 ← vhost_enqueue dev VIRTIO_RXQ (drop 32 out) (count - 32);
    mret (u16 (n1 + n2))
  else vhost_enqueue dev VIRTIO_RXQ out count.

(** [vhost_burst]; [rte_atomic32_test_and_set] fails when the counter is not 0. *)
Definition vhost_burst vs p (pkts : pkts_t) (pkts_mask : Z) : M (flow W) (Z * vhost_sys) :=
  st ← unwrap (states vs !! p);
  if negb (allow_queuing st =? 0) then mret (0, vs)
  else
    let st := set_lock st 1 in
    r ← unwrap (pg_packets_pack (v_out st) pkts pkts_mask);
    let '(count, out) := r in
    bursted ← enqueue_all (vid st) out (u16 count);
    let st := set_lock st 0 in
    bytes ← sum_len pkts (seq 0 (Z.to_nat bursted)) 0;
    mret (0, set_state vs p (mk_vhost (output st) (socket st) (allow_queuing st) (vid st)
      (v_in st) out (u64 (tx_bytes st + bytes)) (rx_bytes st))).

(** The loop over the packets of a poll: their bytes, and the metadata. *)
Fixpoint rx_loop (l : pkts_t) (bytes : Z) : M (flow W) Z :=
  match l with
  | [] => mret bytes
  | q :: l =>
      v ← load_pkt q;
      let bytes := u64 (bytes + pkt_len v) in
      v ← unwrap (pg_utils_guess_metadata v);
      store_pkt q v;;
      rx_loop l bytes
  end.

(** Up to 64 packets of the guest. *)
Definition dequeue_all (dev : Z) : M (flow W) pkts_t :=
  l1 ← vhost_dequeue dev VIRTIO_TXQ MAX_BURST;
  if (length l1 =? MAX_BURST)%nat then
    l2 ← vhost_dequeue dev VIRTIO_TXQ MAX_BURST; mret (l1 ++ l2)
  else mret l1.

(** [vhost_poll]: the result, the packet count and the states. *)
Definition vhost_poll vs p (sd : pg_brick_side) : M (flow W) (Z * Z * vhost_sys) :=
  st ← unwrap (states vs !! p);
  if negb (allow_queuing st =? 0) then mret (0, 0, vs)
  else
    let st := set_lock st 1 in
    l ← dequeue_all (vid st);
    let count := length l in
    let st := mk_vhost (output st) (socket st) 0 (vid st) (l ++ drop count (v_in st)) (v_out st)
                (tx_bytes st) (rx_bytes st) in
    if (count =? 0)%nat then mret (0, 0, set_state vs p st)
    else
      bytes ← rx_loop l 0;
      let st := mk_vhost (output st) (socket st) (allow_queuing st) (vid st) (v_in st) (v_out st)
                  (tx_bytes st) (u64 (rx_bytes st + bytes)) in
      let pkts_mask := pg_mask_firsts (u8 (Z.of_nat count)) in
      e ← edge_of sd;
      ret ← pg_brick_burst (link e) (output st) (pair_index e) (v_in st) pkts_mask;
      pg_packets_free (v_in st) pkts_mask;;
      mret (ret, Z.of_nat count, set_state vs p st).

(** *** Sockets *)

(** [pg_vhost_socket_path]; the outer option is a bad pointer, the inner one NULL. *)
Definition pg_vhost_socket_path vs p : option (option string) :=
  st ← states vs !! p;
  match socket st with
  | None => Some None
  | Some s => k ← sock_mem vs !! s; Some (Some (path k))
  end.

Definition pg_vhost_enable vs p (feature_mask : Z) : M (flow W) Z :=
  o ← unwrap (pg_vhost_socket_path vs p);
  match o with
  | None => mret (-1)
  | Some pth => r ← driver_enable_features pth (u64 feature_mask);
      mret (if r =? 0 then 0 else -1)
  end.

Definition pg_vhost_disable vs p (feature_mask : Z) : M (flow W) Z :=
  o ← unwrap (pg_vhost_socket_path vs p);
  match o with
  | None => mret (-1)
  | Some pth => r ← driver_disable_features pth (u64 feature_mask);
      mret (if r =? 0 then 0 else -1)
  end.

(** [enable_freacture_mask |= feature_mask] on an [int]. *)
Definition pg_vhost_global_enable vs (feature_mask : Z) : Z * vhost_sys :=
  (0, mk_sys (sockets vs) (sock_mem vs) (states vs) (sockets_path vs) (vhost_start_ok vs)
        (s32 (u32 (Z.lor (enable_feature_mask vs) feature_mask))) (disable_feature_mask vs)).
Definition pg_vhost_global_disable vs (feature_mask : Z) : Z * vhost_sys :=
  (0, mk_sys (sockets vs) (sock_mem vs) (states vs) (sockets_path vs) (vhost_start_ok vs)
        (enable_feature_mask vs) (s32 (u32 (Z.lor (disable_feature_mask vs) feature_mask)))).

(** The address [g_new0] gives a socket. *)
Definition new_socket vs : sptr := fresh (dom (sock_mem vs) : gset sptr).

(** [vhost_create_socket]; the result of [rte_vhost_driver_start] is not looked at. *)
Definition vhost_create_socket vs p (nm : string) (flags : Z) : M (flow W) vhost_sys :=
  let pth := default "(null)" (sockets_path vs) +:+ "/qemu-" +:+ nm in
  file_remove pth;;
  let flags := Z.land flags (Z.lor RTE_VHOST_USER_CLIENT
    (Z.lor RTE_VHOST_USER_NO_RECONNECT RTE_VHOST_USER_DEQUEUE_ZERO_COPY)) in
  ret ← driver_register pth flags;
  if negb (ret =? 0) then
    flow_error (pg_error_new_errno (- ret) "Failed to start vhost user driver");; mret vs
  else
    ret ← driver_callback_register pth;
    if negb (ret =? 0) then
      flow_error (pg_error_new_errno (- ret) "Failed to register vhost-user callbacks");; mret vs
    else
      _ ← driver_start pth;
      let s := new_socket vs in
      st ← unwrap (states vs !! p);
      h ← unwrap (LIST_INSERT_HEAD (sockets vs) s);
      mret (mk_sys h (<[s := mk_socket pth p]> (sock_mem vs))
              (<[p := set_socket st (Some s)]> (states vs)) (sockets_path vs) (vhost_start_ok vs)
              (enable_feature_mask vs) (disable_feature_mask vs)).

(** The zeroed state of a new brick; [null] fills its arrays. *)
Definition zero_state (null : mptr) : pg_vhost_state :=
  mk_vhost PG_WEST_SIDE None 0 0 (replicate PG_MAX_PKTS_BURST null)
    (replicate PG_MAX_PKTS_BURST null) 0 0.

Definition vhost_init (null : mptr) vs p (config : pg_brick_config pg_vhost_config)
    : M (flow W) (Z * vhost_sys) :=
  let vs := set_state vs p (zero_state null) in
  if negb (vhost_start_ok vs) then
    flow_error (pg_error_new
      "vhost not ready, did you called vhost_start after packetgraph_start ?");;
    mret (-1, vs)
  else
    let vs := set_state vs p (mk_vhost (cfg_output (brick_config config)) None 0 (-1)
      (replicate PG_MAX_PKTS_BURST null) (replicate PG_MAX_PKTS_BURST null) 0 0) in
    _ ← pg_vhost_enable vs p (enable_feature_mask vs);
    _ ← pg_vhost_disable vs p (disable_feature_mask vs);
    vs ← vhost_create_socket vs p (cfg_name config) (cfg_flags (brick_config config));
    failed ← gets (λ fl, pg_error_is_set (fl_errp fl));
    if (failed : bool) then mret (-1, vs)
    else
      st ← unwrap (states vs !! p);
      mret (0, set_state vs p (set_lock st 1)).

(** [vhost_destroy]: the socket leaves the list and is freed. *)
Definition vhost_destroy vs p : M (flow W) vhost_sys :=
  st ← unwrap (states vs !! p);
  s ← unwrap (socket st);
  k ← unwrap (sock_mem vs !! s);
  _ ← driver_unregister (path k);
  file_remove (path k);;
  h ← unwrap (LIST_REMOVE (sockets vs) s);
  mret (mk_sys (mk_heap (lh_first h) (delete s (entries h))) (delete s (sock_mem vs)) (states vs)
          (sockets_path vs) (vhost_start_ok vs) (enable_feature_mask vs) (disable_feature_mask vs)).

(** The first socket of a list with this path: the state it leads to. *)
Fixpoint find_socket vs (l : list sptr) (pth : string) : option (option ptr) :=
  match l with
  | [] => Some None
  | s :: l =>
      k ← sock_mem vs !! s;
      if String.eqb (path k) pth then Some (Some (sock_state k)) else find_socket vs l pth
  end.

(** [new_vm]: the brick of the socket gets its device and is opened. *)
Definition new_vm vs (dev : Z) : M (flow W) (Z * vhost_sys) :=
  buf ← gets (λ fl, vhost_ifname (fl_world fl) dev);
  l ← unwrap (LIST_FOREACH (sockets vs));
  o ← unwrap (find_socket vs l buf);
  match o with
  | None => mret (0, vs)
  | Some p =>
      st ← unwrap (states vs !! p);
      mret (0, set_state vs p (set_lock (set_vid st dev) 0))
  end.

(** [destroy_vm] when no burst is under way: the lock is free, or it is held for good and
    the loop does not end. The interleavings are in [VhostSync]. *)
Definition destroy_vm vs (dev : Z) : M (flow W) vhost_sys :=
  buf ← gets (λ fl, vhost_ifname (fl_world fl) dev);
  l ← unwrap (LIST_FOREACH (sockets vs));
  o ← unwrap (find_socket vs l buf);
  match o with
  | None => mret vs
  | Some p =>
      st ← unwrap (states vs !! p);
      if allow_queuing st =? 0 then mret (set_state vs p (set_vid (set_lock st 1) (-1)))
      else crash
  end.

(** *** Start and stop *)

Definition set_path vs (o : option string) : vhost_sys :=
  mk_sys (sockets vs) (sock_mem vs) (states vs) o (vhost_start_ok vs)
    (enable_feature_mask vs) (disable_feature_mask vs).
Definition set_started vs (b : bool) : vhost_sys :=
  mk_sys (sockets vs) (sock_mem vs) (states vs) (sockets_path vs) b
    (enable_feature_mask vs) (disable_feature_mask vs).
Definition set_sockets vs (h : list_heap) : vhost_sys :=
  mk_sys h (sock_mem vs) (states vs) (sockets_path vs) (vhost_start_ok vs)
    (enable_feature_mask vs) (disable_feature_mask vs).

Definition check_and_store_base_dir vs (base_dir : string) : M (flow W) vhost_sys :=
  dir ← gets (λ fl, is_directory (fl_world fl) base_dir);
  if negb dir then
    flow_error (pg_error_new ("Invalid vhost-user socket directory " +:+ base_dir));; mret vs
  else if (PATH_MAX <=? String.length base_dir)%nat then
    flow_error (pg_error_new "base_dir too long");; mret vs
  else
    r ← gets (λ fl, realpath (fl_world fl) base_dir);
    match r with
    | inl errno =>
        flow_error (pg_error_new_errno errno ("Cannot resolve path of " +:+ base_dir));;
        mret (set_path vs None)
    | inr pth => mret (set_path vs (Some pth))
    end.

Definition pg_vhost_start vs (base_dir : string) : M (flow W) (Z * vhost_sys) :=
  if vhost_start_ok vs then
    flow_error (pg_error_new "vhost already started");; mret (-1, vs)
  else
    let vs := set_sockets vs (LIST_INIT (sockets vs)) in
    vs ← check_and_store_base_dir vs base_dir;
    failed ← gets (λ fl, pg_error_is_set (fl_errp fl));
    if (failed : bool) then mret (-1, vs) else mret (0, set_started vs true).

Definition pg_vhost_stop vs : vhost_sys :=
  if negb (vhost_start_ok vs) then vs else set_started (set_path vs None) false.

Definition vhost_link st (side : pg_side) : pg_vhost_state :=
  mk_vhost (pg_flip_side side) (socket st) (allow_queuing st) (vid st) (v_in st) (v_out st)
    (tx_bytes st) (rx_bytes st).
Definition vhost_get_side st : pg_side := pg_flip_side (output st).

End Vhost.
