(* ===== verification/VhostSpec.v ===== *)
(** * Properties of the vhost brick

    The data path, the socket list over whole sequences of calls, and the cases where the
    code of [src/vhost.c] does not do what it says. *)

From S2P Require Import Prelude Bitmask Common Brick BrickInv Burst Packets Queue Accumulator.
From S2P Require Import Network Endpoints Devices SysQueue Vhost.

Implicit Types (vs : vhost_sys) (st : pg_vhost_state) (p : ptr).

(** ** The list of sockets

    Every brick has a socket that is in the list and leads back to it, and the list holds
    nothing else. *)
Definition sys_inv vs : Prop :=
  ∃ l, list_rep (sockets vs) l ∧
    (∀ s, s ∈ l ↔ is_Some (sock_mem vs !! s)) ∧
    (∀ s k, sock_mem vs !! s = Some k →
      ∃ st, states vs !! sock_state k = Some st ∧ socket st = Some s) ∧
    (∀ p st, states vs !! p = Some st →
      ∃ s k, socket st = Some s ∧ sock_mem vs !! s = Some k ∧ sock_state k = p).

(** Before the program starts. *)
Definition sys_start : vhost_sys := mk_sys (mk_heap None ∅) ∅ ∅ None false 0 0.

Lemma sys_inv_start : sys_inv sys_start.
Proof.
  exists []. split; [exact (list_rep_init (mk_heap None ∅))|]. split_and!.
  - intros s. split; [by intros ?%not_elem_of_nil|]. by intros [k Hk].
  - by intros s k.
  - by intros p st.
Qed.

(** Changing a state without touching its socket. *)
Lemma sys_inv_set_state vs p st st' :
  sys_inv vs → states vs !! p = Some st → socket st' = socket st → sys_inv (set_state vs p st').
Proof.
  intros (l&Hl&Hdom&Hsock&Hst) Hp Hs. exists l. split_and!; [done|done|..];
    cbn [sock_mem states set_state].
  - intros s k Hk. destruct (Hsock s k Hk) as (u&Hu&Hus). destruct (decide (sock_state k = p)) as [<-|].
    + rewrite lookup_insert_eq. exists st'. split; [done|]. by simplify_eq; rewrite Hs.
    + rewrite lookup_insert_ne by done. by exists u.
  - intros q u. destruct (decide (q = p)) as [->|].
    + rewrite lookup_insert_eq. intros [= <-]. rewrite Hs. by apply Hst.
    + rewrite lookup_insert_ne by done. apply Hst.
Qed.

(** ** Calls *)

Section Calls.

Context {W : Type} `{D : !Dispatch W, !PktLib W, !VhostLib W}.

(** The calls that reach the file: [VNew] and [VDestroy] are [pg_brick_new] and the end of
    the life of a brick, with the memory of its state; each call has its own error. *)
Inductive vhost_call :=
  | VStart (base_dir : string)
  | VStop
  | VNew (p : ptr) (nm : string) (flags : Z)
  | VDestroy (p : ptr)
  | VBurst (p : ptr) (pkts : pkts_t) (mask : Z)
  | VPoll (p : ptr) (sd : pg_brick_side)
  | VLink (p : ptr) (side : pg_side)
  | VNewVm (dev : Z)
  | VDestroyVm (dev : Z)
  | VGlobalEnable (mask : Z)
  | VGlobalDisable (mask : Z).

Definition delete_state vs p : vhost_sys :=
  mk_sys (sockets vs) (sock_mem vs) (delete p (states vs)) (sockets_path vs)
    (vhost_start_ok vs) (enable_feature_mask vs) (disable_feature_mask vs).

Definition clear_error : M (flow W) unit :=
  modify (λ fl, mk_flow (fl_mem fl) (fl_count fl) None (fl_world fl)).

Definition run_vhost_call (null : mptr) vs (c : vhost_call) : M (flow W) vhost_sys :=
  clear_error;;
  match c with
  | VStart dir => r ← pg_vhost_start vs dir; mret (snd r)
  | VStop => mret (pg_vhost_stop vs)
  | VNew p nm flags =>
      if decide (states vs !! p = None) then
        r ← vhost_init null vs p (vhost_config_new nm flags);
        mret (if fst r <? 0 then delete_state (snd r) p else snd r)
      else crash
  | VDestroy p => vs ← vhost_destroy vs p; mret (delete_state vs p)
  | VBurst p pkts mask => r ← vhost_burst vs p pkts mask; mret (snd r)
  | VPoll p sd => r ← vhost_poll vs p sd; mret (snd r)
  | VLink p side => st ← unwrap (states vs !! p); mret (set_state vs p (vhost_link st side))
  | VNewVm dev => r ← new_vm vs dev; mret (snd r)
  | VDestroyVm dev => destroy_vm vs dev
  | VGlobalEnable mask => mret (snd (pg_vhost_global_enable vs mask))
  | VGlobalDisable mask => mret (snd (pg_vhost_global_disable vs mask))
  end.

(** A library call that leaves the caller's error alone. *)
Class VhostErr : Prop := {
  law_file_remove s (fl fl' : flow W) u : file_remove s fl = Some (u, fl') → fl_errp fl' = fl_errp fl;
  law_register s f (fl fl' : flow W) r :
    driver_register s f fl = Some (r, fl') → fl_errp fl' = fl_errp fl;
  law_callbacks s (fl fl' : flow W) r :
    driver_callback_register s fl = Some (r, fl') → fl_errp fl' = fl_errp fl;
  law_start s (fl fl' : flow W) r : driver_start s fl = Some (r, fl') → fl_errp fl' = fl_errp fl;
}.

(** The states the file can be in; a program that starts vhost again has no vhost brick. *)
Inductive vhost_reach (null : mptr) : vhost_sys → Prop :=
  | vreach_start : vhost_reach null sys_start
  | vreach_step vs c vs' (fl fl' : flow W) :
      vhost_reach null vs → (∀ dir, c = VStart dir → states vs = ∅) →
      run_vhost_call null vs c fl = Some (vs', fl') → vhost_reach null vs'.

(** [vhost_create_socket] fails and leaves everything, or adds a socket for the brick. *)
Lemma create_socket_spec `{!VhostErr} vs p nm flags (fl fl' : flow W) vs' :
  vhost_create_socket vs p nm flags fl = Some (vs', fl') → fl_errp fl = None →
  (vs' = vs ∧ fl_errp fl' ≠ None) ∨
  ∃ st h, fl_errp fl' = None ∧ states vs !! p = Some st ∧
    LIST_INSERT_HEAD (sockets vs) (new_socket vs) = Some h ∧
    vs' = mk_sys h (<[new_socket vs :=
              mk_socket (default "(null)" (sockets_path vs) +:+ "/qemu-" +:+ nm) p]> (sock_mem vs))
            (<[p := set_socket st (Some (new_socket vs))]> (states vs)) (sockets_path vs)
            (vhost_start_ok vs) (enable_feature_mask vs) (disable_feature_mask vs).
Proof.
  unfold vhost_create_socket. intros Hr He. set (pth := default _ _ +:+ _) in *.
  apply bind_run in Hr as (u&fl1&H1&Hr). apply law_file_remove in H1.
  apply bind_run in Hr as (r&fl2&H2&Hr). apply law_register in H2.
  destruct (r =? 0); cbn [negb] in Hr.
  2: { apply bind_run in Hr as (?&fl3&H3&Hr). injection Hr as <- <-. injection H3 as _ <-. by left. }
  apply bind_run in Hr as (r3&fl3&H3&Hr). apply law_callbacks in H3.
  destruct (r3 =? 0); cbn [negb] in Hr.
  2: { apply bind_run in Hr as (?&fl4&H4&Hr). injection Hr as <- <-. injection H4 as _ <-. by left. }
  apply bind_run in Hr as (r4&fl4&H4&Hr). apply law_start in H4. right.
  destruct (states vs !! p) as [st|]; [|done]. cbn [unwrap] in Hr. rewrite M_bind_ret in Hr.
  destruct (LIST_INSERT_HEAD (sockets vs) (new_socket vs)) as [h|] eqn:Hh; [|done].
  cbn [unwrap] in Hr. rewrite M_bind_ret in Hr. injection Hr as <- <-.
  exists st, h. split; [congruence|]. done.
Qed.

Lemma list_rep_delete h l s :
  list_rep h l → s ∉ l → list_rep (mk_heap (lh_first h) (delete s (entries h))) l.
Proof.
  intros (Hnd&Hf&He) Hs. split; [done|]. split; [done|]. intros i q Hq. cbn [entries].
  rewrite lookup_delete_ne; [by apply He|]. intros ->. apply Hs. by eapply list_elem_of_lookup_2.
Qed.

Lemma new_socket_fresh vs : sock_mem vs !! new_socket vs = None.
Proof.
  apply not_elem_of_dom. unfold new_socket. exact (is_fresh (dom (sock_mem vs) : gset sptr)).
Qed.

(** A socket added for a brick that had none. *)
Lemma sys_inv_add vs p st h pth :
  sys_inv vs → states vs !! p = None →
  LIST_INSERT_HEAD (sockets vs) (new_socket vs) = Some h →
  sys_inv (mk_sys h (<[new_socket vs := mk_socket pth p]> (sock_mem vs))
             (<[p := set_socket st (Some (new_socket vs))]> (states vs)) (sockets_path vs)
             (vhost_start_ok vs) (enable_feature_mask vs) (disable_feature_mask vs)).
Proof.
  intros (l&Hl&Hdom&Hsock&Hst) Hp Hh. set (s := new_socket vs) in *.
  pose proof (new_socket_fresh vs) as Hfresh. fold s in Hfresh.
  assert (s ∉ l) as Hs by (intros Hin; apply Hdom in Hin as [? Hin]; congruence).
  destruct (list_rep_insert (sockets vs) l s Hl Hs) as (h'&Hh'&Hrep&_).
  assert (h' = h) as -> by congruence.
  exists (s :: l). cbn [sockets sock_mem states]. split_and!; [exact Hrep|..].
  - intros q. rewrite elem_of_cons, Hdom. destruct (decide (q = s)) as [->|].
    + rewrite lookup_insert_eq. split; [eauto|by left].
    + rewrite lookup_insert_ne by done. naive_solver.
  - intros q k. destruct (decide (q = s)) as [->|].
    + rewrite lookup_insert_eq. intros [= <-]. cbn [sock_state]. rewrite lookup_insert_eq. by eexists.
    + rewrite lookup_insert_ne by done. intros Hk. destruct (Hsock q k Hk) as (u&Hu&Hus).
      rewrite lookup_insert_ne by (intros ?; congruence). by exists u.
  - intros q u. destruct (decide (q = p)) as [->|].
    + rewrite lookup_insert_eq. intros [= <-]. exists s, (mk_socket pth p).
      by rewrite lookup_insert_eq.
    + rewrite lookup_insert_ne by done. intros Hu. destruct (Hst q u Hu) as (s'&k&Hs'&Hk&Hq).
      exists s', k. rewrite lookup_insert_ne by (intros ?; congruence). done.
Qed.

(** A socket removed with its brick. *)
Lemma sys_inv_remove vs p st s k :
  sys_inv vs → states vs !! p = Some st → socket st = Some s → sock_mem vs !! s = Some k →
  ∃ h, LIST_REMOVE (sockets vs) s = Some h ∧
    sys_inv (mk_sys (mk_heap (lh_first h) (delete s (entries h))) (delete s (sock_mem vs))
      (delete p (states vs)) (sockets_path vs) (vhost_start_ok vs) (enable_feature_mask vs)
      (disable_feature_mask vs)).
Proof.
  intros (l&Hl&Hdom&Hsock&Hst) Hp Hs Hk.
  assert (s ∈ l) as (l1&l2&->)%list_elem_of_split by (apply Hdom; eauto).
  destruct (list_rep_remove (sockets vs) l1 l2 s Hl) as (h&Hh&Hrep&_). exists h. split; [exact Hh|].
  assert (NoDup (l1 ++ s :: l2)) as Hnd by apply Hl.
  assert (s ∉ l1 ++ l2) as Hni.
  { rewrite NoDup_app, NoDup_cons in Hnd. set_solver. }
  exists (l1 ++ l2). cbn [sockets sock_mem states]. split_and!; [by apply list_rep_delete|..].
  - intros q. destruct (decide (q = s)) as [->|].
    + rewrite lookup_delete_eq. split; [done|]. by intros [? ?].
    + rewrite lookup_delete_ne by done. rewrite <- Hdom. set_solver.
  - intros q j. destruct (decide (q = s)) as [->|]; [by rewrite lookup_delete_eq|].
    rewrite lookup_delete_ne by done. intros Hj. destruct (Hsock q j Hj) as (u&Hu&Hus).
    rewrite lookup_delete_ne by (intros ?; congruence). by exists u.
  - intros q u. destruct (decide (q = p)) as [->|]; [by rewrite lookup_delete_eq|].
    rewrite lookup_delete_ne by done. intros Hu. destruct (Hst q u Hu) as (s'&j&Hs'&Hj&Hq).
    exists s', j. rewrite lookup_delete_ne; [done|]. intros ?.
    destruct (Hst p st Hp) as (s2&k2&Hs2&Hk2&Hp2). congruence.
Qed.

Lemma init_inv `{!VhostErr} null vs p nm flags (fl fl' : flow W) r :
  sys_inv vs → states vs !! p = None → fl_errp fl = None →
  vhost_init null vs p (vhost_config_new nm flags) fl = Some (r, fl') →
  sys_inv (if fst r <? 0 then delete_state (snd r) p else snd r).
Proof.
  intros Hinv Hp He. assert (∀ a b, delete_state (set_state (set_state vs p a) p b) p = vs) as Hdel.
  { intros a b. unfold delete_state, set_state. destruct vs. cbn in *. f_equal.
    by rewrite insert_insert_eq, delete_insert_id. }
  unfold vhost_init. cbn [vhost_start_ok set_state]. destruct (vhost_start_ok vs); cbn [negb].
  2: { intros (?&?&_&[= <- _])%bind_run. cbn [fst snd]. change (-1 <? 0) with true. cbv iota.
       specialize (Hdel (zero_state null) (zero_state null)).
       unfold set_state in Hdel at 1. cbn in Hdel. rewrite insert_insert_eq in Hdel.
       unfold set_state. by rewrite Hdel. }
  set (st0 := mk_vhost _ _ _ _ _ _ _ _). set (vs0 := set_state (set_state vs p _) p st0).
  assert (states vs0 !! p = Some st0) as Hp0 by (unfold vs0; cbn; by rewrite lookup_insert_eq).
  unfold pg_vhost_enable, pg_vhost_disable, pg_vhost_socket_path. rewrite Hp0.
  cbn [mbind option_bind socket st0]. cbn [unwrap]. rewrite !M_bind_assoc, !M_bind_ret.
  intros (ret&fl0&H0&Hr)%bind_run. rewrite M_bind_ret in H0. injection H0 as _ <-.
  apply bind_run in Hr as (vs1&fl1&Hc&Hr). apply bind_run in Hr as (failed&fl2&Hg&Hr).
  unfold gets in Hg. injection Hg as <- <-.
  destruct (create_socket_spec _ _ _ _ _ _ _ Hc He) as [[-> Herr]|(st&h&Hnone&Hst&Hh&->)].
  - unfold pg_error_is_set in Hr. destruct (fl_errp fl1); [|done]. injection Hr as <- _.
    cbn [fst snd]. change (-1 <? 0) with true. cbv iota. unfold vs0. by rewrite Hdel.
  - rewrite Hnone in Hr. cbn [pg_error_is_set] in Hr. rewrite Hp0 in Hst. injection Hst as <-.
    change (new_socket vs0) with (new_socket vs) in *. change (sockets vs0) with (sockets vs) in Hh.
    pose proof (sys_inv_add vs p st0 h
      (default "(null)" (sockets_path vs0) +:+ "/qemu-" +:+ cfg_name (vhost_config_new nm flags))
      Hinv Hp Hh) as Hadd.
    assert (<[p := set_socket st0 (Some (new_socket vs))]> (states vs0)
      = <[p := set_socket st0 (Some (new_socket vs))]> (states vs)) as Heq.
    { unfold vs0. cbn [states set_state]. by rewrite !insert_insert_eq. }
    rewrite Heq in Hr. cbn [states] in Hr. rewrite lookup_insert_eq in Hr. cbn [unwrap] in Hr.
    rewrite M_bind_ret in Hr. injection Hr as <- _. cbn [fst snd]. change (0 <? 0) with false.
    cbv iota. eapply sys_inv_set_state; [exact Hadd| |]; [cbn [states]; apply lookup_insert_eq|done].
Qed.

Lemma destroy_inv vs p (fl fl' : flow W) vs' :
  sys_inv vs → vhost_destroy vs p fl = Some (vs', fl') → sys_inv (delete_state vs' p).
Proof.
  intros Hinv. unfold vhost_destroy. destruct (states vs !! p) as [st|] eqn:Hp; [|done].
  cbn [unwrap]. rewrite M_bind_ret. destruct (socket st) as [s|] eqn:Hs; [|done].
  cbn [unwrap]. rewrite M_bind_ret. destruct (sock_mem vs !! s) as [k|] eqn:Hk; [|done].
  cbn [unwrap]. rewrite M_bind_ret. intros Hr.
  destruct (sys_inv_remove vs p st s k Hinv Hp Hs Hk) as (h&Hh&Hinv').
  apply bind_run in Hr as (?&fl1&_&Hr). apply bind_run in Hr as (?&fl2&_&Hr).
  rewrite Hh in Hr. cbn [unwrap] in Hr. rewrite M_bind_ret in Hr. injection Hr as <- _.
  exact Hinv'.
Qed.

Lemma start_inv vs dir (fl fl' : flow W) r :
  sys_inv vs → states vs = ∅ → pg_vhost_start vs dir fl = Some (r, fl') → sys_inv (snd r).
Proof.
  intros (l&Hl&Hdom&Hsock&Hst) Hempty. assert (l = []) as ->.
  { destruct l as [|s l]; [done|]. destruct (proj1 (Hdom s)) as [k Hk]; [left|].
    destruct (Hsock s k Hk) as (u&Hu&_). by rewrite Hempty, lookup_empty in Hu. }
  assert (∀ vs', sockets vs' = LIST_INIT (sockets vs) → sock_mem vs' = sock_mem vs →
    states vs' = states vs → sys_inv vs') as Hsame.
  { intros vs' H1 H2 H3. exists []. rewrite H1, H2, H3. split; [apply list_rep_init|done]. }
  unfold pg_vhost_start. destruct (vhost_start_ok vs).
  { intros (?&?&_&[= <- _])%bind_run. cbn [snd]. exists []. done. }
  intros (vs1&fl1&Hc&Hr)%bind_run.
  assert (sockets vs1 = LIST_INIT (sockets vs) ∧ sock_mem vs1 = sock_mem vs ∧ states vs1 = states vs)
    as (H1&H2&H3).
  { unfold check_and_store_base_dir in Hc. apply bind_run in Hc as (dir'&fl2&_&Hc).
    destruct dir'; cbn [negb] in Hc.
    2: { apply bind_run in Hc as (?&?&_&[= <- _]). done. }
    destruct (_ <=? _)%nat; [by apply bind_run in Hc as (?&?&_&[= <- _])|].
    apply bind_run in Hc as ([e|pth]&fl3&_&Hc); [by apply bind_run in Hc as (?&?&_&[= <- _])|].
    by injection Hc as <- _. }
  apply bind_run in Hr as (failed&fl2&_&Hr).
  destruct failed; injection Hr as <- _; by apply Hsame.
Qed.

Lemma burst_inv vs p pkts mask (fl fl' : flow W) r :
  sys_inv vs → vhost_burst vs p pkts mask fl = Some (r, fl') → sys_inv (snd r).
Proof.
  intros Hinv. unfold vhost_burst. destruct (states vs !! p) as [st|] eqn:Hp; [|done].
  cbn [unwrap]. rewrite M_bind_ret. destruct (negb _); [by intros [= <- _]|].
  intros ([count out]&?&_&Hr)%bind_run. inv_run Hr. injection Hr as <- _.
  by eapply sys_inv_set_state.
Qed.

Lemma poll_inv vs p sd (fl fl' : flow W) r :
  sys_inv vs → vhost_poll vs p sd fl = Some (r, fl') → sys_inv (snd r).
Proof.
  intros Hinv. unfold vhost_poll. destruct (states vs !! p) as [st|] eqn:Hp; [|done].
  cbn [unwrap]. rewrite M_bind_ret. destruct (negb _); [by intros [= <- _]|].
  intros (l&?&_&Hr)%bind_run. destruct (_ =? _)%nat.
  - injection Hr as <- _. by eapply sys_inv_set_state.
  - inv_run Hr. injection Hr as <- _. by eapply sys_inv_set_state.
Qed.

(** The callbacks of the library. *)
Lemma find_socket_spec vs l pth :
  (∀ s, s ∈ l → is_Some (sock_mem vs !! s)) →
  (find_socket vs l pth = Some None ∧ ∀ s k, s ∈ l → sock_mem vs !! s = Some k → path k ≠ pth) ∨
  ∃ s k, s ∈ l ∧ sock_mem vs !! s = Some k ∧ path k = pth ∧
    find_socket vs l pth = Some (Some (sock_state k)).
Proof.
  induction l as [|s l IH]; intros Hl; cbn [find_socket].
  { left. split; [done|]. by intros s k ?%not_elem_of_nil. }
  destruct (Hl s) as [k Hk]; [left|]. rewrite Hk. cbn [mbind option_bind].
  destruct (String.eqb_spec (path k) pth) as [Heq|Hne].
  - right. exists s, k. split; [left|done].
  - destruct IH as [[Hf Hno]|(s'&k'&Hin&Hk'&Hp&Hf)]; [intros q Hq; apply Hl; by right|left|right].
    + split; [done|]. intros q j [->|Hq]%elem_of_cons Hj; [congruence|by eapply Hno].
    + exists s', k'. split; [by right|done].
Qed.

Lemma new_vm_spec vs dev (fl : flow W) :
  sys_inv vs → let pth := vhost_ifname (fl_world fl) dev in
  ∃ vs', new_vm vs dev fl = Some ((0, vs'), fl) ∧
    ((∀ p, pg_vhost_socket_path vs p ≠ Some (Some pth)) ∧ vs' = vs ∨
     ∃ p st, pg_vhost_socket_path vs p = Some (Some pth) ∧ states vs !! p = Some st ∧
       vs' = set_state vs p (set_lock (set_vid st dev) 0)).
Proof.
  intros (l&Hl&Hdom&Hsock&Hst) pth. unfold new_vm, gets.
  unfold mbind at 1, M_bind at 1. rewrite (list_rep_foreach _ _ Hl). cbn [unwrap].
  rewrite M_bind_ret. fold pth.
  destruct (find_socket_spec vs l pth) as [[-> Hno]|(s&k&Hin&Hk&Hp&->)];
    [intros s; apply Hdom|..]; cbn [unwrap]; rewrite M_bind_ret.
  - eexists. split; [done|]. left. split; [|done]. intros p. unfold pg_vhost_socket_path.
    destruct (states vs !! p) as [st|] eqn:Hps; [|done]. cbn [mbind option_bind].
    destruct (Hst p st Hps) as (s&k&Hs&Hk&_). rewrite Hs, Hk. cbn [mbind option_bind].
    intros [= Hpath]. by apply (Hno s k); [apply Hdom; eauto| |].
  - destruct (Hsock s k Hk) as (st&Hps&Hs). rewrite Hps. cbn [unwrap]. rewrite M_bind_ret.
    eexists. split; [done|]. right. exists (sock_state k), st. split; [|done].
    unfold pg_vhost_socket_path. rewrite Hps. cbn [mbind option_bind]. rewrite Hs, Hk. cbn.
    by rewrite Hp.
Qed.

Lemma destroy_vm_inv vs dev (fl fl' : flow W) vs' :
  sys_inv vs → destroy_vm vs dev fl = Some (vs', fl') → sys_inv vs'.
Proof.
  intros Hinv. unfold destroy_vm. intros (buf&fl1&_&Hr)%bind_run.
  apply bind_run in Hr as (l&fl2&_&Hr). apply bind_run in Hr as ([p|]&fl3&_&Hr);
    [|by injection Hr as <- _].
  destruct (states vs !! p) as [st|] eqn:Hp; [|done]. cbn [unwrap] in Hr. rewrite M_bind_ret in Hr.
  destruct (_ =? 0); [|done]. injection Hr as <- _. by eapply sys_inv_set_state.
Qed.

Lemma call_inv `{!VhostErr} null vs c (fl fl' : flow W) vs' :
  sys_inv vs → (∀ dir, c = VStart dir → states vs = ∅) →
  run_vhost_call null vs c fl = Some (vs', fl') → sys_inv vs'.
Proof.
  intros Hinv Hstart. unfold run_vhost_call, clear_error.
  intros (?&fl0&[= _ <-]&Hr)%bind_run.
  destruct c as [dir| |p nm flags|p|p pkts mask|p sd|p side|dev|dev|mask|mask].
  - apply bind_run in Hr as (r&fl1&Hr&[= <- _]). eapply start_inv; [done| |done]. by eapply Hstart.
  - injection Hr as <- _. unfold pg_vhost_stop. by destruct (negb _).
  - case_decide as Hp; [|done]. apply bind_run in Hr as (r&fl1&Hr&[= <- _]).
    by eapply init_inv; [| | |exact Hr].
  - apply bind_run in Hr as (r&fl1&Hr&[= <- _]). by eapply destroy_inv.
  - apply bind_run in Hr as (r&fl1&Hr&[= <- _]). by eapply burst_inv.
  - apply bind_run in Hr as (r&fl1&Hr&[= <- _]). by eapply poll_inv.
  - destruct (states vs !! p) as [st|] eqn:Hp; [|done]. cbn [unwrap] in Hr.
    rewrite M_bind_ret in Hr. injection Hr as <- _. by eapply sys_inv_set_state.
  - apply bind_run in Hr as (r&fl1&Hr&[= <- _]). set (fla := mk_flow _ _ _ _) in Hr.
    destruct (new_vm_spec vs dev fla Hinv) as (vs1&Hn&Hcase). rewrite Hr in Hn.
    injection Hn as -> ->. cbn [snd].
    destruct Hcase as [[_ ->]|(p&st&_&Hp&->)]; [done|]. by eapply sys_inv_set_state.
  - by eapply destroy_vm_inv.
  - by injection Hr as <- _.
  - by injection Hr as <- _.
Qed.

Lemma vhost_reach_inv `{!VhostErr} null vs : vhost_reach null vs → sys_inv vs.
Proof. induction 1; [apply sys_inv_start|by eapply call_inv]. Qed.


End Calls.

(** ** The data path *)

(** The documented behaviour of the queues: [vhost_enqueue] copies packets into the guest,
    which [guest] records, and leaves the caller's; [vhost_dequeue] allocates packets with
    one reference each. *)
Class VhostLaws (W : Type) `{!VhostLib W} (guest : W → Z → list mptr) : Prop := {
  law_enqueue dev q (l : pkts_t) n (fl : flow W) :
    (n ≤ length l)%nat → (∀ x, x ∈ take n l → is_Some (fl_mem fl !! x)) →
    ∃ k w, vhost_enqueue dev q l (Z.of_nat n) fl
      = Some (Z.of_nat k, mk_flow (fl_mem fl) (fl_count fl) (fl_errp fl) w) ∧ (k ≤ n)%nat ∧
      guest w dev = guest (fl_world fl) dev ++ take k l;
  law_dequeue dev q n rest (fl : flow W) :
    held rest fl →
    ∃ l fl', vhost_dequeue dev q n fl = Some (l, fl') ∧ (length l ≤ n)%nat ∧
      fl_mem fl ⊆ fl_mem fl' ∧ (∀ x, x ∈ l → has_ether fl' x) ∧ held (l ++ rest) fl';
}.

Section Data.

Context {W : Type} `{!Dispatch W, !PktLib W, !PktLaws W, !VhostLib W}.
Context (guest : W → Z → list mptr) `{!VhostLaws W guest}.
Implicit Types (fl : flow W).

Abbreviation total_len := Rxtx.total_len.

Lemma u64_add_r a b : u64 (a + u64 b) = u64 (a + b).
Proof. unfold u64. by rewrite Zplus_mod_idemp_r. Qed.

Lemma total_len_mem fl fl' l : fl_mem fl' = fl_mem fl → total_len fl' l = total_len fl l.
Proof. unfold Rxtx.total_len. by intros ->. Qed.

(** The two calls that copy up to 64 packets. *)
Lemma enqueue_all_spec dev (out new : pkts_t) fl :
  length out = 64%nat → take (length new) out = new → (length new ≤ 64)%nat →
  (∀ x, x ∈ new → is_Some (fl_mem fl !! x)) →
  ∃ k1 k2 w, enqueue_all dev out (Z.of_nat (length new)) fl
      = Some (Z.of_nat (k1 + k2), mk_flow (fl_mem fl) (fl_count fl) (fl_errp fl) w) ∧
    (k1 ≤ Nat.min 32 (length new))%nat ∧ (k2 ≤ length new - 32)%nat ∧
    guest w dev = guest (fl_world fl) dev ++ take k1 new ++ take k2 (drop 32 new).
Proof.
  intros Hlen Htake Hn Hlive. unfold enqueue_all.
  destruct (Z.ltb_spec 32 (Z.of_nat (length new))) as [Hgt|Hle].
  - destruct (law_enqueue dev VIRTIO_RXQ out 32 fl) as (k1&w1&H1&Hk1&Hg1); [lia| |].
    { intros x Hx. apply Hlive. rewrite <- Htake.
      apply list_elem_of_lookup in Hx as [i Hi]. apply lookup_take_Some in Hi as [Hi Hlt].
      apply list_elem_of_lookup. exists i. apply lookup_take_Some. split; [done|lia]. }
    change 32 with (Z.of_nat 32). unfold mbind at 1, M_bind at 1. rewrite H1.
    set (fl1 := mk_flow _ _ _ w1). rewrite <- Nat2Z.inj_sub by lia.
    destruct (law_enqueue dev VIRTIO_RXQ (drop 32 out) (length new - 32) fl1)
      as (k2&w2&H2&Hk2&Hg2); [rewrite length_drop; lia| |].
    { intros x Hx. apply Hlive. rewrite <- Htake.
      apply list_elem_of_lookup in Hx as [i Hi]. apply lookup_take_Some in Hi as [Hi Hlt].
      rewrite lookup_drop in Hi. apply list_elem_of_lookup. exists (32 + i)%nat.
      apply lookup_take_Some. split; [done|lia]. }
    unfold mbind, M_bind. rewrite H2. exists k1, k2, w2. rewrite mret_run.
    rewrite <- Nat2Z.inj_add, u16_small by lia. split_and!; [done|lia|lia|].
    rewrite Hg2. cbn [fl_world fl1]. rewrite Hg1, <- app_assoc. f_equal. f_equal.
    + rewrite <- Htake, take_take. by rewrite Nat.min_l by lia.
    + rewrite <- Htake, skipn_firstn_comm, take_take. by rewrite Nat.min_l by lia.
  - destruct (law_enqueue dev VIRTIO_RXQ out (length new) fl) as (k&w&H1&Hk&Hg); [lia| |].
    { by rewrite Htake. }
    exists k, 0%nat, w. rewrite Nat.add_0_r. split_and!; [done|lia|lia|].
    rewrite Hg. cbn [take]. rewrite app_nil_r. f_equal.
    rewrite <- Htake, take_take. by rewrite Nat.min_l by lia.
Qed.

Lemma sum_len_spec (l : pkts_t) fl i n bytes :
  (i + n ≤ length l)%nat → (∀ x, x ∈ take n (drop i l) → is_Some (fl_mem fl !! x)) →
  bytes = u64 bytes →
  sum_len l (seq i n) bytes fl = Some (u64 (bytes + total_len fl (take n (drop i l))), fl).
Proof.
  revert i bytes. induction n as [|n IH]; intros i bytes Hn Hl Hb; cbn [seq sum_len].
  { cbn [take Rxtx.total_len foldr]. by rewrite Z.add_0_r, <- Hb. }
  destruct (lookup_lt_is_Some_2 l i) as [q Hq]; [lia|]. rewrite (drop_S _ _ _ Hq) in Hl |- *.
  cbn [take] in Hl |- *. destruct (Hl q) as [v Hv]; [left|].
  rewrite Hq. cbn [unwrap]. rewrite M_bind_ret. unfold load_pkt. rewrite M_bind_assoc.
  unfold mbind at 1, M_bind at 1, gets. rewrite Hv. cbn [unwrap]. rewrite M_bind_ret.
  rewrite IH; [|lia|intros x Hx; apply Hl; by right|by rewrite Rxtx.u64_idem].
  rewrite Rxtx.u64_add_l. unfold Rxtx.total_len at 2. cbn [foldr]. rewrite Hv.
  by rewrite Z.add_assoc.
Qed.

(** A burst into vhost while a machine is connected copies the packets of the burst to
    the guest in order, the first 32 and the others by two calls that can each stop early,
    leaves every packet and reference as it was, frees the lock again and adds to the
    counter of sent bytes the lengths of as many packets as the guest took; while the brick
    is locked (no machine) a burst does nothing at all. The count is stated for bursts
    without holes. *)
Theorem vhost_burst_copies vs p st (l : pkts_t) mask new fl :
  states vs !! p = Some st → length (v_out st) = PG_MAX_PKTS_BURST → is_mask mask →
  PG_FOREACH_BIT mask = seq 0 (length new) →
  mapM (λ j, l !! j) (PG_FOREACH_BIT mask) = Some new → (∀ x, x ∈ new → is_Some (fl_mem fl !! x)) →
  (allow_queuing st ≠ 0 → vhost_burst vs p l mask fl = Some ((0, vs), fl)) ∧
  (allow_queuing st = 0 → ∃ k1 k2 out w, let st' :=
      mk_vhost (output st) (socket st) 0 (vid st) (v_in st) out
        (u64 (tx_bytes st + total_len fl (take (k1 + k2) new))) (rx_bytes st) in
    vhost_burst vs p l mask fl
    = Some ((0, set_state vs p st'), mk_flow (fl_mem fl) (fl_count fl) (fl_errp fl) w) ∧
    (k1 ≤ Nat.min 32 (length new))%nat ∧ (k2 ≤ length new - 32)%nat ∧
    guest w (vid st) = guest (fl_world fl) (vid st) ++ take k1 new ++ take k2 (drop 32 new)).
Proof.
  intros Hp Hout Hm Hseq Hnew Hlive. unfold vhost_burst. rewrite Hp. cbn [unwrap].
  split; intros Hlock; rewrite M_bind_ret.
  { by rewrite (proj2 (Z.eqb_neq _ _) Hlock). }
  rewrite Hlock. change (negb (0 =? 0)) with false. cbv iota zeta. cbn [v_out vid set_lock].
  destruct (pack_firsts (v_out st) l mask new Hout Hm Hnew) as (out&Hpack&Hlo&Htake&Hn).
  rewrite Hpack. cbn [unwrap]. rewrite M_bind_ret, u16_small by lia.
  destruct (enqueue_all_spec (vid st) out new fl Hlo Htake Hn Hlive) as (k1&k2&w&Henq&Hk1&Hk2&Hg).
  unfold mbind at 1, M_bind at 1. rewrite Henq, Nat2Z.id. set (fl1 := mk_flow _ _ _ w).
  assert (take (length new) l = new ∧ (length new ≤ length l)%nat) as [Hl Hll].
  { rewrite Hseq in Hnew. assert (length new ≤ length l)%nat as Hle.
    { destruct (decide (length new ≤ length l)%nat) as [|Hgt]; [done|]. exfalso.
      apply mapM_Some in Hnew. destruct (Forall2_lookup_l _ _ _ (length l) (length l) Hnew) as (y&_&Hy).
      - apply lookup_seq. lia.
      - apply lookup_lt_Some in Hy. lia. }
    rewrite mapM_seq_take in Hnew by done. by injection Hnew. }
  unfold mbind at 1, M_bind at 1. rewrite sum_len_spec; [|lia| |done].
  2: { intros x Hx. rewrite drop_0 in Hx. change (fl_mem fl1) with (fl_mem fl). apply Hlive.
       rewrite <- Hl. apply list_elem_of_lookup in Hx as [i Hi].
       apply lookup_take_Some in Hi as [Hi Hlt]. apply list_elem_of_lookup. exists i.
       apply lookup_take_Some. split; [done|lia]. }
  exists k1, k2, out, w. cbv zeta. split_and!; [|lia|lia|done]. rewrite drop_0, Z.add_0_l.
  replace (take (k1 + k2) l) with (take (k1 + k2) new).
  2: { rewrite <- Hl, take_take. by rewrite Nat.min_l by lia. }
  rewrite (total_len_mem fl fl1) by done. by rewrite u64_add_r.
Qed.

Lemma vhost_rx_loop_spec l bytes fl :
  (∀ x, x ∈ l → has_ether fl x) → bytes = u64 bytes →
  ∃ h, rx_loop l bytes fl = Some (u64 (bytes + total_len fl l), set_mem fl h) ∧
    same_packets fl (set_mem fl h).
Proof.
  revert bytes fl. induction l as [|q l IH]; intros bytes fl Hl Hb; cbn [rx_loop].
  { exists (fl_mem fl). cbn [Rxtx.total_len foldr]. rewrite Z.add_0_r, <- Hb.
    split; [by destruct fl|]. intros x v Hx. exists (l2_len v). by rewrite set_l2_len_same. }
  destruct (Hl q) as (v&Hv&Hd); [left|]. destruct (Rxtx.guess_metadata_ok v Hd) as [n Hn].
  unfold load_pkt. rewrite M_bind_assoc. unfold mbind at 1, M_bind at 1, gets. rewrite Hv.
  cbn [unwrap]. rewrite M_bind_ret, Hn. cbn [unwrap]. rewrite M_bind_ret.
  unfold store_pkt, modify, mbind, M_bind.
  change (mk_flow (<[q := set_l2_len v n]> (fl_mem fl)) (fl_count fl) (fl_errp fl) (fl_world fl))
    with (set_mem fl (<[q := set_l2_len v n]> (fl_mem fl))).
  pose proof (guess_store_same fl q v n Hv) as Hs. set (fl1 := set_mem fl _) in *.
  destruct (IH (u64 (bytes + pkt_len v)) fl1) as (h&Hr&Hsame).
  { intros x Hx. eapply same_packets_ether; [done|]. apply Hl. by right. }
  { by rewrite Rxtx.u64_idem. }
  exists h. split; [|by eapply same_packets_trans]. rewrite Hr. f_equal. f_equal.
  rewrite Rxtx.u64_add_l. unfold Rxtx.total_len at 2. cbn [foldr]. rewrite Hv.
  fold (total_len fl l). rewrite <- Z.add_assoc. f_equal. f_equal. f_equal.
  unfold Rxtx.total_len. clear -Hs Hl Hv. induction l as [|x l IHl]; [done|]. cbn [foldr].
  rewrite IHl by (intros y Hy; apply Hl; set_solver). f_equal.
  destruct (Hl x) as (u&Hu&_); [set_solver|]. destruct (Hs x u Hu) as [m Hm]. by rewrite Hu, Hm.
Qed.

Lemma dequeue_all_spec dev rest fl :
  held rest fl →
  ∃ l fl', dequeue_all dev fl = Some (l, fl') ∧ (length l ≤ 64)%nat ∧
    (∀ x, x ∈ l → has_ether fl' x) ∧ held (l ++ rest) fl'.
Proof.
  intros Hh. destruct (law_dequeue dev VIRTIO_TXQ MAX_BURST rest fl Hh)
    as (l1&fl1&H1&Hl1&_&He1&Hh1). unfold dequeue_all, mbind at 1, M_bind at 1. rewrite H1.
  unfold MAX_BURST in *. destruct (Nat.eqb_spec (length l1) 32) as [Hfull|Hpart].
  - destruct (law_dequeue dev VIRTIO_TXQ 32 (l1 ++ rest) fl1 Hh1) as (l2&fl2&H2&Hl2&Hsub&He2&Hh2).
    unfold mbind, M_bind. rewrite H2. exists (l1 ++ l2), fl2. split; [done|].
    split; [rewrite length_app; lia|]. split.
    + intros x [Hx|Hx]%elem_of_app; [|by apply He2]. destruct (He1 x Hx) as (v&Hv&Hd).
      exists v. split; [|done]. by eapply lookup_weaken.
    + eapply held_perm; [|exact Hh2]. intros x. rewrite !occurs_app. lia.
  - exists l1, fl1. split; [done|]. split; [lia|]. done.
Qed.

(** A poll of vhost while a machine is connected reads up to 64 packets of the guest,
    sends all of them in order as one burst to the neighbour, reports their number with
    the neighbour's result, counts their bytes, gives back their references and frees the
    lock; when the guest sent nothing no burst is made, and while the brick is locked a
    poll does nothing. *)
Theorem vhost_poll_forwards sent `{!Recording W sent} vs p st sd e n rest fl :
  states vs !! p = Some st → length (v_in st) = PG_MAX_PKTS_BURST →
  side_edges sd = Edge e → link e = Some n → held rest fl →
  (allow_queuing st ≠ 0 → vhost_poll vs p sd fl = Some ((0, 0, vs), fl)) ∧
  (allow_queuing st = 0 → ∃ l fl1 ret fl', dequeue_all (vid st) fl = Some (l, fl1) ∧
    (length l ≤ 64)%nat ∧ let st' :=
      mk_vhost (output st) (socket st) 0 (vid st) (l ++ drop (length l) (v_in st)) (v_out st)
        (tx_bytes st) (if decide (l = []) then rx_bytes st
                       else u64 (rx_bytes st + total_len fl1 l)) in
    vhost_poll vs p sd fl = Some ((ret, Z.of_nat (length l), set_state vs p st'), fl') ∧
    held rest fl' ∧ (l = [] → ret = 0 ∧ fl' = fl1) ∧
    (l ≠ [] → ∃ c, bc_to c = Some n ∧ bc_from c = output st ∧ bc_edge c = pair_index e ∧
      delivered c = l ∧ sent (fl_world fl') = sent (fl_world fl1) ++ [c])).
Proof.
  intros Hp Hin He Hn Hh. unfold vhost_poll. rewrite Hp. cbn [unwrap].
  split; intros Hlock; rewrite M_bind_ret.
  { by rewrite (proj2 (Z.eqb_neq _ _) Hlock). }
  rewrite Hlock. change (negb (0 =? 0)) with false. cbv iota zeta. cbn [v_in vid set_lock].
  destruct (dequeue_all_spec (vid st) rest fl Hh) as (l&fl1&Hd&Hl&Heth&Hh1).
  unfold mbind at 1, M_bind at 1. rewrite Hd. destruct (Nat.eqb_spec (length l) 0) as [H0|H0].
  { apply nil_length_inv in H0 as ->. exists [], fl1, 0, fl1. split; [done|]. split; [done|].
    cbv zeta. cbn [length]. rewrite decide_True by done. split; [done|]. split; [done|].
    split; [done|]. by intros []. }
  assert (l ≠ []) as Hne by (intros ->; done).
  destruct (vhost_rx_loop_spec l 0 fl1 Heth eq_refl) as (h&Hrx&Hs).
  set (arr := l ++ drop (length l) (v_in st)).
  destruct (send_and_free sent n (output st) (pair_index e) arr
    (pg_mask_firsts (u8 (Z.of_nat (length l)))) l rest (set_mem fl1 h)) as (ret&fl'&Hb&Hsent&Hh2).
  { rewrite firsts_selected; [|done|unfold arr; rewrite length_app; lia].
    unfold arr. by rewrite take_app_length. }
  { by eapply same_packets_held. }
  exists l, fl1, ret, fl'. split; [done|]. split; [done|]. cbv zeta.
  rewrite decide_False by done. split_and!.
  - unfold mbind at 1, M_bind at 1. rewrite Hrx. cbn [output pair_index v_in].
    unfold edge_of. rewrite He, M_bind_ret, Hn, Z.add_0_l. fold arr. rewrite u64_add_r.
    revert Hb. unfold mbind, M_bind. destruct (pg_brick_burst _ _ _ _ _ _) as [[r f]|]; [|done].
    destruct (pg_packets_free _ _ _) as [[[] f2]|]; [|done]. intros [= -> ->]. done.
  - done.
  - done.
  - intros _. eexists. split; [|split; [|split; [|split; [|exact Hsent]]]]; try done.
    rewrite delivered_firsts by done. unfold arr. by rewrite take_app_length.
Qed.

End Data.

(** ** Witnesses *)

(** Machines that take every packet and always have one to send. *)
Record vm_world := mk_vw { vw_sent : list burst_call; vw_guest : gmap Z (list mptr) }.

Definition vm_set (f : vm_world → vm_world) : M (flow vm_world) unit :=
  modify (λ fl, mk_flow (fl_mem fl) (fl_count fl) (fl_errp fl) (f (fl_world fl))).

Definition vm_guest (w : vm_world) (dev : Z) : list mptr := default [] (vw_guest w !! dev).

Definition vm_dispatch : Dispatch vm_world := λ p from i l m,
  vm_set (λ w, mk_vw (vw_sent w ++ [mk_call (Some p) from i l m]) (vw_guest w));; mret 0.

Lemma vm_recording : @Recording vm_world vm_dispatch vw_sent.
Proof. intros p from i l m fl _. eexists 0, _. split; [done|]. split; [done|]. done. Qed.

Definition vm_frame : mbuf := mk_mbuf (replicate 14 0) 14 0 0 0 0 1.

(** [start] and [features] are the answers of [rte_vhost_driver_start] and of the feature
    calls. *)
Definition vm_lib (start : Z) (features : M (flow vm_world) Z) : VhostLib vm_world := {|
  vhost_enqueue dev _ l n :=
    vm_set (λ w, mk_vw (vw_sent w)
      (<[dev := vm_guest w dev ++ take (Z.to_nat n) l]> (vw_guest w)));; mret n;
  vhost_dequeue _ _ n :=
    match n with
    | O => mret []
    | S _ =>
        q ← gets (λ fl, fresh (dom (fl_mem fl) : gset mptr));
        modify (λ fl, set_mem fl (<[q := vm_frame]> (fl_mem fl)));; mret [q]
    end;
  driver_register _ _ := mret 0;
  driver_callback_register _ := mret 0;
  driver_start _ := mret start;
  driver_unregister _ := mret 0;
  driver_enable_features _ _ := features;
  driver_disable_features _ _ := features;
  vhost_ifname _ dev := if dev =? 0 then "/tmp/qemu-vm0" else "/tmp/qemu-vm1";
  file_remove _ := mret tt;
  is_directory _ _ := true;
  realpath _ s := inr s;
|}.

Lemma vm_lib_err start features : @VhostErr vm_world (vm_lib start features).
Proof.
  split; unfold file_remove, driver_register, driver_callback_register, driver_start;
    cbn [vm_lib]; intros;
    match goal with H : _ = Some _ |- _ => injection H as _ <- end; done.
Qed.

Lemma fresh_packet_held (fl : flow vm_world) rest :
  let q := fresh (dom (fl_mem fl) : gset mptr) in
  held rest fl → held (q :: rest) (set_mem fl (<[q := vm_frame]> (fl_mem fl))).
Proof.
  intros q Hh. assert (fl_mem fl !! q = None) as Hnew.
  { apply not_elem_of_dom. exact (is_fresh (dom (fl_mem fl) : gset mptr)). }
  rewrite held_alt in Hh |- *. intros x Hx. rewrite set_mem_mem, occurs_cons in *.
  destruct (decide (x = q)) as [->|Hne].
  - rewrite lookup_insert_eq. exists vm_frame. split; [done|]. pose proof (occurs_nonneg q rest).
    destruct (decide (0 < occurs q rest)) as [Hpos|]; [|cbn [refcnt vm_frame]; lia].
    destruct (Hh q Hpos) as (v&Hv&_). congruence.
  - rewrite lookup_insert_ne by done. destruct (Hh x) as (v&Hv&Hc); [lia|].
    exists v. split; [done|lia].
Qed.

Lemma vm_laws start features : @VhostLaws vm_world (vm_lib start features) vm_guest.
Proof.
  split; unfold vhost_enqueue, vhost_dequeue; cbn [vm_lib].
  - intros dev q l n fl Hn _. eexists n, _. split; [done|]. split; [done|].
    cbn [fl_world]. unfold vm_guest at 1. cbn [vw_guest]. by rewrite lookup_insert_eq, Nat2Z.id.
  - intros dev q [|n] rest fl Hh.
    { exists [], fl. split; [done|]. split; [done|]. split; [done|]. split; [|done].
      by intros x ?%not_elem_of_nil. }
    set (a := fresh (dom (fl_mem fl) : gset mptr)).
    assert (fl_mem fl !! a = None) as Hnew.
    { apply not_elem_of_dom. exact (is_fresh (dom (fl_mem fl) : gset mptr)). }
    exists [a], (set_mem fl (<[a := vm_frame]> (fl_mem fl))). split; [done|].
    split; [cbn; lia|]. split; [by apply insert_subseteq|]. split; [|by apply fresh_packet_held].
    intros x ->%list_elem_of_singleton. exists vm_frame. rewrite set_mem_mem, lookup_insert_eq.
    split; [done|]. cbn. lia.
Qed.

Abbreviation demo_lib := (vm_lib 0 (mret 0)).

Definition vm_flow : flow vm_world :=
  mk_flow {[5%positive := mk_mbuf [1] 10 0 0 0 0 1; 6%positive := mk_mbuf [2] 99 0 0 0 0 1]} ∅ None
    (mk_vw [] ∅).

(** The states after a sequence of calls. *)
Fixpoint run_vhost_calls `{!VhostLib vm_world} vs (cs : list vhost_call) : M (flow vm_world) vhost_sys :=
  match cs with
  | [] => mret vs
  | c :: cs =>
      vs ← run_vhost_call (D := vm_dispatch) (PktLib0 := mem_pktlib) 1 vs c; run_vhost_calls vs cs
  end.


Definition connected : pg_vhost_state :=
  mk_vhost PG_EAST_SIDE None 0 4 (replicate 64 1%positive) (replicate 64 1%positive) 0 0.

Definition vm_sys : vhost_sys := mk_sys (mk_heap None ∅) ∅ {[3%positive := connected]} None true 0 0.

Lemma vhost_burst_copies_witness :
  ∃ k vs' fl', vhost_burst (VhostLib0 := demo_lib) vm_sys 3 [5%positive; 6%positive] 3 vm_flow
    = Some ((0, vs'), fl') ∧ vm_guest (fl_world fl') 4 = take k [5%positive; 6%positive].
Proof.
  destruct (vhost_burst_copies (VhostLib0 := demo_lib) vm_guest
    (VhostLaws0 := vm_laws 0 (mret 0)) vm_sys 3 connected [5%positive; 6%positive] 3
    [5%positive; 6%positive] vm_flow) as [_ (k1&k2&out&w&Hr&_&Hk2&Hg)].
  - by vm_compute.
  - done.
  - unfold is_mask. lia.
  - done.
  - done.
  - intros x [->| ->%list_elem_of_singleton]%elem_of_cons; by eexists.
  - done.
  - eexists k1, _, _. split; [exact Hr|]. cbn [length] in Hk2.
    assert (k2 = 0%nat) as -> by lia. cbn [take] in Hg. rewrite app_nil_r in Hg. exact Hg.
Defined.

Lemma vhost_poll_forwards_witness :
  ∃ ret l vs' fl', vhost_poll (D := vm_dispatch) (PktLib0 := mem_pktlib) (VhostLib0 := demo_lib)
    vm_sys 3 (mk_side 1 1 (Edge (mk_edge (Some 9%positive) 0))) vm_flow
    = Some ((ret, Z.of_nat (length (l : pkts_t)), vs'), fl') ∧ held [5%positive] fl'.
Proof.
  destruct (vhost_poll_forwards (Dispatch0 := vm_dispatch) (PktLib0 := mem_pktlib)
    (PktLaws0 := mem_pktlaws) (VhostLib0 := demo_lib) vm_guest
    (VhostLaws0 := vm_laws 0 (mret 0)) vw_sent (Recording0 := vm_recording) vm_sys 3 connected
    (mk_side 1 1 (Edge (mk_edge (Some 9%positive) 0))) (mk_edge (Some 9%positive) 0) 9
    [5%positive] vm_flow) as [_ (l&fl1&ret&fl'&_&_&Hr&Hh&_)].
  - by vm_compute.
  - done.
  - done.
  - done.
  - intros q ->%list_elem_of_singleton. eexists. split; [done|]. by vm_compute.
  - done.
  - by eexists ret, l, _, fl'.
Defined.

(** ** Behaviours that differ from the documentation *)

(** [vhost_burst] counts the bytes of the wrong packets when the burst has holes: it packs
    the burst and then reads the array it was given. Sending only the second packet, of 99
    bytes, counts the 10 bytes of the first. *)
Theorem vhost_counts_unsent_bytes :
  ∃ vs' fl', vhost_burst (VhostLib0 := demo_lib) vm_sys 3 [5%positive; 6%positive] 2 vm_flow
    = Some ((0, vs'), fl') ∧ vm_guest (fl_world fl') 4 = [6%positive] ∧
    tx_bytes <$> states vs' !! 3%positive = Some 10.
Proof. eexists _, _. split; [vm_compute; reflexivity|]. by vm_compute. Qed.

(** The global features are not inherited by new bricks: [vhost_init] asks for them before
    the socket exists, so the library is never called (here it would crash). *)
Theorem vhost_global_features_ignored :
  let vs := snd (pg_vhost_global_enable vm_sys 0x8000) in
  ∃ vs' fl', vhost_init (VhostLib0 := vm_lib 0 crash) 1 vs 7 (vhost_config_new "vm1" 0) vm_flow
    = Some ((0, vs'), fl').
Proof. eexists _, _. vm_compute. reflexivity. Qed.

(** A socket whose driver could not be started is taken for a good one. *)
Theorem vhost_driver_start_ignored :
  ∃ vs' fl', vhost_init (VhostLib0 := vm_lib (-1) (mret 0)) 1 vm_sys 7 (vhost_config_new "vm1" 0)
    vm_flow = Some ((0, vs'), fl') ∧ fl_errp fl' = None.
Proof. eexists _, _. split; [vm_compute; reflexivity|]. done. Qed.

(** The masks of global features are [int]s: the features above bit 31 are lost. *)
Theorem vhost_global_mask_truncated :
  enable_feature_mask (snd (pg_vhost_global_enable vm_sys (2 ^ 32))) = 0.
Proof. done. Qed.

(** Stopping and starting vhost while a brick is alive empties the list of sockets under
    it; when that brick is destroyed the head of the new list is overwritten, and the
    socket of a brick created since is lost: its machine will never be connected. *)
Theorem vhost_restart_loses_sockets :
  ∃ vs fl, run_vhost_calls (VhostLib0 := demo_lib) sys_start
      [VStart "/tmp"; VNew 3 "vm0" 0; VStop; VStart "/tmp"; VNew 4 "vm1" 0; VDestroy 3] vm_flow
    = Some (vs, fl) ∧ pg_vhost_socket_path vs 4 = Some (Some "/tmp/qemu-vm1") ∧
    LIST_FOREACH (sockets vs) = Some [].
Proof. eexists _, _. split; [vm_compute; reflexivity|]. by vm_compute. Qed.
