(* ===== verification/VhostSync.v ===== *)
(** * The lock of the vhost brick

    [allow_queuing] of [src/vhost.c] keeps the threads that run graphs away from a device
    that the vhost library is taking down. Bursts and polls run in graph threads, [new_vm]
    and [destroy_vm] in the thread of the library; this file models one brick, its two
    shared words and every interleaving of the atomic actions of the threads. *)

From S2P Require Import Prelude.

(** A burst or a poll of a graph thread: outside, with the lock, and with the device it
    read from [state->vid]. *)
Inductive graph_pc := GIdle | GLocked | GUsing (dev : Z).

(** The library: without a device; in [new_vm] once [vid] is written; with a device; in
    the loop of [destroy_vm]; and in [destroy_vm] with the lock. *)
Inductive lib_pc :=
  | LNone
  | LOpening (dev : Z)
  | LConnected (dev : Z)
  | LClosing (dev : Z)
  | LClosed.

(** [vhost_init] from the moment the socket is in the list: before [rte_atomic32_init],
    before [rte_atomic32_set] and after. *)
Inductive init_pc := IBefore | IZeroed | IDone.

Global Instance init_pc_eq_dec : EqDecision init_pc.
Proof. solve_decision. Defined.

Record sync := mk_sync {
  lock : Z;
  cur_vid : Z;
  graph : nat → graph_pc;
  lib : lib_pc;
  init : init_pc;
}.

Implicit Types (s : sync) (t : nat).

Definition set_graph (g : nat → graph_pc) t (c : graph_pc) : nat → graph_pc :=
  λ t', if decide (t' = t) then c else g t'.

(** The atomic actions. [rte_atomic32_test_and_set] takes the lock when it is 0; the
    failing branches leave the shared state alone and return ([vhost_burst], [vhost_poll])
    or try again ([destroy_vm]). *)
Inductive step : sync → sync → Prop :=
  (* vhost_burst and vhost_poll *)
  | step_try_lock s t :
      graph s t = GIdle → init s = IDone → lock s = 0 →
      step s (mk_sync 1 (cur_vid s) (set_graph (graph s) t GLocked) (lib s) (init s))
  | step_read_vid s t :
      graph s t = GLocked →
      step s (mk_sync (lock s) (cur_vid s) (set_graph (graph s) t (GUsing (cur_vid s))) (lib s) (init s))
  | step_unlock s t dev :
      graph s t = GUsing dev →
      step s (mk_sync 0 (cur_vid s) (set_graph (graph s) t GIdle) (lib s) (init s))
  (* new_vm *)
  | step_new_vm s dev :
      lib s = LNone → 0 ≤ dev →
      step s (mk_sync (lock s) dev (graph s) (LOpening dev) (init s))
  | step_open s dev :
      lib s = LOpening dev →
      step s (mk_sync 0 (cur_vid s) (graph s) (LConnected dev) (init s))
  (* destroy_vm *)
  | step_destroy_vm s dev :
      lib s = LConnected dev →
      step s (mk_sync (lock s) (cur_vid s) (graph s) (LClosing dev) (init s))
  | step_take_lock s dev :
      lib s = LClosing dev → lock s = 0 →
      step s (mk_sync 1 (cur_vid s) (graph s) LClosed (init s))
  | step_closed s :
      lib s = LClosed →
      step s (mk_sync (lock s) (-1) (graph s) LNone (init s))
  (* vhost_init *)
  | step_atomic_init s :
      init s = IBefore → step s (mk_sync 0 (cur_vid s) (graph s) (lib s) IZeroed)
  | step_atomic_set s :
      init s = IZeroed → step s (mk_sync 1 (cur_vid s) (graph s) (lib s) IDone).

(** A brick whose socket was just put in the list. *)
Definition created : sync := mk_sync 0 (-1) (λ _, GIdle) LNone IBefore.

(** A brick that was initialised before any machine connected. *)
Definition initialised : sync := mk_sync 1 (-1) (λ _, GIdle) LNone IDone.

(** ** Safety *)

(** Who has the lock. *)
Definition all_idle s : Prop := ∀ t, graph s t = GIdle.

Definition one_busy s t : Prop :=
  graph s t ≠ GIdle ∧ ∀ t', t' ≠ t → graph s t' = GIdle.

(** The device the library considers alive: from [new_vm] to the return of [destroy_vm]. *)
Definition alive s (dev : Z) : Prop := lib s = LConnected dev ∨ lib s = LClosing dev.

Definition sync_inv s : Prop :=
  init s = IDone ∧
  match lib s with
  | LNone => lock s = 1 ∧ cur_vid s = -1 ∧ all_idle s
  | LOpening dev => lock s = 1 ∧ cur_vid s = dev ∧ 0 ≤ dev ∧ all_idle s
  | LConnected dev | LClosing dev =>
      cur_vid s = dev ∧ 0 ≤ dev ∧
      (lock s = 0 ∧ all_idle s ∨
       lock s = 1 ∧ ∃ t, one_busy s t ∧ (graph s t = GLocked ∨ graph s t = GUsing dev))
  | LClosed => lock s = 1 ∧ all_idle s
  end.

Lemma set_graph_eq g t c : set_graph g t c t = c.
Proof. unfold set_graph. by rewrite decide_True. Qed.

Lemma set_graph_ne g t c t' : t' ≠ t → set_graph g t c t' = g t'.
Proof. intros. unfold set_graph. by rewrite decide_False. Qed.

Lemma one_busy_eq s t t' : one_busy s t → graph s t' ≠ GIdle → t' = t.
Proof. intros [_ Ho] Hb. destruct (decide (t' = t)); [done|]. by rewrite Ho in Hb. Qed.

(** Only the states with a device have a graph thread inside. *)
Lemma busy_alive s t :
  sync_inv s → graph s t ≠ GIdle →
  ∃ dev, alive s dev ∧ cur_vid s = dev ∧ 0 ≤ dev ∧ lock s = 1 ∧ one_busy s t ∧
    (graph s t = GLocked ∨ graph s t = GUsing dev).
Proof.
  intros [_ Hinv] Hb. unfold alive. destruct (lib s) as [|d|d|d|].
  - by destruct Hinv as (_&_&Hi); rewrite Hi in Hb.
  - by destruct Hinv as (_&_&_&Hi); rewrite Hi in Hb.
  - destruct Hinv as (Hv&Hd&[[_ Hi]|(Hl&t'&Ho&Hg)]); [by rewrite Hi in Hb|].
    rewrite (one_busy_eq _ _ _ Ho Hb). exists d. auto 10.
  - destruct Hinv as (Hv&Hd&[[_ Hi]|(Hl&t'&Ho&Hg)]); [by rewrite Hi in Hb|].
    rewrite (one_busy_eq _ _ _ Ho Hb). exists d. auto 10.
  - by destruct Hinv as (_&Hi); rewrite Hi in Hb.
Qed.

(** The lock is free only while a device is connected. *)
Lemma free_alive s :
  sync_inv s → lock s = 0 → ∃ dev, alive s dev ∧ cur_vid s = dev ∧ 0 ≤ dev ∧ all_idle s.
Proof.
  intros [_ Hinv] Hl. unfold alive. destruct (lib s) as [|d|d|d|];
    destruct_and?; try lia; exists d; destruct_or?; naive_solver lia.
Qed.

Lemma alive_inv s dev :
  init s = IDone → alive s dev → cur_vid s = dev → 0 ≤ dev →
  (lock s = 0 ∧ all_idle s ∨
   lock s = 1 ∧ ∃ t, one_busy s t ∧ (graph s t = GLocked ∨ graph s t = GUsing dev)) → sync_inv s.
Proof. intros Hi [Hl|Hl] Hv Hd Hc; split; [done| |done|]; rewrite Hl; done. Qed.

Lemma sync_inv_step s s' : sync_inv s → step s s' → sync_inv s'.
Proof.
  intros Hinv Hstep. pose proof Hinv as [Hinit Hlib].
  inversion Hstep as [s0 t Hg Hi Hl|s0 t Hg|s0 t dev Hg|s0 dev Hl Hd|s0 dev Hl|s0 dev Hl
    |s0 dev Hl Hlock|s0 Hl|s0 Hi|s0 Hi]; subst s0; subst s'.
  - destruct (free_alive s Hinv Hl) as (d&Ha&Hv&Hd&Hidle).
    apply (alive_inv _ d); [done|exact Ha|done|done|]. right. split; [done|]. exists t.
    cbn [graph]. rewrite set_graph_eq. split; [|by left]. split; cbn [graph].
    + by rewrite set_graph_eq.
    + intros t' Ht. by rewrite set_graph_ne.
  - destruct (busy_alive s t Hinv) as (d&Ha&Hv&Hd&Hl&[_ Ho]&_); [by rewrite Hg|].
    apply (alive_inv _ d); [done|exact Ha|done|done|]. right. split; [done|]. exists t.
    cbn [graph]. rewrite set_graph_eq. split; [|right; by rewrite Hv]. split; cbn [graph].
    + by rewrite set_graph_eq.
    + intros t' Ht. rewrite set_graph_ne by done. by apply Ho.
  - destruct (busy_alive s t Hinv) as (d&Ha&Hv&Hd&Hl&[_ Ho]&_); [by rewrite Hg|].
    apply (alive_inv _ d); [done|exact Ha|done|done|]. left. split; [done|]. intros t'.
    cbn [graph]. destruct (decide (t' = t)) as [->|]; [by rewrite set_graph_eq|].
    rewrite set_graph_ne by done. by apply Ho.
  - rewrite Hl in Hlib. destruct Hlib as (?&?&?). split; [done|]. split_and!; done.
  - rewrite Hl in Hlib. destruct Hlib as (?&?&?&?). split; [done|]. cbn. split_and!; try done. by left.
  - rewrite Hl in Hlib. split; [done|]. exact Hlib.
  - rewrite Hl in Hlib. destruct Hlib as (?&?&[[_ Hidle]|[H1 _]]); [|congruence].
    split; [done|]. split; [done|]. exact Hidle.
  - rewrite Hl in Hlib. destruct Hlib as (?&Hidle). split; [done|]. split_and!; [done|done|]. exact Hidle.
  - congruence.
  - congruence.
Qed.

Lemma initialised_inv : sync_inv initialised.
Proof. split; [done|]. split; [done|]. split; [done|]. by intros t. Qed.

Lemma reach_inv s : rtc step initialised s → sync_inv s.
Proof.
  intros Hr. assert (∀ a b, rtc step a b → sync_inv a → sync_inv b) as H.
  { induction 1; [done|]. intros. by eauto using sync_inv_step. }
  eapply H; [exact Hr|apply initialised_inv].
Qed.



(** ** Witnesses *)

(** A machine connects and a burst is inside when it starts to leave. *)
Definition closing : sync :=
  mk_sync 1 7 (set_graph (set_graph (λ _, GIdle) 2 GLocked) 2 (GUsing 7)) (LClosing 7) IDone.

Lemma closing_reachable : rtc step initialised closing.
Proof.
  eapply rtc_l; [by apply (step_new_vm initialised 7)|].
  eapply rtc_l; [by eapply step_open|].
  eapply rtc_l; [by apply (step_try_lock _ 2)|].
  eapply rtc_l; [by apply (step_read_vid _ 2)|].
  eapply rtc_l; [by eapply step_destroy_vm|]. apply rtc_refl.
Qed.



(** ** A race

    The socket is in the list, and its driver started, before [vhost_init] sets the lock. *)

(** Nothing can take the lock any more. *)
Definition locked_out s : Prop :=
  lock s = 1 ∧ init s = IDone ∧ all_idle s ∧ ∃ dev, alive s dev.

Lemma locked_out_step s s' : locked_out s → step s s' → locked_out s'.
Proof.
  intros (Hlock&Hinit&Hidle&d&Ha) Hstep. unfold locked_out, alive in *.
  inversion Hstep as [s0 t Hg Hi Hl|s0 t Hg|s0 t dev Hg|s0 dev Hl Hd|s0 dev Hl|s0 dev Hl
    |s0 dev Hl Hlk|s0 Hl|s0 Hi|s0 Hi]; subst s0; subst s'; cbn;
    try (rewrite Hidle in Hg; discriminate Hg); try congruence;
    try (destruct Ha; congruence).
  split_and!; [done|done|exact Hidle|]. exists dev. by right.
Qed.

(** When a machine connects between the creation of the socket and the end of
    [vhost_init], the brick is closed for good although a machine is connected: no burst
    and no poll ever gets in, and [destroy_vm], which holds the mutex of the file, never
    returns. *)
Theorem vhost_init_race :
  ∃ s, rtc step created s ∧ lib s = LConnected 7 ∧
    ∀ s', rtc step s s' → lock s' = 1 ∧ all_idle s' ∧ lib s' ≠ LNone.
Proof.
  exists (mk_sync 1 7 (λ _, GIdle) (LConnected 7) IDone). split; [|split; [done|]].
  - eapply rtc_l; [by apply (step_new_vm created 7)|].
    eapply rtc_l; [by apply step_atomic_init|].
    eapply rtc_l; [by eapply step_open|].
    eapply rtc_l; [by apply step_atomic_set|]. apply rtc_refl.
  - intros s' Hr. assert (locked_out s') as (Hl&_&Hi&d&Ha).
    { assert (∀ a b, rtc step a b → locked_out a → locked_out b) as H.
      { induction 1; [done|]. intros. by eauto using locked_out_step. }
      eapply H; [exact Hr|]. split_and!; [done|done|by intros t|]. exists 7. by left. }
    split_and!; [done|done|]. intros Hn. destruct Ha; congruence.
Qed.
