(* ===== verification/Packetsgen.v ===== *)
(** * The packet generator ([src/packetsgen.c])

    A brick that forwards like a hub and, when it is polled, sends clones of the packets it
    was configured with over all the links of one of its sides. *)

From S2P Require Import Prelude Bitmask Common Brick BrickInv Burst Packets Accumulator Network.
From S2P Require Import Endpoints Devices.

(** [struct pg_packetsgen_config] and [struct pg_packetsgen_state]; [packets] is [None] for
    NULL. *)
Record pg_packetsgen_config := mk_pgen_config {
  cfg_output : pg_side;
  cfg_packets : option pkts_t;
  cfg_packets_nb : Z;
}.

Record pg_packetsgen_state := mk_pgen {
  output : pg_side;
  packets : pkts_t;
  packets_nb : Z;
}.

Definition set_udata64 (v : mbuf) (u : Z) : mbuf :=
  mk_mbuf (data v) (pkt_len v) (l2_len v) (l3_len v) (l4_len v) u (refcnt v).

Section Packetsgen.

Context {W : Type} `{D : !Dispatch W, !PktLib W, CloneLib0 : !Collect.CloneLib W}.
Context (sides : pg_side → pg_brick_side).
Implicit Types st : pg_packetsgen_state.

Definition packetsgen_burst (side : pg_side) (pkts : pkts_t) (pkts_mask : Z) : M (flow W) Z :=
  pg_brick_side_forward (sides (pg_flip_side side)) side pkts pkts_mask.

(** The clones, numbered from [i]; a failed clone is a failed assertion. *)
Fixpoint clone_loop (l : pkts_t) (i : Z) : M (flow W) pkts_t :=
  match l with
  | [] => mret []
  | p :: l =>
      o ← Collect.pktmbuf_clone p;
      q ← unwrap o;
      w ← load_pkt q;
      store_pkt q (set_udata64 w i);;
      r ← clone_loop l (i + 1);
      mret (q :: r)
  end.

(** [packetsgen_poll]: the result and the packet count. *)
Definition packetsgen_poll st : M (flow W) (Z * Z) :=
  let s := sides (output st) in
  massert (packets_nb st <=? Z.of_nat (length (packets st)));;
  pkts ← clone_loop (take (Z.to_nat (packets_nb st)) (packets st)) 0;
  let pkts_mask := pg_mask_firsts (u8 (packets_nb st)) in
  ret ← pg_brick_side_forward s (pg_flip_side (output st)) pkts pkts_mask;
  pg_packets_free pkts pkts_mask;;
  mret (ret, packets_nb st).

(** [packetsgen_init]: the state, or [None] for the result -1. *)
Definition packetsgen_init (config : pg_brick_config (option pg_packetsgen_config))
    : M (flow W) (option pg_packetsgen_state) :=
  match brick_config config with
  | None => flow_error (pg_error_new "config->brick_config is NULL");; mret None
  | Some c =>
      match cfg_packets c with
      | None => flow_error (pg_error_new "packets argument is NULL");; mret None
      | Some l =>
          if cfg_packets_nb c =? 0 then
            flow_error (pg_error_new "packet number must be positive");; mret None
          else
            failed ← gets (λ fl, pg_error_is_set (fl_errp fl));
            if (failed : bool) then mret None
            else mret (Some (mk_pgen (cfg_output c) l (cfg_packets_nb c)))
      end
  end.

Definition packetsgen_config_new (nm : string) (west_max east_max : Z) (packets : option pkts_t)
    (packets_nb : Z) (out : pg_side) : pg_brick_config (option pg_packetsgen_config) :=
  pg_brick_config_init (Some (mk_pgen_config out packets (u16 packets_nb))) nm west_max east_max
    PG_MULTIPOLE.

End Packetsgen.

Section Laws.

Context {W : Type} `{!Dispatch W, !PktLib W, !PktLaws W}.
Context `{CloneLib0 : !Collect.CloneLib W, CloneLaws0 : !Collect.CloneLaws W}.
(** The pool has packets left. *)
Context (clone_succeeds : ∀ (fl fl' : flow W) p, Collect.pktmbuf_clone p fl ≠ Some (None, fl')).
Context (sides : pg_side → pg_brick_side).
Implicit Types (fl : flow W) (st : pg_packetsgen_state).

(** A clone of a packet with its number. *)
Definition numbered_clone (v : mbuf) (i : Z) : mbuf := set_udata64 (set_refcnt v 1) i.

Lemma gen_clone_loop_spec (l : pkts_t) i fl :
  (∀ p, p ∈ l → is_Some (fl_mem fl !! p)) →
  ∃ qs h, clone_loop l i fl = Some (qs, set_mem fl h) ∧ length qs = length l ∧
    fl_mem fl ⊆ h ∧ NoDup qs ∧ (∀ q, q ∈ qs → fl_mem fl !! q = None) ∧
    ∀ j p v, l !! j = Some p → fl_mem fl !! p = Some v →
      ∃ q, qs !! j = Some q ∧ h !! q = Some (numbered_clone v (i + Z.of_nat j)).
Proof.
  revert i fl. induction l as [|p l IH]; intros i fl Hl; cbn [clone_loop].
  { exists [], (fl_mem fl). split; [by destruct fl|]. split_and!; [done..|constructor| |].
    - by intros q ?%not_elem_of_nil.
    - by intros j p v. }
  destruct (Hl p) as [v Hv]; [left|].
  destruct (Collect.law_clone fl p v Hv) as [Hn|(q&u&Hq&Hc)]; [by apply clone_succeeds in Hn|].
  unfold mbind at 1, M_bind at 1. rewrite Hc. cbn [unwrap]. rewrite M_bind_ret.
  unfold load_pkt, gets. rewrite M_bind_assoc. unfold mbind at 1, M_bind at 1.
  rewrite set_mem_mem, lookup_insert_eq. cbn [unwrap]. rewrite M_bind_ret.
  unfold store_pkt, modify. unfold mbind at 1, M_bind at 1. rewrite set_mem_mem, insert_insert_eq.
  set (c := set_udata64 _ i). assert (c = numbered_clone v i) as Hclone by done.
  change (mk_flow (<[q := c]> (fl_mem fl)) _ _ _) with (set_mem fl (<[q := c]> (fl_mem fl))).
  set (fl1 := set_mem fl _).
  destruct (IH (i + 1) fl1) as (qs&h&Hr&Hlen&Hsub&Hnd&Hfresh&Hcopy).
  { intros x Hx. unfold fl1. rewrite set_mem_mem. destruct (decide (x = q)) as [->|].
    - rewrite lookup_insert_eq. eauto.
    - rewrite lookup_insert_ne by done. apply Hl. by right. }
  unfold fl1 in Hsub, Hfresh, Hcopy. rewrite set_mem_mem in Hsub, Hfresh, Hcopy.
  assert (q ∉ qs) as Hnq.
  { intros Hin. pose proof (Hfresh q Hin) as Hx0. by rewrite lookup_insert_eq in Hx0. }
  exists (q :: qs), h. unfold mbind, M_bind. rewrite Hr. split; [done|]. split_and!.
  - cbn. by rewrite Hlen.
  - etrans; [|exact Hsub]. by apply insert_subseteq.
  - by constructor.
  - intros x [->|Hx]%elem_of_cons; [done|]. pose proof (Hfresh x Hx) as Hx0.
    rewrite lookup_insert_ne in Hx0; [done|]. by intros ->.
  - intros [|j] p' v' Hp' Hv'; cbn [lookup list_lookup] in Hp'.
    + injection Hp' as <-. simplify_eq. exists q. split; [done|]. rewrite Z.add_0_r, <- Hclone.
      eapply lookup_weaken; [|exact Hsub]. apply lookup_insert_eq.
    + destruct (Hcopy j p' v' Hp') as (x&Hx&Hxv).
      { rewrite lookup_insert_ne; [done|]. intros ->. congruence. }
      exists x. split; [done|]. rewrite Hxv. f_equal. f_equal. lia.
Qed.

(** A poll of the generator clones each of its packets (up to 64), numbers the clones,
    sends all of them in one burst over the links of its output side, and gives the clones
    back; the packets of the user are not touched. *)
Theorem packetsgen_poll_sends st fl :
  0 < packets_nb st ≤ 64 → packets_nb st = Z.of_nat (length (packets st)) →
  (∀ p, p ∈ packets st → is_Some (fl_mem fl !! p)) →
  ∃ clones h, length clones = length (packets st) ∧ fl_mem fl ⊆ h ∧ NoDup clones ∧
    (∀ q, q ∈ clones → fl_mem fl !! q = None) ∧
    (∀ j p v, packets st !! j = Some p → fl_mem fl !! p = Some v →
      ∃ q, clones !! j = Some q ∧ h !! q = Some (numbered_clone v (Z.of_nat j))) ∧
    packetsgen_poll sides st fl =
    (ret ← pg_brick_side_forward (sides (output st)) (pg_flip_side (output st)) clones
             (pg_mask_firsts (packets_nb st));
     free_list clones (seq 0 (length clones));;
     mret (ret, packets_nb st)) (set_mem fl h).
Proof.
  intros Hnb Hlen Hl. destruct (gen_clone_loop_spec (packets st) 0 fl Hl)
    as (qs&h&Hr&Hlq&Hsub&Hnd&Hfresh&Hcopy).
  exists qs, h. split_and!; try done. unfold packetsgen_poll.
  rewrite (proj2 (Z.leb_le (packets_nb st) _)) by lia. cbn [massert]. rewrite M_bind_ret.
  rewrite take_ge by lia. unfold mbind at 1, M_bind at 1. rewrite Hr.
  assert (u8 (packets_nb st) = packets_nb st) as -> by (apply Z.mod_small; lia).
  apply M_bind_ext. intros ret fl'. unfold pg_packets_free. rewrite Hlen, <- Hlq.
  rewrite foreach_firsts by lia. done.
Qed.

End Laws.

(** ** Witness and limits *)

Definition demo_pgen (nb : Z) : pg_packetsgen_state :=
  mk_pgen PG_EAST_SIDE (replicate (Z.to_nat nb) 5%positive) nb.

Definition demo_sides (s : pg_side) : pg_brick_side := demo_side.

Lemma packetsgen_poll_sends_witness :
  ∃ clones h, length clones = 3%nat ∧
    packetsgen_poll (D := recorder) (PktLib0 := mem_pktlib) (CloneLib0 := Collect.demo_clone)
      demo_sides (demo_pgen 3) demo_flow =
    (ret ← pg_brick_side_forward (D := recorder) demo_side PG_WEST_SIDE clones (pg_mask_firsts 3);
     free_list (PktLib0 := mem_pktlib) clones (seq 0 (length clones));;
     mret (ret, 3)) (set_mem demo_flow h).
Proof.
  destruct (packetsgen_poll_sends (Dispatch0 := recorder) (PktLib0 := mem_pktlib)
    (CloneLib0 := Collect.demo_clone) (CloneLaws0 := Collect.demo_clone_laws)
    Collect.demo_clone_succeeds demo_sides (demo_pgen 3) demo_flow)
    as (clones&h&Hl&_&_&_&_&Hr).
  - cbn. lia.
  - done.
  - intros p Hp. cbn in Hp. exists (mk_mbuf [1; 2] 2 0 0 0 0 1).
    repeat (apply elem_of_cons in Hp as [->|Hp]; [done|]). by apply not_elem_of_nil in Hp.
  - exists clones, h. split; [exact Hl|exact Hr].
Defined.

(** A generator configured with more than 64 packets clones them all but can only send and
    free what its 8-bit count and 64-bit mask select: with 256 packets none is sent, the
    256 clones are reported as sent and stay allocated. *)
Theorem packetsgen_drops_over_64 :
  ∃ fl', packetsgen_poll (D := recorder) (PktLib0 := mem_pktlib) (CloneLib0 := Collect.demo_clone)
      demo_sides (demo_pgen 256) demo_flow = Some ((0, 256), fl') ∧
    (bc_mask <$> fl_world fl') = [0; 0] ∧ size (fl_mem fl') = 257%nat.
Proof. eexists. split; [vm_compute; reflexivity|]. by vm_compute. Qed.
