(* ===== verification/MacText.v ===== *)
(** * Text of MAC addresses ([src/utils/mac.c])

    Reading and printing ethernet addresses. [sscanf] is modelled as the C standard has it,
    for the one format the code uses. [ether_format_addr] of DPDK is a parameter, known to
    print six numbers of two hexadecimal digits, in either case, between colons. *)

From S2P Require Import Prelude Bitmask Common Brick Burst Packets Network.

(** ** Characters *)

Definition char_of (n : nat) : Ascii.ascii := Ascii.ascii_of_nat n.
Definition code (c : Ascii.ascii) : Z := Z.of_nat (Ascii.nat_of_ascii c).

Definition colon : Ascii.ascii := char_of 58.

(** [isspace]. *)
Definition is_space (c : Ascii.ascii) : bool :=
  (code c =? 32) || ((9 <=? code c) && (code c <=? 13)).

(** The value of a hexadecimal digit. *)
Definition hex_value (c : Ascii.ascii) : option Z :=
  let n := code c in
  if (48 <=? n) && (n <=? 57) then Some (n - 48)
  else if (65 <=? n) && (n <=? 70) then Some (n - 55)
  else if (97 <=? n) && (n <=? 102) then Some (n - 87)
  else None.

Fixpoint skip_spaces (s : string) : string :=
  match s with
  | String c s' => if is_space c then skip_spaces s' else s
  | EmptyString => EmptyString
  end.

(** ** [sscanf] *)

(** [%02hhx]: white space, then at most two characters of a hexadecimal number as [strtoul]
    reads it, with a sign or a base prefix; ["0x"] alone is the start of a number and not
    one. The value is stored in an [unsigned char]. *)
Definition scan_hh (s : string) : option (Z * string) :=
  match skip_spaces s with
  | EmptyString => None
  | String c s =>
      if (code c =? 43) || (code c =? 45) then
        match s with
        | String d s => v ← hex_value d; Some (u8 (if code c =? 45 then - v else v), s)
        | EmptyString => None
        end
      else
        v ← hex_value c;
        match s with
        | EmptyString => Some (v, EmptyString)
        | String d s' =>
            if (v =? 0) && ((code d =? 120) || (code d =? 88)) then None
            else match hex_value d with
                 | Some w => Some (u8 (16 * v + w), s')
                 | None => Some (v, s)
                 end
        end
  end.

(** The conversions of ["%02hhx:...:%02hhx"] from the [i]th on: how many succeeded, and the
    address with the bytes that were stored. *)
Fixpoint scan_bytes (n : nat) (i : nat) (s : string) (addr : list Z) : nat * list Z :=
  match n with
  | O => (i, addr)
  | S n =>
      match scan_hh s with
      | None => (i, addr)
      | Some (v, s) =>
          let addr := <[i := v]> addr in
          match n, s with
          | O, _ => (S i, addr)
          | _, String c s => if Ascii.eqb c colon then scan_bytes n (S i) s addr else (S i, addr)
          | _, EmptyString => (S i, addr)
          end
      end
  end.

Definition ETHER_ADDR_FMT_SIZE : nat := 18.

(** [pg_scan_ether_addr]: the result and the address. *)
Definition pg_scan_ether_addr (eth_addr : list Z) (buf : string) : bool * list Z :=
  if (String.length buf <? ETHER_ADDR_FMT_SIZE - 1)%nat then (false, eth_addr)
  else
    let '(ret, addr) := scan_bytes 6 0 buf eth_addr in
    ((ret =? 6)%nat, addr).

(** ** Headers *)

(** Six bytes of a packet replaced. *)
Definition put_addr (d : list Z) (off : nat) (a : list Z) : list Z :=
  take off d ++ a ++ drop (off + 6) d.

(** [pg_set_mac_addrs]; [None] when the packet has no ethernet header in memory. *)
Definition pg_set_mac_addrs (mb : mbuf) (src dst : string) : option mbuf :=
  s ← bytes_at (data mb) 6 6;
  let d := put_addr (data mb) 6 (snd (pg_scan_ether_addr s src)) in
  a ← bytes_at d 0 6;
  Some (set_data mb (put_addr d 0 (snd (pg_scan_ether_addr a dst)))).

Definition pg_set_ether_type (mb : mbuf) (ether_type : Z) : option mbuf :=
  _ ← bytes_at (data mb) 12 2;
  Some (set_data mb (take 12 (data mb) ++ le16 (PG_CPU_TO_BE_16 (u16 ether_type))
                       ++ drop 14 (data mb))).

Definition pg_get_ether_addrs (mb : mbuf) : list Z := data mb.

Section Print.

(** [ether_format_addr] of DPDK. *)
Context (ether_format_addr : list Z → string).

Definition pg_printable_mac (eth_addr : list Z) : string := ether_format_addr eth_addr.
Definition pg_print_mac (eth_addr : list Z) (stdout : string) : string :=
  stdout +:+ ether_format_addr eth_addr.

(** The static buffers of [pg_s_printable_mac]; a pointer into them is an index. *)
Record mac_bufs := mk_bufs { bufs : list string; buf_idx : nat }.

Definition pg_s_printable_mac (st : mac_bufs) (eth_addr : list Z) : nat * mac_bufs :=
  let b := buf_idx st in
  (b, mk_bufs (<[b := ether_format_addr eth_addr]> (bufs st)) ((b + 1) mod 8)).

(** Several calls in a row. *)
Definition print_macs (st : mac_bufs) (l : list (list Z)) : mac_bufs :=
  foldl (λ st a, snd (pg_s_printable_mac st a)) st l.

End Print.

(** ** Printing and reading *)

Definition hex_digit (upper : bool) (v : Z) : Ascii.ascii :=
  char_of (Z.to_nat (if v <? 10 then 48 + v else (if upper then 55 else 87) + v)).

Definition hex_byte (upper : bool) (v : Z) (rest : string) : string :=
  String (hex_digit upper (v / 16)) (String (hex_digit upper (v mod 16)) rest).

(** The bytes of an address between colons. *)
Fixpoint format_bytes (upper : bool) (a : list Z) : string :=
  match a with
  | [] => EmptyString
  | [v] => hex_byte upper v EmptyString
  | v :: a => hex_byte upper v (String colon (format_bytes upper a))
  end.

Definition is_addr (a : list Z) : Prop := length a = 6%nat ∧ Forall (λ b, 0 ≤ b < 256) a.

(** Every hexadecimal digit is read back, and is neither space, sign nor [x]. *)
Definition digit_ok (upper : bool) (v : Z) : bool :=
  let c := hex_digit upper v in
  bool_decide (hex_value c = Some v) && negb (is_space c) && negb (code c =? 43) &&
  negb (code c =? 45) && negb (code c =? 120) && negb (code c =? 88).

Lemma hex_digit_ok upper v : 0 ≤ v < 16 → digit_ok upper v = true.
Proof.
  intros Hv. assert (∀ n, (n < 16)%nat → digit_ok upper (Z.of_nat n) = true) as H.
  { intros n Hn. do 16 (destruct n as [|n]; [by destruct upper|]). lia. }
  rewrite <- (Z2Nat.id v) by lia. apply H. lia.
Qed.

Lemma scan_hh_byte upper v rest :
  0 ≤ v < 256 → scan_hh (hex_byte upper v rest) = Some (v, rest).
Proof.
  intros Hv. pose proof (Z.mod_pos_bound v 16 ltac:(lia)) as Hm.
  assert (0 ≤ v / 16 < 16) as Hd by (split; [apply Z.div_pos|apply Z.div_lt_upper_bound]; lia).
  pose proof (hex_digit_ok upper (v / 16) Hd) as H1.
  pose proof (hex_digit_ok upper (v mod 16) Hm) as H2. unfold digit_ok in H1, H2.
  repeat match goal with H : _ && _ = true |- _ => apply andb_true_iff in H as [H ?] end.
  repeat match goal with H : negb _ = true |- _ => apply negb_true_iff in H end.
  repeat match goal with H : bool_decide _ = true |- _ => apply bool_decide_eq_true in H end.
  unfold scan_hh, hex_byte. cbn [skip_spaces].
  repeat match goal with H : _ = false |- _ => rewrite H; clear H end. cbn [orb].
  rewrite H1. cbn [mbind option_bind]. rewrite andb_false_r, H2. f_equal. f_equal.
  unfold u8. rewrite Z.mod_small; [|nia]. symmetry. apply Z.div_mod. lia.
Qed.

Lemma scan_bytes_format upper a i addr :
  Forall (λ b, 0 ≤ b < 256) a → (i + length a ≤ length addr)%nat →
  scan_bytes (length a) i (format_bytes upper a) addr
  = ((i + length a)%nat, take i addr ++ a ++ drop (i + length a) addr).
Proof.
  revert i addr. induction a as [|v a IH]; intros i addr Hb Hl.
  { cbn. rewrite Nat.add_0_r, take_drop. done. }
  apply Forall_cons in Hb as [Hv Hb]. cbn [length] in Hl.
  assert (∀ l, take (S i) (<[i := v]> addr) ++ l = take i addr ++ v :: l) as Htake.
  { intros l. rewrite (take_S_r _ _ v) by (apply list_lookup_insert_eq; lia).
    rewrite take_insert_ge by lia. by rewrite <- app_assoc. }
  destruct a as [|w a].
  - cbn [length format_bytes scan_bytes]. rewrite scan_hh_byte by done. f_equal; [lia|].
    rewrite <- (take_drop (S i) (<[i := v]> addr)), Htake, drop_insert_lt by lia.
    by replace (i + 1)%nat with (S i) by lia.
  - change (scan_bytes (length (v :: w :: a)) i (format_bytes upper (v :: w :: a)) addr)
      with (match scan_hh (hex_byte upper v (String colon (format_bytes upper (w :: a)))) with
            | None => (i, addr)
            | Some (v, s) =>
                match s with
                | String c s => if Ascii.eqb c colon then scan_bytes (length (w :: a)) (S i) s (<[i := v]> addr)
                                else (S i, <[i := v]> addr)
                | EmptyString => (S i, <[i := v]> addr)
                end
            end).
    rewrite scan_hh_byte by done. rewrite Ascii.eqb_refl.
    rewrite IH; [|done|rewrite length_insert; cbn [length] in *; lia].
    rewrite Htake, drop_insert_lt by lia. cbn [length].
    replace (S i + S (length a))%nat with (i + S (S (length a)))%nat by lia. done.
Qed.

Lemma format_length upper a v : String.length (format_bytes upper (v :: a)) = (3 * length a + 2)%nat.
Proof.
  revert v. induction a as [|w a IH]; intros v; [done|].
  change (String.length (format_bytes upper (v :: w :: a)))
    with (3 + String.length (format_bytes upper (w :: a)))%nat. rewrite IH. cbn [length]. lia.
Qed.

Lemma scan_format upper a addr :
  is_addr a → length addr = 6%nat → pg_scan_ether_addr addr (format_bytes upper a) = (true, a).
Proof.
  intros [Hlen Hb] Haddr. unfold pg_scan_ether_addr.
  destruct a as [|v a]; [done|]. rewrite format_length. cbn [length] in Hlen.
  replace (length a) with 5%nat by lia. change (3 * 5 + 2 <? ETHER_ADDR_FMT_SIZE - 1)%nat with false.
  change 6%nat with (S 5). rewrite <- Hlen. change (S (length a)) with (length (v :: a)).
  rewrite scan_bytes_format by (done || (cbn [length]; lia)). rewrite Nat.add_0_l. cbn [take app].
  rewrite drop_ge by (cbn [length]; lia). rewrite app_nil_r, Nat.eqb_refl. done.
Qed.

Section Properties.

Context (ether_format_addr : list Z → string).
(** What DPDK documents of its printer. *)
Context (format_law : ∃ upper, ∀ a, is_addr a → ether_format_addr a = format_bytes upper a).

(** What the program prints as a MAC address it reads back as the same address, in
    whatever state the destination was, and writing two printed addresses into a packet
    puts exactly them in its ethernet header and changes no other byte. *)
Theorem mac_text_roundtrip a addr mb s d :
  is_addr a → is_addr s → is_addr d → length addr = 6%nat → (12 ≤ length (data mb))%nat →
  pg_scan_ether_addr addr (pg_printable_mac ether_format_addr a) = (true, a) ∧
  ∃ mb', pg_set_mac_addrs mb (pg_printable_mac ether_format_addr s)
      (pg_printable_mac ether_format_addr d) = Some mb' ∧
    pg_util_get_ether_src_addr mb' = Some s ∧ pg_util_get_ether_dst_addr mb' = Some d ∧
    drop 12 (data mb') = drop 12 (data mb) ∧ length (data mb') = length (data mb).
Proof.
  destruct format_law as [upper Hf]. intros Ha Hs Hd Haddr Hlen. unfold pg_printable_mac.
  rewrite !Hf by done. split; [by apply scan_format|].
  unfold pg_set_mac_addrs, bytes_at. rewrite decide_True by lia. cbn [mbind option_bind].
  rewrite scan_format by (done || (rewrite length_take, length_drop; lia)). cbn [snd].
  destruct Hs as [Hs _]. pose proof Hd as [Hd' _].
  set (d1 := put_addr (data mb) 6 s). assert (length d1 = length (data mb)) as Hd1.
  { unfold d1, put_addr. rewrite !length_app, length_take, length_drop, Hs. lia. }
  rewrite decide_True by lia. cbn [mbind option_bind].
  rewrite scan_format by (done || (rewrite length_take, length_drop; lia)). cbn [snd].
  eexists. split; [done|]. unfold pg_util_get_ether_src_addr, pg_util_get_ether_dst_addr, bytes_at.
  cbn [data set_data]. assert (put_addr d1 0 d = d ++ s ++ drop 12 (data mb)) as ->.
  { unfold put_addr at 1. rewrite take_0. change (d ++ drop 6 d1 = d ++ s ++ drop 12 (data mb)).
    f_equal. unfold d1, put_addr. rewrite drop_app_length' by (rewrite length_take; lia). done. }
  rewrite !length_app, length_drop. rewrite !decide_True by lia. split_and!.
  - rewrite drop_app_length', take_app_length' by lia. done.
  - rewrite drop_0, take_app_length' by lia. done.
  - rewrite app_assoc, drop_app_length' by (rewrite length_app; lia). done.
  - lia.
Qed.

(** Where the [k]th call after a call writes. *)
Lemma print_macs_idx st l : (buf_idx st < 8)%nat →
  buf_idx (print_macs ether_format_addr st l) = ((buf_idx st + length l) mod 8)%nat.
Proof.
  unfold print_macs. revert st. induction l as [|a l IH]; intros st Hi; cbn [foldl length].
  { rewrite Nat.add_0_r, Nat.mod_small; done. }
  rewrite IH; cbn [snd pg_s_printable_mac buf_idx]; [|apply Nat.mod_upper_bound; lia].
  rewrite Nat.Div0.add_mod_idemp_l. f_equal. lia.
Qed.

Lemma print_macs_keep st l i :
  (buf_idx st < 8)%nat → (∀ k, (k < length l)%nat → ((buf_idx st + k) mod 8 ≠ i)%nat) →
  bufs (print_macs ether_format_addr st l) !! i = bufs st !! i.
Proof.
  unfold print_macs. revert st. induction l as [|a l IH]; intros st Hi Hk; [done|]. cbn [foldl].
  rewrite IH; cbn [snd pg_s_printable_mac buf_idx bufs].
  - apply list_lookup_insert_ne. specialize (Hk 0%nat ltac:(cbn; lia)).
    by rewrite Nat.add_0_r, Nat.mod_small in Hk.
  - apply Nat.mod_upper_bound. lia.
  - intros k Hlt. rewrite Nat.Div0.add_mod_idemp_l. specialize (Hk (S k) ltac:(cbn; lia)).
    by replace (buf_idx st + 1 + k)%nat with (buf_idx st + S k)%nat by lia.
Qed.

(** The text [pg_s_printable_mac] returns stays as it is for the seven following calls,
    so eight addresses can be printed in one statement; the eighth call after it replaces
    it. *)
Theorem printable_mac_lifetime st a l b :
  length (bufs st) = 8%nat → (buf_idx st < 8)%nat →
  let (i, st1) := pg_s_printable_mac ether_format_addr st a in
  ((length l ≤ 7)%nat →
   bufs (print_macs ether_format_addr st1 l) !! i = Some (ether_format_addr a)) ∧
  (length l = 7%nat →
   let (j, st2) := pg_s_printable_mac ether_format_addr (print_macs ether_format_addr st1 l) b in
   j = i ∧ bufs st2 !! i = Some (ether_format_addr b)).
Proof.
  intros Hlen Hi. cbn [pg_s_printable_mac]. set (st1 := mk_bufs _ _).
  assert (buf_idx st1 < 8)%nat as Hi1 by (apply Nat.mod_upper_bound; lia).
  assert (∀ l st, length (bufs (print_macs ether_format_addr st l)) = length (bufs st)) as Hbufs.
  { intros k. unfold print_macs. induction k as [|x k IH]; intros s; [done|]. cbn [foldl].
    rewrite IH. cbn. apply length_insert. }
  split.
  - intros Hl. rewrite print_macs_keep; [|done|].
    + cbn [bufs st1]. apply list_lookup_insert_eq. lia.
    + intros k Hk. cbn [buf_idx st1]. rewrite Nat.Div0.add_mod_idemp_l.
      intros Heq. apply (f_equal Z.of_nat) in Heq. rewrite Nat2Z.inj_mod in Heq.
      pose proof (Z.div_mod (Z.of_nat (buf_idx st + 1 + k)) (Z.of_nat 8) ltac:(lia)). nia.
  - intros Hl. cbn [pg_s_printable_mac bufs]. rewrite print_macs_idx, Hl by done.
    cbn [buf_idx st1]. assert (((buf_idx st + 1) mod 8 + 7) mod 8 = buf_idx st)%nat as ->.
    { rewrite Nat.Div0.add_mod_idemp_l. replace (buf_idx st + 1 + 7)%nat with (buf_idx st + 1 * 8)%nat by lia.
      rewrite Nat.Div0.mod_add. by apply Nat.mod_small. }
    split; [done|]. apply list_lookup_insert_eq. rewrite Hbufs. cbn [bufs st1].
    rewrite length_insert. lia.
Qed.

End Properties.

(** ** Witnesses *)

Definition demo_addr (x : Z) : list Z := [x; 0xab; 0; 1; 2; 0xff].

Lemma demo_addr_ok x : 0 ≤ x < 256 → is_addr (demo_addr x).
Proof. intros Hx. split; [done|]. repeat constructor; lia. Qed.

Lemma mac_text_roundtrip_witness :
  pg_scan_ether_addr (replicate 6 0) (pg_printable_mac (format_bytes true) (demo_addr 9))
    = (true, demo_addr 9) ∧
  ∃ mb', pg_set_mac_addrs (mk_mbuf (replicate 14 7) 14 0 0 0 0 1)
      (format_bytes true (demo_addr 1)) (format_bytes true (demo_addr 2)) = Some mb' ∧
    pg_util_get_ether_src_addr mb' = Some (demo_addr 1).
Proof.
  destruct (mac_text_roundtrip (format_bytes true) (ex_intro _ true (λ a _, eq_refl)) (demo_addr 9)
    (replicate 6 0) (mk_mbuf (replicate 14 7) 14 0 0 0 0 1) (demo_addr 1) (demo_addr 2))
    as (H1&mb'&H2&H3&_).
  - by apply demo_addr_ok.
  - by apply demo_addr_ok.
  - by apply demo_addr_ok.
  - done.
  - cbn. lia.
  - split; [exact H1|]. exists mb'. split; [exact H2|exact H3].
Defined.

Definition empty_bufs : mac_bufs := mk_bufs (replicate 8 EmptyString) 6.

Lemma printable_mac_lifetime_witness :
  bufs (print_macs (format_bytes true)
    (snd (pg_s_printable_mac (format_bytes true) empty_bufs (demo_addr 3)))
    (demo_addr <$> [1; 2; 4; 5; 6; 7; 8])) !! 6%nat = Some (format_bytes true (demo_addr 3)).
Proof.
  apply (printable_mac_lifetime (format_bytes true) empty_bufs (demo_addr 3)
    (demo_addr <$> [1; 2; 4; 5; 6; 7; 8]) []).
  - done.
  - cbn. lia.
  - cbn. lia.
Defined.

(** The scanner takes what the manual of [sscanf] says and not only addresses: signs, white
    space and one-digit numbers are read, and text after the address is ignored. *)
Theorem mac_scan_is_lenient :
  pg_scan_ether_addr (replicate 6 0) "-1: 2:+3:4:5:6 and more" = (true, [255; 2; 3; 4; 5; 6]).
Proof. by vm_compute. Qed.

(** When the text is not an address the bytes before the mistake are overwritten all the
    same, and [pg_set_mac_addrs] does not look at the result. *)
Theorem mac_scan_partial_write :
  pg_scan_ether_addr (replicate 6 0) "01:02:03:zz:05:06" = (false, [1; 2; 3; 0; 0; 0]).
Proof. by vm_compute. Qed.
