(* ===== verification/PacketApi.v ===== *)
(** * Packet accessors ([src/packet.c])

    The functions users call on packets. Unlike the bricks, they depend on the buffer
    behind a packet: [buf_len] bytes of which the first [data_off] are the headroom. *)

From S2P Require Import Prelude Bitmask Common Brick Burst Packets Network.

(** The fields of a one-segment [struct rte_mbuf] that the functions use; [buf] is the
    memory of [buf_len] bytes, the lengths of the layers are bit fields of 7, 9 and 8 bits. *)
Record pg_packet := mk_packet {
  buf : list Z;
  data_off : Z;
  pk_len : Z;
  pk_data_len : Z;
  pk_l2_len : Z;
  pk_l3_len : Z;
  pk_l4_len : Z;
}.

Implicit Types p : pg_packet.

Definition buf_len p : Z := Z.of_nat (length (buf p)).

(** The memory from [rte_pktmbuf_mtod] on. *)
Definition pg_packet_data p : list Z := drop (Z.to_nat (data_off p)) (buf p).

Definition pg_packet_len p : Z := pk_len p.

(** [buf_len - headroom], converted to [unsigned int]. *)
Definition pg_packet_max_len p : Z := u32 (buf_len p - data_off p).

Definition pg_packet_set_len p (len : Z) : Z * pg_packet :=
  if pg_packet_max_len p <? len then (-1, p)
  else (0, mk_packet (buf p) (data_off p) len (u16 len) (pk_l2_len p) (pk_l3_len p) (pk_l4_len p)).

(** The sum is an [unsigned int]. *)
Definition pg_packet_compute_len p (l5_len : Z) : Z * pg_packet :=
  pg_packet_set_len p (u32 (l5_len + pk_l2_len p + pk_l3_len p + pk_l4_len p)).

Definition pg_packet_set_l2_len p (len : Z) : pg_packet :=
  mk_packet (buf p) (data_off p) (pk_len p) (pk_data_len p) (len mod 2 ^ 7) (pk_l3_len p) (pk_l4_len p).
Definition pg_packet_get_l2_len p : Z := pk_l2_len p.
Definition pg_packet_set_l3_len p (len : Z) : pg_packet :=
  mk_packet (buf p) (data_off p) (pk_len p) (pk_data_len p) (pk_l2_len p) (len mod 2 ^ 9) (pk_l4_len p).
Definition pg_packet_get_l3_len p : Z := pk_l3_len p.
Definition pg_packet_set_l4_len p (len : Z) : pg_packet :=
  mk_packet (buf p) (data_off p) (pk_len p) (pk_data_len p) (pk_l2_len p) (pk_l3_len p) (len mod 2 ^ 8).
Definition pg_packet_get_l4_len p : Z := pk_l4_len p.

Section Sums.

(** [rte_ipv4_cksum] and [rte_raw_cksum] of DPDK. *)
Context (rte_ipv4_cksum rte_raw_cksum : list Z → Z).

Definition pg_packet_ipv4_checksum (ip_hdr : list Z) : Z := rte_ipv4_cksum ip_hdr.
Definition pg_packet_sum (ip_hdr : list Z) (len : nat) : Z := rte_raw_cksum (take len ip_hdr).

End Sums.

(** ** A packet lies in its buffer *)

(** The fields have their widths and the data ends within the buffer. *)
Definition packet_ok p : Prop :=
  0 ≤ data_off p ≤ buf_len p ∧ buf_len p < 2 ^ 16 ∧
  0 ≤ pk_len p ∧ data_off p + pk_len p ≤ buf_len p ∧ pk_data_len p = pk_len p ∧
  0 ≤ pk_l2_len p < 2 ^ 7 ∧ 0 ≤ pk_l3_len p < 2 ^ 9 ∧ 0 ≤ pk_l4_len p < 2 ^ 8.

(** The calls of the interface that change a packet. *)
Inductive packet_call :=
  | SetLen (len : Z)
  | ComputeLen (l5_len : Z)
  | SetL2 (len : Z)
  | SetL3 (len : Z)
  | SetL4 (len : Z).

(** The arguments are [unsigned int]s. *)
Definition run_packet_call p (c : packet_call) : pg_packet :=
  match c with
  | SetLen len => snd (pg_packet_set_len p (u32 len))
  | ComputeLen l5_len => snd (pg_packet_compute_len p (u32 l5_len))
  | SetL2 len => pg_packet_set_l2_len p (u32 len)
  | SetL3 len => pg_packet_set_l3_len p (u32 len)
  | SetL4 len => pg_packet_set_l4_len p (u32 len)
  end.

Lemma max_len_ok p : packet_ok p → pg_packet_max_len p = buf_len p - data_off p.
Proof. intros (?&?&_). apply Z.mod_small. lia. Qed.

Lemma set_len_ok p len : packet_ok p → 0 ≤ len → packet_ok (snd (pg_packet_set_len p len)).
Proof.
  intros Hok Hlen. unfold pg_packet_set_len. rewrite max_len_ok by done.
  destruct (Z.ltb_spec (buf_len p - data_off p) len); [done|]. cbn [snd].
  destruct Hok as (?&?&?&?&?&?). unfold packet_ok, buf_len in *. cbn.
  split_and!; try lia; try done. apply u16_small. lia.
Qed.

(** Storing a layer length of [w] bits. *)
Ltac layer_len w :=
  match goal with
  | Hok : packet_ok ?p |- packet_ok (_ ?p (u32 ?len)) =>
      pose proof (Z.mod_pos_bound (u32 len) (2 ^ w) ltac:(lia));
      unfold packet_ok in *; destruct_and!; split_and!; done
  end.


Definition demo_packet : pg_packet := mk_packet (replicate 100 0) 20 10 10 14 20 8.


(** The length [pg_packet_compute_len] computes wraps around: an impossible payload length
    is accepted and gives a short packet, where the documentation promises -1. *)
Theorem packet_compute_len_wraps :
  let r := pg_packet_compute_len demo_packet (2 ^ 32 - 40) in
  fst r = 0 ∧ pg_packet_len (snd r) = 2.
Proof. by vm_compute. Qed.

(** A layer length that does not fit its bit field is cut without notice. *)
Theorem packet_l2_len_truncated :
  pg_packet_get_l2_len (pg_packet_set_l2_len demo_packet 200) = 72.
Proof. done. Qed.
