(* ===== verification/Printer.v ===== *)
(** * Printing packets ([src/printer.c])

    The summary and the hexadecimal dump of the print brick. The functions of the source
    walk a pointer through the packet with a [size_t] of bytes left; here [mem] is the
    memory from the start of the packet to the end of its buffer, [off] a position in it and
    [size] what the code believes is left. A read after the end of [mem] is [BadRead]; the
    recursion over headers has a fuel, and [OutOfFuel] says it was not enough. The text is
    what the functions write to their file. *)

From stdpp Require Import pretty.
From S2P Require Import Prelude Bitmask Common Brick Burst Packets Network MacText.

Inductive printed := Done (text : string) | BadRead | OutOfFuel.

(** Text before the rest of the output. *)
Definition out (s : string) (r : printed) : printed :=
  match r with Done t => Done (s +:+ t) | BadRead => BadRead | OutOfFuel => OutOfFuel end.

(** ** Formats *)

(** [%02x] of a byte and [%04x] of a [uint16_t]. *)
Definition fmt_02x (v : Z) : string := hex_byte false v EmptyString.
Definition fmt_04x (v : Z) : string := fmt_02x (v / 256) +:+ fmt_02x (v mod 256).

Definition sizeof_tcphdr : Z := 20.
Definition sizeof_udphdr : Z := 8.
Definition IPPROTO_TCP : Z := 6.
Definition IPPROTO_UDP : Z := 17.
Definition IPPROTO_ICMP : Z := 1.
Definition IPPROTO_ICMPV6 : Z := 58.
Definition IPPROTO_IGMP : Z := 2.

Section Printer.

(** [inet_ntop] of the bytes of an address, for IPv4 and IPv6. *)
Context (inet_ntop4 inet_ntop6 : list Z → string).
Implicit Types (mem : list Z) (off : nat) (size : Z).

Definition rd mem off (k : Z → printed) : printed :=
  match mem !! off with Some b => k b | None => BadRead end.

Definition rd_n mem off (n : nat) (k : list Z → printed) : printed :=
  match bytes_at mem off n with Some b => k b | None => BadRead end.

(** [be16toh] of a 16-bit field. *)
Definition rd_be16 mem off (k : Z → printed) : printed :=
  rd mem off (λ b0, rd mem (off + 1) (λ b1, k (256 * b0 + b1))).

(** ** Transport *)

Definition print_proto_tcp mem off size : printed :=
  if size <? sizeof_tcphdr then Done ""
  else rd_be16 mem off (λ s, rd_be16 mem (off + 2) (λ d,
    Done (" [tcp sport=" +:+ pretty s +:+ " dport=" +:+ pretty d +:+ "]"))).

Definition print_proto_udp mem off size : printed :=
  if size <? sizeof_udphdr then Done ""
  else rd_be16 mem off (λ s, rd_be16 mem (off + 2) (λ d,
    Done (" [udp sport=" +:+ pretty s +:+ " dport=" +:+ pretty d +:+ "]"))).

Definition print_proto_icmp : printed := Done " [icmp]".
Definition print_proto_icmpv6 : printed := Done " [icmpv6]".
Definition print_proto_igmp : printed := Done " [igmp]".
Definition print_proto_ipv6_ext_esp : printed := Done " [ext ESP]".
Definition print_proto_ipv6_ext_ah : printed := Done " [ext AH]".
Definition print_proto_vrrp : printed := Done " [vrrp]".

(** The extension headers; [l4] is [print_l4]. Their size is an 8-bit number. *)
Definition ext_header mem off size (min header_size : Z) (label : string)
    (l4 : Z → nat → Z → printed) : printed :=
  if size <? min then Done ""
  else out label (rd mem off (λ nxt, l4 nxt (off + Z.to_nat header_size)%nat (u64 (size - header_size)))).

Definition print_proto_ipv6_ext_hbh mem off size l4 : printed :=
  rd mem (off + 1) (λ len, let header_size := u8 ((len + 1) * 8) in
    ext_header mem off size header_size header_size " [ext Hop-by-Hop]" l4).

Definition print_proto_ipv6_ext_routing mem off size l4 : printed :=
  rd mem (off + 1) (λ len, let header_size := u8 ((len + 1) * 8) in
    ext_header mem off size 16 header_size " [ext Routing]" l4).

Definition print_proto_ipv6_ext_fragment mem off size l4 : printed :=
  ext_header mem off size 8 8 " [ext Fragment]" l4.

Definition print_proto_ipv6_ext_destination mem off size l4 : printed :=
  rd mem (off + 1) (λ len, let header_size := u8 ((len + 1) * 8) in
    ext_header mem off size header_size header_size " [ext Destination]" l4).

(** [sizeof(struct ip6_frag)] is 8. *)
Definition print_proto_ipv6_ext_mobility mem off size l4 : printed :=
  ext_header mem off size 8 8 " [ext Fragment]" l4.

Fixpoint print_l4 (fuel : nat) mem (type : Z) off size : printed :=
  match fuel with
  | O => OutOfFuel
  | S fuel =>
      let l4 := print_l4 fuel mem in
      if type =? IPPROTO_TCP then print_proto_tcp mem off size
      else if type =? IPPROTO_UDP then print_proto_udp mem off size
      else if type =? IPPROTO_ICMP then print_proto_icmp
      else if type =? IPPROTO_ICMPV6 then print_proto_icmpv6
      else if type =? IPPROTO_IGMP then print_proto_igmp
      else if type =? 0x00 then print_proto_ipv6_ext_hbh mem off size l4
      else if type =? 0x2b then print_proto_ipv6_ext_routing mem off size l4
      else if type =? 0x2c then print_proto_ipv6_ext_fragment mem off size l4
      else if type =? 0x32 then print_proto_ipv6_ext_esp
      else if type =? 0x33 then print_proto_ipv6_ext_ah
      else if type =? 0x3c then print_proto_ipv6_ext_destination mem off size l4
      else if type =? 0x87 then print_proto_ipv6_ext_mobility mem off size l4
      else if type =? 0x70 then print_proto_vrrp
      else Done (" [type=0x" +:+ fmt_02x type +:+ "]")
  end.

(** ** Network *)

Definition print_proto_ip (fuel : nat) mem off size : printed :=
  rd mem (off + 9) (λ payload_type,
  rd_n mem (off + 12) 4 (λ src, rd_n mem (off + 16) 4 (λ dst,
  out (" [ip src=" +:+ inet_ntop4 src +:+ " dst=" +:+ inet_ntop4 dst +:+ "]")
    (print_l4 fuel mem payload_type (off + 20) (u64 (size - 20)))))).

Definition print_proto_ipv6 (fuel : nat) mem off size : printed :=
  rd mem (off + 6) (λ payload_type,
  rd_n mem (off + 8) 16 (λ src, rd_n mem (off + 24) 16 (λ dst,
  out (" [ipv6 src=" +:+ inet_ntop6 src +:+ " dst=" +:+ inet_ntop6 dst +:+ "]")
    (print_l4 fuel mem payload_type (off + 40) (u64 (size - 40)))))).

Definition print_proto_arp : printed := Done " [arp]".

(** The priorities of a VLAN tag. *)
Definition pcp_name (pcp : Z) : string :=
  nth (Z.to_nat pcp) ["'best effort'"; "'background'"; "'excellent effort'";
    "'critical application'"; "'video'"; "'voice'"; "'internetwork control'";
    "'network control'"] "".

(** [struct vlan_802_1q] as a little-endian host lays its packed bit fields out: [pcp],
    [cfi] and the low bits of [vid] from the low end of the first byte. *)
Definition vlan_pcp (b0 : Z) : Z := b0 mod 8.
Definition vlan_cfi (b0 : Z) : Z := b0 / 8 mod 2.
Definition vlan_vid (b0 b1 : Z) : Z := b0 / 16 + 16 * b1.

Definition ETHERTYPE_IP : Z := 0x0800.
Definition ETHERTYPE_IPV6 : Z := 0x86dd.
Definition ETHERTYPE_ARP : Z := 0x0806.
Definition ETHERTYPE_VLAN : Z := 0x8100.

(** [print_l3] of the type read at [toff], with [print_proto_vlan]; [fuel4] is the fuel of
    [print_l4]. *)
Fixpoint print_l3 (fuel fuel4 : nat) mem (toff : nat) off size : printed :=
  match fuel with
  | O => OutOfFuel
  | S fuel =>
      rd_be16 mem toff (λ t,
        if t =? ETHERTYPE_IP then print_proto_ip fuel4 mem off size
        else if t =? ETHERTYPE_IPV6 then print_proto_ipv6 fuel4 mem off size
        else if t =? ETHERTYPE_ARP then print_proto_arp
        else if t =? ETHERTYPE_VLAN then
          rd mem off (λ b0, rd mem (off + 1) (λ b1,
          out (" [vlan prio=" +:+ pcp_name (vlan_pcp b0) +:+ " drop=" +:+ pretty (vlan_cfi b0)
               +:+ " id=" +:+ pretty (vlan_vid b0 b1) +:+ "]")
            (print_l3 fuel fuel4 mem (off + 2) (off + 4) (u64 (size - 4)))))
        else Done (" [ethertype=" +:+ fmt_04x t +:+ "]"))
  end.

(** Six bytes in hexadecimal, with colons. *)
Definition fmt_mac (a : list Z) : string := format_bytes false a.

Definition print_proto_eth (fuel fuel4 : nat) mem size : printed :=
  rd_n mem 6 6 (λ sm, rd_n mem 0 6 (λ dm,
  out (" [eth src=" +:+ fmt_mac sm +:+ " dst=" +:+ fmt_mac dm +:+ "]")
    (print_l3 fuel fuel4 mem 12 14 (u64 (size - 14))))).

Definition newline : string := String (char_of 10) EmptyString.

Definition print_summary (fuel fuel4 : nat) mem size : printed :=
  match print_proto_eth fuel fuel4 mem size with
  | Done t => Done (t +:+ newline)
  | r => r
  end.

End Printer.

(** ** The dump *)

Section Raw.

Implicit Types (d : list Z) (size start stop : nat).

(** [n] times a space. *)
Fixpoint spaces (n : nat) : string :=
  match n with O => EmptyString | S n => String (char_of 32) (spaces n) end.

(** The bytes from position [i] on, in hexadecimal, with a space after each odd position. *)
Fixpoint hex_from (i : nat) (l : list Z) : string :=
  match l with
  | [] => EmptyString
  | b :: l => fmt_02x b +:+ (if Nat.odd i then " " else "") +:+ hex_from (S i) l
  end.

(** The padding of the last line. *)
Fixpoint pad_from (i n : nat) : string :=
  match n with
  | O => EmptyString
  | S n => "  " +:+ (if Nat.odd i then " " else "") +:+ pad_from (S i) n
  end.

Definition padding size : string :=
  pad_from 0 (16 - size mod 16) +:+ (if Nat.odd size then " " else "").

Fixpoint chars (l : list Z) : string :=
  match l with
  | [] => EmptyString
  | c :: l =>
      String (if (c <? 0x20) || (0x7d <? c) then char_of 46 else char_of (Z.to_nat c)) (chars l)
  end.

(** One turn of the loop. *)
Definition raw_line d size start stop : string :=
  let l := take (stop - start) (drop start d) in
  fmt_04x (u16 (Z.of_nat start)) +:+ ".  " +:+ hex_from start l +:+
  (if (stop =? size)%nat then padding size else "") +:+ "  " +:+ chars l +:+ newline.

Fixpoint raw_loop (fuel : nat) d size start stop : option string :=
  match fuel with
  | O => None
  | S fuel =>
      if (stop <? size)%nat then
        let stop := if (size <=? start + 16)%nat then size else (start + 16)%nat in
        t ← raw_loop fuel d size stop stop;
        Some (raw_line d size start stop +:+ t)
      else Some EmptyString
  end.

(** [print_raw]; [None] when the loop needs more turns than the fuel. *)
Definition print_raw (fuel : nat) d size : option string := raw_loop fuel d size 0 0.

End Raw.

(** ** Extension headers *)

(** An extension header of IPv6: its type, its length field and the bytes after the two
    first ones. *)
Record ext_hdr := mk_ext { x_type : Z; x_len : Z; x_body : list Z }.

Definition fixed_size (ty : Z) : bool := (ty =? 0x2c) || (ty =? 0x87).

(** The bytes the printer skips. *)
Definition ext_bytes (x : ext_hdr) : Z := if fixed_size (x_type x) then 8 else (x_len x + 1) * 8.

Definition ext_label (ty : Z) : string :=
  if ty =? 0x00 then " [ext Hop-by-Hop]" else if ty =? 0x2b then " [ext Routing]"
  else if ty =? 0x3c then " [ext Destination]" else " [ext Fragment]".

(** A header the printer measures right: its length fits 8 bits, and a routing header has
    an address. *)
Definition ext_ok (x : ext_hdr) : Prop :=
  x_type x ∈ [0x00; 0x2b; 0x2c; 0x3c; 0x87] ∧ 0 ≤ x_len x ≤ 30 ∧
  (x_type x = 0x2b → 1 ≤ x_len x) ∧ Z.of_nat (2 + length (x_body x)) = ext_bytes x.

(** The type of the first header of a chain that ends with a transport header of type [t]. *)
Definition first_type (xs : list ext_hdr) (t : Z) : Z :=
  match xs with [] => t | x :: _ => x_type x end.

(** The bytes of a chain. *)
Fixpoint chain (xs : list ext_hdr) (t : Z) (payload : list Z) : list Z :=
  match xs with
  | [] => payload
  | x :: xs => first_type xs t :: x_len x :: x_body x ++ chain xs t payload
  end.

Definition labels (xs : list ext_hdr) (s : string) : string :=
  foldr (λ x s, ext_label (x_type x) +:+ s) s xs.

Lemma chain_length x xs t payload :
  ext_ok x → Z.of_nat (length (chain (x :: xs) t payload))
  = ext_bytes x + Z.of_nat (length (chain xs t payload)).
Proof. intros (_&_&_&Hb). cbn [chain length]. rewrite length_app, <- Hb. lia. Qed.

Lemma ext_bytes_range x : ext_ok x → 8 ≤ ext_bytes x < 256.
Proof. intros (_&Hl&_). unfold ext_bytes. destruct (fixed_size _); lia. Qed.

(** One header. *)
Lemma print_ext fuel mem x off size :
  ext_ok x → mem !! (off + 1)%nat = Some (x_len x) → ext_bytes x ≤ size →
  print_l4 (S fuel) mem (x_type x) off size =
  out (ext_label (x_type x)) (rd mem off (λ nxt,
    print_l4 fuel mem nxt (off + Z.to_nat (ext_bytes x))%nat (u64 (size - ext_bytes x)))).
Proof.
  intros Hok Hlen Hsize. pose proof (ext_bytes_range x Hok) as Hr.
  destruct Hok as (Hty&Hl&Hrt&_). unfold ext_bytes in *.
  assert (u8 ((x_len x + 1) * 8) = (x_len x + 1) * 8) as Hu by (apply Z.mod_small; lia).
  repeat (apply elem_of_cons in Hty as [Hty|Hty]; [|try by apply not_elem_of_nil in Hty]);
    rewrite Hty in *; cbn in Hsize |- *;
    unfold print_proto_ipv6_ext_hbh, print_proto_ipv6_ext_routing, print_proto_ipv6_ext_fragment,
      print_proto_ipv6_ext_destination, print_proto_ipv6_ext_mobility, rd at 1;
    rewrite ?Hlen, ?Hu; unfold ext_header;
    match goal with |- context [size <? ?m] => rewrite (proj2 (Z.ltb_ge size m)) by lia end; done.
Qed.

Lemma str_app_assoc (a b c : string) : (a +:+ b) +:+ c = a +:+ b +:+ c.
Proof. induction a as [|x a IH]; [done|]. exact (f_equal (String x) IH). Qed.

Lemma str_app_nil (a : string) : a +:+ "" = a.
Proof. induction a as [|x a IH]; [done|]. exact (f_equal (String x) IH). Qed.

Lemma out_out a b r : out a (out b r) = out (a +:+ b) r.
Proof. destruct r; [|done..]. cbn [out]. by rewrite str_app_assoc. Qed.

Lemma labels_app xs s : labels xs s = labels xs "" +:+ s.
Proof.
  induction xs as [|x xs IH]; [done|]. cbn [labels foldr]. fold (labels xs s). fold (labels xs "").
  by rewrite IH, str_app_assoc.
Qed.

Lemma drop_lookup_head {A} (l : list A) off x k : drop off l = x :: k → l !! off = Some x.
Proof. intros H. rewrite <- (Nat.add_0_r off), <- lookup_drop, H. done. Qed.

Lemma chain_payload_le xs t payload : (length payload ≤ length (chain xs t payload))%nat.
Proof. induction xs as [|y ys IHy]; [done|]. cbn [chain length]. rewrite length_app. lia. Qed.

Lemma chain_drop xs t payload rest :
  drop (length (chain xs t payload) - length payload) (chain xs t payload ++ rest) = payload ++ rest.
Proof.
  induction xs as [|x xs IH]; cbn [chain]; [by rewrite Nat.sub_diag|].
  pose proof (chain_payload_le xs t payload). cbn [length]. rewrite length_app.
  replace (S (S (length (x_body x) + length (chain xs t payload))) - length payload)%nat
    with (S (S (length (x_body x) + (length (chain xs t payload) - length payload)))) by lia.
  cbn [drop app]. rewrite <- app_assoc, <- drop_drop, drop_app_length. exact IH.
Qed.

Lemma print_chain fuel mem xs t payload rest off :
  Forall ext_ok xs → drop off mem = chain xs t payload ++ rest →
  Z.of_nat (length (chain xs t payload)) < 2 ^ 64 →
  print_l4 (length xs + fuel) mem (first_type xs t) off (Z.of_nat (length (chain xs t payload)))
  = out (labels xs "") (print_l4 fuel mem t
      (off + (length (chain xs t payload) - length payload))%nat (Z.of_nat (length payload))).
Proof.
  revert off. induction xs as [|x xs IH]; intros off Hok Hmem Hsize.
  { cbn [length first_type chain labels foldr Nat.add]. rewrite Nat.sub_diag, Nat.add_0_r.
    destruct (print_l4 _ _ _ _ _); done. }
  apply Forall_cons in Hok as [Hx Hok]. pose proof (chain_length x xs t payload Hx) as Hl.
  pose proof (ext_bytes_range x Hx) as Hr.
  change (length (x :: xs) + fuel)%nat with (S (length xs + fuel)). cbn [first_type].
  pose proof (drop_lookup_head _ _ _ _ Hmem) as H0.
  assert (drop (off + 1) mem = x_len x :: x_body x ++ chain xs t payload ++ rest) as Hmem1.
  { rewrite <- drop_drop, Hmem. cbn. by rewrite <- app_assoc. }
  pose proof (drop_lookup_head _ _ _ _ Hmem1) as H1.
  rewrite print_ext by (done || lia). unfold rd. rewrite H0.
  assert (Z.of_nat (length (chain (x :: xs) t payload)) - ext_bytes x
    = Z.of_nat (length (chain xs t payload))) as -> by lia.
  rewrite u64_small by lia.
  assert (drop (off + Z.to_nat (ext_bytes x)) mem = chain xs t payload ++ rest) as Hmem2.
  { replace (Z.to_nat (ext_bytes x)) with (1 + (1 + length (x_body x)))%nat
      by (destruct Hx as (_&_&_&Hb); lia).
    rewrite Nat.add_assoc, <- drop_drop, Hmem1. cbn [drop Nat.add]. apply drop_app_length. }
  rewrite IH by (done || lia). rewrite out_out. f_equal. f_equal.
  pose proof (chain_payload_le xs t payload). lia.
Qed.

Lemma bytes_at_app (a b c : list Z) off n :
  length a = off → length b = n → bytes_at (a ++ b ++ c) off n = Some b.
Proof.
  intros <- <-. unfold bytes_at. rewrite decide_True by (rewrite !length_app; lia).
  by rewrite drop_app_length, take_app_length.
Qed.

Lemma bytes_at_head (b c : list Z) n : length b = n → bytes_at (b ++ c) 0 n = Some b.
Proof. apply (bytes_at_app [] b c 0 n eq_refl). Qed.

Lemma lookup_app_at (a b : list Z) x off : length a = off → (a ++ x :: b) !! off = Some x.
Proof. intros <-. by rewrite lookup_app_r, Nat.sub_diag. Qed.

Lemma rd_be16_app (a b : list Z) v off k :
  length a = off → 0 ≤ v < 2 ^ 16 → rd_be16 (a ++ net16 v ++ b) off k = k v.
Proof.
  intros Ha Hv. unfold rd_be16, rd, net16. cbn [app]. rewrite lookup_app_at by done.
  replace (a ++ v / 256 :: v mod 256 :: b) with ((a ++ [v / 256]) ++ v mod 256 :: b)
    by (by rewrite <- app_assoc).
  rewrite lookup_app_at by (rewrite length_app; cbn; lia). f_equal. symmetry. apply Z.div_mod. lia.
Qed.

(** An IPv6 packet in ethernet. *)
Definition ipv6_frame (dm sm : list Z) (src dst : list Z) (hop : Z) (xs : list ext_hdr) (t : Z)
    (payload : list Z) : list Z :=
  dm ++ sm ++ [0x86; 0xdd] ++ [0x60; 0; 0; 0; 0; 0; first_type xs t; hop] ++ src ++ dst
  ++ chain xs t payload.

Section Properties.

Context (inet_ntop4 inet_ntop6 : list Z → string).

(** Where the fields of the frame are. *)
Lemma ipv6_frame_reads dm sm src dst hop xs t (payload rest : list Z) :
  length dm = 6%nat → length sm = 6%nat → length src = 16%nat → length dst = 16%nat →
  let m := ipv6_frame dm sm src dst hop xs t payload ++ rest in
  bytes_at m 6 6 = Some sm ∧ bytes_at m 0 6 = Some dm ∧
  (∀ k, rd_be16 m 12 k = k ETHERTYPE_IPV6) ∧ m !! 20%nat = Some (first_type xs t) ∧
  bytes_at m 22 16 = Some src ∧ bytes_at m 38 16 = Some dst ∧
  drop 54 m = chain xs t payload ++ rest.
Proof.
  intros Hdm Hsm Hsrc Hdst m. set (c := chain xs t payload).
  set (hdr := [0x60; 0; 0; 0; 0; 0; first_type xs t; hop]). set (ety := [0x86; 0xdd]).
  assert (m = dm ++ sm ++ ety ++ hdr ++ src ++ dst ++ c ++ rest) as ->.
  { unfold m, ipv6_frame. fold ety hdr c. by rewrite <- !app_assoc. }
  split; [by apply bytes_at_app|]. split; [by apply bytes_at_head|]. split; [|split; [|split; [|split]]].
  - intros k. rewrite app_assoc. apply (rd_be16_app (dm ++ sm) _ ETHERTYPE_IPV6);
      [rewrite length_app; lia|done].
  - rewrite !lookup_app_r by (cbn [length ety]; lia). rewrite Hdm, Hsm. by vm_compute.
  - rewrite (app_assoc ety), (app_assoc sm), (app_assoc dm). apply bytes_at_app; [|done].
    rewrite !length_app. cbn [length ety hdr]. lia.
  - rewrite (app_assoc hdr), (app_assoc ety), (app_assoc sm), (app_assoc dm).
    apply bytes_at_app; [|done]. rewrite !length_app. cbn [length ety hdr]. lia.
  - rewrite (app_assoc src), (app_assoc hdr), (app_assoc ety), (app_assoc sm), (app_assoc dm).
    apply drop_app_length'. rewrite !length_app. cbn [length ety hdr]. lia.
Qed.

(** A UDP header at an offset. *)
Lemma print_udp_at fuel m at_ sport dport body size :
  0 ≤ sport < 2 ^ 16 → 0 ≤ dport < 2 ^ 16 → sizeof_udphdr ≤ size →
  drop at_ m = net16 sport ++ net16 dport ++ body →
  print_l4 (S fuel) m IPPROTO_UDP at_ size =
  Done (" [udp sport=" +:+ pretty sport +:+ " dport=" +:+ pretty dport +:+ "]").
Proof.
  intros Hs Hd Hsize Dp.
  assert (m = take at_ m ++ net16 sport ++ net16 dport ++ body) as Hat
    by (by rewrite <- Dp, take_drop).
  assert (length (take at_ m) = at_) as Hatl.
  { rewrite length_take. apply (f_equal length) in Dp. rewrite length_drop, !length_app in Dp.
    cbn [length net16] in Dp. lia. }
  cbn [print_l4]. change (IPPROTO_UDP =? IPPROTO_TCP) with false.
  change (IPPROTO_UDP =? IPPROTO_UDP) with true. cbv iota. unfold print_proto_udp.
  rewrite (proj2 (Z.ltb_ge _ _)) by done.
  rewrite Hat at 1. rewrite rd_be16_app by done.
  rewrite Hat at 1. rewrite (app_assoc (take at_ _)).
  rewrite rd_be16_app by (rewrite ?length_app; cbn [length net16]; done || lia). done.
Qed.

(** The summary of an IPv6 packet names its addresses, every one of its extension
    headers in order and its UDP ports, for every chain of headers the printer measures
    right; the recursion takes one step per header. *)
Theorem print_summary_ipv6 dm sm src dst hop xs sport dport (rest body : list Z) :
  length dm = 6%nat → length sm = 6%nat → length src = 16%nat → length dst = 16%nat →
  Forall ext_ok xs → 0 ≤ sport < 2 ^ 16 → 0 ≤ dport < 2 ^ 16 → (4 ≤ length body)%nat →
  let frame := ipv6_frame dm sm src dst hop xs IPPROTO_UDP (net16 sport ++ net16 dport ++ body) in
  Z.of_nat (length frame) < 2 ^ 64 →
  print_summary inet_ntop4 inet_ntop6 1 (length xs + 1) (frame ++ rest)
    (Z.of_nat (length frame)) =
  Done (" [eth src=" +:+ fmt_mac sm +:+ " dst=" +:+ fmt_mac dm +:+ "]" +:+
        " [ipv6 src=" +:+ inet_ntop6 src +:+ " dst=" +:+ inet_ntop6 dst +:+ "]" +:+
        labels xs (" [udp sport=" +:+ pretty sport +:+ " dport=" +:+ pretty dport +:+ "]") +:+
        newline).
Proof.
  intros Hdm Hsm Hsrc Hdst Hok Hs Hd Hbody frame Hlen.
  set (payload := net16 sport ++ net16 dport ++ body) in frame.
  set (c := chain xs IPPROTO_UDP payload).
  assert (Z.of_nat (length frame) = 54 + Z.of_nat (length c)) as Hflen.
  { unfold frame, ipv6_frame. fold c. rewrite !length_app. cbn [length]. lia. }
  destruct (ipv6_frame_reads dm sm src dst hop xs IPPROTO_UDP payload rest Hdm Hsm Hsrc Hdst)
    as (B6&B0&R12&L20&B22&B38&D54). fold frame c in B6, B0, R12, L20, B22, B38, D54.
  unfold print_summary, print_proto_eth, rd_n. rewrite B6, B0. cbn [print_l3]. rewrite R12.
  change (ETHERTYPE_IPV6 =? ETHERTYPE_IP) with false.
  change (ETHERTYPE_IPV6 =? ETHERTYPE_IPV6) with true. cbv iota.
  rewrite Hflen, (u64_small (54 + _ - 14)) by lia.
  unfold print_proto_ipv6, rd_n, rd at 1. change (14 + 6)%nat with 20%nat.
  change (14 + 8)%nat with 22%nat. change (14 + 24)%nat with 38%nat.
  change (14 + 40)%nat with 54%nat. rewrite L20, B22, B38, u64_small by lia.
  replace (54 + Z.of_nat (length c) - 14 - 40) with (Z.of_nat (length c)) by lia.
  unfold c. rewrite (print_chain 1 (frame ++ rest) xs IPPROTO_UDP payload rest 54)
    by (done || (fold c; lia)).
  rewrite (print_udp_at 0 _ _ sport dport (body ++ rest)); [|done..| |].
  - cbn [out]. rewrite (labels_app xs (" [udp sport=" +:+ _)). by rewrite !str_app_assoc.
  - unfold payload, sizeof_udphdr. rewrite !length_app. cbn [length net16]. lia.
  - rewrite <- drop_drop, D54. unfold c. rewrite chain_drop. unfold payload. by rewrite <- !app_assoc.
Qed.

End Properties.

(** ** The dump, line by line *)

(** One line per 16 bytes. *)
Definition raw_reference (d : list Z) (size : nat) : string :=
  foldr (λ k t, raw_line d size (16 * k) (Nat.min size (16 * k + 16)) +:+ t) EmptyString
    (seq 0 ((size + 15) / 16)).

Lemma raw_loop_done fuel d size s : raw_loop (S fuel) d size s size = Some EmptyString.
Proof. cbn [raw_loop]. by rewrite (proj2 (Nat.ltb_ge size size)) by lia. Qed.

Lemma raw_loop_spec d size k n fuel :
  (16 * k + 16 * n < size + 16)%nat → (size ≤ 16 * k + 16 * n)%nat → (n < fuel)%nat →
  raw_loop fuel d size (Nat.min size (16 * k)) (Nat.min size (16 * k)) =
  Some (foldr (λ k t, raw_line d size (16 * k) (Nat.min size (16 * k + 16)) +:+ t) EmptyString
          (seq k n)).
Proof.
  revert k fuel. induction n as [|n IH]; intros k fuel H1 H2 Hf;
    (destruct fuel as [|fuel]; [lia|]).
  - rewrite Nat.min_l by lia. cbn [seq foldr]. apply raw_loop_done.
  - rewrite (Nat.min_r size (16 * k)) by lia. cbn [raw_loop seq foldr].
    rewrite (proj2 (Nat.ltb_lt _ _)) by lia.
    assert ((if (size <=? 16 * k + 16)%nat then size else (16 * k + 16)%nat)
      = Nat.min size (16 * k + 16)) as -> by (destruct (Nat.leb_spec size (16 * k + 16)); lia).
    replace (16 * k + 16)%nat with (16 * S k)%nat by lia. rewrite IH by lia. done.
Qed.

(** The dump of a packet ends and is made of one line for each 16 bytes, in order, the
    last one with what is left: the loop with its two moving bounds is the plain
    line-by-line definition. *)
Theorem print_raw_lines d size fuel :
  ((size + 15) / 16 < fuel)%nat → print_raw fuel d size = Some (raw_reference d size).
Proof.
  intros Hf. unfold print_raw, raw_reference.
  pose proof (Nat.div_mod (size + 15) 16 ltac:(lia)) as Hd.
  pose proof (Nat.mod_upper_bound (size + 15) 16 ltac:(lia)) as Hm.
  rewrite <- (raw_loop_spec d size 0 ((size + 15) / 16) fuel) by lia.
  by rewrite Nat.mul_0_r, Nat.min_0_r.
Qed.

(** ** Witnesses *)

Lemma print_summary_ipv6_witness :
  print_summary (λ _, "4") (λ _, "6") 1 2
    (ipv6_frame (replicate 6 1) (replicate 6 0xab) (replicate 16 0) (replicate 16 1) 64
       [mk_ext 0x3c 0 (replicate 6 0)] 17 (net16 53 ++ net16 4000 ++ replicate 4 0) ++ [])
    (Z.of_nat (length (ipv6_frame (replicate 6 1) (replicate 6 0xab) (replicate 16 0) (replicate 16 1) 64
       [mk_ext 0x3c 0 (replicate 6 0)] 17 (net16 53 ++ net16 4000 ++ replicate 4 0))))
  = Done (" [eth src=ab:ab:ab:ab:ab:ab dst=01:01:01:01:01:01] [ipv6 src=6 dst=6]" +:+
          " [ext Destination] [udp sport=53 dport=4000]" +:+ newline).
Proof.
  etrans; [apply (print_summary_ipv6 (λ _, "4") (λ _, "6") (replicate 6 1) (replicate 6 0xab)
    (replicate 16 0) (replicate 16 1) 64 [mk_ext 0x3c 0 (replicate 6 0)] 53 4000 [] (replicate 4 0))|].
  - done.
  - done.
  - done.
  - done.
  - constructor; [|constructor]. split_and!; [set_solver|done|done|done|done].
  - lia.
  - lia.
  - cbn. lia.
  - by vm_compute.
  - by vm_compute.
Defined.

Lemma print_raw_lines_witness :
  print_raw 3 (replicate 20 0x41) 20 = Some (raw_reference (replicate 20 0x41) 20).
Proof. apply (print_raw_lines (replicate 20 0x41) 20 3). vm_compute. lia. Defined.

(** ** Behaviours that are not intended *)

(** The size of an extension header wraps at 8 bits: a hop-by-hop header with length field
    31 has size 0, and one that names itself as the next header is printed again and again
    with no end, whatever the fuel. *)
Theorem print_l4_no_end fuel mem off size :
  mem !! off = Some 0 → mem !! (off + 1)%nat = Some 31 → 0 ≤ size < 2 ^ 64 →
  print_l4 fuel mem 0 off size = OutOfFuel.
Proof.
  intros H0 H1 Hs. induction fuel as [|fuel IH]; [done|]. cbn [print_l4].
  change (0 =? IPPROTO_TCP) with false. change (0 =? IPPROTO_UDP) with false.
  change (0 =? IPPROTO_ICMP) with false. change (0 =? IPPROTO_ICMPV6) with false.
  change (0 =? IPPROTO_IGMP) with false. change (0 =? 0x00) with true. cbv iota.
  unfold print_proto_ipv6_ext_hbh, rd. rewrite H1. change (u8 ((31 + 1) * 8)) with 0. cbv zeta.
  unfold ext_header. rewrite (proj2 (Z.ltb_ge size 0)) by lia. unfold rd. rewrite H0.
  rewrite Nat.add_0_r, Z.sub_0_r, u64_small by done. rewrite IH. done.
Qed.

Lemma print_l4_no_end_witness :
  print_l4 1000 (replicate 54 0 ++ [0; 31; 0; 0; 0; 0; 0; 0]) 0 54 8 = OutOfFuel.
Proof. apply (print_l4_no_end 1000 (replicate 54 0 ++ [0; 31; 0; 0; 0; 0; 0; 0]) 54 8); done. Defined.

(** A packet shorter than its headers is read past its end: nothing compares the sizes, and
    the size that is left wraps around. *)
Theorem print_short_packet_overread :
  print_summary (λ _, "4") (λ _, "6") 2 2 (replicate 12 0 ++ [8; 0]) 14 = BadRead.
Proof. by vm_compute. Qed.

(** VLAN 1 is printed as VLAN 16: the bit fields are laid out from the low bits of the
    first byte and the tag is sent from the high ones. *)
Theorem print_vlan_wrong_id :
  print_summary (λ _, "4") (λ _, "6") 2 2 (replicate 12 0 ++ [0x81; 0; 0; 1; 8; 6]) 18
  = Done (" [eth src=00:00:00:00:00:00 dst=00:00:00:00:00:00]" +:+
          " [vlan prio='best effort' drop=0 id=16] [arp]" +:+ newline).
Proof. by vm_compute. Qed.

(** A mobility header is printed as a fragment header. *)
Theorem print_mobility_as_fragment :
  print_l4 2 (17 :: replicate 7 0) 0x87 0 8 = Done " [ext Fragment]".
Proof. by vm_compute. Qed.

(** The last line of a dump of 16 bytes is padded as if it were empty. *)
Theorem print_raw_pads_full_line : padding 16 = spaces 40 ∧ padding 17 = spaces 38.
Proof. by vm_compute. Qed.
