(* ===== verification/Print.v ===== *)
(** * The print brick ([src/print.c])

    A dipole that writes a description of the packets that cross it to a file, or dumps
    them in the pcap format, and passes every burst on unchanged. Files, clocks and the pcap
    library are known through the class [OutLib]. *)

From stdpp Require Import pretty.
From S2P Require Import Prelude Bitmask Common Brick BrickInv Burst Packets Network MacText.
From S2P Require Import Printer.

Definition PCAP_SNAPSHOT_LEN : Z := 65535.

Definition PG_PRINT_FLAG_SUMMARY : Z := 1.
Definition PG_PRINT_FLAG_TIMESTAMP : Z := 2.
Definition PG_PRINT_FLAG_SIZE : Z := 4.
Definition PG_PRINT_FLAG_BRICK : Z := 8.
Definition PG_PRINT_FLAG_RAW : Z := 16.
Definition PG_PRINT_FLAG_PCAP : Z := 32.
Definition PG_PRINT_FLAG_CLOSE_FILE : Z := 64.

(** A [struct timeval]. *)
Record timeval := mk_tv { tv_sec : Z; tv_usec : Z }.

(** [struct pg_print_config] and [struct pg_print_state]; a file is a number, [None] for
    NULL; a filter is memory that ends with a zero. *)
Record pg_print_config := mk_print_config {
  cfg_output : option Z;
  cfg_type_filter : option (list Z);
  cfg_flags : Z;
}.

Record pg_print_state := mk_print {
  output : Z;
  dumper : option Z;
  type_filter : option (list Z);
  flags : Z;
  start_date : timeval;
  start_cycles : Z;
  hz : Z;
}.

Definition has_flag (fl f : Z) : bool := negb (Z.land fl f =? 0).

Definition pg_print_config_new (nm : string) (out : option Z) (flags : Z) (filter : option (list Z))
    : pg_brick_config pg_print_config :=
  pg_brick_config_init (mk_print_config out filter flags) nm 1 1 PG_DIPOLE.

(** [should_skip]: the scan of a filter up to its zero; [None] is a filter without one. *)
Fixpoint in_filter (l : list Z) (eth : list Z) : option bool :=
  match l with
  | [] => None
  | t :: l =>
      if t =? 0 then Some false
      else ty ← load16 eth 12; if ty =? t then Some true else in_filter l eth
  end.

Definition should_skip (filter : option (list Z)) (eth : list Z) : option bool :=
  match filter with None => Some false | Some l => in_filter l eth end.

(** The copy [print_init] makes of a filter. *)
Fixpoint copy_filter (l : list Z) : option (list Z) :=
  match l with
  | [] => None
  | t :: l => if t =? 0 then Some [0] else k ← copy_filter l; Some (t :: k)
  end.

(** [timeradd]. *)
Definition timeradd (a b : timeval) : timeval :=
  let sec := tv_sec a + tv_sec b in
  let usec := tv_usec a + tv_usec b in
  if 1000000 <=? usec then mk_tv (sec + 1) (usec - 1000000) else mk_tv sec usec.

(** [calculate_timestamp]; the code multiplies and divides doubles, the model has the exact
    quotient. *)
Definition calculate_timestamp (st : pg_print_state) (now : Z) : timeval :=
  let cycles := u64 (now - start_cycles st) in
  timeradd (start_date st)
    (mk_tv (cycles / hz st) (cycles mod hz st * 10000000 / hz st)).

(** ** Files and clocks *)

Class OutLib (W : Type) := {
  (** Text written to a file. *)
  file_write : Z → string → M (flow W) unit;
  file_close : Z → M (flow W) unit;
  (** [gettimeofday], [rte_get_timer_cycles] and [rte_get_timer_hz]. *)
  gettimeofday : M (flow W) timeval;
  get_timer_cycles : M (flow W) Z;
  get_timer_hz : W → Z;
  (** [pcap_open_dead], [pcap_dump_fopen], [pcap_dump] of a time, a length and bytes, and
      [pcap_dump_close] with [pcap_close]. *)
  pcap_open_dead : M (flow W) bool;
  pcap_dump_fopen : Z → M (flow W) (option Z);
  pcap_dump : Z → timeval → Z → list Z → M (flow W) unit;
  pcap_close : Z → M (flow W) unit;
}.

Section Print.

Context {W : Type} `{D : !Dispatch W, !OutLib W}.
Context (inet_ntop4 inet_ntop6 : list Z → string).
(** The bounds on the headers of a packet and on the lines of a dump. *)
Context (fuel : nat).
Implicit Types st : pg_print_state.

(** [print_pcap] of a packet in one segment; the dumper must be open. *)
Definition print_pcap st (v : mbuf) : M (flow W) unit :=
  now ← get_timer_cycles;
  let ts := calculate_timestamp st now in
  if PCAP_SNAPSHOT_LEN <? pkt_len v then mret tt
  else
    d ← unwrap (dumper st);
    b ← unwrap (bytes_at (data v) 0 (Z.to_nat (pkt_len v)));
    pcap_dump d ts (pkt_len v) b.

Definition text_of (r : printed) : option string :=
  match r with Done t => Some t | _ => None end.

(** What [print_burst] writes for a packet that is not skipped. *)
Definition packet_text (nm : string) (from : pg_side) (fl : Z) (diff : Z) (v : mbuf)
    : option string :=
  let brick := if has_flag fl PG_PRINT_FLAG_BRICK then
      match from with
      | PG_WEST_SIDE => "-->[" +:+ nm +:+ "]"
      | PG_EAST_SIDE => "[" +:+ nm +:+ "]<--"
      end else "" in
  let time := if has_flag fl PG_PRINT_FLAG_TIMESTAMP then " [time=" +:+ pretty diff +:+ "]" else "" in
  let size := if has_flag fl PG_PRINT_FLAG_SIZE then " [size=" +:+ pretty (pkt_len v) +:+ "]" else "" in
  summary ← (if has_flag fl PG_PRINT_FLAG_SUMMARY
             then text_of (print_summary inet_ntop4 inet_ntop6 fuel fuel (data v) (pkt_len v))
             else Some "");
  raw ← (if has_flag fl PG_PRINT_FLAG_RAW
         then print_raw fuel (data v) (Z.to_nat (pkt_len v)) else Some "");
  Some (brick +:+ time +:+ size +:+ summary +:+ raw +:+ newline).

(** The loop over the packets. *)
Fixpoint print_loop st (nm : string) (from : pg_side) (diff : Z) (pkts : pkts_t) (l : list nat)
    : M (flow W) unit :=
  match l with
  | [] => mret tt
  | i :: l =>
      p ← unwrap (pkts !! i);
      v ← load_pkt p;
      (if has_flag (flags st) PG_PRINT_FLAG_PCAP then print_pcap st v
       else
         skip ← unwrap (should_skip (type_filter st) (data v));
         if (skip : bool) then mret tt
         else t ← unwrap (packet_text nm from (flags st) diff v); file_write (output st) t);;
      print_loop st nm from diff pkts l
  end.

Definition print_burst st (nm : string) (sides : pg_side → pg_brick_side) (from : pg_side)
    (pkts : pkts_t) (pkts_mask : Z) : M (flow W) Z :=
  let s := sides (pg_flip_side from) in
  diff ← (if has_flag (flags st) PG_PRINT_FLAG_TIMESTAMP then
            cur ← gettimeofday;
            mret (u64 ((tv_sec cur * 1000000 + tv_usec cur) -
                       (tv_sec (start_date st) * 1000000 + tv_usec (start_date st))))
          else mret 0);
  print_loop st nm from diff pkts (PG_FOREACH_BIT pkts_mask);;
  e ← edge_of s;
  pg_brick_burst (link e) from (pair_index e) pkts pkts_mask.

(** The standard output. *)
Context (stdout : Z).

(** [print_init]: the state, or [None] for the result -1. *)
Definition print_init (config : pg_brick_config pg_print_config)
    : M (flow W) (option pg_print_state) :=
  let c := brick_config config in
  let out := default stdout (cfg_output c) in
  o ← (if has_flag (cfg_flags c) PG_PRINT_FLAG_PCAP then
         ok ← pcap_open_dead;
         if negb ok then
           flow_error (pg_error_new "error initializing pcap");; mret None
         else
           d ← pcap_dump_fopen out;
           match d with
           | None => flow_error (pg_error_new "error when opening pcap file");; mret None
           | Some d =>
               cycles ← get_timer_cycles;
               h ← gets (λ fl, get_timer_hz (fl_world fl));
               mret (Some (Some d, cycles, h))
           end
       else mret (Some (None, 0, 0)));
  match o with
  | None => mret None
  | Some (d, cycles, h) =>
      date ← gettimeofday;
      filter ← (match cfg_type_filter c with
                | None => mret None
                | Some l => k ← unwrap (copy_filter l); mret (Some k)
                end);
      failed ← gets (λ fl, pg_error_is_set (fl_errp fl));
      if (failed : bool) then mret None
      else mret (Some (mk_print out d filter (cfg_flags c) date cycles h))
  end.

Definition pg_print_set_flags st (fl : Z) : pg_print_state :=
  mk_print (output st) (dumper st) (type_filter st) fl (start_date st) (start_cycles st) (hz st).

Definition print_destroy st : M (flow W) unit :=
  if has_flag (flags st) PG_PRINT_FLAG_PCAP then d ← unwrap (dumper st); pcap_close d
  else if has_flag (flags st) PG_PRINT_FLAG_CLOSE_FILE then file_close (output st)
  else mret tt.

End Print.

(** ** What is printed *)

(** The documented behaviour of files: [text] is what a file holds. *)
Class OutLaws (W : Type) `{!OutLib W} (text : W → Z → string) : Prop := {
  law_file_write o s (fl : flow W) :
    ∃ w, file_write o s fl = Some (tt, mk_flow (fl_mem fl) (fl_count fl) (fl_errp fl) w) ∧
      text w o = text (fl_world fl) o +:+ s;
  law_gettimeofday (fl : flow W) :
    ∃ t w, gettimeofday fl = Some (t, mk_flow (fl_mem fl) (fl_count fl) (fl_errp fl) w) ∧
      ∀ o, text w o = text (fl_world fl) o;
}.

Section Laws.

Context {W : Type} `{!Dispatch W, !OutLib W} (text : W → Z → string) `{!OutLaws W text}.
Context (inet_ntop4 inet_ntop6 : list Z → string) (fuel : nat).
Implicit Types (fl : flow W) (st : pg_print_state).

(** What a packet contributes: nothing when its type is filtered. *)
Definition contribution st nm from diff (v : mbuf) : option string :=
  skip ← should_skip (type_filter st) (data v);
  if (skip : bool) then Some EmptyString
  else packet_text inet_ntop4 inet_ntop6 fuel nm from (flags st) diff v.

(** The packets at some positions have these contributions. *)
Definition contributions fl st nm from diff (pkts : pkts_t) (l : list nat) (ts : list string) : Prop :=
  Forall2 (λ j t, ∃ p v, pkts !! j = Some p ∧ fl_mem fl !! p = Some v ∧
    contribution st nm from diff v = Some t) l ts.

Definition concat_text (ts : list string) : string := foldr String.append EmptyString ts.

Lemma print_loop_spec st nm from diff (pkts : pkts_t) l ts fl :
  has_flag (flags st) PG_PRINT_FLAG_PCAP = false →
  contributions fl st nm from diff pkts l ts →
  ∃ w, print_loop inet_ntop4 inet_ntop6 fuel st nm from diff pkts l fl
      = Some (tt, mk_flow (fl_mem fl) (fl_count fl) (fl_errp fl) w) ∧
    text w (output st) = text (fl_world fl) (output st) +:+ concat_text ts.
Proof.
  intros Hpcap. revert ts fl. induction l as [|j l IH]; intros ts fl Hc.
  { apply Forall2_nil_inv_l in Hc as ->. exists (fl_world fl). split; [by destruct fl|].
    cbn. by rewrite str_app_nil. }
  apply Forall2_cons_inv_l in Hc as (t&ts'&(p&v&Hp&Hv&Ht)&Hc&->). cbn [print_loop].
  rewrite Hp. cbn [unwrap]. rewrite M_bind_ret. unfold load_pkt. rewrite M_bind_assoc.
  unfold mbind at 1, M_bind at 1, gets. rewrite Hv. cbn [unwrap]. rewrite M_bind_ret, Hpcap.
  unfold contribution in Ht. rewrite M_bind_assoc.
  destruct (should_skip (type_filter st) (data v)) as [skip|]; [|done].
  cbn [mbind option_bind unwrap] in Ht |- *. rewrite M_bind_ret. destruct skip.
  - injection Ht as <-. rewrite M_bind_ret. destruct (IH ts' fl Hc) as (w&Hr&Hw).
    exists w. split; [exact Hr|]. exact Hw.
  - rewrite M_bind_assoc, Ht. cbn [unwrap]. rewrite M_bind_ret. unfold mbind, M_bind.
    destruct (law_file_write (output st) t fl) as (w1&->&Hw1).
    destruct (IH ts' (mk_flow (fl_mem fl) (fl_count fl) (fl_errp fl) w1)) as (w&Hr&Hw); [exact Hc|].
    exists w. split; [exact Hr|]. rewrite Hw. cbn [fl_world]. rewrite Hw1.
    cbn [concat_text foldr]. by rewrite str_app_assoc.
Qed.

(** A burst through the print brick adds to the file the descriptions of its packets,
    in order and without those whose type is filtered, changes no packet, and then goes on
    to the neighbour exactly as it came, whatever the neighbour answers. *)
Theorem print_burst_transparent st nm sides from (pkts : pkts_t) mask e fl :
  has_flag (flags st) PG_PRINT_FLAG_PCAP = false →
  side_edges (sides (pg_flip_side from)) = Edge e →
  (∀ diff, ∃ ts, contributions fl st nm from diff pkts (PG_FOREACH_BIT mask) ts) →
  ∃ diff ts w, contributions fl st nm from diff pkts (PG_FOREACH_BIT mask) ts ∧
    text w (output st) = text (fl_world fl) (output st) +:+ concat_text ts ∧
    print_burst inet_ntop4 inet_ntop6 fuel st nm sides from pkts mask fl =
    pg_brick_burst (link e) from (pair_index e) pkts mask
      (mk_flow (fl_mem fl) (fl_count fl) (fl_errp fl) w).
Proof.
  intros Hpcap He Hts. unfold print_burst.
  set (first := if has_flag _ _ then _ else _).
  assert (∃ diff w, first fl = Some (diff, mk_flow (fl_mem fl) (fl_count fl) (fl_errp fl) w) ∧
    text w (output st) = text (fl_world fl) (output st)) as (diff&w1&Hf&Hw1).
  { unfold first. destruct (has_flag (flags st) PG_PRINT_FLAG_TIMESTAMP).
    - destruct (law_gettimeofday fl) as (t&w&Hg&Hw). unfold mbind at 1, M_bind at 1. rewrite Hg.
      eexists _, w. split; [done|apply Hw].
    - exists 0, (fl_world fl). by destruct fl. }
  unfold mbind at 1, M_bind at 1. rewrite Hf. destruct (Hts diff) as [ts Hc].
  set (fl1 := mk_flow _ _ _ w1). unfold mbind at 1, M_bind at 1.
  destruct (print_loop_spec st nm from diff pkts _ ts fl1 Hpcap Hc) as (w&Hr&Hw). rewrite Hr.
  exists diff, ts, w. split; [done|]. split.
  - rewrite Hw. cbn [fl_world fl1]. by rewrite Hw1.
  - unfold edge_of. rewrite He, M_bind_ret. done.
Qed.

End Laws.

(** ** A file in memory *)

(** The world is the text written to a single file. *)
#[local] Instance demo_dispatch : Dispatch string :=
  λ _ _ _ _ _, mret 0.

#[local] Instance demo_out : OutLib string := {
  file_write _ s := λ fl,
    Some (tt, mk_flow (fl_mem fl) (fl_count fl) (fl_errp fl) (fl_world fl +:+ s));
  file_close _ := mret tt;
  gettimeofday := mret (mk_tv 7 0);
  get_timer_cycles := mret 150;
  get_timer_hz _ := 100;
  pcap_open_dead := mret true;
  pcap_dump_fopen _ := mret (Some 0);
  pcap_dump _ ts _ _ := λ fl,
    Some (tt, mk_flow (fl_mem fl) (fl_count fl) (fl_errp fl)
      (fl_world fl +:+ pretty (tv_sec ts) +:+ "." +:+ pretty (tv_usec ts)));
  pcap_close _ := mret tt;
}.

#[local] Instance demo_out_laws : OutLaws string (λ w _, w).
Proof.
  split.
  - intros o s fl. by eexists.
  - intros fl. exists (mk_tv 7 0), (fl_world fl). by destruct fl.
Qed.

(** An ARP request, and a brick that prints names and sizes. *)
Definition arp_mbuf : mbuf :=
  mk_mbuf (replicate 12 1 ++ [0x08; 0x06] ++ replicate 28 0) 42 14 20 0 0 1.

Definition demo_print (fl : Z) (filter : option (list Z)) : pg_print_state :=
  mk_print 1 None filter fl (mk_tv 3 0) 0 100.

Definition demo_print_flow : flow string := mk_flow {[ 5%positive := arp_mbuf ]} ∅ None EmptyString.

Definition demo_print_sides (s : pg_side) : pg_brick_side :=
  mk_side 1 1 (Edge (mk_edge (Some 7%positive) 0)).

Lemma print_burst_transparent_witness :
  ∃ diff ts w, contributions (λ _, "4") (λ _, "6") 9 demo_print_flow
      (demo_print 14 (Some [0x0008; 0])) "p" PG_WEST_SIDE diff [5%positive] [0%nat] ts ∧
    w = concat_text ts ∧
    print_burst (λ _, "4") (λ _, "6") 9 (demo_print 14 (Some [0x0008; 0])) "p"
      demo_print_sides PG_WEST_SIDE [5%positive] 1 demo_print_flow =
    pg_brick_burst (Some 7%positive) PG_WEST_SIDE 0 [5%positive] 1
      (mk_flow (fl_mem demo_print_flow) ∅ None w).
Proof.
  apply (print_burst_transparent (λ w _, w) (λ _, "4") (λ _, "6") 9
    (demo_print 14 (Some [0x0008; 0])) "p" demo_print_sides PG_WEST_SIDE [5%positive] 1
    (mk_edge (Some 7%positive) 0) demo_print_flow).
  - done.
  - done.
  - intros diff. eexists. constructor; [|constructor]. exists 5%positive, arp_mbuf.
    split; [done|]. split; [done|]. cbn -[pretty]. reflexivity.
Defined.

(** What the brick above writes. *)
Example print_burst_text :
  fl_world <$> (snd <$> print_burst (λ _, "4") (λ _, "6") 9 (demo_print 14 (Some [0x0008; 0])) "p"
      demo_print_sides PG_WEST_SIDE [5%positive] 1 demo_print_flow)
  = Some ("-->[p] [time=4000000] [size=42]" +:+ newline).
Proof. vm_compute. reflexivity. Qed.

(** ** What the code does not do as written *)

(** The microseconds of a pcap time are counted with [10e6], ten millions, for a second:
    half a second after a start at 3 s the packet is dated 4 s and 4 millions of
    microseconds, a [timeval] that no clock gives. *)
Theorem pcap_timestamp_ten_times :
  calculate_timestamp (mk_print 1 (Some 0) None 0 (mk_tv 3 0) 100 100) 150 = mk_tv 4 4000000.
Proof. vm_compute. reflexivity. Qed.

(** A filter is compared with the type as it is in the packet, in network order: a filter
    made of the ARP type 0x0806 does not skip ARP packets, one with swapped bytes does. *)
Theorem print_filter_network_order :
  should_skip (Some [0x0806; 0]) (data arp_mbuf) = Some false ∧
  should_skip (Some [0x0608; 0]) (data arp_mbuf) = Some true.
Proof. vm_compute. done. Qed.

(** Once [pg_print_set_flags] asks for the pcap format of a brick that was built without
    it, there is no dumper: the next packet, and the destruction, use a null pointer. *)
Theorem print_set_pcap_without_dumper st nm sides from fl :
  dumper st = None →
  let st' := pg_print_set_flags st PG_PRINT_FLAG_PCAP in
  print_destroy st' fl = None ∧
  print_burst (λ _, "4") (λ _, "6") 9 st' nm sides from [5%positive] 1 demo_print_flow = None.
Proof. intros Hd st'. subst st'. destruct st as [o d f g sd sc h]. cbn in Hd. subst d. by vm_compute. Qed.

Lemma print_set_pcap_without_dumper_witness :
  print_destroy (pg_print_set_flags (demo_print 1 None) PG_PRINT_FLAG_PCAP) demo_print_flow = None.
Proof. by apply (print_set_pcap_without_dumper (demo_print 1 None) "p" demo_print_sides PG_WEST_SIDE). Defined.
