(* ===== verification/DeviceNew.v ===== *)
(** * The constructors of the devices and of the tunnels

    [pg_nic_new], [pg_nic_new_by_id], [pg_tap_new], [pg_vhost_new], [pg_print_new],
    [pg_packetsgen_new], and the tunnels with an address given as bytes or as text. *)

From stdpp Require Import pretty.
From S2P Require Import Prelude Bitmask Common Brick BrickInv BrickSpec Burst Network Vtep.
From S2P Require Import Constructors Nic Tap Vhost Packetsgen Printer Print.

(** The private configurations, as the [void *] that [pg_brick_new] hands over. *)
Inductive device_config :=
  | CfgNic (c : pg_nic_config)
  | CfgTap (c : pg_tap_config)
  | CfgVhost (c : pg_vhost_config)
  | CfgPacketsgen (c : option pg_packetsgen_config)
  | CfgPrint (c : pg_print_config)
  | CfgVtep (c : vtep_config).

Section DeviceNew.

Context {W : Type} (all : list (pg_brick_ops W device_config)).

Definition pg_nic_new (nm : string) (ifname : option string) : M (state W) (option ptr) :=
  pg_brick_new all (Some "nic") (Some (cast CfgNic (nic_config_new nm ifname 0))).

Definition pg_nic_new_by_id (nm : string) (portid : Z) : M (state W) (option ptr) :=
  pg_brick_new all (Some "nic") (Some (cast CfgNic (nic_config_new nm None portid))).

Definition pg_tap_new (nm : string) (ifname : option string) : M (state W) (option ptr) :=
  pg_brick_new all (Some "tap") (Some (cast CfgTap (tap_config_new nm ifname))).

Definition pg_vhost_new (nm : string) (flags : Z) : M (state W) (option ptr) :=
  pg_brick_new all (Some "vhost") (Some (cast CfgVhost (vhost_config_new nm flags))).

Definition pg_packetsgen_new (nm : string) (west_max east_max : Z) (output : pg_side)
    (packets : option pkts_t) (packets_nb : Z) : M (state W) (option ptr) :=
  pg_brick_new all (Some "packetsgen")
    (Some (cast CfgPacketsgen
       (packetsgen_config_new nm west_max east_max packets packets_nb output))).

Definition pg_print_new (nm : string) (output : option Z) (flags : Z) (type_filter : option (list Z))
    : M (state W) (option ptr) :=
  pg_brick_new all (Some "print")
    (Some (cast CfgPrint (pg_print_config_new nm output flags type_filter))).

(** [BRICK_NAME]. *)
Definition vtep_brick_name (v : ip_version) : string :=
  match v with V4 => "vtep4" | V6 => "vtep6" end.

(** [pg_vtep4_new] and [pg_vtep6_new]. *)
Definition pg_vtep_new (v : ip_version) (nm : string) (max : Z) (output : pg_side)
    (ip mac : list Z) (udp_dst_port flags : Z) : M (state W) (option ptr) :=
  pg_brick_new all (Some (vtep_brick_name v))
    (Some (cast CfgVtep (pg_vtep_new_config nm max output ip mac udp_dst_port flags))).

(** [pg_ip_from_str]: the bytes [inet_pton] stores, [None] for a result below 1. *)
Context (pg_ip_from_str : ip_version → string → option (list Z)).

Definition pg_vtep_new_by_string (nm : string) (max : Z) (output : pg_side) (ip : string)
    (mac : list Z) (udp_dst_port flags : Z) : M (state W) (option ptr) :=
  match pg_ip_from_str V4 ip with
  | None =>
      match pg_ip_from_str V6 ip with
      | None =>
          set_error (pg_error_new (String.append "'" (String.append ip "' is not a valid ip")));;
          mret None
      | Some ip6 => pg_vtep_new V6 nm max output ip6 mac udp_dst_port flags
      end
  | Some ip4 => pg_vtep_new V4 nm max output ip4 mac udp_dst_port flags
  end.

(** The devices have one neighbour; a tunnel has one on its outer side. *)
Lemma device_configs_fit nm ifname portid flags out fl filter :
  Forall (λ c : pg_brick_config device_config, fits c)
    [cast CfgNic (nic_config_new nm ifname portid);
     cast CfgTap (tap_config_new nm ifname);
     cast CfgVhost (vhost_config_new nm flags);
     cast CfgPrint (pg_print_config_new nm out fl filter)].
Proof. repeat constructor. Qed.

Lemma vtep_config_fits nm max out ip mac port flags :
  0 ≤ max < UINT16_MAX → fits (cast CfgVtep (pg_vtep_new_config nm max out ip mac port flags)).
Proof.
  intros H. unfold UINT16_MAX in H.
  assert (∀ z, 0 ≤ z < 65536 → u32 z = z) as Hu by (intros; unfold u32; apply Z.mod_small; lia).
  destruct out; unfold fits, UINT16_MAX; cbn -[u32]; rewrite !Hu by lia; lia.
Qed.

End DeviceNew.
