(* ===== verification/Dot.v ===== *)
(** * The dot output of a graph ([src/brick.c], [src/graph.c])

    [pg_brick_dot] walks from a brick over the links and writes a node for each brick and a
    line for each link, for graphviz. The walk is a work list like the one of
    [pg_graph_explore_ptr], but the brick in progress is in neither list. *)

From S2P Require Import Prelude Common Brick BrickInv BrickSpec BrickApi Graph.
From S2P Require Import MacText Printer.

(** ** The text *)

Definition quoted (s : string) : string :=
  String (char_of 34) (s +:+ String (char_of 34) EmptyString).

(** [g_string_append_printf] with the formats of the code. *)
Definition dot_node (ty nm : string) : string :=
  "  " +:+ quoted (ty +:+ ":" +:+ nm) +:+ " [ label=" +:+
  quoted ("{ <west> | " +:+ ty +:+ "&#92;n" +:+ nm +:+ " |<east> }") +:+ "];" +:+ newline.

Definition side_str (s : pg_side) : string :=
  match s with PG_WEST_SIDE => "west" | PG_EAST_SIDE => "east" end.

Definition dot_line (ty nm : string) (i : pg_side) (ty' nm' : string) : string :=
  "  " +:+ quoted (ty +:+ ":" +:+ nm) +:+ ":" +:+ side_str i +:+ " -- " +:+
  quoted (ty' +:+ ":" +:+ nm') +:+ ":" +:+ side_str (pg_flip_side i) +:+ newline.

Definition dot_header : string :=
  "strict graph G {" +:+ newline +:+ "  rankdir=LR" +:+ newline +:+ "  nodesep=1" +:+ newline +:+
  "  node [shape=record];" +:+ newline.

(** ** The walk *)

Section Dot.

Context {W C : Type} (all : list (pg_brick_ops W C)).
Implicit Types (st : state W) (b : pg_brick) (p q : ptr).

(** The links of an array of edges. *)
Definition edge_links (s : pg_side) (l : list pg_brick_edge) : list (pg_side * ptr) :=
  omap (λ e, pair s <$> link e) l.

(** The links of a side; [None] is the wrong member of the union or a read past the array. *)
Definition dot_side b (s : pg_side) : option (list (pg_side * ptr)) :=
  match type b, side_edges (sides b s) with
  | PG_DIPOLE, Edge e => Some (edge_links s [e])
  | PG_MULTIPOLE, Edges es =>
      if decide (side_max (sides b s) ≤ Z.of_nat (length es))
      then Some (edge_links s (take (Z.to_nat (side_max (sides b s))) es)) else None
  | _, _ => None
  end.

(** The links of a brick in the order of the loops; the link of a monopole is shown on its
    west side. *)
Definition dot_links b : option (list (pg_side * ptr)) :=
  match type b with
  | PG_MONOPOLE =>
      match side_edges (west_side b) with
      | Edge e => Some (edge_links PG_WEST_SIDE [e])
      | Edges _ => None
      end
  | _ => w ← dot_side b PG_WEST_SIDE; e ← dot_side b PG_EAST_SIDE; Some (w ++ e)
  end.

(** [b->ops->name]. *)
Definition type_name b : option string := op_name <$> brick_ops all b.

Definition pg_brick_dot_add (todo done : list ptr) b (n : ptr) (i : pg_side) (s : string)
    : M (state W) (list ptr * string) :=
  let todo := if decide (n ∉ todo ∧ n ∉ done) then todo ++ [n] else todo in
  nb ← load n;
  ty ← unwrap (type_name b);
  ty' ← unwrap (type_name nb);
  mret (todo, s +:+ dot_line ty (name b) i ty' (name nb)).

Fixpoint dot_edges (todo done : list ptr) b (l : list (pg_side * ptr)) (s : string)
    : M (state W) (list ptr * string) :=
  match l with
  | [] => mret (todo, s)
  | (i, n) :: l =>
      r ← pg_brick_dot_add todo done b n i s;
      dot_edges (fst r) done b l (snd r)
  end.

Fixpoint dot_loop (fuel : nat) (todo done : list ptr) (s : string) : M (state W) string :=
  match fuel with
  | O => crash
  | S fuel =>
      match todo with
      | [] => mret s
      | p :: todo =>
          b ← load p;
          ty ← unwrap (type_name b);
          l ← unwrap (dot_links b);
          r ← dot_edges todo done b l (s +:+ dot_node ty (name b));
          dot_loop fuel (fst r) (done ++ [p]) (snd r)
      end
  end.

(** Each turn moves one brick of the store to [done]. *)
Definition pg_brick_dot p : M (state W) string :=
  fuel ← gets (λ st, S (size (bricks st)));
  s ← dot_loop fuel [p] [] dot_header;
  mret (s +:+ "}" +:+ newline).

(** [pg_graph_dot]: an empty graph has no brick to start from, and the code reads
    through NULL. *)
Definition pg_graph_dot `{!HashOrder} (g : pg_graph) : M (state W) string :=
  p ← unwrap (get_any_brick g); pg_brick_dot p.

(** ** What is written *)

(** The line of a link of [p] and the block of [p]. *)
Definition line_of st p (sq : pg_side * ptr) : option string :=
  b ← bricks st !! p;
  nb ← bricks st !! snd sq;
  ty ← type_name b;
  ty' ← type_name nb;
  Some (dot_line ty (name b) (fst sq) ty' (name nb)).

Definition concat_text (ts : list string) : string := foldr String.append EmptyString ts.

Definition block_of st p : option string :=
  b ← bricks st !! p;
  ty ← type_name b;
  l ← dot_links b;
  lines ← mapM (line_of st p) l;
  Some (dot_node ty (name b) +:+ concat_text lines).

Lemma concat_text_snoc ts t : concat_text (ts ++ [t]) = concat_text ts +:+ t.
Proof.
  induction ts as [|x ts IH]; cbn [concat_text foldr app]; [by rewrite str_app_nil|].
  unfold concat_text in IH. by rewrite IH, str_app_assoc.
Qed.

Lemma elem_of_edge_links s l s' q :
  (s', q) ∈ edge_links s l ↔ s' = s ∧ ∃ i e, l !! i = Some e ∧ link e = Some q.
Proof.
  unfold edge_links. rewrite list_elem_of_omap. setoid_rewrite list_elem_of_lookup. split.
  - intros (e&[i He]&(q'&Hq&[= -> ->])%fmap_Some). eauto.
  - intros (->&i&e&He&Hq). exists e. split; [eauto|]. by rewrite Hq.
Qed.

Lemma dot_side_spec b s :
  brick_ok b → type b ≠ PG_MONOPOLE →
  ∃ l, dot_side b s = Some l ∧
    ∀ s' q, (s', q) ∈ l ↔ s' = s ∧ ∃ i e, uslot (side_edges (sides b s)) i = Some e ∧ link e = Some q.
Proof.
  intros Hb Ht. pose proof (so_union _ _ (bo_side _ Hb s)) as Hu. unfold dot_side, union_ok in *.
  destruct (type b), (side_edges (sides b s)) as [es|e]; try done.
  - rewrite decide_True by lia. rewrite firstn_all2 by lia. eexists. split; [done|].
    intros s' q. by rewrite elem_of_edge_links.
  - eexists. split; [done|]. intros s' q. rewrite elem_of_edge_links. cbn [uslot]. split.
    + intros (->&[|i]&e'&[= ->]&He). split; [done|]. by exists 0%nat, e'.
    + intros (->&[|i]&e'&[= ->]&He). split; [done|]. by exists 0%nat, e'.
Qed.

(** The links that are drawn are those of the brick, each on its side; the link of a
    monopole is drawn on the west side wherever it is. *)
Lemma dot_links_spec st p b :
  Inv all st → bricks st !! p = Some b →
  ∃ l, dot_links b = Some l ∧
    (∀ q, (∃ s, (s, q) ∈ l) ↔ neighbour all st p q) ∧
    (type b ≠ PG_MONOPOLE → ∀ s q, (s, q) ∈ l ↔ ∃ i j, slot all st p s i = Some (q, j)).
Proof.
  intros Hinv Hp. pose proof (vb_ok _ _ (inv_brick _ _ Hinv _ _ Hp)) as Hb.
  destruct (decide (type b = PG_MONOPOLE)) as [Hm|Hm].
  - unfold dot_links. rewrite Hm. pose proof (own_union_ok b PG_WEST_SIDE Hb) as Hu.
    unfold union_ok, own_side, get_side in Hu. rewrite Hm in Hu. cbn [sides] in Hu.
    destruct (side_edges (west_side b)) as [|e] eqn:He; [done|].
    eexists. split; [done|]. split; [|done]. intros q. setoid_rewrite elem_of_edge_links.
    unfold neighbour. setoid_rewrite slot_Some. unfold own_side, get_side.
    setoid_rewrite Hp. split.
    + intros (s&->&[|i]&e'&[= <-]&Hq). exists (mside all (world st) p b), 0%nat, (pair_index e), b, e.
      rewrite Hm. cbn [sides]. by rewrite He.
    + intros (s&i&j&b'&e'&[= <-]&Hs&Hq&_). rewrite Hm in Hs. cbn [sides] in Hs. rewrite He in Hs.
      destruct i; [|done]. injection Hs as <-. exists PG_WEST_SIDE. split; [done|]. by exists 0%nat, e.
  - assert (∀ s, own_side b s = sides b s) as Hos
      by (intros; unfold own_side, get_side; by destruct (type b)).
    destruct (dot_side_spec b PG_WEST_SIDE Hb Hm) as (lw&Hlw&Hw).
    destruct (dot_side_spec b PG_EAST_SIDE Hb Hm) as (le&Hle&He).
    exists (lw ++ le).
    assert (dot_links b = Some (lw ++ le)) as Hd.
    { unfold dot_links. rewrite Hlw, Hle. by destruct (type b). }
    split; [done|].
    assert (∀ s q, (s, q) ∈ lw ++ le ↔ ∃ i j, slot all st p s i = Some (q, j)) as Hin.
    { intros s q. rewrite elem_of_app, Hw, He. setoid_rewrite slot_Some. rewrite Hp.
      split.
      - intros [(->&i&e&Hi&Hq)|(->&i&e&Hi&Hq)]; exists i, (pair_index e), b, e;
          rewrite Hos; naive_solver.
      - intros (i&j&b'&e&[= <-]&Hi&Hq&_). rewrite Hos in Hi. destruct s; eauto 10. }
    split; [|intros _; exact Hin]. intros q. setoid_rewrite Hin. done.
Qed.

(** The lines of the links of a brick are appended in order, and the neighbours that are
    new enter the work list. *)
Lemma dot_edges_spec st p b todo done l s :
  bricks st !! p = Some b → is_Some (type_name b) →
  (∀ sq, sq ∈ l → ∃ nb, bricks st !! snd sq = Some nb ∧ is_Some (type_name nb)) →
  ∃ todo' lines, mapM (line_of st p) l = Some lines ∧
    dot_edges todo done b l s st = Some ((todo', s +:+ concat_text lines), st) ∧
    (∀ x, x ∈ todo' ↔ x ∈ todo ∨ x ∉ done ∧ ∃ s, (s, x) ∈ l) ∧
    (NoDup todo → NoDup todo').
Proof.
  intros Hp [ty Hty]. revert todo s. induction l as [|[i n] l IH]; intros todo s Hl.
  { exists todo, []. cbn. rewrite str_app_nil. split; [done|]. split; [done|]. split; [|done].
    intros x. split; [by left|]. intros [?|(_&?&[]%not_elem_of_nil)]; done. }
  destruct (Hl (i, n)) as (nb&Hn&[ty' Hty']); [by left|]. cbn [snd] in Hn.
  set (todo1 := if decide (n ∉ todo ∧ n ∉ done) then todo ++ [n] else todo).
  destruct (IH todo1 (s +:+ dot_line ty (name b) i ty' (name nb))) as (todo'&lines&Hm&Hr&Hin&Hnd).
  { intros sq Hsq. apply Hl. by right. }
  exists todo', (dot_line ty (name b) i ty' (name nb) :: lines).
  assert (line_of st p (i, n) = Some (dot_line ty (name b) i ty' (name nb))) as Hline.
  { unfold line_of. cbn [fst snd]. rewrite Hp. cbn [mbind option_bind]. rewrite Hn. cbn [mbind option_bind].
    rewrite Hty. cbn [mbind option_bind]. by rewrite Hty'. }
  split; [cbn [mapM]; by rewrite Hline, Hm|]. split; [|split].
  - cbn [dot_edges]. unfold pg_brick_dot_add, load, gets, mbind, M_bind. fold todo1.
    rewrite Hn. cbn [unwrap]. unfold mret, M_ret. rewrite Hty. cbn [unwrap]. unfold mret, M_ret.
    rewrite Hty'. cbn [unwrap]. unfold mret, M_ret. cbn [fst snd concat_text foldr] in Hr |- *.
    rewrite <- str_app_assoc. exact Hr.
  - intros x. rewrite Hin. subst todo1. setoid_rewrite elem_of_cons.
    case_decide as Hd; [rewrite elem_of_app, list_elem_of_singleton|].
    + naive_solver.
    + split; [naive_solver|]. intros [?|(Hx&s'&[[= -> ->]|?])]; [by left| |eauto].
      destruct (decide (n ∈ todo)); [by left|]. destruct Hd. done.
  - intros Hn'. apply Hnd. subst todo1. case_decide as Hd; [|done].
    apply NoDup_app. split; [done|]. split; [|apply NoDup_singleton].
    intros x Hx ->%list_elem_of_singleton. by destruct Hd.
Qed.

Lemma live_type st x : Inv all st → is_Some (bricks st !! x) →
  ∃ b, bricks st !! x = Some b ∧ is_Some (type_name b).
Proof.
  intros Hinv [b Hb]. exists b. split; [done|]. unfold type_name.
  destruct (vb_ops _ _ (inv_brick _ _ Hinv _ _ Hb)) as [o Ho]. rewrite Ho. eauto.
Qed.

(** The loop writes the blocks of what the work list reaches. *)
Lemma dot_loop_spec st p fuel todo done s :
  Inv all st → is_Some (bricks st !! p) →
  NoDup (todo ++ done) → (∀ x, x ∈ todo ++ done → connected all st p x) →
  (∀ x y, x ∈ done → neighbour all st x y → y ∈ todo ++ done) →
  (size (bricks st) < fuel + length done)%nat →
  ∃ order blocks, NoDup (done ++ order) ∧ (∀ x, x ∈ todo → x ∈ order) ∧
    (∀ x, x ∈ order → connected all st p x) ∧
    (∀ x y, x ∈ done ++ order → neighbour all st x y → y ∈ done ++ order) ∧
    Forall2 (λ x t, block_of st x = Some t) order blocks ∧
    dot_loop fuel todo done s st = Some (s +:+ concat_text blocks, st).
Proof.
  intros Hinv Hp. revert todo done s.
  induction fuel as [|fuel IH]; intros todo done s Hnd Hcon Hclo Hf.
  { exfalso. apply NoDup_app in Hnd as (_&_&Hnd).
    assert (list_to_set done ⊆ dom (bricks st)) as Hsub.
    { intros x Hx%elem_of_list_to_set. apply elem_of_dom.
      eapply connected_live; [done..|]. apply Hcon. set_solver. }
    apply subseteq_size in Hsub. rewrite size_list_to_set, size_dom in Hsub by done. lia. }
  destruct todo as [|q todo]; cbn [dot_loop].
  { exists [], []. rewrite app_nil_r, str_app_nil.
    split; [done|]. split; [set_solver|]. split; [set_solver|]. split; [done|]. by split. }
  cbn [app] in Hnd. apply NoDup_cons in Hnd as [Hq Hnd].
  assert (connected all st p q) as Hpq by (apply Hcon; set_solver).
  destruct (live_type st q Hinv) as (b&Hb&Hty); [by eapply connected_live|].
  destruct (dot_links_spec st q b Hinv Hb) as (l&Hl&Hln&_). pose proof Hty as [ty Ety].
  destruct (dot_edges_spec st q b todo done l (s +:+ dot_node ty (name b)) Hb Hty)
    as (todo'&lines&Hm&Hr&Hin&Hnt).
  { intros [s' n] Hsn. apply (live_type st n Hinv). eapply neighbour_live; [done|]. apply Hln. eauto. }
  assert (¬ neighbour all st q q) as Hself
    by (intros (s1&i1&j1&Hs1); by apply (inv_sym _ _ Hinv) in Hs1 as [? _]).
  apply NoDup_app in Hnd as (Hnd1&Hdis&Hnd2).
  destruct (IH todo' (done ++ [q]) ((s +:+ dot_node ty (name b)) +:+ concat_text lines))
    as (order&blocks&Hno&Hto&Hco&Hcl&Hbl&Hrun).
  - apply NoDup_app. split; [by apply Hnt|]. split.
    + intros x Hx%Hin. rewrite elem_of_app, list_elem_of_singleton. rewrite Hln in Hx.
      intros [Hx'| ->]; [destruct Hx as [Hx|[Hx _]]; [by apply (Hdis x)|done]|].
      destruct Hx as [Hx|[_ Hx]]; [set_solver|done].
    + apply NoDup_app. split; [done|]. split; [set_solver|apply NoDup_singleton].
  - intros x. rewrite !elem_of_app, list_elem_of_singleton, Hin, Hln.
    intros [[Hx|[_ Hx]]|[Hx| ->]]; [apply Hcon; set_solver| |apply Hcon; set_solver|done].
    eapply rtc_r; [|exact Hx]. done.
  - intros x y. rewrite !elem_of_app, !list_elem_of_singleton, Hin, Hln.
    destruct (decide (y ∈ done)) as [|Hy]; [by right; left|].
    intros [Hx| ->] Hxy; [|by left; right]. specialize (Hclo x y Hx Hxy).
    rewrite elem_of_app, elem_of_cons in Hclo.
    destruct Hclo as [[->|Hc]|Hc]; [by right; right|by left; left|done].
  - rewrite length_app. cbn [length]. lia.
  - exists (q :: order), ((dot_node ty (name b) +:+ concat_text lines) :: blocks).
    rewrite <- (assoc_L (++)) in Hno, Hcl. split; [exact Hno|]. split.
    { intros x [->|Hx]%elem_of_cons; [by left|]. right. apply Hto, Hin. by left. }
    split; [intros x [->|Hx]%elem_of_cons; auto|]. split; [exact Hcl|]. split.
    + constructor; [|done]. unfold block_of. rewrite Hb. cbn [mbind option_bind].
      rewrite Ety. cbn [mbind option_bind]. rewrite Hl. cbn [mbind option_bind]. by rewrite Hm.
    + unfold load, gets, mbind, M_bind. rewrite Hb. cbn [unwrap]. unfold mret, M_ret.
      rewrite Ety. cbn [unwrap]. unfold mret, M_ret. rewrite Hl. cbn [unwrap].
      unfold mret, M_ret. rewrite Hr. cbn [fst snd]. rewrite Hrun.
      cbn [concat_text foldr]. by rewrite !str_app_assoc.
Qed.

(** C26: in a reachable state the dot output of a brick ends, and holds once the node and
    the links of every brick connected to it, and nothing else. *)
Theorem brick_dot_correct st p :
  Inv all st → is_Some (bricks st !! p) →
  ∃ order blocks, NoDup order ∧ (∀ x, x ∈ order ↔ connected all st p x) ∧
    Forall2 (λ x t, block_of st x = Some t) order blocks ∧
    pg_brick_dot p st = Some (dot_header +:+ concat_text blocks +:+ "}" +:+ newline, st).
Proof.
  intros Hinv Hp. destruct (dot_loop_spec st p (S (size (bricks st))) [p] [] dot_header Hinv Hp)
    as (order&blocks&Hnd&Hto&Hco&Hcl&Hbl&Hr).
  - apply NoDup_singleton.
  - intros x ->%list_elem_of_singleton. apply rtc_refl.
  - set_solver.
  - cbn. lia.
  - exists order, blocks. split; [done|]. split; [|split; [done|]].
    + intros x. split; [apply Hco|]. cbn [app] in Hcl. revert x.
      apply rtc_ind_r; [apply Hto; by left|eauto].
    + unfold pg_brick_dot, gets, mbind, M_bind. rewrite Hr. unfold mret, M_ret.
      by rewrite str_app_assoc.
Qed.

End Dot.

(** ** An example *)

Lemma brick_dot_correct_witness :
  ∃ order blocks, NoDup order ∧ 3%positive ∈ order ∧
    pg_brick_dot demo_ops 2 demo_linked =
    Some (dot_header +:+ concat_text blocks +:+ "}" +:+ newline, demo_linked).
Proof.
  destruct (brick_dot_correct demo_ops demo_linked 2 demo_linked_Inv) as (order&blocks&Hnd&Ho&_&Hr).
  { vm_compute. eauto. }
  exists order, blocks. split; [exact Hnd|]. split; [|exact Hr].
  apply Ho, rtc_once. exists PG_EAST_SIDE, 0%nat, 0%nat. by vm_compute.
Defined.

(** A monopole at the western end of a link is drawn by its neighbour with the link on
    its east side, but by itself with the link on its west side. *)
Theorem dot_monopole_on_wrong_side :
  match pg_brick_link demo_ops (Some 3%positive) (Some 2%positive) demo_state with
  | Some (0, st) =>
      slot demo_ops st 3 PG_EAST_SIDE 0 = Some (2%positive, 0%nat) ∧
      line_of demo_ops st 2 (PG_WEST_SIDE, 3%positive)
      = Some (dot_line "hub" "hub1" PG_WEST_SIDE "rxtx" "rxtx1") ∧
      (bricks st !! 3%positive ≫= dot_links) = Some [(PG_WEST_SIDE, 2%positive)]
  | _ => False
  end.
Proof. vm_compute. done. Qed.
