(* ===== verification/Errors.v ===== *)
(** * The memory of errors and of configurations ([src/utils/errors.c], [src/utils/config.c])

    The other files see an error and a configuration as values. Here they are what the code
    makes of them: structures on the heap of glib with strings of their own, which
    [pg_error_prepend] replaces and [pg_error_free] and [pg_brick_config_free] release. *)

From stdpp Require Import pretty.
From S2P Require Import Prelude Common MacText.

(** ** The heap *)

Definition addr := positive.

(** [struct pg_error_context] and [struct pg_error]. *)
Record pg_error_context := mk_ctx {
  file : option addr;
  has_line : Z;
  line : Z;
  function : option addr;
}.

Record error_cell := mk_error_cell {
  context : pg_error_context;
  err_message : option addr;
  has_err_no : Z;
  errno : Z;
}.

(** [struct pg_brick_config]; the callback [brick_config_free] is a function pointer. *)
Record config_cell := mk_config_cell {
  c_name : option addr;
  c_west_max : Z;
  c_east_max : Z;
  c_brick_config : option addr;
  c_brick_config_free : option addr;
  c_type : pg_brick_type;
}.

(** A block of memory: a string, an error, a configuration or private data of a brick. *)
Inductive cell :=
  | CStr (s : string)
  | CErr (e : error_cell)
  | CCfg (c : config_cell)
  | CPriv (l : list Z).

Abbreviation heap := (gmap addr cell).

(** [g_new0], [g_strdup] and [g_strdup_printf] never fail; [g_free] does nothing on NULL, and
    a block that is not allocated must not be freed. *)
Definition g_alloc (c : cell) : M heap addr :=
  p ← gets (λ h, fresh (dom h)); modify (λ h, <[p := c]> h);; mret p.

Definition g_strdup (s : option string) : M heap (option addr) :=
  match s with None => mret None | Some s => p ← g_alloc (CStr s); mret (Some p) end.

Definition g_free (p : option addr) : M heap unit :=
  match p with
  | None => mret tt
  | Some p => c ← gets (λ h, h !! p); _ ← unwrap c; modify (λ h, delete p h)
  end.

Definition load_error (p : addr) : M heap error_cell :=
  c ← gets (λ h, h !! p); match c with Some (CErr e) => mret e | _ => crash end.

Definition store_error (p : addr) (e : error_cell) : M heap unit :=
  modify (λ h, <[p := CErr e]> h).

(** The text at an address, as [%s] reads it; [printf] writes "(null)" for NULL. *)
Definition text_at (p : option addr) : M heap string :=
  match p with
  | None => mret "(null)"
  | Some p => c ← gets (λ h, h !! p); match c with Some (CStr s) => mret s | _ => crash end
  end.

(** ** Errors *)

(** [__pg_error_new]; the message is what the format and its arguments give. *)
Definition __pg_error_new (err_no : Z) (f : option string) (ln : Z) (fn : option string) (msg : string)
    : M heap addr :=
  e ← g_alloc (CErr (mk_error_cell (mk_ctx None 0 0 None) None 0 0));
  pf ← g_strdup f;
  pfn ← g_strdup fn;
  pm ← g_alloc (CStr msg);
  store_error e (mk_error_cell (mk_ctx pf 1 (u64 ln) pfn) (Some pm) err_no err_no);;
  mret e.

Definition tab : string := String (char_of 9) EmptyString.
Definition newline : string := String (char_of 10) EmptyString.

(** [PG_SUB_ERROR_FMT]. *)
Definition PG_SUB_ERROR (f fn : string) (ln : Z) (m : string) : string :=
  newline +:+ tab +:+ "-- Error: file='" +:+ f +:+ "' function='" +:+ fn +:+ "' line=" +:+ pretty ln
  +:+ newline +:+ tab +:+ "   " +:+ m.

(** [pg_error_prepend_]: the line in the text is read from the error, after it was
    replaced. *)
Definition pg_error_prepend (e : addr) (f : string) (ln : Z) (fn : string) (msg : string)
    : M heap unit :=
  v ← load_error e;
  let file_tmp := file (context v) in
  let func_tmp := function (context v) in
  let msg_tmp := err_message v in
  pf ← g_strdup (Some f);
  pfn ← g_strdup (Some fn);
  tf ← text_at file_tmp;
  tfn ← text_at func_tmp;
  tm ← text_at msg_tmp;
  pm ← g_alloc (CStr (msg +:+ PG_SUB_ERROR tf tfn (u64 ln) tm));
  store_error e (mk_error_cell (mk_ctx pf 1 (u64 ln) pfn) (Some pm) (has_err_no v) (errno v));;
  g_free file_tmp;; g_free func_tmp;; g_free msg_tmp.

Definition pg_error_free (e : option addr) : M heap unit :=
  match e with
  | None => mret tt
  | Some e =>
      v ← load_error e;
      g_free (file (context v));; g_free (function (context v));;
      g_free (err_message v);; g_free (Some e)
  end.

(** [pg_error_print]: the text written to the standard error. *)
Definition pg_error_print (e : option addr) : M heap string :=
  match e with
  | None => mret ("Error is NULL" +:+ newline)
  | Some e =>
      v ← load_error e;
      f ← text_at (file (context v));
      fn ← text_at (function (context v));
      m ← text_at (err_message v);
      mret ("Error:  file='" +:+ f +:+ "' function='" +:+ fn +:+ "' line=" +:+ pretty (line (context v))
        +:+ " errno=" +:+ pretty (errno v) +:+ ":" +:+ newline +:+ tab +:+ m)
  end.

(** The global context of [pg_assert]: the position and [pg_error_assert_enable]. *)
Record assert_ctx := mk_assert_ctx { global_ctx : option (string * Z * string); assert_enable : bool }.

Definition pg_error_make_ctx_internal (f : string) (ln : Z) (fn : string) : assert_ctx :=
  mk_assert_ctx (Some (f, u64 ln, fn)) true.

(** [pg_assert]: [None] is [abort]. *)
Definition pg_assert (ctx : assert_ctx) (check : bool) : option unit :=
  if assert_enable ctx then if check then Some tt else None else None.

(** ** Configurations *)

Section Config.

(** What the callback at an address does. *)
Context (callback : addr → option addr → M heap unit).

Definition load_config (p : addr) : M heap config_cell :=
  c ← gets (λ h, h !! p); match c with Some (CCfg c) => mret c | _ => crash end.

(** [pg_brick_config_init] fills a structure whose private part the caller has set. *)
Definition pg_brick_config_init (config : addr) (nm : option string) (west_max east_max : Z)
    (ty : pg_brick_type) : M heap addr :=
  c ← load_config config;
  p ← g_strdup nm;
  modify (λ h, <[config :=
    CCfg (mk_config_cell p (u32 west_max) (u32 east_max) (c_brick_config c) None ty)]> h);;
  mret config.

(** [pg_brick_config_new]; the zeroed structure has no private part, and its type is the
    first of the enumeration. *)
Definition pg_brick_config_new (nm : option string) (west_max east_max : Z) (ty : pg_brick_type)
    : M heap addr :=
  config ← g_alloc (CCfg (mk_config_cell None 0 0 None None PG_MULTIPOLE));
  pg_brick_config_init config nm west_max east_max ty.

Definition pg_brick_config_free (config : addr) : M heap unit :=
  c ← load_config config;
  (match c_brick_config_free c with None => mret tt | Some f => callback f (c_brick_config c) end);;
  g_free (c_brick_config c);;
  g_free (c_name c);;
  g_free (Some config).

End Config.

(** ** Ownership *)

(** The heap [h] is [h0] with an error and its three strings. *)
Definition holds (h0 h : heap) (e : addr) (f : string) (ln : Z) (fn m : string) (no : Z) : Prop :=
  ∃ pf pfn pm, NoDup [e; pf; pfn; pm] ∧ Forall (λ p, h0 !! p = None) [e; pf; pfn; pm] ∧
    h = <[e := CErr (mk_error_cell (mk_ctx (Some pf) 1 ln (Some pfn)) (Some pm) no no)]>
          (<[pf := CStr f]> (<[pfn := CStr fn]> (<[pm := CStr m]> h0))).

(** Distinct and fresh addresses, one inequality each. *)
Ltac addresses :=
  repeat match goal with
  | H : NoDup (_ :: _) |- _ => apply NoDup_cons in H as [? H]; rewrite ?not_elem_of_cons in *
  | H : Forall _ (_ :: _) |- _ => apply Forall_cons in H as [? H]
  | H : <[_ := _]> _ !! _ = None |- _ => apply lookup_insert_None in H as [H ?]
  end; destruct_and?.

(** Equality of heaps, address by address. *)
Ltac heap_eq :=
  apply map_eq; intros ?i; rewrite ?lookup_delete, ?lookup_insert;
  repeat case_decide; simplify_eq; rewrite ?lookup_delete, ?lookup_insert; repeat case_decide;
  simplify_eq; try done; try congruence.

#[local] Arguments g_alloc : simpl never.
#[local] Arguments g_strdup : simpl never.
#[local] Arguments g_free : simpl never.
#[local] Arguments text_at : simpl never.

Lemma wp_alloc c h (Q : addr → heap → Prop) :
  (∀ p, h !! p = None → Q p (<[p := c]> h)) → wp (g_alloc c) Q h.
Proof.
  intros HQ. unfold g_alloc. wp_step. apply HQ. apply not_elem_of_dom. apply is_fresh.
Qed.

Lemma wp_free p c h (Q : unit → heap → Prop) :
  h !! p = Some c → Q tt (delete p h) → wp (g_free (Some p)) Q h.
Proof. intros Hp HQ. unfold g_free. wp_step. rewrite Hp. by wp_step. Qed.

Lemma wp_free_null h (Q : unit → heap → Prop) : wp (g_free None) Q h ↔ Q tt h.
Proof. done. Qed.
#[local] Hint Rewrite wp_free_null : wp.

Lemma wp_strdup s h (Q : option addr → heap → Prop) :
  (∀ p, h !! p = None → Q (Some p) (<[p := CStr s]> h)) → wp (g_strdup (Some s)) Q h.
Proof. intros HQ. unfold g_strdup. wp_step. apply wp_alloc. intros p Hp. wp_step. by apply HQ. Qed.

Lemma wp_text p s h (Q : string → heap → Prop) :
  h !! p = Some (CStr s) → Q s h → wp (text_at (Some p)) Q h.
Proof. intros Hp HQ. unfold text_at. wp_step. rewrite Hp. by wp_step. Qed.

Lemma new_holds no f ln fn msg h0 :
  wp (__pg_error_new no (Some f) ln (Some fn) msg)
    (λ e h, holds h0 h e f (u64 ln) fn msg no) h0.
Proof.
  unfold __pg_error_new, store_error. wp_step. apply wp_alloc. intros e He. wp_step.
  apply wp_strdup. intros pf Hpf. wp_step. apply wp_strdup. intros pfn Hpfn. wp_step.
  apply wp_alloc. intros pm Hpm. wp_step.
  addresses.
  exists pf, pfn, pm. split; [|split].
  - repeat (apply NoDup_cons; split; [set_solver|]). apply NoDup_nil_2.
  - repeat constructor; done.
  - heap_eq.
Qed.

Lemma prepend_holds h0 h e f ln fn m no f' ln' fn' msg :
  holds h0 h e f ln fn m no →
  wp (pg_error_prepend e f' ln' fn' msg)
    (λ _ h', holds h0 h' e f' (u64 ln') fn' (msg +:+ PG_SUB_ERROR f fn (u64 ln') m) no) h.
Proof.
  intros (pf&pfn&pm&Hnd&Hf&->). addresses. unfold pg_error_prepend, load_error, store_error.
  wp_step. rewrite lookup_insert_eq. wp_step.
  apply wp_strdup. intros qf Hqf. wp_step. apply wp_strdup. intros qfn Hqfn. wp_step.
  addresses.
  do 3 (eapply wp_text; [by simplify_map_eq|]; wp_step).
  apply wp_alloc. intros qm Hqm. addresses. wp_step.
  do 2 (eapply wp_free; [by simplify_map_eq|]; wp_step).
  eapply wp_free; [by simplify_map_eq|]. exists qf, qfn, qm. split; [|split].
  - repeat (apply NoDup_cons; split; [rewrite ?not_elem_of_cons; split_and?; try done;
      apply not_elem_of_nil|]). apply NoDup_nil_2.
  - by repeat constructor.
  - heap_eq.
Qed.

Lemma free_holds h0 h e f ln fn m no :
  holds h0 h e f ln fn m no → wp (pg_error_free (Some e)) (λ _ h', h' = h0) h.
Proof.
  intros (pf&pfn&pm&Hnd&Hf&->). addresses. unfold pg_error_free, load_error.
  wp_step. rewrite lookup_insert_eq. wp_step.
  do 4 (eapply wp_free; [by simplify_map_eq|]; wp_step). heap_eq.
Qed.

(** The text of an error. *)
Definition error_text (f : string) (ln : Z) (fn m : string) (no : Z) : string :=
  "Error:  file='" +:+ f +:+ "' function='" +:+ fn +:+ "' line=" +:+ pretty ln
  +:+ " errno=" +:+ pretty no +:+ ":" +:+ newline +:+ tab +:+ m.

Lemma print_holds h0 h e f ln fn m no :
  holds h0 h e f ln fn m no →
  wp (pg_error_print (Some e)) (λ t h', h' = h ∧ t = error_text f ln fn m no) h.
Proof.
  intros (pf&pfn&pm&Hnd&Hf&->). addresses. unfold pg_error_print, load_error.
  wp_step. rewrite lookup_insert_eq. wp_step.
  do 3 (eapply wp_text; [by simplify_map_eq|]; wp_step). done.
Qed.

(** A call of [pg_error_prepend]: file, line, function and message. *)
Record prefix := mk_prefix { p_file : string; p_line : Z; p_function : string; p_message : string }.

Fixpoint prepend_all (e : addr) (l : list prefix) : M heap unit :=
  match l with
  | [] => mret tt
  | x :: l => pg_error_prepend e (p_file x) (p_line x) (p_function x) (p_message x);; prepend_all e l
  end.

(** The position and the message after the prefixes. *)
Definition add_prefix (x : prefix) (s : string * Z * string * string) : string * Z * string * string :=
  let '(f, _, fn, m) := s in
  (p_file x, u64 (p_line x), p_function x,
   p_message x +:+ PG_SUB_ERROR f fn (u64 (p_line x)) m).

Lemma prepend_all_holds h0 h e f ln fn m no l :
  holds h0 h e f ln fn m no →
  wp (prepend_all e l) (λ _ h',
    let '(f', ln', fn', m') := foldl (flip add_prefix) (f, ln, fn, m) l in
    holds h0 h' e f' ln' fn' m' no) h.
Proof.
  revert h f ln fn m. induction l as [|x l IH]; intros h f ln fn m Hh; cbn [prepend_all foldl].
  { by wp_step. }
  rewrite wp_bind. eapply wp_mono; [by eapply prepend_holds|]. intros ? h' Hh'. by apply IH.
Qed.

(** The life of an error that is made, given prefixes on its way up, printed and freed. *)
Definition error_story (no : Z) (f : string) (ln : Z) (fn m : string) (l : list prefix)
    : M heap string :=
  e ← __pg_error_new no (Some f) ln (Some fn) m;
  prepend_all e l;;
  t ← pg_error_print (Some e);
  pg_error_free (Some e);;
  mret t.

(** An error can be made, extended any number of times, printed and freed without a
    double free and without a leak: the heap is what it was, and the text has the position
    of the last prefix and every message. *)
Theorem error_memory_balanced no f ln fn m l h :
  ∃ t, error_story no f ln fn m l h = Some (t, h) ∧
    t = let '(f', ln', fn', m') := foldl (flip add_prefix) (f, u64 ln, fn, m) l in
        error_text f' ln' fn' m' no.
Proof.
  assert (wp (error_story no f ln fn m l) (λ t h', h' = h ∧
    t = let '(f', ln', fn', m') := foldl (flip add_prefix) (f, u64 ln, fn, m) l in
        error_text f' ln' fn' m' no) h) as Hw.
  { unfold error_story. rewrite wp_bind. eapply wp_mono; [apply new_holds|]. intros e h1 H1.
    rewrite wp_bind. eapply wp_mono; [eapply prepend_all_holds; exact H1|]. intros ? h2.
    destruct (foldl _ _ l) as [[[f' ln'] fn'] m']. intros H2. rewrite wp_bind.
    eapply wp_mono; [by eapply (print_holds h)|]. intros t ? [-> ->]. rewrite wp_bind.
    eapply wp_mono; [by eapply (free_holds h)|]. intros ? ? ->. by rewrite wp_ret. }
  apply wp_run in Hw as (t&h'&Hr&->&Ht). eauto.
Qed.

(** The line of the error that was extended is lost: the text shows the line of the prefix
    twice. *)
Theorem prepend_wrong_line :
  fst <$> error_story 0 "a.c" 10 "f" "m" [mk_prefix "b.c" 20 "g" "p"] ∅ =
  Some (error_text "b.c" 20 "g" ("p" +:+ PG_SUB_ERROR "a.c" "f" 20 "m") 0).
Proof. vm_compute. reflexivity. Qed.

(** Freeing the same error twice is a double free. *)
Lemma error_double_free h0 h e f ln fn m no :
  holds h0 h e f ln fn m no → wp (pg_error_free (Some e)) (λ _ h', pg_error_free (Some e) h' = None) h.
Proof.
  intros Hh. pose proof Hh as (pf&pfn&pm&Hnd&Hf&_). eapply wp_mono; [by eapply free_holds|].
  intros ? ? ->. addresses. unfold pg_error_free, load_error, mbind, M_bind, gets.
  match goal with H : h0 !! e = None |- _ => by rewrite H end.
Qed.

(** A configuration is freed with its name and its private part; the callback is NULL in
    all configurations of the library. *)
Lemma config_memory_balanced callback nm west_max east_max ty h :
  wp (c ← pg_brick_config_new nm west_max east_max ty; pg_brick_config_free callback c)
    (λ _ h', h' = h) h.
Proof.
  unfold pg_brick_config_new, pg_brick_config_init, load_config. wp_step.
  apply wp_alloc. intros p Hp. wp_step. rewrite lookup_insert_eq. wp_step.
  assert (∀ o h', h' = <[p := CCfg (mk_config_cell o (u32 west_max) (u32 east_max) None None ty)]>
      (match o with Some q => <[q := CStr (default "" nm)]> h | None => h end) →
      (∀ q, o = Some q → h !! q = None ∧ p ≠ q) →
      wp (pg_brick_config_free callback p) (λ _ h', h' = h) h') as Hfree.
  { intros o h' -> Hq. unfold pg_brick_config_free, load_config. wp_step. rewrite lookup_insert_eq.
    wp_step. destruct o as [q|].
    - destruct (Hq q eq_refl) as [Hhq Hpq].
      do 2 (eapply wp_free; [by simplify_map_eq|]; wp_step). heap_eq.
    - wp_step. eapply wp_free; [by simplify_map_eq|]. heap_eq. }
  destruct nm as [s|].
  - apply wp_strdup. intros q Hq. addresses. wp_step. apply (Hfree (Some q)); [|naive_solver].
    cbn [default]. heap_eq.
  - unfold g_strdup. wp_step. apply (Hfree None); [|naive_solver]. heap_eq.
Qed.
