(* ===== verification/Lifecycle.v ===== *)
(** * The life of the process ([src/lifecycle.c], [src/seccomp.c], [src/utils/mempool.c])

    Starting and stopping the library, and the filter of system calls. The filter is a
    program for the packet filter machine of the kernel; [bpf_run] is that machine for the
    instructions the program has. *)

From S2P Require Import Prelude Common Brick.

(** ** The filter of system calls *)

(** [struct seccomp_data], as far as the filter reads it. *)
Record seccomp_data := mk_seccomp_data { nr : Z; arch : Z }.

(** Classic BPF: load a word of the data, compare the accumulator and skip, return. *)
Inductive sock_filter :=
  | LD_W_ABS (k : Z)
  | JEQ_K (k : Z) (jt jf : nat)
  | RET_K (k : Z).

Definition syscall_nr : Z := 0.
Definition arch_nr : Z := 4.

(** A word of the data; the rest of the structure is not read. *)
Definition data_word (d : seccomp_data) (off : Z) : option Z :=
  if off =? syscall_nr then Some (u32 (nr d)) else if off =? arch_nr then Some (u32 (arch d)) else None.

(** A jump goes forward, so the length of the program bounds the steps. *)
Fixpoint bpf_run (fuel : nat) (prog : list sock_filter) (d : seccomp_data) (a : Z) : option Z :=
  match fuel, prog with
  | S fuel, LD_W_ABS k :: prog => w ← data_word d k; bpf_run fuel prog d w
  | S fuel, JEQ_K k jt jf :: prog => bpf_run fuel (drop (if a =? k then jt else jf) prog) d a
  | S fuel, RET_K k :: _ => Some k
  | _, _ => None
  end.

Definition run_filter (prog : list sock_filter) (d : seccomp_data) : option Z :=
  bpf_run (length prog) prog d 0.

Definition SECCOMP_RET_KILL : Z := 0.
Definition SECCOMP_RET_ALLOW : Z := 0x7fff0000.

(** The system calls of [pg_init_seccomp], in order. *)
Definition allowed_syscalls : list string :=
  ["exit_group"; "exit"; "read"; "write"; "open"; "openat"; "close"; "fstat"; "lstat"; "lseek";
   "poll"; "mmap"; "munmap"; "brk"; "rt_sigaction"; "rt_sigprocmask"; "ioctl"; "access"; "pipe";
   "sched_yield"; "dup"; "dup2"; "nanosleep"; "socket"; "sendto"; "recvmsg"; "set_mempolicy";
   "recvfrom"; "bind"; "listen"; "getsockname"; "clone"; "wait4"; "kill"; "fcntl"; "fsync";
   "ftruncate"; "getdents"; "getdents64"; "rename"; "unlink"; "fstatfs"; "gettid"; "getpid"; "futex";
   "sched_setaffinity"; "tgkill"; "set_robust_list"; "fallocate"; "prctl"; "move_pages"; "flock";
   "gettimeofday"; "stat"; "clock_gettime"].

Inductive prctl_request :=
  | SET_NO_NEW_PRIVS
  | SET_SECCOMP_FILTER (len : Z) (prog : list sock_filter).

Section Seccomp.

(** [__NR_##name] and [ARCH_NR] of the headers of the kernel. *)
Context (NR : string → Z) (ARCH_NR : Z).

Definition VALIDATE_ARCHITECTURE : list sock_filter :=
  [LD_W_ABS arch_nr; JEQ_K ARCH_NR 1 0; RET_K SECCOMP_RET_KILL].
Definition EXAMINE_SYSCALL : list sock_filter := [LD_W_ABS syscall_nr].
Definition ALLOW_SYSCALL (nm : string) : list sock_filter :=
  [JEQ_K (NR nm) 0 1; RET_K SECCOMP_RET_ALLOW].
Definition KILL_PROCESS : list sock_filter := [RET_K SECCOMP_RET_KILL].

Definition seccomp_filter : list sock_filter :=
  VALIDATE_ARCHITECTURE ++ EXAMINE_SYSCALL ++ mjoin (ALLOW_SYSCALL <$> allowed_syscalls) ++ KILL_PROCESS.

(** [pg_init_seccomp]; [prctl] is the system call. *)
Definition pg_init_seccomp {St} (prctl : prctl_request → M St Z) : M St Z :=
  r ← prctl SET_NO_NEW_PRIVS;
  if negb (r =? 0) then mret (-1)
  else
    r ← prctl (SET_SECCOMP_FILTER (u16 (Z.of_nat (length seccomp_filter))) seccomp_filter);
    if negb (r =? 0) then mret (-1) else mret 0.

Lemma allow_run fuel l d a :
  (2 * length l + 1 ≤ fuel)%nat →
  bpf_run fuel (mjoin (ALLOW_SYSCALL <$> l) ++ KILL_PROCESS) d a =
  Some (if decide (a ∈ NR <$> l) then SECCOMP_RET_ALLOW else SECCOMP_RET_KILL).
Proof.
  revert fuel. induction l as [|x l IH]; intros fuel Hf; (destruct fuel as [|fuel]; [cbn in Hf; lia|]).
  { rewrite decide_False; [done|]. cbn. apply not_elem_of_nil. }
  cbn [fmap list_fmap mjoin list_join ALLOW_SYSCALL app bpf_run]. destruct (Z.eqb_spec a (NR x)) as [->|Hn].
  - cbn [drop]. destruct fuel as [|fuel]; [cbn in Hf; lia|]. cbn [bpf_run].
    rewrite decide_True; [done|]. by left.
  - cbn [drop]. change (map NR l) with (NR <$> l). rewrite IH by (cbn in Hf; lia). f_equal. apply decide_ext.
    rewrite elem_of_cons. split; [by right|by intros [?|?]].
Qed.

Lemma filter_run l d :
  run_filter (VALIDATE_ARCHITECTURE ++ EXAMINE_SYSCALL ++ mjoin (ALLOW_SYSCALL <$> l) ++ KILL_PROCESS) d =
  Some (if decide (u32 (arch d) = ARCH_NR ∧ u32 (nr d) ∈ NR <$> l)
        then SECCOMP_RET_ALLOW else SECCOMP_RET_KILL).
Proof.
  assert (length (mjoin (ALLOW_SYSCALL <$> l)) = 2 * length l)%nat as Hl.
  { induction l as [|x l IH]; [done|].
    change (mjoin _) with (ALLOW_SYSCALL x ++ mjoin (ALLOW_SYSCALL <$> l)). rewrite length_app, IH. cbn. lia. }
  unfold run_filter. rewrite !length_app, Hl. cbn [length VALIDATE_ARCHITECTURE EXAMINE_SYSCALL KILL_PROCESS].
  set (prog := mjoin _ ++ _). set (k := (2 * length l + 1)%nat).
  transitivity (if u32 (arch d) =? ARCH_NR then bpf_run (S k) prog d (u32 (nr d)) else Some SECCOMP_RET_KILL).
  { cbv [Nat.add VALIDATE_ARCHITECTURE EXAMINE_SYSCALL]. cbn [app bpf_run data_word].
    change (data_word d arch_nr) with (Some (u32 (arch d))). cbn [mbind option_bind].
    by destruct (u32 (arch d) =? ARCH_NR). }
  destruct (Z.eqb_spec (u32 (arch d)) ARCH_NR) as [Ha|Ha].
  - subst prog k. rewrite allow_run by lia. f_equal. apply decide_ext. naive_solver.
  - rewrite decide_False by naive_solver. done.
Qed.

(** C28: under the filter a system call goes through exactly when it is made for the expected
    architecture and its number is one of the list; every other one kills the process. *)
Theorem seccomp_allows_exactly d :
  run_filter seccomp_filter d =
  Some (if decide (u32 (arch d) = ARCH_NR ∧ u32 (nr d) ∈ NR <$> allowed_syscalls)
        then SECCOMP_RET_ALLOW else SECCOMP_RET_KILL).
Proof. apply filter_run. Qed.

End Seccomp.

(** ** Start and stop *)

(** What DPDK and glib do: [mp_hdlr_init_ops_stack], [rte_eal_init], [rte_mempool_create]
    ([None] for NULL) of the flags, and [g_shell_parse_argv] ([None] for an error). *)
Class EalLib (W : Type) := {
  init_ops_stack : W → W;
  rte_eal_init : list string → W → Z * W;
  rte_mempool_create : Z → W → option Z * W;
  g_shell_parse_argv : string → option (list string);
}.

Section Process.

Context {W B : Type} `{!EalLib W}.

(** The globals: [pg_all_bricks], [mp], [pg_glob_dpdk_argv], and the arrays of strings
    that are allocated. *)
Record process := mk_process {
  pg_all_bricks : list B;
  mp : option Z;
  pg_glob_dpdk_argv : option positive;
  argvs : gmap positive (list string);
  eal : W;
}.
Implicit Types pr : process.

(** [pg_brick_register]: run for each brick when the program is loaded. *)
Definition pg_brick_register pr (ops : B) : process :=
  mk_process (pg_all_bricks pr ++ [ops]) (mp pr) (pg_glob_dpdk_argv pr) (argvs pr) (eal pr).

Definition MEMPOOL_F_NO_PHYS_CONTIG : Z := 32.

(** [pg_alloc_mempool]: the assertion fails without a pool. *)
Definition pg_alloc_mempool (flags : Z) : M process unit := λ pr,
  let '(o, w) := rte_mempool_create flags (eal pr) in
  match o with
  | Some p => Some (tt, mk_process (pg_all_bricks pr) (Some p) (pg_glob_dpdk_argv pr) (argvs pr) w)
  | None => None
  end.

(** The flags after the loop over the arguments from the second one. *)
Definition start_flags (argv : list string) : Z :=
  foldl (λ flags a, if String.eqb a "--no-huge" then Z.lor flags MEMPOOL_F_NO_PHYS_CONTIG else flags)
    0 (tail argv).

Definition pg_start (argv : list string) : M process Z :=
  let flags := start_flags argv in
  ret ← (λ pr, let '(r, w) := rte_eal_init argv (init_ops_stack (eal pr)) in
           Some (r, mk_process (pg_all_bricks pr) (mp pr) (pg_glob_dpdk_argv pr) (argvs pr) w));
  pg_alloc_mempool flags;;
  mret ret.

(** The array [pg_glob_dpdk_argv2] and the copy of [n] pointers into it; [None] is a write
    past its end. *)
Definition ARGV2_SIZE : nat := 128.

Definition copy_argv (argv : list string) (n : nat) : M process (list string) :=
  massert (n <=? ARGV2_SIZE)%nat;; mret argv.

Definition pg_start_str (dpdk_args : string) : M process Z :=
  match g_shell_parse_argv (String.append "dpdk " dpdk_args) with
  | None => mret (-1)
  | Some argv =>
      modify (λ pr, let p := fresh (dom (argvs pr)) in
        mk_process (pg_all_bricks pr) (mp pr) (Some p) (<[p := argv]> (argvs pr)) (eal pr));;
      if (127 <? Z.of_nat (length argv)) then mret (-1)
      else copy ← copy_argv argv (length argv + 1); pg_start copy
  end.

(** [pg_stop]: [g_strfreev] frees an array, or nothing when it is given NULL. *)
Definition pg_stop : M process unit := λ pr,
  match pg_glob_dpdk_argv pr with
  | None => Some (tt, mk_process [] (mp pr) None (argvs pr) (eal pr))
  | Some p =>
      match argvs pr !! p with
      | Some _ => Some (tt, mk_process [] (mp pr) (Some p) (delete p (argvs pr)) (eal pr))
      | None => None
      end
  end.

(** The pool avoids contiguous physical memory exactly when an argument after the name of
    the program is [--no-huge]. *)
Lemma start_flags_spec argv :
  start_flags argv = if decide ("--no-huge" ∈ tail argv) then MEMPOOL_F_NO_PHYS_CONTIG else 0.
Proof.
  unfold start_flags. generalize (tail argv). intros l.
  assert (∀ l f, (f = 0 ∨ f = 32) →
    foldl (λ flags a, if String.eqb a "--no-huge" then Z.lor flags MEMPOOL_F_NO_PHYS_CONTIG else flags) f l
    = if decide ("--no-huge" ∈ l) then 32 else f) as H; [|apply H; by left].
  clear l. intros l. induction l as [|a l IH]; intros f Hf; cbn [foldl].
  { rewrite decide_False; [done|]. apply not_elem_of_nil. }
  destruct (String.eqb_spec a "--no-huge") as [->|Hn].
  - rewrite IH by (destruct Hf as [->| ->]; by right). rewrite (decide_True _ _ (list_elem_of_here _ _)).
    case_decide; [done|]. by destruct Hf as [->| ->].
  - rewrite IH by done. f_equal. apply decide_ext. rewrite elem_of_cons. naive_solver.
Qed.

(** Whatever the arguments, starting from a string stays within its array of pointers:
    too many arguments are refused, and otherwise the library starts with the arguments
    that were parsed. *)
Theorem start_str_in_bounds args pr :
  (∀ flags w, is_Some (fst (rte_mempool_create flags w))) →
  ∃ r pr', pg_start_str args pr = Some (r, pr') ∧
    match g_shell_parse_argv (String.append "dpdk " args) with
    | None => r = -1 ∧ pr' = pr
    | Some argv =>
        (∃ p, pg_glob_dpdk_argv pr' = Some p ∧ argvs pr !! p = None ∧ argvs pr' = <[p := argv]> (argvs pr)) ∧
        if decide (length argv ≤ 127)%nat
        then r = fst (rte_eal_init argv (init_ops_stack (eal pr))) ∧ is_Some (mp pr')
        else r = -1
    end.
Proof.
  intros Hmp. unfold pg_start_str. destruct (g_shell_parse_argv _) as [argv|]; [|by eexists _, _].
  unfold mbind, M_bind, modify. cbv beta iota zeta. set (p := fresh (dom (argvs pr))).
  assert (argvs pr !! p = None) as Hp by (apply not_elem_of_dom, is_fresh).
  destruct (Z.ltb_spec 127 (Z.of_nat (length argv))) as [Hl|Hl].
  - eexists _, _. split; [done|]. split; [by exists p|]. by rewrite decide_False by lia.
  - unfold copy_argv, mbind, M_bind. rewrite (proj2 (Nat.leb_le _ _)) by (unfold ARGV2_SIZE; lia).
    cbn [massert]. unfold mret, M_ret, pg_start, mbind, M_bind. cbn [eal pg_all_bricks mp pg_glob_dpdk_argv argvs].
    destruct (rte_eal_init argv (init_ops_stack (eal pr))) as [r w] eqn:He.
    unfold pg_alloc_mempool. cbn [eal pg_all_bricks mp pg_glob_dpdk_argv argvs].
    destruct (Hmp (start_flags argv) w) as [q Hq].
    destruct (rte_mempool_create (start_flags argv) w) as [o w']. cbn [fst] in Hq. subst o.
    eexists _, _. split; [done|]. split; [by exists p|]. rewrite decide_True by lia.
    split; [done|]. cbn. eauto.
Qed.

End Process.
Arguments process : clear implicits.

(** Once the library is stopped, no brick can be made: the bricks register only when the
    program is loaded. *)
Lemma stopped_makes_nothing {W X C} `{!EalLib W} (pr : process W (pg_brick_ops X C)) pr' nm c st :
  pg_stop pr = Some (tt, pr') →
  pg_brick_new (pg_all_bricks pr') (Some nm) (Some c) st =
  Some (None, mk_state (bricks st) (world st)
    (Some (pg_error_new ("Brick '" +:+ nm +:+ "' not found")))).
Proof.
  unfold pg_stop. destruct (pg_glob_dpdk_argv pr) as [p|]; [destruct (argvs pr !! p); [|done]|];
    by intros [= <-].
Qed.

(** ** Examples *)

(** A DPDK that starts unless it has no argument, and has memory when it started. *)
Definition demo_eal : EalLib bool := {|
  init_ops_stack w := w;
  rte_eal_init argv _ := if (length argv <=? 1)%nat then (-1, false) else (0, true);
  rte_mempool_create _ w := (Some 7, w);
  g_shell_parse_argv s := if String.eqb s "dpdk -c 1" then Some ["dpdk"; "-c"; "1"] else None;
|}.

Definition demo_process : process bool nat := mk_process [1; 2]%nat None None ∅ false.

Lemma start_str_in_bounds_witness :
  ∃ pr', pg_start_str (EalLib0 := demo_eal) "-c 1" demo_process = Some (0, pr') ∧ is_Some (mp pr').
Proof.
  destruct (start_str_in_bounds (EalLib0 := demo_eal) "-c 1" demo_process) as (r&pr'&Hr&_&Hp).
  - intros flags w. cbn. eauto.
  - exists pr'. destruct Hp as [-> Hm]. split; [exact Hr|exact Hm].
Defined.

(** [pg_stop] keeps the pointer it has freed: stopping twice frees the arguments twice. *)
Theorem stop_twice_double_free :
  match pg_start_str (EalLib0 := demo_eal) "-c 1" demo_process with
  | Some (0, pr) => (pg_stop;; pg_stop) pr = None ∧ is_Some (pg_stop pr)
  | _ => False
  end.
Proof. vm_compute. eauto. Qed.

(** A pool is asked for even when [rte_eal_init] has failed: without memory the process
    aborts, although the error is reported by the result. *)
Definition no_memory : EalLib bool := {|
  init_ops_stack w := w;
  rte_eal_init _ _ := (-1, false);
  rte_mempool_create _ w := (if w then Some 7 else None, w);
  g_shell_parse_argv s := None;
|}.

Theorem failed_start_aborts : pg_start (EalLib0 := no_memory) ["dpdk"] demo_process = None.
Proof. vm_compute. reflexivity. Qed.
