(* ===== verification/Lpm.v ===== *)
(** * Longest prefix match ([src/npf/liblpm/src/lpm.c])

    The table of address prefixes that the firewall library uses: a hash map for each prefix
    length, and a bit mask of the lengths in use. An address is the array of 32-bit words
    that the code reads it as, so that its length in bytes is four times that of the list.
    Values are the [void *] of the caller, with [null] for NULL. *)

From S2P Require Import Prelude Bitmask Packets MacText.

Definition LPM_MAX_PREFIX : nat := 128.
Definition LPM_MAX_WORDS : nat := 4.
Definition LPM_HASH_STEP : Z := 8.

Section Lpm.

Context {V : Type} (null : V).

(** ** Data *)

(** [lpm_ent_t]; [next] is the rest of the chain. A value that was not written yet is
    [None]. *)
Record lpm_ent := mk_ent { e_key : list Z; e_val : option V }.

(** [lpm_hmap_t]: each bucket is a chain, the bucket array of a map that was never used is
    NULL. *)
Record lpm_hmap := mk_hmap { hashsize : Z; nitems : Z; bucket : list (list lpm_ent) }.

Record lpm := mk_lpm { bitmask : list Z; defval : V; prefix : list lpm_hmap }.

Definition empty_hmap : lpm_hmap := mk_hmap 0 0 [].

Definition lpm_create : lpm :=
  mk_lpm (replicate LPM_MAX_WORDS 0) null (replicate (LPM_MAX_PREFIX + 1) empty_hmap).

(** [lpm_clear]: the entries given to the destructor, in order, and the table. *)
Definition lpm_clear (t : lpm) : list lpm_ent * lpm :=
  (mjoin (mjoin ∘ bucket <$> prefix t),
   mk_lpm (replicate LPM_MAX_WORDS 0) null
     ((λ h, if hashsize h =? 0 then h else empty_hmap) <$> prefix t)).

(** ** Hash maps *)

Definition key_bytes (key : list Z) : list Z := mjoin (le32 <$> key).

Definition fnv1a_hash (key : list Z) : Z :=
  foldl (λ hash b, u32 (Z.lxor hash b * 16777619)) 2166136261 (key_bytes key).

(** The position of a key: [hash & (hashsize - 1)] on unsigned integers. *)
Definition bucket_of (size : Z) (key : list Z) : nat :=
  Z.to_nat (Z.land (fnv1a_hash key) (u32 (size - 1))).

(** The loop that doubles [hashsize]; it does not end when no power of two fits. *)
Fixpoint grow_size (fuel : nat) (hashsize size : Z) : option Z :=
  match fuel with
  | O => None
  | S fuel => if hashsize <? size then grow_size fuel (u32 (2 * hashsize)) size else Some hashsize
  end.

(** An entry put in front of its chain; [None] is an access out of the array. *)
Definition push_entry (size : Z) (bk : list (list lpm_ent)) (e : lpm_ent) : option (list (list lpm_ent)) :=
  let i := bucket_of size (e_key e) in
  c ← bk !! i; Some (<[i := e :: c]> bk).

Fixpoint push_all_entries (size : Z) (bk : list (list lpm_ent)) (l : list lpm_ent)
    : option (list (list lpm_ent)) :=
  match l with
  | [] => Some bk
  | e :: l => bk ← push_entry size bk e; push_all_entries size bk l
  end.

(** [hashmap_rehash]; [calloc_ok] tells whether [calloc] gives memory. *)
Definition hashmap_rehash (calloc_ok : bool) (h : lpm_hmap) (size : Z) : option (bool * lpm_hmap) :=
  hs ← grow_size 33 1 size;
  if negb calloc_ok then Some (false, h)
  else
    bk ← push_all_entries hs (replicate (Z.to_nat hs) []) (mjoin (bucket h));
    Some (true, mk_hmap hs (nitems h) bk).

(** The walk over a chain: the position of the entry of a key. *)
Fixpoint find_entry (c : list lpm_ent) (key : list Z) : option nat :=
  match c with
  | [] => None
  | e :: c => if bool_decide (e_key e = key) then Some O else S <$> find_entry c key
  end.

(** [hashmap_insert]: the place of the entry, bucket and position, or [None] for NULL. *)
Definition hashmap_insert (calloc_ok malloc_ok : bool) (h : lpm_hmap) (key : list Z)
    : option (option (nat * nat) * lpm_hmap) :=
  let target := u32 (nitems h + LPM_HASH_STEP) in
  r ← (if hashsize h <? target then hashmap_rehash calloc_ok h target else Some (true, h));
  if negb (fst r) then Some (None, snd r)
  else
    let h := snd r in
    let i := bucket_of (hashsize h) key in
    c ← bucket h !! i;
    match find_entry c key with
    | Some j => Some (Some (i, j), h)
    | None =>
        if malloc_ok then
          Some (Some (i, O), mk_hmap (hashsize h) (u32 (nitems h + 1)) (<[i := mk_ent key None :: c]> (bucket h)))
        else Some (None, h)
    end.

Definition hashmap_lookup (h : lpm_hmap) (key : list Z) : option (option lpm_ent) :=
  c ← bucket h !! bucket_of (hashsize h) key;
  Some (find_entry c key ≫= (c !!.)).

(** [hashmap_remove]; [nitems] stays as it is. *)
Definition hashmap_remove (h : lpm_hmap) (key : list Z) : option (Z * lpm_hmap) :=
  let i := bucket_of (hashsize h) key in
  c ← bucket h !! i;
  match find_entry c key with
  | Some j => Some (0, mk_hmap (hashsize h) (nitems h) (<[i := take j c ++ drop (S j) c]> (bucket h)))
  | None => Some (-1, h)
  end.

(** [entry->val = val] through the pointer [hashmap_insert] returned. *)
Definition set_val (h : lpm_hmap) (place : nat * nat) (v : V) : option lpm_hmap :=
  c ← bucket h !! fst place;
  e ← c !! snd place;
  Some (mk_hmap (hashsize h) (nitems h)
    (<[fst place := <[snd place := mk_ent (e_key e) (Some v)]> c]> (bucket h))).

(** ** Prefixes *)

(** [htonl(0xffffffff << (32 - preflen))], on a little-endian host. *)
Definition prefix_mask (preflen : Z) : Z := PG_CPU_TO_BE_32 (u32 (Z.shiftl 0xffffffff (32 - preflen))).

Fixpoint compute_prefix (addr : list Z) (preflen : Z) : list Z :=
  match addr with
  | [] => []
  | a :: addr =>
      if preflen =? 0 then 0 :: compute_prefix addr 0
      else if preflen <? 32 then Z.land a (prefix_mask preflen) :: compute_prefix addr 0
      else a :: compute_prefix addr (preflen - 32)
  end.

(** ** The table *)

Definition upd_prefix (t : lpm) (n : nat) (h : lpm_hmap) : lpm :=
  mk_lpm (bitmask t) (defval t) (<[n := h]> (prefix t)).

(** [lpm_insert] of an address in words, with the results of its allocations. *)
Definition lpm_insert (calloc_ok malloc_ok : bool) (t : lpm) (addr : list Z) (preflen : nat) (v : V)
    : option (Z * lpm) :=
  match preflen with
  | O => Some (0, mk_lpm (bitmask t) v (prefix t))
  | S p =>
      let pfx := compute_prefix addr (Z.of_nat preflen) in
      h ← prefix t !! preflen;
      r ← hashmap_insert calloc_ok malloc_ok h pfx;
      match fst r with
      | None => Some (-1, upd_prefix t preflen (snd r))
      | Some place =>
          let n := (p / 32)%nat in
          b ← bitmask t !! n;
          h ← set_val (snd r) place v;
          Some (0, mk_lpm (<[n := Z.lor b (Z.shiftr 0x80000000 (Z.of_nat (p mod 32)))]> (bitmask t))
                     (defval t) (<[preflen := h]> (prefix t)))
      end
  end.

Definition lpm_remove (t : lpm) (addr : list Z) (preflen : nat) : option (Z * lpm) :=
  match preflen with
  | O => Some (0, mk_lpm (bitmask t) null (prefix t))
  | _ =>
      h ← prefix t !! preflen;
      r ← hashmap_remove h (compute_prefix addr (Z.of_nat preflen));
      Some (fst r, upd_prefix t preflen (snd r))
  end.

(** [ffs]. *)
Definition ffs (m : Z) : nat := if m =? 0 then O else S (ctz64 m).

(** The inner loop of [lpm_lookup] over the lengths of a word; the first [option] is a
    crash, the second the value found, the third a value that was never written. *)
Fixpoint lookup_word (fuel : nat) (t : lpm) (addr : list Z) (n : nat) (m : Z)
    : option (option (option V)) :=
  match fuel with
  | O => None
  | S fuel =>
      match ffs m with
      | O => Some None
      | S i =>
          let preflen := (32 * n + (32 - i))%nat in
          h ← prefix t !! preflen;
          o ← hashmap_lookup h (compute_prefix addr (Z.of_nat preflen));
          match o with
          | Some e => Some (Some (e_val e))
          | None => lookup_word fuel t addr n (Z.land m (u32 (Z.lnot (Z.shiftl 1 (Z.of_nat i)))))
          end
      end
  end.

(** The outer loop: [while (n--)]. *)
Fixpoint lookup_words (t : lpm) (addr : list Z) (n : nat) : option (option V) :=
  match n with
  | O => Some (Some (defval t))
  | S n =>
      m ← bitmask t !! n;
      r ← lookup_word 33 t addr n m;
      match r with Some v => Some v | None => lookup_words t addr n end
  end.

(** [lpm_lookup]: [Some (Some v)] is the value returned. *)
Definition lpm_lookup (t : lpm) (addr : list Z) : option (option V) :=
  lookup_words t addr (length addr).

End Lpm.

(** ** Text *)

Definition INET6_ADDRSTRLEN : nat := 46.

(** The digits at the start of a string, and [atoi] on values an [int] holds. *)
Fixpoint digits (acc : Z) (s : string) : Z :=
  match s with
  | EmptyString => acc
  | String ch s => if (48 <=? code ch) && (code ch <=? 57) then digits (10 * acc + (code ch - 48)) s else acc
  end.

Definition atoi (s : string) : Z :=
  match skip_spaces s with
  | String ch r =>
      if code ch =? 45 then - digits 0 r else if code ch =? 43 then digits 0 r
      else digits 0 (String ch r)
  | EmptyString => 0
  end.

(** [lpm_strtobin]: the address, its length in bytes and that of the prefix, [None] for the
    result -1; the parameters are [inet_pton] for the two families. *)
Definition lpm_strtobin (inet_pton6 inet_pton4 : string → option (list Z)) (cidr : string)
    : option (list Z * nat * Z) :=
  let buf := String.substring 0 (INET6_ADDRSTRLEN - 1) cidr in
  let '(buf, preflen) :=
    match String.index 0 "/" buf with
    | Some off => (String.substring 0 off buf,
                   u32 (atoi (String.substring (S off) (String.length buf) buf)))
    | None => (buf, Z.of_nat LPM_MAX_PREFIX)
    end in
  match inet_pton6 buf with
  | Some a => Some (a, 16%nat, preflen)
  | None =>
      match inet_pton4 buf with
      | Some a => Some (a, 4%nat, if preflen =? Z.of_nat LPM_MAX_PREFIX then 32 else preflen)
      | None => None
      end
  end.
