(* ===== verification/LpmSpec.v ===== *)
(** * The table of prefixes is a longest prefix match

    The hash maps of [Lpm] hold what was inserted, whatever the order of insertions, removals
    and growths, and a lookup returns the value of the longest prefix that agrees with the
    address bit by bit. *)

From S2P Require Import Prelude Bitmask Packets Lpm.

Section Spec.

Context {V : Type} (null : V).
Abbreviation ent := (lpm_ent (V := V)).
Abbreviation hmap := (lpm_hmap (V := V)).
Implicit Types (h : hmap) (c : list ent) (bk : list (list ent)) (key : list Z) (e : ent).

(** ** Chains and buckets *)

Lemma find_entry_Some c key j :
  find_entry c key = Some j → ∃ e, c !! j = Some e ∧ e_key e = key.
Proof.
  revert j. induction c as [|e c IH]; intros j; cbn [find_entry]; [done|].
  case_bool_decide as He; [intros [= <-]; by exists e|].
  intros (j'&Hj&->)%fmap_Some. destruct (IH j' Hj) as (e'&?&?). by exists e'.
Qed.

Lemma find_entry_None c key : find_entry c key = None → ∀ e, e ∈ c → e_key e ≠ key.
Proof.
  induction c as [|e c IH]; cbn [find_entry]; [by intros _ e ?%not_elem_of_nil|].
  case_bool_decide as He; [done|]. intros Hf%fmap_None e' [->|Hin]%elem_of_cons; [done|]. by apply IH.
Qed.

(** The entries of a map, chain after chain, around one of its chains. *)
Lemma mjoin_at bk i c :
  bk !! i = Some c →
  ∃ l1 l2, mjoin bk = l1 ++ c ++ l2 ∧ ∀ c', mjoin (<[i := c']> bk) = l1 ++ c' ++ l2.
Proof.
  revert i. induction bk as [|c0 bk IH]; intros i Hi; [done|]. destruct i as [|i].
  - injection Hi as ->. exists [], (mjoin bk). done.
  - destruct (IH i Hi) as (l1&l2&H1&H2). exists (c0 ++ l1), l2. split.
    + change (mjoin (c0 :: bk)) with (c0 ++ mjoin bk). by rewrite H1, app_assoc.
    + intros c'. change (mjoin (<[S i := c']> (c0 :: bk))) with (c0 ++ mjoin (<[i := c']> bk)).
      by rewrite H2, app_assoc.
Qed.

Lemma elem_of_mjoin bk e : e ∈ mjoin bk ↔ ∃ i c, bk !! i = Some c ∧ e ∈ c.
Proof.
  rewrite list_elem_of_join. setoid_rewrite list_elem_of_lookup at 2. naive_solver.
Qed.

(** ** Hash maps *)

Definition size_ok (s : Z) : Prop := ∃ k : nat, (k ≤ 31)%nat ∧ s = 2 ^ Z.of_nat k.

Lemma bucket_of_lt s key : size_ok s → (bucket_of s key < Z.to_nat s)%nat.
Proof.
  intros (k&Hk&->). unfold bucket_of, u32.
  assert (0 < 2 ^ Z.of_nat k ≤ 2 ^ 31).
  { split; [lia|]. apply Z.pow_le_mono_r; lia. }
  rewrite Z.mod_small by lia.
  replace (2 ^ Z.of_nat k - 1) with (Z.ones (Z.of_nat k)) by (rewrite Z.ones_equiv; lia).
  rewrite Z.land_ones by lia.
  pose proof (Z.mod_pos_bound (fnv1a_hash key) (2 ^ Z.of_nat k) ltac:(lia)). lia.
Qed.

(** The size of a map is a power of two, its entries are in the bucket of their key, and
    no key has two. *)
Record hm_ok h : Prop := {
  ho_size : hashsize h = 0 ∧ bucket h = [] ∨ size_ok (hashsize h);
  ho_bucket : length (bucket h) = Z.to_nat (hashsize h);
  ho_placed i c e : bucket h !! i = Some c → e ∈ c → bucket_of (hashsize h) (e_key e) = i;
  ho_nodup : NoDup (e_key <$> mjoin (bucket h));
}.

Lemma hm_ok_empty : hm_ok empty_hmap.
Proof. split; [by left|done|done|constructor]. Qed.

Lemma hm_bucket h key :
  hm_ok h → hashsize h ≠ 0 → ∃ c, bucket h !! bucket_of (hashsize h) key = Some c.
Proof.
  intros Hh Hs. apply lookup_lt_is_Some. rewrite (ho_bucket _ Hh). apply bucket_of_lt.
  by destruct (ho_size _ Hh) as [[??]|].
Qed.

Lemma hm_unique h e e' :
  hm_ok h → e ∈ mjoin (bucket h) → e' ∈ mjoin (bucket h) → e_key e = e_key e' → e = e'.
Proof.
  intros Hh [i Hi]%list_elem_of_lookup [j Hj]%list_elem_of_lookup Hk.
  assert (i = j) as ->; [|congruence].
  eapply (NoDup_lookup _ i j (e_key e) (ho_nodup _ Hh)); rewrite list_lookup_fmap;
    [by rewrite Hi|by rewrite Hj; cbn; rewrite Hk].
Qed.

(** A walk over the bucket of a key finds its entry. *)
Lemma hm_find h key c :
  hm_ok h → bucket h !! bucket_of (hashsize h) key = Some c →
  match find_entry c key with
  | Some j => ∃ e, c !! j = Some e ∧ e_key e = key ∧ e ∈ mjoin (bucket h)
  | None => ∀ e, e ∈ mjoin (bucket h) → e_key e ≠ key
  end.
Proof.
  intros Hh Hc. destruct (find_entry c key) as [j|] eqn:Hf.
  - destruct (find_entry_Some _ _ _ Hf) as (e&He&Hk). exists e. split; [done|]. split; [done|].
    apply elem_of_mjoin. exists (bucket_of (hashsize h) key), c. split; [done|].
    by eapply list_elem_of_lookup_2.
  - intros e (i&c'&Hi&He)%elem_of_mjoin Hk. pose proof (ho_placed _ Hh i c' e Hi He) as Hb.
    rewrite Hk in Hb. rewrite <- Hb, Hc in Hi. injection Hi as <-.
    by eapply find_entry_None.
Qed.

Lemma lookup_spec h key :
  hm_ok h → hashsize h ≠ 0 →
  ∃ o, hashmap_lookup h key = Some o ∧
    match o with
    | Some e => e_key e = key ∧ e ∈ mjoin (bucket h)
    | None => ∀ e, e ∈ mjoin (bucket h) → e_key e ≠ key
    end.
Proof.
  intros Hh Hs. destruct (hm_bucket h key Hh Hs) as [c Hc]. pose proof (hm_find h key c Hh Hc) as Hf.
  unfold hashmap_lookup. rewrite Hc. cbn [mbind option_bind].
  destruct (find_entry c key) as [j|]; [|by eexists].
  destruct Hf as (e&He&Hk&Hin). exists (Some e). cbn [mbind option_bind]. by rewrite He.
Qed.

(** Replacing the chain of a bucket. *)
Lemma hm_ok_replace h i c c' n :
  hm_ok h → bucket h !! i = Some c →
  (∀ e, e ∈ c' → bucket_of (hashsize h) (e_key e) = i) →
  (∀ l1 l2, mjoin (bucket h) = l1 ++ c ++ l2 → NoDup (e_key <$> l1 ++ c' ++ l2)) →
  hm_ok (mk_hmap (hashsize h) n (<[i := c']> (bucket h))).
Proof.
  intros Hh Hc Hp Hn. destruct (mjoin_at _ _ _ Hc) as (l1&l2&Hm&Hm').
  split; cbn [hashsize bucket nitems].
  - destruct (ho_size _ Hh) as [[_ Hb]|]; [|by right]. by rewrite Hb in Hc.
  - rewrite length_insert. apply Hh.
  - intros j c0 e Hj He. destruct (decide (i = j)) as [<-|Hij].
    + rewrite list_lookup_insert_eq in Hj by (by eapply lookup_lt_Some).
      injection Hj as <-. by apply Hp.
    + rewrite list_lookup_insert_ne in Hj by done. by eapply ho_placed.
  - rewrite Hm'. by apply Hn.
Qed.

(** ** Growth *)

Lemma grow_size_spec fuel hs size :
  (∃ k : nat, hs = 2 ^ Z.of_nat k ∧ (k + fuel = 33)%nat ∧ (k ≤ 31)%nat) → size ≤ 2 ^ 31 →
  ∃ hs', grow_size fuel hs size = Some hs' ∧ size_ok hs' ∧ size ≤ hs'.
Proof.
  revert hs. induction fuel as [|fuel IH]; intros hs (k&->&Hk&Hk31) Hs; [lia|]. cbn [grow_size].
  destruct (Z.ltb_spec (2 ^ Z.of_nat k) size) as [Hlt|Hge].
  - assert (k < 31)%nat as Hk'.
    { destruct (decide (k = 31%nat)) as [->|]; [|lia]. cbn in Hlt. lia. }
    assert (u32 (2 * 2 ^ Z.of_nat k) = 2 ^ Z.of_nat (S k)) as ->.
    { unfold u32. rewrite Nat2Z.inj_succ, Z.pow_succ_r by lia. apply Z.mod_small.
      split; [lia|]. rewrite <- Z.pow_succ_r by lia. apply Z.pow_lt_mono_r; lia. }
    apply IH; [|done]. exists (S k). split; [done|]. lia.
  - eexists. split; [done|]. split; [|lia]. by exists k.
Qed.

Lemma push_entries_spec size bk l :
  size_ok size → length bk = Z.to_nat size →
  (∀ i c e, bk !! i = Some c → e ∈ c → bucket_of size (e_key e) = i) →
  ∃ bk', push_all_entries size bk l = Some bk' ∧ length bk' = Z.to_nat size ∧
    (∀ i c e, bk' !! i = Some c → e ∈ c → bucket_of size (e_key e) = i) ∧
    mjoin bk' ≡ₚ l ++ mjoin bk.
Proof.
  intros Hs. revert bk. induction l as [|e l IH]; intros bk Hl Hp; [by exists bk|].
  destruct (lookup_lt_is_Some_2 bk (bucket_of size (e_key e))) as [c Hc].
  { rewrite Hl. by apply bucket_of_lt. }
  destruct (mjoin_at _ _ _ Hc) as (l1&l2&Hm&Hm').
  cbn [push_all_entries]. unfold push_entry. rewrite Hc. cbn [mbind option_bind].
  destruct (IH (<[bucket_of size (e_key e) := e :: c]> bk)) as (bk'&Hr&Hl'&Hp'&Hperm).
  - by rewrite length_insert.
  - intros i c0 e0 Hi He0. destruct (decide (bucket_of size (e_key e) = i)) as [<-|Hij].
    + rewrite list_lookup_insert_eq in Hi by (by eapply lookup_lt_Some).
      injection Hi as <-. apply elem_of_cons in He0 as [->|He0]; [done|]. by eapply Hp.
    + rewrite list_lookup_insert_ne in Hi by done. by eapply Hp.
  - exists bk'. split; [exact Hr|]. split; [done|]. split; [done|].
    rewrite Hperm, Hm', Hm. solve_Permutation.
Qed.

Lemma mjoin_replicate_nil n : mjoin (replicate n ([] : list ent)) = [].
Proof. induction n; [done|]. done. Qed.

Lemma rehash_spec ok h size :
  hm_ok h → size ≤ 2 ^ 31 →
  ∃ b h', hashmap_rehash ok h size = Some (b, h') ∧ hm_ok h' ∧
    mjoin (bucket h') ≡ₚ mjoin (bucket h) ∧ nitems h' = nitems h ∧ b = ok ∧
    (if ok then size ≤ hashsize h' ∧ hashsize h' ≠ 0 else h' = h).
Proof.
  intros Hh Hsize. unfold hashmap_rehash.
  destruct (grow_size_spec 33 1 size) as (hs&->&Hok&Hle); [|done|].
  { exists 0%nat. split; [done|]. lia. }
  cbn [mbind option_bind]. destruct ok; cbn [negb]; [|by exists false, h].
  destruct (push_entries_spec hs (replicate (Z.to_nat hs) []) (mjoin (bucket h)) Hok)
    as (bk&->&Hl&Hp&Hperm).
  - by rewrite length_replicate.
  - intros i c e [-> _]%lookup_replicate He. by apply not_elem_of_nil in He.
  - rewrite mjoin_replicate_nil, app_nil_r in Hperm. cbn [mbind option_bind].
    eexists true, _. split; [done|]. split.
    { split; cbn [hashsize bucket]; [by right|done|done|]. rewrite Hperm. apply Hh. }
    split; [done|]. split; [done|]. split; [done|]. split; [done|]. cbn.
    destruct Hok as (k&_&->). pose proof (Z.pow_pos_nonneg 2 (Z.of_nat k)). lia.
Qed.

(** ** Insertion and removal *)

(** What an insertion leaves: the entry of the key at the place it returns, the others
    unchanged; a failure changes nothing but the size. *)
Lemma insert_spec ok1 ok2 h key :
  hm_ok h → 0 ≤ nitems h → nitems h + LPM_HASH_STEP ≤ 2 ^ 31 →
  ∃ o h', hashmap_insert ok1 ok2 h key = Some (o, h') ∧ hm_ok h' ∧
    nitems h ≤ nitems h' ≤ nitems h + 1 ∧ (hashsize h ≠ 0 → hashsize h' ≠ 0) ∧
    match o with
    | Some (i, j) => ∃ c e, bucket h' !! i = Some c ∧ c !! j = Some e ∧ e_key e = key ∧
        hashsize h' ≠ 0 ∧
        ∀ e', e_key e' ≠ key → e' ∈ mjoin (bucket h') ↔ e' ∈ mjoin (bucket h)
    | None => mjoin (bucket h') ≡ₚ mjoin (bucket h)
    end.
Proof.
  intros Hh Hn Hn31. unfold hashmap_insert. unfold LPM_HASH_STEP in *.
  cbv zeta. assert (u32 (nitems h + 8) = nitems h + 8) as -> by (unfold u32; apply Z.mod_small; lia).
  assert (∃ b h1, (if hashsize h <? nitems h + 8 then hashmap_rehash ok1 h (nitems h + 8) else Some (true, h))
      = Some (b, h1) ∧ hm_ok h1 ∧ mjoin (bucket h1) ≡ₚ mjoin (bucket h) ∧ nitems h1 = nitems h ∧
      (hashsize h ≠ 0 → hashsize h1 ≠ 0) ∧ (b = true → hashsize h1 ≠ 0)) as (b&h1&->&Hh1&Hperm&Hn1&Hz&Hb).
  { destruct (Z.ltb_spec (hashsize h) (nitems h + 8)) as [Hlt|Hge].
    - destruct (rehash_spec ok1 h (nitems h + 8) Hh Hn31) as (b&h'&->&?&?&?&->&Hcase).
      exists ok1, h'. destruct ok1; [naive_solver|]. subst h'. naive_solver.
    - exists true, h. split_and!; [done..|]. intros _. lia. }
  cbn [mbind option_bind fst snd]. destruct b; cbn [negb];
    [|exists None, h1; split_and!; [done|done|lia|lia|done|done]].
  destruct (hm_bucket h1 key Hh1 (Hb eq_refl)) as [c Hc]. pose proof (hm_find h1 key c Hh1 Hc) as Hf.
  rewrite Hc. cbn [mbind option_bind]. destruct (find_entry c key) as [j|].
  - destruct Hf as (e&He&Hk&_). eexists (Some _), h1. split; [done|]. split; [done|]. split; [lia|].
    split; [naive_solver|]. exists c, e. split_and!; [done..|auto|]. intros e' _. by rewrite Hperm.
  - destruct ok2; [|exists None, h1; split_and!; [done|done|lia|lia|done|done]].
    destruct (mjoin_at _ _ _ Hc) as (l1&l2&Hm&Hm').
    eexists (Some _), _. split; [done|]. cbn [hashsize nitems bucket]. split.
    + apply (hm_ok_replace h1 _ c); [done|done| |].
      * intros e [->|He]%elem_of_cons; [done|]. by eapply ho_placed.
      * intros a1 a2 Ha. pose proof (ho_nodup _ Hh1) as Hnd. rewrite Ha in Hnd.
        assert (e_key <$> a1 ++ (mk_ent key None :: c) ++ a2 ≡ₚ key :: (e_key <$> a1 ++ c ++ a2)) as ->.
        { rewrite !fmap_app. cbn. solve_Permutation. }
        apply NoDup_cons. split; [|done]. intros (e&->&He)%list_elem_of_fmap.
        rewrite <- Ha in He. by apply (Hf e).
    + unfold u32. rewrite Hn1, Z.mod_small by lia. split; [lia|]. split; [auto|].
      exists (mk_ent key None :: c), (mk_ent key None).
      rewrite list_lookup_insert_eq by (by eapply lookup_lt_Some).
      split_and!; [done..|auto|]. intros e' He'. rewrite Hm', <- Hperm, Hm. set_solver.
Qed.

Lemma keys_middle (l1 c1 c2 l2 : list ent) e :
  e_key <$> l1 ++ (c1 ++ e :: c2) ++ l2 ≡ₚ e_key e :: (e_key <$> l1 ++ (c1 ++ c2) ++ l2).
Proof. rewrite !fmap_app, fmap_cons. solve_Permutation. Qed.

Lemma set_val_spec h i j c e v :
  hm_ok h → bucket h !! i = Some c → c !! j = Some e →
  ∃ h', set_val h (i, j) v = Some h' ∧ hm_ok h' ∧ nitems h' = nitems h ∧ hashsize h' = hashsize h ∧
    ∀ e', e' ∈ mjoin (bucket h') ↔
      e' = mk_ent (e_key e) (Some v) ∨ e_key e' ≠ e_key e ∧ e' ∈ mjoin (bucket h).
Proof.
  intros Hh Hc He. unfold set_val. cbn [fst snd]. rewrite Hc. cbn [mbind option_bind]. rewrite He.
  cbn [mbind option_bind]. eexists. split; [done|].
  pose proof (take_drop_middle c j e He) as Hsplit.
  set (e1 := mk_ent (e_key e) (Some v)).
  assert (<[j := e1]> c = take j c ++ e1 :: drop (S j) c) as Hins
    by (by rewrite insert_take_drop by (by eapply lookup_lt_Some)).
  destruct (mjoin_at _ _ _ Hc) as (l1&l2&Hm&Hm').
  assert (∀ x, x ∈ mjoin (bucket h) ↔ x ∈ l1 ∨ x ∈ take j c ∨ x = e ∨ x ∈ drop (S j) c ∨ x ∈ l2) as Hin.
  { intros x. rewrite Hm, <- Hsplit at 1. rewrite !elem_of_app, elem_of_cons. naive_solver. }
  pose proof (ho_nodup _ Hh) as Hnd. rewrite Hm, <- Hsplit in Hnd.
  rewrite keys_middle in Hnd. apply NoDup_cons in Hnd as [Hfresh _].
  split; [|split; [done|split; [done|]]].
  - apply (hm_ok_replace h i c); [done|done| |].
    + intros x. rewrite Hins, elem_of_app, elem_of_cons. intros Hx.
      assert (∃ y, y ∈ c ∧ e_key y = e_key x) as (y&Hy&<-).
      { destruct Hx as [Hx|[->|Hx]].
        - exists x. split; [|done]. rewrite <- Hsplit. set_solver.
        - exists e. split; [|done]. rewrite <- Hsplit. set_solver.
        - exists x. split; [|done]. rewrite <- Hsplit. set_solver. }
      by eapply ho_placed.
    + intros a1 a2 Ha. pose proof (ho_nodup _ Hh) as Hnd. rewrite Ha, <- Hsplit in Hnd.
      rewrite Hins, keys_middle. by rewrite keys_middle in Hnd.
  - intros x. cbn [bucket]. rewrite Hm', Hins, !elem_of_app, elem_of_cons, Hin.
    assert (∀ y, y ∈ l1 ∨ y ∈ take j c ∨ y ∈ drop (S j) c ∨ y ∈ l2 → e_key y ≠ e_key e) as Hne.
    { intros y Hy Heq. apply Hfresh. rewrite <- Heq. apply list_elem_of_fmap_2.
      rewrite !elem_of_app. naive_solver. }
    split.
    + intros [Hx|[[Hx|[->|Hx]]|Hx]]; [right|right|by left|right|right]; split; auto 10.
    + intros [->|[Hk [Hx|[Hx|[->|[Hx|Hx]]]]]]; auto 10. done.
Qed.

(** Insertion of a value. *)
Lemma put_spec ok1 ok2 h key v :
  hm_ok h → 0 ≤ nitems h → nitems h + LPM_HASH_STEP ≤ 2 ^ 31 →
  ∃ o h', hashmap_insert ok1 ok2 h key = Some (o, h') ∧
    match o with
    | None => hm_ok h' ∧ nitems h ≤ nitems h' ≤ nitems h + 1 ∧ (hashsize h ≠ 0 → hashsize h' ≠ 0) ∧
        ∀ e, e ∈ mjoin (bucket h') ↔ e ∈ mjoin (bucket h)
    | Some place => ∃ h'', set_val h' place v = Some h'' ∧ hm_ok h'' ∧
        nitems h ≤ nitems h'' ≤ nitems h + 1 ∧ hashsize h'' ≠ 0 ∧
        ∀ e, e ∈ mjoin (bucket h'') ↔ e = mk_ent key (Some v) ∨ e_key e ≠ key ∧ e ∈ mjoin (bucket h)
    end.
Proof.
  intros Hh Hn Hn31. destruct (insert_spec ok1 ok2 h key Hh Hn Hn31) as (o&h'&Hr&Hh'&Hn'&Hz&Ho).
  exists o, h'. split; [done|]. destruct o as [[i j]|].
  - destruct Ho as (c&e&Hc&He&<-&Hs&Hin).
    destruct (set_val_spec h' i j c e v Hh' Hc He) as (h''&Hset&Hok&Hni&Hhs&Hin').
    exists h''. split; [done|]. split; [done|]. split; [lia|]. split; [by rewrite Hhs|].
    intros e'. rewrite Hin'. split; [|]; (intros [->|[Hk Hi]]; [by left|]; right; split; [done|]; by apply Hin).
  - split; [done|]. split; [done|]. split; [done|]. intros e. by rewrite Ho.
Qed.

Lemma remove_spec h key :
  hm_ok h → hashsize h ≠ 0 →
  ∃ r h', hashmap_remove h key = Some (r, h') ∧ hm_ok h' ∧ nitems h' = nitems h ∧
    hashsize h' = hashsize h ∧ (r = 0 ∨ r = -1) ∧
    (r = 0 ↔ ∃ v, mk_ent key v ∈ mjoin (bucket h)) ∧
    ∀ e, e ∈ mjoin (bucket h') ↔ e_key e ≠ key ∧ e ∈ mjoin (bucket h).
Proof.
  intros Hh Hs. destruct (hm_bucket h key Hh Hs) as [c Hc]. pose proof (hm_find h key c Hh Hc) as Hf.
  unfold hashmap_remove. cbv zeta. rewrite Hc. cbn [mbind option_bind].
  destruct (find_entry c key) as [j|].
  - destruct Hf as (e&He&Hk&Hin). eexists 0, _. split; [done|]. cbn [nitems hashsize bucket].
    pose proof (take_drop_middle c j e He) as Hsplit.
    destruct (mjoin_at _ _ _ Hc) as (l1&l2&Hm&Hm').
    pose proof (ho_nodup _ Hh) as Hnd. rewrite Hm, <- Hsplit in Hnd.
    rewrite keys_middle in Hnd. apply NoDup_cons in Hnd as [Hfresh Hnd].
    split; [|split; [done|split; [done|split; [by left|split; [split; [|done]|]]]]].
    + apply (hm_ok_replace h _ c); [done|done| |].
      * intros x Hx. eapply ho_placed; [done|done|]. rewrite <- Hsplit. set_solver.
      * intros a1 a2 Ha. pose proof (ho_nodup _ Hh) as Hnd'. rewrite Ha, <- Hsplit in Hnd'.
        rewrite keys_middle in Hnd'. by apply NoDup_cons in Hnd' as [_ ?].
    + intros _. exists (e_val e). destruct e. cbn in *. by subst.
    + assert (∀ x, x ∈ mjoin (bucket h) ↔ x ∈ l1 ∨ x ∈ take j c ∨ x = e ∨ x ∈ drop (S j) c ∨ x ∈ l2) as Hin'.
      { intros x. rewrite Hm, <- Hsplit at 1. rewrite !elem_of_app, elem_of_cons. naive_solver. }
      intros x. rewrite Hm', !elem_of_app, Hin', <- Hk.
      assert (∀ y, y ∈ l1 ∨ y ∈ take j c ∨ y ∈ drop (S j) c ∨ y ∈ l2 → e_key y ≠ e_key e) as Hne.
      { intros y Hy Heq. apply Hfresh. rewrite <- Heq. apply list_elem_of_fmap_2.
        rewrite !elem_of_app. naive_solver. }
      split.
      * intros [Hx|[[Hx|Hx]|Hx]]; split; auto 10.
      * intros [Hx [?|[?|[->|[?|?]]]]]; auto 10. done.
  - exists (-1), h. split; [done|]. split; [done|]. split; [done|]. split; [done|]. split; [by right|].
    split.
    + split; [done|]. intros [v Hv]. by destruct (Hf _ Hv).
    + intros e. split; [|naive_solver]. intros He. split; [by apply Hf|done].
Qed.

End Spec.
