(* ===== verification/LpmBits.v ===== *)
(** * Prefixes of addresses, bit by bit

    [compute_prefix] of [lpm.c] works on the words of an address as a little-endian host
    loads them, with masks in network order. This file shows that it keeps the first bits of
    the address, in the order of the network, and clears the others. *)

From S2P Require Import Prelude Bitmask Packets Lpm.

(** The bit of a loaded word that is bit [b] of its four bytes: the high bit of the first
    byte comes first. *)
Definition host_pos (b : nat) : nat := (8 * (b / 8) + (7 - b mod 8))%nat.

(** Bit [k] of an address. *)
Definition net_bit (addr : list Z) (k : nat) : bool :=
  Z.testbit (default 0 (addr !! (k / 32)%nat)) (Z.of_nat (host_pos (k mod 32))).

Definition is_word (w : Z) : Prop := 0 ≤ w < 2 ^ 32.

Lemma host_pos_involutive b : (b < 32)%nat → host_pos (host_pos b) = b ∧ (host_pos b < 32)%nat.
Proof.
  intros Hb.
  assert (∀ b, b ∈ seq 0 32 → host_pos (host_pos b) = b ∧ (host_pos b < 32)%nat) as H.
  { apply Forall_forall. vm_compute. repeat constructor; lia. }
  apply H, elem_of_seq. lia.
Qed.

(** The mask of a prefix shorter than a word. *)
Lemma prefix_mask_bit p b :
  (p < 32)%nat → (b < 32)%nat →
  Z.testbit (prefix_mask (Z.of_nat p)) (Z.of_nat (host_pos b)) = (b <? p)%nat.
Proof.
  intros Hp Hb.
  assert (forallb (λ p, forallb (λ b, Bool.eqb
    (Z.testbit (prefix_mask (Z.of_nat p)) (Z.of_nat (host_pos b))) (b <? p)%nat) (seq 0 32)) (seq 0 32) = true)
    as Hall by (vm_compute; reflexivity).
  rewrite forallb_forall in Hall. specialize (Hall p ltac:(apply in_seq; lia)).
  rewrite forallb_forall in Hall. specialize (Hall b ltac:(apply in_seq; lia)).
  by apply Bool.eqb_prop.
Qed.

Lemma net_bit_cons a l k :
  net_bit (a :: l) k = if (k <? 32)%nat then Z.testbit a (Z.of_nat (host_pos k)) else net_bit l (k - 32).
Proof.
  unfold net_bit. destruct (Nat.ltb_spec k 32) as [Hk|Hk].
  - by rewrite Nat.div_small, Nat.mod_small.
  - replace k with ((k - 32) + 1 * 32)%nat at 1 2 by lia.
    rewrite Nat.div_add, Nat.Div0.mod_add by lia. by rewrite Nat.add_1_r.
Qed.

Lemma net_bit_nil k : net_bit [] k = false.
Proof. unfold net_bit. cbn. apply Z.bits_0. Qed.

(** Words with the same bits are equal. *)
Lemma word_ext v w :
  is_word v → is_word w →
  (∀ b, (b < 32)%nat → Z.testbit v (Z.of_nat (host_pos b)) = Z.testbit w (Z.of_nat (host_pos b))) →
  v = w.
Proof.
  intros Hv Hw Hb. apply Z.bits_inj'. intros n Hn. destruct (decide (n < 32)) as [Hlt|Hge].
  - destruct (host_pos_involutive (Z.to_nat n)) as [Hi Hl]; [lia|].
    specialize (Hb (host_pos (Z.to_nat n)) Hl). rewrite Hi, Z2Nat.id in Hb by lia. done.
  - by rewrite !(testbit_high _ 32) by (done || lia).
Qed.

Lemma addr_ext (a b : list Z) :
  length a = length b → Forall is_word a → Forall is_word b →
  (∀ k, (k < 32 * length a)%nat → net_bit a k = net_bit b k) → a = b.
Proof.
  revert b. induction a as [|v a IH]; intros [|w b] Hl Ha Hb Hk; try done.
  apply Forall_cons in Ha as [Hv Ha], Hb as [Hw Hb]. cbn [length] in Hl, Hk. f_equal.
  - apply word_ext; [done..|]. intros i Hi. specialize (Hk i ltac:(lia)).
    rewrite !net_bit_cons in Hk. by destruct (Nat.ltb_spec i 32); [|lia].
  - apply IH; [lia|done..|]. intros k Hlt. specialize (Hk (k + 32)%nat ltac:(lia)).
    rewrite !net_bit_cons in Hk. destruct (Nat.ltb_spec (k + 32) 32); [lia|].
    by replace (k + 32 - 32)%nat with k in Hk by lia.
Qed.

Lemma prefix_length addr p : length (compute_prefix addr p) = length addr.
Proof.
  revert p. induction addr as [|a addr IH]; intros p; cbn [compute_prefix length]; [done|].
  destruct (p =? 0), (p <? 32); cbn [length]; by rewrite IH.
Qed.

Lemma prefix_words addr p : Forall is_word addr → Forall is_word (compute_prefix addr p).
Proof.
  intros H. revert p. induction H as [|a addr Ha H IH]; intros p; cbn [compute_prefix]; [constructor|].
  destruct (p =? 0); [constructor; [by vm_compute|apply IH]|].
  destruct (p <? 32); (constructor; [|apply IH]); [|done]. by apply (land_bound 32).
Qed.

(** The first [p] bits are kept, the others are zero. *)
Lemma prefix_bits addr p k :
  net_bit (compute_prefix addr (Z.of_nat p)) k = net_bit addr k && (k <? p)%nat.
Proof.
  revert p k. induction addr as [|a addr IH]; intros p k; cbn [compute_prefix].
  { by rewrite net_bit_nil. }
  pose proof (IH 0%nat) as IH0. change (Z.of_nat 0) with 0 in IH0.
  destruct (Z.eqb_spec (Z.of_nat p) 0) as [Hp|Hp]; [|destruct (Z.ltb_spec (Z.of_nat p) 32) as [Hp'|Hp']];
    rewrite !net_bit_cons.
  - replace p with 0%nat by lia. destruct (Nat.ltb_spec k 32).
    + by rewrite Z.bits_0, andb_false_r.
    + rewrite IH0. by rewrite !andb_false_r.
  - destruct (Nat.ltb_spec k 32) as [Hk|Hk].
    + rewrite Z.land_spec, prefix_mask_bit by lia. done.
    + rewrite IH0, andb_false_r. destruct (Nat.ltb_spec k p); [lia|]. by rewrite andb_false_r.
  - destruct (Nat.ltb_spec k 32) as [Hk|Hk].
    + destruct (Nat.ltb_spec k p); [|lia]. by rewrite andb_true_r.
    + replace (Z.of_nat p - 32) with (Z.of_nat (p - 32)) by lia. rewrite IH. f_equal.
      destruct (Nat.ltb_spec (k - 32) (p - 32)), (Nat.ltb_spec k p); lia || done.
Qed.

(** Two addresses agree on their first [p] bits. *)
Definition agree (p : nat) (a b : list Z) : Prop :=
  length a = length b ∧ ∀ k, (k < p)%nat → net_bit a k = net_bit b k.

Lemma prefix_agree a b p :
  Forall is_word a → Forall is_word b →
  compute_prefix a (Z.of_nat p) = compute_prefix b (Z.of_nat p) ↔ agree p a b.
Proof.
  intros Ha Hb. split.
  - intros He. split.
    + by rewrite <- (prefix_length a (Z.of_nat p)), He, prefix_length.
    + intros k Hk. pose proof (prefix_bits a p k) as H1. pose proof (prefix_bits b p k) as H2.
      rewrite He, H2 in H1. apply Nat.ltb_lt in Hk. by rewrite Hk, !andb_true_r in H1.
  - intros [Hl Hk]. apply addr_ext; [by rewrite !prefix_length|by apply prefix_words..|].
    intros k _. rewrite !prefix_bits. destruct (Nat.ltb_spec k p) as [Hlt|]; [|by rewrite !andb_false_r].
    by rewrite Hk.
Qed.

Lemma prefix_idempotent a p :
  Forall is_word a →
  compute_prefix (compute_prefix a (Z.of_nat p)) (Z.of_nat p) = compute_prefix a (Z.of_nat p).
Proof.
  intros Ha. apply addr_ext; [by rewrite !prefix_length|by repeat apply prefix_words..|by apply prefix_words|].
  intros k _. rewrite !prefix_bits. by rewrite <- andb_assoc, andb_diag.
Qed.
