(* ===== verification/LpmTable.v ===== *)
(** * Lookups return the longest prefix

    The table of [Lpm] against a map from prefixes to values: every call of the interface
    does to the table what it should, and a lookup returns the value of the longest prefix
    that was inserted, not removed since, and agrees with the address. *)

From S2P Require Import Prelude Bitmask Packets Lpm LpmSpec LpmBits.

Section Table.

Context {V : Type} (null : V).
Abbreviation table := (lpm (V := V)).
Implicit Types (t : table) (addr key : list Z) (p n : nat).

(** A prefix is a length and the bits of the address, the others cleared. *)
Abbreviation model := (gmap (nat * list Z) V).
Implicit Types (m : model).

(** The bit of a length in the bit masks. *)
Definition length_bit t p : option bool :=
  w ← bitmask t !! ((p - 1) / 32)%nat; Some (Z.testbit w (Z.of_nat (31 - (p - 1) mod 32))).

(** The table holds the map: its entries are those of the map, the lengths in use have
    their bit, and a length with a bit has a hash map. *)
Record holds t m (d : V) : Prop := {
  h_words : length (bitmask t) = LPM_MAX_WORDS;
  h_word i w : bitmask t !! i = Some w → is_word w;
  h_maps : length (prefix t) = (LPM_MAX_PREFIX + 1)%nat;
  h_ok p h : prefix t !! p = Some h → hm_ok h ∧ 0 ≤ nitems h;
  h_entries p h e : prefix t !! p = Some h →
    e ∈ mjoin (bucket h) ↔ ∃ v, e_val e = Some v ∧ m !! (p, e_key e) = Some v;
  h_lengths p key : is_Some (m !! (p, key)) → (1 ≤ p ≤ LPM_MAX_PREFIX)%nat;
  h_bit p key : is_Some (m !! (p, key)) → length_bit t p = Some true;
  h_used p h : (1 ≤ p)%nat → prefix t !! p = Some h → length_bit t p = Some true → hashsize h ≠ 0;
  h_default : defval t = d;
  h_keys p key : is_Some (m !! (p, key)) →
    Forall is_word key ∧ compute_prefix key (Z.of_nat p) = key;
}.

Lemma holds_create : holds (lpm_create null) ∅ null.
Proof.
  split; cbn [lpm_create bitmask prefix defval]; rewrite ?length_replicate; try done.
  - by intros i w [-> _]%lookup_replicate.
  - intros p h [-> _]%lookup_replicate. split; [apply hm_ok_empty|done].
  - intros p h e [-> _]%lookup_replicate. cbn. setoid_rewrite lookup_empty.
    split; [by intros ?%not_elem_of_nil|naive_solver].
  - intros p key. rewrite lookup_empty. by intros [? ?].
  - intros p key. rewrite lookup_empty. by intros [? ?].
  - intros p h _ _. unfold length_bit, lpm_create. cbn [bitmask].
    destruct (replicate LPM_MAX_WORDS 0 !! _) as [w|] eqn:Hw; [|done].
    apply lookup_replicate in Hw as [-> _]. cbn. by rewrite Z.bits_0.
  - intros p key. rewrite lookup_empty. by intros [? ?].
Qed.

(** ** Lookup *)

(** The value of the longest prefix of at most [p] bits. *)
Fixpoint longest m (d : V) addr p : V :=
  match p with
  | O => d
  | S p' =>
      match m !! (p, compute_prefix addr (Z.of_nat p)) with
      | Some v => v
      | None => longest m d addr p'
      end
  end.

(** The first hit among the bits of a word. *)
Fixpoint scan m addr n (l : list nat) : option V :=
  match l with
  | [] => None
  | i :: l =>
      match m !! ((32 * n + (32 - i))%nat, compute_prefix addr (Z.of_nat (32 * n + (32 - i)))) with
      | Some v => Some v
      | None => scan m addr n l
      end
  end.

(** Clearing a bit of a word, on 32 and on 64 bits. *)
Lemma clear_word w b : is_word w → Z.land w (u32 (Z.lnot b)) = Z.land w (not64 b).
Proof.
  intros Hw. apply Z.bits_inj'. intros n Hn. rewrite !Z.land_spec.
  destruct (decide (n < 32)) as [Hlt|Hge]; [|by rewrite (testbit_high w 32) by (done || lia)].
  f_equal. rewrite not64_bits by lia. unfold u32.
  change 4294967296 with (2 ^ 32). by rewrite Z.mod_pow2_bits_low, Z.lnot_spec by lia.
Qed.

Lemma word_mask w : is_word w → is_mask w.
Proof. unfold is_word, is_mask. lia. Qed.

Lemma foreach_word w :
  is_word w → foreach_bit 32 w = filter (λ i, mask_has w i = true) (seq 0 32).
Proof.
  intros Hw. pose proof (word_mask w Hw) as Hm. apply sorted_ext.
  - by apply foreach_bit_sorted.
  - apply filter_seq_sorted.
  - intros i. rewrite list_elem_of_filter, elem_of_seq.
    assert (mask_has w i = true → (i < 32)%nat) as Hlt.
    { intros Hi. destruct (decide (i < 32)%nat); [done|].
      unfold mask_has in Hi. by rewrite (testbit_high w 32) in Hi by (done || lia). }
    split.
    + intros Hi%foreach_bit_elem; [|done]. split; [done|]. specialize (Hlt Hi). lia.
    + intros [Hi _]. apply foreach_bit_complete; [done..|]. specialize (Hlt Hi). lia.
Qed.

(** The inner loop visits the lengths of the set bits. *)
Lemma lookup_word_spec t m d addr n fuel w :
  holds t m d → is_word w → (n < LPM_MAX_WORDS)%nat →
  (∀ i, mask_has w i = true → (i < 32)%nat ∧ (i < ctz64 w + fuel)%nat ∧
     length_bit t (32 * n + (32 - i)) = Some true) →
  lookup_word (S fuel) t addr n w = Some (Some <$> scan m addr n (foreach_bit fuel w)).
Proof.
  intros Ht Hw Hn. revert w Hw. induction fuel as [|fuel IH]; intros w Hw Hbits;
    pose proof (word_mask w Hw) as Hm.
  { assert (w = 0) as ->; [|done]. destruct (decide (w = 0)) as [|Hw0]; [done|].
    destruct (Hbits (ctz64 w)) as (_&?&_); [by apply ctz64_set|lia]. }
  cbn [foreach_bit]. destruct (Z.eqb_spec w 0) as [->|Hw0]; [done|].
  set (i := ctz64 w). assert (mask_has w i = true) as Hi by (by apply ctz64_set).
  destruct (Hbits i Hi) as (Hi32&_&Hbit). unfold pg_low_bit_iterate, pg_low_bit_iterate_full.
  fold i. cbn [scan]. set (p := (32 * n + (32 - i))%nat) in *.
  assert ((1 ≤ p ≤ LPM_MAX_PREFIX)%nat) as Hp by (unfold p, LPM_MAX_PREFIX, LPM_MAX_WORDS in *; lia).
  destruct (lookup_lt_is_Some_2 (prefix t) p) as [h Hh].
  { rewrite (h_maps _ _ _ Ht). unfold LPM_MAX_PREFIX in *. lia. }
  destruct (h_ok _ _ _ Ht p h Hh) as [Hok _].
  destruct (lookup_spec h (compute_prefix addr (Z.of_nat p)) Hok) as (o&Hl&Ho).
  { eapply (h_used _ _ _ Ht p); [lia|done..]. }
  unfold lookup_word at 1. fold (lookup_word (V := V)). unfold ffs.
  destruct (Z.eqb_spec w 0) as [|_]; [done|]. fold i p. rewrite Hh. cbn [mbind option_bind].
  rewrite Hl. cbn [mbind option_bind]. destruct o as [e|].
  - destruct Ho as [Hk He]. apply (h_entries _ _ _ Ht p h e Hh) in He as (v&Hv&Hmv).
    rewrite Hk in Hmv. rewrite Hmv, Hv. done.
  - assert (m !! (p, compute_prefix addr (Z.of_nat p)) = None) as ->.
    { destruct (m !! _) as [v|] eqn:Hv; [|done].
      destruct (Ho (mk_ent (compute_prefix addr (Z.of_nat p)) (Some v))); [|done].
      apply (h_entries _ _ _ Ht p h _ Hh). by exists v. }
    rewrite clear_word by done. apply IH; [by apply (land_bound 32)|].
    intros j Hj. change ONE64 with 1 in Hj. rewrite mask_has_clear in Hj by done.
    apply andb_true_iff in Hj as [Hj Hne]. destruct (Hbits j Hj) as (?&?&?).
    split; [done|]. split; [|done].
    set (w' := Z.land w (not64 (Z.shiftl 1 (Z.of_nat i)))).
    assert (mask_has w' j = true) as Hj'.
    { unfold w'. rewrite mask_has_clear by done. by rewrite Hj, Hne. }
    assert (w' ≠ 0) as Hw' by (intros E; rewrite E, mask_has_0 in Hj'; done).
    assert (mask_has w' (ctz64 w') = true) as Hc by (apply ctz64_set; [by apply is_mask_land|done]).
    unfold w' in Hc at 1. rewrite mask_has_clear in Hc by done. apply andb_true_iff in Hc as [Hc1 Hc2].
    apply ctz64_lowest in Hc1; [|done]. fold i in Hc1.
    assert (ctz64 w' ≠ i).
    { intros E. rewrite E in Hc2. change 1 with ONE64 in Hc2. rewrite mask_has_bit in Hc2.
      by rewrite bool_decide_eq_true_2 in Hc2. }
    change (j < ctz64 w' + fuel)%nat. fold i in H0. lia.
Qed.

(** Lengths without a bit have no prefix. *)
Lemma scan_filter m addr n (P : nat → Prop) `{!∀ i, Decision (P i)} l :
  (∀ i, i ∈ l → ¬ P i → ∀ key, m !! ((32 * n + (32 - i))%nat, key) = None) →
  scan m addr n (filter P l) = scan m addr n l.
Proof.
  induction l as [|i l IH]; intros Hn; [done|]. rewrite filter_cons. cbn [scan].
  assert (∀ j, j ∈ l → ¬ P j → ∀ key, m !! ((32 * n + (32 - j))%nat, key) = None) as Hn'
    by (intros; apply Hn; [by right|done]).
  case_decide as HP; cbn [scan]; rewrite IH by done; [done|]. by rewrite Hn by (done || by left).
Qed.

Lemma scan_longest m d addr n k :
  (k ≤ 32)%nat →
  match scan m addr n (seq (32 - k) k) with Some v => v | None => longest m d addr (32 * n) end
  = longest m d addr (32 * n + k).
Proof.
  induction k as [|k IH]; intros Hk; [by rewrite Nat.add_0_r|].
  replace (seq (32 - S k) (S k)) with ((32 - S k)%nat :: seq (32 - k) k)
    by (replace (32 - k)%nat with (S (32 - S k)) by lia; done).
  cbn [scan]. replace (32 * n + (32 - (32 - S k)))%nat with (32 * n + S k)%nat by lia.
  replace (32 * n + S k)%nat with (S (32 * n + k)) by lia.
  change (longest m d addr (S (32 * n + k))) with
    (match m !! (S (32 * n + k), compute_prefix addr (Z.of_nat (S (32 * n + k)))) with
     | Some v => v | None => longest m d addr (32 * n + k) end).
  destruct (m !! _) as [v|]; [done|]. apply IH. lia.
Qed.

Lemma lookup_words_spec t m d addr n :
  holds t m d → (n ≤ LPM_MAX_WORDS)%nat →
  lookup_words t addr n = Some (Some (longest m d addr (32 * n))).
Proof.
  intros Ht. induction n as [|n IH]; intros Hn; cbn [lookup_words].
  { by rewrite (h_default _ _ _ Ht). }
  destruct (lookup_lt_is_Some_2 (bitmask t) n) as [w Hw]; [rewrite (h_words _ _ _ Ht); lia|].
  rewrite Hw. cbn [mbind option_bind]. pose proof (h_word _ _ _ Ht n w Hw) as Hword.
  assert (∀ i, (i < 32)%nat → length_bit t (32 * n + (32 - i)) = Some (mask_has w i)) as Hb.
  { intros i Hi. unfold length_bit.
    replace (32 * n + (32 - i) - 1)%nat with ((31 - i) + n * 32)%nat by lia.
    rewrite Nat.div_add, Nat.div_small, Nat.Div0.mod_add, Nat.mod_small by lia. cbn [Nat.add].
    rewrite Hw. cbn. unfold mask_has. do 3 f_equal. lia. }
  rewrite (lookup_word_spec t m d addr n 32 w Ht Hword) by
    (lia || (intros i Hi; assert (i < 32)%nat by
      (destruct (decide (i < 32)%nat); [done|]; unfold mask_has in Hi;
       by rewrite (testbit_high w 32) in Hi by (done || lia));
     split; [done|split; [lia|by rewrite Hb, Hi by done]])).
  rewrite foreach_word by done. cbn [mbind option_bind].
  rewrite scan_filter.
  - pose proof (scan_longest m d addr n 32 ltac:(lia)) as Hs. cbn [Nat.sub] in Hs.
    replace (32 * S n)%nat with (32 * n + 32)%nat by lia. rewrite <- Hs.
    destruct (scan m addr n (seq 0 32)) as [v|]; cbn [fmap option_fmap option_map]; [done|].
    apply IH. lia.
  - intros i Hi%elem_of_seq HP key. destruct (m !! _) as [v|] eqn:Hv; [|done]. exfalso. apply HP.
    pose proof (h_bit _ _ _ Ht _ key ltac:(by rewrite Hv)) as Hbit.
    rewrite Hb in Hbit by lia. by injection Hbit.
Qed.

(** ** Updates *)

(** The bit that [lpm_insert] sets. *)
Definition mark (bm : list Z) (p : nat) : option (list Z) :=
  b ← bm !! ((p - 1) / 32)%nat;
  Some (<[((p - 1) / 32)%nat := Z.lor b (Z.shiftr 0x80000000 (Z.of_nat ((p - 1) mod 32)))]> bm).

Lemma shifted_bit k : (k < 32)%nat → Z.shiftr 0x80000000 (Z.of_nat k) = 2 ^ Z.of_nat (31 - k).
Proof.
  intros Hk. change 0x80000000 with (2 ^ 31). rewrite Z.shiftr_div_pow2 by lia.
  rewrite <- Z.pow_sub_r by lia. f_equal. lia.
Qed.

Lemma mark_length_spec t p d ps :
  length (bitmask t) = LPM_MAX_WORDS → (∀ i w, bitmask t !! i = Some w → is_word w) →
  (1 ≤ p ≤ LPM_MAX_PREFIX)%nat →
  ∃ bm, mark (bitmask t) p = Some bm ∧ length bm = LPM_MAX_WORDS ∧
    (∀ i w, bm !! i = Some w → is_word w) ∧
    ∀ q, (1 ≤ q)%nat →
      length_bit (mk_lpm bm d ps) q = (λ b, b || bool_decide (q = p)) <$> length_bit t q.
Proof.
  intros Hl Hw Hp. unfold mark, LPM_MAX_PREFIX, LPM_MAX_WORDS in *. set (n := ((p - 1) / 32)%nat).
  assert (n < 4)%nat as Hn by (unfold n; apply Nat.Div0.div_lt_upper_bound; lia).
  destruct (lookup_lt_is_Some_2 (bitmask t) n) as [b Hb]; [lia|]. rewrite Hb. cbn [mbind option_bind].
  pose proof (Nat.mod_upper_bound (p - 1) 32 ltac:(lia)) as Hmod.
  rewrite shifted_bit by done. set (k := (31 - (p - 1) mod 32)%nat).
  eexists. split; [done|]. rewrite length_insert. split; [done|]. split.
  - intros i w Hi. destruct (decide (i = n)) as [->|Hne].
    + rewrite list_lookup_insert_eq in Hi by lia. injection Hi as <-.
      apply (lor_bound 32); [lia|by eapply Hw|]. split; [lia|]. apply Z.pow_lt_mono_r; unfold k; lia.
    + rewrite list_lookup_insert_ne in Hi by done. by eapply Hw.
  - intros q Hq. unfold length_bit. cbn [bitmask].
    pose proof (Nat.div_mod (p - 1) 32 ltac:(lia)) as Hdp. fold n in Hdp.
    pose proof (Nat.div_mod (q - 1) 32 ltac:(lia)) as Hdq.
    pose proof (Nat.mod_upper_bound (q - 1) 32 ltac:(lia)) as Hmq.
    destruct (decide (((q - 1) / 32)%nat = n)) as [Hqn|Hqn].
    + rewrite Hqn, list_lookup_insert_eq by lia. rewrite Hb. cbn [mbind option_bind fmap option_fmap option_map].
      rewrite Z.lor_spec, Z.pow2_bits_eqb by lia. do 2 f_equal.
      rewrite Hqn in Hdq. destruct (Z.eqb_spec (Z.of_nat k) (Z.of_nat (31 - (q - 1) mod 32))) as [He|He];
        case_bool_decide; unfold k in He; lia || done.
    + rewrite list_lookup_insert_ne by done.
      destruct (bitmask t !! ((q - 1) / 32)%nat) as [w|]; [|done].
      cbn [mbind option_bind fmap option_fmap option_map].
      rewrite bool_decide_eq_false_2 by (intros ->; done). cbv beta. by rewrite orb_false_r.
Qed.

(** Replacing the hash map of a length. *)
Lemma holds_set t m d p h h' bm m' :
  holds t m d → (1 ≤ p ≤ LPM_MAX_PREFIX)%nat → prefix t !! p = Some h → hm_ok h' → 0 ≤ nitems h' →
  length bm = LPM_MAX_WORDS → (∀ i w, bm !! i = Some w → is_word w) →
  let t' := mk_lpm bm (defval t) (<[p := h']> (prefix t)) in
  (∀ q, (1 ≤ q)%nat → q ≠ p → length_bit t' q = length_bit t q) →
  (length_bit t' p = Some true → hashsize h' ≠ 0) →
  (∀ key, is_Some (m' !! (p, key)) → length_bit t' p = Some true ∧
     Forall is_word key ∧ compute_prefix key (Z.of_nat p) = key) →
  (∀ e, e ∈ mjoin (bucket h') ↔ ∃ v, e_val e = Some v ∧ m' !! (p, e_key e) = Some v) →
  (∀ q key, q ≠ p → m' !! (q, key) = m !! (q, key)) →
  holds t' m' d.
Proof.
  intros Ht Hp Hh Hok Hni Hl Hw t' Hb Hu Hk He Hm.
  split; cbn [t' bitmask prefix defval]; try done.
  - rewrite length_insert. apply Ht.
  - intros q g Hq. destruct (decide (p = q)) as [<-|Hne].
    + rewrite list_lookup_insert_eq in Hq by (by eapply lookup_lt_Some). by injection Hq as <-.
    + rewrite list_lookup_insert_ne in Hq by done. by eapply (h_ok _ _ _ Ht).
  - intros q g e Hq. destruct (decide (p = q)) as [<-|Hne].
    + rewrite list_lookup_insert_eq in Hq by (by eapply lookup_lt_Some). by injection Hq as <-.
    + rewrite list_lookup_insert_ne in Hq by done. rewrite (h_entries _ _ _ Ht q g e Hq).
      by setoid_rewrite Hm.
  - intros q key. destruct (decide (q = p)) as [->|Hne]; [done|]. rewrite Hm by done. by apply (h_lengths _ _ _ Ht).
  - intros q key Hs. destruct (decide (q = p)) as [->|Hne]; [by apply (Hk key)|]. rewrite Hm in Hs by done.
    fold t'. rewrite Hb; [by eapply (h_bit _ _ _ Ht)| |done]. apply (h_lengths _ _ _ Ht) in Hs. lia.
  - intros q g Hq1 Hq Hbit. destruct (decide (p = q)) as [<-|Hne].
    + rewrite list_lookup_insert_eq in Hq by (by eapply lookup_lt_Some). injection Hq as <-. by apply Hu.
    + rewrite list_lookup_insert_ne in Hq by done. fold t' in Hbit. rewrite Hb in Hbit by done.
      by eapply (h_used _ _ _ Ht q).
  - apply Ht.
  - intros q key Hs. destruct (decide (q = p)) as [->|Hne]; [by apply Hk|]. rewrite Hm in Hs by done.
    by apply (h_keys _ _ _ Ht).
Qed.

(** ** The calls *)

(** The calls that change a table; the booleans of an insertion are the results of its
    allocations. *)
Inductive lpm_call :=
  | Insert (calloc_ok malloc_ok : bool) (addr : list Z) (preflen : nat) (v : V)
  | Remove (addr : list Z) (preflen : nat)
  | Clear.

Definition run_lpm_call t (c : lpm_call) : option (Z * table) :=
  match c with
  | Insert ok1 ok2 addr p v => lpm_insert ok1 ok2 t addr p v
  | Remove addr p => lpm_remove null t addr p
  | Clear => Some (0, snd (lpm_clear null t))
  end.

(** What a call that returned [r] does to the map and to the default. *)
Definition spec_call (md : model * V) (c : lpm_call) (r : Z) : model * V :=
  let '(m, d) := md in
  match c with
  | Insert _ _ addr p v =>
      if negb (r =? 0) then (m, d)
      else match p with
           | O => (m, v)
           | _ => (<[(p, compute_prefix addr (Z.of_nat p)) := v]> m, d)
           end
  | Remove addr p =>
      match p with
      | O => (m, null)
      | _ => (delete (p, compute_prefix addr (Z.of_nat p)) m, d)
      end
  | Clear => (∅, null)
  end.

(** What the caller must respect: addresses are words, lengths are at most 128, a length
    is removed from only after something was inserted with it, and a length holds fewer
    than 2^31 prefixes. *)
Definition legal t (c : lpm_call) : Prop :=
  match c with
  | Insert _ _ addr p _ => Forall is_word addr ∧ (p ≤ LPM_MAX_PREFIX)%nat ∧
      ∀ h, prefix t !! p = Some h → nitems h + LPM_HASH_STEP ≤ 2 ^ 31
  | Remove addr p => Forall is_word addr ∧ (p ≤ LPM_MAX_PREFIX)%nat ∧
      ∀ h, p ≠ 0%nat → prefix t !! p = Some h → hashsize h ≠ 0
  | Clear => True
  end.

Lemma holds_default t m d v : holds t m d → holds (mk_lpm (bitmask t) v (prefix t)) m v.
Proof. intros [H1 H2 H3 H4 H5 H6 H7 H8 H9 H10]. by split. Qed.

Lemma upd_bits t p h q : length_bit (upd_prefix t p h) q = length_bit t q.
Proof. done. Qed.

Lemma insert_holds ok1 ok2 t m d addr p v :
  holds t m d → legal t (Insert ok1 ok2 addr p v) →
  ∃ r t', lpm_insert ok1 ok2 t addr p v = Some (r, t') ∧
    let '(m', d') := spec_call (m, d) (Insert ok1 ok2 addr p v) r in holds t' m' d'.
Proof.
  intros Ht (Ha&Hp&Hn). destruct p as [|p].
  { eexists 0, _. split; [done|]. by eapply holds_default. }
  unfold lpm_insert. set (pfx := compute_prefix addr (Z.of_nat (S p))).
  destruct (lookup_lt_is_Some_2 (prefix t) (S p)) as [h Hh].
  { rewrite (h_maps _ _ _ Ht). lia. }
  rewrite Hh. cbn [mbind option_bind]. destruct (h_ok _ _ _ Ht _ _ Hh) as [Hok Hni].
  destruct (put_spec ok1 ok2 h pfx v Hok Hni (Hn h Hh)) as (o&h1&->&Ho). cbn [mbind option_bind fst snd].
  pose proof (h_entries _ _ _ Ht (S p) h) as Hent. destruct o as [place|].
  - destruct Ho as (h2&Hset&Hok2&Hni2&Hs2&Hin).
    destruct (mark_length_spec t (S p) (defval t) (<[S p := h2]> (prefix t))) as (bm&Hmark&Hbl&Hbw&Hbit);
      [apply Ht|apply Ht|lia|].
    unfold mark in Hmark. rewrite Nat.sub_succ, Nat.sub_0_r in Hmark.
    destruct (bitmask t !! (p / 32)%nat) as [b|]; [|done]. cbn [mbind option_bind] in Hmark |- *.
    apply (inj Some) in Hmark. rewrite Hset. cbn [mbind option_bind]. rewrite Hmark.
    eexists 0, _. split; [done|]. cbn [spec_call negb Z.eqb]. fold pfx.
    eapply holds_set; [done|lia|done|done|lia|done|done|..].
    + intros q Hq Hne. rewrite Hbit by done. rewrite bool_decide_eq_false_2 by done.
      destruct (length_bit t q) as [x|]; [|done]. cbn. by rewrite orb_false_r.
    + done.
    + intros key Hk. split.
      * rewrite Hbit by lia. rewrite bool_decide_eq_true_2 by done.
        destruct (length_bit t (S p)) as [x|] eqn:Hx; [cbn; by rewrite orb_true_r|].
        unfold length_bit in Hx. destruct (lookup_lt_is_Some_2 (bitmask t) ((S p - 1) / 32)%nat) as [w Hw].
        { rewrite (h_words _ _ _ Ht). unfold LPM_MAX_PREFIX, LPM_MAX_WORDS in *.
          apply Nat.Div0.div_lt_upper_bound. lia. }
        by rewrite Hw in Hx.
      * destruct (decide (key = pfx)) as [->|Hne].
        { split; [by apply prefix_words|by apply prefix_idempotent]. }
        rewrite lookup_insert_ne in Hk by congruence. by apply (h_keys _ _ _ Ht).
    + intros e. rewrite Hin, (Hent e Hh). split.
      * intros [->|[Hk (v'&Hv'&Hm)]]; cbn.
        { exists v. split; [done|]. apply lookup_insert_eq. }
        exists v'. split; [done|]. by rewrite lookup_insert_ne by congruence.
      * intros (v'&Hv'&Hm). destruct (decide (e_key e = pfx)) as [Hk|Hk].
        { left. rewrite Hk, lookup_insert_eq in Hm. injection Hm as <-. destruct e. cbn in *. by subst. }
        right. split; [done|]. rewrite lookup_insert_ne in Hm by congruence. eauto.
    + intros q key Hne. by rewrite lookup_insert_ne by congruence.
  - destruct Ho as (Hok1&Hni1&Hs1&Hin). eexists (-1), _. split; [done|]. cbn [spec_call negb Z.eqb].
    change (holds (mk_lpm (bitmask t) (defval t) (<[S p := h1]> (prefix t))) m d).
    eapply holds_set; [done|lia|done|done|lia|apply Ht|apply Ht|..]; try done.
    + intros Hb. apply Hs1. by eapply (h_used _ _ _ Ht (S p)); [lia|..].
    + intros key Hk. split; [by eapply (h_bit _ _ _ Ht)|by apply (h_keys _ _ _ Ht)].
    + intros e. by rewrite Hin, (Hent e Hh).
Qed.

Lemma remove_holds t m d addr p :
  holds t m d → legal t (Remove addr p) →
  ∃ r t', lpm_remove null t addr p = Some (r, t') ∧
    (r = 0 ↔ p = 0%nat ∨ is_Some (m !! (p, compute_prefix addr (Z.of_nat p)))) ∧
    let '(m', d') := spec_call (m, d) (Remove addr p) r in holds t' m' d'.
Proof.
  intros Ht (Ha&Hp&Hn). destruct p as [|p].
  { eexists 0, _. split; [done|]. split; [naive_solver|]. by eapply holds_default. }
  unfold lpm_remove. set (pfx := compute_prefix addr (Z.of_nat (S p))).
  destruct (lookup_lt_is_Some_2 (prefix t) (S p)) as [h Hh].
  { rewrite (h_maps _ _ _ Ht). lia. }
  rewrite Hh. cbn [mbind option_bind]. destruct (h_ok _ _ _ Ht _ _ Hh) as [Hok Hni].
  destruct (remove_spec h pfx Hok (Hn h ltac:(done) Hh)) as (r&h1&->&Hok1&Hni1&Hs1&_&Hr&Hin).
  cbn [mbind option_bind fst snd]. pose proof (h_entries _ _ _ Ht (S p) h) as Hent.
  eexists r, _. split; [done|]. split.
  - rewrite Hr. split.
    + intros [v Hv]. apply (Hent _ Hh) in Hv as (v'&_&Hv'). right. by exists v'.
    + intros [?|[v Hv]]; [done|]. exists (Some v). apply (Hent _ Hh). by exists v.
  - cbn [spec_call].
    change (holds (mk_lpm (bitmask t) (defval t) (<[S p := h1]> (prefix t))) (delete (S p, pfx) m) d).
    eapply holds_set; [done|lia|done|done|lia|apply Ht|apply Ht|..]; try done.
    + intros _. rewrite Hs1. by apply (Hn h).
    + intros key [v [_ Hk]%lookup_delete_Some].
      split; [eapply (h_bit _ _ _ Ht); by rewrite Hk|eapply (h_keys _ _ _ Ht); by rewrite Hk].
    + intros e. rewrite Hin, (Hent e Hh). setoid_rewrite lookup_delete_Some. split.
      * intros [Hk (v&Hv&Hm)]. exists v. split; [done|]. split; [congruence|done].
      * intros (v&Hv&Hk&Hm). split; [congruence|eauto].
    + intros q key Hne. by rewrite lookup_delete_ne by congruence.
Qed.

Lemma clear_holds t m d : holds t m d → holds (snd (lpm_clear null t)) ∅ null.
Proof.
  intros Ht. assert (prefix (snd (lpm_clear null t)) = replicate (LPM_MAX_PREFIX + 1) empty_hmap
    ∨ ∀ p h, prefix (snd (lpm_clear null t)) !! p = Some h → mjoin (bucket h) = [] ∧ hm_ok h ∧ 0 ≤ nitems h)
    as [Hr|Hc].
  { right. intros p h. cbn [lpm_clear snd prefix]. rewrite list_lookup_fmap.
    destruct (prefix t !! p) as [g|] eqn:Hg; [|done]. cbn. intros [= <-].
    destruct (h_ok _ _ _ Ht p g Hg) as [Hok Hni]. destruct (Z.eqb_spec (hashsize g) 0) as [Hz|].
    - destruct (ho_size _ Hok) as [[_ Hb]|(k&_&Hk)]; [by rewrite Hb|].
      rewrite Hz in Hk. pose proof (Z.pow_pos_nonneg 2 (Z.of_nat k)). lia.
    - split; [done|]. split; [apply hm_ok_empty|done]. }
  { pose proof holds_create as Hcr. destruct (snd (lpm_clear null t)) as [b d' pr] eqn:E.
    unfold lpm_clear in E. injection E as <- <- Hpr. cbn [prefix] in Hr. rewrite Hr. exact Hcr. }
  split; try (by intros p key; rewrite lookup_empty; intros [? ?]); try done.
  - cbn [lpm_clear snd bitmask]. by intros i w [-> _]%lookup_replicate.
  - cbn [lpm_clear snd prefix]. rewrite length_fmap. apply Ht.
  - intros p h Hh. by apply (Hc p h Hh).
  - intros p h e Hh. destruct (Hc p h Hh) as [-> _]. setoid_rewrite lookup_empty.
    split; [by intros ?%not_elem_of_nil|naive_solver].
  - intros p h _ _. unfold length_bit. cbn [lpm_clear snd bitmask].
    destruct (replicate LPM_MAX_WORDS 0 !! _) as [w|] eqn:Hw; [|done].
    apply lookup_replicate in Hw as [-> _]. cbn. by rewrite Z.bits_0.
Qed.

(** The tables that legal calls reach, with the map they stand for. *)
Inductive lpm_reach : table → model * V → Prop :=
  | reach_create : lpm_reach (lpm_create null) (∅, null)
  | reach_call t md c r t' :
      lpm_reach t md → legal t c → run_lpm_call t c = Some (r, t') →
      lpm_reach t' (spec_call md c r).

Lemma call_holds t m d c :
  holds t m d → legal t c →
  ∃ r t', run_lpm_call t c = Some (r, t') ∧
    let '(m', d') := spec_call (m, d) c r in holds t' m' d'.
Proof.
  intros Ht Hc. destruct c as [ok1 ok2 addr p v|addr p|]; cbn [run_lpm_call].
  - by apply insert_holds.
  - destruct (remove_holds t m d addr p Ht Hc) as (r&t'&Hr&_&Hh). eauto.
  - eexists 0, _. split; [done|]. by eapply clear_holds.
Qed.

Lemma reach_holds t m d : lpm_reach t (m, d) → holds t m d.
Proof.
  intros Hr. remember (m, d) as md eqn:Hmd. revert m d Hmd.
  induction Hr as [|t [m0 d0] c r t' Hr IH Hc Hrun]; intros m d Hmd.
  { injection Hmd as <- <-. apply holds_create. }
  destruct (call_holds t m0 d0 c (IH _ _ eq_refl) Hc) as (r'&t''&Hrun'&Hh).
  rewrite Hrun in Hrun'. injection Hrun' as <- <-. by rewrite Hmd in Hh.
Qed.

(** [v] is the value of the longest prefix that agrees with the address, or the default. *)
Definition longest_match m (d : V) addr (v : V) : Prop :=
  let matches p v := ∃ key, m !! (p, key) = Some v ∧ (p ≤ 32 * length addr)%nat ∧ agree p key addr in
  (∃ p, matches p v ∧ ∀ p' v', matches p' v' → (p' ≤ p)%nat) ∨
  v = d ∧ ∀ p' v', ¬ matches p' v'.

Lemma match_prefix t m d addr p v :
  holds t m d → Forall is_word addr →
  (∃ key, m !! (p, key) = Some v ∧ agree p key addr) ↔
  m !! (p, compute_prefix addr (Z.of_nat p)) = Some v.
Proof.
  intros Ht Ha. split.
  - intros (key&Hm&Hag). destruct (h_keys _ _ _ Ht p key) as [Hw Hc]; [by rewrite Hm|].
    apply (prefix_agree key addr p Hw Ha) in Hag. by rewrite <- Hag, Hc.
  - intros Hm. exists (compute_prefix addr (Z.of_nat p)). split; [done|].
    apply prefix_agree; [by apply prefix_words|done|]. by apply prefix_idempotent.
Qed.

Lemma longest_spec t m d addr :
  holds t m d → Forall is_word addr → longest_match m d addr (longest m d addr (32 * length addr)).
Proof.
  intros Ht Ha. unfold longest_match. cbv zeta.
  assert (∀ n, (n ≤ 32 * length addr)%nat →
    (∃ p, (p ≤ n)%nat ∧ m !! (p, compute_prefix addr (Z.of_nat p)) = Some (longest m d addr n) ∧
       ∀ p', (p' ≤ n)%nat → is_Some (m !! (p', compute_prefix addr (Z.of_nat p'))) → (p' ≤ p)%nat) ∨
    longest m d addr n = d ∧ ∀ p', (p' ≤ n)%nat → m !! (p', compute_prefix addr (Z.of_nat p')) = None) as Hl.
  { intros n. induction n as [|n IH]; intros Hn.
    { right. split; [done|]. intros p' Hp'. replace p' with 0%nat by lia.
      destruct (m !! _) as [v|] eqn:Hv; [|done]. pose proof (h_lengths _ _ _ Ht 0%nat _ ltac:(by rewrite Hv)). lia. }
    cbn [longest]. destruct (m !! (S n, _)) as [v|] eqn:Hv; [left; by exists (S n)|].
    destruct IH as [(p&Hp&Hm&Hmax)|[Hd Hno]]; [lia|left; exists p; split; [lia|split; [done|]]|right; split; [done|]].
    - intros p' Hp' Hs. destruct (decide (p' = S n)) as [->|]; [rewrite Hv in Hs; by destruct Hs|].
      apply Hmax; [lia|done].
    - intros p' Hp'. destruct (decide (p' = S n)) as [->|]; [done|]. apply Hno. lia. }
  destruct (Hl (32 * length addr)%nat ltac:(lia)) as [(p&Hp&Hm&Hmax)|[Hd Hno]]; [left|right].
  - exists p. split.
    + destruct (proj2 (match_prefix t m d addr p _ Ht Ha) Hm) as (key&?&?). by exists key.
    + intros p' v' (key&Hk&Hp'&Hag). apply Hmax; [done|]. exists v'.
      apply (match_prefix t m d addr p' v' Ht Ha). eauto.
  - split; [done|]. intros p' v' (key&Hk&Hp'&Hag).
    assert (m !! (p', compute_prefix addr (Z.of_nat p')) = Some v') as Hm
      by (apply (match_prefix t m d addr p' v' Ht Ha); eauto).
    by rewrite Hno in Hm.
Qed.

(** C20: after any legal sequence of insertions, removals and clearings, with allocations
    that may fail, no call reads out of bounds, and a lookup returns the value of the
    longest prefix present that agrees with the address bit by bit, or the default. *)
Theorem lpm_longest_prefix t m d addr :
  lpm_reach t (m, d) → Forall is_word addr → (length addr ≤ LPM_MAX_WORDS)%nat →
  (∀ c, legal t c → is_Some (run_lpm_call t c)) ∧
  ∃ v, lpm_lookup t addr = Some (Some v) ∧ longest_match m d addr v.
Proof.
  intros Hr Ha Hl. pose proof (reach_holds t m d Hr) as Ht. split.
  - intros c Hc. destruct (call_holds t m d c Ht Hc) as (r&t'&->&_). eauto.
  - eexists. split; [by apply lookup_words_spec|]. by eapply longest_spec.
Qed.

End Table.

(** ** Examples *)

(** The networks 10.0.0.0/8 and 10.1.0.0/16. *)
Definition demo_calls : list (lpm_call (V := Z)) :=
  [Insert true true [0x0000000a] 8 1; Insert true true [0x0000010a] 16 2].

Fixpoint run_lpm_calls (t : lpm (V := Z)) (cs : list lpm_call) : option lpm :=
  match cs with [] => Some t | c :: cs => r ← run_lpm_call 0 t c; run_lpm_calls (snd r) cs end.

Definition demo_lpm : lpm (V := Z) := default (lpm_create 0) (run_lpm_calls (lpm_create 0) demo_calls).

Definition demo_model : gmap (nat * list Z) Z :=
  <[(16%nat, [0x0000010a]) := 2]> (<[(8%nat, [0x0000000a]) := 1]> ∅).

Lemma demo_word w : 0 ≤ w < 2 ^ 32 → Forall is_word [w].
Proof. intros. by constructor. Qed.

Definition demo_first : lpm (V := Z) :=
  default (lpm_create 0) (run_lpm_calls (lpm_create 0) (take 1 demo_calls)).

Lemma demo_legal (t : lpm (V := Z)) w p v h :
  0 ≤ w < 2 ^ 32 → (p ≤ LPM_MAX_PREFIX)%nat → prefix t !! p = Some h → nitems h = 0 →
  legal t (Insert true true [w] p v).
Proof.
  intros Hw Hp Hh Hn. split; [by apply demo_word|]. split; [done|]. intros h' Hh'.
  rewrite Hh in Hh'. injection Hh' as <-. rewrite Hn. done.
Qed.

Lemma demo_reach : lpm_reach 0 demo_lpm (demo_model, 0).
Proof.
  assert (lpm_reach 0 demo_first (spec_call 0 (∅, 0) (Insert true true [0x0000000a] 8 1) 0)) as H1.
  { apply (reach_call 0 (lpm_create 0) (∅, 0) (Insert true true [0x0000000a] 8 1) 0);
      [apply reach_create| |vm_compute; reflexivity].
    eapply demo_legal; [done|vm_compute; lia|vm_compute; reflexivity|reflexivity]. }
  apply (reach_call 0 demo_first _ (Insert true true [0x0000010a] 16 2) 0 demo_lpm H1);
    [|vm_compute; reflexivity].
  eapply demo_legal; [done|vm_compute; lia|vm_compute; reflexivity|reflexivity].
Qed.

(** The address 10.1.2.3 gets the value of the longer prefix. *)
Lemma lpm_longest_prefix_witness :
  lpm_lookup demo_lpm [0x0302010a] = Some (Some 2) ∧ longest_match demo_model 0 [0x0302010a] 2.
Proof.
  destruct (lpm_longest_prefix 0 demo_lpm demo_model 0 [0x0302010a] demo_reach) as (_&v&Hl&Hm).
  - by apply demo_word.
  - vm_compute. lia.
  - pose proof Hl as Hl'. vm_compute in Hl'. injection Hl' as <-. split; [exact Hl|exact Hm].
Defined.

(** ** What the code does not check *)

(** Removing a prefix of a length that was never inserted reads through the NULL bucket
    array. *)
Theorem lpm_remove_unused_length : lpm_remove 0 (lpm_create 0) [0x0000000a] 8 = None.
Proof.
  unfold lpm_remove. change (prefix (lpm_create 0) !! 8%nat) with (Some (empty_hmap (V := Z))).
  cbn [mbind option_bind]. unfold hashmap_remove. cbn [bucket empty_hmap]. by rewrite lookup_nil.
Qed.

(** A prefix longer than 128 bits writes past the hash maps; [lpm_strtobin] gives such
    lengths. *)
Theorem lpm_length_not_checked :
  lpm_strtobin (λ _, None) (λ _, Some [10; 0; 0; 0]) "10.0.0.0/200" = Some ([10; 0; 0; 0], 4%nat, 200) ∧
  lpm_insert true true (lpm_create 0) [0x0000000a] 200 1 = None.
Proof. by vm_compute. Qed.

(** A prefix longer than its address is stored but never found, even by the address
    itself. *)
Theorem lpm_prefix_past_address :
  match lpm_insert true true (lpm_create 0) [0x0000000a] 64 1 with
  | Some (0, t) => lpm_lookup t [0x0000000a] = Some (Some 0)
  | _ => False
  end.
Proof. vm_compute. reflexivity. Qed.
