(* ===== verification/Bitops.v ===== *)
(** * Bit operations ([src/npf/libcdb/src/bitops.h])

    The first and the last bit set of a word, found by halving, and the division by a
    constant with a multiplication and shifts that the readers of constant databases use. *)

From S2P Require Import Prelude.

(** ** First and last bit set

    A step of a search: when the word has no bit in [mask] it is shifted. The position is
    counted from one. *)

Definition ffs_step (st : Z * Z) (step : Z * Z) : Z * Z :=
  let '(n, v) := st in let '(mask, k) := step in
  if Z.land n mask =? 0 then (Z.shiftr n k, v + k) else (n, v).

Definition ffs32 (n : Z) : Z :=
  if n =? 0 then 0
  else snd (foldl ffs_step (n, 1)
              [(0x0000FFFF, 16); (0x000000FF, 8); (0x0000000F, 4); (0x00000003, 2); (0x00000001, 1)]).

Definition ffs64 (n : Z) : Z :=
  if n =? 0 then 0
  else snd (foldl ffs_step (n, 1)
              [(0x00000000FFFFFFFF, 32); (0x000000000000FFFF, 16); (0x00000000000000FF, 8);
               (0x000000000000000F, 4); (0x0000000000000003, 2); (0x0000000000000001, 1)]).

Definition fls_step (w : Z) (st : Z * Z) (step : Z * Z) : Z * Z :=
  let '(n, v) := st in let '(mask, k) := step in
  if Z.land n mask =? 0 then (Z.shiftl n k mod 2 ^ w, v - k) else (n, v).

Definition fls32 (n : Z) : Z :=
  if n =? 0 then 0
  else snd (foldl (fls_step 32) (n, 32)
              [(0xFFFF0000, 16); (0xFF000000, 8); (0xF0000000, 4); (0xC0000000, 2); (0x80000000, 1)]).

Definition fls64 (n : Z) : Z :=
  if n =? 0 then 0
  else snd (foldl (fls_step 64) (n, 64)
              [(0xFFFFFFFF00000000, 32); (0xFFFF000000000000, 16); (0xFF00000000000000, 8);
               (0xF000000000000000, 4); (0xC000000000000000, 2); (0x8000000000000000, 1)]).

(** ** Division by a constant *)

(** The constants of a divisor: [_m], [_s1] and [_s2]. *)
Record divisor := mk_divisor { div_m : Z; div_s1 : Z; div_s2 : Z }.

Definition fast_divide32_prepare (d : Z) : divisor :=
  let l := fls32 (u32 (d - 1)) in
  let mt := u64 (0x100000000 * u64 (Z.shiftl 1 l - d)) in
  mk_divisor (u32 (mt / d + 1)) (if 1 <? l then 1 else l) (if l =? 0 then 0 else l - 1).

Definition fast_divide32 (v : Z) (c : divisor) : Z :=
  let t := u32 (Z.shiftr (u64 (v * div_m c)) 32) in
  Z.shiftr (u32 (t + Z.shiftr (u32 (v - t)) (div_s1 c))) (div_s2 c).

Definition fast_remainder32 (v d : Z) (c : divisor) : Z :=
  u32 (v - u32 (d * fast_divide32 v c)).

(** ** The last bit set *)

(** The [h] bits below bit [w]. *)
Definition high_mask (w h : Z) : Z := Z.shiftl (Z.ones h) (w - h).

Lemma high_mask_zero w h n :
  0 ≤ h ≤ w → 0 ≤ n < 2 ^ w → Z.land n (high_mask w h) = 0 ↔ n < 2 ^ (w - h).
Proof.
  intros Hh Hn. unfold high_mask. split.
  - intros H0. apply (bits_bound (w - h)); [lia..|]. intros i Hi.
    destruct (decide (i < w)) as [Hw|]; [|apply (testbit_high n w); lia].
    assert (Z.testbit (Z.land n (Z.shiftl (Z.ones h) (w - h))) i = false) as Hb
      by (rewrite H0; apply Z.bits_0).
    rewrite Z.land_spec, Z.shiftl_spec, Z.ones_spec_low, andb_true_r in Hb by lia. done.
  - intros Hlt. apply Z.bits_inj'. intros i Hi. rewrite Z.bits_0, Z.land_spec, Z.shiftl_spec by lia.
    destruct (decide (i < w - h)); [rewrite (Z.testbit_neg_r _ (i - (w - h))) by lia; apply andb_false_r|].
    by rewrite (testbit_high n (w - h)) by lia.
Qed.

(** The state of the search for the last bit of [n0]: the word is [n0] moved up, and its
    highest bit is one of the [s] bits at the top. *)
Definition fls_inv (w n0 s : Z) (st : Z * Z) : Prop :=
  0 < fst st < 2 ^ w ∧ snd st ≤ w ∧ fst st = n0 * 2 ^ (w - snd st) ∧ w - s ≤ Z.log2 (fst st).

Lemma fls_step_inv w n0 s h st :
  0 < h → s = 2 * h → s ≤ w → fls_inv w n0 s st → fls_inv w n0 h (fls_step w st (high_mask w h, h)).
Proof.
  intros Hh -> Hw. destruct st as [n v]. unfold fls_inv, fls_step. cbn [fst snd].
  intros (Hn & Hv & -> & Hl). set (n := n0 * 2 ^ (w - v)) in *.
  destruct (Z.eqb_spec (Z.land n (high_mask w h)) 0) as [H0|H0].
  - apply high_mask_zero in H0; [|lia..]. cbn [fst snd].
    assert (n * 2 ^ h < 2 ^ w) as Hlt.
    { replace (2 ^ w) with (2 ^ (w - h) * 2 ^ h) by (rewrite <- Z.pow_add_r by lia; f_equal; lia). nia. }
    rewrite Z.shiftl_mul_pow2, Z.mod_small by nia.
    split; [nia|]. split; [lia|]. split.
    + unfold n. rewrite <- Z.mul_assoc, <- Z.pow_add_r by lia. do 2 f_equal. lia.
    + rewrite Z.log2_mul_pow2 by lia. lia.
  - cbn [fst snd]. split_and!; [lia|lia|done|lia|].
    destruct (decide (w - h ≤ Z.log2 n)) as [|Hc]; [done|]. exfalso. apply H0, high_mask_zero; [lia..|].
    apply Z.log2_lt_pow2; lia.
Qed.

Lemma fls_inv_end w n0 st : 0 < n0 → fls_inv w n0 1 st → snd st = Z.log2 n0 + 1.
Proof.
  destruct st as [n v]. unfold fls_inv. cbn [fst snd]. intros H0 (Hn & Hv & -> & Hl).
  assert (Z.log2 (n0 * 2 ^ (w - v)) < w) by (apply Z.log2_lt_pow2; lia).
  rewrite Z.log2_mul_pow2 in * by lia. lia.
Qed.

Lemma fls_inv_start w n : 0 < w → 0 < n < 2 ^ w → fls_inv w n w (n, w).
Proof.
  intros Hw Hn. unfold fls_inv. cbn [fst snd]. rewrite !Z.sub_diag, Z.mul_1_r.
  pose proof (Z.log2_nonneg n). lia.
Qed.

Lemma fls32_log2 n : 0 < n < 2 ^ 32 → fls32 n = Z.log2 n + 1.
Proof.
  intros Hn. unfold fls32. destruct (Z.eqb_spec n 0); [lia|].
  apply (fls_inv_end 32); [lia|]. cbn [foldl].
  apply (fls_step_inv 32 n 2 1); [done..|]. apply (fls_step_inv 32 n 4 2); [done..|].
  apply (fls_step_inv 32 n 8 4); [done..|]. apply (fls_step_inv 32 n 16 8); [done..|].
  apply (fls_step_inv 32 n 32 16); [done..|]. by apply fls_inv_start.
Qed.

Lemma fls64_log2 n : 0 < n < 2 ^ 64 → fls64 n = Z.log2 n + 1.
Proof.
  intros Hn. unfold fls64. destruct (Z.eqb_spec n 0); [lia|].
  apply (fls_inv_end 64); [lia|]. cbn [foldl].
  apply (fls_step_inv 64 n 2 1); [done..|]. apply (fls_step_inv 64 n 4 2); [done..|].
  apply (fls_step_inv 64 n 8 4); [done..|]. apply (fls_step_inv 64 n 16 8); [done..|].
  apply (fls_step_inv 64 n 32 16); [done..|]. apply (fls_step_inv 64 n 64 32); [done..|].
  by apply fls_inv_start.
Qed.

(** ** The first bit set *)

Lemma ones_zero n h i : 0 ≤ i < h → Z.land n (Z.ones h) = 0 → Z.testbit n i = false.
Proof.
  intros Hi H0. assert (Z.testbit (Z.land n (Z.ones h)) i = false) as Hb by (rewrite H0; apply Z.bits_0).
  by rewrite Z.land_spec, Z.ones_spec_low, andb_true_r in Hb by lia.
Qed.

(** The word is [n0] moved down by [v - 1] bits that are zero, and has one of its [s] lowest
    bits set. *)
Definition ffs_inv (n0 s : Z) (st : Z * Z) : Prop :=
  1 ≤ snd st ∧ fst st = Z.shiftr n0 (snd st - 1) ∧ Z.land (fst st) (Z.ones s) ≠ 0 ∧
  ∀ i, 0 ≤ i < snd st - 1 → Z.testbit n0 i = false.

Lemma ffs_step_inv n0 s h st :
  0 < h → s = 2 * h → ffs_inv n0 s st → ffs_inv n0 h (ffs_step st (Z.ones h, h)).
Proof.
  intros Hh ->. destruct st as [n v]. unfold ffs_inv, ffs_step. cbn [fst snd].
  intros (Hv & -> & Hs & Hz). set (n := Z.shiftr n0 (v - 1)) in *.
  destruct (Z.eqb_spec (Z.land n (Z.ones h)) 0) as [H0|H0]; cbn [fst snd]; [|done].
  split; [lia|]. split; [unfold n; rewrite Z.shiftr_shiftr by lia; f_equal; lia|]. split.
  - intros Hc. apply Hs. apply Z.bits_inj'. intros i Hi. rewrite Z.land_spec, Z.bits_0.
    destruct (decide (i < h)); [by rewrite (ones_zero n h i ltac:(lia) H0)|].
    destruct (decide (i < 2 * h)); [|rewrite Z.ones_spec_high, andb_false_r by lia; done].
    pose proof (ones_zero _ h (i - h) ltac:(lia) Hc) as Hb. rewrite Z.shiftr_spec in Hb by lia.
    replace (i - h + h) with i in Hb by lia. by rewrite Hb.
  - intros i Hi. destruct (decide (i < v - 1)); [by apply Hz; lia|].
    pose proof (ones_zero n h (i - (v - 1)) ltac:(lia) H0) as Hb. unfold n in Hb.
    rewrite Z.shiftr_spec in Hb by lia. by replace (i - (v - 1) + (v - 1)) with i in Hb by lia.
Qed.

(** What a first-bit-set function returns for a word that is not zero. *)
Definition first_set (n r : Z) : Prop :=
  1 ≤ r ∧ Z.testbit n (r - 1) = true ∧ ∀ i, 0 ≤ i < r - 1 → Z.testbit n i = false.

Lemma ffs_inv_end n0 st : ffs_inv n0 1 st → first_set n0 (snd st).
Proof.
  destruct st as [n v]. unfold ffs_inv, first_set. cbn [fst snd]. intros (Hv & -> & Hs & Hz).
  split; [done|]. split; [|done]. destruct (Z.testbit n0 (v - 1)) eqn:Hb; [done|].
  exfalso. apply Hs. apply Z.bits_inj'. intros i Hi. rewrite Z.land_spec, Z.bits_0.
  destruct (decide (i < 1)); [|rewrite Z.ones_spec_high, andb_false_r by lia; done].
  rewrite Z.shiftr_spec by lia. replace (i + (v - 1)) with (v - 1) by lia. by rewrite Hb.
Qed.

Lemma ffs_inv_start w n : 0 ≤ w → 0 < n < 2 ^ w → ffs_inv n w (n, 1).
Proof.
  intros Hw Hn. unfold ffs_inv. cbn [fst snd]. split; [done|]. split; [done|]. split; [|lia].
  rewrite Z.land_ones, Z.mod_small by lia. lia.
Qed.

Lemma ffs32_first n : 0 < n < 2 ^ 32 → first_set n (ffs32 n).
Proof.
  intros Hn. unfold ffs32. destruct (Z.eqb_spec n 0); [lia|]. apply ffs_inv_end. cbn [foldl].
  apply (ffs_step_inv n 2 1); [done..|]. apply (ffs_step_inv n 4 2); [done..|].
  apply (ffs_step_inv n 8 4); [done..|]. apply (ffs_step_inv n 16 8); [done..|].
  apply (ffs_step_inv n 32 16); [done..|]. by apply ffs_inv_start.
Qed.

Lemma ffs64_first n : 0 < n < 2 ^ 64 → first_set n (ffs64 n).
Proof.
  intros Hn. unfold ffs64. destruct (Z.eqb_spec n 0); [lia|]. apply ffs_inv_end. cbn [foldl].
  apply (ffs_step_inv n 2 1); [done..|]. apply (ffs_step_inv n 4 2); [done..|].
  apply (ffs_step_inv n 8 4); [done..|]. apply (ffs_step_inv n 16 8); [done..|].
  apply (ffs_step_inv n 32 16); [done..|]. apply (ffs_step_inv n 64 32); [done..|].
  by apply ffs_inv_start.
Qed.

(** ** Division by a constant *)

(** The arithmetic of the method: [d] is between two powers of two, [m] is the multiplier
    less [2 ^ 32]. *)
Lemma divide_by_multiply d l m v :
  0 < d ≤ 2 ^ l → 0 ≤ l → m = 2 ^ 32 * (2 ^ l - d) / d + 1 → 0 ≤ v < 2 ^ 32 →
  (v * (2 ^ 32 + m)) / 2 ^ (32 + l) = v / d.
Proof.
  intros Hd Hl Hm Hv. set (P := 2 ^ (32 + l)).
  assert (P = 2 ^ 32 * 2 ^ l) as HP by (apply Z.pow_add_r; lia).
  set (r := (2 ^ 32 * (2 ^ l - d)) mod d).
  assert (0 ≤ r < d) as Hr by (apply Z.mod_pos_bound; lia).
  assert ((2 ^ 32 + m) * d = P + (d - r)) as HM.
  { pose proof (Z.div_mod (2 ^ 32 * (2 ^ l - d)) d ltac:(lia)) as He. fold r in He. rewrite Hm, HP. lia. }
  symmetry. apply (Z.div_unique_pos _ _ _ (v * (2 ^ 32 + m) - P * (v / d))); [|lia].
  pose proof (Z.div_mod v d ltac:(lia)) as Hv'. pose proof (Z.mod_pos_bound v d ltac:(lia)) as Hb.
  set (q := v / d) in *. set (b := v mod d) in *.
  assert (v * (2 ^ 32 + m) * d = P * (q * d + b) + v * (d - r)) as Hk.
  { rewrite <- Z.mul_assoc, HM. rewrite Hv' at 1. rewrite Z.mul_add_distr_l. f_equal; lia. }
  assert (0 < 2 ^ l) as Hl0 by lia.
  assert (0 ≤ v * (d - r) < P) as Hvr by (rewrite HP; nia).
  split; nia.
Qed.

Lemma half_sum t v : 0 ≤ t ≤ v → t + (v - t) / 2 = (v + t) / 2.
Proof.
  intros. replace (v + t) with (v - t + t * 2) by lia. rewrite Z.div_add by lia. lia.
Qed.

Lemma prepare_one : fast_divide32_prepare 1 = mk_divisor 1 0 0.
Proof. done. Qed.

(** The constants of a divisor above one. *)
Lemma prepare_above_one d :
  2 ≤ d < 2 ^ 32 →
  let l := Z.log2 (d - 1) + 1 in
  d ≤ 2 ^ l ∧ 1 ≤ l ≤ 32 ∧
  0 ≤ 2 ^ 32 * (2 ^ l - d) / d + 1 < 2 ^ 32 ∧
  fast_divide32_prepare d = mk_divisor (2 ^ 32 * (2 ^ l - d) / d + 1) 1 (l - 1).
Proof.
  intros Hd l.
  pose proof (Z.log2_spec (d - 1) ltac:(lia)) as Hl. pose proof (Z.log2_nonneg (d - 1)) as Hl0.
  assert (Z.log2 (d - 1) < 32) by (apply Z.log2_lt_pow2; lia).
  change (Z.succ (Z.log2 (d - 1))) with l in Hl.
  assert (2 ^ l = 2 * 2 ^ Z.log2 (d - 1)) as Hp by (unfold l; rewrite Z.pow_add_r; lia).
  assert (2 ^ l ≤ 2 ^ 32) as Hle by (apply Z.pow_le_mono_r; unfold l; lia).
  assert (0 ≤ 2 ^ 32 * (2 ^ l - d) / d < 2 ^ 32 - 1) as Hm.
  { split; [apply Z.div_pos; lia|]. apply Z.div_lt_upper_bound; lia. }
  split_and!; [lia|unfold l; lia|unfold l; lia|lia|lia|].
  unfold fast_divide32_prepare. replace (u32 (d - 1)) with (d - 1) by (symmetry; apply Z.mod_small; lia).
  rewrite fls32_log2 by lia. fold l.
  replace (u64 (Z.shiftl 1 l - d)) with (2 ^ l - d)
    by (rewrite Z.shiftl_mul_pow2, Z.mul_1_l by (unfold l; lia); symmetry; apply Z.mod_small; lia).
  replace (u64 (0x100000000 * (2 ^ l - d))) with (2 ^ 32 * (2 ^ l - d))
    by (symmetry; apply Z.mod_small; lia).
  replace (u32 (2 ^ 32 * (2 ^ l - d) / d + 1)) with (2 ^ 32 * (2 ^ l - d) / d + 1)
    by (symmetry; apply Z.mod_small; lia).
  f_equal; [|destruct (Z.eqb_spec l 0); [unfold l in *; lia|done]].
  destruct (Z.ltb_spec 1 l); [done|]. unfold l in *. lia.
Qed.

(** The shifts of [fast_divide32] are a division. *)
Lemma divide_shifts v m l :
  0 ≤ v < 2 ^ 32 → 0 ≤ m < 2 ^ 32 → 1 ≤ l →
  fast_divide32 v (mk_divisor m 1 (l - 1)) = (v * (2 ^ 32 + m)) / 2 ^ (32 + l).
Proof.
  intros Hv Hm Hl. unfold fast_divide32. cbn [div_m div_s1 div_s2].
  replace (u64 (v * m)) with (v * m) by (symmetry; apply Z.mod_small; nia).
  rewrite !Z.shiftr_div_pow2 by lia. set (t := v * m / 2 ^ 32).
  assert (0 ≤ t ≤ v) as Ht.
  { split; [apply Z.div_pos; nia|]. apply Z.div_le_upper_bound; nia. }
  replace (u32 t) with t by (symmetry; apply Z.mod_small; lia).
  replace (u32 (v - t)) with (v - t) by (symmetry; apply Z.mod_small; lia).
  change (2 ^ 1) with 2. rewrite half_sum by done.
  replace (u32 ((v + t) / 2)) with ((v + t) / 2)
    by (symmetry; apply Z.mod_small; split; [apply Z.div_pos; lia|apply Z.div_lt_upper_bound; lia]).
  rewrite Z.div_div by lia. replace (2 * 2 ^ (l - 1)) with (2 ^ l)
    by (rewrite <- Z.pow_succ_r by lia; f_equal; lia).
  rewrite Z.pow_add_r, <- Z.div_div by lia. f_equal. unfold t.
  replace (v * (2 ^ 32 + m)) with (v * m + v * 2 ^ 32) by lia. rewrite Z.div_add by lia. lia.
Qed.

Lemma fast_divide32_run v d :
  0 ≤ v < 2 ^ 32 → 0 < d < 2 ^ 32 →
  fast_divide32 v (fast_divide32_prepare d) = v / d ∧
  fast_remainder32 v d (fast_divide32_prepare d) = v mod d.
Proof.
  intros Hv Hd.
  assert (fast_divide32 v (fast_divide32_prepare d) = v / d) as Hq.
  { destruct (decide (d = 1)) as [->|].
    - rewrite prepare_one, Z.div_1_r. unfold fast_divide32. cbn [div_m div_s1 div_s2].
      rewrite Z.mul_1_r, u64_small by lia. rewrite (Z.shiftr_div_pow2 v 32), (Z.div_small v) by lia.
      change (u32 0) with 0. rewrite !Z.shiftr_0_r, Z.sub_0_r, Z.add_0_l.
      unfold u32. by rewrite !(Z.mod_small v (2 ^ 32)) by lia.
    - destruct (prepare_above_one d) as (Hl & Hl1 & Hm & ->); [lia|].
      rewrite divide_shifts by lia. apply divide_by_multiply; lia. }
  split; [done|]. unfold fast_remainder32. rewrite Hq.
  pose proof (Z.div_mod v d ltac:(lia)) as He. pose proof (Z.mod_pos_bound v d ltac:(lia)).
  assert (0 ≤ d * (v / d) ≤ v) by (split; [apply Z.mul_nonneg_nonneg, Z.div_pos; lia|lia]).
  unfold u32. rewrite (Z.mod_small (d * (v / d))) by lia. rewrite Z.mod_small by lia. lia.
Qed.

(** C38: Dividing by a constant with a multiplication and shifts gives the quotient and the
    remainder of every 32-bit number by every 32-bit divisor other than zero. *)
Theorem fast_divide32_correct v d :
  0 ≤ v < 2 ^ 32 → 0 < d < 2 ^ 32 →
  fast_divide32 v (fast_divide32_prepare d) = v / d ∧
  fast_remainder32 v d (fast_divide32_prepare d) = v mod d.
Proof. apply fast_divide32_run. Qed.

Lemma fast_divide32_correct_witness :
  fast_divide32 4294967295 (fast_divide32_prepare 641) = 4294967295 / 641 ∧
  fast_remainder32 4294967295 641 (fast_divide32_prepare 641) = 4294967295 mod 641.
Proof. apply (fast_divide32_correct 4294967295 641); lia. Defined.
