(* ===== verification/VectorHash.v ===== *)
(** * The hash function of constant databases ([src/npf/libcdb/src/mi_vector_hash.c])

    Three 32-bit hashes of a key. The code reads the key by words when its address is a
    multiple of four, and byte by byte at its end otherwise; both give the same hashes. *)

From S2P Require Import Prelude.

(** A pointer to bytes: the address, and the bytes that can be read from there on. *)
Record ptr := mk_ptr { p_addr : Z; p_mem : list Z }.

(** The number that bytes make, the lowest first. *)
Definition le_val (l : list Z) : Z := foldr (λ b v, b + 256 * v) 0 l.

(** [le32dec] and [le32toh] of a word in memory; [None] reads a byte that is not there. *)
Definition le32dec (m : list Z) (off : nat) : option Z :=
  if decide (off + 4 ≤ length m)%nat then Some (le_val (take 4 (drop off m))) else None.

Definition FIXED_SEED : Z := 0x9e3779b9.

Abbreviation hashes := (Z * Z * Z)%type.

(** A line [x -= y; x -= z; x ^= w] of [mix], with [w] a shift of [z]. *)
Definition mix_step (x y z w : Z) : Z := Z.lxor (u32 (u32 (x - y) - z)) w.

Definition mix (h : hashes) : hashes :=
  let '(a, b, c) := h in
  let a := mix_step a b c (Z.shiftr c 13) in
  let b := mix_step b c a (u32 (Z.shiftl a 8)) in
  let c := mix_step c a b (Z.shiftr b 13) in
  let a := mix_step a b c (Z.shiftr c 12) in
  let b := mix_step b c a (u32 (Z.shiftl a 16)) in
  let c := mix_step c a b (Z.shiftr b 5) in
  let a := mix_step a b c (Z.shiftr c 3) in
  let b := mix_step b c a (u32 (Z.shiftl a 10)) in
  let c := mix_step c a b (Z.shiftr b 15) in
  (a, b, c).

(** The loop over blocks of twelve bytes, the same with [le32dec] on bytes and with words:
    the memory and the length that are left, and the state. *)
Fixpoint hash_blocks (fuel : nat) (k : list Z) (len : nat) (h : hashes)
    : option (list Z * nat * hashes) :=
  match fuel with
  | O => None
  | S fuel =>
      if (12 <=? len)%nat then
        let '(a, b, c) := h in
        x ← le32dec k 0; y ← le32dec k 4; z ← le32dec k 8;
        hash_blocks fuel (drop 12 k) (len - 12) (mix (u32 (a + x), u32 (b + y), u32 (c + z)))
      else Some (k, len, h)
  end.

(** [case n: v += (uint32_t)k[i] << sh] of a switch whose cases fall through downwards. *)
Definition case_add (len n : nat) (k : list Z) (i : nat) (sh v : Z) : option Z :=
  if (n <=? len)%nat then x ← k !! i; Some (u32 (v + u32 (Z.shiftl x sh))) else Some v.

(** The rest of a key at an address that is not a multiple of four. *)
Definition tail_bytes (k : list Z) (len : nat) (h : hashes) : option hashes :=
  let '(a, b, c) := h in
  if (8 <? len)%nat then
    c ← case_add len 11 k 10 24 c;
    c ← case_add len 10 k 9 16 c;
    c ← case_add len 9 k 8 8 c;
    y ← le32dec k 4; x ← le32dec k 0;
    Some (u32 (a + x), u32 (b + y), c)
  else if (4 <? len)%nat then
    b ← case_add len 8 k 7 24 b;
    b ← case_add len 7 k 6 16 b;
    b ← case_add len 6 k 5 8 b;
    b ← case_add len 5 k 4 0 b;
    x ← le32dec k 0;
    Some (u32 (a + x), b, c)
  else if (0 <? len)%nat then
    a ← case_add len 4 k 3 24 a;
    a ← case_add len 3 k 2 16 a;
    a ← case_add len 2 k 1 8 a;
    a ← case_add len 1 k 0 0 a;
    Some (a, b, c)
  else Some (a, b, c).

Definition masks : list Z := [0x000000ff; 0x0000ffff; 0x00ffffff; 0xffffffff].

(** The rest of a key at an address that is a multiple of four. *)
Definition tail_words (k : list Z) (len : nat) (h : hashes) : option hashes :=
  let '(a, b, c) := h in
  if (8 <? len)%nat then
    z ← le32dec k 8; m ← masks !! (len - 9)%nat;
    y ← le32dec k 4; x ← le32dec k 0;
    Some (u32 (a + x), u32 (b + y), u32 (c + u32 (Z.shiftl (Z.land z m) 8)))
  else if (4 <? len)%nat then
    y ← le32dec k 4; m ← masks !! (len - 5)%nat;
    x ← le32dec k 0;
    Some (u32 (a + x), u32 (b + Z.land y m), c)
  else if (0 <? len)%nat then
    x ← le32dec k 0; m ← masks !! (len - 1)%nat;
    Some (u32 (a + Z.land x m), b, c)
  else Some (a, b, c).

Definition mi_vector_hash (key : ptr) (len : nat) (seed : Z) : option hashes :=
  r ← hash_blocks (S len) (p_mem key) len (FIXED_SEED, FIXED_SEED, seed);
  let '(k, rest, (a, b, c)) := r in
  let h := (a, b, u32 (c + u32 (Z.of_nat len))) in
  h ← (if Z.land (p_addr key) 3 =? 0 then tail_words else tail_bytes) k rest h;
  Some (mix h).

(** ** The function it computes

    The key in blocks of three words; the last block is filled up with zeros and its third
    word starts at the second byte, for the length is added to the lowest. *)

Fixpoint vector_blocks (fuel : nat) (k : list Z) (h : hashes) : list Z * hashes :=
  match fuel with
  | O => (k, h)
  | S fuel =>
      if (12 <=? length k)%nat then
        let '(a, b, c) := h in
        vector_blocks fuel (drop 12 k)
          (mix (u32 (a + le_val (take 4 k)), u32 (b + le_val (take 4 (drop 4 k))),
                u32 (c + le_val (take 4 (drop 8 k)))))
      else (k, h)
  end.

Definition vector_hash (key : list Z) (seed : Z) : hashes :=
  let '(k, (a, b, c)) := vector_blocks (S (length key)) key (FIXED_SEED, FIXED_SEED, seed) in
  mix (u32 (a + le_val (take 4 k)), u32 (b + le_val (take 4 (drop 4 k))),
       u32 (c + Z.of_nat (length key) + 256 * le_val (drop 8 k))).

Definition is_byte (b : Z) : Prop := 0 ≤ b < 256.

Lemma le_val_bound l : Forall is_byte l → 0 ≤ le_val l < 2 ^ (8 * Z.of_nat (length l)).
Proof.
  unfold is_byte. induction 1 as [|b l Hb _ IH]; [done|]. cbn [le_val foldr length].
  fold (le_val l). rewrite Nat2Z.inj_succ.
  replace (8 * Z.succ (Z.of_nat (length l))) with (8 + 8 * Z.of_nat (length l)) by lia.
  rewrite Z.pow_add_r by lia. lia.
Qed.

Lemma le32dec_app l rest off :
  (off + 4 ≤ length l)%nat → le32dec (l ++ rest) off = Some (le_val (take 4 (drop off l))).
Proof.
  intros Hl. unfold le32dec. rewrite length_app, decide_True by lia.
  rewrite drop_app_le, take_app_le; [done|rewrite length_drop; lia|lia].
Qed.

Lemma hash_blocks_spec fuel key rest h :
  (length key < fuel)%nat →
  ∃ k' h', vector_blocks fuel key h = (k', h') ∧ (length k' < 12)%nat ∧
    suffix k' key ∧ hash_blocks fuel (key ++ rest) (length key) h = Some (k' ++ rest, length k', h').
Proof.
  revert key h. induction fuel as [|fuel IH]; intros key h Hf; [lia|].
  cbn [vector_blocks hash_blocks]. destruct (Nat.leb_spec 12 (length key)) as [Hl|Hl].
  - destruct h as [[a b] c]. rewrite !le32dec_app by lia. cbn [mbind option_bind].
    rewrite drop_app_le by lia. rewrite <- length_drop, drop_0.
    destruct (IH (drop 12 key) (mix (u32 (a + le_val (take 4 key)), u32 (b + le_val (take 4 (drop 4 key))),
      u32 (c + le_val (take 4 (drop 8 key)))))) as (k' & h' & -> & Hk & Hs & ->); [rewrite length_drop; lia|].
    exists k', h'. split_and!; [done..| |done].
    etrans; [apply Hs|]. exists (take 12 key). by rewrite take_drop.
  - exists key, h. split_and!; [done|lia|done|done].
Qed.

(** ** The end of a key *)

Lemma le_val_app l r : le_val (l ++ r) = le_val l + 2 ^ (8 * Z.of_nat (length l)) * le_val r.
Proof.
  induction l as [|b l IH]; [change (2 ^ (8 * Z.of_nat (@length Z []))) with 1; change (le_val []) with 0; rewrite Z.mul_1_l; done|].
  cbn [le_val foldr app length]. fold (le_val (l ++ r)). fold (le_val l). rewrite IH, Nat2Z.inj_succ.
  replace (8 * Z.succ (Z.of_nat (length l))) with (8 + 8 * Z.of_nat (length l)) by lia.
  rewrite Z.pow_add_r by lia. lia.
Qed.

Lemma masks_lookup n : (n < 4)%nat → masks !! n = Some (Z.ones (8 * Z.of_nat (S n))).
Proof. intros Hn. do 4 (destruct n as [|n]; [done|]). lia. Qed.

(** The mask of a word that goes past the end of the key leaves the bytes of the key. *)
Lemma masked_word k rest off :
  Forall is_byte k → (off < length k ≤ off + 4)%nat → (off + 4 ≤ length k + length rest)%nat →
  ∃ z m, le32dec (k ++ rest) off = Some z ∧ masks !! (length k - (off + 1))%nat = Some m ∧
    Z.land z m = le_val (drop off k).
Proof.
  intros Hb Hl Hr. unfold le32dec. rewrite length_app, decide_True by lia.
  rewrite masks_lookup by lia. eexists _, _. split; [done|]. split; [done|].
  rewrite drop_app_le, take_app_ge, le_val_app by (rewrite ?length_drop; lia).
  rewrite Z.land_ones by lia. rewrite length_drop.
  replace (S (length k - (off + 1))) with (length k - off)%nat by lia.
  rewrite Z.mul_comm, Z.mod_add by (apply Z.pow_nonzero; lia). apply Z.mod_small.
  pose proof (le_val_bound (drop off k) ltac:(by apply Forall_drop)) as H. by rewrite length_drop in H.
Qed.

(** What the end of a key [k] adds to the state. *)
Definition tail_sum (k : list Z) (h h' : hashes) : Prop :=
  let '(a, b, c) := h in let '(a', b', c') := h' in
  u32 a' = u32 (a + le_val (take 4 k)) ∧ u32 b' = u32 (b + le_val (take 4 (drop 4 k))) ∧
  u32 c' = u32 (c + 256 * le_val (drop 8 k)) ∧ ((length k ≤ 8)%nat → c' = c) ∧
  ((8 < length k)%nat → c' = u32 c').

Lemma tail_words_sum k rest h :
  Forall is_byte k → (length k < 12)%nat → (3 ≤ length rest)%nat →
  ∃ h', tail_words (k ++ rest) (length k) h = Some h' ∧ tail_sum k h h'.
Proof.
  intros Hb Hl Hr. destruct h as [[a b] c]. unfold tail_words, tail_sum.
  destruct (Nat.ltb_spec 8 (length k)) as [H8|H8].
  { destruct (masked_word k rest 8 Hb ltac:(lia) ltac:(lia)) as (z & m & -> & Hm & Hz).
    cbn [Nat.add] in Hm. rewrite Hm. rewrite !le32dec_app by lia. cbn [mbind option_bind].
    eexists (_, _, _). split; [done|]. rewrite !u32_idem, u32_add_r, Hz, drop_0, Z.shiftl_mul_pow2 by lia.
    split_and!; [done|done|f_equal; lia|lia|done]. }
  rewrite (drop_ge k 8) by lia. change (le_val []) with 0.
  destruct (Nat.ltb_spec 4 (length k)) as [H4|H4].
  { destruct (masked_word k rest 4 Hb ltac:(lia) ltac:(lia)) as (z & m & -> & Hm & Hz).
    cbn [Nat.add] in Hm. rewrite Hm, le32dec_app by lia. cbn [mbind option_bind].
    eexists (_, _, _). split; [done|]. rewrite !u32_idem, Hz, drop_0, (take_ge (drop 4 k) 4) by (rewrite length_drop; lia).
    split_and!; [done|done|f_equal; lia|done|lia]. }
  rewrite (drop_ge k 4), (take_ge k 4) by lia. change (le_val (take 4 [])) with 0.
  destruct (Nat.ltb_spec 0 (length k)) as [H0|H0].
  { destruct (masked_word k rest 0 Hb ltac:(lia) ltac:(lia)) as (z & m & -> & Hm & Hz).
    cbn [Nat.add] in Hm. rewrite Hm. cbn [mbind option_bind].
    eexists (_, _, _). split; [done|]. rewrite u32_idem, Hz, drop_0, !Z.add_0_r.
    split_and!; [done|done|f_equal; lia|done|lia]. }
  eexists (_, _, _). split; [done|]. assert (k = []) as -> by (apply nil_length_inv; lia).
  change (le_val []) with 0. rewrite !Z.add_0_r. split_and!; [done|done|f_equal; lia|done|cbn; lia].
Qed.

(** Adding bytes one after the other is adding the number they make. *)
Ltac sum_bytes :=
  rewrite ?u32_idem; rewrite ?u32_add_r; rewrite ?Z.shiftl_mul_pow2 by lia;
  repeat (rewrite ?u32_add_l; rewrite <- ?Z.add_assoc);
  f_equal; cbn -[Z.mul Z.pow]; lia.

Lemma tail_bytes_sum k rest h :
  (length k < 12)%nat → ∃ h', tail_bytes (k ++ rest) (length k) h = Some h' ∧ tail_sum k h h'.
Proof.
  intros Hl. destruct h as [[a b] c].
  do 12 (try destruct k as [|? k]); try (cbn in Hl; lia); unfold tail_sum;
    (eexists (_, _, _); split; [cbn -[Z.mul Z.shiftl u32 le_val]; reflexivity|]);
    cbn -[Z.mul Z.shiftl u32 Z.pow Z.add];
    (split_and!; [sum_bytes|sum_bytes|sum_bytes|try done; lia|intros; rewrite ?u32_idem; try done; lia]).
Qed.

Lemma mix_u32 a b c : mix (u32 a, u32 b, c) = mix (a, b, c).
Proof.
  assert (∀ x y z w, mix_step (u32 x) y z w = mix_step x y z w) as Hs.
  { intros. unfold mix_step. do 2 f_equal. f_equal. apply Zminus_mod_idemp_l. }
  assert (∀ x y z w, mix_step x (u32 y) z w = mix_step x y z w) as Hs'.
  { intros. unfold mix_step. do 2 f_equal. f_equal. apply Zminus_mod_idemp_r. }
  unfold mix. by rewrite !Hs, Hs'.
Qed.

Lemma tail_mix k a b c h' :
  tail_sum k (a, b, u32 c) h' →
  mix h' = mix (u32 (a + le_val (take 4 k)), u32 (b + le_val (take 4 (drop 4 k))),
                u32 (c + 256 * le_val (drop 8 k))).
Proof.
  destruct h' as [[a' b'] c']. intros (Ha & Hb & Hc & H8 & H8').
  rewrite <- (mix_u32 a' b' c'), Ha, Hb. do 2 f_equal. rewrite u32_add_l in Hc.
  destruct (decide (length k ≤ 8)%nat).
  - rewrite H8 in Hc |- * by done. by rewrite u32_idem in Hc.
  - rewrite H8' by lia. done.
Qed.

Lemma mi_vector_hash_run addr key rest seed :
  Forall is_byte key →
  (addr mod 4 = 0 → (3 ≤ length rest)%nat) →
  mi_vector_hash (mk_ptr addr (key ++ rest)) (length key) seed = Some (vector_hash key seed).
Proof.
  intros Hb Hr. unfold mi_vector_hash, vector_hash. cbn [p_mem p_addr].
  destruct (hash_blocks_spec (S (length key)) key rest (FIXED_SEED, FIXED_SEED, seed))
    as (k & [[a b] c] & -> & Hk & Hs & ->); [lia|]. cbn [mbind option_bind].
  assert (Forall is_byte k) as Hkb.
  { destruct Hs as [l ->]. by apply Forall_app in Hb as [_ ?]. }
  rewrite u32_add_r. change 3 with (Z.ones 2). rewrite Z.land_ones by lia. change (2 ^ 2) with 4.
  destruct (Z.eqb_spec (addr mod 4) 0) as [Ha|Ha].
  - destruct (tail_words_sum k rest (a, b, u32 (c + Z.of_nat (length key)))) as (h' & -> & Ht); [auto..|].
    cbn [mbind option_bind]. by rewrite (tail_mix _ _ _ _ _ Ht).
  - destruct (tail_bytes_sum k rest (a, b, u32 (c + Z.of_nat (length key)))) as (h' & -> & Ht); [done|].
    cbn [mbind option_bind]. by rewrite (tail_mix _ _ _ _ _ Ht).
Qed.

(** C37: The hashes of a key do not depend on its address nor on the bytes that follow it, and
    are those of the reference function; the words of an aligned key reach up to three
    bytes past its end. *)
Theorem mi_vector_hash_correct addr key rest seed :
  Forall is_byte key →
  (addr mod 4 = 0 → (3 ≤ length rest)%nat) →
  mi_vector_hash (mk_ptr addr (key ++ rest)) (length key) seed = Some (vector_hash key seed).
Proof. apply mi_vector_hash_run. Qed.

Lemma mi_vector_hash_correct_witness :
  mi_vector_hash (mk_ptr 4096 ([1; 2; 3; 4; 5] ++ [255; 7; 9])) 5 77 = Some (vector_hash [1; 2; 3; 4; 5] 77) ∧
  mi_vector_hash (mk_ptr 4097 ([1; 2; 3; 4; 5] ++ [])) 5 77 = Some (vector_hash [1; 2; 3; 4; 5] 77).
Proof.
  split; apply mi_vector_hash_correct;
    first [repeat constructor; done|intros H; vm_compute in H |- *; first [done|lia]].
Defined.

(** An aligned key whose length is no multiple of four is read past its end. *)
Lemma aligned_key_overread key addr seed :
  addr mod 4 = 0 → (length key < 4)%nat → key ≠ [] →
  mi_vector_hash (mk_ptr addr key) (length key) seed = None.
Proof.
  intros Ha Hl Hn. unfold mi_vector_hash. cbn [p_mem p_addr].
  destruct (hash_blocks_spec (S (length key)) key [] (FIXED_SEED, FIXED_SEED, seed))
    as (k & [[a b] c] & Hv & _ & _ & Hr); [lia|]. rewrite app_nil_r in Hr. rewrite Hr.
  assert (k = key) as ->.
  { cbn [vector_blocks] in Hv. destruct (Nat.leb_spec 12 (length key)); [lia|]. by simplify_eq. }
  cbn [mbind option_bind]. rewrite app_nil_r. change 3 with (Z.ones 2). rewrite Z.land_ones by lia.
  change (2 ^ 2) with 4. rewrite Ha, Z.eqb_refl. unfold tail_words.
  destruct key as [|x key]; [done|]. cbn [length] in *.
  destruct (Nat.ltb_spec 8 (S (length key))); [lia|]. destruct (Nat.ltb_spec 4 (S (length key))); [lia|].
  cbn [Nat.ltb Nat.leb]. unfold le32dec. rewrite decide_False by (cbn [length]; lia). done.
Qed.

(** ** The range of the hashes *)

Definition hashes_ok (h : hashes) : Prop :=
  let '(a, b, c) := h in 0 ≤ a < 2 ^ 32 ∧ 0 ≤ b < 2 ^ 32 ∧ 0 ≤ c < 2 ^ 32.

Lemma mix_step_bound x y z w : 0 ≤ w < 2 ^ 32 → 0 ≤ mix_step x y z w < 2 ^ 32.
Proof.
  intros Hw. unfold mix_step. assert (0 ≤ u32 (u32 (x - y) - z) < 2 ^ 32) as Hu by (apply Z.mod_pos_bound; lia).
  apply bits_bound; [lia|apply Z.lxor_nonneg; lia|].
  intros i Hi. by rewrite Z.lxor_spec, (testbit_high w 32), (testbit_high (u32 (u32 (x - y) - z)) 32) by lia.
Qed.

Lemma shiftr_bound x n : 0 ≤ n → 0 ≤ x < 2 ^ 32 → 0 ≤ Z.shiftr x n < 2 ^ 32.
Proof.
  intros Hn Hx. rewrite Z.shiftr_div_pow2 by done. split; [apply Z.div_pos; lia|].
  apply Z.div_lt_upper_bound; [lia|]. assert (1 ≤ 2 ^ n) by (pose proof (Z.pow_pos_nonneg 2 n); lia). nia.
Qed.

Lemma u32_bound x : 0 ≤ u32 x < 2 ^ 32.
Proof. apply Z.mod_pos_bound. lia. Qed.

Lemma mix_ok a b c : hashes_ok (mix (a, b, u32 c)).
Proof.
  unfold mix, hashes_ok.
  repeat (first [split|apply mix_step_bound|apply u32_bound|apply shiftr_bound; [lia|]]).
Qed.

Lemma vector_hash_ok key sd : hashes_ok (vector_hash key sd).
Proof. unfold vector_hash. destruct (vector_blocks _ _ _) as [k [[a b] c]]. apply mix_ok. Qed.
