(* ===== verification/Cdbr.v ===== *)
(** * Reading constant databases ([src/npf/libcdb/src/cdbr.c])

    A database is a file in memory: a header of 40 bytes, a table of numbers for the nodes of
    a hash graph, a table of offsets, and the data. A key leads to three numbers whose sum is
    the index of its record. Addresses are 64-bit numbers that wrap, as the code compares
    them; reading outside the mapping is [None]. *)

From S2P Require Import Prelude Bitops VectorHash.

(** [struct cdbr]: [mmap] is what the mapping contains; the constants of a division that was
    not prepared are [None]; [unmap] is the function of the caller. *)
Record cdbr := mk_cdbr {
  unmap : option Z;
  mmap_base : Z;
  mmap : list Z;
  hash_base : Z;
  offset_base : Z;
  data_base : Z;
  data_size : Z;
  entries : Z;
  entries_index : Z;
  seed : Z;
  offset_size : Z;
  index_size : Z;
  entries_div : option divisor;
  index_div : option divisor;
}.

Inductive error := EINVAL | EIO | ENOMEM.

(** ** Opening *)

(** ["NBCDB\n\0\001"]. *)
Definition cdb_magic : list Z := [78; 66; 67; 68; 66; 10; 0; 1].

(** The width of the numbers of a table, from the largest number. *)
Definition width_of (n : Z) : Z := if n <? 0x100 then 1 else if n <? 0x10000 then 2 else 4.

(** [a / b] steps of padding: what is missing to a multiple of [b]. *)
Definition padding (a b : Z) : Z := if a mod b =? 0 then 0 else b - a mod b.

Definition prepare (d : Z) : option divisor := if d =? 0 then None else Some (fast_divide32_prepare d).

(** The structure of a file at [base], before the places of its parts are checked. *)
Definition cdbr_layout (base : Z) (buf : list Z) (um : option Z) (dsize ents eidx sd : Z) : cdbr :=
  let osize := width_of dsize in
  let isize := width_of eidx in
  let hash := u64 (base + 40) in
  let tbl := u32 (eidx * isize) in
  let off := u64 (u64 (hash + tbl) + padding tbl osize) in
  let dat := u64 (off + u32 (u32 (ents + 1) * osize)) in
  mk_cdbr um base buf hash off dat dsize ents eidx sd osize isize (prepare ents) (prepare eidx).

(** The check of the places. *)
Definition cdbr_bad (c : cdbr) : bool :=
  let base := mmap_base c in
  let last := u64 (data_base c + data_size c) in
  (hash_base c <? base) || (offset_base c <? base) || (data_base c <? base) || (last <? base)
  || (u64 (base + Z.of_nat (length (mmap c))) <? last).

Definition cdbr_open_mem (malloc_ok : bool) (base : Z) (buf : list Z) (um : option Z)
    : option (error + cdbr) :=
  if (Z.of_nat (length buf) <? 40) || negb (bool_decide (take 8 buf = cdb_magic)) then Some (inl EINVAL)
  else if negb malloc_ok then Some (inl ENOMEM)
  else
    dsize ← le32dec buf 24;
    ents ← le32dec buf 28;
    eidx ← le32dec buf 32;
    sd ← le32dec buf 36;
    let c := cdbr_layout base buf um dsize ents eidx sd in
    Some (if cdbr_bad c then inl EINVAL else inr c).

(** ** Reading *)

(** [size] bytes at an address. *)
Definition read_at (c : cdbr) (a : Z) (size : Z) : option Z :=
  let off := a - mmap_base c in
  if decide (0 ≤ off ∧ off + size ≤ Z.of_nat (length (mmap c)))
  then Some (le_val (take (Z.to_nat size) (drop (Z.to_nat off) (mmap c))))
  else None.

Definition get_uintX (c : cdbr) (a idx size : Z) : option Z :=
  read_at c (u64 (a + u32 (idx * size))) (if size =? 4 then 4 else if size =? 2 then 2 else 1).

Definition cdbr_entries (c : cdbr) : Z := entries c.

(** [cdbr_get]: the address and the length of the data. *)
Definition cdbr_get (c : cdbr) (idx : Z) : option (error + Z * Z) :=
  if entries c <=? idx then Some (inl EINVAL)
  else
    st ← get_uintX c (offset_base c) idx (offset_size c);
    en ← get_uintX c (offset_base c) (u32 (idx + 1)) (offset_size c);
    Some (if en <? st then inl EIO
          else if data_size c <? en then inl EIO
          else inr (u64 (data_base c + st), u32 (en - st))).

Definition cdbr_find (c : cdbr) (key : ptr) (key_len : nat) : option (error + Z * Z) :=
  if entries_index c =? 0 then Some (inl EINVAL)
  else
    h ← mi_vector_hash key key_len (seed c);
    d ← index_div c;
    let '(h0, h1, h2) := h in
    x ← get_uintX c (hash_base c) (fast_remainder32 h0 (entries_index c) d) (index_size c);
    y ← get_uintX c (hash_base c) (fast_remainder32 h1 (entries_index c) d) (index_size c);
    z ← get_uintX c (hash_base c) (fast_remainder32 h2 (entries_index c) d) (index_size c);
    d ← entries_div c;
    cdbr_get c (fast_remainder32 (u32 (u32 (x + y) + z)) (entries c) d).

(** ** Files

    The calls of the kernel give what the parameters say, and those that release something
    are recorded. *)

Inductive sys_call := Close (fd : Z) | Munmap (base : Z) (size : Z).

Definition cdbr_unmap (base size : Z) : list sys_call := [Munmap base size].

(** [cdbr_open]: [open], [fstat] and [mmap] give [None] when they fail; the contents of the
    file are what [mmap] maps, and the address of [cdbr_unmap] is [fn]. *)
Definition cdbr_open (open : option Z) (fstat : option Z) (do_mmap : Z → option (Z * list Z))
    (malloc_ok : bool) (fn : Z) : option (option cdbr * list sys_call) :=
  match open with
  | None => Some (None, [])
  | Some fd =>
      match fstat with
      | None => Some (None, [Close fd])
      | Some size =>
          if 2 ^ 63 - 1 <=? size then Some (None, [Close fd])
          else
            match do_mmap size with
            | None => Some (None, [Close fd])
            | Some (base, buf) =>
                r ← cdbr_open_mem malloc_ok base buf (Some fn);
                Some (match r with
                      | inl _ => (None, Close fd :: cdbr_unmap base size)
                      | inr c => (Some c, [Close fd])
                      end)
            end
      end
  end.

(** [cdbr_close]: the call of the function of the caller; the structure is gone. *)
Definition cdbr_close (c : cdbr) : list (Z * Z * Z) :=
  match unmap c with
  | Some fn => [(fn, mmap_base c, Z.of_nat (length (mmap c)))]
  | None => []
  end.

(** ** What an opened database guarantees *)

Lemma width_of_cases n : width_of n = 1 ∨ width_of n = 2 ∨ width_of n = 4.
Proof. unfold width_of. destruct (n <? 0x100), (n <? 0x10000); auto. Qed.

Lemma padding_bound a b : 0 < b → 0 ≤ padding a b < b.
Proof. intros Hb. unfold padding. pose proof (Z.mod_pos_bound a b Hb). destruct (Z.eqb_spec (a mod b) 0); lia. Qed.

Lemma read_at_ok c a size :
  mmap_base c ≤ a → a + size ≤ mmap_base c + Z.of_nat (length (mmap c)) → 
  read_at c a size =
  Some (le_val (take (Z.to_nat size) (drop (Z.to_nat (a - mmap_base c)) (mmap c)))).
Proof. intros. unfold read_at. by rewrite decide_True by lia. Qed.

(** The tables of a database are inside its mapping, without wrapping around. *)
Record layout_ok (c : cdbr) : Prop := {
  lo_base : 0 ≤ mmap_base c;
  lo_end : mmap_base c + Z.of_nat (length (mmap c)) < 2 ^ 64;
  lo_isize : index_size c = width_of (entries_index c);
  lo_osize : offset_size c = width_of (data_size c);
  lo_eidx : 0 ≤ entries_index c < 2 ^ 30;
  lo_ents : 0 ≤ entries c < 2 ^ 30 - 1;
  lo_dsize : 0 ≤ data_size c < 2 ^ 32;
  lo_hash : hash_base c = mmap_base c + 40;
  lo_offset : offset_base c =
    hash_base c + entries_index c * index_size c + padding (entries_index c * index_size c) (offset_size c);
  lo_data : data_base c = offset_base c + (entries c + 1) * offset_size c;
  lo_inside : data_base c + data_size c ≤ mmap_base c + Z.of_nat (length (mmap c));
  lo_ediv : entries_div c = prepare (entries c);
  lo_idiv : index_div c = prepare (entries_index c);
}.

Lemma le32dec_bound m off v : Forall is_byte m → le32dec m off = Some v → 0 ≤ v < 2 ^ 32.
Proof.
  intros Hb. unfold le32dec. case_decide; [|done]. intros [= <-].
  pose proof (le_val_bound (take 4 (drop off m)) ltac:(by apply Forall_take, Forall_drop)) as Hv.
  by rewrite length_take, length_drop, Nat.min_l in Hv by lia.
Qed.

Lemma u64_once z : 0 ≤ z < 2 ^ 65 → u64 z = z ∧ z < 2 ^ 64 ∨ 2 ^ 64 ≤ z ∧ u64 z = z - 2 ^ 64.
Proof.
  intros Hz. destruct (decide (z < 2 ^ 64)); [left; split; [apply u64_small|]; lia|right].
  split; [lia|]. symmetry. apply (Z.mod_unique_pos _ _ 1); lia.
Qed.

(** Parts of less than 2^33 bytes that all seem to be behind [base] did not wrap. *)
Lemma layout_sums base x p y d e :
  0 ≤ base < e → e < 2 ^ 64 → base + 40 < 2 ^ 64 →
  0 ≤ x < 2 ^ 33 → 0 ≤ p < 4 → 0 ≤ y < 2 ^ 33 → 0 ≤ d < 2 ^ 32 →
  base ≤ u64 (u64 (base + 40 + x) + p) →
  base ≤ u64 (u64 (u64 (base + 40 + x) + p) + y) →
  base ≤ u64 (u64 (u64 (u64 (base + 40 + x) + p) + y) + d) →
  u64 (u64 (base + 40 + x) + p) = base + 40 + x + p ∧
  u64 (u64 (u64 (base + 40 + x) + p) + y) = base + 40 + x + p + y ∧
  u64 (u64 (u64 (u64 (base + 40 + x) + p) + y) + d) = base + 40 + x + p + y + d.
Proof.
  intros Hb He H40 Hx Hp Hy Hd B1 B2 B3.
  destruct (u64_once (base + 40 + x)) as [[E1 ?]|[? E1]]; [lia| |]; rewrite E1 in *;
    (match goal with |- context [u64 (?a + p)] =>
       destruct (u64_once (a + p)) as [[E2 ?]|[? E2]]; [lia| |]; rewrite E2 in * end);
    (match goal with |- context [u64 (?a + y)] =>
       destruct (u64_once (a + y)) as [[E3 ?]|[? E3]]; [lia| |]; rewrite E3 in * end);
    (match goal with |- context [u64 (?a + d)] =>
       destruct (u64_once (a + d)) as [[E4 ?]|[? E4]]; [lia| |]; rewrite E4 in * end); lia.
Qed.

Lemma layout_no_wrap base buf um dsize ents eidx sd :
  0 ≤ base → base + Z.of_nat (length buf) < 2 ^ 64 → (40 ≤ length buf)%nat →
  0 ≤ dsize < 2 ^ 32 → 0 ≤ ents < 2 ^ 30 - 1 → 0 ≤ eidx < 2 ^ 30 →
  cdbr_bad (cdbr_layout base buf um dsize ents eidx sd) = false →
  layout_ok (cdbr_layout base buf um dsize ents eidx sd).
Proof.
  intros Hb He H40 Hd Hn Hi Hbad. unfold cdbr_bad, cdbr_layout in *. cbn -[u64 u32 Z.pow Z.mul] in *.
  set (isz := width_of eidx) in *. set (osz := width_of dsize) in *.
  assert (1 ≤ isz ≤ 4) by (subst isz; destruct (width_of_cases eidx) as [->|[->| ->]]; lia).
  assert (1 ≤ osz ≤ 4) by (subst osz; destruct (width_of_cases dsize) as [->|[->| ->]]; lia).
  assert (u32 (eidx * isz) = eidx * isz) as Ht by (apply Z.mod_small; nia).
  assert (u32 (u32 (ents + 1) * osz) = (ents + 1) * osz) as Ho.
  { unfold u32. rewrite (Z.mod_small (ents + 1)) by lia. apply Z.mod_small. nia. }
  rewrite Ht, Ho in *. pose proof (padding_bound (eidx * isz) osz ltac:(lia)) as Hp.
  rewrite !orb_false_iff, !Z.ltb_ge in Hbad. destruct Hbad as ((((B1 & B2) & B3) & B4) & B5).
  rewrite (u64_small (base + 40)) in * by lia.
  rewrite (u64_small (base + Z.of_nat (length buf))) in B5 by lia.
  destruct (layout_sums base (eidx * isz) (padding (eidx * isz) osz) ((ents + 1) * osz) dsize
    (base + Z.of_nat (length buf))) as (E1 & E2 & E3); [nia..|done|done|done|].
  rewrite E3 in B5. rewrite E1 in *. rewrite E2 in *.
  constructor; cbn -[u64 u32 Z.pow Z.mul]; try done; try lia.
Qed.

(** ** Reads inside the mapping *)

(** A table of numbers in the mapping: the index stays inside, and so does the read. *)
Lemma get_uintX_ok c a n i s :
  0 ≤ mmap_base c → mmap_base c + Z.of_nat (length (mmap c)) < 2 ^ 64 → Forall is_byte (mmap c) →
  s = 1 ∨ s = 2 ∨ s = 4 → mmap_base c ≤ a → a + n * s ≤ mmap_base c + Z.of_nat (length (mmap c)) →
  0 ≤ i < n → n ≤ 2 ^ 30 →
  get_uintX c a i s =
  Some (le_val (take (Z.to_nat s) (drop (Z.to_nat (a + i * s - mmap_base c)) (mmap c)))) ∧
  0 ≤ le_val (take (Z.to_nat s) (drop (Z.to_nat (a + i * s - mmap_base c)) (mmap c))) < 2 ^ 32.
Proof.
  intros Hb He Hf Hs Ha Hn Hi Hn30. unfold get_uintX.
  assert (u32 (i * s) = i * s) as -> by (apply Z.mod_small; nia).
  rewrite u64_small by nia.
  replace (if s =? 4 then 4 else if s =? 2 then 2 else 1) with s by (by destruct Hs as [->|[->| ->]]).
  rewrite read_at_ok by nia. split; [done|].
  pose proof (le_val_bound (take (Z.to_nat s) (drop (Z.to_nat (a + i * s - mmap_base c)) (mmap c)))
    ltac:(by apply Forall_take, Forall_drop)) as Hv.
  rewrite length_take, length_drop, Nat.min_l in Hv by nia.
  assert (2 ^ (8 * Z.of_nat (Z.to_nat s)) ≤ 2 ^ 32) by (apply Z.pow_le_mono_r; lia). lia.
Qed.

(** What a read of a record may give. *)
Definition get_result (c : cdbr) (idx : Z) (r : error + Z * Z) : Prop :=
  match r with
  | inl EINVAL => entries c ≤ idx
  | inl EIO => idx < entries c
  | inl ENOMEM => False
  | inr (a, len) =>
      idx < entries c ∧ data_base c ≤ a ∧ 0 ≤ len ∧ a + len ≤ data_base c + data_size c ∧
      data_base c + data_size c ≤ mmap_base c + Z.of_nat (length (mmap c))
  end.

Lemma table_sizes c :
  layout_ok c →
  (index_size c = 1 ∨ index_size c = 2 ∨ index_size c = 4) ∧
  (offset_size c = 1 ∨ offset_size c = 2 ∨ offset_size c = 4) ∧
  0 ≤ padding (entries_index c * index_size c) (offset_size c) < 4.
Proof.
  intros H. rewrite (lo_isize c H), (lo_osize c H).
  pose proof (width_of_cases (entries_index c)). pose proof (width_of_cases (data_size c)) as Hw.
  split_and!; [done|done|..];
    pose proof (padding_bound (entries_index c * width_of (entries_index c)) (width_of (data_size c)));
    destruct Hw as [E|[E|E]]; rewrite E in *; lia.
Qed.

Lemma cdbr_get_safe c idx :
  layout_ok c → Forall is_byte (mmap c) → 0 ≤ idx → ∃ r, cdbr_get c idx = Some r ∧ get_result c idx r.
Proof.
  intros H Hf Hi. pose proof (table_sizes c H) as (Hs & Ho & Hp). destruct H.
  unfold cdbr_get. destruct (Z.leb_spec (entries c) idx); [eexists; split; [done|]; done|].
  assert (u32 (idx + 1) = idx + 1) as -> by (apply Z.mod_small; lia).
  assert (mmap_base c ≤ offset_base c) by (destruct Hs as [E|[E|E]]; rewrite E in *; lia).
  destruct (get_uintX_ok c (offset_base c) (entries c + 1) idx (offset_size c)) as [-> Hst]; [try done; lia..|].
  destruct (get_uintX_ok c (offset_base c) (entries c + 1) (idx + 1) (offset_size c)) as [-> Hen]; [try done; lia..|].
  cbn [mbind option_bind]. eexists. split; [done|].
  match goal with |- context [?en <? ?st] => set (v1 := st) in *; set (v2 := en) in * end.
  destruct (Z.ltb_spec v2 v1); [done|]. destruct (Z.ltb_spec (data_size c) v2); [done|]. cbn [get_result].
  assert (0 ≤ data_base c) by (destruct Ho as [E|[E|E]]; rewrite E in *; lia).
  rewrite u64_small by lia. assert (u32 (v2 - v1) = v2 - v1) as -> by (apply Z.mod_small; lia). lia.
Qed.

Lemma remainder_range h d : 0 ≤ h < 2 ^ 32 → 0 < d < 2 ^ 32 →
  fast_remainder32 h d (fast_divide32_prepare d) = h mod d ∧ 0 ≤ h mod d < d.
Proof. intros. split; [by apply fast_divide32_run|]. apply Z.mod_pos_bound. lia. Qed.

(** The three nodes of a key. *)
Definition node_value (c : cdbr) (h : Z) : Z :=
  le_val (take (Z.to_nat (index_size c))
    (drop (Z.to_nat (40 + (h mod entries_index c) * index_size c)) (mmap c))).

Lemma node_read c h d :
  layout_ok c → Forall is_byte (mmap c) → 0 ≤ h < 2 ^ 32 → 0 < entries_index c →
  index_div c = Some d →
  get_uintX c (hash_base c) (fast_remainder32 h (entries_index c) d) (index_size c) = Some (node_value c h) ∧
  0 ≤ node_value c h < 2 ^ 32.
Proof.
  intros H Hf Hh He Hd. pose proof (table_sizes c H) as (Hs & Ho & Hp). destruct H.
  rewrite lo_idiv0 in Hd. unfold prepare in Hd. destruct (Z.eqb_spec (entries_index c) 0); [lia|].
  injection Hd as <-. destruct (remainder_range h (entries_index c)) as [-> Hr]; [lia..|].
  assert (0 ≤ offset_size c ≤ 4) by (destruct Ho as [E|[E|E]]; rewrite E; lia).
  assert (0 ≤ (entries c + 1) * offset_size c) by nia.
  destruct (get_uintX_ok c (hash_base c) (entries_index c) (h mod entries_index c) (index_size c))
    as [-> Hv]; [try done; lia..|].
  unfold node_value.
  replace (hash_base c + h mod entries_index c * index_size c - mmap_base c)
    with (40 + h mod entries_index c * index_size c) in * by lia. done.
Qed.

(** A lookup reads the three nodes and the record of their sum. *)
Lemma cdbr_find_run c key len h0 h1 h2 :
  layout_ok c → Forall is_byte (mmap c) → 0 < entries_index c → 0 < entries c →
  mi_vector_hash key len (seed c) = Some (h0, h1, h2) → hashes_ok (h0, h1, h2) →
  cdbr_find c key len =
  cdbr_get c (u32 (node_value c h0 + node_value c h1 + node_value c h2) mod entries c).
Proof.
  intros H Hf He Hn Hh (H0 & H1 & H2). unfold cdbr_find. destruct (Z.eqb_spec (entries_index c) 0); [lia|].
  rewrite Hh. cbn [mbind option_bind].
  destruct (index_div c) as [d|] eqn:Hd;
    [|rewrite (lo_idiv c H) in Hd; unfold prepare in Hd; destruct (Z.eqb_spec (entries_index c) 0); [lia|done]].
  cbn [mbind option_bind].
  destruct (node_read c h0 d) as [-> _]; [done..|]. destruct (node_read c h1 d) as [-> _]; [done..|].
  destruct (node_read c h2 d) as [-> _]; [done..|]. cbn [mbind option_bind].
  rewrite (lo_ediv c H). unfold prepare. destruct (Z.eqb_spec (entries c) 0); [lia|]. cbn [mbind option_bind].
  f_equal. rewrite u32_add_l. apply remainder_range; [apply u32_bound|].
  pose proof (lo_ents c H). lia.
Qed.


(** A database without keys nor data, as the code writes it. *)
Definition empty_file : list Z :=
  cdb_magic ++ replicate 16 0 ++ replicate 4 0 ++ [1; 0; 0; 0] ++ [1; 0; 0; 0] ++ replicate 4 0
  ++ [0] ++ [0; 0].


(** Without the bounds on the counts the check of the places wraps around: this file of 42
    bytes opens, and looking for a key in it reads far outside. *)
Definition wrapping_file : list Z :=
  cdb_magic ++ replicate 16 0 ++ replicate 4 0 ++ [1; 0; 0; 0] ++ [0; 0; 0; 64] ++ replicate 4 0 ++ [0; 0].

Lemma wrapping_file_reads_outside :
  match cdbr_open_mem true 4096 wrapping_file None with
  | Some (inr c) => cdbr_find c (mk_ptr 8192 [107; 101; 121; 0]) 3 = None
  | _ => False
  end.
Proof. vm_compute. reflexivity. Qed.

(** A file with nodes and no records opens too; a lookup divides with constants that were
    never prepared. *)
Definition no_records_file : list Z :=
  cdb_magic ++ replicate 16 0 ++ replicate 4 0 ++ [0; 0; 0; 0] ++ [1; 0; 0; 0] ++ replicate 4 0 ++ [0; 0].

Lemma no_records_find_undefined :
  match cdbr_open_mem true 4096 no_records_file None with
  | Some (inr c) => cdbr_find c (mk_ptr 8192 [107; 101; 121; 0]) 3 = None
  | _ => False
  end.
Proof. vm_compute. reflexivity. Qed.

(** Opening a file never reads outside of it, whatever it holds. *)
Lemma cdbr_open_mem_total malloc_ok base buf um : is_Some (cdbr_open_mem malloc_ok base buf um).
Proof.
  unfold cdbr_open_mem. destruct (Z.ltb_spec (Z.of_nat (length buf)) 40); cbn [orb]; [done|].
  destruct (negb (bool_decide _)); [done|]. destruct malloc_ok; cbn [negb]; [|done].
  unfold le32dec. rewrite !decide_True by lia. done.
Qed.

(** The descriptor of a file is closed whatever happens, and a mapping that does not become
    a database is given back. *)
Lemma cdbr_open_releases fd fstat do_mmap malloc_ok fn r calls :
  cdbr_open (Some fd) fstat do_mmap malloc_ok fn = Some (r, calls) →
  Close fd ∈ calls ∧
  ∀ size base buf, fstat = Some size → size < 2 ^ 63 - 1 → do_mmap size = Some (base, buf) →
    r = None ↔ Munmap base size ∈ calls.
Proof.
  unfold cdbr_open. destruct fstat as [size|]; [|intros [= <- <-]; set_solver].
  destruct (Z.leb_spec (2 ^ 63 - 1) size); [intros [= <- <-]; split; [set_solver|]; intros ??? [= <-]; lia|].
  destruct (do_mmap size) as [[base buf]|] eqn:Hm; [|intros [= <- <-]; split; [set_solver|]; naive_solver].
  destruct (cdbr_open_mem_total malloc_ok base buf (Some fn)) as [[e|c] ->]; cbn [mbind option_bind];
    intros [= <- <-]; (split; [set_solver|]); intros ??? [= <-] _; rewrite Hm; intros [= <- <-]; set_solver.
Qed.

(** Closing gives the mapping of [cdbr_open] back to [cdbr_unmap]. *)
Lemma cdbr_close_unmaps malloc_ok base buf um c :
  cdbr_open_mem malloc_ok base buf um = Some (inr c) →
  cdbr_close c = match um with Some fn => [(fn, base, Z.of_nat (length buf))] | None => [] end.
Proof.
  unfold cdbr_open_mem. destruct (_ || _); [done|]. destruct (negb malloc_ok); [done|].
  destruct (le32dec buf 24), (le32dec buf 28), (le32dec buf 32), (le32dec buf 36); cbn [mbind option_bind]; try done.
  destruct (cdbr_bad _); [done|]. intros [= <-]. done.
Qed.
