(* ===== verification/Cdbw.v ===== *)
(** * Building constant databases ([src/npf/libcdb/src/cdbw.c]): the records and the keys

    A database under construction is an array of records and a hash table of keys; each key
    names the record it leads to. Memory comes from [malloc], which may refuse; a block knows
    its address and what happens to follow it, because the hash function reads the words that
    a key does not fill. *)

From S2P Require Import Prelude VectorHash.

(** ** Memory *)

(** A block: its name, its address, its contents and the bytes that follow it. *)
Record block := mk_block { b_id : positive; b_addr : Z; b_bytes : list Z; b_after : list Z }.

Definition block_ptr (b : block) : ptr := mk_ptr (b_addr b) (b_bytes b ++ b_after b).

(** The blocks that are allocated, and the number of requests so far. *)
Record memory := mk_memory { live : gset positive; requests : nat }.

Section Cdbw.

(** The answer of the allocator to each request: NULL, or an address and what is behind the
    block. *)
Context (answer : nat → option (Z * list Z)).

Definition malloc (bytes : list Z) : M memory (option block) := λ m,
  match answer (requests m) with
  | None => Some (None, mk_memory (live m) (S (requests m)))
  | Some (a, after) =>
      let p := fresh (live m) in
      Some (Some (mk_block p a bytes after), mk_memory ({[p]} ∪ live m) (S (requests m)))
  end.

(** Memory whose contents are kept elsewhere: the structures and the arrays. *)
Definition alloc : M memory (option positive) :=
  b ← malloc []; mret (b_id <$> b).

(** [free]; nothing for NULL, and what is not allocated must not be freed. *)
Definition free (p : option positive) : M memory unit :=
  match p with
  | None => mret tt
  | Some p =>
      l ← gets (λ m, bool_decide (p ∈ live m));
      massert l;; modify (λ m, mk_memory (live m ∖ {[p]}) (requests m))
  end.

(** [realloc]: the new array replaces the old one, which stays when there is no memory. *)
Definition realloc (p : option positive) : M memory (option positive) :=
  q ← alloc;
  match q with
  | None => mret None
  | Some q => free p;; mret (Some q)
  end.

(** ** Data *)

Record key_hash := mk_key_hash {
  kh_id : positive;
  kh_hashes : hashes;
  kh_idx : Z;
  kh_key : block;
  kh_keylen : nat;
}.

(** An element of the array of records: not written yet, NULL, or a block. *)
Inductive slot := Uninit | Null | Data (b : block).

Record cdbw := mk_cdbw {
  w_id : positive;
  data_counter : nat;
  data_allocated : nat;
  w_data_size : Z;
  data_len : list (option nat);
  data_len_id : option positive;
  data_ptr : list slot;
  data_ptr_id : option positive;
  hash_size : nat;
  hash : list (list key_hash);
  hash_id : option positive;
  key_counter : nat;
}.

Definition max_data_counter : Z := 0xcccccccc.

Definition cdbw_open : M memory (option cdbw) :=
  w ← alloc;
  match w with
  | None => mret None
  | Some w =>
      h ← alloc;
      match h with
      | None => free (Some w);; mret None
      | Some h => mret (Some (mk_cdbw w 0 0 0 [] None [] None 1024 (replicate 1024 []) (Some h) 0))
      end
  end.

(** ** Records *)

Definition set_arrays (w : cdbw) (alloc : nat) (dl : list (option nat)) (dli : option positive)
    (dp : list slot) (dpi : option positive) : cdbw :=
  mk_cdbw (w_id w) (data_counter w) alloc (w_data_size w) dl dli dp dpi (hash_size w) (hash w)
    (hash_id w) (key_counter w).

(** The arrays are enlarged when they are full; the first of the two may be enlarged alone. *)
Definition grow_arrays (w : cdbw) : M memory (bool * cdbw) :=
  if (data_allocated w =? data_counter w)%nat then
    let new_allocated := if (data_allocated w =? 0)%nat then 256%nat else (data_allocated w * 2)%nat in
    p ← realloc (data_ptr_id w);
    match p with
    | None => mret (false, w)
    | Some p =>
        let w := set_arrays w (data_allocated w) (data_len w) (data_len_id w)
                   (resize new_allocated Uninit (data_ptr w)) (Some p) in
        q ← realloc (data_len_id w);
        match q with
        | None => mret (false, w)
        | Some q =>
            mret (true, set_arrays w new_allocated (resize new_allocated None (data_len w)) (Some q)
                          (data_ptr w) (data_ptr_id w))
        end
    end
  else mret (true, w).

(** [data_ptr[i] = s]; [None] is a write out of the array. *)
Definition set_data_ptr (w : cdbw) (i : nat) (s : slot) : M memory cdbw :=
  massert (i <? length (data_ptr w))%nat;;
  mret (set_arrays w (data_allocated w) (data_len w) (data_len_id w) (<[i := s]> (data_ptr w)) (data_ptr_id w)).

Definition set_data_len (w : cdbw) (i : nat) (n : nat) : M memory cdbw :=
  massert (i <? length (data_len w))%nat;;
  mret (set_arrays w (data_allocated w) (<[i := Some n]> (data_len w)) (data_len_id w) (data_ptr w) (data_ptr_id w)).

Definition set_counters (w : cdbw) (n : nat) (size : Z) (keys : nat) : cdbw :=
  mk_cdbw (w_id w) n (data_allocated w) size (data_len w) (data_len_id w) (data_ptr w) (data_ptr_id w)
    (hash_size w) (hash w) (hash_id w) keys.

(** [cdbw_put_data]: the index of the record, or [None] for [-1]. *)
Definition cdbw_put_data (w : cdbw) (data : list Z) : M memory (option Z * cdbw) :=
  let datalen := Z.of_nat (length data) in
  if Z.of_nat (data_counter w) =? max_data_counter then mret (None, w)
  else if (u64 (w_data_size w + datalen) <? w_data_size w) || (0xffffffff <? u64 (w_data_size w + datalen))
  then mret (None, w)
  else
    g ← grow_arrays w;
    let '(ok, w) := g in
    if negb ok then mret (None, w)
    else
      b ← malloc data;
      match b with
      | None => w ← set_data_ptr w (data_counter w) Null; mret (None, w)
      | Some b =>
          w ← set_data_ptr w (data_counter w) (Data b);
          w ← set_data_len w (data_counter w) (length data);
          mret (Some (u32 (Z.of_nat (data_counter w))),
                set_counters w (S (data_counter w)) (u64 (w_data_size w + datalen)) (key_counter w))
      end.

(** ** Keys *)

(** The chain of a hash: [hashes[0] & (size - 1)]. *)
Definition chain_of (size : nat) (h : hashes) : nat :=
  Z.to_nat (Z.land (fst (fst h)) (u64 (Z.of_nat size - 1))).

(** The first [n] bytes at a pointer. *)
Definition read_bytes (p : ptr) (n : nat) : option (list Z) :=
  if decide (n ≤ length (p_mem p))%nat then Some (take n (p_mem p)) else None.

(** Whether an entry holds the key. *)
Definition same_key (h : hashes) (key : list Z) (k : key_hash) : bool :=
  bool_decide (kh_keylen k = length key) && bool_decide (kh_hashes k = h)
  && bool_decide (b_bytes (kh_key k) = key).

(** [SLIST_INSERT_HEAD] into the chain of an entry. *)
Definition insert_entry (size : nat) (t : list (list key_hash)) (k : key_hash) : option (list (list key_hash)) :=
  let i := chain_of size (kh_hashes k) in
  c ← t !! i; Some (<[i := k :: c]> t).

Fixpoint insert_all (size : nat) (t : list (list key_hash)) (l : list key_hash) : option (list (list key_hash)) :=
  match l with
  | [] => Some t
  | k :: l => t ← insert_entry size t k; insert_all size t l
  end.

Definition set_hash (w : cdbw) (size : nat) (t : list (list key_hash)) (id : option positive) : cdbw :=
  mk_cdbw (w_id w) (data_counter w) (data_allocated w) (w_data_size w) (data_len w) (data_len_id w)
    (data_ptr w) (data_ptr_id w) size t id (key_counter w).

(** The table is doubled when it has more keys than chains; without memory it stays. *)
Definition resize_hash (w : cdbw) : M memory cdbw :=
  if (key_counter w <=? hash_size w)%nat then mret w
  else
    let size := (hash_size w * 2)%nat in
    p ← alloc;
    match p with
    | None => mret w
    | Some p =>
        t ← unwrap (insert_all size (replicate size []) (mjoin (hash w)));
        free (hash_id w);;
        mret (set_hash w size t (Some p))
    end.

(** [cdbw_put_key]: [true] for [0], [false] for [-1]. *)
Definition cdbw_put_key (w : cdbw) (key : ptr) (keylen : nat) (idx : Z) : M memory (bool * cdbw) :=
  if (Z.of_nat (data_counter w) <=? idx) || (Z.of_nat (key_counter w) =? max_data_counter) then mret (false, w)
  else
    h ← unwrap (mi_vector_hash key keylen 0);
    bytes ← unwrap (read_bytes key keylen);
    c ← unwrap (hash w !! chain_of (hash_size w) h);
    if existsb (same_key h bytes) c then mret (false, w)
    else
      p ← alloc;
      match p with
      | None => mret (false, w)
      | Some p =>
          b ← malloc bytes;
          match b with
          | None => free (Some p);; mret (false, w)
          | Some b =>
              t ← unwrap (insert_entry (hash_size w) (hash w) (mk_key_hash p h idx b keylen));
              let w := set_hash w (hash_size w) t (hash_id w) in
              w ← resize_hash (set_counters w (data_counter w) (w_data_size w) (S (key_counter w)));
              mret (true, w)
          end
      end.

(** The record that [free] is given by [data_ptr[i]]. *)
Definition free_slot (w : cdbw) (i : nat) : M memory unit :=
  s ← unwrap (data_ptr w !! i);
  match s with
  | Uninit => crash
  | Null => mret tt
  | Data b => free (Some (b_id b))
  end.

Definition cdbw_put (w : cdbw) (key : ptr) (keylen : nat) (data : list Z) : M memory (bool * cdbw) :=
  r ← cdbw_put_data w data;
  let '(idx, w) := r in
  match idx with
  | None => mret (false, w)
  | Some idx =>
      r ← cdbw_put_key w key keylen idx;
      let '(ok, w) := r in
      if (ok : bool) then mret (true, w)
      else
        let w := set_counters w (data_counter w - 1) (w_data_size w) (key_counter w) in
        free_slot w (data_counter w);;
        mret (false, set_counters w (data_counter w) (u64 (w_data_size w - Z.of_nat (length data))) (key_counter w))
  end.

Fixpoint free_keys (l : list key_hash) : M memory unit :=
  match l with
  | [] => mret tt
  | k :: l => free (Some (b_id (kh_key k)));; free (Some (kh_id k));; free_keys l
  end.

Fixpoint free_slots (w : cdbw) (l : list nat) : M memory unit :=
  match l with
  | [] => mret tt
  | i :: l => free_slot w i;; free_slots w l
  end.

Definition cdbw_close (w : cdbw) : M memory unit :=
  free_keys (mjoin (hash w));;
  free_slots w (seq 0 (data_counter w));;
  free (data_ptr_id w);;
  free (data_len_id w);;
  free (hash_id w);;
  free (Some (w_id w)).

End Cdbw.
