(* ===== verification/CdbGraph.v ===== *)
(** * The hash graph of a constant database ([src/npf/libcdb/src/cdbw.c]): construction

    Every key is an edge of a graph whose edges have three nodes. The edges of a node are in
    three doubly linked lists, one for each position that the node can have in an edge. A
    node with one edge gives up that edge; when every edge can be removed this way, the
    nodes are given numbers in the opposite order. *)

From stdpp Require Import fin_sets.
From S2P Require Import Prelude VectorHash Cdbw.

(** ** Data

    The number [unused] is [None]. The fields [l_*], [m_*] and [r_*] are selected by the
    position of the node in the edge. *)

Inductive side := SideL | SideM | SideR.

#[global] Instance side_eq_dec : EqDecision side.
Proof. solve_decision. Defined.

Record vertex := mk_vertex { l_edge : option nat; m_edge : option nat; r_edge : option nat }.

Record edge := mk_edge {
  e_idx : Z;
  left : nat; middle : nat; right : nat;
  l_prev : option nat; m_prev : option nat; l_next : option nat;
  r_prev : option nat; m_next : option nat; r_next : option nat;
}.

Definition v_edge (s : side) (v : vertex) : option nat :=
  match s with SideL => l_edge v | SideM => m_edge v | SideR => r_edge v end.

Definition set_v_edge (s : side) (v : vertex) (o : option nat) : vertex :=
  match s with
  | SideL => mk_vertex o (m_edge v) (r_edge v)
  | SideM => mk_vertex (l_edge v) o (r_edge v)
  | SideR => mk_vertex (l_edge v) (m_edge v) o
  end.

Definition e_vert (s : side) (e : edge) : nat :=
  match s with SideL => left e | SideM => middle e | SideR => right e end.
Definition e_prev (s : side) (e : edge) : option nat :=
  match s with SideL => l_prev e | SideM => m_prev e | SideR => r_prev e end.
Definition e_next (s : side) (e : edge) : option nat :=
  match s with SideL => l_next e | SideM => m_next e | SideR => r_next e end.

Definition set_e_prev (s : side) (e : edge) (o : option nat) : edge :=
  let '(mk_edge i a b c lp mp ln rp mn rn) := e in
  match s with
  | SideL => mk_edge i a b c o mp ln rp mn rn
  | SideM => mk_edge i a b c lp o ln rp mn rn
  | SideR => mk_edge i a b c lp mp ln o mn rn
  end.

Definition set_e_next (s : side) (e : edge) (o : option nat) : edge :=
  let '(mk_edge i a b c lp mp ln rp mn rn) := e in
  match s with
  | SideL => mk_edge i a b c lp mp o rp mn rn
  | SideM => mk_edge i a b c lp mp ln rp o rn
  | SideR => mk_edge i a b c lp mp ln rp mn o
  end.

(** [struct state]; the arrays have their lengths. *)
Record state := mk_state {
  data_entries : Z;
  entries : nat;
  keys : nat;
  seed : Z;
  g : list Z;
  visited : list bool;
  verts : list vertex;
  edges : list edge;
  output_index : nat;
  output_order : list nat;
}.

Definition set_graph (st : state) (vs : list vertex) (es : list edge) : state :=
  mk_state (data_entries st) (entries st) (keys st) (seed st) (g st) (visited st) vs es
    (output_index st) (output_order st).

Definition set_output (st : state) (i : nat) (o : list nat) : state :=
  mk_state (data_entries st) (entries st) (keys st) (seed st) (g st) (visited st) (verts st) (edges st) i o.

(** [state->verts[i] = v] and [state->edges[i] = e]; [None] is out of the array. *)
Definition upd_vert (st : state) (i : nat) (v : vertex) : option state :=
  _ ← verts st !! i; Some (set_graph st (<[i := v]> (verts st)) (edges st)).
Definition upd_edge (st : state) (i : nat) (e : edge) : option state :=
  _ ← edges st !! i; Some (set_graph st (verts st) (<[i := e]> (edges st))).

(** ** Removing an edge *)

(** The edge [i] taken out of its list at one position. *)
Definition unlink_side (s : side) (i : nat) (st : state) : option state :=
  e ← edges st !! i;
  st ← match e_prev s e with
       | None => v ← verts st !! e_vert s e; upd_vert st (e_vert s e) (set_v_edge s v (e_next s e))
       | Some p => q ← edges st !! p; upd_edge st p (set_e_next s q (e_next s e))
       end;
  e ← edges st !! i;
  match e_next s e with
  | None => Some st
  | Some n => q ← edges st !! n; upd_edge st n (set_e_prev s q (e_prev s e))
  end.

Definition used (o : option nat) : bool := match o with Some _ => true | None => false end.

(** Whether the node has edges at two positions, or none at all. *)
Definition not_single (v : vertex) : bool :=
  (used (l_edge v) && used (m_edge v)) || (used (l_edge v) && used (r_edge v))
  || (used (m_edge v) && used (r_edge v))
  || (negb (used (l_edge v)) && negb (used (m_edge v)) && negb (used (r_edge v))).

(** The position at which it has one. *)
Definition single_side (v : vertex) : side :=
  if used (l_edge v) then SideL else if used (m_edge v) then SideM else SideR.

Definition remove_vertex (st : state) (vi : nat) : option state :=
  v ← verts st !! vi;
  if not_single v then Some st
  else
    let s := single_side v in
    i ← v_edge s v;
    e ← edges st !! i;
    if used (e_next s e) then Some st
    else
      match output_index st with
      | O => None
      | S oi =>
          _ ← output_order st !! oi;
          let st := set_output st oi (<[oi := i]> (output_order st)) in
          st ← unlink_side SideL i st;
          st ← unlink_side SideM i st;
          unlink_side SideR i st
      end.

(** ** Building the graph *)

(** The nodes of the keys, in the order of the hash table; [false] when two nodes of a key
    are the same. *)
Fixpoint fill_edges (st : state) (j : nat) (l : list key_hash) : option (bool * state) :=
  match l with
  | [] => Some (true, st)
  | k :: l =>
      e ← edges st !! j;
      h ← mi_vector_hash (block_ptr (kh_key k)) (kh_keylen k) (seed st);
      let '(h0, h1, h2) := h in
      let n := Z.of_nat (entries st) in
      let e := mk_edge (kh_idx k) (Z.to_nat (h0 mod n)) (Z.to_nat (h1 mod n)) (Z.to_nat (h2 mod n))
                 (l_prev e) (m_prev e) (l_next e) (r_prev e) (m_next e) (r_next e) in
      st ← upd_edge st j e;
      if (left e =? middle e)%nat then Some (false, st)
      else if (left e =? right e)%nat then Some (false, st)
      else if (middle e =? right e)%nat then Some (false, st)
      else fill_edges st (S j) l
  end.

Definition reset_verts (st : state) : option state :=
  if (entries st <=? length (verts st))%nat then
    Some (set_graph st (replicate (entries st) (mk_vertex None None None) ++ drop (entries st) (verts st)) (edges st))
  else None.

(** The edge [i] put in front of its list at one position. *)
Definition link_side (s : side) (i : nat) (st : state) : option state :=
  e ← edges st !! i;
  v ← verts st !! e_vert s e;
  st ← match v_edge s v with
       | Some h => q ← edges st !! h; upd_edge st h (set_e_prev s q (Some i))
       | None => Some st
       end;
  e ← edges st !! i;
  st ← upd_edge st i (set_e_prev s (set_e_next s e (v_edge s v)) None);
  v ← verts st !! e_vert s e;
  upd_vert st (e_vert s e) (set_v_edge s v (Some i)).

Definition link_edge (st : state) (i : nat) : option state :=
  st ← link_side SideL i st; st ← link_side SideM i st; link_side SideR i st.

Fixpoint fold_state (f : state → nat → option state) (l : list nat) (st : state) : option state :=
  match l with [] => Some st | x :: l => st ← f st x; fold_state f l st end.

(** The loop over the removed edges, from the last index down. *)
Fixpoint peel_loop (i : nat) (st : state) : option state :=
  match i with
  | O => Some st
  | S i' =>
      if (output_index st <? i)%nat then
        x ← output_order st !! i';
        e ← edges st !! x;
        st ← remove_vertex st (left e);
        st ← remove_vertex st (middle e);
        st ← remove_vertex st (right e);
        peel_loop i' st
      else Some st
  end.

Definition build_graph (w : cdbw) (st : state) : option (bool * state) :=
  r ← fill_edges st 0 (mjoin (hash w));
  let '(ok, st) := r in
  if negb ok then Some (false, st)
  else
    st ← reset_verts st;
    st ← fold_state link_edge (seq 0 (keys st)) st;
    let st := set_output st (keys st) (output_order st) in
    st ← fold_state remove_vertex (seq 0 (entries st)) st;
    st ← peel_loop (keys st) st;
    Some (output_index st =? 0, st)%nat.

(** ** The numbers of the nodes *)

Definition set_g (st : state) (i : nat) (z : Z) : option state :=
  _ ← g st !! i;
  Some (mk_state (data_entries st) (entries st) (keys st) (seed st) (<[i := z]> (g st)) (visited st)
          (verts st) (edges st) (output_index st) (output_order st)).

Definition set_visited (st : state) (i : nat) : option state :=
  _ ← visited st !! i;
  Some (mk_state (data_entries st) (entries st) (keys st) (seed st) (g st) (<[i := true]> (visited st))
          (verts st) (edges st) (output_index st) (output_order st)).

(** [(2 * state->data_entries + e->idx - a - b) % state->data_entries]. *)
Definition node_number (n idx a b : Z) : Z := u32 (u32 (u32 (u32 (2 * n) + idx) - a) - b) mod n.

Definition assign_edge (st : state) (i : nat) : option state :=
  x ← output_order st !! i;
  e ← edges st !! x;
  vl ← visited st !! left e;
  gl ← g st !! left e; gm ← g st !! middle e; gr ← g st !! right e;
  st ← (if negb vl then set_g st (left e) (node_number (data_entries st) (e_idx e) gm gr)
        else
          vm ← visited st !! middle e;
          if negb vm then set_g st (middle e) (node_number (data_entries st) (e_idx e) gl gr)
          else set_g st (right e) (node_number (data_entries st) (e_idx e) gl gm));
  st ← set_visited st (left e);
  st ← set_visited st (middle e);
  set_visited st (right e).

Definition assign_nodes (st : state) : option state := fold_state assign_edge (seq 0 (keys st)) st.
