(* ===== verification/CdbPeel.v ===== *)
(** * The hash graph of a constant database: its lists

    What the doubly linked lists of the nodes hold, and that taking an edge out of a list and
    putting it in do just that. *)

From stdpp Require Import fin_sets.
From S2P Require Import Prelude VectorHash Cdbw CdbGraph.

(** ** A list, its successors and its predecessors *)

Definition pred_at (l : list nat) (i : nat) : option nat :=
  match i with O => None | S j => l !! j end.

(** [l] is the list with the head [hd] and the links [nx] and [pv]. *)
Definition linked (hd : option nat) (nx pv : nat → option (option nat)) (l : list nat) : Prop :=
  NoDup l ∧ hd = l !! 0%nat ∧ ∀ i x, l !! i = Some x → nx x = Some (l !! S i) ∧ pv x = Some (pred_at l i).

(** A link function changed at one point, when there is one. *)
Definition upd_at {A} (o : option nat) (v : A) (f : nat → option A) : nat → option A :=
  λ y, if bool_decide (o = Some y) then Some v else f y.

Lemma linked_remove hd nx pv l k x :
  linked hd nx pv l → l !! k = Some x →
  linked (match pred_at l k with None => l !! S k | Some _ => hd end)
    (upd_at (pred_at l k) (l !! S k) nx) (upd_at (l !! S k) (pred_at l k) pv) (delete k l).
Proof.
  intros (Hnd & Hh & Hl) Hk. pose proof (lookup_lt_Some _ _ _ Hk) as Hlt.
  assert (∀ i j y, l !! i = Some y → l !! j = Some y → i = j) as Hu by (intros; by eapply NoDup_lookup).
  split_and!.
  - eapply sublist_NoDup; [done|apply sublist_delete].
  - destruct k as [|k]; cbn [pred_at].
    + by rewrite list_lookup_delete_ge by lia.
    + destruct (lookup_lt_is_Some_2 l k) as [y Hy]; [lia|]. rewrite Hy, list_lookup_delete_lt by lia. done.
  - intros i y Hi. destruct (decide (i < k)%nat) as [Hik|Hik].
    + rewrite list_lookup_delete_lt in Hi by done. destruct (Hl _ _ Hi) as [Hn Hp]. unfold upd_at.
      rewrite bool_decide_eq_false_2 with (P := l !! S k = Some y) by (intros ?; specialize (Hu _ _ _ H Hi); lia).
      split.
      * case_bool_decide as Hc.
        { destruct k as [|k]; [done|]. cbn [pred_at] in Hc. specialize (Hu _ _ _ Hc Hi) as ->.
          by rewrite list_lookup_delete_ge by lia. }
        rewrite Hn, list_lookup_delete_lt; [done|]. destruct k as [|k]; [lia|].
        destruct (decide (S i = S k)) as [E|]; [|lia]. injection E as ->. by destruct Hc.
      * rewrite Hp. destruct i as [|i]; cbn [pred_at]; [done|]. by rewrite list_lookup_delete_lt by lia.
    + rewrite list_lookup_delete_ge in Hi by lia. destruct (Hl _ _ Hi) as [Hn Hp]. unfold upd_at.
      rewrite bool_decide_eq_false_2 with (P := pred_at l k = Some y)
        by (intros Hc; destruct k as [|k]; [done|]; cbn [pred_at] in Hc; specialize (Hu _ _ _ Hc Hi); lia).
      split; [by rewrite Hn, list_lookup_delete_ge by lia|].
      case_bool_decide as Hc.
      * specialize (Hu _ _ _ Hc Hi) as [= <-]. destruct k as [|k]; cbn [pred_at]; [done|].
        by rewrite list_lookup_delete_lt by lia.
      * destruct (decide (i = k)) as [->|]; [done|]. rewrite Hp. destruct i as [|i]; [lia|].
        cbn [pred_at]. by rewrite list_lookup_delete_ge by lia.
Qed.

Lemma elem_of_delete_nodup (l : list nat) k x y :
  NoDup l → l !! k = Some x → y ∈ delete k l ↔ y ∈ l ∧ y ≠ x.
Proof.
  intros Hnd Hk. split.
  - intros Hy. split; [eapply elem_of_sublist; [done|apply sublist_delete]|]. intros ->.
    apply list_elem_of_lookup in Hy as [j Hj]. rewrite list_lookup_delete in Hj.
    case_decide; pose proof (NoDup_lookup _ _ _ _ Hnd Hk Hj); lia.
  - intros [[j Hj]%list_elem_of_lookup Hyx]. apply list_elem_of_lookup. destruct (decide (j < k)%nat).
    + exists j. by rewrite list_lookup_delete_lt.
    + destruct j as [|j]; [replace k with 0%nat in Hk by lia; congruence|].
      destruct (decide (S j = k)); [congruence|]. exists j. by rewrite list_lookup_delete_ge by lia.
Qed.

Lemma linked_insert hd nx pv l x :
  linked hd nx pv l → x ∉ l →
  linked (Some x) (upd_at (Some x) hd nx) (upd_at (Some x) None (upd_at hd (Some x) pv)) (x :: l).
Proof.
  intros (Hnd & Hh & Hl) Hx. split_and!; [by constructor|done|]. intros i y Hi. unfold upd_at.
  destruct i as [|i]; cbn in Hi.
  - injection Hi as <-. rewrite !bool_decide_eq_true_2 by done. by rewrite Hh.
  - destruct (Hl _ _ Hi) as [Hn Hp].
    rewrite (bool_decide_eq_false_2 (Some x = Some y)) by (intros [= ->]; apply Hx; by eapply list_elem_of_lookup_2).
    rewrite Hn, Hh. split; [done|]. cbn [pred_at]. destruct i as [|i]; cbn [lookup list_lookup].
    + by rewrite bool_decide_eq_true_2 by done.
    + rewrite bool_decide_eq_false_2; [by rewrite Hp|].
      intros H0. specialize (NoDup_lookup _ _ _ _ Hnd H0 Hi). lia.
Qed.

(** ** The lists of a state *)

Definition head_of (st : state) (s : side) (v : nat) : option (option nat) := v_edge s <$> verts st !! v.
Definition next_of (st : state) (s : side) (x : nat) : option (option nat) := e_next s <$> edges st !! x.
Definition prev_of (st : state) (s : side) (x : nat) : option (option nat) := e_prev s <$> edges st !! x.
Definition vert_of (st : state) (s : side) (x : nat) : option nat := e_vert s <$> edges st !! x.

(** The parts of a state that the graph operations leave alone. *)
Definition frame (st st' : state) : Prop :=
  data_entries st' = data_entries st ∧ entries st' = entries st ∧ keys st' = keys st ∧ seed st' = seed st ∧
  g st' = g st ∧ visited st' = visited st ∧ output_index st' = output_index st ∧
  output_order st' = output_order st ∧ length (edges st') = length (edges st) ∧
  length (verts st') = length (verts st) ∧ (e_idx <$> edges st') = (e_idx <$> edges st).

#[global] Instance frame_preorder : PreOrder frame.
Proof.
  split; [done|]. unfold frame. intros x y z. naive_solver congruence.
Qed.

(** ** Updates of one field *)

Lemma v_edge_set s s' v o : v_edge s' (set_v_edge s v o) = if decide (s' = s) then o else v_edge s' v.
Proof. by destruct s, s'. Qed.
Lemma e_next_set_next s s' e o : e_next s' (set_e_next s e o) = if decide (s' = s) then o else e_next s' e.
Proof. by destruct e, s, s'. Qed.
Lemma e_prev_set_next s s' e o : e_prev s' (set_e_next s e o) = e_prev s' e.
Proof. by destruct e, s, s'. Qed.
Lemma e_next_set_prev s s' e o : e_next s' (set_e_prev s e o) = e_next s' e.
Proof. by destruct e, s, s'. Qed.
Lemma e_prev_set_prev s s' e o : e_prev s' (set_e_prev s e o) = if decide (s' = s) then o else e_prev s' e.
Proof. by destruct e, s, s'. Qed.
Lemma e_vert_set_next s s' e o : e_vert s' (set_e_next s e o) = e_vert s' e.
Proof. by destruct e, s, s'. Qed.
Lemma e_vert_set_prev s s' e o : e_vert s' (set_e_prev s e o) = e_vert s' e.
Proof. by destruct e, s, s'. Qed.
Lemma e_idx_set_next s e o : e_idx (set_e_next s e o) = e_idx e.
Proof. by destruct e, s. Qed.
Lemma e_idx_set_prev s e o : e_idx (set_e_prev s e o) = e_idx e.
Proof. by destruct e, s. Qed.

(** What the lists look like after a step, in terms of what they were. *)
Record step_view (st st' : state) (hd : side → nat → option (option nat))
    (nx pv : side → nat → option (option nat)) : Prop := {
  sv_frame : frame st st';
  sv_vert : ∀ s x, vert_of st' s x = vert_of st s x;
  sv_head : ∀ s v, head_of st' s v = hd s v;
  sv_next : ∀ s x, next_of st' s x = nx s x;
  sv_prev : ∀ s x, prev_of st' s x = pv s x;
}.

(** A function of positions changed at one position and one point. *)
Definition upd_side {A} (s : side) (o : option nat) (v : A) (f : side → nat → option A) : side → nat → option A :=
  λ s', if decide (s' = s) then upd_at o v (f s) else f s'.

Lemma upd_at_eq {A} i (v : A) f y : upd_at (Some i) v f y = if decide (y = i) then Some v else f y.
Proof.
  unfold upd_at. destruct (decide (y = i)) as [->|Hn]; [by rewrite bool_decide_eq_true_2|].
  rewrite bool_decide_eq_false_2; congruence.
Qed.

Lemma upd_side_none {A} s (v : A) f s' y : upd_side s None v f s' y = f s' y.
Proof. unfold upd_side. by case_decide as H; [rewrite H|]. Qed.

(** [fmap] over a list updated at one place. *)
Lemma fmap_lookup_insert {A B} (f : A → B) (l : list A) i x y :
  is_Some (l !! i) → f <$> (<[i := x]> l) !! y = if decide (y = i) then Some (f x) else f <$> l !! y.
Proof.
  intros Hi%lookup_lt_is_Some. case_decide as H; [subst; by rewrite list_lookup_insert_eq|].
  by rewrite list_lookup_insert_ne.
Qed.

Lemma idx_insert (l : list edge) i e e' :
  l !! i = Some e → e_idx e' = e_idx e → e_idx <$> <[i := e']> l = e_idx <$> l.
Proof.
  intros He Hi. rewrite list_fmap_insert, Hi. apply list_insert_id. by rewrite list_lookup_fmap, He.
Qed.

Lemma upd_head st i v s o :
  verts st !! i = Some v →
  ∃ st', upd_vert st i (set_v_edge s v o) = Some st' ∧
    step_view st st' (upd_side s (Some i) o (head_of st)) (next_of st) (prev_of st).
Proof.
  intros Hv. unfold upd_vert. rewrite Hv. cbn [mbind option_bind]. eexists. split; [done|].
  split; try done; [by unfold frame, set_graph; cbn; rewrite length_insert|].
  intros s' u. unfold head_of, set_graph. cbn [verts]. rewrite fmap_lookup_insert, v_edge_set by done.
  unfold upd_side. destruct (decide (s' = s)) as [->|]; rewrite ?upd_at_eq;
    destruct (decide (u = i)) as [->|]; try done. by rewrite Hv.
Qed.

Lemma upd_edge_view st i e e' :
  edges st !! i = Some e → (∀ s, e_vert s e' = e_vert s e) → e_idx e' = e_idx e →
  ∃ st', upd_edge st i e' = Some st' ∧
    step_view st st' (head_of st)
      (λ s y, if decide (y = i) then Some (e_next s e') else next_of st s y)
      (λ s y, if decide (y = i) then Some (e_prev s e') else prev_of st s y).
Proof.
  intros He Hv Hi. unfold upd_edge. rewrite He. cbn [mbind option_bind]. eexists. split; [done|].
  split; try done.
  - unfold frame, set_graph. cbn. by rewrite length_insert, (idx_insert _ _ e e').
  - intros s y. unfold vert_of, set_graph. cbn [edges]. rewrite fmap_lookup_insert by done.
    case_decide as Hy; [|done]. by rewrite Hy, He, Hv.
  - intros s y. unfold next_of, set_graph. cbn [edges]. by rewrite fmap_lookup_insert by done.
  - intros s y. unfold prev_of, set_graph. cbn [edges]. by rewrite fmap_lookup_insert by done.
Qed.

Lemma upd_next st p e s o :
  edges st !! p = Some e →
  ∃ st', upd_edge st p (set_e_next s e o) = Some st' ∧
    step_view st st' (head_of st) (upd_side s (Some p) o (next_of st)) (prev_of st).
Proof.
  intros He. destruct (upd_edge_view st p e (set_e_next s e o) He) as (st' & Hu & [H1 H2 H3 H4 H5]);
    [intros; apply e_vert_set_next|apply e_idx_set_next|].
  exists st'. split; [done|]. split; [done..| |].
  - intros s' y. rewrite H4, e_next_set_next. unfold upd_side.
    case_decide as Hy; case_decide as Hs; subst; rewrite ?upd_at_eq, ?decide_True, ?decide_False by done; try done.
    unfold next_of. by rewrite He.
  - intros s' y. rewrite H5, e_prev_set_next. case_decide as Hy; [|done]. subst. unfold prev_of. by rewrite He.
Qed.

Lemma upd_prev st n e s o :
  edges st !! n = Some e →
  ∃ st', upd_edge st n (set_e_prev s e o) = Some st' ∧
    step_view st st' (head_of st) (next_of st) (upd_side s (Some n) o (prev_of st)).
Proof.
  intros He. destruct (upd_edge_view st n e (set_e_prev s e o) He) as (st' & Hu & [H1 H2 H3 H4 H5]);
    [intros; apply e_vert_set_prev|apply e_idx_set_prev|].
  exists st'. split; [done|]. split; [done..| |].
  - intros s' y. rewrite H4, e_next_set_prev. case_decide as Hy; [|done]. subst. unfold next_of. by rewrite He.
  - intros s' y. rewrite H5, e_prev_set_prev. unfold upd_side.
    case_decide as Hy; case_decide as Hs; subst; rewrite ?upd_at_eq, ?decide_True, ?decide_False by done; try done.
    unfold prev_of. by rewrite He.
Qed.

(** ** Taking an edge out of a list *)

Lemma fmap_Some_lookup {A B} (f : A → B) (o : option A) b : f <$> o = Some b → ∃ a, o = Some a ∧ f a = b.
Proof. destruct o as [a|]; [|done]. intros [= <-]. by exists a. Qed.

Lemma unlink_view s i st e :
  edges st !! i = Some e → is_Some (verts st !! e_vert s e) →
  (∀ p, e_prev s e = Some p → is_Some (edges st !! p) ∧ p ≠ i) →
  (∀ n, e_next s e = Some n → is_Some (edges st !! n)) →
  ∃ st', unlink_side s i st = Some st' ∧
    step_view st st'
      (upd_side s (if e_prev s e then None else Some (e_vert s e)) (e_next s e) (head_of st))
      (upd_side s (e_prev s e) (e_next s e) (next_of st))
      (upd_side s (e_next s e) (e_prev s e) (prev_of st)).
Proof.
  intros He [v Hv] Hp Hn. unfold unlink_side. rewrite He. cbn [mbind option_bind].
  assert (∃ st1, match e_prev s e with
    | None => v ← verts st !! e_vert s e; upd_vert st (e_vert s e) (set_v_edge s v (e_next s e))
    | Some p => q ← edges st !! p; upd_edge st p (set_e_next s q (e_next s e)) end = Some st1 ∧
    step_view st st1 (upd_side s (if e_prev s e then None else Some (e_vert s e)) (e_next s e) (head_of st))
      (upd_side s (e_prev s e) (e_next s e) (next_of st)) (prev_of st) ∧
    next_of st1 s i = Some (e_next s e) ∧ prev_of st1 s i = Some (e_prev s e)) as (st1 & -> & [F1 V1 H1 N1 P1] & Ni & Pi).
  { assert (prev_of st s i = Some (e_prev s e)) as HP by (unfold prev_of; by rewrite He).
    assert (next_of st s i = Some (e_next s e)) as HN by (unfold next_of; by rewrite He).
    destruct (e_prev s e) as [p|] eqn:Ep.
    - destruct (Hp p eq_refl) as [[q Hq] Hpi]. rewrite Hq. cbn [mbind option_bind].
      destruct (upd_next st p q s (e_next s e) Hq) as (st1 & Hs1 & [F V H N P]). exists st1.
      split; [done|]. split; [split; try done; intros; rewrite H; by rewrite upd_side_none|].
      rewrite N, P. unfold upd_side. rewrite decide_True, upd_at_eq, decide_False by done. done.
    - rewrite Hv. cbn [mbind option_bind].
      destruct (upd_head st (e_vert s e) v s (e_next s e) Hv) as (st1 & Hs1 & [F V H N P]). exists st1.
      split; [done|]. split; [split; try done; intros; rewrite N; by rewrite upd_side_none|]. by rewrite N, P. }
  cbn [mbind option_bind].
  apply fmap_Some_lookup in Ni as (e1 & He1 & Ne1). rewrite He1. cbn [mbind option_bind].
  unfold prev_of in Pi. rewrite He1 in Pi. cbn in Pi. injection Pi as Pe1. rewrite Ne1, Pe1.
  destruct (e_next s e) as [n|] eqn:En.
  - destruct (Hn n eq_refl) as [q Hq].
    assert (is_Some (edges st1 !! n)) as [q1 Hq1].
    { apply lookup_lt_is_Some. destruct F1 as (_ & _ & _ & _ & _ & _ & _ & _ & -> & _). by eapply lookup_lt_Some. }
    rewrite Hq1. cbn [mbind option_bind].
    destruct (upd_prev st1 n q1 s (e_prev s e) Hq1) as (st2 & -> & [F2 V2 H2 N2 P2]).
    exists st2. split; [done|]. split; [by etrans|..]; intros; rewrite ?V2, ?H2, ?N2, ?P2; auto.
    unfold upd_side. case_decide; [|apply P1]. unfold upd_at. case_bool_decide; [done|apply P1].
  - exists st1. split; [done|]. split; try done. intros. by rewrite upd_side_none.
Qed.

(** ** The graph

    [V] nodes and [K] edges; [vt] gives the node of an edge at each position. The edges that
    are in the lists for a position are those of a set. *)

Section Graph.

Context (V K : nat) (vt : nat → side → nat).

Definition well_placed : Prop := ∀ x s, (x < K)%nat → (vt x s < V)%nat.

Record graph (st : state) (S : side → gset nat) : Prop := {
  gr_vert : ∀ x s, (x < K)%nat → vert_of st s x = Some (vt x s);
  gr_list : ∀ s v, (v < V)%nat → ∃ hd l, head_of st s v = Some hd ∧
    linked hd (next_of st s) (prev_of st s) l ∧ ∀ x, x ∈ l ↔ x ∈ S s ∧ vt x s = v;
  gr_in : ∀ s x, x ∈ S s → (x < K)%nat;
}.

Definition set_side (S : side → gset nat) (s : side) (X : gset nat) : side → gset nat :=
  λ s', if decide (s' = s) then X else S s'.

Lemma graph_edge st S x : graph st S → (x < K)%nat → ∃ e, edges st !! x = Some e ∧ ∀ s, e_vert s e = vt x s.
Proof.
  intros H Hx. pose proof (gr_vert _ _ H x SideL Hx) as Hl. apply fmap_Some_lookup in Hl as (e & He & _).
  exists e. split; [done|]. intros s. pose proof (gr_vert _ _ H x s Hx) as Hs. unfold vert_of in Hs.
  rewrite He in Hs. by injection Hs.
Qed.

Lemma pred_at_Some l i p : pred_at l i = Some p → p ∈ l.
Proof. destruct i; [done|]. apply list_elem_of_lookup_2. Qed.

Lemma linked_ext hd nx nx' pv pv' l :
  (∀ y, y ∈ l → nx' y = nx y ∧ pv' y = pv y) → linked hd nx pv l → linked hd nx' pv' l.
Proof.
  intros He (? & ? & H). split_and!; [done..|]. intros i x Hi.
  destruct (He x) as [-> ->]; [by eapply list_elem_of_lookup_2|]. by apply H.
Qed.

(** A list whose head and whose elements keep their links is not changed. *)
Lemma list_other st st' S hd nx pv s v :
  graph st S → (v < V)%nat → step_view st st' hd nx pv →
  hd s v = head_of st s v →
  (∀ y, vt y s = v → nx s y = next_of st s y ∧ pv s y = prev_of st s y) →
  ∃ hd l, head_of st' s v = Some hd ∧ linked hd (next_of st' s) (prev_of st' s) l ∧
    ∀ x, x ∈ l ↔ x ∈ S s ∧ vt x s = v.
Proof.
  intros H Hv [F Hv' Hh' Hn' Hp'] Hhd Ho.
  destruct (gr_list _ _ H s v Hv) as (hd0 & l & Hhd0 & Hl & Hin). exists hd0, l.
  rewrite Hh', Hhd. split_and!; [done| |done]. eapply linked_ext; [|done].
  intros y [_ Hy]%Hin. rewrite Hn', Hp'. by apply Ho.
Qed.

(** A change that concerns another position or other points is not seen. *)
Lemma upd_side_other {A} s o (v : A) f s' y : (s' = s → o ≠ Some y) → upd_side s o v f s' y = f s' y.
Proof.
  intros Ho. unfold upd_side. destruct (decide (s' = s)) as [->|]; [|done].
  unfold upd_at. by rewrite bool_decide_eq_false_2 by auto.
Qed.

Lemma upd_side_same {A} s o (v : A) f y : upd_side s o v f s y = upd_at o v (f s) y.
Proof. unfold upd_side. by rewrite decide_True. Qed.

Lemma step_vert st st' S hd nx pv x s :
  graph st S → step_view st st' hd nx pv → (x < K)%nat → vert_of st' s x = Some (vt x s).
Proof. intros H [F Hv _ _ _] Hx. rewrite Hv. by apply (gr_vert _ _ H). Qed.

Lemma unlink_graph st S s x :
  well_placed → graph st S → x ∈ S s →
  ∃ st', unlink_side s x st = Some st' ∧ frame st st' ∧ graph st' (set_side S s (S s ∖ {[x]})).
Proof.
  intros Hw H Hx. pose proof (gr_in _ _ H _ _ Hx) as HxK.
  destruct (graph_edge _ _ x H HxK) as (e & He & Hve).
  destruct (gr_list _ _ H s (vt x s) (Hw x s HxK)) as (hd & l & Hhd & Hl & Hin).
  destruct (proj1 (list_elem_of_lookup l x) (proj2 (Hin x) (conj Hx eq_refl))) as [k Hk].
  destruct (proj2 (proj2 Hl) _ _ Hk) as [Hn Hp].
  unfold next_of in Hn. unfold prev_of in Hp. rewrite He in Hn, Hp. cbn in Hn, Hp. injection Hn as Hn. injection Hp as Hp.
  assert (∀ y, y ∈ l → is_Some (edges st !! y)) as Hls.
  { intros y [Hy _]%Hin. destruct (graph_edge _ _ y H) as (? & ? & _); [by eapply gr_in|done]. }
  assert (∀ y, pred_at l k = Some y ∨ l !! Datatypes.S k = Some y → y ∈ l) as Hnb.
  { intros y [?|?]; [by eapply pred_at_Some|by eapply list_elem_of_lookup_2]. }
  destruct (unlink_view s x st e He) as (st' & Hu & Hsv).
  { rewrite Hve. apply fmap_Some_lookup in Hhd as (? & ? & _). done. }
  { rewrite Hp. intros p Hpp. split; [apply Hls; auto|]. intros ->.
    destruct k as [|k]; [done|]. pose proof (NoDup_lookup _ _ _ _ (proj1 Hl) Hpp Hk). lia. }
  { rewrite Hn. auto. }
  rewrite Hve, Hn, Hp in Hsv. exists st'. split; [done|]. split; [by apply Hsv|].
  split; [intros y s'; by eapply step_vert| |].
  - intros s' v Hv. unfold set_side. destruct (decide (s' = s ∧ v = vt x s)) as [[-> ->]|Hne].
    + rewrite decide_True by done. destruct Hsv as [_ _ Hh' Hn' Hp'].
      eexists _, (delete k l). split; [|split].
      * rewrite Hh', upd_side_same.
        instantiate (1 := match pred_at l k with None => l !! Datatypes.S k | Some _ => hd end).
        destruct (pred_at l k); [done|]. by rewrite upd_at_eq, decide_True.
      * eapply linked_ext; [|exact (linked_remove _ _ _ _ _ _ Hl Hk)].
        intros y _. by rewrite Hn', Hp', !upd_side_same.
      * intros y. rewrite (elem_of_delete_nodup l k x) by (apply Hl || done). rewrite Hin. set_solver.
    + destruct (list_other st st' S _ _ _ s' v H Hv Hsv) as (hd' & l' & ? & ? & Hin').
      { apply upd_side_other. intros ->. destruct (pred_at l k); [done|]. intros [= ?]. by destruct Hne. }
      { intros y Hy. split; apply upd_side_other; intros -> Hc; apply Hne; split; try done;
          rewrite <- Hy; apply Hin, Hnb; auto. }
      exists hd', l'. split_and!; [done..|]. intros y. rewrite Hin'. case_decide; [subst s'|done].
      assert (v ≠ vt x s) by tauto. set_solver.
  - intros s' y. unfold set_side. case_decide; [|apply (gr_in _ _ H)]. intros [Hy _]%elem_of_difference.
    by eapply (gr_in _ _ H).
Qed.

(** ** Putting an edge into a list *)

Lemma link_view s i st e v :
  edges st !! i = Some e → verts st !! e_vert s e = Some v →
  (∀ h, v_edge s v = Some h → is_Some (edges st !! h) ∧ h ≠ i) →
  ∃ st', link_side s i st = Some st' ∧
    step_view st st'
      (upd_side s (Some (e_vert s e)) (Some i) (head_of st))
      (upd_side s (Some i) (v_edge s v) (next_of st))
      (upd_side s (Some i) None (upd_side s (v_edge s v) (Some i) (prev_of st))).
Proof.
  intros He Hv Hh. unfold link_side. rewrite He. cbn [mbind option_bind]. rewrite Hv. cbn [mbind option_bind].
  assert (∃ st1, match v_edge s v with
    | Some h => q ← edges st !! h; upd_edge st h (set_e_prev s q (Some i))
    | None => Some st end = Some st1 ∧
    step_view st st1 (head_of st) (next_of st) (upd_side s (v_edge s v) (Some i) (prev_of st)))
    as (st1 & -> & [F1 V1 H1 N1 P1]).
  { destruct (v_edge s v) as [h|].
    - destruct (Hh h eq_refl) as [[q Hq] _]. rewrite Hq. cbn [mbind option_bind]. by apply upd_prev.
    - exists st. split; [done|]. split; try done. intros. by rewrite upd_side_none. }
  cbn [mbind option_bind]. pose proof (V1 s i) as Hvi. unfold vert_of in Hvi. rewrite He in Hvi.
  apply fmap_Some_lookup in Hvi as (e1 & He1 & Hv1). rewrite He1. cbn [mbind option_bind].
  destruct (upd_edge_view st1 i e1 (set_e_prev s (set_e_next s e1 (v_edge s v)) None) He1)
    as (st2 & -> & [F2 V2 H2 N2 P2]).
  { intros. by rewrite e_vert_set_prev, e_vert_set_next. }
  { by rewrite e_idx_set_prev, e_idx_set_next. }
  cbn [mbind option_bind]. rewrite Hv1.
  pose proof (H2 s (e_vert s e)) as Hhd. rewrite H1 in Hhd. unfold head_of in Hhd. rewrite Hv in Hhd.
  apply fmap_Some_lookup in Hhd as (v2 & Hv2 & _). rewrite Hv2. cbn [mbind option_bind].
  destruct (upd_head st2 (e_vert s e) v2 s (Some i) Hv2) as (st3 & -> & [F3 V3 H3 N3 P3]).
  exists st3. split; [done|]. split.
  - by do 2 (etrans; [eassumption|]).
  - intros. by rewrite V3, V2, V1.
  - intros. rewrite H3. unfold upd_side, upd_at. repeat case_match; by rewrite ?H2, ?H1.
  - intros s' y. rewrite N3, N2, N1, e_next_set_prev, e_next_set_next. unfold upd_side.
    destruct (decide (s' = s)) as [->|]; rewrite ?upd_at_eq; destruct (decide (y = i)) as [->|]; try done.
    rewrite <- N1. unfold next_of. by rewrite He1.
  - intros s' y. rewrite P3, P2, P1, e_prev_set_prev, e_prev_set_next. unfold upd_side.
    destruct (decide (s' = s)) as [->|]; rewrite ?upd_at_eq; destruct (decide (y = i)) as [->|]; try done.
    + by rewrite decide_True.
    + rewrite <- (upd_side_other s (v_edge s v) (Some i) (prev_of st) s' i), <- P1 by (by intros ->).
      unfold prev_of. by rewrite He1.
Qed.

Lemma link_graph st S s x :
  well_placed → graph st S → (x < K)%nat → x ∉ S s →
  ∃ st', link_side s x st = Some st' ∧ frame st st' ∧ graph st' (set_side S s ({[x]} ∪ S s)).
Proof.
  intros Hw H HxK Hx. destruct (graph_edge _ _ x H HxK) as (e & He & Hve).
  destruct (gr_list _ _ H s (vt x s) (Hw x s HxK)) as (hd & l & Hhd & Hl & Hin).
  pose proof Hhd as Hhd'. apply fmap_Some_lookup in Hhd' as (v & Hv & Hvhd).
  assert (x ∉ l) as Hxl by (intros [? _]%Hin; done).
  assert (∀ h, hd = Some h → h ∈ l) as Hhl.
  { intros h ->. destruct Hl as (_ & Hh & _). by eapply list_elem_of_lookup_2. }
  destruct (link_view s x st e v He) as (st' & Hu & Hsv); [by rewrite Hve|..].
  { rewrite Hvhd. intros h Hh. apply Hhl in Hh. split; [|intros ->; done].
    apply Hin in Hh as [Hh _]. destruct (graph_edge _ _ h H) as (? & ? & _); [by eapply gr_in|done]. }
  rewrite Hve, Hvhd in Hsv. exists st'. split; [done|]. split; [by apply Hsv|].
  split; [intros y s'; by eapply step_vert| |].
  - intros s' u Hu'. unfold set_side. destruct (decide (s' = s ∧ u = vt x s)) as [[-> ->]|Hne].
    + rewrite decide_True by done. destruct Hsv as [_ _ Hh' Hn' Hp'].
      eexists _, (x :: l). split; [rewrite Hh', upd_side_same, upd_at_eq, decide_True by done; done|]. split.
      * eapply linked_ext; [|exact (linked_insert _ _ _ _ _ Hl Hxl)].
        intros y _. rewrite Hn', Hp', !upd_side_same. split; [done|].
        rewrite !upd_at_eq. case_decide; [done|]. by rewrite upd_side_same.
      * intros y. rewrite elem_of_cons, Hin. set_solver.
    + destruct (list_other st st' S _ _ _ s' u H Hu' Hsv) as (hd' & l' & ? & ? & Hin').
      { apply upd_side_other. intros ->. intros [= ?]. by destruct Hne. }
      { intros y Hy. rewrite !upd_side_other; [done| | |].
        all: intros ->; intros Hc; apply Hne; split; try done; rewrite <- Hy; first [by injection Hc as ->|by apply Hin, Hhl]. }
      exists hd', l'. split_and!; [done..|]. intros y. rewrite Hin'. case_decide; [subst s'|done].
      assert (u ≠ vt x s) by tauto. set_solver.
  - intros s' y. unfold set_side. case_decide; [|apply (gr_in _ _ H)].
    intros [->%elem_of_singleton|Hy]%elem_of_union; [done|]. by eapply (gr_in _ _ H).
Qed.

(** Linking every edge gives the lists of all edges. *)
Lemma graph_ext st S S' : (∀ s, S s = S' s) → graph st S → graph st S'.
Proof.
  intros He [H1 H2 H3]. split; [done| |].
  - intros s v Hv. rewrite <- He. by apply H2.
  - intros s x. rewrite <- He. apply H3.
Qed.

Lemma link_edge_graph st X x :
  well_placed → graph st (λ _, X) → (x < K)%nat → x ∉ X →
  ∃ st', link_edge st x = Some st' ∧ frame st st' ∧ graph st' (λ _, {[x]} ∪ X).
Proof.
  intros Hw H HxK Hx. unfold link_edge.
  destruct (link_graph st _ SideL x Hw H HxK Hx) as (st1 & -> & F1 & H1). cbn [mbind option_bind].
  destruct (link_graph st1 _ SideM x Hw H1 HxK) as (st2 & -> & F2 & H2); [done|]. cbn [mbind option_bind].
  destruct (link_graph st2 _ SideR x Hw H2 HxK) as (st3 & -> & F3 & H3); [done|].
  exists st3. split; [done|]. split; [by do 2 (etrans; [eassumption|])|].
  eapply graph_ext; [|exact H3]. by intros [].
Qed.

Lemma unlink_edge_graph st X x :
  well_placed → graph st (λ _, X) → x ∈ X →
  ∃ st', (st ← unlink_side SideL x st; st ← unlink_side SideM x st; unlink_side SideR x st) = Some st' ∧
    frame st st' ∧ graph st' (λ _, X ∖ {[x]}).
Proof.
  intros Hw H Hx.
  destruct (unlink_graph st _ SideL x Hw H Hx) as (st1 & -> & F1 & H1). cbn [mbind option_bind].
  destruct (unlink_graph st1 _ SideM x Hw H1) as (st2 & -> & F2 & H2); [done|]. cbn [mbind option_bind].
  destruct (unlink_graph st2 _ SideR x Hw H2) as (st3 & -> & F3 & H3); [done|].
  exists st3. split; [done|]. split; [by do 2 (etrans; [eassumption|])|].
  eapply graph_ext; [|exact H3]. by intros [].
Qed.

End Graph.
