(* ===== verification/CdbBuild.v ===== *)
(** * The hash graph of a constant database: peeling

    Building the graph succeeds exactly when its edges can be removed one after the other,
    each with a node of its own, and then leaves the order in which they were removed. *)

From stdpp Require Import fin_sets.
From S2P Require Import Prelude VectorHash Cdbw CdbGraph CdbPeel.

Section Peel.

Context (V K : nat) (vt : nat → side → nat).

Implicit Types (X : gset nat) (st : state) (x y v : nat).

Definition touches x v : Prop := ∃ s, vt x s = v.

#[local] Instance touches_dec x v : Decision (touches x v).
Proof.
  refine (cast_if (decide (vt x SideL = v ∨ vt x SideM = v ∨ vt x SideR = v))); unfold touches;
    [by destruct_or!; eexists|intros [[] ?]; tauto].
Defined.

(** The nodes of an edge are three. *)
Definition distinct : Prop := ∀ x s s', (x < K)%nat → vt x s = vt x s' → s = s'.

(** An edge of a set that has the node [v] for itself. *)
Definition only_edge X v x : Prop := x ∈ X ∧ touches x v ∧ ∀ y, y ∈ X → touches y v → y = x.

Definition deg1 X v : Prop := ∃ x, only_edge X v x.

(** An order of all edges in which each has a node that the earlier ones do not have. *)
Definition peeling (l : list nat) : Prop :=
  l ≡ₚ seq 0 K ∧ ∀ k x, l !! k = Some x → ∃ s, ∀ j y, (j < k)%nat → l !! j = Some y → ¬ touches y (vt x s).

(** ** One removal *)

(** The head of a list of a node, and whether it is the only element. *)
Lemma heads st X v :
  graph V K vt st (λ _, X) → (v < V)%nat →
  ∃ vx, verts st !! v = Some vx ∧ ∀ s,
    match v_edge s vx with
    | None => ∀ x, x ∈ X → vt x s ≠ v
    | Some x => x ∈ X ∧ vt x s = v ∧ ∃ e, edges st !! x = Some e ∧
        (e_next s e = None ↔ ∀ y, y ∈ X → vt y s = v → y = x)
    end.
Proof.
  intros H Hv. destruct (gr_list _ _ _ _ _ H SideL v Hv) as (hd & l & Hhd & _ & _).
  apply fmap_Some_lookup in Hhd as (vx & Hvx & _). exists vx. split; [done|]. intros s.
  destruct (gr_list _ _ _ _ _ H s v Hv) as (hd' & l' & Hhd' & (Hnd & H0 & Hl) & Hin).
  unfold head_of in Hhd'. rewrite Hvx in Hhd'. cbn in Hhd'. injection Hhd' as ->. rewrite H0.
  destruct l' as [|x l']; cbn [lookup list_lookup].
  { intros x Hx Hxv. by apply (not_elem_of_nil x), Hin. }
  destruct (proj1 (Hin x) (list_elem_of_here _ _)) as [Hx Hxv]. split_and!; [done..|].
  destruct (Hl 0%nat x eq_refl) as [Hn _]. apply fmap_Some_lookup in Hn as (e & He & Hne).
  exists e. split; [done|]. rewrite Hne. cbn [lookup list_lookup]. split.
  - intros Hnil y Hy Hyv. destruct l'; [|done]. apply list_elem_of_singleton. apply Hin. done.
  - intros Hall. destruct l' as [|y l']; [done|]. exfalso.
    destruct (proj1 (Hin y) ltac:(set_solver)) as [Hy Hyv]. rewrite (Hall y Hy Hyv) in Hnd.
    apply NoDup_cons in Hnd as [Hnd _]. set_solver.
Qed.

(** What [remove_vertex] does to a node: nothing, unless the node has exactly one edge. *)
Definition removed st st' X v x : Prop :=
  only_edge X v x ∧ ∃ oi, output_index st = S oi ∧
    frame (set_output st oi (<[oi := x]> (output_order st))) st' ∧ graph V K vt st' (λ _, X ∖ {[x]}).

Lemma single_side_eq vx s x : not_single vx = false → v_edge s vx = Some x → single_side vx = s.
Proof.
  unfold not_single, single_side. destruct s; cbn; intros Hu Hs; rewrite Hs in *; cbn in Hu |- *; [done|..];
    by destruct (used (l_edge vx)), (used (m_edge vx)).
Qed.

Lemma removal_run st X v x s e vx :
  well_placed V K vt → graph V K vt st (λ _, X) → only_edge X v x →
  verts st !! v = Some vx → v_edge s vx = Some x → edges st !! x = Some e → e_next s e = None →
  size X = output_index st → (output_index st ≤ length (output_order st))%nat → not_single vx = false →
  ∃ st', remove_vertex st v = Some st' ∧ removed st st' X v x.
Proof.
  intros Hw H Ho Hvx Hs He Hn Hsz Hlen Hu. unfold remove_vertex. rewrite Hvx. cbn [mbind option_bind].
  rewrite Hu, (single_side_eq _ _ _ Hu Hs), Hs. cbn [mbind option_bind].
  rewrite He. cbn [mbind option_bind]. rewrite Hn. cbn [used].
  destruct (output_index st) as [|oi] eqn:Hoi; [apply size_empty_inv in Hsz; destruct Ho; set_solver|].
  destruct (lookup_lt_is_Some_2 (output_order st) oi) as [z ->]; [lia|]. cbn [mbind option_bind].
  destruct (unlink_edge_graph V K vt (set_output st oi (<[oi:=x]> (output_order st))) X x) as (st' & Hrun & F & G);
    [done|by destruct H|apply Ho|].
  exists st'. split; [done|]. split; [done|]. by exists oi.
Qed.

Lemma kept_run st X v x s e n vx :
  verts st !! v = Some vx → v_edge s vx = Some x → edges st !! x = Some e → e_next s e = Some n →
  not_single vx = false → remove_vertex st v = Some st.
Proof.
  intros Hvx Hs He Hn Hu. unfold remove_vertex. rewrite Hvx. cbn [mbind option_bind].
  rewrite Hu, (single_side_eq _ _ _ Hu Hs), Hs. cbn [mbind option_bind].
  rewrite He. cbn [mbind option_bind]. by rewrite Hn.
Qed.

(** Edges at two positions are two edges. *)
Lemma two_edges X v s s' x y :
  distinct → (∀ x, x ∈ X → (x < K)%nat) → s ≠ s' → x ∈ X → y ∈ X → vt x s = v → vt y s' = v → ¬ deg1 X v.
Proof.
  intros Hd HX Hne Hx Hy Hxs Hys' (z & Hz & _ & Ha).
  assert (x = z) as -> by (apply Ha; [done|by exists s]). assert (y = z) as -> by (apply Ha; [done|by exists s']).
  apply Hne, (Hd z); [by apply HX|congruence].
Qed.

(** The edges of a node that has them at one position only. *)
Lemma one_side_only X v s x :
  x ∈ X → vt x s = v → (∀ s' y, s' ≠ s → y ∈ X → vt y s' ≠ v) →
  (∀ y, y ∈ X → vt y s = v → y = x) ↔ only_edge X v x.
Proof.
  intros Hx Hxs Ho. split.
  - intros Ha. split; [done|]. split; [by exists s|]. intros y Hy [s' Hs'].
    destruct (decide (s' = s)) as [->|Hne]; [by apply Ha|]. by destruct (Ho s' y Hne Hy).
  - intros (_ & _ & Ha) y Hy Hys. apply Ha; [done|by exists s].
Qed.

(** [remove_vertex] on a node with edges at one position. *)
Lemma remove_single st X v vx s x :
  well_placed V K vt → graph V K vt st (λ _, X) → (v < V)%nat →
  size X = output_index st → (output_index st ≤ length (output_order st))%nat →
  verts st !! v = Some vx → v_edge s vx = Some x → not_single vx = false →
  (∀ s' y, s' ≠ s → y ∈ X → vt y s' ≠ v) →
  ∃ st', remove_vertex st v = Some st' ∧ ((st' = st ∧ ¬ deg1 X v) ∨ ∃ x, removed st st' X v x).
Proof.
  intros Hw H Hv Hsz Hlen Hvx Hs Hu Ho. destruct (heads st X v H Hv) as (vx' & Hvx' & Hh).
  assert (vx' = vx) as -> by congruence. specialize (Hh s). rewrite Hs in Hh.
  destruct Hh as (Hx & Hxs & e & He & Hn). pose proof (one_side_only X v s x Hx Hxs Ho) as Hoe.
  destruct (e_next s e) as [n|] eqn:En.
  - exists st. split; [by eapply kept_run|]. left. split; [done|]. intros (z & Hz & Hzt & Ha).
    assert (x = z) as <- by (apply Ha; [done|by exists s]).
    assert (Some n = None) by (apply Hn, Hoe; done). done.
  - destruct (removal_run st X v x s e vx) as (st' & Hr & Hrem); try done; [by apply Hoe, Hn|].
    exists st'. split; [done|]. right. by exists x.
Qed.

Lemma remove_vertex_spec st X v :
  well_placed V K vt → distinct → graph V K vt st (λ _, X) → (v < V)%nat →
  size X = output_index st → (output_index st ≤ length (output_order st))%nat →
  ∃ st', remove_vertex st v = Some st' ∧ ((st' = st ∧ ¬ deg1 X v) ∨ ∃ x, removed st st' X v x).
Proof.
  intros Hw Hd H Hv Hsz Hlen. destruct (heads st X v H Hv) as (vx & Hvx & Hh).
  pose proof (two_edges X v) as Htwo. pose proof (gr_in _ _ _ _ _ H SideL) as HX.
  assert (∀ s, v_edge s vx = None → ∀ y, y ∈ X → vt y s ≠ v) as Hnone.
  { intros s Hs. specialize (Hh s). by rewrite Hs in Hh. }
  destruct (not_single vx) eqn:Hu.
  - exists st. split; [unfold remove_vertex; rewrite Hvx; cbn [mbind option_bind]; by rewrite Hu|].
    left. split; [done|].
    assert (∀ s s', s ≠ s' → used (v_edge s vx) = true → used (v_edge s' vx) = true → ¬ deg1 X v) as Hpair.
    { intros s s' Hne Hs Hs'. pose proof (Hh s) as H1. pose proof (Hh s') as H2.
      destruct (v_edge s vx) as [a|], (v_edge s' vx) as [b|]; try done.
      destruct H1 as (? & ? & _), H2 as (? & ? & _). by apply (Htwo s s' a b). }
    unfold not_single in Hu. rewrite !orb_true_iff, !andb_true_iff, !negb_true_iff in Hu.
    destruct Hu as [[[[]|[]]|[]]|[[H1 H2] H3]];
      [by apply (Hpair SideL SideM)|by apply (Hpair SideL SideR)|by apply (Hpair SideM SideR)|].
    intros (z & Hz & [s Hzs] & _). apply (Hnone s) in Hzs; [done| |done].
    destruct s; cbn; [destruct (l_edge vx)|destruct (m_edge vx)|destruct (r_edge vx)]; done.
  - assert (∃ s x, v_edge s vx = Some x ∧ ∀ s', s' ≠ s → v_edge s' vx = None) as (s & x & Hs & Ho).
    { unfold not_single in Hu. destruct (l_edge vx) as [a|] eqn:EL, (m_edge vx) as [b|] eqn:EM, (r_edge vx) as [c|] eqn:ER;
        try done; [exists SideL, a|exists SideM, b|exists SideR, c]; (split; [done|]); by intros []. }
    apply (remove_single st X v vx s x); try done. intros s' y Hne. by apply Hnone, Ho.
Qed.

(** ** The order of removals *)

Record peeled st X : Prop := {
  pe_graph : graph V K vt st (λ _, X);
  pe_size : size X = output_index st;
  pe_len : length (output_order st) = K;
  pe_le : (output_index st ≤ K)%nat;
  pe_order : ∀ k x, (output_index st ≤ k)%nat → output_order st !! k = Some x →
    (x < K)%nat ∧ x ∉ X ∧ ∃ s, ∀ y,
      (y ∈ X ∨ ∃ j, (output_index st ≤ j < k)%nat ∧ output_order st !! j = Some y) → ¬ touches y (vt x s);
  pe_nodup : ∀ i j x, (output_index st ≤ i)%nat → (output_index st ≤ j)%nat →
    output_order st !! i = Some x → output_order st !! j = Some x → i = j;
  pe_all : ∀ y, (y < K)%nat → y ∈ X ∨ ∃ k, (output_index st ≤ k)%nat ∧ output_order st !! k = Some y;
}.

Lemma peeled_remove st st' X v x :
  peeled st X → removed st st' X v x → peeled st' (X ∖ {[x]}) ∧
  output_index st = S (output_index st') ∧ output_order st' = <[output_index st' := x]> (output_order st).
Proof.
  intros [G Hsz Hlen Hle Hord Hnd Hall] ((Hx & [s Hs] & Honly) & oi & Hoi & F & G').
  destruct F as (_ & _ & _ & _ & _ & _ & Hoi' & Hord' & _). cbn in Hoi', Hord'. rewrite Hoi in *.
  assert (∀ k y, (oi ≤ k)%nat → <[oi := x]> (output_order st) !! k = Some y →
    k = oi ∧ y = x ∨ (S oi ≤ k)%nat ∧ output_order st !! k = Some y) as Hlk.
  { intros k y Hk. destruct (decide (k = oi)) as [->|]; [rewrite list_lookup_insert_eq by lia; intros [= <-]; by left|].
    rewrite list_lookup_insert_ne by done. right. split; [lia|done]. }
  rewrite Hord', Hoi'. split; [|done]. split; rewrite ?Hord', ?Hoi'; try done.
  - rewrite size_difference by set_solver. rewrite size_singleton. lia.
  - by rewrite length_insert.
  - lia.
  - intros k y Hk [[-> ->]|[Hk' Hy]]%Hlk; [|destruct (Hord k y Hk' Hy) as (HyK & HyX & s' & Hs')|done].
    + split; [by eapply (gr_in _ _ _ _ _ G SideL)|]. split; [set_solver|]. exists s. intros z Hz Ht. rewrite Hs in Ht.
      destruct Hz as [Hz|(j & Hj & _)]; [|lia]. specialize (Honly z ltac:(set_solver) Ht). set_solver.
    + split; [done|]. split; [set_solver|]. exists s'. intros z Hz. apply Hs'.
      destruct Hz as [Hz|(j & Hj & [[-> ->]|[Hj' Hz]]%Hlk)]; [left; set_solver|by left|right; exists j; split; [lia|done]|lia].
  - intros i j y Hi Hj [[-> ->]|[Hi' Hyi]]%Hlk [[-> E]|[Hj' Hyj]]%Hlk; try lia; try done.
    + destruct (Hord _ _ Hj' Hyj) as (_ & ? & _). done.
    + subst y. destruct (Hord _ _ Hi' Hyi) as (_ & ? & _). done.
    + by eapply Hnd.
  - intros y Hy. destruct (Hall y Hy) as [HyX|(k & Hk & Hky)].
    + destruct (decide (y = x)) as [->|]; [right; exists oi; split; [done|]; rewrite list_lookup_insert_eq by lia; done|].
      left. set_solver.
    + right. exists k. split; [lia|]. by rewrite list_lookup_insert_ne by lia.
Qed.

(** ** The nodes that remain to be looked at *)

(** What the removals leave alone. *)
Definition kept st st' : Prop := ∃ i o, frame (set_output st i o) st'.

#[local] Instance kept_preorder : PreOrder kept.
Proof.
  split; [intros st; by exists (output_index st), (output_order st)|].
  intros a b c (i & o & F) (i' & o' & F'). exists i', o'. unfold frame in *. cbn in *. naive_solver congruence.
Qed.

(** Nodes of the edges removed at the indices below [i], whose turn has not come. *)
Definition pending st i v : Prop :=
  ∃ k x, (output_index st ≤ k < i)%nat ∧ output_order st !! k = Some x ∧ touches x v.

(** A node with one edge is one of [R], or pending. *)
Record work st X (R : nat → Prop) i : Prop := {
  wk_peeled : peeled st X;
  wk_todo : ∀ v, (v < V)%nat → deg1 X v → R v ∨ pending st i v;
  wk_le : (output_index st ≤ i ≤ K)%nat;
}.

(** What a part of the peeling does: it runs, with less and less to do. *)
Definition works (f : state → option state) st (R : nat → Prop) i : Prop :=
  ∃ st' X', f st = Some st' ∧ kept st st' ∧ work st' X' R i.

Lemma work_weaken st X R R' i : work st X R i → (∀ v, R v → R' v) → work st X R' i.
Proof. intros [P T L] Hr. split; [done| |done]. intros v Hv [?|?]%T; auto. Qed.

Lemma remove_works st X R v i :
  well_placed V K vt → distinct → (v < V)%nat → work st X (λ u, u = v ∨ R u) i →
  works (λ st, remove_vertex st v) st R i.
Proof.
  intros Hw Hd Hv [P T L]. destruct P as [G Hsz Hlen Hle Hord Hnd Hall] eqn:EP.
  destruct (remove_vertex_spec st X v) as (st' & Hr & [[-> Hno]|[x Hx]]); try done; [lia|..].
  - exists st, X. split; [done|]. split; [done|]. split; [done| |done].
    intros u Hu Hdu. destruct (T u Hu Hdu) as [[->|?]|?]; auto. done.
  - destruct (peeled_remove st st' X v x P Hx) as (P' & Hoi & Ho).
    exists st', (X ∖ {[x]}). split; [done|]. split.
    { destruct Hx as (_ & oi & _ & F & _). by eexists _, _. }
    split; [done| |lia]. intros u Hu (y & Hy & Hyu & Hya).
    assert (∀ k z, (output_index st ≤ k)%nat → output_order st !! k = Some z → output_order st' !! k = Some z) as Hold.
    { intros k z Hk Hz. rewrite Ho, list_lookup_insert_ne by lia. done. }
    destruct (decide (touches x u)) as [Hxu|Hxu].
    { right. exists (output_index st'), x. split; [lia|]. split; [|done]. rewrite Ho, list_lookup_insert_eq by lia. done. }
    assert (deg1 X u) as Hdu.
    { exists y. split; [set_solver|]. split; [done|]. intros z Hz Hzu. apply Hya; [|done].
      apply elem_of_difference. split; [done|]. intros ->%elem_of_singleton. by apply Hxu. }
    destruct (T u Hu Hdu) as [[->|?]|(k & z & Hk & Hz & Hzu)]; [|by left|right; exists k, z; split_and!; [lia|lia|apply Hold; [lia|done]|done]].
    destruct Hx as ((_ & Ht & _) & _). by destruct Hxu.
Qed.

Lemma works_bind f g st R R' i :
  works f st R i → (∀ st' X', work st' X' R i → works g st' R' i) → works (λ st, f st ≫= g) st R' i.
Proof.
  intros (st1 & X1 & Hf & F1 & W1) Hg. destruct (Hg _ _ W1) as (st2 & X2 & Hg2 & F2 & W2).
  exists st2, X2. rewrite Hf. split; [done|]. split; [by etrans|done].
Qed.

(** The loop over all nodes. *)
Lemma first_pass st X l i :
  well_placed V K vt → distinct → Forall (λ v, (v < V)%nat) l → work st X (λ u, u ∈ l) i →
  works (fold_state remove_vertex l) st (λ _, False) i.
Proof.
  intros Hw Hd Hl. revert st X. induction Hl as [|v l Hv _ IH]; intros st X W.
  - exists st, X. split; [done|]. split; [done|]. eapply work_weaken; [done|]. intros v. apply not_elem_of_nil.
  - cbn [fold_state]. eapply (works_bind (λ st, remove_vertex st v)); [|intros; by eapply IH].
    eapply (remove_works _ X); [done..|]. eapply work_weaken; [done|]. intros u. apply elem_of_cons.
Qed.

(** The loop over the removed edges: when it ends no node has exactly one edge. *)
Lemma second_pass st X i :
  well_placed V K vt → distinct → work st X (λ _, False) i →
  ∃ st' X', peel_loop i st = Some st' ∧ kept st st' ∧ peeled st' X' ∧ ∀ v, (v < V)%nat → ¬ deg1 X' v.
Proof.
  intros Hw Hd. revert st X. induction i as [|i IH]; intros st X W.
  { exists st, X. split; [done|]. split; [done|]. split; [by apply W|]. intros v Hv Hdg.
    destruct (wk_todo _ _ _ _ W v Hv Hdg) as [[]|(k & x & ? & _)]. lia. }
  cbn [peel_loop]. destruct (Nat.ltb_spec (output_index st) (S i)) as [Hlt|Hge]; cycle 1.
  { exists st, X. split; [done|]. split; [done|]. split; [by apply W|]. intros v Hv Hdg.
    destruct (wk_todo _ _ _ _ W v Hv Hdg) as [[]|(k & x & ? & _)]. lia. }
  destruct W as [P T L]. destruct (lookup_lt_is_Some_2 (output_order st) i) as [x Hx]; [rewrite (pe_len _ _ P); lia|].
  rewrite Hx. cbn [mbind option_bind].
  destruct (pe_order _ _ P i x) as (HxK & _); [lia|done|].
  destruct (graph_edge _ _ _ _ _ x (pe_graph _ _ P) HxK) as (e & He & Hve).
  rewrite He. cbn [mbind option_bind].
  assert (work st X (λ u, u = left e ∨ u = middle e ∨ u = right e ∨ False) i) as W1.
  { split; [done| |lia]. intros v Hv Hdg. destruct (T v Hv Hdg) as [[]|(k & y & Hk & Hy & [s Hs])].
    destruct (decide (k = i)) as [->|]; [left|right; exists k, y; split_and!; [lia|lia|done|by exists s]].
    assert (y = x) as -> by congruence. pose proof (Hve s) as E. destruct s; cbn in E; rewrite Hs in E; auto. }
  pose proof (Hve SideL) as El. pose proof (Hve SideM) as Em. pose proof (Hve SideR) as Er. cbn in El, Em, Er.
  assert (left e < V ∧ middle e < V ∧ right e < V)%nat as (Hl & Hm & Hr).
  { rewrite El, Em, Er. split_and!; by apply Hw. }
  destruct (remove_works st X _ (left e) i Hw Hd Hl W1) as (st1 & X1 & -> & K1 & W2). cbn [mbind option_bind].
  destruct (remove_works st1 X1 _ (middle e) i Hw Hd Hm W2) as (st2 & X2 & -> & K2 & W3). cbn [mbind option_bind].
  destruct (remove_works st2 X2 _ (right e) i Hw Hd Hr W3) as (st3 & X3 & -> & K3 & W4). cbn [mbind option_bind].
  destruct (IH st3 X3 W4) as (st4 & X4 & -> & K4 & H4). exists st4, X4. split; [done|].
  split; [|done]. by do 3 (etrans; [eassumption|]).
Qed.

(** ** Success *)

Lemma last_member (l : list nat) X x0 :
  x0 ∈ l → x0 ∈ X → ∃ l1 x l2, l = l1 ++ x :: l2 ∧ x ∈ X ∧ ∀ y, y ∈ l2 → y ∉ X.
Proof.
  intros Hl HX. induction l as [|a l IH] using rev_ind; [by apply not_elem_of_nil in Hl|].
  destruct (decide (a ∈ X)) as [Ha|Ha]; [exists l, a, []; set_solver|].
  destruct IH as (l1 & x & l2 & -> & Hx & Hl2); [set_solver|].
  exists l1, x, (l2 ++ [a]). rewrite <- app_assoc. set_solver.
Qed.

(** When no node has exactly one edge, nothing is left if there is a peeling at all. *)
Lemma peeling_empty X l :
  well_placed V K vt → peeling l → (∀ x, x ∈ X → (x < K)%nat) → (∀ v, (v < V)%nat → ¬ deg1 X v) → X = ∅.
Proof.
  intros Hw [Hperm Hpeel] HX Hno. apply leibniz_equiv, elem_of_equiv_empty. intros x0 Hx0.
  destruct (last_member l X x0) as (l1 & x & l2 & -> & Hx & Hl2); [|done|].
  { rewrite Hperm. apply elem_of_seq. specialize (HX x0 Hx0). lia. }
  destruct (Hpeel (length l1) x) as [s Hs]; [by rewrite list_lookup_middle|].
  apply (Hno (vt x s)); [by apply Hw, HX|]. exists x. split; [done|]. split; [by exists s|].
  intros y Hy Ht. assert (y ∈ l1 ++ x :: l2) as Hin.
  { rewrite Hperm. apply elem_of_seq. specialize (HX y Hy). lia. }
  apply elem_of_app in Hin as [[j Hj]%list_elem_of_lookup|[->|Hin]%elem_of_cons]; [|done|by destruct (Hl2 y)].
  exfalso. eapply (Hs j y); [by eapply lookup_lt_Some| |done]. by apply lookup_app_l_Some.
Qed.

(** The order that is left when everything was removed. *)
Lemma peeled_peeling st X : peeled st X → output_index st = 0%nat → peeling (output_order st).
Proof.
  intros [G Hsz Hlen Hle Hord Hnd Hall] H0. rewrite H0 in *. apply size_empty_inv in Hsz. split.
  - apply NoDup_Permutation; [|apply NoDup_seq|].
    + apply NoDup_alt. intros i j x. apply Hnd; lia.
    + intros x. rewrite elem_of_seq, list_elem_of_lookup. split.
      * intros [k Hk]. destruct (Hord k x) as [? _]; [lia|done|lia].
      * intros Hx. destruct (Hall x) as [?|(k & _ & Hk)]; [lia|set_solver|by exists k].
  - intros k x Hk. destruct (Hord k x) as (_ & _ & s & Hs); [lia|done|]. exists s. intros j y Hj Hy.
    apply Hs. right. exists j. split; [lia|done].
Qed.

(** Peeling a graph whose lists hold all edges. *)
Definition full : gset nat := list_to_set (seq 0 K).

Lemma peel_correct st :
  well_placed V K vt → distinct → graph V K vt st (λ _, full) →
  output_index st = K → length (output_order st) = K →
  ∃ st' st'', fold_state remove_vertex (seq 0 V) st = Some st' ∧ peel_loop K st' = Some st'' ∧ kept st st' ∧ kept st st'' ∧
    (∃ X, peeled st'' X) ∧
    (output_index st'' = 0%nat ↔ ∃ l, peeling l) ∧
    (output_index st'' = 0%nat → peeling (output_order st'')).
Proof.
  intros Hw Hd G Hoi Hlen.
  assert (peeled st full) as P.
  { split; rewrite ?Hoi; try done.
    - unfold full. rewrite size_list_to_set by apply NoDup_seq. by rewrite length_seq.
    - intros k x Hk Hx. apply lookup_lt_Some in Hx. lia.
    - intros i j x Hi Hj Hx. apply lookup_lt_Some in Hx. lia.
    - intros y Hy. left. unfold full. rewrite elem_of_list_to_set, elem_of_seq. lia. }
  destruct (first_pass st full (seq 0 V) K Hw Hd) as (st1 & X1 & Hf1 & K1 & W1).
  { apply Forall_forall. intros v. rewrite elem_of_seq. lia. }
  { split; [done| |lia]. intros v Hv _. left. apply elem_of_seq. lia. }
  destruct (second_pass st1 X1 K Hw Hd W1) as (st2 & X2 & Hf2 & K2 & P2 & Hno).
  exists st1, st2. split; [done|]. split; [done|]. split; [done|]. split; [by etrans|].
  split; [by exists X2|]. split.
  - split; [intros H0; exists (output_order st2); by apply (peeled_peeling _ X2)|]. intros [l Hl].
    rewrite <- (pe_size _ _ P2). rewrite (peeling_empty X2 l Hw Hl); [done| |done].
    intros x. apply (gr_in _ _ _ _ _ (pe_graph _ _ P2) SideL).
  - by apply (peeled_peeling _ X2).
Qed.

End Peel.
