(* ===== verification/CdbAssign.v ===== *)
(** * The hash graph of a constant database: success and the numbers of the nodes

    What [build_graph] returns for the keys of a table, and that the numbers that
    [assign_nodes] gives to the nodes add up to the index of every key. *)

From stdpp Require Import fin_sets.
From S2P Require Import Prelude VectorHash Cdbw CdbGraph CdbPeel CdbBuild.

(** ** The nodes of the keys *)

Definition node_of (V : nat) (h : hashes) (s : side) : nat :=
  let '(h0, h1, h2) := h in
  Z.to_nat (match s with SideL => h0 | SideM => h1 | SideR => h2 end mod Z.of_nat V).

(** A key as [cdbw_put_key] makes it: its length is that of its bytes, and the words that it
    does not fill can be read. *)
Definition key_ok (k : key_hash) : Prop :=
  kh_keylen k = length (b_bytes (kh_key k)) ∧ Forall is_byte (b_bytes (kh_key k)) ∧
  (3 ≤ length (b_after (kh_key k)))%nat.

Lemma key_ok_hash k sd :
  key_ok k → mi_vector_hash (block_ptr (kh_key k)) (kh_keylen k) sd = Some (vector_hash (b_bytes (kh_key k)) sd).
Proof. intros (Hl & Hb & Ha). unfold block_ptr. rewrite Hl. by apply mi_vector_hash_run. Qed.

(** The graph of a list of keys: the nodes of each. *)
Definition key_nodes (V : nat) (sd : Z) (ks : list key_hash) (x : nat) (s : side) : nat :=
  match ks !! x with
  | Some k => node_of V (vector_hash (b_bytes (kh_key k)) sd) s
  | None => O
  end.

Lemma key_nodes_placed V sd ks : (0 < V)%nat → well_placed V (length ks) (key_nodes V sd ks).
Proof.
  intros HV x s Hx. unfold key_nodes. destruct (lookup_lt_is_Some_2 ks x Hx) as [k ->].
  unfold node_of. destruct (vector_hash _ _) as [[h0 h1] h2].
  assert (∀ h, (Z.to_nat (h mod Z.of_nat V) < V)%nat) as Hm by (intros h; pose proof (Z.mod_pos_bound h (Z.of_nat V)); lia).
  destruct s; apply Hm.
Qed.

(** ** Reading the keys *)

(** What does not change while the graph is built, and the sizes of the arrays. *)
Definition shape (st st' : state) : Prop :=
  data_entries st' = data_entries st ∧ entries st' = entries st ∧ keys st' = keys st ∧ seed st' = seed st ∧
  g st' = g st ∧ visited st' = visited st ∧ length (edges st') = length (edges st) ∧
  length (verts st') = length (verts st) ∧ length (output_order st') = length (output_order st).

#[global] Instance shape_preorder : PreOrder shape.
Proof. split; [done|]. unfold shape. intros x y z. naive_solver congruence. Qed.

Lemma frame_shape st st' : frame st st' → shape st st'.
Proof. unfold frame, shape. naive_solver congruence. Qed.

Section Fill.

Context (sd : Z) (ks : list key_hash) (V : nat).
Hypothesis keys_ok : Forall key_ok ks.

Abbreviation vt := (key_nodes V sd ks).

Definition distinct_from (j : nat) : Prop := ∀ x s s', (j ≤ x < length ks)%nat → vt x s = vt x s' → s = s'.

(** The first [j] edges are those of the keys. *)
Definition filled (st : state) (j : nat) : Prop :=
  ∀ x k, (x < j)%nat → ks !! x = Some k →
    ∃ e, edges st !! x = Some e ∧ e_idx e = kh_idx k ∧ ∀ s, e_vert s e = vt x s.

Lemma distinct_three j k e :
  ks !! j = Some k → (∀ s, e_vert s e = vt j s) →
  (left e =? middle e)%nat = false ∧ (left e =? right e)%nat = false ∧ (middle e =? right e)%nat = false ↔
  ∀ s s', vt j s = vt j s' → s = s'.
Proof.
  intros Hk He. rewrite !Nat.eqb_neq.
  pose proof (He SideL) as L. pose proof (He SideM) as M. pose proof (He SideR) as R. cbn in L, M, R.
  rewrite L, M, R. split.
  - intros (H1 & H2 & H3) [] []; try done; congruence.
  - intros Ha. split_and!; intros E; by apply Ha in E.
Qed.

Lemma fill_edges_spec st j :
  entries st = V → seed st = sd → (length ks ≤ length (edges st))%nat → (j ≤ length ks)%nat → filled st j →
  ∃ ok st', fill_edges st j (drop j ks) = Some (ok, st') ∧ shape st st' ∧
    (ok = true ↔ distinct_from j) ∧ (ok = true → filled st' (length ks)).
Proof.
  intros HV Hsd Hlen. remember (drop j ks) as l eqn:Hl. revert st j Hl HV Hsd Hlen.
  induction l as [|k l IH]; intros st j Hl HV Hsd Hlen Hj Hf.
  { assert (length ks ≤ j)%nat as Hge by (apply (f_equal length) in Hl; rewrite length_drop in Hl; cbn in Hl; lia).
    assert (j = length ks) as -> by lia. exists true, st. split; [done|]. split; [done|]. split; [|done].
    split; [|done]. intros _ x s s' Hx. lia. }
  assert (ks !! j = Some k) as Hk.
  { rewrite <- (Nat.add_0_r j), <- lookup_drop, <- Hl. done. }
  assert (j < length ks)%nat as Hjl by (by eapply lookup_lt_Some).
  cbn [fill_edges]. destruct (lookup_lt_is_Some_2 (edges st) j) as [e0 He0]; [lia|].
  rewrite He0. cbn [mbind option_bind].
  rewrite key_ok_hash by (by eapply Forall_lookup_1). cbn [mbind option_bind].
  destruct (vector_hash (b_bytes (kh_key k)) (seed st)) as [[h0 h1] h2] eqn:Hh.
  set (e := mk_edge _ _ _ _ _ _ _ _ _ _).
  unfold upd_edge. rewrite He0. cbn [mbind option_bind]. set (st1 := set_graph _ _ _).
  assert (∀ s, e_vert s e = vt j s) as He.
  { intros s. unfold key_nodes. rewrite Hk, <- Hsd, Hh, <- HV. by destruct s. }
  assert (shape st st1) as S1 by (unfold shape, st1; cbn; by rewrite length_insert).
  assert (filled st1 (S j)) as F1.
  { intros x k' Hx Hk'. unfold st1. cbn [set_graph edges]. destruct (decide (x = j)) as [->|].
    - rewrite list_lookup_insert_eq by lia. exists e. assert (k' = k) as -> by congruence. done.
    - rewrite list_lookup_insert_ne by done. apply Hf; [lia|done]. }
  pose proof (distinct_three j k e Hk He) as Hd.
  assert (¬ (∀ s s', vt j s = vt j s' → s = s') →
    ∃ ok st', Some (false, st1) = Some (ok, st') ∧ shape st st' ∧ (ok = true ↔ distinct_from j) ∧
      (ok = true → filled st' (length ks))) as Hbad.
  { intros Hn. exists false, st1. split; [done|]. split; [done|]. split; [|done]. split; [done|].
    intros Hdf. exfalso. apply Hn. intros s s'. apply Hdf. lia. }
  destruct (left e =? middle e)%nat; [apply Hbad; intros ?%Hd; naive_solver|].
  destruct (left e =? right e)%nat; [apply Hbad; intros ?%Hd; naive_solver|].
  destruct (middle e =? right e)%nat; [apply Hbad; intros ?%Hd; naive_solver|].
  destruct (IH st1 (S j)) as (ok & st' & -> & Hs & Hok & Hfl); try done; try lia.
  { rewrite (drop_S ks k j Hk) in Hl. congruence. }
  { unfold st1. cbn. by rewrite length_insert. }
  exists ok, st'. split; [done|]. split; [by etrans|]. split; [|done]. rewrite Hok. split.
  - intros Hdf x s s' Hx. destruct (decide (x = j)) as [->|]; [by apply Hd|]. apply Hdf. lia.
  - intros Hdf x s s' Hx. apply Hdf. lia.
Qed.

(** ** The whole construction *)

Abbreviation K := (length ks).

Lemma filled_idx st st' j : frame st st' → (∀ s x, vert_of st' s x = vert_of st s x) → filled st j → filled st' j.
Proof.
  intros F Hv Hf x k Hx Hk. destruct (Hf x k Hx Hk) as (e & He & Hi & Hve).
  assert (is_Some (edges st' !! x)) as [e' He'].
  { apply lookup_lt_is_Some. destruct F as (_ & _ & _ & _ & _ & _ & _ & _ & -> & _). by eapply lookup_lt_Some. }
  exists e'. split; [done|]. split.
  - destruct F as (_ & _ & _ & _ & _ & _ & _ & _ & _ & _ & F).
    assert ((e_idx <$> edges st') !! x = (e_idx <$> edges st) !! x) as E by (by rewrite F).
    rewrite !list_lookup_fmap, He, He' in E. cbn in E. congruence.
  - intros s. pose proof (Hv s x) as E. unfold vert_of in E. rewrite He, He' in E. cbn in E.
    injection E as ->. apply Hve.
Qed.

Lemma reset_graph st :
  entries st = V → length (verts st) = V → filled st K →
  ∃ st', reset_verts st = Some st' ∧ frame st st' ∧ (∀ s x, vert_of st' s x = vert_of st s x) ∧
    graph V K vt st' (λ _, ∅).
Proof.
  intros HV Hl Hf. unfold reset_verts. rewrite HV. destruct (Nat.leb_spec V (length (verts st))); [|lia].
  eexists. split; [done|]. split; [|split; [done|]].
  - unfold frame, set_graph. cbn. rewrite length_app, length_replicate, length_drop. split_and!; try done. lia.
  - split; [|intros s v Hv|set_solver].
    + intros x s Hx. destruct (lookup_lt_is_Some_2 ks x Hx) as [k Hk].
      destruct (Hf x k Hx Hk) as (e & He & _ & Hve). unfold vert_of, set_graph. cbn [edges]. rewrite He. cbn. by rewrite Hve.
    + exists None, []. split; [|split; [|set_solver]].
      * unfold head_of, set_graph. cbn [verts]. rewrite lookup_app_l by (rewrite length_replicate; lia).
        rewrite lookup_replicate_2 by lia. by destruct s.
      * split; [constructor|]. split; [done|]. intros i x Hi. done.
Qed.

Lemma link_all st X l :
  well_placed V K vt → graph V K vt st (λ _, X) → NoDup l → (∀ x, x ∈ l → (x < K)%nat ∧ x ∉ X) →
  ∃ st', fold_state link_edge l st = Some st' ∧ frame st st' ∧ graph V K vt st' (λ _, X ∪ list_to_set l).
Proof.
  intros Hw. revert st X. induction l as [|x l IH]; intros st X G Hnd Hin.
  - exists st. split; [done|]. split; [done|]. by replace (X ∪ list_to_set []) with X by set_solver.
  - apply NoDup_cons in Hnd as [Hxl Hnd]. destruct (Hin x) as [HxK HxX]; [set_solver|].
    destruct (link_edge_graph V K vt st X x Hw G HxK HxX) as (st1 & Hl1 & F1 & G1).
    cbn [fold_state]. rewrite Hl1. cbn [mbind option_bind].
    destruct (IH st1 _ G1 Hnd) as (st2 & -> & F2 & G2).
    { intros y Hy. destruct (Hin y) as [? ?]; [set_solver|]. split; [done|]. set_solver. }
    exists st2. split; [done|]. split; [by etrans|].
    by replace (X ∪ list_to_set (x :: l)) with ({[x]} ∪ X ∪ list_to_set l) by set_solver.
Qed.

(** A graph knows the nodes of its edges; with the indices, it is filled. *)
Lemma graph_filled st st' S :
  (e_idx <$> edges st') = (e_idx <$> edges st) → filled st K → graph V K vt st' S → filled st' K.
Proof.
  intros Hi Hf G x k Hx Hk. destruct (graph_edge _ _ _ _ _ x G Hx) as (e' & He' & Hve').
  exists e'. split; [done|]. split; [|done]. destruct (Hf x k Hx Hk) as (e & He & Hie & _).
  assert ((e_idx <$> edges st') !! x = (e_idx <$> edges st) !! x) as E by (by rewrite Hi).
  rewrite !list_lookup_fmap, He, He' in E. cbn in E. congruence.
Qed.

(** The arrays that [cdbw_output] allocates for the keys and the nodes. *)
Definition sized (st : state) : Prop :=
  entries st = V ∧ keys st = K ∧ seed st = sd ∧ (K ≤ length (edges st))%nat ∧ length (verts st) = V ∧
  length (output_order st) = K.

Lemma sized_shape st st' : shape st st' → sized st → sized st'.
Proof. unfold shape, sized. naive_solver congruence. Qed.

Lemma kept_shape st st' :
  kept st st' → length (output_order st') = length (output_order st) → shape st st'.
Proof. intros (i & o & F) Hl. unfold frame, shape in *. cbn in F. naive_solver congruence. Qed.

(** Building the graph of some keys succeeds exactly when the three nodes of every key are
    different and the edges have a peeling; then the order of the output is one. *)
Definition peelable : Prop := distinct K vt ∧ ∃ l, peeling K vt l.

Lemma build_graph_fills w st :
  mjoin (hash w) = ks → (0 < V)%nat → sized st →
  ∃ ok st', build_graph w st = Some (ok, st') ∧ shape st st' ∧ (ok = true ↔ peelable) ∧
    (ok = true → filled st' K ∧ peeling K vt (output_order st')).
Proof.
  intros Hks HV Hsz. pose proof Hsz as (Hen & Hk & Hsd & He & Hv & Ho).
  unfold build_graph. rewrite Hks.
  destruct (fill_edges_spec st 0) as (ok & st1 & Hfill & S1 & Hok & Hf); try done; [lia|intros ???; lia|].
  rewrite drop_0 in Hfill. rewrite Hfill. cbn [mbind option_bind].
  pose proof (sized_shape _ _ S1 Hsz) as (Hen1 & Hk1 & Hsd1 & He1 & Hv1 & Ho1).
  assert (distinct_from 0 ↔ distinct K vt) as Hd.
  { unfold distinct_from, distinct. split; intros Hx x s s' Hxk; apply Hx; lia. }
  rewrite Hd in Hok. destruct ok; cbn [negb]; cycle 1.
  { exists false, st1. split; [done|]. split; [done|]. split; [|done]. split; [done|]. intros [Hdd _].
    by apply Hok in Hdd. }
  destruct (reset_graph st1 Hen1 Hv1 (Hf eq_refl)) as (st2 & -> & F2 & V2 & G2). cbn [mbind option_bind].
  pose proof (filled_idx _ _ _ F2 V2 (Hf eq_refl)) as Hf2.
  pose proof (sized_shape _ _ (frame_shape _ _ F2) (sized_shape _ _ S1 Hsz)) as (Hen2 & Hk2 & Hsd2 & He2 & Hv2 & Ho2).
  rewrite Hk2. pose proof (key_nodes_placed V sd ks HV) as Hw.
  destruct (link_all st2 ∅ (seq 0 K) Hw G2) as (st3 & -> & F3 & G3); [apply NoDup_seq|intros x ?%elem_of_seq; set_solver by lia|].
  cbn [mbind option_bind]. rewrite union_empty_l_L in G3.
  pose proof (graph_filled _ _ _ (proj2 (proj2 (proj2 (proj2 (proj2 (proj2 (proj2 (proj2 (proj2 (proj2 F3)))))))))) Hf2 G3) as Hf3.
  set (st4 := set_output st3 (keys st3) (output_order st3)).
  assert (shape st st3) as S3 by (etrans; [done|]; etrans; [by apply frame_shape|by apply frame_shape]).
  pose proof (sized_shape _ _ S3 Hsz) as (Hen3 & Hk3 & Hsd3 & He3 & Hv3 & Ho3).
  assert (graph V K vt st4 (λ _, full K)) as G4 by (by destruct G3; split).
  change (entries st4) with (entries st3). rewrite Hen3.
  destruct (peel_correct V K vt st4 Hw (proj1 Hok eq_refl) G4) as (st5 & st6 & -> & Hp6 & K5 & K6 & [X P6] & Hiff & Hpeel); [done..|].
  cbn [mbind option_bind].
  assert (keys st5 = K) as -> by (destruct K5 as (i & o & F); destruct F as (_ & _ & -> & _); done).
  rewrite Hp6. cbn [mbind option_bind].
  assert (shape st3 st6) as S6.
  { destruct K6 as (i & o & F). apply (kept_shape st3); [by exists i, o|]. rewrite Ho3. apply (pe_len _ _ _ _ _ P6). }
  eexists _, st6. split; [done|]. split; [by etrans|]. rewrite Nat.eqb_eq. split.
  - rewrite Hiff. unfold peelable. split; [intros ?; split; [by apply Hok|done]|by intros []].
  - intros H0. split; [|by apply Hpeel]. eapply graph_filled; [|exact Hf3|exact (pe_graph _ _ _ _ _ P6)].
    destruct K6 as (i & o & F). apply F.
Qed.

End Fill.

(** ** The numbers of the nodes *)

Lemma node_number_eq n idx a b :
  0 < n → 3 * n ≤ 2 ^ 32 → 0 ≤ idx < n → 0 ≤ a < n → 0 ≤ b < n →
  node_number n idx a b = (idx - a - b) mod n.
Proof.
  intros Hn Hm Hi Ha Hb. unfold node_number, u32. rewrite (Z.mod_small (2 * n)) by lia.
  rewrite (Z.mod_small (2 * n + idx)) by lia. rewrite (Z.mod_small (2 * n + idx - a)) by lia.
  rewrite (Z.mod_small (2 * n + idx - a - b)) by lia.
  replace (2 * n + idx - a - b) with (idx - a - b + 2 * n) by lia. by rewrite Z.mod_add by lia.
Qed.

Lemma number_sum n idx a b : 0 < n → 0 ≤ idx < n → ((idx - a - b) mod n + a + b) mod n = idx.
Proof.
  intros Hn Hi. rewrite <- Z.add_assoc, Zplus_mod_idemp_l.
  replace (idx - a - b + (a + b)) with idx by lia. by apply Z.mod_small.
Qed.

(** Giving a number to a node changes the numbers and the marks only. *)
Lemma set_g_keeps st i z st' : set_g st i z = Some st' → entries st' = entries st ∧ seed st' = seed st.
Proof. unfold set_g. destruct (g st !! i); [|done]. by intros [= <-]. Qed.

Lemma set_visited_keeps st i st' : set_visited st i = Some st' → entries st' = entries st ∧ seed st' = seed st.
Proof. unfold set_visited. destruct (visited st !! i); [|done]. by intros [= <-]. Qed.

Lemma assign_edge_keeps st i st' : assign_edge st i = Some st' → entries st' = entries st ∧ seed st' = seed st.
Proof.
  unfold assign_edge. intros H.
  repeat (match type of H with
    | (?o ≫= _) = Some _ => let E := fresh "E" in destruct o eqn:E; [|done]; cbn [mbind option_bind] in H
    end).
  apply set_visited_keeps in H as [-> ->].
  repeat match goal with E : set_visited _ _ = Some _ |- _ => apply set_visited_keeps in E as [-> ->] end.
  match goal with E : (if negb ?b then _ else _) = Some _ |- _ => destruct b; cbn [negb] in E; revert E end;
    [|apply set_g_keeps].
  destruct (visited st !! middle e) as [[]|]; cbn [mbind option_bind negb]; [apply set_g_keeps..|done].
Qed.

Lemma assign_nodes_keeps st st' : assign_nodes st = Some st' → entries st' = entries st ∧ seed st' = seed st.
Proof.
  unfold assign_nodes. generalize (seq 0 (keys st)) as l. intros l. revert st. induction l as [|i l IH]; intros st.
  - by intros [= <-].
  - cbn [fold_state]. destruct (assign_edge st i) as [st1|] eqn:E; [|done]. cbn [mbind option_bind].
    apply assign_edge_keeps in E as [<- <-]. apply IH.
Qed.

Section Assign.

Context (V K : nat) (vt : nat → side → nat) (idx : nat → Z) (n : Z) (order : list nat).
Hypothesis n_pos : 0 < n.
Hypothesis n_small : 3 * n ≤ 2 ^ 32.
Hypothesis idx_ok : ∀ x, (x < K)%nat → 0 ≤ idx x < n.
Hypothesis placed : well_placed V K vt.
Hypothesis different : distinct K vt.
Hypothesis peels : peeling K vt order.

Implicit Types st : state.

(** The graph that the numbers are for. *)
Definition final st : Prop :=
  data_entries st = n ∧ keys st = K ∧ output_order st = order ∧ length (visited st) = V ∧ length (g st) = V ∧
  ∀ x, (x < K)%nat → ∃ e, edges st !! x = Some e ∧ e_idx e = idx x ∧ ∀ s, e_vert s e = vt x s.

(** The numbers of the nodes of an edge add up to its index. *)
Definition sums st x : Prop :=
  ∃ a b c, g st !! vt x SideL = Some a ∧ g st !! vt x SideM = Some b ∧ g st !! vt x SideR = Some c ∧
    (a + b + c) mod n = idx x.

(** After [i] edges: the nodes visited are theirs, and their sums are right. *)
Record assigned st i : Prop := {
  as_final : final st;
  as_range : Forall (λ z, 0 ≤ z < n) (g st);
  as_visited : ∀ v, visited st !! v = Some true ↔
    (v < V)%nat ∧ ∃ j x, (j < i)%nat ∧ order !! j = Some x ∧ touches vt x v;
  as_sums : ∀ j x, (j < i)%nat → order !! j = Some x → sums st x;
}.

Lemma order_edge i x : order !! i = Some x → (x < K)%nat.
Proof.
  intros Hi. destruct peels as [Hp _]. assert (x ∈ seq 0 K) as Hx by (rewrite <- Hp; by eapply list_elem_of_lookup_2).
  apply elem_of_seq in Hx. lia.
Qed.

(** A node of the edge [x] that is not visited gets a number: the sums of the earlier edges
    stay, and that of [x] is right. *)
Lemma number_node st i x s z gl gm gr :
  assigned st i → order !! i = Some x →
  g st !! vt x SideL = Some gl → g st !! vt x SideM = Some gm → g st !! vt x SideR = Some gr →
  visited st !! vt x s ≠ Some true →
  z = node_number n (idx x) (match s with SideL => gm | _ => gl end) (match s with SideR => gm | _ => gr end) →
  ∃ st', set_g st (vt x s) z = Some st' ∧ final st' ∧ visited st' = visited st ∧
    Forall (λ z, 0 ≤ z < n) (g st') ∧ ∀ j y, (j < S i)%nat → order !! j = Some y → sums st' y.
Proof.
  intros [F Hr Hvis Hsums] Hx Hl Hm Hrr Hs Hz. pose proof F as (F1 & F2 & F3 & F4 & F5 & F6).
  pose proof (order_edge i x Hx) as HxK. pose proof (idx_ok x HxK) as Hidx.
  assert ((vt x s < V)%nat) as Hv by (by apply placed).
  assert (∀ v a, g st !! v = Some a → 0 ≤ a < n) as Hrg by (intros v a Ha; by eapply (Forall_lookup_1 _ _ _ _ Hr)).
  pose proof (Hrg _ _ Hl) as Rl. pose proof (Hrg _ _ Hm) as Rm. pose proof (Hrg _ _ Hrr) as Rr.
  assert (z = (idx x - match s with SideL => gm | _ => gl end - match s with SideR => gm | _ => gr end) mod n) as Hz'.
  { rewrite Hz. apply node_number_eq; try done; by destruct s. }
  unfold set_g. destruct (lookup_lt_is_Some_2 (g st) (vt x s)) as [old ->]; [lia|]. cbn [mbind option_bind].
  eexists. split; [done|]. cbn [visited g]. split; [|split; [done|split]].
  - split_and!; try done. cbn. by rewrite length_insert.
  - apply Forall_insert; [done|]. rewrite Hz'. apply Z.mod_pos_bound. done.
  - assert (∀ v, v ≠ vt x s → (<[vt x s := z]> (g st)) !! v = g st !! v) as Hoth by (intros; by rewrite list_lookup_insert_ne).
    assert ((<[vt x s := z]> (g st)) !! vt x s = Some z) as Hown by (rewrite list_lookup_insert_eq by lia; done).
    intros j y Hj Hy. destruct (decide (j = i)) as [->|Hji].
    + assert (y = x) as -> by congruence. unfold sums. cbn [g].
      assert (∀ s', s' ≠ s → vt x s' ≠ vt x s) as Hd by (intros s' Hn E; apply Hn; by apply (different x)).
      destruct s.
      * exists z, gm, gr. rewrite Hown, !Hoth by (by apply Hd). split_and!; try done.
        rewrite Hz'. by apply number_sum.
      * exists gl, z, gr. rewrite Hown, !Hoth by (by apply Hd). split_and!; try done.
        rewrite Hz'. replace (gl + _ + gr) with ((idx x - gl - gr) mod n + gl + gr) by lia. by apply number_sum.
      * exists gl, gm, z. rewrite Hown, !Hoth by (by apply Hd). split_and!; try done.
        rewrite Hz'. replace (gl + gm + _) with ((idx x - gl - gm) mod n + gl + gm) by lia. by apply number_sum.
    + destruct (Hsums j y ltac:(lia) Hy) as (a & b & c & Ha & Hb & Hc & Hsum).
      assert (∀ s', vt y s' ≠ vt x s) as Hne.
      { intros s' E. apply Hs, Hvis. split; [done|]. exists j, y. split; [lia|]. split; [done|]. by exists s'. }
      exists a, b, c. cbn [g]. by rewrite !Hoth by apply Hne.
Qed.

Lemma set_visited_spec st v :
  (v < V)%nat → final st →
  ∃ st', set_visited st v = Some st' ∧ final st' ∧ g st' = g st ∧ visited st' = <[v := true]> (visited st).
Proof.
  intros Hv F. pose proof F as (F1 & F2 & F3 & F4 & F5 & F6). unfold set_visited.
  destruct (lookup_lt_is_Some_2 (visited st) v) as [b ->]; [lia|]. cbn [mbind option_bind].
  eexists. split; [done|]. split; [|done]. split_and!; try done. cbn. by rewrite length_insert.
Qed.

Lemma insert_true (l : list bool) v u :
  (v < length l)%nat → <[v := true]> l !! u = Some true ↔ u = v ∨ l !! u = Some true.
Proof.
  intros Hv. destruct (decide (u = v)) as [->|Hu]; [rewrite list_lookup_insert_eq by done; naive_solver|].
  rewrite list_lookup_insert_ne by done. naive_solver.
Qed.

Lemma assign_step st i x :
  assigned st i → order !! i = Some x → ∃ st', assign_edge st i = Some st' ∧ assigned st' (S i).
Proof.
  intros A Hx. pose proof A as [F Hr Hvis Hsums]. pose proof F as (F1 & F2 & F3 & F4 & F5 & F6).
  pose proof (order_edge i x Hx) as HxK. destruct (F6 x HxK) as (e & He & Hi & Hve).
  pose proof (Hve SideL) as EL. pose proof (Hve SideM) as EM. pose proof (Hve SideR) as ER. cbn in EL, EM, ER.
  assert (∀ s, (vt x s < V)%nat) as Hp by (intros; by apply placed).
  unfold assign_edge. rewrite F3, Hx. cbn [mbind option_bind]. rewrite He. cbn [mbind option_bind].
  rewrite EL, EM, ER, Hi, F1.
  destruct (lookup_lt_is_Some_2 (visited st) (vt x SideL)) as [vl Hvl]; [by rewrite F4|].
  destruct (lookup_lt_is_Some_2 (visited st) (vt x SideM)) as [vm Hvm]; [by rewrite F4|].
  destruct (lookup_lt_is_Some_2 (g st) (vt x SideL)) as [gl Hgl]; [by rewrite F5|].
  destruct (lookup_lt_is_Some_2 (g st) (vt x SideM)) as [gm Hgm]; [by rewrite F5|].
  destruct (lookup_lt_is_Some_2 (g st) (vt x SideR)) as [gr Hgr]; [by rewrite F5|].
  rewrite Hvl, Hgl, Hgm, Hgr. cbn [mbind option_bind].
  assert (∃ st1, (if negb vl then set_g st (vt x SideL) (node_number n (idx x) gm gr)
     else vm ← visited st !! vt x SideM;
          if negb vm then set_g st (vt x SideM) (node_number n (idx x) gl gr)
          else set_g st (vt x SideR) (node_number n (idx x) gl gm)) = Some st1 ∧ final st1 ∧
     visited st1 = visited st ∧ Forall (λ z, 0 ≤ z < n) (g st1) ∧
     ∀ j y, (j < S i)%nat → order !! j = Some y → sums st1 y) as (st1 & -> & Ff1 & Hv1 & Hr1 & Hs1).
  { destruct vl; cbn [negb]; [|by apply (number_node st i x SideL _ gl gm gr); try congruence].
    rewrite Hvm. cbn [mbind option_bind].
    destruct vm; cbn [negb]; [|by apply (number_node st i x SideM _ gl gm gr); try congruence].
    apply (number_node st i x SideR _ gl gm gr); try done. intros Hc.
    destruct peels as [_ Hpl]. destruct (Hpl i x Hx) as [s Hs].
    assert (visited st !! vt x s = Some true) as Hsv by (by destruct s).
    apply Hvis in Hsv as (_ & j & y & Hj & Hy & Ht). by eapply Hs. }
  cbn [mbind option_bind].
  destruct (set_visited_spec st1 (vt x SideL) (Hp _) Ff1) as (st2 & -> & Ff2 & Hg2 & Hv2). cbn [mbind option_bind].
  destruct (set_visited_spec st2 (vt x SideM) (Hp _) Ff2) as (st3 & -> & Ff3 & Hg3 & Hv3). cbn [mbind option_bind].
  destruct (set_visited_spec st3 (vt x SideR) (Hp _) Ff3) as (st4 & -> & Ff4 & Hg4 & Hv4).
  exists st4. split; [done|]. split; [done|by rewrite Hg4, Hg3, Hg2| |].
  - intros v. rewrite Hv4, Hv3, Hv2, Hv1. rewrite !insert_true by (rewrite ?length_insert, F4; apply Hp).
    rewrite Hvis. split.
    + intros [->|[->|[->|(Hv & j & y & Hj & Hy & Ht)]]];
        [split; [apply Hp|]; exists i, x; split_and!; [lia|done|by eexists]..|].
      split; [done|]. exists j, y. split_and!; [lia|done..].
    + intros (Hv & j & y & Hj & Hy & [s Hs]). destruct (decide (j = i)) as [->|].
      * assert (y = x) as -> by congruence. destruct s; rewrite <- Hs; auto.
      * do 3 right. split; [done|]. exists j, y. split_and!; [lia|done|by exists s].
  - intros j y Hj Hy. destruct (Hs1 j y Hj Hy) as (a & b & c & ?). exists a, b, c. by rewrite Hg4, Hg3, Hg2.
Qed.

(** After all edges the numbers of the nodes of every key add up to its index. *)
Lemma assign_nodes_correct st :
  final st → Forall (λ z, z = 0) (g st) → Forall (λ b, b = false) (visited st) →
  ∃ st', assign_nodes st = Some st' ∧ Forall (λ z, 0 ≤ z < n) (g st') ∧ length (g st') = V ∧
    ∀ x, (x < K)%nat → sums st' x.
Proof.
  intros F Hg Hv. unfold assign_nodes. pose proof F as (_ & -> & _).
  assert (length order = K) as Hlen by (destruct peels as [Hp _]; by rewrite Hp, length_seq).
  assert (∀ m i st, (i + m = K)%nat → assigned st i → ∃ st', fold_state assign_edge (seq i m) st = Some st' ∧ assigned st' K) as Hrun.
  { induction m as [|m IH]; intros i st0 Hi A; [exists st0; split; [done|]; by replace K with i by lia|].
    cbn [seq fold_state]. destruct (lookup_lt_is_Some_2 order i) as [x Hx]; [lia|].
    destruct (assign_step st0 i x A Hx) as (st1 & -> & A1). cbn [mbind option_bind]. apply IH; [lia|done]. }
  destruct (Hrun K 0%nat st) as (st' & -> & A); [lia|..].
  { split; [done|..].
    - eapply Forall_impl; [exact Hg|]. intros z ->. lia.
    - intros v. split; [intros E; by apply (Forall_lookup_1 _ _ _ _ Hv) in E|]. intros (_ & j & x & Hj & _). lia.
    - intros j x Hj. lia. }
  exists st'. split; [done|]. destruct A as [(_ & _ & _ & _ & Hl & _) Hr _ Hs]. split; [done|]. split; [done|].
  intros x Hx. destruct peels as [Hp _]. assert (x ∈ order) as Hin by (rewrite Hp; apply elem_of_seq; lia).
  apply list_elem_of_lookup in Hin as [j Hj]. eapply (Hs j); [|done]. rewrite <- Hlen. by eapply lookup_lt_Some.
Qed.

End Assign.
