(* ===== verification/CdbPrint.v ===== *)
(** * Writing constant databases ([src/npf/libcdb/src/cdbw.c]: [print_hash], [cdbw_output])

    The file is built in a buffer of 90000 bytes that is written out whenever the next item
    might not fit; [write] may fail or write less. *)

From S2P Require Import Prelude VectorHash Cdbw CdbGraph.

(** ** The buffer *)

Definition BUFSIZE : nat := Z.to_nat 90000.
Arguments BUFSIZE : simpl never.

(** The buffer, the position in it, what the file holds, and the number of writes. *)
Record pstate := mk_pstate { buf : list Z; cur_pos : nat; file : list Z; writes : nat }.

(** [None] is an access out of the buffer or of an array; [Some (None, _)] is [return -1]. *)
Definition W (A : Type) : Type := pstate → option (option A * pstate).

#[global] Instance W_ret : MRet W := λ A a p, Some (Some a, p).
#[global] Instance W_bind : MBind W := λ A B f m p,
  match m p with
  | Some (Some a, p) => f a p
  | Some (None, p) => Some (None, p)
  | None => None
  end.

Definition wlift {A} (o : option A) : W A := λ p, match o with Some a => Some (Some a, p) | None => None end.

(** [le32enc]. *)
Definition le32enc (v : Z) : list Z :=
  [v mod 256; v / 2 ^ 8 mod 256; v / 2 ^ 16 mod 256; v / 2 ^ 24 mod 256].

(** Bytes stored in the buffer at a position. *)
Definition put_at (off : nat) (l : list Z) : W unit := λ p,
  if (off + length l <=? length (buf p))%nat then
    Some (Some tt, mk_pstate (take off (buf p) ++ l ++ drop (off + length l) (buf p)) (cur_pos p) (file p) (writes p))
  else None.

Definition set_pos (n : nat) : W unit := λ p, Some (Some tt, mk_pstate (buf p) n (file p) (writes p)).
Definition pos : W nat := λ p, Some (Some (cur_pos p), p).

Section Print.

(** The result of each call of [write], from its number and the bytes it is asked for. *)
Context (write : nat → Z → Z).

(** [write] and the test of its result. *)
Definition do_write (l : list Z) : W unit := λ p,
  let ret := write (writes p) (Z.of_nat (length l)) in
  let p := mk_pstate (buf p) (cur_pos p) (file p ++ take (Z.to_nat ret) l) (S (writes p)) in
  if (ret =? -1) || negb (ret =? Z.of_nat (length l)) then Some (None, p) else Some (Some tt, p).

Definition write_buffer : W unit := λ p, do_write (take (cur_pos p) (buf p)) p.

Definition COND_FLUSH_BUFFER (n : nat) : W unit :=
  c ← pos;
  if (BUFSIZE <=? c + n)%nat then write_buffer;; set_pos 0 else mret tt.

(** [le32enc(buf + cur_pos, v); cur_pos += size]. *)
Definition put_number (v : Z) (size : nat) : W unit :=
  COND_FLUSH_BUFFER 4;;
  c ← pos; put_at c (le32enc v);; set_pos (c + size).

Fixpoint put_numbers (l : list Z) (size : nat) : W unit :=
  match l with [] => mret tt | v :: l => put_number v size;; put_numbers l size end.

Definition compute_size (size : Z) : nat := if size <? 0x100 then 1 else if size <? 0x10000 then 2 else 4.

(** [strncpy] of 16 bytes. *)
Fixpoint until_nul (l : list Z) : list Z :=
  match l with [] => [] | c :: l => if c =? 0 then [] else c :: until_nul l end.
Definition strncpy16 (l : list Z) : list Z := let l := take 16 (until_nul l) in l ++ replicate (16 - length l) 0.

(** The offsets: the sums of the lengths so far, and the last sum. *)
Fixpoint put_offsets (lens : list (option nat)) (data_size : Z) (size : nat) : W Z :=
  match lens with
  | [] => mret data_size
  | o :: lens =>
      put_number data_size size;;
      n ← wlift o;
      put_offsets lens (u32 (data_size + Z.of_nat n)) size
  end.

Definition put_data (len : nat) (s : slot) : W unit :=
  COND_FLUSH_BUFFER len;;
  b ← wlift (match s with Data b => Some b | _ => None end);
  l ← wlift (if (len <=? length (b_bytes b))%nat then Some (take len (b_bytes b)) else None);
  if (len <? BUFSIZE)%nat then c ← pos; put_at c l;; set_pos (c + len)
  else do_write l.

Fixpoint put_all_data (lens : list (option nat)) (slots : list slot) : W unit :=
  match lens, slots with
  | o :: lens, s :: slots => n ← wlift o; put_data n s;; put_all_data lens slots
  | _, _ => mret tt
  end.

(** The first [n] elements of an array. *)
Definition first_elems {A} (n : nat) (l : list A) : option (list A) :=
  if (n <=? length l)%nat then Some (take n l) else None.

Definition print_header (dsize : Z) (n ents : nat) (sd : Z) (descr : list Z) : W unit :=
  put_at 0 [78; 66; 67; 68; 66; 10; 0];;
  put_at 7 [1];;
  put_at 8 (strncpy16 descr);;
  put_at 24 (le32enc dsize);;
  put_at 28 (le32enc (Z.of_nat n));;
  put_at 32 (le32enc (Z.of_nat ents));;
  put_at 36 (le32enc sd);;
  set_pos 40.

(** The tables and the data. *)
Definition print_tables (w : cdbw) (ents : nat) (gs : list Z) : W unit :=
  let size := compute_size (Z.of_nat ents) in
  gs ← wlift (first_elems ents gs);
  put_numbers gs size;;
  let size2 := compute_size (w_data_size w) in
  let rem := ((size * ents) mod size2)%nat in
  (if (rem =? 0)%nat then mret tt else put_number 0 (size2 - rem));;
  lens ← wlift (first_elems (data_counter w) (data_len w));
  slots ← wlift (first_elems (data_counter w) (data_ptr w));
  total ← put_offsets lens 0 size2;
  put_number total size2;;
  put_all_data lens slots.

Definition print_hash (w : cdbw) (ents : nat) (sd : Z) (gs : list Z) (descr : list Z) : W unit :=
  print_header (w_data_size w) (data_counter w) ents sd descr;;
  print_tables w ents gs;;
  c ← pos;
  if (c =? 0)%nat then mret tt else write_buffer.

End Print.

(** ** The file *)

(** The numbers of a list written with [size] bytes each. *)
Definition numbers (l : list Z) (size : nat) : list Z := mjoin ((λ v, take size (le32enc v)) <$> l).

(** The sums of the lengths before each element, and the sum of all. *)
Fixpoint offsets (lens : list nat) (d : Z) : list Z :=
  match lens with [] => [d] | n :: lens => d :: offsets lens (u32 (d + Z.of_nat n)) end.

Definition cdb_header (dsize : Z) (n ents : nat) (sd : Z) (descr : list Z) : list Z :=
  [78; 66; 67; 68; 66; 10; 0] ++ [1] ++ strncpy16 descr ++ le32enc dsize ++ le32enc (Z.of_nat n)
  ++ le32enc (Z.of_nat ents) ++ le32enc sd.

Definition cdb_tables (dsize : Z) (ents : nat) (gs : list Z) (datas : list (list Z)) : list Z :=
  let size := compute_size (Z.of_nat ents) in
  let size2 := compute_size dsize in
  let rem := ((size * ents) mod size2)%nat in
  numbers gs size
  ++ (if (rem =? 0)%nat then [] else replicate (size2 - rem) 0)
  ++ numbers (offsets (length <$> datas) 0) size2
  ++ mjoin datas.

Definition cdb_image (dsize : Z) (n ents : nat) (sd : Z) (gs : list Z) (descr : list Z) (datas : list (list Z))
    : list Z :=
  cdb_header dsize n ents sd descr ++ cdb_tables dsize ents gs datas.

(** ** What is written

    [prints m l]: [m] appends [l] to what the file and the buffer hold together. *)

Section Printed.

Context (write : nat → Z → Z).
Hypothesis write_ok : ∀ k n, write k n = n.

Definition contents (p : pstate) : list Z := file p ++ take (cur_pos p) (buf p).

Definition buf_ok (p : pstate) : Prop := length (buf p) = BUFSIZE ∧ (cur_pos p < BUFSIZE)%nat.

Definition prints {A} (m : W A) (l : list Z) (a : A) : Prop :=
  ∀ p, buf_ok p → ∃ p', m p = Some (Some a, p') ∧ buf_ok p' ∧ contents p' = contents p ++ l.

Lemma prints_ret {A} (a : A) : prints (mret a) [] a.
Proof. intros p Hp. exists p. split; [done|]. split; [done|]. by rewrite app_nil_r. Qed.

Lemma prints_bind {A B} (m : W A) (f : A → W B) l l' a b :
  prints m l a → prints (f a) l' b → prints (m ≫= f) (l ++ l') b.
Proof.
  intros Hm Hf p Hp. destruct (Hm p Hp) as (p1 & E1 & Hp1 & C1). destruct (Hf p1 Hp1) as (p2 & E2 & Hp2 & C2).
  exists p2. unfold mbind, W_bind. rewrite E1. split; [done|]. split; [done|]. by rewrite C2, C1, app_assoc.
Qed.

Lemma prints_bind_nil {A B} (m : W A) (f : A → W B) l a b :
  prints m [] a → prints (f a) l b → prints (m ≫= f) l b.
Proof. intros Hm Hf. rewrite <- (app_nil_l l). by eapply prints_bind. Qed.

Lemma prints_wlift {A} (a : A) : prints (wlift (Some a)) [] a.
Proof. intros p Hp. exists p. split; [done|]. split; [done|]. by rewrite app_nil_r. Qed.

Lemma do_write_run l p :
  do_write write l p = Some (Some tt, mk_pstate (buf p) (cur_pos p) (file p ++ l) (S (writes p))).
Proof.
  unfold do_write. rewrite write_ok. destruct (Z.eqb_spec (Z.of_nat (length l)) (-1)); [lia|].
  rewrite Z.eqb_refl. cbn [orb negb]. by rewrite Nat2Z.id, take_ge.
Qed.

(** After the test for [n] bytes they fit, when the whole buffer is longer. *)
Lemma flush_run n p :
  buf_ok p → ∃ p', COND_FLUSH_BUFFER write n p = Some (Some tt, p') ∧ buf_ok p' ∧ contents p' = contents p ∧
    (cur_pos p' + n < BUFSIZE ∨ cur_pos p' = 0)%nat.
Proof.
  intros [Hl Hc]. unfold COND_FLUSH_BUFFER, pos. unfold mbind, W_bind at 1.
  destruct (Nat.leb_spec BUFSIZE (cur_pos p + n)) as [Hf|Hf].
  - unfold mbind, W_bind, write_buffer. rewrite do_write_run. cbn.
    eexists. split; [done|]. unfold buf_ok, contents. cbn [buf cur_pos file]. rewrite take_0, app_nil_r.
    split; [split; [done|]; unfold BUFSIZE in *; lia|]. split; [done|by right].
  - exists p. split; [done|]. split; [done|]. split; [done|]. left. lia.
Qed.

(** Storing bytes at the position and moving behind the first [k]. *)
Lemma put_run p l k :
  buf_ok p → (cur_pos p + length l ≤ BUFSIZE)%nat → (cur_pos p + k < BUFSIZE)%nat → (k ≤ length l)%nat →
  ∃ p', (put_at (cur_pos p) l;; set_pos (cur_pos p + k)) p = Some (Some tt, p') ∧ buf_ok p' ∧
    contents p' = contents p ++ take k l.
Proof.
  intros [Hl Hc] H4 Hk Hkl. unfold mbind, W_bind, put_at, set_pos. rewrite Hl.
  destruct (Nat.leb_spec (cur_pos p + length l) BUFSIZE); [|lia].
  eexists. split; [done|]. unfold buf_ok, contents. cbn [buf cur_pos file]. split.
  - split; [|done]. rewrite !length_app, length_take, length_drop. lia.
  - rewrite <- app_assoc. f_equal. rewrite take_app_ge by (rewrite length_take; lia).
    f_equal. rewrite length_take, Nat.min_l by lia. rewrite take_app_le by lia. f_equal. lia.
Qed.

Lemma put_number_prints v k : (k ≤ 4)%nat → prints (put_number write v k) (take k (le32enc v)) tt.
Proof.
  intros Hk p Hp. unfold put_number. destruct (flush_run 4 p Hp) as (p1 & E1 & Hp1 & C1 & Hc).
  unfold mbind at 1, W_bind at 1. rewrite E1. unfold mbind at 1, W_bind at 1. unfold pos.
  assert (cur_pos p1 + 4 < BUFSIZE)%nat as Hb by (unfold BUFSIZE in *; lia).
  destruct (put_run p1 (le32enc v) k Hp1) as (p2 & E2 & Hp2 & C2); [cbn; lia|lia|cbn; lia|].
  exists p2. split; [done|]. split; [done|]. by rewrite C2, C1.
Qed.

Lemma put_numbers_prints l k : (k ≤ 4)%nat → prints (put_numbers write l k) (numbers l k) tt.
Proof.
  intros Hk. induction l as [|v l IH]; [apply prints_ret|]. cbn [put_numbers].
  change (numbers (v :: l) k) with (take k (le32enc v) ++ numbers l k).
  eapply prints_bind; [by apply put_number_prints|done].
Qed.

Lemma put_offsets_prints lens d k :
  (k ≤ 4)%nat →
  ∃ total, prints (put_offsets write (Some <$> lens) d k) (numbers (removelast (offsets lens d)) k) total ∧
    last (offsets lens d) = Some total.
Proof.
  intros Hk. revert d. induction lens as [|n lens IH]; intros d; cbn [put_offsets fmap list_fmap offsets].
  - exists d. split; [apply prints_ret|done].
  - destruct (IH (u32 (d + Z.of_nat n))) as (total & Hp & Hl). exists total. split.
    + change (removelast (d :: offsets lens (u32 (d + Z.of_nat n)))) with
        (match offsets lens (u32 (d + Z.of_nat n)) with [] => [] | _ => d :: removelast (offsets lens (u32 (d + Z.of_nat n))) end).
      assert (∃ x l, offsets lens (u32 (d + Z.of_nat n)) = x :: l) as (x & l & E) by (destruct lens; by eexists _, _).
      rewrite E in *. change (numbers (d :: removelast (x :: l)) k) with (take k (le32enc d) ++ numbers (removelast (x :: l)) k).
      eapply prints_bind; [by apply put_number_prints|]. change (numbers (removelast (x :: l)) k) with ([] ++ numbers (removelast (x :: l)) k).
      eapply prints_bind; [apply prints_wlift|done].
    + rewrite last_cons, Hl. done.
Qed.

Lemma put_data_prints b : prints (put_data write (length (b_bytes b)) (Data b)) (b_bytes b) tt.
Proof.
  intros p Hp. unfold put_data. destruct (flush_run (length (b_bytes b)) p Hp) as (p1 & E1 & Hp1 & C1 & Hc).
  unfold mbind at 1, W_bind at 1. rewrite E1. unfold mbind, W_bind, wlift. rewrite Nat.leb_refl.
  rewrite (take_ge (b_bytes b)) by done.
  destruct (Nat.ltb_spec (length (b_bytes b)) BUFSIZE) as [Hb|Hb].
  - unfold pos. destruct (put_run p1 (b_bytes b) (length (b_bytes b)) Hp1) as (p2 & E2 & Hp2 & C2); [destruct Hp1; lia|destruct Hp1; lia|done|].
    exists p2. split; [exact E2|]. split; [done|]. by rewrite C2, C1, take_ge by done.
  - rewrite do_write_run. eexists. split; [done|]. assert (cur_pos p1 = 0)%nat as H0 by lia.
    split; [done|]. rewrite <- C1. unfold contents. cbn. by rewrite H0, !take_0, !app_nil_r.
Qed.

Lemma put_all_data_prints bs :
  prints (put_all_data write ((λ b, Some (length (b_bytes b))) <$> bs) (Data <$> bs)) (mjoin (b_bytes <$> bs)) tt.
Proof.
  induction bs as [|b bs IH]; [apply prints_ret|]. cbn [put_all_data fmap list_fmap].
  change (mjoin _) with ([] ++ (b_bytes b ++ mjoin (b_bytes <$> bs))).
  eapply prints_bind; [apply prints_wlift|]. eapply prints_bind; [apply put_data_prints|done].
Qed.

(** ** The whole file *)

(** Bytes stored behind [h], which is at the start of the buffer. *)
Definition starts (h : list Z) (p : pstate) : Prop :=
  length (buf p) = BUFSIZE ∧ take (length h) (buf p) = h.

Lemma put_at_starts h l p :
  starts h p → (length h + length l ≤ BUFSIZE)%nat →
  ∃ p', put_at (length h) l p = Some (Some tt, p') ∧ starts (h ++ l) p' ∧ file p' = file p.
Proof.
  intros [Hl Ht] Hle. unfold put_at. rewrite Hl. destruct (Nat.leb_spec (length h + length l) BUFSIZE); [|lia].
  eexists. split; [done|]. split; [|done]. unfold starts. cbn [buf]. rewrite Ht. split.
  - rewrite !length_app, length_drop. lia.
  - rewrite app_assoc. rewrite take_app_le by done. by rewrite take_ge.
Qed.

Lemma strncpy16_length l : length (strncpy16 l) = 16%nat.
Proof. unfold strncpy16. rewrite length_app, length_replicate, length_take. lia. Qed.

Lemma le32enc_length v : length (le32enc v) = 4%nat.
Proof. done. Qed.

(** [put_next H l] runs the next [put_at] of the header. *)
Ltac put_next H l :=
  let p := fresh "p" in let E := fresh "E" in let S := fresh "S" in let F := fresh "F" in
  destruct (put_at_starts _ l _ H) as (p & E & S & F);
  [rewrite ?length_app, ?strncpy16_length; cbn; unfold BUFSIZE; lia|];
  rewrite ?length_app, ?strncpy16_length, ?le32enc_length in E; cbn [length Nat.add] in E;
  unfold mbind at 1, W_bind at 1; rewrite E; clear E; clear H; rename S into H.

Lemma header_prints p dsize n ents sd descr :
  length (buf p) = BUFSIZE →
  ∃ p', print_header dsize n ents sd descr p = Some (Some tt, p') ∧
    buf_ok p' ∧ contents p' = file p ++ cdb_header dsize n ents sd descr.
Proof.
  intros Hl. assert (starts [] p) as H by done. unfold print_header.
  put_next H [78; 66; 67; 68; 66; 10; 0]. put_next H [1]. put_next H (strncpy16 descr).
  put_next H (le32enc dsize). put_next H (le32enc (Z.of_nat n)). put_next H (le32enc (Z.of_nat ents)).
  put_next H (le32enc sd).
  eexists. split; [done|]. unfold buf_ok, contents. cbn [buf cur_pos file]. destruct H as [Hb Ht].
  split; [split; [done|]; unfold BUFSIZE; lia|].
  repeat match goal with F : file _ = file _ |- _ => rewrite F; clear F end. f_equal.
  rewrite !length_app, strncpy16_length, !le32enc_length in Ht. cbn [length Nat.add] in Ht. rewrite Ht.
  unfold cdb_header. by rewrite !app_nil_l, <- !app_assoc.
Qed.

Lemma compute_size_cases z : compute_size z = 1%nat ∨ compute_size z = 2%nat ∨ compute_size z = 4%nat.
Proof. unfold compute_size. destruct (z <? 0x100), (z <? 0x10000); auto. Qed.

Lemma prints_zero k : (k ≤ 4)%nat → prints (put_number write 0 k) (replicate k 0) tt.
Proof.
  intros Hk. replace (replicate k 0) with (take k (le32enc 0)); [by apply put_number_prints|].
  do 5 (destruct k as [|k]; [done|]). lia.
Qed.

Lemma numbers_app l1 l2 k : numbers (l1 ++ l2) k = numbers l1 k ++ numbers l2 k.
Proof. unfold numbers. by rewrite fmap_app, join_app. Qed.

Lemma last_removelast {A} (l : list A) x : last l = Some x → l = removelast l ++ [x].
Proof.
  intros Hl. destruct (exists_last (l:=l)) as (l' & y & ->); [by intros ->|].
  rewrite last_snoc in Hl. injection Hl as ->. by rewrite removelast_last.
Qed.

(** The records of an array. *)
Definition records (w : cdbw) (bs : list block) : Prop :=
  data_counter w = length bs ∧ first_elems (data_counter w) (data_ptr w) = Some (Data <$> bs) ∧
  first_elems (data_counter w) (data_len w) = Some ((λ b, Some (length (b_bytes b))) <$> bs).

Lemma tables_print w ents gs bs :
  records w bs → length gs = ents →
  prints (print_tables write w ents gs) (cdb_tables (w_data_size w) ents gs (b_bytes <$> bs)) tt.
Proof.
  intros (Hn & Hp & Hle) Hg.
  assert (compute_size (Z.of_nat ents) ≤ 4 ∧ compute_size (w_data_size w) ≤ 4)%nat as [H1 H2].
  { destruct (compute_size_cases (Z.of_nat ents)) as [->|[->| ->]], (compute_size_cases (w_data_size w)) as [->|[->| ->]]; lia. }
  unfold print_tables, cdb_tables. set (s1 := compute_size (Z.of_nat ents)) in *. set (s2 := compute_size (w_data_size w)) in *.
  rewrite Hp, Hle. unfold first_elems. rewrite Hg, Nat.leb_refl, take_ge by lia.
  eapply prints_bind_nil; [apply prints_wlift|].
  eapply prints_bind; [by apply put_numbers_prints|].
  eapply prints_bind; [destruct (_ =? 0)%nat; [apply prints_ret|apply prints_zero; lia]|].
  eapply prints_bind_nil; [apply prints_wlift|]. eapply prints_bind_nil; [apply prints_wlift|].
  rewrite <- list_fmap_compose.
  change ((λ b, Some (length (b_bytes b))) <$> bs) with ((Some ∘ (length ∘ b_bytes)) <$> bs).
  rewrite (list_fmap_compose (length ∘ b_bytes) Some).
  destruct (put_offsets_prints (length ∘ b_bytes <$> bs) 0 s2 H2) as (total & Hpr & Hl).
  rewrite (last_removelast _ _ Hl), numbers_app, <- app_assoc.
  eapply prints_bind; [exact Hpr|].
  replace (numbers [total] s2) with (take s2 (le32enc total)) by (unfold numbers; cbn; by rewrite app_nil_r).
  eapply prints_bind; [by apply put_number_prints|]. rewrite <- list_fmap_compose. apply put_all_data_prints.
Qed.

(** When nothing goes wrong [print_hash] appends the image of the database to the file. *)
Lemma print_hash_correct w ents sd gs descr bs p :
  records w bs → length gs = ents → length (buf p) = BUFSIZE →
  ∃ p', print_hash write w ents sd gs descr p = Some (Some tt, p') ∧
    file p' = file p ++ cdb_image (w_data_size w) (data_counter w) ents sd gs descr (b_bytes <$> bs).
Proof.
  intros Hr Hg Hl.
  destruct (header_prints p (w_data_size w) (data_counter w) ents sd descr Hl) as (p1 & E1 & Hp1 & C1).
  destruct (tables_print w ents gs bs Hr Hg p1 Hp1) as (p2 & E2 & Hp2 & C2).
  assert (∃ p3, (c ← pos; if (c =? 0)%nat then mret tt else write_buffer write) p2 = Some (Some tt, p3) ∧
    file p3 = contents p2) as (p3 & E3 & C3).
  { unfold pos, mbind, W_bind, contents. destruct (Nat.eqb_spec (cur_pos p2) 0) as [->|].
    - exists p2. split; [done|]. by rewrite take_0, app_nil_r.
    - unfold write_buffer. rewrite do_write_run. by eexists. }
  exists p3. split.
  - unfold print_hash. unfold mbind at 1, W_bind at 1. rewrite E1. unfold mbind at 1, W_bind at 1. by rewrite E2.
  - unfold cdb_image. by rewrite C3, C2, C1, <- app_assoc.
Qed.

End Printed.
