(* ===== verification/CdbOutput.v ===== *)
(** * Writing constant databases ([src/npf/libcdb/src/cdbw.c]: [cdbw_output])

    The arrays of the graph are allocated, seeds are tried until the graph of the keys can be
    peeled, and the file is written. *)

From stdpp Require Import fin_sets.
From S2P Require Import Prelude VectorHash Cdbw CdbGraph CdbPeel CdbBuild CdbAssign CdbPrint.

(** The memory, and the file with the number of writes to it. *)
Record world := mk_world { mem : memory; out_file : list Z; out_writes : nat }.

Section Output.

Context (answer : nat → option (Z * list Z)) (write : nat → Z → Z).

Definition with_mem {A} (m : M memory A) : M world A := λ w,
  match m (mem w) with
  | Some (a, m') => Some (a, mk_world m' (out_file w) (out_writes w))
  | None => None
  end.

(** Printing with a buffer on the stack, which holds anything; [true] for [0]. *)
Definition with_buffer (stack : list Z) (m : W unit) : M world bool := λ w,
  match m (mk_pstate stack 0 (out_file w) (out_writes w)) with
  | Some (r, p) => Some (match r with Some _ => true | None => false end, mk_world (mem w) (file p) (writes p))
  | None => None
  end.

Definition cdbw_stable_seeder : Z := 0.

(** The generator of seeds: the stable one, or a function that gives a number each time it
    is called, such as [cdbw_random_seeder], which is used for NULL. *)
Inductive seedgen := Stable | Gen (f : nat → Z).

(** The seed after the one in use, at the attempt [k]. *)
Definition next_seed (sg : seedgen) (k : nat) (sd : Z) : Z :=
  match sg with Stable => u32 (sd + 1) | Gen f => u32 (f k) end.

Definition set_seed (st : state) (sd : Z) : state :=
  mk_state (data_entries st) (entries st) (keys st) sd (g st) (visited st) (verts st) (edges st)
    (output_index st) (output_order st).

(** The loop over the seeds; [None] also when [fuel] is not enough. *)
Fixpoint try_seeds (fuel : nat) (w : cdbw) (sg : seedgen) (k : nat) (st : state) : option state :=
  match fuel with
  | O => None
  | S fuel =>
      r ← build_graph w (set_seed st (next_seed sg k (seed st)));
      let '(ok, st) := r in
      if (ok : bool) then Some st else try_seeds fuel w sg (S k) st
  end.

(** [state.entries]. *)
Definition num_entries (ks : nat) : nat :=
  let n := u32 (u32 (Z.of_nat ks) + u32 (u32 (Z.of_nat ks) + 3) / 4) in
  Z.to_nat (if n <? 10 then 10 else n).

(** The state with the arrays as [calloc] gives them. *)
Definition initial_state (w : cdbw) : state :=
  let n := num_entries (key_counter w) in
  mk_state (Z.of_nat (data_counter w)) n (key_counter w) 0 (replicate n 0) (replicate n false)
    (replicate n (mk_vertex (Some 0%nat) (Some 0%nat) (Some 0%nat)))
    (replicate n (mk_edge 0 0 0 0 (Some 0) (Some 0) (Some 0) (Some 0) (Some 0) (Some 0))%nat)
    0 (replicate (key_counter w) 0%nat).

Definition release (ps : list (option positive)) : M world unit :=
  foldr (λ p m, with_mem (free p);; m) (mret tt) ps.

Definition cdbw_output (fuel : nat) (w : cdbw) (stack descr : list Z) (sg : seedgen) : M world bool :=
  if ((data_counter w =? 0) || (key_counter w =? 0))%nat then
    with_buffer stack (print_hash write w 0 0 [] descr);;
    mret true
  else
    p1 ← with_mem (alloc answer);
    p2 ← with_mem (alloc answer);
    p3 ← with_mem (alloc answer);
    p4 ← with_mem (alloc answer);
    p5 ← with_mem (alloc answer);
    match p1, p2, p3, p4, p5 with
    | Some _, Some _, Some _, Some _, Some _ =>
        st ← unwrap (try_seeds fuel w sg 0 (initial_state w));
        st ← unwrap (assign_nodes st);
        rv ← with_buffer stack (print_hash write w (entries st) (seed st) (g st) descr);
        release [p1; p2; p3; p4; p5];;
        mret rv
    | _, _, _, _, _ =>
        release [p1; p2; p3; p4; p5];;
        mret false
    end.

End Output.
