(* ===== verification/CdbTable.v ===== *)
(** * Constant databases under construction: a map of keys and a list of records

    The table of [cdbw.c] against what it stands for, and the memory it owns. *)

From stdpp Require Import fin_sets.
From S2P Require Import Prelude VectorHash Cdbw CdbGraph CdbAssign CdbPrint.

(** ** The memory that is owned *)

(** The blocks that are allocated are those of a list, each once. *)
Definition holds (m : memory) (l : list positive) : Prop := NoDup l ∧ ∀ p, p ∈ live m ↔ p ∈ l.

Lemma holds_perm m l l' : holds m l → l ≡ₚ l' → holds m l'.
Proof. intros [Hn Hl] Hp. split; [by rewrite <- Hp|]. intros p. by rewrite <- Hp. Qed.

Definition option_ids (o : option positive) : list positive := match o with Some p => [p] | None => [] end.

Section Table.

Context (answer : nat → option (Z * list Z)).

(** What is behind a block can be read, at least to the end of its last word. *)
Hypothesis malloc_slack : ∀ k a after, answer k = Some (a, after) → (3 ≤ length after)%nat.

(** Whether the allocator refused a request. *)
Definition refused : Prop := ∃ k, answer k = None.

Lemma wp_malloc bytes m l :
  holds m l →
  wp (malloc answer bytes) (λ r m',
    match r with
    | None => refused ∧ holds m' l
    | Some b => b_bytes b = bytes ∧ (3 ≤ length (b_after b))%nat ∧ holds m' (b_id b :: l)
    end) m.
Proof.
  intros [Hn Hl]. unfold wp, malloc. destruct (answer (requests m)) as [[a after]|] eqn:E.
  - cbn. split; [done|]. split; [by eapply malloc_slack|]. split.
    + apply NoDup_cons. split; [|done]. rewrite <- Hl. apply is_fresh.
    + intros p. cbn. rewrite elem_of_union, elem_of_singleton, elem_of_cons. by rewrite Hl.
  - split; [by exists (requests m)|done].
Qed.

Lemma wp_calloc m l :
  holds m l →
  wp (alloc answer) (λ r m', match r with None => refused ∧ holds m' l | Some p => holds m' (p :: l) end) m.
Proof.
  intros H. unfold alloc. rewrite wp_bind. eapply wp_mono; [by apply wp_malloc|].
  intros [b|] m' Hb; cbn; [apply Hb|done].
Qed.

Lemma wp_free_Some p m l : holds m (p :: l) → wp (free (Some p)) (λ _ m', holds m' l) m.
Proof.
  intros [Hn Hl]. apply NoDup_cons in Hn as [Hp Hn]. unfold free, wp, mbind, M_bind, gets, massert, modify.
  rewrite bool_decide_eq_true_2 by (apply Hl; set_solver). cbn. split; [done|].
  intros q. cbn. rewrite elem_of_difference, Hl, elem_of_cons, elem_of_singleton. naive_solver.
Qed.

Lemma wp_free_option o m l : holds m (option_ids o ++ l) → wp (free o) (λ _ m', holds m' l) m.
Proof. destruct o as [p|]; [apply wp_free_Some|done]. Qed.

Lemma wp_realloc o m l :
  holds m (option_ids o ++ l) →
  wp (realloc answer o) (λ r m',
    match r with None => refused ∧ holds m' (option_ids o ++ l) | Some q => holds m' (q :: l) end) m.
Proof.
  intros H. unfold realloc. rewrite wp_bind. eapply wp_mono; [by apply wp_calloc|]. intros [q|] m' Hq; cbn; [|done].
  rewrite wp_bind. eapply wp_mono.
  - apply (wp_free_option o m' (q :: l)). eapply holds_perm; [done|]. solve_Permutation.
  - intros ? m2 H2. by rewrite wp_ret.
Qed.

(** ** What a table stands for *)

Definition key_bytes_of (k : key_hash) : list Z := b_bytes (kh_key k).
Definition key_ids (k : key_hash) : list positive := [b_id (kh_key k); kh_id k].

(** The chains of a table: as many as its size, and every key in its own. *)
Record placed (size : nat) (t : list (list key_hash)) : Prop := {
  pl_power : ∃ e, size = (2 ^ e)%nat;
  pl_length : length t = size;
  pl_place : ∀ i c k, t !! i = Some c → k ∈ c → chain_of size (kh_hashes k) = i;
}.

(** The keys are what [cdbw_put_key] makes of them, and different; [n] is the number of
    records. *)
Record entries_ok (n : nat) (l : list key_hash) : Prop := {
  en_keys : Forall key_ok l;
  en_hashes : Forall (λ k, kh_hashes k = vector_hash (key_bytes_of k) 0) l;
  en_index : Forall (λ k, 0 ≤ kh_idx k < Z.of_nat n) l;
  en_nodup : NoDup (key_bytes_of <$> l);
}.

(** The keys with the indices of their records, and the records. *)
Record cdb_ok (w : cdbw) (kmap : gmap (list Z) Z) (bs : list block) : Prop := {
  co_records : records w bs;
  co_size : w_data_size w = Z.of_nat (length (mjoin (b_bytes <$> bs)));
  co_limit : w_data_size w < 2 ^ 32;
  co_alloc : (data_counter w ≤ data_allocated w ≤ length (data_ptr w))%nat;
  co_len : length (data_len w) = data_allocated w;
  co_placed : placed (hash_size w) (hash w);
  co_entries : entries_ok (data_counter w) (mjoin (hash w));
  co_map : ∀ k i, kmap !! k = Some i ↔ ∃ e, e ∈ mjoin (hash w) ∧ key_bytes_of e = k ∧ kh_idx e = i;
  co_count : key_counter w = length (mjoin (hash w));
  co_max : Z.of_nat (data_counter w) ≤ max_data_counter ∧ Z.of_nat (key_counter w) ≤ max_data_counter;
}.

(** The blocks of a table. *)
Definition owned (w : cdbw) (bs : list block) : list positive :=
  w_id w :: option_ids (data_ptr_id w) ++ option_ids (data_len_id w) ++ option_ids (hash_id w)
  ++ (b_id <$> bs) ++ mjoin (key_ids <$> mjoin (hash w)).

(** A table that represents a map and a list, and whose memory is accounted for; [base] is the
    memory of others. *)
Definition represents (base : list positive) (w : cdbw) (kmap : gmap (list Z) Z) (bs : list block) (m : memory) : Prop :=
  cdb_ok w kmap bs ∧ holds m (owned w bs ++ base).

(** ** The chains *)

Lemma chain_of_lt size h : (∃ e, size = (2 ^ e)%nat) → hashes_ok h → (chain_of size h < size)%nat.
Proof.
  intros [e ->] Hh. unfold chain_of. destruct h as [[h0 h1] h2]. destruct Hh as (H0 & _ & _). cbn [fst].
  rewrite Nat2Z.inj_pow. change (Z.of_nat 2) with 2.
  assert (0 < 2 ^ Z.of_nat e) by (apply Z.pow_pos_nonneg; lia).
  assert (0 ≤ Z.land h0 (u64 (2 ^ Z.of_nat e - 1)) < 2 ^ Z.of_nat e) as Hb;
    [|apply Nat2Z.inj_lt; rewrite Z2Nat.id, Nat2Z.inj_pow by lia; change (Z.of_nat 2) with 2; lia].
  destruct (decide (Z.of_nat e < 64)) as [He|He].
  - assert (2 ^ Z.of_nat e ≤ 2 ^ 63) by (apply Z.pow_le_mono_r; lia).
    rewrite u64_small by lia. rewrite Z.sub_1_r, <- Z.ones_equiv, Z.land_ones by lia. by apply Z.mod_pos_bound.
  - assert (2 ^ 64 ≤ 2 ^ Z.of_nat e) by (apply Z.pow_le_mono_r; lia).
    pose proof (land_bound 32 h0 (u64 (2 ^ Z.of_nat e - 1)) ltac:(lia) H0). lia.
Qed.

Lemma join_insert (t : list (list key_hash)) i c k :
  t !! i = Some c → mjoin (<[i := k :: c]> t) ≡ₚ k :: mjoin t.
Proof.
  intros Hi. pose proof (lookup_lt_Some _ _ _ Hi). rewrite insert_take_drop by done.
  rewrite <- (take_drop_middle t i c Hi) at 3. rewrite !join_app. cbn [mjoin list_join].
  solve_Permutation.
Qed.

Lemma insert_entry_placed size t k :
  placed size t → hashes_ok (kh_hashes k) →
  ∃ t', insert_entry size t k = Some t' ∧ placed size t' ∧ mjoin t' ≡ₚ k :: mjoin t.
Proof.
  intros [Hp Hl Hpl] Hh. unfold insert_entry.
  destruct (lookup_lt_is_Some_2 t (chain_of size (kh_hashes k))) as [c Hc].
  { rewrite Hl. by apply chain_of_lt. }
  rewrite Hc. cbn [mbind option_bind]. eexists. split; [done|]. split; [|by apply join_insert].
  split; [done|by rewrite length_insert|].
  intros i c' k' Hi Hk'. destruct (decide (i = chain_of size (kh_hashes k))) as [->|].
  - rewrite list_lookup_insert_eq in Hi by (by eapply lookup_lt_Some). injection Hi as <-.
    apply elem_of_cons in Hk' as [->|Hk']; [done|by eapply Hpl].
  - rewrite list_lookup_insert_ne in Hi by done. by eapply Hpl.
Qed.

Lemma insert_all_placed size t l :
  placed size t → Forall (λ k, hashes_ok (kh_hashes k)) l →
  ∃ t', insert_all size t l = Some t' ∧ placed size t' ∧ mjoin t' ≡ₚ l ++ mjoin t.
Proof.
  intros Hp Hl. revert t Hp. induction Hl as [|k l Hk _ IH]; intros t Hp; [by exists t|].
  destruct (insert_entry_placed size t k Hp Hk) as (t1 & E1 & P1 & J1). cbn [insert_all]. rewrite E1.
  cbn [mbind option_bind]. destruct (IH t1 P1) as (t2 & -> & P2 & J2). exists t2. split; [done|]. split; [done|].
  rewrite J2, J1. cbn [app]. by rewrite Permutation_middle.
Qed.

Lemma join_replicate_nil n : mjoin (replicate n ([] : list key_hash)) = [].
Proof. induction n as [|n IH]; [done|]. cbn. exact IH. Qed.

Lemma empty_placed e : placed (2 ^ e) (replicate (2 ^ e) []).
Proof.
  split; [by exists e|apply length_replicate|]. intros i c k Hc Hk.
  apply lookup_replicate in Hc as [-> _]. by apply not_elem_of_nil in Hk.
Qed.

Lemma entries_perm n l l' : entries_ok n l → l' ≡ₚ l → entries_ok n l'.
Proof. intros [H1 H2 H3 H4] Hp. split; by rewrite Hp. Qed.

Lemma entries_hashes_ok n l : entries_ok n l → Forall (λ k, hashes_ok (kh_hashes k)) l.
Proof.
  intros H. eapply Forall_impl; [apply (en_hashes _ _ H)|]. intros k ->. apply vector_hash_ok.
Qed.

(** A key is found in its chain exactly when it is in the table. *)
Lemma same_key_iff n size t c key :
  placed size t → entries_ok n (mjoin t) → t !! chain_of size (vector_hash key 0) = Some c →
  existsb (same_key (vector_hash key 0) key) c = true ↔ ∃ e, e ∈ mjoin t ∧ key_bytes_of e = key.
Proof.
  intros Hp He Hc. rewrite existsb_exists. split.
  - intros (e & Hin & Hs). unfold same_key in Hs. rewrite !andb_true_iff, !bool_decide_eq_true in Hs.
    exists e. split; [|apply Hs]. apply list_elem_of_join. exists c. split; [by apply list_elem_of_In|by eapply list_elem_of_lookup_2].
  - intros (e & Hin & <-). pose proof Hin as Hin'. apply list_elem_of_join in Hin as (c' & Hec & Hc').
    apply list_elem_of_lookup in Hc' as [i Hi]. pose proof (pl_place _ _ Hp i c' e Hi Hec) as Hpl.
    pose proof (proj1 (Forall_forall _ _) (en_hashes _ _ He) e Hin') as Hh. cbn in Hh. rewrite Hh in Hpl. subst i.
    assert (c' = c) as -> by congruence. exists e. split; [by apply list_elem_of_In|].
    unfold same_key. rewrite !andb_true_iff, !bool_decide_eq_true. split_and!; [|done|done].
    by apply (proj1 (Forall_forall _ _) (en_keys _ _ He) e Hin').
Qed.

(** ** Opening and closing *)

Lemma wp_cdbw_open base m :
  holds m base →
  wp (cdbw_open answer) (λ r m',
    match r with None => refused ∧ holds m' base | Some w => represents base w ∅ [] m' end) m.
Proof.
  intros H. unfold cdbw_open. rewrite wp_bind. eapply wp_mono; [by apply wp_calloc|].
  intros [p|] m1 H1; [|by rewrite wp_ret].
  rewrite wp_bind. eapply wp_mono; [by apply wp_calloc|]. intros [h|] m2 H2.
  - rewrite wp_ret. split; [|by eapply holds_perm; [done|]; unfold owned; cbn -[replicate]; rewrite join_replicate_nil; cbn; solve_Permutation].
    change 1024%nat with (2 ^ 10)%nat.
    split; cbn -[replicate Nat.pow]; rewrite ?join_replicate_nil; try done; try lia.
    + apply empty_placed.
    + split; constructor.
    + intros k i. rewrite lookup_empty. split; [done|]. intros (e & He & _). by apply not_elem_of_nil in He.
  - rewrite wp_bind. eapply wp_mono; [apply wp_free_Some; apply H2|]. intros ? m3 H3. rewrite wp_ret. split; [apply H2|done].
Qed.

Lemma wp_free_keys l rest m :
  holds m (mjoin (key_ids <$> l) ++ rest) → wp (free_keys l) (λ _ m', holds m' rest) m.
Proof.
  revert m. induction l as [|k l IH]; intros m H; [done|]. cbn [free_keys].
  rewrite wp_bind. eapply wp_mono; [apply wp_free_Some, H|]. intros ? m1 H1.
  rewrite wp_bind. eapply wp_mono; [apply wp_free_Some, H1|]. intros ? m2 H2. by apply IH.
Qed.

Lemma record_slot w bs i b : records w bs → bs !! i = Some b → data_ptr w !! i = Some (Data b).
Proof.
  intros (Hn & Hp & _) Hi. unfold first_elems in Hp. destruct (_ <=? _)%nat; [|done]. injection Hp as Hp.
  pose proof (lookup_lt_Some _ _ _ Hi). rewrite <- (lookup_take_lt (data_ptr w) (data_counter w) i) by lia.
  by rewrite Hp, list_lookup_fmap, Hi.
Qed.

Lemma wp_free_slots w (bs' : list block) i rest m :
  (∀ j b, bs' !! j = Some b → data_ptr w !! (i + j)%nat = Some (Data b)) →
  holds m ((b_id <$> bs') ++ rest) → wp (free_slots w (seq i (length bs'))) (λ _ m', holds m' rest) m.
Proof.
  revert i m. induction bs' as [|b bs' IH]; intros i m Hs H; [done|].
  cbn [length seq free_slots]. rewrite wp_bind. unfold free_slot at 1.
  pose proof (Hs 0%nat b eq_refl) as H0. rewrite Nat.add_0_r in H0. rewrite H0.
  rewrite wp_bind, wp_unwrap_Some. eapply wp_mono; [apply wp_free_Some, H|]. intros ? m1 H1.
  apply IH; [|done]. intros j b' Hj. replace (S i + j)%nat with (i + S j)%nat by lia. by apply Hs.
Qed.

(** Closing gives back all the memory of a table, and only that. *)
Lemma wp_cdbw_close base w km bs m :
  represents base w km bs m → wp (cdbw_close w) (λ _ m', holds m' base) m.
Proof.
  intros [Hok H]. unfold cdbw_close. rewrite wp_bind. eapply wp_mono.
  { eapply wp_free_keys. eapply holds_perm; [exact H|]. unfold owned.
    instantiate (1 := (b_id <$> bs) ++ option_ids (data_ptr_id w) ++ option_ids (data_len_id w)
      ++ option_ids (hash_id w) ++ w_id w :: base). solve_Permutation. }
  intros ? m1 H1. rewrite wp_bind. rewrite (proj1 (co_records _ _ _ Hok)). eapply wp_mono.
  { eapply wp_free_slots; [|exact H1]. intros j b Hj. by eapply record_slot; [apply Hok|]. }
  intros ? m2 H2. rewrite wp_bind. eapply wp_mono; [apply wp_free_option, H2|]. intros ? m3 H3.
  rewrite wp_bind. eapply wp_mono; [apply wp_free_option, H3|]. intros ? m4 H4.
  rewrite wp_bind. eapply wp_mono; [apply wp_free_option, H4|]. intros ? m5 H5. by apply wp_free_Some.
Qed.

(** ** Records *)

Lemma first_elems_resize {A} n m (x : A) l :
  (n ≤ length l)%nat → (n ≤ m)%nat → first_elems n (resize m x l) = first_elems n l.
Proof.
  intros Hl Hm. unfold first_elems. rewrite length_resize.
  destruct (Nat.leb_spec n m), (Nat.leb_spec n (length l)); try lia.
  by rewrite take_resize_le, resize_le by done.
Qed.

Lemma first_elems_insert {A} n (x : A) l :
  first_elems n (<[n := x]> l) = first_elems n l.
Proof. unfold first_elems. rewrite length_insert. by rewrite take_insert_ge by lia. Qed.

Lemma first_elems_snoc {A B} (f : A → B) n (l : list B) (bs : list A) b :
  n = length bs → (n < length l)%nat → first_elems n l = Some (f <$> bs) →
  first_elems (S n) (<[n := f b]> l) = Some (f <$> (bs ++ [b])).
Proof.
  intros Hn Hl. unfold first_elems. rewrite length_insert.
  destruct (Nat.leb_spec n (length l)), (Nat.leb_spec (S n) (length l)); try lia. intros [= Ht]. f_equal.
  rewrite (take_S_r _ n (f b)) by (by rewrite list_lookup_insert_eq). rewrite take_insert_ge by lia.
  by rewrite Ht, fmap_app.
Qed.

(** Other arrays that agree on the records represent the same. *)
Lemma represents_arrays base w km bs m' al dl dli dp dpi :
  cdb_ok w km bs →
  holds m' (owned (set_arrays w al dl dli dp dpi) bs ++ base) →
  first_elems (data_counter w) dp = first_elems (data_counter w) (data_ptr w) →
  first_elems (data_counter w) dl = first_elems (data_counter w) (data_len w) →
  (data_counter w ≤ al ≤ length dp)%nat → length dl = al →
  represents base (set_arrays w al dl dli dp dpi) km bs m'.
Proof.
  intros [[R1 [R2 R3]] C2 C3 C4 C5 C6 C7 C8 C9 C10] Hm Hp Hl Ha Hd. split; [|done].
  split; try done. split; [done|]. cbn. by rewrite Hp, Hl.
Qed.

Lemma wp_grow_arrays base w km bs m :
  represents base w km bs m →
  wp (grow_arrays answer w) (λ r m', represents base (snd r) km bs m' ∧
    data_counter (snd r) = data_counter w ∧ w_data_size (snd r) = w_data_size w ∧
    key_counter (snd r) = key_counter w ∧
    if fst r then (data_counter w < data_allocated (snd r))%nat else refused) m.
Proof.
  intros Hr. pose proof Hr as [Hok H]. pose proof (co_alloc _ _ _ Hok) as Hal. pose proof (co_len _ _ _ Hok) as Hlen.
  unfold grow_arrays. destruct (Nat.eqb_spec (data_allocated w) (data_counter w)) as [He|He];
    [|rewrite wp_ret; cbn; split_and!; [done..|lia]].
  set (na := if (data_allocated w =? 0)%nat then 256%nat else (data_allocated w * 2)%nat).
  assert (data_counter w < na)%nat as Hna by (unfold na; destruct (Nat.eqb_spec (data_allocated w) 0); lia).
  assert (∃ rest, owned w bs ++ base ≡ₚ option_ids (data_ptr_id w) ++ option_ids (data_len_id w) ++ rest ∧
    ∀ al dl dli dp dpi, owned (set_arrays w al dl dli dp dpi) bs ++ base ≡ₚ option_ids dpi ++ option_ids dli ++ rest)
    as (rest & Hrest & Hrest').
  { exists (w_id w :: option_ids (hash_id w) ++ (b_id <$> bs) ++ mjoin (key_ids <$> mjoin (hash w)) ++ base).
    split; intros; unfold owned; cbn [w_id data_ptr_id data_len_id hash_id hash set_arrays]; solve_Permutation. }
  rewrite wp_bind. eapply wp_mono; [apply wp_realloc; eapply holds_perm; [exact H|exact Hrest]|].
  intros [p|] m1 H1; cycle 1.
  { destruct H1 as [Hre H1]. rewrite wp_ret. cbn. split_and!; try done. split; [done|]. eapply holds_perm; [exact H1|]. by symmetry. }
  set (w1 := set_arrays w (data_allocated w) (data_len w) (data_len_id w) (resize na Uninit (data_ptr w)) (Some p)).
  assert (represents base w1 km bs m1) as R1.
  { eapply represents_arrays; [done| |apply first_elems_resize; lia|done|rewrite length_resize; lia|done].
    eapply holds_perm; [exact H1|]. by rewrite Hrest'. }
  rewrite wp_bind. eapply wp_mono.
  { eapply (wp_realloc (data_len_id w)). eapply holds_perm; [exact H1|].
    instantiate (1 := p :: rest). solve_Permutation. }
  intros [q|] m2 H2; cycle 1.
  { destruct H2 as [Hre H2]. rewrite wp_ret. cbn. split_and!; try done. split; [apply R1|].
    eapply holds_perm; [exact H2|]. unfold w1. rewrite Hrest'. cbn [option_ids]. solve_Permutation. }
  rewrite wp_ret. cbn [fst snd]. split_and!; [|done..].
  change (set_arrays w1 na (resize na None (data_len w)) (Some q) (data_ptr w1) (data_ptr_id w1)) with
    (set_arrays w1 na (resize na None (data_len w1)) (Some q) (data_ptr w1) (data_ptr_id w1)).
  eapply represents_arrays; [apply R1| |done|apply first_elems_resize; cbn; lia|cbn; rewrite length_resize; lia|apply length_resize].
  eapply holds_perm; [exact H2|]. unfold w1. cbn [set_arrays data_ptr data_ptr_id].
  change (set_arrays (set_arrays w _ _ _ _ _) ?a ?b ?c ?d ?e) with (set_arrays w a b c d e).
  rewrite Hrest'. cbn [option_ids]. solve_Permutation.
Qed.

(** The sizes of the records with one more. *)
Lemma join_snoc_length bs b :
  Z.of_nat (length (mjoin (b_bytes <$> (bs ++ [b])))) = Z.of_nat (length (mjoin (b_bytes <$> bs))) + Z.of_nat (length (b_bytes b)).
Proof. rewrite fmap_app, join_app, length_app. cbn. rewrite app_nil_r. lia. Qed.

Lemma owned_counters w n sz ks bs : owned (set_counters w n sz ks) bs = owned w bs.
Proof. done. Qed.

(** Why a record or a key is refused. *)
Definition record_limit (w : cdbw) (data : list Z) : Prop :=
  Z.of_nat (data_counter w) = max_data_counter ∨ 2 ^ 32 ≤ w_data_size w + Z.of_nat (length data).

Definition add_record (w : cdbw) (b : block) : cdbw :=
  set_counters (set_arrays w (data_allocated w) (<[data_counter w := Some (length (b_bytes b))]> (data_len w))
    (data_len_id w) (<[data_counter w := Data b]> (data_ptr w)) (data_ptr_id w))
    (S (data_counter w)) (w_data_size w + Z.of_nat (length (b_bytes b))) (key_counter w).

Lemma add_record_represents base w km bs b m' :
  cdb_ok w km bs → (data_counter w < data_allocated w)%nat → ¬ record_limit w (b_bytes b) →
  holds m' (b_id b :: owned w bs ++ base) → represents base (add_record w b) km (bs ++ [b]) m'.
Proof.
  intros [[R1 [R2 R3]] C2 C3 C4 C5 C6 C7 C8 C9 [C10 C11]] Hlt Hlim Hm. unfold record_limit in Hlim. split.
  - split; unfold add_record;
      cbn [set_counters set_arrays data_counter data_allocated w_data_size data_len data_ptr hash_size hash key_counter];
      try done; try (rewrite ?length_insert; lia).
    + split; [by rewrite length_app, R1; cbn; lia|]. split.
      * apply first_elems_snoc; [done|lia|done].
      * apply (first_elems_snoc (λ b, Some (length (b_bytes b)))); [done|lia|done].
    + rewrite C2. by rewrite join_snoc_length.
    + destruct C7 as [E1 E2 E3 E4]. split; try done. eapply Forall_impl; [exact E3|]. cbn. lia.
  - eapply holds_perm; [exact Hm|]. unfold owned. rewrite fmap_app. cbn. solve_Permutation.
Qed.

Lemma wp_cdbw_put_data base w km bs data m :
  represents base w km bs m → Z.of_nat (length data) < 2 ^ 63 →
  wp (cdbw_put_data answer w data) (λ r m',
    match fst r with
    | Some i => i = Z.of_nat (length bs) ∧ ∃ b w1, b_bytes b = data ∧ snd r = add_record w1 b ∧
        data_counter w1 = data_counter w ∧ w_data_size w1 = w_data_size w ∧ key_counter w1 = key_counter w ∧
        ¬ record_limit w data ∧ (data_counter w1 < data_allocated w1)%nat ∧
        cdb_ok w1 km bs ∧
        holds m' (b_id b :: owned w1 bs ++ base)
    | None => represents base (snd r) km bs m' ∧ (refused ∨ record_limit w data)
    end) m.
Proof.
  intros Hr Hd. pose proof Hr as [Hok _].
  pose proof (co_size _ _ _ Hok) as Hs. pose proof (co_limit _ _ _ Hok) as Hlim. pose proof (co_max _ _ _ Hok) as [Hmax _].
  pose proof (proj1 (co_records _ _ _ Hok)) as Hn. unfold max_data_counter in Hmax.
  unfold cdbw_put_data. destruct (Z.eqb_spec (Z.of_nat (data_counter w)) max_data_counter) as [Hc|Hc].
  { rewrite wp_ret. cbn. split; [done|]. right. by left. }
  rewrite (u64_small (w_data_size w + Z.of_nat (length data))) by lia.
  destruct (Z.ltb_spec (w_data_size w + Z.of_nat (length data)) (w_data_size w)); [lia|]. cbn [orb].
  destruct (Z.ltb_spec 0xffffffff (w_data_size w + Z.of_nat (length data))).
  { rewrite wp_ret. cbn. split; [done|]. right. right. lia. }
  assert (¬ record_limit w data) as Hno by (unfold record_limit; lia).
  rewrite wp_bind. eapply wp_mono; [by eapply wp_grow_arrays|]. intros [ok w1] m1 (R1 & Ec & Es & Ek & Hg). cbn [fst snd] in *.
  destruct ok; cbn [negb]; [|rewrite wp_ret; cbn; split; [done|by left]].
  pose proof R1 as [Hok1 H1]. pose proof (co_alloc _ _ _ Hok1) as Ha1. pose proof (co_len _ _ _ Hok1) as Hl1.
  rewrite wp_bind. eapply wp_mono; [by apply wp_malloc|]. intros [b|] m2.
  - intros (Hb & _ & H2). rewrite !wp_bind. unfold set_data_ptr. rewrite wp_bind.
    destruct (Nat.ltb_spec (data_counter w1) (length (data_ptr w1))); [|lia]. rewrite wp_massert_true, wp_ret.
    unfold set_data_len. cbn [set_arrays data_counter data_len]. rewrite !wp_bind.
    destruct (Nat.ltb_spec (data_counter w1) (length (data_len w1))); [|lia]. rewrite wp_massert_true, !wp_ret.
    cbn [fst snd]. split; [change (u32 (Z.of_nat (data_counter w1)) = Z.of_nat (length bs)); rewrite Ec, Hn; apply Z.mod_small; lia|].
    exists b, w1. split; [done|]. split.
    { unfold add_record. cbn [set_arrays data_counter w_data_size key_counter data_allocated data_len_id data_ptr data_ptr_id data_len].
      rewrite Hb, Es, (u64_small (w_data_size w + Z.of_nat (length data))) by lia. done. }
    split_and!; try done; lia.
  - intros (Hre & H2). rewrite wp_bind. unfold set_data_ptr. rewrite wp_bind.
    destruct (Nat.ltb_spec (data_counter w1) (length (data_ptr w1))); [|lia]. rewrite wp_massert_true, !wp_ret.
    cbn [fst snd]. split; [|by left].
    eapply represents_arrays; [apply R1|exact H2|apply first_elems_insert|done|by rewrite length_insert|done].
Qed.

(** ** Keys *)

Definition add_key (w : cdbw) (t : list (list key_hash)) : cdbw :=
  set_counters (set_hash w (hash_size w) t (hash_id w)) (data_counter w) (w_data_size w) (S (key_counter w)).

(** The table of the chains may be any that holds the same keys. *)
Lemma represents_hash base w km bs m m' size t id ks :
  represents base w km bs m → placed size t → mjoin t ≡ₚ mjoin (hash w) →
  ks = key_counter w → holds m' (owned (set_hash w size t id) bs ++ base) →
  represents base (set_counters (set_hash w size t id) (data_counter w) (w_data_size w) ks) km bs m'.
Proof.
  intros [[C1 C2 C3 C4 C5 C6 C7 C8 C9 C10] H] Hp Ht -> Hm. split; [|done]. split; try done.
  - by eapply entries_perm.
  - intros k i. rewrite C8. cbn. by setoid_rewrite Ht.
  - cbn. by rewrite Ht.
Qed.

Lemma add_key_represents base w km bs m m' t k :
  represents base w km bs m → placed (hash_size w) t → mjoin t ≡ₚ k :: mjoin (hash w) →
  key_ok k → kh_hashes k = vector_hash (key_bytes_of k) 0 → 0 ≤ kh_idx k < Z.of_nat (data_counter w) →
  km !! key_bytes_of k = None → Z.of_nat (key_counter w) ≠ max_data_counter →
  holds m' (b_id (kh_key k) :: kh_id k :: owned w bs ++ base) →
  represents base (add_key w t) (<[key_bytes_of k := kh_idx k]> km) bs m'.
Proof.
  intros [[C1 C2 C3 C4 C5 C6 C7 C8 C9 [C10 C11]] H] Hp Ht Hk Hh Hi Hnew Hmax Hm. split.
  - split; try done; cbn [add_key set_counters set_hash hash key_counter data_counter].
    + eapply entries_perm; [|exact Ht]. destruct C7 as [E1 E2 E3 E4]. split; try (by constructor).
      cbn. apply NoDup_cons. split; [|done]. intros (e & He & Hin)%list_elem_of_fmap.
      assert (km !! key_bytes_of k = Some (kh_idx e)) by (apply C8; by exists e). congruence.
    + intros kb i. setoid_rewrite Ht. rewrite lookup_insert_Some, C8. setoid_rewrite elem_of_cons. split.
      * intros [[<- <-]|[Hne (e & He & <- & <-)]]; [exists k; auto|exists e; auto].
      * intros (e & [->|He] & <- & <-); [by left|]. right. split; [|by exists e].
        intros E. assert (km !! key_bytes_of k = Some (kh_idx e)) by (apply C8; by exists e). congruence.
    + rewrite Ht. cbn. by rewrite C9.
    + unfold max_data_counter in *. lia.
  - eapply holds_perm; [exact Hm|]. unfold owned. cbn [add_key set_counters set_hash w_id data_ptr_id data_len_id hash_id hash].
    rewrite Ht. cbn. solve_Permutation.
Qed.

(** The table keeps what it holds when it is resized, or not. *)
Lemma wp_resize_hash base w km bs m :
  represents base w km bs m →
  wp (resize_hash answer w) (λ w' m', represents base w' km bs m') m.
Proof.
  intros Hr. pose proof Hr as [Hok H]. unfold resize_hash.
  destruct (Nat.leb_spec (key_counter w) (hash_size w)); [by rewrite wp_ret|].
  rewrite wp_bind. eapply wp_mono; [by apply wp_calloc|]. intros [p|] m1 H1; [|rewrite wp_ret; split; [done|apply H1]].
  destruct (pl_power _ _ (co_placed _ _ _ Hok)) as [e He].
  assert (hash_size w * 2 = 2 ^ S e)%nat as Hsz by (rewrite He; cbn; lia).
  destruct (insert_all_placed (hash_size w * 2) (replicate (hash_size w * 2) []) (mjoin (hash w)))
    as (t & Ht & Hp & Hj); [rewrite Hsz; apply empty_placed|eapply entries_hashes_ok, Hok|].
  rewrite Ht. rewrite wp_bind, wp_unwrap_Some. rewrite join_replicate_nil, app_nil_r in Hj.
  assert (∃ rest, owned w bs ++ base ≡ₚ option_ids (hash_id w) ++ rest ∧
    owned (set_hash w (hash_size w * 2) t (Some p)) bs ++ base ≡ₚ p :: rest) as (rest & Hrest & Hrest').
  { exists (w_id w :: option_ids (data_ptr_id w) ++ option_ids (data_len_id w) ++ (b_id <$> bs)
      ++ mjoin (key_ids <$> mjoin (hash w)) ++ base).
    split; unfold owned; cbn [w_id data_ptr_id data_len_id hash_id hash set_hash option_ids]; rewrite ?Hj; solve_Permutation. }
  rewrite wp_bind. eapply wp_mono.
  { apply (wp_free_option (hash_id w) m1 (p :: rest)). eapply holds_perm; [exact H1|]. rewrite Hrest. solve_Permutation. }
  intros ? m2 H2. rewrite wp_ret.
  change (set_hash w (hash_size w * 2) t (Some p)) with
    (set_counters (set_hash w (hash_size w * 2) t (Some p)) (data_counter w) (w_data_size w) (key_counter w)).
  eapply represents_hash; [exact Hr|exact Hp|exact Hj|done|]. eapply holds_perm; [exact H2|]. by symmetry.
Qed.

(** Why a key is refused. *)
Definition key_limit (w : cdbw) (km : gmap (list Z) Z) (key : list Z) (idx : Z) : Prop :=
  Z.of_nat (data_counter w) ≤ idx ∨ is_Some (km !! key) ∨ Z.of_nat (key_counter w) = max_data_counter.

Lemma wp_cdbw_put_key base w km bs addr key rest idx m :
  represents base w km bs m → Forall is_byte key → (addr mod 4 = 0 → (3 ≤ length rest)%nat) → 0 ≤ idx →
  wp (cdbw_put_key answer w (mk_ptr addr (key ++ rest)) (length key) idx) (λ r m',
    if fst r then ¬ key_limit w km key idx ∧ represents base (snd r) (<[key := idx]> km) bs m'
    else snd r = w ∧ represents base w km bs m' ∧ (refused ∨ key_limit w km key idx)) m.
Proof.
  intros Hr Hb Ha Hi. pose proof Hr as [Hok H]. unfold cdbw_put_key.
  destruct (Z.leb_spec (Z.of_nat (data_counter w)) idx) as [Hx|Hx]; cbn [orb].
  { rewrite wp_ret. cbn. split; [done|]. split; [done|]. right. by left. }
  destruct (Z.eqb_spec (Z.of_nat (key_counter w)) max_data_counter) as [Hm|Hm].
  { rewrite wp_ret. cbn. split; [done|]. split; [done|]. right. by do 2 right. }
  rewrite mi_vector_hash_run by done. rewrite wp_bind, wp_unwrap_Some.
  unfold read_bytes. cbn [p_mem]. rewrite decide_True by (rewrite length_app; lia).
  rewrite take_app_length. rewrite wp_bind, wp_unwrap_Some.
  destruct (lookup_lt_is_Some_2 (hash w) (chain_of (hash_size w) (vector_hash key 0))) as [c Hc].
  { rewrite (pl_length _ _ (co_placed _ _ _ Hok)). apply chain_of_lt; [apply (co_placed _ _ _ Hok)|apply vector_hash_ok]. }
  rewrite Hc, wp_bind, wp_unwrap_Some.
  pose proof (same_key_iff _ _ _ c key (co_placed _ _ _ Hok) (co_entries _ _ _ Hok) Hc) as Hsame.
  destruct (existsb (same_key (vector_hash key 0) key) c).
  { rewrite wp_ret. cbn. split; [done|]. split; [done|]. right. right. left.
    destruct (proj1 Hsame eq_refl) as (e & He & Hk). exists (kh_idx e). apply (co_map _ _ _ Hok). by exists e. }
  assert (km !! key = None) as Hnew.
  { apply eq_None_not_Some. intros [i (e & He & Hk & _)%(co_map _ _ _ Hok)].
    assert (false = true) by (apply Hsame; by exists e). done. }
  rewrite wp_bind. eapply wp_mono; [by apply wp_calloc|]. intros [p|] m1 H1;
    [|rewrite wp_ret; cbn; split_and!; [done|split; [done|apply H1]|by left; apply H1]].
  rewrite wp_bind. eapply wp_mono; [by apply wp_malloc|]. intros [b|] m2 H2; cycle 1.
  { rewrite wp_bind. eapply wp_mono; [apply wp_free_Some, H2|]. intros ? m3 H3. rewrite wp_ret. cbn.
    split_and!; [done|by split|left; apply H2]. }
  destruct H2 as (Hbb & Hba & H2). set (k := mk_key_hash p (vector_hash key 0) idx b (length key)).
  destruct (insert_entry_placed (hash_size w) (hash w) k) as (t & -> & Hp & Hj); [apply Hok|apply vector_hash_ok|].
  rewrite wp_bind, wp_unwrap_Some, wp_bind.
  change (set_counters _ _ _ _) with (add_key w t).
  assert (key_bytes_of k = key) as Hkb by done.
  eapply wp_mono; [eapply (wp_resize_hash base _ (<[key := idx]> km) bs)|].
  - rewrite <- Hkb. eapply (add_key_represents base w km bs m m2 t k); try done; rewrite ?Hkb; try done.
    + split; cbn; rewrite Hbb; [done|]. split; [done|]. by rewrite ?Hbb in *.
  - intros w' m3 R3. rewrite wp_ret. cbn. split; [|done]. unfold key_limit. intros [?|[Hs|?]]; [lia| |done].
    rewrite Hnew in Hs. by destruct Hs.
Qed.

(** ** Records with keys *)

(** [cdbw_put] adds a record and a key to it, or changes nothing. *)
Lemma wp_cdbw_put base w km bs addr key rest data m :
  represents base w km bs m → Forall is_byte key → (addr mod 4 = 0 → (3 ≤ length rest)%nat) →
  Z.of_nat (length data) < 2 ^ 63 →
  wp (cdbw_put answer w (mk_ptr addr (key ++ rest)) (length key) data) (λ r m',
    if fst r then km !! key = None ∧ ∃ b, b_bytes b = data ∧
      represents base (snd r) (<[key := Z.of_nat (length bs)]> km) (bs ++ [b]) m'
    else represents base (snd r) km bs m' ∧
      (refused ∨ record_limit w data ∨ is_Some (km !! key) ∨ Z.of_nat (key_counter w) = max_data_counter)) m.
Proof.
  intros Hr Hb Ha Hd. unfold cdbw_put. rewrite wp_bind. eapply wp_mono; [by eapply wp_cdbw_put_data|].
  intros [[i|] w1] m1; cbn [fst snd]; [|intros [R1 HR]; rewrite wp_ret; cbn; tauto].
  intros (-> & b & w0 & <- & -> & Ec & Es & Ek & Hno & Hlt & Hok0 & H1).
  pose proof (proj1 (co_records _ _ _ Hok0)) as Hn. pose proof (co_limit _ _ _ Hok0) as Hlim.
  assert (¬ record_limit w0 (b_bytes b)) as Hno0 by (unfold record_limit in *; by rewrite Ec, Es).
  pose proof (add_record_represents base w0 km bs b m1 Hok0 Hlt Hno0 H1) as R1.
  rewrite wp_bind. eapply wp_mono; [apply (wp_cdbw_put_key base _ km (bs ++ [b])); [done..|lia]|].
  intros [[] w2] m2; cbn [fst snd].
  - intros [Hkl R2]. rewrite wp_ret. cbn. split; [|by exists b]. apply eq_None_not_Some. intros Hs. apply Hkl. by right; left.
  - intros (-> & [Hok2 H2] & Hwhy). set (w2 := add_record w0 b) in *. rewrite wp_bind. unfold free_slot.
    assert (data_ptr (set_counters w2 (data_counter w2 - 1) (w_data_size w2) (key_counter w2)) !!
      data_counter (set_counters w2 (data_counter w2 - 1) (w_data_size w2) (key_counter w2)) = Some (Data b)) as ->.
    { cbn. rewrite Nat.sub_0_r. apply list_lookup_insert_eq. pose proof (co_alloc _ _ _ Hok0). lia. }
    rewrite wp_bind, wp_unwrap_Some. eapply wp_mono.
    { apply (wp_free_Some _ m2 (owned w0 bs ++ base)). eapply holds_perm; [exact H2|].
      unfold w2, owned. rewrite fmap_app. cbn. solve_Permutation. }
    intros ? m3 H3. rewrite wp_ret. cbn [fst snd]. split.
    + pose proof (represents_arrays base w0 km bs m3 (data_allocated w0)
        (<[data_counter w0 := Some (length (b_bytes b))]> (data_len w0)) (data_len_id w0)
        (<[data_counter w0 := Data b]> (data_ptr w0)) (data_ptr_id w0) Hok0 H3) as R3.
      rewrite !first_elems_insert, !length_insert in R3.
      specialize (R3 eq_refl eq_refl (co_alloc _ _ _ Hok0) (co_len _ _ _ Hok0)).
      enough (set_counters (set_counters w2 (data_counter w2 - 1) (w_data_size w2) (key_counter w2))
        (data_counter (set_counters w2 (data_counter w2 - 1) (w_data_size w2) (key_counter w2)))
        (u64 (w_data_size (set_counters w2 (data_counter w2 - 1) (w_data_size w2) (key_counter w2)) - Z.of_nat (length (b_bytes b))))
        (key_counter (set_counters w2 (data_counter w2 - 1) (w_data_size w2) (key_counter w2))) =
        set_arrays w0 (data_allocated w0) (<[data_counter w0 := Some (length (b_bytes b))]> (data_len w0)) (data_len_id w0)
          (<[data_counter w0 := Data b]> (data_ptr w0)) (data_ptr_id w0)) as -> by exact R3.
      unfold w2, add_record, set_counters, set_arrays. cbn. rewrite Nat.sub_0_r. f_equal.
      rewrite Z.add_simpl_r. apply u64_small. pose proof (co_size _ _ _ Hok0). lia.
    + destruct Hwhy as [?|[Hx|[?|?]]]; [by left|exfalso|do 2 right; by left|do 3 right].
      * unfold w2 in Hx. cbn in Hx. lia.
      * by rewrite <- Ek.
Qed.

End Table.
