(* ===== verification/CdbSpec.v ===== *)
(** * Constant databases: what is written is read back

    The seeds are tried until the graph of the keys can be peeled; the file that results
    opens, and gives for every key the record it was put with. *)

From stdpp Require Import fin_sets.
From S2P Require Import Prelude Bitops VectorHash Cdbr Cdbw CdbGraph CdbPeel CdbBuild CdbAssign CdbPrint CdbOutput CdbTable.

(** ** Trying seeds *)

(** The seed of an attempt. *)
Definition seed_at (sg : seedgen) (k : nat) : Z :=
  match sg with Stable => u32 (Z.of_nat k + 1) | Gen f => u32 (f k) end.

(** The seed that was used last is the one before. *)
Definition seed_before (sg : seedgen) (k : nat) (sd : Z) : Prop := sg = Stable → sd = u32 (Z.of_nat k).

Lemma next_seed_at sg k sd : seed_before sg k sd → next_seed sg k sd = seed_at sg k.
Proof. intros Hs. destruct sg; [|done]. cbn. rewrite (Hs eq_refl). apply u32_add_l. Qed.

Lemma seed_after sg k : seed_before sg (S k) (seed_at sg k).
Proof. intros ->. cbn. f_equal. lia. Qed.

(** The sizes of the arrays, and what the attempts leave in them. *)
Record ready (w : cdbw) (V : nat) (st : state) : Prop := {
  re_entries : entries st = V;
  re_keys : keys st = length (mjoin (hash w));
  re_edges : (length (mjoin (hash w)) ≤ length (edges st))%nat;
  re_verts : length (verts st) = V;
  re_order : length (output_order st) = length (mjoin (hash w));
  re_data : data_entries st = Z.of_nat (data_counter w);
  re_g : g st = replicate V 0;
  re_visited : visited st = replicate V false;
}.

Lemma ready_shape w V st st' : shape st st' → ready w V st → ready w V st'.
Proof. unfold shape. intros S []. split; naive_solver congruence. Qed.

Lemma try_seeds_correct w V sg n :
  (0 < V)%nat → Forall key_ok (mjoin (hash w)) →
  ∀ k st, seed_before sg k (seed st) → ready w V st →
  peelable (seed_at sg (k + n)) (mjoin (hash w)) V →
  ∃ j st', try_seeds (S n) w sg k st = Some st' ∧ seed st' = seed_at sg j ∧ ready w V st' ∧
    filled (seed_at sg j) (mjoin (hash w)) V st' (length (mjoin (hash w))) ∧
    distinct (length (mjoin (hash w))) (key_nodes V (seed_at sg j) (mjoin (hash w))) ∧
    peeling (length (mjoin (hash w))) (key_nodes V (seed_at sg j) (mjoin (hash w))) (output_order st').
Proof.
  intros HV Hk. induction n as [|n IH]; intros k st Hsb R Hp; cbn [try_seeds]; rewrite next_seed_at by done;
    pose proof R as [R1 R2 R3 R4 R5 R6 R7 R8];
    (destruct (build_graph_fills (seed_at sg k) (mjoin (hash w)) V Hk w (set_seed st (seed_at sg k)))
      as (ok & st1 & -> & S1 & Hok & Hf); [done|done|by split_and!|]);
    cbn [mbind option_bind];
    (assert (ready w V st1) as R' by (eapply ready_shape; [exact S1|]; by destruct R; split));
    (assert (seed st1 = seed_at sg k) as Es by (destruct S1 as (_ & _ & _ & -> & _); done));
    (assert (ok = true → ∃ j st', Some st1 = Some st' ∧ seed st' = seed_at sg j ∧ ready w V st' ∧
      filled (seed_at sg j) (mjoin (hash w)) V st' (length (mjoin (hash w))) ∧
      distinct (length (mjoin (hash w))) (key_nodes V (seed_at sg j) (mjoin (hash w))) ∧
      peeling (length (mjoin (hash w))) (key_nodes V (seed_at sg j) (mjoin (hash w))) (output_order st')) as Hyes
      by (intros Ht; exists k, st1; destruct (Hf Ht); split_and!; try done; apply Hok in Ht; apply Ht)).
  - rewrite Nat.add_0_r in Hp. assert (ok = true) as -> by (by apply Hok). by apply Hyes.
  - destruct ok; [by apply Hyes|]. apply IH; [rewrite Es; apply seed_after|done|].
    by replace (S k + n)%nat with (k + S n)%nat by lia.
Qed.

(** ** What is written *)

(** The numbers of the nodes are right for a list of keys. *)
Definition numbered (V : nat) (sd : Z) (n : Z) (gs : list Z) (ks : list key_hash) : Prop :=
  length gs = V ∧ Forall (λ z, 0 ≤ z < n) gs ∧
  ∀ k, k ∈ ks → ∃ a b c,
    gs !! node_of V (vector_hash (key_bytes_of k) sd) SideL = Some a ∧
    gs !! node_of V (vector_hash (key_bytes_of k) sd) SideM = Some b ∧
    gs !! node_of V (vector_hash (key_bytes_of k) sd) SideR = Some c ∧ (a + b + c) mod n = kh_idx k.

Lemma assign_numbered w V sd st km bs :
  cdb_ok w km bs → (0 < V)%nat → ready w V st → 3 * Z.of_nat (data_counter w) ≤ 2 ^ 32 →
  (0 < data_counter w)%nat →
  filled sd (mjoin (hash w)) V st (length (mjoin (hash w))) →
  distinct (length (mjoin (hash w))) (key_nodes V sd (mjoin (hash w))) →
  peeling (length (mjoin (hash w))) (key_nodes V sd (mjoin (hash w))) (output_order st) →
  ∃ st', assign_nodes st = Some st' ∧ entries st' = V ∧ seed st' = seed st ∧
    numbered V sd (Z.of_nat (data_counter w)) (g st') (mjoin (hash w)).
Proof.
  intros Hok HV [R1 R2 R3 R4 R5 R6 R7 R8] H3 Hn Hf Hd Hp.
  set (ks := mjoin (hash w)) in *.
  set (idx := λ x, match ks !! x with Some k => kh_idx k | None => 0 end).
  pose proof (co_entries _ _ _ Hok) as [E1 E2 E3 E4].
  destruct (assign_nodes_correct V (length ks) (key_nodes V sd ks) idx (Z.of_nat (data_counter w)) (output_order st))
    with (st := st) as (st' & Ha & Hr & Hl & Hs); try done; try lia.
  { intros x Hx. unfold idx. destruct (lookup_lt_is_Some_2 ks x Hx) as [k Hk]. rewrite Hk.
    by apply (Forall_lookup_1 _ _ _ _ E3 Hk). }
  { by apply key_nodes_placed. }
  { unfold final. rewrite R7, R8, !length_replicate. split_and!; try done.
    intros x Hx. destruct (lookup_lt_is_Some_2 ks x Hx) as [k Hk]. unfold idx. rewrite Hk.
    by apply (Hf x k). }
  { rewrite R7. by apply Forall_replicate. }
  { rewrite R8. by apply Forall_replicate. }
  exists st'. split; [done|]. destruct (assign_nodes_keeps _ _ Ha) as [-> ->]. split; [done|]. split; [done|].
  split; [done|]. split; [done|]. intros k [x Hx]%list_elem_of_lookup.
  destruct (Hs x) as (a & b & c & Hl' & Hm & Hrr & Hsum); [by eapply lookup_lt_Some|].
  unfold key_nodes in Hl', Hm, Hrr. unfold idx in Hsum. rewrite Hx in *. exists a, b, c. done.
Qed.

(** [cdbw_output] writes the image of the database, when memory and the file allow and one of
    the seeds that are tried gives a graph that can be peeled. *)
Section Written.

Context (answer : nat → option (Z * list Z)) (write : nat → Z → Z).
Hypothesis malloc_slack : ∀ k a after, answer k = Some (a, after) → (3 ≤ length after)%nat.
Hypothesis malloc_ok : ∀ k, answer k ≠ None.
Hypothesis write_ok : ∀ k n, write k n = n.

Lemma with_mem_run {A} (m : M memory A) (P : A → memory → Prop) (w : world) :
  wp m P (mem w) → wp (with_mem m) (λ a w', P a (mem w') ∧ out_file w' = out_file w ∧ out_writes w' = out_writes w) w.
Proof. unfold wp, with_mem. destruct (m (mem w)) as [[a m']|]; [|done]. done. Qed.

Lemma wp_alloc_ok l w :
  holds (mem w) l →
  wp (with_mem (alloc answer)) (λ r w', ∃ p, r = Some p ∧ holds (mem w') (p :: l) ∧
    out_file w' = out_file w ∧ out_writes w' = out_writes w) w.
Proof.
  intros H. eapply wp_mono; [by eapply with_mem_run, (wp_calloc answer malloc_slack)|].
  intros [p|] w' (Hp & ? & ?); [by exists p|]. destruct Hp as [[k Hk] _]. by apply malloc_ok in Hk.
Qed.

Lemma wp_release ps l w :
  holds (mem w) (ps ++ l) →
  wp (release (Some <$> ps)) (λ _ w', holds (mem w') l ∧ out_file w' = out_file w) w.
Proof.
  revert w. induction ps as [|p ps IH]; intros w H; [done|]. cbn [fmap list_fmap release foldr].
  rewrite wp_bind. eapply wp_mono; [by eapply with_mem_run, wp_free_Some|].
  intros ? w1 (H1 & F1 & _). eapply wp_mono; [by apply IH|]. intros ? w2 [H2 F2]. split; [done|]. congruence.
Qed.

Lemma wp_print stack descr w gs bs ents sd wd :
  records w bs → length gs = ents → length stack = BUFSIZE →
  wp (with_buffer stack (print_hash write w ents sd gs descr))
    (λ r wd', r = true ∧ mem wd' = mem wd ∧
      out_file wd' = out_file wd ++ cdb_image (w_data_size w) (data_counter w) ents sd gs descr (b_bytes <$> bs)) wd.
Proof.
  intros Hr Hg Hs. unfold wp, with_buffer.
  destruct (print_hash_correct write write_ok w ents sd gs descr bs (mk_pstate stack 0 (out_file wd) (out_writes wd)))
    as (p' & -> & Hf); [done..|]. cbn. split; [done|]. split; [done|]. exact Hf.
Qed.

Lemma num_entries_bound n : (0 < num_entries n)%nat.
Proof. unfold num_entries. destruct (Z.ltb_spec (u32 (u32 (Z.of_nat n) + u32 (u32 (Z.of_nat n) + 3) / 4)) 10); lia. Qed.

(** The limit on the number of keys keeps the number of nodes from wrapping around, and
    there are at least as many nodes as keys. *)
Lemma num_entries_enough n : Z.of_nat n ≤ max_data_counter → (n ≤ num_entries n)%nat.
Proof.
  unfold max_data_counter, num_entries. intros Hn. unfold u32.
  rewrite !(Z.mod_small (Z.of_nat n)), (Z.mod_small (Z.of_nat n + 3)) by lia.
  pose proof (Z.div_mod (Z.of_nat n + 3) 4 ltac:(lia)). pose proof (Z.mod_pos_bound (Z.of_nat n + 3) 4 ltac:(lia)).
  rewrite Z.mod_small by lia. destruct (Z.ltb_spec (Z.of_nat n + (Z.of_nat n + 3) / 4) 10); lia.
Qed.

(** The arrays as [cdbw_output] allocates them. *)
Lemma initial_ready w km bs sd :
  cdb_ok w km bs → ready w (num_entries (key_counter w)) (set_seed (initial_state w) sd).
Proof.
  intros Hok. pose proof (num_entries_enough _ (proj2 (co_max _ _ _ Hok))) as He.
  split; cbn [set_seed initial_state entries keys edges verts output_order data_entries g visited];
    rewrite ?length_replicate, <- ?(co_count _ _ _ Hok); reflexivity || exact He.
Qed.

Lemma cdbw_output_correct base w km bs stack descr sg n wd :
  represents base w km bs (mem wd) → length stack = BUFSIZE →
  (0 < data_counter w)%nat → (0 < key_counter w)%nat → 3 * Z.of_nat (data_counter w) ≤ 2 ^ 32 →
  peelable (seed_at sg n) (mjoin (hash w)) (num_entries (key_counter w)) →
  ∃ fuel wd' j gs, cdbw_output answer write fuel w stack descr sg wd = Some (true, wd') ∧
    represents base w km bs (mem wd') ∧
    out_file wd' = out_file wd ++ cdb_image (w_data_size w) (data_counter w) (num_entries (key_counter w))
                     (seed_at sg j) gs descr (b_bytes <$> bs) ∧
    numbered (num_entries (key_counter w)) (seed_at sg j) (Z.of_nat (data_counter w)) gs (mjoin (hash w)).
Proof.
  intros [Hok H] Hs Hd Hk H3 Hp. set (V := num_entries (key_counter w)) in *.
  assert (ready w V (initial_state w)) as R.
  { exact (initial_ready w km bs 0 Hok). }
  destruct (try_seeds_correct w V sg n (num_entries_bound _) (en_keys _ _ (co_entries _ _ _ Hok)) 0 (initial_state w))
    as (j & st & Htry & Es & R1 & Hf & Hdi & Hpe); [by intros|done|done|].
  destruct (assign_numbered w V (seed_at sg j) st km bs) as (st2 & Has & Ev & Esd & Hnum); try done; [apply num_entries_bound|].
  enough (wp (cdbw_output answer write (S n) w stack descr sg) (λ r wd', r = true ∧ represents base w km bs (mem wd') ∧
    out_file wd' = out_file wd ++ cdb_image (w_data_size w) (data_counter w) V (seed_at sg j) (g st2) descr (b_bytes <$> bs)) wd)
    as Hwp.
  { apply wp_run in Hwp as (r & wd' & Hrun & -> & Hrep & Hfile). exists (S n), wd', j, (g st2). done. }
  unfold cdbw_output. destruct (Nat.eqb_spec (data_counter w) 0); [lia|]. destruct (Nat.eqb_spec (key_counter w) 0); [lia|].
  cbn [orb].
  rewrite wp_bind. eapply wp_mono; [by apply wp_alloc_ok|]. intros ? wd1 (p1 & -> & H1 & F1 & _).
  rewrite wp_bind. eapply wp_mono; [by apply wp_alloc_ok|]. intros ? wd2 (p2 & -> & H2 & F2 & _).
  rewrite wp_bind. eapply wp_mono; [by apply wp_alloc_ok|]. intros ? wd3 (p3 & -> & H3' & F3 & _).
  rewrite wp_bind. eapply wp_mono; [by apply wp_alloc_ok|]. intros ? wd4 (p4 & -> & H4 & F4 & _).
  rewrite wp_bind. eapply wp_mono; [by apply wp_alloc_ok|]. intros ? wd5 (p5 & -> & H5 & F5 & _).
  rewrite Htry, wp_bind, wp_unwrap_Some, Has, wp_bind, wp_unwrap_Some, wp_bind.
  eapply wp_mono; [apply wp_print; [apply Hok|by rewrite Ev; apply Hnum|done]|]. intros ? wd6 (-> & M6 & F6).
  rewrite wp_bind. change [Some p1; Some p2; Some p3; Some p4; Some p5] with (Some <$> [p1; p2; p3; p4; p5]).
  eapply wp_mono; [apply (wp_release _ (owned w bs ++ base))|].
  { rewrite M6. eapply holds_perm; [exact H5|]. solve_Permutation. }
  intros ? wd7 [H7 F7]. rewrite wp_ret. split; [done|]. split; [by split|].
  rewrite F7, F6, Ev, Esd, Es. congruence.
Qed.

End Written.
