(* ===== verification/CdbRead.v ===== *)
(** * Constant databases: the image of a database is read back

    The reader finds the tables where the writer put them, and in them the numbers and the
    data; the sum of the numbers of a key is the index of its record. *)

From S2P Require Import Prelude Bitops VectorHash Cdbr Cdbw CdbGraph CdbAssign CdbPrint CdbTable CdbOutput CdbSpec.

(** ** Numbers *)

Lemma width_size z : width_of z = Z.of_nat (compute_size z).
Proof. unfold width_of, compute_size. by destruct (z <? 0x100), (z <? 0x10000). Qed.

Lemma width_fits z : 0 ≤ z < 2 ^ 32 → z < 2 ^ (8 * width_of z).
Proof.
  unfold width_of. destruct (Z.ltb_spec z 0x100), (Z.ltb_spec z 0x10000); lia.
Qed.

Lemma le32enc_bytes v : Forall is_byte (le32enc v).
Proof. unfold le32enc, is_byte. repeat constructor; by apply Z.mod_pos_bound. Qed.

Lemma le_val_enc v : 0 ≤ v < 2 ^ 32 → le_val (le32enc v) = v.
Proof.
  intros Hv. unfold le32enc, le_val. cbn [foldr]. change (2 ^ 24) with (2 ^ 16 * 2 ^ 8). change (2 ^ 16) with (2 ^ 8 * 2 ^ 8).
  rewrite <- !Z.div_div by lia. change (2 ^ 8) with 256.
  pose proof (Z.div_mod v 256 ltac:(lia)). pose proof (Z.div_mod (v / 256) 256 ltac:(lia)).
  pose proof (Z.div_mod (v / 256 / 256) 256 ltac:(lia)).
  assert (0 ≤ v / 256 / 256 / 256 < 256) as Hb.
  { split; [apply Z.div_pos; [apply Z.div_pos; [apply Z.div_pos|]|]; lia|].
    do 3 (apply Z.div_lt_upper_bound; [lia|]). lia. }
  rewrite (Z.mod_small (v / 256 / 256 / 256)) by done. lia.
Qed.

(** The first bytes of a small number are enough. *)
Lemma le_val_take_enc k v :
  (k ≤ 4)%nat → 0 ≤ v < 2 ^ (8 * Z.of_nat k) → le_val (take k (le32enc v)) = v.
Proof.
  intros Hk Hv. assert (2 ^ (8 * Z.of_nat k) ≤ 2 ^ 32) by (apply Z.pow_le_mono_r; lia).
  pose proof (le_val_enc v ltac:(lia)) as He. rewrite <- (take_drop k (le32enc v)), le_val_app in He.
  rewrite length_take, le32enc_length, Nat.min_l in He by done.
  pose proof (le_val_bound (take k (le32enc v)) ltac:(by apply Forall_take, le32enc_bytes)) as H1.
  pose proof (le_val_bound (drop k (le32enc v)) ltac:(by apply Forall_drop, le32enc_bytes)) as H2.
  rewrite length_take, le32enc_length, Nat.min_l in H1 by done.
  set (a := le_val (take k (le32enc v))) in *. set (b := le_val (drop k (le32enc v))) in *.
  set (P := 2 ^ (8 * Z.of_nat k)) in *. destruct (decide (b = 0)) as [E|E]; [rewrite E in He; lia|].
  assert (P * 1 ≤ P * b) by (apply Z.mul_le_mono_nonneg_l; lia). lia.
Qed.

Lemma numbers_length l k : (k ≤ 4)%nat → length (numbers l k) = (length l * k)%nat.
Proof.
  intros Hk. induction l as [|v l IH]; [done|].
  change (numbers (v :: l) k) with (take k (le32enc v) ++ numbers l k).
  rewrite length_app, length_take, le32enc_length, IH. cbn. lia.
Qed.

Lemma numbers_nth l k i v rest :
  (k ≤ 4)%nat → l !! i = Some v → take k (drop (i * k) (numbers l k ++ rest)) = take k (le32enc v).
Proof.
  intros Hk. revert i. induction l as [|x l IH]; intros i Hi; [done|].
  change (numbers (x :: l) k) with (take k (le32enc x) ++ numbers l k). rewrite <- app_assoc.
  assert (length (take k (le32enc x)) = k) as Hl by (rewrite length_take, le32enc_length; lia).
  destruct i as [|i]; cbn in Hi.
  - injection Hi as <-. rewrite Nat.mul_0_l, drop_0. by rewrite take_app_le, take_take, Nat.min_id by lia.
  - rewrite Nat.mul_succ_l, Nat.add_comm, <- drop_drop. rewrite drop_app_ge by lia.
    by rewrite Hl, Nat.sub_diag, drop_0, IH.
Qed.

Lemma numbers_bytes l k : Forall is_byte (numbers l k).
Proof.
  induction l as [|v l IH]; [constructor|]. change (numbers (v :: l) k) with (take k (le32enc v) ++ numbers l k).
  apply Forall_app. split; [apply Forall_take, le32enc_bytes|done].
Qed.

(** ** Offsets *)

Definition total (ds : list (list Z)) : Z := Z.of_nat (length (mjoin ds)).

Lemma total_cons d ds : total (d :: ds) = Z.of_nat (length d) + total ds.
Proof. unfold total. change (mjoin (d :: ds)) with (d ++ mjoin ds). rewrite length_app. lia. Qed.

Lemma total_nonneg ds : 0 ≤ total ds.
Proof. unfold total. lia. Qed.

Lemma offsets_nth (ds : list (list Z)) d i :
  0 ≤ d → d + total ds < 2 ^ 32 → (i ≤ length ds)%nat →
  offsets (length <$> ds) d !! i = Some (d + total (take i ds)).
Proof.
  revert d i. induction ds as [|x ds IH]; intros d i Hd Hl Hi.
  - destruct i; [|cbn in Hi; lia]. cbn. f_equal. unfold total. cbn. lia.
  - cbn [fmap list_fmap offsets]. rewrite total_cons in Hl. pose proof (total_nonneg ds).
    destruct i as [|i]; [cbn; f_equal; unfold total; cbn; lia|]. cbn [lookup list_lookup take].
    unfold u32. rewrite Z.mod_small by lia. change (list_lookup i ?l) with (l !! i).
    rewrite IH by (cbn in Hi; lia). rewrite total_cons. f_equal. lia.
Qed.

Lemma offsets_length (ds : list (list Z)) d : length (offsets (length <$> ds) d) = S (length ds).
Proof. revert d. induction ds as [|x ds IH]; intros d; [done|]. cbn. by rewrite IH. Qed.

Lemma total_take_le i ds : total (take i ds) ≤ total ds.
Proof.
  unfold total. rewrite <- (take_drop i ds) at 2. rewrite join_app, length_app. lia.
Qed.

Lemma total_take_S i ds d : ds !! i = Some d → total (take (S i) ds) = total (take i ds) + Z.of_nat (length d).
Proof. intros Hd. rewrite (take_S_r _ _ _ Hd). unfold total. rewrite join_app, length_app. cbn. rewrite app_nil_r. lia. Qed.

(** The data of a record. *)
Lemma join_nth (ds : list (list Z)) i d :
  ds !! i = Some d → take (length d) (drop (Z.to_nat (total (take i ds))) (mjoin ds)) = d.
Proof.
  intros Hd. unfold total. rewrite Nat2Z.id. rewrite <- (take_drop_middle ds i d Hd) at 2.
  rewrite join_app. rewrite drop_app_ge by done. rewrite Nat.sub_diag, drop_0. cbn. by rewrite take_app_length.
Qed.

(** ** The image *)

Section Image.

Context (base : Z) (um : option Z) (n V : nat) (sd : Z) (gs descr : list Z) (ds : list (list Z)).

Hypothesis n_records : length ds = n.
Hypothesis n_numbers : length gs = V.
Hypothesis few_records : Z.of_nat n < 2 ^ 30 - 1.
Hypothesis few_nodes : Z.of_nat V < 2 ^ 30.
Hypothesis small : total ds < 2 ^ 32.
Hypothesis seed_range : 0 ≤ sd < 2 ^ 32.

Definition img : list Z := cdb_image (total ds) n V sd gs descr ds.

Hypothesis base_range : 0 ≤ base ∧ base + Z.of_nat (length img) < 2 ^ 64.

Abbreviation isz := (compute_size (Z.of_nat V)).
Abbreviation osz := (compute_size (total ds)).

Definition pad : nat := let r := ((isz * V) mod osz)%nat in if (r =? 0)%nat then 0%nat else (osz - r)%nat.

Lemma sizes : (1 ≤ isz ≤ 4)%nat ∧ (1 ≤ osz ≤ 4)%nat.
Proof.
  destruct (compute_size_cases (Z.of_nat V)) as [->|[->| ->]], (compute_size_cases (total ds)) as [->|[->| ->]]; lia.
Qed.

Lemma header_length : length (cdb_header (total ds) n V sd descr) = 40%nat.
Proof. unfold cdb_header. rewrite !length_app, strncpy16_length, !le32enc_length. done. Qed.

Lemma img_parts :
  img = cdb_header (total ds) n V sd descr ++ numbers gs isz ++ replicate pad 0
        ++ numbers (offsets (length <$> ds) 0) osz ++ mjoin ds.
Proof.
  unfold img, cdb_image, cdb_tables, pad. do 3 f_equal. by destruct (_ =? 0)%nat.
Qed.

Lemma img_length : length img = (40 + V * isz + pad + S n * osz + length (mjoin ds))%nat.
Proof.
  pose proof sizes. rewrite img_parts, !length_app, header_length, length_replicate.
  rewrite !numbers_length by lia. rewrite offsets_length, n_numbers, n_records. lia.
Qed.

Lemma pad_padding : Z.of_nat pad = padding (Z.of_nat V * width_of (Z.of_nat V)) (width_of (total ds)).
Proof.
  pose proof sizes. rewrite !width_size. unfold pad, padding.
  rewrite <- Nat2Z.inj_mul, <- Nat2Z.inj_mod, (Nat.mul_comm V isz).
  destruct (Nat.eqb_spec ((isz * V) mod osz) 0) as [E|E].
  - by rewrite E.
  - destruct (Z.eqb_spec (Z.of_nat ((isz * V) mod osz)) 0); [lia|].
    pose proof (Nat.mod_upper_bound (isz * V) osz ltac:(lia)). lia.
Qed.

Definition opened : cdbr := cdbr_layout base img um (total ds) (Z.of_nat n) (Z.of_nat V) sd.

(** The places that the reader computes. *)
Lemma opened_places :
  hash_base opened = base + 40 ∧
  offset_base opened = base + 40 + Z.of_nat V * Z.of_nat isz + Z.of_nat pad ∧
  data_base opened = base + 40 + Z.of_nat V * Z.of_nat isz + Z.of_nat pad + (Z.of_nat n + 1) * Z.of_nat osz ∧
  data_base opened + total ds = base + Z.of_nat (length img).
Proof.
  pose proof sizes. pose proof img_length as Hl. pose proof (total_nonneg ds). destruct base_range as [Hb He].
  assert (total ds = Z.of_nat (length (mjoin ds))) as Ht by done.
  assert (Z.of_nat (length img) = 40 + Z.of_nat V * Z.of_nat isz + Z.of_nat pad + (Z.of_nat n + 1) * Z.of_nat osz + total ds) as HL by lia.
  unfold opened, cdbr_layout. cbn [hash_base offset_base data_base].
  assert (u32 (Z.of_nat V * width_of (Z.of_nat V)) = Z.of_nat V * width_of (Z.of_nat V)) as E1
    by (rewrite width_size; apply Z.mod_small; nia).
  assert (u32 (u32 (Z.of_nat n + 1) * width_of (total ds)) = (Z.of_nat n + 1) * Z.of_nat osz) as E2.
  { rewrite width_size. unfold u32. rewrite (Z.mod_small (Z.of_nat n + 1)) by lia. apply Z.mod_small. nia. }
  rewrite E1, E2, <- pad_padding, width_size.
  rewrite (u64_small (base + 40)) by lia.
  rewrite (u64_small (base + 40 + Z.of_nat V * Z.of_nat isz)) by lia.
  rewrite (u64_small (base + 40 + Z.of_nat V * Z.of_nat isz + Z.of_nat pad)) by lia.
  rewrite u64_small by lia. lia.
Qed.

Lemma opened_ok : layout_ok opened.
Proof.
  pose proof opened_places as (P1 & P2 & P3 & P4). destruct base_range as [Hb He]. pose proof (total_nonneg ds).
  split; try done; try (cbn [opened cdbr_layout mmap_base mmap entries_index Cdbr.entries data_size]; lia).
  - rewrite P2, P1. cbn [opened cdbr_layout entries_index index_size offset_size]. rewrite <- pad_padding, width_size. lia.
  - rewrite P3, P2. cbn [opened cdbr_layout Cdbr.entries offset_size]. rewrite width_size. lia.
Qed.

Lemma header_field off v r :
  drop off (cdb_header (total ds) n V sd descr) = le32enc v ++ r →
  (off + 4 ≤ 40)%nat → 0 ≤ v < 2 ^ 32 → le32dec img off = Some v.
Proof.
  intros Hd Ho Hv. unfold img, cdb_image. rewrite le32dec_app by (rewrite header_length; lia).
  rewrite Hd. change (take 4 (le32enc v ++ r)) with (le32enc v). by rewrite le_val_enc.
Qed.

(** The image opens. *)
Lemma image_opens : cdbr_open_mem true base img um = Some (inr opened).
Proof.
  pose proof opened_places as (P1 & P2 & P3 & P4). pose proof img_length as Hl. destruct base_range as [Hb He].
  pose proof (total_nonneg ds). unfold cdbr_open_mem.
  destruct (Z.ltb_spec (Z.of_nat (length img)) 40); [lia|]. cbn [orb].
  assert (take 8 img = cdb_magic) as Hm by done.
  rewrite bool_decide_eq_true_2 by done. cbn [negb].
  assert (∀ k (a b : list Z), length a = k → drop k (a ++ b) = b) as Hdr.
  { intros k a b <-. apply drop_app_length. }
  assert (cdb_header (total ds) n V sd descr = (([78; 66; 67; 68; 66; 10; 0] ++ [1]) ++ strncpy16 descr) ++
    le32enc (total ds) ++ le32enc (Z.of_nat n) ++ le32enc (Z.of_nat V) ++ le32enc sd) as Hh
    by (unfold cdb_header; by rewrite <- !app_assoc).
  assert (length (([78; 66; 67; 68; 66; 10; 0] ++ [1]) ++ strncpy16 descr) = 24%nat) as H24
    by (rewrite !length_app, strncpy16_length; done).
  assert (∀ j, drop (24 + j) (cdb_header (total ds) n V sd descr) =
    drop j (le32enc (total ds) ++ le32enc (Z.of_nat n) ++ le32enc (Z.of_nat V) ++ le32enc sd)) as Hdj.
  { intros j. rewrite <- drop_drop, Hh. by rewrite Hdr. }
  rewrite (header_field 24 (total ds) _ (Hdj 0%nat)), (header_field 28 (Z.of_nat n) _ (Hdj 4%nat)),
    (header_field 32 (Z.of_nat V) _ (Hdj 8%nat)), (header_field 36 sd [] (Hdj 12%nat)) by lia.
  cbn [mbind option_bind]. change (cdbr_layout _ _ _ _ _ _ _) with opened.
  enough (cdbr_bad opened = false) as -> by done.
  pose proof opened_ok as Hlo. pose proof (table_sizes _ Hlo) as (_ & _ & Hp).
  unfold cdbr_bad. change (mmap_base opened) with base. change (mmap opened) with img. change (data_size opened) with (total ds).
  rewrite (u64_small (data_base opened + total ds)), (u64_small (base + Z.of_nat (length img))) by lia.
  rewrite !orb_false_iff, !Z.ltb_ge. pose proof sizes. nia.
Qed.

(** A part of the image behind some others. *)
Lemma img_drop (a : Z) (pre l : list Z) :
  img = pre ++ l → a = base + Z.of_nat (length pre) → drop (Z.to_nat (a - base)) img = l.
Proof.
  intros -> ->. replace (Z.to_nat (base + Z.of_nat (length pre) - base)) with (length pre) by lia. apply drop_app_length.
Qed.

(** The number of a node. *)
Lemma node_value_image h z :
  0 ≤ z < 2 ^ 32 → z < Z.of_nat V → gs !! Z.to_nat (h mod Z.of_nat V) = Some z → node_value opened h = z.
Proof.
  intros Hz HzV Hg. pose proof sizes. unfold node_value. change (index_size opened) with (width_of (Z.of_nat V)).
  change (entries_index opened) with (Z.of_nat V). change (mmap opened) with img. rewrite width_size, Nat2Z.id.
  assert (0 ≤ h mod Z.of_nat V) by (apply Z.mod_pos_bound; lia).
  replace (Z.to_nat (40 + h mod Z.of_nat V * Z.of_nat isz)) with (40 + Z.to_nat (h mod Z.of_nat V) * isz)%nat by lia.
  rewrite <- drop_drop, img_parts. rewrite <- header_length at 1. rewrite drop_app_length.
  rewrite (numbers_nth gs isz _ z) by (done || lia). apply le_val_take_enc; [lia|].
  pose proof (width_fits (Z.of_nat V) ltac:(lia)) as Hf. rewrite width_size in Hf. lia.
Qed.

(** An offset. *)
Lemma offset_image i :
  Forall is_byte img → (i ≤ n)%nat →
  get_uintX opened (offset_base opened) (Z.of_nat i) (offset_size opened) = Some (total (take i ds)).
Proof.
  intros Hb Hi. pose proof opened_ok as Hlo. pose proof (table_sizes _ Hlo) as (_ & Ho & _).
  pose proof opened_places as (P1 & P2 & P3 & P4). pose proof sizes. destruct base_range as [Hb0 He].
  pose proof (total_nonneg ds) as Ht0. pose proof (total_take_le i ds). pose proof (total_nonneg (take i ds)).
  assert (offset_size opened = Z.of_nat osz) as Eo by apply width_size.
  assert (offsets (length <$> ds) 0 !! i = Some (total (take i ds))) as Hoff.
  { rewrite offsets_nth by lia. f_equal. }
  destruct (get_uintX_ok opened (offset_base opened) (Z.of_nat n + 1) (Z.of_nat i) (offset_size opened)) as [-> _];
    [done|done|done|done|change (mmap_base opened) with base; lia| |lia|lia|].
  { change (mmap_base opened) with base. change (mmap opened) with img. rewrite Eo. lia. }
  f_equal. change (mmap_base opened) with base. change (mmap opened) with img. rewrite Eo, Nat2Z.id.
  replace (Z.to_nat (offset_base opened + Z.of_nat i * Z.of_nat osz - base))
    with (Z.to_nat (offset_base opened - base) + i * osz)%nat by lia.
  rewrite <- drop_drop.
  rewrite (img_drop _ (cdb_header (total ds) n V sd descr ++ numbers gs isz ++ replicate pad 0)
    (numbers (offsets (length <$> ds) 0) osz ++ mjoin ds)).
  - rewrite (numbers_nth _ osz _ (total (take i ds))) by (done || lia). apply le_val_take_enc; [lia|].
    pose proof (width_fits (total ds) ltac:(lia)) as Hf. rewrite width_size in Hf. lia.
  - rewrite img_parts. by rewrite <- !app_assoc.
  - rewrite P2, !length_app, header_length, length_replicate, numbers_length, n_numbers by lia. lia.
Qed.

(** The data at an address of the mapping. *)
Definition data_at (c : cdbr) (a len : Z) : list Z :=
  take (Z.to_nat len) (drop (Z.to_nat (a - mmap_base c)) (mmap c)).

(** Every record is read back. *)
Lemma get_image i d :
  Forall is_byte img → ds !! i = Some d →
  ∃ a len, cdbr_get opened (Z.of_nat i) = Some (inr (a, len)) ∧ data_at opened a len = d.
Proof.
  intros Hb Hd. pose proof (lookup_lt_Some _ _ _ Hd) as Hi. pose proof opened_places as (P1 & P2 & P3 & P4).
  pose proof (total_take_le (S i) ds). pose proof (total_nonneg (take i ds)). pose proof (total_take_S i ds d Hd) as HS.
  pose proof sizes. destruct base_range as [Hb0 He].
  unfold cdbr_get. change (Cdbr.entries opened) with (Z.of_nat n). destruct (Z.leb_spec (Z.of_nat n) (Z.of_nat i)); [lia|].
  assert (u32 (Z.of_nat i + 1) = Z.of_nat (S i)) as -> by (unfold u32; rewrite Z.mod_small by lia; lia).
  rewrite !offset_image by (done || lia). cbn [mbind option_bind]. change (data_size opened) with (total ds).
  destruct (Z.ltb_spec (total (take (S i) ds)) (total (take i ds))); [lia|].
  destruct (Z.ltb_spec (total ds) (total (take (S i) ds))); [lia|].
  eexists _, _. split; [done|]. unfold data_at. change (mmap_base opened) with base. change (mmap opened) with img.
  rewrite u64_small by lia. assert (u32 (total (take (S i) ds) - total (take i ds)) = Z.of_nat (length d)) as ->
    by (unfold u32; rewrite Z.mod_small by lia; lia).
  rewrite Nat2Z.id.
  replace (Z.to_nat (data_base opened + total (take i ds) - base))
    with (Z.to_nat (data_base opened - base) + Z.to_nat (total (take i ds)))%nat by lia.
  rewrite <- drop_drop.
  rewrite (img_drop _ (cdb_header (total ds) n V sd descr ++ numbers gs isz ++ replicate pad 0 ++ numbers (offsets (length <$> ds) 0) osz)
    (mjoin ds)).
  - by apply join_nth.
  - rewrite img_parts. by rewrite <- !app_assoc.
  - rewrite P3, !length_app, header_length, length_replicate, !numbers_length, n_numbers, offsets_length, n_records by lia. lia.
Qed.

(** A key leads to the record whose index its numbers add up to. *)
Lemma find_image addr key rest a b c idx :
  Forall is_byte img → Forall is_byte key → (addr mod 4 = 0 → (3 ≤ length rest)%nat) → (0 < n ≤ V)%nat →
  Forall (λ z, 0 ≤ z < Z.of_nat n) gs →
  gs !! node_of V (vector_hash key sd) SideL = Some a →
  gs !! node_of V (vector_hash key sd) SideM = Some b →
  gs !! node_of V (vector_hash key sd) SideR = Some c →
  (a + b + c) mod Z.of_nat n = Z.of_nat idx →
  cdbr_find opened (mk_ptr addr (key ++ rest)) (length key) = cdbr_get opened (Z.of_nat idx).
Proof.
  intros Hb Hk Hr HnV Hg Ha Hbb Hc Hs. pose proof (mi_vector_hash_run addr key rest sd Hk Hr) as Hh.
  pose proof (vector_hash_ok key sd) as Hok. destruct (vector_hash key sd) as [[h0 h1] h2].
  rewrite (cdbr_find_run opened _ _ h0 h1 h2 opened_ok Hb);
    [|change (entries_index opened) with (Z.of_nat V); lia|change (Cdbr.entries opened) with (Z.of_nat n); lia|exact Hh|exact Hok].
  assert (0 ≤ a < Z.of_nat n) by (exact (Forall_lookup_1 _ _ _ _ Hg Ha)).
  assert (0 ≤ b < Z.of_nat n) by (exact (Forall_lookup_1 _ _ _ _ Hg Hbb)).
  assert (0 ≤ c < Z.of_nat n) by (exact (Forall_lookup_1 _ _ _ _ Hg Hc)).
  cbn [node_of] in Ha, Hbb, Hc.
  rewrite (node_value_image h0 a), (node_value_image h1 b), (node_value_image h2 c) by (done || lia).
  change (Cdbr.entries opened) with (Z.of_nat n). unfold u32. rewrite (Z.mod_small (a + b + c)) by lia. by rewrite Hs.
Qed.

End Image.
