(* ===== verification/CdbStore.v ===== *)
(** * Constant databases: written, then read

    The composition of [cdbw.c] and [cdbr.c]: the file of a table that represents a map of
    keys and a list of records opens, and finds every key and every record. *)

From stdpp Require Import fin_sets.
From S2P Require Import Prelude Bitops VectorHash Cdbr Cdbw CdbGraph CdbBuild CdbAssign CdbPrint CdbTable CdbOutput CdbSpec CdbRead.

(** ** The bytes of an image *)

Lemma until_nul_bytes l : Forall is_byte l → Forall is_byte (until_nul l).
Proof.
  induction 1 as [|c l Hc _ IH]; [constructor|]. cbn. destruct (c =? 0); [constructor|by constructor].
Qed.

Lemma zeros_bytes n : Forall is_byte (replicate n 0).
Proof. by apply Forall_replicate. Qed.

Lemma strncpy16_bytes l : Forall is_byte l → Forall is_byte (strncpy16 l).
Proof.
  intros H. unfold strncpy16. apply Forall_app. split; [by apply Forall_take, until_nul_bytes|apply zeros_bytes].
Qed.

Lemma join_bytes ds : Forall (Forall is_byte) ds → Forall is_byte (mjoin ds).
Proof. induction 1; [constructor|]. cbn. by apply Forall_app. Qed.

Lemma image_bytes dsize n V sd gs descr ds :
  Forall is_byte descr → Forall (Forall is_byte) ds → Forall is_byte (cdb_image dsize n V sd gs descr ds).
Proof.
  intros Hd Hs. unfold cdb_image, cdb_header, cdb_tables. rewrite !Forall_app.
  split_and!; try apply le32enc_bytes; try apply numbers_bytes; try (by repeat constructor).
  - by apply strncpy16_bytes.
  - destruct (_ =? 0)%nat; [constructor|apply zeros_bytes].
  - by apply join_bytes.
Qed.

(** ** The round trip *)

(** What a reader finds in a mapping: the records, and the record of every key. *)
Definition reads (c : cdbr) (km : gmap (list Z) Z) (ds : list (list Z)) : Prop :=
  (∀ i d, ds !! i = Some d → ∃ a len, cdbr_get c (Z.of_nat i) = Some (inr (a, len)) ∧ data_at c a len = d) ∧
  (∀ key i, km !! key = Some i → ∃ d, ds !! Z.to_nat i = Some d ∧
    ∀ addr rest, (addr mod 4 = 0 → (3 ≤ length rest)%nat) →
    ∃ a len, cdbr_find c (mk_ptr addr (key ++ rest)) (length key) = Some (inr (a, len)) ∧ data_at c a len = d).

(** An image with right numbers is read back. *)
Lemma image_reads base um n V sd gs descr ds w km bs :
  cdb_ok w km bs → ds = b_bytes <$> bs → n = data_counter w →
  (n ≤ V)%nat → Z.of_nat V < 2 ^ 30 - 1 → 0 ≤ sd < 2 ^ 32 → (0 < n)%nat →
  Forall is_byte descr → Forall (Forall is_byte) ds →
  numbered V sd (Z.of_nat n) gs (mjoin (hash w)) →
  let img := cdb_image (w_data_size w) n V sd gs descr ds in
  0 ≤ base → base + Z.of_nat (length img) < 2 ^ 64 →
  ∃ c, cdbr_open_mem true base img um = Some (inr c) ∧ reads c km ds.
Proof.
  intros Hok -> -> HnV HV Hsd Hn Hde Hds (Hl & Hr & Hks) img' Hb0 Hb1. subst img'.
  pose proof (co_size _ _ _ Hok) as Hsz. pose proof (co_limit _ _ _ Hok) as Hlim. rewrite Hsz in Hb1, Hlim |- *.
  assert (length (b_bytes <$> bs) = data_counter w) as Hlen by (rewrite length_fmap; symmetry; apply (co_records _ _ _ Hok)).
  assert (Forall is_byte (img (data_counter w) V sd gs descr (b_bytes <$> bs))) as Hbytes by (by apply image_bytes).
  exists (opened base um (data_counter w) V sd gs descr (b_bytes <$> bs)). split; [apply image_opens; try done; lia|].
  split; [intros i d Hi; eapply get_image; try done; lia|].
  intros key i Hkey. apply (co_map _ _ _ Hok) in Hkey as (e & He & <- & <-).
  pose proof (co_entries _ _ _ Hok) as [E1 E2 E3 E4].
  assert (0 ≤ kh_idx e < Z.of_nat (data_counter w)) as Hi by (by eapply (proj1 (Forall_forall _ _) E3)).
  assert (key_ok e) as (_ & Hkb & _) by (by eapply (proj1 (Forall_forall _ _) E1)).
  destruct (Hks e He) as (a & b & c & Ha & Hbb & Hc & Hsum).
  destruct (lookup_lt_is_Some_2 (b_bytes <$> bs) (Z.to_nat (kh_idx e))) as [d Hd]; [lia|].
  exists d. split; [done|]. intros addr rest Hrest.
  rewrite (find_image base um (data_counter w) V sd gs descr (b_bytes <$> bs) Hlen Hl ltac:(lia) ltac:(lia) Hlim
    (conj Hb0 Hb1) addr (key_bytes_of e) rest a b c (Z.to_nat (kh_idx e))); try done; try lia.
  eapply get_image; try done; lia.
Qed.

Lemma seed_at_range sg k : 0 ≤ seed_at sg k < 2 ^ 32.
Proof. destruct sg; apply u32_bound. Qed.


(** A database with one key: the graph of one edge can be peeled when its nodes differ. *)
Lemma one_key_peelable sd k V :
  NoDup (node_of V (vector_hash (key_bytes_of k) sd) <$> [SideL; SideM; SideR]) → peelable sd [k] V.
Proof.
  intros Hn. split.
  - intros x s s' Hx E. cbn in Hx. assert (x = 0%nat) as -> by lia. cbn -[vector_hash] in E.
    destruct s, s'; try done; exfalso; cbn -[vector_hash node_of] in Hn;
      apply NoDup_cons in Hn as [H1 Hn]; apply NoDup_cons in Hn as [H2 _]; (apply H1 || apply H2);
      unfold key_bytes_of in *; set_solver.
  - exists [0%nat]. split; [done|]. intros i x Hi. apply list_lookup_singleton_Some in Hi as [-> <-].
    exists SideL. intros j y Hj. lia.
Qed.

Lemma empty_table w : cdb_ok w ∅ [] → data_counter w = 0%nat ∧ w_data_size w = 0 ∧ key_counter w = 0%nat.
Proof.
  intros Hok. split; [apply (co_records _ _ _ Hok)|]. split; [apply (co_size _ _ _ Hok)|].
  rewrite (co_count _ _ _ Hok). destruct (mjoin (hash w)) as [|e l] eqn:E; [done|]. exfalso.
  assert ((∅ : gmap (list Z) Z) !! key_bytes_of e = Some (kh_idx e)) as Hc; [|by rewrite lookup_empty in Hc].
  apply (co_map _ _ _ Hok). exists e. rewrite E. split; [by left|done].
Qed.

Definition always (k : nat) : option (Z * list Z) := Some (8, [0; 0; 0]).

Definition a_key : list Z := [107; 101; 121].
Definition a_record : list Z := [104; 105].

(** The table after the first [cdbw_put]. *)
Definition one_put : M memory (option cdbw) :=
  w ← cdbw_open always;
  match w with
  | None => mret None
  | Some w => r ← cdbw_put always w (mk_ptr 8 (a_key ++ [0; 0; 0])) 3 a_record; mret (Some (snd r))
  end.

Lemma wp_one_put :
  wp one_put (λ r m, match r with
    | Some w => ∃ b, b_bytes b = a_record ∧ represents [] w {[a_key := 0]} [b] m
    | None => False end) (mk_memory ∅ 0).
Proof.
  assert (¬ refused always) as Hr by (by intros [k Hk]).
  assert (∀ k a after, always k = Some (a, after) → (3 ≤ length after)%nat) as Hs by (by intros ??? [= <- <-]).
  unfold one_put. rewrite wp_bind. eapply wp_mono.
  { apply (wp_cdbw_open always Hs []). split; [constructor|]. intros p. cbn. set_solver. }
  intros [w|] m; [|by intros [? _]]. intros Hw. pose proof Hw as [Hok _].
  destruct (empty_table _ Hok) as (E1 & E2 & E3). rewrite wp_bind. eapply wp_mono.
  { apply (wp_cdbw_put always Hs [] w ∅ [] 8 a_key [0; 0; 0] a_record); [done|by repeat constructor|cbn; lia|done]. }
  intros [ok w'] m'. cbn [fst snd]. rewrite wp_ret. destruct ok; [by intros (_ & ?)|].
  intros [_ [?|[[Hx|Hx]|[[? Hx]|Hx]]]]; try done; rewrite ?E1, ?E2, ?E3 in Hx; done.
Qed.

#[local] Opaque one_put.

(** What the table holds, by computation. *)
Lemma one_put_run :
  match one_put (mk_memory ∅ 0) with
  | Some (Some w, _) => ∃ k, mjoin (hash w) = [k] ∧ key_bytes_of k = a_key ∧ key_counter w = 1%nat ∧ data_counter w = 1%nat
  | _ => False
  end.
Proof. vm_compute. eexists. split; [reflexivity|]. split; [reflexivity|]. split; reflexivity. Qed.


(** ** The table and the graph *)


Lemma empty_memory : holds (mk_memory ∅ 0) [].
Proof. split; [constructor|]. intros p. cbn. set_solver. Qed.

Lemma holds_nil m : holds m [] → live m ≡ ∅.
Proof. intros [_ H] p. rewrite H, elem_of_nil, elem_of_empty. done. Qed.

Lemma always_slack k a after : always k = Some (a, after) → (3 ≤ length after)%nat.
Proof. by intros [= <- <-]. Qed.


(** C17: The graph of the keys is built for a seed exactly when the three nodes of every key
    are different and the keys can be put in an order in which each has a node that no
    earlier key has; the order of the edges is then such an order, in which the nodes can
    be numbered. Linking the edges, following the lists of a node and unlinking never leave
    the arrays, and the arrays are left for the next seed. *)
Theorem build_graph_decides w km bs sd st :
  cdb_ok w km bs → ready w (num_entries (key_counter w)) st → seed st = sd →
  let V := num_entries (key_counter w) in
  ∃ ok st', build_graph w st = Some (ok, st') ∧ ready w V st' ∧
    (ok = true ↔ peelable sd (mjoin (hash w)) V) ∧
    (ok = true → peeling (length (mjoin (hash w))) (key_nodes V sd (mjoin (hash w))) (output_order st')).
Proof.
  intros Hok R Hsd V. pose proof R as [R1 R2 R3 R4 R5 R6 R7 R8].
  destruct (build_graph_fills sd (mjoin (hash w)) V (en_keys _ _ (co_entries _ _ _ Hok)) w st)
    as (ok & st' & Hb & S & Hiff & Hp); [done|apply num_entries_bound|by split_and!|].
  exists ok, st'. split; [done|]. split; [by eapply ready_shape|]. split; [done|]. intros H. by apply Hp.
Qed.

(** With the first seed two nodes of the key are the same, with the second none are. *)
Lemma build_graph_decides_witness :
  ∃ w m st1 st2, one_put (mk_memory ∅ 0) = Some (Some w, m) ∧
    build_graph w (set_seed (initial_state w) 1) = Some (false, st1) ∧
    build_graph w (set_seed (initial_state w) 2) = Some (true, st2).
Proof.
  destruct (proj1 (wp_run _ _ _) wp_one_put) as ([w|] & m & E & Hw); [|destruct Hw].
  destruct Hw as (b & Hb & Hrep). pose proof one_put_run as Hrun. rewrite E in Hrun.
  destruct Hrun as (k & Hk & Hkb & Ek & Ed).
  assert (∀ sd, ready w (num_entries (key_counter w)) (set_seed (initial_state w) sd)) as R.
  { intros sd. exact (initial_ready w _ _ sd (proj1 Hrep)). }
  destruct (build_graph_decides w _ _ 1 (set_seed (initial_state w) 1) (proj1 Hrep) (R 1) eq_refl)
    as (ok1 & st1 & H1 & _ & I1 & _).
  destruct (build_graph_decides w _ _ 2 (set_seed (initial_state w) 2) (proj1 Hrep) (R 2) eq_refl)
    as (ok2 & st2 & H2 & _ & I2 & _).
  exists w, m, st1, st2. rewrite Ek, Hk in I1, I2. split; [exact E|]. split.
  - rewrite H1. destruct ok1; [exfalso|done]. destruct (proj1 I1 eq_refl) as [Hd _].
    specialize (Hd 0%nat SideL SideM ltac:(cbn; lia)). cbn -[vector_hash node_of num_entries] in Hd.
    unfold key_bytes_of in Hkb. rewrite Hkb in Hd.
    assert (SideL = SideM) as Hs by (apply Hd; vm_compute; reflexivity). discriminate Hs.
  - rewrite H2. destruct ok2; [done|]. exfalso. assert (false = true) as Hf; [|discriminate Hf].
    apply I2, one_key_peelable. rewrite Hkb. apply (bool_decide_unpack _). vm_compute. exact I.
Defined.

(** C39: Opening and closing are the two ends of the memory of a table: [cdbw_open] either
    fails with nothing kept, or gives an empty table, and [cdbw_close] frees each block of a
    table once, whatever was put into it, so that the memory of others is what is left. *)
Theorem cdbw_close_frees_all answer base m :
  (∀ k a after, answer k = Some (a, after) → (3 ≤ length after)%nat) → holds m base →
  wp (cdbw_open answer) (λ r m1,
    match r with
    | None => holds m1 base
    | Some w0 => represents base w0 ∅ [] m1
    end) m ∧
  ∀ w km bs m2, represents base w km bs m2 → wp (cdbw_close w) (λ _ m3, holds m3 base) m2.
Proof.
  intros Hs Hm. split; [|intros; by eapply wp_cdbw_close]. eapply wp_mono; [by apply (wp_cdbw_open answer Hs base)|].
  intros [w|] m1; [done|]. by intros [_ ?].
Qed.

Lemma cdbw_close_frees_all_witness :
  ∃ w m, one_put (mk_memory ∅ 0) = Some (Some w, m) ∧ wp (cdbw_close w) (λ _ m3, live m3 ≡ ∅) m.
Proof.
  destruct (proj1 (wp_run _ _ _) wp_one_put) as ([w|] & m & E & Hw); [|destruct Hw].
  destruct Hw as (b & Hb & Hrep). exists w, m. split; [exact E|]. eapply wp_mono.
  { exact (proj2 (cdbw_close_frees_all always [] _ always_slack empty_memory) w _ _ m Hrep). }
  intros ? m3. apply holds_nil.
Defined.
