(* ===== verification/CdbWide.v ===== *)
(** * Constant databases: what the writer gets wrong

    Two behaviours that the theorems on databases exclude with their hypotheses: more
    records than nodes, and a file that cannot be written. *)

From stdpp Require Import fin_sets.
From S2P Require Import Prelude VectorHash Cdbr Cdbw CdbGraph CdbPrint CdbTable CdbOutput CdbSpec CdbRead CdbStore.

(** ** More records than numbers of a byte *)

(** Records of one byte, the number of the record. *)
Fixpoint put_records (n : nat) (w : cdbw) : M memory cdbw :=
  match n with
  | O => mret w
  | S n => w ← put_records n w; r ← cdbw_put_data always w [Z.of_nat n mod 256]; mret (snd r)
  end.

(** 300 records, and one key for the last. *)
Definition many_records : M world bool :=
  w ← with_mem (cdbw_open always);
  w ← unwrap w;
  w ← with_mem (put_records 300 w);
  r ← with_mem (cdbw_put_key always w (mk_ptr 8 (a_key ++ [0; 0; 0])) 3 299);
  cdbw_output always (λ _ len, len) 10 (snd r) (replicate BUFSIZE 0) [] Stable.

(** The number of the record of the key is cut to a byte: the key leads to record 43. *)
Lemma wide_numbers_truncated :
  match many_records (mk_world (mk_memory ∅ 0) [] 0) with
  | Some (true, wd) =>
      match cdbr_open_mem true 4096 (out_file wd) None with
      | Some (inr c) =>
          Cdbr.entries c = 300 ∧ cdbr_find c (mk_ptr 8 (a_key ++ [0; 0; 0])) 3 = cdbr_get c 43 ∧
          cdbr_get c 43 ≠ cdbr_get c 299
      | _ => False
      end
  | _ => False
  end.
Proof. vm_compute. split; [reflexivity|]. split; [reflexivity|discriminate]. Qed.

(** ** A file that cannot be written *)

(** Without keys or records the result of [write] does not matter. *)
Definition empty_database (write : nat → Z → Z) : M world bool :=
  w ← with_mem (cdbw_open always);
  w ← unwrap w;
  cdbw_output always write 0 w (replicate BUFSIZE 0) [] Stable.

Lemma empty_write_ignored :
  match empty_database (λ _ _, -1) (mk_world (mk_memory ∅ 0) [] 0) with
  | Some (r, wd) => r = true ∧ out_file wd = [] ∧ out_writes wd = 1%nat
  | None => False
  end.
Proof. vm_compute. repeat split. Qed.
