(* ===== verification/BpfInsn.v ===== *)
(** * Filter programs

    The instructions of the BPF machine as [pcap-bpf.h] and [bpfjit/bpf-compat.h] encode them,
    and what they do: the comments of [bpfjit.c] name the effect of every instruction
    ([A <- P[k:4]] and so on). A program that leaves what these comments define (a shift by
    more than 31, a jump out of the program, an instruction that does not exist) has no
    meaning: [None]. *)

From S2P Require Import Prelude.

(** ** The encoding *)

Record bpf_insn := mk_insn { i_code : Z; i_jt : Z; i_jf : Z; i_k : Z }.

Definition BPF_CLASS (c : Z) : Z := Z.land c 0x07.
Definition BPF_LD : Z := 0x00.
Definition BPF_LDX : Z := 0x01.
Definition BPF_ST : Z := 0x02.
Definition BPF_STX : Z := 0x03.
Definition BPF_ALU : Z := 0x04.
Definition BPF_JMP : Z := 0x05.
Definition BPF_RET : Z := 0x06.
Definition BPF_MISC : Z := 0x07.

Definition BPF_SIZE (c : Z) : Z := Z.land c 0x18.
Definition BPF_W : Z := 0x00.
Definition BPF_H : Z := 0x08.
Definition BPF_B : Z := 0x10.

Definition BPF_MODE (c : Z) : Z := Z.land c 0xe0.
Definition BPF_IMM : Z := 0x00.
Definition BPF_ABS : Z := 0x20.
Definition BPF_IND : Z := 0x40.
Definition BPF_MEM : Z := 0x60.
Definition BPF_LEN : Z := 0x80.
Definition BPF_MSH : Z := 0xa0.

Definition BPF_OP (c : Z) : Z := Z.land c 0xf0.
Definition BPF_ADD : Z := 0x00.
Definition BPF_SUB : Z := 0x10.
Definition BPF_MUL : Z := 0x20.
Definition BPF_DIV : Z := 0x30.
Definition BPF_OR : Z := 0x40.
Definition BPF_AND : Z := 0x50.
Definition BPF_LSH : Z := 0x60.
Definition BPF_RSH : Z := 0x70.
Definition BPF_NEG : Z := 0x80.
Definition BPF_MOD : Z := 0x90.
Definition BPF_XOR : Z := 0xa0.
Definition BPF_JA : Z := 0x00.
Definition BPF_JEQ : Z := 0x10.
Definition BPF_JGT : Z := 0x20.
Definition BPF_JGE : Z := 0x30.
Definition BPF_JSET : Z := 0x40.

Definition BPF_SRC (c : Z) : Z := Z.land c 0x08.
Definition BPF_K : Z := 0x00.
Definition BPF_X : Z := 0x08.

Definition BPF_RVAL (c : Z) : Z := Z.land c 0x18.
Definition BPF_A : Z := 0x10.

Definition BPF_MISCOP (c : Z) : Z := Z.land c 0xf8.
Definition BPF_TAX : Z := 0x00.
Definition BPF_TXA : Z := 0x80.
Definition BPF_COP : Z := 0x20.
Definition BPF_COPX : Z := 0x40.

Definition BPF_MEMWORDS : nat := 16.

(** ** The instructions *)

Inductive width := WordW | HalfW | ByteW.
Inductive alu := Add | Sub | Mul | Div | Or | And | Lsh | Rsh | Mod | Xor.
Inductive test := Jeq | Jgt | Jge | Jset.

Inductive bpf_op :=
  | LdAbs (w : width) | LdInd (w : width) | LdLen | LdImm | LdMem
  | LdxImm | LdxLen | LdxMem | LdxMsh
  | St | Stx
  | Alu (a : alu) (x : bool) | Neg
  | Ja | Jcc (t : test) (x : bool)
  | RetK | RetA
  | Tax | Txa | Cop | Copx.

Definition bytes_of (w : width) : nat := match w with WordW => 4 | HalfW => 2 | ByteW => 1 end.
Definition size_of (w : width) : Z := match w with WordW => BPF_W | HalfW => BPF_H | ByteW => BPF_B end.
Definition src_of (x : bool) : Z := if x then BPF_X else BPF_K.
Definition alu_of (a : alu) : Z :=
  match a with
  | Add => BPF_ADD | Sub => BPF_SUB | Mul => BPF_MUL | Div => BPF_DIV | Or => BPF_OR
  | And => BPF_AND | Lsh => BPF_LSH | Rsh => BPF_RSH | Mod => BPF_MOD | Xor => BPF_XOR
  end.
Definition test_of (t : test) : Z :=
  match t with Jeq => BPF_JEQ | Jgt => BPF_JGT | Jge => BPF_JGE | Jset => BPF_JSET end.

Definition encode (o : bpf_op) : Z :=
  match o with
  | LdAbs w => BPF_LD + size_of w + BPF_ABS
  | LdInd w => BPF_LD + size_of w + BPF_IND
  | LdLen => BPF_LD + BPF_W + BPF_LEN
  | LdImm => BPF_LD + BPF_IMM
  | LdMem => BPF_LD + BPF_MEM
  | LdxImm => BPF_LDX + BPF_IMM
  | LdxLen => BPF_LDX + BPF_W + BPF_LEN
  | LdxMem => BPF_LDX + BPF_MEM
  | LdxMsh => BPF_LDX + BPF_B + BPF_MSH
  | St => BPF_ST
  | Stx => BPF_STX
  | Alu a x => BPF_ALU + alu_of a + src_of x
  | Neg => BPF_ALU + BPF_NEG
  | Ja => BPF_JMP + BPF_JA
  | Jcc t x => BPF_JMP + test_of t + src_of x
  | RetK => BPF_RET + BPF_K
  | RetA => BPF_RET + BPF_A
  | Tax => BPF_MISC + BPF_TAX
  | Txa => BPF_MISC + BPF_TXA
  | Cop => BPF_MISC + BPF_COP
  | Copx => BPF_MISC + BPF_COPX
  end.

Definition all_ops : list bpf_op :=
  (w ← [WordW; HalfW; ByteW]; [LdAbs w; LdInd w])
  ++ [LdLen; LdImm; LdMem; LdxImm; LdxLen; LdxMem; LdxMsh; St; Stx]
  ++ (a ← [Add; Sub; Mul; Div; Or; And; Lsh; Rsh; Mod; Xor]; [Alu a false; Alu a true])
  ++ [Neg; Ja]
  ++ (t ← [Jeq; Jgt; Jge; Jset]; [Jcc t false; Jcc t true])
  ++ [RetK; RetA; Tax; Txa; Cop; Copx].

Fixpoint find_op (c : Z) (l : list bpf_op) : option bpf_op :=
  match l with [] => None | o :: l => if encode o =? c then Some o else find_op c l end.

Definition decode (c : Z) : option bpf_op := find_op c all_ops.

Lemma find_op_Some c l o : find_op c l = Some o → c = encode o.
Proof.
  induction l as [|o' l IH]; cbn; [done|]. destruct (Z.eqb_spec (encode o') c) as [E|E]; [by intros [= <-]|done].
Qed.

Lemma decode_Some c o : decode c = Some o → c = encode o.
Proof. apply find_op_Some. Qed.

Lemma decode_encode o : decode (encode o) = Some o.
Proof. destruct o as [[]|[]| | | | | | | | | |[] []| | |[] []| | | | | |]; reflexivity. Qed.

(** ** The coprocessor

    A filter may call functions of its context, which see and change the external memory and
    the world behind them. *)

Abbreviation copfunc W := (Z → list Z → W → Z * list Z * W).

Record bpf_ctx (W : Type) := mk_ctx { copfuncs : option (list (copfunc W)); extwords : nat; preinited : Z }.
Arguments mk_ctx {_} _ _ _.
Arguments copfuncs {_} _.
Arguments extwords {_} _.
Arguments preinited {_} _.

Definition GET_EXTWORDS {W} (bc : option (bpf_ctx W)) : nat := match bc with Some c => extwords c | None => 0 end.
Definition GET_MEMWORDS {W} (bc : option (bpf_ctx W)) : nat :=
  if (GET_EXTWORDS bc =? 0)%nat then BPF_MEMWORDS else GET_EXTWORDS bc.
Definition GET_FUNCS {W} (bc : option (bpf_ctx W)) : option (list (copfunc W)) := bc ≫= copfuncs.

(** ** The machine *)

(** The number that bytes make, the highest first. *)
Definition be_val (l : list Z) : Z := foldl (λ v b, 256 * v + b) 0 l.

Definition alu_eval (a : alu) (x y : Z) : Z :=
  match a with
  | Add => u32 (x + y) | Sub => u32 (x - y) | Mul => u32 (x * y) | Div => x / y
  | Or => Z.lor x y | And => Z.land x y | Lsh => u32 (Z.shiftl x y) | Rsh => Z.shiftr x y
  | Mod => x mod y | Xor => Z.lxor x y
  end.

Definition test_eval (t : test) (x y : Z) : bool :=
  match t with Jeq => x =? y | Jgt => y <? x | Jge => y <=? x | Jset => negb (Z.land x y =? 0) end.

Section Machine.

Context {W : Type} (bc : option (bpf_ctx W)) (insns : list bpf_insn) (pkt : list Z) (wirelen : Z).

Record bstate := mk_bstate { rA : Z; rX : Z; rM : list Z; rW : W }.

Definition set_A (st : bstate) (v : Z) : bstate := mk_bstate v (rX st) (rM st) (rW st).
Definition set_X (st : bstate) (v : Z) : bstate := mk_bstate (rA st) v (rM st) (rW st).
Definition set_M (st : bstate) (m : list Z) : bstate := mk_bstate (rA st) (rX st) m (rW st).

(** What an instruction does next: the next instruction, a jump over some, or the end. *)
Inductive outcome := Next (st : bstate) | Skip (d : Z) (st : bstate) | Ret (v : Z) (st : bstate).

Definition pkt_read (off : Z) (n : nat) : option Z :=
  if Z.of_nat (length pkt) <? off + Z.of_nat n then None
  else Some (be_val (take n (drop (Z.to_nat off) pkt))).

(** A read of the packet ends the program with 0 when the packet is too short. *)
Definition load (st : bstate) (o : option Z) (f : Z → bstate) : outcome :=
  match o with Some v => Next (f v) | None => Ret 0 st end.

(** A call of the coprocessor; the external memory is the memory of the program, when it
    has any. *)
Definition call_cop (st : bstate) (i : Z) : outcome :=
  match GET_FUNCS bc ≫= (.!! Z.to_nat i) with
  | None => Ret 0 st
  | Some f =>
      let '(v, m, w) := f (rA st) (if (GET_EXTWORDS bc =? 0)%nat then [] else rM st) (rW st) in
      Next (mk_bstate v (rX st) (if (GET_EXTWORDS bc =? 0)%nat then rM st else m) w)
  end.

Definition ref_insn (i : bpf_insn) (o : bpf_op) (st : bstate) : option outcome :=
  let k := i_k i in
  match o with
  | LdAbs w => Some (load st (pkt_read k (bytes_of w)) (set_A st))
  | LdInd w => Some (load st (pkt_read (rX st + k) (bytes_of w)) (set_A st))
  | LdLen => Some (Next (set_A st wirelen))
  | LdImm => Some (Next (set_A st k))
  | LdMem => v ← rM st !! Z.to_nat k; Some (Next (set_A st v))
  | LdxImm => Some (Next (set_X st k))
  | LdxLen => Some (Next (set_X st wirelen))
  | LdxMem => v ← rM st !! Z.to_nat k; Some (Next (set_X st v))
  | LdxMsh => Some (load st (pkt_read k 1) (λ b, set_X st (4 * Z.land b 0xf)))
  | St => _ ← rM st !! Z.to_nat k; Some (Next (set_M st (<[Z.to_nat k := rA st]> (rM st))))
  | Stx => _ ← rM st !! Z.to_nat k; Some (Next (set_M st (<[Z.to_nat k := rX st]> (rM st))))
  | Alu a x =>
      let y := if x then rX st else k in
      match a with
      | Div | Mod => Some (if y =? 0 then Ret 0 st else Next (set_A st (alu_eval a (rA st) y)))
      | Lsh | Rsh => if 31 <? y then None else Some (Next (set_A st (alu_eval a (rA st) y)))
      | _ => Some (Next (set_A st (alu_eval a (rA st) y)))
      end
  | Neg => Some (Next (set_A st (u32 (- rA st))))
  | Ja => Some (Skip k st)
  | Jcc t x => Some (Skip (if test_eval t (rA st) (if x then rX st else k) then i_jt i else i_jf i) st)
  | RetK => Some (Ret k st)
  | RetA => Some (Ret (rA st) st)
  | Tax => Some (Next (set_X st (rA st)))
  | Txa => Some (Next (set_A st (rX st)))
  | Cop => Some (call_cop st k)
  | Copx => Some (call_cop st (rX st))
  end.

(** The result of a program: the value, the external memory if there is any, and the world. *)
Definition result_of (v : Z) (st : bstate) : Z * list Z * W :=
  (v, if (GET_EXTWORDS bc =? 0)%nat then [] else rM st, rW st).

Fixpoint ref_run (fuel : nat) (pc : nat) (st : bstate) : option (Z * list Z * W) :=
  match fuel with
  | O => None
  | S fuel =>
      i ← insns !! pc;
      o ← decode (i_code i);
      r ← ref_insn i o st;
      match r with
      | Next st => ref_run fuel (S pc) st
      | Skip d st => ref_run fuel (S pc + Z.to_nat d) st
      | Ret v st => Some (result_of v st)
      end
  end.

End Machine.

Arguments mk_bstate {_} _ _ _ _.
Arguments rA {_} _.
Arguments rX {_} _.
Arguments rM {_} _.
Arguments rW {_} _.
Arguments Next {_} _.
Arguments Skip {_} _ _.
Arguments Ret {_} _ _.
