(* ===== verification/Lir.v ===== *)
(** * The assembler ([npf/sljit/sljitLir.h])

    What [bpfjit.c] uses of the platform independent assembler: its registers, operands and
    instructions, and the machine that its header documents, for 64-bit words. A value is a
    number, a pointer into one of the objects that the generated function can reach, or a
    function. What the header leaves open is open here: the high half of the result of a
    32-bit operation, and the scratch registers after a call. [None] is what it forbids. *)

From S2P Require Import Prelude BpfInsn.

(** ** Instructions *)

Inductive reg :=
  | SLJIT_SCRATCH_REG1 | SLJIT_SCRATCH_REG2 | SLJIT_SCRATCH_REG3
  | SLJIT_TEMPORARY_EREG1 | SLJIT_TEMPORARY_EREG2
  | SLJIT_SAVED_REG1 | SLJIT_SAVED_REG2 | SLJIT_SAVED_REG3
  | SLJIT_LOCALS_REG.

#[global] Instance reg_eq_dec : EqDecision reg.
Proof. solve_decision. Defined.

Definition SLJIT_RETURN_REG : reg := SLJIT_SCRATCH_REG1.

(** Registers that a call may change. *)
Definition scratch (r : reg) : bool :=
  match r with
  | SLJIT_SCRATCH_REG1 | SLJIT_SCRATCH_REG2 | SLJIT_SCRATCH_REG3
  | SLJIT_TEMPORARY_EREG1 | SLJIT_TEMPORARY_EREG2 => true
  | _ => false
  end.

(** The functions that generated code calls. *)
Inductive callee := Fdivide | Fmodulus | Fcop (i : nat).

(** [SLJIT_IMM, w], with [SLJIT_FUNC_OFFSET(f)] apart; [reg, 0]; [SLJIT_MEM1(r), w];
    [SLJIT_MEM2(r1, r2), shift]. *)
Inductive operand :=
  | Imm (w : Z) | Func (f : callee) | Reg (r : reg) | Mem1 (r : reg) (w : Z) | Mem2 (r1 r2 : reg) (shift : Z).

Inductive op1 := SLJIT_MOV | SLJIT_MOV_UB | SLJIT_MOV_UI | SLJIT_MOV_P | SLJIT_NEG.
Inductive op2 := SLJIT_ADD | SLJIT_SUB | SLJIT_MUL | SLJIT_AND | SLJIT_OR | SLJIT_XOR | SLJIT_SHL | SLJIT_LSHR.

(** The unsigned comparisons. *)
Inductive jump_type :=
  | SLJIT_C_EQUAL | SLJIT_C_NOT_EQUAL | SLJIT_C_LESS | SLJIT_C_GREATER_EQUAL | SLJIT_C_GREATER | SLJIT_C_LESS_EQUAL.

(** [int] is [SLJIT_INT_OP]. The target of a jump is not part of it. *)
Inductive lir :=
  | Enter (args scratches saveds local_size : Z)
  | Op1 (op : op1) (dst src : operand)
  | Op2 (op : op2) (int : bool) (dst src1 src2 : operand)
  | Cmp (t : jump_type) (int : bool) (src1 src2 : operand)
  | Jump
  | Call (nargs : Z) (src : operand)
  | Return (src : operand).

(** ** Values and memory *)

Inductive region := RPkt | RArgs | RExt | RCtx | RFuncs | RLocals.

#[global] Instance region_eq_dec : EqDecision region.
Proof. solve_decision. Defined.

Inductive value := Vint (z : Z) | Vptr (r : region) (off : Z) | Vfun (f : callee).

(** The offsets in [struct bpfjit_stack], [bpf_args_t] and [struct bpf_ctx]. *)
Definition stack_ctx : Z := 0.
Definition stack_extmem : Z := 8.
Definition stack_reg : Z := 16.
Definition stack_mem : Z := 20.
Definition stack_size : Z := 88.
Definition args_pkt : Z := 0.
Definition args_wirelen : Z := 8.
Definition args_buflen : Z := 16.
Definition args_mem : Z := 24.
Definition ctx_copfuncs : Z := 0.

(** The stack frame of the function and what it may change outside. *)
Record memory (W : Type) := mk_memory {
  l_ctx : value;
  l_extmem : value;
  l_reg : Z;
  l_mem : list Z;
  ext : list Z;
  world : W;
}.
Arguments mk_memory {_} _ _ _ _ _ _.
Arguments l_ctx {_} _.
Arguments l_extmem {_} _.
Arguments l_reg {_} _.
Arguments l_mem {_} _.
Arguments ext {_} _.
Arguments world {_} _.

Record machine (W : Type) := mk_machine { regs : reg → value; mem : memory W; clock : nat }.
Arguments mk_machine {_} _ _ _.
Arguments regs {_} _ _.
Arguments mem {_} _.
Arguments clock {_} _.

Definition upd_reg (rs : reg → value) (r : reg) (v : value) : reg → value :=
  λ r', if decide (r' = r) then v else rs r'.

(** The index of a word of [size] bytes at an offset from [base], if it is one of [n]. *)
Definition word_index (base size off : Z) (n : nat) : option nat :=
  let i := (off - base) / size in
  if (base <=? off) && ((off - base) mod size =? 0) && (i <? Z.of_nat n) then Some (Z.to_nat i) else None.

Section Exec.

Context {W : Type} (bc : option (bpf_ctx W)) (pkt : list Z) (wirelen : Z).

(** What the processor and the functions that are called leave where the documentation does
    not say. *)
Context (junk : nat → Z) (clobber : nat → callee → reg → value → value).

(** ** Loads and stores *)

Definition load8 (r : region) (off : Z) : option value :=
  match r with
  | RPkt => if off <? 0 then None else b ← pkt !! Z.to_nat off; Some (Vint b)
  | _ => None
  end.

Definition load32 (m : memory W) (r : region) (off : Z) : option value :=
  match r with
  | RLocals =>
      if off =? stack_reg then Some (Vint (l_reg m))
      else i ← word_index stack_mem 4 off (length (l_mem m)); v ← l_mem m !! i; Some (Vint v)
  | RExt => i ← word_index 0 4 off (length (ext m)); v ← ext m !! i; Some (Vint v)
  | _ => None
  end.

Definition load64 (m : memory W) (r : region) (off : Z) : option value :=
  match r with
  | RLocals =>
      if off =? stack_ctx then Some (l_ctx m) else if off =? stack_extmem then Some (l_extmem m) else None
  | RArgs =>
      if off =? args_pkt then Some (Vptr RPkt 0)
      else if off =? args_wirelen then Some (Vint wirelen)
      else if off =? args_buflen then Some (Vint (Z.of_nat (length pkt)))
      else if off =? args_mem then Some (Vptr RExt 0)
      else None
  | RCtx => if off =? ctx_copfuncs then _ ← GET_FUNCS bc; Some (Vptr RFuncs 0) else None
  | RFuncs => fs ← GET_FUNCS bc; i ← word_index 0 8 off (length fs); Some (Vfun (Fcop i))
  | _ => None
  end.

Definition store32 (m : memory W) (r : region) (off v : Z) : option (memory W) :=
  match r with
  | RLocals =>
      if off =? stack_reg then Some (mk_memory (l_ctx m) (l_extmem m) v (l_mem m) (ext m) (world m))
      else
        i ← word_index stack_mem 4 off (length (l_mem m));
        Some (mk_memory (l_ctx m) (l_extmem m) (l_reg m) (<[i := v]> (l_mem m)) (ext m) (world m))
  | RExt =>
      i ← word_index 0 4 off (length (ext m));
      Some (mk_memory (l_ctx m) (l_extmem m) (l_reg m) (l_mem m) (<[i := v]> (ext m)) (world m))
  | _ => None
  end.

Definition store64 (m : memory W) (r : region) (off : Z) (v : value) : option (memory W) :=
  match r with
  | RLocals =>
      if off =? stack_ctx then Some (mk_memory v (l_extmem m) (l_reg m) (l_mem m) (ext m) (world m))
      else if off =? stack_extmem then Some (mk_memory (l_ctx m) v (l_reg m) (l_mem m) (ext m) (world m))
      else None
  | _ => None
  end.

(** ** Operands *)

(** The place that a memory operand names. *)
Definition place (rs : reg → value) (o : operand) : option (region * Z) :=
  match o with
  | Mem1 r w => match rs r with Vptr g off => Some (g, off + w) | _ => None end
  | Mem2 r1 r2 shift =>
      match rs r1, rs r2 with
      | Vptr g off, Vint i => Some (g, off + Z.shiftl i shift)
      | _, _ => None
      end
  | _ => None
  end.

(** A source operand as a word. *)
Definition source (s : machine W) (o : operand) : option value :=
  match o with
  | Imm w => Some (Vint (u64 w))
  | Func f => Some (Vfun f)
  | Reg r => Some (regs s r)
  | _ => p ← place (regs s) o; load64 (mem s) (fst p) (snd p)
  end.

Definition int_of (v : value) : option Z := match v with Vint z => Some z | _ => None end.

(** A number; the number of a 32-bit operation is the low half of a register. *)
Definition source_int (s : machine W) (int : bool) (o : operand) : option Z :=
  v ← source s o; z ← int_of v; Some (if int then u32 z else z).

Definition is_mem (o : operand) : bool := match o with Mem1 _ _ | Mem2 _ _ _ => true | _ => false end.

Definition set_reg (s : machine W) (r : reg) (v : value) : machine W :=
  mk_machine (upd_reg (regs s) r v) (mem s) (S (clock s)).
Definition set_mem (s : machine W) (m : memory W) : machine W := mk_machine (regs s) m (S (clock s)).

(** ** Operations *)

(** The value that a move reads. *)
Definition move_source (s : machine W) (op : op1) (src : operand) : option value :=
  match op with
  | SLJIT_MOV | SLJIT_MOV_P => source s src
  | SLJIT_MOV_UB =>
      if is_mem src then p ← place (regs s) src; load8 (fst p) (snd p)
      else z ← source_int s false src; Some (Vint (u8 z))
  | SLJIT_MOV_UI =>
      if is_mem src then p ← place (regs s) src; load32 (mem s) (fst p) (snd p)
      else z ← source_int s true src; Some (Vint z)
  | SLJIT_NEG => z ← source_int s false src; Some (Vint (u64 (- z)))
  end.

Definition exec_op1 (s : machine W) (op : op1) (dst src : operand) : option (machine W) :=
  v ← move_source s op src;
  match dst with
  | Reg r => Some (set_reg s r v)
  | Mem1 _ _ | Mem2 _ _ _ =>
      p ← place (regs s) dst;
      match op with
      | SLJIT_MOV | SLJIT_MOV_P => m ← store64 (mem s) (fst p) (snd p) v; Some (set_mem s m)
      | SLJIT_MOV_UI => z ← int_of v; m ← store32 (mem s) (fst p) (snd p) z; Some (set_mem s m)
      | _ => None
      end
  | _ => None
  end.

(** The result of an operation on words of [n] bits. *)
Definition op2_eval (op : op2) (imm : bool) (n x y : Z) : option Z :=
  match op with
  | SLJIT_ADD => Some ((x + y) mod 2 ^ n)
  | SLJIT_SUB => Some ((x - y) mod 2 ^ n)
  | SLJIT_MUL => Some ((x * y) mod 2 ^ n)
  | SLJIT_AND => Some (Z.land x y)
  | SLJIT_OR => Some (Z.lor x y)
  | SLJIT_XOR => Some (Z.lxor x y)
  | SLJIT_SHL =>
      let y := if imm then y mod n else y in
      if n <=? y then None else Some (Z.shiftl x y mod 2 ^ n)
  | SLJIT_LSHR =>
      let y := if imm then y mod n else y in
      if n <=? y then None else Some (Z.shiftr x y)
  end.

Definition is_imm (o : operand) : bool := match o with Imm _ => true | _ => false end.

(** The high half of the result of a 32-bit operation is undefined. *)
Definition widen (s : machine W) (int : bool) (z : Z) : value :=
  Vint (if int then z + 2 ^ 32 * (junk (clock s) mod 2 ^ 32) else z).

Definition exec_op2 (s : machine W) (op : op2) (int : bool) (dst src1 src2 : operand) : option (machine W) :=
  match dst with
  | Reg r =>
      x ← source s src1;
      y ← source s src2;
      match x, y with
      | Vptr g off, Vint z =>
          match op, int with SLJIT_ADD, false => Some (set_reg s r (Vptr g (off + z))) | _, _ => None end
      | Vint x, Vint y =>
          z ← op2_eval op (is_imm src2) (if int then 32 else 64) (if int then u32 x else x) (if int then u32 y else y);
          Some (set_reg s r (widen s int z))
      | _, _ => None
      end
  | _ => None
  end.

Definition compare (t : jump_type) (x y : Z) : bool :=
  match t with
  | SLJIT_C_EQUAL => x =? y | SLJIT_C_NOT_EQUAL => negb (x =? y)
  | SLJIT_C_LESS => x <? y | SLJIT_C_GREATER_EQUAL => y <=? x
  | SLJIT_C_GREATER => y <? x | SLJIT_C_LESS_EQUAL => x <=? y
  end.

(** ** Calls *)

(** [divide] and [modulus] take the low halves of their arguments; a function of the
    coprocessor is given the context, the arguments and a 32-bit number. *)
Definition call_function (s : machine W) (f : callee) : option (value * memory W) :=
  match f with
  | Fdivide | Fmodulus =>
      x ← int_of (regs s SLJIT_SCRATCH_REG1);
      y ← int_of (regs s SLJIT_SCRATCH_REG2);
      if u32 y =? 0 then None
      else Some (Vint (match f with Fdivide => u32 x / u32 y | _ => u32 x mod u32 y end), mem s)
  | Fcop i =>
      match regs s SLJIT_SCRATCH_REG1, regs s SLJIT_SCRATCH_REG2, regs s SLJIT_SCRATCH_REG3 with
      | Vptr RCtx 0, Vptr RArgs 0, Vint a =>
          fs ← GET_FUNCS bc;
          f ← fs !! i;
          let m := mem s in
          let '(v, e, w) := f (u32 a) (if (GET_EXTWORDS bc =? 0)%nat then [] else ext m) (world m) in
          Some (widen s true v,
                mk_memory (l_ctx m) (l_extmem m) (l_reg m) (l_mem m)
                  (if (GET_EXTWORDS bc =? 0)%nat then ext m else e) w)
      | _, _, _ => None
      end
  end.

Definition exec_call (s : machine W) (src : operand) : option (machine W) :=
  v ← source s src;
  match v with
  | Vfun f =>
      r ← call_function s f;
      let '(v, m) := r in
      let rs := λ q, if scratch q then clobber (clock s) f q (regs s q) else regs s q in
      Some (mk_machine (upd_reg rs SLJIT_RETURN_REG v) m (S (clock s)))
  | _ => None
  end.

(** ** Programs *)

(** The arguments of the function go to the saved registers; the other registers and the
    stack frame hold anything. *)
Definition exec_enter (s : machine W) : machine W :=
  mk_machine
    (upd_reg (upd_reg (upd_reg (regs s) SLJIT_SAVED_REG1 (match bc with Some _ => Vptr RCtx 0 | None => Vint 0 end))
       SLJIT_SAVED_REG2 (Vptr RArgs 0)) SLJIT_LOCALS_REG (Vptr RLocals 0))
    (mem s) (S (clock s)).

(** Running from an instruction on; the result is what [ref_run] gives. *)
Fixpoint lir_run (fuel : nat) (code : list lir) (targets : gmap nat nat) (pc : nat) (s : machine W)
    : option (Z * list Z * W) :=
  match fuel with
  | O => None
  | S fuel =>
      i ← code !! pc;
      match i with
      | Enter _ _ _ _ => lir_run fuel code targets (S pc) (exec_enter s)
      | Op1 op dst src => s ← exec_op1 s op dst src; lir_run fuel code targets (S pc) s
      | Op2 op int dst src1 src2 => s ← exec_op2 s op int dst src1 src2; lir_run fuel code targets (S pc) s
      | Cmp t int src1 src2 =>
          x ← source_int s int src1;
          y ← source_int s int src2;
          if compare t x y then pc' ← targets !! pc; lir_run fuel code targets pc' s
          else lir_run fuel code targets (S pc) s
      | Jump => pc' ← targets !! pc; lir_run fuel code targets pc' s
      | Call _ src => s ← exec_call s src; lir_run fuel code targets (S pc) s
      | Return src =>
          z ← source_int s true src;
          Some (z, if (GET_EXTWORDS bc =? 0)%nat then [] else ext (mem s), world (mem s))
      end
  end.

End Exec.
