(* ===== verification/BpfOpt.v ===== *)
(** * The optimizer of filter programs ([npf/bpfjit/bpfjit.c]: [optimize])

    Three passes over a program: which instructions are reachable, which words may be read
    before they are written and which registers are used; how long a packet must be for the
    program to do anything but return 0, from the end backwards; and which checks of that
    length remain to be done, forwards. *)

From S2P Require Import Prelude BpfInsn.

(** ** Data *)

Definition UINT32_MAX : Z := 2 ^ 32 - 1.
Definition MAX_ABC_LENGTH : Z := UINT32_MAX + 4.
Definition MAX_MEMWORDS : nat := BPF_MEMWORDS.

Definition not32 (z : Z) : Z := u32 (Z.lnot z).

Definition BJ_INIT_NOBITS : Z := 0.
Definition BJ_INIT_MBIT (k : Z) : Z := Z.shiftl 1 k.
Definition BJ_INIT_ABIT : Z := BJ_INIT_MBIT (Z.of_nat MAX_MEMWORDS).
Definition BJ_INIT_XBIT : Z := BJ_INIT_MBIT (Z.of_nat MAX_MEMWORDS + 1).

Definition BJ_HINT_ABS : Z := 0x01.
Definition BJ_HINT_IND : Z := 0x02.
Definition BJ_HINT_MSH : Z := 0x04.
Definition BJ_HINT_COP : Z := 0x08.
Definition BJ_HINT_COPX : Z := 0x10.
Definition BJ_HINT_XREG : Z := 0x20.
Definition BJ_HINT_LDX : Z := 0x40.

Definition has_hint (hints h : Z) : bool := negb (Z.land hints h =? 0).

(** [struct bpfjit_insn_data]. A jump to an instruction is named by its source and by 0 or 1
    for its two branches; the two parts of the union are for different instructions and are
    kept apart; [sjump] holds what [generate_insn_code] notes for each branch. *)
Record insn_data := mk_data {
  bjumps : list (nat * bool);
  j_abc_length : Z;
  j_checked_length : Z;
  sjump : bool → option nat;
  r_abc_length : Z;
  r_check_length : Z;
  invalid : Z;
  unreachable : bool;
}.

Definition set_bjumps (d : insn_data) (l : list (nat * bool)) : insn_data :=
  mk_data l (j_abc_length d) (j_checked_length d) (sjump d) (r_abc_length d) (r_check_length d) (invalid d) (unreachable d).
Definition set_j_abc (d : insn_data) (n : Z) : insn_data :=
  mk_data (bjumps d) n (j_checked_length d) (sjump d) (r_abc_length d) (r_check_length d) (invalid d) (unreachable d).
Definition set_j_checked (d : insn_data) (n : Z) : insn_data :=
  mk_data (bjumps d) (j_abc_length d) n (sjump d) (r_abc_length d) (r_check_length d) (invalid d) (unreachable d).
Definition set_sjump (d : insn_data) (f : bool → option nat) : insn_data :=
  mk_data (bjumps d) (j_abc_length d) (j_checked_length d) f (r_abc_length d) (r_check_length d) (invalid d) (unreachable d).
Definition set_r_abc (d : insn_data) (n : Z) : insn_data :=
  mk_data (bjumps d) (j_abc_length d) (j_checked_length d) (sjump d) n (r_check_length d) (invalid d) (unreachable d).
Definition set_r_check (d : insn_data) (n : Z) : insn_data :=
  mk_data (bjumps d) (j_abc_length d) (j_checked_length d) (sjump d) (r_abc_length d) n (invalid d) (unreachable d).
Definition set_invalid (d : insn_data) (n : Z) : insn_data :=
  mk_data (bjumps d) (j_abc_length d) (j_checked_length d) (sjump d) (r_abc_length d) (r_check_length d) n (unreachable d).
Definition set_unreachable (d : insn_data) (b : bool) : insn_data :=
  mk_data (bjumps d) (j_abc_length d) (j_checked_length d) (sjump d) (r_abc_length d) (r_check_length d) (invalid d) b.

(** ** Reads of the packet *)

Definition read_width (pc : bpf_insn) : Z :=
  let s := BPF_SIZE (i_code pc) in
  if s =? BPF_W then 4 else if s =? BPF_H then 2 else if s =? BPF_B then 1 else 0.

(** The length of the packet that an instruction needs, if it reads from the packet. *)
Definition read_pkt_insn (pc : bpf_insn) : option Z :=
  let c := i_code pc in
  if BPF_CLASS c =? BPF_LD then
    if ((BPF_MODE c =? BPF_ABS) || (BPF_MODE c =? BPF_IND)) && negb (read_width pc =? 0)
    then Some (i_k pc + read_width pc) else None
  else if BPF_CLASS c =? BPF_LDX then
    if (BPF_MODE c =? BPF_MSH) && (BPF_SIZE c =? BPF_B) then Some (i_k pc + 1) else None
  else None.

Definition optimize_init (dat : list insn_data) : list insn_data :=
  (λ d, set_invalid (set_bjumps d []) BJ_INIT_NOBITS) <$> dat.

(** ** The first pass *)

Record pass1 := mk_pass1 {
  p_dat : list insn_data;
  p_unreachable : bool;
  p_invalid : Z;
  p_initmask : Z;
  p_hints : Z;
}.

Definition p_set_dat (s : pass1) (dat : list insn_data) : pass1 :=
  mk_pass1 dat (p_unreachable s) (p_invalid s) (p_initmask s) (p_hints s).
Definition p_set_unreachable (s : pass1) (b : bool) : pass1 :=
  mk_pass1 (p_dat s) b (p_invalid s) (p_initmask s) (p_hints s).
Definition p_set_invalid (s : pass1) (z : Z) : pass1 :=
  mk_pass1 (p_dat s) (p_unreachable s) z (p_initmask s) (p_hints s).

(** [*initmask |= invalid & bit], [invalid &= ~bit] and [*hints |= h]. *)
Definition use_bit (bit : Z) (s : pass1) : pass1 :=
  mk_pass1 (p_dat s) (p_unreachable s) (p_invalid s) (Z.lor (p_initmask s) (Z.land (p_invalid s) bit)) (p_hints s).
Definition define_bit (bit : Z) (s : pass1) : pass1 := p_set_invalid s (Z.land (p_invalid s) (not32 bit)).
Definition add_hint (h : Z) (s : pass1) : pass1 :=
  mk_pass1 (p_dat s) (p_unreachable s) (p_invalid s) (p_initmask s) (Z.lor (p_hints s) h).

Definition when {A} (b : bool) (f : A → A) (a : A) : A := if b then f a else a.

Section Optimize.

Context {W : Type} (bc : option (bpf_ctx W)) (insns : list bpf_insn).

Definition insn_count : nat := length insns.

(** The branches of a jump, as numbers of instructions to skip. *)
Definition jump_offsets (pc : bpf_insn) : Z * Z :=
  if BPF_OP (i_code pc) =? BPF_JA then (i_k pc, i_k pc) else (i_jt pc, i_jf pc).

(** [jt += i + 1], as a [uint32_t]. *)
Definition jump_target (i : nat) (off : Z) : nat := Z.to_nat (u32 (off + (Z.of_nat i + 1))).

Definition mem_bit (pc : bpf_insn) (f : Z → pass1 → pass1) (s : pass1) : pass1 :=
  when (i_k pc <? Z.of_nat (GET_MEMWORDS bc)) (f (BJ_INIT_MBIT (i_k pc))) s.

Definition pass1_ret (pc : bpf_insn) (s : pass1) : pass1 :=
  p_set_unreachable (when (BPF_RVAL (i_code pc) =? BPF_A) (use_bit BJ_INIT_ABIT) s) true.

Definition pass1_ld (pc : bpf_insn) (s : pass1) : pass1 :=
  let mode := BPF_MODE (i_code pc) in
  let s := when (mode =? BPF_ABS) (add_hint BJ_HINT_ABS) s in
  let s := when (mode =? BPF_IND) (λ s, use_bit BJ_INIT_XBIT (add_hint (Z.lor BJ_HINT_IND BJ_HINT_XREG) s)) s in
  let s := when (mode =? BPF_MEM) (mem_bit pc use_bit) s in
  define_bit BJ_INIT_ABIT s.

Definition pass1_ldx (pc : bpf_insn) (s : pass1) : pass1 :=
  let mode := BPF_MODE (i_code pc) in
  let s := add_hint (Z.lor BJ_HINT_XREG BJ_HINT_LDX) s in
  let s := when (mode =? BPF_MEM) (mem_bit pc use_bit) s in
  let s := when ((mode =? BPF_MSH) && (BPF_SIZE (i_code pc) =? BPF_B)) (add_hint BJ_HINT_MSH) s in
  define_bit BJ_INIT_XBIT s.

Definition pass1_st (pc : bpf_insn) (s : pass1) : pass1 := mem_bit pc define_bit (use_bit BJ_INIT_ABIT s).

Definition pass1_stx (pc : bpf_insn) (s : pass1) : pass1 :=
  mem_bit pc define_bit (use_bit BJ_INIT_XBIT (add_hint BJ_HINT_XREG s)).

Definition pass1_alu (pc : bpf_insn) (s : pass1) : pass1 :=
  let s := use_bit BJ_INIT_ABIT s in
  let s := when (negb (i_code pc =? BPF_ALU + BPF_NEG) && (BPF_SRC (i_code pc) =? BPF_X))
             (λ s, use_bit BJ_INIT_XBIT (add_hint BJ_HINT_XREG s)) s in
  define_bit BJ_INIT_ABIT s.

Definition pass1_misc (pc : bpf_insn) (s : pass1) : pass1 :=
  let op := BPF_MISCOP (i_code pc) in
  if op =? BPF_TAX then define_bit BJ_INIT_XBIT (use_bit BJ_INIT_ABIT (add_hint BJ_HINT_XREG s))
  else if op =? BPF_TXA then define_bit BJ_INIT_ABIT (use_bit BJ_INIT_XBIT (add_hint BJ_HINT_XREG s))
  else if (op =? BPF_COPX) || (op =? BPF_COP) then
    let s := when (op =? BPF_COPX) (add_hint (Z.lor BJ_HINT_XREG BJ_HINT_COPX)) s in
    define_bit BJ_INIT_ABIT (use_bit BJ_INIT_ABIT (add_hint BJ_HINT_COP s))
  else s.

(** Noting a branch at its target, and what is not initialised there. *)
Definition add_bjump (i : nat) (b : bool) (t : nat) (dat : list insn_data) : list insn_data :=
  alter (λ d, set_bjumps d ((i, b) :: bjumps d)) t dat.
Definition add_invalid (z : Z) (t : nat) (dat : list insn_data) : list insn_data :=
  alter (λ d, set_invalid d (Z.lor (invalid d) z)) t dat.

(** [None] is [return false]. *)
Definition pass1_jmp (i : nat) (pc : bpf_insn) (s : pass1) : option pass1 :=
  let s := p_set_dat s (alter (λ d, set_j_abc d MAX_ABC_LENGTH) i (p_dat s)) in
  let s := use_bit BJ_INIT_ABIT s in
  let s := when (BPF_SRC (i_code pc) =? BPF_X) (λ s, use_bit BJ_INIT_XBIT (add_hint BJ_HINT_XREG s)) s in
  let '(jt, jf) := jump_offsets pc in
  let rest := Z.of_nat insn_count - (Z.of_nat i + 1) in
  if (rest <=? jt) || (rest <=? jf) then None
  else
    let s := when ((0 <? jt) && (0 <? jf)) (λ s, p_set_unreachable s true) s in
    let t := jump_target i jt in
    let f := jump_target i jf in
    let dat := add_bjump i false t (p_dat s) in
    let dat := when (negb (f =? t)%nat) (add_bjump i true f) dat in
    let dat := add_invalid (p_invalid s) f dat in
    let dat := add_invalid (p_invalid s) t dat in
    Some (p_set_invalid (p_set_dat s dat) 0).

Definition pass1_class (i : nat) (pc : bpf_insn) (s : pass1) : option pass1 :=
  let c := BPF_CLASS (i_code pc) in
  if c =? BPF_RET then Some (pass1_ret pc s)
  else if c =? BPF_LD then Some (pass1_ld pc s)
  else if c =? BPF_LDX then Some (pass1_ldx pc s)
  else if c =? BPF_ST then Some (pass1_st pc s)
  else if c =? BPF_STX then Some (pass1_stx pc s)
  else if c =? BPF_ALU then Some (pass1_alu pc s)
  else if c =? BPF_MISC then Some (pass1_misc pc s)
  else pass1_jmp i pc s.

Definition too_long (pc : bpf_insn) : bool :=
  match read_pkt_insn pc with Some length => UINT32_MAX <? length | None => false end.

Definition pass1_insn (i : nat) (pc : bpf_insn) (s : pass1) : option pass1 :=
  match p_dat s !! i with
  | None => None
  | Some d =>
      let u := match bjumps d with [] => p_unreachable s | _ => false end in
      let s := p_set_unreachable (p_set_dat s (<[i := set_unreachable d u]> (p_dat s))) u in
      if u then Some s
      else
        let s := p_set_invalid s (Z.lor (p_invalid s) (invalid d)) in
        pass1_class i pc (when (too_long pc) (λ s, p_set_unreachable s true) s)
  end.

(** The instructions from number [i] on. *)
Fixpoint pass1_loop (i : nat) (l : list bpf_insn) (s : pass1) : option pass1 :=
  match l with
  | [] => Some s
  | pc :: l => s ← pass1_insn i pc s; pass1_loop (S i) l s
  end.

Definition optimize_pass1 (dat : list insn_data) : option pass1 :=
  pass1_loop 0 insns (mk_pass1 dat false (not32 BJ_INIT_NOBITS) BJ_INIT_NOBITS 0).

(** ** The second pass *)

(** The length before an instruction, from the length behind it. *)
Definition pass2_length (pc : bpf_insn) (d : insn_data) (abc : Z) : Z :=
  let c := BPF_CLASS (i_code pc) in
  if c =? BPF_RET then
    if (BPF_RVAL (i_code pc) =? BPF_K) && (i_k pc =? 0) then MAX_ABC_LENGTH else 0
  else if c =? BPF_MISC then
    if (BPF_MISCOP (i_code pc) =? BPF_COP) || (BPF_MISCOP (i_code pc) =? BPF_COPX) then 0 else abc
  else if (c =? BPF_ST) || (c =? BPF_STX) then
    if negb (GET_EXTWORDS bc =? 0)%nat then 0 else abc
  else if c =? BPF_JMP then j_abc_length d
  else match read_pkt_insn pc with Some length => Z.max abc length | None => abc end.

(** The source of a jump learns the length at its target. *)
Definition lower_abc (abc : Z) (dat : list insn_data) (j : nat * bool) : list insn_data :=
  alter (λ d, if abc <? j_abc_length d then set_j_abc d abc else d) (fst j) dat.

Definition pass2_insn (i : nat) (pc : bpf_insn) (s : list insn_data * Z) : option (list insn_data * Z) :=
  let '(dat, abc) := s in
  match dat !! i with
  | None => None
  | Some d =>
      if unreachable d then Some (dat, abc)
      else
        let abc := pass2_length pc d abc in
        let dat := match read_pkt_insn pc with Some _ => <[i := set_r_abc d abc]> dat | None => dat end in
        Some (foldl (lower_abc abc) dat (bjumps d), abc)
  end.

(** From the last of the instructions back to the first, which has number [i]. *)
Fixpoint pass2_loop (i : nat) (l : list bpf_insn) (s : list insn_data * Z) : option (list insn_data * Z) :=
  match l with
  | [] => Some s
  | pc :: l => s ← pass2_loop (S i) l s; pass2_insn i pc s
  end.

Definition optimize_pass2 (dat : list insn_data) : option (list insn_data) :=
  fst <$> pass2_loop 0 insns (dat, 0).

(** ** The third pass *)

Definition lower_checked (dat : list insn_data) (c : Z) (j : nat * bool) : Z :=
  match dat !! fst j with
  | Some d => if j_checked_length d <? c then j_checked_length d else c
  | None => c
  end.

Definition pass3_insn (i : nat) (pc : bpf_insn) (s : list insn_data * Z) : option (list insn_data * Z) :=
  let '(dat, checked) := s in
  match dat !! i with
  | None => None
  | Some d =>
      if unreachable d then Some (dat, checked)
      else
        let checked := foldl (lower_checked dat) checked (bjumps d) in
        if BPF_CLASS (i_code pc) =? BPF_JMP then Some (<[i := set_j_checked d checked]> dat, checked)
        else match read_pkt_insn pc with
             | Some _ =>
                 if checked <? r_abc_length d
                 then Some (<[i := set_r_check d (r_abc_length d)]> dat, r_abc_length d)
                 else Some (<[i := set_r_check d 0]> dat, checked)
             | None => Some (dat, checked)
             end
  end.

Fixpoint pass3_loop (i : nat) (l : list bpf_insn) (s : list insn_data * Z) : option (list insn_data * Z) :=
  match l with
  | [] => Some s
  | pc :: l => s ← pass3_insn i pc s; pass3_loop (S i) l s
  end.

Definition optimize_pass3 (dat : list insn_data) : option (list insn_data) :=
  fst <$> pass3_loop 0 insns (dat, 0).

(** The data of the instructions, [initmask] and [hints]; [None] is [false]. *)
Definition optimize (dat : list insn_data) : option (list insn_data * Z * Z) :=
  s ← optimize_pass1 (optimize_init dat);
  dat ← optimize_pass2 (p_dat s);
  dat ← optimize_pass3 dat;
  Some (dat, p_initmask s, p_hints s).

End Optimize.
