(* ===== verification/BpfJit.v ===== *)
(** * The compiler of filter programs ([npf/bpfjit/bpfjit.c])

    Every instruction of a program is translated to some instructions of the assembler, with
    jumps whose targets are set when they are reached. Code for the kernel is left out, and
    so is [SLJIT_UDIV], which the build does not choose. *)

From S2P Require Import Prelude BpfInsn Lir BpfOpt.

(** ** The state of the compiler *)

(** The code so far, the targets of its jumps, the number of calls that may fail, the data
    of the instructions, and the jumps to the end that returns 0 with the size of their
    array. *)
Record jit := mk_jit {
  c_code : list lir;
  c_targets : gmap nat nat;
  c_calls : nat;
  insn_dat : list insn_data;
  ret0 : list nat;
  ret0_maxsize : Z;
}.

(** [None] is a failed assertion; [Some (None, _)] is [goto fail]. *)
Definition G (A : Type) : Type := jit → option (option A * jit).

#[global] Instance G_ret : MRet G := λ A a s, Some (Some a, s).
#[global] Instance G_bind : MBind G := λ A B f m s,
  match m s with
  | Some (Some a, s) => f a s
  | Some (None, s) => Some (None, s)
  | None => None
  end.

Definition fail {A} : G A := λ s, Some (None, s).
Definition get {A} (f : jit → A) : G A := λ s, Some (Some (f s), s).
Definition BJ_ASSERT (b : bool) : G unit := λ s, if b then Some (Some tt, s) else None.

(** ** Registers *)

Definition BJ_CTX_ARG : reg := SLJIT_SAVED_REG1.
Definition BJ_ARGS : reg := SLJIT_SAVED_REG2.
Definition BJ_BUF : reg := SLJIT_SAVED_REG1.
Definition BJ_BUFLEN : reg := SLJIT_SAVED_REG3.
Definition BJ_AREG : reg := SLJIT_SCRATCH_REG1.
Definition BJ_TMP1REG : reg := SLJIT_SCRATCH_REG2.
Definition BJ_TMP2REG : reg := SLJIT_SCRATCH_REG3.
Definition BJ_XREG : reg := SLJIT_TEMPORARY_EREG1.
Definition BJ_TMP3REG : reg := SLJIT_TEMPORARY_EREG2.

Definition nscratches (hints : Z) : Z :=
  let rv := 2 in
  let rv := if has_hint hints BJ_HINT_IND then 3 else rv in
  let rv := if has_hint hints BJ_HINT_COP then 3 else rv in
  let rv := if has_hint hints BJ_HINT_XREG then 4 else rv in
  if has_hint hints BJ_HINT_COPX then 5 else rv.

Definition nsaveds : Z := 3.

Section Jit.

Context {W : Type} (bc : option (bpf_ctx W)).

(** Whether each call that takes memory succeeds. *)
Context (ok : nat → bool).

(** ** The assembler and memory *)

Definition request : G unit := λ s,
  let s' := mk_jit (c_code s) (c_targets s) (S (c_calls s)) (insn_dat s) (ret0 s) (ret0_maxsize s) in
  if ok (c_calls s) then Some (Some tt, s') else Some (None, s').

Definition put (i : lir) : G unit := λ s,
  Some (Some tt, mk_jit (c_code s ++ [i]) (c_targets s) (c_calls s) (insn_dat s) (ret0 s) (ret0_maxsize s)).

(** The number of the instruction stands for the jump. *)
Definition emit (i : lir) : G nat := request;; n ← get (λ s, length (c_code s)); put i;; mret n.

Definition sljit_emit_enter (args scratches saveds local_size : Z) : G unit :=
  emit (Enter args scratches saveds local_size);; mret tt.
Definition sljit_emit_op1 (op : op1) (dst src : operand) : G unit := emit (Op1 op dst src);; mret tt.
Definition sljit_emit_op2 (op : op2) (int : bool) (dst src1 src2 : operand) : G unit :=
  emit (Op2 op int dst src1 src2);; mret tt.
Definition sljit_emit_cmp (t : jump_type) (int : bool) (src1 src2 : operand) : G nat := emit (Cmp t int src1 src2).
Definition sljit_emit_jump : G nat := emit Jump.
Definition sljit_emit_ijump (nargs : Z) (src : operand) : G unit := emit (Call nargs src);; mret tt.
Definition sljit_emit_return (src : operand) : G unit := emit (Return src);; mret tt.

(** The place of a label is the next instruction. *)
Definition sljit_emit_label : G nat := request;; get (λ s, length (c_code s)).
Definition sljit_set_label (jump label : nat) : G unit := λ s,
  Some (Some tt, mk_jit (c_code s) (<[jump := label]> (c_targets s)) (c_calls s) (insn_dat s) (ret0 s) (ret0_maxsize s)).

Definition set_dat (dat : list insn_data) : G unit := λ s,
  Some (Some tt, mk_jit (c_code s) (c_targets s) (c_calls s) dat (ret0 s) (ret0_maxsize s)).
Definition set_ret0 (l : list nat) (n : Z) : G unit := λ s,
  Some (Some tt, mk_jit (c_code s) (c_targets s) (c_calls s) (insn_dat s) l n).

Definition grow_jumps : G unit :=
  old_size ← get ret0_maxsize;
  let new_size := u64 (2 * old_size) in
  if (new_size <? old_size) || ((2 ^ 64 - 1) / 8 <? new_size) then fail
  else request;; l ← get ret0; set_ret0 l new_size.

Definition append_jump (jump : nat) : G unit :=
  size ← get (λ s, Z.of_nat (length (ret0 s)));
  max_size ← get ret0_maxsize;
  (if size =? max_size then grow_jumps else mret tt);;
  l ← get ret0;
  m ← get ret0_maxsize;
  set_ret0 (l ++ [jump]) m.

(** ** Loads and stores *)

Definition load_buf_buflen : G unit :=
  sljit_emit_op1 SLJIT_MOV_P (Reg BJ_BUF) (Mem1 BJ_ARGS args_pkt);;
  sljit_emit_op1 SLJIT_MOV (Reg BJ_BUFLEN) (Mem1 BJ_ARGS args_buflen).

Definition emit_read8 (src : reg) (k : Z) : G unit := sljit_emit_op1 SLJIT_MOV_UB (Reg BJ_AREG) (Mem1 src k).

(** [tmp1 = buf[k]; A = A << 8; A = A + tmp1]. *)
Definition emit_next_byte (src : reg) (k : Z) : G unit :=
  sljit_emit_op1 SLJIT_MOV_UB (Reg BJ_TMP1REG) (Mem1 src k);;
  sljit_emit_op2 SLJIT_SHL false (Reg BJ_AREG) (Reg BJ_AREG) (Imm 8);;
  sljit_emit_op2 SLJIT_ADD false (Reg BJ_AREG) (Reg BJ_AREG) (Reg BJ_TMP1REG).

Definition emit_read16 (src : reg) (k : Z) : G unit :=
  BJ_ASSERT (k <=? UINT32_MAX - 1);;
  sljit_emit_op1 SLJIT_MOV_UB (Reg BJ_AREG) (Mem1 src k);;
  emit_next_byte src (k + 1).

Definition emit_read32 (src : reg) (k : Z) : G unit :=
  BJ_ASSERT (k <=? UINT32_MAX - 3);;
  sljit_emit_op1 SLJIT_MOV_UB (Reg BJ_AREG) (Mem1 src k);;
  emit_next_byte src (k + 1);;
  emit_next_byte src (k + 2);;
  emit_next_byte src (k + 3).

(** The part of a packet read that computes the address of a variable offset. *)
Definition emit_ind (k width : Z) : G unit :=
  sljit_emit_op2 SLJIT_SUB false (Reg BJ_TMP1REG) (Reg BJ_BUFLEN) (Imm (u32 (k + width)));;
  sljit_emit_op2 SLJIT_ADD false (Reg BJ_TMP2REG) (Reg BJ_BUF) (Reg BJ_XREG);;
  jump ← sljit_emit_cmp SLJIT_C_LESS false (Reg BJ_TMP1REG) (Reg BJ_XREG);
  append_jump jump.

Definition emit_pkt_read (pc : bpf_insn) : G unit :=
  let k := i_k pc in
  let width := read_width pc in
  if width =? 0 then fail
  else
    let ind := BPF_MODE (i_code pc) =? BPF_IND in
    let ld_reg := if ind then BJ_TMP2REG else BJ_BUF in
    (if ind then emit_ind k width else mret tt);;
    if k <=? UINT32_MAX - width + 1 then
      if width =? 4 then emit_read32 ld_reg k
      else if width =? 2 then emit_read16 ld_reg k
      else emit_read8 ld_reg k
    else mret tt.

(** The operand of a memory word: in the stack frame, or behind the pointer that is kept
    there. *)
Definition mem_operand (k : Z) (extwords : nat) : G operand :=
  let w := u64 (k * 4) in
  if (extwords =? 0)%nat then mret (Mem1 SLJIT_LOCALS_REG (w + stack_mem))
  else
    sljit_emit_op1 SLJIT_MOV_P (Reg BJ_TMP1REG) (Mem1 SLJIT_LOCALS_REG stack_extmem);;
    mret (Mem1 BJ_TMP1REG w).

Definition emit_memload (dst : reg) (k : Z) (extwords : nat) : G unit :=
  src ← mem_operand k extwords; sljit_emit_op1 SLJIT_MOV_UI (Reg dst) src.

Definition emit_memstore (src : reg) (k : Z) (extwords : nat) : G unit :=
  dst ← mem_operand k extwords; sljit_emit_op1 SLJIT_MOV_UI dst (Reg src).

Definition emit_msh (pc : bpf_insn) : G unit :=
  sljit_emit_op1 SLJIT_MOV_UB (Reg BJ_TMP1REG) (Mem1 BJ_BUF (i_k pc));;
  sljit_emit_op2 SLJIT_AND false (Reg BJ_TMP1REG) (Reg BJ_TMP1REG) (Imm 0xf);;
  sljit_emit_op2 SLJIT_SHL false (Reg BJ_XREG) (Reg BJ_TMP1REG) (Imm 2).

(** ** The coprocessor *)

Definition emit_cop_target (pc : bpf_insn) : G operand :=
  if BPF_MISCOP (i_code pc) =? BPF_COP then mret (Func (Fcop (Z.to_nat (i_k pc))))
  else
    jump ← sljit_emit_cmp SLJIT_C_GREATER_EQUAL false (Reg BJ_XREG)
             (Imm (Z.of_nat (length (default [] (GET_FUNCS bc)))));
    append_jump jump;;
    sljit_emit_op1 SLJIT_MOV_P (Reg BJ_TMP1REG) (Mem1 SLJIT_LOCALS_REG stack_ctx);;
    sljit_emit_op1 SLJIT_MOV_P (Reg BJ_TMP1REG) (Mem1 BJ_TMP1REG ctx_copfuncs);;
    sljit_emit_op1 SLJIT_MOV (Reg BJ_TMP2REG) (Reg BJ_XREG);;
    sljit_emit_op1 SLJIT_MOV_P (Reg BJ_TMP3REG) (Mem2 BJ_TMP1REG BJ_TMP2REG 3);;
    mret (Reg BJ_TMP3REG).

Definition emit_cop (hints : Z) (pc : bpf_insn) : G unit :=
  BJ_ASSERT (match GET_FUNCS bc with Some _ => true | None => false end);;
  (if has_hint hints BJ_HINT_LDX
   then sljit_emit_op1 SLJIT_MOV_UI (Mem1 SLJIT_LOCALS_REG stack_reg) (Reg BJ_XREG) else mret tt);;
  target ← emit_cop_target pc;
  sljit_emit_op1 SLJIT_MOV_UI (Reg SLJIT_SCRATCH_REG3) (Reg BJ_AREG);;
  sljit_emit_op1 SLJIT_MOV_P (Reg SLJIT_SCRATCH_REG1) (Mem1 SLJIT_LOCALS_REG stack_ctx);;
  sljit_emit_op1 SLJIT_MOV_P (Reg SLJIT_SCRATCH_REG2) (Reg BJ_ARGS);;
  sljit_emit_ijump 3 target;;
  if has_hint hints BJ_HINT_LDX
  then sljit_emit_op1 SLJIT_MOV_UI (Reg BJ_XREG) (Mem1 SLJIT_LOCALS_REG stack_reg) else mret tt.

(** ** Arithmetic *)

Definition bpf_alu_to_sljit_op (pc : bpf_insn) : option (op2 * bool) :=
  let op := BPF_OP (i_code pc) in
  if op =? BPF_ADD then Some (SLJIT_ADD, false)
  else if op =? BPF_SUB then Some (SLJIT_SUB, false)
  else if op =? BPF_MUL then Some (SLJIT_MUL, true)
  else if op =? BPF_OR then Some (SLJIT_OR, false)
  else if op =? BPF_XOR then Some (SLJIT_XOR, false)
  else if op =? BPF_AND then Some (SLJIT_AND, false)
  else if op =? BPF_LSH then if 31 <? i_k pc then None else Some (SLJIT_SHL, false)
  else if op =? BPF_RSH then if 31 <? i_k pc then None else Some (SLJIT_LSHR, true)
  else None.

(** [kx_to_reg] with [kx_to_reg_arg]. *)
Definition kx_to_reg (pc : bpf_insn) : operand :=
  if BPF_SRC (i_code pc) =? BPF_K then Imm (i_k pc) else Reg BJ_XREG.

(** The loop that counts the shifts of a power of two. *)
Fixpoint log2_loop (fuel : nat) (k shift : Z) : Z :=
  match fuel with
  | O => shift
  | S fuel => if 1 <? k then log2_loop fuel (Z.shiftr k 1) (shift + 1) else shift
  end.

Definition emit_pow2_moddiv (pc : bpf_insn) : G unit :=
  let k := i_k pc in
  BJ_ASSERT (negb (k =? 0) && (Z.land k (k - 1) =? 0));;
  if BPF_OP (i_code pc) =? BPF_MOD
  then sljit_emit_op2 SLJIT_AND false (Reg BJ_AREG) (Reg BJ_AREG) (Imm (k - 1))
  else
    let shift := log2_loop 32 k 0 in
    if shift =? 0 then mret tt
    else sljit_emit_op2 SLJIT_LSHR true (Reg BJ_AREG) (Reg BJ_AREG) (Imm shift).

Definition emit_moddiv (pc : bpf_insn) : G unit :=
  sljit_emit_op1 SLJIT_MOV (Reg SLJIT_SCRATCH_REG2)
    (if BPF_SRC (i_code pc) =? BPF_X then Reg BJ_XREG else Imm (i_k pc));;
  sljit_emit_ijump 2 (Func (if BPF_OP (i_code pc) =? BPF_DIV then Fdivide else Fmodulus)).

(** ** Jumps *)

Definition bpf_jmp_to_sljit_cond (pc : bpf_insn) (negate : bool) : G jump_type :=
  let op := BPF_OP (i_code pc) in
  if op =? BPF_JGT then mret (if negate then SLJIT_C_LESS_EQUAL else SLJIT_C_GREATER)
  else if op =? BPF_JGE then mret (if negate then SLJIT_C_LESS else SLJIT_C_GREATER_EQUAL)
  else if op =? BPF_JEQ then mret (if negate then SLJIT_C_NOT_EQUAL else SLJIT_C_EQUAL)
  else if op =? BPF_JSET then mret (if negate then SLJIT_C_EQUAL else SLJIT_C_NOT_EQUAL)
  else λ _, None.

(** [jtf[b].sjump = jump] for the instruction [i], which must not have one yet. *)
Definition note_sjump (i : nat) (b : bool) (jump : nat) : G unit :=
  dat ← get insn_dat;
  match dat !! i with
  | None => λ _, None
  | Some d =>
      BJ_ASSERT (match sjump d b with None => true | Some _ => false end);;
      set_dat (<[i := set_sjump d (λ b', if Bool.eqb b' b then Some jump else sjump d b')]> dat)
  end.

(** The conditional jump. *)
Definition emit_branch (i : nat) (pc : bpf_insn) (negate : bool) : G unit :=
  jump ← (if negb (BPF_OP (i_code pc) =? BPF_JSET) then
            t ← bpf_jmp_to_sljit_cond pc negate;
            sljit_emit_cmp t true (Reg BJ_AREG) (kx_to_reg pc)
          else
            sljit_emit_op2 SLJIT_AND false (Reg BJ_TMP1REG) (Reg BJ_AREG) (kx_to_reg pc);;
            t ← bpf_jmp_to_sljit_cond pc negate;
            sljit_emit_cmp t true (Reg BJ_TMP1REG) (Imm 0));
  note_sjump i negate jump.

Definition emit_jmp (i : nat) (pc : bpf_insn) : G unit :=
  let '(jt, jf) := jump_offsets pc in
  let negate := jt =? 0 in
  let branching := negb (jt =? jf) in
  (if branching then emit_branch i pc negate else mret tt);;
  if negb branching || (negb (jt =? 0) && negb (jf =? 0)) then
    jump ← sljit_emit_jump;
    note_sjump i branching jump
  else mret tt.

(** ** One instruction *)

(** The jumps to an instruction get their label, which is made for the first of them. *)
Fixpoint set_labels (label : option nat) (l : list (nat * bool)) : G unit :=
  match l with
  | [] => mret tt
  | (s, b) :: l =>
      dat ← get insn_dat;
      match dat !! s with
      | None => λ _, None
      | Some d =>
          match sjump d b with
          | None => set_labels label l
          | Some jump =>
              n ← match label with Some n => mret n | None => sljit_emit_label end;
              sljit_set_label jump n;;
              set_labels (Some n) l
          end
      end
  end.

(** The check of the length before a read; [true] when the read is never reached. *)
Definition emit_check (pc : bpf_insn) (d : insn_data) : G bool :=
  match read_pkt_insn pc with
  | None => mret false
  | Some _ =>
      if UINT32_MAX <? r_check_length d then jump ← sljit_emit_jump; append_jump jump;; mret true
      else if 0 <? r_check_length d then
        jump ← sljit_emit_cmp SLJIT_C_LESS false (Reg BJ_BUFLEN) (Imm (r_check_length d));
        append_jump jump;;
        mret false
      else mret false
  end.

Definition memwords : nat := GET_MEMWORDS bc.

Definition generate_ld (pc : bpf_insn) (unconditional_ret : bool) : G unit :=
  let c := i_code pc in
  if c =? BPF_LD + BPF_IMM then sljit_emit_op1 SLJIT_MOV (Reg BJ_AREG) (Imm (i_k pc))
  else if c =? BPF_LD + BPF_MEM then
    if Z.of_nat memwords <=? i_k pc then fail else emit_memload BJ_AREG (i_k pc) (GET_EXTWORDS bc)
  else if c =? BPF_LD + BPF_W + BPF_LEN then sljit_emit_op1 SLJIT_MOV (Reg BJ_AREG) (Mem1 BJ_ARGS args_wirelen)
  else if negb (BPF_MODE c =? BPF_ABS) && negb (BPF_MODE c =? BPF_IND) then fail
  else if unconditional_ret then mret tt
  else emit_pkt_read pc.

Definition generate_ldx (pc : bpf_insn) (unconditional_ret : bool) : G unit :=
  let c := i_code pc in
  let mode := BPF_MODE c in
  let not_w := negb (BPF_SIZE c =? BPF_W) in
  if mode =? BPF_IMM then if not_w then fail else sljit_emit_op1 SLJIT_MOV (Reg BJ_XREG) (Imm (i_k pc))
  else if mode =? BPF_LEN then
    if not_w then fail else sljit_emit_op1 SLJIT_MOV (Reg BJ_XREG) (Mem1 BJ_ARGS args_wirelen)
  else if mode =? BPF_MEM then
    if not_w then fail
    else if Z.of_nat memwords <=? i_k pc then fail else emit_memload BJ_XREG (i_k pc) (GET_EXTWORDS bc)
  else if negb (mode =? BPF_MSH) || negb (BPF_SIZE c =? BPF_B) then fail
  else if unconditional_ret then mret tt
  else emit_msh pc.

Definition generate_moddiv (pc : bpf_insn) : G unit :=
  let k := i_k pc in
  if BPF_SRC (i_code pc) =? BPF_X then
    jump ← sljit_emit_cmp SLJIT_C_EQUAL true (Reg BJ_XREG) (Imm 0);
    append_jump jump;;
    emit_moddiv pc
  else if k =? 0 then jump ← sljit_emit_jump; append_jump jump
  else if negb (Z.land k (k - 1) =? 0) then emit_moddiv pc
  else emit_pow2_moddiv pc.

Definition generate_alu (pc : bpf_insn) : G unit :=
  let c := i_code pc in
  if c =? BPF_ALU + BPF_NEG then sljit_emit_op1 SLJIT_NEG (Reg BJ_AREG) (Reg BJ_AREG)
  else if negb (BPF_OP c =? BPF_DIV) && negb (BPF_OP c =? BPF_MOD) then
    match bpf_alu_to_sljit_op pc with
    | None => fail
    | Some (op, int) => sljit_emit_op2 op int (Reg BJ_AREG) (Reg BJ_AREG) (kx_to_reg pc)
    end
  else generate_moddiv pc.

Definition generate_ret (pc : bpf_insn) : G unit :=
  let rval := BPF_RVAL (i_code pc) in
  if rval =? BPF_X then fail
  else
    (if rval =? BPF_K then sljit_emit_return (Imm (i_k pc)) else mret tt);;
    if rval =? BPF_A then sljit_emit_return (Reg BJ_AREG) else mret tt.

Definition generate_misc (hints : Z) (pc : bpf_insn) : G unit :=
  let op := BPF_MISCOP (i_code pc) in
  if op =? BPF_TAX then sljit_emit_op1 SLJIT_MOV_UI (Reg BJ_XREG) (Reg BJ_AREG)
  else if op =? BPF_TXA then sljit_emit_op1 SLJIT_MOV (Reg BJ_AREG) (Reg BJ_XREG)
  else if (op =? BPF_COP) || (op =? BPF_COPX) then
    match GET_FUNCS bc with
    | None => fail
    | Some fs =>
        if (op =? BPF_COP) && (Z.of_nat (length fs) <=? i_k pc) then fail else emit_cop hints pc
    end
  else fail.

Definition generate_class (hints : Z) (i : nat) (pc : bpf_insn) (unconditional_ret : bool) : G unit :=
  let c := BPF_CLASS (i_code pc) in
  if c =? BPF_LD then generate_ld pc unconditional_ret
  else if c =? BPF_LDX then generate_ldx pc unconditional_ret
  else if c =? BPF_ST then
    if negb (i_code pc =? BPF_ST) || (Z.of_nat memwords <=? i_k pc) then fail
    else emit_memstore BJ_AREG (i_k pc) (GET_EXTWORDS bc)
  else if c =? BPF_STX then
    if negb (i_code pc =? BPF_STX) || (Z.of_nat memwords <=? i_k pc) then fail
    else emit_memstore BJ_XREG (i_k pc) (GET_EXTWORDS bc)
  else if c =? BPF_ALU then generate_alu pc
  else if c =? BPF_JMP then emit_jmp i pc
  else if c =? BPF_RET then generate_ret pc
  else generate_misc hints pc.

Definition generate_insn (hints : Z) (i : nat) (pc : bpf_insn) : G unit :=
  dat ← get insn_dat;
  match dat !! i with
  | None => λ _, None
  | Some d =>
      if unreachable d then mret tt
      else
        set_labels None (bjumps d);;
        u ← emit_check pc d;
        generate_class hints i pc u
  end.

Fixpoint generate_loop (hints : Z) (i : nat) (l : list bpf_insn) : G unit :=
  match l with
  | [] => mret tt
  | pc :: l => generate_insn hints i pc;; generate_loop hints (S i) l
  end.

(** [jtf[0].sjump = jtf[1].sjump = NULL] for the jumps that are reachable. *)
Definition reset_sjump (pc : bpf_insn) (d : insn_data) : insn_data :=
  if unreachable d || negb (BPF_CLASS (i_code pc) =? BPF_JMP) then d else set_sjump d (λ _, None).

Fixpoint set_ret0_labels (label : nat) (l : list nat) : G unit :=
  match l with [] => mret tt | jump :: l => sljit_set_label jump label;; set_ret0_labels label l end.

Definition generate_insn_code (hints : Z) (insns : list bpf_insn) : G unit :=
  request;;
  set_ret0 [] 64;;
  dat ← get insn_dat;
  set_dat (zip_with reset_sjump insns dat);;
  generate_loop hints 0 insns;;
  jumps ← get ret0;
  (if negb (length jumps =? 0)%nat then label ← sljit_emit_label; set_ret0_labels label jumps else mret tt);;
  sljit_emit_return (Imm 0).

(** ** The program *)

(** [M[i] = 0] for the words in the mask. *)
Fixpoint emit_init_mem (initmask : Z) (mem_reg : reg) (mem_off : Z) (l : list nat) : G unit :=
  match l with
  | [] => mret tt
  | i :: l =>
      (if has_hint initmask (BJ_INIT_MBIT (Z.of_nat i))
       then sljit_emit_op1 SLJIT_MOV_UI (Mem1 mem_reg (mem_off + Z.of_nat i * 4)) (Imm 0) else mret tt);;
      emit_init_mem initmask mem_reg mem_off l
  end.

(** The mask without the words that the caller has initialised. *)
Definition init_words (initmask : Z) : Z :=
  let preinited := match bc with Some c => if (extwords c =? 0)%nat then 0 else preinited c | None => 0 end in
  Z.land initmask (Z.lor (Z.lor (not32 preinited) BJ_INIT_ABIT) BJ_INIT_XBIT).

Definition emit_prologue (initmask hints : Z) : G unit :=
  sljit_emit_enter 2 (nscratches hints) nsaveds stack_size;;
  (if has_hint hints BJ_HINT_COP
   then sljit_emit_op1 SLJIT_MOV_P (Mem1 SLJIT_LOCALS_REG stack_ctx) (Reg BJ_CTX_ARG) else mret tt);;
  mo ← (if (GET_EXTWORDS bc =? 0)%nat then mret (SLJIT_LOCALS_REG, stack_mem)
        else
          sljit_emit_op1 SLJIT_MOV_P (Reg BJ_TMP1REG) (Mem1 BJ_ARGS args_mem);;
          sljit_emit_op1 SLJIT_MOV_P (Mem1 SLJIT_LOCALS_REG stack_extmem) (Reg BJ_TMP1REG);;
          mret (BJ_TMP1REG, 0));
  let initmask := init_words initmask in
  emit_init_mem initmask (fst mo) (snd mo) (seq 0 memwords);;
  (if has_hint initmask BJ_INIT_ABIT then sljit_emit_op1 SLJIT_MOV (Reg BJ_AREG) (Imm 0) else mret tt);;
  (if has_hint initmask BJ_INIT_XBIT then sljit_emit_op1 SLJIT_MOV (Reg BJ_XREG) (Imm 0) else mret tt);;
  load_buf_buflen.

(** [sizeof(struct bpfjit_insn_data)]. *)
Definition sizeof_insn_data : Z := 80.

(** The array of the data of the instructions holds anything at first. *)
Definition bpfjit_generate_code (insns : list bpf_insn) (dat : list insn_data) : option (option (list lir * gmap nat nat)) :=
  if (MAX_MEMWORDS <? memwords)%nat then Some None
  else if (length insns =? 0)%nat || ((2 ^ 64 - 1) / sizeof_insn_data <? Z.of_nat (length insns)) then Some None
  else if negb (ok 0) then Some None
  else
    match optimize bc insns dat with
    | None => Some None
    | Some (dat, initmask, hints) =>
        let m := (request;; emit_prologue initmask hints;; generate_insn_code hints insns;; request) in
        match m (mk_jit [] ∅ 1 dat [] 0) with
        | None => None
        | Some (None, _) => Some None
        | Some (Some _, s) => Some (Some (c_code s, c_targets s))
        end
    end.

End Jit.
