(* ===== verification/BpfFlow.v ===== *)
(** * The first pass of the optimizer

    What the first pass finds out: it marks the instructions that can be reached, records
    every jump at its target, and puts every word that may be read before it is written into
    [initmask]. *)

From S2P Require Import Prelude BpfInsn BpfOpt.

(** ** Bits *)

Definition A_bit : Z := 16.
Definition X_bit : Z := 17.

Lemma mbit_testbit k b : 0 ≤ k → Z.testbit (BJ_INIT_MBIT k) b = bool_decide (b = k).
Proof.
  intros Hk. unfold BJ_INIT_MBIT. rewrite Z.shiftl_1_l, Z.pow2_bits_eqb by done.
  destruct (Z.eqb_spec k b) as [->|]; [by rewrite bool_decide_eq_true_2|by rewrite bool_decide_eq_false_2].
Qed.

Lemma not32_testbit z b : 0 ≤ b < 32 → Z.testbit (not32 z) b = negb (Z.testbit z b).
Proof. intros Hb. unfold not32, u32. rewrite Z.mod_pow2_bits_low, Z.lnot_spec by lia. done. Qed.

(** A set of words, as the bits of a mask. *)
Definition sub_bits (x y : Z) : Prop := ∀ b, 0 ≤ b < 32 → Z.testbit x b = true → Z.testbit y b = true.

Lemma sub_bits_refl x : sub_bits x x.
Proof. by intros b. Qed.

Lemma sub_bits_lor_l x y : sub_bits x (Z.lor x y).
Proof. intros b _ H. by rewrite Z.lor_spec, H. Qed.

Lemma sub_bits_lor_r x y : sub_bits y (Z.lor x y).
Proof. intros b _ H. by rewrite Z.lor_spec, H, orb_true_r. Qed.

Lemma sub_bits_trans x y z : sub_bits x y → sub_bits y z → sub_bits x z.
Proof. intros H1 H2 b Hb H. by apply H2, H1. Qed.

(** ** What an instruction reads and writes *)

Section Flow.

Context {W : Type} (bc : option (bpf_ctx W)) (insns : list bpf_insn).

Abbreviation words := (Z.of_nat (GET_MEMWORDS bc)).

Definition mem_word (pc : bpf_insn) : list Z := if i_k pc <? words then [i_k pc] else [].

Definition uses (o : bpf_op) (pc : bpf_insn) : list Z :=
  match o with
  | LdInd _ | Stx | Txa => [X_bit]
  | LdMem | LdxMem => mem_word pc
  | St | Neg | RetA | Tax | Cop | Copx => [A_bit]
  | Alu _ x | Jcc _ x => if x then [A_bit; X_bit] else [A_bit]
  | _ => []
  end.

Definition defs (o : bpf_op) (pc : bpf_insn) : list Z :=
  match o with
  | LdAbs _ | LdInd _ | LdLen | LdImm | LdMem | Alu _ _ | Neg | Txa | Cop | Copx => [A_bit]
  | LdxImm | LdxLen | LdxMem | LdxMsh | Tax => [X_bit]
  | St | Stx => mem_word pc
  | _ => []
  end.

Definition falls (o : bpf_op) : bool := match o with Ja | Jcc _ _ | RetK | RetA => false | _ => true end.
Definition jumps (o : bpf_op) : bool := match o with Ja | Jcc _ _ => true | _ => false end.

(** The branches of a jump. *)
Definition target (i : nat) (pc : bpf_insn) (b : bool) : nat :=
  jump_target i (if b then snd (jump_offsets pc) else fst (jump_offsets pc)).

(** The instructions that may follow, with the branch that leads to them. *)
Inductive succ (i : nat) (pc : bpf_insn) (o : bpf_op) : nat → Prop :=
  | succ_next : falls o = true → too_long pc = false → succ i pc o (S i)
  | succ_jump b : jumps o = true → succ i pc o (target i pc b).

Definition reach (dat : list insn_data) (i : nat) : Prop := ∃ d, dat !! i = Some d ∧ unreachable d = false.

(** Bits that are still not initialised behind an instruction. *)
Definition left_bits (x : Z) (o : bpf_op) (pc : bpf_insn) (y : Z) : Prop :=
  ∀ b, 0 ≤ b < 32 → Z.testbit x b = true → b ∉ defs o pc → Z.testbit y b = true.

(** An instruction of the program that exists. *)
Definition insn_at (i : nat) (pc : bpf_insn) (o : bpf_op) : Prop :=
  insns !! i = Some pc ∧ decode (i_code pc) = Some o.

(** The programs of C: the fields have their types. *)
Definition insn_ok (pc : bpf_insn) : Prop :=
  0 ≤ i_k pc < 2 ^ 32 ∧ 0 ≤ i_jt pc < 2 ^ 8 ∧ 0 ≤ i_jf pc < 2 ^ 8.

(** ** The effect of an instruction that is no jump *)

(** The masks before and after an instruction. *)
Record effect (o : bpf_op) (pc : bpf_insn) (s s' : pass1) : Prop := {
  ef_dat : p_dat s' = p_dat s;
  ef_mono : sub_bits (p_initmask s) (p_initmask s');
  ef_uses : ∀ b, b ∈ uses o pc → 0 ≤ b < 32 → Z.testbit (p_invalid s) b = true → Z.testbit (p_initmask s') b = true;
  ef_left : falls o = true → left_bits (p_invalid s) o pc (p_invalid s');
  ef_reach : falls o = true → p_unreachable s' = p_unreachable s;
}.

Lemma use_bit_mono z s : sub_bits (p_initmask s) (p_initmask (use_bit z s)).
Proof. apply sub_bits_lor_l. Qed.

Lemma use_bit_use b s : 0 ≤ b → Z.testbit (p_invalid s) b = true → Z.testbit (p_initmask (use_bit (BJ_INIT_MBIT b) s)) b = true.
Proof.
  intros Hb H. cbn. by rewrite Z.lor_spec, Z.land_spec, H, mbit_testbit, bool_decide_eq_true_2, orb_true_r.
Qed.

Lemma define_bit_left k b s :
  0 ≤ k → 0 ≤ b < 32 → b ≠ k → Z.testbit (p_invalid s) b = true →
  Z.testbit (p_invalid (define_bit (BJ_INIT_MBIT k) s)) b = true.
Proof.
  intros Hk Hb Hne H. cbn. rewrite Z.land_spec, H, not32_testbit, mbit_testbit by done. by rewrite bool_decide_eq_false_2.
Qed.

(** An instruction as a sequence of what it does to the masks. *)
Inductive mark := Use (b : Z) | Define (b : Z) | Hint (h : Z) | Stop.

Definition run_mark (s : pass1) (m : mark) : pass1 :=
  match m with
  | Use b => use_bit (BJ_INIT_MBIT b) s
  | Define b => define_bit (BJ_INIT_MBIT b) s
  | Hint h => add_hint h s
  | Stop => p_set_unreachable s true
  end.

Definition x_marks (x : bool) : list mark := if x then [Hint BJ_HINT_XREG; Use X_bit] else [].

Definition marks (o : bpf_op) (pc : bpf_insn) : list mark :=
  match o with
  | LdAbs _ => [Hint BJ_HINT_ABS; Define A_bit]
  | LdInd _ => [Hint (Z.lor BJ_HINT_IND BJ_HINT_XREG); Use X_bit; Define A_bit]
  | LdLen | LdImm => [Define A_bit]
  | LdMem => (Use <$> mem_word pc) ++ [Define A_bit]
  | LdxImm | LdxLen => [Hint (Z.lor BJ_HINT_XREG BJ_HINT_LDX); Define X_bit]
  | LdxMem => [Hint (Z.lor BJ_HINT_XREG BJ_HINT_LDX)] ++ (Use <$> mem_word pc) ++ [Define X_bit]
  | LdxMsh => [Hint (Z.lor BJ_HINT_XREG BJ_HINT_LDX); Hint BJ_HINT_MSH; Define X_bit]
  | St => Use A_bit :: (Define <$> mem_word pc)
  | Stx => [Hint BJ_HINT_XREG; Use X_bit] ++ (Define <$> mem_word pc)
  | Alu _ x => Use A_bit :: x_marks x ++ [Define A_bit]
  | Neg => [Use A_bit; Define A_bit]
  | RetK => [Stop]
  | RetA => [Use A_bit; Stop]
  | Tax => [Hint BJ_HINT_XREG; Use A_bit; Define X_bit]
  | Txa => [Hint BJ_HINT_XREG; Use X_bit; Define A_bit]
  | Cop => [Hint BJ_HINT_COP; Use A_bit; Define A_bit]
  | Copx => [Hint (Z.lor BJ_HINT_XREG BJ_HINT_COPX); Hint BJ_HINT_COP; Use A_bit; Define A_bit]
  | Ja | Jcc _ _ => []
  end.

Lemma class_marks i pc o s :
  decode (i_code pc) = Some o → jumps o = false →
  pass1_class bc insns i pc s = Some (foldl run_mark s (marks o pc)).
Proof.
  intros Hd Hj. apply decode_Some in Hd. destruct pc as [c jt jf k]. cbn [i_code i_k] in *. subst c.
  destruct o as [[]|[]| | | | | | | | | |[] []| | |[] []| | | | | |]; try discriminate Hj; try reflexivity;
    unfold marks, mem_word; cbn [i_k]; unfold pass1_class, pass1_ld, pass1_ldx, pass1_st, pass1_stx, mem_bit; cbn [i_k];
    destruct (k <? words); reflexivity.
Qed.

(** What a sequence of marks keeps, uses and leaves. *)
Lemma marks_keep l s :
  p_dat (foldl run_mark s l) = p_dat s ∧ sub_bits (p_initmask s) (p_initmask (foldl run_mark s l)).
Proof.
  revert s. induction l as [|m l IH]; intros s; cbn; [split; [done|apply sub_bits_refl]|].
  destruct (IH (run_mark s m)) as [-> H2]. split; [by destruct m|].
  eapply sub_bits_trans; [|done]. destruct m; try apply sub_bits_refl. apply use_bit_mono.
Qed.

Lemma marks_left l s b :
  Forall (λ m, match m with Define k => 0 ≤ k ∧ k ≠ b | _ => True end) l → 0 ≤ b < 32 →
  Z.testbit (p_invalid s) b = true → Z.testbit (p_invalid (foldl run_mark s l)) b = true.
Proof.
  intros Hl Hb. revert s. induction Hl as [|m l Hm _ IH]; intros s H; [done|]. cbn. apply IH.
  destruct m; try done. by apply define_bit_left; [apply Hm| |apply not_eq_sym, Hm|].
Qed.

Lemma marks_use l1 l2 s b :
  Forall (λ m, match m with Define _ => False | _ => True end) l1 → 0 ≤ b < 32 →
  Z.testbit (p_invalid s) b = true → Z.testbit (p_initmask (foldl run_mark s (l1 ++ Use b :: l2))) b = true.
Proof.
  intros Hl Hb H. rewrite foldl_app. cbn. apply (proj2 (marks_keep l2 _)); [done|]. apply use_bit_use; [lia|].
  apply marks_left; [|done|done]. eapply Forall_impl; [done|]. by intros [].
Qed.

Lemma marks_reach l s :
  Stop ∉ l → p_unreachable (foldl run_mark s l) = p_unreachable s.
Proof.
  revert s. induction l as [|m l IH]; intros s H; [done|]. cbn. rewrite IH by set_solver.
  destruct m; try done. set_solver.
Qed.

(** An instruction that exists and is no jump. *)
Lemma class_effect i pc o s s' :
  decode (i_code pc) = Some o → insn_ok pc → jumps o = false →
  pass1_class bc insns i pc s = Some s' → effect o pc s s'.
Proof.
  intros Hd (Hk & _ & _) Hj. rewrite (class_marks _ _ _ _ Hd Hj). intros [= <-].
  split; [apply marks_keep|apply marks_keep| | |].
  - intros b Hu Hb Hi.
    assert (∃ l1 l2, marks o pc = l1 ++ Use b :: l2 ∧ Forall (λ m, match m with Define _ => False | _ => True end) l1)
      as (l1 & l2 & -> & Hl); [|by apply marks_use].
    assert (∀ l1 l2 : list mark, marks o pc = l1 ++ Use b :: l2 → Forall (λ m, match m with Define _ => False | _ => True end) l1 →
      ∃ l1 l2, marks o pc = l1 ++ Use b :: l2 ∧ Forall (λ m, match m with Define _ => False | _ => True end) l1) as Hex by eauto.
    destruct o as [w|w| | | | | | | | | |a []| | |t []| | | | | |]; cbn [uses marks x_marks] in *;
      try (unfold mem_word in *; destruct (i_k pc <? words); cbn in * ); try (by apply not_elem_of_nil in Hu); try done;
      repeat (apply elem_of_cons in Hu as [->|Hu]); try (by apply not_elem_of_nil in Hu);
      first [by apply (Hex [] _ eq_refl)|by eapply (Hex [_] _ eq_refl); repeat constructor
            |by eapply (Hex [_; _] _ eq_refl); repeat constructor].
  - intros Hf b Hb Hi Hnd. apply marks_left; [|done|done].
    destruct o as [w|w| | | | | | | | | |a []| | |t []| | | | | |]; cbn [defs marks x_marks] in *; try done;
      try (unfold mem_word in *; destruct (i_k pc <? words); cbn in * );
      repeat constructor; unfold A_bit, X_bit in *; try lia; set_solver.
  - intros Hf. apply marks_reach.
    destruct o as [w|w| | | | | | | | | |a []| | |t []| | | | | |]; cbn [marks x_marks]; try done;
      try (unfold mem_word in *; destruct (i_k pc <? words); cbn in * ); set_solver.
Qed.

(** ** Any instruction *)

Definition keeps (s s' : pass1) : Prop := p_dat s' = p_dat s ∧ sub_bits (p_initmask s) (p_initmask s').

Lemma keeps_trans s1 s2 s3 : keeps s1 s2 → keeps s2 s3 → keeps s1 s3.
Proof. intros [E1 H1] [E2 H2]. split; [congruence|by eapply sub_bits_trans]. Qed.

Lemma keeps_refl s : keeps s s.
Proof. split; [done|apply sub_bits_refl]. Qed.

Lemma keeps_use z s s' : keeps s s' → keeps s (use_bit z s').
Proof. intros H. eapply keeps_trans; [exact H|]. split; [done|apply use_bit_mono]. Qed.

Lemma keeps_define z s s' : keeps s s' → keeps s (define_bit z s').
Proof. intros H. exact H. Qed.

Lemma keeps_hint z s s' : keeps s s' → keeps s (add_hint z s').
Proof. intros H. exact H. Qed.

Lemma keeps_unreachable b s s' : keeps s s' → keeps s (p_set_unreachable s' b).
Proof. intros H. exact H. Qed.

Ltac keeps_tac :=
  unfold mem_bit, when in *;
  repeat match goal with
    | |- keeps _ (if ?b then _ else _) => destruct b
    | |- keeps _ (use_bit _ _) => apply keeps_use
    | |- keeps _ (define_bit _ _) => apply keeps_define
    | |- keeps _ (add_hint _ _) => apply keeps_hint
    | |- keeps _ (p_set_unreachable _ _) => apply keeps_unreachable
    | |- keeps ?s ?s => apply keeps_refl
    end.

Definition is_jmp (pc : bpf_insn) : bool := BPF_CLASS (i_code pc) =? BPF_JMP.

Lemma class_range c : 0 ≤ BPF_CLASS c < 8.
Proof. unfold BPF_CLASS. change 0x07 with (Z.ones 3). rewrite Z.land_ones by lia. by apply Z.mod_pos_bound. Qed.

Lemma class_keeps i pc s s' :
  pass1_class bc insns i pc s = Some s' → is_jmp pc = false → keeps s s'.
Proof.
  unfold pass1_class, is_jmp. intros H Hj. pose proof (class_range (i_code pc)) as Hr.
  destruct (Z.eqb_spec (BPF_CLASS (i_code pc)) BPF_RET); [injection H as <-; unfold pass1_ret; keeps_tac|].
  destruct (Z.eqb_spec (BPF_CLASS (i_code pc)) BPF_LD); [injection H as <-; unfold pass1_ld; keeps_tac|].
  destruct (Z.eqb_spec (BPF_CLASS (i_code pc)) BPF_LDX); [injection H as <-; unfold pass1_ldx; keeps_tac|].
  destruct (Z.eqb_spec (BPF_CLASS (i_code pc)) BPF_ST); [injection H as <-; unfold pass1_st; keeps_tac|].
  destruct (Z.eqb_spec (BPF_CLASS (i_code pc)) BPF_STX); [injection H as <-; unfold pass1_stx; keeps_tac|].
  destruct (Z.eqb_spec (BPF_CLASS (i_code pc)) BPF_ALU); [injection H as <-; unfold pass1_alu; keeps_tac|].
  destruct (Z.eqb_spec (BPF_CLASS (i_code pc)) BPF_MISC); [injection H as <-; unfold pass1_misc; keeps_tac|].
  unfold BPF_RET, BPF_LD, BPF_LDX, BPF_ST, BPF_STX, BPF_ALU, BPF_MISC, BPF_JMP in *. lia.
Qed.

Lemma class_jmp i pc s : is_jmp pc = true → pass1_class bc insns i pc s = pass1_jmp insns i pc s.
Proof. unfold is_jmp, pass1_class. intros ->%Z.eqb_eq. done. Qed.

(** The branches go forward and stay in the program. *)
Definition branches_ok (i : nat) (pc : bpf_insn) : Prop := ∀ b, (i < target i pc b < length insns)%nat.

(** What a jump from [i] to [t] and [f] does to the data of an instruction [x]; [z] is what is
    not initialised. *)
Record jump_effect (i t f : nat) (z : Z) (x : nat) (d d' : insn_data) : Prop := {
  je_unreachable : unreachable d' = unreachable d;
  je_bjumps : bjumps d' = (if decide (x = f ∧ f ≠ t) then [(i, true)] else [])
                          ++ (if decide (x = t) then [(i, false)] else []) ++ bjumps d;
  je_keep : sub_bits (invalid d) (invalid d');
  je_invalid : x = t ∨ x = f → sub_bits z (invalid d');
  je_abc : j_abc_length d' = if decide (x = i) then MAX_ABC_LENGTH else j_abc_length d;
}.

Lemma lookup_alter_if (g : insn_data → insn_data) y (dat : list insn_data) x d :
  dat !! x = Some d → alter g y dat !! x = Some (if decide (x = y) then g d else d).
Proof.
  intros Hd. destruct (decide (x = y)) as [->|Hne].
  - by rewrite list_lookup_alter_eq, Hd.
  - by rewrite list_lookup_alter_ne by done.
Qed.

Lemma jump_data i t f z dat x d :
  dat !! x = Some d →
  ∃ d', add_invalid z t (add_invalid z f (when (negb (f =? t)%nat) (add_bjump i true f)
          (add_bjump i false t (alter (λ d, set_j_abc d MAX_ABC_LENGTH) i dat)))) !! x = Some d' ∧
    jump_effect i t f z x d d'.
Proof.
  intros Hx. unfold when. destruct (Nat.eqb_spec f t) as [->|Eft]; cbn [negb]; (eexists; split;
    [unfold add_invalid, add_bjump; repeat apply lookup_alter_if; exact Hx|]).
  all: split; unfold sub_bits; intros; repeat case_decide; subst; cbn; rewrite ?Z.lor_spec, ?orb_true_iff; tauto.
Qed.

Lemma jmp_effect i pc s s' :
  insn_ok pc → (i < length insns)%nat → Z.of_nat (length insns) ≤ 2 ^ 32 → length (p_dat s) = length insns →
  pass1_jmp insns i pc s = Some s' →
  branches_ok i pc ∧ sub_bits (p_initmask s) (p_initmask s') ∧
  (Z.testbit (p_invalid s) A_bit = true → Z.testbit (p_initmask s') A_bit = true) ∧
  (BPF_SRC (i_code pc) = BPF_X → Z.testbit (p_invalid s) X_bit = true → Z.testbit (p_initmask s') X_bit = true) ∧
  length (p_dat s') = length insns ∧
  ∀ x d, p_dat s !! x = Some d →
    ∃ d', p_dat s' !! x = Some d' ∧ jump_effect i (target i pc false) (target i pc true) (p_invalid s) x d d'.
Proof.
  intros (Hk & Ht & Hf) Hi Hn Hl. unfold pass1_jmp, branches_ok, target, insn_count.
  assert (0 ≤ fst (jump_offsets pc) ∧ 0 ≤ snd (jump_offsets pc)) as [H1 H2]
    by (unfold jump_offsets; destruct (_ =? _); cbn; lia).
  set (s1 := when _ _ _).
  assert (sub_bits (p_initmask s) (p_initmask s1) ∧ p_dat s1 = alter (λ d, set_j_abc d MAX_ABC_LENGTH) i (p_dat s) ∧
    p_invalid s1 = p_invalid s ∧ (Z.testbit (p_invalid s) A_bit = true → Z.testbit (p_initmask s1) A_bit = true) ∧
    (BPF_SRC (i_code pc) = BPF_X → Z.testbit (p_invalid s) X_bit = true → Z.testbit (p_initmask s1) X_bit = true))
    as (M1 & D1 & I1 & A1 & X1).
  { subst s1. set (s0 := use_bit BJ_INIT_ABIT _).
    assert (Z.testbit (p_invalid s) A_bit = true → Z.testbit (p_initmask s0) A_bit = true) as HA
      by (intros H; by apply (use_bit_use A_bit (p_set_dat s _))).
    assert (sub_bits (p_initmask s) (p_initmask s0)) as HM by apply sub_bits_lor_l.
    unfold when. destruct (Z.eqb_spec (BPF_SRC (i_code pc)) BPF_X) as [E|E].
    - split; [eapply sub_bits_trans; [exact HM|apply (use_bit_mono BJ_INIT_XBIT (add_hint BJ_HINT_XREG s0))]|].
      split; [done|]. split; [done|]. split.
      + intros H. apply (use_bit_mono BJ_INIT_XBIT (add_hint BJ_HINT_XREG s0)); [done|]. by apply HA.
      + intros _ H. by apply (use_bit_use X_bit (add_hint BJ_HINT_XREG s0)).
    - done. }
  clearbody s1. destruct (jump_offsets pc) as [t f]. cbn [fst snd] in *.
  destruct (Z.leb_spec (Z.of_nat (length insns) - (Z.of_nat i + 1)) t); [done|].
  destruct (Z.leb_spec (Z.of_nat (length insns) - (Z.of_nat i + 1)) f); [done|]. cbn [orb].
  assert (∀ o, 0 ≤ o → o < Z.of_nat (length insns) - (Z.of_nat i + 1) → (i < jump_target i o < length insns)%nat) as Hjt.
  { intros o Ho1 Ho2. unfold jump_target, u32. rewrite Z.mod_small by lia. lia. }
  set (s2 := when _ _ s1).
  assert (p_dat s2 = p_dat s1 ∧ p_invalid s2 = p_invalid s1 ∧ p_initmask s2 = p_initmask s1) as (D2 & I2 & M2)
    by (subst s2; unfold when; by destruct (_ && _)).
  clearbody s2. intros [= <-]. cbn [p_set_invalid p_set_dat p_dat p_initmask]. rewrite D2, I2, M2, D1, I1.
  split; [intros []; by apply Hjt|]. do 3 (split; [done|]).
  assert (∀ dat : list insn_data, length (when (negb (jump_target i f =? jump_target i t)%nat) (add_bjump i true (jump_target i f)) dat) = length dat) as Hwl
    by (intros dat; unfold when, add_bjump; destruct (negb _); [apply length_alter|done]).
  split; [unfold add_invalid; rewrite !length_alter, Hwl; unfold add_bjump; by rewrite !length_alter|].
  intros x d Hx. by apply jump_data.
Qed.

(** ** The loop *)

Hypothesis insns_ok : Forall insn_ok insns.
Hypothesis insns_few : Z.of_nat (length insns) ≤ 2 ^ 32.

(** Control comes to [t], which is not processed yet, with the words [X] not initialised. *)
Definition arrives (i : nat) (s : pass1) (t : nat) (X : Z → Prop) : Prop :=
  (t = i ∧ p_unreachable s = false ∧ ∀ b, 0 ≤ b < 32 → X b → Z.testbit (p_invalid s) b = true) ∨
  ∃ d, p_dat s !! t = Some d ∧ bjumps d ≠ [] ∧ ∀ b, 0 ≤ b < 32 → X b → Z.testbit (invalid d) b = true.

(** The jump [e] is one of the program, and leads to [t]. *)
Definition jump_to (dat : list insn_data) (t : nat) (e : nat * bool) : Prop :=
  reach dat (fst e) ∧ ∃ pc, insns !! fst e = Some pc ∧ is_jmp pc = true ∧ t = target (fst e) pc (snd e) ∧
    (snd e = true → target (fst e) pc true ≠ target (fst e) pc false).

(** A jump is recorded at its targets. *)
Definition recorded (dat : list insn_data) (j : nat) (pc : bpf_insn) : Prop :=
  ∀ b, b = false ∨ target j pc true ≠ target j pc false →
    ∃ d, dat !! target j pc b = Some d ∧ (j, b) ∈ bjumps d.

Record flow_inv (i : nat) (s : pass1) (inv : nat → Z) : Prop := {
  fi_len : length (p_dat s) = length insns;
  fi_start : if decide (i = 0%nat) then arrives i s 0 (λ _, True)
             else reach (p_dat s) 0 ∧ ∀ b, 0 ≤ b < 32 → Z.testbit (inv 0%nat) b = true;
  fi_use : ∀ j pc o b, (j < i)%nat → reach (p_dat s) j → insn_at j pc o → b ∈ uses o pc → 0 ≤ b < 32 →
    Z.testbit (inv j) b = true → Z.testbit (p_initmask s) b = true;
  fi_succ : ∀ j pc o t, (j < i)%nat → reach (p_dat s) j → insn_at j pc o → succ j pc o t →
    if decide (t < i)%nat then reach (p_dat s) t ∧ left_bits (inv j) o pc (inv t)
    else arrives i s t (λ b, Z.testbit (inv j) b = true ∧ b ∉ defs o pc);
  fi_jumps : ∀ j pc d, (j < i)%nat → p_dat s !! j = Some d → unreachable d = false → insns !! j = Some pc →
    is_jmp pc = true → branches_ok j pc ∧ j_abc_length d = MAX_ABC_LENGTH ∧ recorded (p_dat s) j pc;
  fi_bjumps : ∀ t d e, p_dat s !! t = Some d → e ∈ bjumps d → (fst e < i)%nat ∧ jump_to (p_dat s) t e;
  fi_marked : ∀ t d, (t < i)%nat → p_dat s !! t = Some d → bjumps d ≠ [] → unreachable d = false;
}.

(** How the data change at an instruction: the flag of that instruction alone, more jumps,
    more words. *)
Definition grows (i : nat) (u : bool) (dat dat' : list insn_data) : Prop :=
  length dat' = length dat ∧
  ∀ x d, dat !! x = Some d → ∃ d', dat' !! x = Some d' ∧
    unreachable d' = (if decide (x = i) then u else unreachable d) ∧ bjumps d `suffix_of` bjumps d' ∧
    sub_bits (invalid d) (invalid d') ∧ (x ≠ i → j_abc_length d' = j_abc_length d).

Lemma grows_reach i u dat dat' x : grows i u dat dat' → x ≠ i → reach dat' x ↔ reach dat x.
Proof.
  intros [Hl Hg] Hx. split; intros (d & Hd & Hu).
  - destruct (lookup_lt_is_Some_2 dat x) as [d0 Hd0]; [rewrite <- Hl; by eapply lookup_lt_Some|].
    destruct (Hg x d0 Hd0) as (d' & Hd' & Hu' & _). rewrite decide_False in Hu' by done. exists d0. split; [done|congruence].
  - destruct (Hg x d Hd) as (d' & Hd' & Hu' & _). rewrite decide_False in Hu' by done. exists d'. split; [done|congruence].
Qed.

Lemma grows_back i u dat dat' x d' :
  grows i u dat dat' → dat' !! x = Some d' → ∃ d, dat !! x = Some d ∧ bjumps d `suffix_of` bjumps d' ∧
    (x ≠ i → unreachable d' = unreachable d ∧ j_abc_length d' = j_abc_length d).
Proof.
  intros [Hl Hg] Hd'. destruct (lookup_lt_is_Some_2 dat x) as [d Hd]; [rewrite <- Hl; by eapply lookup_lt_Some|].
  destruct (Hg x d Hd) as (d2 & Hd2 & Hu & Hs & _ & Ha). assert (d2 = d') as -> by congruence.
  exists d. split; [done|]. split; [done|]. intros Hx. rewrite decide_False in Hu by done. by rewrite Ha.
Qed.

Lemma arrives_weaken i s t X Y : arrives i s t X → (∀ b, Y b → X b) → arrives i s t Y.
Proof. intros [(Ht&Hu&HX)|(d&Hd&Hb&HX)] Himp; [left; naive_solver|right; exists d; naive_solver]. Qed.

(** What has arrived elsewhere stays. *)
Lemma arrives_grows i u s s' t X :
  grows i u (p_dat s) (p_dat s') → arrives i s t X → t ≠ i → arrives (S i) s' t X.
Proof.
  intros [_ Hg] [(?&_)|(d & Hd & Hb & HX)] Ht; [done|]. right.
  destruct (Hg t d Hd) as (d' & Hd' & _ & Hs & Hi & _). exists d'. split; [done|]. split.
  - intros E. rewrite E in Hs. apply suffix_nil_inv in Hs. done.
  - intros b Hb' Hx. apply Hi; [done|]. by apply HX.
Qed.

Lemma recorded_grows i u dat dat' j pc : grows i u dat dat' → recorded dat j pc → recorded dat' j pc.
Proof.
  intros [_ Hg] Hr b Hb. destruct (Hr b Hb) as (d & Hd & Hin). destruct (Hg _ _ Hd) as (d' & Hd' & _ & [l Hs] & _).
  exists d'. split; [done|]. rewrite Hs. set_solver.
Qed.

Lemma insn_ok_at i pc : insns !! i = Some pc → insn_ok pc.
Proof. apply Forall_lookup_1, insns_ok. Qed.

(** The invariant for the instructions that are done, when the data have grown and those of
    the new jumps are known. *)
Lemma flow_old i u s s' inv z :
  flow_inv i s inv → grows i u (p_dat s) (p_dat s') → sub_bits (p_initmask s) (p_initmask s') →
  (∀ j pc o t, (j < i)%nat → reach (p_dat s) j → insn_at j pc o → succ j pc o t → t = i →
    reach (p_dat s') i ∧ left_bits (inv j) o pc z) →
  let inv' := λ j, if decide (j = i) then z else inv j in
  (∀ j pc o b, (j < i)%nat → reach (p_dat s') j → insn_at j pc o → b ∈ uses o pc → 0 ≤ b < 32 →
    Z.testbit (inv' j) b = true → Z.testbit (p_initmask s') b = true) ∧
  (∀ j pc o t, (j < i)%nat → reach (p_dat s') j → insn_at j pc o → succ j pc o t →
    if decide (t < S i)%nat then reach (p_dat s') t ∧ left_bits (inv' j) o pc (inv' t)
    else arrives (S i) s' t (λ b, Z.testbit (inv' j) b = true ∧ b ∉ defs o pc)) ∧
  (∀ j pc d, (j < i)%nat → p_dat s' !! j = Some d → unreachable d = false → insns !! j = Some pc →
    is_jmp pc = true → branches_ok j pc ∧ j_abc_length d = MAX_ABC_LENGTH ∧ recorded (p_dat s') j pc).
Proof.
  intros F G M Harr inv'. assert (∀ j, j ≠ i → inv' j = inv j) as Hinv by (intros j Hj; unfold inv'; by rewrite decide_False).
  assert (inv' i = z) as Hz by (unfold inv'; by rewrite decide_True).
  split; [|split].
  - intros j pc o b Hj Hr Hat Hu Hb Ht. rewrite Hinv in Ht by lia. apply M; [done|].
    eapply (fi_use _ _ _ F); [exact Hj|by apply (grows_reach _ _ _ _ _ G); [lia|]|done..].
  - intros j pc o t Hj Hr Hat Hs. rewrite (Hinv j) by lia. apply (grows_reach _ _ _ _ _ G) in Hr; [|lia].
    pose proof (fi_succ _ _ _ F j pc o t Hj Hr Hat Hs) as Hold.
    destruct (decide (t = i)) as [->|Hti].
    + rewrite decide_True, Hz by lia. by eapply Harr.
    + destruct (decide (t < i)%nat) as [Hlt|Hge].
      * rewrite decide_True, (Hinv t) by lia. split; [apply (grows_reach _ _ _ _ _ G); [lia|apply Hold]|apply Hold].
      * rewrite decide_False by lia. by eapply arrives_grows.
  - intros j pc d Hj Hd Hu Hpc Hjmp. destruct (grows_back _ _ _ _ _ _ G Hd) as (d0 & Hd0 & _ & Hsame).
    destruct (Hsame ltac:(lia)) as [Eu Ea]. destruct (fi_jumps _ _ _ F j pc d0 Hj Hd0 ltac:(congruence) Hpc Hjmp) as (H1 & H2 & H3).
    split; [done|]. split; [congruence|]. by eapply recorded_grows.
Qed.

(** Jumps that were recorded before. *)
Lemma bjumps_old i u s s' inv t d e :
  flow_inv i s inv → grows i u (p_dat s) (p_dat s') → p_dat s !! t = Some d → e ∈ bjumps d →
  (fst e < S i)%nat ∧ jump_to (p_dat s') t e.
Proof.
  intros F G Hd He. destruct (fi_bjumps _ _ _ F t d e Hd He) as (Hlt & Hr & Hpc). split; [lia|].
  split; [|done]. by apply (grows_reach _ _ _ _ _ G); [lia|].
Qed.

Lemma jumps_class pc o : decode (i_code pc) = Some o → is_jmp pc = jumps o.
Proof.
  intros Hd%decode_Some. unfold is_jmp. rewrite Hd.
  by destruct o as [[]|[]| | | | | | | | | |[] []| | |[] []| | | | | |].
Qed.

(** An instruction to which control comes is marked as reachable. *)
Lemma arrives_here i s d X :
  p_dat s !! i = Some d → arrives i s i X →
  (match bjumps d with [] => p_unreachable s | _ => false end) = false ∧
  ∀ b, 0 ≤ b < 32 → X b → Z.testbit (Z.lor (p_invalid s) (invalid d)) b = true.
Proof.
  intros Hd [(_ & Hu & HX)|(d' & Hd' & Hb & HX)].
  - split; [by destruct (bjumps d)|]. intros b Hb HXb. by rewrite Z.lor_spec, HX.
  - assert (d' = d) as -> by congruence. split; [by destruct (bjumps d)|]. intros b Hb' HXb.
    by rewrite Z.lor_spec, HX, orb_true_r.
Qed.

Lemma grows_mark i u s d : p_dat s !! i = Some d → grows i u (p_dat s) (<[i := set_unreachable d u]> (p_dat s)).
Proof.
  intros Hd. split; [apply length_insert|]. intros x d0 Hx. pose proof (lookup_lt_Some _ _ _ Hd).
  destruct (decide (x = i)) as [->|Hne].
  - rewrite list_lookup_insert_eq by done. assert (d0 = d) as -> by congruence. eexists. split; [done|]. split; [done|].
    split; [done|]. split; [apply sub_bits_refl|done].
  - rewrite list_lookup_insert_ne by done. exists d0. split; [done|]. split; [done|]. split; [done|].
    split; [apply sub_bits_refl|done].
Qed.

(** The start of the program stays reachable. *)
Lemma flow_start i s s' inv z d u :
  flow_inv i s inv → grows i u (p_dat s) (p_dat s') → p_dat s !! i = Some d →
  u = (match bjumps d with [] => p_unreachable s | _ => false end) →
  (u = false → z = Z.lor (p_invalid s) (invalid d)) →
  reach (p_dat s') 0 ∧ ∀ b, 0 ≤ b < 32 → Z.testbit (if decide (0 = i)%nat then z else inv 0%nat) b = true.
Proof.
  intros F G Hd Hu Hz. pose proof (fi_start _ _ _ F) as Hs. destruct (decide (i = 0%nat)) as [->|Hi].
  - destruct (arrives_here 0 s d (λ _, True) Hd Hs) as [E HX]. rewrite <- Hu in E.
    destruct G as [_ G]. destruct (G 0%nat d Hd) as (d' & Hd' & Hu' & _). rewrite decide_True in Hu' by done.
    split; [exists d'; split; [done|congruence]|]. intros b Hb. rewrite decide_True by done. rewrite Hz by done. by apply HX.
  - destruct Hs as [Hr Hb]. split; [by apply (grows_reach _ _ _ _ _ G)|]. by rewrite decide_False.
Qed.

Lemma step_unreachable i pc s d inv :
  flow_inv i s inv → insns !! i = Some pc → p_dat s !! i = Some d →
  (match bjumps d with [] => p_unreachable s | _ => false end) = true →
  flow_inv (S i) (p_set_unreachable (p_set_dat s (<[i := set_unreachable d true]> (p_dat s))) true)
    (λ j, if decide (j = i) then 0 else inv j).
Proof.
  intros F Hpc Hd Hu. set (s' := p_set_unreachable _ _). pose proof (grows_mark i true s d Hd) as G.
  change (<[i := set_unreachable d true]> (p_dat s)) with (p_dat s') in G.
  assert (¬ reach (p_dat s') i) as Hn.
  { intros (d' & Hd' & Hr). destruct G as [_ G]. destruct (G i d Hd) as (d2 & Hd2 & Hu2 & _).
    rewrite decide_True in Hu2 by done. congruence. }
  destruct (flow_old i true s s' inv 0 F G (sub_bits_refl _)) as (H1 & H2 & H3).
  { intros j pc' o t Hj Hr Hat Hs ->. pose proof (fi_succ _ _ _ F j pc' o i Hj Hr Hat Hs) as Ha.
    rewrite decide_False in Ha by lia. apply (arrives_here _ _ _ _ Hd) in Ha as [Ha _]. congruence. }
  split.
  - destruct G as [-> _]. apply F.
  - rewrite decide_False by done. eapply (flow_start i s s' inv); [done|exact G|done|by rewrite Hu|done].
  - intros j pc' o b Hj Hr. destruct (decide (j = i)) as [->|Hne]; [done|]. intros Hat Hb Hb32 Ht.
    eapply (H1 j pc' o b); [lia|done..|]. by rewrite decide_False.
  - intros j pc' o t Hj Hr Hat Hs. destruct (decide (j = i)) as [->|Hne]; [done|].
    pose proof (H2 j pc' o t ltac:(lia) Hr Hat Hs) as H. by rewrite (decide_False (P := j = i)) in H.
  - intros j pc' d' Hj Hd' Hu' Hpc' Hjmp. destruct (decide (j = i)) as [->|Hne]; [exfalso; apply Hn; by exists d'|].
    apply (H3 j pc' d'); try done. lia.
  - intros t d' e Hd' He. unfold s' in Hd'. cbn [p_set_unreachable p_set_dat p_dat] in Hd'.
    destruct (decide (t = i)) as [->|Hne].
    + rewrite list_lookup_insert_eq in Hd' by (by eapply lookup_lt_Some). injection Hd' as <-. by eapply bjumps_old.
    + rewrite list_lookup_insert_ne in Hd' by done. by eapply bjumps_old.
  - intros t d' Ht Hd' Hb. unfold s' in Hd'. cbn [p_set_unreachable p_set_dat p_dat] in Hd'.
    destruct (decide (t = i)) as [->|Hne].
    + rewrite list_lookup_insert_eq in Hd' by (by eapply lookup_lt_Some). injection Hd' as <-. cbn in Hb. by destruct (bjumps d).
    + rewrite list_lookup_insert_ne in Hd' by done. eapply (fi_marked _ _ _ F t); try done. lia.
Qed.

(** The state in which a reachable instruction is looked at. *)
Definition entered (i : nat) (pc : bpf_insn) (s : pass1) (d : insn_data) : pass1 :=
  when (too_long pc) (λ s, p_set_unreachable s true)
    (p_set_invalid (p_set_unreachable (p_set_dat s (<[i := set_unreachable d false]> (p_dat s))) false)
      (Z.lor (p_invalid s) (invalid d))).

Lemma entered_fields i pc s d :
  p_dat (entered i pc s d) = <[i := set_unreachable d false]> (p_dat s) ∧
  p_invalid (entered i pc s d) = Z.lor (p_invalid s) (invalid d) ∧ p_initmask (entered i pc s d) = p_initmask s ∧
  (too_long pc = false → p_unreachable (entered i pc s d) = false).
Proof. unfold entered, when. by destruct (too_long pc). Qed.

(** The part of the invariant that does not depend on the instruction. *)
Lemma step_reachable i pc s d inv s' :
  flow_inv i s inv → insns !! i = Some pc → p_dat s !! i = Some d →
  (match bjumps d with [] => p_unreachable s | _ => false end) = false →
  let z := Z.lor (p_invalid s) (invalid d) in
  grows i false (p_dat s) (p_dat s') → sub_bits (p_initmask s) (p_initmask s') →
  (∀ o b, decode (i_code pc) = Some o → b ∈ uses o pc → 0 ≤ b < 32 → Z.testbit z b = true → Z.testbit (p_initmask s') b = true) →
  (∀ o t, decode (i_code pc) = Some o → succ i pc o t →
    (i < t)%nat ∧ arrives (S i) s' t (λ b, Z.testbit z b = true ∧ b ∉ defs o pc)) →
  (∀ d', p_dat s' !! i = Some d' → is_jmp pc = true →
    branches_ok i pc ∧ j_abc_length d' = MAX_ABC_LENGTH ∧ recorded (p_dat s') i pc) →
  (∀ t d d' e, p_dat s !! t = Some d → p_dat s' !! t = Some d' → e ∈ bjumps d' →
    e ∈ bjumps d ∨ (fst e < S i)%nat ∧ (i < t)%nat ∧ jump_to (p_dat s') t e) →
  flow_inv (S i) s' (λ j, if decide (j = i) then z else inv j).
Proof.
  intros F Hpc Hd Hu z G M Huse Hsucc Hjmp Hbj.
  assert (reach (p_dat s') i) as Hr.
  { destruct G as [_ G]. destruct (G i d Hd) as (d' & Hd' & Hu' & _). exists d'. by rewrite decide_True in Hu'. }
  destruct (flow_old i false s s' inv z F G M) as (H1 & H2 & H3).
  { intros j pc' o t Hj Hr' Hat Hs ->. split; [done|]. pose proof (fi_succ _ _ _ F j pc' o i Hj Hr' Hat Hs) as Ha.
    rewrite decide_False in Ha by lia. apply (arrives_here _ _ _ _ Hd) in Ha as [_ Ha]. intros b Hb Ht Hnd. by apply Ha. }
  split.
  - destruct G as [-> _]. apply F.
  - rewrite decide_False by done. by eapply (flow_start i s s' inv).
  - intros j pc' o b Hj Hr' Hat Hb Hb32 Ht. destruct (decide (j = i)) as [->|Hne].
    + destruct Hat as [Hat Ho]. assert (pc' = pc) as -> by congruence. by eapply Huse.
    + eapply (H1 j pc' o b); [lia|done..|]. by rewrite decide_False.
  - intros j pc' o t Hj Hr' Hat Hs. destruct (decide (j = i)) as [->|Hne].
    + destruct Hat as [Hat Ho]. assert (pc' = pc) as -> by congruence. destruct (Hsucc o t Ho Hs) as [Hlt Ha].
      by rewrite decide_False by lia.
    + pose proof (H2 j pc' o t ltac:(lia) Hr' Hat Hs) as H. by rewrite (decide_False (P := j = i)) in H.
  - intros j pc' d' Hj Hd' Hu' Hpc' Hj'. destruct (decide (j = i)) as [->|Hne].
    + assert (pc' = pc) as -> by congruence. by apply Hjmp.
    + apply (H3 j pc' d'); try done. lia.
  - intros t d' e Hd' He. destruct (grows_back _ _ _ _ _ _ G Hd') as (d0 & Hd0 & _).
    destruct (Hbj t d0 d' e Hd0 Hd' He) as [Hold|(Hn1 & _ & Hn2)]; [by eapply bjumps_old|done].
  - intros t d' Ht Hd' Hb. destruct (decide (t = i)) as [->|Hne].
    { destruct Hr as (dr & Hdr & Hur). congruence. }
    destruct (grows_back _ _ _ _ _ _ G Hd') as (d0 & Hd0 & _ & Hsame). destruct (Hsame Hne) as [-> _].
    eapply (fi_marked _ _ _ F t d0); [lia|done|]. intros E.
    destruct (bjumps d') as [|e l] eqn:El; [done|]. destruct (Hbj t d0 d' e Hd0 Hd') as [Hin|(_ & Hlt & _)].
    + rewrite El. by left.
    + rewrite E in Hin. by apply not_elem_of_nil in Hin.
    + lia.
Qed.

Lemma mark_bjumps i u (dat : list insn_data) d t d0 d' e :
  dat !! i = Some d → dat !! t = Some d0 → <[i := set_unreachable d u]> dat !! t = Some d' → e ∈ bjumps d' → e ∈ bjumps d0.
Proof.
  intros Hd Hd0 Hd' He. destruct (decide (t = i)) as [->|Hne].
  - rewrite list_lookup_insert_eq in Hd' by (by eapply lookup_lt_Some). injection Hd' as <-.
    assert (d0 = d) as -> by congruence. exact He.
  - rewrite list_lookup_insert_ne in Hd' by done. assert (d0 = d') as -> by congruence. exact He.
Qed.

Lemma step_plain i pc s d inv s' :
  flow_inv i s inv → insns !! i = Some pc → p_dat s !! i = Some d →
  (match bjumps d with [] => p_unreachable s | _ => false end) = false → is_jmp pc = false →
  pass1_class bc insns i pc (entered i pc s d) = Some s' →
  flow_inv (S i) s' (λ j, if decide (j = i) then Z.lor (p_invalid s) (invalid d) else inv j).
Proof.
  intros F Hpc Hd Hu Hj Hc. destruct (entered_fields i pc s d) as (E1 & E2 & E3 & E4).
  destruct (class_keeps _ _ _ _ Hc Hj) as [K1 K2]. rewrite E1 in K1. rewrite E3 in K2.
  assert (grows i false (p_dat s) (p_dat s')) as G by (rewrite K1; by apply grows_mark).
  assert (∀ o, decode (i_code pc) = Some o → effect o pc (entered i pc s d) s') as He.
  { intros o Ho. eapply class_effect; [done|by eapply insn_ok_at| |done]. by rewrite <- (jumps_class pc o). }
  eapply step_reachable; try done.
  - intros o b Ho Hb Hb32 Ht. eapply (ef_uses _ _ _ _ (He o Ho)); [done|done|by rewrite E2].
  - intros o t Ho Hs. destruct Hs as [Hf Hl|b Hjo]; [|rewrite <- (jumps_class pc o Ho) in Hjo; congruence].
    split; [lia|]. left. split; [done|]. rewrite (ef_reach _ _ _ _ (He o Ho) Hf), E4 by done. split; [done|].
    intros b Hb [Ht Hnd]. eapply (ef_left _ _ _ _ (He o Ho) Hf); [done|by rewrite E2|done].
  - intros d' _ Hj'. congruence.
  - intros t d0 d' e Hd0 Hd' He'. left. rewrite K1 in Hd'. exact (mark_bjumps i false (p_dat s) d t d0 d' e Hd Hd0 Hd' He').
Qed.

Lemma uses_jump pc o b :
  decode (i_code pc) = Some o → jumps o = true → b ∈ uses o pc →
  b = A_bit ∨ b = X_bit ∧ BPF_SRC (i_code pc) = BPF_X.
Proof.
  intros Hd%decode_Some Hj Hb. rewrite Hd. destruct o as [| | | | | | | | | | | | | |t []| | | | | |]; try done; cbn [uses] in Hb.
  - by apply not_elem_of_nil in Hb.
  - apply elem_of_cons in Hb as [->|Hb]; [by left|]. apply list_elem_of_singleton in Hb as ->. right. split; [done|]. by destruct t.
  - apply list_elem_of_singleton in Hb as ->. by left.
Qed.

Lemma step_jump i pc s d inv s' :
  flow_inv i s inv → insns !! i = Some pc → p_dat s !! i = Some d →
  (match bjumps d with [] => p_unreachable s | _ => false end) = false → is_jmp pc = true →
  pass1_class bc insns i pc (entered i pc s d) = Some s' →
  flow_inv (S i) s' (λ j, if decide (j = i) then Z.lor (p_invalid s) (invalid d) else inv j).
Proof.
  intros F Hpc Hd Hu Hj Hc. destruct (entered_fields i pc s d) as (E1 & E2 & E3 & _).
  rewrite class_jmp in Hc by done. pose proof (grows_mark i false s d Hd) as [Gl0 G0].
  destruct (jmp_effect i pc (entered i pc s d) s') as (Hb & M & HA & HX & Hl & Hdat); try done.
  { by eapply insn_ok_at. } { by eapply lookup_lt_Some. } { rewrite E1, length_insert. apply F. }
  rewrite E1 in Hdat. rewrite E2 in HA, HX, Hdat. rewrite E3 in M.
  set (z := Z.lor (p_invalid s) (invalid d)) in *.
  assert (grows i false (p_dat s) (p_dat s')) as G.
  { split; [rewrite Hl; symmetry; apply F|]. intros x d0 Hx. destruct (G0 x d0 Hx) as (d1 & Hd1 & U1 & B1 & I1 & A1).
    destruct (Hdat x d1 Hd1) as (d2 & Hd2 & [U2 B2 I2 _ A2]). exists d2. split; [done|]. split; [congruence|].
    split; [etrans; [exact B1|]; rewrite B2, app_assoc; by eexists|].
    split; [by eapply sub_bits_trans|]. intros Hne. rewrite A2, decide_False by done. by apply A1. }
  assert (∀ b, ∃ d2, p_dat s' !! target i pc b = Some d2 ∧ sub_bits z (invalid d2) ∧
    (b = false ∨ target i pc true ≠ target i pc false → (i, b) ∈ bjumps d2) ∧ bjumps d2 ≠ []) as Htgt.
  { intros b. destruct (lookup_lt_is_Some_2 (p_dat s) (target i pc b)) as [d0 Hd0]; [rewrite (fi_len _ _ _ F); apply Hb|].
    destruct (G0 _ d0 Hd0) as (d1 & Hd1 & _). destruct (Hdat _ d1 Hd1) as (d2 & Hd2 & [_ B2 _ I2 _]).
    exists d2. split; [done|]. split; [apply I2; destruct b; auto|]. rewrite B2.
    split.
    - intros Hcond. destruct b.
      + destruct Hcond as [?|Hne]; [done|]. rewrite decide_True by done. set_solver.
      + rewrite (decide_True (P := target i pc false = target i pc false)) by done. set_solver.
    - intros Hnil. apply (f_equal length) in Hnil. rewrite !length_app in Hnil.
      destruct b; repeat case_decide; cbn in Hnil; try lia; naive_solver. }
  eapply step_reachable; try done.
  - intros o b Ho Hu' Hb32 Ht. destruct (uses_jump pc o b) as [->|[-> Hx]]; try done; [by rewrite <- (jumps_class pc o)|by apply HA|by apply HX].
  - intros o t Ho Hs. destruct Hs as [Hf _|b _].
    { rewrite (jumps_class pc o Ho) in Hj. by destruct o. }
    split; [apply Hb|]. right. destruct (Htgt b) as (d2 & Hd2 & I2 & _ & B2). exists d2. split; [done|]. split; [done|].
    intros b' Hb' [Ht _]. by apply I2.
  - intros d' Hd' _. split; [done|]. destruct (G0 i d Hd) as (d1 & Hd1 & _).
    destruct (Hdat i d1 Hd1) as (d2 & Hd2 & [_ _ _ _ A2]). rewrite decide_True in A2 by done.
    split; [congruence|]. intros b Hcond. destruct (Htgt b) as (d3 & Hd3 & _ & Hin & _). exists d3. split; [done|]. by apply Hin.
  - intros t d0 d' e Hd0 Hd' He. destruct (G0 t d0 Hd0) as (d1 & Hd1 & _).
    destruct (Hdat t d1 Hd1) as (d2 & Hd2 & [_ B2 _ _ _]). assert (d2 = d') as -> by congruence.
    assert (reach (p_dat s') i) as Hr.
    { destruct G as [_ G]. destruct (G i d Hd) as (d4 & Hd4 & U4 & _). exists d4. by rewrite decide_True in U4. }
    rewrite B2, !elem_of_app in He. clear B2. destruct He as [He|[He|He]].
    + case_decide as Hc'; [|by apply not_elem_of_nil in He]. apply list_elem_of_singleton in He as ->. right.
      split; [cbn; lia|]. destruct Hc' as [-> Hne]. split; [apply Hb|]. split; [done|]. by exists pc.
    + case_decide as Hc'; [|by apply not_elem_of_nil in He]. apply list_elem_of_singleton in He as ->. right.
      split; [cbn; lia|]. subst t. split; [apply Hb|]. split; [done|]. by exists pc.
    + left. exact (mark_bjumps i false (p_dat s) d t d0 d1 e Hd Hd0 Hd1 He).
Qed.

Lemma pass1_step i pc s s' inv :
  flow_inv i s inv → insns !! i = Some pc → pass1_insn bc insns i pc s = Some s' →
  ∃ z, flow_inv (S i) s' (λ j, if decide (j = i) then z else inv j).
Proof.
  intros F Hpc. unfold pass1_insn. destruct (p_dat s !! i) as [d|] eqn:Hd; [|done].
  destruct (match bjumps d with [] => p_unreachable s | _ => false end) eqn:Hu.
  - intros [= <-]. exists 0. by eapply step_unreachable.
  - intros Hc. eexists. destruct (is_jmp pc) eqn:Hj; [by eapply step_jump|by eapply step_plain].
Qed.

Lemma pass1_loop_inv l i s s' inv :
  flow_inv i s inv → drop i insns = l → (i ≤ length insns)%nat → pass1_loop bc insns i l s = Some s' →
  ∃ inv', flow_inv (length insns) s' inv'.
Proof.
  revert i s inv. induction l as [|pc l IH]; intros i s inv F Hl Hi; cbn.
  - intros [= <-]. exists inv. apply (f_equal length) in Hl. rewrite length_drop in Hl. cbn in Hl.
    by replace (length insns) with i by lia.
  - assert (insns !! i = Some pc) as Hpc by (rewrite <- (Nat.add_0_r i), <- lookup_drop, Hl; done).
    destruct (pass1_insn bc insns i pc s) as [s1|] eqn:E; [|done]. cbn [mbind option_bind].
    destruct (pass1_step i pc s s1 inv F Hpc E) as [z F1]. apply (IH _ _ _ F1).
    + by rewrite <- Nat.add_1_r, <- drop_drop, Hl.
    + pose proof (lookup_lt_Some _ _ _ Hpc). lia.
Qed.

Lemma init_data dat t d : optimize_init dat !! t = Some d → bjumps d = [].
Proof. unfold optimize_init. rewrite list_lookup_fmap. destruct (dat !! t); [|done]. by intros [= <-]. Qed.

(** What the first pass establishes. *)
Lemma pass1_correct dat s :
  length dat = length insns → optimize_pass1 bc insns (optimize_init dat) = Some s →
  ∃ inv, flow_inv (length insns) s inv.
Proof.
  intros Hl Hp. eapply (pass1_loop_inv insns 0 _ _ (λ _, 0)); [|done|lia|exact Hp].
  split; cbn [p_dat p_unreachable p_invalid p_initmask]; try (intros; lia).
  - unfold optimize_init. by rewrite length_fmap.
  - rewrite decide_True by done. left. split; [done|]. split; [done|]. intros b Hb _.
    change (Z.testbit (not32 0) b = true). rewrite not32_testbit by done. by rewrite Z.testbit_0_l.
  - intros t d e Hd He. apply init_data in Hd. rewrite Hd in He. by apply not_elem_of_nil in He.
Qed.

End Flow.
