(* ===== verification/BpfBounds.v ===== *)
(** * The second and the third pass of the optimizer

    The second pass gives every reachable instruction a length such that on a shorter packet
    the program, from there on, returns 0 and has no effect. The third pass decides which
    reads must check it: at every instruction some length is known to have been checked. *)

From S2P Require Import Prelude BpfInsn BpfOpt BpfFlow.

(** ** Data that keep the flow *)

Definition same_flow (dat dat' : list insn_data) : Prop :=
  length dat' = length dat ∧
  ∀ x d, dat !! x = Some d → ∃ d', dat' !! x = Some d' ∧ bjumps d' = bjumps d ∧ unreachable d' = unreachable d.

Lemma same_flow_refl dat : same_flow dat dat.
Proof. split; [done|]. intros x d Hd. by exists d. Qed.

Lemma same_flow_trans d1 d2 d3 : same_flow d1 d2 → same_flow d2 d3 → same_flow d1 d3.
Proof.
  intros [L1 H1] [L2 H2]. split; [congruence|]. intros x d Hd. destruct (H1 x d Hd) as (d' & Hd' & B1 & U1).
  destruct (H2 x d' Hd') as (d'' & Hd'' & B2 & U2). exists d''. split; [done|]. split; congruence.
Qed.

Lemma same_flow_back dat dat' x d' :
  same_flow dat dat' → dat' !! x = Some d' → ∃ d, dat !! x = Some d ∧ bjumps d' = bjumps d ∧ unreachable d' = unreachable d.
Proof.
  intros [L H] Hd'. destruct (lookup_lt_is_Some_2 dat x) as [d Hd]; [rewrite <- L; by eapply lookup_lt_Some|].
  destruct (H x d Hd) as (d2 & Hd2 & B & U). assert (d2 = d') as -> by congruence. by exists d.
Qed.

Lemma same_flow_reach dat dat' x : same_flow dat dat' → reach dat' x ↔ reach dat x.
Proof.
  intros H. split; intros (d & Hd & Hu).
  - destruct (same_flow_back _ _ _ _ H Hd) as (d0 & Hd0 & _ & U). exists d0. split; [done|congruence].
  - destruct H as [_ H]. destruct (H x d Hd) as (d' & Hd' & _ & U). exists d'. split; [done|congruence].
Qed.

Lemma same_flow_insert dat i d d' :
  dat !! i = Some d → bjumps d' = bjumps d → unreachable d' = unreachable d → same_flow dat (<[i := d']> dat).
Proof.
  intros Hd B U. split; [apply length_insert|]. intros x d0 Hx. destruct (decide (x = i)) as [->|Hne].
  - rewrite list_lookup_insert_eq by (by eapply lookup_lt_Some). assert (d0 = d) as -> by congruence. by exists d'.
  - rewrite list_lookup_insert_ne by done. by exists d0.
Qed.

(** A jump leads to a target that is recorded. *)
Lemma recorded_branch j pc b :
  ∃ b', (b' = false ∨ target j pc true ≠ target j pc false) ∧ target j pc b' = target j pc b.
Proof.
  destruct b; [|by exists false; auto]. destruct (decide (target j pc true = target j pc false)) as [E|E];
    [exists false; auto|exists true; auto].
Qed.

Section Bounds.

Context {W : Type} (bc : option (bpf_ctx W)) (insns : list bpf_insn) (D : list insn_data).

Hypothesis D_len : length D = length insns.
Hypothesis D_jumps : ∀ j pc d, D !! j = Some d → unreachable d = false → insns !! j = Some pc → is_jmp pc = true →
  branches_ok insns j pc ∧ j_abc_length d = MAX_ABC_LENGTH ∧ recorded D j pc.
Hypothesis D_bjumps : ∀ t d e, D !! t = Some d → e ∈ bjumps d → jump_to insns D t e.

Hypothesis D_marked : ∀ t d, D !! t = Some d → bjumps d ≠ [] → unreachable d = false.

(** The jumps to an instruction come from before it. *)
Lemma bjump_before t d e : D !! t = Some d → e ∈ bjumps d → (fst e < t)%nat ∧ reach D (fst e).
Proof.
  intros Hd He. destruct (D_bjumps t d e Hd He) as [Hr (pc & Hpc & Hj & -> & _)]. split; [|done].
  destruct Hr as (d0 & Hd0 & Hu). by apply (D_jumps _ _ _ Hd0 Hu Hpc Hj).
Qed.

(** ** The second pass *)

Lemma lower_abc_spec abc l dat :
  same_flow dat (foldl (lower_abc abc) dat l) ∧
  ∀ x d d', dat !! x = Some d → foldl (lower_abc abc) dat l !! x = Some d' →
    r_abc_length d' = r_abc_length d ∧ j_abc_length d' ≤ j_abc_length d ∧
    ((∃ b, (x, b) ∈ l) → j_abc_length d' ≤ abc).
Proof.
  revert dat. induction l as [|[y b0] l IH]; intros dat; cbn [foldl].
  { split; [apply same_flow_refl|]. intros x d d' Hd Hd'. assert (d' = d) as -> by congruence.
    split; [done|]. split; [done|]. intros [b Hb]. by apply not_elem_of_nil in Hb. }
  destruct (IH (lower_abc abc dat (y, b0))) as [S1 H1]. unfold lower_abc in *. cbn [fst] in *.
  set (low := λ d, if abc <? j_abc_length d then set_j_abc d abc else d) in *.
  assert (∀ d, bjumps (low d) = bjumps d ∧ unreachable (low d) = unreachable d ∧ r_abc_length (low d) = r_abc_length d ∧
    j_abc_length (low d) ≤ j_abc_length d ∧ j_abc_length (low d) ≤ abc) as Hlow.
  { intros d. unfold low. destruct (Z.ltb_spec abc (j_abc_length d)); cbn; split_and!; try done; lia. }
  assert (same_flow dat (alter low y dat)) as S0.
  { split; [apply length_alter|]. intros x d Hd. rewrite (lookup_alter_if _ _ _ _ _ Hd). eexists. split; [done|].
    case_decide; [|done]. by destruct (Hlow d) as (-> & -> & _). }
  split; [by eapply same_flow_trans|]. intros x d d' Hd Hd'.
  destruct (H1 x _ d' (lookup_alter_if low y dat x d Hd) Hd') as (E1 & E2 & E3).
  destruct (Hlow d) as (_ & _ & L1 & L2 & L3). case_decide as Hxy.
  - split; [congruence|]. split; [lia|]. lia.
  - split; [congruence|]. split; [lia|]. intros [b Hb]. apply E3. apply elem_of_cons in Hb as [[= -> ->]|Hb]; [done|by exists b].
Qed.

Record pass2_inv (i : nat) (dat : list insn_data) (a : Z) (abc : nat → Z) : Prop := {
  p2_flow : same_flow D dat;
  p2_read : ∀ j pc d n, (i ≤ j)%nat → dat !! j = Some d → unreachable d = false → insns !! j = Some pc →
    read_pkt_insn pc = Some n → r_abc_length d = abc j;
  p2_next : ∀ j pc, (i ≤ j)%nat → reach D j → insns !! j = Some pc → is_jmp pc = false →
    ∃ d a', abc j = pass2_length bc pc d a' ∧ (reach D (S j) → a' = abc (S j));
  p2_jump : ∀ j pc b, (i ≤ j)%nat → reach D j → insns !! j = Some pc → is_jmp pc = true → abc j ≤ abc (target j pc b);
  p2_source : ∀ t d e d0, (i ≤ t)%nat → dat !! t = Some d → unreachable d = false → e ∈ bjumps d → (fst e < i)%nat →
    dat !! fst e = Some d0 → j_abc_length d0 ≤ abc t;
  p2_here : reach D i → a = abc i;
}.

Lemma jmp_no_read pc : is_jmp pc = true → read_pkt_insn pc = None.
Proof. unfold is_jmp, read_pkt_insn. intros ->%Z.eqb_eq. done. Qed.

(** An instruction that is not reached. *)
Lemma pass2_skip i dat a abc : pass2_inv (S i) dat a abc → ¬ reach D i → pass2_inv i dat a abc.
Proof.
  intros P Hn. assert (∀ d, dat !! i = Some d → unreachable d = false → False) as Hno.
  { intros d Hd Hu. destruct (same_flow_back _ _ _ _ (p2_flow _ _ _ _ P) Hd) as (dD & HdD & _ & UD). apply Hn. exists dD. by rewrite <- UD. }
  split; [apply P|..].
  - intros j pc' d' n Hj Hd' Hu'. destruct (decide (j = i)) as [->|]; [by destruct (Hno d')|]. eapply P; [lia|done..].
  - intros j pc' Hj Hr. destruct (decide (j = i)) as [->|]; [done|]. eapply P; [lia|done].
  - intros j pc' b Hj Hr. destruct (decide (j = i)) as [->|]; [done|]. eapply P; [lia|done].
  - intros t d' e d0 Ht Hd' Hu' He Hlt Hd0. destruct (decide (t = i)) as [->|]; [by destruct (Hno d')|].
    eapply (p2_source _ _ _ _ P t); try done; lia.
  - done.
Qed.

(** The data behind an instruction whose length is [new]. *)
Definition pass2_data (i : nat) (pc : bpf_insn) (d : insn_data) (new : Z) (dat : list insn_data) : list insn_data :=
  foldl (lower_abc new) (match read_pkt_insn pc with Some _ => <[i := set_r_abc d new]> dat | None => dat end) (bjumps d).

Lemma pass2_data_spec i pc d new dat x d0 :
  dat !! i = Some d → dat !! x = Some d0 →
  ∃ d2, pass2_data i pc d new dat !! x = Some d2 ∧ bjumps d2 = bjumps d0 ∧ unreachable d2 = unreachable d0 ∧
    j_abc_length d2 ≤ j_abc_length d0 ∧ ((∃ b, (x, b) ∈ bjumps d) → j_abc_length d2 ≤ new) ∧
    (x ≠ i → r_abc_length d2 = r_abc_length d0) ∧ (x = i → read_pkt_insn pc ≠ None → r_abc_length d2 = new).
Proof.
  intros Hd H0. unfold pass2_data.
  set (dat1 := match read_pkt_insn pc with Some _ => <[i := set_r_abc d new]> dat | None => dat end).
  assert (∃ d1, dat1 !! x = Some d1 ∧ bjumps d1 = bjumps d0 ∧ unreachable d1 = unreachable d0 ∧ j_abc_length d1 = j_abc_length d0 ∧
    (x ≠ i → r_abc_length d1 = r_abc_length d0) ∧ (x = i → read_pkt_insn pc ≠ None → r_abc_length d1 = new))
    as (d1 & Hd1 & B1 & U1 & J1 & R1 & R1').
  { subst dat1. destruct (read_pkt_insn pc); [|by exists d0]. destruct (decide (x = i)) as [->|Hne].
    - rewrite list_lookup_insert_eq by (by eapply lookup_lt_Some). simplify_eq. by eexists.
    - rewrite list_lookup_insert_ne by done. by exists d0. }
  destruct (lower_abc_spec new (bjumps d) dat1) as [[_ S2] H2]. destruct (S2 x d1 Hd1) as (d2 & Hd2 & B2 & U2).
  destruct (H2 x d1 d2 Hd1 Hd2) as (R2 & J2 & J2'). exists d2. split_and!; [done|congruence|congruence|lia|done|..].
  - intros. rewrite R2. by apply R1.
  - intros. rewrite R2. by apply R1'.
Qed.

Lemma pass2_data_flow i pc d new dat : dat !! i = Some d → same_flow dat (pass2_data i pc d new dat).
Proof.
  intros Hd. unfold pass2_data. eapply same_flow_trans; [|apply lower_abc_spec].
  destruct (read_pkt_insn pc); [by eapply same_flow_insert|apply same_flow_refl].
Qed.

(** A jump is in the list of each of its targets. *)
Lemma jump_recorded i pc b :
  reach D i → insns !! i = Some pc → is_jmp pc = true →
  (i < target i pc b)%nat ∧ ∃ dt b', D !! target i pc b = Some dt ∧ unreachable dt = false ∧ (i, b') ∈ bjumps dt.
Proof.
  intros (dD & HdD & Hu) Hpc Hjmp. destruct (D_jumps i pc dD HdD Hu Hpc Hjmp) as (Hb & _ & Hrec). split; [by apply Hb|].
  destruct (recorded_branch i pc b) as (b' & Hb' & <-).
  destruct (Hrec b' Hb') as (dt & Hdt & Hin). exists dt, b'. split; [done|]. split; [|done].
  eapply D_marked; [done|]. intros E. rewrite E in Hin. by apply not_elem_of_nil in Hin.
Qed.

Lemma pass2_length_jmp pc d a : is_jmp pc = true → pass2_length bc pc d a = j_abc_length d.
Proof. unfold is_jmp, pass2_length. by intros ->%Z.eqb_eq. Qed.

Lemma pass2_reached i pc dat a abc d :
  pass2_inv (S i) dat a abc → insns !! i = Some pc → dat !! i = Some d → reach D i →
  let new := pass2_length bc pc d a in
  pass2_inv i (pass2_data i pc d new dat) new (λ j, if decide (j = i) then new else abc j).
Proof.
  intros P Hpc Hd Hri new. pose proof (p2_flow _ _ _ _ P) as SF.
  pose proof (pass2_data_flow i pc d new dat Hd) as S12. pose proof (λ x d0, pass2_data_spec i pc d new dat x d0 Hd) as Hx.
  split.
  - by eapply same_flow_trans.
  - intros j pc' d' n Hj Hd' Hu' Hpc' Hrd. destruct (same_flow_back _ _ _ _ S12 Hd') as (d0 & Hd0 & _ & U0).
    destruct (Hx j d0 Hd0) as (d2 & Hd2 & _ & _ & _ & _ & R & R'). assert (d2 = d') as -> by congruence.
    destruct (decide (j = i)) as [->|Hne].
    + apply R'; [done|]. assert (pc' = pc) as -> by congruence. by rewrite Hrd.
    + rewrite R by done. eapply (p2_read _ _ _ _ P); try done; [lia|congruence].
  - intros j pc' Hj Hr Hpc' Hnj. destruct (decide (j = i)) as [->|Hne].
    + assert (pc' = pc) as -> by congruence. exists d, a. split; [done|]. intros Hr'. rewrite decide_False by lia. by apply P.
    + destruct (p2_next _ _ _ _ P j pc' ltac:(lia) Hr Hpc' Hnj) as (d0 & a' & -> & Ha). exists d0, a'. split; [done|].
      by rewrite decide_False by lia.
  - intros j pc' b Hj Hr Hpc' Hjmp. destruct (jump_recorded j pc' b Hr Hpc' Hjmp) as (Hlt & dt & b' & Hdt & Hut & Hin).
    rewrite (decide_False (P := target j pc' b = i)) by lia. destruct (decide (j = i)) as [->|Hne]; [|apply P; (done || lia)].
    assert (pc' = pc) as -> by congruence. subst new. rewrite pass2_length_jmp by done.
    destruct SF as [_ SF]. destruct (SF _ dt Hdt) as (dt' & Hdt' & Bt & Ut).
    eapply (p2_source _ _ _ _ P _ dt' (i, b')); [lia|done|by rewrite Ut|by rewrite Bt|cbn; lia|done].
  - intros t d' e d0 Ht Hd' Hu' He Hlt Hd0.
    destruct (same_flow_back _ _ _ _ S12 Hd') as (t0 & Ht0 & Bt & Ut). rewrite Bt in He.
    destruct (same_flow_back _ _ _ _ S12 Hd0) as (s0 & Hs0 & _ & _).
    destruct (Hx _ s0 Hs0) as (d2 & Hd2 & _ & _ & J2 & J2' & _). assert (d2 = d0) as -> by congruence.
    destruct (decide (t = i)) as [->|Hne].
    + apply J2'. assert (t0 = d) as -> by congruence. exists (snd e). by destruct e.
    + etrans; [exact J2|]. eapply (p2_source _ _ _ _ P t t0 e); try done; [lia|congruence|lia].
  - by rewrite decide_True.
Qed.

Lemma pass2_step i pc dat a abc dat' a' :
  pass2_inv (S i) dat a abc → insns !! i = Some pc → pass2_insn bc i pc (dat, a) = Some (dat', a') →
  ∃ abc', pass2_inv i dat' a' abc'.
Proof.
  intros P Hpc. unfold pass2_insn. destruct (dat !! i) as [d|] eqn:Hd; [|done].
  destruct (same_flow_back _ _ _ _ (p2_flow _ _ _ _ P) Hd) as (dD & HdD & _ & UD). destruct (unreachable d) eqn:Hu; intros [= <- <-].
  - exists abc. apply pass2_skip; [done|]. intros (x & Hx & Hux). congruence.
  - eexists. eapply (pass2_reached i pc dat a abc d); try done. exists dD. split; [done|]. congruence.
Qed.

Lemma pass2_loop_inv l i s dat a :
  drop i insns = l → (i ≤ length insns)%nat → (∃ abc, pass2_inv (length insns) (fst s) (snd s) abc) →
  pass2_loop bc i l s = Some (dat, a) → ∃ abc, pass2_inv i dat a abc.
Proof.
  revert i dat a. induction l as [|pc l IH]; intros i dat a Hl Hi Hs; cbn.
  - intros [= ->]. apply (f_equal length) in Hl. rewrite length_drop in Hl. cbn in Hl.
    by replace i with (length insns) by lia.
  - assert (insns !! i = Some pc) as Hpc by (rewrite <- (Nat.add_0_r i), <- lookup_drop, Hl; done).
    pose proof (lookup_lt_Some _ _ _ Hpc). destruct (pass2_loop bc (S i) l s) as [[dat1 a1]|] eqn:E; [|done].
    cbn [mbind option_bind]. intros H2. destruct (IH (S i) dat1 a1) as [abc P]; [|lia|done|done|by eapply pass2_step].
    by rewrite <- Nat.add_1_r, <- drop_drop, Hl.
Qed.

Lemma pass2_correct dat : optimize_pass2 bc insns D = Some dat → ∃ a abc, pass2_inv 0 dat a abc.
Proof.
  unfold optimize_pass2. destruct (pass2_loop bc 0 insns (D, 0)) as [[dat' a]|] eqn:E; [|done]. intros [= <-].
  exists a. eapply (pass2_loop_inv insns 0 (D, 0)); [done|lia| |exact E]. exists (λ _, 0). cbn [fst snd].
  assert (∀ j d, D !! j = Some d → (length insns ≤ j)%nat → False) as Hout.
  { intros j d Hj. apply lookup_lt_Some in Hj. lia. }
  split; [apply same_flow_refl|..]; intros; exfalso; eauto;
    match goal with H : reach D _ |- _ => destruct H as (? & ? & _); eauto end.
Qed.

(** ** The third pass *)

Lemma lower_checked_spec dat c l :
  foldl (lower_checked dat) c l ≤ c ∧
  ∀ e d, e ∈ l → dat !! fst e = Some d → foldl (lower_checked dat) c l ≤ j_checked_length d.
Proof.
  revert c. induction l as [|e0 l IH]; intros c; cbn [foldl]; [split; [lia|]; intros e d He; by apply not_elem_of_nil in He|].
  destruct (IH (lower_checked dat c e0)) as [H1 H2].
  assert (lower_checked dat c e0 ≤ c ∧ ∀ d, dat !! fst e0 = Some d → lower_checked dat c e0 ≤ j_checked_length d) as [L1 L2].
  { unfold lower_checked. destruct (dat !! fst e0) as [d|]; [|split; [lia|done]].
    destruct (Z.ltb_spec (j_checked_length d) c); (split; [lia|]); intros ? [= <-]; lia. }
  split; [lia|]. intros e d He Hd. apply elem_of_cons in He as [->|He]; [specialize (L2 d Hd); lia|by eapply H2].
Qed.

(** Data that keep what the second pass has found. *)
Definition same_abc (dat dat' : list insn_data) : Prop :=
  same_flow dat dat' ∧ ∀ x d d', dat !! x = Some d → dat' !! x = Some d' → r_abc_length d' = r_abc_length d.

Lemma same_abc_insert dat i d d' :
  dat !! i = Some d → bjumps d' = bjumps d → unreachable d' = unreachable d → r_abc_length d' = r_abc_length d →
  same_abc dat (<[i := d']> dat).
Proof.
  intros Hd B U R. split; [by eapply same_flow_insert|]. intros x d0 d1 H0 H1. destruct (decide (x = i)) as [->|Hne].
  - rewrite list_lookup_insert_eq in H1 by (by eapply lookup_lt_Some). injection H1 as <-. congruence.
  - rewrite list_lookup_insert_ne in H1 by done. congruence.
Qed.

Lemma same_abc_trans d1 d2 d3 : same_abc d1 d2 → same_abc d2 d3 → same_abc d1 d3.
Proof.
  intros [S1 H1] [S2 H2]. split; [by eapply same_flow_trans|]. intros x d d' Hd Hd'. destruct S1 as [_ S1].
  destruct (S1 x d Hd) as (d0 & Hd0 & _). rewrite (H2 x d0 d' Hd0 Hd'). by eapply H1.
Qed.

(** The data behind the second pass; [chk j] is the length that is known when [j] starts,
    [aft j] the one when it ends. *)
Context (E : list insn_data).
Hypothesis E_flow : same_flow D E.

Record pass3_inv (i : nat) (dat : list insn_data) (c : Z) (chk aft : nat → Z) : Prop := {
  p3_abc : same_abc E dat;
  p3_read : ∀ j pc d n, (j < i)%nat → dat !! j = Some d → unreachable d = false → insns !! j = Some pc →
    read_pkt_insn pc = Some n →
    r_check_length d = (if chk j <? r_abc_length d then r_abc_length d else 0) ∧ aft j = Z.max (chk j) (r_abc_length d);
  p3_plain : ∀ j pc, (j < i)%nat → reach D j → insns !! j = Some pc → read_pkt_insn pc = None → aft j = chk j;
  p3_jump : ∀ j pc d, (j < i)%nat → dat !! j = Some d → unreachable d = false → insns !! j = Some pc → is_jmp pc = true →
    j_checked_length d = chk j;
  p3_next : ∀ j, (S j < i)%nat → reach D j → reach D (S j) → chk (S j) ≤ aft j;
  p3_here : ∀ j, i = S j → reach D j → c = aft j;
  p3_source : ∀ t d e, (t < i)%nat → D !! t = Some d → e ∈ bjumps d → chk t ≤ chk (fst e);
  p3_start : if decide (i = 0%nat) then c = 0 else reach D 0 → chk 0%nat ≤ 0;
}.

Lemma p3_flow i dat c chk aft : pass3_inv i dat c chk aft → same_flow D dat.
Proof. intros P. eapply same_flow_trans; [exact E_flow|]. apply (p3_abc _ _ _ _ _ P). Qed.

(** An instruction that is not reached. *)
Lemma pass3_skip i dat c chk aft : pass3_inv i dat c chk aft → ¬ reach D i → pass3_inv (S i) dat c chk aft.
Proof.
  intros P Hn. assert (∀ d, dat !! i = Some d → unreachable d = false → False) as Hno.
  { intros d Hd Hu. destruct (same_flow_back _ _ _ _ (p3_flow _ _ _ _ _ P) Hd) as (dD & HdD & _ & UD). apply Hn. exists dD. by rewrite <- UD. }
  split; [apply P|..].
  - intros j pc' d' n Hj Hd' Hu'. destruct (decide (j = i)) as [->|]; [by destruct (Hno d')|]. eapply P; [lia|done..].
  - intros j pc' Hj Hr. destruct (decide (j = i)) as [->|]; [done|]. eapply P; [lia|done].
  - intros j pc' d' Hj Hd' Hu'. destruct (decide (j = i)) as [->|]; [by destruct (Hno d')|]. eapply P; [lia|done..].
  - intros j Hj Hr1 Hr2. destruct (decide (S j = i)) as [<-|]; [done|]. eapply P; [lia|done..].
  - intros j [= ->] Hr. done.
  - intros t dt e Ht Hdt He. destruct (decide (t = i)) as [->|]; [|eapply P; [lia|done..]].
    destruct Hn. exists dt. split; [done|]. eapply D_marked; [done|]. intros E0. rewrite E0 in He. by apply not_elem_of_nil in He.
  - rewrite decide_False by done. intros Hr. pose proof (p3_start _ _ _ _ _ P) as Hs.
    destruct (decide (i = 0%nat)) as [->|]; [done|by apply Hs].
Qed.

(** The data [d'] of an instruction and the length [a'] behind it, when [new] is known
    before it. *)
Record pass3_data (pc : bpf_insn) (d d' : insn_data) (new a' : Z) : Prop := {
  p3d_bjumps : bjumps d' = bjumps d;
  p3d_unreachable : unreachable d' = unreachable d;
  p3d_abc : r_abc_length d' = r_abc_length d;
  p3d_jump : is_jmp pc = true → j_checked_length d' = new;
  p3d_read : ∀ n, read_pkt_insn pc = Some n →
    r_check_length d' = (if new <? r_abc_length d then r_abc_length d else 0) ∧ a' = Z.max new (r_abc_length d);
  p3d_plain : read_pkt_insn pc = None → a' = new;
}.

Lemma pass3_insn_data i pc dat c d dat' c' :
  dat !! i = Some d → unreachable d = false → pass3_insn i pc (dat, c) = Some (dat', c') →
  ∃ d', dat' = <[i := d']> dat ∧ pass3_data pc d d' (foldl (lower_checked dat) c (bjumps d)) c'.
Proof.
  intros Hd Hu. unfold pass3_insn. rewrite Hd, Hu. set (new := foldl _ _ _).
  destruct (Z.eqb_spec (BPF_CLASS (i_code pc)) BPF_JMP) as [Ej|Ej].
  - intros [= <- <-]. eexists. split; [done|]. assert (is_jmp pc = true) as Hj by (unfold is_jmp; by apply Z.eqb_eq).
    split; cbn; rewrite ?jmp_no_read by done; done.
  - assert (is_jmp pc = false) as Hj by (unfold is_jmp; by apply Z.eqb_neq). destruct (read_pkt_insn pc) as [n|] eqn:Er.
    + destruct (Z.ltb_spec new (r_abc_length d)) as [Hl|Hl]; intros [= <- <-]; eexists; (split; [done|]); split; try done;
        cbn; rewrite ?Hj, ?Er; try done; intros ? _; [rewrite (proj2 (Z.ltb_lt _ _) Hl)|rewrite (proj2 (Z.ltb_ge _ _) Hl)];
        (split; [done|lia]).
    + intros [= <- <-]. exists d. rewrite list_insert_id by done. split; [done|]. split; rewrite ?Hj, ?Er; done.
Qed.

Lemma pass3_reached i pc dat c chk aft d d' a' :
  pass3_inv i dat c chk aft → insns !! i = Some pc → dat !! i = Some d →
  let new := foldl (lower_checked dat) c (bjumps d) in pass3_data pc d d' new a' →
  pass3_inv (S i) (<[i := d']> dat) a' (λ j, if decide (j = i) then new else chk j) (λ j, if decide (j = i) then a' else aft j).
Proof.
  intros P Hpc Hd new [B U R HJ HR HN].
  pose proof (p3_abc _ _ _ _ _ P) as SA. pose proof (p3_flow _ _ _ _ _ P) as SF.
  destruct (same_flow_back _ _ _ _ SF Hd) as (dD & HdD & BD & UD). pose proof (lookup_lt_Some _ _ _ Hd) as Hlt.
  destruct (lower_checked_spec dat c (bjumps d)) as [L1 L2]. fold new in L1, L2.
  assert (same_abc dat (<[i := d']> dat)) as SA2 by (eapply same_abc_insert; done).
  assert (∀ (f : nat → Z) v j, j ≠ i → (if decide (j = i) then v else f j) = f j) as Hne by (intros; by rewrite decide_False).
  assert (∀ j dj, j ≠ i → <[i := d']> dat !! j = Some dj → dat !! j = Some dj) as Hold by (intros j dj Hj; by rewrite list_lookup_insert_ne).
  assert (<[i := d']> dat !! i = Some d') as Hnew by (by rewrite list_lookup_insert_eq).
  split.
  - by eapply same_abc_trans.
  - intros j pc' dj n Hj Hdj Huj Hpcj Hrd. destruct (decide (j = i)) as [->|Hji].
    + assert (dj = d') as -> by congruence. assert (pc' = pc) as -> by congruence. rewrite R. by eapply HR.
    + eapply (p3_read _ _ _ _ _ P); [lia|by apply Hold|done..].
  - intros j pc' Hj Hr Hpcj Hrd. destruct (decide (j = i)) as [->|Hji].
    + assert (pc' = pc) as -> by congruence. by apply HN.
    + eapply P; [lia|done..].
  - intros j pc' dj Hj Hdj Huj Hpcj Hjmp. destruct (decide (j = i)) as [->|Hji].
    + assert (dj = d') as -> by congruence. assert (pc' = pc) as -> by congruence. by apply HJ.
    + eapply (p3_jump _ _ _ _ _ P); [lia|by apply Hold|done..].
  - intros j Hj Hr1 Hr2. rewrite (Hne aft) by lia. destruct (decide (S j = i)) as [Hsi|].
    + rewrite <- (p3_here _ _ _ _ _ P j (eq_sym Hsi) Hr1). lia.
    + eapply (p3_next _ _ _ _ _ P); [lia|done..].
  - intros j [= <-] _. by rewrite decide_True.
  - intros t dt e Ht Hdt He. destruct (bjump_before t dt e Hdt He) as [Hb Hr]. rewrite (Hne chk _ (fst e)) by lia.
    destruct (decide (t = i)) as [->|Hti]; [|eapply (p3_source _ _ _ _ _ P); [lia|done..]].
    assert (dt = dD) as -> by congruence. rewrite <- BD in He.
    destruct Hr as (ds & Hds & Hus). destruct SF as [_ SF]. destruct (SF _ ds Hds) as (ds' & Hds' & _ & Us).
    destruct (D_bjumps i dD e HdD ltac:(by rewrite <- BD)) as [_ (pcs & Hpcs & Hjs & _)].
    erewrite <- (p3_jump _ _ _ _ _ P (fst e) pcs ds'); [by eapply L2|done|done|congruence|done|done].
  - rewrite (decide_False (P := S i = 0%nat)) by done. intros Hr. pose proof (p3_start _ _ _ _ _ P) as Hs.
    destruct (decide (i = 0%nat)) as [->|Hi0].
    + rewrite decide_True by done. lia.
    + rewrite decide_False by lia. by apply Hs.
Qed.

Lemma pass3_step i pc dat c chk aft dat' c' :
  pass3_inv i dat c chk aft → insns !! i = Some pc → pass3_insn i pc (dat, c) = Some (dat', c') →
  ∃ chk' aft', pass3_inv (S i) dat' c' chk' aft'.
Proof.
  intros P Hpc H3. destruct (dat !! i) as [d|] eqn:Hd; [|unfold pass3_insn in H3; by rewrite Hd in H3].
  destruct (same_flow_back _ _ _ _ (p3_flow _ _ _ _ _ P) Hd) as (dD & HdD & _ & UD). destruct (unreachable d) eqn:Hu.
  - unfold pass3_insn in H3. rewrite Hd, Hu in H3. injection H3 as <- <-. exists chk, aft. apply pass3_skip; [done|].
    intros (x & Hx & Hux). congruence.
  - destruct (pass3_insn_data _ _ _ _ _ _ _ Hd Hu H3) as (d' & -> & Hd'). eexists _, _. by eapply pass3_reached.
Qed.

Lemma pass3_loop_inv l i s dat c chk aft :
  drop i insns = l → (i ≤ length insns)%nat → pass3_inv i (fst s) (snd s) chk aft →
  pass3_loop i l s = Some (dat, c) → ∃ chk aft, pass3_inv (length insns) dat c chk aft.
Proof.
  revert i s chk aft. induction l as [|pc l IH]; intros i [dat0 c0] chk aft Hl Hi P; cbn [pass3_loop].
  - intros [= <- <-]. exists chk, aft. apply (f_equal length) in Hl. rewrite length_drop in Hl. cbn in Hl.
    by replace (length insns) with i by lia.
  - assert (insns !! i = Some pc) as Hpc by (rewrite <- (Nat.add_0_r i), <- lookup_drop, Hl; done).
    pose proof (lookup_lt_Some _ _ _ Hpc). destruct (pass3_insn i pc (dat0, c0)) as [[dat1 c1]|] eqn:E3; [|done].
    cbn [mbind option_bind]. intros H3. destruct (pass3_step _ _ _ _ _ _ _ _ P Hpc E3) as (chk1 & aft1 & P1).
    eapply (IH (S i) (dat1, c1)); [|lia|exact P1|exact H3]. by rewrite <- Nat.add_1_r, <- drop_drop, Hl.
Qed.

Lemma pass3_correct dat : optimize_pass3 insns E = Some dat → ∃ c chk aft, pass3_inv (length insns) dat c chk aft.
Proof.
  unfold optimize_pass3. destruct (pass3_loop 0 insns (E, 0)) as [[dat' c]|] eqn:E3; [|done]. intros [= <-].
  exists c. eapply (pass3_loop_inv insns 0 (E, 0) _ _ (λ _, 0) (λ _, 0)); [done|lia| |exact E3]. cbn [fst snd].
  split; try (intros; lia).
  - split; [apply same_flow_refl|]. intros x d d' Hd Hd'. congruence.
  - done.
Qed.

End Bounds.
