(* ===== verification/BpfSound.v ===== *)
(** * The optimizer is sound

    The facts of the three passes together, for a program that [optimize] accepts, and what
    they mean for a run: on a packet that is shorter than the length found for an instruction,
    a run from there returns 0 and changes nothing. *)

From S2P Require Import Prelude BpfInsn BpfOpt BpfFlow BpfBounds.

(** ** Hints *)

Definition op_hints (o : bpf_op) : list Z :=
  match o with
  | LdInd _ | Stx | Tax | Txa => [BJ_HINT_XREG]
  | LdxImm | LdxLen | LdxMem | LdxMsh => [BJ_HINT_XREG; BJ_HINT_LDX]
  | Alu _ true | Jcc _ true => [BJ_HINT_XREG]
  | Cop => [BJ_HINT_COP]
  | Copx => [BJ_HINT_COP; BJ_HINT_XREG]
  | _ => []
  end.

Lemma has_hint_lor a b h : has_hint (Z.lor a b) h = has_hint a h || has_hint b h.
Proof.
  unfold has_hint. rewrite Z.land_lor_distr_l. destruct (Z.eqb_spec (Z.land a h) 0) as [->|Ha]; [by rewrite Z.lor_0_l|].
  destruct (Z.eqb_spec (Z.lor (Z.land a h) (Z.land b h)) 0) as [E|E]; [|done]. apply Z.lor_eq_0_iff in E as [? _]. done.
Qed.

Definition hints_le (a b : Z) : Prop := ∀ h, has_hint a h = true → has_hint b h = true.

Lemma hints_le_trans a b c : hints_le a b → hints_le b c → hints_le a c.
Proof. intros H1 H2 h Hh. by apply H2, H1. Qed.

Lemma hints_le_lor a b : hints_le a (Z.lor a b).
Proof. intros h Hh. by rewrite has_hint_lor, Hh. Qed.

Section Hints.

Context {W : Type} (bc : option (bpf_ctx W)) (insns : list bpf_insn).

Lemma marks_hints l s : hints_le (p_hints s) (p_hints (foldl run_mark s l)).
Proof.
  revert s. induction l as [|m l IH]; intros s; [by intros h|]. cbn. eapply hints_le_trans; [|apply IH].
  destruct m; try by intros h. apply hints_le_lor.
Qed.

Lemma marks_hint l1 z l2 s h : has_hint z h = true → has_hint (p_hints (foldl run_mark s (l1 ++ Hint z :: l2))) h = true.
Proof. intros Hz. rewrite foldl_app. cbn. apply marks_hints. cbn. by rewrite has_hint_lor, Hz, orb_true_r. Qed.

Lemma pass1_jmp_hints i pc s s' :
  pass1_jmp insns i pc s = Some s' →
  hints_le (p_hints s) (p_hints s') ∧ (BPF_SRC (i_code pc) = BPF_X → has_hint (p_hints s') BJ_HINT_XREG = true).
Proof.
  unfold pass1_jmp. set (s1 := when (BPF_SRC _ =? _) _ _).
  assert (hints_le (p_hints s) (p_hints s1) ∧ (BPF_SRC (i_code pc) = BPF_X → has_hint (p_hints s1) BJ_HINT_XREG = true)) as [H1 H2].
  { subst s1. unfold when. destruct (Z.eqb_spec (BPF_SRC (i_code pc)) BPF_X).
    - split; [apply hints_le_lor|]. intros _. cbn. by rewrite has_hint_lor, orb_true_r.
    - split; [by intros h|done]. }
  clearbody s1. destruct (jump_offsets pc) as [jt jf]. destruct (_ || _); [done|]. intros [= <-].
  cbn [p_set_invalid p_set_dat p_hints]. unfold when. by destruct (_ && _).
Qed.

Lemma op_hints_jump o h : jumps o = true → h ∈ op_hints o → h = BJ_HINT_XREG ∧ BPF_SRC (encode o) = BPF_X.
Proof.
  destruct o as [| | | | | | | | | | | | | |t []| | | | | |]; try done; intros _ Hh; cbn in Hh; try by apply not_elem_of_nil in Hh.
  apply list_elem_of_singleton in Hh as ->. by destruct t.
Qed.

(** The hints of an instruction of the program that is processed. *)
Lemma class_hints i pc o s s' :
  decode (i_code pc) = Some o → pass1_class bc insns i pc s = Some s' →
  ∀ h, h ∈ op_hints o → has_hint (p_hints s') h = true.
Proof.
  intros Hd Hc h Hh. destruct (jumps o) eqn:Hj.
  - rewrite class_jmp in Hc by (by rewrite (jumps_class pc o)). apply decode_Some in Hd.
    destruct (op_hints_jump o h Hj Hh) as [-> Hx]. apply (pass1_jmp_hints i pc s s' Hc). by rewrite Hd.
  - rewrite (class_marks _ _ _ _ _ _ Hd Hj) in Hc. injection Hc as <-.
    destruct o as [w|w| | | | | | | | | |a []| | |t []| | | | | |]; try done; cbn [op_hints] in Hh; try (by apply not_elem_of_nil in Hh);
      repeat (apply elem_of_cons in Hh as [->|Hh]); try (by apply not_elem_of_nil in Hh); cbn [marks x_marks app];
      first [by apply (marks_hint [])|by apply (marks_hint [_])].
Qed.

Lemma class_hints_le i pc s s' : pass1_class bc insns i pc s = Some s' → hints_le (p_hints s) (p_hints s').
Proof.
  unfold pass1_class, pass1_ret, pass1_ld, pass1_ldx, pass1_st, pass1_stx, pass1_alu, pass1_misc, mem_bit, when. intros H.
  repeat match type of H with context [if ?b then _ else _] => destruct b end;
    try (by apply (pass1_jmp_hints _ _ _ _ H)); injection H as <-; cbn;
    repeat first [intros h Hh; exact Hh|eapply hints_le_trans; [|apply hints_le_lor]].
Qed.

(** A program that loads X uses it. *)
Definition hints_wf (h : Z) : Prop := has_hint h BJ_HINT_LDX = true → has_hint h BJ_HINT_XREG = true.

Lemma hints_wf_lor a b : hints_wf a → hints_wf b → hints_wf (Z.lor a b).
Proof. unfold hints_wf. rewrite !has_hint_lor, !orb_true_iff. tauto. Qed.

Lemma class_hints_wf i pc s s' : pass1_class bc insns i pc s = Some s' → hints_wf (p_hints s) → hints_wf (p_hints s').
Proof.
  unfold pass1_class, pass1_ret, pass1_ld, pass1_ldx, pass1_st, pass1_stx, pass1_alu, pass1_misc, mem_bit, pass1_jmp, when. intros H Hs.
  destruct (jump_offsets pc) as [jt jf].
  repeat match type of H with context [if ?b then _ else _] => destruct b end; try done; injection H as <-; cbn;
    repeat first [exact Hs|solve [intros _; reflexivity]|solve [intros [=]]|apply hints_wf_lor].
Qed.

Lemma pass1_loop_wf l i s s' : pass1_loop bc insns i l s = Some s' → hints_wf (p_hints s) → hints_wf (p_hints s').
Proof.
  revert i s. induction l as [|pc l IH]; intros i s; cbn [pass1_loop]; [by intros [= <-]|].
  destruct (pass1_insn bc insns i pc s) as [s1|] eqn:E1; [|done]. cbn [mbind option_bind]. intros H Hs. apply (IH _ _ H).
  revert E1. unfold pass1_insn. destruct (p_dat s !! i) as [d|]; [|done]. destruct (match bjumps d with [] => _ | _ => _ end).
  - by intros [= <-].
  - intros Hc. apply (class_hints_wf _ _ _ _ Hc). unfold when. by destruct (too_long pc).
Qed.

Lemma alter_unreachable (f : insn_data → insn_data) (x : nat) (dat : list insn_data) :
  (∀ d, unreachable (f d) = unreachable d) → unreachable <$> alter f x dat = unreachable <$> dat.
Proof.
  intros Hf. apply list_eq. intros y. rewrite !list_lookup_fmap. destruct (decide (x = y)) as [->|Hne].
  - rewrite list_lookup_alter_eq. destruct (dat !! y); [|done]. cbn. by rewrite Hf.
  - by rewrite list_lookup_alter_ne.
Qed.

Lemma class_unreachable i pc s s' :
  pass1_class bc insns i pc s = Some s' → unreachable <$> p_dat s' = unreachable <$> p_dat s.
Proof.
  intros H. destruct (is_jmp pc) eqn:Hj; [|by rewrite (proj1 (class_keeps bc insns i pc s s' H Hj))].
  rewrite class_jmp in H by done. revert H. unfold pass1_jmp. set (s1 := when (BPF_SRC _ =? _) _ _).
  assert (unreachable <$> p_dat s1 = unreachable <$> p_dat s) as E1.
  { subst s1. unfold when. destruct (_ =? _); cbn; by rewrite alter_unreachable. }
  clearbody s1. destruct (jump_offsets pc) as [jt jf]. destruct (_ || _); [done|]. intros [= <-].
  cbn [p_set_invalid p_set_dat p_dat]. unfold add_invalid, add_bjump, when.
  destruct (_ && _), (negb _); cbn; by repeat rewrite alter_unreachable.
Qed.

Lemma pass1_insn_unreachable i pc s s' x :
  pass1_insn bc insns i pc s = Some s' → x ≠ i → reach (p_dat s') x ↔ reach (p_dat s) x.
Proof.
  unfold pass1_insn. destruct (p_dat s !! i) as [d|] eqn:Hd; [|done]. set (u := match bjumps d with [] => _ | _ => _ end). clearbody u.
  intros H Hx. assert (∃ z, unreachable <$> p_dat s' = unreachable <$> <[i := set_unreachable d z]> (p_dat s)) as [z E].
  { exists u. destruct u; [by injection H as <-|]. apply class_unreachable in H. rewrite H. unfold when. by destruct (too_long pc). }
  assert (∀ dat : list insn_data, reach dat x ↔ (unreachable <$> dat) !! x = Some false) as Hre.
  { intros dat. rewrite list_lookup_fmap. unfold reach. split.
    - intros (d0 & -> & Hu). cbn. by rewrite Hu.
    - destruct (dat !! x) as [d0|]; [|done]. cbn. intros [= Hu]. by exists d0. }
  rewrite !Hre, E, !list_lookup_fmap, list_lookup_insert_ne by done. done.
Qed.

Lemma pass1_loop_hints l i s s' :
  drop i insns = l → pass1_loop bc insns i l s = Some s' →
  hints_le (p_hints s) (p_hints s') ∧ (∀ x, (x < i)%nat → reach (p_dat s') x ↔ reach (p_dat s) x) ∧
  ∀ j pc o h, (i ≤ j)%nat → reach (p_dat s') j → insn_at insns j pc o → h ∈ op_hints o → has_hint (p_hints s') h = true.
Proof.
  revert i s. induction l as [|pc l IH]; intros i s Hl; cbn [pass1_loop].
  - intros [= <-]. split; [by intros h|]. split; [done|]. intros j pc o h Hj _ [Hpc _] _. apply lookup_lt_Some in Hpc.
    apply (f_equal length) in Hl. rewrite length_drop in Hl. cbn in Hl. lia.
  - destruct (pass1_insn bc insns i pc s) as [s1|] eqn:E1; [|done]. cbn [mbind option_bind]. intros H.
    assert (insns !! i = Some pc) as Hpc by (rewrite <- (Nat.add_0_r i), <- lookup_drop, Hl; done).
    destruct (IH (S i) s1) as (L & R & HH); [by rewrite <- Nat.add_1_r, <- drop_drop, Hl|done|].
    assert (hints_le (p_hints s) (p_hints s1)) as L0.
    { revert E1. unfold pass1_insn. destruct (p_dat s !! i) as [d|]; [|done]. destruct (match bjumps d with [] => _ | _ => _ end).
      - intros [= <-]. by intros h.
      - intros Hc. apply class_hints_le in Hc. unfold when in Hc. by destruct (too_long pc). }
    split; [by eapply hints_le_trans|]. split.
    { intros x Hx. rewrite R by lia. eapply pass1_insn_unreachable; [done|lia]. }
    intros j pcj o h Hj Hr [Hpcj Ho] Hh. destruct (decide (j = i)) as [->|]; [|by apply (HH j pcj o); [lia|..]].
    assert (pcj = pc) as -> by congruence. apply R in Hr; [|lia]. apply L. revert E1. unfold pass1_insn.
    destruct (p_dat s !! i) as [d|] eqn:Hd; [|done]. set (u := match bjumps d with [] => _ | _ => _ end).
    destruct u.
    + intros [= <-]. destruct Hr as (d' & Hd' & Hu). cbn in Hd'. rewrite list_lookup_insert_eq in Hd' by (by eapply lookup_lt_Some).
      by injection Hd' as <-.
    + intros Hc. by eapply class_hints.
Qed.

End Hints.

(** ** The facts *)

Section Facts.

Context {W : Type} (bc : option (bpf_ctx W)) (insns : list bpf_insn).

(** [inv]: the words that may not be initialised; [abc]: the length below which the rest
    returns 0; [chk] and [aft]: the lengths that are checked before and after. *)
Record facts (F : list insn_data) (initmask hints : Z) (inv abc chk aft : nat → Z) : Prop := {
  f_len : length F = length insns;
  f_reach : reach F 0;
  f_start : ∀ b, 0 ≤ b < 32 → Z.testbit (inv 0%nat) b = true;
  f_use : ∀ j pc o b, reach F j → insn_at insns j pc o → b ∈ uses bc o pc → 0 ≤ b < 32 →
    Z.testbit (inv j) b = true → Z.testbit initmask b = true;
  f_succ : ∀ j pc o t, reach F j → insn_at insns j pc o → succ j pc o t → (t < length insns)%nat →
    reach F t ∧ left_bits bc (inv j) o pc (inv t);
  f_jumps : ∀ j pc, reach F j → insns !! j = Some pc → is_jmp pc = true → branches_ok insns j pc ∧ recorded F j pc;
  f_bjumps : ∀ t d e, F !! t = Some d → e ∈ bjumps d → jump_to insns F t e;
  f_hints : ∀ j pc o h, reach F j → insn_at insns j pc o → h ∈ op_hints o → has_hint hints h = true;
  f_ldx : hints_wf hints;
  f_abc_next : ∀ j pc, reach F j → insns !! j = Some pc → is_jmp pc = false →
    ∃ d a, abc j = pass2_length bc pc d a ∧ (reach F (S j) → a = abc (S j));
  f_abc_jump : ∀ j pc b, reach F j → insns !! j = Some pc → is_jmp pc = true → abc j ≤ abc (target j pc b);
  f_abc_read : ∀ j pc d n, F !! j = Some d → unreachable d = false → insns !! j = Some pc →
    read_pkt_insn pc = Some n → r_abc_length d = abc j;
  f_check : ∀ j pc d n, F !! j = Some d → unreachable d = false → insns !! j = Some pc → read_pkt_insn pc = Some n →
    r_check_length d = (if chk j <? abc j then abc j else 0) ∧ aft j = Z.max (chk j) (abc j);
  f_plain : ∀ j pc, reach F j → insns !! j = Some pc → read_pkt_insn pc = None → aft j = chk j;
  f_chk_next : ∀ j, reach F j → reach F (S j) → chk (S j) ≤ aft j;
  f_chk_jump : ∀ j pc b, reach F j → insns !! j = Some pc → is_jmp pc = true → chk (target j pc b) ≤ chk j;
  f_chk_start : chk 0%nat ≤ 0;
}.

Hypothesis insns_ok : Forall insn_ok insns.
Hypothesis insns_few : Z.of_nat (length insns) ≤ 2 ^ 32.
Hypothesis insns_some : (0 < length insns)%nat.

Lemma optimize_facts dat F initmask hints :
  length dat = length insns → optimize bc insns dat = Some (F, initmask, hints) →
  ∃ inv abc chk aft, facts F initmask hints inv abc chk aft.
Proof.
  intros Hl. unfold optimize. destruct (optimize_pass1 bc insns (optimize_init dat)) as [s|] eqn:E1; [|done]. cbn [mbind option_bind].
  destruct (optimize_pass2 bc insns (p_dat s)) as [E|] eqn:E2; [|done]. cbn [mbind option_bind].
  destruct (optimize_pass3 insns E) as [F'|] eqn:E3; [|done]. cbn [mbind option_bind]. intros [= -> <- <-].
  destruct (pass1_correct bc insns insns_ok insns_few dat s Hl E1) as [inv FI].
  pose proof (pass1_loop_hints bc insns insns 0 _ _ eq_refl E1) as (_ & _ & HH).
  assert (∀ j, reach (p_dat s) j → (j < length insns)%nat) as Hlt.
  { intros j (d & Hd & _). rewrite <- (fi_len _ _ _ _ _ FI). by eapply lookup_lt_Some. }
  assert (∀ j pc d, p_dat s !! j = Some d → unreachable d = false → insns !! j = Some pc → is_jmp pc = true →
    branches_ok insns j pc ∧ j_abc_length d = MAX_ABC_LENGTH ∧ recorded (p_dat s) j pc) as HJ.
  { intros j pc d Hd Hu Hpc Hj. eapply FI; [by eapply lookup_lt_Some|done..]. }
  assert (∀ t d e, p_dat s !! t = Some d → e ∈ bjumps d → jump_to insns (p_dat s) t e) as HB.
  { intros t d e Hd He. by eapply (fi_bjumps _ _ _ _ _ FI). }
  assert (∀ t d, p_dat s !! t = Some d → bjumps d ≠ [] → unreachable d = false) as HM.
  { intros t d Hd. eapply FI; [|done]. rewrite <- (fi_len _ _ _ _ _ FI). by eapply lookup_lt_Some. }
  destruct (pass2_correct bc insns (p_dat s) (fi_len _ _ _ _ _ FI) HJ HM E E2) as (a & abc & P2).
  destruct (pass3_correct insns (p_dat s) (fi_len _ _ _ _ _ FI) HJ HB HM E (p2_flow _ _ _ _ _ _ _ P2) F E3) as (c & chk & aft & P3).
  pose proof (p3_abc _ _ _ _ _ _ _ _ P3) as [SEF SR]. pose proof (p2_flow _ _ _ _ _ _ _ P2) as SDE.
  assert (same_flow (p_dat s) F) as SF by (by eapply same_flow_trans).
  assert (∀ j, reach F j ↔ reach (p_dat s) j) as HR by (intros j; by apply same_flow_reach).
  assert (∀ j pc d n, F !! j = Some d → unreachable d = false → insns !! j = Some pc → read_pkt_insn pc = Some n →
    r_abc_length d = abc j) as Habc.
  { intros j pc d n Hd Hu Hpc Hn. destruct (same_flow_back _ _ _ _ SEF Hd) as (d0 & Hd0 & _ & U). rewrite (SR _ _ _ Hd0 Hd).
    eapply P2; [lia|done|congruence|done..]. }
  pose proof (fi_start _ _ _ _ _ FI) as Hst. rewrite decide_False in Hst by lia.
  exists inv, abc, chk, aft. split.
  - rewrite (proj1 SF). apply FI.
  - apply HR, Hst.
  - apply Hst.
  - intros j pc o b Hr Hat Hu Hb Ht. apply HR in Hr. eapply (fi_use _ _ _ _ _ FI j); [by apply Hlt|done..].
  - intros j pc o t Hr Hat Hs Ht. apply HR in Hr. pose proof (fi_succ _ _ _ _ _ FI j pc o t (Hlt _ Hr) Hr Hat Hs) as H.
    rewrite decide_True in H by done. by rewrite HR.
  - intros j pc Hr Hpc Hj. apply HR in Hr as (d & Hd & Hu). destruct (HJ j pc d Hd Hu Hpc Hj) as (Hb & _ & Hrec).
    split; [done|]. intros b Hcond. destruct (Hrec b Hcond) as (dt & Hdt & Hin). destruct SF as [_ SF].
    destruct (SF _ _ Hdt) as (dt' & Hdt' & B & _). exists dt'. by rewrite B.
  - intros t d e Hd He. destruct (same_flow_back _ _ _ _ SF Hd) as (d0 & Hd0 & B & _). rewrite B in He.
    destruct (HB t d0 e Hd0 He) as [Hr Hex]. split; [by apply HR|done].
  - intros j pc o h Hr Hat Hh. apply HR in Hr. by eapply (HH j); [lia|..].
  - by apply (pass1_loop_wf bc insns insns 0 _ _ E1).
  - intros j pc Hr Hpc Hj. apply HR in Hr. destruct (p2_next _ _ _ _ _ _ _ P2 j pc ltac:(lia) Hr Hpc Hj) as (d & a' & E' & Ha).
    exists d, a'. by rewrite HR.
  - intros j pc b Hr Hpc Hj. apply HR in Hr. by apply (p2_jump _ _ _ _ _ _ _ P2 j pc b ltac:(lia)).
  - done.
  - intros j pc d n Hd Hu Hpc Hn. rewrite <- (Habc j pc d n Hd Hu Hpc Hn).
    eapply P3; [|done..]. by eapply lookup_lt_Some.
  - intros j pc Hr Hpc Hn. apply HR in Hr. eapply P3; [by apply Hlt|done..].
  - intros j Hr1 Hr2. apply HR in Hr1, Hr2. eapply P3; [by apply Hlt|done..].
  - intros j pc b Hr Hpc Hj. apply HR in Hr as (d & Hd & Hu). destruct (HJ j pc d Hd Hu Hpc Hj) as (Hb & _ & Hrec).
    destruct (recorded_branch j pc b) as (b' & Hcond & <-). destruct (Hrec b' Hcond) as (dt & Hdt & Hin).
    by eapply (p3_source _ _ _ _ _ _ _ _ P3 _ dt (j, b')); [apply Hb|..].
  - pose proof (p3_start _ _ _ _ _ _ _ _ P3) as H. rewrite decide_False in H by lia. apply H, Hst.
Qed.

End Facts.

(** ** Runs of the reference machine *)

Definition word (z : Z) : Prop := 0 ≤ z < 2 ^ 32.
Definition byte (z : Z) : Prop := 0 ≤ z < 256.

(** The functions of the coprocessor return words and keep the size of the memory. *)
Definition cop_ok {W} (bc : option (bpf_ctx W)) : Prop :=
  ∀ fs i f a m w, GET_FUNCS bc = Some fs → fs !! i = Some f → word a → Forall word m →
    match f a m w with (v, m', _) => word v ∧ Forall word m' ∧ length m' = length m end.

Record state_ok {W} (n : nat) (st : bstate (W := W)) : Prop := {
  so_A : word (rA st);
  so_X : word (rX st);
  so_M : Forall word (rM st);
  so_len : length (rM st) = n;
}.

Definition state_of {W} (r : outcome (W := W)) : bstate := match r with Next st | Skip _ st | Ret _ st => st end.

Lemma be_val_app l b : be_val (l ++ [b]) = 256 * be_val l + b.
Proof. unfold be_val. by rewrite foldl_app. Qed.

Lemma be_val_range l : Forall byte l → 0 ≤ be_val l < 256 ^ Z.of_nat (length l).
Proof.
  induction l as [|b l IH] using rev_ind; [done|]. rewrite Forall_app, be_val_app, length_app. intros [Hl Hb].
  apply IH in Hl. apply Forall_cons in Hb as [Hb _]. unfold byte in Hb. cbn [length]. rewrite Nat2Z.inj_add, Z.pow_add_r by lia. change (256 ^ Z.of_nat 1) with 256. lia.
Qed.

Lemma word_u32 z : word (u32 z).
Proof. unfold word, u32. apply Z.mod_pos_bound. lia. Qed.

Lemma word_bits z : word z ↔ 0 ≤ z ∧ ∀ i, 32 ≤ i → Z.testbit z i = false.
Proof.
  unfold word. split.
  - intros Hz. split; [lia|]. intros i Hi. apply Z.testbit_false; [lia|]. rewrite Z.div_small; [done|].
    split; [lia|]. eapply Z.lt_le_trans; [apply Hz|]. apply Z.pow_le_mono_r; lia.
  - intros [H0 Hb]. split; [done|]. destruct (Z.eq_dec z 0) as [->|Hne]; [lia|]. apply Z.log2_lt_pow2; [lia|].
    destruct (Z.lt_ge_cases (Z.log2 z) 32) as [|Hge]; [done|]. pose proof (Hb _ Hge) as E.
    by rewrite Z.bit_log2 in E by lia.
Qed.

Lemma word_bitop (f : Z → Z → Z) g x y :
  (∀ a b i, Z.testbit (f a b) i = g (Z.testbit a i) (Z.testbit b i)) → g false false = false →
  (0 ≤ x → 0 ≤ y → 0 ≤ f x y) → word x → word y → word (f x y).
Proof.
  intros Hf Hg Hp [Hx Bx]%word_bits [Hy By]%word_bits. apply word_bits. split; [by apply Hp|].
  intros i Hi. by rewrite Hf, Bx, By.
Qed.

Lemma alu_eval_word a x y :
  word x → word y → (match a with Div | Mod => y ≠ 0 | Lsh | Rsh => y ≤ 31 | _ => True end) → word (alu_eval a x y).
Proof.
  intros Hx Hy Ha. destruct a; cbn [alu_eval]; try apply word_u32.
  - unfold word in *. split; [apply Z.div_pos; lia|]. apply Z.div_lt_upper_bound; nia.
  - apply (word_bitop Z.lor orb); try done; [intros; apply Z.lor_spec|intros; by apply Z.lor_nonneg].
  - apply (word_bitop Z.land andb); try done; [intros; apply Z.land_spec|intros; apply Z.land_nonneg; by left].
  - unfold word in *. rewrite Z.shiftr_div_pow2 by lia. split; [apply Z.div_pos; lia|]. apply Z.div_lt_upper_bound; nia.
  - unfold word in *. pose proof (Z.mod_pos_bound x y). lia.
  - apply (word_bitop Z.lxor xorb); try done; [intros; apply Z.lxor_spec|intros; by apply Z.lxor_nonneg].
Qed.

Section Runs.

Context {W : Type} (bc : option (bpf_ctx W)) (insns : list bpf_insn) (pkt : list Z) (wirelen : Z).

Hypothesis pkt_ok : Forall byte pkt.
Hypothesis wirelen_ok : word wirelen.
Hypothesis bc_ok : cop_ok bc.

Lemma pkt_read_word off w v : pkt_read pkt off (bytes_of w) = Some v → word v.
Proof.
  unfold pkt_read. destruct (_ <? _); [done|]. intros [= <-].
  pose proof (be_val_range (take (bytes_of w) (drop (Z.to_nat off) pkt))) as H.
  destruct H as [H0 H1]; [by apply Forall_take, Forall_drop|]. unfold word. split; [done|]. eapply Z.lt_le_trans; [exact H1|].
  change (2 ^ 32) with (256 ^ 4). apply Z.pow_le_mono_r; [lia|]. rewrite length_take. destruct w; cbn [bytes_of]; lia.
Qed.

(** The machine stays in its words. *)
Lemma ref_insn_ok i pc o st r n :
  insn_ok pc → insns !! i = Some pc → state_ok n st → (GET_EXTWORDS bc = 0%nat ∨ GET_EXTWORDS bc = n) →
  ref_insn bc pkt wirelen pc o st = Some r → state_ok n (state_of r).
Proof.
  intros (Hk & _ & _) Hpc [HA HX HM HL] Hext. assert (word (i_k pc)) as Hkw by exact Hk.
  assert (∀ v, word v → state_ok n (set_A st v)) as SA by done. assert (∀ v, word v → state_ok n (set_X st v)) as SX by done.
  assert (∀ k v, word v → state_ok n (set_M st (<[k := v]> (rM st)))) as SM.
  { intros k v Hv. split; [done|done| |]; cbn; [by apply Forall_insert|by rewrite length_insert]. }
  assert (state_ok n st) as S0 by done.
  assert (∀ x : bool, word (if x then rX st else i_k pc)) as HY by (by intros []).
  assert (∀ k v, rM st !! k = Some v → word v) as HMk by (intros k v; by apply Forall_lookup_1).
  assert (∀ k, state_ok n (state_of (call_cop bc st k))) as HC.
  { intros k. unfold call_cop. destruct (GET_FUNCS bc ≫= (.!! Z.to_nat k)) as [f|] eqn:Ef; [|done].
    destruct (GET_FUNCS bc) as [fs|] eqn:Efs; [|done]. cbn in Ef.
    pose proof (bc_ok fs _ f (rA st) (if (GET_EXTWORDS bc =? 0)%nat then [] else rM st) (rW st) Efs Ef HA) as H.
    destruct (f _ _ _) as [[v m] w]. destruct H as (Hv & Hm & Hlm); [by destruct (_ =? _)%nat|].
    split; [done|done|cbn|cbn]; destruct (_ =? _)%nat; try done. congruence. }
  destruct o as [w|w| | | | | | | | | |a x| | |t x| | | | | |]; cbn [ref_insn]; try (intros [= <-]; cbn [state_of]; auto; fail).
  - intros [= <-]. destruct (pkt_read _ _ _) eqn:Er; [|done]. apply SA. by eapply pkt_read_word.
  - intros [= <-]. destruct (pkt_read _ _ _) eqn:Er; [|done]. apply SA. by eapply pkt_read_word.
  - destruct (rM st !! Z.to_nat (i_k pc)) eqn:Em; [|done]. intros [= <-]. apply SA. by eapply HMk.
  - destruct (rM st !! Z.to_nat (i_k pc)) eqn:Em; [|done]. intros [= <-]. apply SX. by eapply HMk.
  - intros [= <-]. destruct (pkt_read _ _ _) as [v|] eqn:Er; [|done]. apply SX. unfold word.
    change 0xf with (Z.ones 4). rewrite Z.land_ones by lia. pose proof (Z.mod_pos_bound v (2 ^ 4)). lia.
  - destruct (rM st !! Z.to_nat (i_k pc)) eqn:Em; [|done]. intros [= <-]. by apply SM.
  - destruct (rM st !! Z.to_nat (i_k pc)) eqn:Em; [|done]. intros [= <-]. by apply SM.
  - pose proof (alu_eval_word a (rA st) _ HA (HY x)) as Hal.
    destruct a; cbn [ref_insn alu_eval] in Hal |- *; try (intros [= <-]; by apply SA, Hal).
    + intros [= <-]. destruct (Z.eqb_spec (if x then rX st else i_k pc) 0); [done|]. by apply SA, Hal.
    + destruct (Z.ltb_spec 31 (if x then rX st else i_k pc)); [done|]. intros [= <-]. apply SA, Hal. lia.
    + destruct (Z.ltb_spec 31 (if x then rX st else i_k pc)); [done|]. intros [= <-]. apply SA, Hal. lia.
    + intros [= <-]. destruct (Z.eqb_spec (if x then rX st else i_k pc) 0); [done|]. by apply SA, Hal.
  - intros [= <-]. apply SA, word_u32.
Qed.

(** A read of a packet that is too short. *)
Lemma pkt_read_short off n : Z.of_nat (length pkt) < off + Z.of_nat n → pkt_read pkt off n = None.
Proof. intros H. unfold pkt_read. by destruct (Z.ltb_spec (Z.of_nat (length pkt)) (off + Z.of_nat n)); [|lia]. Qed.

Lemma pkt_read_long off n v : pkt_read pkt off n = Some v → off + Z.of_nat n ≤ Z.of_nat (length pkt).
Proof. unfold pkt_read. destruct (Z.ltb_spec (Z.of_nat (length pkt)) (off + Z.of_nat n)); [done|lia]. Qed.

(** ** What the passes compute, by instruction *)

Definition op_read (o : bpf_op) : option Z :=
  match o with LdAbs w | LdInd w => Some (Z.of_nat (bytes_of w)) | LdxMsh => Some 1 | _ => None end.

Lemma read_op pc o :
  decode (i_code pc) = Some o → read_pkt_insn pc = (λ n, i_k pc + n) <$> op_read o.
Proof.
  intros Hd%decode_Some. destruct pc as [c jt jf k]. cbn [i_code] in Hd. subst c.
  destruct o as [[]|[]| | | | | | | | | |[] []| | |[] []| | | | | |]; reflexivity.
Qed.

Definition op_length (o : bpf_op) (k a : Z) : Z :=
  match o with
  | RetK => if k =? 0 then MAX_ABC_LENGTH else 0
  | RetA | Cop | Copx => 0
  | St | Stx => if negb (GET_EXTWORDS bc =? 0)%nat then 0 else a
  | _ => match op_read o with Some n => Z.max a (k + n) | None => a end
  end.

Lemma length_op pc o d a :
  decode (i_code pc) = Some o → jumps o = false → pass2_length bc pc d a = op_length o (i_k pc) a.
Proof.
  intros Hd%decode_Some. destruct pc as [c jt jf k]. cbn [i_code] in Hd. subst c.
  destruct o as [[]|[]| | | | | | | | | |[] []| | |[] []| | | | | |]; intros Hj; try discriminate Hj; reflexivity.
Qed.

Lemma target_next i pc b :
  insn_ok pc → branches_ok insns i pc → Z.of_nat (length insns) ≤ 2 ^ 32 →
  target i pc b = (S i + Z.to_nat (if b then snd (jump_offsets pc) else fst (jump_offsets pc)))%nat.
Proof.
  intros (Hk & Ht & Hf) Hb Hn. specialize (Hb b). unfold target, jump_target, u32 in *.
  set (o := if b then _ else _) in *. assert (0 ≤ o < 2 ^ 32) as Ho.
  { subst o. unfold jump_offsets. destruct b, (_ =? _); cbn [fst snd]; lia. }
  clearbody o. destruct (Z.lt_ge_cases (o + (Z.of_nat i + 1)) (2 ^ 32)) as [Hlt|Hge].
  - rewrite Z.mod_small by lia. lia.
  - exfalso. rewrite <- (Z.mod_add _ (-1)), Z.mod_small in Hb by lia. lia.
Qed.

(** What a jump does. *)
Lemma ref_jump pc o (st : bstate (W := W)) r :
  decode (i_code pc) = Some o → jumps o = true → ref_insn bc pkt wirelen pc o st = Some r →
  ∃ b : bool, r = Skip (if b then snd (jump_offsets pc) else fst (jump_offsets pc)) st.
Proof.
  intros Hd%decode_Some Hj. destruct pc as [c jt jf k]. cbn [i_code] in Hd. subst c.
  destruct o as [| | | | | | | | | | | | | |t x| | | | | |]; try discriminate Hj; cbn [ref_insn i_k i_jt i_jf].
  - intros [= <-]. by exists false.
  - intros [= <-]. exists (negb (test_eval t (rA st) (if x then rX st else k))). destruct t, x; by destruct (test_eval _ _ _).
Qed.

(** ** Short packets *)

Hypothesis insns_ok : Forall insn_ok insns.
Hypothesis insns_few : Z.of_nat (length insns) ≤ 2 ^ 32.
Hypothesis pkt_short : Z.of_nat (length pkt) ≤ UINT32_MAX.

Abbreviation buflen := (Z.of_nat (length pkt)).

(** An instruction that is no jump, on a packet that is shorter than its length. *)
Lemma quiet_insn pc o (st : bstate (W := W)) a r n :
  decode (i_code pc) = Some o → insn_ok pc → state_ok n st → jumps o = false → buflen < op_length o (i_k pc) a →
  ref_insn bc pkt wirelen pc o st = Some r →
  match r with
  | Next st' => falls o = true ∧ too_long pc = false ∧ buflen < a ∧ result_of bc 0 st' = result_of bc 0 st
  | Skip _ _ => False
  | Ret v st' => result_of bc v st' = result_of bc 0 st
  end.
Proof.
  intros Hd (Hk & _ & _) S Hj Hlen. pose proof (read_op pc o Hd) as Hrd. pose proof (so_X _ _ S) as HX.
  unfold too_long. rewrite Hrd. unfold word in HX.
  assert (∀ (x : width) (f : Z → bstate (W := W)), buflen < Z.max a (i_k pc + Z.of_nat (bytes_of x)) → ∀ off, i_k pc ≤ off →
    (∀ v, result_of bc 0 (f v) = result_of bc 0 st) →
    match load st (pkt_read pkt off (bytes_of x)) f with
    | Next st' => true = true ∧ (UINT32_MAX <? i_k pc + Z.of_nat (bytes_of x)) = false ∧ buflen < a ∧ result_of bc 0 st' = result_of bc 0 st
    | Skip _ _ => False
    | Ret v st' => result_of bc v st' = result_of bc 0 st
    end) as Hload.
  { intros x f Hb off Hoff Hf. destruct (pkt_read pkt off (bytes_of x)) as [v|] eqn:Er; [|done]. cbn [load].
    apply pkt_read_long in Er. split; [done|]. split; [apply Z.ltb_ge; lia|]. split; [lia|done]. }
  assert (∀ st', result_of bc 0 st' = result_of bc 0 st → buflen < a → true = true ∧ false = false ∧ buflen < a ∧ result_of bc 0 st' = result_of bc 0 st)
    as Hplain by done.
  destruct o as [w|w| | | | | | | | | |al x| | |t x| | | | | |]; cbn [op_length op_read fmap option_fmap option_map falls] in *;
    try discriminate Hj; cbn [ref_insn]; try (exfalso; lia); try (intros [= <-]; by apply Hplain).
  - intros [= <-]. by apply Hload.
  - intros [= <-]. apply Hload; [done|lia|done].
  - destruct (rM st !! Z.to_nat (i_k pc)); [|done]. intros [= <-]. by apply Hplain.
  - destruct (rM st !! Z.to_nat (i_k pc)); [|done]. intros [= <-]. by apply Hplain.
  - intros [= <-]. by apply (Hload ByteW).
  - destruct (rM st !! Z.to_nat (i_k pc)); [|done]. intros [= <-].
    destruct (GET_EXTWORDS bc =? 0)%nat eqn:Ee; [|exfalso; cbn in Hlen; lia]. apply Hplain; [unfold result_of; by rewrite Ee|done].
  - destruct (rM st !! Z.to_nat (i_k pc)); [|done]. intros [= <-].
    destruct (GET_EXTWORDS bc =? 0)%nat eqn:Ee; [|exfalso; cbn in Hlen; lia]. apply Hplain; [unfold result_of; by rewrite Ee|done].
  - destruct al; try (intros [= <-]; by apply Hplain).
    + intros [= <-]. destruct (_ =? _); [done|by apply Hplain].
    + destruct (_ <? _); [done|]. intros [= <-]. by apply Hplain.
    + destruct (_ <? _); [done|]. intros [= <-]. by apply Hplain.
    + intros [= <-]. destruct (_ =? _); [done|by apply Hplain].
  - intros [= <-]. destruct (Z.eqb_spec (i_k pc) 0) as [->|]; [done|exfalso; lia].
Qed.

Context (F : list insn_data) (initmask hints : Z) (inv abc chk aft : nat → Z).
Hypothesis FF : facts bc insns F initmask hints inv abc chk aft.

Lemma quiet_run n fuel i st r :
  (GET_EXTWORDS bc = 0%nat ∨ GET_EXTWORDS bc = n) → reach F i → state_ok n st → buflen < abc i →
  ref_run bc insns pkt wirelen fuel i st = Some r → r = result_of bc 0 st.
Proof.
  intros Hext. revert i st. induction fuel as [|fuel IH]; intros i st Hr OK Hlen; [done|]. cbn [ref_run].
  destruct (insns !! i) as [pc|] eqn:Hpc; [|done]. cbn [mbind option_bind].
  destruct (decode (i_code pc)) as [o|] eqn:Ho; [|done]. cbn [mbind option_bind].
  destruct (ref_insn bc pkt wirelen pc o st) as [out|] eqn:Hout; [|done]. cbn [mbind option_bind].
  pose proof (Forall_lookup_1 _ _ _ _ insns_ok Hpc) as Hok.
  pose proof (ref_insn_ok _ _ _ _ _ _ Hok Hpc OK Hext Hout) as OK'. pose proof (jumps_class pc o Ho) as Hjc.
  destruct (jumps o) eqn:Hj.
  - destruct (f_jumps _ _ _ _ _ _ _ _ _ FF i pc Hr Hpc Hjc) as [Hb _]. pose proof (f_abc_jump _ _ _ _ _ _ _ _ _ FF i pc) as HA.
    destruct (ref_jump pc o st out Ho Hj Hout) as [b ->]. rewrite <- target_next by done. apply IH; [|done|].
    + by apply (f_succ _ _ _ _ _ _ _ _ _ FF i pc o); [|split|apply succ_jump|apply Hb].
    + specialize (HA b Hr Hpc Hjc). lia.
  - destruct (f_abc_next _ _ _ _ _ _ _ _ _ FF i pc Hr Hpc Hjc) as (d & a & Ea & Ha).
    rewrite Ea, (length_op _ _ _ _ Ho Hj) in Hlen. pose proof (quiet_insn pc o st a out n Ho Hok OK Hj Hlen Hout) as Hq.
    destruct out as [st'|d' st'|v st']; [|done|by intros [= <-]].
    destruct Hq as (Hf & Ht & Hlt & Hres). intros Hrun. rewrite <- Hres.
    assert (S i < length insns)%nat as Hi.
    { destruct (insns !! S i) as [pc'|] eqn:E; [by eapply lookup_lt_Some|]. destruct fuel; cbn in Hrun; [done|]. by rewrite E in Hrun. }
    destruct (f_succ _ _ _ _ _ _ _ _ _ FF i pc o (S i) Hr (conj Hpc Ho) (succ_next _ _ _ Hf Ht) Hi) as [Hr' _].
    apply (IH (S i)); [done|done|rewrite <- Ha by done; lia|done].
Qed.

End Runs.
