(* ===== verification/BpfBlock.v ===== *)
(** * The code of an instruction

    What the compiler emits for an instruction, as a list: a block. A jump in it has a
    destination, the end that returns 0 or a branch of the instruction, in place of a
    target. *)

From S2P Require Import Prelude BpfInsn Lir BpfOpt BpfJit BpfFlow BpfBounds BpfSound.

Inductive dest := Dret0 | Dbranch (b : bool).

Abbreviation item := (lir * option dest)%type.

(** ** What a computation of the compiler emits *)

(** The positions of the jumps to the end, and that of a branch, in a block at position [n]. *)
Fixpoint ret0_at (n : nat) (blk : list item) : list nat :=
  match blk with
  | [] => []
  | (_, Some Dret0) :: blk => n :: ret0_at (S n) blk
  | _ :: blk => ret0_at (S n) blk
  end.

Fixpoint branch_at (n : nat) (blk : list item) (b : bool) : option nat :=
  match blk with
  | [] => None
  | (_, d) :: blk =>
      match branch_at (S n) blk b with
      | Some p => Some p
      | None => match d with Some (Dbranch b') => if Bool.eqb b b' then Some n else None | _ => None end
      end
  end.

Lemma ret0_at_app n l1 l2 : ret0_at n (l1 ++ l2) = ret0_at n l1 ++ ret0_at (n + length l1) l2.
Proof.
  revert n. induction l1 as [|[x [[]|]] l1 IH]; intros n; cbn [app ret0_at length]; [by rewrite Nat.add_0_r|..];
    rewrite ?IH, Nat.add_succ_r; done.
Qed.

Lemma branch_at_app n l1 l2 b :
  branch_at n (l1 ++ l2) b = match branch_at (n + length l1) l2 b with Some p => Some p | None => branch_at n l1 b end.
Proof.
  revert n. induction l1 as [|[x d] l1 IH]; intros n; cbn [app branch_at length].
  - rewrite Nat.add_0_r. by destruct (branch_at n l2 b).
  - rewrite IH, Nat.add_succ_r. by destruct (branch_at _ l2 b).
Qed.

Lemma elem_of_ret0_at n blk p : p ∈ ret0_at n blk ↔ ∃ k x, blk !! k = Some (x, Some Dret0) ∧ p = (n + k)%nat.
Proof.
  revert n. induction blk as [|[x d] blk IH]; intros n; cbn [ret0_at].
  - split; [intros H; by apply not_elem_of_nil in H|]. intros (k & x & H & _). by rewrite lookup_nil in H.
  - assert (p ∈ ret0_at (S n) blk ↔ ∃ k x, blk !! k = Some (x, Some Dret0) ∧ p = (n + S k)%nat) as IH'.
    { rewrite IH. split; intros (k & y & ? & ->); exists k, y; (split; [done|lia]). }
    destruct d as [[]|]; rewrite ?elem_of_cons, IH'; split.
    + intros [->|(k & y & ? & ->)]; [exists 0%nat, x; by rewrite Nat.add_0_r|by exists (S k), y].
    + intros ([|k] & y & H & ->); [left; lia|right; by exists k, y].
    + intros (k & y & ? & ->). by exists (S k), y.
    + intros ([|k] & y & H & ->); [done|by exists k, y].
    + intros (k & y & ? & ->). by exists (S k), y.
    + intros ([|k] & y & H & ->); [done|by exists k, y].
Qed.

Lemma branch_at_Some n blk b p : branch_at n blk b = Some p → ∃ k x, blk !! k = Some (x, Some (Dbranch b)) ∧ p = (n + k)%nat.
Proof.
  revert n. induction blk as [|[x d] blk IH]; intros n; cbn [branch_at]; [done|].
  destruct (branch_at (S n) blk b) as [q|] eqn:E.
  - intros [= ->]. destruct (IH _ E) as (k & y & Hy & ->). exists (S k), y. split; [done|lia].
  - destruct d as [[|b']|]; try done. destruct (Bool.eqb_spec b b') as [->|]; [|done]. intros [= <-]. exists 0%nat, x. split; [done|lia].
Qed.

(** The data that do not change when code is emitted. *)
Definition same_data (d d' : insn_data) : Prop :=
  bjumps d' = bjumps d ∧ unreachable d' = unreachable d ∧ r_check_length d' = r_check_length d.

(** The branches of [blk] at position [n] are noted at the instruction [i]. *)
Definition noted (i n : nat) (blk : list item) (dat dat' : list insn_data) : Prop :=
  length dat' = length dat ∧
  ∀ x d, dat !! x = Some d → ∃ d', dat' !! x = Some d' ∧ same_data d d' ∧
    ∀ b, sjump d' b = if decide (x = i) then match branch_at n blk b with Some p => Some p | None => sjump d b end else sjump d b.

Definition emits {A} (i : nat) (m : G A) (blk : list item) (a : A) : Prop := ∀ s a' s',
  m s = Some (Some a', s') →
  a' = a ∧ c_code s' = c_code s ++ (fst <$> blk) ∧ c_targets s' = c_targets s ∧
  ret0 s' = ret0 s ++ ret0_at (length (c_code s)) blk ∧ noted i (length (c_code s)) blk (insn_dat s) (insn_dat s').

Lemma noted_nil i n dat : noted i n [] dat dat.
Proof. split; [done|]. intros x d Hd. exists d. split; [done|]. split; [done|]. intros b. by case_decide. Qed.

Lemma noted_app i n b1 b2 d1 d2 d3 :
  noted i n b1 d1 d2 → noted i (n + length b1) b2 d2 d3 → noted i n (b1 ++ b2) d1 d3.
Proof.
  intros [L1 H1] [L2 H2]. split; [congruence|]. intros x d Hd.
  destruct (H1 x d Hd) as (d' & Hd' & (B1 & U1 & R1) & J1). destruct (H2 x d' Hd') as (d'' & Hd'' & (B2 & U2 & R2) & J2).
  exists d''. split; [done|]. split; [split; [congruence|]; split; congruence|]. intros b. rewrite J2, J1, branch_at_app.
  case_decide; [|done]. by destruct (branch_at _ b2 b).
Qed.

Lemma noted_plain i n x dat : noted i n [(x, None)] dat dat.
Proof. split; [done|]. intros y d Hd. exists d. split; [done|]. split; [done|]. intros b. by case_decide. Qed.

Lemma noted_ret0 i n x dat : noted i n [(x, Some Dret0)] dat dat.
Proof. split; [done|]. intros y d Hd. exists d. split; [done|]. split; [done|]. intros b. by case_decide. Qed.

Section Emits.

Context {W : Type} (bc : option (bpf_ctx W)) (ok : nat → bool) (i : nat).

Lemma emits_ret {A} (a : A) : emits i (mret a) [] a.
Proof.
  intros s a' s' [= <- <-]. cbn. rewrite !app_nil_r. split_and!; try done. apply noted_nil.
Qed.

Lemma emits_fail {A} (a : A) blk : emits i fail blk a.
Proof. intros s a' s' [=]. Qed.

Lemma emits_none {A} (a : A) blk : emits i (λ _, None) blk a.
Proof. intros s a' s' [=]. Qed.

Lemma emits_bind {A B} (m : G A) (f : A → G B) b1 b2 a b :
  emits i m b1 a → emits i (f a) b2 b → emits i (m ≫= f) (b1 ++ b2) b.
Proof.
  intros Hm Hf s b' s'. unfold mbind, G_bind. destruct (m s) as [[[a1|] s1]|] eqn:E1; [|done|done]. intros E2.
  destruct (Hm s a1 s1 E1) as (-> & C1 & T1 & R1 & N1). destruct (Hf s1 b' s' E2) as (-> & C2 & T2 & R2 & N2).
  rewrite C1, length_app, length_fmap in R2, N2. split; [done|]. split; [by rewrite C2, C1, fmap_app, app_assoc|].
  split; [congruence|]. split; [by rewrite R2, R1, ret0_at_app, app_assoc|]. by eapply noted_app.
Qed.

Lemma emits_assoc {A B C} (m : G A) (f : A → G B) (g : B → G C) blk c :
  emits i (m ≫= λ x, f x ≫= g) blk c → emits i ((m ≫= f) ≫= g) blk c.
Proof.
  intros H s c' s' E. apply H. revert E. unfold mbind, G_bind. by destruct (m s) as [[[a1|] s1]|].
Qed.

Lemma emits_request : emits i (request ok) [] tt.
Proof.
  intros s [] s'. unfold request. destruct (ok _); [|done]. intros [= <-]. cbn. rewrite !app_nil_r. split_and!; try done. apply noted_nil.
Qed.

Lemma emits_assert b : emits i (BJ_ASSERT b) [] tt.
Proof.
  intros s [] s'. unfold BJ_ASSERT. destruct b; [|done]. intros [= <-]. cbn. rewrite !app_nil_r. split_and!; try done. apply noted_nil.
Qed.

Lemma emits_assert_then {A} b (m : G A) blk a : (b = true → emits i m blk a) → emits i (BJ_ASSERT b ≫= λ _, m) blk a.
Proof. destruct b; intros H; [|intros s a' s' [=]]. exact (H eq_refl). Qed.

(** An instruction, and where its number goes. *)
Lemma emit_spec x s n s' :
  emit ok x s = Some (Some n, s') →
  n = length (c_code s) ∧ c_code s' = c_code s ++ [x] ∧ c_targets s' = c_targets s ∧ ret0 s' = ret0 s ∧ insn_dat s' = insn_dat s.
Proof.
  unfold emit, mbind, G_bind, request, get, put, mret, G_ret. destruct (ok _); [|done]. cbn. by intros [= <- <-].
Qed.

Lemma emits_emit x : emits i (emit ok x ≫= λ _, mret tt) [(x, None)] tt.
Proof.
  intros s [] s'. unfold mbind, G_bind at 1. destruct (emit ok x s) as [[[n|] s1]|] eqn:E; [|done|done].
  apply emit_spec in E as (-> & C & T & R & D). intros [= <-]. cbn. rewrite R, app_nil_r, D. split_and!; try done. apply noted_plain.
Qed.

Lemma append_jump_spec j s s' :
  append_jump ok j s = Some (Some tt, s') →
  c_code s' = c_code s ∧ c_targets s' = c_targets s ∧ ret0 s' = ret0 s ++ [j] ∧ insn_dat s' = insn_dat s.
Proof.
  unfold append_jump, grow_jumps, mbind, G_bind, get, request, set_ret0, mret, G_ret, fail. cbn.
  destruct (_ =? _); [|by intros [= <-]]. destruct (_ || _); [done|]. destruct (ok _); [|done]. by intros [= <-].
Qed.

Lemma emits_exit x : emits i (emit ok x ≫= λ jump, append_jump ok jump) [(x, Some Dret0)] tt.
Proof.
  intros s [] s'. unfold mbind, G_bind at 1. destruct (emit ok x s) as [[[n|] s1]|] eqn:E; [|done|done].
  apply emit_spec in E as (-> & C & T & R & D). intros E2. apply append_jump_spec in E2 as (C2 & T2 & R2 & D2).
  cbn. rewrite C2, C, T2, T, R2, R, D2, D. split_and!; try done. apply noted_ret0.
Qed.

Lemma emits_exit_then {A} x (m : G A) blk a :
  emits i m blk a → emits i (emit ok x ≫= λ jump, append_jump ok jump ≫= λ _, m) ((x, Some Dret0) :: blk) a.
Proof.
  intros Hm. change ((x, Some Dret0) :: blk) with ([(x, Some Dret0)] ++ blk).
  eapply (emits_bind (emit ok x ≫= λ jump, append_jump ok jump) (λ _, m) _ _ tt a) in Hm; [|apply emits_exit].
  intros s a' s' E. apply Hm. revert E. unfold mbind, G_bind. by destruct (emit ok x s) as [[[n|] s1]|].
Qed.

Lemma note_sjump_spec b j s s' :
  note_sjump i b j s = Some (Some tt, s') →
  c_code s' = c_code s ∧ c_targets s' = c_targets s ∧ ret0 s' = ret0 s ∧
  ∃ d, insn_dat s !! i = Some d ∧
    insn_dat s' = <[i := set_sjump d (λ b', if Bool.eqb b' b then Some j else sjump d b')]> (insn_dat s).
Proof.
  unfold note_sjump, mbind, G_bind, get, BJ_ASSERT, set_dat. destruct (insn_dat s !! i) as [d|]; [|done].
  destruct (sjump d b); [done|]. intros [= <-]. cbn. split_and!; try done. by exists d.
Qed.

Lemma emits_branch x b : emits i (emit ok x ≫= λ jump, note_sjump i b jump) [(x, Some (Dbranch b))] tt.
Proof.
  intros s [] s'. unfold mbind, G_bind at 1. destruct (emit ok x s) as [[[n|] s1]|] eqn:E; [|done|done].
  apply emit_spec in E as (-> & C & T & R & D). intros E2. apply note_sjump_spec in E2 as (C2 & T2 & R2 & d & Hd & D2).
  rewrite D in *. cbn. rewrite C2, C, T2, T, R2, R, D2, app_nil_r. split_and!; try done.
  split; [by rewrite length_insert|]. intros y dy Hy. destruct (decide (y = i)) as [->|Hne].
  - rewrite list_lookup_insert_eq by (by eapply lookup_lt_Some). eexists. split; [done|]. assert (dy = d) as -> by congruence.
    split; [done|]. intros b'. cbn. by destruct (Bool.eqb b' b).
  - rewrite list_lookup_insert_ne by done. by exists dy.
Qed.

Lemma emits_branch_then {A} x b (m : G A) blk a :
  emits i m blk a → emits i (emit ok x ≫= λ jump, note_sjump i b jump ≫= λ _, m) ((x, Some (Dbranch b)) :: blk) a.
Proof.
  intros Hm. change ((x, Some (Dbranch b)) :: blk) with ([(x, Some (Dbranch b))] ++ blk).
  eapply (emits_bind (emit ok x ≫= λ jump, note_sjump i b jump) (λ _, m) _ _ tt a) in Hm; [|apply emits_branch].
  intros s a' s' E. apply Hm. revert E. unfold mbind, G_bind. by destruct (emit ok x s) as [[[n|] s1]|].
Qed.

End Emits.

(** ** The blocks *)

Definition plain (l : list lir) : list item := (λ x, (x, None)) <$> l.

Definition next_byte (src : reg) (k : Z) : list lir :=
  [Op1 SLJIT_MOV_UB (Reg BJ_TMP1REG) (Mem1 src k);
   Op2 SLJIT_SHL false (Reg BJ_AREG) (Reg BJ_AREG) (Imm 8);
   Op2 SLJIT_ADD false (Reg BJ_AREG) (Reg BJ_AREG) (Reg BJ_TMP1REG)].

Definition read_block (src : reg) (k : Z) (w : width) : list lir :=
  Op1 SLJIT_MOV_UB (Reg BJ_AREG) (Mem1 src k) ::
  match w with
  | WordW => next_byte src (k + 1) ++ next_byte src (k + 2) ++ next_byte src (k + 3)
  | HalfW => next_byte src (k + 1)
  | ByteW => []
  end.

Definition ind_block (k : Z) (w : width) : list item :=
  [(Op2 SLJIT_SUB false (Reg BJ_TMP1REG) (Reg BJ_BUFLEN) (Imm (u32 (k + Z.of_nat (bytes_of w)))), None);
   (Op2 SLJIT_ADD false (Reg BJ_TMP2REG) (Reg BJ_BUF) (Reg BJ_XREG), None);
   (Cmp SLJIT_C_LESS false (Reg BJ_TMP1REG) (Reg BJ_XREG), Some Dret0)].

Definition msh_block (k : Z) : list lir :=
  [Op1 SLJIT_MOV_UB (Reg BJ_TMP1REG) (Mem1 BJ_BUF k);
   Op2 SLJIT_AND false (Reg BJ_TMP1REG) (Reg BJ_TMP1REG) (Imm 0xf);
   Op2 SLJIT_SHL false (Reg BJ_XREG) (Reg BJ_TMP1REG) (Imm 2)].

Definition kx (x : bool) (k : Z) : operand := if x then Reg BJ_XREG else Imm k.

Definition alu_op (a : alu) : op2 * bool :=
  match a with
  | Add => (SLJIT_ADD, false) | Sub => (SLJIT_SUB, false) | Mul => (SLJIT_MUL, true)
  | Or => (SLJIT_OR, false) | Xor => (SLJIT_XOR, false) | And => (SLJIT_AND, false)
  | Lsh => (SLJIT_SHL, false) | Rsh => (SLJIT_LSHR, true) | Div | Mod => (SLJIT_ADD, false)
  end.

Definition is_mod (a : alu) : bool := match a with Mod => true | _ => false end.

Definition call_block (m x : bool) (k : Z) : list lir :=
  [Op1 SLJIT_MOV (Reg SLJIT_SCRATCH_REG2) (kx x k); Call 2 (Func (if m then Fmodulus else Fdivide))].

(** Division and remainder, for [m]. *)
Definition moddiv_block (m x : bool) (k : Z) : list item :=
  if x then (Cmp SLJIT_C_EQUAL true (Reg BJ_XREG) (Imm 0), Some Dret0) :: plain (call_block m x k)
  else if k =? 0 then [(Jump, Some Dret0)]
  else if negb (Z.land k (k - 1) =? 0) then plain (call_block m x k)
  else if m then plain [Op2 SLJIT_AND false (Reg BJ_AREG) (Reg BJ_AREG) (Imm (k - 1))]
  else if log2_loop 32 k 0 =? 0 then []
  else plain [Op2 SLJIT_LSHR true (Reg BJ_AREG) (Reg BJ_AREG) (Imm (log2_loop 32 k 0))].

Definition alu_block (a : alu) (x : bool) (k : Z) : list item :=
  match a with
  | Div | Mod => moddiv_block (is_mod a) x k
  | _ => plain [Op2 (fst (alu_op a)) (snd (alu_op a)) (Reg BJ_AREG) (Reg BJ_AREG) (kx x k)]
  end.

Definition cond (t : test) (negate : bool) : jump_type :=
  match t with
  | Jgt => if negate then SLJIT_C_LESS_EQUAL else SLJIT_C_GREATER
  | Jge => if negate then SLJIT_C_LESS else SLJIT_C_GREATER_EQUAL
  | Jeq => if negate then SLJIT_C_NOT_EQUAL else SLJIT_C_EQUAL
  | Jset => if negate then SLJIT_C_EQUAL else SLJIT_C_NOT_EQUAL
  end.

Definition test_block (t : test) (x : bool) (k : Z) (negate : bool) : list item :=
  match t with
  | Jset => [(Op2 SLJIT_AND false (Reg BJ_TMP1REG) (Reg BJ_AREG) (kx x k), None);
             (Cmp (cond t negate) true (Reg BJ_TMP1REG) (Imm 0), Some (Dbranch negate))]
  | _ => [(Cmp (cond t negate) true (Reg BJ_AREG) (kx x k), Some (Dbranch negate))]
  end.

Definition jump_block (t : test) (x : bool) (k jt jf : Z) : list item :=
  if jt =? jf then [(Jump, Some (Dbranch false))]
  else test_block t x k (jt =? 0) ++ if negb (jt =? 0) && negb (jf =? 0) then [(Jump, Some (Dbranch true))] else [].

Section Blocks.

Context {W : Type} (bc : option (bpf_ctx W)) (hints : Z).

Definition mem_place (k : Z) : list lir * operand :=
  if (GET_EXTWORDS bc =? 0)%nat then ([], Mem1 SLJIT_LOCALS_REG (u64 (k * 4) + stack_mem))
  else ([Op1 SLJIT_MOV_P (Reg BJ_TMP1REG) (Mem1 SLJIT_LOCALS_REG stack_extmem)], Mem1 BJ_TMP1REG (u64 (k * 4))).

Definition load_block (dst : reg) (k : Z) : list lir :=
  fst (mem_place k) ++ [Op1 SLJIT_MOV_UI (Reg dst) (snd (mem_place k))].
Definition store_block (src : reg) (k : Z) : list lir :=
  fst (mem_place k) ++ [Op1 SLJIT_MOV_UI (snd (mem_place k)) (Reg src)].

(** The call of the function [target], in [copx] form if need be. *)
Definition save_block : list lir :=
  if has_hint hints BJ_HINT_LDX then [Op1 SLJIT_MOV_UI (Mem1 SLJIT_LOCALS_REG stack_reg) (Reg BJ_XREG)] else [].
Definition restore_block : list lir :=
  if has_hint hints BJ_HINT_LDX then [Op1 SLJIT_MOV_UI (Reg BJ_XREG) (Mem1 SLJIT_LOCALS_REG stack_reg)] else [].
Definition find_block : list item :=
  (Cmp SLJIT_C_GREATER_EQUAL false (Reg BJ_XREG) (Imm (Z.of_nat (length (default [] (GET_FUNCS bc))))), Some Dret0) ::
  plain [Op1 SLJIT_MOV_P (Reg BJ_TMP1REG) (Mem1 SLJIT_LOCALS_REG stack_ctx);
         Op1 SLJIT_MOV_P (Reg BJ_TMP1REG) (Mem1 BJ_TMP1REG ctx_copfuncs);
         Op1 SLJIT_MOV (Reg BJ_TMP2REG) (Reg BJ_XREG);
         Op1 SLJIT_MOV_P (Reg BJ_TMP3REG) (Mem2 BJ_TMP1REG BJ_TMP2REG 3)].
Definition args_block (target : operand) : list lir :=
  [Op1 SLJIT_MOV_UI (Reg SLJIT_SCRATCH_REG3) (Reg BJ_AREG);
   Op1 SLJIT_MOV_P (Reg SLJIT_SCRATCH_REG1) (Mem1 SLJIT_LOCALS_REG stack_ctx);
   Op1 SLJIT_MOV_P (Reg SLJIT_SCRATCH_REG2) (Reg BJ_ARGS);
   Call 3 target].
Definition cop_block (copx : bool) (k : Z) : list item :=
  plain save_block ++ (if copx then find_block else []) ++
  plain (args_block (if copx then Reg BJ_TMP3REG else Func (Fcop (Z.to_nat k)))) ++ plain restore_block.

(** The code of an instruction; [u] when its read is never reached. *)
Definition op_block (o : bpf_op) (pc : bpf_insn) (u : bool) : list item :=
  let k := i_k pc in
  match o with
  | LdAbs w => if u then [] else if k <=? UINT32_MAX - Z.of_nat (bytes_of w) + 1 then plain (read_block BJ_BUF k w) else []
  | LdInd w =>
      if u then [] else
      ind_block k w ++ if k <=? UINT32_MAX - Z.of_nat (bytes_of w) + 1 then plain (read_block BJ_TMP2REG k w) else []
  | LdLen => plain [Op1 SLJIT_MOV (Reg BJ_AREG) (Mem1 BJ_ARGS args_wirelen)]
  | LdImm => plain [Op1 SLJIT_MOV (Reg BJ_AREG) (Imm k)]
  | LdMem => plain (load_block BJ_AREG k)
  | LdxImm => plain [Op1 SLJIT_MOV (Reg BJ_XREG) (Imm k)]
  | LdxLen => plain [Op1 SLJIT_MOV (Reg BJ_XREG) (Mem1 BJ_ARGS args_wirelen)]
  | LdxMem => plain (load_block BJ_XREG k)
  | LdxMsh => if u then [] else plain (msh_block k)
  | St => plain (store_block BJ_AREG k)
  | Stx => plain (store_block BJ_XREG k)
  | Alu a x => alu_block a x k
  | Neg => plain [Op1 SLJIT_NEG (Reg BJ_AREG) (Reg BJ_AREG)]
  | Ja => [(Jump, Some (Dbranch false))]
  | Jcc t x => jump_block t x k (i_jt pc) (i_jf pc)
  | RetK => plain [Return (Imm k)]
  | RetA => plain [Return (Reg BJ_AREG)]
  | Tax => plain [Op1 SLJIT_MOV_UI (Reg BJ_XREG) (Reg BJ_AREG)]
  | Txa => plain [Op1 SLJIT_MOV (Reg BJ_AREG) (Reg BJ_XREG)]
  | Cop => cop_block false k
  | Copx => cop_block true k
  end.

(** The check of the length. *)
Definition never_read (pc : bpf_insn) (d : insn_data) : bool :=
  match read_pkt_insn pc with Some _ => UINT32_MAX <? r_check_length d | None => false end.

Definition check_block (pc : bpf_insn) (d : insn_data) : list item :=
  match read_pkt_insn pc with
  | None => []
  | Some _ =>
      if UINT32_MAX <? r_check_length d then [(Jump, Some Dret0)]
      else if 0 <? r_check_length d then
        [(Cmp SLJIT_C_LESS false (Reg BJ_BUFLEN) (Imm (r_check_length d)), Some Dret0)]
      else []
  end.

Definition insn_block (o : bpf_op) (pc : bpf_insn) (d : insn_data) : list item :=
  check_block pc d ++ op_block o pc (never_read pc d).

(** ** The compiler emits the blocks *)

Context (ok : nat → bool).

Lemma emits_eq {A} i (m : G A) b1 b2 a : b1 = b2 → emits i m b1 a → emits i m b2 a.
Proof. by intros ->. Qed.

Lemma emits_op1 i op dst src : emits i (sljit_emit_op1 ok op dst src) [(Op1 op dst src, None)] tt.
Proof. apply emits_emit. Qed.
Lemma emits_op2 i op int dst s1 s2 : emits i (sljit_emit_op2 ok op int dst s1 s2) [(Op2 op int dst s1 s2, None)] tt.
Proof. apply emits_emit. Qed.
Lemma emits_return i src : emits i (sljit_emit_return ok src) [(Return src, None)] tt.
Proof. apply emits_emit. Qed.
Lemma emits_ijump i n src : emits i (sljit_emit_ijump ok n src) [(Call n src, None)] tt.
Proof. apply emits_emit. Qed.

End Blocks.

(** Splitting a computation into what it emits. *)
Ltac emits_step :=
  match goal with
  | |- emits _ (mret _) _ _ => apply emits_ret
  | |- emits _ fail _ _ => apply emits_fail
  | |- emits _ (λ _, None) _ _ => apply emits_none
  | |- emits _ (sljit_emit_op1 _ _ _ _) _ _ => apply emits_op1
  | |- emits _ (sljit_emit_op2 _ _ _ _ _ _) _ _ => apply emits_op2
  | |- emits _ (sljit_emit_return _ _) _ _ => apply emits_return
  | |- emits _ (sljit_emit_ijump _ _ _) _ _ => apply emits_ijump
  | |- emits ?i (if ?b then ?x else ?y) ?l ?a =>
      let v := eval vm_compute in b in
      lazymatch v with true => change (emits i x l a) | false => change (emits i y l a) end
  | |- emits ?i ((if ?b then ?x else ?y) ≫= ?f) ?l ?a =>
      let v := eval vm_compute in b in
      lazymatch v with true => change (emits i (x ≫= f) l a) | false => change (emits i (y ≫= f) l a) end
  | |- emits _ ((_ ≫= _) ≫= _) _ _ => apply emits_assoc
  | |- emits _ (BJ_ASSERT _ ≫= _) _ _ => apply emits_assert_then; intros _
  | |- emits _ (emit _ _ ≫= _) _ _ => first [apply emits_exit|apply emits_branch|eapply emits_exit_then|eapply emits_branch_then]
  | |- emits _ (_ ≫= _) _ _ => eapply emits_bind
  end.
Ltac emits_tac := unfold sljit_emit_cmp, sljit_emit_jump; repeat emits_step.

Section Emission.

Context {W : Type} (bc : option (bpf_ctx W)) (hints : Z) (ok : nat → bool) (i : nat).

Lemma emits_next_byte src k : emits i (emit_next_byte ok src k) (plain (next_byte src k)) tt.
Proof. unfold emit_next_byte. eapply emits_eq; [|emits_tac]. done. Qed.

Lemma emits_read (src : reg) (k : Z) (w : width) :
  emits i (if Z.of_nat (bytes_of w) =? 4 then emit_read32 ok src k
           else if Z.of_nat (bytes_of w) =? 2 then emit_read16 ok src k else emit_read8 ok src k) (plain (read_block src k w)) tt.
Proof.
  pose proof emits_next_byte as Hn.
  destruct w; (eapply emits_eq; [|emits_tac; unfold emit_read32, emit_read16, emit_read8; repeat first [apply Hn|emits_step]]); done.
Qed.

Lemma emits_load dst k : emits i (emit_memload ok dst k (GET_EXTWORDS bc)) (plain (load_block bc dst k)) tt.
Proof.
  unfold emit_memload, mem_operand, load_block, mem_place. cbv zeta.
  destruct (GET_EXTWORDS bc =? 0)%nat; (eapply emits_eq; [|emits_tac]); done.
Qed.

Lemma emits_store src k : emits i (emit_memstore ok src k (GET_EXTWORDS bc)) (plain (store_block bc src k)) tt.
Proof.
  unfold emit_memstore, mem_operand, store_block, mem_place. cbv zeta.
  destruct (GET_EXTWORDS bc =? 0)%nat; (eapply emits_eq; [|emits_tac]); done.
Qed.

Lemma emits_moddiv a x jt jf k :
  a = Div ∨ a = Mod →
  emits i (generate_moddiv ok (mk_insn (encode (Alu a x)) jt jf k)) (moddiv_block (is_mod a) x k) tt.
Proof.
  intros Ha. unfold generate_moddiv, emit_moddiv, emit_pow2_moddiv, moddiv_block. cbv zeta. cbn [i_k].
  destruct x; [destruct Ha as [->| ->]; (eapply emits_eq; [|emits_tac]); done|].
  destruct Ha as [->| ->]; emits_step; (destruct (k =? 0); [eapply emits_eq; [|emits_tac]; done|]);
    (destruct (negb (Z.land k (k - 1) =? 0)); [eapply emits_eq; [|emits_tac]; done|]);
    [destruct (log2_loop 32 k 0 =? 0)|]; (eapply emits_eq; [|emits_tac]); done.
Qed.

Lemma emits_jcc t x jt jf k :
  emits i (emit_jmp ok i (mk_insn (encode (Jcc t x)) jt jf k)) (jump_block t x k jt jf) tt.
Proof.
  unfold emit_jmp, jump_block, jump_offsets, emit_branch, bpf_jmp_to_sljit_cond, kx_to_reg. cbv zeta. cbn [i_jt i_jf i_k].
  replace (BPF_OP (i_code (mk_insn (encode (Jcc t x)) jt jf k)) =? BPF_JA) with false by (by destruct t, x).
  destruct (jt =? jf); [eapply emits_eq; [|emits_tac]; done|]. cbn [negb].
  destruct (jt =? 0), (jf =? 0), t, x; (eapply emits_eq; [|emits_tac]); done.
Qed.

Lemma emits_cop_target (copx : bool) jt jf k :
  emits i (emit_cop_target bc ok (mk_insn (encode (if copx then Copx else Cop)) jt jf k)) (if copx then find_block bc else [])
    (if copx then Reg BJ_TMP3REG else Func (Fcop (Z.to_nat k))).
Proof. unfold emit_cop_target. destruct copx; (eapply emits_eq; [|emits_tac]); done. Qed.

Lemma emits_cop (copx : bool) jt jf k :
  emits i (emit_cop bc ok hints (mk_insn (encode (if copx then Copx else Cop)) jt jf k)) (cop_block bc hints copx k) tt.
Proof.
  pose proof (emits_cop_target copx jt jf k) as Ht. unfold emit_cop, cop_block, save_block, restore_block.
  destruct (has_hint hints BJ_HINT_LDX); (eapply emits_eq; [|repeat first [exact Ht|emits_step]]); by destruct copx.
Qed.

Lemma emits_pkt_read (ind : bool) w jt jf k :
  emits i (emit_pkt_read ok (mk_insn (encode (if ind then LdInd w else LdAbs w)) jt jf k))
    ((if ind then ind_block k w else []) ++
     if k <=? UINT32_MAX - Z.of_nat (bytes_of w) + 1 then plain (read_block (if ind then BJ_TMP2REG else BJ_BUF) k w) else []) tt.
Proof.
  unfold emit_pkt_read. cbv zeta. cbn [i_k].
  replace (read_width _) with (Z.of_nat (bytes_of w)) by (by destruct ind, w).
  replace (BPF_MODE _ =? BPF_IND) with ind by (by destruct ind, w).
  replace (Z.of_nat (bytes_of w) =? 0) with false by (by destruct w). eapply emits_bind.
  - destruct ind; [|apply emits_ret]. unfold emit_ind. eapply emits_eq; [|emits_tac]. done.
  - destruct (k <=? _); [apply emits_read|apply emits_ret].
Qed.

Lemma emits_op o pc u :
  decode (i_code pc) = Some o → emits i (generate_class bc ok hints i pc u) (op_block bc hints o pc u) tt.
Proof.
  intros Hd%decode_Some. destruct pc as [c jt jf k]. cbn [i_code] in Hd. subst c.
  pose proof (emits_load BJ_AREG k) as LA. pose proof (emits_load BJ_XREG k) as LX.
  pose proof (emits_store BJ_AREG k) as SA. pose proof (emits_store BJ_XREG k) as SX.
  pose proof (λ w, emits_pkt_read false w jt jf k) as RA. pose proof (λ w, emits_pkt_read true w jt jf k) as RI.
  pose proof (emits_cop false jt jf k) as CP. pose proof (emits_cop true jt jf k) as CX.
  unfold generate_class, generate_ld, generate_ldx, generate_alu, generate_ret, generate_misc. cbv zeta.
  destruct o as [w|w| | | | | | | | | |a x| | |t x| | | | | |]; cbn [op_block i_k i_jt i_jf].
  - destruct w, u; repeat emits_step; apply RA.
  - destruct w, u; repeat emits_step; apply RI.
  - repeat emits_step.
  - repeat emits_step.
  - repeat emits_step. destruct (_ <=? _); [apply emits_fail|done].
  - repeat emits_step.
  - repeat emits_step.
  - repeat emits_step. destruct (_ <=? _); [apply emits_fail|done].
  - unfold emit_msh. destruct u; [repeat emits_step|]. eapply emits_eq; [|emits_tac]. done.
  - repeat emits_step. destruct (_ || _); [apply emits_fail|done].
  - repeat emits_step. destruct (_ || _); [apply emits_fail|done].
  - pose proof (emits_moddiv a x jt jf k) as HM. unfold bpf_alu_to_sljit_op, kx_to_reg. cbn [i_k alu_block].
    destruct a, x; repeat emits_step; first [apply HM; auto|idtac]; try (destruct (31 <? k)); repeat emits_step.
    all: apply emits_fail || apply emits_op2.
  - repeat emits_step.
  - repeat emits_step. unfold emit_jmp. change (jump_offsets _) with (k, k). cbv beta iota zeta. rewrite Z.eqb_refl.
    eapply emits_eq; [|emits_tac]. done.
  - pose proof (emits_jcc t x jt jf k). destruct t, x; repeat emits_step; done.
  - eapply emits_eq; [|emits_tac]. done.
  - eapply emits_eq; [|emits_tac]. done.
  - repeat emits_step.
  - repeat emits_step.
  - repeat emits_step. destruct (GET_FUNCS bc); [|apply emits_fail]. destruct (_ && _); [apply emits_fail|apply CP].
  - repeat emits_step. destruct (GET_FUNCS bc); [|apply emits_fail]. destruct (_ && _); [apply emits_fail|apply CX].
Qed.

Lemma emits_check pc d : emits i (emit_check ok pc d) (check_block pc d) (never_read pc d).
Proof.
  unfold emit_check, check_block, never_read. destruct (read_pkt_insn pc); [|apply emits_ret].
  destruct (UINT32_MAX <? r_check_length d); [emits_tac|]. destruct (0 <? r_check_length d); emits_tac.
Qed.

Lemma emits_insn o pc d :
  decode (i_code pc) = Some o →
  emits i (emit_check ok pc d ≫= λ u, generate_class bc ok hints i pc u) (insn_block bc hints o pc d) tt.
Proof. intros Hd. eapply emits_bind; [apply emits_check|by apply emits_op]. Qed.

(** Calls of the coprocessor that the compiler accepts. *)
Definition cop_exists (o : bpf_op) (pc : bpf_insn) : Prop :=
  match o with
  | Cop => ∃ fs, GET_FUNCS bc = Some fs ∧ i_k pc < Z.of_nat (length fs)
  | Copx => ∃ fs, GET_FUNCS bc = Some fs
  | _ => True
  end.

Lemma generate_cop_exists o pc u s r :
  decode (i_code pc) = Some o → generate_class bc ok hints i pc u s = Some (Some tt, r) → cop_exists o pc.
Proof.
  intros Hd%decode_Some. destruct pc as [c jt jf k]. cbn [i_code] in Hd. subst c. destruct o; try done.
  - change (generate_class bc ok hints i _ u) with (match GET_FUNCS bc with
      | None => fail
      | Some fs => if Z.of_nat (length fs) <=? k then fail else emit_cop bc ok hints (mk_insn (encode Cop) jt jf k)
      end). cbn [cop_exists i_k]. destruct (GET_FUNCS bc) as [fs|]; [|done].
    destruct (Z.leb_spec (Z.of_nat (length fs)) k); [done|]. by exists fs.
  - change (generate_class bc ok hints i _ u) with (match GET_FUNCS bc with
      | None => fail
      | Some fs => emit_cop bc ok hints (mk_insn (encode Copx) jt jf k)
      end). cbn [cop_exists]. destruct (GET_FUNCS bc) as [fs|]; [|done]. by exists fs.
Qed.

(** ** The prologue *)

Definition init_block (initmask : Z) (mem_reg : reg) (mem_off : Z) (l : list nat) : list lir :=
  n ← l;
  if has_hint initmask (BJ_INIT_MBIT (Z.of_nat n))
  then [Op1 SLJIT_MOV_UI (Mem1 mem_reg (mem_off + Z.of_nat n * 4)) (Imm 0)] else [].

Definition ctx_block : list lir :=
  if has_hint hints BJ_HINT_COP
  then [Op1 SLJIT_MOV_P (Mem1 SLJIT_LOCALS_REG stack_ctx) (Reg BJ_CTX_ARG)] else [].

Definition ext_block : list lir :=
  if (GET_EXTWORDS bc =? 0)%nat then []
  else [Op1 SLJIT_MOV_P (Reg BJ_TMP1REG) (Mem1 BJ_ARGS args_mem);
        Op1 SLJIT_MOV_P (Mem1 SLJIT_LOCALS_REG stack_extmem) (Reg BJ_TMP1REG)].

Definition zero_block (initmask bit : Z) (r : reg) : list lir :=
  if has_hint initmask bit then [Op1 SLJIT_MOV (Reg r) (Imm 0)] else [].

Definition words_block (z : Z) : list lir :=
  if (GET_EXTWORDS bc =? 0)%nat then init_block z SLJIT_LOCALS_REG stack_mem (seq 0 (memwords bc))
  else init_block z BJ_TMP1REG 0 (seq 0 (memwords bc)).

Definition prologue (initmask : Z) : list lir :=
  let z := init_words bc initmask in
  [Enter 2 (nscratches hints) nsaveds stack_size] ++ ctx_block ++ ext_block ++ words_block z ++
  zero_block z BJ_INIT_ABIT BJ_AREG ++ zero_block z BJ_INIT_XBIT BJ_XREG ++
  [Op1 SLJIT_MOV_P (Reg BJ_BUF) (Mem1 BJ_ARGS args_pkt); Op1 SLJIT_MOV (Reg BJ_BUFLEN) (Mem1 BJ_ARGS args_buflen)].

Lemma plain_app l1 l2 : plain (l1 ++ l2) = plain l1 ++ plain l2.
Proof. apply fmap_app. Qed.

Lemma emits_init z r off l : emits i (emit_init_mem ok z r off l) (plain (init_block z r off l)) tt.
Proof.
  induction l as [|n l IH]; cbn [emit_init_mem]; [apply emits_ret|].
  change (init_block z r off (n :: l)) with ((if has_hint z (BJ_INIT_MBIT (Z.of_nat n))
    then [Op1 SLJIT_MOV_UI (Mem1 r (off + Z.of_nat n * 4)) (Imm 0)] else []) ++ init_block z r off l).
  rewrite plain_app. eapply emits_bind; [|exact IH]. destruct (has_hint _ _); emits_step.
Qed.

Lemma emits_prologue initmask : emits i (emit_prologue bc ok initmask hints) (plain (prologue initmask)) tt.
Proof.
  unfold emit_prologue, prologue, ctx_block, ext_block, zero_block, load_buf_buflen, words_block. cbv zeta.
  rewrite !plain_app. unfold sljit_emit_enter. eapply emits_bind; [apply emits_emit|].
  eapply emits_bind; [destruct (has_hint _ _); emits_step|].
  eapply (emits_bind _ _ _ _ _ (if (GET_EXTWORDS bc =? 0)%nat then (SLJIT_LOCALS_REG, stack_mem) else (BJ_TMP1REG, 0))).
  { destruct (_ =? _)%nat; [emits_step|]. eapply emits_eq; [|emits_tac]. done. }
  eapply emits_bind; [destruct (_ =? _)%nat; apply emits_init|].
  eapply emits_bind; [destruct (has_hint _ _); emits_step|]. eapply emits_bind; [destruct (has_hint _ _); emits_step|].
  eapply emits_eq; [|emits_tac]. done.
Qed.

End Emission.
