(* ===== verification/BpfLayout.v ===== *)
(** * The layout of the code

    The code of a program is its prologue, the blocks of its instructions in order, and the
    end that returns 0; every jump gets the place of its destination as its target. *)

From S2P Require Import Prelude BpfInsn Lir BpfOpt BpfJit BpfFlow BpfBounds BpfSound BpfBlock.

(** ** Labels *)

(** The jumps of a list of branches. *)
Definition jumps_of (dat : list insn_data) (l : list (nat * bool)) : list nat :=
  omap (λ e, d ← dat !! fst e; sjump d (snd e)) l.

Lemma elem_of_jumps_of dat l p : p ∈ jumps_of dat l ↔ ∃ x b d, (x, b) ∈ l ∧ dat !! x = Some d ∧ sjump d b = Some p.
Proof.
  unfold jumps_of. rewrite list_elem_of_omap. split.
  - intros ([x b] & Hin & He). cbn in He. destruct (dat !! x) as [d|] eqn:Hx; [|done]. by exists x, b, d.
  - intros (x & b & d & Hin & Hx & Hp). exists (x, b). split; [done|]. cbn. by rewrite Hx.
Qed.

Lemma insert_target (n j p : nat) (l : list nat) (m m' : gmap nat nat) :
  m' !! p = (if decide (p ∈ l) then Some n else <[j := n]> m !! p) →
  m' !! p = if decide (p ∈ j :: l) then Some n else m !! p.
Proof.
  intros ->. destruct (decide (p ∈ l)) as [Hl|Hl]; [by rewrite decide_True by (by right)|].
  destruct (decide (p = j)) as [->|Hne]; [rewrite lookup_insert_eq, decide_True by left; done|].
  rewrite lookup_insert_ne by done. rewrite decide_False; [done|]. by intros [->|?]%elem_of_cons.
Qed.

Lemma set_labels_spec ok l label s s' :
  set_labels ok label l s = Some (Some tt, s') → default (length (c_code s)) label = length (c_code s) →
  c_code s' = c_code s ∧ insn_dat s' = insn_dat s ∧ ret0 s' = ret0 s ∧
  ∀ p, c_targets s' !! p = if decide (p ∈ jumps_of (insn_dat s) l) then Some (length (c_code s)) else c_targets s !! p.
Proof.
  revert label s. induction l as [|[x b] l IH]; intros label s; cbn [set_labels].
  { intros [= <-] _. split_and!; try done. }
  unfold mbind, G_bind at 1, get. destruct (insn_dat s !! x) as [d|] eqn:Hx; [|done].
  assert (jumps_of (insn_dat s) ((x, b) :: l) = match sjump d b with Some j => j :: jumps_of (insn_dat s) l | None => jumps_of (insn_dat s) l end) as ->.
  { unfold jumps_of. cbn [omap list_omap fst snd]. rewrite Hx. cbn. by destruct (sjump d b). }
  destruct (sjump d b) as [j|] eqn:Hj; [|by apply IH]. intros E Hlab.
  assert (∃ c, set_labels ok (Some (length (c_code s))) l
    (mk_jit (c_code s) (<[j := length (c_code s)]> (c_targets s)) c (insn_dat s) (ret0 s) (ret0_maxsize s)) = Some (Some tt, s')) as [c E'].
  { destruct label as [n|]; cbn in E, Hlab.
    - subst n. by eexists.
    - unfold sljit_emit_label, mbind, G_bind, request, get, sljit_set_label in E. destruct (ok _); [|done]. cbn in E. by eexists. }
  destruct (IH _ _ E' eq_refl) as (C & D & R & T). cbn [c_code insn_dat ret0 c_targets] in *.
  split_and!; try done. intros p. by apply insert_target.
Qed.

Lemma set_ret0_labels_spec n l s s' :
  set_ret0_labels n l s = Some (Some tt, s') →
  c_code s' = c_code s ∧ ∀ p, c_targets s' !! p = if decide (p ∈ l) then Some n else c_targets s !! p.
Proof.
  revert s. induction l as [|j l IH]; intros s; cbn [set_ret0_labels].
  { intros [= <-]. split; [done|]. done. }
  intros E. destruct (IH _ E) as [C T]. split; [done|]. intros p. specialize (T p). by apply insert_target.
Qed.

(** ** Branches of a block *)

Definition no_branch (blk : list item) : Prop :=
  Forall (λ it, match snd it with Some (Dbranch _) => False | _ => True end) blk.

Lemma no_branch_plain l : no_branch (plain l).
Proof. apply Forall_fmap. by apply Forall_true. Qed.

Lemma no_branch_app l1 l2 : no_branch l1 → no_branch l2 → no_branch (l1 ++ l2).
Proof. apply Forall_app_2. Qed.

Lemma no_branch_lookup blk k x b : no_branch blk → blk !! k = Some (x, Some (Dbranch b)) → False.
Proof. intros H Hk. by apply (Forall_lookup_1 _ _ _ _ H Hk). Qed.

Lemma no_branch_at blk n b : no_branch blk → branch_at n blk b = None.
Proof.
  intros H. destruct (branch_at n blk b) as [p|] eqn:E; [|done]. apply branch_at_Some in E as (k & x & Hk & _).
  by destruct (no_branch_lookup _ _ _ _ H Hk).
Qed.

Lemma no_branch_check pc d : no_branch (check_block pc d).
Proof. unfold check_block. destruct (read_pkt_insn pc); [|constructor]. repeat case_match; repeat constructor. Qed.

Section Layout.

Context {W : Type} (bc : option (bpf_ctx W)) (hints : Z) (insns : list bpf_insn).

Lemma no_branch_op o pc u : jumps o = false → no_branch (op_block bc hints o pc u).
Proof.
  intros Hj. destruct o; try discriminate Hj; cbn [op_block]; try apply no_branch_plain;
    unfold alu_block, moddiv_block, cop_block, find_block, ind_block;
    repeat first [apply no_branch_plain|apply Forall_nil_2|apply no_branch_app|apply Forall_cons_2; [done|]|case_match].
Qed.

Lemma branch_op o pc u k x b :
  decode (i_code pc) = Some o → op_block bc hints o pc u !! k = Some (x, Some (Dbranch b)) →
  jumps o = true ∧ (b = true → fst (jump_offsets pc) ≠ snd (jump_offsets pc)) ∧
  ∀ n, branch_at n (op_block bc hints o pc u) b = Some (n + k)%nat.
Proof.
  intros Hd%decode_Some Hk. destruct (jumps o) eqn:Hj; [|by destruct (no_branch_lookup _ _ _ _ (no_branch_op o pc u Hj) Hk)].
  split; [done|]. destruct pc as [c jt jf kk]. cbn [i_code] in Hd. subst c.
  assert (∀ n k : nat, (S k + n = n + S k)%nat) as Hc by lia.
  destruct o as [| | | | | | | | | | | | | |t y| | | | | |]; try discriminate Hj; cbn [op_block i_k i_jt i_jf] in *.
  - destruct k as [|k]; [|done]. injection Hk as <- <-. split; [done|]. intros n. by rewrite Nat.add_0_r.
  - replace (jump_offsets _) with (jt, jf) by (by destruct t, y). cbn [fst snd]. unfold jump_block, test_block in *.
    destruct (Z.eqb_spec jt jf) as [E|E].
    { destruct k as [|k]; [|done]. injection Hk as <- <-. split; [done|]. intros n. by rewrite Nat.add_0_r. }
    split; [done|]. intros n.
    destruct t, (jt =? 0), (jf =? 0); destruct k as [|[|[|k]]]; try discriminate Hk; injection Hk as <- <-; cbn; f_equal; lia.
Qed.

Context (F : list insn_data).

Definition code_block (i : nat) : list item :=
  match insns !! i, F !! i with
  | Some pc, Some d =>
      if unreachable d then []
      else match decode (i_code pc) with Some o => insn_block bc hints o pc d | None => [] end
  | _, _ => []
  end.

Lemma branch_code i k x b :
  code_block i !! k = Some (x, Some (Dbranch b)) →
  ∃ pc, insns !! i = Some pc ∧ reach F i ∧ is_jmp pc = true ∧
    (b = true → fst (jump_offsets pc) ≠ snd (jump_offsets pc)) ∧ ∀ n, branch_at n (code_block i) b = Some (n + k)%nat.
Proof.
  unfold code_block. destruct (insns !! i) as [pc|]; [|done]. destruct (F !! i) as [d|] eqn:Hd; [|done].
  destruct (unreachable d) eqn:Hu; [done|]. destruct (decode (i_code pc)) as [o|] eqn:Ho; [|done]. intros Hk.
  exists pc. split; [done|]. split; [by exists d|]. unfold insn_block in *. pose proof (no_branch_check pc d) as Hnc.
  apply lookup_app_Some in Hk as [Hk|[Hge Hk]]; [by destruct (no_branch_lookup _ _ _ _ Hnc Hk)|].
  destruct (branch_op _ _ _ _ _ _ Ho Hk) as (Hj & Hne & Hat). split; [by rewrite (jumps_class pc o)|]. split; [done|].
  intros n. rewrite branch_at_app, Hat. f_equal. lia.
Qed.

(** The places of the blocks, behind a prologue of length [base]. *)
Fixpoint place_of (base i : nat) : nat :=
  match i with O => base | S i => place_of base i + length (code_block i) end.

Lemma place_mono base i j : (i ≤ j)%nat → (place_of base i ≤ place_of base j)%nat.
Proof. induction 1; cbn [place_of]; lia. Qed.

(** A place belongs to one block. *)
Lemma place_inj base i j k k' :
  (k < length (code_block i))%nat → (k' < length (code_block j))%nat →
  (place_of base i + k = place_of base j + k')%nat → i = j ∧ k = k'.
Proof.
  intros Hk Hk' E. destruct (Nat.lt_trichotomy i j) as [H|[->|H]].
  - pose proof (place_mono base (S i) j H). cbn [place_of] in *. lia.
  - split; lia.
  - pose proof (place_mono base (S j) i H). cbn [place_of] in *. lia.
Qed.

Context (initmask : Z) (inv abc chk aft : nat → Z) (ok : nat → bool).
Hypothesis FF : facts bc insns F initmask hints inv abc chk aft.
Hypothesis insns_ok : Forall insn_ok insns.
Hypothesis insns_few : Z.of_nat (length insns) ≤ 2 ^ 32.
Hypothesis insns_valid : Forall (λ pc, is_Some (decode (i_code pc))) insns.

(** Behind the prologue [pre], the blocks of the instructions before [i]. *)
Record laid (pre : list lir) (i : nat) (s : jit) : Prop := {
  la_code : ∃ l, c_code s = pre ++ l ∧ length (c_code s) = place_of (length pre) i ∧
    ∀ j k x, (j < i)%nat → code_block j !! k = Some x → c_code s !! (place_of (length pre) j + k)%nat = Some (fst x);
  la_dat : length (insn_dat s) = length F;
  la_same : ∀ x d, F !! x = Some d → ∃ d', insn_dat s !! x = Some d' ∧ same_data d d' ∧
    (∀ pc b, unreachable d = false → insns !! x = Some pc → is_jmp pc = true →
      sjump d' b = if decide (x < i)%nat then branch_at (place_of (length pre) x) (code_block x) b else None);
  la_ret0 : ∀ p, p ∈ ret0 s ↔ ∃ j k x, (j < i)%nat ∧ code_block j !! k = Some (x, Some Dret0) ∧ p = (place_of (length pre) j + k)%nat;
  la_targets : ∀ j k x b pc, (j < i)%nat → code_block j !! k = Some (x, Some (Dbranch b)) → insns !! j = Some pc →
    (target j pc b < i)%nat → c_targets s !! (place_of (length pre) j + k)%nat = Some (place_of (length pre) (target j pc b));
  la_cop : ∀ j pc o, (j < i)%nat → reach F j → insns !! j = Some pc → decode (i_code pc) = Some o → cop_exists bc o pc;
}.

(** The branches noted for an instruction that come to [i] are those of earlier blocks. *)
Lemma laid_jumps pre i s d p :
  laid pre i s → F !! i = Some d → p ∈ jumps_of (insn_dat s) (bjumps d) ↔
  ∃ j k x b pc, (j < i)%nat ∧ code_block j !! k = Some (x, Some (Dbranch b)) ∧ insns !! j = Some pc ∧ target j pc b = i ∧
    p = (place_of (length pre) j + k)%nat.
Proof.
  intros L Hd. rewrite elem_of_jumps_of. split.
  - intros (j & b & dj & Hin & Hdj & Hp). destruct (f_bjumps _ _ _ _ _ _ _ _ _ FF i d (j, b) Hd Hin) as [Hr (pc & Hpc & Hj & Ht & _)].
    cbn [fst snd] in *. destruct (f_jumps _ _ _ _ _ _ _ _ _ FF j pc Hr Hpc Hj) as [Hb _]. specialize (Hb b). rewrite <- Ht in Hb.
    destruct Hr as (dF & HdF & Hu). destruct (la_same _ _ _ L j dF HdF) as (d' & Hd' & _ & Hsj).
    assert (d' = dj) as -> by congruence. rewrite (Hsj pc b Hu Hpc Hj), decide_True in Hp by lia.
    apply branch_at_Some in Hp as (k & x & Hk & ->). exists j, k, x, b, pc. split_and!; try done; lia.
  - intros (j & k & x & b & pc & Hji & Hk & Hpc & Ht & ->). destruct (branch_code j k x b Hk) as (pc' & Hpc' & Hr & Hj & Hne & Hat).
    assert (pc' = pc) as -> by congruence. destruct (f_jumps _ _ _ _ _ _ _ _ _ FF j pc Hr Hpc Hj) as [Hb Hrec].
    destruct (Hrec b) as (dt & Hdt & Hin).
    { destruct b; [|by left]. right. intros E. pose proof (Forall_lookup_1 _ _ _ _ insns_ok Hpc) as Hok.
      rewrite !(target_next insns) in E by done. apply (Hne eq_refl). destruct Hok as (Hk1 & Hk2 & Hk3).
      assert (0 ≤ fst (jump_offsets pc) ∧ 0 ≤ snd (jump_offsets pc)) by (unfold jump_offsets; destruct (_ =? _); cbn; lia). lia. }
    rewrite Ht in Hdt. assert (dt = d) as -> by congruence. destruct Hr as (dF & HdF & Hu).
    destruct (la_same _ _ _ L j dF HdF) as (d' & Hd' & _ & Hsj). exists j, b, d'. split; [done|]. split; [done|].
    by rewrite (Hsj pc b Hu Hpc Hj), decide_True, Hat by lia.
Qed.

(** A branch leads to an instruction that is reachable. *)
Lemma branch_reach j k x b pc :
  code_block j !! k = Some (x, Some (Dbranch b)) → insns !! j = Some pc → reach F (target j pc b) ∧ (j < target j pc b)%nat.
Proof.
  intros Hk Hpc. destruct (branch_code j k x b Hk) as (pc' & Hpc' & Hr & Hj & _). assert (pc' = pc) as -> by congruence.
  destruct (f_jumps _ _ _ _ _ _ _ _ _ FF j pc Hr Hpc Hj) as [Hb _]. specialize (Hb b).
  destruct (Forall_lookup_1 _ _ _ _ insns_valid Hpc) as [o Ho]. split; [|lia].
  apply (f_succ _ _ _ _ _ _ _ _ _ FF j pc o); [done|done| |lia]. apply succ_jump. by rewrite <- (jumps_class pc o).
Qed.

Lemma laid_unreachable pre i d s : laid pre i s → F !! i = Some d → unreachable d = true → laid pre (S i) s.
Proof.
  intros L Hd Hu. assert (code_block i = []) as E.
  { unfold code_block. rewrite Hd, Hu. by destruct (insns !! i). }
  assert (∀ j k x, (j < S i)%nat → code_block j !! k = Some x → (j < i)%nat) as Hlt.
  { intros j k x Hj Hk. destruct (decide (j = i)) as [->|]; [by rewrite E in Hk|lia]. }
  split.
  - destruct (la_code _ _ _ L) as (l & Hl & Hlen & Hat). exists l. split; [done|].
    split; [cbn [place_of]; rewrite E; cbn; lia|]. intros j k x Hj Hk. apply Hat; [by eapply Hlt|done].
  - apply L.
  - intros x dx Hx. destruct (la_same _ _ _ L x dx Hx) as (d' & Hd' & S' & Hs). exists d'. split; [done|]. split; [done|].
    intros pc b Hux Hpc Hj. rewrite (Hs pc b Hux Hpc Hj). destruct (decide (x = i)) as [->|Hne]; [congruence|].
    destruct (decide (x < i)%nat); [by rewrite decide_True by lia|by rewrite decide_False by lia].
  - intros p. rewrite (la_ret0 _ _ _ L). split; intros (j & k & x & Hj & Hk & ->); exists j, k, x; split_and!; try done; [lia|by eapply Hlt].
  - intros j k x b pc Hj Hk Hpc Ht. eapply (la_targets _ _ _ L); [by eapply Hlt|done|done|].
    destruct (decide (target j pc b = i)) as [Et|]; [|lia]. destruct (branch_reach j k x b pc Hk Hpc) as [(d0 & Hd0 & Hu0) _].
    rewrite Et in Hd0. congruence.
  - intros j pc o Hj Hr Hpc Ho. eapply (la_cop _ _ _ L); [|done..]. destruct (decide (j = i)) as [->|]; [|lia].
    destruct Hr as (d0 & Hd0 & Hu0). congruence.
Qed.

(** What is emitted for an instruction, when the labels are set. *)
Lemma laid_emitted pre i pc o d s s1 s' :
  laid pre i s → insns !! i = Some pc → decode (i_code pc) = Some o → F !! i = Some d → unreachable d = false →
  c_code s1 = c_code s → insn_dat s1 = insn_dat s → ret0 s1 = ret0 s →
  (∀ p, c_targets s1 !! p = if decide (p ∈ jumps_of (insn_dat s) (bjumps d)) then Some (length (c_code s)) else c_targets s !! p) →
  c_code s' = c_code s1 ++ (fst <$> code_block i) → c_targets s' = c_targets s1 →
  ret0 s' = ret0 s1 ++ ret0_at (length (c_code s1)) (code_block i) →
  noted i (length (c_code s1)) (code_block i) (insn_dat s1) (insn_dat s') → cop_exists bc o pc → laid pre (S i) s'.
Proof.
  intros L Hpc Ho Hd Hu C1 D1 R1 T1 C2 T2 R2 [NL N2] Hcop. destruct (la_code _ _ _ L) as (l & Hl & Hlen & Hat).
  rewrite C1, Hlen in R2, N2. rewrite C1 in C2. rewrite D1 in NL, N2. rewrite R1 in R2. split.
  - exists (l ++ (fst <$> code_block i)). split; [by rewrite C2, Hl, app_assoc|].
    split; [rewrite C2, length_app, length_fmap; cbn [place_of]; lia|].
    intros j k x Hj Hk. rewrite C2. destruct (decide (j = i)) as [->|].
    + rewrite lookup_app_r by lia. rewrite list_lookup_fmap. replace (_ + k - _)%nat with k by lia. by rewrite Hk.
    + apply lookup_app_l_Some, Hat; [lia|done].
  - rewrite NL. apply L.
  - intros x dx Hx. destruct (la_same _ _ _ L x dx Hx) as (d1 & Hd1 & (B1 & U1 & K1) & Hs).
    destruct (N2 x d1 Hd1) as (d2 & Hd2 & (B2 & U2 & K2) & Hn). exists d2. split; [done|].
    split; [split_and!; congruence|]. intros pcx b Hux Hpcx Hjx. rewrite (Hn b), (Hs pcx b Hux Hpcx Hjx).
    destruct (decide (x = i)) as [->|Hne].
    + rewrite decide_False, decide_True by lia. by destruct (branch_at _ _ b).
    + destruct (decide (x < i)%nat); [by rewrite decide_True by lia|by rewrite decide_False by lia].
  - intros p. rewrite R2, elem_of_app, (la_ret0 _ _ _ L), elem_of_ret0_at. split.
    + intros [(j & k & x & Hj & Hk & ->)|(k & x & Hk & ->)]; [exists j, k, x|exists i, k, x]; split_and!; try done; lia.
    + intros (j & k & x & Hj & Hk & ->). destruct (decide (j = i)) as [->|]; [right; by exists k, x|left; exists j, k, x; split_and!; try done; lia].
  - intros j k x b pcj Hj Hk Hpcj Ht. destruct (branch_reach j k x b pcj Hk Hpcj) as [_ Hfwd].
    assert (j < i)%nat as Hji by lia. rewrite T2, T1. destruct (decide (target j pcj b = i)) as [Et|Hne].
    + rewrite decide_True; [by rewrite Hlen, Et|]. apply (laid_jumps pre i s d _ L Hd). by exists j, k, x, b, pcj.
    + rewrite decide_False; [eapply (la_targets _ _ _ L); try done; lia|]. rewrite (laid_jumps pre i s d _ L Hd).
      intros (j' & k' & x' & b' & pc' & Hj' & Hk' & Hpc' & Ht' & E).
      apply place_inj in E as [-> ->]; [|by eapply lookup_lt_Some..]. congruence.
  - intros j pcj oj Hj Hr Hpcj Hoj. destruct (decide (j = i)) as [->|]; [by simplify_eq|]. eapply (la_cop _ _ _ L); try done; lia.
Qed.

Lemma laid_step pre i pc s s' :
  laid pre i s → insns !! i = Some pc → generate_insn bc ok hints i pc s = Some (Some tt, s') → laid pre (S i) s'.
Proof.
  intros L Hpc. unfold generate_insn, mbind at 1, G_bind at 1, get.
  destruct (lookup_lt_is_Some_2 F i) as [d Hd]; [rewrite (f_len _ _ _ _ _ _ _ _ _ FF); by eapply lookup_lt_Some|].
  destruct (la_same _ _ _ L i d Hd) as (d' & Hd' & (B & U & K) & _). rewrite Hd', U.
  destruct (unreachable d) eqn:Hu; [intros [= <-]; by eapply laid_unreachable|].
  unfold mbind at 1, G_bind at 1. destruct (set_labels ok None (bjumps d') s) as [[[[]|] s1]|] eqn:E1; [|done|done]. intros E2.
  destruct (Forall_lookup_1 _ _ _ _ insns_valid Hpc) as [o Ho].
  apply set_labels_spec in E1 as (C1 & D1 & R1 & T1); [|done].
  destruct (emits_insn bc hints ok i o pc d' Ho s1 tt s' E2) as (_ & C2 & T2 & R2 & N2).
  assert (insn_block bc hints o pc d' = code_block i) as Eb.
  { unfold code_block, insn_block, check_block, never_read. by rewrite Hpc, Hd, Hu, Ho, K. }
  rewrite Eb in C2, R2, N2. rewrite B in T1. eapply laid_emitted; try done.
  revert E2. unfold mbind, G_bind. destruct (emit_check ok pc d' s1) as [[[u|] s2]|]; [|done|done]. by apply generate_cop_exists.
Qed.

Lemma laid_loop pre l i s s' :
  laid pre i s → drop i insns = l → (i ≤ length insns)%nat → generate_loop bc ok hints i l s = Some (Some tt, s') →
  laid pre (length insns) s'.
Proof.
  revert i s. induction l as [|pc l IH]; intros i s L Hl Hi; cbn [generate_loop].
  - intros [= <-]. apply (f_equal length) in Hl. rewrite length_drop in Hl. cbn in Hl. by replace (length insns) with i by lia.
  - assert (insns !! i = Some pc) as Hpc by (rewrite <- (Nat.add_0_r i), <- lookup_drop, Hl; done).
    pose proof (lookup_lt_Some _ _ _ Hpc). unfold mbind at 1, G_bind at 1.
    destruct (generate_insn bc ok hints i pc s) as [[[[]|] s1]|] eqn:E1; [|done|done]. intros E2.
    apply (IH (S i) s1); [by eapply laid_step| |lia|done]. by rewrite <- Nat.add_1_r, <- drop_drop, Hl.
Qed.

(** The whole code. *)
Record layout (pre code : list lir) (targets : gmap nat nat) : Prop := {
  ly_pre : ∀ k x, pre !! k = Some x → code !! k = Some x;
  ly_code : ∀ j k x, code_block j !! k = Some x → code !! (place_of (length pre) j + k)%nat = Some (fst x);
  ly_ret0 : ∀ j k x, code_block j !! k = Some (x, Some Dret0) →
    targets !! (place_of (length pre) j + k)%nat = Some (place_of (length pre) (length insns));
  ly_branch : ∀ j k x b pc, code_block j !! k = Some (x, Some (Dbranch b)) → insns !! j = Some pc →
    targets !! (place_of (length pre) j + k)%nat = Some (place_of (length pre) (target j pc b));
  ly_end : code !! place_of (length pre) (length insns) = Some (Return (Imm 0));
  ly_cop : ∀ j pc o, reach F j → insns !! j = Some pc → decode (i_code pc) = Some o → cop_exists bc o pc;
}.

Lemma code_block_lt j k x : code_block j !! k = Some x → (j < length insns)%nat.
Proof. unfold code_block. destruct (insns !! j) eqn:E; [|done]. intros _. by eapply lookup_lt_Some. Qed.

(** The branches that are reset before the loop. *)
Lemma laid_start pre s dat :
  c_code s = pre → ret0 s = [] → length dat = length F → (∀ x d, F !! x = Some d → ∃ d', dat !! x = Some d' ∧ same_data d d') →
  insn_dat s = zip_with reset_sjump insns dat → laid pre 0 s.
Proof.
  intros C R Hld Hsd D. pose proof (f_len _ _ _ _ _ _ _ _ _ FF) as Hl. split; try (intros; lia).
  - exists []. rewrite app_nil_r. split; [done|]. split; [by rewrite C|]. intros; lia.
  - rewrite D, length_zip_with. lia.
  - intros x d Hd. destruct (lookup_lt_is_Some_2 insns x) as [pc Hpc]; [rewrite <- Hl; by eapply lookup_lt_Some|].
    destruct (Hsd x d Hd) as (d' & Hd' & (B & U & K)).
    exists (reset_sjump pc d'). rewrite D, lookup_zip_with, Hpc, Hd'. split; [done|]. unfold reset_sjump.
    split; [by destruct (_ || _)|]. intros pc' b Hu Hpc' Hj. assert (pc' = pc) as -> by congruence. unfold is_jmp in Hj. by rewrite U, Hu, Hj.
  - intros p. rewrite R. split; [intros H; by apply not_elem_of_nil in H|]. intros (j & k & x & Hj & _). lia.
Qed.

Lemma generate_layout pre s s' :
  c_code s = pre → length (insn_dat s) = length F →
  (∀ x d, F !! x = Some d → ∃ d', insn_dat s !! x = Some d' ∧ same_data d d') →
  generate_insn_code bc ok hints insns s = Some (Some tt, s') → layout pre (c_code s') (c_targets s').
Proof.
  intros C Hld Hsd. unfold generate_insn_code. unfold mbind at 1, G_bind at 1, request. destruct (ok (c_calls s)); [|done].
  cbn [mbind G_bind set_ret0 get set_dat insn_dat c_code c_targets c_calls ret0 ret0_maxsize].
  unfold mbind at 1, G_bind at 1, set_ret0. unfold mbind at 1, G_bind at 1, get. unfold mbind at 1, G_bind at 1, set_dat.
  cbn [insn_dat c_code c_targets c_calls ret0 ret0_maxsize].
  set (s0 := mk_jit _ _ _ _ _ _). unfold mbind at 1, G_bind at 1.
  destruct (generate_loop bc ok hints 0 insns s0) as [[[[]|] s1]|] eqn:E1; [|done|done].
  assert (laid pre (length insns) s1) as L.
  { eapply (laid_loop pre insns 0 s0); [by eapply laid_start|done|lia|done]. }
  unfold mbind at 1, G_bind at 1, get. unfold mbind at 1, G_bind at 1. intros E2.
  destruct (la_code _ _ _ L) as (l & Hl & Hlen & Hat).
  assert (∃ s2, c_code s2 = c_code s1 ∧ (∀ p, c_targets s2 !! p = if decide (p ∈ ret0 s1) then Some (length (c_code s1)) else c_targets s1 !! p) ∧
    sljit_emit_return ok (Imm 0) s2 = Some (Some tt, s')) as (s2 & C2 & T2 & E3).
  { destruct (ret0 s1) as [|r0 rs] eqn:Er; cbn [length Nat.eqb negb] in E2.
    - exists s1. done.
    - unfold mbind at 1, G_bind at 1, sljit_emit_label in E2. unfold mbind at 1, G_bind at 1, request, get in E2.
      destruct (ok (c_calls s1)); [|done]. cbn [c_code] in E2.
      destruct (set_ret0_labels _ _ _) as [[[[]|] s2]|] eqn:E4 in E2; [|done|done].
      apply set_ret0_labels_spec in E4 as [C4 T4]. exists s2. done. }
  destruct (emits_return ok 0 (Imm 0) s2 tt s' E3) as (_ & C3 & T3 & _). rewrite C2 in C3. cbn [fmap list_fmap fst] in C3.
  split.
  - intros k x Hk. rewrite C3, Hl. by apply lookup_app_l_Some, lookup_app_l_Some.
  - intros j k x Hk. rewrite C3. apply lookup_app_l_Some, Hat; [by eapply code_block_lt|done].
  - intros j k x Hk. rewrite T3, T2, decide_True; [by rewrite Hlen|]. apply (la_ret0 _ _ _ L).
    exists j, k, x. split; [by eapply code_block_lt|done].
  - intros j k x b pc Hk Hpc. rewrite T3, T2, decide_False.
    + apply (la_targets _ _ _ L j k x b pc); [by eapply code_block_lt|done|done|].
      destruct (branch_reach j k x b pc Hk Hpc) as [(d & Hd & _) _]. rewrite <- (f_len _ _ _ _ _ _ _ _ _ FF). by eapply lookup_lt_Some.
    + rewrite (la_ret0 _ _ _ L). intros (j' & k' & x' & _ & Hk' & E).
      apply place_inj in E as [-> ->]; [congruence|by eapply lookup_lt_Some..].
  - rewrite C3, <- Hlen. by apply list_lookup_middle.
  - intros j pc o Hr Hpc Ho. eapply (la_cop _ _ _ L); try done. by eapply lookup_lt_Some.
Qed.

End Layout.

(** The code that the compiler makes. *)
Lemma compiled_layout {W} (bc : option (bpf_ctx W)) ok insns dat code targets :
  Forall insn_ok insns → Z.of_nat (length insns) ≤ 2 ^ 32 → Forall (λ pc, is_Some (decode (i_code pc))) insns →
  length dat = length insns → bpfjit_generate_code bc ok insns dat = Some (Some (code, targets)) →
  (GET_MEMWORDS bc ≤ 16)%nat ∧ ∃ F initmask hints inv abc chk aft,
    optimize bc insns dat = Some (F, initmask, hints) ∧ facts bc insns F initmask hints inv abc chk aft ∧
    layout bc hints insns F (prologue bc hints initmask) code targets.
Proof.
  intros Hok Hfew Hv Hl. unfold bpfjit_generate_code. destruct (Nat.ltb_spec MAX_MEMWORDS (memwords bc)) as [|Hm]; [done|].
  destruct (Nat.eqb_spec (length insns) 0) as [|Hne]; [done|]. cbn [orb]. destruct (_ <? _); [done|]. destruct (negb (ok 0%nat)); [done|].
  destruct (optimize bc insns dat) as [[[F initmask] hints]|] eqn:Eo; [|done].
  destruct (optimize_facts bc insns Hok Hfew ltac:(lia) dat F initmask hints Hl Eo) as (inv & abc & chk & aft & FF).
  unfold mbind at 1, G_bind at 1, request. destruct (ok _); [|done].
  unfold mbind at 1, G_bind at 1. cbn [c_code c_targets c_calls insn_dat ret0 ret0_maxsize].
  destruct (emit_prologue bc ok initmask hints _) as [[[[]|] s1]|] eqn:E1; [|done|done].
  destruct (emits_prologue bc hints ok (length insns) initmask _ tt s1 E1) as (_ & C1 & T1 & R1 & N1).
  cbn [c_code insn_dat length] in *. unfold mbind at 1, G_bind at 1.
  destruct (generate_insn_code bc ok hints insns s1) as [[[[]|] s2]|] eqn:E2; [|done|done]. unfold request.
  destruct (ok _); [|done]. intros [= <- <-]. split; [exact Hm|].
  exists F, initmask, hints, inv, abc, chk, aft. split; [done|]. split; [done|]. cbn [c_code c_targets].
  eapply generate_layout; try done.
  - rewrite C1. cbn [app]. unfold plain. rewrite <- list_fmap_compose. apply list_fmap_id.
  - apply N1.
  - intros x d Hd. destruct N1 as [_ N1]. destruct (N1 x d Hd) as (d' & Hd' & Hs & _). by exists d'.
Qed.
