(* ===== verification/BpfRun.v ===== *)
(** * Running blocks

    A block runs to its end, to the destination of a jump, or to a return. *)

From S2P Require Import Prelude BpfInsn Lir BpfOpt BpfJit BpfFlow BpfBounds BpfSound BpfBlock.

(** ** Numbers of 32 and 64 bits *)

Lemma u32_mod64 z : u32 (z mod 2 ^ 64) = u32 z.
Proof. unfold u32. symmetry. apply Znumtheory.Zmod_div_mod; [lia|lia|]. by exists (2 ^ 32). Qed.

Lemma u32_word z : word z → u32 z = z.
Proof. unfold u32, word. apply Z.mod_small. Qed.

Lemma u64_word z : word z → u64 z = z.
Proof. unfold u64, word. intros H. apply Z.mod_small. lia. Qed.

Lemma u32_widened z j : word z → u32 (z + 2 ^ 32 * j) = z.
Proof. intros H. unfold u32. rewrite Z.mul_comm, Z.mod_add by lia. by apply u32_word. Qed.

Lemma u32_sub_l x y : u32 (u32 x - y) = u32 (x - y).
Proof. unfold u32. by rewrite Zminus_mod_idemp_l. Qed.
Lemma u32_mul_l x y : u32 (u32 x * y) = u32 (x * y).
Proof. unfold u32. by rewrite Z.mul_mod_idemp_l. Qed.
Lemma u32_opp x : u32 (- u32 x) = u32 (- x).
Proof. change (- u32 x) with (0 - u32 x). unfold u32. by rewrite Zminus_mod_idemp_r. Qed.

Lemma u32_testbit z n : 0 ≤ n → Z.testbit (u32 z) n = (n <? 32) && Z.testbit z n.
Proof.
  intros Hn. unfold u32. destruct (Z.ltb_spec n 32); cbn [andb].
  - by apply Z.mod_pow2_bits_low.
  - by apply Z.mod_pow2_bits_high.
Qed.

(** Operations on bits act on the low half. *)
Lemma u32_bitop (f : Z → Z → Z) g x y :
  (∀ a b i, Z.testbit (f a b) i = g (Z.testbit a i) (Z.testbit b i)) → g false false = false → word y →
  u32 (f x y) = f (u32 x) y.
Proof.
  intros Hf Hg [Hy By]%word_bits. apply Z.bits_inj'. intros n Hn. rewrite u32_testbit, !Hf, u32_testbit by done.
  destruct (Z.ltb_spec n 32); cbn [andb]; [done|]. by rewrite By, Hg.
Qed.

Lemma u32_shiftl x n : 0 ≤ n → u32 (Z.shiftl (u32 x) n) = u32 (Z.shiftl x n).
Proof. intros Hn. by rewrite !Z.shiftl_mul_pow2, u32_mul_l by done. Qed.

(** ** Powers of two *)

Lemma log2_loop_spec fuel k shift : 0 < k < 2 ^ (Z.of_nat fuel + 1) → log2_loop fuel k shift = shift + Z.log2 k.
Proof.
  revert k shift. induction fuel as [|fuel IH]; intros k shift Hk; cbn [log2_loop].
  - assert (k = 1) as -> by (change (2 ^ (Z.of_nat 0 + 1)) with 2 in Hk; lia). cbn. lia.
  - destruct (Z.ltb_spec 1 k) as [H|H].
    + assert (Z.shiftr k 1 = k / 2) as E by (by rewrite Z.shiftr_div_pow2). rewrite E, IH.
      * rewrite <- E, Z.log2_shiftr by lia. pose proof (Z.log2_pos k H). lia.
      * split; [apply Z.div_str_pos; lia|]. apply Z.div_lt_upper_bound; [lia|].
        replace (Z.of_nat (S fuel) + 1) with (1 + (Z.of_nat fuel + 1)) in Hk by lia. rewrite Z.pow_add_r in Hk by lia. lia.
    + assert (k = 1) as -> by lia. cbn. lia.
Qed.

Lemma pow2_log2 k : 0 < k → Z.land k (k - 1) = 0 → k = 2 ^ Z.log2 k.
Proof.
  intros Hk Hl. destruct (Z.log2_spec k Hk) as [Hlo Hhi]. destruct (Z.eq_dec k (2 ^ Z.log2 k)) as [E|E]; [done|]. exfalso.
  pose proof (Z.log2_nonneg k) as Hn. assert (Z.log2 (k - 1) = Z.log2 k) as E2 by (apply Z.log2_unique; lia).
  assert (0 < 2 ^ Z.log2 k) by (by apply Z.pow_pos_nonneg).
  pose proof (Z.bit_log2 k Hk) as B1. pose proof (Z.bit_log2 (k - 1) ltac:(lia)) as B2. rewrite E2 in B2.
  assert (Z.testbit (Z.land k (k - 1)) (Z.log2 k) = true) as B by (by rewrite Z.land_spec, B1, B2).
  by rewrite Hl, Z.testbit_0_l in B.
Qed.

(** ** Words of memory *)

Lemma word_index_spec base size k n :
  0 < size → 0 ≤ k < Z.of_nat n → word_index base size (base + k * size) n = Some (Z.to_nat k).
Proof.
  intros Hs Hk. unfold word_index. replace (base + k * size - base) with (k * size) by lia.
  rewrite Z.div_mul, Z.mod_mul by lia. rewrite Z.eqb_refl.
  destruct (Z.leb_spec base (base + k * size)); [|nia]. by destruct (Z.ltb_spec k (Z.of_nat n)); [|lia].
Qed.

(** ** Blocks *)

Section Run.

Context {W : Type} (bc : option (bpf_ctx W)) (pkt : list Z) (wirelen : Z).
Context (junk : nat → Z) (clobber : nat → callee → reg → value → value).

Inductive block_end := Fall (s : machine W) | Exit (d : dest) (s : machine W) | Stop (r : Z * list Z * W).

Fixpoint run_block (blk : list item) (s : machine W) : option block_end :=
  match blk with
  | [] => Some (Fall s)
  | (x, d) :: blk =>
      match x with
      | Enter _ _ _ _ => run_block blk (exec_enter bc s)
      | Op1 op dst src => s ← exec_op1 bc pkt wirelen s op dst src; run_block blk s
      | Op2 op int dst src1 src2 => s ← exec_op2 bc pkt wirelen junk s op int dst src1 src2; run_block blk s
      | Cmp t int src1 src2 =>
          x ← source_int bc pkt wirelen s int src1;
          y ← source_int bc pkt wirelen s int src2;
          if compare t x y then d ← d; Some (Exit d s) else run_block blk s
      | Jump => d ← d; Some (Exit d s)
      | Call _ src => s ← exec_call bc pkt wirelen junk clobber s src; run_block blk s
      | Return src =>
          z ← source_int bc pkt wirelen s true src;
          Some (Stop (z, if (GET_EXTWORDS bc =? 0)%nat then [] else ext (mem s), world (mem s)))
      end
  end.

Lemma run_block_app b1 b2 s :
  run_block (b1 ++ b2) s = match run_block b1 s with Some (Fall s') => run_block b2 s' | r => r end.
Proof.
  revert s. induction b1 as [|[x d] b1 IH]; intros s; [done|]. cbn [run_block app].
  destruct x; try apply IH.
  - destruct (exec_op1 _ _ _ _ _ _ _); [apply IH|done].
  - destruct (exec_op2 _ _ _ _ _ _ _ _ _ _); [apply IH|done].
  - destruct (source_int _ _ _ _ _ src1); [|done]. destruct (source_int _ _ _ _ _ src2); [|done]. cbn [mbind option_bind].
    destruct (compare _ _ _); [by destruct d|apply IH].
  - by destruct d.
  - destruct (exec_call _ _ _ _ _ _ _); [apply IH|done].
  - by destruct (source_int _ _ _ _ _ src).
Qed.

(** The run from a place gives a result. *)
Definition gives (code : list lir) (targets : gmap nat nat) (p : nat) (s : machine W) (r : Z * list Z * W) : Prop :=
  ∃ fuel, lir_run bc pkt wirelen junk clobber fuel code targets p s = Some r.

Lemma run_block_gives code targets blk p s e r (tgt : dest → nat) :
  (∀ k x, blk !! k = Some x → code !! (p + k)%nat = Some (fst x)) →
  (∀ k x d, blk !! k = Some (x, Some d) → targets !! (p + k)%nat = Some (tgt d)) →
  run_block blk s = Some e →
  match e with
  | Fall s' => gives code targets (p + length blk) s' r
  | Exit d s' => gives code targets (tgt d) s' r
  | Stop r' => r' = r
  end → gives code targets p s r.
Proof.
  revert p s. induction blk as [|[x d] blk IH]; intros p s Hc Ht; cbn [run_block length].
  { intros [= <-]. by rewrite Nat.add_0_r. }
  assert (code !! p = Some x) as Hp by (rewrite <- (Nat.add_0_r p); by apply (Hc 0%nat (x, d))).
  assert (∀ d', d = Some d' → targets !! p = Some (tgt d')) as Hd.
  { intros d' ->. rewrite <- (Nat.add_0_r p). by apply (Ht 0%nat x). }
  assert (∀ k x, blk !! k = Some x → code !! (S p + k)%nat = Some (fst x)) as Hc'.
  { intros k y Hy. rewrite Nat.add_succ_l, <- Nat.add_succ_r. by apply Hc. }
  assert (∀ k x d, blk !! k = Some (x, Some d) → targets !! (S p + k)%nat = Some (tgt d)) as Ht'.
  { intros k y d' Hy. rewrite Nat.add_succ_l, <- Nat.add_succ_r. by apply (Ht (S k) y). }
  assert (∀ s1, (∀ fuel, lir_run bc pkt wirelen junk clobber (S fuel) code targets p s
    = lir_run bc pkt wirelen junk clobber fuel code targets (S p) s1) → run_block blk s1 = Some e →
    match e with
    | Fall s' => gives code targets (p + S (length blk)) s' r
    | Exit d s' => gives code targets (tgt d) s' r
    | Stop r' => r' = r
    end → gives code targets p s r) as Hstep.
  { intros s1 Hrun He Hr. destruct (IH (S p) s1 Hc' Ht' He) as [fuel Hf].
    - rewrite Nat.add_succ_l, <- Nat.add_succ_r. exact Hr.
    - exists (S fuel). by rewrite Hrun. }
  assert (∀ d', d = Some d' → (∀ fuel, lir_run bc pkt wirelen junk clobber (S fuel) code targets p s
      = lir_run bc pkt wirelen junk clobber fuel code targets (tgt d') s) →
    gives code targets (tgt d') s r → gives code targets p s r) as Hexit.
  { intros d' -> Hrun [fuel Hf]. exists (S fuel). by rewrite Hrun. }
  destruct x; cbn [lir_run] in *.
  - apply Hstep. intros fuel. by rewrite Hp.
  - destruct (exec_op1 _ _ _ _ _ _ _) as [s1|] eqn:E; [|done]. apply Hstep. intros fuel. rewrite Hp. cbn. by rewrite E.
  - destruct (exec_op2 _ _ _ _ _ _ _ _ _ _) as [s1|] eqn:E; [|done]. apply Hstep. intros fuel. rewrite Hp. cbn. by rewrite E.
  - destruct (source_int _ _ _ _ _ src1) as [x|] eqn:E1; [|done]. destruct (source_int _ _ _ _ _ src2) as [y|] eqn:E2; [|done].
    cbn [mbind option_bind]. destruct (compare t x y) eqn:E.
    + destruct d as [d'|]; [|done]. intros [= <-]. apply (Hexit d' eq_refl). intros fuel. rewrite Hp. cbn. rewrite E1, E2. cbn.
      by rewrite E, (Hd d' eq_refl).
    + apply Hstep. intros fuel. rewrite Hp. cbn. rewrite E1, E2. cbn. by rewrite E.
  - destruct d as [d'|]; [|done]. intros [= <-]. apply (Hexit d' eq_refl). intros fuel. rewrite Hp. cbn. by rewrite (Hd d' eq_refl).
  - destruct (exec_call _ _ _ _ _ _ _) as [s1|] eqn:E; [|done]. apply Hstep. intros fuel. rewrite Hp. cbn. by rewrite E.
  - destruct (source_int _ _ _ _ _ src) as [z|] eqn:E; [|done]. intros [= <-] <-. exists 1%nat. cbn [lir_run]. rewrite Hp. cbn. by rewrite E.
Qed.

End Run.
