(* ===== verification/BpfSim.v ===== *)
(** * The code of an instruction does what the instruction does

    The state of the reference machine and that of the generated code agree on the words that
    are initialised; the block of an instruction keeps them so, or ends as the instruction
    does. *)

From S2P Require Import Prelude BpfInsn Lir BpfOpt BpfJit BpfFlow BpfBounds BpfSound BpfBlock BpfRun.

Section Sim.

Context {W : Type} (bc : option (bpf_ctx W)) (pkt : list Z) (wirelen : Z).
Context (junk : nat → Z) (clobber : nat → callee → reg → value → value) (hints : Z).

Abbreviation buflen := (Z.of_nat (length pkt)).
Abbreviation run := (run_block bc pkt wirelen junk clobber).

Hypothesis pkt_ok : Forall byte pkt.
Hypothesis wirelen_ok : word wirelen.
Hypothesis bc_ok : cop_ok bc.
Hypothesis pkt_short : buflen ≤ UINT32_MAX.
Hypothesis ldx : hints_wf hints.
Hypothesis words_few : (GET_MEMWORDS bc ≤ 16)%nat.
Hypothesis funcs_few : ∀ fs, GET_FUNCS bc = Some fs → word (Z.of_nat (length fs)).

(** A call keeps X, or the code that the compiler puts around it does. *)
Hypothesis call_X : has_hint hints BJ_HINT_XREG = true →
  ∀ n f v, ((∃ j, f = Fcop j) ∧ has_hint hints BJ_HINT_LDX = true) ∨ clobber n f BJ_XREG v = v.

(** ** Agreement *)

(** [L]: the words that agree. *)
Record agree_mem (L : Z → Prop) (st : bstate (W := W)) (m : memory W) : Prop := {
  am_local : GET_EXTWORDS bc = 0%nat → length (l_mem m) = 16%nat ∧
    ∀ k v, (k < 16)%nat → L (Z.of_nat k) → rM st !! k = Some v → l_mem m !! k = Some v;
  am_ext : GET_EXTWORDS bc ≠ 0%nat → ext m = rM st ∧ l_extmem m = Vptr RExt 0;
  am_ctx : has_hint hints BJ_HINT_COP = true → l_ctx m = match bc with Some _ => Vptr RCtx 0 | None => Vint 0 end;
  am_world : world m = rW st;
}.

Record agree (L : Z → Prop) (st : bstate (W := W)) (s : machine W) : Prop := {
  ag_A : L A_bit → ∃ a, regs s BJ_AREG = Vint a ∧ u32 a = rA st;
  ag_int : has_hint hints BJ_HINT_XREG = true → ∃ x, regs s BJ_XREG = Vint x;
  ag_X : has_hint hints BJ_HINT_XREG = true → L X_bit → regs s BJ_XREG = Vint (rX st);
  ag_buf : regs s BJ_BUF = Vptr RPkt 0;
  ag_buflen : regs s BJ_BUFLEN = Vint buflen;
  ag_args : regs s BJ_ARGS = Vptr RArgs 0;
  ag_locals : regs s SLJIT_LOCALS_REG = Vptr RLocals 0;
  ag_mem : agree_mem L st (mem s);
}.

Lemma agree_weaken (L L' : Z → Prop) st s : agree L st s → (∀ b, L' b → L b) → agree L' st s.
Proof.
  intros [HA HI HX H1 H2 H3 H4 [ML ME MC MW]] H. split; auto. split; auto.
  intros E. destruct (ML E) as [Hl Hk]. split; [done|]. intros k v Hk' HL. by apply Hk; [|apply H].
Qed.

(** States that differ in some registers only. *)
Definition same_but (l : list reg) (s s' : machine W) : Prop := mem s' = mem s ∧ ∀ r, r ∉ l → regs s' r = regs s r.

Lemma same_but_refl l s : same_but l s s.
Proof. done. Qed.

Lemma same_but_trans l s1 s2 s3 : same_but l s1 s2 → same_but l s2 s3 → same_but l s1 s3.
Proof. intros [M1 R1] [M2 R2]. split; [congruence|]. intros r Hr. by rewrite R2, R1. Qed.

Lemma same_but_set l s s' r v : same_but l s s' → r ∈ l → same_but l s (set_reg s' r v).
Proof.
  intros [M R] Hr. split; [done|]. intros q Hq. cbn. unfold upd_reg. rewrite decide_False by (intros ->; done). by apply R.
Qed.

Lemma regs_set (s : machine W) r v : regs (set_reg s r v) r = v.
Proof. cbn. unfold upd_reg. by rewrite decide_True. Qed.

Lemma regs_set_ne (s : machine W) r r' v : r' ≠ r → regs (set_reg s r v) r' = regs s r'.
Proof. intros H. cbn. unfold upd_reg. by rewrite decide_False. Qed.

Definition temps : list reg := [BJ_TMP1REG; BJ_TMP2REG; BJ_TMP3REG].

Ltac not_reg := rewrite ?not_elem_of_cons; split_and!; first [discriminate|apply not_elem_of_nil].

Lemma agree_same L st s s' : agree L st s → same_but temps s s' → agree L st s'.
Proof.
  intros [HA HI HX H1 H2 H3 H4 HM] [M R]. unfold temps in R.
  split; rewrite ?M; try (rewrite R by not_reg); auto.
Qed.

Lemma agree_update_A L st s s' a v :
  agree L st s → same_but (BJ_AREG :: temps) s s' → regs s' BJ_AREG = Vint a → u32 a = v →
  agree (λ b, b = A_bit ∨ L b) (set_A st v) s'.
Proof.
  intros [HA HI HX H1 H2 H3 H4 [ML ME MC MW]] [M R] Ha Hv. unfold temps in R.
  split; rewrite ?M; try (rewrite R by not_reg); auto.
  - intros _. by exists a.
  - intros Hx [?|HL]; [done|auto].
  - split; auto. intros E. destruct (ML E) as [Hl Hk]. split; [done|]. intros k w Hk' [Eb|HL]; [|by apply Hk].
    unfold A_bit in Eb. lia.
Qed.

Lemma agree_update_X L st s s' v :
  agree L st s → same_but (BJ_XREG :: temps) s s' → regs s' BJ_XREG = Vint v →
  agree (λ b, b = X_bit ∨ L b) (set_X st v) s'.
Proof.
  intros [HA HI HX H1 H2 H3 H4 [ML ME MC MW]] [M R] Hv. unfold temps in R.
  split; rewrite ?M; try (rewrite R by not_reg); auto.
  - intros [?|HL]; [done|auto].
  - intros _. by exists v.
  - split; auto. intros E. destruct (ML E) as [Hl Hk]. split; [done|]. intros k w Hk' [Eb|HL]; [|by apply Hk].
    unfold X_bit in Eb. lia.
Qed.

(** ** Single instructions *)

Lemma run_op1 op dst src d blk s s1 e :
  exec_op1 bc pkt wirelen s op dst src = Some s1 → run blk s1 = Some e → run ((Op1 op dst src, d) :: blk) s = Some e.
Proof. intros E He. cbn [run_block]. by rewrite E. Qed.

Lemma run_op2 op int dst x y d blk s s1 e :
  exec_op2 bc pkt wirelen junk s op int dst x y = Some s1 → run blk s1 = Some e → run ((Op2 op int dst x y, d) :: blk) s = Some e.
Proof. intros E He. cbn [run_block]. by rewrite E. Qed.

Lemma run_cmp t int src1 src2 d blk s x y e :
  source_int bc pkt wirelen s int src1 = Some x → source_int bc pkt wirelen s int src2 = Some y →
  (if compare t x y then Some (Exit d s) else run blk s) = Some e → run ((Cmp t int src1 src2, Some d) :: blk) s = Some e.
Proof. intros E1 E2 He. cbn [run_block]. rewrite E1, E2. cbn. exact He. Qed.

Lemma move_reg s op r src v :
  move_source bc pkt wirelen s op src = Some v → exec_op1 bc pkt wirelen s op (Reg r) src = Some (set_reg s r v).
Proof. intros E. unfold exec_op1. by rewrite E. Qed.

Lemma op2_int s op (int : bool) r src1 src2 x y z :
  source bc pkt wirelen s src1 = Some (Vint x) → source bc pkt wirelen s src2 = Some (Vint y) →
  op2_eval op (is_imm src2) (if int then 32 else 64) (if int then u32 x else x) (if int then u32 y else y) = Some z →
  exec_op2 bc pkt wirelen junk s op int (Reg r) src1 src2 = Some (set_reg s r (widen junk s int z)).
Proof. intros E1 E2 E. unfold exec_op2. rewrite E1, E2. cbn. by rewrite E. Qed.

Lemma source_reg s r v : regs s r = v → source bc pkt wirelen s (Reg r) = Some v.
Proof. by intros <-. Qed.

Lemma source_int_reg s (int : bool) r z : regs s r = Vint z → source_int bc pkt wirelen s int (Reg r) = Some (if int then u32 z else z).
Proof. intros H. unfold source_int. cbn [source]. by rewrite H. Qed.

Lemma source_int_imm s int z : word z → source_int bc pkt wirelen s int (Imm z) = Some z.
Proof. intros H. unfold source_int. cbn. rewrite u64_word by done. destruct int; [|done]. by rewrite u32_word. Qed.

(** ** Reads of the packet *)

Lemma read_byte s r src off k b :
  regs s src = Vptr RPkt off → 0 ≤ off + k → pkt !! Z.to_nat (off + k) = Some b →
  exec_op1 bc pkt wirelen s SLJIT_MOV_UB (Reg r) (Mem1 src k) = Some (set_reg s r (Vint b)).
Proof.
  intros Hs H0 Hb. apply move_reg. unfold move_source. cbn [is_mem place]. rewrite Hs. cbn [mbind option_bind fst snd load8].
  by destruct (Z.ltb_spec (off + k) 0) as [|_]; [lia|]; rewrite Hb.
Qed.

Lemma next_byte_run s src off k b v :
  regs s src = Vptr RPkt off → src ∉ [BJ_AREG; BJ_TMP1REG] → 0 ≤ off + k → pkt !! Z.to_nat (off + k) = Some b →
  regs s BJ_AREG = Vint v → 0 ≤ v < 2 ^ 24 → byte b →
  ∃ s', run (plain (next_byte src k)) s = Some (Fall s') ∧ same_but [BJ_AREG; BJ_TMP1REG] s s' ∧ regs s' BJ_AREG = Vint (256 * v + b).
Proof.
  intros Hs Hne H0 Hb HA Hv Hbyte. unfold byte in Hbyte. eexists. split.
  - eapply run_op1; [by eapply read_byte|]. eapply run_op2; [by eapply op2_int; [apply source_reg; rewrite regs_set_ne|..]|].
    eapply run_op2; [|done]. eapply op2_int; [apply source_reg, regs_set| |done].
    apply source_reg. by rewrite regs_set_ne, regs_set.
  - split; [repeat apply same_but_set; try apply same_but_refl; set_solver|].
    rewrite regs_set. unfold widen. cbn [is_imm]. change (u64 8 mod 64) with 8. rewrite Z.shiftl_mul_pow2 by lia.
    rewrite (Z.mod_small (v * 2 ^ 8)) by lia. rewrite Z.mod_small by lia. f_equal. lia.
Qed.

(** The bytes at a place. *)
Lemma take_drop_S (l : list Z) o n b : l !! (o + n)%nat = Some b → take (S n) (drop o l) = take n (drop o l) ++ [b].
Proof. intros H. apply take_S_r. by rewrite lookup_drop. Qed.

Lemma pkt_byte o : (o < length pkt)%nat → ∃ b, pkt !! o = Some b ∧ byte b.
Proof.
  intros Ho. destruct (lookup_lt_is_Some_2 pkt o Ho) as [b Hb]. exists b. split; [done|]. by apply (Forall_lookup_1 _ _ _ _ pkt_ok Hb).
Qed.

(** One more byte of a number that is in A. *)
Lemma read_more s src off k j :
  regs s src = Vptr RPkt off → src ∉ [BJ_AREG; BJ_TMP1REG] → 0 ≤ off + k → (j < 4)%nat → off + k + Z.of_nat j < buflen →
  let o := Z.to_nat (off + k) in
  regs s BJ_AREG = Vint (be_val (take j (drop o pkt))) →
  ∃ s', run (plain (next_byte src (k + Z.of_nat j))) s = Some (Fall s') ∧ same_but [BJ_AREG; BJ_TMP1REG] s s' ∧
    regs s' BJ_AREG = Vint (be_val (take (S j) (drop o pkt))).
Proof.
  intros Hs Hne H0 Hj Hlt o HA. destruct (pkt_byte (o + j)) as (b & Hb & Hbyte); [lia|].
  destruct (next_byte_run s src off (k + Z.of_nat j) b (be_val (take j (drop o pkt)))) as (s' & R & S & A'); try done.
  - lia.
  - by replace (Z.to_nat (off + (k + Z.of_nat j))) with (o + j)%nat by lia.
  - pose proof (be_val_range (take j (drop o pkt))) as [B0 B1]; [by apply Forall_take, Forall_drop|]. split; [done|].
    eapply Z.lt_le_trans; [exact B1|]. change (2 ^ 24) with (256 ^ 3). apply Z.pow_le_mono_r; [lia|]. rewrite length_take. lia.
  - exists s'. split; [done|]. split; [done|]. by rewrite A', (take_drop_S _ _ _ _ Hb), be_val_app.
Qed.

Lemma run_app b1 b2 s s1 e : run b1 s = Some (Fall s1) → run b2 s1 = Some e → run (b1 ++ b2) s = Some e.
Proof. intros E1 E2. by rewrite run_block_app, E1. Qed.

(** A whole read. *)
Lemma read_run s src off k w :
  regs s src = Vptr RPkt off → src ∉ [BJ_AREG; BJ_TMP1REG] → 0 ≤ off + k → off + k + Z.of_nat (bytes_of w) ≤ buflen →
  ∃ s' v, run (plain (read_block src k w)) s = Some (Fall s') ∧ same_but [BJ_AREG; BJ_TMP1REG] s s' ∧
    regs s' BJ_AREG = Vint v ∧ pkt_read pkt (off + k) (bytes_of w) = Some v.
Proof.
  intros Hs Hne H0 Hlen. set (o := Z.to_nat (off + k)).
  assert (∀ s1, same_but [BJ_AREG; BJ_TMP1REG] s s1 → regs s1 src = Vptr RPkt off) as Hsrc by (intros s1 [_ R]; by rewrite R).
  assert (pkt_read pkt (off + k) (bytes_of w) = Some (be_val (take (bytes_of w) (drop o pkt)))) as Hr.
  { unfold pkt_read. by destruct (Z.ltb_spec buflen (off + k + Z.of_nat (bytes_of w))); [lia|]. }
  destruct (pkt_byte o) as (b & Hb & Hbyte); [destruct w; cbn in Hlen; lia|].
  set (s1 := set_reg s BJ_AREG (Vint b)).
  assert (regs s1 BJ_AREG = Vint (be_val (take 1 (drop o pkt)))) as A1.
  { unfold s1. rewrite regs_set, (take_drop_S pkt o 0 b) by (by rewrite Nat.add_0_r). reflexivity. }
  assert (same_but [BJ_AREG; BJ_TMP1REG] s s1) as S1 by (apply same_but_set; [apply same_but_refl|set_solver]).
  assert (∀ l e, run (plain l) s1 = Some e → run (plain (Op1 SLJIT_MOV_UB (Reg BJ_AREG) (Mem1 src k) :: l)) s = Some e) as Hfirst.
  { intros l e He. eapply run_op1; [by eapply read_byte|exact He]. }
  assert (∀ j s2, (j < bytes_of w)%nat → same_but [BJ_AREG; BJ_TMP1REG] s s2 → regs s2 BJ_AREG = Vint (be_val (take j (drop o pkt))) →
    ∃ s3, run (plain (next_byte src (k + Z.of_nat j))) s2 = Some (Fall s3) ∧ same_but [BJ_AREG; BJ_TMP1REG] s s3 ∧
      regs s3 BJ_AREG = Vint (be_val (take (S j) (drop o pkt)))) as Hmore.
  { intros j s2 Hj S2 A2. destruct (read_more s2 src off k j) as (s3 & R3 & S3 & A3); try done; [by apply Hsrc|destruct w; cbn in Hj; lia|lia|].
    exists s3. split; [done|]. split; [by eapply same_but_trans|done]. }
  destruct w; cbn [bytes_of read_block] in *.
  - destruct (Hmore 1%nat s1) as (s2 & R2 & S2 & A2); [lia|done|done|].
    destruct (Hmore 2%nat s2) as (s3 & R3 & S3 & A3); [lia|done|done|].
    destruct (Hmore 3%nat s3) as (s4 & R4 & S4 & A4); [lia|done|done|].
    eexists s4, _. split; [|split; [done|split; [exact A4|exact Hr]]]. apply Hfirst. rewrite !plain_app.
    eapply run_app; [exact R2|]. by eapply run_app; [exact R3|].
  - destruct (Hmore 1%nat s1) as (s2 & R2 & S2 & A2); [lia|done|done|].
    eexists s2, _. split; [|split; [done|split; [exact A2|exact Hr]]]. by apply Hfirst.
  - eexists s1, _. split; [|split; [done|split; [exact A1|exact Hr]]]. by apply Hfirst.
Qed.

(** ** Arithmetic *)

(** The operand of an instruction. *)
Lemma source_kx L st s (x : bool) k :
  agree L st s → state_ok (GET_MEMWORDS bc) st → word k → (x = true → has_hint hints BJ_HINT_XREG = true ∧ L X_bit) →
  source bc pkt wirelen s (kx x k) = Some (Vint (if x then rX st else k)).
Proof.
  intros Ag St Hk Hx. destruct x; cbn [kx source].
  - destruct (Hx eq_refl) as [Hh HL]. by rewrite (ag_X _ _ _ Ag Hh HL).
  - by rewrite u64_word.
Qed.

(** What an operation makes of the register A. *)
Lemma alu_op_eval al imm a y :
  (match al with Div | Mod => False | Lsh | Rsh => y ≤ 31 | _ => True end) → word y →
  let int := snd (alu_op al) in
  ∃ z, op2_eval (fst (alu_op al)) imm (if int then 32 else 64) (if int then u32 a else a) (if int then u32 y else y) = Some z ∧
    ∀ s : machine W, ∃ a', widen junk s int z = Vint a' ∧ u32 a' = alu_eval al (u32 a) y.
Proof.
  intros Hy Hw. cbv zeta. pose proof Hw as [Hy0 Hy1].
  assert (∀ n, 32 ≤ n → y ≤ 31 → (if imm then y mod n else y) = y) as Himm.
  { intros n Hn H. destruct imm; [|done]. apply Z.mod_small. lia. }
  destruct al; try done; cbn [alu_op fst snd op2_eval alu_eval]; rewrite ?(u32_word y Hw).
  - eexists. split; [done|]. intros s. eexists. split; [done|]. by rewrite u32_mod64, u32_add_l.
  - eexists. split; [done|]. intros s. eexists. split; [done|]. by rewrite u32_mod64, u32_sub_l.
  - eexists. split; [done|]. intros s. eexists. split; [done|]. rewrite u32_widened by apply word_u32. done.
  - eexists. split; [done|]. intros s. eexists. split; [done|]. apply (u32_bitop Z.lor orb); try done. intros; apply Z.lor_spec.
  - eexists. split; [done|]. intros s. eexists. split; [done|]. apply (u32_bitop Z.land andb); try done. intros; apply Z.land_spec.
  - rewrite Himm by lia. destruct (Z.leb_spec 64 y); [lia|]. eexists. split; [done|]. intros s. eexists. split; [done|].
    by rewrite u32_mod64, u32_shiftl.
  - rewrite Himm by lia. destruct (Z.leb_spec 32 y); [lia|]. eexists. split; [done|]. intros s. eexists. split; [done|].
    rewrite u32_widened; [done|]. apply (alu_eval_word Rsh); [apply word_u32|done|done].
  - eexists. split; [done|]. intros s. eexists. split; [done|]. apply (u32_bitop Z.lxor xorb); try done. intros; apply Z.lxor_spec.
Qed.

(** ** How a block ends *)

(** What the world sees of a state. *)
Definition effects (st : bstate (W := W)) (s : machine W) : Prop :=
  (GET_EXTWORDS bc ≠ 0%nat → ext (mem s) = rM st) ∧ world (mem s) = rW st.

Lemma agree_effects L st s : agree L st s → effects st s.
Proof. intros Ag. destruct (ag_mem _ _ _ Ag) as [_ ME _ MW]. split; [intros H; by apply ME|done]. Qed.

Definition branch_offset (pc : bpf_insn) (b : bool) : Z := if b then snd (jump_offsets pc) else fst (jump_offsets pc).

Definition sim_end (L : Z → Prop) (o : bpf_op) (pc : bpf_insn) (out : outcome (W := W)) (e : block_end) : Prop :=
  match out with
  | Next st' => ∃ s', e = Fall s' ∧ agree (λ b, b ∈ defs bc o pc ∨ L b) st' s'
  | Skip d st' => ∃ b s', d = branch_offset pc b ∧ (e = Exit (Dbranch b) s' ∨ e = Fall s' ∧ d = 0) ∧ agree L st' s'
  | Ret v st' => (∃ s', e = Exit Dret0 s' ∧ v = 0 ∧ effects st' s') ∨ e = Stop (result_of bc v st')
  end.

(** The block of an instruction does what the instruction does. *)
Definition simulates (L : Z → Prop) (o : bpf_op) (pc : bpf_insn) (st : bstate) (s : machine W) (blk : list item) : Prop :=
  ∀ out, ref_insn bc pkt wirelen pc o st = Some out → ∃ e, run blk s = Some e ∧ sim_end L o pc out e.

Lemma same_but_mono l l' s s' : same_but l s s' → l ⊆ l' → same_but l' s s'.
Proof. intros [M R] H. split; [done|]. intros r Hr. apply R. set_solver. Qed.

(** Instructions that set A or X. *)
Lemma ends_A L o pc st s s' a v blk :
  agree L st s → run blk s = Some (Fall s') → same_but (BJ_AREG :: temps) s s' → regs s' BJ_AREG = Vint a → u32 a = v →
  defs bc o pc = [A_bit] → ∃ e, run blk s = Some e ∧ sim_end L o pc (Next (set_A st v)) e.
Proof.
  intros Ag R S Ha Hv Hd. exists (Fall s'). split; [done|]. exists s'. split; [done|]. rewrite Hd.
  eapply agree_weaken; [by eapply agree_update_A|]. intros b. rewrite list_elem_of_singleton. tauto.
Qed.

Lemma ends_X L o pc st s s' v blk :
  agree L st s → run blk s = Some (Fall s') → same_but (BJ_XREG :: temps) s s' → regs s' BJ_XREG = Vint v →
  defs bc o pc = [X_bit] → ∃ e, run blk s = Some e ∧ sim_end L o pc (Next (set_X st v)) e.
Proof.
  intros Ag R S Hv Hd. exists (Fall s'). split; [done|]. exists s'. split; [done|]. rewrite Hd.
  eapply agree_weaken; [by eapply agree_update_X|]. intros b. rewrite list_elem_of_singleton. tauto.
Qed.

Lemma run_move op r src d s v :
  move_source bc pkt wirelen s op src = Some v → run [(Op1 op (Reg r) src, d)] s = Some (Fall (set_reg s r v)).
Proof. intros H. by eapply run_op1; [apply move_reg|]. Qed.

Lemma same_but_1 l r s v : r ∈ l → same_but l s (set_reg s r v).
Proof. intros H. by apply same_but_set; [apply same_but_refl|]. Qed.

(** ** Words of memory *)

(** A store of a word that both machines do. *)
Lemma agree_store L st s k z m :
  agree L st s → length (rM st) = GET_MEMWORDS bc → (k < length (rM st))%nat →
  m = (if (GET_EXTWORDS bc =? 0)%nat
       then mk_memory (l_ctx (mem s)) (l_extmem (mem s)) (l_reg (mem s)) (<[k := z]> (l_mem (mem s))) (ext (mem s)) (world (mem s))
       else mk_memory (l_ctx (mem s)) (l_extmem (mem s)) (l_reg (mem s)) (l_mem (mem s)) (<[k := z]> (ext (mem s))) (world (mem s))) →
  agree (λ b, b = Z.of_nat k ∨ L b) (set_M st (<[k := z]> (rM st))) (set_mem s m).
Proof.
  intros [HA HI HX H1 H2 H3 H4 [ML ME MC MW]] Hlen Hk ->. split; cbn; auto.
  - intros [Eb|HL]; [unfold A_bit in Eb; lia|auto].
  - intros Hh [Eb|HL]; [unfold X_bit in Eb; lia|auto].
  - destruct (Nat.eqb_spec (GET_EXTWORDS bc) 0) as [E|E]; split; cbn; auto; try done.
    + intros _. destruct (ML E) as [Hl Hkk]. split; [by rewrite length_insert|]. intros j v Hj HL Hv.
      destruct (decide (j = k)) as [->|Hne].
      * rewrite list_lookup_insert_eq in Hv |- * by lia. done.
      * rewrite list_lookup_insert_ne in Hv |- * by done. apply Hkk; [done| |done]. destruct HL as [?|?]; [lia|done].
    + intros _. destruct (ME E) as [-> ?]. done.
Qed.

(** ** Calls *)

Definition after_call (s : machine W) (f : callee) (v : value) (m : memory W) : machine W :=
  mk_machine (upd_reg (λ q, if scratch q then clobber (clock s) f q (regs s q) else regs s q) SLJIT_RETURN_REG v) m (S (clock s)).

Lemma run_call n src d blk s f v m e :
  source bc pkt wirelen s src = Some (Vfun f) → call_function bc junk s f = Some (v, m) →
  run blk (after_call s f v m) = Some e → run ((Call n src, d) :: blk) s = Some e.
Proof. intros Hs Hc He. cbn [run_block]. unfold exec_call. rewrite Hs. cbn [mbind option_bind]. rewrite Hc. exact He. Qed.

Lemma agree_mem_eq L st st' m : agree_mem L st m → rM st' = rM st → rW st' = rW st → agree_mem L st' m.
Proof. intros [ML ME MC MW] EM EW. split; rewrite ?EM, ?EW; auto. Qed.

(** The registers after a call, when X is kept. *)
Lemma agree_call L st s s' a st' :
  agree L st s → (∀ r, scratch r = false → regs s' r = regs s r) →
  (has_hint hints BJ_HINT_XREG = true → (∃ x, regs s' BJ_XREG = Vint x) ∧ (L X_bit → regs s' BJ_XREG = Vint (rX st))) →
  regs s' BJ_AREG = Vint a → u32 a = rA st' → rX st' = rX st → agree_mem L st' (mem s') →
  agree (λ b, b = A_bit ∨ L b) st' s'.
Proof.
  intros [HA HI HX H1 H2 H3 H4 HM] R X Ha Hv Ex [ML ME MC MW]. split; try (rewrite R by done); auto.
  - intros _. by exists a.
  - intros Hh. by apply (X Hh).
  - intros Hh [?|HL]; [done|]. rewrite Ex. by apply (X Hh).
  - split; auto. intros E. destruct (ML E) as [Hl Hk]. split; [done|]. intros k w Hk' [Eb|HL]; [unfold A_bit in Eb; lia|by apply Hk].
Qed.

(** ** Loads of A and X *)

Section Insn.

Context (L : Z → Prop) (pc : bpf_insn) (st : bstate (W := W)) (s : machine W).
Hypothesis Ag : agree L st s.
Hypothesis Sok : state_ok (GET_MEMWORDS bc) st.
Hypothesis Pc : insn_ok pc.

Lemma k_word : word (i_k pc).
Proof. apply Pc. Qed.

Lemma sim_LdAbs w : i_k pc + Z.of_nat (bytes_of w) ≤ buflen → simulates L (LdAbs w) pc st s (op_block bc hints (LdAbs w) pc false).
Proof.
  intros Hlen out. pose proof k_word as [Hk0 _]. cbn [ref_insn op_block].
  destruct (Z.leb_spec (i_k pc) (UINT32_MAX - Z.of_nat (bytes_of w) + 1)); [|lia].
  destruct (read_run s BJ_BUF 0 (i_k pc) w) as (s' & v & R & S & HA & Hr); [apply Ag|set_solver|lia|lia|].
  rewrite Z.add_0_l in Hr. rewrite Hr. intros [= <-]. eapply ends_A; try done.
  - eapply same_but_mono; [done|]. unfold temps. set_solver.
  - apply u32_word. by eapply pkt_read_word.
Qed.

Lemma sim_LdInd w :
  has_hint hints BJ_HINT_XREG = true → L X_bit → i_k pc + Z.of_nat (bytes_of w) ≤ buflen →
  simulates L (LdInd w) pc st s (op_block bc hints (LdInd w) pc false).
Proof.
  intros Hh HL Hlen out. pose proof k_word as [Hk0 _]. pose proof (so_X _ _ Sok) as [HX0 HX1]. cbn [ref_insn op_block].
  destruct (Z.leb_spec (i_k pc) (UINT32_MAX - Z.of_nat (bytes_of w) + 1)); [|lia].
  pose proof (ag_X _ _ _ Ag Hh HL) as HX. set (n := Z.of_nat (bytes_of w)) in *.
  assert (0 ≤ n) by lia. assert (word (i_k pc + n)) as Hkn by (unfold word, UINT32_MAX in *; lia).
  set (s1 := set_reg s BJ_TMP1REG (Vint (buflen - (i_k pc + n)))). set (s2 := set_reg s1 BJ_TMP2REG (Vptr RPkt (rX st))).
  assert (∀ blk e, (if buflen - (i_k pc + n) <? rX st then Some (Exit Dret0 s2) else run blk s2) = Some e →
    run (ind_block (i_k pc) w ++ blk) s = Some e) as Hind.
  { intros blk e He. unfold ind_block. fold n. cbn [app]. rewrite (u32_word _ Hkn).
    eapply run_op2; [eapply op2_int; [apply source_reg, Ag|cbn; by rewrite u64_word|done]|].
    eapply run_op2.
    { unfold exec_op2. cbn [source mbind option_bind]. rewrite !regs_set_ne by done. rewrite (ag_buf _ _ _ Ag), HX. reflexivity. }
    unfold widen. cbn [is_imm]. rewrite Z.add_0_l, Z.mod_small by (unfold UINT32_MAX in *; lia).
    eapply run_cmp; [apply source_int_reg; by rewrite regs_set_ne, regs_set|apply source_int_reg; by rewrite !regs_set_ne|exact He]. }
  assert (same_but temps s s2) as S2 by (unfold s2, s1, temps; repeat apply same_but_set; try apply same_but_refl; set_solver).
  destruct (Z.ltb_spec (buflen - (i_k pc + n)) (rX st)) as [Hlt|Hge].
  - rewrite pkt_read_short by (fold n; lia). intros [= <-]. exists (Exit Dret0 s2). split; [by apply Hind|]. left. exists s2.
    split; [done|]. split; [done|]. eapply agree_effects, agree_same; done.
  - destruct (read_run s2 BJ_TMP2REG (rX st) (i_k pc) w) as (s' & v & R & S & HA & Hr);
      [unfold s2; by rewrite regs_set|set_solver|lia|lia|].
    rewrite Hr. intros [= <-]. eapply ends_A; [done|by apply Hind| |done|apply u32_word; by eapply pkt_read_word|done].
    eapply same_but_trans; (eapply same_but_mono; [done|unfold temps; set_solver]).
Qed.

Lemma run_set_A op src v a :
  move_source bc pkt wirelen s op src = Some (Vint a) → u32 a = v →
  ∀ o, defs bc o pc = [A_bit] → ∃ e, run (plain [Op1 op (Reg BJ_AREG) src]) s = Some e ∧ sim_end L o pc (Next (set_A st v)) e.
Proof.
  intros Hm Hv o Hd. eapply ends_A; [done|by apply run_move| |apply regs_set|done|done].
  apply same_but_1. left.
Qed.

Lemma run_set_X op src v :
  move_source bc pkt wirelen s op src = Some (Vint v) →
  ∀ o, defs bc o pc = [X_bit] → ∃ e, run (plain [Op1 op (Reg BJ_XREG) src]) s = Some e ∧ sim_end L o pc (Next (set_X st v)) e.
Proof.
  intros Hm o Hd. eapply ends_X; [done|by apply run_move| |apply regs_set|done]. apply same_but_1. left.
Qed.

Lemma wirelen_source : source bc pkt wirelen s (Mem1 BJ_ARGS args_wirelen) = Some (Vint wirelen).
Proof. cbn [source place]. by rewrite (ag_args _ _ _ Ag). Qed.

Lemma sim_LdLen : simulates L LdLen pc st s (op_block bc hints LdLen pc false).
Proof. intros out [= <-]. by apply (run_set_A _ _ wirelen wirelen); [apply wirelen_source|apply u32_word|]. Qed.

Lemma sim_LdxLen : simulates L LdxLen pc st s (op_block bc hints LdxLen pc false).
Proof. intros out [= <-]. by apply run_set_X; [apply wirelen_source|]. Qed.

Lemma sim_LdImm : simulates L LdImm pc st s (op_block bc hints LdImm pc false).
Proof.
  intros out [= <-]. pose proof k_word as Hk. apply (run_set_A _ _ _ (i_k pc)); [|by apply u32_word|done].
  cbn [move_source source]. by rewrite u64_word.
Qed.

Lemma sim_LdxImm : simulates L LdxImm pc st s (op_block bc hints LdxImm pc false).
Proof. intros out [= <-]. pose proof k_word as Hk. apply run_set_X; [|done]. cbn [move_source source]. by rewrite u64_word. Qed.

Lemma sim_LdxMsh : i_k pc + 1 ≤ buflen → simulates L LdxMsh pc st s (op_block bc hints LdxMsh pc false).
Proof.
  intros Hlen out. pose proof k_word as [Hk0 _]. cbn [ref_insn op_block].
  destruct (pkt_byte (Z.to_nat (i_k pc))) as (b & Hb & Hbyte); [lia|]. unfold byte in Hbyte.
  assert (pkt_read pkt (i_k pc) 1 = Some b) as Hr.
  { unfold pkt_read. destruct (Z.ltb_spec buflen (i_k pc + Z.of_nat 1)); [lia|].
    rewrite (take_drop_S pkt (Z.to_nat (i_k pc)) 0 b) by (by rewrite Nat.add_0_r). reflexivity. }
  rewrite Hr. intros [= <-]. eapply ends_X; [done| | | |done].
  - eapply run_op1; [eapply (read_byte _ _ _ 0); [apply Ag|lia|by rewrite Z.add_0_l]|].
    eapply run_op2; [eapply op2_int; [apply source_reg, regs_set|done|done]|].
    eapply run_op2; [|done]. eapply op2_int; [apply source_reg, regs_set|done|done].
  - repeat apply same_but_set; try apply same_but_refl; unfold temps; set_solver.
  - rewrite regs_set. unfold widen. change (u64 0xf) with 0xf. change (u64 2 mod 64) with 2. f_equal.
    cbn [is_imm]. change 0xf with (Z.ones 4). rewrite Z.land_ones, Z.shiftl_mul_pow2 by lia. pose proof (Z.mod_pos_bound b (2 ^ 4)).
    rewrite Z.mod_small by lia. lia.
Qed.

Lemma sim_Tax : L A_bit → simulates L Tax pc st s (op_block bc hints Tax pc false).
Proof.
  intros HL out [= <-]. destruct (ag_A _ _ _ Ag HL) as (a & Ha & Hv). apply run_set_X; [|done].
  cbn [move_source is_mem]. rewrite (source_int_reg s true _ _ Ha). cbn. by rewrite Hv.
Qed.

Lemma sim_Txa : has_hint hints BJ_HINT_XREG = true → L X_bit → simulates L Txa pc st s (op_block bc hints Txa pc false).
Proof.
  intros Hh HL out [= <-]. apply (run_set_A _ _ _ (rX st)); [|by apply u32_word, Sok|done].
  cbn [move_source source]. by rewrite (ag_X _ _ _ Ag Hh HL).
Qed.

Lemma sim_Neg : L A_bit → simulates L Neg pc st s (op_block bc hints Neg pc false).
Proof.
  intros HL out [= <-]. destruct (ag_A _ _ _ Ag HL) as (a & Ha & Hv). apply (run_set_A _ _ _ (u64 (- a))); [| |done].
  - cbn [move_source]. by rewrite (source_int_reg s false _ _ Ha).
  - unfold u64. by rewrite u32_mod64, <- u32_opp, Hv.
Qed.

(** The place of a word. *)
Lemma mem_place_run v :
  rM st !! Z.to_nat (i_k pc) = Some v →
  let k := Z.to_nat (i_k pc) in
  ∃ s1, run (plain (fst (mem_place bc (i_k pc)))) s = Some (Fall s1) ∧ same_but temps s s1 ∧
    (L (Z.of_nat k) → move_source bc pkt wirelen s1 SLJIT_MOV_UI (snd (mem_place bc (i_k pc))) = Some (Vint v)) ∧
    ∀ r a z, regs s1 r = Vint a → u32 a = z → ∃ m,
      exec_op1 bc pkt wirelen s1 SLJIT_MOV_UI (snd (mem_place bc (i_k pc))) (Reg r) = Some (set_mem s1 m) ∧
      agree (λ b, b = Z.of_nat k ∨ L b) (set_M st (<[k := z]> (rM st))) (set_mem s1 m).
Proof.
  intros Hv k. fold k in Hv. pose proof (lookup_lt_Some _ _ _ Hv) as Hlt. pose proof k_word as [Hk0 _].
  pose proof (so_len _ _ Sok) as Hlen. destruct (ag_mem _ _ _ Ag) as [ML ME _ _].
  assert (u64 (i_k pc * 4) = i_k pc * 4) as E4 by (unfold u64; apply Z.mod_small; lia).
  unfold mem_place. rewrite E4. pose proof Hlen as Hlen'. unfold GET_MEMWORDS in Hlen'.
  destruct (Nat.eqb_spec (GET_EXTWORDS bc) 0) as [E|E]; cbn [fst snd].
  - destruct (ML E) as [Hl Hk]. unfold BPF_MEMWORDS in Hlen'. exists s. split; [done|]. split; [apply same_but_refl|].
    assert (word_index stack_mem 4 (0 + (i_k pc * 4 + stack_mem)) (length (l_mem (mem s))) = Some k) as Hi.
    { rewrite Hl. replace (0 + (i_k pc * 4 + stack_mem)) with (stack_mem + i_k pc * 4) by lia. apply word_index_spec; lia. }
    assert ((0 + (i_k pc * 4 + stack_mem) =? stack_reg) = false) as Hr by (apply Z.eqb_neq; unfold stack_mem, stack_reg; lia).
    split.
    + intros HL. cbn [move_source is_mem place]. rewrite (ag_locals _ _ _ Ag). cbn [mbind option_bind fst snd load32].
      rewrite Hr, Hi. cbn [mbind option_bind]. by rewrite (Hk k v ltac:(lia) HL Hv).
    + intros r a z Ha Hz. eexists. split.
      * unfold exec_op1. cbn [move_source is_mem]. rewrite (source_int_reg s true _ _ Ha), Hz. cbn [mbind option_bind place].
        rewrite (ag_locals _ _ _ Ag). cbn [mbind option_bind int_of fst snd store32]. rewrite Hr, Hi. cbn [mbind option_bind]. reflexivity.
      * apply agree_store; [done|done|done|]. by rewrite E.
  - destruct (ME E) as [Hx Hp]. set (s1 := set_reg s BJ_TMP1REG (Vptr RExt 0)). exists s1.
    assert (same_but temps s s1) as S1 by (apply same_but_1; unfold temps; set_solver).
    assert (agree L st s1) as Ag1 by (by eapply agree_same).
    assert (regs s1 BJ_TMP1REG = Vptr RExt 0) as Ht by apply regs_set. assert (mem s1 = mem s) as Hm by done.
    split.
    { apply run_move. cbn [move_source source place]. rewrite (ag_locals _ _ _ Ag). cbn. by rewrite Hp. }
    split; [done|].
    assert (word_index 0 4 (0 + i_k pc * 4) (length (ext (mem s))) = Some k) as Hi by (rewrite Hx; apply word_index_spec; lia).
    split.
    + intros HL. cbn [move_source is_mem place]. unfold s1. rewrite regs_set. cbn [mbind option_bind fst snd load32 mem set_reg].
      rewrite Hi. cbn [mbind option_bind]. by rewrite Hx, Hv.
    + intros r a z Ha Hz. eexists. split.
      * unfold exec_op1. cbn [move_source is_mem]. rewrite (source_int_reg s1 true _ _ Ha), Hz. cbn [mbind option_bind place].
        rewrite Ht. cbn [mbind option_bind int_of fst snd store32]. rewrite Hm, Hi. cbn [mbind option_bind]. reflexivity.
      * apply agree_store; [done|done|done|]. rewrite Hm. by destruct (Nat.eqb_spec (GET_EXTWORDS bc) 0).
Qed.

Lemma k_mem_word v : rM st !! Z.to_nat (i_k pc) = Some v → mem_word bc pc = [i_k pc].
Proof.
  intros Hv. apply lookup_lt_Some in Hv. rewrite (so_len _ _ Sok) in Hv. pose proof k_word as [Hk0 _].
  unfold mem_word. by destruct (Z.ltb_spec (i_k pc) (Z.of_nat (GET_MEMWORDS bc))); [|lia].
Qed.

Lemma sim_load r (o : bpf_op) (f : Z → bstate) :
  (∀ v s', rM st !! Z.to_nat (i_k pc) = Some v → same_but (r :: temps) s s' → regs s' r = Vint v →
    agree (λ b, b ∈ defs bc o pc ∨ L b) (f v) s') →
  (∀ v, rM st !! Z.to_nat (i_k pc) = Some v → L (i_k pc)) → r ∉ temps →
  ∀ out, (v ← rM st !! Z.to_nat (i_k pc); Some (Next (f v))) = Some out →
    ∃ e, run (plain (load_block bc r (i_k pc))) s = Some e ∧ sim_end L o pc out e.
Proof.
  intros Hf HL Hr out. pose proof k_word as [Hk0 _]. destruct (rM st !! Z.to_nat (i_k pc)) as [v|] eqn:Hv; [|done]. intros [= <-].
  destruct (mem_place_run v Hv) as (s1 & R1 & S1 & Hload & _).
  exists (Fall (set_reg s1 r (Vint v))). split.
  - unfold load_block. rewrite plain_app. eapply run_app; [exact R1|]. apply run_move, Hload. rewrite Z2Nat.id by done. by eapply HL.
  - eexists. split; [done|]. apply Hf; [done| |apply regs_set]. apply same_but_set; [|left].
    eapply same_but_mono; [done|set_solver].
Qed.

Lemma sim_LdMem : (∀ b, b ∈ uses bc LdMem pc → L b) → simulates L LdMem pc st s (op_block bc hints LdMem pc false).
Proof.
  intros HU out. cbn [ref_insn op_block]. apply sim_load.
  - intros v s' Hv S' HA. eapply agree_weaken; [eapply agree_update_A; [done..|]|].
    + apply u32_word. eapply Forall_lookup_1; [apply Sok|done].
    + intros b. cbn [defs]. rewrite list_elem_of_singleton. tauto.
  - intros v Hv. apply HU. cbn [uses]. rewrite (k_mem_word v Hv). set_solver.
  - unfold temps. not_reg.
Qed.

Lemma sim_LdxMem : (∀ b, b ∈ uses bc LdxMem pc → L b) → simulates L LdxMem pc st s (op_block bc hints LdxMem pc false).
Proof.
  intros HU out. cbn [ref_insn op_block]. apply sim_load.
  - intros v s' Hv S' HX. eapply agree_weaken; [eapply agree_update_X; done|].
    intros b. cbn [defs]. rewrite list_elem_of_singleton. tauto.
  - intros v Hv. apply HU. cbn [uses]. rewrite (k_mem_word v Hv). set_solver.
  - unfold temps. not_reg.
Qed.

Lemma sim_store r o z a :
  defs bc o pc = mem_word bc pc → r ∉ temps → regs s r = Vint a → u32 a = z →
  ∀ out, (_ ← rM st !! Z.to_nat (i_k pc); Some (Next (set_M st (<[Z.to_nat (i_k pc) := z]> (rM st))))) = Some out →
    ∃ e, run (plain (store_block bc r (i_k pc))) s = Some e ∧ sim_end L o pc out e.
Proof.
  intros Hd Hr Ha Hz out. pose proof k_word as [Hk0 _]. destruct (rM st !! Z.to_nat (i_k pc)) as [v|] eqn:Hv; [|done]. intros [= <-].
  destruct (mem_place_run v Hv) as (s1 & R1 & S1 & _ & Hstore). destruct (Hstore r a z) as (m & Hm & Ag'); [|done|].
  { destruct S1 as [_ S1]. by rewrite S1. }
  exists (Fall (set_mem s1 m)). split.
  - unfold store_block. rewrite plain_app. eapply run_app; [exact R1|]. by eapply run_op1.
  - eexists. split; [done|]. rewrite Hd, (k_mem_word v Hv). eapply agree_weaken; [exact Ag'|].
    intros b. rewrite list_elem_of_singleton, Z2Nat.id by done. tauto.
Qed.

Lemma sim_St : L A_bit → simulates L St pc st s (op_block bc hints St pc false).
Proof.
  intros HL. destruct (ag_A _ _ _ Ag HL) as (a & Ha & Hv). intros out. eapply sim_store; try done. unfold temps. not_reg.
Qed.

Lemma sim_Stx : has_hint hints BJ_HINT_XREG = true → L X_bit → simulates L Stx pc st s (op_block bc hints Stx pc false).
Proof.
  intros Hh HL. pose proof (ag_X _ _ _ Ag Hh HL) as HX. intros out. eapply sim_store; try done; [unfold temps; not_reg|by apply u32_word, Sok].
Qed.

(** ** Arithmetic and branches *)

Lemma sim_alu al x :
  (match al with Div | Mod => False | _ => True end) → L A_bit → (x = true → has_hint hints BJ_HINT_XREG = true ∧ L X_bit) →
  simulates L (Alu al x) pc st s (op_block bc hints (Alu al x) pc false).
Proof.
  intros Hal HL HX out Hout. destruct (ag_A _ _ _ Ag HL) as (a & Ha & Hv). pose proof k_word as Hk.
  set (y := if x then rX st else i_k pc). assert (word y) as Hy by (unfold y; destruct x; [apply Sok|done]).
  assert ((match al with Div | Mod => False | Lsh | Rsh => y ≤ 31 | _ => True end) ∧ out = Next (set_A st (alu_eval al (rA st) y))) as [H31 ->].
  { cbn [ref_insn] in Hout. fold y in Hout. destruct al; try done; try (by injection Hout as <-);
      destruct (Z.ltb_spec 31 y); try done; by injection Hout as <-. }
  destruct (alu_op_eval al (is_imm (kx x (i_k pc))) a y H31 Hy) as (z & Hz & Hw). destruct (Hw s) as (a' & Ha' & Hv').
  assert (op_block bc hints (Alu al x) pc false
    = plain [Op2 (fst (alu_op al)) (snd (alu_op al)) (Reg BJ_AREG) (Reg BJ_AREG) (kx x (i_k pc))]) as -> by (by destruct al).
  eapply ends_A; [done| | | | |done].
  - eapply run_op2; [|done]. eapply op2_int; [apply source_reg, Ha|by eapply source_kx|exact Hz].
  - apply same_but_1. left.
  - by rewrite regs_set.
  - by rewrite Hv', Hv.
Qed.

(** The remainder or the quotient, for [m]. *)
Definition moddiv (m : bool) (x y : Z) : Z := if m then x mod y else x / y.

Lemma moddiv_call (m x : bool) (al : alu) :
  al = (if m then Mod else Div) → L A_bit → (x = true → has_hint hints BJ_HINT_XREG = true ∧ L X_bit) →
  let y := if x then rX st else i_k pc in y ≠ 0 →
  ∃ e, run (plain (call_block m x (i_k pc))) s = Some e ∧ sim_end L (Alu al x) pc (Next (set_A st (moddiv m (rA st) y))) e.
Proof.
  intros -> HL HX y Hy. destruct (ag_A _ _ _ Ag HL) as (a & Ha & Hv). pose proof k_word as Hk.
  assert (word y) as Hyw by (unfold y; destruct x; [apply Sok|done]).
  set (s1 := set_reg s SLJIT_SCRATCH_REG2 (Vint y)). set (f := if m then Fmodulus else Fdivide).
  assert (agree L st s1) as Ag1 by (eapply agree_same; [exact Ag|]; apply same_but_1; unfold temps; set_solver).
  set (v := Vint (moddiv m (rA st) y)).
  assert (call_function bc junk s1 f = Some (v, mem s1)) as Hc.
  { assert (regs s1 SLJIT_SCRATCH_REG1 = Vint a) as R1 by (unfold s1; rewrite regs_set_ne by done; exact Ha).
    assert (regs s1 SLJIT_SCRATCH_REG2 = Vint y) as R2 by apply regs_set.
    unfold f, v, moddiv. destruct m; cbn [call_function]; rewrite R1, R2; cbn [mbind option_bind int_of]; rewrite (u32_word y Hyw), Hv;
      by destruct (Z.eqb_spec y 0). }
  exists (Fall (after_call s1 f v (mem s1))). split.
  - eapply run_op1; [apply move_reg; by eapply source_kx|]. by eapply run_call; [done|exact Hc|].
  - eexists. split; [done|]. eapply agree_weaken.
    + eapply (agree_call L st s1); [done| | |done| |done|by eapply agree_mem_eq; [apply Ag1|..]].
      * intros r Hr. cbn. unfold upd_reg. rewrite decide_False by (intros ->; done). by rewrite Hr.
      * intros Hh. assert (regs (after_call s1 f v (mem s1)) BJ_XREG = regs s1 BJ_XREG) as ->.
        { change (clobber (clock s1) f BJ_XREG (regs s1 BJ_XREG) = regs s1 BJ_XREG).
          destruct (call_X Hh (clock s1) f (regs s1 BJ_XREG)) as [[[j Hj] _]|?]; [|done]. unfold f in Hj. by destruct m. }
        split; [by apply Ag1|by apply Ag1].
      * apply u32_word. cbn. pose proof (alu_eval_word (if m then Mod else Div) (rA st) y (so_A _ _ Sok) Hyw) as Hw. by destruct m; apply Hw.
    + intros b. replace (defs bc _ pc) with [A_bit] by (by destruct m). rewrite list_elem_of_singleton. tauto.
Qed.

Lemma sim_moddiv (m x : bool) (al : alu) :
  al = (if m then Mod else Div) → L A_bit → (x = true → has_hint hints BJ_HINT_XREG = true ∧ L X_bit) →
  simulates L (Alu al x) pc st s (op_block bc hints (Alu al x) pc false).
Proof.
  intros Hal HL HX out Hout. pose proof k_word as Hk. pose proof (moddiv_call m x al Hal HL HX) as Hcall. cbv zeta in Hcall.
  set (y := if x then rX st else i_k pc) in *.
  assert (out = if y =? 0 then Ret 0 st else Next (set_A st (moddiv m (rA st) y))) as ->.
  { subst al. cbn [ref_insn] in Hout. fold y in Hout. by destruct m; injection Hout as <-. }
  assert (op_block bc hints (Alu al x) pc false = moddiv_block m x (i_k pc)) as -> by (subst al; by destruct m).
  assert (sim_end L (Alu al x) pc (Ret 0 st) (Exit Dret0 s)) as Hret.
  { left. exists s. split; [done|]. split; [done|]. by eapply agree_effects. }
  unfold moddiv_block. destruct x.
  - destruct (HX eq_refl) as [Hh HLX]. pose proof (ag_X _ _ _ Ag Hh HLX) as RX.
    assert (∀ e, (if y =? 0 then Some (Exit Dret0 s) else run (plain (call_block m true (i_k pc))) s) = Some e →
      run ((Cmp SLJIT_C_EQUAL true (Reg BJ_XREG) (Imm 0), Some Dret0) :: plain (call_block m true (i_k pc))) s = Some e) as Hcmp.
    { intros e He. eapply run_cmp; [by apply source_int_reg|by apply source_int_imm|].
      cbn [compare]. rewrite u32_word by apply Sok. exact He. }
    destruct (Z.eqb_spec y 0) as [E|E]; [exists (Exit Dret0 s); split; [by apply Hcmp|done]|].
    destruct (Hcall E) as (e & He & Hs). exists e. split; [by apply Hcmp|done].
  - unfold y in *. destruct (Z.eqb_spec (i_k pc) 0) as [E|E]; [by exists (Exit Dret0 s)|].
    destruct (Z.eqb_spec (Z.land (i_k pc) (i_k pc - 1)) 0) as [E2|E2]; cbn [negb]; [|by apply Hcall].
    destruct (ag_A _ _ _ Ag HL) as (a & Ha & Hv). pose proof Hk as [Hk0 Hk1]. assert (0 < i_k pc) as Hkp by lia.
    pose proof (pow2_log2 _ Hkp E2) as Ep. pose proof (Z.log2_nonneg (i_k pc)) as Hl0.
    assert (Z.log2 (i_k pc) < 32) as Hl32 by (apply Z.log2_lt_pow2; lia).
    assert (defs bc (Alu al false) pc = [A_bit]) as Hd by done.
    unfold moddiv. destruct m.
    + eapply ends_A; [done| | | | |done].
      * eapply run_op2; [|done]. eapply op2_int; [apply source_reg, Ha|done|done].
      * apply same_but_1. left.
      * apply regs_set.
      * assert (word (i_k pc - 1)) as Hw1 by (unfold word; lia).
        rewrite (u64_word _ Hw1), (u32_bitop Z.land andb _ _ Z.land_spec eq_refl Hw1).
        rewrite Hv. rewrite Ep at 2. rewrite <- Z.land_ones by done. f_equal. rewrite Z.ones_equiv, <- Ep. lia.
    + rewrite log2_loop_spec by lia. rewrite Z.add_0_l. destruct (Z.eqb_spec (Z.log2 (i_k pc)) 0) as [E0|E0].
      * exists (Fall s). split; [done|]. exists s. split; [done|]. rewrite E0 in Ep. rewrite Ep, Z.div_1_r.
        replace (set_A st (rA st)) with st by (by destruct st). eapply agree_weaken; [exact Ag|]. rewrite Hd.
        intros b [->%list_elem_of_singleton|?]; done.
      * destruct (alu_op_eval Rsh true a (Z.log2 (i_k pc))) as (z & Hz & Hw); [lia|unfold word; lia|].
        destruct (Hw s) as (a' & Ha' & Hv'). eapply ends_A; [done| | | | |done].
        -- eapply run_op2; [|done]. eapply op2_int; [apply source_reg, Ha| |exact Hz]. cbn. rewrite u64_word; [done|unfold word; lia].
        -- apply same_but_1. left.
        -- by rewrite regs_set.
        -- rewrite Hv', Hv. cbn [alu_eval]. rewrite Z.shiftr_div_pow2 by done. by rewrite <- Ep.
Qed.

Lemma sim_Ja : decode (i_code pc) = Some Ja → simulates L Ja pc st s (op_block bc hints Ja pc false).
Proof.
  intros Ho%decode_Some out [= <-]. exists (Exit (Dbranch false) s). split; [done|]. exists false, s.
  split; [|split; [by left|done]]. unfold branch_offset, jump_offsets. by rewrite Ho.
Qed.

(** The comparison of a branch. *)
Lemma compare_cond t (negate : bool) x y :
  (match t with
   | Jset => compare (cond t negate) (Z.land x y) 0
   | _ => compare (cond t negate) x y
   end) = if negate then negb (test_eval t x y) else test_eval t x y.
Proof.
  destruct t, negate; cbn [cond compare test_eval]; try done; rewrite ?negb_involutive; try done.
  - by rewrite Z.leb_antisym.
  - by rewrite Z.ltb_antisym.
Qed.

Lemma run_test t x (negate : bool) blk :
  L A_bit → (x = true → has_hint hints BJ_HINT_XREG = true ∧ L X_bit) →
  ∃ s', same_but temps s s' ∧
    run (test_block t x (i_k pc) negate ++ blk) s =
    let c := test_eval t (rA st) (if x then rX st else i_k pc) in
    if (if negate then negb c else c) then Some (Exit (Dbranch negate) s') else run blk s'.
Proof.
  intros HL HX. destruct (ag_A _ _ _ Ag HL) as (a & Ha & Hv). pose proof k_word as Hk.
  set (y := if x then rX st else i_k pc). assert (word y) as Hy by (unfold y; destruct x; [apply Sok|done]).
  assert (∀ s1, source bc pkt wirelen s1 (kx x (i_k pc)) = Some (Vint y) → source_int bc pkt wirelen s1 true (kx x (i_k pc)) = Some y) as Hint.
  { intros s1 E. unfold source_int. rewrite E. cbn. by rewrite u32_word. }
  pose proof (source_kx L st s x (i_k pc) Ag Sok Hk HX) as Hkx. fold y in Hkx. cbv zeta. rewrite <- compare_cond.
  assert (t ≠ Jset → ∃ s', same_but temps s s' ∧ run ((Cmp (cond t negate) true (Reg BJ_AREG) (kx x (i_k pc)), Some (Dbranch negate)) :: blk) s
    = if compare (cond t negate) (rA st) y then Some (Exit (Dbranch negate) s') else run blk s') as Hplain.
  { intros _. exists s. split; [apply same_but_refl|]. cbn [run_block].
    rewrite (source_int_reg s true _ _ Ha), (Hint s Hkx), Hv. cbn [mbind option_bind]. done. }
  destruct t; try (by apply Hplain). set (s1 := set_reg s BJ_TMP1REG (Vint (Z.land a y))). exists s1.
  split; [apply same_but_1; unfold temps; set_solver|]. cbn [test_block app run_block].
  rewrite (op2_int s SLJIT_AND false BJ_TMP1REG _ _ a y (Z.land a y) (source_reg _ _ _ Ha) Hkx eq_refl). cbn [mbind option_bind].
  unfold widen. fold s1. rewrite (source_int_reg s1 true BJ_TMP1REG (Z.land a y)) by apply regs_set.
  rewrite source_int_imm by done. cbn [mbind option_bind].
  by rewrite (u32_bitop Z.land andb _ _ Z.land_spec eq_refl Hy), Hv.
Qed.

Lemma sim_Jcc t x :
  decode (i_code pc) = Some (Jcc t x) → L A_bit → (x = true → has_hint hints BJ_HINT_XREG = true ∧ L X_bit) →
  simulates L (Jcc t x) pc st s (op_block bc hints (Jcc t x) pc false).
Proof.
  intros Ho%decode_Some HL HX out [= <-]. set (c := test_eval t (rA st) (if x then rX st else i_k pc)).
  assert (∀ b, branch_offset pc b = if b then i_jf pc else i_jt pc) as Hoff.
  { intros b. unfold branch_offset, jump_offsets. rewrite Ho. by destruct t, x, b. }
  cbn [op_block]. unfold jump_block. destruct (Z.eqb_spec (i_jt pc) (i_jf pc)) as [E|E].
  { exists (Exit (Dbranch false) s). split; [done|]. exists false, s. rewrite Hoff. split; [by destruct c|]. split; [by left|done]. }
  destruct (run_test t x (i_jt pc =? 0) (if negb (i_jt pc =? 0) && negb (i_jf pc =? 0) then [(Jump, Some (Dbranch true))] else []) HL HX)
    as (s' & S' & R'). cbv zeta in R'. fold c in R'. rewrite R'. assert (agree L st s') as Ag' by (by eapply agree_same).
  assert (∀ e b, (e = Exit (Dbranch b) s' ∨ e = Fall s' ∧ branch_offset pc b = 0) → (if c then i_jt pc else i_jf pc) = branch_offset pc b →
    ∃ e', Some e = Some e' ∧ sim_end L (Jcc t x) pc (Skip (if c then i_jt pc else i_jf pc) st) e') as Hend.
  { intros e b He Hb. exists e. split; [done|]. exists b, s'. rewrite Hb. done. }
  destruct (Z.eqb_spec (i_jt pc) 0) as [E0|E0]; cbn [negb andb].
  - destruct c; cbn [negb].
    + apply (Hend (Fall s') false); [right; by rewrite Hoff|by rewrite Hoff].
    + apply (Hend _ true); [by left|by rewrite Hoff].
  - destruct c.
    + apply (Hend _ false); [by left|by rewrite Hoff].
    + destruct (Z.eqb_spec (i_jf pc) 0) as [E1|E1]; cbn [negb run_block].
      * apply (Hend (Fall s') true); [right; by rewrite Hoff|by rewrite Hoff].
      * apply (Hend (Exit (Dbranch true) s') true); [by left|by rewrite Hoff].
Qed.

Lemma run_return src z : source_int bc pkt wirelen s true src = Some z → run (plain [Return src]) s = Some (Stop (result_of bc z st)).
Proof.
  intros Hs. cbn [plain fmap list_fmap run_block]. rewrite Hs. cbn [mbind option_bind]. unfold result_of.
  destruct (agree_effects _ _ _ Ag) as [He Hw]. rewrite Hw. destruct (Nat.eqb_spec (GET_EXTWORDS bc) 0); [done|]. by rewrite He.
Qed.

Lemma sim_RetK : simulates L RetK pc st s (op_block bc hints RetK pc false).
Proof. intros out [= <-]. eexists. split; [|by right]. by apply run_return, source_int_imm, k_word. Qed.

Lemma sim_RetA : L A_bit → simulates L RetA pc st s (op_block bc hints RetA pc false).
Proof.
  intros HL out [= <-]. destruct (ag_A _ _ _ Ag HL) as (a & Ha & Hv). eexists. split; [|by right].
  apply run_return. rewrite (source_int_reg s true _ _ Ha). by rewrite Hv.
Qed.

(** ** The coprocessor *)

Lemma run_save :
  ∃ s1, run (plain (save_block hints)) s = Some (Fall s1) ∧ agree L st s1 ∧ regs s1 = regs s ∧
    (has_hint hints BJ_HINT_LDX = true → ∃ x, regs s BJ_XREG = Vint x ∧ l_reg (mem s1) = u32 x).
Proof.
  unfold save_block. destruct (has_hint hints BJ_HINT_LDX) eqn:Hl; [|by exists s].
  destruct (ag_int _ _ _ Ag (ldx Hl)) as [x Hx]. eexists. split.
  - eapply run_op1; [|done]. unfold exec_op1. cbn [move_source is_mem]. rewrite (source_int_reg s true _ _ Hx). cbn [mbind option_bind place].
    rewrite (ag_locals _ _ _ Ag). cbn. reflexivity.
  - split; [|split; [done|intros _; by exists x]]. destruct Ag as [HA HI HX H1 H2 H3 H4 [ML ME MC MW]]. split; auto. split; auto.
Qed.

Lemma run_restore s1 :
  regs s1 SLJIT_LOCALS_REG = Vptr RLocals 0 →
  ∃ s2, run (plain (restore_block hints)) s1 = Some (Fall s2) ∧ mem s2 = mem s1 ∧ (∀ r, r ≠ BJ_XREG → regs s2 r = regs s1 r) ∧
    regs s2 BJ_XREG = if has_hint hints BJ_HINT_LDX then Vint (l_reg (mem s1)) else regs s1 BJ_XREG.
Proof.
  intros Hloc. unfold restore_block. destruct (has_hint hints BJ_HINT_LDX) eqn:Hl; [|by exists s1]. eexists. split.
  - apply run_move. cbn [move_source is_mem place]. rewrite Hloc. cbn. reflexivity.
  - split; [done|]. split; [intros r Hr; by apply regs_set_ne|apply regs_set].
Qed.

(** The arguments of a call of the coprocessor. *)
Definition with_args (s2 : machine W) : machine W :=
  set_reg (set_reg (set_reg s2 SLJIT_SCRATCH_REG3 (Vint (rA st))) SLJIT_SCRATCH_REG1 (Vptr RCtx 0)) SLJIT_SCRATCH_REG2 (Vptr RArgs 0).

Lemma with_args_same s2 : same_but [BJ_AREG; BJ_TMP1REG; BJ_TMP2REG] s2 (with_args s2).
Proof. unfold with_args. repeat apply same_but_set; try apply same_but_refl; set_solver. Qed.

(** The memory behind a call that leaves [e] and [w]. *)
Definition called_memory (m : memory W) (e : list Z) (w : W) : memory W :=
  mk_memory (l_ctx m) (l_extmem m) (l_reg m) (l_mem m) (if (GET_EXTWORDS bc =? 0)%nat then ext m else e) w.

Lemma cop_call_function s2 j f fs v e w :
  GET_FUNCS bc = Some fs → fs !! j = Some f → agree L st s2 →
  f (rA st) (if (GET_EXTWORDS bc =? 0)%nat then [] else rM st) (rW st) = (v, e, w) →
  call_function bc junk (with_args s2) (Fcop j) = Some (widen junk (with_args s2) true v, called_memory (mem s2) e w).
Proof.
  intros Hfs Hf Ag2 Ef. pose proof (ag_mem _ _ _ Ag2) as [_ ME _ MW]. set (s5 := with_args s2).
  assert (regs s5 SLJIT_SCRATCH_REG1 = Vptr RCtx 0) as R1 by (unfold s5, with_args; rewrite regs_set_ne, regs_set by done; done).
  assert (regs s5 SLJIT_SCRATCH_REG2 = Vptr RArgs 0) as R2 by apply regs_set.
  assert (regs s5 SLJIT_SCRATCH_REG3 = Vint (rA st)) as R3 by (unfold s5, with_args; rewrite !regs_set_ne, regs_set by done; done).
  cbn [call_function]. rewrite R1, R2, R3, Hfs. cbn [mbind option_bind]. rewrite Hf. cbn [mbind option_bind].
  change (mem s5) with (mem s2). rewrite (u32_word (rA st)) by apply Sok.
  replace (if (GET_EXTWORDS bc =? 0)%nat then [] else ext (mem s2)) with (if (GET_EXTWORDS bc =? 0)%nat then [] else rM st).
  - rewrite MW, Ef. reflexivity.
  - destruct (Nat.eqb_spec (GET_EXTWORDS bc) 0) as [|Hne]; [done|]. by destruct (ME Hne) as [-> _].
Qed.

Lemma run_args s2 (tgt : operand) j v m' :
  L A_bit → has_hint hints BJ_HINT_COP = true → is_Some (GET_FUNCS bc) → agree L st s2 →
  source bc pkt wirelen (with_args s2) tgt = Some (Vfun (Fcop j)) →
  call_function bc junk (with_args s2) (Fcop j) = Some (v, m') →
  run (plain (args_block tgt)) s2 = Some (Fall (after_call (with_args s2) (Fcop j) v m')).
Proof.
  intros HL Hh [fs Hfs] Ag2 Htgt Hc. destruct (ag_A _ _ _ Ag2 HL) as (a & Ha & Hv).
  assert (l_ctx (mem s2) = Vptr RCtx 0) as Hctx.
  { rewrite (am_ctx _ _ _ (ag_mem _ _ _ Ag2) Hh). by destruct bc. }
  unfold with_args in *. eapply run_op1.
  { apply move_reg. cbn [move_source is_mem]. rewrite (source_int_reg s2 true _ _ Ha), Hv. reflexivity. }
  eapply run_op1.
  { apply move_reg. cbn [move_source source place]. rewrite regs_set_ne, (ag_locals _ _ _ Ag2) by done. cbn. by rewrite Hctx. }
  eapply run_op1.
  { apply move_reg. cbn [move_source source]. by rewrite !regs_set_ne, (ag_args _ _ _ Ag2) by done. }
  by eapply run_call.
Qed.

(** The call itself, in a state [s2] with the same registers but the temporary ones. *)
Lemma cop_call s2 (tgt : operand) j f fs :
  L A_bit → has_hint hints BJ_HINT_COP = true → GET_FUNCS bc = Some fs → fs !! j = Some f → agree L st s2 →
  (∀ s3, same_but [BJ_AREG; BJ_TMP1REG; BJ_TMP2REG] s2 s3 → source bc pkt wirelen s3 tgt = Some (Vfun (Fcop j))) →
  (has_hint hints BJ_HINT_LDX = true → ∃ x, regs s2 BJ_XREG = Vint x ∧ l_reg (mem s2) = u32 x) →
  ∃ s', run (plain (args_block tgt) ++ plain (restore_block hints)) s2 = Some (Fall s') ∧
    match f (rA st) (if (GET_EXTWORDS bc =? 0)%nat then [] else rM st) (rW st) with
    | (v, m, w) => agree (λ b, b = A_bit ∨ L b) (mk_bstate v (rX st) (if (GET_EXTWORDS bc =? 0)%nat then rM st else m) w) s'
    end.
Proof.
  intros HL Hh Hfs Hf Ag2 Htgt Hx. pose proof (ag_mem _ _ _ Ag2) as [ML ME MC MW].
  set (E := if (GET_EXTWORDS bc =? 0)%nat then [] else rM st). destruct (f (rA st) E (rW st)) as [[v e] w] eqn:Ef.
  assert (word v) as Hvw.
  { pose proof (bc_ok fs j f (rA st) E (rW st) Hfs Hf (so_A _ _ Sok)) as H. rewrite Ef in H.
    destruct H as [H _]; [unfold E; destruct (_ =? _)%nat; [done|apply Sok]|done]. }
  pose proof (cop_call_function s2 j f fs v e w Hfs Hf Ag2 Ef) as Hc.
  set (s5 := with_args s2) in *. set (m2 := mem s2) in *. set (m' := called_memory m2 e w) in *.
  set (s6 := after_call s5 (Fcop j) (widen junk s5 true v) m').
  destruct (run_restore s6) as (s7 & R7 & M7 & Q7 & X7).
  { change (regs s6 SLJIT_LOCALS_REG) with (regs s2 SLJIT_LOCALS_REG). apply Ag2. }
  exists s7. split.
  - eapply run_app; [|exact R7]. apply run_args; try done. apply Htgt, with_args_same.
  - destruct (widen junk s5 true v) as [a'| |] eqn:Ew; try done.
    assert (u32 a' = v) as Ha' by (unfold widen in Ew; injection Ew as <-; by apply u32_widened).
    eapply (agree_call L st s2); [done| | | |done|done|].
    + intros r Hr. rewrite Q7 by (intros ->; done). cbn. unfold upd_reg. rewrite decide_False by (intros ->; done). rewrite Hr.
      by destruct r.
    + intros Hxr. rewrite X7. destruct (has_hint hints BJ_HINT_LDX) eqn:Hl.
      * destruct (Hx eq_refl) as (x & Rx & Lx). change (l_reg (mem s6)) with (l_reg m2). rewrite Lx. split; [by eexists|].
        intros HLX. rewrite (ag_X _ _ _ Ag2 Hxr HLX) in Rx. injection Rx as <-. by rewrite u32_word by apply Sok.
      * assert (regs s6 BJ_XREG = regs s2 BJ_XREG) as ->.
        { change (clobber (clock s5) (Fcop j) BJ_XREG (regs s2 BJ_XREG) = regs s2 BJ_XREG).
          destruct (call_X Hxr (clock s5) (Fcop j) (regs s2 BJ_XREG)) as [[_ ?]|?]; done. }
        split; [by apply Ag2|by apply Ag2].
    + rewrite Q7 by done. unfold s6, after_call. cbn. unfold upd_reg. by rewrite decide_True.
    + rewrite M7. change (mem s6) with m'. unfold m', called_memory. split; cbn [l_mem ext l_ctx l_extmem world rM rW]; auto.
      * intros E0. rewrite E0. by apply ML.
      * intros E0. destruct (Nat.eqb_spec (GET_EXTWORDS bc) 0); [done|]. split; [done|by apply ME].
Qed.

(** The outcome of a call, from the state behind it. *)
Lemma cop_ends o f v m w blk s' :
  f (rA st) (if (GET_EXTWORDS bc =? 0)%nat then [] else rM st) (rW st) = (v, m, w) → defs bc o pc = [A_bit] →
  run blk s = Some (Fall s') →
  agree (λ b, b = A_bit ∨ L b) (mk_bstate v (rX st) (if (GET_EXTWORDS bc =? 0)%nat then rM st else m) w) s' →
  ∃ e, run blk s = Some e ∧ sim_end L o pc
    (let '(v, m, w) := f (rA st) (if (GET_EXTWORDS bc =? 0)%nat then [] else rM st) (rW st) in
     Next (mk_bstate v (rX st) (if (GET_EXTWORDS bc =? 0)%nat then rM st else m) w)) e.
Proof.
  intros -> Hd R Ag'. exists (Fall s'). split; [done|]. exists s'. split; [done|]. rewrite Hd.
  eapply agree_weaken; [exact Ag'|]. intros b. rewrite list_elem_of_singleton. tauto.
Qed.

Lemma sim_Cop : L A_bit → has_hint hints BJ_HINT_COP = true → cop_exists bc Cop pc →
  simulates L Cop pc st s (op_block bc hints Cop pc false).
Proof.
  intros HL Hh (fs & Hfs & Hlt) out. pose proof k_word as [Hk0 _]. cbn [ref_insn op_block]. unfold call_cop. rewrite Hfs. cbn [mbind option_bind].
  destruct (fs !! Z.to_nat (i_k pc)) as [f|] eqn:Hf; [|apply lookup_ge_None in Hf; lia]. intros [= <-].
  destruct run_save as (s1 & R1 & Ag1 & Q1 & X1).
  destruct (cop_call s1 (Func (Fcop (Z.to_nat (i_k pc)))) (Z.to_nat (i_k pc)) f fs) as (s' & R' & Ag'); try done.
  { by rewrite Q1. }
  destruct (f _ _ _) as [[v m] w] eqn:Ef in Ag'. eapply cop_ends; [exact Ef|done| |exact Ag'].
  unfold cop_block. cbn [app]. by eapply run_app.
Qed.

Lemma run_find s1 fs f :
  has_hint hints BJ_HINT_COP = true → agree L st s1 → regs s1 BJ_XREG = Vint (rX st) → GET_FUNCS bc = Some fs →
  fs !! Z.to_nat (rX st) = Some f →
  ∃ s2, run (find_block bc) s1 = Some (Fall s2) ∧ same_but temps s1 s2 ∧ regs s2 BJ_TMP3REG = Vfun (Fcop (Z.to_nat (rX st))).
Proof.
  intros Hh Ag1 RX Hfs Hf. pose proof (so_X _ _ Sok) as [HX0 HX1]. pose proof (lookup_lt_Some _ _ _ Hf) as Hlt.
  assert (∃ c, bc = Some c) as [c Hbc] by (destruct bc; [by eexists|done]).
  assert (l_ctx (mem s1) = Vptr RCtx 0) as Hctx by (rewrite (am_ctx _ _ _ (ag_mem _ _ _ Ag1) Hh), Hbc; done).
  set (s2 := set_reg s1 BJ_TMP1REG (Vptr RCtx 0)). set (s3 := set_reg s2 BJ_TMP1REG (Vptr RFuncs 0)).
  set (s4 := set_reg s3 BJ_TMP2REG (Vint (rX st))). set (s5 := set_reg s4 BJ_TMP3REG (Vfun (Fcop (Z.to_nat (rX st))))).
  exists s5. split; [|split; [unfold s5, s4, s3, s2, temps; repeat apply same_but_set; try apply same_but_refl; set_solver|apply regs_set]].
  unfold find_block. rewrite Hfs. change (default [] (Some fs)) with fs. eapply run_cmp; [by apply source_int_reg|by apply source_int_imm, funcs_few|].
  cbn [compare]. destruct (Z.leb_spec (Z.of_nat (length fs)) (rX st)); [lia|].
  eapply run_op1; [apply move_reg; cbn [move_source source place]; rewrite (ag_locals _ _ _ Ag1); cbn; by rewrite Hctx|]. fold s2.
  eapply run_op1; [apply move_reg; cbn [move_source source place]; unfold s2; rewrite regs_set; cbn; by rewrite Hfs|]. fold s3.
  eapply run_op1; [apply move_reg; cbn [move_source source]; unfold s3, s2; by rewrite !regs_set_ne, RX|]. fold s4.
  eapply run_op1; [|done]. apply move_reg. cbn [move_source source place]. unfold s4, s3.
  rewrite regs_set_ne, !regs_set by done. cbn [mbind option_bind fst snd load64]. rewrite Hfs. cbn [mbind option_bind].
  rewrite Z.shiftl_mul_pow2 by lia. change (2 ^ 3) with 8. rewrite word_index_spec by lia. reflexivity.
Qed.

Lemma sim_Copx :
  L A_bit → L X_bit → has_hint hints BJ_HINT_COP = true → has_hint hints BJ_HINT_XREG = true → cop_exists bc Copx pc →
  simulates L Copx pc st s (op_block bc hints Copx pc false).
Proof.
  intros HL HLX Hh Hx (fs & Hfs) out. cbn [ref_insn op_block]. unfold call_cop. rewrite Hfs. cbn [mbind option_bind].
  pose proof (so_X _ _ Sok) as [HX0 HX1]. destruct run_save as (s1 & R1 & Ag1 & Q1 & X1).
  pose proof (ag_X _ _ _ Ag1 Hx HLX) as RX. unfold cop_block. destruct (fs !! Z.to_nat (rX st)) as [f|] eqn:Hf; intros [= <-].
  - destruct (run_find s1 fs f) as (s2 & R2 & S2 & T2); try done. pose proof S2 as [M2 N2].
    destruct (cop_call s2 (Reg BJ_TMP3REG) (Z.to_nat (rX st)) f fs) as (s' & R' & Ag'); try done.
    + by eapply agree_same.
    + intros s3 [_ R3]. apply source_reg. rewrite R3; [done|not_reg].
    + intros Hl. destruct (X1 Hl) as (x & Ex & El). exists x. rewrite M2, N2, Q1; [done|unfold temps; not_reg].
    + destruct (f _ _ _) as [[v m] w] eqn:Ef in Ag'. eapply cop_ends; [exact Ef|done| |exact Ag'].
      eapply run_app; [exact R1|]. by eapply run_app.
  - exists (Exit Dret0 s1). split; [|left; exists s1; split; [done|]; split; [done|by eapply agree_effects]].
    eapply run_app; [exact R1|]. unfold find_block. rewrite Hfs. change (default [] (Some fs)) with fs. cbn [app].
    eapply run_cmp; [by apply source_int_reg|by apply source_int_imm, funcs_few|].
    cbn [compare]. apply lookup_ge_None in Hf. by destruct (Z.leb_spec (Z.of_nat (length fs)) (rX st)); [|lia].
Qed.

(** ** Any instruction *)

Lemma sim_op o :
  decode (i_code pc) = Some o → (∀ b, b ∈ uses bc o pc → L b) → (o = Copx → L X_bit) →
  (∀ h, h ∈ op_hints o → has_hint hints h = true) → cop_exists bc o pc →
  (∀ n, op_read o = Some n → i_k pc + n ≤ buflen) → simulates L o pc st s (op_block bc hints o pc false).
Proof.
  intros Ho HU HCX HH HC HR.
  assert (A_bit ∈ uses bc o pc → L A_bit) as HA by apply HU. assert (X_bit ∈ uses bc o pc → L X_bit) as HX by apply HU.
  assert (∀ x : bool, (x = true → BJ_HINT_XREG ∈ op_hints o ∧ X_bit ∈ uses bc o pc) → x = true → has_hint hints BJ_HINT_XREG = true ∧ L X_bit) as HXx.
  { intros x Hx E. destruct (Hx E). split; [by apply HH|by apply HX]. }
  destruct o as [w|w| | | | | | | | | |al x| | |t x| | | | | |]; cbn [uses op_hints op_read] in *.
  - apply sim_LdAbs. by apply HR.
  - apply sim_LdInd; [apply HH; set_solver|apply HX; set_solver|by apply HR].
  - apply sim_LdLen.
  - apply sim_LdImm.
  - by apply sim_LdMem.
  - apply sim_LdxImm.
  - apply sim_LdxLen.
  - by apply sim_LdxMem.
  - apply sim_LdxMsh. by apply HR.
  - apply sim_St, HA. set_solver.
  - apply sim_Stx; [apply HH; set_solver|apply HX; set_solver].
  - assert (L A_bit) by (apply HA; destruct x; set_solver).
    assert (x = true → has_hint hints BJ_HINT_XREG = true ∧ L X_bit) by (apply HXx; intros ->; split; set_solver).
    destruct al; try (by apply sim_alu); [by apply (sim_moddiv false)|by apply (sim_moddiv true)].
  - apply sim_Neg, HA. set_solver.
  - by apply sim_Ja.
  - apply sim_Jcc; [done|apply HA; destruct x; set_solver|apply HXx; intros ->; split; set_solver].
  - apply sim_RetK.
  - apply sim_RetA, HA. set_solver.
  - apply sim_Tax, HA. set_solver.
  - apply sim_Txa; [apply HH; set_solver|apply HX; set_solver].
  - apply sim_Cop; [apply HA; set_solver|apply HH; set_solver|done].
  - apply sim_Copx; [apply HA; set_solver|by apply HCX|apply HH; set_solver|apply HH; set_solver|done].
Qed.

End Insn.

End Sim.
