(* ===== verification/BpfCorrect.v ===== *)
(** * The compiled program does what the program does *)

From S2P Require Import Prelude BpfInsn Lir BpfOpt BpfJit BpfFlow BpfBounds BpfSound BpfBlock BpfLayout BpfRun BpfSim.

(** ** Memory at the start *)

(** The words in a mask are set to 0. *)
Definition zero_words (z : Z) (m : list Z) : list Z :=
  imap (λ i v, if has_hint z (BJ_INIT_MBIT (Z.of_nat i)) then 0 else v) m.

Lemma has_mbit z k : 0 ≤ k → has_hint z (BJ_INIT_MBIT k) = Z.testbit z k.
Proof.
  intros Hk. unfold has_hint, BJ_INIT_MBIT. rewrite Z.shiftl_1_l. destruct (Z.testbit z k) eqn:Hb.
  - apply negb_true_iff, Z.eqb_neq. intros E. apply (f_equal (λ x, Z.testbit x k)) in E.
    by rewrite Z.land_spec, Hb, Z.pow2_bits_true, Z.testbit_0_l in E.
  - apply negb_false_iff, Z.eqb_eq, Z.bits_inj'. intros n Hn. rewrite Z.land_spec, Z.testbit_0_l.
    destruct (decide (n = k)) as [->|Hne]; [by rewrite Hb|]. by rewrite Z.pow2_bits_false, andb_false_r.
Qed.

(** The words that the code of the prologue sets. *)
Definition set_words (z : Z) (l : list nat) (m : list Z) : list Z :=
  foldl (λ m i, if has_hint z (BJ_INIT_MBIT (Z.of_nat i)) then <[i := 0]> m else m) m l.

Lemma set_words_length z l m : length (set_words z l m) = length m.
Proof.
  revert m. induction l as [|i l IH]; intros m; [done|]. cbn [set_words foldl]. etrans; [apply IH|]. destruct (has_hint _ _); [apply length_insert|done].
Qed.

Lemma set_words_lookup z l m k :
  set_words z l m !! k = if decide (k ∈ l ∧ has_hint z (BJ_INIT_MBIT (Z.of_nat k)) = true) then (λ _, 0) <$> m !! k else m !! k.
Proof.
  revert m. induction l as [|i l IH]; intros m.
  - rewrite decide_False; [done|]. intros [H _]. by apply not_elem_of_nil in H.
  - cbn [set_words foldl]. etrans; [apply IH|].
    destruct (has_hint z (BJ_INIT_MBIT (Z.of_nat i))) eqn:Hi.
    + destruct (decide (k = i)) as [->|Hne].
      * rewrite (decide_True (P := i ∈ i :: l ∧ _)) by (split; [left|done]).
        destruct (decide (i < length m)%nat) as [Hlt|Hge].
        -- rewrite list_lookup_insert_eq by done. destruct (lookup_lt_is_Some_2 m i Hlt) as [v ->]. by case_decide.
        -- assert (m !! i = None) as E by (apply lookup_ge_None; lia). rewrite list_insert_ge, E by lia. by case_decide.
      * rewrite list_lookup_insert_ne by done. apply decide_ext. rewrite elem_of_cons. naive_solver.
    + apply decide_ext. rewrite elem_of_cons. split; [naive_solver|]. intros [[->|?] ?]; [congruence|done].
Qed.

Lemma set_zero_words z m : set_words z (seq 0 (length m)) m = zero_words z m.
Proof.
  apply list_eq. intros k. rewrite set_words_lookup. unfold zero_words. rewrite list_lookup_imap.
  destruct (m !! k) as [v|] eqn:E; cbn; [|by case_decide]. pose proof (lookup_lt_Some _ _ _ E).
  destruct (has_hint z (BJ_INIT_MBIT (Z.of_nat k))).
  - rewrite decide_True; [done|]. split; [apply elem_of_seq; lia|done].
  - by rewrite decide_False by (intros [_ ?]; done).
Qed.

Section Correct.

Context {W : Type} (bc : option (bpf_ctx W)) (pkt : list Z) (wirelen : Z).
Context (junk : nat → Z) (clobber : nat → callee → reg → value → value).

Abbreviation run := (run_block bc pkt wirelen junk clobber).

(** ** The prologue *)

Definition with_l_mem (m : memory W) (l : list Z) : memory W :=
  mk_memory (l_ctx m) (l_extmem m) (l_reg m) l (ext m) (world m).
Definition with_ext (m : memory W) (l : list Z) : memory W :=
  mk_memory (l_ctx m) (l_extmem m) (l_reg m) (l_mem m) l (world m).

(** A word of memory is set to 0. *)
Lemma store_zero r (s : machine W) off (m : memory W) g o :
  regs s r = Vptr g o → store32 (mem s) g (o + off) 0 = Some m →
  exec_op1 bc pkt wirelen s SLJIT_MOV_UI (Mem1 r off) (Imm 0) = Some (set_mem s m).
Proof.
  intros Hr Hm. unfold exec_op1. cbn [move_source is_mem]. change (source_int _ _ _ s true (Imm 0)) with (Some 0).
  cbn [mbind option_bind place]. rewrite Hr. cbn [mbind option_bind int_of fst snd]. by rewrite Hm.
Qed.

Lemma run_init_local z l (s : machine W) :
  regs s SLJIT_LOCALS_REG = Vptr RLocals 0 → length (l_mem (mem s)) = 16%nat → Forall (λ i, (i < 16)%nat) l →
  ∃ s', run (plain (init_block z SLJIT_LOCALS_REG stack_mem l)) s = Some (Fall s') ∧ regs s' = regs s ∧
    mem s' = with_l_mem (mem s) (set_words z l (l_mem (mem s))).
Proof.
  intros Hr Hl Hlt. revert s Hr Hl. induction Hlt as [|i l Hi _ IH]; intros s Hr Hl.
  { exists s. split; [done|]. split; [done|]. by destruct (mem s). }
  change (init_block z SLJIT_LOCALS_REG stack_mem (i :: l)) with ((if has_hint z (BJ_INIT_MBIT (Z.of_nat i))
    then [Op1 SLJIT_MOV_UI (Mem1 SLJIT_LOCALS_REG (stack_mem + Z.of_nat i * 4)) (Imm 0)] else []) ++ init_block z SLJIT_LOCALS_REG stack_mem l).
  cbn [set_words foldl]. destruct (has_hint z (BJ_INIT_MBIT (Z.of_nat i))); [|by apply IH]. cbn [app].
  set (m1 := with_l_mem (mem s) (<[i := 0]> (l_mem (mem s)))).
  destruct (IH (set_mem s m1)) as (s' & R' & Q' & M'); [done|cbn; by rewrite length_insert|].
  exists s'. split; [|done]. eapply run_op1; [|exact R']. eapply store_zero; [done|]. cbn [store32].
  destruct (Z.eqb_spec (0 + (stack_mem + Z.of_nat i * 4)) stack_reg) as [E|_]; [unfold stack_mem, stack_reg in E; lia|].
  by rewrite Z.add_0_l, word_index_spec, Nat2Z.id by lia.
Qed.

Lemma run_init_ext z l (s : machine W) :
  regs s BJ_TMP1REG = Vptr RExt 0 → Forall (λ i, (i < length (ext (mem s)))%nat) l →
  ∃ s', run (plain (init_block z BJ_TMP1REG 0 l)) s = Some (Fall s') ∧ regs s' = regs s ∧
    mem s' = with_ext (mem s) (set_words z l (ext (mem s))).
Proof.
  intros Hr. revert s Hr. induction l as [|i l IH]; intros s Hr Hlt.
  { exists s. split; [done|]. split; [done|]. by destruct (mem s). }
  apply Forall_cons in Hlt as [Hi Hlt].
  change (init_block z BJ_TMP1REG 0 (i :: l)) with ((if has_hint z (BJ_INIT_MBIT (Z.of_nat i))
    then [Op1 SLJIT_MOV_UI (Mem1 BJ_TMP1REG (0 + Z.of_nat i * 4)) (Imm 0)] else []) ++ init_block z BJ_TMP1REG 0 l).
  cbn [set_words foldl]. destruct (has_hint z (BJ_INIT_MBIT (Z.of_nat i))); [|by apply IH]. cbn [app].
  set (m1 := with_ext (mem s) (<[i := 0]> (ext (mem s)))).
  destruct (IH (set_mem s m1)) as (s' & R' & Q' & M'); [done|cbn; by rewrite length_insert|].
  exists s'. split; [|done]. eapply run_op1; [|exact R']. eapply store_zero; [done|]. cbn [store32].
  by rewrite Z.add_0_l, word_index_spec, Nat2Z.id by lia.
Qed.

Context (hints initmask : Z).

Abbreviation z := (init_words bc initmask).

(** What is known when the function starts. *)
Record start_ok (s : machine W) : Prop := {
  sa_local : length (l_mem (mem s)) = 16%nat;
  sa_X : ∃ x, regs s BJ_XREG = Vint x;
  sa_ext : GET_EXTWORDS bc ≠ 0%nat → length (ext (mem s)) = GET_EXTWORDS bc ∧ Forall word (ext (mem s));
}.

Definition ctx_value : value := match bc with Some _ => Vptr RCtx 0 | None => Vint 0 end.

(** Registers that only the entry of the function sets. *)
Definition entered_regs (s0 s : machine W) : Prop :=
  regs s BJ_ARGS = Vptr RArgs 0 ∧ regs s SLJIT_LOCALS_REG = Vptr RLocals 0 ∧
  regs s BJ_AREG = regs s0 BJ_AREG ∧ regs s BJ_XREG = regs s0 BJ_XREG.

Lemma run_ctx_block s0 s :
  entered_regs s0 s → regs s BJ_CTX_ARG = ctx_value →
  ∃ s', run (plain (ctx_block hints)) s = Some (Fall s') ∧ regs s' = regs s ∧
    (has_hint hints BJ_HINT_COP = true → l_ctx (mem s') = ctx_value) ∧
    l_mem (mem s') = l_mem (mem s) ∧ ext (mem s') = ext (mem s) ∧ world (mem s') = world (mem s).
Proof.
  intros (_ & Hloc & _) Hc. unfold ctx_block. destruct (has_hint hints BJ_HINT_COP); [|by exists s]. eexists. split.
  - eapply run_op1; [|done]. unfold exec_op1. cbn [move_source source mbind option_bind place]. rewrite Hloc. cbn. reflexivity.
  - by split_and!.
Qed.

Lemma run_ext_block s0 s :
  entered_regs s0 s →
  ∃ s', run (plain (ext_block bc)) s = Some (Fall s') ∧ entered_regs s0 s' ∧ l_ctx (mem s') = l_ctx (mem s) ∧
    (GET_EXTWORDS bc ≠ 0%nat → l_extmem (mem s') = Vptr RExt 0 ∧ regs s' BJ_TMP1REG = Vptr RExt 0) ∧
    l_mem (mem s') = l_mem (mem s) ∧ ext (mem s') = ext (mem s) ∧ world (mem s') = world (mem s).
Proof.
  intros En. unfold ext_block. destruct (Nat.eqb_spec (GET_EXTWORDS bc) 0) as [E|E]; [by exists s|].
  pose proof En as (Ha & Hloc & HA & HX). set (s1 := set_reg s BJ_TMP1REG (Vptr RExt 0)).
  assert (entered_regs s0 s1) as En1 by done.
  eexists. split.
  - eapply run_op1; [apply move_reg; cbn [move_source source place]; rewrite Ha; reflexivity|]. fold s1.
    eapply run_op1; [|done]. unfold exec_op1. cbn [move_source source mbind option_bind place].
    destruct En1 as (_ & -> & _). cbn [mbind option_bind fst snd store64]. reflexivity.
  - by split_and!.
Qed.

Lemma run_words_block s0 s :
  entered_regs s0 s → length (l_mem (mem s)) = 16%nat → (GET_MEMWORDS bc ≤ 16)%nat →
  (GET_EXTWORDS bc ≠ 0%nat → regs s BJ_TMP1REG = Vptr RExt 0 ∧ length (ext (mem s)) = GET_EXTWORDS bc) →
  ∃ s', run (plain (words_block bc z)) s = Some (Fall s') ∧ entered_regs s0 s' ∧
    l_ctx (mem s') = l_ctx (mem s) ∧ l_extmem (mem s') = l_extmem (mem s) ∧ world (mem s') = world (mem s) ∧
    (GET_EXTWORDS bc = 0%nat → l_mem (mem s') = zero_words z (l_mem (mem s))) ∧
    (GET_EXTWORDS bc ≠ 0%nat → ext (mem s') = zero_words z (ext (mem s))).
Proof.
  intros En Hl Hm Hx. unfold words_block, memwords. unfold GET_MEMWORDS in *.
  destruct (Nat.eqb_spec (GET_EXTWORDS bc) 0) as [E|E].
  - destruct (run_init_local z (seq 0 BPF_MEMWORDS) s) as (s' & R & Q & M); [apply En|done|apply Forall_seq; unfold BPF_MEMWORDS in *; lia|].
    exists s'. split; [done|]. unfold entered_regs. rewrite Q, M. split_and!; try done; try apply En. intros _.
    rewrite <- set_zero_words, Hl. done.
  - destruct (Hx E) as [Ht Hlen]. destruct (run_init_ext z (seq 0 (GET_EXTWORDS bc)) s) as (s' & R & Q & M); [done|apply Forall_seq; lia|].
    exists s'. split; [done|]. unfold entered_regs. rewrite Q, M. split_and!; try done; try apply En. intros _.
    rewrite <- set_zero_words, Hlen. done.
Qed.

Lemma run_zero_block bit r s :
  ∃ s', run (plain (zero_block z bit r)) s = Some (Fall s') ∧ mem s' = mem s ∧
    ∀ q, regs s' q = if decide (q = r) then (if has_hint z bit then Vint 0 else regs s q) else regs s q.
Proof.
  unfold zero_block. destruct (has_hint z bit); [|exists s; split; [done|]; split; [done|]; intros q; by case_decide].
  exists (set_reg s r (Vint 0)). split; [by apply run_move|]. done.
Qed.

Lemma init_words_bit b :
  b = A_bit ∨ b = X_bit ∨ (GET_EXTWORDS bc = 0%nat ∧ 0 ≤ b < 32) → Z.testbit z b = Z.testbit initmask b.
Proof.
  unfold init_words. rewrite Z.land_spec, !Z.lor_spec.
  assert (Z.testbit BJ_INIT_ABIT A_bit = true) as EA by done. assert (Z.testbit BJ_INIT_XBIT X_bit = true) as EX by done.
  intros [->|[->|[E Hb]]].
  - by rewrite EA, orb_true_r, andb_true_r.
  - by rewrite EX, orb_true_r, andb_true_r.
  - replace (match bc with Some _ => _ | None => _ end) with 0.
    + rewrite not32_testbit, Z.testbit_0_l by done. by rewrite andb_true_r.
    + unfold GET_EXTWORDS in E. destruct bc as [c|]; [|done]. by rewrite E.
Qed.

(** The state of the reference machine that a start corresponds to. *)
Definition start_state (s : machine W) : bstate :=
  mk_bstate 0 0 (if (GET_EXTWORDS bc =? 0)%nat then replicate BPF_MEMWORDS 0 else zero_words z (ext (mem s))) (world (mem s)).

Lemma zero_words_word m : Forall word m → Forall word (zero_words z m).
Proof.
  intros Hm. apply Forall_lookup. intros k v. unfold zero_words. rewrite list_lookup_imap.
  destruct (m !! k) as [w|] eqn:E; [|done]. cbn. intros [= <-]. destruct (has_hint _ _); [done|]. by apply (Forall_lookup_1 _ _ _ _ Hm E).
Qed.

Lemma start_state_ok s : start_ok s → state_ok (GET_MEMWORDS bc) (start_state s).
Proof.
  intros [_ _ Hx]. unfold GET_MEMWORDS, start_state. split; cbn [rA rX rM]; [done|done|..];
    destruct (Nat.eqb_spec (GET_EXTWORDS bc) 0) as [E|E]; try done.
  - by apply Forall_replicate.
  - by apply zero_words_word, Hx.
  - unfold zero_words. rewrite length_imap. by apply Hx.
Qed.

Lemma prologue_agree (L : Z → Prop) s :
  start_ok s → (GET_MEMWORDS bc ≤ 16)%nat → (L A_bit → Z.testbit initmask A_bit = true) →
  (L X_bit → regs s BJ_XREG = Vint 0 ∨ Z.testbit initmask X_bit = true) →
  (∀ k, (k < 16)%nat → L (Z.of_nat k) → Z.testbit initmask (Z.of_nat k) = true) →
  ∃ s', run (plain (prologue bc hints initmask)) s = Some (Fall s') ∧ agree bc pkt hints L (start_state s) s'.
Proof.
  intros [Hl [x Hx] He] Hw HA HX HM. unfold prologue. set (s1 := exec_enter bc s). assert (entered_regs s s1) as En1 by done.
  destruct (run_ctx_block s s1 En1 eq_refl) as (s2 & R2 & Q2 & C2 & L2 & E2 & W2).
  assert (entered_regs s s2) as En2 by (unfold entered_regs; by rewrite Q2).
  destruct (run_ext_block s s2 En2) as (s3 & R3 & En3 & C3 & X3 & L3 & E3 & W3).
  destruct (run_words_block s s3 En3) as (s4 & R4 & En4 & C4 & X4 & W4 & L4 & E4); [by rewrite L3, L2|done| |].
  { intros E. split; [by apply X3|]. rewrite E3, E2. by apply He. }
  destruct (run_zero_block BJ_INIT_ABIT BJ_AREG s4) as (s5 & R5 & M5 & Q5).
  destruct (run_zero_block BJ_INIT_XBIT BJ_XREG s5) as (s6 & R6 & M6 & Q6).
  destruct En4 as (Ra & Rl & RA & RX).
  assert (regs s6 BJ_ARGS = Vptr RArgs 0) as Ra6 by (rewrite Q6, Q5; by rewrite !decide_False).
  assert (regs s6 SLJIT_LOCALS_REG = Vptr RLocals 0) as Rl6 by (rewrite Q6, Q5; by rewrite !decide_False).
  assert (regs s6 BJ_AREG = if Z.testbit initmask A_bit then Vint 0 else regs s BJ_AREG) as RA6.
  { rewrite Q6, Q5, decide_False, decide_True, RA by done. change BJ_INIT_ABIT with (BJ_INIT_MBIT A_bit).
    rewrite has_mbit, init_words_bit by (done || auto). done. }
  assert (regs s6 BJ_XREG = if Z.testbit initmask X_bit then Vint 0 else regs s BJ_XREG) as RX6.
  { rewrite Q6, Q5, decide_True, decide_False, RX by done. change BJ_INIT_XBIT with (BJ_INIT_MBIT X_bit).
    rewrite has_mbit, init_words_bit by (done || auto). done. }
  set (s7 := set_reg s6 BJ_BUF (Vptr RPkt 0)). set (s8 := set_reg s7 BJ_BUFLEN (Vint (Z.of_nat (length pkt)))).
  exists s8. split.
  - rewrite !plain_app. change (plain [Enter 2 (nscratches hints) nsaveds stack_size] ++ ?b) with ((Enter 2 (nscratches hints) nsaveds stack_size, None : option dest) :: b).
    cbn [run_block]. fold s1. eapply run_app; [exact R2|]. eapply run_app; [exact R3|]. eapply run_app; [exact R4|].
    eapply run_app; [exact R5|]. eapply run_app; [exact R6|].
    eapply run_op1; [apply move_reg; cbn [move_source source place]; rewrite Ra6; reflexivity|]. fold s7.
    eapply run_op1; [|done]. apply move_reg. cbn [move_source source place]. unfold s7. rewrite regs_set_ne, Ra6 by done. reflexivity.
  - split.
    + intros HLA. exists 0. split; [|done]. change (regs s8 BJ_AREG) with (regs s6 BJ_AREG). by rewrite RA6, (HA HLA).
    + intros _. change (regs s8 BJ_XREG) with (regs s6 BJ_XREG). rewrite RX6. destruct (Z.testbit initmask X_bit); [by eexists|by exists x].
    + intros _ HLX. change (regs s8 BJ_XREG) with (regs s6 BJ_XREG). rewrite RX6. destruct (HX HLX) as [Hx0|Hx0].
      * by destruct (Z.testbit initmask X_bit).
      * by rewrite Hx0.
    + done.
    + done.
    + exact Ra6.
    + exact Rl6.
    + change (mem s8) with (mem s6). rewrite M6, M5. split.
      * intros E. rewrite (L4 E), L3, L2. unfold zero_words at 1. rewrite length_imap. split; [done|]. intros k v Hk HLk Hv.
        unfold start_state in Hv. rewrite E in Hv. cbn [rM Nat.eqb] in Hv. apply lookup_replicate in Hv as [-> _].
        unfold zero_words. rewrite list_lookup_imap. change (mem s1) with (mem s).
        destruct (lookup_lt_is_Some_2 (l_mem (mem s)) k) as [w Hwk]; [by rewrite Hl|]. rewrite Hwk. cbn.
        rewrite has_mbit, init_words_bit, HM by (done || lia || auto with lia). done.
      * intros E. rewrite (E4 E), E3, E2, X4. split; [|by apply X3]. unfold start_state. cbn [rM].
        by destruct (Nat.eqb_spec (GET_EXTWORDS bc) 0).
      * intros Hh. rewrite C4, C3. by apply C2.
      * rewrite W4, W3, W2. done.
Qed.

(** ** The run *)

Context (insns : list bpf_insn) (F : list insn_data) (inv abc chk aft : nat → Z) (code : list lir) (targets : gmap nat nat).
Hypothesis FF : facts bc insns F initmask hints inv abc chk aft.
Hypothesis LY : layout bc hints insns F (prologue bc hints initmask) code targets.
Hypothesis insns_ok : Forall insn_ok insns.
Hypothesis insns_few : Z.of_nat (length insns) ≤ 2 ^ 32.
Hypothesis pkt_ok : Forall byte pkt.
Hypothesis wirelen_ok : word wirelen.
Hypothesis bc_ok : cop_ok bc.
Hypothesis pkt_short : Z.of_nat (length pkt) ≤ UINT32_MAX.
Hypothesis words_few : (GET_MEMWORDS bc ≤ 16)%nat.
Hypothesis funcs_few : ∀ fs, GET_FUNCS bc = Some fs → word (Z.of_nat (length fs)).
Hypothesis call_X : has_hint hints BJ_HINT_XREG = true →
  ∀ n f v, ((∃ j, f = Fcop j) ∧ has_hint hints BJ_HINT_LDX = true) ∨ clobber n f BJ_XREG v = v.

Abbreviation buflen := (Z.of_nat (length pkt)).
Abbreviation base := (length (prologue bc hints initmask)).
Abbreviation place i := (place_of bc hints insns F base i).

(** X is 0 from the start. *)
Context (X0 : bool).
Hypothesis copx_X0 : ∀ i pc, insn_at insns i pc Copx → X0 = true.

(** The words that agree before an instruction. *)
Definition live (i : nat) (b : Z) : Prop :=
  0 ≤ b < 32 ∧ (b = X_bit ∧ X0 = true ∨ (Z.testbit (inv i) b = true → Z.testbit initmask b = true)).

Lemma uses_range o pc b : insn_ok pc → b ∈ uses bc o pc → 0 ≤ b < 32.
Proof.
  intros (Hk & _ & _). assert (b ∈ mem_word bc pc → 0 ≤ b < 32) as Hm.
  { unfold mem_word. destruct (Z.ltb_spec (i_k pc) (Z.of_nat (GET_MEMWORDS bc))); [|intros Hn; by apply not_elem_of_nil in Hn].
    intros ->%list_elem_of_singleton. lia. }
  unfold A_bit, X_bit. destruct o as [| | | | | | | | | | |a []| | |t []| | | | | |]; cbn [uses]; auto;
    rewrite ?elem_of_cons, ?elem_of_nil; unfold A_bit, X_bit; lia.
Qed.

Lemma live_use i pc o b : reach F i → insn_at insns i pc o → b ∈ uses bc o pc → live i b.
Proof.
  intros Hr Hat Hb. pose proof (Forall_lookup_1 _ _ _ _ insns_ok (proj1 Hat)) as Hok.
  pose proof (uses_range o pc b Hok Hb) as Hrange. split; [done|]. right. by eapply (f_use _ _ _ _ _ _ _ _ _ FF).
Qed.

Lemma live_step i pc o t b :
  reach F i → insn_at insns i pc o → succ i pc o t → (t < length insns)%nat → live t b → b ∈ defs bc o pc ∨ live i b.
Proof.
  intros Hr Hat Hs Ht [Hb HL]. destruct (decide (b ∈ defs bc o pc)) as [?|Hnd]; [by left|]. right. split; [done|].
  destruct HL as [?|HL]; [by left|]. right. intros Hi. apply HL.
  destruct (f_succ _ _ _ _ _ _ _ _ _ FF i pc o t Hr Hat Hs Ht) as [_ Hleft]. by apply Hleft.
Qed.

(** A read is reached only when the packet is long enough. *)
Lemma read_length i pc o n : reach F i → insn_at insns i pc o → op_read o = Some n → i_k pc + n ≤ abc i.
Proof.
  intros Hr [Hpc Ho] Hn. assert (jumps o = false) as Hj by (by destruct o).
  destruct (f_abc_next _ _ _ _ _ _ _ _ _ FF i pc Hr Hpc) as (d & a & -> & _); [by rewrite (jumps_class pc o)|].
  rewrite (length_op _ _ _ _ _ Ho Hj). unfold op_length. destruct o; try done; rewrite Hn; lia.
Qed.

Lemma sim_check i pc o d st s L :
  F !! i = Some d → unreachable d = false → insn_at insns i pc o → agree bc pkt hints L st s → chk i ≤ buflen →
  (run (check_block pc d) s = Some (Exit Dret0 s) ∧ buflen < abc i) ∨
  (run (check_block pc d) s = Some (Fall s) ∧ never_read pc d = false ∧ (∀ n, op_read o = Some n → abc i ≤ buflen)).
Proof.
  intros Hd Hu [Hpc Ho] Ag Hchk. pose proof (read_op pc o Ho) as Hrd. unfold check_block, never_read.
  destruct (op_read o) as [n|]; cbn in Hrd; rewrite Hrd; [|by right].
  destruct (f_check _ _ _ _ _ _ _ _ _ FF i pc d _ Hd Hu Hpc Hrd) as [-> _].
  destruct (Z.ltb_spec (chk i) (abc i)) as [Hlt|Hge].
  - destruct (Z.ltb_spec UINT32_MAX (abc i)) as [Hmax|Hmax]; [left; split; [done|lia]|].
    destruct (Z.ltb_spec 0 (abc i)) as [Hpos|Hneg]; [|right; split_and!; [done|done|lia]].
    assert (run [(Cmp SLJIT_C_LESS false (Reg BJ_BUFLEN) (Imm (abc i)), Some Dret0)] s =
      if buflen <? abc i then Some (Exit Dret0 s) else Some (Fall s)) as ->.
    { cbn [run_block]. rewrite (source_int_reg _ _ _ s false _ _ (ag_buflen _ _ _ _ _ _ Ag)), source_int_imm by (unfold word, UINT32_MAX in *; lia).
      done. }
    destruct (Z.ltb_spec buflen (abc i)); [by left|right; split_and!; [done|done|lia]].
  - right. split_and!; [done|done|lia].
Qed.

(** The end that returns 0. *)
Lemma gives_end st s : effects bc st s → gives bc pkt wirelen junk clobber code targets (place (length insns)) s (result_of bc 0 st).
Proof.
  intros [He Hw]. exists 1%nat. cbn [lir_run]. rewrite (ly_end _ _ _ _ _ _ _ LY). cbn. unfold result_of.
  destruct (Nat.eqb_spec (GET_EXTWORDS bc) 0); by rewrite ?He, ?Hw.
Qed.

Definition tgt (i : nat) (pc : bpf_insn) (d : dest) : nat :=
  match d with Dret0 => place (length insns) | Dbranch b => place (target i pc b) end.

(** The block of an instruction in the code. *)
Lemma block_gives i pc o d s e r :
  F !! i = Some d → unreachable d = false → insn_at insns i pc o → run (insn_block bc hints o pc d) s = Some e →
  match e with
  | Fall s' => gives bc pkt wirelen junk clobber code targets (place (S i)) s' r
  | Exit x s' => gives bc pkt wirelen junk clobber code targets (tgt i pc x) s' r
  | Stop r' => r' = r
  end → gives bc pkt wirelen junk clobber code targets (place i) s r.
Proof.
  intros Hd Hu [Hpc Ho] Hrun He.
  assert (code_block bc hints insns F i = insn_block bc hints o pc d) as E by (unfold code_block; by rewrite Hpc, Hd, Hu, Ho).
  eapply (run_block_gives _ _ _ _ _ code targets (insn_block bc hints o pc d) (place i) s e r (tgt i pc)); try done.
  - intros k x Hk. rewrite <- E in Hk. by apply (ly_code _ _ _ _ _ _ _ LY).
  - intros k x dd Hk. rewrite <- E in Hk. destruct dd as [|b]; cbn [tgt].
    + by apply (ly_ret0 _ _ _ _ _ _ _ LY i k x).
    + by apply (ly_branch _ _ _ _ _ _ _ LY i k x b pc).
  - rewrite <- E. exact He.
Qed.

Lemma next_falls pc o (st st' : bstate (W := W)) :
  ref_insn bc pkt wirelen pc o st = Some (Next st') → falls o = true ∧ jumps o = false.
Proof. by destruct o. Qed.

Lemma skip_jumps pc o (st st' : bstate (W := W)) d : ref_insn bc pkt wirelen pc o st = Some (Skip d st') → jumps o = true ∧ st' = st.
Proof.
  destruct o as [w|w| | | | | | | | | |a x| | |t x| | | | | |]; cbn [ref_insn]; try done;
    try (intros [= E]; destruct (pkt_read _ _ _); done);
    try (destruct (rM st !! Z.to_nat (i_k pc)); done);
    try (by intros [= _ <-]);
    try (unfold call_cop; intros [= E]; destruct (_ ≫= _) as [f|]; [destruct (f _ _ _) as [[??]?]|]; done).
  destruct a; try done; try (intros [= E]; by destruct (_ =? _)); by destruct (_ <? _).
Qed.

(** The machines are at an instruction, in states that agree. *)
Record ready (i : nat) (st : bstate) (s : machine W) : Prop := {
  rd_reach : reach F i;
  rd_state : state_ok (GET_MEMWORDS bc) st;
  rd_agree : agree bc pkt hints (live i) st s;
  rd_check : chk i ≤ buflen;
}.

Lemma ready_succ i pc o t st st' s s' :
  ready i st s → insn_at insns i pc o → succ i pc o t → (t < length insns)%nat → state_ok (GET_MEMWORDS bc) st' →
  agree bc pkt hints (λ b, b ∈ defs bc o pc ∨ live i b) st' s' → (reach F t → chk t ≤ buflen) → ready t st' s'.
Proof.
  intros R Hat Hs Ht Sok' Ag' Hchk. destruct (f_succ _ _ _ _ _ _ _ _ _ FF i pc o t (rd_reach _ _ _ R) Hat Hs Ht) as [Hr' _].
  split; [done|done| |by apply Hchk]. eapply agree_weaken; [exact Ag'|]. intros b. apply (live_step i pc o t); try done. apply R.
Qed.

Lemma ready_next i pc o st st' s s' :
  ready i st s → insn_at insns i pc o → ref_insn bc pkt wirelen pc o st = Some (Next st') → (S i < length insns)%nat →
  (∀ n, op_read o = Some n → abc i ≤ buflen) → state_ok (GET_MEMWORDS bc) st' →
  agree bc pkt hints (λ b, b ∈ defs bc o pc ∨ live i b) st' s' → ready (S i) st' s'.
Proof.
  intros R Hat Hout HS Hread Sok' Ag'. destruct (next_falls _ _ _ _ Hout) as [Hf Hj]. pose proof Hat as [Hpc Ho].
  pose proof (rd_reach _ _ _ R) as Hr. pose proof (rd_check _ _ _ R) as Hchk.
  assert (too_long pc = false) as Ht.
  { unfold too_long. rewrite (read_op pc o Ho). destruct (op_read o) as [n|] eqn:En; [|done]. cbn. apply Z.ltb_ge.
    pose proof (Hread n eq_refl). pose proof (read_length i pc o n Hr Hat En). lia. }
  eapply ready_succ; [done|done|by constructor|done|done|done|]. intros Hr'.
  pose proof (f_chk_next _ _ _ _ _ _ _ _ _ FF i Hr Hr') as Hnext. destruct (op_read o) as [n|] eqn:En.
  - destruct Hr as (d & Hd & Hu).
    destruct (f_check _ _ _ _ _ _ _ _ _ FF i pc d (i_k pc + n) Hd Hu Hpc) as [_ Haft]; [by rewrite (read_op pc o Ho), En|].
    specialize (Hread n eq_refl). lia.
  - rewrite (f_plain _ _ _ _ _ _ _ _ _ FF i pc Hr Hpc) in Hnext by (by rewrite (read_op pc o Ho), En). lia.
Qed.

Lemma ready_jump i pc o st s s' b :
  ready i st s → insn_at insns i pc o → jumps o = true → agree bc pkt hints (live i) st s' →
  ready (target i pc b) st s' ∧ target i pc b = (S i + Z.to_nat (branch_offset pc b))%nat.
Proof.
  intros R Hat Hj Ag'. pose proof Hat as [Hpc Ho]. pose proof (rd_reach _ _ _ R) as Hr. pose proof (rd_check _ _ _ R) as Hchk.
  assert (is_jmp pc = true) as Hjmp by (by rewrite (jumps_class pc o)).
  destruct (f_jumps _ _ _ _ _ _ _ _ _ FF i pc Hr Hpc Hjmp) as [Hb _]. split.
  - eapply ready_succ; [done|done|by constructor|apply Hb|apply R| |].
    + eapply agree_weaken; [exact Ag'|]. intros b' [Hdef|?]; [|done]. destruct o; try done; by apply not_elem_of_nil in Hdef.
    + intros _. pose proof (f_chk_jump _ _ _ _ _ _ _ _ _ FF i pc b Hr Hpc Hjmp). lia.
  - apply (target_next insns); try done. by apply (Forall_lookup_1 _ _ _ _ insns_ok Hpc).
Qed.

Lemma ext_or_mem : GET_EXTWORDS bc = 0%nat ∨ GET_EXTWORDS bc = GET_MEMWORDS bc.
Proof. unfold GET_MEMWORDS. destruct (Nat.eqb_spec (GET_EXTWORDS bc) 0); auto. Qed.

(** The block of an instruction, when its check has passed or is not needed. *)
Lemma ready_op i pc o d st s out :
  ready i st s → insn_at insns i pc o → F !! i = Some d → never_read pc d = false → (∀ n, op_read o = Some n → abc i ≤ buflen) →
  run (check_block pc d) s = Some (Fall s) → ref_insn bc pkt wirelen pc o st = Some out →
  ∃ e, run (insn_block bc hints o pc d) s = Some e ∧ sim_end bc pkt hints (live i) o pc out e.
Proof.
  intros R Hat Hd Hnr Hread Rc Hout. pose proof Hat as [Hpc Ho]. pose proof (rd_reach _ _ _ R) as Hr.
  destruct (sim_op bc pkt wirelen junk clobber hints pkt_ok wirelen_ok bc_ok pkt_short (f_ldx _ _ _ _ _ _ _ _ _ FF) words_few funcs_few call_X
    (live i) pc st s (rd_agree _ _ _ R) (rd_state _ _ _ R) (Forall_lookup_1 _ _ _ _ insns_ok Hpc) o Ho) with (out := out) as (e & Re & He); try done.
  - intros b. by apply (live_use i pc o).
  - intros ->. split; [done|]. left. split; [done|]. by eapply copx_X0.
  - intros h. by apply (f_hints _ _ _ _ _ _ _ _ _ FF i pc o).
  - by apply (ly_cop _ _ _ _ _ _ _ LY i pc o).
  - intros n Hn. specialize (Hread n Hn). pose proof (read_length i pc o n Hr Hat Hn). lia.
  - exists e. split; [|done]. unfold insn_block. rewrite run_block_app, Rc, Hnr. exact Re.
Qed.

(** From every instruction, the code gives what the program gives. *)
Lemma run_sim fuel i st s r :
  ready i st s → ref_run bc insns pkt wirelen fuel i st = Some r → gives bc pkt wirelen junk clobber code targets (place i) s r.
Proof.
  revert i st s. induction fuel as [|fuel IH]; intros i st s R Hrun; [done|]. pose proof Hrun as Hrun0. revert Hrun. cbn [ref_run].
  destruct (insns !! i) as [pc|] eqn:Hpc; [|done]. cbn [mbind option_bind].
  destruct (decode (i_code pc)) as [o|] eqn:Ho; [|done]. cbn [mbind option_bind].
  destruct (ref_insn bc pkt wirelen pc o st) as [out|] eqn:Hout; [|done]. cbn [mbind option_bind]. intros Hrun.
  pose proof R as [(d & Hd & Hu) Sok Ag Hchk]. assert (insn_at insns i pc o) as Hat by done.
  pose proof (ref_insn_ok bc insns pkt wirelen pkt_ok wirelen_ok bc_ok _ _ _ _ _ _
    (Forall_lookup_1 _ _ _ _ insns_ok Hpc) Hpc Sok ext_or_mem Hout) as Sok'.
  destruct (sim_check i pc o d st s (live i) Hd Hu Hat Ag Hchk) as [[Rc Hshort]|(Rc & Hnr & Hread)].
  { assert (r = result_of bc 0 st) as -> by (eapply quiet_run; try done; [apply ext_or_mem|by exists d]).
    eapply (block_gives i pc o d s); try done; [unfold insn_block; by rewrite run_block_app, Rc|].
    cbn. eapply gives_end, agree_effects, Ag. }
  destruct (ready_op i pc o d st s out R Hat Hd Hnr Hread Rc Hout) as (e & Rb & He).
  eapply (block_gives i pc o d s e r Hd Hu Hat Rb). destruct out as [st'|k st'|v st'].
  - destruct He as (s' & -> & Ag'). eapply (IH (S i) st'); [|done]. eapply ready_next; try done.
    destruct fuel; [done|]. cbn [ref_run] in Hrun. destruct (insns !! S i) eqn:E; [by eapply lookup_lt_Some|done].
  - destruct He as (b & s' & -> & He & Ag'). destruct (skip_jumps _ _ _ _ _ Hout) as [Hj ->].
    destruct (ready_jump i pc o st s s' b R Hat Hj Ag') as [R' Et]. rewrite <- Et in Hrun. pose proof (IH _ _ _ R' Hrun) as Hg.
    destruct He as [->|[-> Hk0]]; [done|]. rewrite Hk0, Nat.add_0_r in Et. by rewrite <- Et.
  - injection Hrun as <-. destruct He as [(s' & -> & -> & Heff)|Es]; [by apply gives_end|by subst e].
Qed.

(** From the start of the function. *)
Lemma start_sim fuel s r :
  start_ok s → (X0 = true → regs s BJ_XREG = Vint 0) →
  ref_run bc insns pkt wirelen fuel 0 (start_state s) = Some r → gives bc pkt wirelen junk clobber code targets 0 s r.
Proof.
  intros Hs HX Hrun.
  assert (∀ b, live 0 b → b = X_bit ∧ X0 = true ∨ Z.testbit initmask b = true) as Hlive.
  { intros b [Hb [?|Hi]]; [by left|]. right. apply Hi. by apply (f_start _ _ _ _ _ _ _ _ _ FF). }
  destruct (prologue_agree (live 0) s Hs words_few) as (s' & R & Ag).
  - intros H. by destruct (Hlive _ H) as [[? _]|?].
  - intros H. destruct (Hlive _ H) as [[_ ?]|?]; auto.
  - intros k Hk H. destruct (Hlive _ H) as [[Ek _]|?]; [unfold X_bit in Ek; lia|done].
  - eapply (run_block_gives _ _ _ _ _ code targets _ 0 s _ r (λ _, 0%nat)); [| |exact R|].
    + intros k x. unfold plain. rewrite list_lookup_fmap. destruct (prologue bc hints initmask !! k) as [y|] eqn:E; [|done].
      intros [= <-]. by apply (ly_pre _ _ _ _ _ _ _ LY).
    + intros k x d. unfold plain. rewrite list_lookup_fmap. by destruct (prologue bc hints initmask !! k).
    + unfold plain. rewrite length_fmap. cbn [Nat.add].
      apply (run_sim fuel 0 (start_state s)); [|done]. split; [apply FF|by apply start_state_ok|done|].
      pose proof (f_chk_start _ _ _ _ _ _ _ _ _ FF). lia.
Qed.

End Correct.
