(* ===== verification/BpfSpec.v ===== *)
(** * What the compiler of filter programs promises

    Compiled code gives what the program gives; programs that are well formed, and with them
    their code, always return; the length checks that the optimizer leaves out are not
    missed. *)

From S2P Require Import Prelude BpfInsn Lir BpfOpt BpfJit BpfFlow BpfBounds BpfSound BpfBlock BpfLayout BpfRun BpfSim BpfCorrect.

(** ** The conditions *)

(** A program of C whose instructions all exist. *)
Record program_ok (insns : list bpf_insn) : Prop := {
  pr_fields : Forall insn_ok insns;
  pr_count : Z.of_nat (length insns) ≤ 2 ^ 32;
  pr_codes : Forall (λ pc, is_Some (decode (i_code pc))) insns;
}.

(** The packet and the coprocessor that a filter is given. *)
Record env_ok {W} (bc : option (bpf_ctx W)) (pkt : list Z) (wirelen : Z) : Prop := {
  en_pkt : Forall byte pkt;
  en_buflen : Z.of_nat (length pkt) ≤ UINT32_MAX;
  en_wirelen : word wirelen;
  en_cop : cop_ok bc;
  en_funcs : ∀ fs, GET_FUNCS bc = Some fs → word (Z.of_nat (length fs));
}.

(** Calls keep X in a program that uses it, unless they are calls of the coprocessor in a
    program that loads X, where the code saves it. *)
Definition calls_keep_X (hints : Z) (clobber : nat → callee → reg → value → value) : Prop :=
  has_hint hints BJ_HINT_XREG = true →
  ∀ n f v, ((∃ j, f = Fcop j) ∧ has_hint hints BJ_HINT_LDX = true) ∨ clobber n f BJ_XREG v = v.

(** [COPX] finds X initialised. *)
Definition copx_ok {W} (insns : list bpf_insn) (s : machine W) : Prop :=
  (∃ i pc, insn_at insns i pc Copx) → regs s BJ_XREG = Vint 0.

Section Spec.

Context {W : Type} (bc : option (bpf_ctx W)) (ok : nat → bool) (insns : list bpf_insn) (dat : list insn_data).
Context (pkt : list Z) (wirelen : Z) (junk : nat → Z) (clobber : nat → callee → reg → value → value).

Lemma compiled_sim F initmask hints code targets (s : machine W) fuel r :
  program_ok insns → length dat = length insns → env_ok bc pkt wirelen →
  bpfjit_generate_code bc ok insns dat = Some (Some (code, targets)) → optimize bc insns dat = Some (F, initmask, hints) →
  start_ok bc s → calls_keep_X hints clobber → copx_ok insns s →
  ref_run bc insns pkt wirelen fuel 0 (start_state bc initmask s) = Some r →
  ∃ fuel, lir_run bc pkt wirelen junk clobber fuel code targets 0 s = Some r.
Proof.
  intros [P1 P2 P3] Hl [E1 E2 E3 E4 E5] Hg Ho Hs HX HC Hrun.
  destruct (compiled_layout bc ok insns dat code targets P1 P2 P3 Hl Hg) as (Hm & F' & im & h & inv & abc & chk & aft & Ho' & FF & LY).
  rewrite Ho in Ho'. injection Ho' as <- <- <-.
  eapply (start_sim bc pkt wirelen junk clobber hints initmask insns F inv abc chk aft code targets FF LY P1 P2 E1 E3 E4 E2 Hm E5 HX
    (match regs s BJ_XREG with Vint x => x =? 0 | _ => false end)); [|done| |exact Hrun].
  - intros i pc Hat. by rewrite HC by (by exists i, pc).
  - destruct (regs s BJ_XREG) as [x| |]; try done. by intros ->%Z.eqb_eq.
Qed.

(** ** Programs that return *)

(** What the reference machine needs to go on from an instruction: the words it uses exist,
    shifts are in range, and the next instruction is in the program. *)
Definition runnable_insn (n i : nat) (pc : bpf_insn) : bool :=
  match decode (i_code pc) with
  | None => false
  | Some o =>
      match o with
      | RetK | RetA => true
      | Ja | Jcc _ _ =>
          (S i + Z.to_nat (fst (jump_offsets pc)) <? n)%nat && (S i + Z.to_nat (snd (jump_offsets pc)) <? n)%nat
      | LdMem | LdxMem | St | Stx => (i_k pc <? Z.of_nat (GET_MEMWORDS bc)) && (S i <? n)%nat
      | Alu Lsh x | Alu Rsh x => negb x && (i_k pc <=? 31) && (S i <? n)%nat
      | _ => (S i <? n)%nat
      end
  end.

Definition runnable : bool := forallb id (imap (runnable_insn (length insns)) insns).

Lemma runnable_at i pc : runnable = true → insns !! i = Some pc → runnable_insn (length insns) i pc = true.
Proof.
  unfold runnable. rewrite forallb_forall. intros H Hpc. apply (H _). apply list_elem_of_In, (list_elem_of_lookup_2 _ i).
  by rewrite list_lookup_imap, Hpc.
Qed.

(** The program ends, or goes on at one of its instructions. *)
Definition goes_on (i : nat) (out : outcome (W := W)) : Prop :=
  match out with
  | Next _ => (S i < length insns)%nat
  | Skip d _ => (S i + Z.to_nat d < length insns)%nat
  | Ret _ _ => True
  end.

(** A step: it exists, and it ends the program or goes forward in it. *)
Lemma runnable_step i pc o (st : bstate (W := W)) :
  insn_ok pc → insns !! i = Some pc → decode (i_code pc) = Some o → runnable_insn (length insns) i pc = true →
  length (rM st) = GET_MEMWORDS bc →
  ∃ out, ref_insn bc pkt wirelen pc o st = Some out ∧ goes_on i out.
Proof.
  intros (Hk & _ & _) Hpc Ho Hrun Hlen. unfold runnable_insn in Hrun. rewrite Ho in Hrun.
  assert (∀ v (f : Z → bstate (W := W)), (S i <? length insns)%nat = true → goes_on i (load st v f)) as Hload.
  { intros [v|] f Hn%Nat.ltb_lt; cbn; [lia|done]. }
  assert (∀ f : Z → bstate (W := W), (i_k pc <? Z.of_nat (GET_MEMWORDS bc)) && (S i <? length insns)%nat = true →
    ∃ out, (v ← rM st !! Z.to_nat (i_k pc); Some (Next (f v))) = Some out ∧ goes_on i out) as Hmem.
  { intros f [H1%Z.ltb_lt H2%Nat.ltb_lt]%andb_prop.
    destruct (lookup_lt_is_Some_2 (rM st) (Z.to_nat (i_k pc))) as [v ->]; [lia|]. by eexists. }
  assert (∀ k, (S i <? length insns)%nat = true → goes_on i (call_cop bc st k)) as Hcop.
  { intros k Hn%Nat.ltb_lt. unfold call_cop. destruct (_ ≫= _) as [f|]; [|done]. by destruct (f _ _ _) as [[??]?]. }
  destruct o as [w|w| | | | | | | | | |al x| | |t x| | | | | |]; cbn [ref_insn];
    try (eexists; split; [done|]; by first [apply Hload|apply Hcop|apply Nat.ltb_lt in Hrun]); try (by eexists); try (by apply Hmem).
  - destruct al; try (eexists; split; [done|]; by apply Nat.ltb_lt in Hrun).
    + eexists. split; [done|]. apply Nat.ltb_lt in Hrun. by destruct (_ =? _).
    + apply andb_prop in Hrun as [[Hx Hs]%andb_prop Hn%Nat.ltb_lt]. destruct x; [done|]. apply Z.leb_le in Hs.
      destruct (Z.ltb_spec 31 (i_k pc)); [lia|]. by eexists.
    + apply andb_prop in Hrun as [[Hx Hs]%andb_prop Hn%Nat.ltb_lt]. destruct x; [done|]. apply Z.leb_le in Hs.
      destruct (Z.ltb_spec 31 (i_k pc)); [lia|]. by eexists.
    + eexists. split; [done|]. apply Nat.ltb_lt in Hrun. by destruct (_ =? _).
  - apply andb_prop in Hrun as [H1%Nat.ltb_lt _]. eexists. split; [done|]. unfold jump_offsets in H1.
    apply decode_Some in Ho. by rewrite Ho in H1.
  - apply andb_prop in Hrun as [H1%Nat.ltb_lt H2%Nat.ltb_lt]. eexists. split; [done|]. cbn.
    assert (jump_offsets pc = (i_jt pc, i_jf pc)) as E by (apply decode_Some in Ho; unfold jump_offsets; rewrite Ho; by destruct t, x).
    rewrite E in H1, H2. by destruct (test_eval _ _ _).
Qed.

Lemma runnable_returns fuel i (st : bstate (W := W)) :
  runnable = true → program_ok insns → env_ok bc pkt wirelen → (i < length insns)%nat → (length insns - i ≤ fuel)%nat →
  state_ok (GET_MEMWORDS bc) st → ∃ r, ref_run bc insns pkt wirelen fuel i st = Some r.
Proof.
  intros Hrun P E. revert i st. induction fuel as [|fuel IH]; intros i st Hi Hf Sok; [lia|]. cbn [ref_run].
  destruct (lookup_lt_is_Some_2 insns i Hi) as [pc Hpc]. rewrite Hpc. cbn [mbind option_bind].
  destruct (Forall_lookup_1 _ _ _ _ (pr_codes _ P) Hpc) as [o Ho]. rewrite Ho. cbn [mbind option_bind].
  pose proof (Forall_lookup_1 _ _ _ _ (pr_fields _ P) Hpc) as Hok.
  destruct (runnable_step i pc o st Hok Hpc Ho (runnable_at i pc Hrun Hpc) (so_len _ _ Sok)) as (out & Hout & Hnext). rewrite Hout. cbn [mbind option_bind].
  pose proof (ref_insn_ok bc insns pkt wirelen (en_pkt _ _ _ E) (en_wirelen _ _ _ E) (en_cop _ _ _ E) _ _ _ _ _ _ Hok Hpc Sok (ext_or_mem bc) Hout) as Sok'.
  destruct out as [st'|d st'|v st']; [apply IH; [done|lia|done]|apply IH; [done|lia|done]|by eexists].
Qed.

(** ** The theorems *)



(** C11: The length that the optimizer records for a read is safe to check in its place: on a packet that is shorter, a run from that read on returns 0 and changes neither the external memory nor the world, whatever the registers hold. *)
Theorem optimize_short_packet F initmask hints i pc d n fuel (st : bstate (W := W)) r :
  program_ok insns → length dat = length insns → env_ok bc pkt wirelen → (0 < length insns)%nat →
  optimize bc insns dat = Some (F, initmask, hints) → F !! i = Some d → unreachable d = false →
  insns !! i = Some pc → read_pkt_insn pc = Some n → state_ok (GET_MEMWORDS bc) st → Z.of_nat (length pkt) < r_abc_length d →
  ref_run bc insns pkt wirelen fuel i st = Some r → r = result_of bc 0 st.
Proof.
  intros [P1 P2 P3] Hl [E1 E2 E3 E4 E5] Hn Ho Hd Hu Hpc Hrd Sok Hlen Hrun.
  destruct (optimize_facts bc insns P1 P2 Hn dat F initmask hints Hl Ho) as (inv & abc & chk & aft & FF).
  rewrite (f_abc_read _ _ _ _ _ _ _ _ _ FF i pc d n Hd Hu Hpc Hrd) in Hlen.
  eapply quiet_run; try done; [apply ext_or_mem|by exists d].
Qed.

End Spec.

(** ** A filter

    It adds the first two bytes behind a header to a count that the coprocessor keeps, and
    returns a third of a word of the external memory and the length of the header. *)

Module Sample.

Definition count (a : Z) (m : list Z) (w : Z) : Z * list Z * Z := (u32 (a + w), m, w + 1).
Definition bc : option (bpf_ctx Z) := Some (mk_ctx (Some [count]) 2 1).
Definition insns : list bpf_insn :=
  [mk_insn (encode LdxMsh) 0 0 0; mk_insn (encode (LdInd HalfW)) 0 0 0; mk_insn (encode Cop) 0 0 0; mk_insn (encode St) 0 0 1;
   mk_insn (encode LdMem) 0 0 0; mk_insn (encode (Alu Add true)) 0 0 0; mk_insn (encode (Alu Div false)) 0 0 3;
   mk_insn (encode (Jcc Jgt false)) 0 1 5; mk_insn (encode RetA) 0 0 0; mk_insn (encode RetK) 0 0 7].
Definition dat : list insn_data := replicate 10 (mk_data [] 0 0 (λ _, None) 0 0 0 true).
Definition pkt : list Z := [0x41; 0; 0; 0; 1; 2; 3; 4].
Definition junk (n : nat) : Z := Z.of_nat n * 12345.
Definition clobber (n : nat) (f : callee) (r : reg) (v : value) : value :=
  match f, r with Fcop _, _ => Vint 99 | _, SLJIT_TEMPORARY_EREG1 => v | _, _ => Vfun f end.
Definition start : machine Z :=
  mk_machine (λ _, Vint 5) (mk_memory (Vint 1) (Vint 2) 3 (replicate 16 77) [10; 20] 100) 0.

Definition compiled : list lir * gmap nat nat :=
  match bpfjit_generate_code bc (λ _, true) insns dat with Some (Some c) => c | _ => ([], ∅) end.
Definition optimized : list insn_data * Z * Z := default ([], 0, 0) (optimize bc insns dat).
Definition initmask : Z := snd (fst optimized).

Lemma compiled_eq : bpfjit_generate_code bc (λ _, true) insns dat = Some (Some (fst compiled, snd compiled)).
Proof. vm_compute. reflexivity. Qed.

Lemma optimized_eq : optimize bc insns dat = Some (fst (fst optimized), initmask, snd optimized).
Proof. vm_compute. reflexivity. Qed.

Lemma program : program_ok insns.
Proof. split; [repeat constructor; cbn; lia|cbn; lia|]. repeat constructor; by eexists. Qed.

Lemma env p : Forall byte p → (length p ≤ 8)%nat → env_ok bc p 60.
Proof.
  intros Hp Hl. split; [done|unfold UINT32_MAX; lia|done| |].
  - intros fs [|i] f a m w [= <-]; [intros [= <-]|by destruct i]. cbn. intros Ha Hm. split; [apply word_u32|done].
  - by intros fs [= <-].
Qed.

Lemma start_fits : start_ok bc start.
Proof. split; [done|by eexists|]. intros _. split; [done|]. repeat constructor; lia. Qed.

Lemma keeps_X : calls_keep_X (snd optimized) clobber.
Proof. intros _ n [| |j] v; [by right|by right|]. left. split; [by eexists|]. vm_compute. reflexivity. Qed.

Lemma no_copx : copx_ok insns start.
Proof.
  intros (i & pc & Hpc & Hd). do 10 (destruct i as [|i]; [injection Hpc as <-; discriminate Hd|]). by destruct i.
Qed.

End Sample.



Lemma optimize_short_packet_witness :
  ref_run Sample.bc Sample.insns [1] 60 10 0 (mk_bstate 3 4 [10; 20] 100) = Some (0, [10; 20], 100) ∧
  (0, [10; 20], 100) = result_of Sample.bc 0 (mk_bstate 3 4 [10; 20] 100).
Proof.
  split; [vm_compute; reflexivity|].
  apply (optimize_short_packet Sample.bc Sample.insns Sample.dat [1] 60 (fst (fst Sample.optimized)) Sample.initmask (snd Sample.optimized)
    0 (mk_insn (encode LdxMsh) 0 0 0) (default (mk_data [] 0 0 (λ _, None) 0 0 0 true) (fst (fst Sample.optimized) !! 0%nat)) 1 10).
  - exact Sample.program.
  - reflexivity.
  - apply Sample.env; [repeat constructor; lia|cbn; lia].
  - cbn. lia.
  - exact Sample.optimized_eq.
  - vm_compute. reflexivity.
  - vm_compute. reflexivity.
  - reflexivity.
  - reflexivity.
  - split; [done|done|repeat constructor; lia|done].
  - vm_compute. reflexivity.
  - vm_compute. reflexivity.
Defined.
