(* ===== verification/BpfFlaws.v ===== *)
(** * What the compiler of filter programs gets wrong

    Programs whose code does not do what they do, or that the compiler does not treat as it
    should. *)

From S2P Require Import Prelude BpfInsn Lir BpfOpt BpfJit BpfFlow BpfSound BpfCorrect BpfSpec.

(** A processor on which calls leave numbers in every scratch register, as the header of the
    assembler allows, and a function of the coprocessor that returns its argument. *)
Definition lose (n : nat) (f : callee) (r : reg) (v : value) : value := Vint 99.
Definition same (a : Z) (m : list Z) (w : unit) : Z * list Z * unit := (a, m, w).
Definition one_func : option (bpf_ctx unit) := Some (mk_ctx (Some [same]) 0 0).
Definition anywhere : machine unit :=
  mk_machine (λ _, Vint 5) (mk_memory (Vint 1) (Vint 2) 3 (replicate 16 77) [] tt) 0.

Definition blank (insns : list bpf_insn) : list insn_data := (λ _, mk_data [] 0 0 (λ _, None) 0 0 0 true) <$> insns.

(** The result of the compiled program, from [anywhere]. *)
Definition compile_and_run (bc : option (bpf_ctx unit)) (insns : list bpf_insn) : option (Z * list Z * unit) :=
  match bpfjit_generate_code bc (λ _, true) insns (blank insns) with
  | Some (Some (code, targets)) => lir_run bc [] 0 (λ _, 0) lose 100 code targets 0 anywhere
  | _ => None
  end.
Definition interpret (bc : option (bpf_ctx unit)) (insns : list bpf_insn) : option (Z * list Z * unit) :=
  ref_run bc insns [] 0 100 0 (mk_bstate 0 0 (replicate 16 0) tt).

(** X is saved around a call of the coprocessor only if the program has a load of X. *)
Theorem cop_loses_X :
  let insns := [mk_insn (encode LdImm) 0 0 42; mk_insn (encode Tax) 0 0 0; mk_insn (encode Cop) 0 0 0;
                mk_insn (encode Txa) 0 0 0; mk_insn (encode RetA) 0 0 0] in
  interpret one_func insns = Some (42, [], tt) ∧ compile_and_run one_func insns = Some (99, [], tt).
Proof. split; vm_compute; reflexivity. Qed.

(** X is not saved around the call of [divide]. *)
Theorem div_loses_X :
  let insns := [mk_insn (encode LdxImm) 0 0 5; mk_insn (encode LdImm) 0 0 30; mk_insn (encode (Alu Div false)) 0 0 7;
                mk_insn (encode Txa) 0 0 0; mk_insn (encode RetA) 0 0 0] in
  interpret None insns = Some (5, [], tt) ∧ compile_and_run None insns = Some (99, [], tt).
Proof. split; vm_compute; reflexivity. Qed.

(** The first pass does not count [COPX] as a use of X, so X is not initialised for it. *)
Theorem copx_uninitialised :
  let insns := [mk_insn (encode LdImm) 0 0 42; mk_insn (encode Copx) 0 0 0; mk_insn (encode RetA) 0 0 0] in
  interpret one_func insns = Some (42, [], tt) ∧ compile_and_run one_func insns = Some (0, [], tt).
Proof. split; vm_compute; reflexivity. Qed.

(** A return of neither [k] nor [A] is compiled to nothing. *)
Theorem ret_falls_through :
  let insns := [mk_insn 0x1e 0 0 3; mk_insn (encode RetK) 0 0 8; mk_insn (encode RetK) 0 0 9] in
  compile_and_run None insns = Some (0, [], tt) ∧ interpret None insns = None.
Proof. split; vm_compute; reflexivity. Qed.

(** A jump that does not exist fails an assertion, where other instructions that do not exist
    make the compiler fail. *)
Theorem bad_jump_asserts :
  let insns op := [mk_insn op 0 1 3; mk_insn (encode RetK) 0 0 8; mk_insn (encode RetK) 0 0 9] in
  bpfjit_generate_code (W := unit) None (λ _, true) (insns 0x55) (blank (insns 0x55)) = None ∧
  bpfjit_generate_code (W := unit) None (λ _, true) (insns 0xc4) (blank (insns 0xc4)) = Some None.
Proof. split; vm_compute; reflexivity. Qed.

(** A shift by X is refused for the value of a field that it does not use. *)
Theorem shift_by_X_refused :
  let insns k := [mk_insn (encode LdxImm) 0 0 1; mk_insn (encode LdImm) 0 0 3; mk_insn (encode (Alu Lsh true)) 0 0 k;
                  mk_insn (encode RetA) 0 0 0] in
  interpret None (insns 32) = Some (6, [], tt) ∧ compile_and_run None (insns 0) = Some (6, [], tt) ∧
  bpfjit_generate_code (W := unit) None (λ _, true) (insns 32) (blank (insns 32)) = Some None.
Proof. split_and!; vm_compute; reflexivity. Qed.
